(* ===== verification/_CoqProject ===== *)
-Q . S2P
Prelude.v
GnmiTypes.v
Pathz.v
PathzSpec.v
HostIO.v
PanicMonad.v
Filepath.v
GnsiPathz.v
GnsiPathzProofs.v
GnsiAuthz.v
GnsiAuthzProofs.v
Trie.v
DbTypes.v
VirtualDb.v
VirtualDbProofs.v
JsonClient.v
JsonClientProofs.v
Bypass.v
Auth.v
Server.v
ServerProofs.v
ConnManager.v
DbClient.v
DbClientProofs.v
SubscribeClient.v
SubscribeClientProofs.v
MixedDb.v
MixedSet.v
MixedSetProofs.v
ConfigSet.v
HostService.v
Credentialz.v
CredentialzProofs.v
Certz.v
CertzProofs.v
ShellPolicy.v
DebugRpc.v
DebugRpcProofs.v
FileService.v
FileServiceProofs.v
OsService.v
YgotDiff.v
YgotDiffProofs.v
TranslSubscriber.v
TranslSubscriberProofs.v
SuperSub.v
SuperSubProofs.v
TranslUtils.v
TranslClient.v
TranslClientProofs.v
DpuProxy.v
DpuProxyProofs.v
HostCommand.v
GnoiSystem.v
GnoiSystemProofs.v
GnoiServices.v
GnoiServicesProofs.v
DialOut.v
DialOutProofs.v
Journal.v
EventClient.v
Operational.v
Telemetry.v
TelemetryProofs.v
NonDb.v
NonDbProofs.v
ShowClient.v
ShowCommands.v
ShowProofs.v
Session.v
Stream.v
StreamProofs.v
SonicDbConfig.v
MixedRuntime.v
CounterMemory.v
ServerTls.v
Collector.v
GnoiClient.v
GnoiClientProofs.v
