(* ===== verification/Prelude.v ===== *)
(** * A verification of the SONiC management server (sonic-gnmi)

    The program is the gNMI/gNSI/gNOI server of a SONiC switch.  A request enters
    through the server (src/gnmi_server/server.go, client_subscribe.go), which
    authenticates the caller (basicAuth, jwtAuth, pamAuth, clientCertAuth), limits the
    connections (connection_manager.go), and chooses a data client for its target
    (src/sonic_data_client): the database client for telemetry, the native client for
    configuration and application databases, the translib client for YANG models, and a
    fast path for small writes (src/pkg/bypass).  The gNOI services run operations on the
    switch: files, images, diagnostic commands, reboots.  The gNSI services change the
    server's own credentials and policies; a path authorizer (src/pathz_authorizer)
    decides which paths a user may read and write.  Privileged work is done by the host
    service over D-Bus (src/sonic_service_client).

    ** Files

    - [Prelude]: results of fallible functions, Go maps with an arbitrary iteration
      order ([MapRange]), the functions of packages strings and strconv that the code
      uses, shared tactics and lemmas.  [PanicMonad]: computations on a server's state
      that may panic, with deferred calls.  [Filepath]: path/filepath.  [GnmiTypes]:
      gNMI paths, values and status codes.
    - [Pathz], [PathzSpec]: pathz_authorizer.go, the policy trie and its refinement of a
      flat rule list.
    - [HostIO]: files and the Redis metadata table, where any system call may fail, with
      gnsi_util.go.  [GnsiPathz], [GnsiAuthz] and their proofs: gnsi_pathz.go and
      gnsi_authz.go, policy rotation.
    - [Credentialz], [CredentialzProofs]: gnsi_credentialz.go, rotation of SSH keys,
      principals, console passwords, CA keys and GLOME.  [Certz], [CertzProofs]:
      gnsi_certz.go, rotation of certificates behind symbolic links.
    - [HostService]: dbus_client.go, every host operation, the check
      of replies and the counters.
    - [Trie], [DbTypes], [VirtualDb], [VirtualDbProofs]: trie.go and virtual_db.go, the
      virtual paths of COUNTERS_DB.  [DbTypes] also holds the interface to Redis: the
      record [Redis] of commands and the class [RedisServes] of its laws, discharged by
      an in-memory store.
    - [DbClient], [DbClientProofs]: db_client.go, Get, polling and subscriptions of the
      database client.
    - [JsonClient], [JsonClientProofs]: json_client.go, the configuration in memory.
    - [MixedDb], [MixedSet], [ConfigSet] and their proofs: mixed_db_client.go, the native
      client (paths and reads; writes to application databases; configuration).
    - [Bypass]: bypass.go, the fast path of Set.
    - [Auth]: the authentication methods and roles.
    - [Server], [ServerProofs]: Get, Set, Capabilities and master arbitration.
    - [ConnManager]: the connection limit and the client registry.
    - [SubscribeClient], [SubscribeClientProofs]: the Subscribe RPC, its goroutines as a
      step relation over channels, queue and wait group.
    - [ShellPolicy], [DebugRpc] and their proofs: pkg/gnoi/debug (the command policy, the
      white lists, the streaming RPC), gnoi_debug.go and internal/exec/command.go.
    - [FileService], [FileServiceProofs]: pkg/gnoi/file, gnoi_file.go, internal/download
      and internal/hash: transfers to and from the switch and to its DPUs.
    - [OsService]: gnoi_os.go and pkg/gnoi/os, image installation.
    - [YgotDiff], [YgotDiffProofs]: ygot_diff.go, the difference of two data trees.
      [TranslSubscriber], [TranslSubscriberProofs]: transl_subscriber.go, samples and
      change notifications.  [SuperSub], [SuperSubProofs]: super_subscription.go, sessions
      that share one sampler.  [TranslUtils], [TranslClient], [TranslClientProofs]:
      transl_utils.go and transl_data_client.go, Get, Set, Poll and Stream over translib.
    - [DpuProxy], [DpuProxyProofs]: pkg/interceptors, the interceptor chain and the proxy
      that routes requests to the DPUs of a switch.
    - [HostCommand]: pkg/exec/command.go, commands in the namespaces of the host.
      [GnoiSystem], [GnoiSystemProofs]: gnoi_system.go, gnoi_reset.go, pkg/gnoi/system,
      swss_util.go and notification_producer.go.  [GnoiServices], [GnoiServicesProofs]:
      gnoi_healthz.go, gnoi_containerz.go, gnoi_oras.go, pkg/gnoi/oras, pkg/hostfs.
    - [DialOut], [DialOutProofs]: dialout_client.go, the configuration of the dial-out
      telemetry and its publishers.
    - [Journal]: db_journal.go, the log of the changes of a database with
      its rotation.  [EventClient]: events_client.go, the receiver of
      events and its statistics beside the RPC.  [Operational]:
      pkg/server/operational-handler, internal/firmware, internal/diskspace.
    - [Telemetry], [TelemetryProofs]: telemetry/telemetry.go with NewServer and Stop of
      server.go: arguments and flags, listeners, and the life of the server beside the
      monitors of its certificates and the signal handler.
    - [NonDb], [NonDbProofs]: non_db_client.go, the statistics of the processors and the
      data of /proc.  [ShowClient], [ShowCommands], [ShowProofs]: show_client.go and
      src/show_client, the options of show commands and the commands.
    - [Session]: gnoi.go, jwtAuth.go, pamAuth.go and debug.go: the token
      and password sessions of the SONiC service and the identity an RPC runs under.
    - [Stream], [StreamProofs]: StreamRun of db_client.go and of mixed_db_client.go: the
      goroutines of a subscription with their wait groups, the sync response and the end
      of the stream.  Both clients are instances of one record of operations and its laws.
    - [SonicDbConfig]: db_config.go, the addresses of the databases and their cache.
      [MixedRuntime]: connections, ZMQ clients, PollRun and Close of
      mixed_db_client.go.  [CounterMemory]: common_utils/context.go, shareMem.go and
      gnmi_dump.go, the counters in shared memory.
    - [ServerTls]: SrvAdvConfig, Serve and Capabilities of server.go with the certificates
      a handshake is served.  [Collector]: send of dialout_client.go and dialout_server.go.
    - [GnoiClient], [GnoiClientProofs]: src/gnoi_client, the command line client, and its
      dialogues with the File, OS, System, Containerz and Healthz services above.

    ** How the model corresponds to the code

    A definition has the name of the function it models; a method takes the fields it
    uses and returns the new state.  Errors are values of an enumeration of the error
    returns; a panic is a value of its own where the code can panic.  Integers with a
    width are [Z] or [N] with the range checks and the wrap-around of the code.  Maps
    are [gmap]; a loop over a map takes its order from [MapRange], and the theorems hold
    for every order.  Pointers that are shared (trie nodes, metadata objects and maps,
    registered clients) live in heaps.

    What is outside the repository or outside the logic is a parameter: Redis commands,
    swsscommon calls, the D-Bus, files and system calls (each with an oracle that says
    which call fails, so a theorem for every oracle covers every pattern of failures),
    JSON, protocol and PEM codecs, cryptography, the clock.  A request of the database
    clients reads Redis as it was when the request began.  Logging is left out;
    mutexes are left out where the whole method runs under them.

    ** What the theorems show

    - Refinement: the policy trie answers as the flat rule list; Get of the database
      client answers as the contents of the database; SetDB performs exactly the writes
      a request stands for, in order, whatever is batched; the samples of a translib
      subscription keep the view of the client equal to the data tree.
    - Safety of rotations: an aborted pathz (over a loaded policy), authz, certz or GLOME rotation
      restores what was active; a finalized one has installed and published the last upload; the
      credentialz service follows the checkpoint protocol of the host and never panics;
      the links of certificate and key change together or not at all.
    - Safety of requests: no write of a client that authentication refuses except by the
      fast path, which touches only allowed tables; no write over TLS without a role; a configuration patch is applied only when the whole
      request is valid, and saved only after it was applied; a diagnostic command runs
      only when the policy accepts it, as the white list of the user says; a file is
      replaced whole and verified or not at all, also on a DPU behind the proxy; a failed
      installation keeps the image; a reboot has exactly its effects.
    - Concurrency: the connection limit under every interleaving, the registry, channels
      closed at most once, and termination of an RPC whose channel was closed; one
      connection for each DPU; the publishers of dial-out telemetry end when they are told
      to; shared subscriptions have one sampler and always find it when one leaves; a Get over
      translib answers every path under every schedule of its workers; every event is
      accounted for under every interleaving of its goroutines; an update of the
      certificates of the server is not missed once their watch is there, and a stop
      ends the server whatever its files and monitors do, once no RPC in progress holds up
      a graceful restart.
    - Logs and operational data: the log of a database is shortened at its start only, its
      entries lead from one state to the next, its backups are bounded; file listings are
      exact, and the utilisation of the processors is that of the samples taken; a show
      command gets exactly the options of its request.
    - Equivalences and round trips: independence of map order, dispatch of virtual paths,
      JSON add and remove, entries written to Redis and read back, views of polling and
      subscribing clients, the difference of two trees as a patch, files sent and received.
    - Theorems that are not properties of the manifest but findings show where the code
      does not do what it means to (for example roll-backs that do not restore metadata).

    ** Bounds and fuel

    - [VirtualDb] populates its trie from a fixed table; the walk of [Trie] is bounded by
      the depth of paths, and conversion to a tree uses fuel 6, one more than the longest
      pattern of the table.
    - [MixedSet.retryLoop] has fuel [attempts] = 7; [retry_bounded] shows that the loop
      returns within it.
    - The walk over the policy trie has fuel [pathFuel], more than the steps of a path;
      [authorize_walk] shows that it is enough.  [Healthz.waitForArtifact] has fuel 61, which
      [artifact_wait_ends] shows to be enough.
    - All other recursion is structural on requests, events or lists.

    ** Not modelled

    Generated protocol code, mocks and fakes of tests, and the command line programs of the
    dial-out telemetry (flags and a call each).  Of modelled files: sub-second timing, log
    and progress output.

    ** Plan

    The agreement of the certz links with the active entities. *)

From stdpp Require Export gmap strings list sorting pretty.
#[export] Set Warnings "-register-all,-clear-no-such-hyp".

(** * Results of fallible Go functions

    A Go function returning [(T, error)] is modelled by [res E T]: [Ok v] is
    [(v, nil)] and [Err e] is [(_, err)] with [err != nil].  [E] is an
    enumeration of the return statements that build the error. *)

Inductive res (E A : Type) : Type :=
| Ok (a : A)
| Err (e : E).
Arguments Ok {E A} a.
Arguments Err {E A} e.

Declare Scope go_scope.
Delimit Scope go_scope with go.

(** [try x := c in k] is [x, err := c; if err != nil { return err }; k]. *)
Notation "'try' x ':=' c 'in' k" :=
  (match c with Ok x => k | Err e => Err e end)
  (at level 10, x name, c at level 100, k at level 200,
   format "'[v' 'try'  x  ':='  c  'in' '/' k ']'") : go_scope.

Definition is_ok {E A} (r : res E A) : bool :=
  match r with Ok _ => true | Err _ => false end.

(** [for _, x := range l { if err := f(x); err != nil { return err } }]
    threading a state [S]. *)
Fixpoint foldM {E S A} (f : S -> A -> res E S) (s : S) (l : list A) : res E S :=
  match l with
  | [] => Ok s
  | a :: l' => match f s a with Ok s' => foldM f s' l' | Err e => Err e end
  end.

(** A loop that builds a slice and stops at the first error. *)
Fixpoint mapM_res {E A B} (f : A -> res E B) (l : list A) : res E (list B) :=
  match l with
  | [] => Ok []
  | a :: l' =>
      match f a with
      | Err e => Err e
      | Ok b => match mapM_res f l' with Ok bs => Ok (b :: bs) | Err e => Err e end
      end
  end.

(** * Go maps

    [range m] visits the entries of a map in an unspecified order.  [MapRange]
    is one such order; statements quantify over it. *)

Class MapRange := {
  range_of : forall {V : Type}, gmap string V -> list (string * V);
  range_of_perm : forall {V : Type} (m : gmap string V), range_of m ≡ₚ map_to_list m
}.

(** The order [map_to_list] is one admissible order; concrete runs use it. *)
#[global] Instance map_range_default : MapRange := {|
  range_of := fun V m => map_to_list m;
  range_of_perm := fun V m => reflexivity (map_to_list m)
|}.

(** Another admissible order, the reverse one. *)
Definition map_range_rev : MapRange.
Proof.
  refine {| range_of := fun V m => reverse (map_to_list m) |}.
  intros V m. by rewrite reverse_Permutation.
Defined.

(** * The [strings] and [strconv] functions the sources use *)

(** Go's [s[n:]] and [s[:n]]. *)
Fixpoint strdrop (n : nat) (s : string) : string :=
  match n, s with
  | S n', String _ s' => strdrop n' s'
  | _, _ => s
  end.

Fixpoint strtake (n : nat) (s : string) : string :=
  match n, s with
  | S n', String c s' => String c (strtake n' s')
  | _, _ => EmptyString
  end.

(** [strings.HasPrefix(s, p)]. *)
Fixpoint str_prefix (p s : string) : bool :=
  match p, s with
  | EmptyString, _ => true
  | String c p', String d s' => Ascii.eqb c d && str_prefix p' s'
  | String _ _, EmptyString => false
  end.

Definition has_prefix (s p : string) : bool := str_prefix p s.

(** [strings.HasSuffix(s, p)]. *)
Definition has_suffix (s p : string) : bool :=
  (String.length p <=? String.length s) &&
  String.eqb (strdrop (String.length s - String.length p) s) p.

(** [strings.TrimPrefix(s, p)] and [strings.TrimSuffix(s, p)]. *)
Definition trim_prefix (s p : string) : string :=
  if has_prefix s p then strdrop (String.length p) s else s.

Definition trim_suffix (s p : string) : string :=
  if has_suffix s p then strtake (String.length s - String.length p) s else s.

(** [strings.Index(s, sep)]; [None] stands for [-1]. *)
Fixpoint str_index (s sep : string) : option nat :=
  if str_prefix sep s then Some 0
  else match s with
       | EmptyString => None
       | String _ s' => S <$> str_index s' sep
       end.

(** [strings.Contains(s, sub)]. *)
Definition str_contains (s sub : string) : bool :=
  match str_index s sub with Some _ => true | None => false end.

(** [strings.ReplaceAll(s, old, new)] for a non-empty [old]: the scan skips the
    bytes of an occurrence after writing [new] for it. *)
Fixpoint replace_go (old new : string) (skip : nat) (s : string) : string :=
  match s with
  | EmptyString => EmptyString
  | String c s' =>
      match skip with
      | S k => replace_go old new k s'
      | O =>
          if str_prefix old s
          then new +:+ replace_go old new (String.length old - 1) s'
          else String c (replace_go old new 0 s')
      end
  end.

Definition replace_all (s old new : string) : string := replace_go old new 0 s.

(** The bytes of a string, one string each (what [strings.Split(s, EmptyString)]
    gives on ASCII input). *)
Fixpoint explode (s : string) : list string :=
  match s with
  | EmptyString => []
  | String c s' => String c EmptyString :: explode s'
  end.

(** [strings.Split(s, sep)]. *)
Fixpoint split_go (sep : string) (skip : nat) (cur : string) (s : string)
    : list string :=
  match s with
  | EmptyString => [cur]
  | String c s' =>
      match skip with
      | S k => split_go sep k cur s'
      | O =>
          if str_prefix sep s
          then cur :: split_go sep (String.length sep - 1) EmptyString s'
          else split_go sep 0 (cur +:+ String c EmptyString) s'
      end
  end.

Definition str_split (s sep : string) : list string :=
  match sep with
  | EmptyString => explode s
  | _ => split_go sep 0 EmptyString s
  end.

(** [strings.SplitN(s, sep, 2)]. *)
Definition str_splitn2 (s sep : string) : list string :=
  match sep with
  | EmptyString =>
      match s with
      | EmptyString => []
      | String c EmptyString => [s]
      | String c s' => [String c EmptyString; s']
      end
  | _ =>
      match str_index s sep with
      | Some i => [strtake i s; strdrop (i + String.length sep) s]
      | None => [s]
      end
  end.

(** [strings.TrimFunc(s, f)], [strings.Trim] with a one-byte cutset and
    [strings.TrimSpace] (ASCII white space). *)
Fixpoint drop_while (f : Ascii.ascii -> bool) (l : list Ascii.ascii) : list Ascii.ascii :=
  match l with
  | [] => []
  | c :: l' => if f c then drop_while f l' else l
  end.

Definition str_trim_func (f : Ascii.ascii -> bool) (s : string) : string :=
  String.string_of_list_ascii (rev (drop_while f (rev (drop_while f (String.list_ascii_of_string s))))).

Definition is_blank (c : Ascii.ascii) : bool := Ascii.nat_of_ascii c =? 32.
Definition is_space (c : Ascii.ascii) : bool :=
  let n := Ascii.nat_of_ascii c in (n =? 32) || ((9 <=? n) && (n <=? 13)).

Definition trim_blanks : string -> string := str_trim_func is_blank.
Definition trim_space : string -> string := str_trim_func is_space.

(** [strings.ToLower] on ASCII input. *)
Definition lower_ascii (c : Ascii.ascii) : Ascii.ascii :=
  let n := Ascii.nat_of_ascii c in
  if (65 <=? n) && (n <=? 90) then Ascii.ascii_of_nat (n + 32) else c.

Fixpoint to_lower (s : string) : string :=
  match s with
  | EmptyString => EmptyString
  | String c s' => String (lower_ascii c) (to_lower s')
  end.

(** [strings.LastIndex(s, sep)] for a one-byte separator; [None] stands for [-1]. *)
Fixpoint last_index (s : string) (sep : Ascii.ascii) : option nat :=
  match s with
  | EmptyString => None
  | String c s' =>
      match last_index s' sep with
      | Some i => Some (S i)
      | None => if Ascii.eqb c sep then Some 0 else None
      end
  end.

(** [strings.Join(l, sep)]. *)
Fixpoint str_join (l : list string) (sep : string) : string :=
  match l with
  | [] => EmptyString
  | [a] => a
  | a :: l' => a +:+ sep +:+ str_join l' sep
  end.

(** A string between double quotes, unescaped. *)
Definition dquote : string := String (Ascii.ascii_of_nat 34) EmptyString.
Definition quoted (s : string) : string := dquote +:+ s +:+ dquote.

(** [strconv.Atoi] on a 64-bit platform: an optional sign, at least one decimal
    digit, nothing else, and a value in the range of [int64]. *)
Definition digit_val (c : Ascii.ascii) : option Z :=
  let n := Z.of_nat (Ascii.nat_of_ascii c) in
  if ((48 <=? n) && (n <=? 57))%Z then Some (n - 48)%Z else None.

Fixpoint atoi_digits (acc : Z) (s : string) : option Z :=
  match s with
  | EmptyString => Some acc
  | String c s' =>
      match digit_val c with
      | Some d => atoi_digits (acc * 10 + d)%Z s'
      | None => None
      end
  end.

Definition int64_min : Z := (- 2 ^ 63)%Z.
Definition int64_max : Z := (2 ^ 63 - 1)%Z.

Definition atoi (s : string) : option Z :=
  let signed :=
    match s with
    | EmptyString => None
    | String c s' =>
        if Ascii.nat_of_ascii c =? 45 then      (* '-' *)
          match s' with EmptyString => None | _ => Z.opp <$> atoi_digits 0 s' end
        else if Ascii.nat_of_ascii c =? 43 then (* '+' *)
          match s' with EmptyString => None | _ => atoi_digits 0 s' end
        else atoi_digits 0 s
    end in
  match signed with
  | Some z => if ((int64_min <=? z) && (z <=? int64_max))%Z then Some z else None
  | None => None
  end.

(** [strconv.ParseUint(s, 10, 64)]. *)
Definition parse_uint (s : string) : option Z :=
  match s with
  | EmptyString => None
  | _ => z ← atoi_digits 0 s; if (z <? 2 ^ 64)%Z then Some z else None
  end.

(** [sort.Strings(keys)] after collecting the keys of a map. *)
Definition sorted_keys {V} (m : gmap string V) : list string :=
  merge_sort String.le (map_to_list m).*1.

(** * Shared tactics *)

(** Case analysis on the scrutinee of the first [match]/[if] of the goal, keeping
    the equation, then discarding the impossible cases. *)
Ltac case_goal :=
  match goal with
  | |- context [match ?x with _ => _ end] => destruct x eqn:?
  end; simplify_eq/=.

Ltac case_hyp H :=
  match type of H with
  | context [match ?x with _ => _ end] => destruct x eqn:?
  end; simplify_eq/=.

Ltac go_cases := repeat case_goal; try done; eauto.

Create HintDb gnmi.

(** * Lemmas on results and folds *)

Lemma foldM_app {E S A} (f : S -> A -> res E S) s l1 l2 :
  foldM f s (l1 ++ l2) =
  match foldM f s l1 with Ok s' => foldM f s' l2 | Err e => Err e end.
Proof. revert s; induction l1 as [|a l1 IH]; intros s; simpl; [done|]. by case_goal. Qed.

Lemma foldM_inv {E S A} (P : S -> Prop) (f : S -> A -> res E S) s l s' :
  (forall s a s', P s -> f s a = Ok s' -> P s') ->
  P s -> foldM f s l = Ok s' -> P s'.
Proof.
  intros Hf. revert s; induction l as [|a l IH]; intros s Hs H; simpl in H; [by simplify_eq|].
  destruct (f s a) eqn:E1; [|done]. eapply IH; [|done]. by eapply Hf.
Qed.

Lemma foldM_inv_in {E S A} (P : S -> Prop) (f : S -> A -> res E S) s l s' :
  (forall s a s', a ∈ l -> P s -> f s a = Ok s' -> P s') ->
  P s -> foldM f s l = Ok s' -> P s'.
Proof.
  revert s; induction l as [|a l IH]; intros s Hf Hs H; simpl in H; [by simplify_eq|].
  destruct (f s a) eqn:E1; [|done]. eapply IH; [|by eapply Hf; [left| |]|done].
  intros t b t' Hb. apply Hf. by right.
Qed.

Lemma mapM_res_Ok {E A B} (f : A -> res E B) l bs :
  mapM_res f l = Ok bs <-> Forall2 (fun a b => f a = Ok b) l bs.
Proof.
  revert bs; induction l as [|a l IH]; intros bs; simpl.
  - split; [intros [= <-]; constructor | by inversion 1].
  - split.
    + intros H. repeat case_hyp H. constructor; [done|]. by apply IH.
    + intros (b & l' & -> & H%IH & ->)%Forall2_cons_inv_l. by rewrite H.
Qed.

Lemma mapM_res_Err {E A B} (f : A -> res E B) l e :
  mapM_res f l = Err e -> exists a, a ∈ l /\ f a = Err e.
Proof.
  induction l as [|a l IH]; simpl; [done|].
  destruct (f a) as [b|e'] eqn:E1; [|intros [= ->]; exists a; set_solver].
  destruct (mapM_res f l) eqn:E2; [done|]. intros [= ->].
  destruct IH as (a' & ? & ?); [done|]. exists a'. set_solver.
Qed.

(** Running the loop in another order gives the same items in another order. *)
Lemma mapM_res_perm {E A B} (f : A -> res E B) l1 l2 bs1 :
  l1 ≡ₚ l2 -> mapM_res f l1 = Ok bs1 -> exists bs2, mapM_res f l2 = Ok bs2 /\ bs1 ≡ₚ bs2.
Proof.
  intros Hp. revert bs1. induction Hp as [|a l1 l2 Hp IH|a b l|l1 l2 l3 Hp1 IH1 Hp2 IH2]; intros bs1 H.
  - by exists bs1.
  - simpl in *. destruct (f a) as [x|]; [|done]. destruct (mapM_res f l1) as [xs|]; [|done]. injection H as <-.
    destruct (IH xs eq_refl) as (bs2 & -> & ?). eexists. split; [done|by constructor].
  - simpl in *. destruct (f a) as [x|], (f b) as [y|]; try done. destruct (mapM_res f l) as [xs|]; [|done].
    injection H as <-. eexists. split; [done|]. by constructor.
  - destruct (IH1 _ H) as (bs2 & H2 & ?). destruct (IH2 _ H2) as (bs3 & H3 & ?). exists bs3. split; [done|]. by etrans.
Qed.

Lemma mapM_res_impl {E A B} (R : B -> B -> Prop) (f g : A -> res E B) l bs :
  (forall x b, x ∈ l -> f x = Ok b -> exists b', g x = Ok b' /\ R b b') ->
  mapM_res f l = Ok bs -> exists bs', mapM_res g l = Ok bs' /\ Forall2 R bs bs'.
Proof.
  revert bs. induction l as [|a l IH]; intros bs Hfg H; simpl in *; [simplify_eq; by eexists|].
  destruct (f a) as [x|] eqn:Ea; [|done]. destruct (mapM_res f l) as [xs|]; [|done]. injection H as <-.
  destruct (Hfg a x ltac:(left) Ea) as (b' & -> & HR).
  destruct (IH xs) as (bs' & -> & HF); [intros y b Hy; apply Hfg; by right|done|].
  eexists. split; [done|by constructor].
Qed.

Lemma concat_Forall2_perm {A} (l1 l2 : list (list A)) : Forall2 (≡ₚ) l1 l2 -> concat l1 ≡ₚ concat l2.
Proof. induction 1 as [|a b l1 l2 Hab Hl IH]; simpl; [done|]. by rewrite Hab, IH. Qed.

Lemma concat_perm {A} (l1 l2 : list (list A)) : l1 ≡ₚ l2 -> concat l1 ≡ₚ concat l2.
Proof.
  induction 1 as [|a l1 l2 Hp IH|a b l|l1 l2 l3 H1 IH1 H2 IH2]; simpl; [done|by rewrite IH| |by etrans].
  rewrite !app_assoc. by rewrite (Permutation_app_comm b a).
Qed.

(** * Lemmas on lists *)

Lemma Forall2_impl_in {A B} (P Q : A -> B -> Prop) l k :
  Forall2 P l k -> (forall a b, a ∈ l -> P a b -> Q a b) -> Forall2 Q l k.
Proof.
  induction 1 as [|a b l k Hab Hl IH]; intros HPQ; constructor; [apply HPQ; [left|done]|].
  apply IH. intros x y Hx. apply HPQ. by right.
Qed.

Lemma Forall_filter_keep {A} (P Q : A -> Prop) `{forall x, Decision (Q x)} (l : list A) :
  Forall P l -> Forall P (filter Q l).
Proof. rewrite !Forall_forall. intros Hl x [_ Hx]%list_elem_of_filter. by apply Hl. Qed.

(** * Lemmas on strings *)

Lemma str_app_nil_r s : s +:+ "" = s.
Proof. induction s; [done|]. change (String a s +:+ "") with (String a (s +:+ "")). by rewrite IHs. Qed.

Lemma str_app_cons c s t : String c s +:+ t = String c (s +:+ t).
Proof. done. Qed.

Lemma str_app_assoc s t u : (s +:+ t) +:+ u = s +:+ (t +:+ u).
Proof. induction s as [|c s IH]; [done|]. by rewrite !str_app_cons, IH. Qed.

Lemma str_length_app s t : String.length (s +:+ t) = String.length s + String.length t.
Proof. induction s as [|c s IH]; [done|]. rewrite str_app_cons. simpl. lia. Qed.

Lemma has_prefix_spec s p : has_prefix s p = true <-> exists t, s = p +:+ t.
Proof.
  unfold has_prefix. revert s; induction p as [|c p IH]; intros s; simpl.
  - split; [|by destruct s]. intros _. by exists s.
  - destruct s as [|d s]; [split; [done|by intros [??]]|].
    destruct (Ascii.eqb_spec c d) as [->|Hne]; simpl.
    + rewrite IH. split; intros [t Ht]; exists t; rewrite ?str_app_cons in *; congruence.
    + split; [done|]. intros [t Ht]. rewrite str_app_cons in Ht. congruence.
Qed.

Lemma prefix_app p t : str_prefix p (p +:+ t) = true.
Proof. apply has_prefix_spec. by exists t. Qed.

Lemma strdrop_app p t : strdrop (String.length p) (p +:+ t) = t.
Proof. induction p as [|c p IH]; [by destruct t|]. done. Qed.

Lemma strtake_app p t : strtake (String.length p) (p +:+ t) = p.
Proof. induction p as [|c p IH]; [by destruct t|]. rewrite str_app_cons. simpl. by rewrite IH. Qed.

Lemma strtake_drop n s : strtake n s +:+ strdrop n s = s.
Proof.
  revert s; induction n as [|n IH]; intros s; [by destruct s|].
  destruct s as [|c s]; [done|]. simpl. by rewrite str_app_cons, IH.
Qed.

Lemma has_suffix_spec s p : has_suffix s p = true <-> exists t, s = t +:+ p.
Proof.
  unfold has_suffix. rewrite andb_true_iff, Nat.leb_le, String.eqb_eq. split.
  - intros [Hl Hd]. exists (strtake (String.length s - String.length p) s).
    rewrite <-Hd at 2. by rewrite strtake_drop.
  - intros [t ->]. rewrite str_length_app. split; [lia|].
    replace (String.length t + String.length p - String.length p) with (String.length t) by lia.
    apply strdrop_app.
Qed.

Lemma has_suffix_app t p : has_suffix (t +:+ p) p = true.
Proof. apply has_suffix_spec. by exists t. Qed.

Lemma trim_suffix_app t p : trim_suffix (t +:+ p) p = t.
Proof.
  unfold trim_suffix. rewrite has_suffix_app, str_length_app.
  replace (String.length t + String.length p - String.length p) with (String.length t) by lia.
  apply strtake_app.
Qed.

Lemma trim_prefix_app p t : trim_prefix (p +:+ t) p = t.
Proof. unfold trim_prefix, has_prefix. rewrite prefix_app. apply strdrop_app. Qed.

Lemma str_app_inj_l p s t : p +:+ s = p +:+ t -> s = t.
Proof. intros H. by apply (inj (String.app p)) in H. Qed.

Lemma str_app_inj_r s t p : s +:+ p = t +:+ p -> s = t.
Proof. intros H. rewrite <-(trim_suffix_app s p), <-(trim_suffix_app t p). by rewrite H. Qed.

(** A one-byte separator that does not occur in a string. *)
Fixpoint str_free (c : Ascii.ascii) (s : string) : Prop :=
  match s with
  | EmptyString => True
  | String d s' => c <> d /\ str_free c s'
  end.

Lemma str_free_app c s t : str_free c (s +:+ t) <-> str_free c s /\ str_free c t.
Proof. induction s as [|d s IH]; [by rewrite (left_id_L _ _) || (simpl; tauto)|]. rewrite str_app_cons. simpl. tauto. Qed.

#[global] Instance str_free_dec c s : Decision (str_free c s).
Proof. induction s as [|d s IH]; simpl; apply _. Defined.

Lemma split_go_free c cur s :
  str_free c s -> split_go (String c "") 0 cur s = [cur +:+ s].
Proof.
  revert cur; induction s as [|d s IH]; intros cur; simpl; [by rewrite str_app_nil_r|].
  intros [Hne Hs]. destruct (Ascii.eqb_spec c d); [done|]; simpl.
  rewrite IH by done. by rewrite str_app_assoc.
Qed.

Lemma split_go_sep c cur s t :
  str_free c s ->
  split_go (String c "") 0 cur (s +:+ String c t) = (cur +:+ s) :: split_go (String c "") 0 "" t.
Proof.
  revert cur; induction s as [|d s IH]; intros cur; simpl.
  - intros _. rewrite str_app_nil_r. cbn. rewrite Ascii.eqb_refl. by destruct t.
  - intros [Hne Hs]. destruct (Ascii.eqb_spec c d); [done|]; simpl.
    rewrite IH by done. by rewrite str_app_assoc.
Qed.

Lemma str_join_cons a l sep : l <> [] -> str_join (a :: l) sep = a +:+ sep +:+ str_join l sep.
Proof. by destruct l. Qed.

(** Splitting a joined list gives the list back when the separator byte does
    not occur in the items. *)
Lemma split_join c l :
  l <> [] -> Forall (str_free c) l ->
  str_split (str_join l (String c "")) (String c "") = l.
Proof.
  intros Hne Hl. unfold str_split. induction Hl as [|a l Ha Hl IH]; [done|].
  destruct l as [|b l]; [by apply (split_go_free c "" a)|].
  rewrite str_join_cons by done.
  change (String c "" +:+ str_join (b :: l) (String c "")) with (String c (str_join (b :: l) (String c ""))).
  rewrite split_go_sep by done. f_equal. by apply IH.
Qed.

Lemma split_go_nonnil sep skip cur s : split_go sep skip cur s <> [].
Proof. revert skip cur; induction s as [|c s IH]; intros skip cur; simpl; [done|]. go_cases. Qed.

(** Joining the pieces of a split gives the string back (one-byte separator). *)
Lemma join_split_go c cur s :
  str_join (split_go (String c "") 0 cur s) (String c "") = cur +:+ s.
Proof.
  revert cur; induction s as [|d s IH]; intros cur; [simpl; by rewrite str_app_nil_r|].
  cbn [split_go str_prefix]. destruct (Ascii.eqb_spec c d) as [->|Hne]; cbn [andb].
  - rewrite str_join_cons by apply split_go_nonnil. cbn. by rewrite IH.
  - rewrite IH. by rewrite str_app_assoc.
Qed.

Lemma join_split c s : str_join (str_split s (String c "")) (String c "") = s.
Proof. apply join_split_go. Qed.

Lemma split_go_contains c cur s i :
  str_index s (String c "") = Some i -> 2 <= length (split_go (String c "") 0 cur s).
Proof.
  revert cur i. induction s as [|d s IH]; intros cur i; [done|].
  cbn [str_index split_go str_prefix]. destruct (Ascii.eqb c d); cbn [andb].
  - intros _. pose proof (split_go_nonnil (String c "") 0 "" s) as Hne.
    cbn [String.length Nat.sub length]. destruct (split_go _ _ _ s); [done|]. cbn [length]. lia.
  - destruct (str_index s (String c "")) as [j|]; [|done]. intros _. by apply (IH _ j).
Qed.

(** A string that contains the separator byte splits into at least two pieces. *)
Lemma split_contains c s : str_contains s (String c "") = true -> 2 <= length (str_split s (String c "")).
Proof.
  unfold str_contains. destruct (str_index s (String c "")) as [i|] eqn:E; [|done].
  intros _. by apply (split_go_contains c "" s i).
Qed.

Lemma str_eqb_sym s t : String.eqb s t = String.eqb t s.
Proof. apply String.eqb_sym. Qed.

(** * Sorted keys of a map *)

Lemma sorted_keys_perm {V} (m : gmap string V) : sorted_keys m ≡ₚ (map_to_list m).*1.
Proof. apply merge_sort_Permutation. Qed.

Lemma elem_of_sorted_keys {V} (m : gmap string V) k :
  k ∈ sorted_keys m <-> is_Some (m !! k).
Proof.
  rewrite sorted_keys_perm, list_elem_of_fmap. split.
  - intros ([k' v] & -> & H). apply elem_of_map_to_list in H. by exists v.
  - intros [v H]. exists (k, v). split; [done|]. by apply elem_of_map_to_list.
Qed.

Lemma sorted_keys_length {V} (m : gmap string V) : length (sorted_keys m) = size m.
Proof. rewrite sorted_keys_perm, length_fmap. apply length_map_to_list. Qed.

(** The entries that [range] visits. *)
Lemma elem_of_range {V} `{!MapRange} (m : gmap string V) k v : (k, v) ∈ range_of m <-> m !! k = Some v.
Proof. rewrite range_of_perm. apply elem_of_map_to_list. Qed.

(** * Printed integers *)

Lemma digit_val_pretty n : (n < 10)%N -> digit_val (pretty_N_char n) = Some (Z.of_N n).
Proof.
  intros H. assert (n ∈ (N.of_nat <$> seq 0 10)) as Hin.
  { apply list_elem_of_fmap. exists (N.to_nat n). split; [lia|]. apply elem_of_seq. lia. }
  cbn in Hin. set_unfold in Hin. destruct_or!; subst; vm_compute; reflexivity.
Qed.

Lemma atoi_digits_go n s : (0 < n)%N -> atoi_digits 0 (pretty_N_go n s) = atoi_digits (Z.of_N n) s.
Proof.
  revert s. induction (N.lt_wf_0 n) as [n _ IH]; intros s Hn. rewrite pretty_N_go_step by done.
  assert (Z.of_N n = Z.of_N (n `div` 10) * 10 + Z.of_N (n `mod` 10))%Z as Hdm by (pose proof (N.div_mod n 10); lia).
  pose proof (N.mod_lt n 10). destruct (decide (n `div` 10 = 0)%N) as [Hz|Hz].
  - rewrite Hz, pretty_N_go_0. cbn [atoi_digits]. rewrite digit_val_pretty by lia. rewrite Hdm, Hz. done.
  - rewrite IH; [|apply N.div_lt; lia|lia]. cbn [atoi_digits]. rewrite digit_val_pretty by lia. by rewrite <- Hdm.
Qed.

Lemma atoi_digits_pretty (n : N) : atoi_digits 0 (pretty n) = Some (Z.of_N n).
Proof.
  unfold pretty, pretty_N. case_decide as H; [by subst|]. rewrite atoi_digits_go by lia. done.
Qed.

(** A printed number starts with a digit. *)
Lemma pretty_N_head (n : N) : exists c s, pretty n = String c s /\ (48 <= Ascii.nat_of_ascii c <= 57)%nat.
Proof.
  pose proof (atoi_digits_pretty n) as H. destruct (pretty n) as [|c s] eqn:E.
  - cbn in H. injection H as H. assert (n = 0%N) as -> by lia. done.
  - exists c, s. split; [done|]. cbn in H. unfold digit_val in H. destruct ((48 <=? _)%Z && _) eqn:Ec; [|done]. apply andb_true_iff in Ec. lia.
Qed.

Lemma atoi_pretty (z : Z) : (int64_min <= z <= int64_max)%Z -> atoi (pretty z) = Some z.
Proof.
  intros Hz. assert (forall (n : N) c s, pretty n = String c s -> (48 <= Ascii.nat_of_ascii c <= 57)%nat -> 
    (if Ascii.nat_of_ascii c =? 45 then match s with EmptyString => None | _ => Z.opp <$> atoi_digits 0 s end
     else if Ascii.nat_of_ascii c =? 43 then match s with EmptyString => None | _ => atoi_digits 0 s end else atoi_digits 0 (String c s)) = Some (Z.of_N n)) as Hpos.
  { intros n c s Hp Hc. rewrite (proj2 (Nat.eqb_neq _ 45)), (proj2 (Nat.eqb_neq _ 43)) by lia. by rewrite <- Hp, atoi_digits_pretty. }
  assert (atoi (pretty z) = if ((int64_min <=? z) && (z <=? int64_max))%Z then Some z else None) as ->; [|by rewrite !(proj2 (Z.leb_le _ _)) by lia].
  destruct z as [|p|p].
  - reflexivity.
  - unfold atoi. change (pretty (Z.pos p)) with (pretty (N.pos p)). destruct (pretty_N_head (N.pos p)) as (c & s & Hp & Hc). rewrite Hp.
    by rewrite (Hpos _ _ _ Hp Hc).
  - change (pretty (Z.neg p)) with (String (Ascii.ascii_of_nat 45) (pretty (N.pos p))). unfold atoi.
    change (Ascii.nat_of_ascii (Ascii.ascii_of_nat 45) =? 45) with true. cbv iota.
    destruct (pretty_N_head (N.pos p)) as (c & s & Hp & _).
    pose proof (atoi_digits_pretty (N.pos p)) as Hd. rewrite Hp in Hd |- *. by rewrite Hd.
Qed.
