(* ===== verification/GnmiTypes.v ===== *)
(** The gNMI messages the components exchange (package [gnmipb]): paths, path
    elements, typed values and updates.

    Repeated fields of a decoded protobuf message are [nil] exactly when they
    are empty, so a [nil] slice and an empty one are both [[]] here; a [nil]
    message pointer is [None] where the code tests for it. *)

From S2P Require Import Prelude.

(** [gnmipb.PathElem]. *)
Record PathElem := mkElem {
  elem_name : string;
  elem_key : gmap string string
}.

#[global] Instance PathElem_eq_dec : EqDecision PathElem.
Proof. solve_decision. Defined.

(** [gnmipb.Path]; the deprecated [element] field is not used by the modelled
    code except where [gnmiFullPath] copies it. *)
Record Path := mkPath {
  path_origin : string;
  path_target : string;
  path_elem : list PathElem
}.

#[global] Instance Path_eq_dec : EqDecision Path.
Proof. solve_decision. Defined.

(** The getters of generated protobuf code accept a nil receiver. *)
Definition GetElem (p : option Path) : list PathElem :=
  match p with Some p => path_elem p | None => [] end.

Definition GetOrigin (p : option Path) : string :=
  match p with Some p => path_origin p | None => "" end.

Definition GetTarget (p : option Path) : string :=
  match p with Some p => path_target p | None => "" end.

(** A path element without keys. *)
Definition ename (n : string) : PathElem := mkElem n ∅.

(** [gnmipb.TypedValue]: the alternatives of the oneof that the code reads or
    builds, byte strings as strings. *)
Inductive TypedValue :=
| JsonIetfVal (b : string)
| JsonVal (b : string)
| StringVal (s : string)
| IntVal (z : Z)
| UintVal (z : Z)
| ProtoBytes (b : string)
| OtherVal.

#[global] Instance TypedValue_eq_dec : EqDecision TypedValue.
Proof. solve_decision. Defined.

Definition GetJsonIetfVal (v : option TypedValue) : string :=
  match v with Some (JsonIetfVal b) => b | _ => "" end.

Definition GetStringVal (v : option TypedValue) : string :=
  match v with Some (StringVal s) => s | _ => "" end.

Definition GetIntVal (v : option TypedValue) : Z :=
  match v with Some (IntVal z) => z | _ => 0%Z end.

Definition GetUintVal (v : option TypedValue) : Z :=
  match v with Some (UintVal z) => z | _ => 0%Z end.

(** [gnmipb.Update]. *)
Record Update := mkUpdate {
  upd_path : option Path;
  upd_val : option TypedValue
}.

(** gRPC status codes used by the handlers. *)
Inductive Code :=
| OK | Aborted | AlreadyExists | FailedPrecondition | InvalidArgument | Internal
| NotFound | Unauthenticated | PermissionDenied | Unavailable | Unimplemented | Unknown
| DataLoss | Canceled | CtxDeadlineExceeded | ResourceExhausted.

#[global] Instance Code_eq_dec : EqDecision Code.
Proof. solve_decision. Defined.
