(* ===== verification/Pathz.v ===== *)
(** Path authorization (src/pathz_authorizer/pathz_authorizer.go).

    [gnmiAuthzNode] is the policy trie, [insertPath] and [authorize] are its two
    recursive walks with the source's index arguments, [GnmiAuthzProcessor] the
    object holding the active policy.  The reference semantics is
    [spec_authorize], a first-match search over the flat list of rules. *)

From S2P Require Import Prelude GnmiTypes.
Open Scope go_scope.

Module Pathz.

(** ** Data *)

(** [pathzpb.Action] and [pathzpb.Mode] are open protobuf enumerations. *)
Inductive Action :=
| ACTION_UNSPECIFIED | ACTION_DENY | ACTION_PERMIT | ACTION_OTHER (n : Z).

Inductive Mode :=
| MODE_UNSPECIFIED | MODE_READ | MODE_WRITE | MODE_OTHER (n : Z).

#[global] Instance Action_eq_dec : EqDecision Action.
Proof. solve_decision. Defined.
#[global] Instance Mode_eq_dec : EqDecision Mode.
Proof. solve_decision. Defined.

(** The [principal] oneof of [pathzpb.AuthorizationRule]. *)
Inductive Principal :=
| NoPrincipal | User (u : string) | Group (g : string).

#[global] Instance Principal_eq_dec : EqDecision Principal.
Proof. solve_decision. Defined.

Record AuthorizationRule := mkRule {
  r_id : string;
  r_principal : Principal;
  r_path : list PathElem;
  r_action : Action;
  r_mode : Mode
}.

(** [pathzpb.Group] is a name and its users; [pathzpb.AuthorizationPolicy]. *)
Record AuthorizationPolicy := mkPolicy {
  p_rules : list AuthorizationRule;
  p_groups : list (string * list string)
}.

Record Result := mkResult {
  Action_ : Action;
  RuleId : string;
  MatchedRule : string
}.

Record ruleAction := mkRA { ra_ruleId : string; ra_action : Action }.
Record permission := mkPerm { p_read : ruleAction; p_write : ruleAction }.

(** The recursive trie node; Go's nil maps behave as empty ones. *)
Inductive gnmiAuthzNode := mkNode {
  users : gmap string permission;
  groups : gmap string permission;
  rule : string;
  nameNext : gmap string gnmiAuthzNode;
  key : string;
  keyNext : gmap string gnmiAuthzNode
}.

Definition emptyNode : gnmiAuthzNode := mkNode ∅ ∅ "" ∅ "" ∅.

Definition wildCard : string := "*".

Definition emptyPerm : permission :=
  mkPerm (mkRA "" ACTION_UNSPECIFIED) (mkRA "" ACTION_UNSPECIFIED).

(** ** Printing of paths *)

Definition printKeys (e : PathElem) (ret : string) : string :=
  fold_left (fun ret k => ret +:+ "[" +:+ k +:+ "=" +:+ default "" (elem_key e !! k) +:+ "]")
    (sorted_keys (elem_key e)) ret.

Definition printPath (path : list PathElem) : string :=
  let ret := fold_left (fun ret e =>
    let ret := ret +:+ "/" +:+ elem_name e in
    if bool_decide (size (elem_key e) = 0) then ret else printKeys e ret) path "" in
  if String.eqb ret "" then "/" else ret.

Definition PrintPathWithPrefix (prefix path : option Path) : string :=
  printPath (GetElem prefix ++ GetElem path).

(** ** Permissions *)

Inductive pz_error :=
| ErrInvalidMode | ErrKeyIndexOutOfRange | ErrKeyNotFound | ErrKeyMismatch
| ErrInvalidPrincipal | ErrNoRules | ErrNilProcessor | ErrModeUndefined
| ErrReadFile | ErrParseFile | ErrOutOfFuel.

#[global] Instance pz_error_eq_dec : EqDecision pz_error.
Proof. solve_decision. Defined.

(** [Result.updateResult]: the updated result and the returned error. *)
Definition updateResult (result : Result) (p : permission) (mode : Mode) (rule : string)
    : Result * option pz_error :=
  if bool_decide (Action_ result = ACTION_DENY) then (result, None)
  else
    let apply access :=
      if bool_decide (ra_action access <> ACTION_UNSPECIFIED)
      then (mkResult (ra_action access) (ra_ruleId access) rule, None)
      else (result, None) in
    match mode with
    | MODE_READ => apply (p_read p)
    | MODE_WRITE => apply (p_write p)
    | _ => (result, Some ErrInvalidMode)
    end.

(** [permission.updatePermission]. *)
Definition updatePermission (p : permission) (a : Action) (m : Mode) (ruleId : string)
    : permission * option pz_error :=
  if bool_decide (a = ACTION_UNSPECIFIED) then (p, None)
  else
    let set r :=
      if bool_decide (ra_action r = ACTION_DENY) then r else mkRA ruleId a in
    match m with
    | MODE_UNSPECIFIED => (p, None)
    | MODE_READ => (mkPerm (set (p_read p)) (p_write p), None)
    | MODE_WRITE => (mkPerm (p_read p) (set (p_write p)), None)
    | MODE_OTHER _ => (p, Some ErrInvalidMode)
    end.

(** ** The lookup walk *)

Definition emptyResult : Result := mkResult ACTION_UNSPECIFIED "" "".

(** The test the code applies to the result of a recursive call. *)
Definition matched (r : Result) : bool :=
  bool_decide (Action_ r <> ACTION_UNSPECIFIED) && negb (String.eqb (MatchedRule r) "").

Section Authorize.
Context `{!MapRange}.
Variable user : string.
Variable mode : Mode.
(** [map[string]stringSet]: the members of each group. *)
Variable group_members : gmap string (gset string).

Definition in_group (g : string) : bool :=
  match group_members !! g with
  | Some members => bool_decide (user ∈ members)
  | None => false
  end.

(** The loop over [node.groups] with its [break]. *)
Fixpoint groupLoop (rule : string) (ret : Result) (l : list (string * permission))
    : Result :=
  match l with
  | [] => ret
  | (group, p) :: l' =>
      if in_group group then
        let ret' := (updateResult ret p mode rule).1 in
        if bool_decide (Action_ ret' = ACTION_DENY) && negb (String.eqb (MatchedRule ret') "")
        then ret'
        else groupLoop rule ret' l'
      else groupLoop rule ret l'
  end.

(** The part of [authorize] before the end-of-path test. *)
Definition localResult (node : gnmiAuthzNode) : Result :=
  let ret := emptyResult in
  let ret :=
    match users node !! user with
    | Some p => (updateResult ret p mode (rule node)).1
    | None => ret
    end in
  if bool_decide (Action_ ret = ACTION_UNSPECIFIED) || String.eqb (MatchedRule ret) ""
  then groupLoop (rule node) ret (range_of (groups node))
  else ret.

(** [gnmiAuthzNode.authorize]; [fuel] bounds the depth of the recursion. *)
Fixpoint authorize (fuel : nat) (node : gnmiAuthzNode) (path : list PathElem)
    (nameIdx : nat) (keys : list string) (keyIdx : nat) : Result :=
  let ret := localResult node in
  match fuel with
  | O => ret
  | S fuel' =>
      match path !! nameIdx with
      | None => ret                      (* nameIdx >= len(path) *)
      | Some e =>
          if 0 <? length keys then
            match keys !! keyIdx with
            | None => ret                (* keyIdx >= len(keys) *)
            | Some k =>
                if negb (String.eqb k (key node)) then ret
                else
                  match elem_key e !! key node with
                  | None => ret
                  | Some keyValue =>
                      let '(nextNameIdx, nextKeys, nextKeyIdx) :=
                        if keyIdx + 1 =? length keys
                        then (nameIdx + 1, [], 0)
                        else (nameIdx, keys, keyIdx + 1) in
                      let wild :=
                        match keyNext node !! wildCard with
                        | Some nextNode =>
                            let r := authorize fuel' nextNode path nextNameIdx nextKeys nextKeyIdx in
                            if matched r then r else ret
                        | None => ret
                        end in
                      match keyNext node !! keyValue with
                      | Some nextNode =>
                          let r := authorize fuel' nextNode path nextNameIdx nextKeys nextKeyIdx in
                          if matched r then r else wild
                      | None => wild
                      end
                  end
            end
          else
            match nameNext node !! elem_name e with
            | Some nextNode =>
                let '(nextNameIdx, nextKeys) :=
                  if 0 <? size (elem_key e)
                  then (nameIdx, sorted_keys (elem_key e))
                  else (nameIdx + 1, []) in
                let r := authorize fuel' nextNode path nextNameIdx nextKeys 0 in
                if matched r then r else ret
            | None => ret
            end
      end
  end.

End Authorize.

(** ** Building the trie *)

(** The update of one principal's permission at a leaf. *)
Definition addPermission (m : gmap string permission) (who : string) (r : AuthorizationRule)
    : gmap string permission :=
  let p := default emptyPerm (m !! who) in
  <[who := (updatePermission p (r_action r) (r_mode r) (r_id r)).1]> m.

(** Building a leaf node. *)
Definition insertLeaf (node : gnmiAuthzNode) (r : AuthorizationRule) : res pz_error gnmiAuthzNode :=
  let rule' := printPath (r_path r) in
  match r_principal r with
  | User u =>
      Ok (mkNode (addPermission (users node) u r) (groups node) rule'
            (nameNext node) (key node) (keyNext node))
  | Group g =>
      Ok (mkNode (users node) (addPermission (groups node) g r) rule'
            (nameNext node) (key node) (keyNext node))
  | NoPrincipal => Err ErrInvalidPrincipal
  end.

(** [gnmiAuthzNode.insertPath].  The tree under construction is private to
    [createPolicies], which drops it on error, so an error carries no tree. *)
Fixpoint insertPath (fuel : nat) (node : gnmiAuthzNode) (r : AuthorizationRule)
    (nameIdx : nat) (keys : list string) (keyIdx : nat) : res pz_error gnmiAuthzNode :=
  match r_path r !! nameIdx with
  | None => insertLeaf node r
  | Some e =>
      match fuel with
      | O => Err ErrOutOfFuel
      | S fuel' =>
          if 0 <? length keys then
            match keys !! keyIdx with
            | None => Err ErrKeyIndexOutOfRange
            | Some k =>
                match elem_key e !! k with
                | None => Err ErrKeyNotFound
                | Some v =>
                    if negb (String.eqb (key node) "") && negb (String.eqb (key node) k)
                    then Err ErrKeyMismatch
                    else
                      let child := default emptyNode (keyNext node !! v) in
                      let '(nextNameIdx, nextKeys, nextKeyIdx) :=
                        if keyIdx + 1 =? length keys
                        then (nameIdx + 1, [], 0)
                        else (nameIdx, keys, keyIdx + 1) in
                      try child' := insertPath fuel' child r nextNameIdx nextKeys nextKeyIdx in
                      Ok (mkNode (users node) (groups node) (rule node) (nameNext node)
                            k (<[v := child']> (keyNext node)))
                end
            end
          else
            let name := elem_name e in
            let child := default emptyNode (nameNext node !! name) in
            let '(nextNameIdx, nextKeys) :=
              if 0 <? size (elem_key e)
              then (nameIdx, sorted_keys (elem_key e))
              else (nameIdx + 1, []) in
            try child' := insertPath fuel' child r nextNameIdx nextKeys 0 in
            Ok (mkNode (users node) (groups node) (rule node)
                  (<[name := child']> (nameNext node)) (key node) (keyNext node))
      end
  end.

(** Every path element costs one step for its name and one per key. *)
Definition pathFuel (path : list PathElem) : nat :=
  S (sum_list_with (fun e => S (size (elem_key e))) path).

(** [createGroups]. *)
Definition createGroups (groupsProto : list (string * list string)) : gmap string (gset string) :=
  fold_left (fun gs g => <[g.1 := default ∅ (gs !! g.1) ∪ list_to_set g.2]> gs) groupsProto ∅.

(** [createPolicies]. *)
Definition createPolicies (rules : list AuthorizationRule) : res pz_error gnmiAuthzNode :=
  match rules with
  | [] => Err ErrNoRules
  | _ => foldM (fun root r => insertPath (pathFuel (r_path r)) root r 0 [] 0) emptyNode rules
  end.

(** ** The processor *)

Record GnmiAuthzProcessor := mkProc {
  proc_groups : gmap string (gset string);
  proc_root : option gnmiAuthzNode;
  proc_policy : option AuthorizationPolicy
}.

(** [&GnmiAuthzProcessor{}]. *)
Definition newProcessor : GnmiAuthzProcessor := mkProc ∅ None None.

(** [GnmiAuthzProcessor.AuthorizeWithPrefix]; [Authorize] is the case of an empty
    prefix. *)
Definition AuthorizeWithPrefix `{!MapRange} (processor : option GnmiAuthzProcessor)
    (user : string) (prefix path : option Path) (mode : Mode) : res pz_error Result :=
  match processor with
  | None => Err ErrNilProcessor
  | Some pr =>
      if bool_decide (mode = MODE_UNSPECIFIED) then Err ErrModeUndefined
      else
        let netPath := GetElem prefix ++ GetElem path in
        Ok (match proc_root pr with
            | None => emptyResult
            | Some root => authorize user mode (proc_groups pr) (pathFuel netPath) root netPath 0 [] 0
            end)
  end.

Definition Authorize `{!MapRange} (processor : option GnmiAuthzProcessor)
    (user : string) (path : option Path) (mode : Mode) : res pz_error Result :=
  match processor with
  | None => Err ErrNilProcessor
  | Some pr =>
      if bool_decide (mode = MODE_UNSPECIFIED) then Err ErrModeUndefined
      else
        Ok (match proc_root pr with
            | None => emptyResult
            | Some root =>
                authorize user mode (proc_groups pr) (pathFuel (GetElem path)) root (GetElem path) 0 [] 0
            end)
  end.

(** The getters on a possibly nil policy. *)
Definition GetRules (p : option AuthorizationPolicy) : list AuthorizationRule :=
  match p with Some p => p_rules p | None => [] end.
Definition GetGroups (p : option AuthorizationPolicy) : list (string * list string) :=
  match p with Some p => p_groups p | None => [] end.

(** [createNewPolicy]. *)
Definition createNewPolicy (policyProto : option AuthorizationPolicy)
    : res pz_error (gnmiAuthzNode * gmap string (gset string)) :=
  try rules := createPolicies (GetRules policyProto) in
  Ok (rules, createGroups (GetGroups policyProto)).

(** [UpdatePolicyFromProto]: the processor afterwards and the returned error. *)
Definition UpdatePolicyFromProto (processor : GnmiAuthzProcessor)
    (policyProto : option AuthorizationPolicy) : GnmiAuthzProcessor * option pz_error :=
  match createNewPolicy policyProto with
  | Err e => (processor, Some e)
  | Ok (newRoot, newGroups) => (mkProc newGroups (Some newRoot) policyProto, None)
  end.

(** [UpdatePolicyFromFile]; [readFile] is [os.ReadFile] and [unmarshalText] is
    [proto.UnmarshalText], both [None] on error. *)
Definition UpdatePolicyFromFile (readFile : string -> option string)
    (unmarshalText : string -> option AuthorizationPolicy)
    (processor : GnmiAuthzProcessor) (policyFile : string)
    : GnmiAuthzProcessor * option pz_error :=
  match readFile policyFile with
  | None => (processor, Some ErrReadFile)
  | Some content =>
      match unmarshalText content with
      | None => (processor, Some ErrParseFile)
      | Some policy => UpdatePolicyFromProto processor (Some policy)
      end
  end.

Definition GetPolicy (processor : GnmiAuthzProcessor) : option AuthorizationPolicy :=
  proc_policy processor.

End Pathz.
