(* ===== verification/PathzSpec.v ===== *)
(** Reference semantics of path authorization and the proof that the policy trie
    of [Pathz] implements it.

    A gNMI path is flattened to [steps] (one step per element name and per key,
    keys in alphabetical order).  [walk] and [insertSteps] are the structural
    forms of the index-driven [authorize] and [insertPath]; [nodeAt] reads the
    trie as a map from step lists to nodes; [candidates] enumerates the rule
    patterns that can decide a request, most specific first. *)

From S2P Require Import Prelude GnmiTypes Pathz.
Import Pathz.
Open Scope go_scope.

#[local] Arguments localResult : simpl never.

(** ** Steps *)

Inductive step := SName (n : string) | SKey (k v : string).

#[global] Instance step_eq_dec : EqDecision step.
Proof. solve_decision. Defined.

Definition keySteps (e : PathElem) (ks : list string) : list step :=
  (fun k => SKey k (default "" (elem_key e !! k))) <$> ks.

Definition elemSteps (e : PathElem) : list step :=
  SName (elem_name e) :: keySteps e (sorted_keys (elem_key e)).

Definition steps (path : list PathElem) : list step := path ≫= elemSteps.

(** ** Structural forms of the two walks *)

Section Walk.
Context `{!MapRange}.
Variable user : string.
Variable mode : Mode.
Variable group_members : gmap string (gset string).

Abbreviation local := (localResult user mode group_members).

Definition orElse (r ret : Result) : Result := if matched r then r else ret.

Fixpoint walk (node : gnmiAuthzNode) (s : list step) : Result :=
  let ret := local node in
  match s with
  | [] => ret
  | SName n :: s' =>
      match nameNext node !! n with
      | Some c => orElse (walk c s') ret
      | None => ret
      end
  | SKey k v :: s' =>
      if String.eqb k (key node) then
        let wild := match keyNext node !! wildCard with
                    | Some c => orElse (walk c s') ret
                    | None => ret
                    end in
        match keyNext node !! v with
        | Some c => orElse (walk c s') wild
        | None => wild
        end
      else ret
  end.

End Walk.

Fixpoint insertSteps (r : AuthorizationRule) (node : gnmiAuthzNode) (s : list step)
    : res pz_error gnmiAuthzNode :=
  match s with
  | [] => insertLeaf node r
  | SName n :: s' =>
      try c := insertSteps r (default emptyNode (nameNext node !! n)) s' in
      Ok (mkNode (users node) (groups node) (rule node)
            (<[n := c]> (nameNext node)) (key node) (keyNext node))
  | SKey k v :: s' =>
      if negb (String.eqb (key node) "") && negb (String.eqb (key node) k)
      then Err ErrKeyMismatch
      else
        try c := insertSteps r (default emptyNode (keyNext node !! v)) s' in
        Ok (mkNode (users node) (groups node) (rule node) (nameNext node)
              k (<[v := c]> (keyNext node)))
  end.

(** The steps that remain at an index triple of the code. *)
Definition remaining (path : list PathElem) (nameIdx : nat) (keys : list string) (keyIdx : nat)
    : list step :=
  match path !! nameIdx, keys with
  | Some e, _ :: _ => keySteps e (drop keyIdx keys) ++ steps (drop (S nameIdx) path)
  | _, _ => steps (drop nameIdx path)
  end.

(** The index triples the recursion reaches: no pending keys, or the sorted keys
    of the current element with the index inside. *)
Definition goodIdx (path : list PathElem) (nameIdx : nat) (keys : list string) (keyIdx : nat) : Prop :=
  (keys = [] /\ keyIdx = 0) \/
  (exists e, path !! nameIdx = Some e /\ keys = sorted_keys (elem_key e) /\ keyIdx < length keys).

(** ** Reference semantics over the flat rule list *)

(** Rule patterns that apply to a request, in order of precedence: a longer
    match first, an exact key value before the wildcard. *)
Fixpoint candidates (s : list step) : list (list step) :=
  match s with
  | [] => [[]]
  | SName n :: s' => (cons (SName n) <$> candidates s') ++ [[]]
  | SKey k v :: s' =>
      (cons (SKey k v) <$> candidates s') ++ (cons (SKey k wildCard) <$> candidates s') ++ [[]]
  end.

(** Deny overrides permit. *)
Definition verdict (l : list Action) : Action :=
  if bool_decide (ACTION_DENY ∈ l) then ACTION_DENY
  else if bool_decide (ACTION_PERMIT ∈ l) then ACTION_PERMIT
  else ACTION_UNSPECIFIED.

Definition appliesTo (user : string) (group_members : gmap string (gset string))
    (by_group : bool) (r : AuthorizationRule) : bool :=
  match r_principal r with
  | User u => negb by_group && String.eqb u user
  | Group g => by_group && in_group user group_members g
  | NoPrincipal => false
  end.

(** The rules for one pattern: user rules are consulted first, group rules only
    when no user rule decides. *)
Definition decideAt (rules : list AuthorizationRule) (group_members : gmap string (gset string))
    (user : string) (mode : Mode) (p : list step) : Action :=
  let tier by_group := verdict (r_action <$> filter (fun r =>
    steps (r_path r) = p /\ r_mode r = mode /\
    appliesTo user group_members by_group r = true) rules) in
  if bool_decide (tier false = ACTION_UNSPECIFIED) then tier true else tier false.

Fixpoint firstDecided (f : list step -> Action) (l : list (list step)) : Action :=
  match l with
  | [] => ACTION_UNSPECIFIED
  | p :: l' => if bool_decide (f p = ACTION_UNSPECIFIED) then firstDecided f l' else f p
  end.

Definition spec_authorize (rules : list AuthorizationRule) (group_members : gmap string (gset string))
    (user : string) (mode : Mode) (path : list PathElem) : Action :=
  firstDecided (decideAt rules group_members user mode) (candidates (steps path)).

(** Rules as the gNMI and gNSI specifications allow them: non-empty key names and
    the two defined actions (or none). *)
Definition wfAction (a : Action) : bool :=
  match a with ACTION_OTHER _ => false | _ => true end.

Definition wfKeys (path : list PathElem) : bool :=
  forallb (fun e => bool_decide (elem_key e !! "" = None)) path.

Definition wfRule (r : AuthorizationRule) : bool := wfAction (r_action r) && wfKeys (r_path r).

(** ** The trie as a map from step lists to nodes *)

Fixpoint nodeAt (node : gnmiAuthzNode) (s : list step) : option gnmiAuthzNode :=
  match s with
  | [] => Some node
  | SName n :: s' => nameNext node !! n ≫= fun c => nodeAt c s'
  | SKey k v :: s' =>
      if String.eqb k (key node) then keyNext node !! v ≫= fun c => nodeAt c s' else None
  end.

Definition dataAt (node : gnmiAuthzNode) (s : list step)
    : gmap string permission * gmap string permission * string :=
  match nodeAt node s with
  | Some n => (users n, groups n, rule n)
  | None => (∅, ∅, "")
  end.

(** A node without a key name has no key children. *)
Inductive wfNode : gnmiAuthzNode -> Prop :=
| wf_node n :
    (key n = "" -> keyNext n = ∅) ->
    (forall a c, nameNext n !! a = Some c -> wfNode c) ->
    (forall a c, keyNext n !! a = Some c -> wfNode c) ->
    wfNode n.

(** ** The index arguments follow the flattened path *)

Lemma remaining_end path ni ks ki :
  goodIdx path ni ks ki -> path !! ni = None -> remaining path ni ks ki = [].
Proof.
  intros [[-> ->]|(e & He & _)] Hn; [|congruence].
  unfold remaining. rewrite Hn. by rewrite drop_ge by (by apply lookup_ge_None).
Qed.

Lemma remaining_in_keys path ni e ks ki :
  path !! ni = Some e -> 0 < length ks ->
  remaining path ni ks ki = keySteps e (drop ki ks) ++ steps (drop (S ni) path).
Proof. intros He Hl. unfold remaining. rewrite He. by destruct ks; simpl in *; [lia|]. Qed.

Lemma remaining_no_keys path ni : remaining path ni [] 0 = steps (drop ni path).
Proof. unfold remaining. by destruct (path !! ni). Qed.

Lemma sorted_keys_nil {V} (m : gmap string V) : size m = 0 -> sorted_keys m = [].
Proof. intros H. apply length_zero_iff_nil. by rewrite sorted_keys_length. Qed.

(** After a name: switch to the keys of the element, or to the next element. *)
Lemma remaining_name path ni e nni nks :
  path !! ni = Some e ->
  (if 0 <? size (elem_key e) then (ni, sorted_keys (elem_key e)) else (ni + 1, [])) = (nni, nks) ->
  remaining path ni [] 0 = SName (elem_name e) :: remaining path nni nks 0 /\ goodIdx path nni nks 0.
Proof.
  intros He Hn. rewrite remaining_no_keys, (drop_S _ _ _ He).
  change (steps (e :: drop (S ni) path)) with (elemSteps e ++ steps (drop (S ni) path)).
  unfold elemSteps. destruct (0 <? size (elem_key e)) eqn:Es; simplify_eq.
  - apply Nat.ltb_lt in Es.
    assert (0 < length (sorted_keys (elem_key e))) by (by rewrite sorted_keys_length).
    split; [|right; eauto]. by rewrite (remaining_in_keys _ _ e).
  - apply Nat.ltb_ge in Es. rewrite sorted_keys_nil by lia. split; [|by left].
    by rewrite remaining_no_keys, Nat.add_1_r.
Qed.

(** After a key: the next key, or the next element. *)
Lemma remaining_key path ni e ks ki k nni nks nki :
  path !! ni = Some e -> ks = sorted_keys (elem_key e) -> ks !! ki = Some k ->
  (if ki + 1 =? length ks then (ni + 1, [], 0) else (ni, ks, ki + 1)) = (nni, nks, nki) ->
  exists v, elem_key e !! k = Some v /\
    remaining path ni ks ki = SKey k v :: remaining path nni nks nki /\ goodIdx path nni nks nki.
Proof.
  intros He Hks Hk Hn.
  assert (is_Some (elem_key e !! k)) as [v Hv].
  { apply elem_of_sorted_keys. rewrite <-Hks. by eapply list_elem_of_lookup_2. }
  exists v. split; [done|]. pose proof (lookup_lt_Some _ _ _ Hk) as Hlt.
  rewrite (remaining_in_keys _ _ e) by (done || lia). rewrite (drop_S _ _ _ Hk).
  unfold keySteps. rewrite fmap_cons, Hv. simpl.
  destruct (ki + 1 =? length ks) eqn:El; simplify_eq.
  - apply Nat.eqb_eq in El. split; [|by left]. rewrite (drop_ge (sorted_keys _) (S ki)) by lia.
    by rewrite remaining_no_keys, Nat.add_1_r.
  - apply Nat.eqb_neq in El. split; [|right; exists e; split_and!; [done|done|lia]].
    rewrite (remaining_in_keys _ _ e) by (done || lia). by rewrite Nat.add_1_r.
Qed.

Lemma goodIdx_keys path ni ks ki e :
  goodIdx path ni ks ki -> path !! ni = Some e -> (0 <? length ks) = true ->
  exists k, ks = sorted_keys (elem_key e) /\ ks !! ki = Some k.
Proof.
  intros [[-> _]|(e' & He & -> & Hlt)] He' H0; [done|]. simplify_eq.
  destruct (lookup_lt_is_Some_2 _ _ Hlt) as [k Hk]. eauto.
Qed.

Lemma goodIdx_no_keys path ni ks ki :
  goodIdx path ni ks ki -> (0 <? length ks) = false -> ks = [] /\ ki = 0.
Proof. intros [?|(e & _ & _ & Hlt)] H0; [done|]. apply Nat.ltb_ge in H0. lia. Qed.

Lemma length_steps path : length (steps path) < pathFuel path.
Proof.
  unfold pathFuel. induction path as [|e path IH]; [simpl; lia|].
  change (steps (e :: path)) with (elemSteps e ++ steps path).
  rewrite length_app. unfold elemSteps, keySteps. simpl.
  rewrite length_fmap, sorted_keys_length. lia.
Qed.

Section WalkProofs.
Context `{!MapRange}.
Variable user : string.
Variable mode : Mode.
Variable group_members : gmap string (gset string).

(** The index-driven recursion computes the structural walk. *)
Lemma authorize_walk fuel node path ni ks ki :
  goodIdx path ni ks ki -> length (remaining path ni ks ki) < fuel ->
  authorize user mode group_members fuel node path ni ks ki =
  walk user mode group_members node (remaining path ni ks ki).
Proof.
  revert node ni ks ki. induction fuel as [|fuel IH]; intros node ni ks ki Hg Hf; [lia|].
  simpl. destruct (path !! ni) as [e|] eqn:He; [|by rewrite remaining_end].
  destruct (0 <? length ks) eqn:E0.
  - destruct (goodIdx_keys _ _ _ _ _ Hg He E0) as (k & Hks & Hk). rewrite Hk.
    destruct (if ki + 1 =? length ks then _ else _) as [[nni nks] nki] eqn:En.
    destruct (remaining_key _ _ _ _ _ _ _ _ _ He Hks Hk En) as (v & Hv & Hr & Hg').
    rewrite Hr in *. simpl in *. destruct (String.eqb_spec k (key node)) as [->|]; simpl; [|done].
    rewrite Hv. unfold orElse. repeat case_match; try done; rewrite !IH in * by (done || lia); congruence.
  - assert (ks = [] /\ ki = 0) as [-> ->] by (by eapply goodIdx_no_keys).
    destruct (if 0 <? size (elem_key e) then _ else _) as [nni nks] eqn:En.
    destruct (remaining_name _ _ _ _ _ He En) as [Hr Hg']. rewrite Hr in *. simpl in *.
    destruct (nameNext node !! elem_name e); [|done]. unfold orElse. by rewrite IH by (done || lia).
Qed.

Lemma authorize_steps node path :
  authorize user mode group_members (pathFuel path) node path 0 [] 0 =
  walk user mode group_members node (steps path).
Proof.
  pose proof (remaining_no_keys path 0) as Hr.
  rewrite authorize_walk, Hr; [done|by left|]. rewrite Hr. apply length_steps.
Qed.

End WalkProofs.

Lemma insertPath_steps_go fuel node r ni ks ki :
  goodIdx (r_path r) ni ks ki -> length (remaining (r_path r) ni ks ki) < fuel ->
  insertPath fuel node r ni ks ki = insertSteps r node (remaining (r_path r) ni ks ki).
Proof.
  revert node ni ks ki. induction fuel as [|fuel IH]; intros node ni ks ki Hg Hf; [lia|].
  cbn [insertPath]. destruct (r_path r !! ni) as [e|] eqn:He; [|by rewrite remaining_end].
  destruct (0 <? length ks) eqn:E0.
  - destruct (goodIdx_keys _ _ _ _ _ Hg He E0) as (k & Hks & Hk). rewrite Hk.
    destruct (if ki + 1 =? length ks then _ else _) as [[nni nks] nki] eqn:En.
    destruct (remaining_key _ _ _ _ _ _ _ _ _ He Hks Hk En) as (v & Hv & Hr & Hg').
    rewrite Hr in *. simpl in *. rewrite Hv.
    destruct (negb (String.eqb (key node) "") && _); [done|]. by rewrite IH by (done || lia).
  - assert (ks = [] /\ ki = 0) as [-> ->] by (by eapply goodIdx_no_keys).
    destruct (if 0 <? size (elem_key e) then _ else _) as [nni nks] eqn:En.
    destruct (remaining_name _ _ _ _ _ He En) as [Hr Hg']. rewrite Hr in *. simpl in *.
    by rewrite IH by (done || lia).
Qed.

Lemma insertPath_steps node r :
  insertPath (pathFuel (r_path r)) node r 0 [] 0 = insertSteps r node (steps (r_path r)).
Proof.
  pose proof (remaining_no_keys (r_path r) 0) as Hr.
  rewrite insertPath_steps_go, Hr; [done|by left|]. rewrite Hr. apply length_steps.
Qed.

(** ** The walk is a first-match search *)

Abbreviation Data := (gmap string permission * gmap string permission * string)%type.

Definition emptyData : Data := (∅, ∅, "").

Lemma matched_empty : matched emptyResult = false.
Proof. done. Qed.

Lemma orElse_assoc a b c : orElse a (orElse b c) = orElse (orElse a b) c.
Proof. unfold orElse. by destruct (matched a) eqn:Ea; rewrite ?Ea. Qed.

Lemma orElse_empty c : orElse emptyResult c = c.
Proof. done. Qed.

Lemma orElse_matched r c : matched r = true -> orElse r c = r.
Proof. unfold orElse. by intros ->. Qed.

Lemma foldr_orElse {A} (f : A -> Result) ret l :
  foldr (fun p => orElse (f p)) ret l = orElse (foldr (fun p => orElse (f p)) emptyResult l) ret.
Proof.
  induction l as [|p l IH]; simpl; [done|]. by rewrite IH, orElse_assoc.
Qed.

Lemma foldr_orElse_matched {A} (f : A -> Result) l p :
  p ∈ l -> matched (f p) = true -> matched (foldr (fun p => orElse (f p)) emptyResult l) = true.
Proof.
  induction 1 as [p l|p q l Hp IH]; simpl; intros Hm; unfold orElse at 1.
  - by rewrite Hm.
  - destruct (matched (f q)) eqn:E; [done|]. by apply IH.
Qed.

(** The fallback of a recursive call that already occurs in its list of
    candidates can be replaced by the fallback of the caller. *)
Lemma orElse_foldr {A} (f : A -> Result) l p0 ret :
  p0 ∈ l ->
  orElse (foldr (fun p => orElse (f p)) (f p0) l) ret = foldr (fun p => orElse (f p)) ret l.
Proof.
  intros Hp. rewrite (foldr_orElse _ (f p0)), (foldr_orElse _ ret), <-orElse_assoc.
  destruct (matched (f p0)) eqn:E.
  - pose proof (foldr_orElse_matched f l p0 Hp E). by rewrite !orElse_matched.
  - f_equal. unfold orElse. by rewrite E.
Qed.

Lemma foldr_orElse_none {A} (f : A -> Result) l ret :
  (forall p, f p = emptyResult) -> foldr (fun p => orElse (f p)) ret l = ret.
Proof. intros Hf. induction l as [|p l IH]; simpl; [done|]. by rewrite Hf, orElse_empty. Qed.

Lemma nil_candidates s : [] ∈ candidates s.
Proof. destruct s as [|[|] s]; simpl; set_solver. Qed.

Section FirstMatch.
Context `{!MapRange}.
Variable user : string.
Variable mode : Mode.
Variable group_members : gmap string (gset string).

Definition localD (d : Data) : Result :=
  localResult user mode group_members (mkNode d.1.1 d.1.2 d.2 ∅ "" ∅).

Lemma range_of_empty {V} : range_of (V := V) ∅ = [].
Proof.
  apply Permutation_nil_r. rewrite range_of_perm. by rewrite map_to_list_empty.
Qed.

Lemma localD_empty : localD emptyData = emptyResult.
Proof. unfold localD, localResult. simpl. by rewrite lookup_empty, range_of_empty. Qed.

Definition localAt (node : gnmiAuthzNode) (p : list step) : Result := localD (dataAt node p).

Lemma localAt_nil node : localAt node [] = localResult user mode group_members node.
Proof. done. Qed.

Lemma localAt_name node n p :
  localAt node (SName n :: p) =
  match nameNext node !! n with Some c => localAt c p | None => emptyResult end.
Proof.
  unfold localAt, dataAt. simpl. destruct (nameNext node !! n); simpl; [done|]. apply localD_empty.
Qed.

Lemma localAt_key node k v p :
  localAt node (SKey k v :: p) =
  if String.eqb k (key node) then
    match keyNext node !! v with Some c => localAt c p | None => emptyResult end
  else emptyResult.
Proof.
  unfold localAt, dataAt. simpl. destruct (String.eqb k (key node)); [|apply localD_empty].
  destruct (keyNext node !! v); simpl; [done|]. apply localD_empty.
Qed.

Lemma walk_child c s ret :
  walk user mode group_members c s =
    foldr (fun p => orElse (localAt c p)) (localAt c []) (candidates s) ->
  orElse (walk user mode group_members c s) ret =
    foldr (fun p => orElse (localAt c p)) ret (candidates s).
Proof. intros ->. apply orElse_foldr, nil_candidates. Qed.

Lemma orElse_last r : orElse r r = r.
Proof. unfold orElse. by destruct (matched r). Qed.

Lemma foldr_child (o : option gnmiAuthzNode) (f : list step -> Result) s ret :
  (forall p, f p = match o with Some c => localAt c p | None => emptyResult end) ->
  match o with
  | Some c => foldr (fun p => orElse (localAt c p)) ret s
  | None => ret
  end = foldr (fun p => orElse (f p)) ret s.
Proof.
  intros Hf. destruct o as [c|].
  - induction s as [|p s IH]; simpl; [done|]. by rewrite IH, Hf.
  - by rewrite foldr_orElse_none.
Qed.

Lemma walk_firstMatch node s :
  walk user mode group_members node s =
  foldr (fun p => orElse (localAt node p)) (localAt node []) (candidates s).
Proof.
  revert node. induction s as [|[n|k v] s IH]; intros node; simpl.
  - by rewrite orElse_last, localAt_nil.
  - rewrite foldr_app, foldr_fmap. simpl. rewrite orElse_last, localAt_nil.
    rewrite <-(foldr_child (nameNext node !! n)) by (intros p; by rewrite localAt_name).
    destruct (nameNext node !! n) as [c|]; [|done]. by rewrite walk_child.
  - rewrite !foldr_app, !foldr_fmap. simpl. rewrite orElse_last, localAt_nil.
    destruct (String.eqb k (key node)) eqn:Ek.
    + assert (forall w p, localAt node (SKey k w :: p) =
        match keyNext node !! w with Some c => localAt c p | None => emptyResult end) as Hk
        by (intros; by rewrite localAt_key, Ek).
      rewrite <-(foldr_child _ _ _ _ (Hk wildCard)), <-(foldr_child _ _ _ _ (Hk v)).
      destruct (keyNext node !! wildCard) as [c|], (keyNext node !! v) as [c'|];
        by rewrite ?(walk_child _ _ _ (IH _)).
    + rewrite !foldr_orElse_none; [done|intros p; by rewrite localAt_key, Ek..].
Qed.

End FirstMatch.

(** ** Insertion updates the data at exactly one step list *)

Definition leafData (r : AuthorizationRule) (d : Data) : Data :=
  match r_principal r with
  | User u => (addPermission d.1.1 u r, d.1.2, printPath (r_path r))
  | Group g => (d.1.1, addPermission d.1.2 g r, printPath (r_path r))
  | NoPrincipal => d
  end.

Definition wfStep (s : step) : Prop := match s with SKey k _ => k <> "" | SName _ => True end.

Lemma steps_wf path : wfKeys path = true -> Forall wfStep (steps path).
Proof.
  induction path as [|e path IH]; intros H; [constructor|].
  change (steps (e :: path)) with (elemSteps e ++ steps path).
  simpl in H. apply andb_true_iff in H as [He H]. apply Forall_app; split; [|by apply IH].
  constructor; [done|]. unfold keySteps. apply Forall_fmap, Forall_forall. intros k Hk.
  apply elem_of_sorted_keys in Hk as [v Hv]. apply bool_decide_eq_true in He.
  intros Hk. simpl in Hk. congruence.
Qed.

Lemma wfNode_inv n :
  wfNode n ->
  (key n = "" -> keyNext n = ∅) /\
  (forall a c, nameNext n !! a = Some c -> wfNode c) /\
  (forall a c, keyNext n !! a = Some c -> wfNode c).
Proof. by intros [? ? ? ?]. Qed.

Lemma wfNode_empty : wfNode emptyNode.
Proof. constructor; [done| |]; simpl; intros a c; by rewrite lookup_empty. Qed.

Lemma dataAt_empty p : dataAt emptyNode p = emptyData.
Proof.
  unfold dataAt. destruct p as [|[n|k v] p]; simpl; [done| |].
  - by rewrite lookup_empty.
  - destruct (String.eqb k ""); [|done]. by rewrite lookup_empty.
Qed.

Lemma dataAt_name node n p :
  dataAt node (SName n :: p) = dataAt (default emptyNode (nameNext node !! n)) p.
Proof.
  unfold dataAt at 1. simpl. destruct (nameNext node !! n) as [c|] eqn:E; simpl; [done|].
  by rewrite dataAt_empty.
Qed.

Lemma dataAt_key node k v p :
  wfNode node -> k <> "" -> (key node = "" \/ key node = k) ->
  dataAt node (SKey k v :: p) = dataAt (default emptyNode (keyNext node !! v)) p.
Proof.
  intros Hw Hk Hor. unfold dataAt at 1. simpl. destruct (String.eqb_spec k (key node)) as [->|Hne].
  - destruct (keyNext node !! v) as [c|] eqn:E; simpl; [done|]. by rewrite dataAt_empty.
  - destruct Hor as [H0|]; [|congruence]. apply wfNode_inv in Hw as (Hw & _).
    rewrite (Hw H0), lookup_empty. simpl. by rewrite dataAt_empty.
Qed.

Lemma dataAt_other_key node k v p :
  k <> key node -> dataAt node (SKey k v :: p) = emptyData.
Proof. intros H. unfold dataAt. simpl. by destruct (String.eqb_spec k (key node)). Qed.

Lemma insertLeaf_data node r node' :
  insertLeaf node r = Ok node' ->
  wfNode node -> wfNode node' /\
  dataAt node' [] = leafData r (dataAt node []) /\
  forall p, p <> [] -> dataAt node' p = dataAt node p.
Proof.
  intros H (H1 & H2 & H3)%wfNode_inv. unfold insertLeaf in H. split.
  - destruct (r_principal r); simplify_eq; by constructor.
  - unfold leafData. split; [destruct (r_principal r); by simplify_eq|].
    intros [|[a|k v] p] ?; [done|..]; destruct (r_principal r); by simplify_eq.
Qed.

Lemma wfNode_child_name node n : wfNode node -> wfNode (default emptyNode (nameNext node !! n)).
Proof. intros (_ & H & _)%wfNode_inv. destruct (nameNext _ !! n) eqn:E; simpl; eauto using wfNode_empty. Qed.

Lemma wfNode_child_key node v : wfNode node -> wfNode (default emptyNode (keyNext node !! v)).
Proof. intros (_ & _ & H)%wfNode_inv. destruct (keyNext _ !! v) eqn:E; simpl; eauto using wfNode_empty. Qed.

Lemma insertSteps_data r node s node' :
  Forall wfStep s -> wfNode node -> insertSteps r node s = Ok node' ->
  wfNode node' /\
  forall p, dataAt node' p = if decide (p = s) then leafData r (dataAt node s) else dataAt node p.
Proof.
  intros Hs. revert node node'. induction Hs as [|[n|k v] s Hk Hs IH]; intros node node' Hw H; simpl in H.
  - destruct (insertLeaf_data _ _ _ H Hw) as (Hw' & H0 & H1). split; [done|].
    intros p. case_decide; [by subst|by apply H1].
  - destruct (insertSteps r _ s) as [c|] eqn:E; simplify_eq.
    destruct (IH _ _ (wfNode_child_name _ n Hw) E) as [Hc HD]. split.
    + apply wfNode_inv in Hw as (H1 & H2 & H3). constructor; simpl; [done| |done].
      intros a c'. rewrite lookup_insert. case_decide; [by intros [= <-]|by eauto].
    + intros [|[n'|k' v'] p]; [done| |done]. rewrite !dataAt_name. simpl.
      rewrite lookup_insert. destruct (decide (n = n')) as [->|Hne]; simpl.
      * rewrite HD. repeat case_decide; congruence.
      * case_decide; [congruence|done].
  - destruct (_ && _) eqn:Em; [done|].
    assert (key node = "" \/ key node = k) as Hor.
    { by apply andb_false_iff in Em as [Em%negb_false_iff%String.eqb_eq|Em%negb_false_iff%String.eqb_eq]; auto. }
    destruct (insertSteps r _ s) as [c|] eqn:E; simplify_eq. simpl in Hk.
    destruct (IH _ _ (wfNode_child_key _ v Hw) E) as [Hc HD].
    set (node' := mkNode _ _ _ _ _ _).
    assert (wfNode node') as Hw'.
    { apply wfNode_inv in Hw as (H1 & H2 & H3). constructor; simpl; [done|done|].
      intros a c'. rewrite lookup_insert. case_decide; [by intros [= <-]|by eauto]. }
    split; [done|]. intros [|[n'|k' v'] p]; [done|done|].
    destruct (decide (k' = k)) as [->|Hne].
    + rewrite !dataAt_key by auto. simpl. rewrite lookup_insert.
      destruct (decide (v = v')) as [->|Hne]; simpl.
      * rewrite HD. repeat case_decide; congruence.
      * case_decide; [congruence|done].
    + rewrite dataAt_other_key by done. case_decide; [congruence|].
      destruct Hor as [H0|H0]; [|by rewrite dataAt_other_key by congruence].
      destruct (decide (k' = "")) as [->|Hne'].
      * apply wfNode_inv in Hw as (H1 & _). unfold dataAt. simpl. rewrite H0. simpl.
        by rewrite (H1 H0), lookup_empty.
      * by rewrite dataAt_other_key by congruence.
Qed.

(** The data at a step list after loading a whole policy. *)
Definition ruleData (p : list step) (d : Data) (r : AuthorizationRule) : Data :=
  if decide (p = steps (r_path r)) then leafData r d else d.

Lemma foldM_insert_data rules node root :
  forallb (fun r => wfKeys (r_path r)) rules = true -> wfNode node ->
  foldM (fun root r => insertPath (pathFuel (r_path r)) root r 0 [] 0) node rules = Ok root ->
  forall p, dataAt root p = fold_left (ruleData p) rules (dataAt node p).
Proof.
  revert node. induction rules as [|r rules IH]; intros node Hk Hw H p; cbn [foldM] in H; [by simplify_eq|].
  apply andb_true_iff in Hk as [Hr Hk]. rewrite insertPath_steps in H.
  destruct (insertSteps r node _) as [node'|] eqn:E; [|done].
  destruct (insertSteps_data _ _ _ _ (steps_wf _ Hr) Hw E) as [Hw' HD].
  simpl. rewrite (IH node') by done. rewrite HD. unfold ruleData at 3. by repeat case_decide; subst.
Qed.

Lemma createPolicies_data rules root p :
  forallb (fun r => wfKeys (r_path r)) rules = true ->
  createPolicies rules = Ok root ->
  dataAt root p = fold_left (ruleData p) rules emptyData.
Proof.
  intros Hk H. unfold createPolicies in H. destruct rules as [|r rules]; [done|].
  rewrite (foldM_insert_data _ _ _ Hk wfNode_empty H). by rewrite dataAt_empty.
Qed.

(** ** Permissions of one principal *)

Definition access (p : permission) (mode : Mode) : ruleAction :=
  match mode with
  | MODE_READ => p_read p
  | MODE_WRITE => p_write p
  | _ => mkRA "" ACTION_UNSPECIFIED
  end.

(** Joining a further action: deny is final, an unspecified one is ignored. *)
Definition vjoin (a b : Action) : Action :=
  if bool_decide (a = ACTION_DENY) then a
  else if bool_decide (b = ACTION_UNSPECIFIED) then a else b.

Definition updPerm (p : permission) (r : AuthorizationRule) : permission :=
  (updatePermission p (r_action r) (r_mode r) (r_id r)).1.

Lemma access_updPerm p r mode :
  mode = MODE_READ \/ mode = MODE_WRITE ->
  ra_action (access (updPerm p r) mode) =
  if decide (r_mode r = mode) then vjoin (ra_action (access p mode)) (r_action r)
  else ra_action (access p mode).
Proof.
  unfold updPerm, updatePermission, vjoin.
  intros [-> | ->]; destruct (r_mode r); repeat case_bool_decide; simpl in *;
    repeat case_decide; simpl; congruence.
Qed.

Lemma access_fold l p mode :
  mode = MODE_READ \/ mode = MODE_WRITE ->
  ra_action (access (fold_left updPerm l p) mode) =
  fold_left vjoin (r_action <$> filter (fun r => r_mode r = mode) l) (ra_action (access p mode)).
Proof.
  intros Hm. revert p. induction l as [|r l IH]; intros p; simpl; [done|].
  rewrite IH, access_updPerm, filter_cons by done. by case_decide.
Qed.

Lemma vjoin_wf a b : wfAction a = true -> wfAction b = true -> wfAction (vjoin a b) = true.
Proof. unfold vjoin. by repeat case_bool_decide. Qed.

Lemma verdict_vjoin a b l :
  wfAction a = true -> wfAction b = true -> verdict (vjoin a b :: l) = verdict (a :: b :: l).
Proof.
  intros Ha Hb. unfold verdict, vjoin.
  repeat case_bool_decide; subst; try done; try set_solver; destruct a, b; set_solver.
Qed.

Lemma fold_vjoin_verdict l a :
  wfAction a = true -> Forall (fun b => wfAction b = true) l ->
  fold_left vjoin l a = verdict (a :: l).
Proof.
  intros Ha Hl. revert a Ha. induction Hl as [|b l Hb Hl IH]; intros a Ha; simpl.
  - unfold verdict. by destruct a.
  - rewrite IH by (by apply vjoin_wf). by apply verdict_vjoin.
Qed.

Lemma verdict_unspec l : verdict (ACTION_UNSPECIFIED :: l) = verdict l.
Proof. unfold verdict. repeat case_bool_decide; set_solver. Qed.

Lemma verdict_deny l : verdict l = ACTION_DENY <-> ACTION_DENY ∈ l.
Proof. unfold verdict. repeat case_bool_decide; naive_solver. Qed.

Lemma verdict_permit l : verdict l = ACTION_PERMIT <-> ACTION_PERMIT ∈ l /\ ACTION_DENY ∉ l.
Proof. unfold verdict. repeat case_bool_decide; naive_solver. Qed.

Lemma verdict_ext l l' :
  (ACTION_DENY ∈ l <-> ACTION_DENY ∈ l') ->
  (ACTION_DENY ∉ l -> ACTION_PERMIT ∈ l <-> ACTION_PERMIT ∈ l') ->
  verdict l = verdict l'.
Proof. intros. unfold verdict. repeat case_bool_decide; naive_solver. Qed.

(** The permission that a policy gives one principal at one pattern. *)
Lemma data_users p u rules d :
  default emptyPerm ((fold_left (ruleData p) rules d).1.1 !! u) =
  fold_left updPerm (filter (fun r => steps (r_path r) = p /\ r_principal r = User u) rules)
    (default emptyPerm (d.1.1 !! u)).
Proof.
  revert d. induction rules as [|r rules IH]; intros d; [done|].
  cbn [fold_left]. rewrite IH, filter_cons. unfold ruleData, leafData.
  destruct (decide (p = steps (r_path r))) as [->|Hp]; [|case_decide; [naive_solver|done]].
  destruct (r_principal r) as [|u'|g] eqn:E; simpl; [by case_decide; [naive_solver|]| |by case_decide; [naive_solver|]].
  unfold addPermission. rewrite lookup_insert.
  destruct (decide (u' = u)) as [->|Hne]; case_decide; naive_solver.
Qed.

Lemma data_groups p g rules d :
  default emptyPerm ((fold_left (ruleData p) rules d).1.2 !! g) =
  fold_left updPerm (filter (fun r => steps (r_path r) = p /\ r_principal r = Group g) rules)
    (default emptyPerm (d.1.2 !! g)).
Proof.
  revert d. induction rules as [|r rules IH]; intros d; [done|].
  cbn [fold_left]. rewrite IH, filter_cons. unfold ruleData, leafData.
  destruct (decide (p = steps (r_path r))) as [->|Hp]; [|case_decide; [naive_solver|done]].
  destruct (r_principal r) as [|u|g'] eqn:E; simpl; [by case_decide; [naive_solver|]|by case_decide; [naive_solver|]|].
  unfold addPermission. rewrite lookup_insert.
  destruct (decide (g' = g)) as [->|Hne]; case_decide; naive_solver.
Qed.

Lemma ruleData_groups_mono p d r g : is_Some (d.1.2 !! g) -> is_Some ((ruleData p d r).1.2 !! g).
Proof.
  unfold ruleData, leafData. case_decide; [|done]. destruct (r_principal r); simpl; try done.
  unfold addPermission. intros. rewrite lookup_insert. by case_decide.
Qed.

Lemma data_groups_some p g rules d r :
  r ∈ rules -> steps (r_path r) = p -> r_principal r = Group g ->
  is_Some ((fold_left (ruleData p) rules d).1.2 !! g).
Proof.
  intros Hr Hp Hg.
  assert (forall rules d, is_Some (d.1.2 !! g) -> is_Some ((fold_left (ruleData p) rules d).1.2 !! g)) as Hmono.
  { induction rules0; intros d0 Hd; simpl; [done|]. eauto using ruleData_groups_mono. }
  revert d. induction Hr as [r rules|r r' rules Hr IH]; intros d; simpl; [|by apply IH].
  apply Hmono. unfold ruleData, leafData. rewrite decide_True by done. rewrite Hg. simpl.
  unfold addPermission. by rewrite lookup_insert_eq.
Qed.

(** The text of a rule depends on its steps only. *)
Definition renderStep (s : step) : string :=
  match s with SName n => "/" +:+ n | SKey k v => "[" +:+ k +:+ "=" +:+ v +:+ "]" end.

Definition renderSteps (acc : string) (l : list step) : string :=
  fold_left (fun acc s => acc +:+ renderStep s) l acc.

Definition renderPath (l : list step) : string :=
  let s := renderSteps "" l in if String.eqb s "" then "/" else s.

Lemma renderSteps_app acc l l' : renderSteps acc (l ++ l') = renderSteps (renderSteps acc l) l'.
Proof. apply fold_left_app. Qed.

Lemma printKeys_render e acc :
  printKeys e acc = renderSteps acc (keySteps e (sorted_keys (elem_key e))).
Proof.
  unfold printKeys. generalize (sorted_keys (elem_key e)). intros ks. revert acc.
  induction ks as [|k ks IH]; intros acc; simpl; [done|]. by rewrite IH.
Qed.

Lemma printPath_render path : printPath path = renderPath (steps path).
Proof.
  unfold printPath, renderPath. cbv zeta.
  assert (forall acc, fold_left (fun ret e =>
    let ret := ret +:+ "/" +:+ elem_name e in
    if bool_decide (size (elem_key e) = 0) then ret else printKeys e ret) path acc =
    renderSteps acc (steps path)) as ->; [|done].
  induction path as [|e path IH]; intros acc; [done|].
  change (steps (e :: path)) with (elemSteps e ++ steps path). cbn [fold_left].
  rewrite IH, renderSteps_app. f_equal. unfold elemSteps. cbn. rewrite printKeys_render.
  case_bool_decide; [|done]. by rewrite sorted_keys_nil.
Qed.

Lemma printPath_nonempty path : printPath path <> "".
Proof. unfold printPath. case_match eqn:E; [done|]. by apply String.eqb_neq. Qed.

(** Only a node that a rule ends at has permissions, and it has a rule text. *)
Definition dataInv (d : Data) : Prop := d.2 = "" -> d.1.1 = ∅ /\ d.1.2 = ∅.

Lemma data_inv p rules d : dataInv d -> dataInv (fold_left (ruleData p) rules d).
Proof.
  revert d. induction rules as [|r rules IH]; intros d Hd; simpl; [done|]. apply IH.
  unfold ruleData, leafData. case_decide; [|done].
  destruct (r_principal r); [done|..]; intros H0; simpl in H0; by apply printPath_nonempty in H0.
Qed.

Lemma data_rule p rules d :
  d.2 = "" \/ d.2 = renderPath p ->
  let d' := fold_left (ruleData p) rules d in d'.2 = "" \/ d'.2 = renderPath p.
Proof.
  revert d. induction rules as [|r rules IH]; intros d Hd; simpl; [done|]. apply IH.
  unfold ruleData, leafData. case_decide as Hp; [subst p|done].
  destruct (r_principal r); simpl; rewrite ?printPath_render; auto.
Qed.

Lemma perm_source l p mode :
  access (fold_left updPerm l p) mode = access p mode \/
  exists r, r ∈ l /\ r_mode r = mode /\
    access (fold_left updPerm l p) mode = mkRA (r_id r) (r_action r).
Proof.
  revert p. induction l as [|r l IH]; intros p; simpl; [by left|].
  destruct (IH (updPerm p r)) as [->|(r' & ? & ? & ->)]; [|right; exists r'; set_solver].
  unfold updPerm, updatePermission. case_bool_decide; [by left|].
  destruct (r_mode r) eqn:Em; simpl; try by left.
  all: destruct mode; simpl; try by left.
  all: case_bool_decide; [by left|right; exists r; set_solver].
Qed.

(** ** The decision at one node *)

Section Local.
Context `{!MapRange}.
Variable user : string.
Variable mode : Mode.
Variable group_members : gmap string (gset string).

Abbreviation member := (in_group user group_members).

Lemma updateResult_action ret p rule :
  Action_ (updateResult ret p mode rule).1 = vjoin (Action_ ret) (ra_action (access p mode)).
Proof.
  unfold updateResult, vjoin. case_bool_decide; [done|].
  destruct mode; simpl; repeat case_bool_decide; simpl; naive_solver.
Qed.

(** An update either leaves the result or installs the rule of the permission. *)
Lemma updateResult_cases ret p rule :
  (updateResult ret p mode rule).1 = ret \/
  (ra_action (access p mode) <> ACTION_UNSPECIFIED /\
   (updateResult ret p mode rule).1 =
     mkResult (ra_action (access p mode)) (ra_ruleId (access p mode)) rule).
Proof.
  unfold updateResult. case_bool_decide; [by left|].
  destruct mode; simpl; try case_bool_decide; simpl; auto.
Qed.

Definition groupAction (gp : string * permission) : Action :=
  if member gp.1 then ra_action (access gp.2 mode) else ACTION_UNSPECIFIED.

Lemma fold_vjoin_deny l : fold_left vjoin l ACTION_DENY = ACTION_DENY.
Proof. by induction l. Qed.

Lemma groupLoop_action rule ret l :
  Action_ (groupLoop user mode group_members rule ret l) =
  fold_left vjoin (groupAction <$> l) (Action_ ret).
Proof.
  revert ret. induction l as [|[g p] l IH]; intros ret; simpl; [done|].
  unfold groupAction at 2. simpl. destruct (member g).
  - pose proof (updateResult_action ret p rule) as Hu.
    destruct (bool_decide _ && _) eqn:E; [|by rewrite IH, Hu].
    apply andb_true_iff in E as [E%bool_decide_eq_true _].
    rewrite <-Hu, E. by rewrite fold_vjoin_deny.
  - rewrite IH. f_equal. unfold vjoin. by repeat case_bool_decide.
Qed.

Lemma groupLoop_cases rule ret l :
  groupLoop user mode group_members rule ret l = ret \/
  exists g p, (g, p) ∈ l /\ member g = true /\ ra_action (access p mode) <> ACTION_UNSPECIFIED /\
    groupLoop user mode group_members rule ret l =
      mkResult (ra_action (access p mode)) (ra_ruleId (access p mode)) rule.
Proof.
  revert ret. induction l as [|[g p] l IH]; intros ret; simpl; [by left|].
  destruct (member g) eqn:Eg.
  - pose proof (updateResult_cases ret p rule) as Hc. set (ret' := (updateResult ret p mode rule).1) in *.
    destruct (bool_decide _ && _).
    + destruct Hc as [->|[? ->]]; [by left|]. right. exists g, p. set_solver.
    + destruct (IH ret') as [->|(g' & p' & ? & ? & ? & ->)].
      * destruct Hc as [->|[? ->]]; [by left|]. right. exists g, p. set_solver.
      * right. exists g', p'. set_solver.
  - destruct (IH ret) as [->|(g' & p' & ? & ? & ? & ->)]; [by left|].
    right. exists g', p'. set_solver.
Qed.

(** Where a decision at a node comes from. *)
Lemma localD_cases d :
  localD user mode group_members d = emptyResult \/
  exists p, ra_action (access p mode) <> ACTION_UNSPECIFIED /\
    (d.1.1 !! user = Some p \/ exists g, member g = true /\ d.1.2 !! g = Some p) /\
    localD user mode group_members d =
      mkResult (ra_action (access p mode)) (ra_ruleId (access p mode)) d.2.
Proof.
  unfold localD, localResult. simpl. set (ret := match d.1.1 !! user with Some _ => _ | None => _ end).
  assert (ret = emptyResult \/ exists p, ra_action (access p mode) <> ACTION_UNSPECIFIED /\
    d.1.1 !! user = Some p /\
    ret = mkResult (ra_action (access p mode)) (ra_ruleId (access p mode)) d.2) as Hret.
  { subst ret. destruct (d.1.1 !! user) as [p|]; [|by left].
    destruct (updateResult_cases emptyResult p d.2) as [->|[? ->]]; eauto. }
  assert (ret = emptyResult \/ exists p, ra_action (access p mode) <> ACTION_UNSPECIFIED /\
    (d.1.1 !! user = Some p \/ exists g, member g = true /\ d.1.2 !! g = Some p) /\
    ret = mkResult (ra_action (access p mode)) (ra_ruleId (access p mode)) d.2) as Hret' by naive_solver.
  destruct (_ || _); [|done].
  destruct (groupLoop_cases d.2 ret (range_of d.1.2)) as [->|(g & p & Hin & ? & ? & ->)]; [done|].
  right. exists p. rewrite range_of_perm, elem_of_map_to_list in Hin. eauto 10.
Qed.

Lemma localD_action d :
  dataInv d ->
  Action_ (localD user mode group_members d) =
  let a := ra_action (access (default emptyPerm (d.1.1 !! user)) mode) in
  if bool_decide (a = ACTION_UNSPECIFIED)
  then fold_left vjoin (groupAction <$> range_of d.1.2) ACTION_UNSPECIFIED
  else a.
Proof.
  intros Hd. unfold localD, localResult. simpl.
  destruct (d.1.1 !! user) as [p|] eqn:Eu; simpl.
  - pose proof (updateResult_action emptyResult p d.2) as Hu. simpl in Hu.
    assert (vjoin ACTION_UNSPECIFIED (ra_action (access p mode)) = ra_action (access p mode)) as Hv
      by (unfold vjoin; repeat case_bool_decide; congruence).
    rewrite Hv in Hu. destruct (updateResult_cases emptyResult p d.2) as [Hr|[Hne Hr]]; rewrite Hr in *.
    + simpl in *. rewrite <-Hu. simpl. by rewrite groupLoop_action.
    + simpl. rewrite !bool_decide_eq_false_2 by done. simpl.
      destruct (String.eqb_spec d.2 "") as [E|E]; [|done].
      destruct (Hd E) as [E' _]. by rewrite E', lookup_empty in Eu.
  - rewrite groupLoop_action. destruct mode; done.
Qed.

Lemma localD_matched d :
  dataInv d ->
  matched (localD user mode group_members d) =
  bool_decide (Action_ (localD user mode group_members d) <> ACTION_UNSPECIFIED).
Proof.
  intros Hd. unfold matched. destruct (localD_cases d) as [->|(p & Hne & Hs & ->)]; [done|]. simpl.
  destruct (String.eqb_spec d.2 "") as [E|E]; [|by rewrite andb_true_r].
  destruct (Hd E) as [E1 E2]. rewrite E1, E2 in Hs. setoid_rewrite lookup_empty in Hs. naive_solver.
Qed.

Lemma perm_verdict l :
  mode = MODE_READ \/ mode = MODE_WRITE ->
  Forall (fun r => wfAction (r_action r) = true) l ->
  ra_action (access (fold_left updPerm l emptyPerm) mode) =
  verdict (r_action <$> filter (fun r => r_mode r = mode) l).
Proof.
  intros Hm Hl. rewrite access_fold by done.
  assert (ra_action (access emptyPerm mode) = ACTION_UNSPECIFIED) as -> by (by destruct Hm as [-> | ->]).
  rewrite fold_vjoin_verdict, verdict_unspec; [done|done|].
  by apply Forall_fmap, Forall_filter_keep.
Qed.

(** The flat rules at a pattern that satisfy [Q]. *)
Definition tierActions (rules : list AuthorizationRule) (p : list step)
    (Q : AuthorizationRule -> Prop) `{forall r, Decision (Q r)} : list Action :=
  r_action <$> filter (fun r => steps (r_path r) = p /\ r_mode r = mode /\ Q r) rules.

Lemma elem_of_tierActions rules p Q `{forall r, Decision (Q r)} a :
  a ∈ tierActions rules p Q <->
  exists r, r ∈ rules /\ steps (r_path r) = p /\ r_mode r = mode /\ Q r /\ r_action r = a.
Proof.
  unfold tierActions. rewrite list_elem_of_fmap. setoid_rewrite list_elem_of_filter. naive_solver.
Qed.

Lemma perm_tier rules p pr :
  mode = MODE_READ \/ mode = MODE_WRITE ->
  Forall (fun r => wfAction (r_action r) = true) rules ->
  ra_action (access (fold_left updPerm
    (filter (fun r => steps (r_path r) = p /\ r_principal r = pr) rules) emptyPerm) mode) =
  verdict (tierActions rules p (fun r => r_principal r = pr)).
Proof.
  intros Hm Hwf. rewrite perm_verdict by (done || by apply Forall_filter_keep).
  unfold tierActions. f_equal. f_equal. rewrite list_filter_filter. apply list_filter_iff. naive_solver.
Qed.

Lemma group_tier rules p :
  mode = MODE_READ \/ mode = MODE_WRITE ->
  Forall (fun r => wfAction (r_action r) = true) rules ->
  let gs := (fold_left (ruleData p) rules emptyData).1.2 in
  fold_left vjoin (groupAction <$> range_of gs) ACTION_UNSPECIFIED =
  verdict (tierActions rules p (fun r => appliesTo user group_members true r = true)).
Proof.
  intros Hm Hwf gs.
  assert (forall g pm, gs !! g = Some pm ->
    ra_action (access pm mode) = verdict (tierActions rules p (fun r => r_principal r = Group g))) as HG.
  { intros g pm Hg. pose proof (data_groups p g rules emptyData) as Hd. fold gs in Hd.
    rewrite Hg in Hd. simpl in Hd. by rewrite Hd, lookup_empty, perm_tier. }
  assert (forall a, a <> ACTION_UNSPECIFIED -> a ∈ groupAction <$> range_of gs <->
    exists g pm, gs !! g = Some pm /\ member g = true /\
      verdict (tierActions rules p (fun r => r_principal r = Group g)) = a) as HE.
  { intros a Ha. rewrite list_elem_of_fmap. unfold groupAction. split.
    - intros ([g pm] & -> & Hin). rewrite range_of_perm, elem_of_map_to_list in Hin.
      simpl in *. destruct (member g) eqn:Eg; [|done]. exists g, pm. by rewrite (HG _ _ Hin).
    - intros (g & pm & Hg & Hm' & <-). exists (g, pm). simpl. rewrite Hm', (HG _ _ Hg).
      by rewrite range_of_perm, elem_of_map_to_list. }
  rewrite fold_vjoin_verdict, verdict_unspec; [|done|].
  2:{ apply Forall_fmap, Forall_forall. intros [g pm] Hin. rewrite range_of_perm, elem_of_map_to_list in Hin.
      unfold compose, groupAction. simpl. destruct (member g); [|done]. rewrite (HG g pm Hin).
      unfold verdict. by repeat case_bool_decide. }
  assert (forall a r g, r ∈ rules -> steps (r_path r) = p -> r_mode r = mode ->
    r_principal r = Group g -> r_action r = a ->
    a ∈ tierActions rules p (fun r => r_principal r = Group g) /\ is_Some (gs !! g)) as HR.
  { intros a r g. intros. split; [apply elem_of_tierActions; eauto 10|]. by eapply data_groups_some. }
  apply verdict_ext.
  - rewrite HE by done. setoid_rewrite verdict_deny. setoid_rewrite elem_of_tierActions. split.
    + intros (g & pm & _ & Hg & r & ? & ? & ? & Hpr & ?). exists r. unfold appliesTo. by rewrite Hpr.
    + intros (r & ? & ? & ? & Hap & ?). unfold appliesTo in Hap.
      destruct (r_principal r) as [| |g] eqn:Epr; [done..|]. simpl in Hap.
      destruct (HR ACTION_DENY r g) as [_ [pm ?]]; [done..|]. exists g, pm. eauto 10.
  - intros Hnd. rewrite HE by done. setoid_rewrite verdict_permit. split.
    + intros (g & pm & _ & Hg & (r & ? & ? & ? & Hpr & ?)%elem_of_tierActions & _).
      apply elem_of_tierActions. exists r. unfold appliesTo. by rewrite Hpr.
    + intros (r & ? & ? & ? & Hap & ?)%elem_of_tierActions. unfold appliesTo in Hap.
      destruct (r_principal r) as [| |g] eqn:Epr; [done..|]. simpl in Hap.
      destruct (HR ACTION_PERMIT r g) as [? [pm ?]]; [done..|]. exists g, pm. split_and!; [done|done|done|].
      intros Hden. apply Hnd. apply HE; [done|]. exists g, pm. by rewrite verdict_deny.
Qed.

(** The decision at a pattern of a loaded policy is the one of the flat rules. *)
Lemma localD_decideAt rules p :
  mode = MODE_READ \/ mode = MODE_WRITE ->
  Forall (fun r => wfAction (r_action r) = true) rules ->
  Action_ (localD user mode group_members (fold_left (ruleData p) rules emptyData)) =
  decideAt rules group_members user mode p.
Proof.
  intros Hm Hwf. rewrite localD_action by (by apply data_inv). cbv zeta.
  rewrite group_tier by done. rewrite data_users. simpl. rewrite lookup_empty. simpl.
  rewrite perm_tier by done. unfold decideAt. fold (tierActions rules p (fun r => appliesTo user group_members true r = true)).
  fold (tierActions rules p (fun r => appliesTo user group_members false r = true)).
  replace (tierActions rules p (fun r => appliesTo user group_members false r = true))
    with (tierActions rules p (fun r => r_principal r = User user)); [done|].
  unfold tierActions. f_equal. apply list_filter_iff. intros r. unfold appliesTo.
  destruct (r_principal r); simpl; rewrite ?String.eqb_eq; naive_solver.
Qed.

Lemma source_user rules p pm :
  (fold_left (ruleData p) rules emptyData).1.1 !! user = Some pm ->
  ra_action (access pm mode) <> ACTION_UNSPECIFIED ->
  exists r, r ∈ rules /\ steps (r_path r) = p /\ r_mode r = mode /\ r_principal r = User user /\
    access pm mode = mkRA (r_id r) (r_action r).
Proof.
  intros Hu Hne. pose proof (data_users p user rules emptyData) as Hd. rewrite Hu in Hd. simpl in Hd.
  rewrite lookup_empty in Hd. simpl in Hd. subst pm.
  destruct (perm_source (filter (fun r => steps (r_path r) = p /\ r_principal r = User user) rules)
    emptyPerm mode) as [He|(r & [[??]?]%list_elem_of_filter & ? & ->)]; [|eauto 10].
  rewrite He in Hne. by destruct mode.
Qed.

Lemma source_group rules p g pm :
  (fold_left (ruleData p) rules emptyData).1.2 !! g = Some pm ->
  ra_action (access pm mode) <> ACTION_UNSPECIFIED ->
  exists r, r ∈ rules /\ steps (r_path r) = p /\ r_mode r = mode /\ r_principal r = Group g /\
    access pm mode = mkRA (r_id r) (r_action r).
Proof.
  intros Hg Hne. pose proof (data_groups p g rules emptyData) as Hd. rewrite Hg in Hd. simpl in Hd.
  rewrite lookup_empty in Hd. simpl in Hd. subst pm.
  destruct (perm_source (filter (fun r => steps (r_path r) = p /\ r_principal r = Group g) rules)
    emptyPerm mode) as [He|(r & [[??]?]%list_elem_of_filter & ? & ->)]; [|eauto 10].
  rewrite He in Hne. by destruct mode.
Qed.

(** Every decision at a pattern is the action of a rule that applies there. *)
Lemma localD_sound rules p res :
  localD user mode group_members (fold_left (ruleData p) rules emptyData) = res ->
  matched res = true ->
  exists r, r ∈ rules /\ steps (r_path r) = p /\ r_mode r = mode /\
    (appliesTo user group_members false r || appliesTo user group_members true r) = true /\
    res = mkResult (r_action r) (r_id r) (printPath (r_path r)).
Proof.
  intros Hl Hm. set (d := fold_left (ruleData p) rules emptyData) in *.
  destruct (localD_cases d) as [He|(pm & Hne & Hsrc & He)]; [by rewrite <-Hl, He in Hm|].
  assert (d.2 = renderPath p) as Hrule.
  { destruct (data_rule p rules emptyData) as [E|E]; [by left| |done]. fold d in E.
    rewrite <-Hl, He in Hm. unfold matched in Hm. simpl in Hm. rewrite E, andb_false_r in Hm. done. }
  destruct Hsrc as [Hu|(g & Hg & Hu)].
  - destruct (source_user _ _ _ Hu Hne) as (r & ? & Hp & ? & Hpr & Ha).
    exists r. split_and!; [done..| |].
    + unfold appliesTo. by rewrite Hpr, String.eqb_refl.
    + by rewrite <-Hl, He, Ha, Hrule, printPath_render, Hp.
  - destruct (source_group _ _ _ _ Hu Hne) as (r & ? & Hp & ? & Hpr & Ha).
    exists r. split_and!; [done..| |].
    + unfold appliesTo. rewrite Hpr. by rewrite orb_true_iff; right.
    + by rewrite <-Hl, He, Ha, Hrule, printPath_render, Hp.
Qed.

End Local.

(** ** Properties of the processor *)

(** A rule pattern matches a request: it is a prefix of it, up to wildcards in
    key values. *)
Inductive matchesPath : list step -> list step -> Prop :=
| match_nil s : matchesPath [] s
| match_name n p s : matchesPath p s -> matchesPath (SName n :: p) (SName n :: s)
| match_exact k v p s : matchesPath p s -> matchesPath (SKey k v :: p) (SKey k v :: s)
| match_wild k v p s : matchesPath p s -> matchesPath (SKey k wildCard :: p) (SKey k v :: s).

Lemma elem_of_cons_fmap (x : step) (l : list (list step)) p :
  p ∈ cons x <$> l <-> exists q, p = x :: q /\ q ∈ l.
Proof. rewrite list_elem_of_fmap. naive_solver. Qed.

Lemma candidates_match s p : p ∈ candidates s <-> matchesPath p s.
Proof.
  revert p. induction s as [|[n|k v] s IH]; intros p; simpl;
    rewrite ?elem_of_app, ?elem_of_cons_fmap, ?list_elem_of_singleton; setoid_rewrite IH || idtac.
  - split; [intros ->; constructor|by inversion 1].
  - split; [|inversion 1; naive_solver]. intros [(q & -> & ?)| ->]; by constructor.
  - split; [|inversion 1; naive_solver].
    intros [(q & -> & ?)|[(q & -> & ?)| ->]]; by constructor.
Qed.

Lemma foldr_first (f : list step -> Result) ret l :
  (forall p, matched (f p) = bool_decide (Action_ (f p) <> ACTION_UNSPECIFIED)) ->
  Action_ ret = ACTION_UNSPECIFIED \/ ret ∈ f <$> l ->
  Action_ (foldr (fun p => orElse (f p)) ret l) = firstDecided (fun p => Action_ (f p)) l.
Proof.
  intros Hf. induction l as [|p l IH]; simpl; intros Hret; [set_solver|].
  unfold orElse. rewrite Hf. destruct (decide (Action_ (f p) = ACTION_UNSPECIFIED)) as [E|E].
  - rewrite bool_decide_eq_false_2, bool_decide_eq_true_2 by naive_solver. apply IH.
    destruct Hret as [?|[->|?]%elem_of_cons]; auto.
  - by rewrite bool_decide_eq_true_2, bool_decide_eq_false_2.
Qed.

Lemma foldr_source (f : list step -> Result) ret l :
  (forall p, matched (f p) = bool_decide (Action_ (f p) <> ACTION_UNSPECIFIED)) ->
  ret ∈ f <$> l ->
  Action_ (foldr (fun p => orElse (f p)) ret l) <> ACTION_UNSPECIFIED ->
  exists p, p ∈ l /\ matched (f p) = true /\ foldr (fun p => orElse (f p)) ret l = f p.
Proof.
  intros Hf Hin Hne.
  assert (foldr (fun p => orElse (f p)) ret l = ret \/
    exists p, p ∈ l /\ matched (f p) = true /\ foldr (fun p => orElse (f p)) ret l = f p) as [E|?]; [| |done].
  - clear. induction l as [|p l IH]; simpl; [by left|]. unfold orElse.
    destruct (matched (f p)) eqn:E; [right; exists p; set_solver|].
    destruct IH as [IH|(q & ? & ? & IH)]; [left; exact IH|right; exists q; set_solver].
  - apply list_elem_of_fmap in Hin as (p & Hp & Hin). exists p. split_and!; [done| |congruence].
    rewrite Hf. apply bool_decide_eq_true. congruence.
Qed.

Lemma firstDecided_ext f g l : (forall p, f p = g p) -> firstDecided f l = firstDecided g l.
Proof. intros H. induction l as [|p l IH]; simpl; [done|]. by rewrite H, IH. Qed.

Lemma firstDecided_unspec f l :
  firstDecided f l = ACTION_UNSPECIFIED <-> Forall (fun p => f p = ACTION_UNSPECIFIED) l.
Proof.
  induction l as [|p l IH]; simpl; [split; [constructor|done]|].
  rewrite Forall_cons. case_bool_decide; naive_solver.
Qed.

Section Processor.
Context `{!MapRange}.
Variable proc : GnmiAuthzProcessor.
Variable policy : AuthorizationPolicy.
Variable proc' : GnmiAuthzProcessor.
Hypothesis Hload : UpdatePolicyFromProto proc (Some policy) = (proc', None).

Lemma load_root : exists root, createPolicies (p_rules policy) = Ok root /\
  proc' = mkProc (createGroups (p_groups policy)) (Some root) (Some policy).
Proof.
  unfold UpdatePolicyFromProto, createNewPolicy in Hload. simpl in Hload.
  destruct (createPolicies (p_rules policy)) as [root|e]; simplify_eq. eauto.
Qed.

(** After loading, a request is answered by the first-match search in the trie. *)
Lemma authorize_loaded user prefix path mode :
  forallb (fun r => wfKeys (r_path r)) (p_rules policy) = true ->
  mode <> MODE_UNSPECIFIED ->
  AuthorizeWithPrefix (Some proc') user prefix path mode =
  Ok (let f p := localD user mode (createGroups (p_groups policy))
                   (fold_left (ruleData p) (p_rules policy) emptyData) in
      foldr (fun p => orElse (f p)) (f []) (candidates (steps (GetElem prefix ++ GetElem path)))).
Proof.
  intros Hk Hm. destruct load_root as (root & Hc & ->). unfold AuthorizeWithPrefix.
  cbn [proc_root proc_groups]. cbv zeta.
  rewrite bool_decide_eq_false_2 by done. f_equal.
  rewrite authorize_steps, walk_firstMatch. unfold localAt.
  assert (forall l ret, foldr (fun p => orElse (localD user mode (createGroups (p_groups policy)) (dataAt root p))) ret l =
    foldr (fun p => orElse (localD user mode (createGroups (p_groups policy))
      (fold_left (ruleData p) (p_rules policy) emptyData))) ret l) as ->.
  { intros l ret. induction l as [|p l IH]; simpl; [done|]. by rewrite IH, (createPolicies_data _ _ _ Hk Hc). }
  by rewrite (createPolicies_data _ _ _ Hk Hc).
Qed.

Lemma wfRules_split :
  forallb wfRule (p_rules policy) = true ->
  Forall (fun r => wfAction (r_action r) = true) (p_rules policy) /\
  forallb (fun r => wfKeys (r_path r)) (p_rules policy) = true.
Proof.
  unfold wfRule. induction (p_rules policy) as [|r l IH]; simpl; [by split; [constructor|]|].
  rewrite !andb_true_iff, Forall_cons. naive_solver.
Qed.

Lemma authorize_spec user prefix path mode :
  forallb wfRule (p_rules policy) = true ->
  mode = MODE_READ \/ mode = MODE_WRITE ->
  exists r, AuthorizeWithPrefix (Some proc') user prefix path mode = Ok r /\
    Action_ r = spec_authorize (p_rules policy) (createGroups (p_groups policy)) user mode
                  (GetElem prefix ++ GetElem path).
Proof.
  intros [Hwf Hk]%wfRules_split Hm. eexists. split; [apply authorize_loaded; [done|naive_solver]|].
  cbv zeta. rewrite foldr_first.
  - unfold spec_authorize. apply firstDecided_ext. intros p. by apply localD_decideAt.
  - intros p. by apply localD_matched, data_inv.
  - right. apply list_elem_of_fmap. exists []. split; [done|apply nil_candidates].
Qed.

End Processor.

Definition covers (user : string) (gm : gmap string (gset string)) (r : AuthorizationRule) : bool :=
  appliesTo user gm false r || appliesTo user gm true r.

Lemma verdict_unspec_iff l :
  verdict l = ACTION_UNSPECIFIED <-> (ACTION_DENY ∉ l) /\ (ACTION_PERMIT ∉ l).
Proof. unfold verdict. repeat case_bool_decide; naive_solver. Qed.

Lemma decideAt_unspec rules gm user mode p :
  Forall (fun r => wfAction (r_action r) = true) rules ->
  decideAt rules gm user mode p = ACTION_UNSPECIFIED <->
  forall r, r ∈ rules -> steps (r_path r) = p -> r_mode r = mode -> covers user gm r = true ->
    r_action r = ACTION_UNSPECIFIED.
Proof.
  intros Hwf. unfold decideAt. rewrite Forall_forall in Hwf.
  assert (forall b, verdict (r_action <$> filter (fun r => steps (r_path r) = p /\ r_mode r = mode /\
      appliesTo user gm b r = true) rules) = ACTION_UNSPECIFIED <->
    forall r, r ∈ rules -> steps (r_path r) = p -> r_mode r = mode -> appliesTo user gm b r = true ->
      r_action r = ACTION_UNSPECIFIED) as HT.
  { intros b. rewrite verdict_unspec_iff, !list_elem_of_fmap. setoid_rewrite list_elem_of_filter.
    split; [|intros Hall; split; intros (x & Hx & (? & ? & ?) & ?); by rewrite (Hall x) in Hx].
    intros [Hd Hp] r Hr H1 H2 H3. specialize (Hwf r Hr).
    destruct (r_action r) eqn:Ea; [done|exfalso; eauto 10..|done]. }
  unfold covers. setoid_rewrite orb_true_iff. cbv zeta. case_bool_decide as Hu.
  - rewrite HT in *. naive_solver.
  - rewrite HT in *. naive_solver.
Qed.

(** C1. A policy that loads is enforced as the flat rule list prescribes: the
    answer to a read or write request is the verdict of the first pattern, in
    order of precedence (longest match, exact key before wildcard), for which
    some rule decides; user rules before group rules, deny over permit. *)
Theorem authorize_refines_spec `{!MapRange} proc policy proc' user prefix path mode :
  UpdatePolicyFromProto proc (Some policy) = (proc', None) ->
  forallb wfRule (p_rules policy) = true ->
  mode = MODE_READ \/ mode = MODE_WRITE ->
  exists r, AuthorizeWithPrefix (Some proc') user prefix path mode = Ok r /\
    Action_ r = spec_authorize (p_rules policy) (createGroups (p_groups policy)) user mode
                  (GetElem prefix ++ GetElem path).
Proof. intros. by eapply authorize_spec. Qed.

(** Soundness of a decision: the action, rule id and rule text returned are
    those of a rule of the loaded policy whose path matches the request, whose
    mode is the requested one and whose principal is the user or one of the
    user's groups. *)
Theorem authorize_sound `{!MapRange} proc policy proc' user prefix path mode r :
  UpdatePolicyFromProto proc (Some policy) = (proc', None) ->
  forallb (fun r => wfKeys (r_path r)) (p_rules policy) = true ->
  AuthorizeWithPrefix (Some proc') user prefix path mode = Ok r ->
  Action_ r <> ACTION_UNSPECIFIED ->
  exists rl, rl ∈ p_rules policy /\
    matchesPath (steps (r_path rl)) (steps (GetElem prefix ++ GetElem path)) /\
    r_mode rl = mode /\ covers user (createGroups (p_groups policy)) rl = true /\
    r = mkResult (r_action rl) (r_id rl) (printPath (r_path rl)).
Proof.
  intros Hload Hk Ha Hne. destruct (decide (mode = MODE_UNSPECIFIED)) as [->|Hm]; [done|].
  rewrite (authorize_loaded _ _ _ Hload) in Ha by done. injection Ha as <-. cbv zeta in *.
  set (f := fun p => localD user mode (createGroups (p_groups policy))
    (fold_left (ruleData p) (p_rules policy) emptyData)).
  destruct (foldr_source f (f []) (candidates (steps (GetElem prefix ++ GetElem path))))
    as (p & Hp & Hmt & Hf); [|apply list_elem_of_fmap; exists []; auto using nil_candidates|done|].
  { intros p. by apply localD_matched, data_inv. }
  destruct (localD_sound user mode _ (p_rules policy) p (f p) eq_refl Hmt)
    as (rl & ? & <- & ? & ? & Hr). exists rl. split_and!; try done; [by apply candidates_match|].
  by rewrite <-Hr, <-Hf.
Qed.

(** The answer does not depend on the order in which Go iterates over the
    group map of a node. *)
Theorem authorize_order_independent (R1 R2 : MapRange) proc policy proc' user prefix path mode r1 r2 :
  UpdatePolicyFromProto proc (Some policy) = (proc', None) ->
  forallb wfRule (p_rules policy) = true ->
  mode = MODE_READ \/ mode = MODE_WRITE ->
  @AuthorizeWithPrefix R1 (Some proc') user prefix path mode = Ok r1 ->
  @AuthorizeWithPrefix R2 (Some proc') user prefix path mode = Ok r2 ->
  Action_ r1 = Action_ r2.
Proof.
  intros Hl Hw Hm H1 H2.
  destruct (@authorize_spec R1 _ _ _ Hl user prefix path mode Hw Hm) as (? & E1 & Ha1).
  destruct (@authorize_spec R2 _ _ _ Hl user prefix path mode Hw Hm) as (? & E2 & Ha2).
  congruence.
Qed.

(** Default deny and completeness: a request is left undecided (which callers
    treat as denied) exactly when no rule with an action matches its path, its
    mode and the user. *)
Theorem authorize_undecided_iff `{!MapRange} proc policy proc' user prefix path mode r :
  UpdatePolicyFromProto proc (Some policy) = (proc', None) ->
  forallb wfRule (p_rules policy) = true ->
  mode = MODE_READ \/ mode = MODE_WRITE ->
  AuthorizeWithPrefix (Some proc') user prefix path mode = Ok r ->
  (Action_ r = ACTION_UNSPECIFIED <->
   forall rl, rl ∈ p_rules policy ->
     matchesPath (steps (r_path rl)) (steps (GetElem prefix ++ GetElem path)) ->
     r_mode rl = mode -> covers user (createGroups (p_groups policy)) rl = true ->
     r_action rl = ACTION_UNSPECIFIED).
Proof.
  intros Hl Hw Hm Ha. destruct (authorize_spec _ _ _ Hl user prefix path mode Hw Hm) as (? & E & Hs).
  assert (r = x) as -> by congruence. rewrite Hs. unfold spec_authorize.
  rewrite firstDecided_unspec, Forall_forall. destruct (wfRules_split _ Hw) as [Hwf _].
  setoid_rewrite decideAt_unspec; [|done]. setoid_rewrite candidates_match. naive_solver.
Qed.

(** *** A concrete policy *)

(** [/interfaces/interface[name=*]] is readable by group ops, the entry [name=eth0] is
    denied to bob, and group noc may write below [/system]. *)
Definition demo_policy : AuthorizationPolicy :=
  let intf v := [ename "interfaces"; mkElem "interface" {["name" := v]}] in
  mkPolicy
    [ mkRule "r1" (Group "ops") (intf "*") ACTION_PERMIT MODE_READ;
      mkRule "r2" (User "bob") (intf "eth0") ACTION_DENY MODE_READ;
      mkRule "r3" (Group "noc") [ename "system"] ACTION_PERMIT MODE_WRITE ]
    [ ("ops", ["alice"; "bob"]); ("noc", ["carol"]) ].

Definition demo_proc : GnmiAuthzProcessor :=
  (UpdatePolicyFromProto newProcessor (Some demo_policy)).1.

Definition demo_path (v : string) : option Path :=
  Some (mkPath "" "" [ename "interfaces"; mkElem "interface" {["name" := v]}; ename "state"]).

Lemma demo_loads : UpdatePolicyFromProto newProcessor (Some demo_policy) = (demo_proc, None).
Proof. vm_compute. reflexivity. Qed.

Lemma demo_wf : forallb wfRule (p_rules demo_policy) = true.
Proof. vm_compute. reflexivity. Qed.

Lemma demo_wf_keys : forallb (fun r => wfKeys (r_path r)) (p_rules demo_policy) = true.
Proof. vm_compute. reflexivity. Qed.

Lemma authorize_refines_spec_witness :
  exists r, AuthorizeWithPrefix (Some demo_proc) "bob" None (demo_path "eth0") MODE_READ = Ok r /\
    Action_ r = ACTION_DENY.
Proof.
  destruct (authorize_refines_spec newProcessor demo_policy demo_proc "bob" None (demo_path "eth0")
    MODE_READ demo_loads demo_wf (or_introl eq_refl)) as (r & Hr & Ha).
  exists r. split; [exact Hr|]. rewrite Ha. vm_compute. reflexivity.
Defined.

Lemma authorize_sound_witness :
  exists rl, rl ∈ p_rules demo_policy /\ r_mode rl = MODE_READ /\ r_action rl = ACTION_PERMIT.
Proof.
  assert (Hr : exists r, AuthorizeWithPrefix (Some demo_proc) "alice" None (demo_path "eth1") MODE_READ = Ok r /\
    Action_ r = ACTION_PERMIT) by (eexists; split; vm_compute; reflexivity).
  destruct Hr as (r & Hr & Ha).
  destruct (authorize_sound newProcessor demo_policy demo_proc "alice" None (demo_path "eth1")
    MODE_READ r demo_loads demo_wf_keys Hr) as (rl & Hin & _ & Hm & _ & Hres).
  - rewrite Ha. discriminate.
  - exists rl. split; [exact Hin|]. split; [exact Hm|]. rewrite Hres in Ha. exact Ha.
Defined.

Lemma authorize_order_independent_witness :
  exists r1 r2,
    @AuthorizeWithPrefix map_range_default (Some demo_proc) "bob" None (demo_path "eth1") MODE_READ = Ok r1 /\
    @AuthorizeWithPrefix map_range_rev (Some demo_proc) "bob" None (demo_path "eth1") MODE_READ = Ok r2 /\
    Action_ r1 = Action_ r2.
Proof.
  assert (exists r1, @AuthorizeWithPrefix map_range_default (Some demo_proc) "bob" None (demo_path "eth1") MODE_READ = Ok r1)
    as [r1 H1] by (eexists; vm_compute; reflexivity).
  assert (exists r2, @AuthorizeWithPrefix map_range_rev (Some demo_proc) "bob" None (demo_path "eth1") MODE_READ = Ok r2)
    as [r2 H2] by (eexists; vm_compute; reflexivity).
  exists r1, r2. split; [exact H1|]. split; [exact H2|].
  exact (authorize_order_independent map_range_default map_range_rev newProcessor demo_policy demo_proc
    "bob" None (demo_path "eth1") MODE_READ r1 r2 demo_loads demo_wf (or_introl eq_refl) H1 H2).
Defined.

Lemma authorize_undecided_iff_witness :
  exists r, AuthorizeWithPrefix (Some demo_proc) "carol" None (demo_path "eth1") MODE_READ = Ok r /\
    forall rl, rl ∈ p_rules demo_policy ->
     matchesPath (steps (r_path rl)) (steps (GetElem None ++ GetElem (demo_path "eth1"))) ->
     r_mode rl = MODE_READ -> covers "carol" (createGroups (p_groups demo_policy)) rl = true ->
     r_action rl = ACTION_UNSPECIFIED.
Proof.
  assert (exists r, AuthorizeWithPrefix (Some demo_proc) "carol" None (demo_path "eth1") MODE_READ = Ok r /\
    Action_ r = ACTION_UNSPECIFIED) as (r & Hr & Ha) by (eexists; split; vm_compute; reflexivity).
  exists r. split; [exact Hr|].
  exact (proj1 (authorize_undecided_iff newProcessor demo_policy demo_proc "carol" None (demo_path "eth1")
    MODE_READ r demo_loads demo_wf (or_introl eq_refl) Hr) Ha).
Defined.
