(* ===== verification/HostIO.v ===== *)
(** The files and the Redis metadata table that the gNSI services write
    (src/gnmi_server/gnsi_util.go and the helpers of gnsi_certz.go).

    [World] holds the regular files and the hashes of the metadata database.
    Every system call consumes one tick and fails when [fails] says so for that
    tick, so statements that quantify over [fails] cover every pattern of I/O
    failures.  Temporary files live under generated names that no modelled path
    equals; only their rename onto the destination is visible. *)

From S2P Require Import Prelude GnmiTypes.

Record World := mkWorld {
  fs : gmap string string;
  db : gmap string (gmap string string);
  tick : nat
}.

Inductive ioerr := IOError | NotRegular | CleanupFailed.

#[global] Instance ioerr_eq_dec : EqDecision ioerr.
Proof. solve_decision. Defined.

Definition set_fs (w : World) (f : gmap string string) : World := mkWorld f (db w) (tick w).
Definition set_db (w : World) (d : gmap string (gmap string string)) : World := mkWorld (fs w) d (tick w).

Section IO.
(** [fails n] : the [n]-th system call fails; [torn n] : what a failed write leaves
    in the file ([None]: the file as it was). *)
Variable fails : nat -> bool.
Variable torn : nat -> option string.

Definition next (w : World) : World := mkWorld (fs w) (db w) (S (tick w)).

(** [os.Remove]. *)
Definition osRemove (w : World) (name : string) : option ioerr * World :=
  let w' := next w in
  if fails (tick w) then (Some IOError, w')
  else match fs w !! name with
       | None => (Some IOError, w')
       | Some _ => (None, set_fs w' (delete name (fs w)))
       end.

(** [os.ReadFile]. *)
Definition osReadFile (w : World) (name : string) : res ioerr string * World :=
  let w' := next w in
  if fails (tick w) then (Err IOError, w')
  else match fs w !! name with
       | None => (Err IOError, w')
       | Some c => (Ok c, w')
       end.

(** [os.WriteFile]. *)
Definition osWriteFile (w : World) (name data : string) : option ioerr * World :=
  let w' := next w in
  if fails (tick w) then
    (Some IOError, match torn (tick w) with
                   | Some c => set_fs w' (<[name := c]> (fs w))
                   | None => w'
                   end)
  else (None, set_fs w' (<[name := data]> (fs w))).

(** [os.Rename]. *)
Definition osRename (w : World) (src dst : string) : option ioerr * World :=
  let w' := next w in
  if fails (tick w) then (Some IOError, w')
  else match fs w !! src with
       | None => (Some IOError, w')
       | Some c => (None, set_fs w' (<[dst := c]> (delete src (fs w))))
       end.

(** A call without a modelled effect that can only fail or succeed ([os.Open],
    [os.CreateTemp], [io.Copy], [Close], [os.Chmod]). *)
Definition osCall (w : World) : option ioerr * World :=
  (if fails (tick w) then Some IOError else None, next w).

(** [attemptWrite]. *)
Definition attemptWrite (w : World) (name data : string) : option ioerr * World :=
  let '(err, w) := osWriteFile w name data in
  match err with
  | None => (None, w)
  | Some e =>
      let '(e', w) := osRemove w name in
      (Some (match e' with Some _ => CleanupFailed | None => e end), w)
  end.

(** The rename of a filled temporary file onto [dst], and the final [chmod]; on
    failure the temporary file is removed. *)
Definition installTemp (w : World) (dst data : string) : option ioerr * World :=
  let '(e, w) := osCall w in                     (* os.CreateTemp *)
  match e with Some e => (Some e, w) | None =>
  let '(e, w) := osCall w in                     (* write *)
  match e with Some e => (Some e, (osCall w).2) | None =>
  let '(e, w) := osCall w in                     (* Close *)
  match e with Some e => (Some e, (osCall w).2) | None =>
  let '(e, w') := osCall w in                    (* os.Rename *)
  match e with
  | Some e => (Some e, (osCall w').2)
  | None => osCall (set_fs w' (<[dst := data]> (fs w')))    (* os.Chmod *)
  end end end end.

(** [copyFile]. *)
Definition copyFile (w : World) (srcPath dstPath : string) : option ioerr * World :=
  let '(e, w) := osCall w in                     (* os.Stat *)
  match e with Some e => (Some e, w) | None =>
  match fs w !! srcPath with
  | None => (Some IOError, w)
  | Some data =>
      let '(e, w) := osCall w in                 (* os.Open *)
      match e with Some e => (Some e, w) | None => installTemp w dstPath data end
  end end.

(** [fileCheck]. *)
Definition fileCheck (w : World) (f : string) : option ioerr * World :=
  let '(e, w) := osCall w in
  match e with
  | Some e => (Some e, w)
  | None => (match fs w !! f with Some _ => None | None => Some IOError end, w)
  end.

(** [writeCredentialsMetadataToDB]. *)
Definition writeCredentialsMetadataToDB (w : World) (tbl key fld val : string)
    : option ioerr * World :=
  let '(e, w) := osCall w in                     (* GetRedisDBClient *)
  match e with Some e => (Some e, w) | None =>
  let path := str_join ["CREDENTIALS"; tbl] "|" in
  let path := if 0 <? String.length key then str_join [path; key] "|" else path in
  let '(e, w) := osCall w in                     (* HSet *)
  match e with
  | Some e => (Some e, w)
  | None => (None, set_db w (<[path := <[fld := val]> (default ∅ (db w !! path))]> (db w)))
  end end.

End IO.

(** ** Frame lemmas *)

(** No call fails. *)
Definition noFaults : nat -> bool := fun _ => false.

Section Frame.
Variable fails : nat -> bool.
Variable torn : nat -> option string.

Lemma writeDB_fs w tbl key fld val :
  fs (writeCredentialsMetadataToDB fails w tbl key fld val).2 = fs w.
Proof.
  unfold writeCredentialsMetadataToDB, osCall, next. simpl.
  destruct (fails _); [done|]. by destruct (fails _).
Qed.

Lemma writeDB_ok w tbl fld val e w' :
  writeCredentialsMetadataToDB fails w tbl "" fld val = (e, w') -> e = None ->
  let path := str_join ["CREDENTIALS"; tbl] "|" in
  db w' = <[path := <[fld := val]> (default ∅ (db w !! path))]> (db w).
Proof.
  unfold writeCredentialsMetadataToDB, osCall, next. simpl.
  destruct (fails _); [by intros [= <- <-]|]. destruct (fails _); by intros [= <- <-].
Qed.

Lemma installTemp_fs w dst data e w' f :
  installTemp fails w dst data = (e, w') -> f <> dst -> fs w' !! f = fs w !! f.
Proof.
  unfold installTemp, osCall, next. simpl. intros H Hne.
  repeat (case_hyp H; try done); by rewrite lookup_insert_ne.
Qed.

Lemma installTemp_ok w dst data w' :
  installTemp fails w dst data = (None, w') -> fs w' = <[dst := data]> (fs w).
Proof.
  unfold installTemp, osCall, next. simpl. intros H.
  by repeat (case_hyp H; try done).
Qed.

Lemma installTemp_db w dst data : db (installTemp fails w dst data).2 = db w.
Proof. unfold installTemp, osCall, next. simpl. repeat case_goal; done. Qed.

Lemma copyFile_fs w src dst e w' f :
  copyFile fails w src dst = (e, w') -> f <> dst -> fs w' !! f = fs w !! f.
Proof.
  unfold copyFile, osCall, next. simpl. intros H Hne. do 3 (case_hyp H; try done).
  by rewrite (installTemp_fs _ _ _ _ _ f H Hne).
Qed.

Lemma copyFile_ok w src dst w' :
  copyFile fails w src dst = (None, w') ->
  exists c, fs w !! src = Some c /\ fs w' = <[dst := c]> (fs w).
Proof.
  unfold copyFile, osCall, next. simpl. intros H. do 3 (case_hyp H; try done).
  eexists. split; [done|]. by apply installTemp_ok in H.
Qed.

Lemma copyFile_db w src dst : db (copyFile fails w src dst).2 = db w.
Proof.
  unfold copyFile, installTemp, osCall, next. simpl. repeat case_goal; done.
Qed.

Lemma attemptWrite_ok w name data w' :
  attemptWrite fails torn w name data = (None, w') -> fs w' = <[name := data]> (fs w) /\ db w' = db w.
Proof.
  unfold attemptWrite, osWriteFile, next. destruct (fails _); simpl.
  - destruct (osRemove _ _ _) as [[]?]; by intros [=].
  - by intros [= <-].
Qed.

Lemma attemptWrite_db w name data : db (attemptWrite fails torn w name data).2 = db w.
Proof.
  unfold attemptWrite, osWriteFile, next. destruct (fails (tick w)); [|done].
  destruct (torn (tick w)); simpl; unfold osRemove, next; simpl;
    (destruct (fails _); [done|]); by destruct (_ !! name).
Qed.

Lemma attemptWrite_fs w name data f :
  f <> name -> fs (attemptWrite fails torn w name data).2 !! f = fs w !! f.
Proof.
  intros Hne. unfold attemptWrite, osWriteFile, next. destruct (fails (tick w)); simpl; [|by rewrite lookup_insert_ne].
  destruct (osRemove fails _ name) as [e w2] eqn:E. simpl. unfold osRemove, next in E.
  destruct (torn (tick w)); simpl in E; destruct (fails _); simplify_eq/=;
    repeat case_match; simplify_eq/=; rewrite ?lookup_delete_ne, ?lookup_insert_ne by done; done.
Qed.

End Frame.
