(* ===== verification/PanicMonad.v ===== *)
(** Computations on a server's state that may panic: the result is [None] after a panic,
    and the state is what it was then.  Errors are values of the result type; deferred
    calls run in any case. *)

From S2P Require Import Prelude.

Definition SM (S A : Type) : Type := S -> option A * S.

#[global] Instance SM_ret {S} : MRet (SM S) := fun A a s => (Some a, s).
#[global] Instance SM_bind {S} : MBind (SM S) := fun A B f m s =>
  match m s with
  | (Some a, s1) => f a s1
  | (None, s1) => (None, s1)
  end.

Definition panic {S A} : SM S A := fun s => (None, s).
Definition modify {S} (f : S -> S) : SM S unit := fun s => (Some tt, f s).
Definition gets {S A} (f : S -> A) : SM S A := fun s => (Some (f s), s).

(** A body and a call that runs after it in any case. *)
Definition finally {S A} (m : SM S A) (d : SM S unit) : SM S A := fun s =>
  let '(r, s1) := m s in
  let '(r', s2) := d s1 in
  (match r' with None => None | Some _ => r end, s2).

(** The actions in order up to the first error; all of them whatever they return. *)
Fixpoint untilError {S E} (l : list (SM S (option E))) : SM S (option E) :=
  match l with
  | [] => mret None
  | m :: l => e ← m; match e with Some e => mret (Some e) | None => untilError l end
  end.

Fixpoint ignoringErrors {S E} (l : list (SM S (option E))) : SM S unit :=
  match l with
  | [] => mret tt
  | m :: l => _ ← m; ignoringErrors l
  end.

Fixpoint each_ {S A} (f : A -> SM S unit) (l : list A) : SM S unit :=
  match l with
  | [] => mret tt
  | a :: l => _ ← f a; each_ f l
  end.
