(* ===== verification/Filepath.v ===== *)
(** Lexical paths as Go's package [path/filepath] treats them on Unix: [Clean], [Join],
    [Dir], [Abs].  Used by the certificate service and the file services. *)

From S2P Require Import Prelude.
Open Scope go_scope.

Module Filepath.

Definition sep : Ascii.ascii := Ascii.ascii_of_nat 47.

Definition IsAbs (p : string) : bool := has_prefix p "/".

(** One component onto the stack of those kept (last one first). *)
Definition pushComp (rooted : bool) (st : list string) (c : string) : list string :=
  if String.eqb c "" || String.eqb c "." then st
  else if String.eqb c ".." then
    match st with
    | top :: st' => if String.eqb top ".." then c :: st else st'
    | [] => if rooted then [] else [c]
    end
  else c :: st.

(** The components of a cleaned path, first one first. *)
Definition cleanComps (p : string) : list string :=
  rev (fold_left (pushComp (IsAbs p)) (str_split p "/") []).

Definition Clean (p : string) : string :=
  if IsAbs p then "/" +:+ str_join (cleanComps p) "/"
  else match cleanComps p with [] => "." | l => str_join l "/" end.

(** The elements from the first non-empty one on, joined and cleaned. *)
Fixpoint Join (l : list string) : string :=
  match l with
  | [] => ""
  | e :: l' => if String.eqb e "" then Join l' else Clean (str_join l "/")
  end.

(** The path up to its last slash, cleaned. *)
Definition Dir (p : string) : string :=
  match last_index p sep with
  | Some i => Clean (strtake (S i) p)
  | None => "."
  end.

Definition Abs (cwd p : string) : string := if IsAbs p then Clean p else Join [cwd; p].

(** * Properties *)

(** A name that stands for an entry of a directory. *)
Definition plainName (s : string) : Prop := s <> "" /\ s <> "." /\ s <> ".." /\ str_free sep s.

Lemma pushComp_plain rooted st c : plainName c -> pushComp rooted st c = c :: st.
Proof.
  intros (H1 & H2 & H3 & _). unfold pushComp.
  destruct (String.eqb_spec c ""), (String.eqb_spec c "."), (String.eqb_spec c ".."); done.
Qed.

(** What a cleaned rooted path consists of. *)
Definition rootedStack (st : list string) : Prop := Forall plainName st.

Lemma pushComp_rooted st c : rootedStack st -> str_free sep c -> rootedStack (pushComp true st c).
Proof.
  intros Hst Hc. unfold pushComp. destruct (String.eqb_spec c ""); [done|]. destruct (String.eqb_spec c "."); [done|]. cbn [orb].
  destruct (String.eqb_spec c "..").
  - destruct Hst as [|top st Htop Hst]; [constructor|]. destruct (String.eqb_spec top ".."); [|done]. by destruct Htop as (_ & _ & ? & _).
  - by constructor.
Qed.

Lemma split_go_pieces c cur s : str_free c cur -> Forall (str_free c) (split_go (String c "") 0 cur s).
Proof.
  revert cur. induction s as [|d s IH]; intros cur Hc; cbn [split_go]; [by constructor|]. cbn [str_prefix].
  destruct (Ascii.eqb_spec c d) as [->|Hne]; cbn [andb].
  - constructor; [done|]. by apply IH.
  - apply IH, str_free_app. split; [done|]. by split.
Qed.

Lemma fold_rooted l st : Forall (str_free sep) l -> rootedStack st -> rootedStack (fold_left (pushComp true) l st).
Proof. intros Hl. revert st. induction Hl as [|c l Hc _ IH]; intros st Hst; [done|]. by apply IH, pushComp_rooted. Qed.

(** The components of a cleaned absolute path are plain names: no empty ones, no dots,
    no slashes. *)
Lemma cleanComps_plain p : IsAbs p = true -> Forall plainName (cleanComps p).
Proof.
  intros Hp. unfold cleanComps. rewrite Hp. apply Forall_rev. apply fold_rooted; [|constructor]. by apply split_go_pieces.
Qed.

Lemma fold_plain l rooted st : Forall plainName l -> fold_left (pushComp rooted) l st = rev l ++ st.
Proof.
  intros Hl. revert st. induction Hl as [|c l Hc _ IH]; intros st; [done|]. cbn [fold_left rev]. rewrite IH, pushComp_plain by done.
  by rewrite <- app_assoc.
Qed.

(** A path put together from plain names consists of them. *)
Lemma cleanComps_build l : Forall plainName l -> cleanComps ("/" +:+ str_join l "/") = l.
Proof.
  intros Hl. unfold cleanComps. change (IsAbs _) with true.
  assert (str_split ("/" +:+ str_join l "/") "/" = "" :: (match l with [] => [""] | _ => l end)) as ->.
  { change ("/" +:+ str_join l "/") with ("" +:+ "/" +:+ str_join l "/"). destruct l as [|a l]; [done|].
    rewrite <- str_join_cons by done. apply split_join; [done|]. constructor; [done|]. eapply Forall_impl; [exact Hl|]. by intros x (_ & _ & _ & ?). }
  cbn [fold_left]. change (pushComp true [] "") with (@nil string). destruct l as [|a l]; [done|].
  rewrite fold_plain by done. by rewrite app_nil_r, rev_involutive.
Qed.

(** Cleaning an absolute path is idempotent, and leaves only plain components. *)
Theorem clean_idempotent p : IsAbs p = true -> Clean (Clean p) = Clean p /\ Forall plainName (cleanComps (Clean p)).
Proof.
  intros Hp. pose proof (cleanComps_plain p Hp) as Hc.
  assert (Clean p = "/" +:+ str_join (cleanComps p) "/") as E by (unfold Clean; by rewrite Hp).
  assert (cleanComps (Clean p) = cleanComps p) as E2 by (rewrite E; by apply cleanComps_build).
  split; [|by rewrite E2]. unfold Clean at 1. rewrite E2, E. done.
Qed.

Lemma str_join_snoc l n : l <> [] -> str_join (l ++ [n]) "/" = str_join l "/" +:+ "/" +:+ n.
Proof.
  induction l as [|a l IH]; [done|]. intros _. destruct l as [|b l]; [done|].
  change ((a :: b :: l) ++ [n]) with (a :: ((b :: l) ++ [n])). rewrite str_join_cons by by destruct l. rewrite IH by done.
  rewrite (str_join_cons a (b :: l)) by done. by rewrite !str_app_assoc.
Qed.

(** Joining a plain name to a clean directory stays in the directory. *)
Lemma join_plain l n :
  l <> [] -> Forall plainName l -> plainName n ->
  Join ["/" +:+ str_join l "/"; n] = "/" +:+ str_join l "/" +:+ "/" +:+ n.
Proof.
  intros Hne Hl Hn. cbn [Join]. destruct (String.eqb_spec ("/" +:+ str_join l "/") ""); [done|].
  change (str_join ["/" +:+ str_join l "/"; n] "/") with (("/" +:+ str_join l "/") +:+ "/" +:+ n).
  rewrite str_app_assoc, <- str_join_snoc by done. unfold Clean. change (IsAbs _) with true. cbv iota.
  rewrite cleanComps_build; [done|]. apply Forall_app. split; [done|]. by constructor.
Qed.

(** A component has no slash, wherever the path starts. *)
Lemma pushComp_free rooted st c :
  Forall (fun c => c <> "" /\ str_free sep c) st -> str_free sep c -> Forall (fun c => c <> "" /\ str_free sep c) (pushComp rooted st c).
Proof.
  intros Hst Hc. unfold pushComp. destruct (String.eqb_spec c ""); [done|]. destruct (String.eqb_spec c "."); [done|]. cbn [orb].
  destruct (String.eqb c "..").
  - destruct Hst as [|top st Htop Hst]; [destruct rooted; [done|by apply Forall_singleton]|].
    destruct (String.eqb top ".."); [|done]. constructor; [done|]. by constructor.
  - by constructor.
Qed.

Lemma cleanComps_free p : Forall (fun c => c <> "" /\ str_free sep c) (cleanComps p).
Proof.
  unfold cleanComps. apply Forall_rev.
  assert (Forall (str_free sep) (str_split p "/")) as Hl by by apply split_go_pieces.
  assert (forall l st, Forall (str_free sep) l -> Forall (fun c => c <> "" /\ str_free sep c) st ->
    Forall (fun c => c <> "" /\ str_free sep c) (fold_left (pushComp (IsAbs p)) l st)) as H.
  { intros l st Hl'. revert st. induction Hl' as [|c l Hc _ IH]; intros st Hst; [done|]. by apply IH, pushComp_free. }
  by apply H.
Qed.

(** Only an absolute path cleans to an absolute one. *)
Lemma clean_abs p : IsAbs (Clean p) = IsAbs p.
Proof.
  unfold Clean. destruct (IsAbs p) eqn:E; [done|]. pose proof (cleanComps_free p) as H.
  destruct (cleanComps p) as [|c l]; [done|]. apply Forall_cons in H as [[Hne Hc] _].
  destruct c as [|a c]; [done|]. destruct Hc as [Ha _].
  assert (exists t, str_join (String a c :: l) "/" = String a t) as [t ->] by (destruct l; cbn; rewrite ?str_app_cons; eauto).
  change (IsAbs (String a t)) with (Ascii.eqb sep a && true). by destruct (Ascii.eqb_spec sep a).
Qed.
End Filepath.
