(* ===== verification/GnsiPathz.v ===== *)
(** The gNSI pathz service (src/gnmi_server/gnsi_pathz.go): rotation of the path
    authorization policy with checkpoint, revert and commit.

    [pathzMetadata] and [pathzMetadataCopy] are Go pointers, so the metadata
    objects live in a small heap and the two fields are locations.  The policy
    processor is used through the class [PathzProcessor], the interface
    [GnmiAuthzProcessorInterface] of the source. *)

From S2P Require Import Prelude GnmiTypes Pathz HostIO.
Import Pathz.
Open Scope go_scope.

(** What the service relies on: a failed update changes nothing, a successful one
    makes the policy current and determines the processor. *)
Class PathzProcessor (P : Type) := {
  pp_update : P -> option AuthorizationPolicy -> P * option pz_error;
  pp_getPolicy : P -> option AuthorizationPolicy;
  pp_update_err : forall p pol p' e, pp_update p pol = (p', Some e) -> p' = p;
  pp_update_ok : forall p pol p', pp_update p pol = (p', None) -> pp_getPolicy p' = pol;
  pp_update_det : forall p q pol p', pp_update p pol = (p', None) -> pp_update q pol = (p', None)
}.

Module GnsiPathz.

Record PathzMetadata := mkMeta { PathzVersion : string; PathzCreatedOn : string }.

(** [pathz.UploadRequest] and the messages of the Rotate stream. *)
Record UploadRequest := mkUpload {
  up_version : string;
  up_created_on : N;
  up_policy : option AuthorizationPolicy
}.

Inductive RotateRequest :=
| FinalizeRotation
| Upload (req : UploadRequest) (force_overwrite : bool)
| OtherRequest.

(** What [stream.Recv] returns in one turn of the loop; [send_ok] is the outcome of
    the [stream.Send] that answers the request. *)
Inductive RecvEvent :=
| RecvEOF
| RecvErr
| RecvReq (req : RotateRequest) (send_ok : bool).

Record Config := mkConfig { PathzPolicyFile : string; PathzMetaFile : string; PathzPolicy : bool }.

Section Service.
Context {P : Type} `{!PathzProcessor P}.
Variable fails : nat -> bool.
Variable torn : nat -> option string.
Variable cfg : Config.
(** [proto.MarshalTextString], [json.Encode] of the metadata, the object that
    [json.Unmarshal] leaves behind, and the loading of a policy file. *)
Variable marshalPolicy : option AuthorizationPolicy -> string.
Variable encodeMeta : PathzMetadata -> string.
Variable decodeMeta : string -> PathzMetadata -> PathzMetadata.
Variable updateFromFile : P -> string -> P * option pz_error.

Record GNSIPathzServer := mkSrv {
  pathzProcessor : P;
  heap : gmap nat PathzMetadata;
  pathzMetadata : nat;
  pathzMetadataCopy : option nat;
  policyCopy : option AuthorizationPolicy;
  policyUpdated : bool;
  world : World
}.

Definition set_world (s : GNSIPathzServer) (w : World) : GNSIPathzServer :=
  mkSrv (pathzProcessor s) (heap s) (pathzMetadata s) (pathzMetadataCopy s)
    (policyCopy s) (policyUpdated s) w.

Definition pathzV1Policy : string := PathzPolicyFile cfg.
Definition pathzV1PolicyBackup : string := PathzPolicyFile cfg +:+ ".backup".
Definition pathzTblActive : string := "PATHZ_POLICY|" +:+ "ACTIVE".

Definition NewPathzMetadata : PathzMetadata := mkMeta "unknown" "0".

(** [*srv.pathzMetadata]. *)
Definition metadata (s : GNSIPathzServer) : PathzMetadata :=
  default NewPathzMetadata (heap s !! pathzMetadata s).

Definition savePathzFileFreshess (s : GNSIPathzServer) (path : string)
    : option ioerr * GNSIPathzServer :=
  let '(e, w) := attemptWrite fails torn (world s) path (encodeMeta (metadata s)) in
  (e, set_world s w).

Definition savePathzPolicyToFile (s : GNSIPathzServer) (p : option AuthorizationPolicy)
    : string * option ioerr * GNSIPathzServer :=
  let content := marshalPolicy p in
  let '(e, w) := attemptWrite fails torn (world s) pathzV1Policy content in
  (content, e, set_world s w).

Definition verifyPathzFile (s : GNSIPathzServer) (c : string) : option ioerr * GNSIPathzServer :=
  let '(r, w) := osReadFile fails (world s) pathzV1Policy in
  (match r with
   | Err e => Some e
   | Ok content => if String.eqb c content then None else Some IOError
   end, set_world s w).

Definition writePathzMetadataToDB (s : GNSIPathzServer) : option ioerr * GNSIPathzServer :=
  let m := metadata s in
  let '(e, w) := writeCredentialsMetadataToDB fails (world s) pathzTblActive ""
                   "pathz_version" (PathzVersion m) in
  match e with
  | Some e => (Some e, set_world s w)
  | None =>
      let '(e, w) := writeCredentialsMetadataToDB fails w pathzTblActive ""
                       "pathz_created_on" (PathzCreatedOn m) in
      (e, set_world s w)
  end.

Definition set_processor (s : GNSIPathzServer) (p : P) : GNSIPathzServer :=
  mkSrv p (heap s) (pathzMetadata s) (pathzMetadataCopy s) (policyCopy s) (policyUpdated s) (world s).

Definition set_updated (s : GNSIPathzServer) (b : bool) : GNSIPathzServer :=
  mkSrv (pathzProcessor s) (heap s) (pathzMetadata s) (pathzMetadataCopy s) (policyCopy s) b (world s).

(** [updatePolicy]; the result is whether an error is returned. *)
Definition updatePolicy (s : GNSIPathzServer) (p : option AuthorizationPolicy)
    : bool * GNSIPathzServer :=
  let '(c, e, s) := savePathzPolicyToFile s p in
  match e with
  | Some _ => (true, s)
  | None =>
      let '(e, s) := verifyPathzFile s c in
      match e with
      | Some _ => (true, s)
      | None =>
          let '(proc, e) := pp_update (pathzProcessor s) p in
          (match e with Some _ => true | None => false end, set_processor s proc)
      end
  end.

(** [createCheckpoint]: the metadata checkpoint is a copy of the pointer. *)
Definition createCheckpoint (s : GNSIPathzServer) : option ioerr * GNSIPathzServer :=
  let s := mkSrv (pathzProcessor s) (heap s) (pathzMetadata s) (Some (pathzMetadata s))
             (pp_getPolicy (pathzProcessor s)) false (world s) in
  let '(e, w) := copyFile fails (world s) pathzV1Policy pathzV1PolicyBackup in
  (e, set_world s w).

(** [srv.pathzMetadata = srv.pathzMetadataCopy] and the rename of the backup. *)
Definition revertFiles (s : GNSIPathzServer) : bool * GNSIPathzServer :=
  let s := mkSrv (pathzProcessor s) (heap s) (default (pathzMetadata s) (pathzMetadataCopy s))
             (pathzMetadataCopy s) (policyCopy s) (policyUpdated s) (world s) in
  let '(e, w) := osRename fails (world s) pathzV1PolicyBackup pathzV1Policy in
  (match e with Some _ => true | None => false end, set_world s w).

(** [revertPolicy]; the result is whether an error is returned. *)
Definition revertPolicy (s : GNSIPathzServer) : bool * GNSIPathzServer :=
  if policyUpdated s then
    let s := set_updated s false in
    let '(proc, e) := pp_update (pathzProcessor s) (policyCopy s) in
    let s := set_processor s proc in
    match e with
    | Some _ => (true, set_world s (osRemove fails (world s) pathzV1PolicyBackup).2)
    | None => revertFiles s
    end
  else revertFiles s.

Definition commitChanges (s : GNSIPathzServer) : option ioerr * GNSIPathzServer :=
  let '(e, s) := writePathzMetadataToDB s in
  match e with
  | Some e => (Some e, s)
  | None => savePathzFileFreshess s (PathzMetaFile cfg)
  end.

(** [srv.pathzMetadata.PathzVersion = ...] and [.PathzCreatedOn = ...]. *)
Definition writeMetadata (s : GNSIPathzServer) (m : PathzMetadata) : GNSIPathzServer :=
  mkSrv (pathzProcessor s) (<[pathzMetadata s := m]> (heap s)) (pathzMetadata s)
    (pathzMetadataCopy s) (policyCopy s) (policyUpdated s) (world s).

Definition processRotateRequest (s : GNSIPathzServer) (req : RotateRequest)
    : Code * GNSIPathzServer :=
  match req with
  | Upload policyReq force =>
      if String.length (up_version policyReq) =? 0 then (Aborted, s)
      else if String.eqb (PathzVersion (metadata s)) (up_version policyReq) && negb force
      then (AlreadyExists, s)
      else
        let s := writeMetadata s (mkMeta (up_version policyReq) (pretty (up_created_on policyReq))) in
        let '(err, s) := updatePolicy s (up_policy policyReq) in
        if err then (Aborted, s) else (OK, set_updated s true)
  | _ => (Aborted, s)
  end.

(** The receive loop of [Rotate]; a stream that ends delivers EOF. *)
Fixpoint rotateLoop (s : GNSIPathzServer) (evs : list RecvEvent) : Code * GNSIPathzServer :=
  match evs with
  | [] => (Aborted, (revertPolicy s).2)
  | RecvEOF :: _ => (Aborted, (revertPolicy s).2)
  | RecvErr :: _ => (Aborted, (revertPolicy s).2)
  | RecvReq FinalizeRotation _ :: _ =>
      if negb (policyUpdated s) then (Aborted, (revertPolicy s).2)
      else
        let '(e, s) := commitChanges s in
        match e with
        | Some _ => (Aborted, s)
        | None => (OK, set_world s (osRemove fails (world s) pathzV1PolicyBackup).2)
        end
  | RecvReq req send_ok :: evs' =>
      let '(code, s) := processRotateRequest s req in
      if bool_decide (code = OK) then
        if send_ok then rotateLoop s evs' else (Aborted, (revertPolicy s).2)
      else (code, (revertPolicy s).2)
  end.

(** [Rotate]: [auth] is the outcome of the authentication ([None]: accepted) and
    [locked] whether another pathz RPC holds [pathzMu]. *)
Definition Rotate (auth : option Code) (locked : bool) (s : GNSIPathzServer) (evs : list RecvEvent)
    : Code * GNSIPathzServer :=
  match auth with
  | Some c => (c, s)
  | None =>
      if locked then (Aborted, s)
      else
        let '(e, w) := fileCheck fails (world s) pathzV1Policy in
        let s := set_world s w in
        match e with
        | Some _ => (NotFound, s)
        | None =>
            let '(e, s) := createCheckpoint s in
            match e with
            | Some _ => (Aborted, s)
            | None => rotateLoop s evs
            end
        end
  end.

(** [NewGNSIPathzServer]: metadata and policy are loaded, failures are only logged. *)
Definition NewGNSIPathzServer (proc0 : P) (w : World) : GNSIPathzServer :=
  let '(r, w) := osReadFile fails w (PathzMetaFile cfg) in
  let meta := match r with
              | Ok c => decodeMeta c NewPathzMetadata
              | Err _ => NewPathzMetadata
              end in
  let s := mkSrv proc0 {[0 := meta]} 0 None None false w in
  let s := (writePathzMetadataToDB s).2 in
  if PathzPolicy cfg then set_processor s (updateFromFile (pathzProcessor s) pathzV1Policy).1 else s.

End Service.
End GnsiPathz.
