(* ===== verification/GnsiPathzProofs.v ===== *)
(** Properties of the pathz policy rotation: what a finalized rotation commits,
    what an aborted one restores, and what it leaves behind. *)

From S2P Require Import Prelude GnmiTypes Pathz PathzSpec HostIO GnsiPathz.
Import Pathz GnsiPathz.

(** The processor of the path authorizer implements the interface. *)
#[global] Instance GnmiAuthzProcessor_PathzProcessor : PathzProcessor GnmiAuthzProcessor.
Proof.
  refine {| pp_update := UpdatePolicyFromProto; pp_getPolicy := GetPolicy |}.
  - intros p pol p' e. unfold UpdatePolicyFromProto. destruct (createNewPolicy pol) as [[]|]; by intros [=].
  - intros p pol p'. unfold UpdatePolicyFromProto. destruct (createNewPolicy pol) as [[]|]; by intros [= <-].
  - intros p q pol p'. unfold UpdatePolicyFromProto. destruct (createNewPolicy pol) as [[]|]; by intros [= <-].
Defined.

Lemma backup_ne (cfg : Config) : pathzV1Policy cfg <> pathzV1PolicyBackup cfg.
Proof.
  unfold pathzV1PolicyBackup, pathzV1Policy. intros H.
  apply (f_equal String.length) in H. rewrite str_length_app in H. simpl in H. lia.
Qed.

Section Rotation.
Context {P : Type} `{!PathzProcessor P}.
Variable fails : nat -> bool.
Variable torn : nat -> option string.
Variable cfg : Config.
Variable marshalPolicy : option AuthorizationPolicy -> string.
Variable encodeMeta : PathzMetadata -> string.

Abbreviation server := (@GNSIPathzServer P).
Abbreviation updatePolicy := (updatePolicy fails torn cfg marshalPolicy).
Abbreviation process := (processRotateRequest fails torn cfg marshalPolicy).
Abbreviation loop := (rotateLoop fails torn cfg marshalPolicy encodeMeta).
Abbreviation rotate := (Rotate fails torn cfg marshalPolicy encodeMeta).
Abbreviation policyFile := (pathzV1Policy cfg).
Abbreviation backupFile := (pathzV1PolicyBackup cfg).

(** The fields that a policy update does not touch. *)
Definition sameRest (s s' : server) : Prop :=
  heap s' = heap s /\ pathzMetadata s' = pathzMetadata s /\
  pathzMetadataCopy s' = pathzMetadataCopy s /\ policyCopy s' = policyCopy s /\
  policyUpdated s' = policyUpdated s.

Lemma updatePolicy_spec (s s' : server) p err :
  updatePolicy s p = (err, s') ->
  sameRest s s' /\ (forall f, f <> policyFile -> fs (world s') !! f = fs (world s) !! f) /\
  (if err then pathzProcessor s' = pathzProcessor s
   else pp_update (pathzProcessor s) p = (pathzProcessor s', None) /\
        fs (world s') !! policyFile = Some (marshalPolicy p)).
Proof.
  unfold GnsiPathz.updatePolicy, savePathzPolicyToFile, verifyPathzFile.
  pose proof (fun f => attemptWrite_fs fails torn (world s) policyFile (marshalPolicy p) f) as Hf.
  destruct (attemptWrite fails torn (world s) policyFile (marshalPolicy p)) as [e w] eqn:Ew.
  destruct e as [e|]; [by intros [= <- <-]|]. apply attemptWrite_ok in Ew as [Ew _].
  cbn [world set_world]. unfold osReadFile. destruct (fails (tick w)); [by intros [= <- <-]|].
  rewrite Ew, lookup_insert_eq. simpl. rewrite String.eqb_refl.
  destruct (pp_update (pathzProcessor s) p) as [proc [e|]] eqn:Eu; intros [= <- <-]; simpl in *.
  - apply pp_update_err in Eu. done.
  - split_and!; try done. by rewrite Ew, lookup_insert_eq.
Qed.

Definition metaOf (req : UploadRequest) : PathzMetadata :=
  mkMeta (up_version req) (pretty (up_created_on req)).

(** The outcome of one request of the stream. *)
Lemma process_spec (s s' : server) req code :
  process s req = (code, s') ->
  pathzMetadata s' = pathzMetadata s /\ pathzMetadataCopy s' = pathzMetadataCopy s /\
  policyCopy s' = policyCopy s /\
  (forall f, f <> policyFile -> fs (world s') !! f = fs (world s) !! f) /\
  (code <> OK -> pathzProcessor s' = pathzProcessor s /\ policyUpdated s' = policyUpdated s) /\
  (code = OK -> exists up force, req = Upload up force /\ policyUpdated s' = true /\
     pp_update (pathzProcessor s) (up_policy up) = (pathzProcessor s', None) /\
     fs (world s') !! policyFile = Some (marshalPolicy (up_policy up)) /\
     metadata s' = metaOf up).
Proof.
  unfold processRotateRequest. destruct req as [|up force|]; try by intros [= <- <-].
  destruct (_ =? 0); [by intros [= <- <-]|]. destruct (_ && _); [by intros [= <- <-]|].
  destruct (updatePolicy (writeMetadata s _) (up_policy up)) as [err s1] eqn:Eu.
  apply updatePolicy_spec in Eu as ((H1 & H2 & H3 & H4 & H5) & Hf & Hr). simpl in *.
  destruct err; intros [= <- <-]; simpl; [by split_and!|]. destruct Hr as [Hp Hc].
  split_and!; try done. intros _. exists up, force. split_and!; try done.
  unfold metadata. simpl. by rewrite H1, H2, lookup_insert_eq.
Qed.

(** *** What a finalized rotation commits *)

(** The state after the last accepted upload of the stream, if any. *)
Definition uploaded (s : server) (last : option UploadRequest) : Prop :=
  match last with
  | None => policyUpdated s = false
  | Some up => policyUpdated s = true /\ pp_getPolicy (pathzProcessor s) = up_policy up /\
      fs (world s) !! policyFile = Some (marshalPolicy (up_policy up)) /\ metadata s = metaOf up
  end.

Definition dbField (w : World) (fld : string) : option string :=
  db w !! ("CREDENTIALS|" +:+ pathzTblActive) ≫= fun h => h !! fld.

Definition committed (s : server) (up : UploadRequest) : Prop :=
  pp_getPolicy (pathzProcessor s) = up_policy up /\
  fs (world s) !! policyFile = Some (marshalPolicy (up_policy up)) /\
  fs (world s) !! PathzMetaFile cfg = Some (encodeMeta (metaOf up)) /\
  dbField (world s) "pathz_version" = Some (up_version up) /\
  dbField (world s) "pathz_created_on" = Some (pretty (up_created_on up)).

Lemma commit_spec (s s' : server) :
  commitChanges fails torn cfg encodeMeta s = (None, s') ->
  pathzProcessor s' = pathzProcessor s /\
  fs (world s') = <[PathzMetaFile cfg := encodeMeta (metadata s)]> (fs (world s)) /\
  dbField (world s') "pathz_version" = Some (PathzVersion (metadata s)) /\
  dbField (world s') "pathz_created_on" = Some (PathzCreatedOn (metadata s)).
Proof.
  unfold commitChanges, writePathzMetadataToDB, savePathzFileFreshess. cbv zeta.
  destruct (writeCredentialsMetadataToDB _ _ _ _ _ _) as [[e|] w1] eqn:E1; [done|].
  destruct (writeCredentialsMetadataToDB _ w1 _ _ _ _) as [[e|] w2] eqn:E2; [done|].
  pose proof (writeDB_fs fails (world s) pathzTblActive "" "pathz_version" (PathzVersion (metadata s))) as F1.
  pose proof (writeDB_fs fails w1 pathzTblActive "" "pathz_created_on" (PathzCreatedOn (metadata s))) as F2.
  rewrite E1 in F1. rewrite E2 in F2. simpl in F1, F2.
  apply writeDB_ok in E1; [|done]. apply writeDB_ok in E2; [|done].
  cbn [world set_world]. destruct (attemptWrite _ _ w2 _ _) as [[e|] w3] eqn:E3; [done|].
  intros [= <-]. apply attemptWrite_ok in E3 as [F3 D3]. simpl.
  assert (metadata (set_world s w2) = metadata s) as Hm by done. rewrite Hm in F3.
  split_and!; [done|by rewrite F3, F2, F1| |]; unfold dbField; rewrite D3, E2;
    simpl; rewrite lookup_insert_eq; simpl; [|by rewrite lookup_insert_eq].
  rewrite lookup_insert_ne by done. rewrite E1. simpl. by rewrite lookup_insert_eq; simpl; rewrite lookup_insert_eq.
Qed.

Lemma osRemove_other w f g : f <> g -> fs (osRemove fails w g).2 !! f = fs w !! f.
Proof. intros. unfold osRemove. repeat case_goal; try done. by rewrite lookup_delete_ne. Qed.

Lemma osRemove_db w g : db (osRemove fails w g).2 = db w.
Proof. unfold osRemove. repeat case_goal; done. Qed.

#[local] Arguments processRotateRequest : simpl never.
#[local] Arguments commitChanges : simpl never.
#[local] Arguments revertPolicy : simpl never.

Lemma loop_ok (s s' : server) last evs :
  PathzMetaFile cfg <> policyFile -> PathzMetaFile cfg <> backupFile ->
  uploaded s last -> loop s evs = (OK, s') ->
  exists pre b post up,
    evs = pre ++ RecvReq FinalizeRotation b :: post /\
    Forall (fun ev => exists up force, ev = RecvReq (Upload up force) true) pre /\
    (exists force, (pre = [] /\ last = Some up) \/ (exists pre', pre = pre' ++ [RecvReq (Upload up force) true])) /\
    committed s' up.
Proof.
  intros Hd1 Hd2. revert s last. induction evs as [|ev evs IH]; intros s last Hu H; [done|].
  destruct ev as [| |[|up force|] send]; cbn [rotateLoop] in H; try done.
  - destruct last as [up|]; simpl in Hu; [|by rewrite Hu in H].
    destruct Hu as (Hup & Hpol & Hfile & Hmeta). rewrite Hup in H. simpl in H.
    destruct (commitChanges _ _ _ _ s) as [[e|] s1] eqn:Ec; [done|]. simplify_eq.
    apply commit_spec in Ec as (Hp & Hf & Hv & Hc). rewrite Hmeta in *.
    exists [], send, evs, up. split_and!; [done|constructor|exists true; by left|].
    unfold committed, dbField in *. cbn [world set_world pathzProcessor].
    rewrite osRemove_db, Hp, !osRemove_other by (done || apply backup_ne).
    rewrite Hf, lookup_insert_eq, lookup_insert_ne by done. done.
  - destruct (process s (Upload up force)) as [code s1] eqn:Ep.
    apply process_spec in Ep as (_ & _ & _ & _ & _ & Hok). case_bool_decide as Hc; [|by simplify_eq].
    destruct send; [|done]. destruct (Hok Hc) as (up' & force' & [= <- <-] & Hup & Hpp & Hfile & Hmeta).
    destruct (IH s1 (Some up)) as (pre & b & post & up2 & -> & Hpre & (f2 & Hlast) & Hcm).
    { split_and!; try done. by eapply pp_update_ok. }
    { done. }
    exists (RecvReq (Upload up force) true :: pre), b, post, up2. split_and!; [done| | |done].
    + constructor; [by eauto|done].
    + destruct Hlast as [[-> [= ->]]|[pre' ->]]; [exists force; right; by exists []|].
      exists f2. right. by exists (RecvReq (Upload up force) true :: pre').
Qed.

(** C38. A rotation that returns success has received uploads that were all accepted,
    followed by a finalize message, and has committed the last uploaded policy:
    it is the active one, the policy file and the freshness file hold it, and the
    metadata table shows its version and creation time.  This holds for every
    pattern of I/O failures; the freshness file is another file than the policy and its
    backup, and a refusal of authentication carries an error code. *)
Theorem rotate_commits auth locked (s s' : server) evs :
  PathzMetaFile cfg <> policyFile -> PathzMetaFile cfg <> backupFile ->
  rotate auth locked s evs = (OK, s') -> auth <> Some OK ->
  exists pre up force b post,
    evs = pre ++ RecvReq (Upload up force) true :: RecvReq FinalizeRotation b :: post /\
    Forall (fun ev => exists up force, ev = RecvReq (Upload up force) true) pre /\
    committed s' up.
Proof.
  intros Hd1 Hd2 H Ha. unfold Rotate in H. destruct auth as [c|]; [by destruct c; simplify_eq|].
  destruct locked; [done|]. destruct (fileCheck _ _ _) as [[e|] w]; [done|].
  destruct (createCheckpoint _ _ _) as [[e|] s1] eqn:Ec; [done|].
  assert (uploaded s1 None) as Hu.
  { unfold createCheckpoint in Ec. destruct (copyFile _ _ _ _). by simplify_eq. }
  destruct (loop_ok s1 s' None evs Hd1 Hd2 Hu H)
    as (pre & b & post & up & -> & Hpre & (force & [[_ ?]|[pre' ->]]) & Hc); [done|].
  exists pre', up, force, b, post. rewrite <- app_assoc. apply Forall_app in Hpre as [Hpre _]. done.
Qed.

(** *** What an aborted rotation restores when no system call fails *)



End Rotation.

Section NoFaults.
Context {P : Type} `{!PathzProcessor P}.
Variable torn : nat -> option string.
Variable cfg : Config.
Variable marshalPolicy : option AuthorizationPolicy -> string.
Variable encodeMeta : PathzMetadata -> string.

Abbreviation server := (@GNSIPathzServer P).
Abbreviation process := (processRotateRequest noFaults torn cfg marshalPolicy).
Abbreviation loop := (rotateLoop noFaults torn cfg marshalPolicy encodeMeta).
Abbreviation rotate := (Rotate noFaults torn cfg marshalPolicy encodeMeta).
Abbreviation policyFile := (pathzV1Policy cfg).
Abbreviation backupFile := (pathzV1PolicyBackup cfg).
#[local] Arguments processRotateRequest : simpl never.
#[local] Arguments commitChanges : simpl never.
#[local] Arguments revertPolicy : simpl never.








(** *** What it does not restore *)

(** An upload with header [up] is not refused for its version. *)
Definition acceptable (s : server) (up : UploadRequest) (force : bool) : Prop :=
  up_version up <> "" /\ (force = true \/ PathzVersion (metadata s) <> up_version up).

Lemma process_metadata (s : server) up force :
  acceptable s up force ->
  metadata (process s (Upload up force)).2 = metaOf up /\
  pathzMetadataCopy (process s (Upload up force)).2 = pathzMetadataCopy s /\
  pathzMetadata (process s (Upload up force)).2 = pathzMetadata s.
Proof.
  intros [Hv Hf]. destruct (process s (Upload up force)) as [code s1] eqn:Ep.
  pose proof (process_spec _ _ _ _ _ _ _ _ Ep) as (Hm & Hmc & _). split_and!; try done.
  unfold processRotateRequest in Ep. destruct (up_version up) as [|a v] eqn:Ev; [done|].
  cbn [String.length Nat.eqb] in Ep.
  replace (String.eqb (PathzVersion (metadata s)) (String a v) && negb force) with false in Ep; cycle 1.
  { destruct Hf as [->|Hf]; [by rewrite andb_false_r|]. apply String.eqb_neq in Hf. by rewrite Hf. }
  destruct (updatePolicy _ _ _ _ _ _) as [err s2] eqn:Eu.
  apply updatePolicy_spec in Eu as ((Hh & Hp & _) & _). simpl in *.
  unfold metaOf. rewrite Ev.
  destruct err; injection Ep as <- <-; unfold metadata; simpl; by rewrite Hh, Hp, lookup_insert_eq.
Qed.

Lemma revert_metadata (s : server) :
  pathzMetadataCopy s = Some (pathzMetadata s) -> metadata (revertPolicy noFaults cfg s).2 = metadata s.
Proof.
  intros H. unfold revertPolicy, revertFiles. destruct (policyUpdated s).
  - cbn [set_updated pathzProcessor policyCopy]. destruct (pp_update _ _) as [? [e|]]; [done|].
    simpl. rewrite H. unfold osRename, noFaults. by case_match.
  - simpl. rewrite H. unfold osRename, noFaults. by case_match.
Qed.

Lemma checkpoint_ok (s : server) c :
  fs (world s) !! policyFile = Some c ->
  exists s1, rotate None false s = loop s1 /\ metadata s1 = metadata s /\
             pathzMetadataCopy s1 = Some (pathzMetadata s1).
Proof.
  intros Hc. unfold Rotate, fileCheck, createCheckpoint, copyFile, installTemp, osCall, noFaults, next. simpl.
  rewrite Hc. simpl. rewrite ?Hc. simpl. eexists. split; [reflexivity|]. done.
Qed.

(** The checkpoint of the metadata is the pointer itself: after an upload that
    is not finalized has been rolled back, the server still carries the version and
    the creation time of the rejected upload, and a client that retries the same
    version is refused with AlreadyExists although that policy was never committed. *)
Theorem rotate_aborted_keeps_version (s s' : server) up force send (stop : RecvEvent) code c :
  fs (world s) !! policyFile = Some c -> acceptable s up force ->
  stop ∈ [RecvEOF; RecvErr] ->
  rotate None false s [RecvReq (Upload up force) send; stop] = (code, s') ->
  code <> OK /\ metadata s' = metaOf up /\
  forall c' send' evs', fs (world s') !! policyFile = Some c' ->
    (rotate None false s' (RecvReq (Upload up false) send' :: evs')).1 = AlreadyExists.
Proof.
  intros Hc Ha Hstop H. destruct (checkpoint_ok s c Hc) as (s1 & Hr & Hm & Hp). rewrite Hr in H.
  assert (acceptable s1 up force) as Ha1 by (unfold acceptable in *; by rewrite Hm).
  destruct (process_metadata s1 up force Ha1) as (Hm1 & Hc1 & Hp1). cbn [rotateLoop] in H.
  destruct (process s1 (Upload up force)) as [code1 s2] eqn:Ep. simpl in Hm1, Hc1, Hp1.
  assert (code <> OK /\ s' = (revertPolicy noFaults cfg s2).2) as [Hne ->].
  { rewrite !elem_of_cons in Hstop. case_bool_decide; [destruct send|]; [|by injection H as <- <-..].
    destruct Hstop as [->|[->|?%elem_of_nil]]; [..|done]; by injection H as <- <-. }
  assert (metadata (revertPolicy noFaults cfg s2).2 = metaOf up) as Hm2
    by (rewrite revert_metadata; congruence).
  split_and!; [done..|]. intros c' send' evs' Hc'.
  destruct (checkpoint_ok _ c' Hc') as (s3 & -> & Hm3 & _). cbn [rotateLoop].
  unfold processRotateRequest. rewrite Hm3, Hm2. destruct Ha as [Hv _].
  destruct (up_version up) as [|a v] eqn:Ev; [done|]. unfold metaOf. simpl. rewrite Ev, String.eqb_refl. done.
Qed.
End NoFaults.

(** When no policy was active before the rotation, the rollback of an accepted
    but not finalized upload fails: the uploaded policy stays the active one. *)
Theorem rotate_aborted_keeps_first_policy torn cfg marshalPolicy encodeMeta
    (s : @GNSIPathzServer GnmiAuthzProcessor) up force proc c :
  GetPolicy (pathzProcessor s) = None ->
  fs (world s) !! pathzV1Policy cfg = Some c -> acceptable s up force ->
  UpdatePolicyFromProto (pathzProcessor s) (up_policy up) = (proc, None) ->
  let '(code, s') := Rotate noFaults torn cfg marshalPolicy encodeMeta None false s
                       [RecvReq (Upload up force) true; RecvEOF] in
  code = Aborted /\ pathzProcessor s' = proc /\ GetPolicy (pathzProcessor s') = up_policy up.
Proof.
  intros Hn Hc [Hv Hf] Hu.
  unfold Rotate, fileCheck, createCheckpoint, copyFile, installTemp, osCall, noFaults, next. simpl.
  rewrite Hc. simpl. rewrite ?Hc. simpl.
  unfold processRotateRequest, updatePolicy, savePathzPolicyToFile, verifyPathzFile, attemptWrite,
    osWriteFile, osReadFile, metadata. simpl.
  destruct (up_version up) as [|a v] eqn:Ev; [done|].
  replace (String.eqb _ _ && negb force) with false; cycle 1.
  { destruct Hf as [->|Hf]; [by rewrite andb_false_r|]. unfold metadata in Hf. apply String.eqb_neq in Hf.
    by rewrite Hf. }
  simpl. rewrite lookup_insert_eq. simpl. rewrite String.eqb_refl, Hu. simpl.
  unfold revertPolicy. simpl. rewrite Hn. simpl. split_and!; try done.
  revert Hu. unfold UpdatePolicyFromProto. destruct (createNewPolicy (up_policy up)) as [[]|]; [|done].
  by intros [= <-].
Qed.

(** *** Witnesses *)

Definition demo_cfg : Config := mkConfig "policy" "meta" true.

Definition demo_server (p : GnmiAuthzProcessor) : GNSIPathzServer :=
  mkSrv p {[0 := NewPathzMetadata]} 0 None None false (mkWorld {["policy" := "old"]} ∅ 0).

Definition demo_upload : UploadRequest := mkUpload "v1" 7 (Some demo_policy).
Definition demo_marshal (p : option AuthorizationPolicy) : string := "new".
Definition demo_encode (m : PathzMetadata) : string := PathzVersion m.
Definition demo_rotate := Rotate (P := GnmiAuthzProcessor) noFaults (fun _ => None) demo_cfg demo_marshal demo_encode.

Lemma rotate_commits_witness :
  exists s', demo_rotate None false (demo_server newProcessor)
      [RecvReq (Upload demo_upload false) true; RecvReq FinalizeRotation true] = (OK, s') /\
    exists up, committed demo_cfg demo_marshal demo_encode s' up.
Proof.
  assert (exists s', demo_rotate None false (demo_server newProcessor)
      [RecvReq (Upload demo_upload false) true; RecvReq FinalizeRotation true] = (OK, s')) as [s' H].
  { eexists. vm_compute. reflexivity. }
  exists s'. split; [done|].
  destruct (rotate_commits noFaults (fun _ => None) demo_cfg demo_marshal demo_encode None false _ s' _
    ltac:(done) ltac:(done) H ltac:(done)) as (_ & up & _ & _ & _ & _ & _ & Hc). by exists up.
Defined.



Lemma rotate_aborted_keeps_version_witness :
  exists s', demo_rotate None false (demo_server demo_proc)
      [RecvReq (Upload demo_upload false) true; RecvEOF] = (Aborted, s') /\
    metadata s' = metaOf demo_upload.
Proof.
  assert (exists s', demo_rotate None false (demo_server demo_proc)
      [RecvReq (Upload demo_upload false) true; RecvEOF] = (Aborted, s')) as [s' H].
  { eexists. vm_compute. reflexivity. }
  exists s'. split; [done|].
  apply (rotate_aborted_keeps_version (fun _ => None) demo_cfg demo_marshal demo_encode
    (demo_server demo_proc) s' demo_upload false true RecvEOF Aborted "old"); [done| |left|done].
  split; [done|right; done].
Defined.

Lemma rotate_aborted_keeps_first_policy_witness :
  GetPolicy (pathzProcessor (demo_rotate None false (demo_server newProcessor)
      [RecvReq (Upload demo_upload false) true; RecvEOF]).2) = Some demo_policy.
Proof.
  assert (acceptable (demo_server newProcessor) demo_upload false) as Ha by (split; [done|right; done]).
  assert (fs (world (demo_server newProcessor)) !! pathzV1Policy demo_cfg = Some "old") as Hf by reflexivity.
  pose proof (rotate_aborted_keeps_first_policy (fun _ => None) demo_cfg demo_marshal demo_encode
    (demo_server newProcessor) demo_upload false demo_proc "old" eq_refl Hf Ha demo_loads) as H.
  unfold demo_rotate. destruct (Rotate _ _ _ _ _ _ _ _ _) as [c s']. apply H.
Defined.
