(* ===== verification/GnsiAuthz.v ===== *)
(** The gNSI authz service (src/gnmi_server/gnsi_authz.go): rotation of the gRPC
    authorization policy file with its freshness metadata.

    Unlike the pathz service it checkpoints the metadata by value, keeps the
    backup file until the next successful finalize, and answers a finalize
    message whether or not a policy was uploaded. *)

From S2P Require Import Prelude GnmiTypes HostIO.

Module GnsiAuthz.

Record AuthzMetadata := mkAuthzMeta { AuthzVersion : string; AuthzCreatedOn : string }.

Record UploadRequest := mkUpload {
  up_version : string;
  up_created_on : N;
  up_policy : string
}.

Inductive RotateAuthzRequest :=
| FinalizeRotation
| Upload (req : UploadRequest) (force_overwrite : bool)
| OtherRequest.

Inductive RecvEvent :=
| RecvEOF
| RecvErr
| RecvReq (req : RotateAuthzRequest) (send_ok : bool).

Record Config := mkConfig { AuthzPolicyFile : string; AuthzMetaFile : string }.

Section Service.
Variable fails : nat -> bool.
Variable torn : nat -> option string.
Variable cfg : Config.
(** [json.Valid], the JSON encoder of the metadata, and what [json.Unmarshal]
    leaves in the metadata object. *)
Variable jsonValid : string -> bool.
Variable encodeMeta : AuthzMetadata -> string.
Variable decodeMeta : string -> AuthzMetadata -> AuthzMetadata.

Record GNSIAuthzServer := mkSrv {
  authzMetadata : AuthzMetadata;
  authzMetadataCopy : AuthzMetadata;
  world : World
}.

Definition set_world (s : GNSIAuthzServer) (w : World) : GNSIAuthzServer :=
  mkSrv (authzMetadata s) (authzMetadataCopy s) w.

Definition policyFile : string := AuthzPolicyFile cfg.
Definition backupFile : string := AuthzPolicyFile cfg +:+ ".bak".

Definition authzP4rtTbl : string := "AUTHZ_POLICY|p4rt".
Definition authzGnxiTbl : string := "AUTHZ_POLICY|gnxi".

Inductive MetaFld := authzVersionFld | authzCreatedOnFld.

Definition fldName (f : MetaFld) : string :=
  match f with authzVersionFld => "authz_version" | authzCreatedOnFld => "authz_created_on" end.

Definition NewAuthzMetadata : AuthzMetadata := mkAuthzMeta "unknown" "0".

Definition set_meta (m : AuthzMetadata) (fld : MetaFld) (val : string) : AuthzMetadata :=
  match fld with
  | authzVersionFld => mkAuthzMeta val (AuthzCreatedOn m)
  | authzCreatedOnFld => mkAuthzMeta (AuthzVersion m) val
  end.

Definition writeAuthzMetadataToDB (s : GNSIAuthzServer) (fld : MetaFld) (val : string)
    : option ioerr * GNSIAuthzServer :=
  let '(e, w) := writeCredentialsMetadataToDB fails (world s) authzP4rtTbl "" (fldName fld) val in
  match e with
  | Some e => (Some e, set_world s w)
  | None =>
      let '(e, w) := writeCredentialsMetadataToDB fails w authzGnxiTbl "" (fldName fld) val in
      match e with
      | Some e => (Some e, set_world s w)
      | None => (None, mkSrv (set_meta (authzMetadata s) fld val) (authzMetadataCopy s) w)
      end
  end.

Definition saveToAuthzFile (s : GNSIAuthzServer) (p : string) : option ioerr * GNSIAuthzServer :=
  let '(e, w) := installTemp fails (world s) policyFile p in
  (e, set_world s w).

Definition checkpointAuthzFreshness (s : GNSIAuthzServer) : GNSIAuthzServer :=
  mkSrv (authzMetadata s) (authzMetadata s) (world s).

Definition checkpointAuthzFile (s : GNSIAuthzServer) : option ioerr * GNSIAuthzServer :=
  let '(e, w) := copyFile fails (world s) policyFile backupFile in
  (e, set_world s w).

Definition commitAuthzFileChanges (s : GNSIAuthzServer) : option ioerr * GNSIAuthzServer :=
  let '(e, w) := fileCheck fails (world s) policyFile in
  match e with
  | Some e => (Some e, set_world s w)
  | None =>
      let '(e, w) := fileCheck fails w backupFile in
      match e with
      | Some _ => (None, set_world s w)
      | None => let '(e, w) := osRemove fails w backupFile in (e, set_world s w)
      end
  end.

Definition revertAuthzFileFreshness (s : GNSIAuthzServer) : GNSIAuthzServer :=
  let c := authzMetadataCopy s in
  let s := (writeAuthzMetadataToDB s authzVersionFld (AuthzVersion c)).2 in
  (writeAuthzMetadataToDB s authzCreatedOnFld (AuthzCreatedOn c)).2.

Definition saveAuthzFileFreshess (s : GNSIAuthzServer) (path : string) : option ioerr * GNSIAuthzServer :=
  let '(e, w) := attemptWrite fails torn (world s) path (encodeMeta (authzMetadata s)) in
  (e, set_world s w).

Definition processRotateRequest (s : GNSIAuthzServer) (req : RotateAuthzRequest)
    : Code * GNSIAuthzServer :=
  match req with
  | Upload policyReq force =>
      if String.length (up_policy policyReq) =? 0 then (Aborted, s)
      else if String.length (up_version policyReq) =? 0 then (Aborted, s)
      else if negb (jsonValid (up_policy policyReq)) then (Aborted, s)
      else
        let '(e, w) := fileCheck fails (world s) policyFile in
        let s := set_world s w in
        match e with
        | Some _ => (NotFound, s)
        | None =>
            if String.eqb (AuthzVersion (authzMetadata s)) (up_version policyReq) && negb force
            then (AlreadyExists, s)
            else
              let '(e, s) := writeAuthzMetadataToDB s authzVersionFld (up_version policyReq) in
              match e with Some _ => (Aborted, s) | None =>
              let '(e, s) := writeAuthzMetadataToDB s authzCreatedOnFld (pretty (up_created_on policyReq)) in
              match e with Some _ => (Aborted, s) | None =>
              let '(e, s) := saveToAuthzFile s (up_policy policyReq) in
              match e with Some _ => (Aborted, s) | None => (OK, s) end end end
        end
  | _ => (Aborted, s)
  end.

(** The roll-back sequence of the four error exits of the loop. *)
Definition rollBack (s : GNSIAuthzServer) : GNSIAuthzServer :=
  revertAuthzFileFreshness (set_world s (copyFile fails (world s) backupFile policyFile).2).

Fixpoint rotateLoop (s : GNSIAuthzServer) (evs : list RecvEvent) : Code * GNSIAuthzServer :=
  match evs with
  | [] => (Aborted, rollBack s)
  | RecvEOF :: _ => (Aborted, rollBack s)
  | RecvErr :: _ => (Aborted, rollBack s)
  | RecvReq FinalizeRotation _ :: _ =>
      (OK, (saveAuthzFileFreshess (commitAuthzFileChanges s).2 (AuthzMetaFile cfg)).2)
  | RecvReq req send_ok :: evs' =>
      let '(code, s) := processRotateRequest s req in
      if bool_decide (code = OK) then
        if send_ok then rotateLoop s evs' else (Aborted, rollBack s)
      else (code, rollBack s)
  end.

(** [Rotate]; a failed checkpoint of the file is only logged. *)
Definition Rotate (auth : option Code) (locked : bool) (s : GNSIAuthzServer) (evs : list RecvEvent)
    : Code * GNSIAuthzServer :=
  match auth with
  | Some c => (c, s)
  | None =>
      if locked then (Aborted, s)
      else
        let s := checkpointAuthzFreshness s in
        let s := (checkpointAuthzFile s).2 in
        rotateLoop s evs
  end.

Definition loadAuthzFreshness (s : GNSIAuthzServer) (path : string) : GNSIAuthzServer :=
  let '(r, w) := osReadFile fails (world s) path in
  match r with
  | Ok c => mkSrv (decodeMeta c (authzMetadata s)) (authzMetadataCopy s) w
  | Err _ => set_world s w
  end.

Definition NewGNSIAuthzServer (w : World) : GNSIAuthzServer :=
  let s := mkSrv NewAuthzMetadata (mkAuthzMeta "" "") w in
  let s := loadAuthzFreshness s (AuthzMetaFile cfg) in
  let s := mkSrv (authzMetadata s) (authzMetadata s) (world s) in
  let s := (writeAuthzMetadataToDB s authzVersionFld (AuthzVersion (authzMetadata s))).2 in
  (writeAuthzMetadataToDB s authzCreatedOnFld (AuthzCreatedOn (authzMetadata s))).2.

End Service.
End GnsiAuthz.
