(* ===== verification/GnsiAuthzProofs.v ===== *)
(** Properties of the authz policy rotation: uploads that are refused change
    nothing, a finalized rotation has installed the last upload, an aborted one
    restores the policy and its metadata, and a stale backup can come back. *)

From S2P Require Import Prelude GnmiTypes HostIO GnsiAuthz.
Import GnsiAuthz.

Lemma authz_backup_ne (cfg : Config) : policyFile cfg <> backupFile cfg.
Proof.
  unfold backupFile, policyFile. intros H.
  apply (f_equal String.length) in H. rewrite str_length_app in H. simpl in H. lia.
Qed.

Definition authzKey (tbl : string) : string := str_join ["CREDENTIALS"; tbl] "|".

(** The metadata table entry of one of the two services. *)
Definition authzField (w : World) (tbl fld : string) : option string :=
  db w !! authzKey tbl ≫= fun h => h !! fld.

(** Both services publish the metadata [m]. *)
Definition published (w : World) (m : AuthzMetadata) : Prop :=
  forall tbl, tbl ∈ [authzP4rtTbl; authzGnxiTbl] ->
    authzField w tbl "authz_version" = Some (AuthzVersion m) /\
    authzField w tbl "authz_created_on" = Some (AuthzCreatedOn m).

(** Nothing but the two metadata entries differs. *)
Definition sameDbRest (w w' : World) : Prop :=
  forall k, k <> authzKey authzP4rtTbl -> k <> authzKey authzGnxiTbl ->
    db w' !! k = db w !! k.

Definition metaOf (up : UploadRequest) : AuthzMetadata :=
  mkAuthzMeta (up_version up) (pretty (up_created_on up)).

Section Rotation.
Variable fails : nat -> bool.
Variable torn : nat -> option string.
Variable cfg : Config.
Variable jsonValid : string -> bool.
Variable encodeMeta : AuthzMetadata -> string.

Abbreviation process := (processRotateRequest fails cfg jsonValid).
Abbreviation loop := (rotateLoop fails torn cfg jsonValid encodeMeta).
Abbreviation rotate := (Rotate fails torn cfg jsonValid encodeMeta).
Abbreviation writeMeta := (writeAuthzMetadataToDB fails).
Abbreviation pFile := (policyFile cfg).
Abbreviation bFile := (backupFile cfg).

Lemma writeMeta_fs s fld val : fs (world (writeMeta s fld val).2) = fs (world s).
Proof.
  unfold writeAuthzMetadataToDB.
  pose proof (writeDB_fs fails (world s) authzP4rtTbl "" (fldName fld) val) as H1.
  destruct (writeCredentialsMetadataToDB _ (world s) _ _ _ _) as [[e|] w1]; [done|]. simpl in H1.
  pose proof (writeDB_fs fails w1 authzGnxiTbl "" (fldName fld) val) as H2.
  destruct (writeCredentialsMetadataToDB _ w1 _ _ _ _) as [[e|] w2]; simpl in *; congruence.
Qed.

Lemma writeMeta_copy s fld val :
  authzMetadataCopy (writeMeta s fld val).2 = authzMetadataCopy s.
Proof. unfold writeAuthzMetadataToDB. by repeat case_goal. Qed.

Lemma lookup_set_field (h : option (gmap string string)) fld val f :
  <[fld := val]> (default ∅ h) !! f = if decide (f = fld) then Some val else h ≫= fun h => h !! f.
Proof.
  case_decide as Hd; [subst; by rewrite lookup_insert_eq|].
  rewrite lookup_insert_ne by done. destruct h; simpl; [done|]. by rewrite lookup_empty.
Qed.

(** A successful write sets the field in memory and in both table entries. *)
Lemma writeMeta_ok s s' fld val :
  writeMeta s fld val = (None, s') ->
  authzMetadata s' = set_meta (authzMetadata s) fld val /\
  sameDbRest (world s) (world s') /\
  forall tbl, tbl ∈ [authzP4rtTbl; authzGnxiTbl] -> forall f,
    authzField (world s') tbl f =
      if decide (f = fldName fld) then Some val else authzField (world s) tbl f.
Proof.
  unfold writeAuthzMetadataToDB. destruct (writeCredentialsMetadataToDB _ (world s) _ _ _ _) as [[e|] w1] eqn:E1; [done|].
  destruct (writeCredentialsMetadataToDB _ w1 _ _ _ _) as [[e|] w2] eqn:E2; [done|]. intros [= <-].
  apply writeDB_ok in E1; [|done]. apply writeDB_ok in E2; [|done].
  cbv zeta in E1, E2. fold (authzKey authzP4rtTbl) in E1. fold (authzKey authzGnxiTbl) in E2.
  assert (authzKey authzP4rtTbl <> authzKey authzGnxiTbl) as Hk by done. split_and!; [done| |].
  - intros k Hk1 Hk2. cbn [world]. rewrite E2, lookup_insert_ne by done. rewrite E1. by apply lookup_insert_ne.
  - intros tbl Htbl f. rewrite !elem_of_cons in Htbl. unfold authzField. cbn [world]. rewrite E2, E1.
    destruct Htbl as [->|[->|?%elem_of_nil]]; [..|done].
    + rewrite lookup_insert_ne, lookup_insert_eq by done. simpl. apply lookup_set_field.
    + rewrite lookup_insert_eq. simpl. rewrite (lookup_insert_ne (db (world s))) by done. apply lookup_set_field.
Qed.

(** Version and creation time written one after the other publish the metadata. *)
Lemma writeBoth_ok s s1 s2 m :
  writeMeta s authzVersionFld (AuthzVersion m) = (None, s1) ->
  writeMeta s1 authzCreatedOnFld (AuthzCreatedOn m) = (None, s2) ->
  authzMetadata s2 = m /\ published (world s2) m /\ sameDbRest (world s) (world s2).
Proof.
  intros H1 H2. apply writeMeta_ok in H1 as (M1 & R1 & D1). apply writeMeta_ok in H2 as (M2 & R2 & D2).
  split_and!.
  - rewrite M2, M1. by destruct m.
  - intros tbl Ht. rewrite !D2, !D1 by done. simpl. by destruct m.
  - intros k Hk1 Hk2. rewrite R2 by done. by apply R1.
Qed.

(** *** One request *)

(** A request that fails its checks changes neither files nor metadata. *)
Definition refused (s : GNSIAuthzServer) (req : RotateAuthzRequest) : Prop :=
  match req with
  | Upload up force =>
      up_policy up = "" \/ up_version up = "" \/ jsonValid (up_policy up) = false \/
      fs (world s) !! pFile = None \/
      (AuthzVersion (authzMetadata s) = up_version up /\ force = false)
  | _ => True
  end.

Lemma process_refused s req :
  refused s req ->
  (process s req).1 <> OK /\ authzMetadata (process s req).2 = authzMetadata s /\
  authzMetadataCopy (process s req).2 = authzMetadataCopy s /\
  fs (world (process s req).2) = fs (world s) /\ db (world (process s req).2) = db (world s).
Proof.
  unfold processRotateRequest, fileCheck, osCall, next. destruct req as [|up force|]; try done. simpl.
  destruct (up_policy up) eqn:Ep; [done|]. destruct (up_version up) eqn:Ev; [done|].
  destruct (jsonValid _) eqn:Ej; [|done]. simpl. destruct (fails _); [done|].
  intros [H|[H|[H|[H|[H ->]]]]]; try done; [by rewrite H|].
  destruct (fs (world s) !! pFile); [|done]. simpl. rewrite H, String.eqb_refl. done.
Qed.

Lemma process_files s s' req code :
  process s req = (code, s') ->
  authzMetadataCopy s' = authzMetadataCopy s /\
  (forall f, f <> pFile -> fs (world s') !! f = fs (world s) !! f) /\
  (code = OK -> exists up force, req = Upload up force /\ authzMetadata s' = metaOf up /\
     published (world s') (metaOf up) /\ fs (world s') = <[pFile := up_policy up]> (fs (world s))).
Proof.
  unfold processRotateRequest, fileCheck, osCall. destruct req as [|up force|]; try by intros [= <- <-].
  intros H. cbv zeta in H. do 3 (case_hyp H; [done|]).
  destruct (fails _); [by injection H as <- <-|]. simpl in H.
  destruct (fs (world s) !! pFile) as [c|]; [|by injection H as <- <-].
  case_hyp H; [done|]. set (s0 := set_world s (next (world s))) in *.
  assert (authzMetadataCopy s0 = authzMetadataCopy s /\ fs (world s0) = fs (world s)) as [C0 F0] by done.
  clearbody s0.
  destruct (writeMeta s0 authzVersionFld _) as [e1 s1] eqn:E1.
  pose proof (writeMeta_copy s0 authzVersionFld (up_version up)) as C1.
  pose proof (writeMeta_fs s0 authzVersionFld (up_version up)) as F1.
  rewrite E1 in C1, F1. simpl in C1, F1. rewrite <- C0, <- C1, <- F0, <- F1.
  destruct e1; [by injection H as <- <-|].
  destruct (writeMeta s1 authzCreatedOnFld _) as [e2 s2] eqn:E2.
  pose proof (writeMeta_copy s1 authzCreatedOnFld (pretty (up_created_on up))) as C2.
  pose proof (writeMeta_fs s1 authzCreatedOnFld (pretty (up_created_on up))) as F2.
  rewrite E2 in C2, F2. simpl in C2, F2. rewrite <- C2, <- F2. destruct e2; [by injection H as <- <-|].
  destruct (writeBoth_ok _ s1 s2 (metaOf up) E1 E2) as (Hm & Hp & _).
  unfold saveToAuthzFile in H. destruct (installTemp _ _ _ _) as [e3 w3] eqn:E3.
  pose proof (fun f => installTemp_fs fails _ _ _ _ _ f E3) as F3.
  destruct e3; injection H as <- <-; [by split_and!|]. split_and!; try done.
  intros _. exists up, force. pose proof (installTemp_db fails (world s2) pFile (up_policy up)) as D3. rewrite E3 in D3.
  apply installTemp_ok in E3. split_and!; try done. unfold published, authzField. simpl in *. by rewrite D3.
Qed.

(** *** The stream *)

#[local] Arguments processRotateRequest : simpl never.
#[local] Arguments rollBack : simpl never.

Definition uploadEv (u : UploadRequest * bool) : RecvEvent := RecvReq (Upload u.1 u.2) true.

(** What is installed after the uploads [ups], starting from [s]. *)
Definition installed (s s' : GNSIAuthzServer) (ups : list (UploadRequest * bool)) : Prop :=
  match last ups with
  | None => authzMetadata s' = authzMetadata s /\ fs (world s') !! pFile = fs (world s) !! pFile /\
            db (world s') = db (world s)
  | Some (up, _) => authzMetadata s' = metaOf up /\ fs (world s') !! pFile = Some (up_policy up) /\
                    published (world s') (metaOf up)
  end.

Lemma fileCheck_db f w : db (fileCheck fails w f).2 = db w /\ fs (fileCheck fails w f).2 = fs w.
Proof. unfold fileCheck, osCall, next. simpl. by destruct (fails _). Qed.

Lemma finalize_frame s :
  AuthzMetaFile cfg <> pFile ->
  let s' := (saveAuthzFileFreshess fails torn encodeMeta (commitAuthzFileChanges fails cfg s).2 (AuthzMetaFile cfg)).2 in
  authzMetadata s' = authzMetadata s /\ fs (world s') !! pFile = fs (world s) !! pFile /\
  db (world s') = db (world s).
Proof.
  intros Hne. unfold saveAuthzFileFreshess.
  assert (let s1 := (commitAuthzFileChanges fails cfg s).2 in
    authzMetadata s1 = authzMetadata s /\ fs (world s1) !! pFile = fs (world s) !! pFile /\
    db (world s1) = db (world s)) as (H1 & H2 & H3).
  { unfold commitAuthzFileChanges. destruct (fileCheck_db pFile (world s)) as [D1 F1].
    destruct (fileCheck fails (world s) pFile) as [[e|] w1]; simpl in *; [by rewrite F1|].
    destruct (fileCheck_db bFile w1) as [D2 F2].
    destruct (fileCheck fails w1 bFile) as [[e|] w2]; simpl in *; [by rewrite F2, F1, D2|].
    unfold osRemove. rewrite <- F1, <- F2, <- D1, <- D2.
    destruct (fails _); [done|]. destruct (fs w2 !! bFile); [|done]. simpl.
    rewrite lookup_delete_ne; [done|]. intros E. by apply (authz_backup_ne cfg). }
  destruct (commitAuthzFileChanges _ _ _) as [e s1]. simpl in H1, H2, H3 |- *.
  pose proof (attemptWrite_fs fails torn (world s1) (AuthzMetaFile cfg) (encodeMeta (authzMetadata s1)) pFile) as Hf.
  pose proof (attemptWrite_db fails torn (world s1) (AuthzMetaFile cfg) (encodeMeta (authzMetadata s1))) as Hd.
  destruct (attemptWrite _ _ _ _ _) as [e2 w2]. simpl in *. rewrite Hf, Hd by done. done.
Qed.

Lemma authz_loop_ok s0 s s' ups0 evs :
  AuthzMetaFile cfg <> pFile -> installed s0 s ups0 -> loop s evs = (OK, s') ->
  exists ups b post, evs = map uploadEv ups ++ RecvReq FinalizeRotation b :: post /\
    installed s0 s' (ups0 ++ ups).
Proof.
  intros Hne. revert s ups0. induction evs as [|ev evs IH]; intros s ups0 Hi H; [done|].
  destruct ev as [| |[|up force|] send]; cbn [rotateLoop] in H; try done.
  - injection H as <-. exists [], send, evs. split; [done|]. rewrite app_nil_r.
    destruct (finalize_frame s Hne) as (H1 & H2 & H3). unfold installed, published, authzField in *.
    destruct (last ups0) as [[up f]|]; by rewrite H1, H2, H3.
  - destruct (process s (Upload up force)) as [code s1] eqn:Ep.
    apply process_files in Ep as (_ & _ & Hok). case_bool_decide as Hc; [|by simplify_eq].
    destruct send; [|done]. destruct (Hok Hc) as (up' & force' & [= <- <-] & Hm & Hp & Hf).
    destruct (IH s1 (ups0 ++ [(up, force)])) as (ups & b & post & -> & Hins); [|done|].
    { unfold installed. rewrite last_snoc, Hf, lookup_insert_eq. done. }
    exists ((up, force) :: ups), b, post. rewrite <- app_assoc in Hins. done.
Qed.

(** A rotation that returns success received accepted uploads followed by a
    finalize message; the policy file then holds the last uploaded policy and both
    services publish its version and creation time (all unchanged when the stream
    finalized without an upload), whatever system calls failed. *)
Theorem authz_rotate_ok auth locked s s' evs :
  AuthzMetaFile cfg <> pFile -> auth <> Some OK -> rotate auth locked s evs = (OK, s') ->
  exists ups b post, evs = map uploadEv ups ++ RecvReq FinalizeRotation b :: post /\ installed s s' ups.
Proof.
  intros Hne Ha H. unfold Rotate in H. destruct auth as [c|]; [by destruct c; simplify_eq|].
  destruct locked; [done|]. apply (authz_loop_ok s _ _ []) in H; [done|done|].
  unfold installed, checkpointAuthzFile, checkpointAuthzFreshness. simpl.
  pose proof (copyFile_db fails (world s) pFile bFile) as Hd.
  destruct (copyFile _ _ _ _) as [e w] eqn:Ew. simpl in *. split_and!; try done.
  eapply copyFile_fs; [done|]. apply authz_backup_ne.
Qed.

(** An upload with an empty policy, an empty version, malformed JSON, without a
    policy file to replace, or with the current version and no force flag, is refused
    before anything is written: files, metadata table and server state are unchanged. *)
Theorem authz_refused_no_effect s req :
  refused s req ->
  (process s req).1 <> OK /\ authzMetadata (process s req).2 = authzMetadata s /\
  authzMetadataCopy (process s req).2 = authzMetadataCopy s /\
  fs (world (process s req).2) = fs (world s) /\ db (world (process s req).2) = db (world s).
Proof. apply process_refused. Qed.
End Rotation.

(** *** Aborted rotations without I/O failures *)
Section NoFaults.
Variable torn : nat -> option string.
Variable cfg : Config.
Variable jsonValid : string -> bool.
Variable encodeMeta : AuthzMetadata -> string.

Abbreviation process := (processRotateRequest noFaults cfg jsonValid).
Abbreviation loop := (rotateLoop noFaults torn cfg jsonValid encodeMeta).
Abbreviation rotate := (Rotate noFaults torn cfg jsonValid encodeMeta).
Abbreviation writeMeta := (writeAuthzMetadataToDB noFaults).
Abbreviation pFile := (policyFile cfg).
Abbreviation bFile := (backupFile cfg).
#[local] Arguments processRotateRequest : simpl never.
#[local] Arguments rollBack : simpl never.

Lemma writeMeta_noFaults s fld val : exists s', writeMeta s fld val = (None, s').
Proof. unfold writeAuthzMetadataToDB, writeCredentialsMetadataToDB. simpl. eauto. Qed.

Lemma copyFile_noFaults w src dst :
  fs (copyFile noFaults w src dst).2 =
    match fs w !! src with Some c => <[dst := c]> (fs w) | None => fs w end /\
  db (copyFile noFaults w src dst).2 = db w.
Proof.
  split; [|apply copyFile_db]. unfold copyFile, osCall. simpl. by destruct (fs w !! src).
Qed.

(** The roll-back publishes the checkpointed metadata and copies the backup back. *)
Lemma rollBack_noFaults s :
  let s' := rollBack noFaults cfg s in
  authzMetadata s' = authzMetadataCopy s /\ published (world s') (authzMetadataCopy s) /\
  sameDbRest (world s) (world s') /\
  fs (world s') = match fs (world s) !! bFile with Some c => <[pFile := c]> (fs (world s)) | None => fs (world s) end.
Proof.
  unfold rollBack, revertAuthzFileFreshness. destruct (copyFile_noFaults (world s) bFile pFile) as [Hf Hd].
  set (s0 := set_world s _). destruct (writeMeta_noFaults s0 authzVersionFld (AuthzVersion (authzMetadataCopy s0))) as [s1 E1].
  destruct (writeMeta_noFaults s1 authzCreatedOnFld (AuthzCreatedOn (authzMetadataCopy s0))) as [s2 E2].
  pose proof (writeMeta_fs noFaults s0 authzVersionFld (AuthzVersion (authzMetadataCopy s0))) as F1.
  pose proof (writeMeta_fs noFaults s1 authzCreatedOnFld (AuthzCreatedOn (authzMetadataCopy s0))) as F2.
  rewrite E1 in F1 |- *. cbn [snd] in *. rewrite E2 in F2 |- *. cbn [snd] in *.
  destruct (writeBoth_ok _ _ _ _ _ E1 E2) as (Hm & Hp & Hr). split_and!; try done.
  - intros k Hk1 Hk2. rewrite Hr by done. simpl. by rewrite Hd.
  - rewrite F2, F1. done.
Qed.

#[local] Opaque writeAuthzMetadataToDB saveToAuthzFile.

Lemma process_dbRest s req : sameDbRest (world s) (world (process s req).2).
Proof.
  unfold processRotateRequest, fileCheck, osCall. destruct req as [|up force|]; try done. simpl.
  do 2 (destruct (_ =? 0); [done|]). destruct (negb (jsonValid _)); [done|].
  destruct (fs (world s) !! pFile) as [c|]; [|done]. destruct (_ && _); [done|].
  match goal with |- context [writeAuthzMetadataToDB _ ?x authzVersionFld _] => set (s0 := x) end.
  destruct (writeMeta_noFaults s0 authzVersionFld (AuthzVersion (metaOf up))) as [s1 E1].
  destruct (writeMeta_noFaults s1 authzCreatedOnFld (AuthzCreatedOn (metaOf up))) as [s2 E2].
  destruct (writeBoth_ok _ _ _ _ _ E1 E2) as (_ & _ & Hr). simpl in E1, E2. rewrite E1, E2.
  pose proof (installTemp_db noFaults (world s2) pFile (up_policy up)) as D3.
  with_strategy transparent [saveToAuthzFile] unfold saveToAuthzFile.
  destruct (installTemp _ _ _ _) as [e w]. simpl in D3. intros k Hk1 Hk2. trans (db (world s2) !! k); [|by apply Hr].
  destruct e; simpl; by rewrite D3.
Qed.

(** What is back in place of [s0] after a roll-back; [b] is the content of the
    backup file at the checkpoint. *)
Definition rolledBack (s0 s : GNSIAuthzServer) (b : option string) : Prop :=
  authzMetadata s = authzMetadata s0 /\ published (world s) (authzMetadata s0) /\
  sameDbRest (world s0) (world s) /\
  (forall c, b = Some c -> fs (world s) !! pFile = Some c) /\
  (forall f, f <> bFile -> f <> pFile -> fs (world s) !! f = fs (world s0) !! f).

Lemma authz_loop_aborted s0 s s' b evs code :
  authzMetadataCopy s = authzMetadata s0 -> sameDbRest (world s0) (world s) ->
  fs (world s) !! bFile = b ->
  (forall f, f <> bFile -> f <> pFile -> fs (world s) !! f = fs (world s0) !! f) ->
  loop s evs = (code, s') -> code <> OK -> rolledBack s0 s' b.
Proof.
  pose proof (authz_backup_ne cfg) as Hn.
  assert (forall s, authzMetadataCopy s = authzMetadata s0 -> sameDbRest (world s0) (world s) ->
    fs (world s) !! bFile = b ->
    (forall f, f <> bFile -> f <> pFile -> fs (world s) !! f = fs (world s0) !! f) ->
    rolledBack s0 (rollBack noFaults cfg s) b) as Hrb.
  { intros s1 Hm Hr Hb Hf. destruct (rollBack_noFaults s1) as (H1 & H2 & H3 & H4). rewrite Hm in *.
    split_and!; try done.
    - intros k Hk1 Hk2. rewrite H3 by done. by apply Hr.
    - intros c ->. rewrite H4, Hb. by rewrite lookup_insert_eq.
    - intros f Hf1 Hf2. rewrite H4, Hb. destruct b; [rewrite lookup_insert_ne by done|]; by apply Hf. }
  revert s. induction evs as [|ev evs IH]; intros s Hm Hr Hb Hf H Hne.
  { injection H as <- <-. by apply Hrb. }
  destruct ev as [| |req send]; cbn [rotateLoop] in H; [by injection H as <- <-; apply Hrb..|].
  assert (req <> FinalizeRotation) as Hreq by (intros ->; by injection H as <- <-).
  destruct (process s req) as [code1 s1] eqn:Ep.
  pose proof (process_dbRest s req) as Hd. rewrite Ep in Hd. simpl in Hd.
  apply process_files in Ep as (Hc & Hf1 & _).
  assert (authzMetadataCopy s1 = authzMetadata s0 /\ sameDbRest (world s0) (world s1) /\
    fs (world s1) !! bFile = b /\
    (forall f, f <> bFile -> f <> pFile -> fs (world s1) !! f = fs (world s0) !! f)) as (K1 & K2 & K3 & K4).
  { split_and!; [congruence| |by rewrite Hf1|].
    - intros k Hk1 Hk2. rewrite Hd by done. by apply Hr.
    - intros f Hb1 Hp1. rewrite Hf1 by done. by apply Hf. }
  destruct req as [|up force|]; [done|..]; (case_bool_decide; [destruct send|]; [by apply (IH s1)|..]);
    injection H as <- <-; by apply Hrb.
Qed.

Lemma checkpoint_noFaults s :
  let s1 := (checkpointAuthzFile noFaults cfg (checkpointAuthzFreshness s)).2 in
  authzMetadataCopy s1 = authzMetadata s /\ sameDbRest (world s) (world s1) /\
  fs (world s1) !! bFile = match fs (world s) !! pFile with Some c => Some c | None => fs (world s) !! bFile end /\
  (forall f, f <> bFile -> f <> pFile -> fs (world s1) !! f = fs (world s) !! f).
Proof.
  unfold checkpointAuthzFile, checkpointAuthzFreshness. simpl.
  destruct (copyFile_noFaults (world s) pFile bFile) as [Hf Hd].
  destruct (copyFile _ _ _ _) as [e w]. simpl in *. unfold sameDbRest. rewrite Hf, Hd.
  split_and!; [done..| |]; destruct (fs (world s) !! pFile); rewrite ?lookup_insert_eq; try done.
  intros f ??. by rewrite lookup_insert_ne.
Qed.

(** When no system call fails, a rotation that does not return success leaves
    the policy file, every other file but the backup and the metadata in memory as
    they were before it, and both services publish that metadata again; no other
    entry of the database changes. *)
Theorem authz_rotate_aborted_restores s s' evs code c :
  fs (world s) !! pFile = Some c ->
  rotate None false s evs = (code, s') -> code <> OK ->
  authzMetadata s' = authzMetadata s /\ published (world s') (authzMetadata s) /\
  sameDbRest (world s) (world s') /\
  (forall f, f <> bFile -> fs (world s') !! f = fs (world s) !! f).
Proof.
  intros Hc H Hne. destruct (checkpoint_noFaults s) as (H1 & H2 & H3 & H4). rewrite Hc in H3.
  destruct (authz_loop_aborted s _ s' (Some c) evs code H1 H2 H3 H4 H Hne) as (K1 & K2 & K3 & K4 & K5).
  split_and!; try done. intros f Hf. destruct (decide (f = pFile)) as [->|Hp]; [|by apply K5].
  rewrite Hc. by apply K4.
Qed.

(** The policy file is gone and the backup of an earlier rotation is left. *)
Definition staleBackup (s : GNSIAuthzServer) (b : string) : Prop :=
  fs (world s) !! pFile = None /\ fs (world s) !! bFile = Some b.

(** The failure of the file checkpoint is only logged: when the policy file is
    missing and the backup of an earlier rotation is still there, any rotation that
    is not finalized, even one that sends nothing, installs that stale backup as the
    policy file. *)
Theorem authz_stale_backup_revived s s' evs code b :
  staleBackup s b ->
  rotate None false s evs = (code, s') -> code <> OK ->
  fs (world s') !! pFile = Some b.
Proof.
  intros [Hp Hb] H Hne. destruct (checkpoint_noFaults s) as (H1 & H2 & H3 & H4). rewrite Hp, Hb in H3.
  destruct (authz_loop_aborted s _ s' (Some b) evs code H1 H2 H3 H4 H Hne) as (_ & _ & _ & K & _). by apply K.
Qed.
End NoFaults.

(** *** Witnesses *)

Definition authz_demo_cfg : Config := mkConfig "authz.json" "authz_meta.json".

Definition authz_demo_server (files : gmap string string) : GNSIAuthzServer :=
  mkSrv NewAuthzMetadata NewAuthzMetadata (mkWorld files ∅ 0).

Definition authz_demo_upload : UploadRequest := mkUpload "v2" 12 "{}".

Definition authz_demo_rotate :=
  Rotate noFaults (fun _ => None) authz_demo_cfg (String.eqb "{}") AuthzVersion None false.

Lemma authz_rotate_ok_witness :
  exists s', authz_demo_rotate (authz_demo_server {["authz.json" := "old"]})
      [RecvReq (Upload authz_demo_upload false) true; RecvReq FinalizeRotation true] = (OK, s') /\
    exists ups, installed authz_demo_cfg (authz_demo_server {["authz.json" := "old"]}) s' ups.
Proof.
  eexists. split; [vm_compute; reflexivity|].
  destruct (authz_rotate_ok noFaults (fun _ => None) authz_demo_cfg (String.eqb "{}") AuthzVersion None false
    (authz_demo_server {["authz.json" := "old"]}) (authz_demo_rotate (authz_demo_server {["authz.json" := "old"]})
      [RecvReq (Upload authz_demo_upload false) true; RecvReq FinalizeRotation true]).2
    [RecvReq (Upload authz_demo_upload false) true; RecvReq FinalizeRotation true])
    as (ups & _ & _ & _ & H); [done|done|vm_compute; reflexivity|]. exists ups. exact H.
Defined.

Lemma authz_refused_no_effect_witness :
  (processRotateRequest noFaults authz_demo_cfg (String.eqb "{}") (authz_demo_server ∅)
    (Upload authz_demo_upload false)).1 <> OK.
Proof.
  apply (authz_refused_no_effect noFaults authz_demo_cfg (String.eqb "{}") (authz_demo_server ∅)
    (Upload authz_demo_upload false)). right. right. right. left. reflexivity.
Defined.

Lemma authz_rotate_aborted_restores_witness :
  fs (world (authz_demo_rotate (authz_demo_server {["authz.json" := "old"]})
      [RecvReq (Upload authz_demo_upload false) true; RecvErr]).2) !! "authz.json" = Some "old".
Proof.
  destruct (authz_rotate_aborted_restores (fun _ => None) authz_demo_cfg (String.eqb "{}") AuthzVersion
    (authz_demo_server {["authz.json" := "old"]}) (authz_demo_rotate (authz_demo_server {["authz.json" := "old"]})
      [RecvReq (Upload authz_demo_upload false) true; RecvErr]).2
    [RecvReq (Upload authz_demo_upload false) true; RecvErr] Aborted "old")
    as (_ & _ & _ & H); [done|vm_compute; reflexivity|done|]. by rewrite (H "authz.json").
Defined.

Lemma authz_stale_backup_revived_witness :
  fs (world (authz_demo_rotate (authz_demo_server {["authz.json.bak" := "stale"]}) []).2)
    !! "authz.json" = Some "stale".
Proof.
  apply (authz_stale_backup_revived (fun _ => None) authz_demo_cfg (String.eqb "{}") AuthzVersion
    (authz_demo_server {["authz.json.bak" := "stale"]}) _ [] Aborted "stale"); [done|vm_compute; reflexivity|done].
Defined.
