(* ===== verification/Trie.v ===== *)
(** The trie of virtual paths (src/sonic_data_client/trie.go).

    Nodes are Go pointers: a wildcard child is reachable through both [children]
    and [wildcards] of its parent, so the nodes live in a heap and the maps hold
    locations.  Key strings that end in an asterisk are wildcards; the metadata
    of an entry hangs under the extra key [""]. *)

From S2P Require Import Prelude.

Module Trie.
Section Trie.
Context {M : Type}.

Abbreviation loc := nat.

Record Node := mkNode {
  val : string;
  depth : nat;
  term : bool;
  wildcards : gmap string loc;
  children : gmap string loc;
  parent : option loc;
  meta : option M
}.

Record Heap := mkHeap { cells : gmap loc Node; brk : loc }.

Record Trie := mkTrie { root : loc; size : Z; heap : Heap }.

Definition deref (h : Heap) (n : loc) : option Node := cells h !! n.

Definition NewTrie : Trie :=
  mkTrie 0 0 (mkHeap {[0 := mkNode "" 0 false ∅ ∅ None None]} 1).

(** [Node.NewChild]: allocates the child and links it into the maps of [n]. *)
Definition NewChild (h : Heap) (n : loc) (v : string) (md : option M) (tm : bool) : Heap * loc :=
  match deref h n with
  | None => (h, n)
  | Some nd =>
      let c := brk h in
      let nd' := mkNode (val nd) (depth nd) (term nd)
                   (if has_suffix v "*" then <[v := c]> (wildcards nd) else wildcards nd)
                   (<[v := c]> (children nd)) (parent nd) (meta nd) in
      (mkHeap (<[n := nd']> (<[c := mkNode v (S (depth nd)) tm ∅ ∅ (Some n) md]> (cells h))) (S c), c)
  end.

(** The loop of [Trie.Add]. *)
Fixpoint addWalk (h : Heap) (n : loc) (keys : list string) : Heap * loc :=
  match keys with
  | [] => (h, n)
  | key :: keys =>
      match deref h n ≫= fun nd => children nd !! key with
      | Some c => addWalk h c keys
      | None => let '(h, c) := NewChild h n key None false in addWalk h c keys
      end
  end.

Definition Add (t : Trie) (keys : list string) (md : M) : Trie * loc :=
  let '(h, n) := addWalk (heap t) (root t) keys in
  let '(h, c) := NewChild h n "" (Some md) true in
  (mkTrie (root t) (size t + 1) h, c).

(** [Node.RemoveChild]. *)
Definition RemoveChild (h : Heap) (n : loc) (r : string) : Heap :=
  match deref h n with
  | None => h
  | Some nd =>
      mkHeap (<[n := mkNode (val nd) (depth nd) (term nd) (delete r (wildcards nd))
                       (delete r (children nd)) (parent nd) (meta nd)]> (cells h)) (brk h)
  end.

(** The search of [findNode] among the wildcard children of a node. *)
Fixpoint wildcardMatch (ws : list (string * loc)) (key : string) : option loc :=
  match ws with
  | [] => None
  | (v, n) :: ws =>
      if has_prefix key (strtake (String.length v - 1) v) then Some n else wildcardMatch ws key
  end.

Definition findChild `{!MapRange} (nd : Node) (key : string) : option loc :=
  match children nd !! key with
  | Some c => Some c
  | None => wildcardMatch (range_of (wildcards nd)) key
  end.

Fixpoint findNode `{!MapRange} (h : Heap) (n : loc) (keys : list string) : option loc :=
  match keys with
  | [] => Some n
  | key :: nkeys => deref h n ≫= fun nd => findChild nd key ≫= fun c => findNode h c nkeys
  end.

(** The terminal child of a node, if it has one. *)
Definition terminal (h : Heap) (n : loc) : option Node :=
  deref h n ≫= fun nd => children nd !! "" ≫= fun c => deref h c ≫= fun cd =>
    if term cd then Some cd else None.

Definition Find `{!MapRange} (t : Trie) (keys : list string) : option Node :=
  findNode (heap t) (root t) keys ≫= terminal (heap t).

(** The loop of [Trie.Remove] over the ancestors; [rs] are the keys from the last
    one backwards.  [None] is a panic. *)
Fixpoint removeLoop (h : Heap) (n : loc) (rs : list string) : option Heap :=
  match deref h n ≫= parent with
  | None => Some h
  | Some p =>
      match rs with
      | [] => None
      | r :: rs =>
          if 1 <? base.size (default ∅ (children <$> deref h p)) then Some (RemoveChild h p r)
          else removeLoop h p rs
      end
  end.

Definition Remove `{!MapRange} (t : Trie) (keys : list string) : option Trie :=
  findNode (heap t) (root t) keys ≫= fun n =>
  removeLoop (heap t) n (reverse keys) ≫= fun h => Some (mkTrie (root t) (size t - 1) h).

(** * Well-formedness *)

Record wfNode (h : Heap) (n : loc) (nd : Node) : Prop := {
  wf_child : forall k c, children nd !! k = Some c ->
    exists cd, deref h c = Some cd /\ parent cd = Some n /\ val cd = k /\ depth cd = S (depth nd);
  wf_wild : forall k, wildcards nd !! k = if has_suffix k "*" then children nd !! k else None
}.

Record wf (t : Trie) : Prop := {
  wf_root : exists nd, deref (heap t) (root t) = Some nd /\ parent nd = None;
  wf_nodes : forall n nd, deref (heap t) n = Some nd -> n < brk (heap t) /\ wfNode (heap t) n nd
}.

(** The exact walk along [keys], wildcards taken literally. *)
Fixpoint walk (h : Heap) (n : loc) (keys : list string) : option loc :=
  match keys with
  | [] => Some n
  | k :: ks => deref h n ≫= fun nd => children nd !! k ≫= fun c => walk h c ks
  end.

(** The metadata stored for exactly these keys. *)
Definition entry (t : Trie) (keys : list string) : option M :=
  (walk (heap t) (root t) keys ≫= terminal (heap t)) ≫= meta.

Lemma NewTrie_wf : wf NewTrie.
Proof.
  split; [by eexists|]. unfold deref. simpl. intros n nd H.
  destruct (decide (n = 0)) as [->|Hne]; [|by rewrite lookup_singleton_ne in H].
  rewrite lookup_singleton_eq in H. injection H as <-. split; [lia|]. split; simpl.
  - intros k c. by rewrite lookup_empty.
  - intros k. rewrite !lookup_empty. by destruct (has_suffix _ _).
Qed.

Lemma walk_snoc h n ks k :
  walk h n (ks ++ [k]) = walk h n ks ≫= fun m => deref h m ≫= fun nd => children nd !! k.
Proof.
  revert n. induction ks as [|k0 ks IH]; intros n; simpl.
  - destruct (deref h n) as [nd|]; [|done]. simpl. by destruct (children nd !! k).
  - destruct (deref h n) as [nd|]; [|done]. simpl. destruct (children nd !! k0) as [c|]; [|done]. simpl. apply IH.
Qed.

(** Two different key lists never reach the same node. *)
Lemma walk_inj t ks1 ks2 n :
  wf t -> walk (heap t) (root t) ks1 = Some n -> walk (heap t) (root t) ks2 = Some n -> ks1 = ks2.
Proof.
  intros [(rd & Hrd & Hrp) Hn]. revert ks2 n.
  assert (Hstep : forall ks k n, walk (heap t) (root t) (ks ++ [k]) = Some n ->
    exists m cd, walk (heap t) (root t) ks = Some m /\ deref (heap t) n = Some cd /\
      parent cd = Some m /\ val cd = k).
  { intros ks k n. rewrite walk_snoc. destruct (walk _ _ ks) as [m|]; [|done]. simpl.
    destruct (deref (heap t) m) as [nd|] eqn:Em; [|done]. simpl. intros Hc.
    destruct (wf_child _ _ _ (proj2 (Hn m nd Em)) k n Hc) as (cd & ? & ? & ? & _). by exists m, cd. }
  induction ks1 as [|k1 ks1 IH] using rev_ind; intros ks2 n H1 H2.
  - injection H1 as <-. destruct ks2 as [|k2 ks2 _] using rev_ind; [done|].
    destruct (Hstep _ _ _ H2) as (m & cd & _ & Hcd & Hp & _). congruence.
  - destruct (Hstep _ _ _ H1) as (m1 & cd1 & Hw1 & Hd1 & Hp1 & Hv1).
    destruct ks2 as [|k2 ks2 _] using rev_ind; [injection H2 as <-; congruence|].
    destruct (Hstep _ _ _ H2) as (m2 & cd2 & Hw2 & Hd2 & Hp2 & Hv2). simplify_eq.
    f_equal. by eapply IH.
Qed.

(** * Adding entries *)

Lemma walk_lt t ks n :
  wf t -> walk (heap t) (root t) ks = Some n -> exists nd, deref (heap t) n = Some nd.
Proof.
  intros [(rd & Hrd & _) Hn]. destruct ks as [|k ks _] using rev_ind; [intros [= <-]; eauto|].
  rewrite walk_snoc. destruct (walk _ _ ks) as [m|]; [|done]. simpl.
  destruct (deref (heap t) m) as [nd|] eqn:Em; [|done]. simpl. intros Hc.
  destruct (wf_child _ _ _ (proj2 (Hn m nd Em)) k n Hc) as (cd & ? & _). eauto.
Qed.

Section NewChild.
Variables (t : Trie) (p : list string) (n : loc) (nd : Node) (k : string) (md : option M) (tm : bool).
Hypothesis Hwf : wf t.
Hypothesis Hp : walk (heap t) (root t) p = Some n.
Hypothesis Hnd : deref (heap t) n = Some nd.
Hypothesis Hk : children nd !! k = None \/ k = "".

Let h' := (NewChild (heap t) n k md tm).1.
Let c := (NewChild (heap t) n k md tm).2.

Lemma NewChild_deref :
  c = brk (heap t) /\ brk h' = S c /\
  (exists cd, deref h' c = Some cd /\ children cd = ∅ /\ wildcards cd = ∅ /\ val cd = k /\
     parent cd = Some n /\ term cd = tm /\ meta cd = md /\ depth cd = S (depth nd)) /\
  (exists nd', deref h' n = Some nd' /\ children nd' = <[k := c]> (children nd) /\
     wildcards nd' = (if has_suffix k "*" then <[k := c]> (wildcards nd) else wildcards nd) /\
     val nd' = val nd /\ depth nd' = depth nd /\ parent nd' = parent nd /\ term nd' = term nd /\ meta nd' = meta nd) /\
  (forall m, m <> n -> m <> c -> deref h' m = deref (heap t) m).
Proof using Hwf Hnd.
  unfold h', c, NewChild. rewrite Hnd. simpl. unfold deref. simpl.
  assert (n < brk (heap t)) by by apply (wf_nodes _ Hwf) in Hnd as [? _].
  split_and!; [done..| | |].
  - rewrite lookup_insert_ne, lookup_insert_eq by lia. by eexists.
  - rewrite lookup_insert_eq. by eexists.
  - intros m ??. by rewrite !lookup_insert_ne.
Qed.

Lemma NewChild_wf : wf (mkTrie (root t) (size t + 1) h') /\ wf (mkTrie (root t) (size t) h').
Proof using Hwf Hnd.
  clear Hk Hp.
  destruct NewChild_deref as (Ec & Eb & (cd & Hcd & C1 & C2 & C3 & C4 & _ & _ & C5) & (nd' & Hnd' & N1 & N2 & N3 & N4 & N5 & _) & Ho).
  assert (Hlt : n < c) by (rewrite Ec; by apply (wf_nodes _ Hwf) in Hnd as [? _]).
  enough (Hgoal : (exists rd, deref h' (root t) = Some rd /\ parent rd = None) /\
    (forall m x, deref h' m = Some x -> m < brk h' /\ wfNode h' m x))
    by (destruct Hgoal; split; by split).
  split.
  { destruct (wf_root _ Hwf) as (rd & Hrd & Hrp). destruct (decide (root t = n)) as [E|Hr].
    - exists nd'. rewrite E. split; [done|]. rewrite E, Hnd in Hrd. congruence.
    - exists rd. rewrite Ho; [done..|]. apply (wf_nodes _ Hwf) in Hrd as [? _]. lia. }
  (* the facts of a child survive *)
  assert (Hch : forall m x kk cc, deref (heap t) m = Some x -> children x !! kk = Some cc ->
    exists cd', deref h' cc = Some cd' /\ parent cd' = Some m /\ val cd' = kk /\ depth cd' = S (depth x)).
  { intros m x kk cc Hm Hcc. destruct (wf_nodes _ Hwf m x Hm) as [_ W].
    destruct (wf_child _ _ _ W kk cc Hcc) as (xd & Hxd & X1 & X2 & X3).
    destruct (decide (cc = n)) as [->|Hne].
    - exists nd'. rewrite Hnd in Hxd. injection Hxd as ->. split_and!; congruence.
    - exists xd. rewrite Ho; [done..|]. apply (wf_nodes _ Hwf) in Hxd as [? _]. lia. }
  intros m x Hm. destruct (decide (m = c)) as [->|Hmc]; [|destruct (decide (m = n)) as [->|Hmn]].
  - rewrite Hcd in Hm. injection Hm as <-. split; [lia|]. split.
    + intros kk cc. by rewrite C1, lookup_empty.
    + intros kk. rewrite C1, C2, lookup_empty. by destruct (has_suffix kk "*").
  - rewrite Hnd' in Hm. injection Hm as <-. split; [lia|]. destruct (wf_nodes _ Hwf n nd Hnd) as [_ W]. split.
    + intros kk cc. rewrite N1, N4. destruct (decide (kk = k)) as [->|Hkk].
      * rewrite lookup_insert_eq. intros [= <-]. exists cd. split_and!; done.
      * rewrite lookup_insert_ne by done. by apply Hch.
    + intros kk. rewrite N1, N2. pose proof (wf_wild _ _ _ W kk) as Hw.
      destruct (decide (kk = k)) as [->|Hkk].
      * rewrite lookup_insert_eq. destruct (has_suffix k "*"); [by rewrite lookup_insert_eq|done].
      * rewrite lookup_insert_ne by done. destruct (has_suffix k "*"); [by rewrite lookup_insert_ne|done].
  - rewrite Ho in Hm by done. destruct (wf_nodes _ Hwf m x Hm) as [Hb W]. split; [lia|]. split.
    + intros kk cc. by apply Hch.
    + apply W.
Qed.

Lemma NewChild_walk ks :
  "" ∉ ks -> walk h' (root t) ks = if decide (ks = p ++ [k]) then Some c else walk (heap t) (root t) ks.
Proof.
  destruct NewChild_deref as (Ec & _ & (cd & Hcd & C1 & _) & (nd' & Hnd' & N1 & _) & Ho).
  induction ks as [|a ks IH] using rev_ind; intros Hks.
  { rewrite decide_False; [done|]. intros E. by apply app_cons_not_nil in E. }
  rewrite not_elem_of_app, list_elem_of_singleton in Hks. destruct Hks as [Hks Ha].
  rewrite !walk_snoc, IH by done. case_decide as E1.
  { subst ks. rewrite decide_False, !walk_snoc, Hp by (intros E%(f_equal length); rewrite !length_app in E; simpl in E; lia).
    simpl. rewrite Hcd, Hnd. simpl. rewrite C1, lookup_empty.
    destruct Hk as [-> | ->]; [done|]. rewrite elem_of_app, list_elem_of_singleton in Hks. naive_solver. }
  destruct (walk (heap t) (root t) ks) as [m|] eqn:Em; simpl.
  - destruct (decide (m = n)) as [->|Hne].
    + rewrite (walk_inj t ks p n Hwf Em Hp), Hnd', Hnd. simpl. rewrite N1. case_decide as E2.
      * apply app_inj_tail in E2 as [_ ->]. by rewrite lookup_insert_eq.
      * rewrite lookup_insert_ne; [done|]. intros ->. done.
    + destruct (walk_lt t ks m Hwf Em) as [x Hx]. pose proof (proj1 (wf_nodes _ Hwf m x Hx)).
      rewrite decide_False, Ho; [done|done|lia|]. intros [-> _]%app_inj_tail. congruence.
  - rewrite decide_False; [done|]. intros [-> _]%app_inj_tail. congruence.
Qed.

(** The metadata under [""] of every old node but [n] is unchanged. *)
Lemma NewChild_terminal m x :
  deref (heap t) m = Some x -> m <> n \/ k <> "" ->
  (terminal h' m ≫= meta) = (terminal (heap t) m ≫= meta).
Proof.
  destruct NewChild_deref as (Ec & _ & _ & (nd' & Hnd' & N1 & _ & _ & _ & _ & N2 & N3) & Ho). intros Hm Hne.
  assert (Hcell : forall y yd, deref (heap t) y = Some yd -> exists yd', deref h' y = Some yd' /\
    term yd' = term yd /\ meta yd' = meta yd /\ (y <> n \/ k <> "" -> children yd' !! "" = children yd !! "")).
  { intros y yd Hy. destruct (decide (y = n)) as [->|Hyn].
    - exists nd'. rewrite Hnd in Hy. injection Hy as <-. split_and!; try done.
      intros [?|?]; [done|]. by rewrite N1, lookup_insert_ne.
    - exists yd. rewrite Ho; [done..|]. apply (wf_nodes _ Hwf) in Hy as [? _]. lia. }
  destruct (Hcell m x Hm) as (x' & Hx' & _ & _ & Hc). unfold terminal. rewrite Hx', Hm. simpl. rewrite Hc by done.
  destruct (children x !! "") as [y|] eqn:Ey; [|done]. simpl.
  destruct (wf_child _ _ _ (proj2 (wf_nodes _ Hwf m x Hm)) "" y Ey) as (yd & Hyd & _).
  destruct (Hcell y yd Hyd) as (yd' & Hyd' & T & Mt & _). rewrite Hyd', Hyd. simpl. rewrite T.
  by destruct (term yd).
Qed.

(** A fresh inner child does not change the entries. *)
Lemma NewChild_entry ks sz :
  k <> "" -> "" ∉ ks -> entry (mkTrie (root t) sz h') ks = entry t ks.
Proof.
  intros Hne Hks. unfold entry. cbn [heap root]. rewrite NewChild_walk by done.
  destruct NewChild_deref as (_ & _ & (cd & Hcd & C1 & _) & _). case_decide as E.
  - subst ks. rewrite walk_snoc, Hp. simpl. rewrite Hnd. simpl. destruct Hk as [-> | ->]; [|done].
    unfold terminal. rewrite Hcd. simpl. by rewrite C1, lookup_empty.
  - destruct (walk (heap t) (root t) ks) as [m|] eqn:Em; [|done]. simpl.
    destruct (walk_lt t ks m Hwf Em) as [x Hx]. apply (NewChild_terminal m x Hx). by right.
Qed.
End NewChild.

(** The terminal child sets the entry of its node and no other. *)
Lemma NewTerminal_entry t p n nd (md : M) ks sz :
  wf t -> walk (heap t) (root t) p = Some n -> deref (heap t) n = Some nd -> "" ∉ ks ->
  entry (mkTrie (root t) sz (NewChild (heap t) n "" (Some md) true).1) ks =
    if decide (ks = p) then Some md else entry t ks.
Proof.
  intros Hwf Hp Hnd Hks. unfold entry. cbn [heap root].
  rewrite (NewChild_walk t p n nd) by (done || by right).
  rewrite decide_False; [|intros ->; apply Hks; rewrite elem_of_app, list_elem_of_singleton; by right].
  destruct (NewChild_deref t n nd "" (Some md) true Hwf Hnd)
    as (_ & _ & (cd & Hcd & _ & _ & _ & _ & C5 & C6 & _) & (nd' & Hnd' & N1 & _) & _).
  case_decide as E.
  - subst ks. rewrite Hp. simpl. unfold terminal. rewrite Hnd'. simpl. rewrite N1, lookup_insert_eq. simpl.
    rewrite Hcd. simpl. by rewrite C5.
  - destruct (walk (heap t) (root t) ks) as [m|] eqn:Em; [|done]. simpl.
    destruct (walk_lt t ks m Hwf Em) as [x Hx]. eapply NewChild_terminal; try done.
    left. intros ->. apply E. by apply (walk_inj t ks p n).
Qed.

Lemma addWalk_spec t sz p n keys :
  wf t -> walk (heap t) (root t) p = Some n -> "" ∉ p ++ keys ->
  let '(h', n') := addWalk (heap t) n keys in
  let t' := mkTrie (root t) sz h' in
  wf t' /\ walk h' (root t) (p ++ keys) = Some n' /\
  (forall ks, "" ∉ ks -> entry t' ks = entry t ks).
Proof.
  revert t p n. induction keys as [|key keys IH]; intros t p n Hwf Hp Hne; simpl.
  { rewrite app_nil_r. split_and!; try done. by destruct Hwf; split. }
  destruct (walk_lt t p n Hwf Hp) as [nd Hnd]. rewrite Hnd. simpl.
  replace (p ++ key :: keys) with ((p ++ [key]) ++ keys) in * by by rewrite <- app_assoc.
  destruct (children nd !! key) as [c|] eqn:Ec.
  - apply IH; [done| |done]. by rewrite walk_snoc, Hp; simpl; rewrite Hnd.
  - assert (key <> "" /\ ("" ∉ p ++ [key])) as [Hkey Hpk].
    { rewrite !elem_of_app, list_elem_of_singleton in *. naive_solver. }
    pose proof (NewChild_walk t p n nd key None false Hwf Hp Hnd (or_introl Ec) (p ++ [key]) Hpk) as Hw.
    pose proof (NewChild_wf t n nd key None false Hwf Hnd) as [_ Hwf'].
    pose proof (fun ks => NewChild_entry t p n nd key None false Hwf Hp Hnd (or_introl Ec) ks (size t) Hkey) as He.
    rewrite decide_True in Hw by done. destruct (NewChild (heap t) n key None false) as [h1 c1]. simpl in *.
    specialize (IH (mkTrie (root t) (size t) h1) (p ++ [key]) c1 Hwf' Hw Hne). cbn [heap root] in IH.
    destruct (addWalk h1 c1 keys) as [h2 n2]. destruct IH as (W & Wk & En). split_and!; try done.
    intros ks Hks. by rewrite En, He.
Qed.

(** Adding an entry keeps the trie well formed and updates exactly that entry. *)
Lemma Add_entry t keys md :
  wf t -> "" ∉ keys ->
  wf (Add t keys md).1 /\
  forall ks, "" ∉ ks -> entry (Add t keys md).1 ks = if decide (ks = keys) then Some md else entry t ks.
Proof.
  intros Hwf Hne. pose proof (addWalk_spec t (size t) [] (root t) keys Hwf eq_refl Hne) as H. unfold Add.
  destruct (addWalk (heap t) (root t) keys) as [h1 n1]. simpl in H. destruct H as (W & Wk & En).
  destruct (walk_lt _ _ _ W Wk) as [nd Hnd]. cbn [heap root] in *.
  pose proof (NewChild_wf _ n1 nd "" (Some md) true W Hnd) as [W' _].
  pose proof (fun ks => NewTerminal_entry _ keys n1 nd md ks (size t + 1) W Wk Hnd) as He. cbn [heap root size] in *.
  destruct (NewChild h1 n1 "" (Some md) true) as [h2 c2]. simpl in *. split; [done|].
  intros ks Hks. rewrite He by done. case_decide; [done|]. by apply En.
Qed.

(** * Lookup *)

Lemma walk_findNode `{!MapRange} h n ks m : walk h n ks = Some m -> findNode h n ks = Some m.
Proof.
  revert n. induction ks as [|k ks IH]; intros n; [done|]. simpl.
  destruct (deref h n) as [nd|]; [|done]. simpl. unfold findChild.
  destruct (children nd !! k) as [c|]; [|done]. simpl. apply IH.
Qed.

Lemma findNode_app `{!MapRange} h n ks1 ks2 :
  findNode h n (ks1 ++ ks2) = findNode h n ks1 ≫= fun m => findNode h m ks2.
Proof.
  revert n. induction ks1 as [|k ks1 IH]; intros n; [done|]. simpl.
  destruct (deref h n) as [nd|]; [|done]. simpl. destruct (findChild nd k); [|done]. simpl. apply IH.
Qed.

(** A stored entry is found by its own keys, whatever wildcards are around. *)
Lemma entry_Find `{!MapRange} t ks md :
  entry t ks = Some md -> exists nd, Find t ks = Some nd /\ meta nd = Some md.
Proof.
  unfold entry, Find. destruct (walk _ _ ks) as [m|] eqn:Ew; [|done]. simpl.
  rewrite (walk_findNode _ _ _ _ Ew). simpl. destruct (terminal _ _) as [nd|]; [|done]. eauto.
Qed.

(** ** Independence of the iteration order *)

(** At most one wildcard child of a node matches a key. *)
Definition unambiguous (nd : Node) (key : string) : Prop :=
  forall v1 v2 n1 n2, wildcards nd !! v1 = Some n1 -> wildcards nd !! v2 = Some n2 ->
    has_prefix key (strtake (String.length v1 - 1) v1) = true ->
    has_prefix key (strtake (String.length v2 - 1) v2) = true -> n1 = n2.

Lemma wildcardMatch_Some ws key n :
  wildcardMatch ws key = Some n ->
  exists v, (v, n) ∈ ws /\ has_prefix key (strtake (String.length v - 1) v) = true.
Proof.
  induction ws as [|[v m] ws IH]; [done|]. cbn [wildcardMatch]. destruct (has_prefix _ _) eqn:E.
  - intros [= <-]. exists v. split; [apply list_elem_of_here|done].
  - intros H. destruct (IH H) as (v' & Hin & Hp). exists v'. split; [by right|done].
Qed.

Lemma wildcardMatch_None ws key v n :
  wildcardMatch ws key = None -> (v, n) ∈ ws -> has_prefix key (strtake (String.length v - 1) v) = false.
Proof.
  induction ws as [|[v' m] ws IH]; [by intros _ ?%elem_of_nil|]. cbn [wildcardMatch].
  destruct (has_prefix key (strtake (String.length v' - 1) v')) eqn:E; [done|]. intros H Hin. apply elem_of_cons in Hin as [[= -> ->]|Hin]; [done|].
  by apply IH.
Qed.

Lemma findChild_unambiguous (r1 r2 : MapRange) nd key :
  unambiguous nd key -> @findChild r1 nd key = @findChild r2 nd key.
Proof.
  intros Hu. unfold findChild. destruct (children nd !! key); [done|].
  assert (Hin : forall (r : MapRange) v n, (v, n) ∈ @range_of r _ (wildcards nd) <-> wildcards nd !! v = Some n).
  { intros r v n. rewrite (@range_of_perm r). apply elem_of_map_to_list. }
  destruct (wildcardMatch (@range_of r1 _ _) key) as [n1|] eqn:E1, (wildcardMatch (@range_of r2 _ _) key) as [n2|] eqn:E2; [..|done].
  - apply wildcardMatch_Some in E1 as (v1 & I1 & P1), E2 as (v2 & I2 & P2). rewrite Hin in I1, I2. f_equal. by eapply Hu.
  - apply wildcardMatch_Some in E1 as (v1 & I1 & P1). rewrite Hin, <- (Hin r2) in I1.
    by rewrite (wildcardMatch_None _ _ _ _ E2 I1) in P1.
  - apply wildcardMatch_Some in E2 as (v2 & I2 & P2). rewrite Hin, <- (Hin r1) in I2.
    by rewrite (wildcardMatch_None _ _ _ _ E1 I2) in P2.
Qed.

Lemma Find_order_independent (r1 r2 : MapRange) t ks :
  (forall n nd key, deref (heap t) n = Some nd -> key ∈ ks -> unambiguous nd key) ->
  @Find r1 t ks = @Find r2 t ks.
Proof.
  unfold Find. intros Hu. f_equal. generalize (root t). induction ks as [|k ks IH]; intros n; [done|]. simpl.
  destruct (deref (heap t) n) as [nd|] eqn:En; [|done]. simpl.
  rewrite (findChild_unambiguous r1 r2 nd k) by (apply (Hu n); [done|left]).
  destruct (findChild _ _) as [c|]; [|done]. simpl. apply IH. intros m md key Hm Hk. apply (Hu m); [done|by right].
Qed.
End Trie.
Arguments Node : clear implicits.
Arguments Heap : clear implicits.
Arguments Trie : clear implicits.

(** Adding an entry to a well-formed trie keeps it well formed; the entry is
    then found by its own keys, for every iteration order of the wildcard maps, and
    every other entry is unchanged. *)
Theorem trie_add_find {M} (r : MapRange) (t : Trie M) keys md :
  wf t -> "" ∉ keys ->
  let t' := (Add t keys md).1 in
  wf t' /\ (exists nd, Find t' keys = Some nd /\ meta nd = Some md) /\
  forall ks, "" ∉ ks -> ks <> keys -> entry t' ks = entry t ks.
Proof.
  intros Hwf Hne. destruct (Add_entry t keys md Hwf Hne) as [W E]. cbv zeta. split_and!; [done| |].
  - apply entry_Find. rewrite E by done. by rewrite decide_True.
  - intros ks Hks Hneq. rewrite E by done. by rewrite decide_False.
Qed.

Lemma trie_add_find_witness :
  exists nd, Find (Add (NewTrie (M := nat)) ["COUNTERS_DB"; "Ethernet*"] 7).1 ["COUNTERS_DB"; "Ethernet*"] = Some nd /\
    meta nd = Some 7.
Proof.
  apply (trie_add_find map_range_default NewTrie ["COUNTERS_DB"; "Ethernet*"] 7); [apply NewTrie_wf|].
  by apply (bool_decide_unpack _).
Defined.

(** * The trie as a tree

    The part of the heap below a node, unfolded [fuel] levels. *)
Section Tree.
Context {M : Type}.

Inductive ttree := TNode (l : nat) (here : option M) (kids wkids : list (string * ttree)).

Definition tloc (t : ttree) : nat := match t with TNode l _ _ _ => l end.
Definition there (t : ttree) : option M := match t with TNode _ e _ _ => e end.

Fixpoint toTree (fuel : nat) (h : Heap M) (n : nat) : ttree :=
  match fuel with
  | 0 => TNode n (terminal h n ≫= meta) [] []
  | S fuel =>
      match deref h n with
      | None => TNode n (terminal h n ≫= meta) [] []
      | Some nd =>
          TNode n (terminal h n ≫= meta)
            (map (fun '(k, c) => (k, toTree fuel h c)) (map_to_list (children nd)))
            (map (fun '(k, c) => (k, toTree fuel h c)) (map_to_list (wildcards nd)))
      end
  end.

Fixpoint texact (kids : list (string * ttree)) (key : string) : option ttree :=
  match kids with
  | [] => None
  | (k, t) :: kids => if String.eqb key k then Some t else texact kids key
  end.

Fixpoint twild (ws : list (string * ttree)) (key : string) : option ttree :=
  match ws with
  | [] => None
  | (v, t) :: ws => if has_prefix key (strtake (String.length v - 1) v) then Some t else twild ws key
  end.

Definition tchild (t : ttree) (key : string) : option ttree :=
  match t with TNode _ _ kids ws =>
    match texact kids key with Some c => Some c | None => twild ws key end end.

Fixpoint tnode (t : ttree) (keys : list string) : option ttree :=
  match keys with
  | [] => Some t
  | k :: ks => match tchild t k with Some c => tnode c ks | None => None end
  end.

Lemma texact_lookup (f : nat -> ttree) (l : list (string * nat)) key :
  NoDup l.*1 ->
  texact (map (fun '(k, c) => (k, f c)) l) key = f <$> (list_to_map l : gmap string nat) !! key.
Proof.
  induction l as [|[k c] l IH]; simpl; intros Hnd; [by rewrite lookup_empty|].
  apply NoDup_cons in Hnd as [_ Hnd]. destruct (String.eqb_spec key k) as [->|Hne].
  - by rewrite lookup_insert_eq.
  - rewrite lookup_insert_ne by done. by apply IH.
Qed.

Lemma twild_lookup (f : nat -> ttree) (l : list (string * nat)) key :
  twild (map (fun '(k, c) => (k, f c)) l) key = f <$> wildcardMatch l key.
Proof.
  induction l as [|[k c] l IH]; [done|]. cbn [map twild wildcardMatch].
  destruct (has_prefix _ _); [done|apply IH].
Qed.

Lemma toTree_child fuel h n nd key :
  deref h n = Some nd ->
  tchild (toTree (S fuel) h n) key = toTree fuel h <$> @findChild M map_range_default nd key.
Proof.
  intros Hnd. cbn [toTree]. rewrite Hnd. unfold tchild, findChild. rewrite texact_lookup, list_to_map_to_list, twild_lookup.
  - by destruct (children nd !! key).
  - apply NoDup_fst_map_to_list.
Qed.

Lemma toTree_loc fuel h n : tloc (toTree fuel h n) = n /\ there (toTree fuel h n) = terminal h n ≫= meta.
Proof. destruct fuel; [done|]. simpl. by destruct (deref h n). Qed.

(** The unfolded tree answers lookups of up to [fuel] keys. *)
Lemma toTree_find fuel h n ks :
  length ks <= fuel ->
  @findNode M map_range_default h n ks = tloc <$> tnode (toTree fuel h n) ks /\
  (@findNode M map_range_default h n ks ≫= terminal h) ≫= meta = tnode (toTree fuel h n) ks ≫= there.
Proof.
  revert fuel n. induction ks as [|k ks IH]; intros fuel n Hl.
  - simpl. destruct (toTree_loc fuel h n) as [H1 H2]. by rewrite H1, H2.
  - destruct fuel as [|fuel]; [simpl in Hl; lia|]. cbn [findNode tnode].
    destruct (deref h n) as [nd|] eqn:En.
    + rewrite (toTree_child fuel h n nd k En). simpl. destruct (findChild nd k) as [c|]; [|done].
      simpl. apply IH. simpl in Hl. lia.
    + simpl. rewrite En. done.
Qed.
End Tree.
Arguments ttree : clear implicits.

(** ** A check that no node has two wildcards matching the same key *)

Lemma has_prefix_total s p q :
  has_prefix s p = true -> has_prefix s q = true -> has_prefix p q = true \/ has_prefix q p = true.
Proof.
  unfold has_prefix. revert p q. induction s as [|c s IH]; intros [|a p] [|b q]; simpl; auto; try done.
  intros [->%Ascii.eqb_eq Hp]%andb_prop [->%Ascii.eqb_eq Hq]%andb_prop. rewrite Ascii.eqb_refl. simpl. by apply IH.
Qed.

Definition stem (v : string) : string := strtake (String.length v - 1) v.

Definition wildOk (ws : list (string * nat)) : bool :=
  forallb (fun '(v1, n1) => forallb (fun '(v2, n2) =>
    (n1 =? n2) || negb (has_prefix (stem v1) (stem v2) || has_prefix (stem v2) (stem v1))) ws) ws.

Definition trieOk {M} (t : Trie M) : bool :=
  forallb (fun '(_, nd) => wildOk (map_to_list (wildcards nd))) (map_to_list (cells (heap t))).

Lemma trieOk_unambiguous {M} (t : Trie M) n nd key :
  trieOk t = true -> deref (heap t) n = Some nd -> unambiguous nd key.
Proof.
  unfold trieOk, deref. rewrite forallb_forall. intros H Hn v1 v2 n1 n2 H1 H2 P1 P2.
  specialize (H (n, nd)). rewrite <- list_elem_of_In, elem_of_map_to_list in H. specialize (H Hn).
  unfold wildOk in H. rewrite forallb_forall in H. specialize (H (v1, n1)).
  rewrite <- list_elem_of_In, elem_of_map_to_list in H. specialize (H H1). rewrite forallb_forall in H.
  specialize (H (v2, n2)). rewrite <- list_elem_of_In, elem_of_map_to_list in H. specialize (H H2).
  apply orb_prop in H as [H|H]; [by apply Nat.eqb_eq|]. apply negb_true_iff, orb_false_elim in H as [N1 N2].
  destruct (has_prefix_total key (stem v1) (stem v2) P1 P2); unfold stem in *; congruence.
Qed.
End Trie.
