(* ===== verification/DbTypes.v ===== *)
(** Data shared by the Redis clients: table paths and the Redis connections.

    Redis itself is a service outside the program; a connection is a record of
    the commands the code issues, each returning [None] where the Go client
    returns an error. *)

From S2P Require Import Prelude.

(** [tablePath] of src/sonic_data_client/db_client.go. *)
Record tablePath := mkTablePath {
  dbNamespace : string;
  dbName : string;
  tableName : string;
  tableKey : string;
  delimitor : string;
  field : string;
  jsonValue : string;
  protoValue : string;
  index : Z;
  operation : Z;
  jsonTableName : string;
  jsonTableKey : string;
  jsonDelimitor : string;
  jsonField : string;
  isVirtualPath : bool
}.

#[global] Instance tablePath_eq_dec : EqDecision tablePath.
Proof. solve_decision. Defined.

(** [buildTablePath] of virtual_db.go; the fields that a composite literal leaves
    out are zero. *)
Definition buildTablePath (namespace dbName tableName tableKey separator field
    jsonTableName jsonTableKey jsonField : string) : tablePath :=
  mkTablePath namespace dbName tableName tableKey separator field "" "" 0 0
    jsonTableName jsonTableKey "" jsonField false.

(** Why [HGet] of the Go client has no value: [redis.Nil] or another error. *)
Inductive redis_error := RedisNil | RedisFailure.

#[global] Instance redis_error_eq_dec : EqDecision redis_error.
Proof. solve_decision. Defined.

(** A Redis connection. *)
Record Redis := mkRedis {
  Ping : option unit;
  Keys : string -> option (list string);
  Exists : string -> option bool;
  HExists : string -> string -> option bool;
  HGetErr : string -> string -> res redis_error string;
  HGetAll : string -> option (gmap string string)
}.

Definition HGet (r : Redis) (key fld : string) : option string :=
  match HGetErr r key fld with Ok v => Some v | Err _ => None end.

(** What the commands promise of a database [store] of hashes: documented behaviour
    of Redis on a connection that works.  [KEYS] is used with a literal name or a
    literal prefix followed by a star; a literal has none of the glob characters. *)
Abbreviation hash_store := (gmap string (gmap string string)).

Definition globChars : list Ascii.ascii := Ascii.ascii_of_nat <$> [42; 63; 91; 92].

Definition literal (s : string) : Prop := Forall (fun c => str_free c s) globChars.

Class RedisServes (r : Redis) (store : hash_store) : Prop := {
  serves_exists k : Exists r k = Some (bool_decide (is_Some (store !! k)));
  serves_hexists k f : HExists r k f = Some (bool_decide (is_Some (store !! k ≫= lookup f)));
  serves_hget k f : HGetErr r k f = match store !! k ≫= lookup f with Some v => Ok v | None => Err RedisNil end;
  serves_hgetall k : HGetAll r k = Some (default ∅ (store !! k));
  serves_key k : literal k -> exists l, Keys r k = Some l /\ NoDup l /\ forall x, x ∈ l <-> x = k /\ is_Some (store !! k);
  serves_prefix p : literal p ->
    exists l, Keys r (p +:+ "*") = Some l /\ NoDup l /\
      forall x, x ∈ l <-> has_prefix x p = true /\ is_Some (store !! x)
}.

(** The commands on a store, as a working server answers them. *)
Definition serve (store : hash_store) : Redis :=
  let names := (map_to_list store).*1 in
  mkRedis (Some tt)
    (fun pat => Some (if has_suffix pat "*"
                      then base.filter (fun k => has_prefix k (trim_suffix pat "*") = true) names
                      else base.filter (fun k => k = pat) names))
    (fun k => Some (bool_decide (is_Some (store !! k))))
    (fun k f => Some (bool_decide (is_Some (store !! k ≫= lookup f))))
    (fun k f => match store !! k ≫= lookup f with Some v => Ok v | None => Err RedisNil end)
    (fun k => Some (default ∅ (store !! k))).

Lemma elem_of_names (store : hash_store) k : k ∈ (map_to_list store).*1 <-> is_Some (store !! k).
Proof.
  rewrite list_elem_of_fmap. split.
  - intros ([k' v] & -> & H%elem_of_map_to_list). by eexists.
  - intros [v H]. exists (k, v). split; [done|]. by apply elem_of_map_to_list.
Qed.

Lemma literal_no_star p : literal p -> has_suffix p "*" = false.
Proof.
  intros H. destruct (has_suffix p "*") eqn:E; [|done]. apply has_suffix_spec in E as [q ->].
  unfold literal, globChars in H. rewrite Forall_fmap in H. apply Forall_cons in H as [H _].
  unfold compose in H. apply str_free_app in H as [_ H]. simpl in H. by destruct H.
Qed.

#[global] Instance serve_serves store : RedisServes (serve store) store.
Proof.
  split; try done.
  - intros k Hk. eexists. split; [unfold serve; cbn [Keys]; by rewrite literal_no_star|].
    split; [apply list.NoDup_filter, NoDup_fst_map_to_list|].
    intros x. rewrite list_elem_of_filter, elem_of_names. naive_solver.
  - intros p Hp. eexists. split; [unfold serve; cbn [Keys]; by rewrite has_suffix_app|].
    split; [apply list.NoDup_filter, NoDup_fst_map_to_list|].
    intros x. rewrite list_elem_of_filter, elem_of_names, trim_suffix_app. done.
Qed.
