(* ===== verification/VirtualDb.v ===== *)
(** The virtual database (src/sonic_data_client/virtual_db.go): counter name maps
    loaded once from Redis, and the translation of virtual paths such as
    [COUNTERS_DB COUNTERS Ethernet* Queues] to real table paths.

    The package variables are the fields of [State]; every function that the
    source runs under [clearMappingsMu] is one step here. *)

From S2P Require Import Prelude DbTypes Trie.
Import Trie.
Open Scope go_scope.

Module VirtualDb.

(** Errors, and the panic of an index out of range. *)
Inductive v2r_error :=
| NotValid (name : string)
| NoNamespace (port : string)
| BadFormat (key : string)
| NoPriorityGroups (port : string)
| NotInTree (paths : list string)
| InvalidPg (pg : string)
| MissingQueue (key : string)
| RedisError
| Panic.

#[global] Instance v2r_error_eq_dec : EqDecision v2r_error.
Proof. solve_decision. Defined.

Abbreviation vres := (res v2r_error).

(** [l[i]] and [s[n:]] with their run-time checks. *)
Definition idx (l : list string) (i : nat) : vres string :=
  match l !! i with Some s => Ok s | None => Err Panic end.

Definition slice_from (n : nat) (s : string) : vres string :=
  if String.length s <? n then Err Panic else Ok (strdrop n s).

Definition of_redis {A} (o : option A) : vres A :=
  match o with Some a => Ok a | None => Err RedisError end.

Definition DbIdx : nat := 0.
Definition TblIdx : nat := 1.
Definition KeyIdx : nat := 2.
Definition FieldIdx : nat := 3.

(** The package variables. *)
Record Maps := mkMaps {
  countersPortNameMap : gmap string string;
  countersQueueNameMap : gmap string string;
  countersSidMap : gmap string string;
  countersAclRuleMap : gmap string string;
  countersPGNameMap : gmap string (gmap string string);
  alias2nameMap : gmap string string;
  name2aliasMap : gmap string string;
  port2namespaceMap : gmap string string;
  countersPfcwdNameMap : gmap string (gmap string string);
  countersFabricPortNameMap : gmap string string;
  countersDebugNameSwitchStatMap : gmap string string
}.

Definition emptyMaps : Maps := mkMaps ∅ ∅ ∅ ∅ ∅ ∅ ∅ ∅ ∅ ∅ ∅.

Section VirtualDb.
Context `{!MapRange}.
(** [GetTableKeySeparator], whose error the callers drop, and
    [sdcfg.GetDbDefaultNamespace]. *)
Variable sep : string -> string -> string.
Variable defaultNs : string.

(** * Translators *)

Definition getVendorPortName (ms : Maps) (port : string) : string :=
  match name2aliasMap ms !! port with Some alias => alias | None => port end.

Definition getSonicPortName (ms : Maps) (port : string) : string :=
  match alias2nameMap ms !! port with Some sonic_name => sonic_name | None => port end.

Definition getPortNamespace (ms : Maps) (port : string) : vres string :=
  match port2namespaceMap ms !! port with Some ns => Ok ns | None => Err (NoNamespace port) end.

Definition v2rEthPortStats (ms : Maps) (paths : list string) : vres (list tablePath) :=
  try key := idx paths KeyIdx in
  try db := idx paths DbIdx in
  try tbl := idx paths TblIdx in
  if has_suffix key "*" then
    mapM_res (fun '(port, oid) =>
      let oport := getVendorPortName ms port in
      try namespace := getPortNamespace ms port in
      let separator := sep db namespace in
      Ok (buildTablePath namespace db tbl oid separator "" "" oport ""))
      (range_of (countersPortNameMap ms))
  else
    let alias := key in
    let name := getSonicPortName ms alias in
    match countersPortNameMap ms !! name with
    | None => Err (NotValid name)
    | Some oid =>
        try namespace := getPortNamespace ms name in
        let separator := sep db namespace in
        Ok [buildTablePath namespace db tbl oid separator "" "" "" ""]
    end.

Definition v2rInterfaceCountersStats (ms : Maps) (paths : list string) : vres (list tablePath) :=
  mapM_res (fun '(port, oid) =>
    try namespace := getPortNamespace ms port in
    try db := idx paths DbIdx in
    let separator := sep db namespace in
    Ok (buildTablePath namespace db "COUNTERS" oid separator "" "" port ""))
    (range_of (countersPortNameMap ms)).

Definition v2rEthPortFieldStats (ms : Maps) (paths : list string) : vres (list tablePath) :=
  try key := idx paths KeyIdx in
  try db := idx paths DbIdx in
  try tbl := idx paths TblIdx in
  if has_suffix key "*" then
    mapM_res (fun '(port, oid) =>
      let oport := getVendorPortName ms port in
      try namespace := getPortNamespace ms port in
      let separator := sep db namespace in
      try fld := idx paths FieldIdx in
      Ok (buildTablePath namespace db tbl oid separator fld "" oport fld))
      (range_of (countersPortNameMap ms))
  else
    let alias := key in
    let name := getSonicPortName ms alias in
    match countersPortNameMap ms !! name with
    | None => Err (NotValid name)
    | Some oid =>
        try namespace := getPortNamespace ms name in
        let separator := sep db namespace in
        try fld := idx paths FieldIdx in
        Ok [buildTablePath namespace db tbl oid separator fld "" "" ""]
    end.

Definition v2rEthPortPfcwdStats (ms : Maps) (paths : list string) : vres (list tablePath) :=
  try key := idx paths KeyIdx in
  try db := idx paths DbIdx in
  try tbl := idx paths TblIdx in
  if has_suffix key "*" then
    try ll := mapM_res (fun '(port, pfcqueues) =>
      try namespace := getPortNamespace ms port in
      let separator := sep db namespace in
      mapM_res (fun '(pfcque, oid) =>
        let names := str_split pfcque separator in
        try n0 := idx names 0 in
        let oname := getVendorPortName ms n0 in
        try n1 := idx names 1 in
        let que := str_join [oname; n1] separator in
        Ok (buildTablePath namespace db tbl oid separator "" "" que ""))
        (range_of pfcqueues))
      (range_of (countersPfcwdNameMap ms)) in
    Ok (concat ll)
  else
    let alias := key in
    let name := getSonicPortName ms alias in
    try namespace := getPortNamespace ms name in
    match countersPortNameMap ms !! name with
    | None => Err (NotValid name)
    | Some _ =>
        let separator := sep db namespace in
        match countersPfcwdNameMap ms !! name with
        | None => Ok []
        | Some pfcqueues =>
            mapM_res (fun '(pfcque, oid) =>
              let names := str_split pfcque separator in
              try n1 := idx names 1 in
              let que := str_join [alias; n1] separator in
              Ok (buildTablePath namespace db tbl oid separator "" "" que ""))
              (range_of pfcqueues)
        end
    end.

(** The two paths of one queue: its counters and its periodic watermark. *)
Definition quePaths (namespace db tbl oid separator que : string) : list tablePath :=
  let field := "SAI_QUEUE_STAT_SHARED_WATERMARK_BYTES" in
  let periodic_que := str_join [que; "periodic"] separator in
  [buildTablePath namespace db tbl oid separator "" "" que "";
   buildTablePath namespace db "PERIODIC_WATERMARKS" oid separator field tbl periodic_que field].

Definition v2rEthPortQueStats (ms : Maps) (paths : list string) : vres (list tablePath) :=
  try db := idx paths DbIdx in
  let separator := sep db "" in
  try key := idx paths KeyIdx in
  try tbl := idx paths TblIdx in
  if has_suffix key "*" then
    try ll := mapM_res (fun '(que, oid) =>
      let names := str_split que separator in
      try n0 := idx names 0 in
      let oname := getVendorPortName ms n0 in
      try namespace := getPortNamespace ms n0 in
      try n1 := idx names 1 in
      let que := str_join [oname; n1] separator in
      Ok (quePaths namespace db tbl oid separator que))
      (range_of (countersQueueNameMap ms)) in
    Ok (concat ll)
  else
    let alias := key in
    let name := getSonicPortName ms alias in
    try namespace := getPortNamespace ms name in
    try ll := mapM_res (fun '(que, oid) =>
      let names := str_split que separator in
      try n0 := idx names 0 in
      if negb (String.eqb name n0) then Ok []
      else
        try n1 := idx names 1 in
        let que := str_join [alias; n1] separator in
        Ok (quePaths namespace db tbl oid separator que))
      (range_of (countersQueueNameMap ms)) in
    Ok (concat ll).

(** The namespace suffix of a fabric port or switch name ([PORT0-asic0]). *)
Definition nameNamespace (port : string) : vres string :=
  if str_contains port "-" then idx (str_split port "-") 1 else Ok "".

(** The common body of [v2rFabricPortStats] and [v2rSwitchPacketIntegrityDrop]. *)
Definition v2rNamespacedStats (m : gmap string string) (paths : list string) : vres (list tablePath) :=
  try key := idx paths KeyIdx in
  try db := idx paths DbIdx in
  try tbl := idx paths TblIdx in
  if has_suffix key "*" then
    mapM_res (fun '(port, oid) =>
      try namespace := nameNamespace port in
      let separator := sep db namespace in
      Ok (buildTablePath namespace db tbl oid separator "" "" port ""))
      (range_of m)
  else
    match m !! key with
    | None => Err (NotValid key)
    | Some oid =>
        try namespace := nameNamespace key in
        let separator := sep db namespace in
        Ok [buildTablePath namespace db tbl oid separator "" "" "" ""]
    end.

Definition v2rFabricPortStats (ms : Maps) (paths : list string) : vres (list tablePath) :=
  v2rNamespacedStats (countersFabricPortNameMap ms) paths.

Definition v2rSwitchPacketIntegrityDrop (ms : Maps) (paths : list string) : vres (list tablePath) :=
  v2rNamespacedStats (countersDebugNameSwitchStatMap ms) paths.

(** The common body of [v2rSRv6SidStats] and [v2rAclRuleStats]; [prefix] is
    ["SID:"] or ["ACL_RULE:"]. *)
Definition v2rPrefixedStats (m : gmap string string) (prefix : string) (paths : list string)
    : vres (list tablePath) :=
  try key := idx paths KeyIdx in
  try db := idx paths DbIdx in
  try tbl := idx paths TblIdx in
  let namespace := defaultNs in
  let separator := sep db namespace in
  if has_suffix key "*" then
    mapM_res (fun '(name, oid) =>
      Ok (buildTablePath namespace db tbl oid separator "" "" name ""))
      (range_of m)
  else if negb (has_prefix key prefix) then Err (BadFormat key)
  else
    let name := strdrop (String.length prefix) key in
    match m !! name with
    | Some oid => Ok [buildTablePath namespace db tbl oid separator "" "" "" ""]
    | None => Err (NotValid name)
    end.

Definition v2rSRv6SidStats (ms : Maps) (paths : list string) : vres (list tablePath) :=
  v2rPrefixedStats (countersSidMap ms) "SID:" paths.

Definition v2rAclRuleStats (ms : Maps) (paths : list string) : vres (list tablePath) :=
  v2rPrefixedStats (countersAclRuleMap ms) "ACL_RULE:" paths.

Definition v2rPortPhyAttrStats (ms : Maps) (paths : list string) : vres (list tablePath) :=
  try key := idx paths KeyIdx in
  try db := idx paths DbIdx in
  try tbl := idx paths TblIdx in
  if has_suffix key "*" then
    mapM_res (fun '(port, oid) =>
      try namespace := getPortNamespace ms port in
      let separator := sep db namespace in
      Ok (buildTablePath namespace db tbl oid separator "" "" port ""))
      (range_of (countersPortNameMap ms))
  else
    match countersPortNameMap ms !! key with
    | None => Err (NotValid key)
    | Some oid =>
        try namespace := getPortNamespace ms key in
        let separator := sep db namespace in
        Ok [buildTablePath namespace db tbl oid separator "" "" "" ""]
    end.

Definition v2rPortPhyAttrFieldStats (ms : Maps) (paths : list string) : vres (list tablePath) :=
  try key := idx paths KeyIdx in
  try db := idx paths DbIdx in
  try tbl := idx paths TblIdx in
  if has_suffix key "*" then
    mapM_res (fun '(port, oid) =>
      try namespace := getPortNamespace ms port in
      let separator := sep db namespace in
      try fld := idx paths FieldIdx in
      Ok (buildTablePath namespace db tbl oid separator fld "" port fld))
      (range_of (countersPortNameMap ms))
  else
    match countersPortNameMap ms !! key with
    | None => Err (NotValid key)
    | Some oid =>
        try namespace := getPortNamespace ms key in
        let separator := sep db namespace in
        try fld := idx paths FieldIdx in
        Ok [buildTablePath namespace db tbl oid separator fld "" "" ""]
    end.

Definition v2rEthPortPGPeriodicWMs (ms : Maps) (paths : list string) : vres (list tablePath) :=
  try db := idx paths DbIdx in
  let separator := sep db "" in
  try key := idx paths KeyIdx in
  try tbl := idx paths TblIdx in
  if has_suffix key "*" then
    try ll := mapM_res (fun '(port, pg_index_to_oid) =>
      let vendor_port := getVendorPortName ms port in
      try namespace := getPortNamespace ms port in
      mapM_res (fun '(pg_index, oid) =>
        let pg := str_join [vendor_port; pg_index] separator in
        Ok (buildTablePath namespace db tbl oid separator "" "" pg ""))
        (range_of pg_index_to_oid))
      (range_of (countersPGNameMap ms)) in
    Ok (concat ll)
  else
    let port := getSonicPortName ms key in
    try namespace := getPortNamespace ms port in
    match countersPGNameMap ms !! port with
    | None => Err (NoPriorityGroups port)
    | Some pg_index_to_oid =>
        mapM_res (fun '(pg_index, oid) =>
          let pg := str_join [key; pg_index] separator in
          Ok (buildTablePath namespace db tbl oid separator "" "" pg ""))
          (range_of pg_index_to_oid)
    end.

(** * The trie of virtual paths *)

Inductive v2rTranslate :=
| EthPortStats | InterfaceCountersStats | EthPortFieldStats | EthPortQueStats
| EthPortPfcwdStats | FabricPortStats | EthPortPGPeriodicWMs | SwitchPacketIntegrityDrop
| SRv6SidStats | AclRuleStats | PortPhyAttrStats | PortPhyAttrFieldStats.

Definition runTranslate (f : v2rTranslate) : Maps -> list string -> vres (list tablePath) :=
  match f with
  | EthPortStats => v2rEthPortStats
  | InterfaceCountersStats => v2rInterfaceCountersStats
  | EthPortFieldStats => v2rEthPortFieldStats
  | EthPortQueStats => v2rEthPortQueStats
  | EthPortPfcwdStats => v2rEthPortPfcwdStats
  | FabricPortStats => v2rFabricPortStats
  | EthPortPGPeriodicWMs => v2rEthPortPGPeriodicWMs
  | SwitchPacketIntegrityDrop => v2rSwitchPacketIntegrityDrop
  | SRv6SidStats => v2rSRv6SidStats
  | AclRuleStats => v2rAclRuleStats
  | PortPhyAttrStats => v2rPortPhyAttrStats
  | PortPhyAttrFieldStats => v2rPortPhyAttrFieldStats
  end.

Definition pathTransFuncTbl : list (list string * v2rTranslate) :=
  [(["COUNTERS_DB"; "COUNTERS"; "Ethernet*"], EthPortStats);
   (["COUNTERS_DB"; "INTERFACE_COUNTERS"], InterfaceCountersStats);
   (["COUNTERS_DB"; "COUNTERS"; "Ethernet*"; "*"], EthPortFieldStats);
   (["COUNTERS_DB"; "COUNTERS"; "Ethernet*"; "Queues"], EthPortQueStats);
   (["COUNTERS_DB"; "COUNTERS"; "Ethernet*"; "Pfcwd"], EthPortPfcwdStats);
   (["COUNTERS_DB"; "COUNTERS"; "PORT*"], FabricPortStats);
   (["COUNTERS_DB"; "PERIODIC_WATERMARKS"; "Ethernet*"; "PriorityGroups"], EthPortPGPeriodicWMs);
   (["COUNTERS_DB"; "RATES"; "Ethernet*"], EthPortStats);
   (["COUNTERS_DB"; "RATES"; "Ethernet*"; "*"], EthPortFieldStats);
   (["COUNTERS_DB"; "COUNTERS"; "SWITCH*"], SwitchPacketIntegrityDrop);
   (["COUNTERS_DB"; "COUNTERS"; "SID*"], SRv6SidStats);
   (["COUNTERS_DB"; "COUNTERS"; "ACL_RULE*"], AclRuleStats);
   (["COUNTERS_DB"; "PORT_PHY_ATTR"; "Ethernet*"], PortPhyAttrStats);
   (["COUNTERS_DB"; "PORT_PHY_ATTR"; "Ethernet*"; "*"], PortPhyAttrFieldStats)].

Definition v2rTriePopulate (t : Trie v2rTranslate) : Trie v2rTranslate :=
  fold_left (fun t '(path, transFunc) => (Add t path transFunc).1) pathTransFuncTbl t.

Definition v2rTrie : Trie v2rTranslate := v2rTriePopulate NewTrie.

Definition lookupV2R (ms : Maps) (paths : list string) : vres (list tablePath) :=
  match Find v2rTrie paths ≫= meta with
  | Some v2rTrans => runTranslate v2rTrans ms paths
  | None => Err (NotInTree paths)
  end.

(** * Loading the maps *)

(** [GetRedisClientsForDb]: the connections of a database by namespace. *)
Variable clients : string -> option (gmap string Redis).

Definition addmap (a b : gmap string string) : gmap string string :=
  fold_left (fun a '(k, v) => <[k := v]> a) (range_of b) a.

Definition GetCountersMap (tableName : string) : vres (gmap string string) :=
  try cm := of_redis (clients "COUNTERS_DB") in
  foldM (fun counter_map '(namespace, redisDb) =>
    try fv := of_redis (HGetAll redisDb tableName) in
    Ok (addmap counter_map fv)) ∅ (range_of cm).

(** [GetFabricCountersMap]; [getSwitchStatMap] has the same body. *)
Definition GetFabricCountersMap (tableName : string) : vres (gmap string string) :=
  try cm := of_redis (clients "COUNTERS_DB") in
  foldM (fun counter_map '(namespace, redisDb) =>
    try fv := of_redis (HGetAll redisDb tableName) in
    let namespace_str := if String.length namespace =? 0 then "" else "-" +:+ namespace in
    let namespaceFv := fold_left (fun m '(k, v) => <[k +:+ namespace_str := v]> m) (range_of fv) ∅ in
    Ok (addmap counter_map namespaceFv)) ∅ (range_of cm).

Definition getSwitchStatMap : string -> vres (gmap string string) := GetFabricCountersMap.

Record AliasMaps := mkAlias {
  a_alias2name : gmap string string;
  a_name2alias : gmap string string;
  a_port2namespace : gmap string string
}.

Definition GetAliasMap : vres AliasMaps :=
  try cm := of_redis (clients "CONFIG_DB") in
  foldM (fun am '(namespace, redisDb) =>
    let separator := sep "CONFIG_DB" namespace in
    try _ := of_redis (Ping redisDb) in
    try resp := of_redis (Keys redisDb ("PORT" +:+ separator +:+ "*")) in
    foldM (fun am key =>
      try alias := of_redis (HGet redisDb key "alias") in
      try name := slice_from 5 key in
      Ok (mkAlias (<[alias := name]> (a_alias2name am)) (<[name := alias]> (a_name2alias am))
            (<[name := namespace]> (a_port2namespace am))))
      am resp)
    (mkAlias ∅ ∅ ∅) (range_of cm).

Definition isGlobal (key : string) : bool := str_contains key "GLOBAL" || str_contains key "global".

(** [GetPfcwdMap]; [inl tt] leaves the namespace loop with the result [nil, nil]. *)
Definition pfcwdNamespace (queueNames : gmap string string)
    (pfcwdName_map : gmap string (gmap string string)) (namespace : string) (redisDb : Redis)
    : vres (unit + gmap string (gmap string string)) :=
  let separator := sep "CONFIG_DB" namespace in
  try _ := of_redis (Ping redisDb) in
  let keyName := "PFC_WD" +:+ separator +:+ "*" in
  try resp := of_redis (Keys redisDb keyName) in
  match resp with
  | [] => Ok (inl tt)
  | _ =>
      try pm := foldM (fun m key =>
        if isGlobal key then Ok m
        else try name := slice_from (String.length keyName - 1) key in Ok (<[name := ∅]> m))
        pfcwdName_map resp in
      try resp := of_redis (Keys redisDb "PORT_QOS_MAP*") in
      match resp with
      | [] => Ok (inl tt)
      | _ =>
          let qos_key := default "" (head (base.filter (fun k => isGlobal k = false) resp)) in
          try priorities := of_redis (HGet redisDb qos_key "pfc_enable") in
          try pfc_queue_map := of_redis (HGetAll redisDb ("MAP_PFC_PRIORITY_TO_QUEUE" +:+ separator +:+ "AZURE")) in
          let indices := omap (fun p => pfc_queue_map !! p) (str_split priorities ",") in
          if base.size queueNames =? 0 then Ok (inl tt)
          else
            let queue_separator := sep "COUNTERS_DB" namespace in
            try pm := foldM (fun m '(port, _) =>
              foldM (fun m indice =>
                let queue_key := port +:+ queue_separator +:+ indice in
                match queueNames !! queue_key with
                | None => Err (MissingQueue queue_key)
                | Some oid => Ok (<[port := <[queue_key := oid]> (default ∅ (m !! port))]> m)
                end) m indices) pm (range_of pm) in
            Ok (inr pm)
      end
  end.

Fixpoint pfcwdLoop (queueNames : gmap string string) (m : gmap string (gmap string string))
    (cs : list (string * Redis)) : vres (gmap string (gmap string string)) :=
  match cs with
  | [] => Ok m
  | (namespace, redisDb) :: cs =>
      try r := pfcwdNamespace queueNames m namespace redisDb in
      match r with
      | inl _ => Ok ∅
      | inr m => pfcwdLoop queueNames m cs
      end
  end.

Definition GetPfcwdMap (queueNames : gmap string string) : vres (gmap string (gmap string string)) :=
  try cm := of_redis (clients "CONFIG_DB") in
  pfcwdLoop queueNames ∅ (range_of cm).

(** * The once-only initialisation *)

Inductive OnceGuard :=
| PortNameOnce | QueueNameOnce | PGNameOnce | SidOnce | AclRuleOnce | AliasOnce | PfcwdOnce | FabricOnce.

#[global] Instance OnceGuard_eq_dec : EqDecision OnceGuard.
Proof. solve_decision. Defined.

Record State := mkState { maps : Maps; fired : list OnceGuard }.

(** [sync.Once.Do]: the guard is consumed whether or not the body failed. *)
Definition once (g : OnceGuard) (body : Maps -> Maps * option v2r_error) (s : State)
    : State * option v2r_error :=
  if bool_decide (g ∈ fired s) then (s, None)
  else let '(ms, err) := body (maps s) in (mkState ms (g :: fired s), err).

(** An assignment [m, err = f()]: a failed call leaves the nil map. *)
Definition assigned {A} (dflt : A) (r : vres A) : A * option v2r_error :=
  match r with Ok a => (a, None) | Err e => (dflt, Some e) end.

Definition initCountersQueueNameMap : State -> State * option v2r_error :=
  once QueueNameOnce (fun ms =>
    let '(m, err) := assigned ∅ (GetCountersMap "COUNTERS_QUEUE_NAME_MAP") in
    (mkMaps (countersPortNameMap ms) m (countersSidMap ms) (countersAclRuleMap ms) (countersPGNameMap ms)
       (alias2nameMap ms) (name2aliasMap ms) (port2namespaceMap ms) (countersPfcwdNameMap ms)
       (countersFabricPortNameMap ms) (countersDebugNameSwitchStatMap ms), err)).

(** The loop over the priority groups; a malformed name stops it half way. *)
Fixpoint pgLoop (m : gmap string (gmap string string)) (l : list (string * string))
    : gmap string (gmap string string) * option v2r_error :=
  match l with
  | [] => (m, None)
  | (pg, oid) :: l =>
      match str_split pg ":" with
      | [port; i] => pgLoop (<[port := <[i := oid]> (default ∅ (m !! port))]> m) l
      | _ => (m, Some (InvalidPg pg))
      end
  end.

Definition initCountersPGNameMap : State -> State * option v2r_error :=
  once PGNameOnce (fun ms =>
    match GetCountersMap "COUNTERS_PG_NAME_MAP" with
    | Err e => (ms, Some e)
    | Ok pgOidMap =>
        let '(m, err) := pgLoop (countersPGNameMap ms) (range_of pgOidMap) in
        (mkMaps (countersPortNameMap ms) (countersQueueNameMap ms) (countersSidMap ms) (countersAclRuleMap ms) m
           (alias2nameMap ms) (name2aliasMap ms) (port2namespaceMap ms) (countersPfcwdNameMap ms)
           (countersFabricPortNameMap ms) (countersDebugNameSwitchStatMap ms), err)
    end).

Definition initCountersPortNameMap : State -> State * option v2r_error :=
  once PortNameOnce (fun ms =>
    let '(m, err) := assigned ∅ (GetCountersMap "COUNTERS_PORT_NAME_MAP") in
    (mkMaps m (countersQueueNameMap ms) (countersSidMap ms) (countersAclRuleMap ms) (countersPGNameMap ms)
       (alias2nameMap ms) (name2aliasMap ms) (port2namespaceMap ms) (countersPfcwdNameMap ms)
       (countersFabricPortNameMap ms) (countersDebugNameSwitchStatMap ms), err)).

Definition initCountersSidMap : State -> State * option v2r_error :=
  once SidOnce (fun ms =>
    let '(m, err) := assigned ∅ (GetCountersMap "COUNTERS_SRV6_NAME_MAP") in
    (mkMaps (countersPortNameMap ms) (countersQueueNameMap ms) m (countersAclRuleMap ms) (countersPGNameMap ms)
       (alias2nameMap ms) (name2aliasMap ms) (port2namespaceMap ms) (countersPfcwdNameMap ms)
       (countersFabricPortNameMap ms) (countersDebugNameSwitchStatMap ms), err)).

Definition initCountersAclRuleMap : State -> State * option v2r_error :=
  once AclRuleOnce (fun ms =>
    let '(m, err) := assigned ∅ (GetCountersMap "ACL_COUNTER_RULE_MAP") in
    (mkMaps (countersPortNameMap ms) (countersQueueNameMap ms) (countersSidMap ms) m (countersPGNameMap ms)
       (alias2nameMap ms) (name2aliasMap ms) (port2namespaceMap ms) (countersPfcwdNameMap ms)
       (countersFabricPortNameMap ms) (countersDebugNameSwitchStatMap ms), err)).

Definition initAliasMap : State -> State * option v2r_error :=
  once AliasOnce (fun ms =>
    let '(am, err) := assigned (mkAlias ∅ ∅ ∅) GetAliasMap in
    (mkMaps (countersPortNameMap ms) (countersQueueNameMap ms) (countersSidMap ms) (countersAclRuleMap ms)
       (countersPGNameMap ms) (a_alias2name am) (a_name2alias am) (a_port2namespace am)
       (countersPfcwdNameMap ms) (countersFabricPortNameMap ms) (countersDebugNameSwitchStatMap ms), err)).

Definition initCountersPfcwdNameMap : State -> State * option v2r_error :=
  once PfcwdOnce (fun ms =>
    let '(m, err) := assigned ∅ (GetPfcwdMap (countersQueueNameMap ms)) in
    (mkMaps (countersPortNameMap ms) (countersQueueNameMap ms) (countersSidMap ms) (countersAclRuleMap ms)
       (countersPGNameMap ms) (alias2nameMap ms) (name2aliasMap ms) (port2namespaceMap ms) m
       (countersFabricPortNameMap ms) (countersDebugNameSwitchStatMap ms), err)).

Definition initCountersFabricPortNameMap : State -> State * option v2r_error :=
  once FabricOnce (fun ms =>
    let '(m, err) := assigned ∅ (GetFabricCountersMap "COUNTERS_FABRIC_PORT_NAME_MAP") in
    (mkMaps (countersPortNameMap ms) (countersQueueNameMap ms) (countersSidMap ms) (countersAclRuleMap ms)
       (countersPGNameMap ms) (alias2nameMap ms) (name2aliasMap ms) (port2namespaceMap ms)
       (countersPfcwdNameMap ms) m (countersDebugNameSwitchStatMap ms), err)).

(** [initDebugNameSwitchStatMap] has no guard; [unitTest] is the test of the
    environment variable. *)
Definition initDebugNameSwitchStatMap (unitTest : bool) (s : State) : State * option v2r_error :=
  let ms := maps s in
  if (base.size (countersDebugNameSwitchStatMap ms) =? 0) || unitTest then
    let '(m, err) := assigned ∅ (getSwitchStatMap "COUNTERS_DEBUG_NAME_SWITCH_STAT_MAP") in
    (mkState (mkMaps (countersPortNameMap ms) (countersQueueNameMap ms) (countersSidMap ms)
       (countersAclRuleMap ms) (countersPGNameMap ms) (alias2nameMap ms) (name2aliasMap ms)
       (port2namespaceMap ms) (countersPfcwdNameMap ms) (countersFabricPortNameMap ms) m) (fired s), err)
  else (s, None).

Definition AliasToPortNameMap (s : State) : State * gmap string string :=
  let '(s, _) := initAliasMap s in
  (s, fold_left (fun m '(alias, portName) => <[alias := portName]> m) (range_of (alias2nameMap (maps s))) ∅).

Definition ClearMappings (unitTest : bool) (s : State) : State :=
  if negb unitTest then s
  else
    let ms := maps s in
    mkState (mkMaps ∅ ∅ (countersSidMap ms) ∅ (countersPGNameMap ms) ∅ (name2aliasMap ms)
      (port2namespaceMap ms) (countersPfcwdNameMap ms) ∅ (countersDebugNameSwitchStatMap ms)) [].

End VirtualDb.
End VirtualDb.
