(* ===== verification/VirtualDbProofs.v ===== *)
(** Properties of the virtual database: which translator a virtual path reaches,
    absence of panics, agreement of wildcard and single-port lookups, independence
    of map iteration order, and the once-only initialisation. *)

From S2P Require Import Prelude DbTypes Trie VirtualDb.
Import Trie VirtualDb.

(** * Dispatch *)

(** The translator for a virtual path, read off the table of the source: a listed
    last component wins over the wildcard one. *)
Definition dispatch (paths : list string) : option v2rTranslate :=
  match paths with
  | [db; tbl] =>
      if String.eqb db "COUNTERS_DB" && String.eqb tbl "INTERFACE_COUNTERS"
      then Some InterfaceCountersStats else None
  | [db; tbl; key] =>
      if negb (String.eqb db "COUNTERS_DB") then None
      else if String.eqb tbl "COUNTERS" then
        if has_prefix key "Ethernet" then Some EthPortStats
        else if has_prefix key "PORT" then Some FabricPortStats
        else if has_prefix key "SWITCH" then Some SwitchPacketIntegrityDrop
        else if has_prefix key "SID" then Some SRv6SidStats
        else if has_prefix key "ACL_RULE" then Some AclRuleStats
        else None
      else if has_prefix key "Ethernet" then
        if String.eqb tbl "RATES" then Some EthPortStats
        else if String.eqb tbl "PORT_PHY_ATTR" then Some PortPhyAttrStats
        else None
      else None
  | [db; tbl; key; fld] =>
      if negb (String.eqb db "COUNTERS_DB" && has_prefix key "Ethernet") then None
      else if String.eqb tbl "PERIODIC_WATERMARKS" then
        if String.eqb fld "PriorityGroups" then Some EthPortPGPeriodicWMs else None
      else if String.eqb fld "" then None
      else if String.eqb tbl "COUNTERS" then
        if String.eqb fld "Queues" then Some EthPortQueStats
        else if String.eqb fld "Pfcwd" then Some EthPortPfcwdStats
        else Some EthPortFieldStats
      else if String.eqb tbl "RATES" then Some EthPortFieldStats
      else if String.eqb tbl "PORT_PHY_ATTR" then Some PortPhyAttrFieldStats
      else None
  | _ => None
  end.

Lemma v2rTrie_ok : trieOk v2rTrie = true.
Proof. vm_compute. reflexivity. Qed.

Definition v2rTree : ttree v2rTranslate := Eval vm_compute in toTree 6 (heap v2rTrie) (root v2rTrie).

Lemma v2rTree_eq : toTree 6 (heap v2rTrie) (root v2rTrie) = v2rTree.
Proof. vm_compute. reflexivity. Qed.

(** Case analysis on one string test of the goal. *)
Ltac case_string :=
  match goal with
  | |- context [String.eqb ?x ?y] => is_var x; destruct (String.eqb_spec x y); [subst x|]
  | |- context [has_prefix ?x ?p] => is_var x; destruct (has_prefix x p) eqn:?
  | |- context [String.eqb ?x ?y] => let b := eval vm_compute in (String.eqb x y) in change (String.eqb x y) with b
  | |- context [has_prefix ?x ?y] => let b := eval vm_compute in (has_prefix x y) in change (has_prefix x y) with b
  end.

Ltac prefix_clash :=
  match goal with
  | H : ?x <> ?x |- _ => destruct (H eq_refl)
  | H1 : has_prefix ?k ?p = true, H2 : has_prefix ?k ?q = true |- _ =>
      let H := fresh in destruct (has_prefix_total k p q H1 H2) as [H|H]; vm_compute in H; discriminate H
  end.

Ltac solve_tree :=
  repeat (first [reflexivity | prefix_clash | case_string];
          cbn [tnode tchild texact twild there dispatch andb negb strtake String.length Nat.sub mbind option_bind]).

Lemma tnode_dispatch paths :
  length paths <= 5 -> tnode v2rTree paths ≫= there = dispatch paths.
Proof.
  intros Hl. unfold v2rTree.
  destruct paths as [|a [|b [|c [|d [|e [|? ?]]]]]]; [..|simpl in Hl; lia];
    cbn [tnode tchild texact twild there dispatch strtake String.length Nat.sub mbind option_bind]; solve_tree.
Qed.

Lemma tnode_deep paths : length paths = 6 -> tnode v2rTree paths = None.
Proof.
  intros Hl. unfold v2rTree.
  destruct paths as [|a [|b [|c [|d [|e [|f [|? ?]]]]]]]; try (simpl in Hl; lia);
    cbn [tnode tchild texact twild there dispatch strtake String.length Nat.sub mbind option_bind]; solve_tree.
Qed.

(** The trie dispatches as the table says, for every iteration order. *)
Lemma v2rTrie_dispatch (r : MapRange) paths : Find v2rTrie paths ≫= meta = dispatch paths.
Proof.
  rewrite (Find_order_independent r map_range_default);
    [|intros n nd key Hn _; by apply (trieOk_unambiguous v2rTrie n nd key v2rTrie_ok)].
  unfold Find. destruct (decide (length paths <= 5)) as [Hl|Hl].
  - destruct (toTree_find 6 (heap v2rTrie) (root v2rTrie) paths) as [_ H]; [lia|].
    rewrite H, v2rTree_eq. by apply tnode_dispatch.
  - rewrite <- (take_drop 6 paths), findNode_app.
    assert (length (take 6 paths) = 6) as H6 by (rewrite length_take; lia).
    destruct (toTree_find 6 (heap v2rTrie) (root v2rTrie) (take 6 paths)) as [H _]; [lia|].
    rewrite H, v2rTree_eq, tnode_deep by done. simpl.
    destruct paths as [|? [|? [|? [|? [|? ?]]]]]; simpl in Hl; try lia. done.
Qed.

(** Every virtual path reaches exactly the translator that the table lists for
    it, a literal last component (Queues, Pfcwd) before the wildcard one, whatever
    order the wildcard maps of the trie are visited in; every other path is
    reported as not found. *)
Theorem lookupV2R_dispatch (r : MapRange) sep defaultNs ms paths :
  lookupV2R sep defaultNs ms paths =
    match dispatch paths with
    | Some f => runTranslate sep defaultNs f ms paths
    | None => Err (NotInTree paths)
    end.
Proof. unfold lookupV2R. by rewrite (v2rTrie_dispatch r). Qed.

(** * Iteration order *)

Section Order.
Variables (r1 r2 : MapRange) (sep : string -> string -> string) (defaultNs : string) (ms : Maps).

(** Both runs succeed, with the same paths in some order. *)
Definition sameUpToOrder (x y : vres (list tablePath)) : Prop :=
  forall l1, x = Ok l1 -> exists l2, y = Ok l2 /\ l1 ≡ₚ l2.

Lemma range_perm {V} (m : gmap string V) : @range_of r1 V m ≡ₚ @range_of r2 V m.
Proof. by rewrite !range_of_perm. Qed.

Lemma same_refl x : sameUpToOrder x x.
Proof. intros l1 ->. by exists l1. Qed.

Lemma same_mapM {V} (f : string * V -> vres tablePath) (m : gmap string V) :
  sameUpToOrder (mapM_res f (@range_of r1 V m)) (mapM_res f (@range_of r2 V m)).
Proof. intros l1. apply mapM_res_perm, range_perm. Qed.

Lemma same_concat {V} (f g : string * V -> vres (list tablePath)) (m : gmap string V) :
  (forall x, sameUpToOrder (f x) (g x)) ->
  sameUpToOrder (match mapM_res f (@range_of r1 V m) with Ok ll => Ok (concat ll) | Err e => Err e end)
                (match mapM_res g (@range_of r2 V m) with Ok ll => Ok (concat ll) | Err e => Err e end).
Proof.
  intros Hfg l1 H. destruct (mapM_res f _) as [ll1|] eqn:E1; [|done]. injection H as <-.
  destruct (mapM_res_impl (≡ₚ) f g (@range_of r1 V m) ll1 (fun x b _ => Hfg x b) E1) as (ll2 & E2 & HF).
  destruct (mapM_res_perm g _ _ ll2 (range_perm m) E2) as (ll3 & -> & Hp).
  eexists. split; [done|]. rewrite (concat_Forall2_perm _ _ HF). by apply concat_perm.
Qed.

Lemma same_bind {A} (x : vres A) (f g : A -> vres (list tablePath)) :
  (forall a, sameUpToOrder (f a) (g a)) ->
  sameUpToOrder (match x with Ok a => f a | Err e => Err e end)
                (match x with Ok a => g a | Err e => Err e end).
Proof. intros H. destruct x; [apply H|done]. Qed.

Lemma same_if (b : bool) x1 x2 y1 y2 :
  sameUpToOrder x1 y1 -> sameUpToOrder x2 y2 ->
  sameUpToOrder (if b then x1 else x2) (if b then y1 else y2).
Proof. by destruct b. Qed.

Lemma same_opt {A} (o : option A) x y (f g : A -> vres (list tablePath)) :
  sameUpToOrder x y -> (forall a, sameUpToOrder (f a) (g a)) ->
  sameUpToOrder (match o with Some a => f a | None => x end) (match o with Some a => g a | None => y end).
Proof. destruct o; naive_solver. Qed.

Hint Resolve same_refl same_mapM : gnmi.

Lemma translate_order f paths :
  sameUpToOrder (@runTranslate r1 sep defaultNs f ms paths) (@runTranslate r2 sep defaultNs f ms paths).
Proof.
  destruct f; cbn [runTranslate]; unfold v2rEthPortStats, v2rInterfaceCountersStats, v2rEthPortFieldStats,
    v2rEthPortQueStats, v2rEthPortPfcwdStats, v2rFabricPortStats, v2rEthPortPGPeriodicWMs,
    v2rSwitchPacketIntegrityDrop, v2rSRv6SidStats, v2rAclRuleStats, v2rPortPhyAttrStats,
    v2rPortPhyAttrFieldStats, v2rNamespacedStats, v2rPrefixedStats; cbv zeta;
    repeat first [ apply same_refl | apply same_mapM | apply same_concat | apply same_if
                 | apply same_opt | apply same_bind | intros []
                 | intros ? ].
Qed.
End Order.

(** The translation of a virtual path does not depend on the iteration order of
    the Go maps: if it succeeds for one order it succeeds for every other one, with
    the same table paths up to their order. *)
Theorem lookupV2R_order (r1 r2 : MapRange) sep defaultNs ms paths l1 :
  @lookupV2R r1 sep defaultNs ms paths = Ok l1 ->
  sameUpToOrder (Ok l1) (@lookupV2R r2 sep defaultNs ms paths).
Proof.
  intros H1 l1' [= <-]. revert H1. unfold lookupV2R. rewrite (v2rTrie_dispatch r1), (v2rTrie_dispatch r2).
  destruct (dispatch paths) as [f|]; [|done]. apply translate_order.
Qed.

(** * Absence of panics *)

(** What the code assumes of the names read from Redis: a queue name has an index
    after the separator. *)
Record wfMaps (sep : string -> string -> string) (ms : Maps) : Prop := {
  wf_queues : forall q oid, countersQueueNameMap ms !! q = Some oid ->
    2 <= length (str_split q (sep "COUNTERS_DB" ""));
  wf_pfcwd : forall port m q oid ns, countersPfcwdNameMap ms !! port = Some m -> m !! q = Some oid ->
    port2namespaceMap ms !! port = Some ns -> 2 <= length (str_split q (sep "COUNTERS_DB" ns))
}.

Lemma idx_ok l i : i < length l -> exists x, idx l i = Ok x.
Proof. intros H. unfold idx. destruct (lookup_lt_is_Some_2 l i H) as [x ->]. eauto. Qed.

Lemma nameNamespace_ok port : exists ns, nameNamespace port = Ok ns.
Proof.
  unfold nameNamespace. destruct (str_contains port "-") eqn:E; [|eauto].
  apply idx_ok. pose proof (split_contains _ _ E). lia.
Qed.

Definition safe {A} (x : vres A) : Prop := x <> Err Panic.

Lemma safe_mapM {A B} (f : A -> vres B) l : (forall x, x ∈ l -> safe (f x)) -> safe (mapM_res f l).
Proof. intros H E. apply mapM_res_Err in E as (a & Ha & E). by apply (H a Ha). Qed.

Lemma safe_concat {A B} (f : A -> vres (list B)) l :
  (forall x, x ∈ l -> safe (f x)) ->
  safe (match mapM_res f l with Ok ll => Ok (concat ll) | Err e => Err e end).
Proof.
  intros H. pose proof (safe_mapM f l H) as Hs. unfold safe in *. destruct (mapM_res f l); [done|].
  intros [= ->]. done.
Qed.

Section NoPanic.
Context `{!MapRange}.
Variables (sep : string -> string -> string) (defaultNs : string) (ms : Maps).
Hypothesis Hms : wfMaps sep ms.

Ltac step :=
  match goal with
  | |- safe (mapM_res _ _) => apply safe_mapM; intros [? ?] ?%elem_of_range
  | |- safe (match mapM_res _ _ with _ => _ end) => apply safe_concat; intros [? ?] ?%elem_of_range
  | |- safe (match getPortNamespace ?m ?p with _ => _ end) =>
      unfold getPortNamespace at 1; destruct (port2namespaceMap m !! p) eqn:?; [|done]
  | |- safe (match nameNamespace ?p with _ => _ end) =>
      let ns := fresh "ns" in let Hn := fresh "Hn" in destruct (nameNamespace_ok p) as [ns Hn]; rewrite Hn
  | |- safe (match idx (?a :: ?l) ?i with _ => _ end) => cbn [idx lookup list_lookup DbIdx TblIdx KeyIdx FieldIdx]
  | |- safe (match ?m !! ?k with _ => _ end) => destruct (m !! k) eqn:?; [|done]
  | |- safe (if ?b then _ else _) => destruct b eqn:?
  end; try done.

(** One queue name. *)
Lemma idx_split q s : 2 <= length (str_split q s) ->
  exists n0 n1, idx (str_split q s) 0 = Ok n0 /\ idx (str_split q s) 1 = Ok n1.
Proof.
  intros Hl. destruct (idx_ok (str_split q s) 0) as [n0 ?]; [lia|].
  destruct (idx_ok (str_split q s) 1) as [n1 ?]; [lia|]. eauto.
Qed.

Lemma que_safe tbl key rest : safe (v2rEthPortQueStats sep ms ("COUNTERS_DB" :: tbl :: key :: rest)).
Proof.
  unfold v2rEthPortQueStats. repeat step.
  - match goal with H : countersQueueNameMap ms !! ?q = Some _ |- _ => destruct (idx_split q _ (wf_queues _ _ Hms _ _ H)) as (n0 & n1 & -> & ->) end.
    by repeat step.
  - match goal with H : countersQueueNameMap ms !! ?q = Some _ |- _ => destruct (idx_split q _ (wf_queues _ _ Hms _ _ H)) as (n0 & n1 & -> & ->) end.
    by repeat step.
Qed.

Lemma pfcwd_safe tbl key rest : safe (v2rEthPortPfcwdStats sep ms ("COUNTERS_DB" :: tbl :: key :: rest)).
Proof.
  unfold v2rEthPortPfcwdStats. repeat step;
    match goal with
    | H1 : countersPfcwdNameMap ms !! _ = Some ?m, H2 : ?m !! ?q = Some _, H3 : port2namespaceMap ms !! _ = Some _ |- _ =>
        destruct (idx_split q _ (wf_pfcwd _ _ Hms _ _ _ _ _ H1 H2 H3)) as (n0 & n1 & ? & ->)
    end; try done.
  by match goal with H : idx _ 0 = Ok _ |- _ => rewrite H end.
Qed.

(** The least number of path components a translator reads. *)
Definition arity (f : v2rTranslate) : nat :=
  match f with
  | InterfaceCountersStats => 2
  | EthPortFieldStats | PortPhyAttrFieldStats => 4
  | _ => 3
  end.

Lemma dispatch_shape paths f :
  dispatch paths = Some f -> exists tbl rest, paths = "COUNTERS_DB" :: tbl :: rest /\ arity f <= length paths.
Proof.
  destruct paths as [|db [|tbl [|key [|fld [|? ?]]]]]; try done; unfold dispatch;
    (destruct (String.eqb_spec db "COUNTERS_DB") as [->|]; [|done]); cbn [andb negb]; intros Hd;
    repeat case_hyp Hd; do 2 eexists; split; try done; simpl; lia.
Qed.

Lemma translate_safe f tbl rest :
  arity f <= S (S (length rest)) -> safe (runTranslate sep defaultNs f ms ("COUNTERS_DB" :: tbl :: rest)).
Proof.
  intros Ha. destruct f; cbn [runTranslate arity] in *;
    try (destruct rest as [|key rest]; [simpl in Ha; lia|]);
    try (destruct rest as [|fld rest]; [simpl in Ha; lia|]);
    try apply que_safe; try apply pfcwd_safe;
    unfold v2rEthPortStats, v2rInterfaceCountersStats, v2rEthPortFieldStats, v2rFabricPortStats,
      v2rEthPortPGPeriodicWMs, v2rSwitchPacketIntegrityDrop, v2rSRv6SidStats, v2rAclRuleStats,
      v2rPortPhyAttrStats, v2rPortPhyAttrFieldStats, v2rNamespacedStats, v2rPrefixedStats; repeat step.
Qed.

(** When the queue names loaded from Redis have the form name, separator, index,
    no virtual path, however malformed, makes the translation panic. *)
Theorem lookupV2R_no_panic paths : safe (lookupV2R sep defaultNs ms paths).
Proof.
  unfold lookupV2R. rewrite v2rTrie_dispatch. destruct (dispatch paths) as [f|] eqn:Ed; [|done].
  destruct (dispatch_shape _ _ Ed) as (tbl & rest & -> & Ha). by apply translate_safe.
Qed.
End NoPanic.

(** * Aliases, wildcards and single ports *)

(** The entry without the name it has in a wildcard answer. *)
Definition unnamed (tp : tablePath) : tablePath :=
  buildTablePath (dbNamespace tp) (dbName tp) (tableName tp) (tableKey tp) (delimitor tp) (field tp) "" "" "".

(** The vendor alias of a port leads back to the port. *)
Definition aliasInverse (ms : Maps) : Prop :=
  forall port oid, countersPortNameMap ms !! port = Some oid ->
    getSonicPortName ms (getVendorPortName ms port) = port.

(** The answer for all ports lists every port of the counter map exactly once, in
    the order of the iteration, under its vendor alias, and each entry is the one that
    a query for that alias alone returns. *)
Theorem wildcard_agrees_with_single (r : MapRange) sep ms db tbl key l :
  aliasInverse ms -> has_suffix key "*" = true ->
  v2rEthPortStats sep ms [db; tbl; key] = Ok l ->
  Forall2 (fun '(port, oid) tp =>
    jsonTableKey tp = getVendorPortName ms port /\ tableKey tp = oid /\
    (has_suffix (getVendorPortName ms port) "*" = false ->
     v2rEthPortStats sep ms [db; tbl; getVendorPortName ms port] = Ok [unnamed tp]))
    (range_of (countersPortNameMap ms)) l.
Proof.
  intros Ha Hs. unfold v2rEthPortStats at 1. cbn [idx lookup list_lookup DbIdx TblIdx KeyIdx]. rewrite Hs.
  intros H%mapM_res_Ok. eapply Forall2_impl_in; [done|]. intros [port oid] tp Hin%elem_of_range.
  unfold getPortNamespace. destruct (port2namespaceMap ms !! port) as [ns|] eqn:En; [|done]. intros [= <-].
  split_and!; [done..|]. intros Hn. unfold v2rEthPortStats. cbn [idx lookup list_lookup DbIdx TblIdx KeyIdx].
  rewrite Hn, (Ha port oid Hin), Hin. unfold getPortNamespace. by rewrite En.
Qed.

(** The [PORT] entries of CONFIG_DB: a port name, its alias and its namespace. *)
Definition portEntry (sep : string -> string -> string) (clients : string -> option (gmap string Redis))
    (name alias ns : string) : Prop :=
  exists cm rd resp key, clients "CONFIG_DB" = Some cm /\ cm !! ns = Some rd /\
    Keys rd ("PORT" +:+ sep "CONFIG_DB" ns +:+ "*") = Some resp /\ key ∈ resp /\
    HGet rd key "alias" = Some alias /\ name = strdrop 5 key.

(** Port names and aliases determine each other. *)
Definition aliasUnique sep clients : Prop :=
  forall n1 a1 s1 n2 a2 s2, portEntry sep clients n1 a1 s1 -> portEntry sep clients n2 a2 s2 ->
    (a1 = a2 <-> n1 = n2).

Definition aliasInv sep clients (am : AliasMaps) : Prop :=
  (forall n a, a_name2alias am !! n = Some a ->
     a_alias2name am !! a = Some n /\ exists ns, a_port2namespace am !! n = Some ns /\ portEntry sep clients n a ns) /\
  (forall n a, a_alias2name am !! a = Some n -> a_name2alias am !! n = Some a) /\
  (forall n ns, a_port2namespace am !! n = Some ns -> is_Some (a_name2alias am !! n)).

Lemma aliasInv_step sep clients am name alias ns :
  aliasUnique sep clients -> aliasInv sep clients am -> portEntry sep clients name alias ns ->
  aliasInv sep clients (mkAlias (<[alias := name]> (a_alias2name am)) (<[name := alias]> (a_name2alias am))
    (<[name := ns]> (a_port2namespace am))).
Proof.
  intros Hu (I1 & I2 & I3) He. split_and!; simpl.
  - intros n a H. destruct (decide (n = name)) as [->|Hn].
    + rewrite lookup_insert_eq in H. injection H as <-. rewrite !lookup_insert_eq. eauto.
    + rewrite lookup_insert_ne in H by done. destruct (I1 n a H) as (Ha & ns' & Hp & Hpe).
      destruct (Hu _ _ _ _ _ _ He Hpe) as [Hu1 _]. rewrite !lookup_insert_ne by naive_solver. eauto.
  - intros n a H. destruct (decide (a = alias)) as [->|Ha].
    + rewrite lookup_insert_eq in H. injection H as <-. by rewrite lookup_insert_eq.
    + rewrite lookup_insert_ne in H by done. destruct (I1 n a (I2 n a H)) as (_ & ns' & _ & Hpe).
      destruct (Hu _ _ _ _ _ _ He Hpe) as [_ Hu2]. rewrite lookup_insert_ne by naive_solver. by apply I2.
  - intros n ns' H. destruct (decide (n = name)) as [->|Hn]; [rewrite lookup_insert_eq; eauto|].
    rewrite lookup_insert_ne in H |- * by done. eauto.
Qed.

(** When port names and aliases determine each other in CONFIG_DB, the maps that
    [GetAliasMap] builds, over all namespaces and in any order, are inverse to each
    other, every port with an alias has a namespace, and both come from its entry. *)
Theorem getAliasMap_inverse (r : MapRange) sep clients am :
  aliasUnique sep clients -> GetAliasMap sep clients = Ok am ->
  (forall n a, a_name2alias am !! n = Some a <-> a_alias2name am !! a = Some n) /\
  (forall n a, a_name2alias am !! n = Some a ->
     exists ns, a_port2namespace am !! n = Some ns /\ portEntry sep clients n a ns).
Proof.
  intros Hu H. assert (aliasInv sep clients am) as (I1 & I2 & I3).
  { unfold GetAliasMap in H. destruct (clients "CONFIG_DB") as [cm|] eqn:Ecm; [|done]. simpl in H.
    apply (foldM_inv_in (aliasInv sep clients)) in H; [done| |split_and!; intros ??; simpl; by rewrite lookup_empty].
    intros am1 [ns rd] am2 Hin%elem_of_range HI. destruct (Ping rd); [|done]. simpl.
    destruct (Keys rd _) as [resp|] eqn:Ek; [|done]. simpl.
    apply (foldM_inv_in (aliasInv sep clients)); [|done]. intros am3 key am4 Hkey HI3.
    destruct (HGet rd key "alias") as [alias|] eqn:Eh; [|done]. simpl. unfold slice_from.
    destruct (_ <? _); [done|]. intros [= <-]. apply aliasInv_step; [done..|]. by exists cm, rd, resp, key. }
  split; [|intros n a Hn; apply (I1 n a Hn)]. intros n a. split; [intros Hn; apply (I1 n a Hn)|].
  apply I2.
Qed.

(** * The once-only initialisation *)

(** What a query for port counters answers when no port is known. *)
Definition noPortsAnswer (ms : Maps) (key : string) : vres (list tablePath) :=
  if has_suffix key "*" then Ok [] else Err (NotValid (getSonicPortName ms key)).

(** A counter map whose first load fails is never loaded: the failure is reported
    once, every later initialisation reports success without reading Redis, whatever
    the connections are by then, and from then on all-port queries silently answer
    with no ports while single-port queries are refused. *)
Theorem failed_init_is_final (r : MapRange) sep clients clients' s s' e db tbl key :
  initCountersPortNameMap clients s = (s', Some e) ->
  initCountersPortNameMap clients' s' = (s', None) /\
  countersPortNameMap (maps s') = ∅ /\
  v2rEthPortStats sep (maps s') [db; tbl; key] = noPortsAnswer (maps s') key.
Proof.
  unfold initCountersPortNameMap, once. case_bool_decide as Hf; [done|]. unfold assigned.
  destruct (GetCountersMap clients _) as [m|e'] eqn:Eg; [done|]. intros [= <- <-]. cbn [fired maps].
  rewrite bool_decide_true by left. split_and!; [done..|]. unfold v2rEthPortStats, noPortsAnswer.
  cbn [idx lookup list_lookup DbIdx TblIdx KeyIdx countersPortNameMap maps].
  destruct (has_suffix key "*").
  - pose proof (range_of_perm (∅ : gmap string string)) as Hp. rewrite map_to_list_empty in Hp.
    apply Permutation_nil_r in Hp. by rewrite Hp.
  - by rewrite lookup_empty.
Qed.

(** * Witnesses *)

Definition demo_maps : Maps :=
  mkMaps {["Ethernet0" := "oid:1"; "Ethernet4" := "oid:2"]} {["Ethernet0:3" := "oid:9"]} ∅ ∅ ∅
    {["etp1" := "Ethernet0"]} {["Ethernet0" := "etp1"]} {["Ethernet0" := ""; "Ethernet4" := ""]} ∅ ∅ ∅.

Definition demo_sep (db ns : string) : string := ":".

Definition demo_redis : Redis :=
  mkRedis (Some tt) (fun _ => Some ["PORT|Ethernet0"]) (fun _ => None) (fun _ _ => None) (fun _ _ => Ok "etp1") (fun _ => None).

Definition demo_clients (db : string) : option (gmap string Redis) := Some {["" := demo_redis]}.

Lemma lookupV2R_order_witness :
  exists l1, @lookupV2R map_range_default demo_sep "" demo_maps ["COUNTERS_DB"; "COUNTERS"; "Ethernet*"] = Ok l1 /\
  exists l2, @lookupV2R map_range_rev demo_sep "" demo_maps ["COUNTERS_DB"; "COUNTERS"; "Ethernet*"] = Ok l2 /\ l1 ≡ₚ l2.
Proof.
  eexists. split; [vm_compute; reflexivity|].
  eapply (lookupV2R_order map_range_default map_range_rev); [vm_compute; reflexivity|reflexivity].
Defined.

Lemma lookupV2R_no_panic_witness :
  wfMaps demo_sep demo_maps /\
  lookupV2R demo_sep "" demo_maps ["COUNTERS_DB"; "COUNTERS"; "Ethernet*"; "Queues"] <> Err Panic.
Proof.
  assert (wfMaps demo_sep demo_maps) as H.
  { split; [|intros port m q oid ns Hp; simpl in Hp; by apply lookup_empty_Some in Hp].
    intros q oid Hq. simpl in Hq. apply lookup_singleton_Some in Hq as [<- _]. vm_compute. lia. }
  split; [done|]. by apply lookupV2R_no_panic.
Defined.

Lemma wildcard_agrees_with_single_witness :
  exists l, v2rEthPortStats demo_sep demo_maps ["COUNTERS_DB"; "COUNTERS"; "Ethernet*"] = Ok l /\ length l = 2.
Proof.
  assert (exists l, v2rEthPortStats demo_sep demo_maps ["COUNTERS_DB"; "COUNTERS"; "Ethernet*"] = Ok l) as [l Hl]
    by (eexists; vm_compute; reflexivity).
  exists l. split; [done|].
  assert (aliasInverse demo_maps) as Ha.
  { intros port oid H. simpl in H. apply lookup_insert_Some in H as [[<- _]|[_ H]]; [reflexivity|].
    apply lookup_singleton_Some in H as [<- _]. reflexivity. }
  pose proof (wildcard_agrees_with_single map_range_default demo_sep demo_maps "COUNTERS_DB" "COUNTERS" "Ethernet*" l Ha eq_refl Hl) as H.
  apply Forall2_length in H. rewrite <- H. vm_compute. reflexivity.
Defined.

Lemma getAliasMap_inverse_witness :
  exists am, GetAliasMap demo_sep demo_clients = Ok am /\ a_alias2name am !! "etp1" = Some "Ethernet0".
Proof.
  assert (exists am, GetAliasMap demo_sep demo_clients = Ok am /\ a_name2alias am !! "Ethernet0" = Some "etp1")
    as (am & H & Hn) by (eexists; split; [vm_compute; reflexivity|reflexivity]).
  exists am. split; [done|].
  assert (aliasUnique demo_sep demo_clients) as Hu.
  { assert (forall n a ns, portEntry demo_sep demo_clients n a ns -> n = "Ethernet0" /\ a = "etp1") as He.
    { intros n a ns (cm & rd & resp & key & [= <-] & Hcm & Hk & Hin & Hg & ->).
      apply lookup_singleton_Some in Hcm as [_ <-]. unfold HGet in Hg. simpl in Hk, Hg. simplify_eq.
      by apply list_elem_of_singleton in Hin as ->. }
    intros n1 a1 s1 n2 a2 s2 [-> ->]%He [-> ->]%He. done. }
  by apply (getAliasMap_inverse map_range_default demo_sep demo_clients am Hu H).
Defined.

Lemma failed_init_is_final_witness :
  exists s', initCountersPortNameMap demo_clients (mkState emptyMaps []) = (s', Some RedisError) /\
  initCountersPortNameMap (fun _ => Some ∅) s' = (s', None).
Proof.
  assert (exists s', initCountersPortNameMap demo_clients (mkState emptyMaps []) = (s', Some RedisError)) as [s' H]
    by (eexists; vm_compute; reflexivity).
  exists s'. split; [done|].
  apply (failed_init_is_final map_range_default demo_sep demo_clients (fun _ => Some ∅)
    (mkState emptyMaps []) s' RedisError "" "" "" H).
Defined.
