(* ===== verification/JsonClient.v ===== *)
(** The in-memory configuration (src/sonic_data_client/json_client.go): a JSON
    document of tables, entries, fields and list items, read and edited by path.

    An operation that fails may already have changed the document, so every
    operation returns the document together with its error.  [parseJson] and the
    JSON printers are parameters. *)

From S2P Require Import Prelude.
Open Scope go_scope.

Module JsonClient.

Inductive json :=
| JNull
| JBool (b : bool)
| JNum (n : string)
| JStr (s : string)
| JArr (l : list json)
| JObj (m : gmap string json).

#[global] Instance json_eq_dec : EqDecision json.
Proof.
  refine (fix go j1 j2 := let _ : EqDecision json := @go in
    match j1, j2 with
    | JNull, JNull => left eq_refl
    | JBool b1, JBool b2 => cast_if (decide (b1 = b2))
    | JNum n1, JNum n2 => cast_if (decide (n1 = n2))
    | JStr s1, JStr s2 => cast_if (decide (s1 = s2))
    | JArr l1, JArr l2 => cast_if (decide (l1 = l2))
    | JObj m1, JObj m2 => cast_if (decide (m1 = m2))
    | _, _ => right _
    end); try congruence.
Defined.

Abbreviation jobj := (gmap string json).

Inductive json_error :=
| InvalidTable | InvalidEntry | InvalidField | InvalidIndex | InvalidItem
| InvalidTarget | FailToParse | InvalidPath | EmitError.

Abbreviation jres := (res json_error).

Definition DecodeJsonTable (database : jobj) (tableName : string) : jres jobj :=
  match database !! tableName with
  | Some (JObj v) => Ok v
  | _ => Err InvalidTable
  end.

Definition DecodeJsonEntry (table : jobj) (entryName : string) : jres jobj :=
  match table !! entryName with
  | Some (JObj v) => Ok v
  | _ => Err InvalidEntry
  end.

(** A field is a string or a list; the two results of the source are the two
    injections. *)
Definition DecodeJsonField (entry : jobj) (fieldName : string) : jres (string + list json) :=
  match entry !! fieldName with
  | Some (JStr s) => Ok (inl s)
  | Some (JArr l) => Ok (inr l)
  | _ => Err InvalidField
  end.

(** The list result of [DecodeJsonField]: nil when the field is a string. *)
Definition fieldList (f : string + list json) : list json :=
  match f with inl _ => [] | inr l => l end.

Definition DecodeJsonListItem (l : list json) (index : string) : jres string :=
  match atoi index with
  | None => Err InvalidIndex
  | Some id =>
      if (id <? 0)%Z || (Z.of_nat (length l) <=? id)%Z then Err InvalidIndex
      else match l !! Z.to_nat id with
           | Some (JStr s) => Ok s
           | _ => Err InvalidItem
           end
  end.

(** Jsonpatch writes ["/"] in a key as ["~1"]. *)
Definition FixPath (path : list string) : list string :=
  match path with
  | a :: b :: rest => a :: replace_all b "~1" "/" :: rest
  | _ => path
  end.

Section Client.
Variable parseJson : string -> option json.
Variable emitJSON : json -> option string.

Definition emit (v : json) : jres string :=
  match emitJSON v with Some s => Ok s | None => Err EmitError end.

Definition Get (c : jobj) (path : list string) : jres string :=
  match FixPath path with
  | [] => emit (JObj c)
  | [t] =>
      try vtable := DecodeJsonTable c t in
      emit (JObj vtable)
  | [t; k] =>
      try vtable := DecodeJsonTable c t in
      try ventry := DecodeJsonEntry vtable k in
      emit (JObj ventry)
  | [t; k; f] =>
      try vtable := DecodeJsonTable c t in
      try ventry := DecodeJsonEntry vtable k in
      try vfield := DecodeJsonField ventry f in
      match vfield with
      | inl vstr => Ok (quoted vstr)
      | inr vlist => emit (JArr vlist)
      end
  | [t; k; f; i] =>
      try vtable := DecodeJsonTable c t in
      try ventry := DecodeJsonEntry vtable k in
      try vfield := DecodeJsonField ventry f in
      try vstr := DecodeJsonListItem (fieldList vfield) i in
      Ok (quoted vstr)
  | _ => Err InvalidPath
  end.

(** The container at a key, created when it is missing or not an object. *)
Definition tableOf (c : jobj) (t : string) : jobj :=
  match DecodeJsonTable c t with Ok v => v | Err _ => ∅ end.

Definition entryOf (vtable : jobj) (k : string) : jobj :=
  match DecodeJsonEntry vtable k with Ok v => v | Err _ => ∅ end.

(** [append(l[:id+1], l[id:]...)]: the item at [id] is doubled. *)
Definition doubleAt (l : list json) (id : nat) : list json := take (S id) l ++ drop id l.

Definition Add (c : jobj) (path : list string) (value : string) : option json_error * jobj :=
  match FixPath path with
  | [t] =>
      match parseJson value with
      | None => (Some FailToParse, c)
      | Some (JObj v) => (None, <[t := JObj v]> c)
      | Some _ => (Some InvalidTable, c)
      end
  | [t; k] =>
      let vtable := tableOf c t in
      let c := <[t := JObj vtable]> c in
      match parseJson value with
      | None => (Some FailToParse, c)
      | Some (JObj v) => (None, <[t := JObj (<[k := JObj v]> vtable)]> c)
      | Some _ => (Some InvalidEntry, c)
      end
  | [t; k; f] =>
      let vtable := tableOf c t in
      let ventry := entryOf vtable k in
      let store e := <[t := JObj (<[k := JObj e]> vtable)]> c in
      match parseJson value with
      | None => (Some FailToParse, store ventry)
      | Some (JStr s) => (None, store (<[f := JStr s]> ventry))
      | Some (JArr l) => (None, store (<[f := JArr l]> ventry))
      | Some _ => (Some InvalidField, store ventry)
      end
  | [t; k; f; i] =>
      match atoi i with
      | None => (Some InvalidIndex, c)
      | Some id =>
          let vtable := tableOf c t in
          let ventry := entryOf vtable k in
          let store e := <[t := JObj (<[k := JObj e]> vtable)]> c in
          match DecodeJsonField ventry f with
          | Ok (inl _) => (Some InvalidTarget, store ventry)
          | r =>
              let vlist := match r with Ok fl => fieldList fl | Err _ => [] end in
              let ventry := match r with Ok _ => ventry | Err _ => <[f := JArr []]> ventry end in
              if (id <? 0)%Z || (Z.of_nat (length vlist) <? id)%Z then (Some InvalidIndex, store ventry)
              else
                let n := Z.to_nat id in
                let vlist := if n =? length vlist then vlist ++ [JStr ""] else doubleAt vlist n in
                match parseJson value with
                | None => (Some FailToParse, store (<[f := JArr vlist]> ventry))
                | Some v => (None, store (<[f := JArr (<[n := v]> vlist)]> ventry))
                end
          end
      end
  | _ => (Some InvalidPath, c)
  end.

(** The deletions that follow the removal of a child: a container that became empty
    is removed from its parent. *)
Definition putTable (c : jobj) (t : string) (vtable : jobj) : jobj :=
  if size vtable =? 0 then delete t c else <[t := JObj vtable]> c.

Definition putEntry (vtable : jobj) (k : string) (ventry : jobj) : jobj :=
  if size ventry =? 0 then delete k vtable else <[k := JObj ventry]> vtable.

Definition Remove (c : jobj) (path : list string) : option json_error * jobj :=
  let lift (r : jres jobj) := match r with Ok c' => (None, c') | Err e => (Some e, c) end in
  match FixPath path with
  | [t] => lift (
      try _ := DecodeJsonTable c t in
      Ok (delete t c))
  | [t; k] => lift (
      try vtable := DecodeJsonTable c t in
      try _ := DecodeJsonEntry vtable k in
      Ok (putTable c t (delete k vtable)))
  | [t; k; f] => lift (
      try vtable := DecodeJsonTable c t in
      try ventry := DecodeJsonEntry vtable k in
      try _ := DecodeJsonField ventry f in
      Ok (putTable c t (putEntry vtable k (delete f ventry))))
  | [t; k; f; i] =>
      match atoi i with
      | None => (Some InvalidIndex, c)
      | Some id => lift (
          try vtable := DecodeJsonTable c t in
          try ventry := DecodeJsonEntry vtable k in
          try vfield := DecodeJsonField ventry f in
          let vlist := fieldList vfield in
          try _ := DecodeJsonListItem vlist i in
          let n := Z.to_nat id in
          let vlist := take n vlist ++ drop (S n) vlist in
          let ventry := if length vlist =? 0 then delete f ventry else <[f := JArr vlist]> ventry in
          Ok (putTable c t (putEntry vtable k ventry)))
      end
  | _ => (Some InvalidPath, c)
  end.

(** [Replace]; [FixPath] has rewritten the caller's slice by the time [Add] sees it. *)
Definition Replace (c : jobj) (path : list string) (value : string) : option json_error * jobj :=
  match Remove c path with
  | (Some e, c) => (Some e, c)
  | (None, c) => Add c (FixPath path) value
  end.

(** [NewJsonClient]; [content] is the file, [None] when it cannot be read. *)
Definition NewJsonClient (content : option string) (nameSpace : string) : jres jobj :=
  match content ≫= parseJson with
  | Some (JObj jsonMap) =>
      if String.eqb nameSpace "" then Ok jsonMap
      else match jsonMap !! nameSpace with
           | Some (JObj d) => Ok d
           | _ => Err InvalidPath
           end
  | _ => Err FailToParse
  end.
End Client.
End JsonClient.
