(* ===== verification/JsonClientProofs.v ===== *)
(** Properties of the in-memory configuration: what an addition stores and leaves
    alone, removal as its inverse on pruned documents, and what failed edits lose. *)

From S2P Require Import Prelude JsonClient.
Import JsonClient.

(** The value at a path of keys and list indices. *)
Fixpoint node (v : json) (path : list string) : option json :=
  match path with
  | [] => Some v
  | k :: ks =>
      match v with
      | JObj m => m !! k ≫= fun v' => node v' ks
      | JArr l => atoi k ≫= fun id => if (id <? 0)%Z then None else l !! Z.to_nat id ≫= fun v' => node v' ks
      | _ => None
      end
  end.

(** No container is empty: what the server's configurations look like, and what
    [Remove] maintains. *)
Definition prunedField (v : json) : Prop :=
  match v with JStr _ => True | JArr l => l <> [] | _ => False end.
Definition prunedEntry (v : json) : Prop :=
  match v with JObj e => e <> ∅ /\ map_Forall (fun _ => prunedField) e | _ => False end.
Definition prunedTable (v : json) : Prop :=
  match v with JObj m => m <> ∅ /\ map_Forall (fun _ => prunedEntry) m | _ => False end.
Definition pruned (c : jobj) : Prop := map_Forall (fun _ => prunedTable) c.

(** * Paths *)

Lemma contains_cons c s p : str_contains (String c s) p = str_prefix p (String c s) || str_contains s p.
Proof. unfold str_contains. cbn [str_index]. destruct (str_prefix _ _); [done|]. by destruct (str_index s p). Qed.

Lemma replace_tilde_free s n : str_contains (replace_go "~1" "/" n s) "~1" = false.
Proof.
  revert n. induction s as [|c s IH]; intros n; [done|]. cbn [replace_go].
  destruct n as [|n]; [|apply IH]. destruct (str_prefix "~1" (String c s)) eqn:E.
  - rewrite (str_app_cons _ ""). change ("" +:+ replace_go "~1" "/" (String.length "~1" - 1) s)
      with (replace_go "~1" "/" 1 s). by rewrite contains_cons, IH.
  - rewrite contains_cons, IH, orb_false_r. cbn [str_prefix] in E |- *.
    destruct (Ascii.eqb _ c); [|done]. cbn [andb] in *.
    destruct s as [|d s]; [done|]. cbn [replace_go].
    destruct (str_prefix "~1" (String d s)) eqn:E3; [done|]. exact E.
Qed.

Lemma replace_absent s : str_contains s "~1" = false -> replace_go "~1" "/" 0 s = s.
Proof.
  induction s as [|c s IH]; [done|]. rewrite contains_cons. cbn [replace_go].
  destruct (str_prefix _ _); [done|]. intros H. f_equal. by apply IH.
Qed.

(** Rewriting a path twice changes nothing more. *)
Lemma FixPath_idem path : FixPath (FixPath path) = FixPath path.
Proof.
  destruct path as [|a [|b rest]]; try done. simpl. unfold replace_all.
  by rewrite (replace_absent (replace_go _ _ _ _)) by apply replace_tilde_free.
Qed.

Lemma FixPath_length path : length (FixPath path) = length path.
Proof. by destruct path as [|a [|b rest]]. Qed.

(** * Containers *)

Lemma tableOf_insert c t m : tableOf (<[t := JObj m]> c) t = m.
Proof. unfold tableOf, DecodeJsonTable. by rewrite lookup_insert_eq. Qed.

Lemma tableOf_ne c t t' v : t <> t' -> tableOf (<[t := v]> c) t' = tableOf c t'.
Proof. intros. unfold tableOf, DecodeJsonTable. by rewrite lookup_insert_ne. Qed.

Lemma entryOf_insert m k e : entryOf (<[k := JObj e]> m) k = e.
Proof. unfold entryOf, DecodeJsonEntry. by rewrite lookup_insert_eq. Qed.

Lemma insertAt_lookup (l : list json) n v :
  n <= length l ->
  (<[n := v]> (if n =? length l then l ++ [JStr ""] else doubleAt l n) : list json) = take n l ++ v :: drop n l.
Proof.
  intros Hn. destruct (Nat.eqb_spec n (length l)) as [->|Hne].
  - rewrite insert_app_r_alt by lia. rewrite Nat.sub_diag. simpl.
    by rewrite take_ge, drop_ge by lia.
  - destruct (lookup_lt_is_Some_2 l n) as [x Hx]; [lia|].
    unfold doubleAt. rewrite (take_S_r l n x Hx), (drop_S l x n Hx), <- app_assoc.
    rewrite insert_app_r_alt by (rewrite length_take; lia).
    rewrite length_take, Nat.min_l, Nat.sub_diag by lia. done.
Qed.

Section Client.
Variable parseJson : string -> option json.
Variable emitJSON : json -> option string.
Abbreviation add := (Add parseJson).
Abbreviation get := (Get emitJSON).

(** The list that an indexed path edits: the field, or a new list when the field is
    missing or neither string nor list. *)
Definition editedList (e : jobj) (f : string) (l : list json) : Prop :=
  match DecodeJsonField e f with Ok (inr l') => l = l' | Ok (inl _) => False | Err _ => l = [] end.

(** The document after a successful addition. *)
Definition added (c : jobj) (path : list string) (v : json) (c' : jobj) : Prop :=
  match path with
  | [t] => (exists m, v = JObj m) /\ c' = <[t := v]> c
  | [t; k] => (exists m, v = JObj m) /\ c' = <[t := JObj (<[k := v]> (tableOf c t))]> c
  | [t; k; f] => ((exists s, v = JStr s) \/ exists l, v = JArr l) /\
      c' = <[t := JObj (<[k := JObj (<[f := v]> (entryOf (tableOf c t) k))]> (tableOf c t))]> c
  | [t; k; f; i] => exists id l, atoi i = Some id /\ (0 <= id <= Z.of_nat (length l))%Z /\
      editedList (entryOf (tableOf c t) k) f l /\
      c' = <[t := JObj (<[k := JObj (<[f := JArr (take (Z.to_nat id) l ++ v :: drop (Z.to_nat id) l)]>
                                       (entryOf (tableOf c t) k))]> (tableOf c t))]> c
  | _ => False
  end.

Lemma Add_added c path value c' :
  add c path value = (None, c') -> exists v, parseJson value = Some v /\ added c (FixPath path) v c'.
Proof.
  unfold Add. destruct (FixPath path) as [|t [|k [|f [|i [|? ?]]]]]; try done; cbv zeta.
  - destruct (parseJson value) as [[]|]; try done. intros [= <-]. eexists. split; [done|]. split; [eauto|done].
  - destruct (parseJson value) as [[]|]; try done. intros [= <-]. eexists. split; [done|].
    split; [eauto|]. by rewrite insert_insert_eq.
  - destruct (parseJson value) as [[]|]; try done; intros [= <-]; eexists; (split; [done|]); split; eauto.
  - destruct (atoi i) as [id|] eqn:Ei; [|done]. unfold added, editedList.
    set (e := entryOf (tableOf c t) k). destruct (DecodeJsonField e f) as [[s|l]|err] eqn:Ef; [done|..].
    + cbn [fieldList]. destruct ((id <? 0)%Z || _) eqn:Eb; [done|]. apply orb_false_elim in Eb as [?%Z.ltb_ge ?%Z.ltb_ge].
      destruct (parseJson value) as [v|]; [|done]. intros [= <-]. exists v. split; [done|].
      exists id, l. rewrite insertAt_lookup by lia. done.
    + destruct ((id <? 0)%Z || _) eqn:Eb; [done|]. apply orb_false_elim in Eb as [?%Z.ltb_ge ?%Z.ltb_ge].
      destruct (parseJson value) as [v|]; [|done]. intros [= <-]. exists v. split; [done|].
      exists id, []. simpl in *. assert (id = 0%Z) as -> by lia. simpl. by rewrite insert_insert_eq.
Qed.

(** A successful addition stores the parsed value at the path, where [node] and,
    for a string or a path of at most three components, [Get] find it; every other
    table, every other entry of the table and every other field of the entry keep
    their values. *)
Theorem json_add_get c path value c' :
  add c path value = (None, c') ->
  exists v, parseJson value = Some v /\ node (JObj c') (FixPath path) = Some v /\
  (length path < 4 \/ (exists s, v = JStr s) ->
     get c' path = match v with JStr s => Ok (quoted s) | _ => emit emitJSON v end) /\
  match FixPath path with
  | t :: rest =>
      (forall t', t' <> t -> c' !! t' = c !! t') /\
      match rest with
      | k :: rest =>
          (forall k', k' <> k -> tableOf c' t !! k' = tableOf c t !! k') /\
          match rest with
          | f :: _ => forall f', f' <> f ->
              entryOf (tableOf c' t) k !! f' = entryOf (tableOf c t) k !! f'
          | [] => True
          end
      | [] => True
      end
  | [] => True
  end.
Proof.
  intros (v & Hv & Ha)%Add_added. exists v. split; [done|]. rewrite <- (FixPath_length path). unfold Get.
  destruct (FixPath path) as [|t [|k [|f [|i [|? ?]]]]]; try done; simpl in Ha.
  - destruct Ha as [[m ->] ->]. cbn [node]. unfold DecodeJsonTable. rewrite !lookup_insert_eq. split_and!; try done.
    intros. by rewrite lookup_insert_ne.
  - destruct Ha as [[m ->] ->]. cbn [node]. unfold DecodeJsonTable, DecodeJsonEntry. rewrite !lookup_insert_eq. simpl.
    rewrite !lookup_insert_eq, tableOf_insert. split_and!; try done; intros; by rewrite lookup_insert_ne.
  - destruct Ha as [Hv' ->]. cbn [node]. unfold DecodeJsonTable, DecodeJsonEntry, DecodeJsonField.
    rewrite !lookup_insert_eq. simpl. rewrite !lookup_insert_eq. simpl. rewrite !lookup_insert_eq, tableOf_insert, entryOf_insert.
    split_and!; try done; try (intros; by rewrite lookup_insert_ne).
    intros _. by destruct Hv' as [[s ->]|[l ->]].
  - destruct Ha as (id & l & Hid & Hb & Hl & ->). cbn [node]. unfold DecodeJsonTable, DecodeJsonEntry, DecodeJsonField.
    rewrite !lookup_insert_eq. simpl. rewrite !lookup_insert_eq. simpl. rewrite !lookup_insert_eq, tableOf_insert, entryOf_insert.
    simpl. assert ((take (Z.to_nat id) l ++ v :: drop (Z.to_nat id) l) !! Z.to_nat id = Some v) as Hlk.
    { rewrite lookup_app_r, length_take, Nat.min_l, Nat.sub_diag; [done|lia|rewrite length_take; lia]. }
    unfold DecodeJsonListItem. rewrite Hid. simpl. rewrite (proj2 (Z.ltb_ge id 0)) by lia.
    split_and!; try (intros; by rewrite lookup_insert_ne); [by rewrite Hlk|].
    intros [?|[s ->]]; [lia|]. rewrite length_app, length_cons, length_take, length_drop.
    rewrite (proj2 (Z.leb_gt _ id)) by lia. by rewrite Hlk.
Qed.

(** * Removal *)

Lemma putTable_pruned c t m :
  pruned c -> map_Forall (fun _ => prunedEntry) m -> pruned (putTable c t m).
Proof.
  intros Hc Hm. unfold putTable. destruct (Nat.eqb_spec (size m) 0) as [E|E].
  - by apply map_Forall_delete.
  - apply map_Forall_insert_2; [|done]. split; [|done]. intros ->. by rewrite map_size_empty in E.
Qed.

Lemma putEntry_pruned m k e :
  map_Forall (fun _ => prunedEntry) m -> map_Forall (fun _ => prunedField) e ->
  map_Forall (fun _ => prunedEntry) (putEntry m k e).
Proof.
  intros Hm He. unfold putEntry. destruct (Nat.eqb_spec (size e) 0) as [E|E].
  - by apply map_Forall_delete.
  - apply map_Forall_insert_2; [|done]. split; [|done]. intros ->. by rewrite map_size_empty in E.
Qed.

Lemma pruned_table c t m : pruned c -> DecodeJsonTable c t = Ok m -> m <> ∅ /\ map_Forall (fun _ => prunedEntry) m.
Proof.
  intros Hc. unfold DecodeJsonTable. destruct (c !! t) as [[]|] eqn:E; try done. intros [= ->].
  apply (Hc t _ E).
Qed.

Lemma pruned_entry m k e :
  map_Forall (fun _ => prunedEntry) m -> DecodeJsonEntry m k = Ok e -> e <> ∅ /\ map_Forall (fun _ => prunedField) e.
Proof.
  intros Hm. unfold DecodeJsonEntry. destruct (m !! k) as [[]|] eqn:E; try done. intros [= ->].
  apply (Hm k _ E).
Qed.

(** Putting the old container back undoes an insertion. *)
Lemma putTable_back c t x : pruned c -> putTable (<[t := x]> c) t (tableOf c t) = c.
Proof.
  intros Hc. unfold putTable, tableOf, DecodeJsonTable. destruct (c !! t) as [v|] eqn:E.
  - pose proof (Hc t v E) as Hp. destruct v as [| | | | |m]; try done. destruct Hp as [Hne _].
    destruct (Nat.eqb_spec (size m) 0) as [Es|_]; [by apply map_size_empty_iff in Es|].
    by rewrite insert_insert_eq, insert_id.
  - rewrite map_size_empty. simpl. by rewrite delete_insert_id.
Qed.

Lemma putEntry_back m k x : map_Forall (fun _ => prunedEntry) m -> putEntry (<[k := x]> m) k (entryOf m k) = m.
Proof.
  intros Hc. unfold putEntry, entryOf, DecodeJsonEntry. destruct (m !! k) as [v|] eqn:E.
  - pose proof (Hc k v E) as Hp. destruct v as [| | | | |e]; try done. destruct Hp as [Hne _].
    destruct (Nat.eqb_spec (size e) 0) as [Es|_]; [by apply map_size_empty_iff in Es|].
    by rewrite insert_insert_eq, insert_id.
  - rewrite map_size_empty. simpl. by rewrite delete_insert_id.
Qed.

Lemma tableOf_pruned c t : pruned c -> map_Forall (fun _ => prunedEntry) (tableOf c t).
Proof.
  intros Hc. unfold tableOf. destruct (DecodeJsonTable c t) as [m|] eqn:E; [|apply map_Forall_empty].
  by apply (pruned_table c t m Hc).
Qed.

Lemma entryOf_pruned m k :
  map_Forall (fun _ => prunedEntry) m -> map_Forall (fun _ => prunedField) (entryOf m k).
Proof.
  intros Hc. unfold entryOf. destruct (DecodeJsonEntry m k) as [e|] eqn:E; [|apply map_Forall_empty].
  by apply (pruned_entry m k e Hc).
Qed.

(** On a document without empty containers, removing what was just added restores
    the document exactly, containers created on the way included: for a table, entry
    or field that did not exist, and for a list item inserted at any index. *)
Theorem json_add_remove c path value c' v :
  pruned c -> add c path value = (None, c') -> parseJson value = Some v ->
  (if length path =? 4 then exists s, v = JStr s else node (JObj c) (FixPath path) = None) ->
  Remove c' path = (None, c).
Proof.
  intros Hc (v' & Hv & Ha)%Add_added Hv' Hn. rewrite Hv in Hv'. injection Hv' as ->.
  rewrite <- FixPath_length in Hn. unfold Remove.
  destruct (FixPath path) as [|t [|k [|f [|i [|? ?]]]]]; try done; simpl in Ha, Hn; unfold DecodeJsonTable.
  - destruct Ha as [[m ->] ->]. rewrite lookup_insert_eq.
    destruct (c !! t) eqn:E; [done|]. by rewrite delete_insert_id.
  - destruct Ha as [[m ->] ->]. rewrite lookup_insert_eq. unfold DecodeJsonEntry. rewrite lookup_insert_eq.
    rewrite delete_insert_id; [by rewrite putTable_back|].
    unfold tableOf, DecodeJsonTable. destruct (c !! t) as [[]|] eqn:E; try done. simpl in Hn. by destruct (m0 !! k).
  - destruct Ha as [Hv' ->]. rewrite lookup_insert_eq. unfold DecodeJsonEntry, DecodeJsonField. rewrite !lookup_insert_eq.
    assert (entryOf (tableOf c t) k !! f = None) as Hf.
    { unfold tableOf, DecodeJsonTable. destruct (c !! t) as [[| | | | |m]|]; try done. simpl in Hn.
      unfold entryOf, DecodeJsonEntry. destruct (m !! k) as [[| | | | |e]|]; try done. simpl in Hn. by destruct (e !! f). }
    rewrite (delete_insert_id _ _ _ Hf), putEntry_back by by apply tableOf_pruned.
    destruct Hv' as [[s ->]|[l ->]]; by rewrite putTable_back.
  - destruct Hn as [s ->]. destruct Ha as (id & l & Hid & Hb & Hl & ->). rewrite Hid, lookup_insert_eq.
    unfold DecodeJsonEntry, DecodeJsonField. rewrite !lookup_insert_eq. cbn [fieldList].
    set (n := Z.to_nat id) in *. set (e := entryOf (tableOf c t) k) in *.
    assert (length (take n l) = n) as Hn by (rewrite length_take; lia).
    assert (DecodeJsonListItem (take n l ++ JStr s :: drop n l) i = Ok s) as ->.
    { unfold DecodeJsonListItem. rewrite Hid, (proj2 (Z.ltb_ge id 0)) by lia.
      rewrite length_app, length_cons, length_take, length_drop, (proj2 (Z.leb_gt _ id)) by lia. cbn [orb].
      fold n. by rewrite lookup_app_r, Hn, Nat.sub_diag by lia. }
    assert (take n (take n l ++ JStr s :: drop n l) ++ drop (S n) (take n l ++ JStr s :: drop n l) = l) as Hback.
    { rewrite take_app_length' by done. rewrite drop_app_ge by lia. rewrite Hn. replace (S n - n) with 1 by lia. simpl. rewrite drop_0. apply take_drop. }
    rewrite Hback.
    assert (map_Forall (fun _ => prunedField) e) as He by by apply entryOf_pruned, tableOf_pruned.
    assert ((if length l =? 0 then delete f (<[f := JArr (take n l ++ JStr s :: drop n l)]> e)
             else <[f := JArr l]> (<[f := JArr (take n l ++ JStr s :: drop n l)]> e)) = e) as ->.
    { unfold editedList, DecodeJsonField in Hl. destruct (e !! f) as [x|] eqn:Ef.
      - pose proof (He f x Ef) as Hp. destruct x as [| | | |l0|]; try done. subst l0. destruct l; [done|].
        simpl. by rewrite insert_insert_eq, insert_id.
      - subst l. simpl. by rewrite delete_insert_id. }
    unfold e. rewrite putEntry_back by by apply tableOf_pruned. by rewrite putTable_back.
Qed.

(** A successful removal leaves no empty container behind: a document without
    empty containers stays so; the removed table, entry or field is gone; and the
    other tables keep their values. *)
Theorem json_remove_prunes c path c' :
  pruned c -> Remove c path = (None, c') ->
  pruned c' /\ (length path <= 3 -> node (JObj c') (FixPath path) = None) /\
  forall t', head path <> Some t' -> c' !! t' = c !! t'.
Proof.
  intros Hc. rewrite <- (FixPath_length path). assert (head path = head (FixPath path)) as ->
    by by destruct path as [|? [|? ?]].
  assert (Hput : forall t m t', Some t <> Some t' -> putTable c t m !! t' = c !! t').
  { intros t m t' Hne. unfold putTable. case_match; [apply lookup_delete_ne|apply lookup_insert_ne]; congruence. }
  assert (Hgone : forall t m rest, m = ∅ \/ node (JObj m) rest = None -> node (JObj (putTable c t m)) (t :: rest) = None).
  { intros t m rest H. unfold putTable. destruct (Nat.eqb_spec (size m) 0) as [E|E]; simpl.
    - by rewrite lookup_delete_eq.
    - rewrite lookup_insert_eq. simpl. destruct H as [->|H]; [by rewrite map_size_empty in E|done]. }
  unfold Remove. destruct (FixPath path) as [|t [|k [|f [|i [|? ?]]]]]; try done; intros H; cbn [length head].
  - destruct (DecodeJsonTable c t) as [m|]; [|done]. injection H as <-. split_and!.
    + by apply map_Forall_delete.
    + intros _. simpl. by rewrite lookup_delete_eq.
    + intros t' Hne. rewrite lookup_delete_ne; [done|congruence].
  - destruct (DecodeJsonTable c t) as [m|] eqn:Et; [|done]. destruct (DecodeJsonEntry m k) as [e|]; [|done].
    injection H as <-. apply pruned_table in Et as [_ Hm]; [|done]. split_and!.
    + apply putTable_pruned; [done|]. by apply map_Forall_delete.
    + intros _. apply Hgone. right. simpl. by rewrite lookup_delete_eq.
    + intros t'. apply Hput.
  - destruct (DecodeJsonTable c t) as [m|] eqn:Et; [|done]. destruct (DecodeJsonEntry m k) as [e|] eqn:Ee; [|done].
    destruct (DecodeJsonField e f) as [fl|]; [|done]. injection H as <-.
    apply pruned_table in Et as [_ Hm]; [|done]. apply pruned_entry in Ee as [_ He]; [|done]. split_and!.
    + apply putTable_pruned; [done|]. apply putEntry_pruned; [done|]. by apply map_Forall_delete.
    + intros _. apply Hgone. right. unfold putEntry. case_match; simpl; [by rewrite lookup_delete_eq|].
      rewrite lookup_insert_eq. simpl. by rewrite lookup_delete_eq.
    + intros t'. apply Hput.
  - destruct (atoi i) as [id|]; [|done]. destruct (DecodeJsonTable c t) as [m|] eqn:Et; [|done].
    destruct (DecodeJsonEntry m k) as [e|] eqn:Ee; [|done]. destruct (DecodeJsonField e f) as [fl|]; [|done].
    destruct (DecodeJsonListItem _ i); [|done]. injection H as <-.
    apply pruned_table in Et as [_ Hm]; [|done]. apply pruned_entry in Ee as [_ He]; [|done]. split_and!.
    + apply putTable_pruned; [done|]. apply putEntry_pruned; [done|]. case_match eqn:El.
      * by apply map_Forall_delete.
      * apply map_Forall_insert_2; [|done]. intros E. by rewrite E in El.
    + intros Hl. simpl in Hl. lia.
    + intros t'. apply Hput.
Qed.

(** * Failed edits *)

(** Replacing is not atomic: when the new value does not parse, [Replace] reports
    the failure after the old table, entry or field is already gone. *)
Theorem json_replace_loses c path value :
  (Remove c path).1 = None -> parseJson value = None -> length path <= 3 ->
  (Replace parseJson c path value).1 = Some FailToParse /\
  node (JObj (Replace parseJson c path value).2) (FixPath path) = None.
Proof.
  intros Hr Hp Hl. unfold Replace. destruct (Remove c path) as [e c1] eqn:Er. simpl in Hr. subst e.
  assert (node (JObj c1) (FixPath path) = None) as Hgone.
  { revert Er. rewrite <- (FixPath_length path) in Hl. unfold Remove.
    destruct (FixPath path) as [|t [|k [|f [|? ?]]]]; try done; simpl in *; try lia; intros H.
    - destruct (DecodeJsonTable c t); [|done]. injection H as <-. by rewrite lookup_delete_eq.
    - destruct (DecodeJsonTable c t) as [m|]; [|done]. destruct (DecodeJsonEntry m k) as [e|]; [|done].
      injection H as <-. unfold putTable. case_match; [by rewrite lookup_delete_eq|].
      rewrite lookup_insert_eq. simpl. by rewrite lookup_delete_eq.
    - destruct (DecodeJsonTable c t) as [m|]; [|done]. destruct (DecodeJsonEntry m k) as [e|]; [|done].
      destruct (DecodeJsonField e f); [|done]. injection H as <-.
      unfold putTable. destruct (_ =? 0); [by rewrite lookup_delete_eq|]. rewrite lookup_insert_eq. simpl.
      unfold putEntry. destruct (_ =? 0); [by rewrite lookup_delete_eq|]. rewrite lookup_insert_eq. simpl.
      by rewrite lookup_delete_eq. }
  unfold Add. rewrite FixPath_idem, Hp. rewrite <- (FixPath_length path) in Hl.
  destruct (FixPath path) as [|t [|k [|f [|? ?]]]]; simpl in Hl; try lia; try done.
  - simpl. split; [done|]. simpl in Hgone. rewrite lookup_insert_eq. simpl.
    unfold tableOf, DecodeJsonTable. destruct (c1 !! t) as [[]|]; simpl in *; try done; by rewrite lookup_empty.
  - simpl. split; [done|]. rewrite lookup_insert_eq. simpl. rewrite lookup_insert_eq. simpl in Hgone |- *.
    unfold tableOf, DecodeJsonTable. destruct (c1 !! t) as [[| | | | |m]|]; simpl in *; unfold entryOf, DecodeJsonEntry;
      rewrite ?lookup_empty; try done. destruct (m !! k) as [[]|]; simpl in *; try done; by rewrite lookup_empty.
Qed.
End Client.

(** * Witnesses *)

(** A parser that knows one object and one string. *)
Definition json_demo_parse (s : string) : option json :=
  if String.eqb s "{mtu}" then Some (JObj {["mtu" := JStr "9100"]})
  else if String.eqb s "lane" then Some (JStr "7") else None.

Definition json_demo_doc : jobj :=
  {[ "PORT" := JObj {[ "Ethernet0" := JObj {[ "lanes" := JArr [JStr "1"; JStr "2"] ]} ]} ]}.

Lemma json_demo_pruned : pruned json_demo_doc.
Proof.
  apply map_Forall_singleton. split; [done|]. apply map_Forall_singleton. split; [done|].
  by apply map_Forall_singleton.
Qed.

Lemma json_add_get_witness :
  exists c', Add json_demo_parse json_demo_doc ["PORT"; "Ethernet1~11"] "{mtu}" = (None, c') /\
    node (JObj c') ["PORT"; "Ethernet1/1"] = Some (JObj {["mtu" := JStr "9100"]}).
Proof.
  eexists. split; [reflexivity|].
  destruct (json_add_get json_demo_parse (fun _ => None) json_demo_doc ["PORT"; "Ethernet1~11"] "{mtu}" _ eq_refl)
    as (v & [= <-] & H & _). exact H.
Defined.

Lemma json_add_remove_witness :
  exists c', Add json_demo_parse json_demo_doc ["PORT"; "Ethernet0"; "lanes"; "1"] "lane" = (None, c') /\
    Remove c' ["PORT"; "Ethernet0"; "lanes"; "1"] = (None, json_demo_doc).
Proof.
  eexists. split; [reflexivity|].
  apply (json_add_remove json_demo_parse json_demo_doc _ "lane" _ (JStr "7") json_demo_pruned);
    [reflexivity|reflexivity|]. exists "7". reflexivity.
Defined.

Lemma json_remove_prunes_witness :
  exists c', Remove json_demo_doc ["PORT"; "Ethernet0"; "lanes"] = (None, c') /\ pruned c'.
Proof.
  eexists. split; [reflexivity|].
  apply (json_remove_prunes json_demo_doc ["PORT"; "Ethernet0"; "lanes"] _ json_demo_pruned). reflexivity.
Defined.

Lemma json_replace_loses_witness :
  node (JObj (Replace json_demo_parse json_demo_doc ["PORT"; "Ethernet0"] "bad").2) ["PORT"; "Ethernet0"] = None.
Proof.
  apply (json_replace_loses json_demo_parse json_demo_doc ["PORT"; "Ethernet0"] "bad"); [reflexivity|reflexivity|].
  simpl. lia.
Defined.
