(* ===== verification/Bypass.v ===== *)
(** The fast path for Set requests (src/pkg/bypass/bypass.go): direct writes to
    CONFIG_DB for allow-listed tables.

    CONFIG_DB is a map of Redis hashes.  Every Redis command consumes a tick and
    fails when the oracle [fails] says so, so a request can stop half way. *)

From S2P Require Import Prelude GnmiTypes JsonClient.
Import JsonClient.
Open Scope go_scope.

Module Bypass.

Definition AllowedTables : list string :=
  ["VNET"; "VNET_ROUTE_TUNNEL"; "VLAN_SUB_INTERFACE"; "ACL_RULE"; "BGP_PEER_RANGE"; "BGP_NEIGHBOR"; "PREFIX_LIST"].

Definition AllowedSKUPrefixes : list string := ["Cisco-8102"; "Cisco-8101"; "Cisco-8223"].

Record ConfigDb := mkDb { hashes : gmap string (gmap string string); ops : nat }.

Inductive bypass_error := InvalidPath | NoBulkValue | BadJson | RedisFailed.

Section Bypass.
Context `{!MapRange}.
Variable fails : nat -> bool.
(** [json.Unmarshal] into the two map types, and [fmt.Sprintf] with [%v]. *)
Variable unmarshalMap : string -> option (gmap string json).
Variable unmarshalBulk : string -> option (gmap string (gmap string json)).
Variable sprintv : json -> string.

Definition bump (d : ConfigDb) : ConfigDb := mkDb (hashes d) (S (ops d)).

(** [HGet], [HSet] and [Del] of the client. *)
Definition HGet (d : ConfigDb) (key fld : string) : option string * ConfigDb :=
  (if fails (ops d) then None else hashes d !! key ≫= fun h => h !! fld, bump d).

Definition HSet (d : ConfigDb) (key : string) (fields : gmap string string) : bool * ConfigDb :=
  if fails (ops d) then (false, bump d)
  else (true, mkDb (<[key := fields ∪ default ∅ (hashes d !! key)]> (hashes d)) (S (ops d))).

Definition Del (d : ConfigDb) (key : string) : bool * ConfigDb :=
  if fails (ops d) then (false, bump d) else (true, mkDb (delete key (hashes d)) (S (ops d))).

(** The element list of prefix and path. *)
Definition allElems (prefix path : option Path) : list PathElem := GetElem prefix ++ GetElem path.

Definition isRoot (name : string) : bool := String.eqb name "CONFIG_DB" || String.eqb name "localhost".

Fixpoint firstTable (elems : list PathElem) : string :=
  match elems with
  | [] => ""
  | e :: es => if isRoot (elem_name e) then firstTable es else elem_name e
  end.

Definition extractTable (prefix path : option Path) : string := firstTable (allElems prefix path).

Definition tableAllowed (t : string) : bool :=
  if String.eqb t "" then false else bool_decide (t ∈ AllowedTables).

Definition checkAllowedTables (prefix : option Path) (updates : list Update) : bool :=
  forallb (fun u => tableAllowed (extractTable prefix (upd_path u))) updates.

Definition checkAllowedDeletePaths (prefix : option Path) (deletes : list (option Path)) : bool :=
  forallb (fun p => tableAllowed (extractTable prefix p)) deletes.

(** [md]: the metadata of the incoming context, [None] without context or metadata;
    the values of the bypass key. *)
Definition hasBypassHeader (md : option (list string)) : bool :=
  match md with Some (v :: _) => String.eqb v "true" | _ => false end.

Definition checkSKU (d : ConfigDb) : bool * ConfigDb :=
  let '(hwsku, d) := HGet d "DEVICE_METADATA|localhost" "hwsku" in
  (match hwsku with
   | Some s => existsb (fun p => has_prefix s p) AllowedSKUPrefixes
   | None => false
   end, d).

Definition ShouldBypass (md : option (list string)) (prefix : option Path) (updates : list Update)
    (d : ConfigDb) : bool * ConfigDb :=
  if negb (hasBypassHeader md) then (false, d)
  else
    let '(ok, d) := checkSKU d in
    if negb ok then (false, d) else (checkAllowedTables prefix updates, d).

Definition ShouldBypassDelete (md : option (list string)) (prefix : option Path)
    (deletes : list (option Path)) (d : ConfigDb) : bool * ConfigDb :=
  if negb (hasBypassHeader md) then (false, d)
  else
    let '(ok, d) := checkSKU d in
    if negb ok then (false, d) else (checkAllowedDeletePaths prefix deletes, d).

Definition decodeJsonPointer (s : string) : string :=
  replace_all (replace_all s "~1" "/") "~0" "~".

Definition parsePath (prefix path : option Path) : string * string * string :=
  let parts := base.filter (fun n => isRoot n = false) (elem_name <$> allElems prefix path) in
  (match parts with t :: _ => t | _ => "" end,
   match parts with _ :: k :: _ => decodeJsonPointer k | _ => "" end,
   match parts with _ :: _ :: f :: _ => f | _ => "" end).

Definition convertToRedisFields (data : gmap string json) : gmap string string :=
  fold_left (fun fields '(k, v) =>
    match v with
    | JArr val => <[k +:+ "@" := str_join (sprintv <$> val) ","]> fields
    | _ => <[k := sprintv v]> fields
    end) (range_of data) ∅.

(** An empty entry is stored with the NULL placeholder. *)
Definition redisFields (data : gmap string json) : gmap string string :=
  let fields := convertToRedisFields data in
  if base.size fields =? 0 then {["NULL" := "NULL"]} else fields.

(** The string form of a scalar value. *)
Definition scalarString (val : option TypedValue) : string :=
  if negb (String.eqb (GetStringVal val) "") then GetStringVal val
  else if negb (GetIntVal val =? 0)%Z then pretty (GetIntVal val)
  else if negb (GetUintVal val =? 0)%Z then pretty (GetUintVal val)
  else "".

Fixpoint bulkLoop (table : string) (d : ConfigDb) (entries : list (string * gmap string json))
    : option bypass_error * ConfigDb :=
  match entries with
  | [] => (None, d)
  | (entryKey, entryFields) :: entries =>
      let '(ok, d) := HSet d (table +:+ "|" +:+ entryKey) (redisFields entryFields) in
      if ok then bulkLoop table d entries else (Some RedisFailed, d)
  end.

(** One update of [Apply]. *)
Definition applyOne (prefix : option Path) (u : Update) (d : ConfigDb) : option bypass_error * ConfigDb :=
  let '(table, key, field) := parsePath prefix (upd_path u) in
  if String.eqb table "" then (Some InvalidPath, d)
  else
    let jsonVal := GetJsonIetfVal (upd_val u) in
    if String.eqb key "" then
      if String.length jsonVal =? 0 then (Some NoBulkValue, d)
      else match unmarshalBulk jsonVal with
           | None => (Some BadJson, d)
           | Some bulkData => bulkLoop table d (range_of bulkData)
           end
    else
      let redisKey := table +:+ "|" +:+ key in
      if 0 <? String.length jsonVal then
        match unmarshalMap jsonVal with
        | None => (Some BadJson, d)
        | Some data =>
            let '(ok, d) := HSet d redisKey (redisFields data) in
            (if ok then None else Some RedisFailed, d)
        end
      else if negb (String.eqb field "") then
        let '(ok, d) := HSet d redisKey {[field := scalarString (upd_val u)]} in
        (if ok then None else Some RedisFailed, d)
      else (None, d).

Fixpoint Apply (prefix : option Path) (updates : list Update) (d : ConfigDb) : option bypass_error * ConfigDb :=
  match updates with
  | [] => (None, d)
  | u :: us =>
      let '(e, d) := applyOne prefix u d in
      match e with Some e => (Some e, d) | None => Apply prefix us d end
  end.

Fixpoint Delete (prefix : option Path) (deletes : list (option Path)) (d : ConfigDb)
    : option bypass_error * ConfigDb :=
  match deletes with
  | [] => (None, d)
  | path :: ps =>
      let '(table, key, _) := parsePath prefix path in
      if String.eqb table "" || String.eqb key "" then (Some InvalidPath, d)
      else
        let '(ok, d) := Del d (table +:+ "|" +:+ key) in
        if ok then Delete prefix ps d else (Some RedisFailed, d)
  end.

Inductive Op := DELETE | UPDATE.

(** The three outcomes of [TrySet]: not handled, failed, or the update results. *)
Inductive Outcome :=
| NotUsed
| Failed (e : bypass_error)
| Done (results : list (option Path * Op)).

Definition TrySet (md : option (list string)) (prefix : option Path) (deletes : list (option Path))
    (updates : list Update) (d : ConfigDb) : Outcome * ConfigDb :=
  if (length updates =? 0) && (length deletes =? 0) then (NotUsed, d)
  else
    let '(ok, d) := if 0 <? length updates then ShouldBypass md prefix updates d else (true, d) in
    if negb ok then (NotUsed, d)
    else
      let '(ok, d) := if 0 <? length deletes then ShouldBypassDelete md prefix deletes d else (true, d) in
      if negb ok then (NotUsed, d)
      else
        let '(e, d) := if 0 <? length deletes then Delete prefix deletes d else (None, d) in
        match e with
        | Some e => (Failed e, d)
        | None =>
            let '(e, d) := if 0 <? length updates then Apply prefix updates d else (None, d) in
            match e with
            | Some e => (Failed e, d)
            | None => (Done (((fun p => (p, DELETE)) <$> deletes) ++ ((fun u => (upd_path u, UPDATE)) <$> updates)), d)
            end
        end.
End Bypass.
End Bypass.

(** Properties of the Set fast path: what it may touch, what a successful request
    has done, the key encoding, and two requests it acknowledges wrongly. *)

Import JsonClient Bypass.

(** A key of an allow-listed table. *)
Definition allowedKey (key : string) : Prop :=
  exists t rest, t ∈ AllowedTables /\ key = t +:+ "|" +:+ rest.

(** The two databases agree outside the allow-listed tables. *)
Definition onlyAllowed (d d' : ConfigDb) : Prop :=
  forall key, ~ allowedKey key -> hashes d' !! key = hashes d !! key.

#[global] Instance onlyAllowed_preorder : PreOrder onlyAllowed.
Proof. split; [by intros d key|]. intros d1 d2 d3 H1 H2 key Hk. by rewrite H2, H1. Qed.

(** The table that the check sees is the one the write goes to. *)
Lemma extract_parse prefix path : (parsePath prefix path).1.1 = extractTable prefix path.
Proof.
  unfold parsePath, extractTable. simpl. induction (allElems prefix path) as [|e es IH]; [done|].
  cbn [fmap list_fmap firstTable]. rewrite filter_cons. destruct (isRoot (elem_name e)); [done|done].
Qed.

Lemma tableAllowed_in t : tableAllowed t = true -> t ∈ AllowedTables.
Proof. unfold tableAllowed. destruct (String.eqb t ""); [done|]. apply bool_decide_eq_true_1. Qed.

Section Bypass.
Context {mr : MapRange}.
Variable fails : nat -> bool.
Variable unmarshalMap : string -> option (gmap string json).
Variable unmarshalBulk : string -> option (gmap string (gmap string json)).
Variable sprintv : json -> string.

Abbreviation trySet := (TrySet fails unmarshalMap unmarshalBulk sprintv).
Abbreviation apply1 := (applyOne fails unmarshalMap unmarshalBulk sprintv).
Abbreviation applyAll := (Apply fails unmarshalMap unmarshalBulk sprintv).
Abbreviation fieldsOf := (redisFields sprintv).

(** * Only allow-listed tables *)

Lemma HSet_only d t rest fields : t ∈ AllowedTables -> onlyAllowed d (HSet fails d (t +:+ "|" +:+ rest) fields).2.
Proof.
  intros Ht key Hk. unfold HSet. destruct (fails _); [done|]. simpl. rewrite lookup_insert_ne; [done|].
  intros <-. apply Hk. by exists t, rest.
Qed.

Lemma Del_only d t rest : t ∈ AllowedTables -> onlyAllowed d (Del fails d (t +:+ "|" +:+ rest)).2.
Proof.
  intros Ht key Hk. unfold Del. destruct (fails _); [done|]. simpl. rewrite lookup_delete_ne; [done|].
  intros <-. apply Hk. by exists t, rest.
Qed.

Lemma bulkLoop_only t d entries : t ∈ AllowedTables -> onlyAllowed d (bulkLoop fails sprintv t d entries).2.
Proof.
  intros Ht. revert d. induction entries as [|[k fs] entries IH]; intros d; [done|]. cbn [bulkLoop].
  pose proof (HSet_only d t k (fieldsOf fs) Ht) as H.
  destruct (HSet fails d _ _) as [[|] d1]; simpl in *; [|done]. by etrans.
Qed.

Lemma applyOne_only prefix u d :
  extractTable prefix (upd_path u) ∈ AllowedTables -> onlyAllowed d (apply1 prefix u d).2.
Proof.
  rewrite <- extract_parse. unfold applyOne. destruct (parsePath prefix (upd_path u)) as [[t k] f]. simpl. intros Ht.
  destruct (String.eqb t ""); [done|]. destruct (String.eqb k "").
  - destruct (_ =? 0); [done|]. destruct (unmarshalBulk _); [|done]. by apply bulkLoop_only.
  - destruct (0 <? _).
    + destruct (unmarshalMap _) as [data|]; [|done]. pose proof (HSet_only d t k (fieldsOf data) Ht) as H.
      by destruct (HSet fails d _ _).
    + destruct (negb _); [|done]. pose proof (HSet_only d t k {[f := scalarString (upd_val u)]} Ht) as H.
      by destruct (HSet fails d _ _).
Qed.

Lemma Apply_only prefix us d : checkAllowedTables prefix us = true -> onlyAllowed d (applyAll prefix us d).2.
Proof.
  revert d. induction us as [|u us IH]; intros d; [done|]. unfold checkAllowedTables. cbn [forallb Apply].
  intros [Hu%tableAllowed_in Hus]%andb_prop. pose proof (applyOne_only prefix u d Hu) as H.
  destruct (apply1 prefix u d) as [[e|] d1]; [done|]. etrans; [done|]. by apply IH.
Qed.

Lemma Delete_only prefix ps d :
  checkAllowedDeletePaths prefix ps = true -> onlyAllowed d (Delete fails prefix ps d).2.
Proof.
  revert d. induction ps as [|p ps IH]; intros d; [done|]. unfold checkAllowedDeletePaths. cbn [forallb Delete].
  intros [Hp%tableAllowed_in Hps]%andb_prop. rewrite <- extract_parse in Hp.
  destruct (parsePath prefix p) as [[t k] f]. simpl in Hp. destruct (_ || _); [done|].
  pose proof (Del_only d t k Hp) as H. destruct (Del fails d _) as [[|] d1]; [|done].
  etrans; [done|]. by apply IH.
Qed.

(** The SKU of the device, as the database has it. *)
Definition skuAllowed (d : ConfigDb) : Prop :=
  exists s p, (hashes d !! "DEVICE_METADATA|localhost" ≫= fun h => h !! "hwsku") = Some s /\
    p ∈ AllowedSKUPrefixes /\ has_prefix s p = true.

Lemma checkSKU_spec d : hashes (checkSKU fails d).2 = hashes d /\ ((checkSKU fails d).1 = true -> skuAllowed d).
Proof.
  unfold checkSKU, HGet. split; [done|]. cbn [fst]. destruct (fails _); [done|].
  destruct (hashes d !! _ ≫= _) as [s|] eqn:E; [|done]. rewrite existsb_exists.
  intros (p & Hin%list_elem_of_In & Hp). by exists s, p.
Qed.

Lemma should_spec md prefix us d b d1 :
  ShouldBypass fails md prefix us d = (b, d1) ->
  hashes d1 = hashes d /\ (b = true -> hasBypassHeader md = true /\ skuAllowed d /\ checkAllowedTables prefix us = true).
Proof.
  unfold ShouldBypass. destruct (hasBypassHeader md); [|by intros [= <- <-]]. cbn [negb].
  destruct (checkSKU_spec d) as [H1 H2]. destruct (checkSKU fails d) as [ok d2]. cbn [fst snd] in *.
  destruct ok; cbn [negb]; intros [= <- <-]; [|done]. split; [done|]. naive_solver.
Qed.

Lemma shouldDelete_spec md prefix ps d b d1 :
  ShouldBypassDelete fails md prefix ps d = (b, d1) ->
  hashes d1 = hashes d /\ (b = true -> hasBypassHeader md = true /\ skuAllowed d /\ checkAllowedDeletePaths prefix ps = true).
Proof.
  unfold ShouldBypassDelete. destruct (hasBypassHeader md); [|by intros [= <- <-]]. cbn [negb].
  destruct (checkSKU_spec d) as [H1 H2]. destruct (checkSKU fails d) as [ok d2]. cbn [fst snd] in *.
  destruct ok; cbn [negb]; intros [= <- <-]; [|done]. split; [done|]. naive_solver.
Qed.

Lemma skuAllowed_hashes d d' : hashes d' = hashes d -> skuAllowed d' -> skuAllowed d.
Proof. unfold skuAllowed. by intros ->. Qed.

(** What the guards of [TrySet] establish before anything is written. *)
Lemma trySet_guards md prefix deletes updates d out d' :
  trySet md prefix deletes updates d = (out, d') ->
  (out = NotUsed /\ hashes d' = hashes d) \/
  exists d1, hashes d1 = hashes d /\ hasBypassHeader md = true /\ skuAllowed d /\
    checkAllowedDeletePaths prefix deletes = true /\ checkAllowedTables prefix updates = true /\
    (out, d') = (let '(e, d2) := Delete fails prefix deletes d1 in
      match e with
      | Some e => (Failed e, d2)
      | None => let '(e, d3) := applyAll prefix updates d2 in
          match e with
          | Some e => (Failed e, d3)
          | None => (Done (((fun p => (p, DELETE)) <$> deletes) ++ ((fun u => (upd_path u, UPDATE)) <$> updates)), d3)
          end
      end).
Proof.
  unfold TrySet. destruct updates as [|u us], deletes as [|p ps]; cbn [length Nat.eqb andb Nat.ltb Nat.leb negb].
  - intros [= <- <-]. by left.
  - destruct (ShouldBypassDelete _ _ _ _ _) as [b d1] eqn:E. apply shouldDelete_spec in E as [H1 H2].
    destruct b; cbn [negb]; [|intros [= <- <-]; by left]. destruct (H2 eq_refl) as (?&?&?).
    intros <-. right. exists d1. split_and!; done.
  - destruct (ShouldBypass _ _ _ _ _) as [b d1] eqn:E. apply should_spec in E as [H1 H2].
    destruct b; cbn [negb]; [|intros [= <- <-]; by left]. destruct (H2 eq_refl) as (?&?&?).
    intros <-. right. exists d1. split_and!; done.
  - destruct (ShouldBypass _ _ _ _ _) as [b d1] eqn:E. apply should_spec in E as [H1 H2].
    destruct b; cbn [negb]; [|intros [= <- <-]; by left]. destruct (H2 eq_refl) as (?&?&?).
    destruct (ShouldBypassDelete _ _ _ _ _) as [b d2] eqn:E'. apply shouldDelete_spec in E' as [H1' H2'].
    destruct b; cbn [negb]; [|intros [= <- <-]; left; split; [done|congruence]]. destruct (H2' eq_refl) as (?&?&?).
    intros <-. right. exists d2. split_and!; try done. congruence.
Qed.

(** C30. Whatever the request and whatever Redis commands fail, the fast path changes
    only keys of allow-listed tables; it changes nothing when it reports that it was
    not used; and it is used only with the bypass header set to true on a device
    whose SKU has an allowed prefix. *)
Theorem trySet_only_allowed md prefix deletes updates d out d' :
  trySet md prefix deletes updates d = (out, d') ->
  onlyAllowed d d' /\ (out = NotUsed -> hashes d' = hashes d) /\
  (out <> NotUsed -> hasBypassHeader md = true /\ skuAllowed d).
Proof.
  intros [[-> H]|(d1 & H1 & Hh & Hs & Hd & Hu & H)]%trySet_guards.
  { split_and!; [intros key _; by rewrite H|done|done]. }
  assert (onlyAllowed d d') as Ho.
  { pose proof (Delete_only prefix deletes d1 Hd) as K1. trans d1; [intros key _; by rewrite H1|].
    destruct (Delete fails prefix deletes d1) as [[e|] d2]; [by injection H as -> ->|].
    pose proof (Apply_only prefix updates d2 Hu) as K2. destruct (applyAll prefix updates d2) as [[e|] d3];
      injection H as -> ->; by etrans. }
  split_and!; [done| |done]. intros ->. destruct (Delete _ _ _ _) as [[e|] ?]; [done|].
  by destruct (applyAll _ _ _) as [[e|] ?].
Qed.

(** * What a request writes *)

Inductive dbwrite := WDel (key : string) | WSet (key : string) (fields : gmap string string).

Definition run (h : gmap string (gmap string string)) (w : dbwrite) : gmap string (gmap string string) :=
  match w with
  | WDel k => delete k h
  | WSet k fields => <[k := fields ∪ default ∅ (h !! k)]> h
  end.

(** The writes that a delete path and an update stand for; [None] when invalid. *)
Definition deleteWrite (prefix path : option Path) : option dbwrite :=
  let '(t, k, _) := parsePath prefix path in
  if String.eqb t "" || String.eqb k "" then None else Some (WDel (t +:+ "|" +:+ k)).

Definition updateWrites (prefix : option Path) (u : Update) : option (list dbwrite) :=
  let '(t, k, f) := parsePath prefix (upd_path u) in
  let js := GetJsonIetfVal (upd_val u) in
  if String.eqb t "" then None
  else if String.eqb k "" then
    if String.eqb js "" then None
    else (fun b => (fun '(ek, ef) => WSet (t +:+ "|" +:+ ek) (fieldsOf ef)) <$> range_of b) <$> unmarshalBulk js
  else if negb (String.eqb js "") then
    (fun data => [WSet (t +:+ "|" +:+ k) (fieldsOf data)]) <$> unmarshalMap js
  else if negb (String.eqb f "") then
    Some [WSet (t +:+ "|" +:+ k) {[f := scalarString (upd_val u)]}]
  else Some [].

Lemma length0 s : (String.length s =? 0) = String.eqb s "".
Proof. by destruct s. Qed.

Lemma length_pos s : (0 <? String.length s) = negb (String.eqb s "").
Proof. by destruct s. Qed.

Lemma bulkLoop_writes t d entries d' :
  bulkLoop fails sprintv t d entries = (None, d') ->
  hashes d' = fold_left run ((fun '(ek, ef) => WSet (t +:+ "|" +:+ ek) (fieldsOf ef)) <$> entries) (hashes d).
Proof.
  revert d. induction entries as [|[k e] entries IH]; intros d; cbn [bulkLoop]; [by intros [= <-]|].
  unfold HSet. destruct (fails _); [done|]. intros Hb%IH. rewrite Hb. done.
Qed.

Lemma applyOne_writes prefix u d d' :
  apply1 prefix u d = (None, d') ->
  exists ws, updateWrites prefix u = Some ws /\ hashes d' = fold_left run ws (hashes d).
Proof.
  unfold applyOne, updateWrites. destruct (parsePath prefix (upd_path u)) as [[t k] f]. cbv zeta.
  rewrite length0, length_pos. destruct (String.eqb t ""); [done|]. destruct (String.eqb k "").
  - destruct (String.eqb _ ""); [done|]. destruct (unmarshalBulk _) as [b|]; [|done].
    intros Hb%bulkLoop_writes. eexists. split; [done|]. done.
  - destruct (negb (String.eqb (GetJsonIetfVal _) "")).
    + destruct (unmarshalMap _) as [data|]; [|done]. unfold HSet. destruct (fails _); [done|].
      intros [= <-]. eexists. split; [done|]. done.
    + destruct (negb _); [|intros [= <-]; by eexists]. unfold HSet. destruct (fails _); [done|].
      intros [= <-]. eexists. split; [done|]. done.
Qed.

Lemma Apply_writes prefix us d d' :
  applyAll prefix us d = (None, d') ->
  exists wss, mapM (updateWrites prefix) us = Some wss /\ hashes d' = fold_left run (concat wss) (hashes d).
Proof.
  revert d. induction us as [|u us IH]; intros d; cbn [Apply]; [intros [= <-]; by exists []|].
  destruct (apply1 prefix u d) as [[e|] d1] eqn:E; [done|].
  apply applyOne_writes in E as (ws & Hw & H1). intros (wss & Hm & H2)%IH. exists (ws :: wss). simpl. rewrite Hw. simpl.
  rewrite Hm. split; [done|]. by rewrite fold_left_app, <- H1.
Qed.

Lemma Delete_writes prefix ps d d' :
  Delete fails prefix ps d = (None, d') ->
  exists ws, mapM (deleteWrite prefix) ps = Some ws /\ hashes d' = fold_left run ws (hashes d).
Proof.
  revert d. induction ps as [|p ps IH]; intros d; cbn [Delete]; [intros [= <-]; by exists []|].
  destruct (parsePath prefix p) as [[t k] f] eqn:Ep. destruct (_ || _) eqn:Eo; [done|].
  unfold Del. destruct (fails _); [done|]. intros (ws & Hm & H)%IH. exists (WDel (t +:+ "|" +:+ k) :: ws).
  assert (deleteWrite prefix p = Some (WDel (t +:+ "|" +:+ k))) as Hd by (unfold deleteWrite; by rewrite Ep, Eo).
  simpl. rewrite Hd. simpl. rewrite Hm. by rewrite H.
Qed.

(** A request that the fast path completes has performed exactly the writes that
    its paths and values stand for, every delete before every update and each in the
    order of the request, and reports one result per operation in that order. *)
Theorem trySet_done md prefix deletes updates d rs d' :
  trySet md prefix deletes updates d = (Done rs, d') ->
  exists wd wu, mapM (deleteWrite prefix) deletes = Some wd /\ mapM (updateWrites prefix) updates = Some wu /\
    hashes d' = fold_left run (wd ++ concat wu) (hashes d) /\
    rs = ((fun p => (p, DELETE)) <$> deletes) ++ ((fun u => (upd_path u, UPDATE)) <$> updates).
Proof.
  intros [[? _]|(d1 & H1 & _ & _ & _ & _ & H)]%trySet_guards; [done|].
  destruct (Delete fails prefix deletes d1) as [[e|] d2] eqn:Ed; [done|].
  destruct (applyAll prefix updates d2) as [[e|] d3] eqn:Eu; [done|]. injection H as -> ->.
  apply Delete_writes in Ed as (wd & Hwd & H2). apply Apply_writes in Eu as (wu & Hwu & H3).
  exists wd, wu. split_and!; try done. by rewrite fold_left_app, <- H1, <- H2.
Qed.

(** * Requests that are acknowledged wrongly *)

(** A delete path that names a field removes the whole entry, other fields
    included, and an integer value of zero is stored as the empty string. *)
Theorem bypass_wrong_effects prefix path t k f d d' u :
  parsePath prefix path = (t, k, f) -> t <> "" -> k <> "" ->
  (Delete fails prefix [path] d = (None, d') -> hashes d' !! (t +:+ "|" +:+ k) = None) /\
  (upd_path u = path -> upd_val u = Some (IntVal 0) -> f <> "" ->
   updateWrites prefix u = Some [WSet (t +:+ "|" +:+ k) {[f := ""]}]).
Proof.
  intros Hp Ht%String.eqb_neq Hk%String.eqb_neq. split.
  - cbn [Delete]. rewrite Hp, Ht, Hk. simpl. unfold Del. destruct (fails _); [done|]. intros [= <-]. simpl.
    by rewrite lookup_delete_eq.
  - intros Hu Hv Hf%String.eqb_neq. unfold updateWrites. rewrite Hu, Hp, Hv. simpl. by rewrite Ht, Hk, Hf.
Qed.
End Bypass.

(** * The key encoding *)

(** The escaping of RFC 6901. *)
Fixpoint encodeJsonPointer (s : string) : string :=
  match s with
  | EmptyString => EmptyString
  | String c s =>
      if Ascii.eqb c (Ascii.ascii_of_nat 126) then "~0" +:+ encodeJsonPointer s
      else if Ascii.eqb c (Ascii.ascii_of_nat 47) then "~1" +:+ encodeJsonPointer s
      else String c (encodeJsonPointer s)
  end.

Lemma str_app_2 a b s : String a (String b "") +:+ s = String a (String b s).
Proof. done. Qed.

Lemma str_app_1 a s : String a "" +:+ s = String a s.
Proof. done. Qed.

(** Only the tilde escaped. *)
Fixpoint encodeTilde (s : string) : string :=
  match s with
  | EmptyString => EmptyString
  | String c s =>
      if Ascii.eqb c (Ascii.ascii_of_nat 126) then "~0" +:+ encodeTilde s else String c (encodeTilde s)
  end.

Lemma replace_slash s : replace_all (encodeJsonPointer s) "~1" "/" = encodeTilde s.
Proof.
  unfold replace_all. induction s as [|c s IH]; [done|]. cbn [encodeJsonPointer encodeTilde].
  destruct (Ascii.eqb_spec c (Ascii.ascii_of_nat 126)) as [->|Ht].
  - rewrite !str_app_2. cbn. by rewrite IH.
  - destruct (Ascii.eqb_spec c (Ascii.ascii_of_nat 47)) as [->|Hs].
    + rewrite str_app_2. cbn. by rewrite str_app_1, IH.
    + cbn [replace_go str_prefix]. rewrite (proj2 (Ascii.eqb_neq _ c)) by (intros <-; by apply Ht).
      cbn [andb]. by rewrite IH.
Qed.

Lemma replace_tilde s : replace_all (encodeTilde s) "~0" "~" = s.
Proof.
  unfold replace_all. induction s as [|c s IH]; [done|]. cbn [encodeTilde].
  destruct (Ascii.eqb_spec c (Ascii.ascii_of_nat 126)) as [->|Ht].
  - rewrite str_app_2. cbn. by rewrite str_app_1, IH.
  - cbn [replace_go str_prefix]. rewrite (proj2 (Ascii.eqb_neq _ c)) by (intros <-; by apply Ht).
    cbn [andb]. by rewrite IH.
Qed.

(** Decoding a key that was escaped by the rules of RFC 6901 gives it back, for
    every key, whatever tildes, slashes and escape look-alikes it contains. *)
Theorem decode_encode s : decodeJsonPointer (encodeJsonPointer s) = s.
Proof. unfold decodeJsonPointer. by rewrite replace_slash, replace_tilde. Qed.

(** * Witnesses *)

Definition bypass_db : ConfigDb :=
  mkDb {[ "DEVICE_METADATA|localhost" := {[ "hwsku" := "Cisco-8102-C64" ]};
          "VNET|Vnet1" := {[ "vni" := "1000"; "scope" := "default" ]} ]} 0.

Definition bypass_path (names : list string) : option Path := Some (mkPath "" "" (ename <$> names)).

Definition bypass_run :=
  TrySet (fun _ => false) (fun _ => None) (fun _ => None) (fun _ => "") (Some ["true"]) None
    [bypass_path ["CONFIG_DB"; "localhost"; "VNET"; "Vnet1"; "vni"]]
    [mkUpdate (bypass_path ["VNET"; "Vnet2"; "vni"]) (Some (StringVal "2000"))] bypass_db.

Lemma trySet_only_allowed_witness : exists out d', bypass_run = (out, d') /\ onlyAllowed bypass_db d' /\ out <> NotUsed.
Proof.
  destruct bypass_run as [out d'] eqn:E. exists out, d'. split; [done|]. split.
  - by eapply trySet_only_allowed.
  - intros ->. vm_compute in E. discriminate E.
Defined.

Lemma trySet_done_witness :
  exists rs d', bypass_run = (Done rs, d') /\ length rs = 2.
Proof.
  assert (exists rs d', bypass_run = (Done rs, d')) as (rs & d' & E) by (do 2 eexists; vm_compute; reflexivity).
  exists rs, d'. split; [done|].
  destruct (trySet_done _ _ _ _ _ _ _ _ _ _ _ E) as (wd & wu & _ & _ & _ & ->). reflexivity.
Defined.

Lemma bypass_wrong_effects_witness :
  (Delete (fun _ => false) None [bypass_path ["VNET"; "Vnet1"; "vni"]] bypass_db).1 = None /\
  hashes (Delete (fun _ => false) None [bypass_path ["VNET"; "Vnet1"; "vni"]] bypass_db).2 !! "VNET|Vnet1" = None.
Proof.
  split; [reflexivity|].
  eapply (bypass_wrong_effects (fun _ => false) (fun _ => None) (fun _ => None) (fun _ => "") None
    (bypass_path ["VNET"; "Vnet1"; "vni"]) "VNET" "Vnet1" "vni" bypass_db _ (mkUpdate None None));
    [reflexivity|done|done|reflexivity].
Defined.
