(* ===== verification/Auth.v ===== *)
(** Authentication of RPCs (src/gnmi_server/server.go, basicAuth.go, jwtAuth.go,
    pamAuth.go, clientCertAuth.go): the enabled methods, the three authenticators,
    the role check of certificate users and the CRL cache.

    The authenticators write user and roles into the authentication record of the
    request, which is one shared object; it is threaded through here, so what a
    failed method leaves in it is visible to the next one.  The host's user
    database, SSH, JWT verification, the certificate role table, HTTP and the
    revocation check are parameters. *)

From S2P Require Import Prelude GnmiTypes.

Module Auth.

(** * The configured methods *)

Abbreviation AuthTypes := (gmap string bool).

Definition isSet (i : AuthTypes) (mode : string) : bool := default false (i !! mode).

Definition Any `{!MapRange} (i : AuthTypes) : bool :=
  if isSet i "none" then false else existsb (fun '(_, value) => value) (range_of i).

Definition Enabled (i : AuthTypes) (mode : string) : bool :=
  if isSet i "none" then false
  else match i !! mode with Some true => true | _ => false end.

(** [AuthTypes.Set] and [AuthTypes.Unset]; an unknown mode stops the loop, the modes
    before it stay changed. *)
Fixpoint setModes (i : AuthTypes) (modes : list string) : bool * AuthTypes :=
  match modes with
  | [] => (true, i)
  | m :: modes =>
      let m := trim_blanks m in
      if String.eqb m "none" || String.eqb m "" then (true, <["none" := true]> i)
      else match i !! m with
           | None => (false, i)
           | Some _ => setModes (<[m := true]> i) modes
           end
  end.

Definition Set_ (i : AuthTypes) (mode : string) : bool * AuthTypes := setModes i (str_split mode ",").

Fixpoint unsetModes (i : AuthTypes) (modes : list string) : bool * AuthTypes :=
  match modes with
  | [] => (true, i)
  | m :: modes =>
      let m := trim_blanks m in
      match i !! m with
      | None => (false, i)
      | Some _ => unsetModes (<[m := false]> i) modes
      end
  end.

Definition Unset (i : AuthTypes) (mode : string) : bool * AuthTypes := unsetModes i (str_split mode ",").

(** * The request and its authentication record *)

Record AuthInfo := mkAuthInfo { User : string; AuthEnabled : bool; Roles : list string }.

Definition noAuthInfo : AuthInfo := mkAuthInfo "" false [].

Record Certificate := mkCert { CommonName : string; CRLDistributionPoints : list string }.

(** The parts of the context that the authenticators read: the transport, the first
    value of each metadata key, and the verified chains of a TLS connection. *)
Record Request := mkRequest {
  peerIsUnix : bool;
  metadata : option (gmap string string);
  tlsChains : option (list (list Certificate))
}.

Record Config := mkConfig {
  UserAuth : AuthTypes;
  ConfigTableName : string;
  EnableCrl : bool
}.

(** * The CRL cache *)

Record Crl := mkCrl { thisUpdate : Z; nextUpdate : Z; crl : string }.

Abbreviation CrlCache := (gmap string Crl).

Section Auth.
Context `{!MapRange}.
(** [user.Lookup] with [GetUserRoles], [UserPwAuth], the claims of a valid token,
    [Get_entry] of the role table, [http.Get], and [CheckChainRevocation]. *)
Variable lookupUser : string -> option (list string).
Variable sshLogin : string -> string -> bool.
Variable validClaims : string -> option (string * list string).
Variable certTable : string -> string -> gmap string string.
Variable httpGet : string -> option string.
Variable revoked : list (list Certificate) -> list string -> bool.
Variable expireDuration : Z.

Definition AppendCrlToCache (now : Z) (c : CrlCache) (url rawCRL : string) : CrlCache :=
  <[url := mkCrl now now rawCRL]> c.

Definition CrlExpired (now : Z) (e : Crl) : bool := (thisUpdate e + expireDuration <? now)%Z.

Definition CrlNeedUpdate (now : Z) (e : Crl) : bool := (nextUpdate e <? now)%Z.

Definition RemoveExpiredCrl (now : Z) (c : CrlCache) : CrlCache :=
  base.filter (fun '(_, e) => CrlExpired now e = false) c.

Definition SearchCrlCache (now : Z) (c : CrlCache) (url : string) : option Crl * CrlCache :=
  match c !! url with
  | None => (None, c)
  | Some e =>
      if CrlExpired now e then (None, delete url c)
      else if CrlNeedUpdate now e then (None, delete url c)
      else (Some e, c)
  end.

Definition TryDownload (now : Z) (c : CrlCache) (url : string) : bool * CrlCache :=
  match httpGet url with
  | None => (false, c)
  | Some content => (true, AppendCrlToCache now c url content)
  end.

Fixpoint DownloadNotCachedCrl (now : Z) (c : CrlCache) (urls : list string) : bool * CrlCache :=
  match urls with
  | [] => (false, c)
  | url :: urls =>
      let '(e, c) := SearchCrlCache now c url in
      let '(here, c) := match e with Some _ => (true, c) | None => TryDownload now c url end in
      let '(later, c) := DownloadNotCachedCrl now c urls in
      (here || later, c)
  end.

(** [CreateStaticCRLProvider]: the fresh entries, after a leading empty one. *)
Definition CreateStaticCRLProvider (now : Z) (c : CrlCache) : list string * CrlCache :=
  let c := RemoveExpiredCrl now c in
  ("" :: ((fun '(_, e) => crl e) <$> range_of c), c).

Definition VerifyCertCrl (now : Z) (c : CrlCache) (chains : list (list Certificate)) (cert : Certificate)
    : option Code * CrlCache :=
  match CRLDistributionPoints cert with
  | [] => (None, c)
  | urls =>
      let '(crlAvaliable, c) := DownloadNotCachedCrl now c urls in
      if negb crlAvaliable then (Some Unauthenticated, c)
      else
        let '(provider, c) := CreateStaticCRLProvider now c in
        (if revoked chains provider then Some Unauthenticated else None, c)
  end.

(** * The authenticators *)

(** [PopulateAuthStruct]; the result is whether it succeeded. *)
Definition PopulateAuthStruct (username : string) (a : AuthInfo) (r : list string) : bool * AuthInfo :=
  match r with
  | [] =>
      match lookupUser username with
      | None => (false, a)
      | Some roles => (true, mkAuthInfo username (AuthEnabled a) roles)
      end
  | _ => (true, mkAuthInfo username (AuthEnabled a) r)
  end.

Definition BasicAuthenAndAuthor (req : Request) (a : AuthInfo) : option Code * AuthInfo :=
  match metadata req with
  | None => (Some Unknown, a)
  | Some md =>
      match md !! "username" with
      | None => (Some Unauthenticated, a)
      | Some username =>
          match md !! "password" with
          | None => (Some Unauthenticated, a)
          | Some passwd =>
              let '(ok, a) := PopulateAuthStruct username a [] in
              if negb ok then (Some Unauthenticated, a)
              else if negb (sshLogin username passwd) then (Some PermissionDenied, a)
              else (None, a)
          end
      end
  end.

Definition JwtAuthenAndAuthor (req : Request) (a : AuthInfo) : option Code * AuthInfo :=
  match metadata req with
  | None => (Some Unknown, a)
  | Some md =>
      match md !! "access_token" with
      | None => (Some Unauthenticated, a)
      | Some token =>
          match validClaims token with
          | None => (Some Unauthenticated, a)
          | Some (username, roles) =>
              let '(ok, a) := PopulateAuthStruct username a roles in
              (if ok then None else Some Unauthenticated, a)
          end
      end
  end.

(** [PopulateAuthStructByCommonName]: the roles of an entry replace those of the
    record; without an entry the record is left as it is. *)
Definition PopulateAuthStructByCommonName (certCommonName : string) (a : AuthInfo) (table : string)
    : option Code * AuthInfo :=
  if String.eqb table "" then (Some Unauthenticated, a)
  else
    let fv := certTable table certCommonName in
    let a :=
      match fv !! "role@" with
      | Some role => mkAuthInfo (User a) (AuthEnabled a) (str_split role ",")
      | None =>
          match fv !! "role" with
          | Some role => mkAuthInfo (User a) (AuthEnabled a) [role]
          | None => a
          end
      end in
    (if length (Roles a) =? 0 then Some Unauthenticated else None, a).

Definition ClientCertAuthenAndAuthor (now : Z) (req : Request) (a : AuthInfo) (c : CrlCache)
    (table : string) (enableCrl : bool) : option Code * AuthInfo * CrlCache :=
  match tlsChains req with
  | Some ((cert :: chain) :: chains) =>
      let username := CommonName cert in
      if String.length username =? 0 then (Some Unauthenticated, a, c)
      else
        let '(err, a) :=
          if negb (String.eqb table "") then PopulateAuthStructByCommonName username a table
          else let '(ok, a) := PopulateAuthStruct username a [] in
               (if ok then None else Some Unauthenticated, a) in
        match err with
        | Some e => (Some e, a, c)
        | None =>
            if enableCrl then
              let '(err, c) := VerifyCertCrl now c ((cert :: chain) :: chains) cert in (err, a, c)
            else (None, a, c)
        end
  | _ => (Some Unauthenticated, a, c)
  end.

(** * The role check *)

Definition NoAccessMode : string := "noaccess".
Definition ReadOnlyMode : string := "readonly".
Definition WriteAccessMode : string := "readwrite".

Inductive RoleVerdict := Denied | Match | NoMatch.

Fixpoint roleLoop (target : string) (writeAccess : bool) (roles : list string) : RoleVerdict :=
  match roles with
  | [] => NoMatch
  | role :: roles =>
      let role := trim_space role in
      if has_prefix role target then
        let postfix := trim_prefix (trim_prefix role target) "_" in
        if String.eqb postfix NoAccessMode then Denied
        else if String.eqb postfix ReadOnlyMode then
          if writeAccess then Denied else Match
        else if String.eqb postfix WriteAccessMode then Match
        else roleLoop target writeAccess roles
      else roleLoop target writeAccess roles
  end.

(** [authenticate]; [None] is success. *)
Definition authenticate (config : Config) (now : Z) (req : Request) (a : AuthInfo) (c : CrlCache)
    (target : string) (writeAccess : bool) : option Code * AuthInfo * CrlCache :=
  if peerIsUnix req then (None, mkAuthInfo (User a) false (Roles a), c)
  else if negb (Any (UserAuth config)) then (None, mkAuthInfo (User a) false (Roles a), c)
  else
    let a := mkAuthInfo (User a) true (Roles a) in
    let '(success, a) :=
      if Enabled (UserAuth config) "password" then
        let '(err, a) := BasicAuthenAndAuthor req a in
        (match err with None => true | Some _ => false end, a)
      else (false, a) in
    let '(success, a) :=
      if negb success && Enabled (UserAuth config) "jwt" then
        let '(err, a) := JwtAuthenAndAuthor req a in
        (match err with None => true | Some _ => false end, a)
      else (success, a) in
    if negb success && Enabled (UserAuth config) "cert" then
      let '(err, a, c) := ClientCertAuthenAndAuthor now req a c (ConfigTableName config) (EnableCrl config) in
      match err with
      | Some _ => (Some Unauthenticated, a, c)
      | None =>
          if negb (String.eqb (ConfigTableName config) "") then
            match roleLoop (to_lower target) writeAccess (Roles a) with
            | Denied => (Some Unknown, a, c)
            | Match => (None, a, c)
            | NoMatch => if writeAccess then (Some Unknown, a, c) else (None, a, c)
            end
          else (None, a, c)
      end
    else (if success then None else Some Unauthenticated, a, c).

End Auth.
End Auth.

(** Properties of authentication: write access of certificate users, the roles that
    a failed password attempt leaves behind, and the CRL cache. *)

Import Auth.

(** The roles that an entry of the role table grants. *)
Definition entryRoles (fv : gmap string string) : list string :=
  match fv !! "role@" with
  | Some role => str_split role ","
  | None => match fv !! "role" with Some role => [role] | None => [] end
  end.

(** A role that grants writing to the target. *)
Definition grantsWrite (target role : string) : Prop :=
  trim_space role = to_lower target +:+ "_readwrite" \/ trim_space role = to_lower target +:+ "readwrite".

Lemma roleLoop_write target roles :
  roleLoop target true roles = Match ->
  exists role, role ∈ roles /\ (trim_space role = target +:+ "_readwrite" \/ trim_space role = target +:+ "readwrite").
Proof.
  induction roles as [|role roles IH]; cbn [roleLoop]; [done|].
  assert (roleLoop target true roles = Match -> exists role0, role0 ∈ role :: roles /\
    (trim_space role0 = target +:+ "_readwrite" \/ trim_space role0 = target +:+ "readwrite")) as Hrec.
  { intros (r & Hr & H)%IH. exists r. split; [by right|done]. }
  destruct (has_prefix (trim_space role) target) eqn:Ep; [|done].
  destruct (proj1 (has_prefix_spec _ _) Ep) as [p Hp]. rewrite Hp, trim_prefix_app.
  destruct (String.eqb _ NoAccessMode); [done|]. destruct (String.eqb _ ReadOnlyMode); [done|].
  destruct (String.eqb_spec (trim_prefix p "_") WriteAccessMode) as [E|_]; [|done]. intros _.
  exists role. split; [left|]. rewrite Hp. unfold trim_prefix in E.
  destruct (has_prefix p "_") eqn:Eu.
  - left. destruct (proj1 (has_prefix_spec _ _) Eu) as [q ->]. f_equal. f_equal. exact E.
  - right. by rewrite E.
Qed.

Section Auth.
Context {mr : MapRange}.
Variable lookupUser : string -> option (list string).
Variable sshLogin : string -> string -> bool.
Variable validClaims : string -> option (string * list string).
Variable certTable : string -> string -> gmap string string.
Variable httpGet : string -> option string.
Variable revoked : list (list Certificate) -> list string -> bool.
Variable expireDuration : Z.

Abbreviation auth := (authenticate lookupUser sshLogin validClaims certTable httpGet revoked expireDuration).
Abbreviation clientCert := (ClientCertAuthenAndAuthor lookupUser certTable httpGet revoked expireDuration).
Abbreviation verifyCrl := (VerifyCertCrl httpGet revoked expireDuration).

(** Certificates are the only enabled method, with a role table. *)
Definition certOnly (config : Config) : Prop :=
  Any (UserAuth config) = true /\ Enabled (UserAuth config) "password" = false /\
  Enabled (UserAuth config) "jwt" = false /\ ConfigTableName config <> "".

Lemma clientCert_ok now req a c table crl a' c' :
  clientCert now req a c table crl = (None, a', c') -> table <> "" ->
  exists cert chain chains, tlsChains req = Some ((cert :: chain) :: chains) /\ CommonName cert <> "" /\
    (Roles a' = entryRoles (certTable table (CommonName cert)) \/
     entryRoles (certTable table (CommonName cert)) = [] /\ Roles a' = Roles a) /\
    (crl = true -> (verifyCrl now c ((cert :: chain) :: chains) cert).1 = None).
Proof.
  unfold ClientCertAuthenAndAuthor. intros H Ht%String.eqb_neq.
  destruct (tlsChains req) as [[|[|cert chain] chains]|]; try done.
  destruct (CommonName cert) as [|x cn] eqn:Ecn; [done|]. cbn [String.length Nat.eqb] in H. rewrite Ht in H.
  cbn [negb] in H. unfold PopulateAuthStructByCommonName in H. rewrite Ht in H.
  exists cert, chain, chains. rewrite Ecn. split; [done|]. split; [done|]. unfold entryRoles.
  destruct (_ =? 0) in H; [done|]. destruct crl.
  - destruct (verifyCrl now c _ cert) as [e c1] eqn:Ev. injection H as -> <- <-. split; [|done].
    destruct (_ !! "role@"); [by left|]. destruct (_ !! "role"); [by left|by right].
  - injection H as <- <-. split; [|done].
    destruct (_ !! "role@"); [by left|]. destruct (_ !! "role"); [by left|by right].
Qed.

(** C31. Where certificates are the only enabled method and a role table is configured,
    write access is granted only to a peer on a Unix socket, which is not authenticated at
    all, or over a verified certificate with a common name and a readwrite role of the
    target: a role of the name's table entry, or, when the entry has no roles, one that
    the context of the request had before; and, when revocation checks are enabled, only
    if the check passed. *)
Theorem write_needs_role config now req a c target a' c' :
  certOnly config -> auth config now req a c target true = (None, a', c') ->
  peerIsUnix req = true \/
  exists cert chain chains role, tlsChains req = Some ((cert :: chain) :: chains) /\ CommonName cert <> "" /\
    (let granted := entryRoles (certTable (ConfigTableName config) (CommonName cert)) in
     role ∈ granted \/ granted = [] /\ role ∈ Roles a) /\ grantsWrite target role /\
    (EnableCrl config = true -> (verifyCrl now c ((cert :: chain) :: chains) cert).1 = None).
Proof.
  intros (Hany & Hp & Hj & Ht). unfold authenticate. destruct (peerIsUnix req); [by left|]. rewrite Hany, Hp, Hj. cbn [negb andb].
  destruct (Enabled (UserAuth config) "cert"); [|done].
  destruct (clientCert _ _ _ _ _ _) as [[[e|] a1] c1] eqn:Ec; [done|].
  apply clientCert_ok in Ec as (cert & chain & chains & Htls & Hcn & Hroles & Hcrl); [|done].
  rewrite (proj2 (String.eqb_neq _ _) Ht). cbn [negb].
  destruct (roleLoop _ true (Roles a1)) eqn:El; try done. intros _. right.
  apply roleLoop_write in El as (role & Hin & Hg). exists cert, chain, chains, role. split_and!; try done.
  destruct Hroles as [E|[E Ea]]; [left; by rewrite <- E|right; split; [done|]]. by rewrite Ea in Hin.
Qed.

(** The roles that a failed password attempt wrote into the request survive into
    the certificate check: with both methods enabled, a client whose certificate is
    not in the role table and whose password is wrong is authenticated, with write
    access, on the strength of the roles of the user it named. *)
Theorem failed_password_grants_roles config now req a c target md u p roles cert chain chains :
  Any (UserAuth config) = true -> Enabled (UserAuth config) "password" = true ->
  Enabled (UserAuth config) "jwt" = false -> Enabled (UserAuth config) "cert" = true ->
  ConfigTableName config <> "" -> EnableCrl config = false ->
  peerIsUnix req = false -> metadata req = Some md -> md !! "username" = Some u -> md !! "password" = Some p ->
  lookupUser u = Some roles -> sshLogin u p = false -> roleLoop (to_lower target) true roles = Match ->
  tlsChains req = Some ((cert :: chain) :: chains) -> CommonName cert <> "" ->
  certTable (ConfigTableName config) (CommonName cert) = ∅ ->
  entryRoles (certTable (ConfigTableName config) (CommonName cert)) = [] /\
  auth config now req a c target true = (None, mkAuthInfo u true roles, c).
Proof.
  intros Hany Hpw Hjwt Hcert Ht Hcrl Hun Hmd Hu Hp Hl Hs Hm Htls Hcn Hempty.
  split; [unfold entryRoles; by rewrite Hempty, !lookup_empty|]. unfold authenticate.
  rewrite Hun, Hany, Hpw, Hjwt, Hcert. cbn [negb]. unfold BasicAuthenAndAuthor. rewrite Hmd, Hu, Hp.
  unfold PopulateAuthStruct. rewrite Hl. cbn [negb]. rewrite Hs. cbn [negb andb].
  unfold ClientCertAuthenAndAuthor. rewrite Htls. destruct (CommonName cert) as [|x cn]; [done|].
  cbn [String.length Nat.eqb]. apply String.eqb_neq in Ht. rewrite Ht. cbn [negb].
  unfold PopulateAuthStructByCommonName. rewrite Ht, Hempty, !lookup_empty, Hcrl. cbn [User AuthEnabled Roles].
  destruct roles as [|r roles]; [done|]. cbn [length Nat.eqb Roles]. by rewrite Hm.
Qed.

(** * The CRL cache *)

(** Every entry was put into the cache before [now]. *)
Definition filledBefore (now : Z) (c : CrlCache) : Prop :=
  map_Forall (fun _ e => (nextUpdate e < now)%Z) c.

Lemma download_fails now c urls :
  filledBefore now c -> Forall (fun url => httpGet url = None) urls ->
  (DownloadNotCachedCrl httpGet expireDuration now c urls).1 = false /\
  filledBefore now (DownloadNotCachedCrl httpGet expireDuration now c urls).2.
Proof.
  intros Hc Hd. revert c Hc. induction Hd as [|url urls Hu Hd IH]; intros c Hc; [done|]. cbn [DownloadNotCachedCrl].
  unfold SearchCrlCache, TryDownload. rewrite Hu. destruct (c !! url) as [e|] eqn:Ee.
  - assert (CrlNeedUpdate now e = true) as Hn by (apply Z.ltb_lt; by apply (Hc url e)). rewrite Hn.
    assert (filledBefore now (delete url c)) as Hdel by by apply map_Forall_delete.
    destruct (CrlExpired _ now e); destruct (IH _ Hdel) as [H1 H2];
      destruct (DownloadNotCachedCrl _ _ now (delete url c) urls); simpl in *; by rewrite H1.
  - destruct (IH c Hc) as [H1 H2]. destruct (DownloadNotCachedCrl _ _ now c urls); simpl in *. by rewrite H1.
Qed.

(** The CRL cache never helps: an entry is stale as soon as the clock has moved
    past the moment it was stored, so a certificate with distribution points is
    rejected whenever none of them can be downloaded again, although their CRLs are
    in the cache and within their life time. *)
Theorem crl_cache_useless now c cert chains :
  filledBefore now c -> CRLDistributionPoints cert <> [] ->
  Forall (fun url => httpGet url = None) (CRLDistributionPoints cert) ->
  (verifyCrl now c chains cert).1 = Some Unauthenticated.
Proof.
  intros Hc Hne Hd. unfold VerifyCertCrl. destruct (CRLDistributionPoints cert) as [|u us]; [done|].
  destruct (download_fails now c (u :: us) Hc Hd) as [H1 _].
  destruct (DownloadNotCachedCrl httpGet expireDuration now c (u :: us)) as [b c1]. simpl in H1. by rewrite H1.
Qed.
End Auth.

(** * Witnesses *)

Definition demo_types (l : list string) : gmap string bool :=
  <["none" := false]> (list_to_map ((fun m => (m, true)) <$> l)).

Definition demo_table (table cn : string) : gmap string string :=
  if String.eqb cn "client" then {["role@" := "gnmi_config_db_readwrite,gnoi_readonly"]} else ∅.

Definition demo_cert (cn : string) : Certificate := mkCert cn ["http://crl"].

Definition demo_config (l : list string) : Config := mkConfig (demo_types l) "GNMI_CLIENT_CERT" false.

Definition demo_request (cn : string) : Request :=
  mkRequest false (Some {["username" := "admin"; "password" := "guess"]}) (Some [[demo_cert cn]]).

Definition demo_auth (config : Config) (req : Request) :=
  authenticate (fun _ => Some ["gnmi_config_db_readwrite"]) (fun _ _ => false) (fun _ => None) demo_table
    (fun _ => None) (fun _ _ => false) 10 config 0 req noAuthInfo ∅ "gnmi_CONFIG_DB" true.

Lemma write_needs_role_witness :
  exists a' c', demo_auth (demo_config ["cert"]) (demo_request "client") = (None, a', c') /\
    exists role, role ∈ entryRoles (demo_table "GNMI_CLIENT_CERT" "client") /\ grantsWrite "gnmi_CONFIG_DB" role.
Proof.
  assert (exists a' c', demo_auth (demo_config ["cert"]) (demo_request "client") = (None, a', c')) as (a' & c' & H)
    by (do 2 eexists; vm_compute; reflexivity).
  exists a', c'. split; [done|].
  assert (certOnly (demo_config ["cert"])) as Hc by (split_and!; [vm_compute; reflexivity..|done]).
  destruct (write_needs_role _ _ _ _ _ _ _ (demo_config ["cert"]) 0 (demo_request "client") noAuthInfo ∅
    "gnmi_CONFIG_DB" a' c' Hc H) as [Hu|(cert & chain & chains & role & [= <- <- <-] & _ & Hr & Hg & _)]; [discriminate Hu|].
  destruct Hr as [Hr|[E _]]; [|vm_compute in E; discriminate E]. exists role. split; [exact Hr|exact Hg].
Defined.

Lemma failed_password_grants_roles_witness :
  demo_auth (demo_config ["password"; "cert"]) (demo_request "stranger") =
    (None, mkAuthInfo "admin" true ["gnmi_config_db_readwrite"], ∅).
Proof.
  eapply (failed_password_grants_roles (fun _ => Some ["gnmi_config_db_readwrite"]) (fun _ _ => false) (fun _ => None)
    demo_table (fun _ => None) (fun _ _ => false) 10 (demo_config ["password"; "cert"]) 0 (demo_request "stranger")
    noAuthInfo ∅ "gnmi_CONFIG_DB" _ "admin" "guess" ["gnmi_config_db_readwrite"] (demo_cert "stranger") [] []);
    try reflexivity; try done.
Defined.

Lemma crl_cache_useless_witness :
  (VerifyCertCrl (fun _ => None) (fun _ _ => false) 10 5 {["http://crl" := mkCrl 4 4 "crl"]} [] (demo_cert "client")).1
    = Some Unauthenticated.
Proof.
  apply crl_cache_useless; [|done|by constructor].
  apply map_Forall_singleton. simpl. lia.
Defined.
