(* ===== verification/Server.v ===== *)
(** The gNMI server (src/gnmi_server/server.go): master arbitration, and the Get and
    Set RPCs with their order of checks.

    A handler either returns or panics.  The data clients it creates are used through
    the record [DataClients]; authentication is the function [auth] of target and
    access mode that [Auth.authenticate] implements for the request at hand, and the
    path authorization is the processor of [Pathz].  What a Set changes is the state
    [SrvState]: the master election id, CONFIG_DB as the fast path writes it, and the
    state of the back end behind the data clients. *)

From S2P Require Import Prelude GnmiTypes Pathz JsonClient Bypass.
Import Pathz Bypass.

Module Server.

(** * Master arbitration *)

(** 64-bit halves; decoded messages keep them in range. *)
Record uint128 := mkU128 { High : Z; Low : Z }.

Definition Compare (lh rh : uint128) : Z :=
  if (High rh <? High lh)%Z then 1
  else if (High lh <? High rh)%Z then -1
  else if (Low rh <? Low lh)%Z then 1
  else if (Low lh <? Low rh)%Z then -1
  else 0.

Record MasterArbitration := mkMA { ElectionId : option uint128; hasRole : bool }.

(** The scan of the extensions; an extension of another kind is [None].  The last
    election id wins. *)
Fixpoint scanExtensions (cur : option uint128) (exts : list (option MasterArbitration))
    : res Code (option uint128) :=
  match exts with
  | [] => Ok cur
  | None :: exts => scanExtensions cur exts
  | Some ma :: exts =>
      match ElectionId ma with
      | None => Err InvalidArgument
      | Some eid => if hasRole ma then Err Unimplemented else scanExtensions (Some eid) exts
      end
  end.

Definition ReqFromMasterEnabledMA (exts : list (option MasterArbitration)) (masterEID : uint128)
    : option Code * uint128 :=
  match scanExtensions None exts with
  | Err c => (Some c, masterEID)
  | Ok None => (None, masterEID)
  | Ok (Some reqEID) =>
      let cmp := Compare masterEID reqEID in
      if (cmp =? 1)%Z then (Some PermissionDenied, masterEID)
      else if (cmp =? -1)%Z then (None, reqEID)
      else (None, masterEID)
  end.

Definition ReqFromMasterDisabledMA (exts : list (option MasterArbitration)) (masterEID : uint128)
    : option Code * uint128 := (None, masterEID).

(** * Paths, origins, users *)

(** [ParseOrigin]; [None] is the panic of the field access on a nil path. *)
Fixpoint originLoop (origin : string) (paths : list (option Path)) : option (res Code string) :=
  match paths with
  | [] => Some (Ok origin)
  | None :: _ => None
  | Some p :: paths =>
      if String.eqb origin (path_origin p) then originLoop origin paths else Some (Err Unimplemented)
  end.

Definition ParseOrigin (paths : list (option Path)) : option (res Code string) :=
  match paths with
  | [] => Some (Ok "")
  | None :: _ => None
  | Some p :: paths => originLoop (path_origin p) paths
  end.

Definition IsNativeOrigin (origin : string) : bool := String.eqb origin "sonic-db".

(** The SPIFFE path of the peer, [None] where the source finds no peer, TLS info or
    SPIFFE id. *)
Definition getUsername (spiffePath : option string) : res Code string :=
  match spiffePath with
  | None => Err Unauthenticated
  | Some path =>
      match last_index path (Ascii.ascii_of_nat 47) with
      | None => Err Unauthenticated
      | Some usernamePos => Ok (strdrop (S usernamePos) path)
      end
  end.

(** [gnmipb.Encoding] and the supported ones. *)
Inductive Encoding := JSON | BYTES | PROTO | ASCII | JSON_IETF.
Definition supportedEncodings : list Encoding := [JSON; JSON_IETF; PROTO].

#[global] Instance Encoding_eq_dec : EqDecision Encoding.
Proof. solve_decision. Defined.

Definition checkEncodingAndModel (encoding : Encoding) : bool := bool_decide (encoding ∈ supportedEncodings).

(** * Requests *)

Record SetRequest := mkSetRequest {
  set_prefix : option Path;
  set_delete : list (option Path);
  set_replace : list Update;
  set_update : list Update;
  set_extension : list (option MasterArbitration)
}.

Record GetRequest := mkGetRequest {
  get_prefix : option Path;
  get_path : list (option Path);
  get_typeAll : bool;
  get_encoding : Encoding
}.

Record Config := mkConfig {
  EnableTranslibWrite : bool;
  EnableNativeWrite : bool;
  PathzPolicy : bool
}.

Inductive ClientKind := NonDbClient | ShowClient | DbClient | MixedDbClient | TranslClient.

(** What the handlers use of the data clients, over a back-end state [B]: whether the
    constructor succeeds (with the database name of a mixed client), [ValidatePaths]
    included for the database client, and the Get and Set operations. *)
Record DataClients (B V : Type) := mkClients {
  newClient : ClientKind -> list (option Path) -> option Path -> string -> option string;
  isTargetDb : string -> option string;
  clientGet : ClientKind -> B -> list (option Path) -> option Path -> res Code (list V);
  clientSet : ClientKind -> B -> list (option Path) -> list Update -> list Update -> option Code * B
}.
Arguments newClient {_ _}. Arguments isTargetDb {_ _}. Arguments clientGet {_ _}. Arguments clientSet {_ _}.

Record SrvState (B : Type) := mkState { masterEID : uint128; configDb : ConfigDb; backend : B; saves : nat }.
Arguments mkState {_}. Arguments masterEID {_}. Arguments configDb {_}. Arguments backend {_}. Arguments saves {_}.

Inductive UpdateOp := OpDelete | OpReplace | OpUpdate.

(** The outcome of a handler. *)
Inductive Outcome (A : Type) :=
| Return (r : res Code A)
| Panics.
Arguments Return {_}. Arguments Panics {_}.

Section Server.
Context `{!MapRange}.
Context {B V : Type}.
Variable cfg : Config.
Variable dc : DataClients B V.
Variable enableMA : bool.
(** [authenticate] for the request: the error, if any, by target and access mode. *)
Variable auth : string -> bool -> option Code.
Variable spiffePath : option string.
Variable pathzProcessor : GnmiAuthzProcessor.
(** The fast path's environment: metadata values, Redis failures, JSON decoding. *)
Variable bypassMd : option (list string).
Variable redisFails : nat -> bool.
Variable unmarshalMap : string -> option (gmap string JsonClient.json).
Variable unmarshalBulk : string -> option (gmap string (gmap string JsonClient.json)).
Variable sprintv : JsonClient.json -> string.
(** [handleOperationalGet] after its authentication. *)
Variable operationalGet : list (option Path) -> option Path -> res Code (list V).

Definition ReqFromMaster : list (option MasterArbitration) -> uint128 -> option Code * uint128 :=
  if enableMA then ReqFromMasterEnabledMA else ReqFromMasterDisabledMA.

Definition prefixOrigin (prefix : option Path) : string :=
  match prefix with Some p => path_origin p | None => "" end.

(** The results of the per-path authorization calls; the handlers of the source
    compute and drop them. *)
Definition pathzResults (user : string) (prefix : option Path) (mode : Mode) (paths : list (option Path))
    : list (res pz_error Result) :=
  (fun path => AuthorizeWithPrefix (Some pathzProcessor) user prefix path mode) <$> paths.

(** The Get RPC. *)
Definition Get (b : B) (req : GetRequest) : Outcome (list V) :=
  if negb (get_typeAll req) then Return (Err Unimplemented)
  else
    let pathz :=
      if PathzPolicy cfg && negb (length (get_path req) =? 0) then
        match getUsername spiffePath with
        | Err e => Err e
        | Ok user =>
            let newPaths : list (option Path) := [] in
            let _ := pathzResults user (get_prefix req) MODE_READ (get_path req) in
            if length newPaths =? 0 then Err PermissionDenied else Ok newPaths
        end
      else Ok (get_path req) in
    match pathz with
    | Err e => Return (Err e)
    | Ok paths =>
        if negb (checkEncodingAndModel (get_encoding req)) then Return (Err Unimplemented)
        else
          let prefix := get_prefix req in
          let target := GetTarget prefix in
          let origin := prefixOrigin prefix in
          let serve kind authTarget origin :=
            match newClient dc kind paths prefix origin with
            | None => Return (Err NotFound)
            | Some db =>
                match auth (authTarget db) false with
                | Some e => Return (Err e)
                | None => Return (clientGet dc kind b paths prefix)
                end
            end in
          if String.eqb target "OPERATIONAL" then
            match auth "gnoi" false with
            | Some e => Return (Err e)
            | None => Return (operationalGet paths prefix)
            end
          else if String.eqb target "OTHERS" then serve NonDbClient (fun _ => "gnmi_other") origin
          else if String.eqb target "SHOW" then serve ShowClient (fun _ => "gnmi_show") origin
          else
            match isTargetDb dc target with
            | Some targetDbName => serve DbClient (fun _ => "gnmi_" +:+ targetDbName) origin
            | None =>
                match (if String.eqb origin "" then ParseOrigin paths else Some (Ok origin)) with
                | None => Panics
                | Some (Err e) => Return (Err e)
                | Some (Ok origin) =>
                    if IsNativeOrigin origin then serve MixedDbClient (fun db => "gnmi_" +:+ db) origin
                    else serve TranslClient (fun _ => "gnmi") origin
                end
            end
    end.

Definition set_db (s : SrvState B) (d : ConfigDb) : SrvState B := mkState (masterEID s) d (backend s) (saves s).

(** The results that Set reports, in the order of the source. *)
Definition setResults (req : SetRequest) : list (option Path * UpdateOp) :=
  ((fun p => (p, OpDelete)) <$> set_delete req) ++
  ((fun u => (upd_path u, OpReplace)) <$> set_replace req) ++
  ((fun u => (upd_path u, OpUpdate)) <$> set_update req).

(** The end of Set: a data client of the given kind, authentication, the change. *)
Definition setWith (kind : ClientKind) (authTarget : string -> string) (origin : string)
    (paths : list (option Path)) (req : SetRequest) (s : SrvState B)
    : Outcome (list (option Path * UpdateOp)) * SrvState B :=
  match newClient dc kind paths (set_prefix req) origin with
  | None => (Return (Err NotFound), s)
  | Some db =>
      match auth (authTarget db) true with
      | Some e => (Return (Err e), s)
      | None =>
          let '(err, b) := clientSet dc kind (backend s) (set_delete req) (set_replace req) (set_update req) in
          match err with
          | Some e => (Return (Err e), mkState (masterEID s) (configDb s) b (saves s))
          | None => (Return (Ok (setResults req)), mkState (masterEID s) (configDb s) b (S (saves s)))
          end
      end
  end.

Definition setPaths (req : SetRequest) : list (option Path) :=
  set_delete req ++ (upd_path <$> set_replace req) ++ (upd_path <$> set_update req).

(** The Set RPC. *)
Definition Set_ (req : SetRequest) (s : SrvState B)
    : Outcome (list (option Path * UpdateOp)) * SrvState B :=
  let '(e, eid) := ReqFromMaster (set_extension req) (masterEID s) in
  let s := mkState eid (configDb s) (backend s) (saves s) in
  match e with
  | Some e => (Return (Err e), s)
  | None =>
      if negb (EnableTranslibWrite cfg) && negb (EnableNativeWrite cfg) then (Return (Err Unimplemented), s)
      else
        let pathz :=
          if PathzPolicy cfg then
            match getUsername spiffePath with
            | Err e => Some e
            | Ok user =>
                let permitted := true in
                let _ := pathzResults user (set_prefix req) MODE_WRITE (setPaths req) in
                if negb permitted then Some PermissionDenied else None
            end
          else None in
        match pathz with
        | Some e => (Return (Err e), s)
        | None =>
            let prefix := set_prefix req in
            let paths := setPaths req in
            match (if String.eqb (prefixOrigin prefix) "" then ParseOrigin paths else Some (Ok (prefixOrigin prefix))) with
            | None => (Panics, s)
            | Some (Err e) => (Return (Err e), s)
            | Some (Ok origin) =>
                if IsNativeOrigin origin then
                  if negb (EnableNativeWrite cfg) then (Return (Err Unimplemented), s)
                  else
                    let '(r, d) := TrySet redisFails unmarshalMap unmarshalBulk sprintv bypassMd prefix
                                     (set_delete req) (set_replace req ++ set_update req) (configDb s) in
                    let s := set_db s d in
                    match r with
                    | Failed _ => (Return (Err Internal), s)
                    | Done rs =>
                        (Return (Ok ((fun '(p, op) => (p, match op with DELETE => OpDelete | UPDATE => OpUpdate end)) <$> rs)), s)
                    | NotUsed => setWith MixedDbClient (fun db => "gnmi_" +:+ db) origin paths req s
                    end
                else if negb (EnableTranslibWrite cfg) then (Return (Err Unimplemented), s)
                else setWith TranslClient (fun _ => "gnmi") origin [] req s
            end
        end
  end.
End Server.
End Server.
