(* ===== verification/ServerProofs.v ===== *)
(** Properties of the server's RPCs: master arbitration, what a Set may change and
    after which checks, and where the checks are missing. *)

From S2P Require Import Prelude GnmiTypes Pathz PathzSpec JsonClient Bypass Auth Server.
Import Pathz Bypass Server.

(** * Master arbitration *)

(** The value of an election id, and its range. *)
Definition val128 (e : uint128) : Z := (High e * 2 ^ 64 + Low e)%Z.
Definition u64 (z : Z) : Prop := (0 <= z < 2 ^ 64)%Z.
Definition wf128 (e : uint128) : Prop := u64 (High e) /\ u64 (Low e).

Lemma Compare_spec a b :
  wf128 a -> wf128 b ->
  (Compare a b = 1 /\ (val128 b < val128 a) \/ Compare a b = -1 /\ (val128 a < val128 b) \/
   Compare a b = 0 /\ a = b)%Z.
Proof.
  unfold wf128, u64, val128. destruct a as [ah al], b as [bh bl]. unfold Compare. simpl. intros Ha Hb.
  destruct (Z.ltb_spec bh ah); [left; lia|]. destruct (Z.ltb_spec ah bh); [right; left; lia|].
  destruct (Z.ltb_spec bl al); [left; lia|]. destruct (Z.ltb_spec al bl); [right; left; lia|].
  right. right. split; [done|]. f_equal; lia.
Qed.

(** A sequence of requests, each with its extensions. *)
Fixpoint arbitrate (m : uint128) (reqs : list (list (option MasterArbitration))) : list (option Code) * uint128 :=
  match reqs with
  | [] => ([], m)
  | exts :: reqs =>
      let '(e, m) := ReqFromMasterEnabledMA exts m in
      let '(es, m) := arbitrate m reqs in
      (e :: es, m)
  end.

(** The election id a request carries. *)
Definition electionId (exts : list (option MasterArbitration)) : option uint128 :=
  match scanExtensions None exts with Ok (Some e) => Some e | _ => None end.

Definition highest (m : Z) (reqs : list (list (option MasterArbitration))) : Z :=
  fold_left (fun h exts => match electionId exts with Some e => Z.max h (val128 e) | None => h end) reqs m.

Definition wfReq (exts : list (option MasterArbitration)) : Prop :=
  forall e, electionId exts = Some e -> wf128 e.

Lemma request_spec exts m e m' :
  wf128 m -> wfReq exts -> ReqFromMasterEnabledMA exts m = (e, m') ->
  wf128 m' /\ val128 m' = match electionId exts with Some r => Z.max (val128 m) (val128 r) | None => val128 m end /\
  (forall r, electionId exts = Some r -> (e = None <-> (val128 m <= val128 r)%Z) /\ (e <> None -> e = Some PermissionDenied)).
Proof.
  intros Hm Hr. unfold ReqFromMasterEnabledMA. unfold wfReq, electionId in *.
  destruct (scanExtensions None exts) as [[r|]|c]; [|by intros [= <- <-]..].
  specialize (Hr r eq_refl). destruct (Compare_spec m r Hm Hr) as [[-> H]|[[-> H]|[-> ->]]]; simpl;
    intros [= <- <-]; (split; [done|]); (split; [lia|]); intros r' [= <-]; split; try done; split; intros; (done || lia).
Qed.

(** C34. After any sequence of Set requests the master is the highest election id that
    any of them carried, or the initial one, whatever the order; a request is let
    through exactly when its id is at least the highest one before it, and is refused
    with PermissionDenied otherwise. *)
Theorem master_is_highest m reqs1 exts es m' :
  wf128 m -> Forall wfReq reqs1 -> wfReq exts -> arbitrate m (reqs1 ++ [exts]) = (es, m') ->
  val128 m' = highest (val128 m) (reqs1 ++ [exts]) /\
  exists e, last es = Some e /\
    forall r, electionId exts = Some r ->
      (e = None <-> (highest (val128 m) reqs1 <= val128 r)%Z) /\ (e <> None -> e = Some PermissionDenied).
Proof.
  intros Hm Hreqs Hex. revert m es Hm. induction Hreqs as [|q reqs Hq Hreqs IH]; intros m es Hm; simpl.
  - destruct (ReqFromMasterEnabledMA exts m) as [e m1] eqn:E. intros [= <- <-].
    destruct (request_spec _ _ _ _ Hm Hex E) as (_ & Hv & Hd). unfold highest. simpl.
    split; [by rewrite Hv|]. exists e. done.
  - destruct (ReqFromMasterEnabledMA q m) as [e m1] eqn:E.
    destruct (request_spec _ _ _ _ Hm Hq E) as (Hm1 & Hv & _).
    destruct (arbitrate m1 (reqs ++ [exts])) as [es1 m2] eqn:Ea. intros [= <- <-].
    destruct (IH m1 es1 Hm1 Ea) as (Hh & e' & Hl & Hd). unfold highest in *. simpl. rewrite <- Hv.
    split; [done|]. exists e'. split; [|done]. destruct es1; [done|]. done.
Qed.

(** * Set and Get *)

Section Server.
Context {mr : MapRange}.
Context {B V : Type}.
Variable cfg : Config.
Variable dc : DataClients B V.
Variable enableMA : bool.
Variable auth : string -> bool -> option Code.
Variable spiffePath : option string.
Variable pathzProcessor : GnmiAuthzProcessor.
Variable bypassMd : option (list string).
Variable redisFails : nat -> bool.
Variable unmarshalMap : string -> option (gmap string JsonClient.json).
Variable unmarshalBulk : string -> option (gmap string (gmap string JsonClient.json)).
Variable sprintv : JsonClient.json -> string.
Variable operationalGet : list (option Path) -> option Path -> res Code (list V).

Abbreviation set_rpc := (Set_ cfg dc enableMA auth spiffePath pathzProcessor bypassMd redisFails unmarshalMap unmarshalBulk sprintv).
Abbreviation get_rpc := (Get cfg dc auth spiffePath pathzProcessor operationalGet).

(** Nobody may write. *)
Definition nobodyWrites : Prop := forall target, auth target true <> None.

Lemma setWith_unauth kind authTarget origin paths req (s : SrvState B) :
  nobodyWrites -> exists e, setWith dc auth kind authTarget origin paths req s = (Return (Err e), s).
Proof.
  intros Hn. unfold setWith. destruct (newClient _ _ _ _ _) as [db|]; [|eauto].
  destruct (auth (authTarget db) true) as [e|] eqn:E; [eauto|]. by apply Hn in E.
Qed.

(** C13. A Set of a client that authentication refuses for every target never reaches a
    data client: the back end is unchanged and nothing is saved, for every request, and
    unless the fast path was used the client gets an error (or the handler panics) and
    CONFIG_DB keeps its contents.  The master's election id is the one thing that
    changes: arbitration comes before authentication and records the id of the request. *)
Theorem set_needs_authentication req (s s' : SrvState B) out :
  nobodyWrites -> set_rpc req s = (out, s') ->
  backend s' = backend s /\ saves s' = saves s /\ masterEID s' = (ReqFromMaster enableMA (set_extension req) (masterEID s)).2 /\
  ((TrySet redisFails unmarshalMap unmarshalBulk sprintv bypassMd (set_prefix req) (set_delete req)
      (set_replace req ++ set_update req) (configDb s)).1 = NotUsed ->
   (out = Panics \/ exists e, out = Return (Err e)) /\
   hashes (configDb s') = hashes (configDb s)).
Proof.
  intros Hn. unfold Set_. destruct (ReqFromMaster enableMA _ _) as [[e|] eid]; cbn [snd]; [intros [= <- <-]; eauto 8|].
  destruct (_ && _); [intros [= <- <-]; eauto 8|]. cbv zeta.
  destruct (if PathzPolicy cfg then _ else None) as [e|]; [intros [= <- <-]; eauto 8|].
  destruct (if String.eqb _ "" then _ else _) as [[origin|e]|]; [|intros [= <- <-]; eauto 8..].
  destruct (IsNativeOrigin origin).
  - destruct (negb _); [intros [= <- <-]; eauto 8|]. cbn [configDb].
    destruct (TrySet _ _ _ _ _ _ _ _ (configDb s)) as [[|e|rs] d] eqn:Et; [|by intros [= <- <-]..].
    apply trySet_guards in Et as [[_ Hd]|(d1 & _ & _ & _ & _ & _ & Hd)];
      [|destruct (Delete _ _ _ _) as [[?|] ?]; [done|]; by destruct (Apply _ _ _ _ _ _ _) as [[?|] ?]].
    destruct (setWith_unauth MixedDbClient (fun db => "gnmi_" +:+ db) origin (setPaths req) req
      (set_db (mkState eid (configDb s) (backend s) (saves s)) d) Hn) as [e ->]. intros [= <- <-]. simpl. eauto 8.
  - destruct (negb _); [intros [= <- <-]; eauto 8|].
    destruct (setWith_unauth TranslClient (fun _ => "gnmi") origin [] req
      (mkState eid (configDb s) (backend s) (saves s)) Hn) as [e ->]. intros [= <- <-]. eauto 8.
Qed.

Lemma setWith_master kind authTarget origin paths req (s : SrvState B) :
  masterEID (setWith dc auth kind authTarget origin paths req s).2 = masterEID s.
Proof. unfold setWith. destruct (newClient _ _ _ _ _); [|done]. destruct (auth _ _); [done|]. by destruct (clientSet _ _ _ _ _ _) as [[?|] ?]. Qed.

(** What becomes of the master's election id is arbitration's doing alone. *)
Lemma set_master req (s : SrvState B) : masterEID (set_rpc req s).2 = (ReqFromMaster enableMA (set_extension req) (masterEID s)).2.
Proof.
  unfold Set_. destruct (ReqFromMaster enableMA _ _) as [[e|] eid]; [done|]. destruct (_ && _); [done|]. cbv zeta.
  destruct (if PathzPolicy cfg then _ else None) as [e|]; [done|].
  destruct (if String.eqb _ "" then _ else _) as [[origin|e]|]; [|done..].
  destruct (IsNativeOrigin origin); (destruct (negb _); [done|]); [|by rewrite setWith_master].
  destruct (TrySet _ _ _ _ _ _ _ _ _) as [[|e|rs] d]; [|done..]. by rewrite setWith_master.
Qed.

(** A client that may do nothing becomes the master: the highest election id is recorded
    before authentication, and the master before it is refused from then on. *)
Theorem refused_client_becomes_master req e (s : SrvState B) :
  enableMA = true -> electionId (set_extension req) = Some e -> Compare (masterEID s) e = (-1)%Z ->
  nobodyWrites -> masterEID (set_rpc req s).2 = e.
Proof.
  intros Hma He Hc _. rewrite set_master.
  unfold ReqFromMaster. rewrite Hma. unfold ReqFromMasterEnabledMA, electionId in *.
  destruct (scanExtensions None (set_extension req)) as [[r|]|]; try done. simplify_eq. by rewrite Hc.
Qed.

(** The fast path is tried before authentication: a native Set that it accepts is
    carried out and acknowledged whatever authentication would say. *)
Theorem bypass_skips_authentication req (s : SrvState B) rs d p :
  EnableNativeWrite cfg = true -> PathzPolicy cfg = false -> enableMA = false ->
  set_prefix req = Some p -> path_origin p = "sonic-db" ->
  TrySet redisFails unmarshalMap unmarshalBulk sprintv bypassMd (set_prefix req) (set_delete req)
    (set_replace req ++ set_update req) (configDb s) = (Done rs, d) ->
  nobodyWrites ->
  exists out, set_rpc req s = (Return (Ok out), mkState (masterEID s) d (backend s) (saves s)) /\ length out = length rs.
Proof.
  intros Hw Hp Hma Hpre Ho Ht _. unfold Set_, ReqFromMaster. rewrite Hma, Hw, Hp, Hpre in *.
  cbn [ReqFromMasterDisabledMA negb]. rewrite andb_false_r. cbn [prefixOrigin configDb]. rewrite Ho, Ht. simpl.
  eexists. split; [done|]. by rewrite length_fmap.
Qed.

(** The same configuration without path authorization. *)
Definition withoutPathz : Config := mkConfig (EnableTranslibWrite cfg) (EnableNativeWrite cfg) false.

(** The path policy is not enforced: for a user with a SPIFFE name, Set behaves
    exactly as without path authorization, for every policy, while Get with the path
    authorization enabled refuses every request that has a path, for every policy. *)
Theorem pathz_not_enforced user req (s : SrvState B) :
  PathzPolicy cfg = true -> getUsername spiffePath = Ok user ->
  set_rpc req s = Set_ withoutPathz dc enableMA auth spiffePath pathzProcessor bypassMd redisFails
                    unmarshalMap unmarshalBulk sprintv req s /\
  forall b greq, get_typeAll greq = true -> get_path greq <> [] -> get_rpc b greq = Return (Err PermissionDenied).
Proof.
  intros Hp Hu. split.
  - unfold Set_. rewrite Hp, Hu. done.
  - intros b greq Ht Hne. unfold Get. rewrite Ht, Hp, Hu. cbn [negb andb].
    destruct (get_path greq); [done|]. done.
Qed.

(** The first path of the request is missing and no prefix gives an origin. *)
Definition startsWithoutPath (req : SetRequest) : Prop :=
  prefixOrigin (set_prefix req) = "" /\ head (setPaths req) = Some None.

(** A Set without an origin in its prefix whose first update carries no path panics
    in the origin check, before authentication and for every back end. *)
Theorem set_nil_path_panics req (s : SrvState B) :
  EnableNativeWrite cfg = true -> PathzPolicy cfg = false -> set_extension req = [] ->
  startsWithoutPath req -> (set_rpc req s).1 = Panics.
Proof.
  intros Hw Hp He [Ho Hh]. unfold Set_, ReqFromMaster. rewrite Hw, Hp, He, Ho.
  destruct (setPaths req) as [|[p|] ps]; try done.
  destruct enableMA; simpl; by rewrite andb_false_r.
Qed.
End Server.

(** * Witnesses *)

(** A back end that counts its changes. *)
Definition srv_clients : DataClients nat unit :=
  mkClients nat unit (fun _ _ _ _ => Some "CONFIG_DB") (fun _ => None) (fun _ _ _ _ => Ok []) (fun _ b _ _ _ => (None, S b)).

Definition srv_cfg (pathz : bool) : Config := mkConfig true true pathz.
Definition srv_state : SrvState nat := mkState (mkU128 0 0) bypass_db 0 0.
Definition refuse (t : string) (w : bool) : option Code := Some Unauthenticated.

Definition srv_request : SetRequest :=
  mkSetRequest (Some (mkPath "sonic-db" "" [])) [] [] [mkUpdate (bypass_path ["VNET"; "Vnet2"; "vni"]) (Some (StringVal "2000"))] [].

Definition srv_set (pathz : bool) (md : option (list string)) :=
  Set_ (srv_cfg pathz) srv_clients false refuse (Some "/admin") newProcessor md (fun _ => false)
    (fun _ => None) (fun _ => None) (fun _ => "") srv_request srv_state.

Lemma refuse_all : nobodyWrites refuse.
Proof. done. Qed.

Lemma master_is_highest_witness :
  let req h := [Some (mkMA (Some (mkU128 0 h)) false)] in
  (arbitrate (mkU128 0 0) ([req 5%Z] ++ [req 3%Z])).1 = [None; Some PermissionDenied] /\
  val128 (arbitrate (mkU128 0 0) ([req 5%Z] ++ [req 3%Z])).2 = 5%Z.
Proof.
  cbv zeta. split; [reflexivity|].
  assert (forall h, u64 h -> wfReq [Some (mkMA (Some (mkU128 0 h)) false)]) as Hw.
  { intros h Hh e [= <-]. split; [by split|exact Hh]. }
  destruct (master_is_highest (mkU128 0 0) [[Some (mkMA (Some (mkU128 0 5)) false)]]
    [Some (mkMA (Some (mkU128 0 3)) false)] _ _ ltac:(by split; split)
    ltac:(constructor; [apply Hw; by split|constructor]) ltac:(apply Hw; by split) (surjective_pairing _)) as [H _].
  exact H.
Defined.

(** The request that changes the back end of a client that may write changes nothing for
    the one that may not. *)
Lemma set_needs_authentication_witness :
  backend (Set_ (srv_cfg false) srv_clients false (fun _ _ => None) (Some "/admin") newProcessor None (fun _ => false)
    (fun _ => None) (fun _ => None) (fun _ => "") srv_request srv_state).2 = 1 /\
  backend (srv_set false None).2 = 0 /\ hashes (configDb (srv_set false None).2) = hashes bypass_db.
Proof.
  split; [vm_compute; reflexivity|]. destruct (srv_set false None) as [out s'] eqn:E.
  destruct (set_needs_authentication (srv_cfg false) srv_clients false refuse (Some "/admin") newProcessor None
    (fun _ => false) (fun _ => None) (fun _ => None) (fun _ => "") srv_request srv_state s' out refuse_all E) as (H & _ & _ & Hd).
  split; [exact H|]. apply Hd. vm_compute. reflexivity.
Defined.

Lemma bypass_skips_authentication_witness :
  exists out s', srv_set false (Some ["true"]) = (Return (Ok out), s').
Proof.
  assert (exists rs d, TrySet (fun _ => false) (fun _ => None) (fun _ => None) (fun _ => "") (Some ["true"])
    (set_prefix srv_request) (set_delete srv_request) (set_replace srv_request ++ set_update srv_request)
    (configDb srv_state) = (Done rs, d)) as (rs & d & Ht) by (do 2 eexists; vm_compute; reflexivity).
  destruct (bypass_skips_authentication (srv_cfg false) srv_clients false refuse (Some "/admin") newProcessor (Some ["true"])
    (fun _ => false) (fun _ => None) (fun _ => None) (fun _ => "") srv_request srv_state rs d _
    eq_refl eq_refl eq_refl eq_refl eq_refl Ht refuse_all) as (out & H & _). eauto.
Defined.

Lemma pathz_not_enforced_witness :
  srv_set true None = srv_set false None.
Proof.
  apply (pathz_not_enforced (srv_cfg true) srv_clients false refuse (Some "/admin") newProcessor None
    (fun _ => false) (fun _ => None) (fun _ => None) (fun _ => "") (fun _ _ => Ok []) "admin" srv_request srv_state);
    reflexivity.
Defined.

Lemma set_nil_path_panics_witness :
  (Set_ (srv_cfg false) srv_clients false refuse None newProcessor None (fun _ => false)
    (fun _ => None) (fun _ => None) (fun _ => "") (mkSetRequest None [] [] [mkUpdate None None] []) srv_state).1 = Panics.
Proof.
  apply set_nil_path_panics; [reflexivity|reflexivity|reflexivity|]. split; reflexivity.
Defined.
