(* ===== verification/ConnManager.v ===== *)
(** The connection manager (src/gnmi_server/connection_manager.go) and the registry of
    subscribe clients (src/gnmi_server/client_subscribe.go, Subscribe of server.go),
    as operations and as steps of concurrent RPCs.

    [Add] and [Remove] take the lock of the manager twice, once to read and once to
    write, so each is two steps of an RPC and other RPCs run in between. *)

From S2P Require Import Prelude.

Module ConnManager.

(** [connections], the threshold (0: none), and the telemetry table in STATE_DB as
    [rclient] sees it ([None]: no Redis client). *)
Record Manager := mkManager {
  connections : gset string;
  threshold : Z;
  redisTable : option (gset string)
}.

(** The check of [Add]; [threshold] is an int, a negative one admits nobody. *)
Definition atLimit (m : Manager) : bool :=
  (threshold m <=? Z.of_nat (size (connections m)))%Z && negb (threshold m =? 0)%Z.

(** [createKey]; [fields] are the matches of the regular expression on the query and
    [now] the formatted time. *)
Definition createKey (addr : string) (fields : list string) (now : string) : string :=
  fold_left (fun k f => k +:+ f +:+ "|") fields (addr +:+ "|") +:+ now.

Definition insertKey (m : Manager) (key : string) : Manager :=
  mkManager ({[key]} ∪ connections m) (threshold m) (redisTable m).

(** [ok]: HSET succeeds; a failure is logged only. *)
Definition storeKeyRedis (ok : bool) (m : Manager) (key : string) : Manager :=
  mkManager (connections m) (threshold m)
    (if ok then union {[key]} <$> redisTable m else redisTable m).

Definition deleteKey (m : Manager) (key : string) : Manager :=
  mkManager (connections m ∖ {[key]}) (threshold m) (redisTable m).

Definition deleteKeyRedis (ok : bool) (m : Manager) (key : string) : Manager :=
  mkManager (connections m) (threshold m)
    (if ok then (fun t => t ∖ {[key]}) <$> redisTable m else redisTable m).

(** [Add] and [Remove] when nothing runs in between. *)
Definition Add (ok : bool) (m : Manager) (addr : string) (fields : list string) (now : string) : (string * bool) * Manager :=
  if atLimit m then (("", false), m)
  else
    let key := createKey addr fields now in
    ((key, true), storeKeyRedis ok (insertKey m key) key).

Definition Remove (ok : bool) (m : Manager) (key : string) : bool * Manager :=
  let exists_ := bool_decide (key ∈ connections m) in
  let m := if exists_ then deleteKey m key else m in
  (exists_, deleteKeyRedis ok m key).

(** [PrepareRedis]; [reach] tells whether the address and the id of STATE_DB resolve.
    When they do the client is made anew and the table emptied. *)
Definition PrepareRedis (reach : bool) (t : option (gset string)) : option (gset string) :=
  if reach then Some ∅ else t.

(** [setConnectionManager]: a new threshold replaces the manager; [rclient] is global. *)
Definition setConnectionManager (reach : bool) (m : option Manager) (rclient : option (gset string)) (thr : Z) : Manager :=
  let fresh := mkManager ∅ thr (PrepareRedis reach rclient) in
  match m with
  | Some m => if (thr =? threshold m)%Z then m else fresh
  | None => fresh
  end.

(** * Concurrent RPCs *)

(** Where an RPC is: before [Add]; past the check; after the insertion; running with
    its key; in [Remove] after the read; finished. *)
Inductive pc :=
| Start (key : string)
| Checked (key : string)
| Inserted (key : string)
| Running (key : string)
| RemoveRead (key : string) (exists_ : bool)
| RemoveDone (key : string)
| Rejected
| Finished.

Record System := mkSystem { manager : Manager; rpcs : list pc }.

Inductive step : System -> System -> Prop :=
| StepReject m ps i k : ps !! i = Some (Start k) -> atLimit m = true ->
    step (mkSystem m ps) (mkSystem m (<[i := Rejected]> ps))
| StepCheck m ps i k : ps !! i = Some (Start k) -> atLimit m = false ->
    step (mkSystem m ps) (mkSystem m (<[i := Checked k]> ps))
| StepInsert m ps i k : ps !! i = Some (Checked k) ->
    step (mkSystem m ps) (mkSystem (insertKey m k) (<[i := Inserted k]> ps))
| StepStore m ps i k ok : ps !! i = Some (Inserted k) ->
    step (mkSystem m ps) (mkSystem (storeKeyRedis ok m k) (<[i := Running k]> ps))
| StepRemoveRead m ps i k : ps !! i = Some (Running k) ->
    step (mkSystem m ps) (mkSystem m (<[i := RemoveRead k (bool_decide (k ∈ connections m))]> ps))
| StepRemoveDelete m ps i k (e : bool) : ps !! i = Some (RemoveRead k e) ->
    step (mkSystem m ps) (mkSystem (if e then deleteKey m k else m) (<[i := RemoveDone k]> ps))
| StepRemoveStore m ps i k ok : ps !! i = Some (RemoveDone k) ->
    step (mkSystem m ps) (mkSystem (deleteKeyRedis ok m k) (<[i := Finished]> ps)).

Definition initial (thr : Z) (keys : list string) : System :=
  mkSystem (mkManager ∅ thr (Some ∅)) (Start <$> keys).

Definition reachable (thr : Z) (keys : list string) (s : System) : Prop :=
  rtc step (initial thr keys) s.

(** * The registry of subscribe clients *)

Record ClientKey := mkClientKey { PeerAddr : string; StreamID : N }.

#[global] Instance ClientKey_eq_dec : EqDecision ClientKey.
Proof. solve_decision. Defined.

(** [Client.Key]. *)
Definition Key (enableStreamMultiplexing : bool) (addr : string) (id : N) : ClientKey :=
  mkClientKey addr (if enableStreamMultiplexing then id else 0%N).

(** [s.clients] as an association list, and the ids of the clients that were closed. *)
Record Registry := mkRegistry { clients : list (ClientKey * N); closed : list N }.

Definition unregister (r : Registry) (k : ClientKey) : Registry :=
  mkRegistry (base.filter (fun '(k', _) => k' <> k) (clients r)) (closed r).

Definition registered (r : Registry) (k : ClientKey) : option N :=
  snd <$> head (base.filter (fun '(k', _) => k' = k) (clients r)).

(** The first critical section of [Subscribe]: a client with the same key is closed
    and dropped, the new one is registered. *)
Definition register (r : Registry) (k : ClientKey) (id : N) : Registry :=
  let r := match registered r k with
           | Some oc => let r := unregister r k in mkRegistry (clients r) (oc :: closed r)
           | None => r
           end in
  mkRegistry ((k, id) :: clients r) (closed r).

(** Subscribe RPCs over the registry: a new client enters, and a client that has
    finished [Run] leaves. *)
Record SubSystem := mkSub { registry : Registry; active : list (N * string); nextId : N }.

Inductive subStep (mux : bool) : SubSystem -> SubSystem -> Prop :=
| SubEnter r act n addr :
    subStep mux (mkSub r act n)
      (mkSub (register r (Key mux addr (n + 1)) (n + 1)) ((n + 1, addr)%N :: act) (n + 1)%N)
| SubLeave r act n id addr :
    (id, addr) ∈ act ->
    subStep mux (mkSub r act n)
      (mkSub (unregister r (Key mux addr id)) (base.filter (fun a => a <> (id, addr)) act) n).

Definition subReachable (mux : bool) (s : SubSystem) : Prop :=
  rtc (subStep mux) (mkSub (mkRegistry [] []) [] 0) s.
End ConnManager.

(** Properties of the connection manager and the client registry under every
    interleaving of RPCs. *)

Import ConnManager.

(** RPCs that passed the check and have not inserted their key. *)
Definition isChecked (p : pc) : nat := match p with Checked _ => 1 | _ => 0 end.
Definition pending (ps : list pc) : nat := sum_list (isChecked <$> ps).

(** An RPC that will remove the key. *)
Definition holds (k : string) (p : pc) : Prop := p = Inserted k \/ p = Running k \/ p = RemoveRead k true.

Lemma pending_insert ps i p q :
  ps !! i = Some p -> pending (<[i := q]> ps) + isChecked p = pending ps + isChecked q.
Proof.
  unfold pending. revert i. induction ps as [|a ps IH]; intros [|i] H; simplify_eq/=; [lia|].
  specialize (IH i H). lia.
Qed.

(** A step after which at most [P] RPCs are between check and insertion. *)
Definition racingStep (P : nat) (s s' : System) : Prop := step s s' /\ pending (rpcs s') <= P.

Record invariant (thr : Z) (P : nat) (s : System) : Prop := {
  inv_thr : threshold (manager s) = thr;
  inv_size : thr <> 0%Z -> (Z.of_nat (size (connections (manager s)) + pending (rpcs s)) <= Z.max 0 (thr - 1 + Z.of_nat P))%Z;
  inv_held : forall k, k ∈ connections (manager s) -> exists i p, rpcs s !! i = Some p /\ holds k p
}.

Lemma size_insert_le (X : gset string) k : size ({[k]} ∪ X) <= S (size X).
Proof. rewrite size_union_alt, size_singleton. pose proof (subseteq_size (X ∖ {[k]}) X). set_solver by lia. Qed.

(** A change of an RPC that does not hold [k] keeps the holder of [k]. *)
Lemma held_other (ps : list pc) i p q k :
  ps !! i = Some p -> ~ holds k p -> (exists j x, ps !! j = Some x /\ holds k x) ->
  exists j x, (<[i := q]> ps) !! j = Some x /\ holds k x.
Proof.
  intros Hi Hn (j & x & Hj & Hx). exists j, x. split; [|done].
  rewrite list_lookup_insert_ne; [done|]. intros ->. congruence.
Qed.

Lemma held_new (ps : list pc) i p q k : ps !! i = Some p -> holds k q -> exists j x, (<[i := q]> ps) !! j = Some x /\ holds k x.
Proof. intros Hi Hq. exists i, q. split; [|done]. apply list_lookup_insert_eq. by apply lookup_lt_Some in Hi. Qed.

Lemma step_invariant thr P s s' : racingStep P s s' -> invariant thr P s -> invariant thr P s'.
Proof.
  intros [Hs HP] [Ht Hz Hh]. destruct Hs as [m ps i k Hi Hat|m ps i k Hi Hat|m ps i k Hi|m ps i k ok Hi|m ps i k Hi|m ps i k e Hi|m ps i k ok Hi];
    cbn [manager rpcs] in *; (split; cbn [manager rpcs]; [by try destruct e| |]);
    try (intros Hthr; specialize (Hz Hthr)); try (pose proof (pending_insert ps i _ Finished Hi) as Hp0; simpl in Hp0).
  - pose proof (pending_insert ps i _ Rejected Hi) as Hp. simpl in Hp. lia.
  - intros k' Hk'. eapply held_other; [done| |by apply Hh]. by intros [|[|]].
  - pose proof (pending_insert ps i _ (Checked k) Hi) as Hp. simpl in Hp. unfold atLimit in Hat. rewrite Ht in Hat.
    rewrite (proj2 (Z.eqb_neq thr 0) Hthr), andb_true_r in Hat. apply Z.leb_gt in Hat.
    lia.
  - intros k' Hk'. eapply held_other; [done| |by apply Hh]. by intros [|[|]].
  - pose proof (pending_insert ps i _ (Inserted k) Hi) as Hp. simpl in Hp.
    pose proof (size_insert_le (connections m) k). simpl. lia.
  - intros k' Hk'. simpl in Hk'. destruct (decide (k' = k)) as [->|Hne].
    + eapply held_new; [done|]. by left.
    + eapply held_other; [done| |apply Hh; set_solver]. by intros [|[|]].
  - pose proof (pending_insert ps i _ (Running k) Hi) as Hp. simpl in Hp |- *. lia.
  - intros k' Hk'. simpl in Hk'. destruct (decide (k' = k)) as [->|Hne].
    + eapply held_new; [done|]. right. by left.
    + eapply held_other; [done| |by apply Hh]. intros [|[|]]; congruence.
  - pose proof (pending_insert ps i _ (RemoveRead k (bool_decide (k ∈ connections m))) Hi) as Hp. simpl in Hp. lia.
  - intros k' Hk'. destruct (decide (k' = k)) as [->|Hne].
    + eapply held_new; [done|]. right. right. by rewrite bool_decide_true.
    + eapply held_other; [done| |by apply Hh]. intros [|[|]]; congruence.
  - pose proof (pending_insert ps i _ (RemoveDone k) Hi) as Hp. simpl in Hp.
    destruct e; simpl; [|lia]. pose proof (subseteq_size (connections m ∖ {[k]}) (connections m)). set_solver by lia.
  - intros k' Hk'. destruct e; simpl in Hk'.
    + eapply held_other; [done| |apply Hh; set_solver]. intros [|[|]]; try done. set_solver.
    + eapply held_other; [done| |by apply Hh]. intros [|[|]]; congruence.
  - simpl. lia.
  - intros k' Hk'. eapply held_other; [done| |by apply Hh]. by intros [|[|]].
Qed.

Lemma racing_invariant thr keys P s : rtc (racingStep P) (initial thr keys) s -> invariant thr P s.
Proof.
  apply (rtc_ind_r (invariant thr P)).
  - split; cbn [manager rpcs initial connections threshold]; [done| |].
    + intros _. rewrite size_empty. unfold pending. rewrite <- list_fmap_compose.
      replace (sum_list (isChecked ∘ Start <$> keys)) with 0; [lia|]. by induction keys.
    + intros k Hk. set_solver.
  - intros s1 s2 _ Hs IH. by apply (step_invariant _ _ s1).
Qed.

(** C33. Under every interleaving of any number of RPCs the connections exceed the threshold by
    at most the RPCs that race at the same time: when never more than [P] RPCs are between
    their check and their insertion at once, there are at most [thr - 1 + P] connections, so
    [thr] when no two of them race (a threshold of 0 means no limit).  When no RPC is under
    way any more no connection is left: every key is removed by an RPC that holds it. *)
Theorem connections_bounded thr keys P s :
  rtc (racingStep P) (initial thr keys) s ->
  (thr <> 0%Z -> (Z.of_nat (size (connections (manager s)) + pending (rpcs s)) <= Z.max 0 (thr - 1 + Z.of_nat P))%Z) /\
  (Forall (fun p => p = Finished \/ p = Rejected) (rpcs s) -> connections (manager s) = ∅).
Proof.
  intros [Ht Hz Hh]%racing_invariant. split; [done|]. intros Hf. apply leibniz_equiv. intros k.
  split; [|set_solver]. intros Hk. destruct (Hh k Hk) as (i & p & Hi & Hp).
  rewrite Forall_lookup in Hf. destruct (Hf i p Hi) as [-> | ->]; by destruct Hp as [|[|]].
Qed.

(** Every RPC passes the check before any inserts. *)
Lemma check_all m ks2 : forall ks1,
  atLimit m = false ->
  rtc step (mkSystem m ((Checked <$> ks1) ++ (Start <$> ks2))) (mkSystem m (Checked <$> ks1 ++ ks2)).
Proof.
  induction ks2 as [|k ks2 IH]; intros ks1 Hm; [rewrite !app_nil_r; apply rtc_refl|].
  eapply rtc_l; [apply (StepCheck m _ (length ks1) k); [|done]|].
  { rewrite lookup_app_r; rewrite length_fmap; [|done]. by rewrite Nat.sub_diag. }
  rewrite insert_app_r_alt; rewrite length_fmap; [|done]. rewrite Nat.sub_diag. csimpl.
  specialize (IH (ks1 ++ [k]) Hm). by rewrite fmap_app, <- !app_assoc in IH.
Qed.

Lemma insert_all ks2 : forall m ks1,
  rtc step (mkSystem m ((Inserted <$> ks1) ++ (Checked <$> ks2)))
    (mkSystem (fold_left insertKey ks2 m) (Inserted <$> ks1 ++ ks2)).
Proof.
  induction ks2 as [|k ks2 IH]; intros m ks1; [rewrite !app_nil_r; apply rtc_refl|].
  eapply rtc_l; [apply (StepInsert m _ (length ks1) k)|].
  { rewrite lookup_app_r; rewrite length_fmap; [|done]. by rewrite Nat.sub_diag. }
  rewrite insert_app_r_alt; rewrite length_fmap; [|done]. rewrite Nat.sub_diag. csimpl.
  specialize (IH (insertKey m k) (ks1 ++ [k])). by rewrite fmap_app, <- !app_assoc in IH.
Qed.

Lemma fold_insertKey ks : forall m, connections (fold_left insertKey ks m) = list_to_set ks ∪ connections m.
Proof. induction ks as [|k ks IH]; intros m; cbn [fold_left]; [set_solver|]. rewrite IH. cbn [insertKey connections]. set_solver. Qed.

(** The threshold check and the insertion are separate critical sections, so the
    bound is reached: with any positive threshold, even one, all RPCs that pass the
    check before the first insertion are admitted, however many there are. *)
Theorem threshold_exceeded thr keys :
  (0 < thr)%Z -> NoDup keys ->
  exists s, reachable thr keys s /\ rpcs s = Inserted <$> keys /\ size (connections (manager s)) = length keys /\
    pending (rpcs s) = 0.
Proof.
  intros Ht Hnd. eexists. split; [|split; [|split]].
  - unfold reachable, initial. etransitivity; [apply (check_all _ keys [])|apply (insert_all keys _ [])].
    unfold atLimit. cbn [threshold connections]. rewrite size_empty. by destruct (Z.leb_spec thr (Z.of_nat 0)); [lia|].
  - done.
  - cbn [manager]. rewrite fold_insertKey. cbn [connections]. rewrite (right_id_L ∅ (∪)). by apply size_list_to_set.
  - cbn [rpcs]. unfold pending. rewrite <- list_fmap_compose. clear. by induction keys.
Qed.

Lemma threshold_exceeded_witness :
  exists s, reachable 1 ["a"; "b"; "c"] s /\ rpcs s = Inserted <$> ["a"; "b"; "c"] /\ size (connections (manager s)) = 3 /\
    pending (rpcs s) = 0.
Proof. apply (threshold_exceeded 1 ["a"; "b"; "c"]); [lia|]. by apply (bool_decide_unpack _). Defined.

(** Three RPCs one after the other under a threshold of two: the third is refused. *)
Definition demo_system : System :=
  mkSystem (insertKey (insertKey (mkManager ∅ 2 (Some ∅)) "a") "b") [Inserted "a"; Inserted "b"; Rejected].

Lemma connections_bounded_witness :
  rtc (racingStep 1) (initial 2 ["a"; "b"; "c"]) demo_system /\ (size (connections (manager demo_system)) <= 2).
Proof.
  assert (rtc (racingStep 1) (initial 2 ["a"; "b"; "c"]) demo_system) as H.
  { eapply rtc_l; [split; [apply (StepCheck _ _ 0 "a"); reflexivity|cbn; lia]|].
    eapply rtc_l; [split; [apply (StepInsert _ _ 0 "a"); reflexivity|cbn; lia]|].
    eapply rtc_l; [split; [apply (StepCheck _ _ 1 "b"); reflexivity|cbn; lia]|].
    eapply rtc_l; [split; [apply (StepInsert _ _ 1 "b"); reflexivity|cbn; lia]|].
    eapply rtc_l; [split; [apply (StepReject _ _ 2 "c"); reflexivity|cbn; lia]|]. apply rtc_refl. }
  split; [exact H|]. pose proof (proj1 (connections_bounded 2 ["a"; "b"; "c"] 1 demo_system H) ltac:(lia)). lia.
Defined.

(** * The client registry *)

(** With stream multiplexing every client that is running is registered under its own
    key and nothing else is. *)
Definition activeRegistered (mux : bool) (s : SubSystem) : Prop :=
  forall k id, (k, id) ∈ clients (registry s) <-> exists addr, (id, addr) ∈ active s /\ k = Key mux addr id.

Record regInvariant (s : SubSystem) : Prop := {
  reg_active : activeRegistered true s;
  reg_fresh : forall id addr, (id, addr) ∈ active s -> (id <= nextId s)%N;
  reg_closed : closed (registry s) = []
}.

Lemma registered_None r k : (forall id, (k, id) ∉ clients r) -> registered r k = None.
Proof.
  intros H. unfold registered. destruct (base.filter _ (clients r)) as [|[k' id] l] eqn:E; [done|].
  assert ((k', id) ∈ base.filter (fun '(k', _) => k' = k) (clients r)) as Hin by (rewrite E; set_solver).
  apply list_elem_of_filter in Hin as [-> Hin]. by destruct (H id).
Qed.

Lemma subStep_invariant s s' : subStep true s s' -> regInvariant s -> regInvariant s'.
Proof.
  intros Hs [Ha Hf Hc]. destruct Hs as [r act n addr|r act n id addr Hin]; cbn [registry active nextId] in *.
  - assert (registered r (Key true addr (n + 1)) = None) as Hn.
    { apply registered_None. intros id Hid. apply Ha in Hid as (a & Hact & Hk). apply Hf in Hact.
      unfold Key in Hk. injection Hk as _ Hk. cbn [nextId] in Hact. lia. }
    unfold register. rewrite Hn. split; cbn [registry active nextId clients closed]; [| |done].
    + intros k id. cbn [registry active clients]. rewrite elem_of_cons, (Ha k id). cbn [active]. split.
      * intros [[= -> ->]|(a & Hact & ->)]; [exists addr|exists a]; (split; [|done]); set_solver.
      * intros (a & Hact & ->). rewrite elem_of_cons in Hact. destruct Hact as [[= -> ->]|Hact]; [by left|right; eauto].
    + intros id a. rewrite elem_of_cons. intros [[= -> ->]|Hact]; [lia|]. apply Hf in Hact. cbn in Hact. lia.
  - split; cbn [registry active nextId clients closed unregister]; [| |done].
    + intros k i. cbn [registry active clients unregister]. rewrite list_elem_of_filter, (Ha k i). cbn [active].
      setoid_rewrite list_elem_of_filter. split.
      * intros [Hk (a & Hact & ->)]. exists a. split; [|done]. split; [|done]. intros [= -> ->]. done.
      * intros (a & [Hne Hact] & ->). split; [|by exists a]. unfold Key. intros [= -> ->]. done.
    + intros i a. rewrite list_elem_of_filter. intros [_ Hact]. by apply Hf in Hact.
Qed.

(** With stream multiplexing, in every interleaving of Subscribe RPCs the registry
    holds exactly the clients that are running, each under its own key, and no client
    is ever closed as a duplicate. *)
Theorem mux_registry_exact s :
  subReachable true s -> activeRegistered true s /\ closed (registry s) = [].
Proof.
  intros H. assert (regInvariant s) as [Ha _ Hc]; [|done]. unfold subReachable in H.
  assert (regInvariant (mkSub (mkRegistry [] []) [] 0)) as H0.
  { split; [|set_solver|done]. intros k id. cbn. split; [set_solver|]. intros (a & Hin & _). set_solver. }
  revert H0. induction H as [s|s1 s2 s3 Hs _ IH]; [done|]. intros Hi. apply IH. by apply (subStep_invariant s1).
Qed.

Lemma mux_registry_exact_witness :
  closed (registry (mkSub (mkRegistry [(Key true "a" 2, 2%N); (Key true "a" 1, 1%N)] []) [(2%N, "a"); (1%N, "a")] 2)) = [].
Proof.
  apply mux_registry_exact. unfold subReachable.
  eapply rtc_l; [apply (SubEnter true _ _ _ "a")|]. eapply rtc_l; [apply (SubEnter true _ _ _ "a")|]. apply rtc_refl.
Defined.

Lemma unregister_single k id c : unregister (mkRegistry [(k, id)] c) k = mkRegistry [] c.
Proof. unfold unregister. cbn [clients closed]. by rewrite filter_cons_False by naive_solver. Qed.

(** A second client under the key of the only one closes and replaces it. *)
Lemma register_duplicate k id id' c :
  register (mkRegistry [(k, id)] c) k id' = mkRegistry [(k, id')] (id :: c).
Proof.
  unfold register, registered. cbn [clients]. rewrite filter_cons_True by done. cbn [head fmap option_fmap option_map snd].
  by rewrite unregister_single.
Qed.

(** Without multiplexing the streams of a peer share a key and the one that leaves
    drops it unconditionally: a second stream of the peer closes the first, and when
    the first has left, the second is running without being registered. *)
Theorem legacy_registry_loses_client addr :
  exists s, subReachable false s /\ active s = [(2%N, addr)] /\ closed (registry s) = [1%N] /\
    clients (registry s) = [] /\ ~ activeRegistered false s.
Proof.
  pose (k := mkClientKey addr 0). exists (mkSub (mkRegistry [] [1%N]) [(2%N, addr)] 2).
  split; [|do 3 (split; [done|]); intros H; eapply not_elem_of_nil, (H k 2%N); exists addr; set_solver].
  unfold subReachable.
  eapply rtc_l; [apply (SubEnter false _ _ _ addr)|]. change (register _ _ _) with (mkRegistry [(k, 1%N)] []).
  eapply rtc_l; [apply (SubEnter false _ _ _ addr)|].
  change (Key false addr _) with k. rewrite register_duplicate.
  eapply rtc_l; [apply (SubLeave false _ _ _ 1%N addr); cbn; set_solver|].
  change (Key false addr _) with k. rewrite unregister_single.
  rewrite filter_cons_True by (intros [=]; lia). rewrite filter_cons_False by naive_solver. apply rtc_refl.
Qed.
