(* ===== verification/DbClient.v ===== *)
(** The database client (src/sonic_data_client/db_client.go) and the configuration it
    reads (src/sonic_db_config/db_config.go): target names, the resolution of gNMI
    paths to Redis keys and fields, reading tables as JSON, polling, and the three
    stream subscriptions.

    Redis is reached through the connections of [Target2RedisDb]; a missing
    connection is a nil client, whose use panics.  The map [pathG2S] is keyed by path
    pointers: it is a list of paths with their table paths here, and where the source
    ranges over it the order is an argument. *)

From S2P Require Import Prelude GnmiTypes DbTypes Trie VirtualDb JsonClient.
Import JsonClient.
Open Scope go_scope.

Module DbClient.

Inductive db_error :=
| InvalidTarget | InvalidNamespace | NamespaceFailed | InitFailed | NamespaceForV2R
| InvalidTablePath | NoRedisClient | RedisFailed | NoEntry | SplitFailed | EmitFailed
| Panic.

#[global] Instance db_error_eq_dec : EqDecision db_error.
Proof. solve_decision. Defined.

Abbreviation dres := (res db_error).

Definition of_cmd {A} (o : option A) : dres A :=
  match o with Some a => Ok a | None => Err RedisFailed end.

(** [spb.Target_value] of src/proto/sonic.proto. *)
Definition Target_value : gmap string Z :=
  {["APPL_DB" := 0; "ASIC_DB" := 1; "COUNTERS_DB" := 2; "CONFIG_DB" := 4; "PFC_WD_DB" := 5;
    "FLEX_COUNTER_DB" := 5; "STATE_DB" := 6; "CHASSIS_STATE_DB" := 13; "OTHERS" := 100]}%Z.

(** * Database configuration *)

(** What the swsscommon library reports: the namespaces and the key separator of a
    database; [None] is an error (of [DbInit] or a converted exception). *)
Record DbConfig := mkDbConfig {
  cfgNamespaces : option (list string);
  cfgSeparator : string -> string -> option string
}.

Definition SONIC_DEFAULT_NAMESPACE : string := "".

Section Config.
Variable cfg : DbConfig.

Definition CheckDbMultiNamespace : option bool :=
  (fun l => 1 <? length l) <$> cfgNamespaces cfg.

Definition GetDbNonDefaultNamespaces : option (list string) :=
  base.filter (fun ns => ns <> SONIC_DEFAULT_NAMESPACE) <$> cfgNamespaces cfg.

Definition GetDbAllNamespaces : option (list string) := cfgNamespaces cfg.

Definition GetDbNamespaceFromTarget (target : string) : option (string * bool) :=
  if String.eqb target SONIC_DEFAULT_NAMESPACE then Some (target, true)
  else
    match GetDbNonDefaultNamespaces with
    | None => None
    | Some l => if bool_decide (target ∈ l) then Some (target, true) else Some ("", false)
    end.

(** Database name, whether it is valid, namespace, whether the target names one. *)
Definition IsTargetDb (target : string) : string * bool * string * bool :=
  let targetname := str_split target "/" in
  let dbName := default "" (head targetname) in
  let isMultiNamespace := default false CheckDbMultiNamespace in
  if 2 <? length targetname then (dbName, false, SONIC_DEFAULT_NAMESPACE, false)
  else
    let '(ns, nsExist) :=
      if isMultiNamespace && (1 <? length targetname) then (default "" (targetname !! 1), true)
      else (SONIC_DEFAULT_NAMESPACE, false) in
    (dbName, bool_decide (is_Some (Target_value !! dbName)), ns, nsExist).

Definition GetTableKeySeparator (target ns : string) : option string :=
  match Target_value !! target with
  | None => None
  | Some _ => cfgSeparator cfg target ns
  end.

(** Callers that drop the error go on with the empty string. *)
Definition separatorOf (target ns : string) : string := default "" (GetTableKeySeparator target ns).
End Config.

(** [initRedisDbClients]; [sock] is [sdcfg.GetDbSock] and [connect] [redis.NewClient]. *)
Definition initRedisDbClients `{!MapRange} (cfg : DbConfig) (sock : string -> string -> option string)
    (connect : string -> Z -> Redis) : gmap string (gmap string Redis) :=
  match GetDbAllNamespaces cfg with
  | None => ∅
  | Some nss =>
      fold_left (fun m ns =>
        <[ns := fold_left (fun m' '(dbName, dbn) =>
                  if String.eqb dbName "OTHERS" then m'
                  else match sock dbName ns with
                       | None => m'
                       | Some addr => <[dbName := connect addr dbn]> m'
                       end) (range_of Target_value) ∅]> m) nss ∅
  end.

(** * Values *)

Record Notification := mkNotification {
  n_timestamp : Z; n_prefix : option Path; n_update : list Update; n_delete : list Path
}.

(** [spb.Value]. *)
Record Value := mkValue {
  v_prefix : option Path;
  v_path : option Path;
  v_timestamp : Z;
  v_sync : bool;
  v_fatal : string;
  v_val : option TypedValue;
  v_delete : list Path;
  v_notification : option Notification
}.

Definition GetTimestamp (v : Value) : Z :=
  match v_notification v with Some n => n_timestamp n | None => v_timestamp v end.

Definition Compare (v o : Value) : Z :=
  if (GetTimestamp o <? GetTimestamp v)%Z then 1
  else if (GetTimestamp v =? GetTimestamp o)%Z then 0
  else -1.

(** [gnmipb.SubscribeResponse]. *)
Inductive SubscribeResponse := SyncResponse | UpdateResponse (n : Notification).

(** The error is the text of the fatal message. *)
Definition ValToResp (v : Value) : res string SubscribeResponse :=
  if v_sync v then Ok SyncResponse
  else if negb (String.eqb (v_fatal v) "") then Err (v_fatal v)
  else match v_notification v with
       | Some n => Ok (UpdateResponse n)
       | None =>
           match v_delete v with
           | [] => Ok (UpdateResponse (mkNotification (GetTimestamp v) (v_prefix v) [mkUpdate (v_path v) (v_val v)] []))
           | deleted => Ok (UpdateResponse (mkNotification (GetTimestamp v) (v_prefix v) [] deleted))
           end
       end.

Definition countersDbHasTableKeys (tableName : string) : bool :=
  String.eqb tableName "COUNTERS" || String.eqb tableName "PORT_PHY_ATTR".

Section DbClient.
Context `{!MapRange}.
Variable cfg : DbConfig.
Variable Target2RedisDb : gmap string (gmap string Redis).
(** [os.Getenv(UNIT_TEST)] as the initialisation of the switch map sees it. *)
Variable unitTest : bool.
(** [json.Marshal] ([None]: an error, or the recovered panic), [fmt.Sprintf] of a path. *)
Variable marshal : jobj -> option string.
Variable sprintPath : Path -> string.

Definition redisOf (ns db : string) : option Redis := Target2RedisDb !! ns ≫= lookup db.

(** A call through a connection that may be nil. *)
Definition conn (ns db : string) : dres Redis :=
  match redisOf ns db with Some r => Ok r | None => Err Panic end.

Definition GetRedisClientsForDb (target : string) : option (gmap string Redis) :=
  let add m ns := match redisOf ns target with Some r => <[ns := r]> m | None => m end in
  match CheckDbMultiNamespace cfg with
  | None => None
  | Some true =>
      match GetDbNonDefaultNamespaces cfg with
      | None => None
      | Some nss => Some (fold_left add nss ∅)
      end
  | Some false => Some (add ∅ SONIC_DEFAULT_NAMESPACE)
  end.

(** * Path resolution *)

(** [gnmiFullPath]: an empty path drops the elements of the prefix. *)
Definition gnmiFullPath (prefix : option Path) (path : Path) : Path :=
  mkPath (path_origin path) ""
    (match path_elem path with [] => [] | es => GetElem prefix ++ es end).

(** The initialisation of the counter maps: the first four errors are returned, the
    others are logged (a panic is not). *)
Definition initCounters (vs : VirtualDb.State) : VirtualDb.State * option VirtualDb.v2r_error :=
  let sep := separatorOf cfg in
  let needed (init : VirtualDb.State -> VirtualDb.State * option VirtualDb.v2r_error) '(vs, e) :=
    match e with Some e => (vs, Some e) | None => init vs end in
  let logged (init : VirtualDb.State -> VirtualDb.State * option VirtualDb.v2r_error) '(vs, e) :=
    match e with
    | Some e => (vs, Some e)
    | None => let '(vs, e) := init vs in
              (vs, if bool_decide (e = Some VirtualDb.Panic) then e else None)
    end in
  logged (VirtualDb.initCountersAclRuleMap GetRedisClientsForDb)
    (logged (VirtualDb.initCountersSidMap GetRedisClientsForDb)
    (logged (VirtualDb.initDebugNameSwitchStatMap GetRedisClientsForDb unitTest)
    (logged (VirtualDb.initCountersFabricPortNameMap GetRedisClientsForDb)
    (logged (VirtualDb.initCountersPfcwdNameMap sep GetRedisClientsForDb)
    (needed (VirtualDb.initAliasMap sep GetRedisClientsForDb)
    (needed (VirtualDb.initCountersPGNameMap GetRedisClientsForDb)
    (needed (VirtualDb.initCountersQueueNameMap GetRedisClientsForDb)
    (VirtualDb.initCountersPortNameMap GetRedisClientsForDb vs)))))))).

Definition set_virtual (t : tablePath) : tablePath :=
  mkTablePath (dbNamespace t) (dbName t) (tableName t) (tableKey t) (delimitor t) (field t) (jsonValue t)
    (protoValue t) (index t) (operation t) (jsonTableName t) (jsonTableKey t) (jsonDelimitor t) (jsonField t) true.

Definition set_key_field (t : tablePath) (k f : string) : tablePath :=
  mkTablePath (dbNamespace t) (dbName t) (tableName t) k (delimitor t) f (jsonValue t)
    (protoValue t) (index t) (operation t) (jsonTableName t) (jsonTableKey t) (jsonDelimitor t) (jsonField t)
    (isVirtualPath t).

(** The table path of the elements after the database name. *)
Definition realPath (ns db sep : string) (names : list string) : dres (list tablePath) :=
  let mk t k f := Ok [buildTablePath ns db t k sep f "" "" ""] in
  match names with
  | [t] => mk t "" ""
  | [t; k] => mk t k ""
  | [t; k1; k2] => mk t (k1 +:+ sep +:+ k2) ""
  | [t; k1; k2; f] => mk t (k1 +:+ sep +:+ k2) f
  | _ => Err InvalidTablePath
  end.

(** [parsePath] for one path: the new state of the counter maps, and the table paths. *)
Definition parsePath (prefix : option Path) (path : Path) (vs : VirtualDb.State)
    : VirtualDb.State * dres (list tablePath) :=
  let '(db, valid, tns, nsExist) := IsTargetDb cfg (GetTarget prefix) in
  if negb valid then (vs, Err InvalidTarget)
  else match GetDbNamespaceFromTarget cfg tns with
  | None => (vs, Err NamespaceFailed)
  | Some (_, false) => (vs, Err InvalidNamespace)
  | Some (ns, true) =>
      let '(vs, e) := if String.eqb db "COUNTERS_DB" then initCounters vs else (vs, None) in
      match e with
      | Some VirtualDb.Panic => (vs, Err Panic)
      | Some _ => (vs, Err InitFailed)
      | None =>
          let fullPath := match prefix with Some _ => gnmiFullPath prefix path | None => path end in
          let names := elem_name <$> path_elem fullPath in
          let sep := separatorOf cfg db ns in
          match VirtualDb.lookupV2R (separatorOf cfg) SONIC_DEFAULT_NAMESPACE (VirtualDb.maps vs) (db :: names) with
          | Ok tblPaths => if nsExist then (vs, Err NamespaceForV2R) else (vs, Ok (set_virtual <$> tblPaths))
          | Err VirtualDb.Panic => (vs, Err Panic)
          | Err _ => (vs, realPath ns db sep names)
          end
      end
  end.

Fixpoint parsePaths (prefix : option Path) (paths : list Path) (vs : VirtualDb.State)
    : VirtualDb.State * dres (list (Path * list tablePath)) :=
  match paths with
  | [] => (vs, Ok [])
  | p :: ps =>
      let '(vs, r) := parsePath prefix p vs in
      match r with
      | Err e => (vs, Err e)
      | Ok t =>
          let '(vs, r) := parsePaths prefix ps vs in
          (vs, try g := r in Ok ((p, t) :: g))
      end
  end.

(** [probePathElements] for one table path: key or field. *)
Definition probeOne (t : tablePath) : dres tablePath :=
  if isVirtualPath t || negb (String.eqb (field t) "") || String.eqb (tableKey t) "" then Ok t
  else match redisOf (dbNamespace t) (dbName t) with
  | None => Err NoRedisClient
  | Some r =>
      let fullKey := tableName t +:+ delimitor t +:+ tableKey t in
      try n := of_cmd (Exists r fullKey) in
      if n then Ok t
      else if str_contains (tableKey t) (delimitor t) then
        match str_splitn2 (tableKey t) (delimitor t) with
        | [k; f] =>
            try fieldExists := of_cmd (HExists r (tableName t +:+ delimitor t +:+ k) f) in
            Ok (if fieldExists then set_key_field t k f else t)
        | _ => Err Panic
        end
      else
        try fieldExists := of_cmd (HExists r (tableName t) (tableKey t)) in
        Ok (if fieldExists then set_key_field t "" (tableKey t) else t)
  end.

Definition probePathElements (g : list (Path * list tablePath)) : dres (list (Path * list tablePath)) :=
  mapM_res (fun '(p, ts) => try ts' := mapM_res probeOne ts in Ok (p, ts')) g.

(** [NewDbClient] (and [resolveSubscribePath] for a single path). *)
Definition populateAllDbtablePath (prefix : option Path) (paths : list Path) (vs : VirtualDb.State)
    : VirtualDb.State * dres (list (Path * list tablePath)) :=
  let '(vs, r) := parsePaths prefix paths vs in
  (vs, try g := r in probePathElements g).

Definition ensureOne (t : tablePath) : dres unit :=
  if String.eqb (tableKey t) "" || isVirtualPath t then Ok tt
  else match redisOf (dbNamespace t) (dbName t) with
  | None => Err NoRedisClient
  | Some r =>
      try n := of_cmd (Exists r (tableName t +:+ delimitor t +:+ tableKey t)) in
      if n then Ok tt else Err NoEntry
  end.

(** [ValidatePaths]. *)
Definition ensureKeysExistInRedis (g : list (Path * list tablePath)) : dres unit :=
  foldM (fun _ '(_, ts) => foldM (fun _ t => ensureOne t) tt ts) tt g.

(** * Reading tables *)

Definition fields (mfv : gmap string string) : jobj := JStr <$> mfv.

Definition makeJSON_redis (msi : jobj) (key op : option string) (mfv : gmap string string) : jobj :=
  match key, op with
  | None, None => fields mfv ∪ msi
  | None, Some op => <[op := JObj (fields mfv)]> msi
  | Some key, None => <[key := JObj (fields mfv)]> msi
  | Some key, Some op => <[key := JObj {[op := JObj (fields mfv)]}]> msi
  end.

(** One key of the loop of [TableData2Msi]. *)
Definition addEntry (r : Redis) (t : tablePath) (useKey : bool) (op : option string) (msi : jobj) (dbkey : string)
    : dres jobj :=
  try fv := of_cmd (HGetAll r dbkey) in
  if base.size fv =? 0 then Ok msi
  else if negb (String.eqb (jsonTableKey t) "") then Ok (makeJSON_redis msi (Some (jsonTableKey t)) op fv)
  else if (negb (String.eqb (tableKey t) "") && negb useKey) || String.eqb (tableName t) dbkey then
    Ok (makeJSON_redis msi None op fv)
  else match str_splitn2 dbkey (delimitor t) with
       | [_; key] => Ok (makeJSON_redis msi (Some key) op fv)
       | _ => Err SplitFailed
       end.

Definition TableData2Msi (t : tablePath) (useKey : bool) (op : option string) (msi : jobj) : dres jobj :=
  try r := conn (dbNamespace t) (dbName t) in
  try dbkeys :=
    if String.eqb (tableKey t) "" then
      let pattern :=
        if String.eqb (dbName t) "COUNTERS_DB" && negb (countersDbHasTableKeys (tableName t)) then tableName t
        else tableName t +:+ delimitor t +:+ "*" in
      of_cmd (Keys r pattern)
    else Ok [tableName t +:+ delimitor t +:+ tableKey t] in
  if negb (String.eqb (jsonField t) "") && negb (String.eqb (jsonTableKey t) "") then
    match dbkeys with
    | [] => Err Panic
    | k :: _ =>
        match HGetErr r k (field t) with
        | Err _ => Ok msi
        | Ok val => Ok (makeJSON_redis msi (Some (jsonTableKey t)) op {[jsonField t := val]})
        end
    end
  else foldM (addEntry r t useKey op) msi dbkeys.

Definition Msi2TypedValue (msi : jobj) : dres TypedValue :=
  match marshal msi with Some jv => Ok (JsonIetfVal jv) | None => Err EmitFailed end.

(** The Redis key of a table path that names a field. *)
Definition fieldKey (t : tablePath) : string :=
  if String.eqb (tableKey t) "" then tableName t else tableName t +:+ delimitor t +:+ tableKey t.

Definition isField (t : tablePath) : bool := String.eqb (jsonField t) "" && negb (String.eqb (field t) "").

(** [tableData2TypedValue], used by Get. *)
Fixpoint tableData2TypedValue (ts : list tablePath) (msi : jobj) : dres TypedValue :=
  match ts with
  | [] => Msi2TypedValue msi
  | t :: ts =>
      if isField t then
        try r := conn (dbNamespace t) (dbName t) in
        match HGetErr r (fieldKey t) (field t) with
        | Ok val => Ok (StringVal val)
        | Err _ => Err RedisFailed
        end
      else
        try msi := TableData2Msi t false None msi in
        tableData2TypedValue ts msi
  end.

(** [subscribeTableData2TypedValue]: a value, its error, or nothing received. *)
Fixpoint subscribeTableData2TypedValue (ts : list tablePath) (msi : jobj) (updateReceived : bool)
    : dres (option TypedValue) :=
  match ts with
  | [] => if updateReceived then try v := Msi2TypedValue msi in Ok (Some v) else Ok None
  | t :: ts =>
      if isField t then
        try r := conn (dbNamespace t) (dbName t) in
        match HGetErr r (fieldKey t) (field t) with
        | Ok val => Ok (Some (StringVal val))
        | Err _ => subscribeTableData2TypedValue ts msi updateReceived
        end
      else
        try msi := TableData2Msi t false None msi in
        subscribeTableData2TypedValue ts msi (updateReceived || (0 <? base.size msi))
  end.

(** [Get]; [order] is the order in which the map of paths is visited. *)
Definition Get (prefix : option Path) (now : Z) (order : list (Path * list tablePath)) : dres (list Value) :=
  mapM_res (fun '(p, ts) =>
    try val := tableData2TypedValue ts ∅ in
    Ok (mkValue prefix (Some p) now false "" (Some val) [] None)) order.

(** * Polling *)

Definition updateValue (prefix : option Path) (p : Path) (now : Z) (val : TypedValue) : Value :=
  mkValue prefix (Some p) now false "" (Some val) [] None.
Definition deleteValue (prefix : option Path) (p : Path) (now : Z) : Value :=
  mkValue prefix None now false "" (Some (StringVal "")) [p] None.
Definition syncValue (now : Z) : Value := mkValue None None now true "" None [] None.

(** How a round ends: with the next one, with the return of the routine, or with a panic. *)
Inductive pollEnd := Continue | Exit | Crash.

(** The paths of one round of [PollRun]: the values put on the queue, the new
    [prevUpdates], and the end. *)
Fixpoint pollPaths (prefix : option Path) (now : Z) (order : list (Path * list tablePath))
    (prevUpdates : gmap string bool) : list Value * gmap string bool * pollEnd :=
  match order with
  | [] => ([], prevUpdates, Continue)
  | (p, ts) :: order =>
      match subscribeTableData2TypedValue ts ∅ false with
      | Err Panic => ([], prevUpdates, Crash)
      | Err _ => ([], prevUpdates, Exit)
      | Ok None =>
          if default false (prevUpdates !! sprintPath p) then
            let '(vs, prev, e) := pollPaths prefix now order (<[sprintPath p := false]> prevUpdates) in
            (deleteValue prefix p now :: vs, prev, e)
          else pollPaths prefix now order prevUpdates
      | Ok (Some val) =>
          let '(vs, prev, e) := pollPaths prefix now order (<[sprintPath p := true]> prevUpdates) in
          (updateValue prefix p now val :: vs, prev, e)
      end
  end.

Definition pollRound (prefix : option Path) (now : Z) (order : list (Path * list tablePath))
    (prevUpdates : gmap string bool) : list Value * gmap string bool * pollEnd :=
  let '(vs, prev, e) := pollPaths prefix now order prevUpdates in
  (match e with Continue => vs ++ [syncValue now] | _ => vs end, prev, e).
End DbClient.

(** [PollRun]: one round per token of the poll channel, each with the database, the
    clock and the visiting order of its moment. *)
Fixpoint PollRun (marshal : jobj -> option string) (sprintPath : Path -> string) (prefix : option Path)
    (prevUpdates : gmap string bool)
    (rounds : list (gmap string (gmap string Redis) * Z * list (Path * list tablePath))) : list Value * pollEnd :=
  match rounds with
  | [] => ([], Continue)
  | (db, now, order) :: rounds =>
      let '(vs, prev, e) := pollRound db marshal sprintPath prefix now order prevUpdates in
      match e with
      | Continue => let '(vs', e) := PollRun marshal sprintPath prefix prev rounds in (vs ++ vs', e)
      | _ => (vs, e)
      end
  end.

(** * Stream subscriptions

    Every read of Redis in a loop sees the database of its moment, so the loops take
    the readings (or the connections) of each turn as arguments. *)

(** [validateSampleInterval] in nanoseconds; the request is an unsigned 64-bit number
    converted to a signed one. *)
Definition MinSampleInterval : Z := 1000000000.

Definition toInt64 (n : Z) : Z := if (n <? 2 ^ 63)%Z then n else (n - 2 ^ 64)%Z.

Definition validateSampleInterval (sampleInterval : Z) : option Z :=
  let requestedInterval := toInt64 sampleInterval in
  if (requestedInterval =? 0)%Z then Some MinSampleInterval
  else if (requestedInterval <? MinSampleInterval)%Z then None
  else Some requestedInterval.

(** [readVal] of [dbFieldSubscribe]. *)
Definition readVal (reading : res redis_error string) : string :=
  match reading with Ok v => v | Err _ => "" end.

(** The loop of [dbFieldSubscribe]: the values that enter the queue.  A tick has the
    reading and whether the queue takes a value; the list ends at the stop signal. *)
Fixpoint dbFieldLoop (onChange : bool) (val : string) (ticks : list (res redis_error string * bool)) : list string :=
  match ticks with
  | [] => []
  | (reading, ok) :: ticks =>
      let newVal := readVal reading in
      if negb onChange || negb (String.eqb newVal val) then
        if ok then newVal :: dbFieldLoop onChange newVal ticks else []
      else dbFieldLoop onChange val ticks
  end.

Definition dbFieldSubscribe (onChange : bool) (first : res redis_error string * bool)
    (ticks : list (res redis_error string * bool)) : list string :=
  let '(reading, ok) := first in
  if ok then readVal reading :: dbFieldLoop onChange (readVal reading) ticks else [].

(** [readVal] of [dbFieldMultiSubscribe] with its map of previous values. *)
Definition keepOrSend (onChange updateOnly : bool) (msi : jobj) (prev : tablePath -> option string) (t : tablePath)
    (val : string) : jobj * (tablePath -> option string) :=
  if (onChange || updateOnly) && bool_decide (prev t = Some val) then (msi, prev)
  else (<[jsonTableKey t := JObj {[jsonField t := JStr val]}]> msi,
        fun t' => if decide (t' = t) then Some val else prev t').

Definition multiStep (onChange updateOnly : bool) (reading : tablePath -> res redis_error string)
    (acc : jobj * (tablePath -> option string)) (t : tablePath) : jobj * (tablePath -> option string) :=
  let '(msi, prev) := acc in
  match reading t with
  | Err RedisNil => if String.eqb (jsonField t) "" then keepOrSend onChange updateOnly msi prev t "" else acc
  | Err RedisFailure => keepOrSend onChange updateOnly msi prev t ""
  | Ok val => keepOrSend onChange updateOnly msi prev t val
  end.

Definition multiRead (onChange updateOnly : bool) (ts : list tablePath) (reading : tablePath -> res redis_error string)
    (prev : tablePath -> option string) : jobj * (tablePath -> option string) :=
  fold_left (multiStep onChange updateOnly reading) ts (∅, prev).

(** The payloads of [dbFieldMultiSubscribe] that enter the queue, from the loop on; the
    ticks end when the queue refuses a payload or the stop signal comes. *)
Fixpoint dbFieldMultiLoop (onChange updateOnly : bool) (ts : list tablePath) (prev : tablePath -> option string)
    (ticks : list (tablePath -> res redis_error string)) : list jobj :=
  match ticks with
  | [] => []
  | reading :: ticks =>
      let '(msi, prev) := multiRead onChange updateOnly ts reading prev in
      let rest := dbFieldMultiLoop onChange updateOnly ts prev ticks in
      if negb onChange || negb (base.size msi =? 0) then msi :: rest else rest
  end.

Definition dbFieldMultiSubscribe (onChange updateOnly : bool) (ts : list tablePath)
    (first : tablePath -> res redis_error string) (ticks : list (tablePath -> res redis_error string)) : list jobj :=
  let '(msi, prev) := multiRead onChange updateOnly ts first (fun _ => None) in
  msi :: dbFieldMultiLoop onChange updateOnly ts prev ticks.

(** ** Table subscriptions *)

Definition set_key (t : tablePath) (k : string) : tablePath := set_key_field t k (field t).

(** A keyspace notification: channel, payload, and the database when it is handled. *)
Record Message := mkMessage { m_channel : string; m_payload : string; m_db : gmap string (gmap string Redis) }.

(** The pattern and the prefix length that [dbTableKeySubscribe] subscribes to. *)
Definition keyspacePattern (t : tablePath) : string * nat :=
  let pattern := "__keyspace@" +:+ pretty (default 0%Z (Target_value !! dbName t)) +:+ "__:" +:+ tableName t in
  let pattern :=
    if String.eqb (dbName t) "COUNTERS_DB" && negb (countersDbHasTableKeys (tableName t)) then pattern
    else pattern +:+ delimitor t in
  if String.eqb (tableKey t) "" then (pattern +:+ "*", String.length pattern)
  else (pattern +:+ tableKey t, String.length (pattern +:+ tableKey t)).

(** One message in [dbSingleTableKeySubscribe]: the remembered data and the update
    passed on, if any; an error is the fatal message of the routine. *)
Definition onMessage (t : tablePath) (prefixLen : nat) (msi : jobj) (m : Message) : dres (jobj * option jobj) :=
  let send (msi newMsi : jobj) := Ok (msi, if 0 <? base.size newMsi then Some newMsi else None) in
  let key := strdrop prefixLen (m_channel m) in
  let short := String.length (m_channel m) <? prefixLen in
  if String.eqb (m_payload m) "del" || String.eqb (m_payload m) "hdel" then
    if negb (String.eqb (tableKey t) "") then send msi ∅
    else if short then Ok (msi, None)
    else send msi {[key := JObj ∅]}
  else if String.eqb (m_payload m) "hset" then
    if negb (String.eqb (tableKey t) "") then
      try newMsi := TableData2Msi (m_db m) t false None ∅ in
      if decide (newMsi = msi) then Ok (msi, None) else send newMsi newMsi
    else if short then Ok (msi, None)
    else
      try newMsi := TableData2Msi (m_db m) (set_key t key) true None ∅ in
      if decide (newMsi = msi) then Ok (msi, None) else send newMsi newMsi
  else Ok (msi, None).

(** The updates of a routine over its messages; it stops at the first error. *)
Fixpoint dbSingleTableKeySubscribe (t : tablePath) (prefixLen : nat) (msi : jobj) (ms : list Message) : list jobj :=
  match ms with
  | [] => []
  | m :: ms =>
      match onMessage t prefixLen msi m with
      | Err _ => []
      | Ok (msi, Some u) => u :: dbSingleTableKeySubscribe t prefixLen msi ms
      | Ok (msi, None) => dbSingleTableKeySubscribe t prefixLen msi ms
      end
  end.

(** The events of the select loop of [dbTableKeySubscribe]. *)
Inductive subEvent := Updated (table : jobj) | Tick.

(** The payloads it sends; [interval] 0 is the on-change mode, without ticks. *)
Fixpoint dbTableKeyLoop (interval : Z) (updateOnly : bool) (msiAll : jobj) (evs : list subEvent) : list jobj :=
  match evs with
  | [] => []
  | Updated u :: evs =>
      if (interval =? 0)%Z then u :: dbTableKeyLoop interval updateOnly msiAll evs
      else dbTableKeyLoop interval updateOnly (u ∪ msiAll) evs
  | Tick :: evs =>
      if (interval =? 0)%Z then dbTableKeyLoop interval updateOnly msiAll evs
      else msiAll :: dbTableKeyLoop interval updateOnly (if updateOnly then ∅ else msiAll) evs
  end.

(** [dbTableKeySubscribe]: the initial data of all tables, then the loop.  [None] is
    the fatal message of a failed read. *)
Definition dbTableKeySubscribe (db : gmap string (gmap string Redis)) (ts : list tablePath) (interval : Z)
    (updateOnly : bool) (evs : list subEvent) : option (list jobj) :=
  match foldM (fun msi t => TableData2Msi db t false None msi) ∅ ts with
  | Err _ => None
  | Ok msiAll => Some (msiAll :: dbTableKeyLoop interval updateOnly (if updateOnly then ∅ else msiAll) evs)
  end.
End DbClient.
