(* ===== verification/DbClientProofs.v ===== *)
(** Properties of the database client: what Get answers for every form of path, what a
    polling or subscribed client can reconstruct from the messages, and where the
    subscription loses data. *)

From S2P Require Import Prelude GnmiTypes DbTypes Trie VirtualDb VirtualDbProofs JsonClient DbClient.
Import JsonClient DbClient.

Abbreviation snapshot := (gmap string (gmap string Redis)).

(** * Reading *)

(** The Redis key of a list of names. *)
Definition keyOf (c : Ascii.ascii) (names : list string) : string := str_join names (String c "").

(** What a Get of a path means on a database of hashes: an entry of the table when the
    key exists, else the field of the entry above it, else nothing. *)
Definition readDb (marshal : jobj -> option string) (store : hash_store) (c : Ascii.ascii) (names : list string)
    : dres TypedValue :=
  let entryOrField key parent x :=
    match store !! key, store !! parent ≫= lookup x with
    | Some fv, _ => Msi2TypedValue marshal (fields fv)
    | None, Some v => Ok (StringVal v)
    | None, None => Err NoEntry
    end in
  match names with
  | [t; x] => entryOrField (keyOf c [t; x]) t x
  | [t; k; x] => entryOrField (keyOf c [t; k; x]) (keyOf c [t; k]) x
  | [t; k1; k2; f] =>
      match store !! keyOf c [t; k1; k2] with
      | None => Err NoEntry
      | Some fv => match fv !! f with Some v => Ok (StringVal v) | None => Err RedisFailed end
      end
  | _ => Err InvalidTablePath
  end.

(** Names below the table are not empty, and only the last may contain the separator
    where two are joined. *)
Definition wfNames (c : Ascii.ascii) (names : list string) : Prop :=
  match names with
  | [_; x] => x <> "" /\ str_free c x
  | [_; k; x] => k <> "" /\ x <> "" /\ str_free c k
  | [_; k1; k2; f] => f <> ""
  | _ => False
  end.

(** The Get RPC of one path: resolve, check existence, read. *)
Definition getPath `{!MapRange} (cfg : DbConfig) (db : snapshot) (unitTest : bool) (marshal : jobj -> option string)
    (prefix : option Path) (path : Path) (now : Z) (vs : VirtualDb.State) : dres (list Value) :=
  match populateAllDbtablePath cfg db unitTest prefix [path] vs with
  | (_, Ok g) =>
      match ensureKeysExistInRedis db g with
      | Ok _ => Get db marshal prefix now g
      | Err e => Err e
      end
  | (_, Err e) => Err e
  end.

Lemma str_contains_join c k x : str_contains (k +:+ String c "" +:+ x) (String c "") = true.
Proof.
  unfold str_contains. assert (is_Some (str_index (k +:+ String c "" +:+ x) (String c ""))) as [i ->]; [|done].
  induction k as [|d k IH].
  - exists 0. change ("" +:+ String c "" +:+ x) with (String c ("" +:+ x)). cbn. by rewrite Ascii.eqb_refl.
  - rewrite str_app_cons. cbn [str_index]. destruct (str_prefix _ _); [by eexists|]. destruct IH as [i ->]. by eexists.
Qed.

Lemma str_contains_free c x : str_free c x -> str_contains x (String c "") = false.
Proof.
  unfold str_contains. intros H. assert (str_index x (String c "") = None) as ->; [|done].
  induction x as [|d x IH]; [done|]. destruct H as [Hne H]. cbn [str_index str_prefix].
  rewrite (proj2 (Ascii.eqb_neq c d) Hne). cbn. by rewrite IH.
Qed.

Lemma str_index_sep c k x : str_free c k -> str_index (k +:+ String c x) (String c "") = Some (String.length k).
Proof.
  induction k as [|d k IH]; intros H.
  - change ("" +:+ String c x) with (String c x). cbn. by rewrite Ascii.eqb_refl.
  - destruct H as [Hne H]. rewrite str_app_cons. cbn [str_index str_prefix String.length].
    rewrite (proj2 (Ascii.eqb_neq c d) Hne). cbn [andb]. by rewrite IH.
Qed.

Lemma splitn2_sep c k x : str_free c k -> str_splitn2 (k +:+ String c "" +:+ x) (String c "") = [k; x].
Proof.
  intros H. change (String c "" +:+ x) with (String c x). unfold str_splitn2. rewrite str_index_sep by done.
  rewrite strtake_app. change (String.length (String c "")) with 1.
  replace (String c x) with (String c "" +:+ x) by done. rewrite <- str_app_assoc.
  replace (String.length k + 1) with (String.length (k +:+ String c "")) by (rewrite str_length_app; done).
  by rewrite strdrop_app.
Qed.

(** A working database behind a valid target. *)
Section Reading.
Context {mr : MapRange}.
Variables (cfg : DbConfig) (T2R : snapshot) (unitTest : bool) (marshal : jobj -> option string).
Variables (target dbn ns : string) (nsExist : bool) (c : Ascii.ascii) (r : Redis) (store : hash_store).
Hypothesis Htarget : IsTargetDb cfg target = (dbn, true, ns, nsExist).
Hypothesis Hns : GetDbNamespaceFromTarget cfg ns = Some (ns, true).
Hypothesis Hreal : dbn <> "COUNTERS_DB".
Hypothesis Hsep : cfgSeparator cfg dbn ns = Some (String c "").
Hypothesis Hconn : redisOf T2R ns dbn = Some r.
Hypothesis Hserves : RedisServes r store.

Lemma target_known : is_Some (Target_value !! dbn).
Proof using Htarget.
  unfold IsTargetDb in Htarget. destruct (2 <? _); [done|]. destruct (if _ && _ then _ else _).
  injection Htarget as Hd H _ _. rewrite <- Hd. by apply bool_decide_eq_true in H.
Qed.

Lemma parsePath_real prefix path vs :
  GetTarget prefix = target -> path_elem path <> [] ->
  parsePath cfg T2R unitTest prefix path vs =
    (vs, realPath ns dbn (String c "") (elem_name <$> GetElem prefix ++ path_elem path)).
Proof using Htarget Hns Hreal Hsep.
  intros Ht Hne. unfold parsePath. rewrite Ht, Htarget. cbn [negb]. rewrite Hns.
  rewrite (proj2 (String.eqb_neq dbn "COUNTERS_DB") Hreal).
  assert (path_elem (match prefix with Some _ => gnmiFullPath prefix path | None => path end) = GetElem prefix ++ path_elem path) as ->.
  { destruct prefix as [p|]; [|done]. unfold gnmiFullPath. cbn [path_elem]. by destruct (path_elem path). }
  unfold VirtualDb.lookupV2R. rewrite v2rTrie_dispatch.
  destruct (dispatch _) as [f|] eqn:E.
  { exfalso. revert E. set (names := elem_name <$> _). clearbody names. unfold dispatch.
    rewrite (proj2 (String.eqb_neq dbn "COUNTERS_DB") Hreal). cbn [andb negb].
    by destruct names as [|? [|? [|? [|? ?]]]]. }
  unfold separatorOf, GetTableKeySeparator. destruct target_known as [z ->]. by rewrite Hsep.
Qed.

Abbreviation tp t k f := (buildTablePath ns dbn t k (String c "") f "" "" "").

(** Resolution, existence check and reading of one real table path. *)
Lemma read_one (prefix : option Path) (path : Path) (now : Z) (vs : VirtualDb.State) t t' :
  GetTarget prefix = target -> path_elem path <> [] ->
  realPath ns dbn (String c "") (elem_name <$> GetElem prefix ++ path_elem path) = Ok [t] ->
  probeOne T2R t = Ok t' ->
  getPath cfg T2R unitTest marshal prefix path now vs =
    match ensureOne T2R t' with
    | Err e => Err e
    | Ok _ =>
        match tableData2TypedValue T2R marshal [t'] ∅ with
        | Ok v => Ok [updateValue prefix path now v]
        | Err e => Err e
        end
    end.
Proof using Htarget Hns Hreal Hsep.
  intros Ht Hne Hrp Hpr. unfold getPath, populateAllDbtablePath, parsePaths.
  rewrite parsePath_real, Hrp by done. unfold probePathElements, mapM_res at 1. unfold mapM_res at 1. rewrite Hpr.
  unfold ensureKeysExistInRedis, foldM. destruct (ensureOne T2R t') as [[]|e]; [|done].
  unfold Get, mapM_res. by destruct (tableData2TypedValue T2R marshal [t'] ∅).
Qed.

(** An entry read by its key. *)
Lemma read_entry t k fv :
  k <> "" -> store !! (t +:+ String c "" +:+ k) = Some fv ->
  tableData2TypedValue T2R marshal [tp t k ""] ∅ = Msi2TypedValue marshal (fields fv).
Proof using Hconn Hserves.
  intros Hk Hst. apply String.eqb_neq in Hk. cbn [tableData2TypedValue isField jsonField field buildTablePath negb String.eqb andb].
  unfold TableData2Msi, conn. cbn [dbNamespace dbName buildTablePath tableKey tableName delimitor jsonField jsonTableKey].
  rewrite Hconn, Hk. cbn [negb String.eqb andb foldM]. unfold addEntry.
  rewrite serves_hgetall, Hst. cbn [of_cmd default from_option id jsonTableKey buildTablePath tableKey String.eqb negb].
  rewrite Hk. cbn [negb andb orb].
  destruct (base.size fv =? 0) eqn:E.
  - apply Nat.eqb_eq, map_size_empty_inv in E as ->. unfold fields. by rewrite fmap_empty.
  - cbn [makeJSON_redis]. by rewrite (right_id_L ∅ (∪)).
Qed.

(** A field of a key. *)
Lemma read_field t k f :
  f <> "" ->
  tableData2TypedValue T2R marshal [tp t k f] ∅ =
    match store !! (if String.eqb k "" then t else t +:+ String c "" +:+ k) ≫= lookup f with
    | Some v => Ok (StringVal v)
    | None => Err RedisFailed
    end.
Proof using Hconn Hserves.
  intros Hf. apply String.eqb_neq in Hf.
  cbn [tableData2TypedValue]. unfold isField. cbn [jsonField field buildTablePath]. rewrite Hf. cbn [negb String.eqb andb].
  unfold conn. cbn [dbNamespace dbName buildTablePath]. rewrite Hconn, serves_hget.
  unfold fieldKey. cbn [tableKey tableName delimitor buildTablePath]. by destruct (_ ≫= _).
Qed.

Abbreviation full t k := (t +:+ String c "" +:+ k).

(** The existence check of a resolved path. *)
Lemma ensure_key t k f :
  ensureOne T2R (tp t k f) =
    if String.eqb k "" then Ok tt
    else match store !! full t k with Some _ => Ok tt | None => Err NoEntry end.
Proof using Hconn Hserves.
  unfold ensureOne. cbn [tableKey isVirtualPath buildTablePath dbNamespace dbName tableName delimitor].
  rewrite orb_false_r. destruct (String.eqb k ""); [done|]. rewrite Hconn, serves_exists. cbn [of_cmd].
  by destruct (store !! full t k).
Qed.

(** A path to a key that exists, or to a field of the entry above it, or to nothing. *)
Lemma probe_key t k :
  k <> "" ->
  probeOne T2R (tp t k "") =
    match store !! full t k with
    | Some _ => Ok (tp t k "")
    | None =>
        if str_contains k (String c "") then
          match str_splitn2 k (String c "") with
          | [k'; f] => Ok (if bool_decide (is_Some (store !! full t k' ≫= lookup f)) then tp t k' f else tp t k "")
          | _ => Err Panic
          end
        else Ok (if bool_decide (is_Some (store !! t ≫= lookup k)) then tp t "" k else tp t k "")
    end.
Proof using Hconn Hserves.
  intros Hk. apply String.eqb_neq in Hk. unfold probeOne.
  cbn [isVirtualPath buildTablePath field tableKey dbNamespace dbName tableName delimitor String.eqb negb orb].
  rewrite Hk, Hconn, serves_exists. cbn [of_cmd]. destruct (store !! full t k); [done|].
  change (bool_decide (is_Some (@None (gmap string string)))) with false. cbn iota.
  destruct (str_contains k (String c "")).
  - destruct (str_splitn2 k (String c "")) as [|k' [|f [|? ?]]]; try done. rewrite serves_hexists. by destruct (bool_decide _).
  - rewrite serves_hexists. by destruct (bool_decide _).
Qed.

Lemma eqb_app_r t k : k <> "" -> String.eqb (t +:+ k) "" = false.
Proof. intros Hk. apply String.eqb_neq. intros H. by destruct t; destruct k. Qed.

(** A path is an entry when its key exists, else a field of the entry above. *)
Lemma get_entry_or_field prefix path now vs t k parent x t' :
  GetTarget prefix = target -> path_elem path <> [] ->
  realPath ns dbn (String c "") (elem_name <$> GetElem prefix ++ path_elem path) = Ok [tp t k ""] ->
  k <> "" -> x <> "" ->
  probeOne T2R (tp t k "") =
    (match store !! full t k with
     | Some _ => Ok (tp t k "")
     | None => Ok (if bool_decide (is_Some (store !! parent ≫= lookup x)) then tp t t' x else tp t k "")
     end) ->
  (if String.eqb t' "" then t else full t t') = parent ->
  getPath cfg T2R unitTest marshal prefix path now vs =
    match (match store !! full t k, store !! parent ≫= lookup x with
           | Some fv, _ => Msi2TypedValue marshal (fields fv)
           | None, Some v => Ok (StringVal v)
           | None, None => Err NoEntry
           end) with
    | Ok v => Ok [updateValue prefix path now v]
    | Err e => Err e
    end.
Proof using Htarget Hns Hreal Hsep Hconn Hserves.
  intros Ht Hne Hrp Hk Hx Hpr Hpar. pose proof (proj2 (String.eqb_neq k "") Hk) as Hk'.
  destruct (store !! full t k) as [fv|] eqn:Est.
  - rewrite (read_one prefix path now vs _ _ Ht Hne Hrp Hpr), ensure_key, Hk', Est.
    by rewrite (read_entry t k fv Hk Est).
  - rewrite (read_one prefix path now vs _ _ Ht Hne Hrp Hpr).
    destruct (store !! parent ≫= lookup x) as [v|] eqn:Ef.
    + rewrite bool_decide_true by by eexists. rewrite ensure_key, read_field, Hpar, Ef by done.
      destruct (String.eqb t' "") eqn:Et'; [done|]. subst parent. by destruct (store !! full t t').
    + rewrite bool_decide_false by (intros [? ?]; done). by rewrite ensure_key, Hk', Est.
Qed.

(** C3. Get answers a path of two to four names as the database contents prescribe:
    [TABLE KEY] and [TABLE KEY KEY] give the whole entry when that key exists, else the
    field of that name of the entry above, else an error; with four names the field of
    the entry or an error.  The target is one of the real databases other than
    COUNTERS_DB, whose contents are arbitrary but do not change during the request and
    whose every command succeeds; the names after the table are not empty, except the
    two keys before a field, and the first key of a path of two or three names does not
    contain the separator of the database.  The names may be split between prefix and
    path in any way that leaves one in the path. *)
Theorem get_refines_db prefix path now vs :
  GetTarget prefix = target -> path_elem path <> [] ->
  wfNames c (elem_name <$> GetElem prefix ++ path_elem path) ->
  getPath cfg T2R unitTest marshal prefix path now vs =
    match readDb marshal store c (elem_name <$> GetElem prefix ++ path_elem path) with
    | Ok v => Ok [updateValue prefix path now v]
    | Err e => Err e
    end.
Proof using Htarget Hns Hreal Hsep Hconn Hserves.
  intros Ht Hne. pose proof (fun t t' => read_one prefix path now vs t t' Ht Hne) as Hread.
  pose proof (fun t k => get_entry_or_field prefix path now vs t k) as Hef.
  destruct (elem_name <$> GetElem prefix ++ path_elem path) as [|t [|k [|x [|f [|? ?]]]]]; try done; cbn [wfNames].
  - intros [Hk Hfree]. apply (Hef t k t k ""); try done.
    rewrite probe_key, str_contains_free by done. by destruct (store !! full t k).
  - intros (Hk & Hx & Hfree). apply (Hef t (k +:+ String c "" +:+ x) (full t k) x k); try done.
    + destruct k; [done|]. by rewrite str_app_cons.
    + rewrite probe_key, str_contains_join, splitn2_sep by first [done|destruct k; [done|by rewrite str_app_cons]].
      by destruct (store !! _).
    + by rewrite (proj2 (String.eqb_neq k "") Hk).
  - intros Hf. set (kk := k +:+ String c "" +:+ x).
    assert (kk <> "") as Hkk by (unfold kk; intros H; by destruct k).
    rewrite (Hread (tp t kk f) (tp t kk f)); [|done|].
    + rewrite ensure_key, (proj2 (String.eqb_neq kk "") Hkk), (read_field t kk f Hf), (proj2 (String.eqb_neq kk "") Hkk).
      cbn [readDb]. change (keyOf c [t; k; x]) with (full t kk).
      destruct (store !! full t kk) as [fv|]; [|done]. cbn [mbind option_bind]. by destruct (fv !! f).
    + unfold probeOne. cbn [isVirtualPath field buildTablePath orb]. by rewrite (proj2 (String.eqb_neq f "") Hf).
Qed.

(** The entry of a table under a key, as the JSON of the table has it. *)
Definition entryAt (t k : string) : option json :=
  match store !! full t k with
  | Some fv => if decide (fv = ∅) then None else Some (JObj (fields fv))
  | None => None
  end.

Lemma addEntry_table t msi k :
  str_free c t ->
  addEntry r (tp t "" "") false None msi (full t k) =
    Ok (match entryAt t k with Some j => <[k := j]> msi | None => msi end).
Proof using Hserves.
  intros Ht. unfold addEntry, entryAt. rewrite serves_hgetall. cbn [of_cmd].
  destruct (store !! full t k) as [fv|]; cbn [default from_option id]; [|by rewrite map_size_empty].
  case_decide as Hfv; [subst fv; by rewrite map_size_empty|].
  destruct (base.size fv =? 0) eqn:E; [by apply Nat.eqb_eq, map_size_empty_inv in E|].
  cbn [jsonTableKey tableKey tableName delimitor buildTablePath String.eqb negb andb orb].
  rewrite splitn2_sep by done. destruct (String.eqb_spec t (full t k)) as [Hx|_]; [|done].
  exfalso. apply (f_equal String.length) in Hx. rewrite str_length_app in Hx.
  change (String c "" +:+ k) with (String c k) in Hx. cbn [String.length] in Hx. lia.
Qed.

Lemma addEntries_table t l : forall msi,
  str_free c t -> (forall x, x ∈ l -> exists k, x = full t k) ->
  exists msi', foldM (addEntry r (tp t "" "") false None) msi l = Ok msi' /\
    forall k, msi' !! k = if decide (full t k ∈ l) then match entryAt t k with Some j => Some j | None => msi !! k end
                          else msi !! k.
Proof using Hserves.
  clear Htarget Hns Hreal Hsep Hconn marshal. induction l as [|x l IH]; intros msi Ht Hl; cbn [foldM].
  { exists msi. split; [done|]. intros k. by rewrite decide_False by set_solver. }
  destruct (Hl x) as [k0 ->]; [set_solver|]. rewrite addEntry_table by done.
  destruct (IH (match entryAt t k0 with Some j => <[k0 := j]> msi | None => msi end) Ht) as (msi' & -> & Hmsi); [set_solver|].
  exists msi'. split; [done|]. intros k. rewrite Hmsi. clear Hmsi IH.
  assert (forall k', full t k' = full t k0 -> k' = k0) as Hinj.
  { intros k' H. by apply str_app_inj_l, str_app_inj_l in H. }
  destruct (decide (k = k0)) as [->|Hne].
  - rewrite (decide_True (P := full t k0 ∈ full t k0 :: l)) by set_solver.
    destruct (entryAt t k0); case_decide; by rewrite ?lookup_insert_eq.
  - assert ((match entryAt t k0 with Some j => <[k0 := j]> msi | None => msi end) !! k = msi !! k) as ->.
    { destruct (entryAt t k0); [|done]. by rewrite lookup_insert_ne. }
    destruct (decide (full t k ∈ l)) as [Hin|Hin].
    + by rewrite decide_True by set_solver.
    + rewrite decide_False; [done|]. rewrite elem_of_cons. intros [H|H]; [|done]. by apply Hinj in H.
Qed.

(** Reading a whole table gives exactly the non-empty entries of the table: each
    under the part of its Redis key after the table name and the separator, with all
    its fields, and nothing of other tables. *)
Theorem table_read_exact t :
  literal (t +:+ String c "") -> str_free c t ->
  exists msi, TableData2Msi T2R (tp t "" "") false None ∅ = Ok msi /\ forall k, msi !! k = entryAt t k.
Proof using Hconn Hserves Hreal.
  intros Hlit Ht. destruct (serves_prefix _ Hlit) as (l & Hkeys & _ & Hl).
  destruct (addEntries_table t l ∅ Ht) as (msi & Hf & Hmsi).
  { intros x Hx. apply Hl in Hx as [Hp _]. apply has_prefix_spec in Hp as [k ->]. exists k. by rewrite str_app_assoc. }
  exists msi. split.
  - unfold TableData2Msi, conn. cbn [dbNamespace dbName buildTablePath tableKey tableName delimitor jsonField jsonTableKey].
    rewrite Hconn, (proj2 (String.eqb_neq _ _) Hreal). cbn [String.eqb andb negb]. rewrite <- str_app_assoc, Hkeys. done.
  - intros k. rewrite Hmsi, lookup_empty. destruct (decide (full t k ∈ l)) as [Hin|Hin]; [by destruct (entryAt t k)|].
    unfold entryAt. destruct (store !! full t k) as [fv|] eqn:E; [|done]. destruct Hin. apply Hl. split; [|by eexists].
    apply has_prefix_spec. exists k. by rewrite str_app_assoc.
Qed.
End Reading.

(** A whole-table Get or poll of a database for which the namespace has no Redis
    client panics: only paths with a key are checked for a client. *)
Theorem table_without_client_panics (T2R : snapshot) marshal ns dbn t sep :
  redisOf T2R ns dbn = None ->
  probeOne T2R (buildTablePath ns dbn t "" sep "" "" "" "") = Ok (buildTablePath ns dbn t "" sep "" "" "" "") /\
  ensureOne T2R (buildTablePath ns dbn t "" sep "" "" "" "") = Ok tt /\
  tableData2TypedValue T2R marshal [buildTablePath ns dbn t "" sep "" "" "" ""] ∅ = Err Panic.
Proof.
  intros H. split_and!; try done. cbn [tableData2TypedValue isField jsonField field buildTablePath String.eqb negb andb].
  unfold TableData2Msi, conn. cbn [dbNamespace dbName buildTablePath]. by rewrite H.
Qed.

(** * Polling *)

Section Polling.
Variables (marshal : jobj -> option string) (sprintPath : Path -> string) (prefix : option Path).

(** What a client makes of the messages: the latest value of each path. *)
Definition applyMsg (view : gmap string TypedValue) (v : Value) : gmap string TypedValue :=
  if v_sync v then view
  else match v_delete v, v_path v, v_val v with
       | [], Some p, Some val => <[sprintPath p := val]> view
       | [], _, _ => view
       | ps, _, _ => foldr (fun p => delete (sprintPath p)) view ps
       end.

Definition clientView (vs : list Value) (view : gmap string TypedValue) : gmap string TypedValue :=
  fold_left applyMsg vs view.

(** The data of a path in a database. *)
Definition dataOf (db : snapshot) (ts : list tablePath) : option TypedValue :=
  match subscribeTableData2TypedValue db marshal ts ∅ false with Ok (Some v) => Some v | _ => None end.

Definition tracks (prev : gmap string bool) (view : gmap string TypedValue) : Prop :=
  forall k, default false (prev !! k) = bool_decide (is_Some (view !! k)).

Abbreviation pathKeys order := ((fun e => sprintPath e.1) <$> order).

Lemma tracks_set prev view k val : tracks prev view -> tracks (<[k := true]> prev) (<[k := val]> view).
Proof.
  intros H k'. destruct (decide (k' = k)) as [->|]; [by rewrite !lookup_insert_eq|]. by rewrite !lookup_insert_ne.
Qed.

Lemma tracks_unset prev view k : tracks prev view -> tracks (<[k := false]> prev) (delete k view).
Proof.
  intros H k'. destruct (decide (k' = k)) as [->|].
  - by rewrite lookup_insert_eq, lookup_delete_eq.
  - by rewrite lookup_insert_ne, lookup_delete_ne.
Qed.

Lemma pollPaths_view db now order : forall prev view vs prev',
  pollPaths db marshal sprintPath prefix now order prev = (vs, prev', Continue) ->
  NoDup (pathKeys order) -> tracks prev view ->
  tracks prev' (clientView vs view) /\
  (forall p ts, (p, ts) ∈ order -> clientView vs view !! sprintPath p = dataOf db ts) /\
  (forall k, k ∉ pathKeys order -> clientView vs view !! k = view !! k).
Proof.
  induction order as [|[p ts] order IH]; intros prev view vs prev' H Hnd Ht; cbn [pollPaths] in H.
  { injection H as <- <-. split_and!; [done|set_solver|done]. }
  apply NoDup_cons in Hnd as [Hp Hnd]. cbn [fst] in Hp.
  assert (forall view1 val vs1, dataOf db ts = val -> view1 !! sprintPath p = val ->
    (forall k, k <> sprintPath p -> view1 !! k = view !! k) ->
    tracks prev' (clientView vs1 view1) /\
    (forall p' ts', (p', ts') ∈ order -> clientView vs1 view1 !! sprintPath p' = dataOf db ts') /\
    (forall k, k ∉ pathKeys order -> clientView vs1 view1 !! k = view1 !! k) ->
    tracks prev' (clientView vs1 view1) /\
    (forall p' ts', (p', ts') ∈ (p, ts) :: order -> clientView vs1 view1 !! sprintPath p' = dataOf db ts') /\
    (forall k, k ∉ pathKeys ((p, ts) :: order) -> clientView vs1 view1 !! k = view !! k)) as Hstep.
  { intros view1 val vs1 Hd Hv Ho (H1 & H2 & H3). split_and!; [done| |].
    - intros p' ts'. rewrite elem_of_cons. intros [[= -> ->]|Hin]; [|by apply H2]. by rewrite H3, Hd.
    - intros k Hk. rewrite fmap_cons, not_elem_of_cons in Hk. destruct Hk as [Hk1 Hk2]. rewrite H3 by done. by apply Ho. }
  destruct (subscribeTableData2TypedValue db marshal ts ∅ false) as [[val|]|e] eqn:Es; [| |by destruct e].
  - destruct (pollPaths _ _ _ _ _ order _) as [[vs1 prev1] e1] eqn:Ep. injection H as <- <- ->.
    change (clientView (_ :: vs1) view) with (clientView vs1 (<[sprintPath p := val]> view)).
    apply (Hstep _ (Some val)); [unfold dataOf; by rewrite Es|by rewrite lookup_insert_eq|intros; by rewrite lookup_insert_ne|].
    apply (IH _ _ _ _ Ep); [done|]. by apply tracks_set.
  - assert (dataOf db ts = None) as Hd by (unfold dataOf; by rewrite Es).
    destruct (default false (prev !! sprintPath p)) eqn:Edef.
    + destruct (pollPaths _ _ _ _ _ order _) as [[vs1 prev1] e1] eqn:Ep. injection H as <- <- ->.
      change (clientView (_ :: vs1) view) with (clientView vs1 (delete (sprintPath p) view)).
      apply (Hstep _ None); [done|by rewrite lookup_delete_eq|intros; by rewrite lookup_delete_ne|].
      apply (IH _ _ _ _ Ep); [done|]. by apply tracks_unset.
    + rewrite Ht in Edef. apply bool_decide_eq_false in Edef. apply (Hstep _ None); [done| |done|by apply (IH _ _ _ _ H)].
      destruct (view !! sprintPath p); [|done]. by destruct Edef.
Qed.

Lemma clientView_app vs vs' view : clientView (vs ++ vs') view = clientView vs' (clientView vs view).
Proof. apply fold_left_app. Qed.

(** A polling client that applies the messages (updates set a path, deletes remove
    it) holds after every poll exactly the data the database had at that poll: a value
    for each path that has data, and none for a path that has not, also when it had
    data before. *)
Theorem poll_view_current prev view rounds db now order vs :
  tracks prev view ->
  PollRun marshal sprintPath prefix prev (rounds ++ [(db, now, order)]) = (vs, Continue) ->
  Forall (fun rd => NoDup (pathKeys rd.2)) (rounds ++ [(db, now, order)]) ->
  forall p ts, (p, ts) ∈ order -> clientView vs view !! sprintPath p = dataOf db ts.
Proof.
  revert prev view vs. induction rounds as [|[[db1 now1] order1] rounds IH]; intros prev view vs Ht Hr Hnd p ts Hin.
  - cbn [PollRun app] in Hr. unfold pollRound in Hr.
    destruct (pollPaths _ _ _ _ _ order prev) as [[vs1 prev1] []] eqn:Ep; [|done..].
    injection Hr as <-. rewrite app_nil_r, clientView_app. apply Forall_cons in Hnd as [Hnd _].
    by apply (pollPaths_view db now order prev view vs1 prev1 Ep Hnd Ht).
  - cbn [PollRun app] in Hr. unfold pollRound in Hr. apply Forall_cons in Hnd as [Hnd1 Hnd].
    destruct (pollPaths _ _ _ _ _ order1 prev) as [[vs1 prev1] []] eqn:Ep; [|done..].
    destruct (PollRun _ _ _ prev1 _) as [vs2 e2] eqn:E2. injection Hr as <- ->.
    rewrite !clientView_app. eapply IH; [|exact E2|done|done].
    by apply (pollPaths_view db1 now1 order1 prev view vs1 prev1 Ep Hnd1 Ht).
Qed.
End Polling.

(** * Field subscriptions over several tables *)

(** The latest payload of every key. *)
Definition mergeView (payloads : list jobj) (view : jobj) : jobj := fold_left (fun view msi => msi ∪ view) payloads view.

Section Multi.
Variables (onChange updateOnly : bool) (ts : list tablePath).
Hypothesis Hkeys : forall t t', t ∈ ts -> t' ∈ ts -> jsonTableKey t = jsonTableKey t' -> t = t'.

Definition fieldJson (t : tablePath) (val : string) : json := JObj {[jsonField t := JStr val]}.

(** A remembered value is in the view of the client. *)
Definition remembered (prev : tablePath -> option string) (view : jobj) : Prop :=
  forall t val, t ∈ ts -> prev t = Some val -> view !! jsonTableKey t = Some (fieldJson t val).

Lemma keepOrSend_spec msi prev view t val msi' prev' :
  keepOrSend onChange updateOnly msi prev t val = (msi', prev') -> t ∈ ts ->
  remembered prev (msi ∪ view) ->
  remembered prev' (msi' ∪ view) /\ prev' t = Some val /\ (forall t', t' <> t -> prev' t' = prev t').
Proof using Hkeys.
  unfold keepOrSend. intros H Ht Hr. destruct (_ && _) eqn:E.
  - injection H as <- <-. apply andb_true_iff in E as [_ E%bool_decide_eq_true]. done.
  - injection H as <- <-. split_and!; [|by rewrite decide_True|intros t' Hne; by rewrite decide_False].
    intros t' v Ht'. rewrite <- insert_union_l. cbn beta. destruct (decide (t' = t)) as [Hd|Hd].
    + subst t'. intros [= <-]. by rewrite lookup_insert_eq.
    + intros Hp. rewrite lookup_insert_ne; [by apply Hr|]. intros Hk. by apply Hd, Hkeys.
Qed.

Lemma multiFold_spec reading view l : forall msi prev msi' prev',
  fold_left (multiStep onChange updateOnly reading) l (msi, prev) = (msi', prev') ->
  NoDup l -> (forall t, t ∈ l -> t ∈ ts) -> remembered prev (msi ∪ view) ->
  remembered prev' (msi' ∪ view) /\
  (forall t, t ∉ l -> prev' t = prev t) /\
  (forall t val, t ∈ l -> reading t = Ok val -> prev' t = Some val).
Proof using Hkeys.
  induction l as [|t l IH]; intros msi prev msi' prev' H Hnd Hl Hr; cbn [fold_left] in H.
  { injection H as <- <-. split_and!; [done|done|set_solver]. }
  apply NoDup_cons in Hnd as [Htl Hnd]. destruct (multiStep _ _ _ _ t) as [msi1 prev1] eqn:Es.
  assert (remembered prev1 (msi1 ∪ view) /\ (forall t', t' <> t -> prev1 t' = prev t') /\
          (forall val, reading t = Ok val -> prev1 t = Some val)) as (Hr1 & Ho & Hv).
  { assert (t ∈ ts) as Ht by (apply Hl; set_solver). unfold multiStep in Es.
    destruct (reading t) as [val|[]] eqn:Erd; [| |].
    - apply (keepOrSend_spec _ _ view) in Es as (? & ? & ?); [|done..]. split_and!; [done|done|by intros ? [= <-]].
    - destruct (String.eqb _ _); [|by injection Es as <- <-].
      apply (keepOrSend_spec _ _ view) in Es as (? & ? & ?); [|done..]. by split_and!.
    - apply (keepOrSend_spec _ _ view) in Es as (? & ? & ?); [|done..]. by split_and!. }
  apply IH in H as (H1 & H2 & H3); [|done|set_solver|done]. split_and!; [done| |].
  - intros t'. rewrite not_elem_of_cons. intros [Hne Hnin]. rewrite H2 by done. by apply Ho.
  - intros t' val. rewrite elem_of_cons. intros [->|Hin] Hrd; [|by apply H3]. rewrite H2 by done. by apply Hv.
Qed.

(** In every mode (on change, sampled, sampled with changes only) a client that
    merges the payloads of a subscription to a field of several tables holds, after
    every tick, the value that the last tick read for each table. *)
Theorem multi_view_current first ticks :
  NoDup ts ->
  forall t val, t ∈ ts -> default first (last ticks) t = Ok val ->
  mergeView (dbFieldMultiSubscribe onChange updateOnly ts first ticks) ∅ !! jsonTableKey t = Some (fieldJson t val).
Proof using Hkeys.
  intros Hnd t val Ht. unfold dbFieldMultiSubscribe.
  destruct (multiRead _ _ ts first _) as [msi prev] eqn:E. change (mergeView (msi :: ?l) ∅) with (mergeView l (msi ∪ ∅)).
  assert (remembered prev (msi ∪ ∅) /\ forall t val, t ∈ ts -> first t = Ok val -> prev t = Some val) as [Hr Hv].
  { apply (multiFold_spec _ ∅) in E as (? & _ & ?); [done|done|done|]. by intros ? ? ? [=]. }
  clear E. revert Hr Hv. generalize (msi ∪ ∅) as view. revert prev first. clear msi.
  induction ticks as [|reading ticks IH]; intros prev first view Hr Hv Hlast; cbn [dbFieldMultiLoop].
  { cbn. apply Hr; [done|]. by apply Hv. }
  destruct (multiRead _ _ ts reading prev) as [msi prev1] eqn:E.
  apply (multiFold_spec _ view) in E as (Hr1 & _ & Hv1); [|done|done|by rewrite (left_id_L ∅ (∪))].
  assert (default reading (last ticks) t = Ok val) as Hl1 by (rewrite last_cons in Hlast; by destruct (last ticks)).
  destruct (negb onChange || _) eqn:Es.
  - apply (IH prev1 reading (msi ∪ view) Hr1 Hv1 Hl1).
  - apply orb_false_iff in Es as [_ Es]. apply negb_false_iff, Nat.eqb_eq, map_size_empty_inv in Es as ->.
    rewrite (left_id_L ∅ (∪)) in Hr1. by apply (IH prev1 reading view Hr1 Hv1 Hl1).
Qed.
End Multi.

(** * Table subscriptions *)

Section TableSub.
Variables (ns dbn t : string) (c : Ascii.ascii) (n : nat).
Hypothesis Hfree : str_free c t.
Abbreviation table := (buildTablePath ns dbn t "" (String c "") "" "" "" "").

(** A notification that the entry [e] was written, handled while it is there. *)
Record isHset (m : Message) (e : string * gmap string string) : Prop := {
  hset_payload : m_payload m = "hset";
  hset_len : n <= String.length (m_channel m);
  hset_key : strdrop n (m_channel m) = e.1;
  hset_named : e.1 <> "";
  hset_nonempty : e.2 <> ∅;
  hset_db : exists r store, redisOf (m_db m) ns dbn = Some r /\ RedisServes r store /\
              store !! (t +:+ String c "" +:+ e.1) = Some e.2
}.

(** A notification that the key was deleted. *)
Record isDel (m : Message) (k : string) : Prop := {
  del_payload : m_payload m = "del" \/ m_payload m = "hdel";
  del_len : n <= String.length (m_channel m);
  del_key : strdrop n (m_channel m) = k
}.

Lemma read_key db r store k fv :
  redisOf db ns dbn = Some r -> RedisServes r store -> k <> "" -> fv <> ∅ ->
  store !! (t +:+ String c "" +:+ k) = Some fv ->
  TableData2Msi db (set_key table k) true None ∅ = Ok {[k := JObj (fields fv)]}.
Proof using Hfree.
  intros Hc Hs Hk Hne Hst. unfold TableData2Msi, conn, set_key, set_key_field.
  cbn [dbNamespace dbName buildTablePath tableKey tableName delimitor jsonField jsonTableKey field].
  rewrite Hc, (proj2 (String.eqb_neq k "") Hk). cbn [String.eqb negb andb foldM]. unfold addEntry.
  rewrite serves_hgetall, Hst. cbn [of_cmd default from_option id jsonTableKey tableKey tableName delimitor String.eqb negb andb].
  destruct (base.size fv =? 0) eqn:E; [by apply Nat.eqb_eq, map_size_empty_inv in E|].
  rewrite andb_false_r, splitn2_sep by done. cbn [orb].
  destruct (String.eqb_spec t (t +:+ String c "" +:+ k)) as [Hx|_].
  - exfalso. apply (f_equal String.length) in Hx. rewrite str_length_app in Hx.
    change (String c "" +:+ k) with (String c k) in Hx. cbn [String.length] in Hx. lia.
  - cbn [makeJSON_redis]. by rewrite insert_empty.
Qed.

Lemma onMessage_hset msi m k fv :
  isHset m (k, fv) ->
  onMessage table n msi m =
    Ok ({[k := JObj (fields fv)]},
        if decide ({[k := JObj (fields fv)]} = msi) then None else Some {[k := JObj (fields fv)]}).
Proof using Hfree.
  intros [Hp Hl Hk Hn He (r & store & Hc & Hs & Hst)]. cbn [fst snd] in *. unfold onMessage.
  rewrite Hp, Hk. cbn [tableKey buildTablePath].
  change (String.eqb "hset" "del" || String.eqb "hset" "hdel") with false. change (String.eqb "hset" "hset") with true.
  change (negb (String.eqb "" "")) with false. cbn iota.
  destruct (Nat.ltb_spec (String.length (m_channel m)) n); [lia|].
  rewrite (read_key _ _ _ _ _ Hc Hs Hn He Hst). case_decide as Hd; [by rewrite Hd|].
  by rewrite map_size_singleton.
Qed.

Lemma onMessage_del msi m k : isDel m k -> onMessage table n msi m = Ok (msi, Some {[k := JObj ∅]}).
Proof using.
  intros [Hp Hl Hk]. unfold onMessage. rewrite Hk.
  assert (String.eqb (m_payload m) "del" || String.eqb (m_payload m) "hdel" = true) as -> by (by destruct Hp as [-> | ->]).
  cbn [tableKey buildTablePath String.eqb negb].
  destruct (Nat.ltb_spec (String.length (m_channel m)) n); [lia|]. by rewrite map_size_singleton.
Qed.

(** A client that merges the updates of an on-change table subscription into the
    initial data sees every written entry with its latest contents, for any sequence
    of write notifications: suppressing a payload equal to the previous one loses
    nothing. *)
Theorem table_writes_view ms entries view :
  Forall2 isHset ms entries ->
  mergeView (dbSingleTableKeySubscribe table n ∅ ms) view =
    fold_left (fun v '(k, fv) => <[k := JObj (fields fv)]> v) entries view.
Proof using Hfree.
  intros H. assert (forall msi, (forall k j, msi !! k = Some j -> view !! k = Some j) ->
    mergeView (dbSingleTableKeySubscribe table n msi ms) view =
      fold_left (fun v '(k, fv) => <[k := JObj (fields fv)]> v) entries view) as Hgen;
    [|by apply Hgen; intros k j; rewrite lookup_empty].
  revert view. induction H as [|m [k fv] ms entries Hm _ IH]; intros view msi Hsub; [done|].
  cbn [dbSingleTableKeySubscribe fold_left]. rewrite (onMessage_hset _ _ _ _ Hm). case_decide as Hd.
  - subst msi. rewrite (insert_id view k); [by apply IH|]. apply Hsub. by rewrite lookup_singleton_eq.
  - cbn [mergeView fold_left]. rewrite <- insert_union_singleton_l. apply IH.
    intros k' j Hj. apply lookup_singleton_Some in Hj as [<- <-]. by rewrite lookup_insert_eq.
Qed.

(** A deletion is not remembered: when an entry is written, deleted and written
    again with the same contents, the last write is taken for a repetition and not
    sent, and the client is left with the deletion. *)
Theorem table_rewrite_lost m1 m2 m3 k fv view :
  isHset m1 (k, fv) -> isDel m2 k -> isHset m3 (k, fv) ->
  mergeView (dbSingleTableKeySubscribe table n ∅ [m1; m2; m3]) view !! k = Some (JObj ∅).
Proof using Hfree.
  intros H1 H2 H3. cbn [dbSingleTableKeySubscribe]. rewrite (onMessage_hset _ _ _ _ H1), (onMessage_del _ _ _ H2).
  rewrite (onMessage_hset _ _ _ _ H3).
  rewrite decide_False; [|intros Hx; by apply (f_equal (lookup k)) in Hx; rewrite lookup_singleton_eq, lookup_empty in Hx].
  rewrite decide_True by done.
  cbn [mergeView fold_left]. by rewrite <- insert_union_singleton_l, lookup_insert_eq.
Qed.
End TableSub.

(** * Witnesses *)

Definition bar : Ascii.ascii := Ascii.ascii_of_nat 124.
Definition demo_cfg : DbConfig := mkDbConfig (Some [""]) (fun _ _ => Some (String bar "")).
Definition demo_store : hash_store := {["PORT|Ethernet0" := {["mtu" := "9100"]}]}.
Definition demo_db : snapshot := {["" := {["CONFIG_DB" := serve demo_store]}]}.
Definition demo_marshal (m : jobj) : option string := Some (pretty (base.size m)).
Definition demo_prefix : option Path := Some (mkPath "" "CONFIG_DB" [ename "PORT"]).
Definition demo_state : VirtualDb.State := VirtualDb.mkState VirtualDb.emptyMaps [].

Lemma get_refines_db_witness :
  getPath demo_cfg demo_db false demo_marshal demo_prefix (mkPath "" "" [ename "Ethernet0"; ename "mtu"]) 7 demo_state =
    Ok [updateValue demo_prefix (mkPath "" "" [ename "Ethernet0"; ename "mtu"]) 7 (StringVal "9100")].
Proof.
  assert (wfNames bar ["PORT"; "Ethernet0"; "mtu"]) as Hwf by (split_and!; [discriminate|discriminate|apply (bool_decide_unpack _); vm_compute; exact I]).
  apply (get_refines_db demo_cfg demo_db false demo_marshal "CONFIG_DB" "CONFIG_DB" "" false bar (serve demo_store) demo_store
    eq_refl eq_refl ltac:(discriminate) eq_refl eq_refl (serve_serves demo_store) demo_prefix
    (mkPath "" "" [ename "Ethernet0"; ename "mtu"]) 7 demo_state eq_refl ltac:(discriminate) Hwf).
Defined.

Lemma table_read_exact_witness :
  exists msi, TableData2Msi demo_db (buildTablePath "" "CONFIG_DB" "PORT" "" "|" "" "" "" "") false None ∅ = Ok msi /\
    msi !! "Ethernet0" = Some (JObj (fields {["mtu" := "9100"]})).
Proof.
  assert (literal ("PORT" +:+ String bar "")) as Hl by (apply (bool_decide_unpack _); vm_compute; exact I).
  assert (str_free bar "PORT") as Hf by (apply (bool_decide_unpack _); vm_compute; exact I).
  destruct (table_read_exact demo_db "CONFIG_DB" "" bar (serve demo_store) demo_store ltac:(discriminate) eq_refl
    (serve_serves demo_store) "PORT" Hl Hf) as (msi & H & Hk).
  exists msi. split; [exact H|]. rewrite Hk. vm_compute. reflexivity.
Defined.

Lemma table_without_client_panics_witness :
  tableData2TypedValue demo_db demo_marshal [buildTablePath "" "CHASSIS_STATE_DB" "T" "" "|" "" "" "" ""] ∅ = Err Panic.
Proof. apply (table_without_client_panics demo_db demo_marshal "" "CHASSIS_STATE_DB" "T" "|" eq_refl). Defined.

(** The entry is there at the first poll and gone at the second. *)
Definition demo_path : Path := mkPath "" "" [ename "Ethernet0"].
Definition demo_order : list (Path * list tablePath) :=
  [(demo_path, [buildTablePath "" "CONFIG_DB" "PORT" "Ethernet0" "|" "" "" "" ""])].
Definition gone_db : snapshot := {["" := {["CONFIG_DB" := serve ∅]}]}.

Lemma poll_view_current_witness :
  exists vs, PollRun demo_marshal (fun _ => "p") None ∅ [(demo_db, 1%Z, demo_order); (gone_db, 2%Z, demo_order)] = (vs, Continue) /\
    length vs = 4 /\ clientView (fun _ => "p") vs ∅ !! "p" = None.
Proof.
  assert (exists vs, PollRun demo_marshal (fun _ => "p") None ∅ [(demo_db, 1%Z, demo_order); (gone_db, 2%Z, demo_order)] = (vs, Continue) /\ length vs = 4)
    as (vs & Hrun & Hlen) by (eexists; split; [vm_compute; reflexivity|reflexivity]).
  exists vs. split; [exact Hrun|]. split; [exact Hlen|].
  assert (tracks ∅ ∅) as Ht by (intros k; by rewrite !lookup_empty).
  assert (Forall (fun rd : snapshot * Z * list (Path * list tablePath) => NoDup ((fun e => (fun _ : Path => "p") e.1) <$> rd.2))
    ([(demo_db, 1%Z, demo_order)] ++ [(gone_db, 2%Z, demo_order)])) as Hnd.
  { apply Forall_cons. split; [apply NoDup_singleton|]. apply Forall_cons. split; [apply NoDup_singleton|apply Forall_nil; exact I]. }
  rewrite (poll_view_current demo_marshal (fun _ => "p") None ∅ ∅ [(demo_db, 1%Z, demo_order)] gone_db 2%Z demo_order vs
    Ht Hrun Hnd demo_path [buildTablePath "" "CONFIG_DB" "PORT" "Ethernet0" "|" "" "" "" ""]); [vm_compute; reflexivity|].
  apply list_elem_of_singleton. reflexivity.
Defined.

Lemma multi_view_current_witness :
  let t := buildTablePath "" "COUNTERS_DB" "COUNTERS" "oid:1" ":" "PKTS" "" "etp1" "PKTS" in
  mergeView (dbFieldMultiSubscribe true true [t] (fun _ => Ok "1") [fun _ => Ok "1"; fun _ => Ok "2"]) ∅ !! "etp1" =
    Some (fieldJson t "2").
Proof.
  intros t.
  assert (forall t1 t2, t1 ∈ [t] -> t2 ∈ [t] -> jsonTableKey t1 = jsonTableKey t2 -> t1 = t2) as Hk.
  { intros t1 t2 ->%list_elem_of_singleton ->%list_elem_of_singleton _. reflexivity. }
  assert (t ∈ [t]) as Hin by (apply list_elem_of_singleton; reflexivity).
  apply (multi_view_current true true [t] Hk (fun _ => Ok "1") [fun _ => Ok "1"; fun _ => Ok "2"] (NoDup_singleton t) t "2" Hin eq_refl).
Defined.

Definition demo_hset (db : snapshot) : Message := mkMessage "__keyspace@4__:PORT|Ethernet0" "hset" db.
Definition demo_del : Message := mkMessage "__keyspace@4__:PORT|Ethernet0" "del" gone_db.

Lemma demo_isHset : isHset "" "CONFIG_DB" "PORT" bar 20 (demo_hset demo_db) ("Ethernet0", {["mtu" := "9100"]}).
Proof.
  split; [reflexivity|vm_compute; lia|reflexivity|discriminate| |].
  - intros H. apply (f_equal (lookup "mtu")) in H. vm_compute in H. discriminate.
  - exists (serve demo_store), demo_store. split; [reflexivity|]. split; [apply _|reflexivity].
Qed.

Lemma table_writes_view_witness :
  mergeView (dbSingleTableKeySubscribe (buildTablePath "" "CONFIG_DB" "PORT" "" (String bar "") "" "" "" "") 20 ∅
    [demo_hset demo_db; demo_hset demo_db]) ∅ = {["Ethernet0" := JObj (fields {["mtu" := "9100"]})]}.
Proof.
  assert (str_free bar "PORT") as Hf by (apply (bool_decide_unpack _); vm_compute; exact I).
  rewrite (table_writes_view "" "CONFIG_DB" "PORT" bar 20 Hf _ [("Ethernet0", {["mtu" := "9100"]}); ("Ethernet0", {["mtu" := "9100"]})]);
    [vm_compute; reflexivity|].
  apply Forall2_cons. split; [apply demo_isHset|]. apply Forall2_cons. split; [apply demo_isHset|apply Forall2_nil; exact I].
Defined.

Lemma table_rewrite_lost_witness :
  mergeView (dbSingleTableKeySubscribe (buildTablePath "" "CONFIG_DB" "PORT" "" (String bar "") "" "" "" "") 20 ∅
    [demo_hset demo_db; demo_del; demo_hset demo_db]) ∅ !! "Ethernet0" = Some (JObj ∅).
Proof.
  assert (str_free bar "PORT") as Hf by (apply (bool_decide_unpack _); vm_compute; exact I).
  apply (table_rewrite_lost "" "CONFIG_DB" "PORT" bar 20 Hf _ _ _ _ {["mtu" := "9100"]}); [apply demo_isHset| |apply demo_isHset].
  split; [left; reflexivity|vm_compute; lia|reflexivity].
Defined.
