(* ===== verification/SubscribeClient.v ===== *)
(** A Subscribe RPC (src/gnmi_server/client_subscribe.go): the checks of [Run] up to the
    start of the data client, and the life of the client as steps of its goroutines.

    Three goroutines share the client: [Run] itself, which starts the others and then
    sends what comes out of the queue; [recv], which reads the stream; and the [Run]
    method of the data client, which fills the queue.  Any other Subscribe RPC of the
    same peer may call [Close] at any moment (Subscribe in server.go).  A step is one
    operation on the shared state; [c.mu] makes [Close] one step. *)

From S2P Require Import Prelude GnmiTypes DbTypes Pathz JsonClient Bypass Server DbClient ConnManager.

Module SubscribeClient.

(** [gnmipb.SubscriptionList_Mode]; the protocol allows other numbers. *)
Inductive SubMode := STREAM | ONCE | POLL | OtherMode (n : Z).

#[global] Instance SubMode_eq_dec : EqDecision SubMode.
Proof. solve_decision. Defined.

(** * The start of [Run] *)

Record SubscriptionList := mkSubList {
  sl_prefix : option Path;
  sl_subscription : list (option Path);
  sl_mode : SubMode
}.

(** Data clients and the constructor that makes them. *)
Inductive SubKind := TranslClient | MixedDbClient | NonDbClient | EventClient | DbClient_.

#[global] Instance SubKind_eq_dec : EqDecision SubKind.
Proof. solve_decision. Defined.

(** The first message: [Recv] failed with EOF, with another error, or delivered a
    request, which may hold something else than a subscription list. *)
Inductive FirstMsg := FirstEOF | FirstErr (c : Code) | First (sl : option SubscriptionList).

(** [populateDbPathSubscrition]; a list without subscriptions is refused. *)
Definition populateDbPathSubscrition (sl : SubscriptionList) : option (list (option Path)) :=
  match sl_subscription sl with [] => None | l => Some l end.

(** Outcomes: a status code, the panic of [ParseOrigin], or a value. *)
Inductive RunResult (A : Type) := RunErr (c : Code) | RunPanic | RunOk (a : A).
Arguments RunErr {A} c.
Arguments RunPanic {A}.
Arguments RunOk {A} a.

(** The origin of prefix and paths. *)
Definition subscribeOrigin (prefix : option Path) (paths : list (option Path)) : RunResult string :=
  match Server.ParseOrigin paths with
  | None => RunPanic
  | Some (Err c) => RunErr c
  | Some (Ok o) =>
      if String.eqb (GetOrigin prefix) "" then RunOk o
      else if negb (String.eqb o "") && negb (String.eqb o (GetOrigin prefix)) then RunErr InvalidArgument
      else RunOk (GetOrigin prefix)
  end.

Section Run.
Variable cfg : DbClient.DbConfig.
(** The constructors of the data clients: [None] is an error, otherwise the database
    name that [NewMixedDbClient] reports. *)
Variable newClient : SubKind -> list (option Path) -> option Path -> string -> option string.
(** [authenticate] of the request for a target, without write access. *)
Variable auth : string -> option Code.

(** The choice of the data client and the target of the authorization. *)
Definition selectClient (origin target : string) (mode : SubMode) : res Code (SubKind * (string -> string)) :=
  if String.eqb origin "openconfig" then Ok (TranslClient, fun _ => "gnmi")
  else if Server.IsNativeOrigin origin then Ok (MixedDbClient, fun db => "gnmi_" +:+ db)
  else if negb (String.eqb origin "") then Err Unimplemented
  else if String.eqb target "" then Err Unimplemented
  else if String.eqb target "OTHERS" then Ok (NonDbClient, fun _ => "gnmi_others")
  else if String.eqb target "SHOW" then Err Unimplemented
  else if String.eqb target "EVENTS" && bool_decide (mode = STREAM) then Ok (EventClient, fun _ => "gnmi_events")
  else
    let '(db, ok, _, _) := DbClient.IsTargetDb cfg target in
    if ok then Ok (DbClient_, fun _ => "gnmi_" +:+ db)
    else Ok (TranslClient, fun _ => "gnmi").

(** [Run] after the admission: make the client, authenticate, check the mode. *)
Definition startClient (sl : SubscriptionList) (origin : string) (paths : list (option Path)) : RunResult SubKind :=
  match selectClient origin (GetTarget (sl_prefix sl)) (sl_mode sl) with
  | Err c => RunErr c
  | Ok (kind, authTarget) =>
      match newClient kind paths (sl_prefix sl) origin with
      | None => RunErr NotFound
      | Some db =>
          match auth (authTarget db) with
          | Some c => RunErr c
          | None => match sl_mode sl with OtherMode _ => RunErr InvalidArgument | _ => RunOk kind end
          end
      end
  end.

(** [Run] up to the start of the goroutines.  [key] is the connection key of the query
    at this time; its removal is deferred, so it happens on every error after the
    insertion. *)
Definition RunStart (redisOk : bool) (first : FirstMsg) (key : string) (m : ConnManager.Manager)
    : RunResult SubKind * ConnManager.Manager :=
  match first with
  | FirstEOF => (RunErr Aborted, m)
  | FirstErr c => (RunErr c, m)
  | First None => (RunErr InvalidArgument, m)
  | First (Some sl) =>
      match populateDbPathSubscrition sl with
      | None => (RunErr NotFound, m)
      | Some paths =>
          match subscribeOrigin (sl_prefix sl) paths with
          | RunErr c => (RunErr c, m)
          | RunPanic => (RunPanic, m)
          | RunOk origin =>
              if ConnManager.atLimit m then (RunErr Unavailable, m)
              else
                let m := ConnManager.storeKeyRedis redisOk (ConnManager.insertKey m key) key in
                match startClient sl origin paths with
                | RunOk kind => (RunOk kind, m)
                | r => (r, (ConnManager.Remove redisOk m key).2)
                end
          end
      end
  end.
End Run.

(** * The goroutines *)

(** A channel of capacity one. *)
Inductive chan := Nil | Open (buf : nat) | Closed (buf : nat).

#[global] Instance chan_eq_dec : EqDecision chan.
Proof. solve_decision. Defined.

(** [close(ch)] under the test for nil; [None] is the panic of a second close. *)
Definition closeChan (ch : chan) : option chan :=
  match ch with Nil => Some Nil | Open n => Some (Closed n) | Closed _ => None end.

(** The shared fields: the queue (values are numbered), whether it is disposed, the
    channels, the wait group. *)
Record Client := mkClient {
  q : list nat;
  disposed : bool;
  stop : chan;
  polled : chan;
  once : chan;
  wg : nat
}.

Definition newClientState : Client := mkClient [] false Nil Nil Nil 0.

(** [Close]; [None] is a panic. *)
Definition Close (c : Client) : option Client :=
  if disposed c then Some c
  else
    match closeChan (stop c), closeChan (polled c), closeChan (once c) with
    | Some s, Some p, Some o => Some (mkClient [] true s p o (wg c))
    | _, _, _ => None
    end.

(** Positions of [Run], [recv] and the data client's method. *)
Inductive runPC := RStart | RMade | RToken | RSend | RGot (v : nat) | RClose | RWait | RReturned.
Inductive recvPC := VNone | VRecv | VPoll | VClose | VDone.
Inductive prodPC := PNone | PRun | PDone.

#[global] Instance runPC_eq_dec : EqDecision runPC.
Proof. solve_decision. Defined.

Inductive panic := DoubleClose | SendOnClosed.

Record State := mkState {
  client : Client;
  run : runPC;
  recv : recvPC;
  prod : prodPC;
  crashed : option panic
}.

Definition initState : State := mkState newClientState RStart VNone PNone None.

(** Which method of the data client runs: one that returns when its channel is closed
    (or, with [mayFail], on an error of its own) and signals the wait group, or one that returns at once without a signal (the
    empty [OnceRun] of DbClient, MixedDbClient, NonDbClient and EventClient). *)
Inductive method := Serving (mayFail : bool) | EmptyBody.

Section Steps.
Variable mode : SubMode.
Variable meth : method.

Definition serves : bool := match meth with Serving _ => true | EmptyBody => false end.

Definition chanOf (c : Client) : chan :=
  match mode with STREAM => stop c | POLL => polled c | ONCE => once c | OtherMode _ => Nil end.

Definition set_chan (c : Client) (ch : chan) : Client :=
  match mode with
  | STREAM => mkClient (q c) (disposed c) ch (polled c) (once c) (wg c)
  | POLL => mkClient (q c) (disposed c) (stop c) ch (once c) (wg c)
  | ONCE => mkClient (q c) (disposed c) (stop c) (polled c) ch (wg c)
  | OtherMode _ => c
  end.

Definition set_q (c : Client) (l : list nat) : Client := mkClient l (disposed c) (stop c) (polled c) (once c) (wg c).
Definition set_wg (c : Client) (n : nat) : Client := mkClient (q c) (disposed c) (stop c) (polled c) (once c) n.

(** Steps of [Run]. *)
Inductive runStep : State -> State -> Prop :=
| StepMake c v p : runStep (mkState c RStart v p None)
    (mkState (set_chan c (Open 0)) (match mode with STREAM => RToken | _ => RMade end) v p None)
| StepToken c v p : chanOf c = Open 0 ->
    runStep (mkState c RMade v p None) (mkState (set_chan c (Open 1)) RToken v p None)
| StepTokenPanic c v p n : chanOf c = Closed n ->
    runStep (mkState c RMade v p None) (mkState c RMade v p (Some SendOnClosed))
| StepSpawn c v p : runStep (mkState c RToken v p None) (mkState (set_wg c (S (wg c))) RSend VRecv PRun None)
| StepGet c v p x l1 l2 : q c = l1 ++ x :: l2 -> disposed c = false ->
    runStep (mkState c RSend v p None) (mkState (set_q c (l1 ++ l2)) (RGot x) v p None)
| StepGetDisposed c v p : disposed c = true ->
    runStep (mkState c RSend v p None) (mkState c RClose v p None)
| StepSendOk c v p x : runStep (mkState c (RGot x) v p None) (mkState c RSend v p None)
| StepSendErr c v p x : runStep (mkState c (RGot x) v p None) (mkState c RClose v p None)
| StepRunClose c v p : runStep (mkState c RClose v p None)
    (match Close c with
     | Some c' => mkState c' RWait v p None
     | None => mkState c RClose v p (Some DoubleClose)
     end)
| StepWait c v p : wg c = 0 -> runStep (mkState c RWait v p None) (mkState c RReturned v p None).

(** Steps of the data client's method. *)
Inductive prodStep : State -> State -> Prop :=
| StepPut c r v x : serves = true -> disposed c = false ->
    prodStep (mkState c r v PRun None) (mkState (set_q c (x :: q c)) r v PRun None)
| StepTake c r v n : serves = true -> chanOf c = Open (S n) ->
    prodStep (mkState c r v PRun None) (mkState (set_chan c (Open n)) r v PRun None)
| StepTakeClosed c r v n : serves = true -> chanOf c = Closed (S n) ->
    prodStep (mkState c r v PRun None) (mkState (set_chan c (Closed n)) r v PRun None)
| StepExit c r v : serves = true -> chanOf c = Closed 0 ->
    prodStep (mkState c r v PRun None) (mkState (set_wg c (wg c - 1)) r v PDone None)
| StepFail c r v : meth = Serving true ->
    prodStep (mkState c r v PRun None) (mkState (set_wg c (wg c - 1)) r v PDone None)
| StepReturn c r v : meth = EmptyBody ->
    prodStep (mkState c r v PRun None) (mkState c r v PDone None).

(** Steps of [recv]. *)
Inductive recvStep : State -> State -> Prop :=
| StepRecvEnd c r p : recvStep (mkState c r VRecv p None) (mkState c r VClose p None)
| StepRecvPoll c r p : mode = POLL -> recvStep (mkState c r VRecv p None) (mkState c r VPoll p None)
| StepRecvOther c r p : mode <> POLL -> recvStep (mkState c r VRecv p None) (mkState c r VRecv p None)
| StepPollSend c r p : polled c = Open 0 ->
    recvStep (mkState c r VPoll p None)
      (mkState (mkClient (q c) (disposed c) (stop c) (Open 1) (once c) (wg c)) r VRecv p None)
| StepPollPanic c r p n : polled c = Closed n ->
    recvStep (mkState c r VPoll p None) (mkState c r VPoll p (Some SendOnClosed))
| StepRecvClose c r p : recvStep (mkState c r VClose p None)
    (match Close c with
     | Some c' => mkState c' r VDone p None
     | None => mkState c r VClose p (Some DoubleClose)
     end).

(** [Close] called by another RPC that replaces this client. *)
Inductive dupStep : State -> State -> Prop :=
| StepDup c r v p : dupStep (mkState c r v p None)
    (match Close c with
     | Some c' => mkState c' r v p None
     | None => mkState c r v p (Some DoubleClose)
     end).

Inductive step : State -> State -> Prop :=
| ByRun s s' : runStep s s' -> step s s'
| ByProd s s' : prodStep s s' -> step s s'
| ByRecv s s' : recvStep s s' -> step s s'
| ByDup s s' : dupStep s s' -> step s s'.

Definition reachable : State -> Prop := rtc step initState.

(** The steps that the RPC needs to finish. *)
Definition ownStep (s s' : State) : Prop := runStep s s' \/ prodStep s s'.
End Steps.
End SubscribeClient.
