(* ===== verification/SubscribeClientProofs.v ===== *)
(** Properties of a Subscribe RPC: what its start guarantees, that its channels are
    closed at most once, that it returns once it is closed, and the interleavings in
    which it hangs or panics. *)

From S2P Require Import Prelude GnmiTypes DbTypes Server DbClient ConnManager SubscribeClient.
Import SubscribeClient.

(** * Invariants *)

Definition closedb (ch : chan) : bool := match ch with Closed _ => true | _ => false end.
Definition anyClosed (c : Client) : bool := closedb (stop c) || closedb (polled c) || closedb (once c).
Definition starting (r : runPC) : bool := match r with RStart | RMade | RToken => true | _ => false end.

Lemma closeChan_Some ch : closedb ch = false -> exists ch', closeChan ch = Some ch' /\ (ch = Nil -> ch' = Nil).
Proof. destruct ch; intros H; [by eexists|by eexists|done]. Qed.

(** [Close] on a client whose closed channels imply disposal. *)
Lemma Close_total c :
  (anyClosed c = true -> disposed c = true) ->
  exists c', Close c = Some c' /\ disposed c' = true /\ wg c' = wg c /\ (polled c = Nil -> polled c' = Nil).
Proof.
  intros H. unfold Close. destruct (disposed c) eqn:Hd; [by exists c|].
  unfold anyClosed in H. destruct (closedb (stop c)) eqn:Es, (closedb (polled c)) eqn:Ep, (closedb (once c)) eqn:Eo;
    try discriminate (H eq_refl).
  destruct (closeChan_Some _ Es) as (s & -> & ?), (closeChan_Some _ Ep) as (p & -> & ?), (closeChan_Some _ Eo) as (o & -> & ?).
  by eexists.
Qed.

(** Channels are closed once only. *)
Definition closeInv (s : State) : Prop :=
  (anyClosed (client s) = true -> disposed (client s) = true) /\ crashed s <> Some DoubleClose.

(** The goroutines exist from the moment that [Run] starts them, and the wait group
    counts the data client until it signals. *)
Definition phaseInv (meth : method) (s : State) : Prop :=
  if starting (run s) then prod s = PNone /\ recv s = VNone /\ wg (client s) = 0
  else prod s <> PNone /\ wg (client s) = (match prod s with PDone => if serves meth then 0 else 1 | _ => 1 end).

(** A stream subscription never sends on a channel. *)
Definition streamInv (s : State) : Prop :=
  polled (client s) = Nil /\ recv s <> VPoll /\ run s <> RMade /\ crashed s = None.

Lemma anyClosed_set mode c ch : anyClosed (set_chan mode c ch) = true -> anyClosed c = true \/ closedb ch = true.
Proof. unfold anyClosed. destruct mode; cbn; rewrite ?orb_true_iff; tauto. Qed.

Lemma disposed_set mode c ch : disposed (set_chan mode c ch) = disposed c.
Proof. by destruct mode. Qed.

Lemma wg_set mode c ch : wg (set_chan mode c ch) = wg c.
Proof. by destruct mode. Qed.

(** The three kinds of step that call [Close]. *)
Lemma closeInv_Close c r v p r' v' e :
  closeInv (mkState c r v p e) ->
  exists c', Close c = Some c' /\ closeInv (mkState c' r' v' p None) /\ wg c' = wg c /\ (polled c = Nil -> polled c' = Nil).
Proof.
  intros [Hc Hd]. cbn [client crashed] in *. destruct (Close_total c Hc) as (c' & HC & Hdis & Hwg & Hp).
  exists c'. split; [done|]. split; [|done]. split; [by intros _|done].
Qed.

Lemma step_closeInv mode meth s s' : step mode meth s s' -> closeInv s -> closeInv s'.
Proof.
  intros Hstep Hi. assert (forall c r v p r' v', closeInv (mkState c r v p None) ->
    closeInv (match Close c with Some c' => mkState c' r' v' p None | None => mkState c r v p (Some DoubleClose) end)) as HC.
  { intros c r v p r' v' Hci. by destruct (closeInv_Close c r v p r' v' None Hci) as (c' & -> & ? & _). }
  destruct Hstep as [s s' H|s s' H|s s' H|s s' H]; destruct H; try (by eapply HC);
    destruct Hi as [Hc Hd]; unfold closeInv, set_q, set_wg, anyClosed in *; cbn [client crashed stop polled once disposed] in *;
    (split; [|done]); try done; rewrite ?disposed_set;
    try (intros Hx%(anyClosed_set mode); destruct Hx as [Hx|Hx]; [by apply Hc|done]).
  - intros Hx%(anyClosed_set mode). destruct Hx as [Hx|_]; [by apply Hc|]. apply Hc.
    match goal with H : chanOf mode c = _ |- _ => revert H end.
    unfold chanOf. destruct mode; intros E; rewrite ?E, ?orb_true_r; cbn; by rewrite ?orb_true_r.
  - intros Hx. apply Hc. match goal with H : polled c = _ |- _ => rewrite H end. done.
Qed.

Lemma Close_frame c c' : Close c = Some c' -> wg c' = wg c /\ (polled c = Nil -> polled c' = Nil).
Proof.
  unfold Close. destruct (disposed c); [by intros [= <-]|].
  destruct (closeChan (stop c)), (closeChan (polled c)) eqn:E, (closeChan (once c)); intros [= <-]; try done.
  split; [done|]. cbn [polled]. intros Hp. rewrite Hp in E. by injection E as <-.
Qed.

Ltac case_Close :=
  match goal with |- context [Close ?c] => destruct (Close c) as [c'|] eqn:HC; [apply Close_frame in HC as [Hwg Hpol]|] end.

Lemma step_phaseInv mode meth s s' : step mode meth s s' -> phaseInv meth s -> phaseInv meth s'.
Proof.
  intros Hstep Hi. unfold phaseInv in *.
  destruct Hstep as [s s' H|s s' H|s s' H|s s' H]; destruct H; try case_Close; cbn [client run recv prod starting set_q set_wg wg] in *;
    rewrite ?wg_set, ?Hwg in *; try done.
  1: by destruct mode.
  1: by destruct Hi as (_ & _ & ->).
  1: destruct (starting r); [by destruct Hi|]; destruct Hi as [_ ->]; by match goal with H : serves _ = true |- _ => rewrite H end.
  1, 2: destruct (starting r); [by destruct Hi|]; destruct Hi as [_ ->]; by subst meth.
  all: by destruct (starting r); destruct_and?.
Qed.

Lemma step_streamInv meth s s' : step STREAM meth s s' -> closeInv s -> streamInv s -> streamInv s'.
Proof.
  intros Hstep [Hc _] (Hp & Hv & Hr & He). unfold streamInv.
  destruct Hstep as [s s' H|s s' H|s s' H|s s' H]; destruct H; cbn [client run recv prod crashed] in *;
    try (destruct (Close_total c Hc) as (c' & HC & _ & _ & Hpol); rewrite HC; cbn [client run recv prod crashed]);
    cbn [set_chan set_q set_wg polled] in *; split_and!; try done; try (by apply Hpol); congruence.
Qed.

Lemma reachable_inv mode meth s :
  reachable mode meth s -> closeInv s /\ phaseInv meth s /\ (mode = STREAM -> streamInv s).
Proof.
  assert (closeInv initState /\ phaseInv meth initState /\ (mode = STREAM -> streamInv initState)) as H0.
  { split_and!; done. }
  intros H. unfold reachable in H. revert H0. induction H as [s|s1 s2 s3 Hs _ IH]; [done|]. intros (H1 & H2 & H3). apply IH.
  split_and!; [by eapply step_closeInv|by eapply step_phaseInv|].
  intros ->. eapply step_streamInv; [done..|by apply H3].
Qed.

(** Whatever the goroutines of a client and the RPCs that replace it do, no channel
    is closed twice, and a STREAM subscription never panics on a channel at all. *)
Theorem channels_closed_once mode meth s :
  reachable mode meth s -> closeInv s /\ (mode = STREAM -> crashed s = None).
Proof. intros (H1 & _ & H3)%reachable_inv. split; [done|]. intros Hm. by apply H3. Qed.

(** * Termination *)

(** The channel of the client is closed and [Run] is past its creation. *)
Definition released (mode : SubMode) (s : State) : Prop :=
  closedb (chanOf mode (client s)) = true /\ crashed s = None /\ run s <> RStart /\ run s <> RMade.

Definition runRank (r : runPC) : nat :=
  match r with RStart => 7 | RMade => 6 | RToken => 5 | RGot _ => 4 | RSend => 3 | RClose => 2 | RWait => 1 | RReturned => 0 end.
Definition chanRank (ch : chan) : nat := match ch with Nil => 0 | Open n => n | Closed n => n end.

(** Work left before the RPC returns. *)
Definition work (mode : SubMode) (s : State) : nat :=
  3 * runRank (run s) + (match prod s with PRun => 1 | _ => 0 end) + chanRank (chanOf mode (client s)).

Lemma chanOf_set mode c ch : (forall n, mode <> OtherMode n) -> chanOf mode (set_chan mode c ch) = ch.
Proof. intros H. destruct mode; try done. by destruct (H n). Qed.

Lemma chanOf_wg mode c n : chanOf mode (set_wg c n) = chanOf mode c.
Proof. by destruct mode. Qed.

Lemma chanOf_anyClosed mode c : closedb (chanOf mode c) = true -> anyClosed c = true.
Proof. unfold anyClosed. destruct mode; cbn; intros H; rewrite ?H, ?orb_true_r; done. Qed.

(** Once released, every step of [Run] and of the data client leaves less work. *)
Lemma own_decreases mode meth s s' :
  ownStep mode meth s s' -> closeInv s -> released mode s -> released mode s' /\ work mode s' < work mode s.
Proof.
  intros Hs [Hc _] (Hcl & He & Hr1 & Hr2). pose proof (chanOf_anyClosed _ _ Hcl) as Hany. specialize (Hc Hany).
  unfold released, work. destruct Hs as [H|H]; destruct H; cbn [client run recv prod crashed runRank] in *; try congruence.
  - rewrite chanOf_wg. split_and!; [done..|]. destruct p; lia.
  - split_and!; [done..|]. lia.
  - split_and!; [done..|]. lia.
  - split_and!; [done..|]. lia.
  - unfold Close. rewrite Hc. cbn [client run recv prod crashed runRank]. split_and!; [done..|]. lia.
  - split_and!; [done..|]. lia.
  - match goal with H : chanOf _ _ = Open _ |- _ => by rewrite H in Hcl end.
  - match goal with H : chanOf _ _ = Closed _ |- _ => rewrite chanOf_set, H; [|intros ? ->; done] end.
    split_and!; [done..|]. cbn. lia.
  - rewrite chanOf_wg. split_and!; [done..|]. lia.
  - rewrite chanOf_wg. split_and!; [done..|]. lia.
  - split_and!; [done..|]. lia.
Qed.

(** A released RPC that has not returned can go on. *)
Lemma own_progress mode meth s :
  serves meth = true -> closeInv s -> phaseInv meth s -> released mode s -> run s <> RReturned -> exists s', ownStep mode meth s s'.
Proof.
  intros Hm [Hc _] Hph (Hcl & He & Hr1 & Hr2) Hr3. specialize (Hc (chanOf_anyClosed _ _ Hcl)).
  destruct s as [c r v p e]. cbn [client run recv prod crashed] in *. subst e. unfold phaseInv in Hph. cbn in Hph.
  destruct r; try done.
  - eexists. left. by constructor.
  - eexists. left. by apply StepGetDisposed.
  - eexists. left. by apply StepSendOk.
  - eexists. left. by constructor.
  - destruct Hph as [Hp Hw]. destruct p; [done| |].
    + destruct (chanOf mode c) as [| |[|n]] eqn:Ech; try done; eexists; right; [by apply StepExit|by eapply StepTakeClosed].
    + rewrite Hm in Hw. eexists. left. by constructor.
Qed.

Lemma own_step mode meth s s' : ownStep mode meth s s' -> step mode meth s s'.
Proof. intros [H|H]; [by apply ByRun|by apply ByProd]. Qed.

(** C21. An RPC whose data client honours its channel returns once the client is closed:
    from every such state the steps of [Run] and of the data client cannot go on
    forever, and when none is left the RPC has returned. *)
Theorem closed_rpc_returns mode meth s :
  serves meth = true -> reachable mode meth s -> released mode s ->
  sn (ownStep mode meth) s /\ (forall s', rtc (ownStep mode meth) s s' -> nf (ownStep mode meth) s' -> run s' = RReturned).
Proof.
  intros Hm (Hci & Hph & _)%reachable_inv Hrel. split.
  - remember (work mode s) as n eqn:En. revert s En Hci Hph Hrel. induction n as [n IH] using lt_wf_ind. intros s -> Hci Hph Hrel.
    constructor. intros s' Hs. destruct (own_decreases _ _ _ _ Hs Hci Hrel) as [Hrel' Hlt].
    apply (IH _ Hlt s'); [done|by eapply step_closeInv, Hci; apply own_step|by eapply step_phaseInv, Hph; apply own_step|done].
  - intros s' Hs. induction Hs as [s|s1 s2 s3 Hs _ IH]; intros Hnf.
    + destruct (decide (run s = RReturned)) as [|Hne]; [done|]. destruct Hnf. by apply own_progress.
    + destruct (own_decreases _ _ _ _ Hs Hci Hrel) as [Hrel' _].
      apply IH; [by eapply step_closeInv, Hci; apply own_step|by eapply step_phaseInv, Hph; apply own_step|done|done].
Qed.

(** * Interleavings that hang or panic *)

(** Executions keep an invariant that steps keep. *)
Lemma rtc_invariant {A} (R : A -> A -> Prop) (P : A -> Prop) x y :
  (forall a b, R a b -> P a -> P b) -> rtc R x y -> P x -> P y.
Proof. intros HP. induction 1 as [|x y z Hs _ IH]; [done|]. eauto. Qed.

(** A ONCE subscription to a data client whose method has an empty body (DbClient,
    MixedDbClient, NonDbClient, EventClient) never returns, in any interleaving, even
    after the peer has gone: nothing signals the wait group that [Run] waits for. *)
Theorem empty_method_never_returns mode s :
  reachable mode EmptyBody s -> phaseInv EmptyBody s /\ run s <> RReturned.
Proof.
  intros H. refine (rtc_invariant _ (fun s => phaseInv EmptyBody s /\ run s <> RReturned) _ _ _ H _); [|done].
  clear s H. intros s s' Hs [Hph Hr]. split; [by eapply step_phaseInv|].
  destruct Hs as [s s' Hx|s s' Hx|s s' Hx|s s' Hx]; destruct Hx; try case_Close; cbn [run client prod] in *; try done.
  - by destruct mode.
  - unfold phaseInv in Hph. cbn in Hph. destruct Hph as [Hp Hw]. by destruct p; rewrite Hw in *.
Qed.

(** A client that was closed before its channel was made. *)
Definition closedEarly (s : State) : Prop :=
  disposed (client s) = true /\ closedb (stop (client s)) = false /\ prod s <> PDone /\
  phaseInv (Serving false) s /\ run s <> RReturned.

Lemma closedEarly_step s s' : step STREAM (Serving false) s s' -> closedEarly s -> closedEarly s'.
Proof.
  intros Hs (Hd & Hc & Hp & Hph & Hr). pose proof (step_phaseInv _ _ _ _ Hs Hph) as Hph'.
  assert (Close (client s) = Some (client s)) as HC by (unfold Close; by rewrite Hd).
  unfold closedEarly. destruct Hs as [s s' Hx|s s' Hx|s s' Hx|s s' Hx]; destruct Hx; cbn [client] in HC; try rewrite HC in *;
    cbn [client run recv prod crashed set_chan set_q set_wg disposed stop chanOf] in *; try congruence; try done.
  - unfold phaseInv in Hph. cbn in Hph. destruct Hph as [? Hw]. by destruct p; rewrite Hw in *.
  - by match goal with H : stop _ = Closed _ |- _ => rewrite H in Hc end.
  - by match goal with H : stop _ = Closed _ |- _ => rewrite H in Hc end.
Qed.

(** A stream client that is replaced between its registration and the creation of
    its channel hangs: the channel made afterwards is never closed, and in no
    continuation does the RPC return. *)
Theorem early_close_hangs :
  exists s, reachable STREAM (Serving false) s /\ closedEarly s /\
    forall s', rtc (step STREAM (Serving false)) s s' -> run s' <> RReturned.
Proof.
  exists (mkState (mkClient [] true Nil Nil Nil 0) RStart VNone PNone None).
  assert (closedEarly (mkState (mkClient [] true Nil Nil Nil 0) RStart VNone PNone None)) as Hce by (by split_and!).
  split_and!; [|done|].
  - apply rtc_once, ByDup. apply (StepDup newClientState).
  - intros s' Hs. by apply (rtc_invariant _ closedEarly _ _ closedEarly_step Hs Hce).
Qed.

(** A polling client can bring the server down by itself: when [recv] is waiting to
    pass on a poll request and a send fails, [Run] closes the channel and the pending
    send panics. *)
Theorem poll_panics b :
  exists s, rtc (fun s s' => ownStep POLL (Serving b) s s' \/ recvStep POLL s s') initState s /\
    crashed s = Some SendOnClosed /\ closeInv s.
Proof.
  eexists. split; [|split].
  - eapply rtc_l; [left; left; apply StepMake|]. eapply rtc_l; [left; left; by apply StepToken|].
    eapply rtc_l; [left; left; apply StepSpawn|]. eapply rtc_l; [right; by apply StepRecvPoll|].
    eapply rtc_l; [left; right; by apply (StepPut _ _ _ _ _ 0)|].
    eapply rtc_l; [left; left; by apply (StepGet _ _ _ _ 0 [] [])|].
    eapply rtc_l; [left; left; apply StepSendErr|]. eapply rtc_l; [left; left; apply StepRunClose|].
    eapply rtc_l; [right; by eapply StepPollPanic|]. apply rtc_refl.
  - done.
  - by split.
Qed.

(** * The start of the RPC *)

Lemma removed_key ok m key :
  key ∉ ConnManager.connections m ->
  ConnManager.connections (ConnManager.Remove ok (ConnManager.storeKeyRedis ok (ConnManager.insertKey m key) key) key).2 =
    ConnManager.connections m.
Proof.
  intros Hk. unfold ConnManager.Remove. cbn. rewrite bool_decide_true by set_solver. cbn. set_solver.
Qed.

Section Start.
Variables (cfg : DbClient.DbConfig) (newClient : SubKind -> list (option Path) -> option Path -> string -> option string).
Variable auth : string -> option Code.

(** A client of this kind was made for the request and its caller authenticated. *)
Definition admitted (first : FirstMsg) (kind : SubKind) : Prop :=
  exists sl origin target db,
    first = First (Some sl) /\ selectClient cfg origin (GetTarget (sl_prefix sl)) (sl_mode sl) = Ok (kind, target) /\
    newClient kind (sl_subscription sl) (sl_prefix sl) origin = Some db /\ auth (target db) = None.

(** An RPC gets past its start only below the connection limit, for a client that
    could be made and for whose target the caller is authenticated; it then holds
    exactly its own connection key.  On every other outcome the connections are as
    before, unless another RPC holds the same key. *)
Theorem start_holds_key redisOk first key m r m' :
  RunStart cfg newClient auth redisOk first key m = (r, m') ->
  match r with
  | RunOk kind =>
      ConnManager.atLimit m = false /\ ConnManager.connections m' = {[key]} ∪ ConnManager.connections m /\
      admitted first kind
  | _ => key ∉ ConnManager.connections m -> ConnManager.connections m' = ConnManager.connections m
  end.
Proof.
  unfold RunStart. intros H. destruct first as [|c|[sl|]]; [by injection H as <- <-..| |by injection H as <- <-].
  destruct (populateDbPathSubscrition sl) as [paths|] eqn:Ep; [|by injection H as <- <-].
  assert (sl_subscription sl = paths) as <-.
  { unfold populateDbPathSubscrition in Ep. destruct (sl_subscription sl); [done|]. by injection Ep as <-. }
  destruct (subscribeOrigin _ _) as [c| |origin]; [by injection H as <- <-..|].
  destruct (ConnManager.atLimit m) eqn:Hl; [by injection H as <- <-|].
  destruct (startClient _ _ _ sl origin _) as [c| |kind] eqn:Es; injection H as <- <-.
  - apply removed_key.
  - apply removed_key.
  - split_and!; [done|done|]. unfold startClient in Es.
    destruct (selectClient _ _ _ _) as [[k target]|] eqn:Esel; [|done].
    destruct (newClient k _ _ _) as [db|] eqn:En; [|done]. destruct (auth (target db)) eqn:Ea; [done|].
    assert (k = kind) as -> by (destruct (sl_mode sl); by simplify_eq). by exists sl, origin, target, db.
Qed.
End Start.

(** * Witnesses *)

(** A stream client whose peer goes away at once. *)
Definition gone : State := mkState (mkClient [] true (Closed 0) Nil Nil 1) RSend VDone PRun None.

Lemma gone_reachable : reachable STREAM (Serving false) gone.
Proof.
  unfold reachable. eapply rtc_l; [apply ByRun, StepMake|]. eapply rtc_l; [apply ByRun, StepSpawn|].
  eapply rtc_l; [apply ByRecv, StepRecvEnd|]. eapply rtc_l; [apply ByRecv, StepRecvClose|]. apply rtc_refl.
Qed.

Lemma channels_closed_once_witness : closeInv gone /\ crashed gone = None.
Proof. destruct (channels_closed_once STREAM (Serving false) gone gone_reachable) as [H1 H2]. split; [exact H1|exact (H2 eq_refl)]. Defined.

Lemma closed_rpc_returns_witness :
  released STREAM gone /\ forall s', rtc (ownStep STREAM (Serving false)) gone s' -> nf (ownStep STREAM (Serving false)) s' -> run s' = RReturned.
Proof.
  assert (released STREAM gone) as Hr by (split_and!; [reflexivity|reflexivity|discriminate|discriminate]).
  split; [exact Hr|]. apply (closed_rpc_returns STREAM (Serving false) gone eq_refl gone_reachable Hr).
Defined.

Lemma empty_method_never_returns_witness :
  run (mkState (mkClient [] true Nil Nil (Closed 1) 1) RWait VDone PDone None) <> RReturned.
Proof.
  apply (empty_method_never_returns ONCE). unfold reachable.
  eapply rtc_l; [apply ByRun, StepMake|]. eapply rtc_l; [apply ByRun, StepToken; reflexivity|].
  eapply rtc_l; [apply ByRun, StepSpawn|]. eapply rtc_l; [apply ByProd, StepReturn; reflexivity|].
  eapply rtc_l; [apply ByRecv, StepRecvEnd|]. eapply rtc_l; [apply ByRecv, StepRecvClose|].
  eapply rtc_l; [apply ByRun, StepGetDisposed; reflexivity|]. eapply rtc_l; [apply ByRun, StepRunClose|]. apply rtc_refl.
Defined.

Lemma start_holds_key_witness :
  let first := First (Some (mkSubList (Some (mkPath "" "CONFIG_DB" [])) [Some (mkPath "" "" [ename "PORT"])] STREAM)) in
  let m := ConnManager.mkManager ∅ 1 None in
  exists m', RunStart (DbClient.mkDbConfig (Some [""]) (fun _ _ => None)) (fun _ _ _ _ => Some "") (fun _ => None) true first "k" m = (RunOk DbClient_, m') /\
    ConnManager.connections m' = {["k"]} ∪ ∅.
Proof.
  intros first m. eexists. split; [reflexivity|].
  apply (start_holds_key (DbClient.mkDbConfig (Some [""]) (fun _ _ => None)) (fun _ _ _ _ => Some "") (fun _ => None) true first "k" m _ _ eq_refl).
Defined.
