(* ===== verification/MixedDb.v ===== *)
(** The native data client (src/sonic_data_client/mixed_db_client.go), first part: the
    database a path names, table paths, reading Redis as JSON, conversion of JSON
    entries to Redis fields, writes to the application databases through swsscommon
    tables with retries and batches, Get, polling and the table subscription.

    The swsscommon library is C++ behind bindings: its database configuration is the
    record [Instances], and each call on a table takes its result from an oracle and
    is recorded in a log. *)

From S2P Require Import Prelude GnmiTypes DbTypes Trie VirtualDb JsonClient Pathz Bypass Server DbClient.
Import JsonClient.
Open Scope go_scope.

Module MixedDb.

Inductive mx_error :=
| Status (c : Code)
| UnsupportedInstance | InvalidGnmiPath | UnsupportedValue | NoRedisClient | RedisFailed | NotFoundTable
| InvalidIndex_ | InvalidTablePath | AllCounters | NoProtoBytes | EmitFailed | UnknownEncoding | NoValidEntry
| CantUpdateField | UnsupportedOperation | ParseFailed | WrongType | NoValidValue | Swss (msg : string) | UnsupportedTarget
| Panic.

#[global] Instance mx_error_eq_dec : EqDecision mx_error.
Proof. solve_decision. Defined.

Abbreviation mres := (res mx_error).

Definition HOSTNAME : string := "localhost".
Definition MAX_RETRY_COUNT : N := 5.
Definition RETRY_DELAY_MILLISECOND : N := 100.
Definition RETRY_DELAY_FACTOR : N := 2.
Definition opAdd : Z := 0.
Definition opRemove : Z := 1.

(** * Instances *)

(** A database key: namespace and container; [dbList] is [SonicDBConfigGetDbList]
    ([None]: an exception), [allInstances] is [SonicDBConfigGetDbKeys]. *)
Abbreviation dbkey := (string * string)%type.

Record Instances := mkInstances {
  dbList : dbkey -> option (list string);
  allInstances : option (list dbkey);
  separatorByKey : string -> dbkey -> option string
}.

Section Instances.
Variable inst : Instances.

Definition GetDbInstanceFromTarget (ns container : string) : bool :=
  match dbList inst (ns, container) with Some _ => true | None => false end.

Definition IsTargetDbByDBKey (dbName : string) (k : dbkey) : bool :=
  if GetDbInstanceFromTarget k.1 k.2 then
    match dbList inst k with None => false | Some l => bool_decide (dbName ∈ l) end
  else false.

(** The counts of [NewMixedDbClient]: one plus the instances off the default. *)
Definition namespaceCnt : nat :=
  1 + length (base.filter (fun k : dbkey => k.1 <> "") (default [] (allInstances inst))).
Definition containerCnt : nat :=
  1 + length (base.filter (fun k : dbkey => k.2 <> "") (default [] (allInstances inst))).

(** What [ParseDatabase] has found so far. *)
Record parsed := mkParsed { p_target : string; p_instance : string; p_namespace : string; p_container : string }.

(** The elements of prefix and path. *)
Definition allElems (prefix : option Path) (path : option Path) : list PathElem := GetElem prefix ++ GetElem path.

(** One path of [ParseDatabase]. *)
Definition parseOne (prefix : option Path) (st : parsed) (path : option Path) : mres parsed :=
  match GetElem path with
  | [] => Ok st
  | _ =>
      match elem_name <$> allElems prefix path with
      | db :: inst_name :: _ =>
          if negb (String.eqb (p_target st) "") && negb (String.eqb (p_target st) db) then Err (Status Unimplemented)
          else if negb (String.eqb (p_instance st) "") && negb (String.eqb (p_instance st) inst_name) then Err (Status Unimplemented)
          else
            let target := if String.eqb (p_target st) "" then db else p_target st in
            let instance := if String.eqb (p_instance st) "" then inst_name else p_instance st in
            if (1 <? namespaceCnt) && (1 <? containerCnt) then
              if String.eqb inst_name HOSTNAME then Ok (mkParsed target instance (p_namespace st) (p_container st))
              else if GetDbInstanceFromTarget inst_name "" then Ok (mkParsed target instance inst_name (p_container st))
              else if GetDbInstanceFromTarget "" inst_name then Ok (mkParsed target instance (p_namespace st) inst_name)
              else Err UnsupportedInstance
            else if 1 <? namespaceCnt then Ok (mkParsed target instance inst_name (p_container st))
            else if 1 <? containerCnt then Ok (mkParsed target instance (p_namespace st) inst_name)
            else Ok (mkParsed target instance (p_namespace st) (p_container st))
      | _ => Err (Status Unimplemented)
      end
  end.

Definition ParseDatabase (prefix : option Path) (paths : list (option Path)) : mres (string * dbkey) :=
  match paths with
  | [] => Err (Status Unimplemented)
  | _ =>
      try st := foldM (parseOne prefix) (mkParsed "" "" "" "") paths in
      if String.eqb (p_target st) "" then Err (Status Unimplemented)
      else
        let unhost s := if String.eqb s HOSTNAME then "" else s in
        Ok (p_target st, (unhost (p_namespace st), unhost (p_container st)))
  end.
End Instances.

(** The client: the fields that [NewMixedDbClient] sets. *)
Record MixedDbClient := mkMixed {
  prefix : option Path;
  paths : list (option Path);
  encoding : Server.Encoding;
  target : string;
  origin : string;
  key : dbkey;
  hasZmq : bool
}.

(** [NewMixedDbClient]; [zmq] is the outcome of [getZmqClient] for a container: an
    error, no client, or a client. *)
Definition NewMixedDbClient (inst : Instances) (zmq : string -> option bool) (paths : list (option Path))
    (prefix : option Path) (origin : string) (enc : Server.Encoding) : mres MixedDbClient :=
  match paths with
  | [] =>
      let target := match GetElem prefix with e :: _ => elem_name e | [] => "" end in
      Ok (mkMixed prefix [] enc target origin ("", "") false)
  | _ =>
      try tk := ParseDatabase inst prefix paths in
      if negb (IsTargetDbByDBKey inst tk.1 tk.2) then Err (Status Unimplemented)
      else
        match zmq tk.2.2 with
        | None => Err (Swss "zmq")
        | Some z => Ok (mkMixed prefix paths enc tk.1 origin tk.2 z)
        end
  end.

Definition mapkey (c : MixedDbClient) : string := (key c).1 +:+ ":" +:+ (key c).2.

(** * Paths *)

(** [gnmiFullPath]: the elements after database and instance; [None] is the nil slice
    of a path without elements.  The origin is read through the path pointer when the
    prefix gives none. *)
Definition fullElems (prefix path : option Path) : mres (option (list PathElem)) :=
  match path with
  | None => if String.eqb (GetOrigin prefix) "" then Err Panic else Ok None
  | Some p =>
      match path_elem p with
      | [] => Ok None
      | _ =>
          match allElems prefix path with
          | _ :: _ :: rest => Ok (Some rest)
          | _ => Err InvalidGnmiPath
          end
      end
  end.

(** The names of the elements, each followed by its [key] attribute when it has one. *)
Definition elemNames (es : list PathElem) : list string :=
  e ← es; match elem_key e !! "key" with Some v => [elem_name e; v] | None => [elem_name e] end.

(** Tables of COUNTERS_DB without per-object keys get an empty table key. *)
Definition withDummyKey (db : string) (names : list string) : list string :=
  match names with
  | t :: rest => if String.eqb db "COUNTERS_DB" && negb (DbClient.countersDbHasTableKeys t) then t :: "" :: rest else names
  | [] => []
  end.

Section Client.
Context `{!MapRange}.
Variable inst : Instances.
Variable RedisDbMap : gmap string Redis.
(** [json.Unmarshal], [json.Marshal] of a map, and of a list of strings. *)
Variable parseJson : string -> option json.
Variable marshal : jobj -> option string.
Variable marshalList : list string -> option string.
Variable c : MixedDbClient.

Definition redisOf (db : string) : mres Redis :=
  match RedisDbMap !! (mapkey c +:+ ":" +:+ db) with Some r => Ok r | None => Err NoRedisClient end.

Definition of_cmd {A} (o : option A) : mres A := match o with Some a => Ok a | None => Err RedisFailed end.

Definition mkTable (sep t k f : string) (idx op : Z) (jv pv : string) : tablePath :=
  mkTablePath (key c).1 (target c) t k sep f jv pv idx op "" "" "" "" false.

(** Operation, JSON value and proto value that a typed value stands for. *)
Definition valueParts (value : option TypedValue) : mres (Z * string * string) :=
  match value with
  | None => Ok (opRemove, "", "")
  | Some (JsonIetfVal b) => Ok (opAdd, b, "")
  | Some (ProtoBytes b) => Ok (opAdd, "", b)
  | Some _ => Err UnsupportedValue
  end.

(** [getDbtablePath]. *)
Definition getDbtablePath (path : option Path) (value : option TypedValue) : mres (list tablePath) :=
  try es := fullElems (prefix c) path in
  let sep := default "" (separatorByKey inst (target c) (key c)) in
  let names := withDummyKey (target c) (elemNames (default [] es)) in
  try v := valueParts value in
  let '(op, jv, pv) := v in
  try r := redisOf (target c) in
  let exists_ t k := if (op =? opRemove)%Z then try _ := of_cmd (Exists r (t +:+ sep +:+ k)) in Ok tt else Ok tt in
  let mk t k f idx := Ok [mkTable sep t k f idx op jv pv] in
  match names with
  | [] => mk "" "" "" (-1)%Z
  | [t] =>
      try _ := (if (op =? opRemove)%Z then
                  match Keys r (t +:+ "*") with
                  | Some (_ :: _) => Ok tt
                  | _ => Err NotFoundTable
                  end
                else Ok tt) in
      mk t "" "" (-1)%Z
  | [t; k] => try _ := exists_ t k in mk t k "" (-1)%Z
  | [t; k; f] => try _ := exists_ t k in mk t k f (-1)%Z
  | [t; k; f; i] =>
      try _ := exists_ t k in
      match atoi i with
      | None => Err InvalidIndex_
      | Some idx => mk t k f idx
      end
  | _ => Err InvalidTablePath
  end.

(** * Reading *)

(** A value of the map that is marshalled: JSON, or the bytes of a proto message. *)
Inductive mval := MJson (j : json) | MBytes (b : string).

Abbreviation mmap := (gmap string mval).

(** A Redis field as JSON: leaf-lists are stored under a name that ends in an at sign,
    joined by commas; the placeholder NULL is dropped. *)
Definition fieldJson (f v : string) : option (string * json) :=
  if String.eqb f "NULL" then None
  else if has_suffix f "@" then Some (trim_suffix f "@", JArr (JStr <$> str_split v ","))
  else Some (f, JStr v).

Definition entryJson (mfv : gmap string string) : jobj :=
  fold_left (fun m '(f, v) => match fieldJson f v with Some (k, j) => <[k := j]> m | None => m end) (range_of mfv) ∅.

(** [makeJSON_redis] without the operation layer, which no caller uses. *)
Definition addFields (msi : mmap) (mfv : gmap string string) : mmap :=
  fold_left (fun m '(f, v) => match fieldJson f v with Some (k, j) => <[k := MJson j]> m | None => m end) (range_of mfv) msi.

(** The table map under a name, created when there is none. *)
Definition tableMsi (msi : mmap) (t : string) : jobj :=
  match msi !! t with Some (MJson (JObj m)) => m | _ => ∅ end.

Definition addKey (r : Redis) (t : tablePath) (useKey : bool) (msi : mmap) (dbkey : string) : mres mmap :=
  try fv := of_cmd (HGetAll r dbkey) in
  if String.eqb (tableName t) "" then
    match str_splitn2 dbkey (delimitor t) with
    | [tn; k] => Ok (<[tn := MJson (JObj (<[k := JObj (entryJson fv)]> (tableMsi msi tn)))]> msi)
    | _ => Err Panic
    end
  else if (negb (String.eqb (tableKey t) "") && negb useKey) || String.eqb (tableName t) dbkey then
    match encoding c with
    | Server.JSON_IETF => Ok (addFields msi fv)
    | Server.PROTO => match fv !! "pb" with Some v => Ok (<["pb" := MBytes v]> msi) | None => Err NoProtoBytes end
    | _ => Ok msi
    end
  else
    match str_splitn2 dbkey (delimitor t) with
    | [_; k] => Ok (<[k := MJson (JObj (entryJson fv))]> msi)
    | _ => Err Panic
    end.

Definition tableData2Msi (t : tablePath) (useKey : bool) (msi : mmap) : mres mmap :=
  try r := redisOf (dbName t) in
  try dbkeys :=
    if String.eqb (tableName t) "" then
      if String.eqb (dbName t) "COUNTERS_DB" then Err AllCounters
      else of_cmd (Keys r ("*" +:+ delimitor t +:+ "*"))
    else if String.eqb (tableKey t) "" then
      of_cmd (Keys r (if String.eqb (dbName t) "COUNTERS_DB" && negb (DbClient.countersDbHasTableKeys (tableName t))
                      then tableName t else tableName t +:+ delimitor t +:+ "*"))
    else Ok [tableName t +:+ delimitor t +:+ tableKey t] in
  foldM (addKey r t useKey) msi dbkeys.

Definition jsonOf (v : mval) : json := match v with MJson j => j | MBytes b => JStr b end.

Definition msi2TypedValue (msi : mmap) : mres TypedValue :=
  match encoding c with
  | Server.JSON_IETF => match marshal (jsonOf <$> msi) with Some jv => Ok (JsonIetfVal jv) | None => Err EmitFailed end
  | Server.PROTO =>
      match msi !! "pb" with
      | Some (MBytes b) => Ok (ProtoBytes b)
      | Some _ => Err Panic
      | None => Err NoProtoBytes
      end
  | _ => Err UnknownEncoding
  end.

(** A field, or an item of a leaf-list; [Ok None] when there is none. *)
Definition readField (r : Redis) (t : tablePath) : mres (option TypedValue) :=
  let k := DbClient.fieldKey t in
  if (0 <=? index t)%Z then
    match HGet r k (field t +:+ "@") with
    | None => Ok None
    | Some val =>
        match str_split val "," !! Z.to_nat (index t) with
        | None => Err InvalidIndex_
        | Some item => Ok (Some (JsonIetfVal (quoted item)))
        end
    end
  else
    match HGet r k (field t) with
    | Some val => Ok (Some (JsonIetfVal (quoted val)))
    | None =>
        match HGet r k (field t +:+ "@") with
        | Some val =>
            match marshalList (str_split val ",") with
            | Some out => Ok (Some (JsonIetfVal out))
            | None => Err EmitFailed
            end
        | None => Ok None
        end
    end.

(** [tableData2TypedValue]; [Ok None] is no update received. *)
Fixpoint tableData2TypedValue (ts : list tablePath) (msi : mmap) (received : bool) : mres (option TypedValue) :=
  match ts with
  | [] => if received then try v := msi2TypedValue msi in Ok (Some v) else Ok None
  | t :: ts =>
      try r := redisOf (dbName t) in
      if DbClient.isField t then
        try v := readField r t in
        match v with
        | Some v => Ok (Some v)
        | None => tableData2TypedValue ts msi received
        end
      else
        try msi := tableData2Msi t false msi in
        tableData2TypedValue ts msi (received || (0 <? base.size msi))
  end.

(** The part of [Get] that reads Redis. *)
Definition getOne (now : Z) (path : option Path) : mres (list DbClient.Value) :=
  try ts := getDbtablePath path None in
  try v := tableData2TypedValue ts ∅ false in
  match v with
  | Some val => Ok [DbClient.mkValue (prefix c) path now false "" (Some val) [] None]
  | None =>
      if existsb (fun t => negb (String.eqb (tableKey t) "") || negb (String.eqb (field t) "")) ts
      then Err NoValidEntry else Ok []
  end.

Definition getRedis (now : Z) : mres (list DbClient.Value) :=
  try l := mapM_res (getOne now) (paths c) in Ok (concat l).
End Client.

#[global] Instance mval_eq_dec : EqDecision mval.
Proof. solve_decision. Defined.
End MixedDb.
