(* ===== verification/MixedSet.v ===== *)
(** The native data client (src/sonic_data_client/mixed_db_client.go), second part:
    writes to the application databases through swsscommon tables (retries, batches,
    the SetDB request), and the subscription to a table.

    A call on a swsscommon table either succeeds or panics with a message that the
    wrappers turn into an error; the oracle [swss] gives the result of the n-th call,
    and the calls are recorded with their results. *)

From S2P Require Import Prelude GnmiTypes DbTypes JsonClient DbClient MixedDb.
Import JsonClient MixedDb.
Open Scope go_scope.

Module MixedSet.

(** * Tables *)

Inductive tableKind := ProducerTable | ZmqTable | PlainTable.

#[global] Instance tableKind_eq_dec : EqDecision tableKind.
Proof. solve_decision. Defined.

Abbreviation fvs := (gmap string string).

(** The calls on tables. *)
Inductive SwssOp :=
| SetOp (kind : tableKind) (table key : string) (values : fvs)
| DelOp (kind : tableKind) (table key : string)
| BatchSet (table : string) (entries : list (string * fvs))
| BatchDel (table : string) (keys : list string).

(** The tables created so far, the calls with their results, and the delays slept. *)
Record Swss := mkSwss {
  tables : gmap string tableKind;
  calls : list (SwssOp * option string);
  sleeps : list N
}.

Inductive outcome := Done (err : option string) | Panicked.

(** [ConvertDbEntry]: strings as they are, leaf-lists joined under the name with an at
    sign, everything else dropped. *)
Definition strItems (l : list json) : list string := omap (fun j => match j with JStr s => Some s | _ => None end) l.

Definition ConvertDbEntry `{!MapRange} (inputData : jobj) : fvs :=
  fold_left (fun m '(k, v) =>
    match v with
    | JStr s => <[k := s]> m
    | JArr l => <[k +:+ "@" := str_join (strItems l) ","]> m
    | _ => m
    end) (range_of inputData) ∅.

Definition tableBatchEntry := (string * fvs)%type.

Section Set_.
Context `{!MapRange}.
Variable swss : nat -> option string.
Variable zmq : bool.

(** One call through a wrapper. *)
Definition call (op : SwssOp) (s : Swss) : option string * Swss :=
  let e := swss (length (calls s)) in
  (e, mkSwss (tables s) (calls s ++ [(op, e)]) (sleeps s)).

(** Where [GetTable] puts a table. *)
Definition kindOf (table : string) : tableKind :=
  if has_prefix table "DASH_HA_" then PlainTable
  else if has_prefix table "DASH_" && zmq then ZmqTable
  else ProducerTable.

Definition GetTable (table : string) (s : Swss) : tableKind * Swss :=
  match tables s !! table with
  | Some k => (k, s)
  | None => let k := kindOf table in (k, mkSwss (<[table := k]> (tables s)) (calls s) (sleeps s))
  end.

(** The errors that are worth another attempt. *)
Definition retryable (msg : string) : bool :=
  str_contains msg "zmq connection break" || str_contains msg "Resource temporarily unavailable".

(** [RetryHelper]: a nil ZMQ client cannot reconnect.  [fuel] bounds the attempts; the
    loop never uses more than seven. *)
Fixpoint retryLoop (fuel : nat) (retry retry_delay : N) (action : Swss -> option string * Swss) (s : Swss)
    : option (outcome * Swss) :=
  match fuel with
  | 0 => None
  | S fuel =>
      let '(err, s) := action s in
      match err with
      | Some msg =>
          if retryable msg && (retry <=? MAX_RETRY_COUNT)%N then
            if zmq then
              retryLoop fuel (retry + 1) (retry_delay * RETRY_DELAY_FACTOR) action
                (mkSwss (tables s) (calls s) (sleeps s ++ [retry_delay]))
            else Some (Panicked, s)
          else Some (Done err, s)
      | None => Some (Done None, s)
      end
  end.

Definition attempts : nat := 7.

Definition RetryHelper (action : Swss -> option string * Swss) (s : Swss) : outcome * Swss :=
  match retryLoop attempts 0 RETRY_DELAY_MILLISECOND action s with Some r => r | None => (Panicked, s) end.

Definition DbSetTable (table key : string) (values : fvs) (s : Swss) : outcome * Swss :=
  let '(kind, s) := GetTable table s in
  match kind with
  | PlainTable => let '(e, s) := call (SetOp PlainTable table key values) s in (Done e, s)
  | _ => RetryHelper (call (SetOp kind table key values)) s
  end.

Definition DbDelTable (table key : string) (s : Swss) : outcome * Swss :=
  let '(kind, s) := GetTable table s in
  match kind with
  | PlainTable => let '(e, s) := call (DelOp PlainTable table key) s in (Done e, s)
  | _ => RetryHelper (call (DelOp kind table key)) s
  end.

(** A loop that stops at the first error. *)
Fixpoint each {A} (f : A -> Swss -> outcome * Swss) (l : list A) (s : Swss) : outcome * Swss :=
  match l with
  | [] => (Done None, s)
  | a :: l =>
      let '(o, s) := f a s in
      match o with Done None => each f l s | _ => (o, s) end
  end.

Definition DbBatchSetTable (table : string) (entries : list tableBatchEntry) (s : Swss) : outcome * Swss :=
  match entries with
  | [] => (Done None, s)
  | [(k, v)] => DbSetTable table k v s
  | _ =>
      let '(kind, s) := GetTable table s in
      match kind with
      | ZmqTable => RetryHelper (call (BatchSet table entries)) s
      | _ => each (fun '(k, v) => DbSetTable table k v) entries s
      end
  end.

Definition DbBatchDelTable (table : string) (keys : list string) (s : Swss) : outcome * Swss :=
  match keys with
  | [] => (Done None, s)
  | [k] => DbDelTable table k s
  | _ =>
      let '(kind, s) := GetTable table s in
      match kind with
      | ZmqTable => RetryHelper (call (BatchDel table keys)) s
      | _ => each (DbDelTable table) keys s
      end
  end.

(** * The SetDB request *)

Variable inst : Instances.
Variable RedisDbMap : gmap string Redis.
Variable parseJson : string -> option json.
Variable c : MixedDbClient.

(** An error of the request, with the state so far. *)
Definition ofOutcome (o : outcome * Swss) : option mx_error * Swss :=
  (match o.1 with Done None => None | Done (Some m) => Some (MixedDb.Swss m) | Panicked => Some Panic end, o.2).

(** The keys of a removal. *)
Definition keysToRemove (t : tablePath) : mres (list string) :=
  try r := redisOf RedisDbMap c (dbName t) in
  try dbkeys :=
    if String.eqb (tableKey t) "" then
      of_cmd (Keys r (if String.eqb (dbName t) "COUNTERS_DB" && negb (DbClient.countersDbHasTableKeys (tableName t))
                      then tableName t else tableName t +:+ delimitor t +:+ "*"))
    else Ok [tableName t +:+ delimitor t +:+ tableKey t] in
  Ok ((fun k => trim_prefix k (tableName t +:+ delimitor t)) <$> dbkeys).

(** The entries of an addition. *)
Definition entriesToAdd (t : tablePath) : mres (list tableBatchEntry) :=
  if negb (String.eqb (tableKey t) "") then
    if negb (String.eqb (jsonValue t) "") then
      match parseJson (jsonValue t) with
      | None => Err ParseFailed
      | Some (JObj vtable) => Ok [(tableKey t, ConvertDbEntry vtable)]
      | Some _ => Err WrongType
      end
    else Ok [(tableKey t, ConvertDbEntry {["pb" := JStr (protoValue t)]})]
  else if String.eqb (jsonValue t) "" then Err NoValidValue
  else
    match parseJson (jsonValue t) with
    | None => Err ParseFailed
    | Some (JObj vtable) =>
        mapM_res (fun '(k, tres) => match tres with JObj vt => Ok (k, ConvertDbEntry vt) | _ => Err WrongType end)
          (range_of vtable)
    | Some _ => Err WrongType
    end.

(** [handleTableData] for one table path. *)
Definition handleOne (t : tablePath) (s : Swss) : option mx_error * Swss :=
  match redisOf RedisDbMap c (dbName t) with
  | Err e => (Some e, s)
  | Ok _ =>
      if DbClient.isField t then (Some CantUpdateField, s)
      else if (operation t =? opRemove)%Z then
        match keysToRemove t with
        | Err e => (Some e, s)
        | Ok ks => ofOutcome (DbBatchDelTable (tableName t) ks s)
        end
      else if (operation t =? opAdd)%Z then
        match entriesToAdd t with
        | Err e => (Some e, s)
        | Ok es => ofOutcome (DbBatchSetTable (tableName t) es s)
        end
      else (Some UnsupportedOperation, s)
  end.

Fixpoint handleTableData (ts : list tablePath) (s : Swss) : option mx_error * Swss :=
  match ts with
  | [] => (None, s)
  | t :: ts =>
      let '(e, s) := handleOne t s in
      match e with Some e => (Some e, s) | None => handleTableData ts s end
  end.

(** The loops over deletes (resolved beforehand) and over updates. *)
Fixpoint handleAll (l : list (list tablePath)) (s : Swss) : option mx_error * Swss :=
  match l with
  | [] => (None, s)
  | ts :: l =>
      let '(e, s) := handleTableData ts s in
      match e with Some e => (Some e, s) | None => handleAll l s end
  end.

Fixpoint setUpdates (us : list Update) (s : Swss) : option mx_error * Swss :=
  match us with
  | [] => (None, s)
  | u :: us =>
      match getDbtablePath inst RedisDbMap c (upd_path u) (upd_val u) with
      | Err e => (Some e, s)
      | Ok ts =>
          let '(e, s) := handleTableData ts s in
          match e with Some e => (Some e, s) | None => setUpdates us s end
      end
  end.

Definition SetDB (deletes : list (option Path)) (replace update : list Update) (s : Swss) : option mx_error * Swss :=
  match mapM_res (fun p => getDbtablePath inst RedisDbMap c p None) deletes with
  | Err e => (Some e, s)
  | Ok l =>
      let '(e, s) := handleAll l s in
      match e with
      | Some e => (Some e, s)
      | None => setUpdates (replace ++ update) s
      end
  end.
End Set_.

(** * The table subscription *)

(** One message of [dbSingleTableKeySubscribe]: a deletion is marked by a field of its own. *)
Definition onMessage `{!MapRange} (c : MixedDbClient) (t : tablePath) (prefixLen : nat) (msi : gmap string mval)
    (channel payload : string) (db : gmap string Redis)
    : mres (gmap string mval * option (gmap string mval)) :=
  let send (msi newMsi : gmap string mval) := Ok (msi, if 0 <? base.size newMsi then Some newMsi else None) in
  let k := strdrop prefixLen channel in
  let short := String.length channel <? prefixLen in
  if String.eqb payload "del" || String.eqb payload "hdel" then
    if negb (String.eqb (tableKey t) "") then send msi ∅
    else if short then Ok (msi, None)
    else send msi (<["delete" := MJson (JStr "null_value")]> {[k := MJson (JObj ∅)]})
  else if String.eqb payload "hset" then
    if negb (String.eqb (tableKey t) "") then
      try newMsi := tableData2Msi db c t false ∅ in
      if decide (newMsi = msi) then Ok (msi, None) else send newMsi newMsi
    else if short then Ok (msi, None)
    else
      try newMsi := tableData2Msi db c (DbClient.set_key t k) true ∅ in
      if decide (newMsi = msi) then Ok (msi, None) else send newMsi newMsi
  else Ok (msi, None).

(** [sendMsiData]: the value put on the queue. *)
Definition sendMsiData (marshal : jobj -> option string) (c : MixedDbClient) (path : Path) (now : Z)
    (msiData : gmap string mval) : mres DbClient.Value :=
  let sendDeleteField := bool_decide (is_Some (msiData !! "delete")) in
  try val := msi2TypedValue marshal c (delete "delete" msiData) in
  Ok (DbClient.mkValue (prefix c) (Some path) now false "" (Some val) (if sendDeleteField then [path] else []) None).
End MixedSet.
