(* ===== verification/MixedSetProofs.v ===== *)
(** Properties of the native data client's writes: bounded retries, independence of the
    kind of table and of batching, what a SetDB request writes, the round trip between
    JSON entries and Redis fields, and the flaws of the deletion messages. *)

From S2P Require Import Prelude GnmiTypes DbTypes JsonClient Server DbClient MixedDb MixedSet.
Import JsonClient MixedDb MixedSet.

(** * Retries *)

Section Retry.
Variables (swss : nat -> option string) (zmq : bool) (op : SwssOp).

Definition retryAt (n : nat) : bool := match swss n with Some m => retryable m | None => false end.

(** The calls of [k] retries after the first attempt, from call number [n] on. *)
Definition attemptsFrom (n k : nat) : list (SwssOp * option string) := (fun i => (op, swss (n + i))) <$> seq 0 (S k).
Definition delaysFrom (r k : nat) : list N := (fun i => 100 * 2 ^ N.of_nat (r + i))%N <$> seq 0 k.

(** How a run of the loop ends after [k] retries, [r] of them before. *)
Definition retryEnd (s : Swss) (r k : nat) (o : outcome) (s' : Swss) : Prop :=
  let n := length (calls s) in
  r + k <= 6 /\ tables s' = tables s /\ calls s' = calls s ++ attemptsFrom n k /\ sleeps s' = sleeps s ++ delaysFrom r k /\
  (forall i, i < k -> retryAt (n + i) = true) /\
  ((o = Done (swss (n + k)) /\ (retryAt (n + k) = false \/ r + k = 6)) \/
   (o = Panicked /\ zmq = false /\ retryAt (n + k) = true)).

Lemma fmap_seq_cons {A} (f : nat -> A) k : f <$> seq 0 (S k) = f 0 :: ((fun i => f (S i)) <$> seq 0 k).
Proof. rewrite <- cons_seq. csimpl. f_equal. rewrite <- fmap_S_seq, <- list_fmap_compose. done. Qed.

Lemma attemptsFrom_S n k : attemptsFrom n (S k) = (op, swss n) :: attemptsFrom (S n) k.
Proof.
  unfold attemptsFrom. rewrite (fmap_seq_cons _ (S k)), Nat.add_0_r. f_equal.
  apply list_fmap_ext. intros ? i _. by rewrite Nat.add_succ_r.
Qed.

Lemma delaysFrom_S r k : delaysFrom r (S k) = (100 * 2 ^ N.of_nat r)%N :: delaysFrom (S r) k.
Proof.
  unfold delaysFrom. rewrite (fmap_seq_cons _ k), Nat.add_0_r. f_equal.
  apply list_fmap_ext. intros ? i _. by rewrite Nat.add_succ_r.
Qed.

Lemma retryLoop_ends fuel : forall r s, r + S fuel = 7 ->
  exists k o s', retryLoop zmq (S fuel) (N.of_nat r) (100 * 2 ^ N.of_nat r) (call swss op) s = Some (o, s') /\
    retryEnd s r k o s'.
Proof.
  induction fuel as [|fuel IH]; intros r s Hr; cbn [retryLoop];
    unfold call at 1; set (n := length (calls s)); unfold retryEnd; fold n.
  - assert ((N.of_nat r <=? MAX_RETRY_COUNT)%N = false) as -> by (unfold MAX_RETRY_COUNT; apply N.leb_gt; lia).
    exists 0, (Done (swss n)), (mkSwss (tables s) (calls s ++ [(op, swss n)]) (sleeps s)). split; [destruct (swss n); by rewrite ?andb_false_r|].
    rewrite !Nat.add_0_r. split_and!; [lia|done|cbn; by rewrite Nat.add_0_r|cbn; by rewrite app_nil_r|lia|].
    left. split; [done|]. right. lia.
  - assert ((N.of_nat r <=? MAX_RETRY_COUNT)%N = true) as -> by (unfold MAX_RETRY_COUNT; apply N.leb_le; lia).
    destruct (retryAt n) eqn:Er.
    + unfold retryAt in Er. destruct (swss n) as [m|] eqn:Em; [|done]. rewrite Er. cbn [andb].
      destruct zmq eqn:Hz.
      * destruct (IH (S r) (mkSwss (tables s) (calls s ++ [(op, Some m)]) (sleeps s ++ [(100 * 2 ^ N.of_nat r)%N]))) as (k & o & s' & Hl & He);
          [lia|].
        exists (S k), o, s'. split.
        { rewrite <- Hl. cbn [tables calls sleeps]. unfold RETRY_DELAY_FACTOR.
          replace (N.of_nat (S r)) with (N.of_nat r + 1)%N by lia. rewrite N.pow_add_r. by replace (100 * (2 ^ N.of_nat r * 2 ^ 1))%N with (100 * 2 ^ N.of_nat r * 2)%N by lia. }
        unfold retryEnd in He. cbn [tables calls sleeps] in He. rewrite length_app in He. cbn [length] in He. fold n in He.
        rewrite Nat.add_1_r in He. destruct He as (H1 & H2 & H3 & H4 & H5 & H6).
        split_and!; [lia|done| | | |].
        { by rewrite H3, attemptsFrom_S, Em, <- app_assoc. }
        { by rewrite H4, delaysFrom_S, <- app_assoc. }
        { intros [|i] Hi; [by rewrite Nat.add_0_r; unfold retryAt; rewrite Em|]. rewrite <- Nat.add_succ_comm. apply H5. lia. }
        { rewrite <- Nat.add_succ_comm in *. replace (r + S k) with (S r + k) by lia. by rewrite Hz in H6. }
      * exists 0, Panicked. eexists. split; [done|]. rewrite !Nat.add_0_r.
        split_and!; [lia|done|cbn; by rewrite Nat.add_0_r, Em|cbn; by rewrite app_nil_r|lia|].
        right. split_and!; [done|done|]. unfold retryAt. by rewrite Em.
    + exists 0, (Done (swss n)), (mkSwss (tables s) (calls s ++ [(op, swss n)]) (sleeps s)). split.
      { unfold retryAt in Er. destruct (swss n) as [m|]; [|done]. by rewrite Er. }
      rewrite !Nat.add_0_r. split_and!; [lia|done|cbn; by rewrite Nat.add_0_r|cbn; by rewrite app_nil_r|lia|].
      left. split; [done|]. by left.
Qed.

Lemma RetryHelper_ends s : exists k o s', RetryHelper zmq (call swss op) s = (o, s') /\ retryEnd s 0 k o s'.
Proof.
  destruct (retryLoop_ends 6 0 s eq_refl) as (k & o & s' & H & He). exists k, o, s'. split; [|done].
  unfold RetryHelper, attempts. change RETRY_DELAY_MILLISECOND with (100 * 2 ^ N.of_nat 0)%N. change 0%N with (N.of_nat 0).
  by rewrite H.
Qed.
End Retry.

(** The retry loop always ends: it makes at most seven attempts and sleeps at most
    6.3 seconds, doubling from 100 ms; it goes on only after an error that is worth
    retrying, and returns the result of the last attempt.  Without a ZMQ client such
    an error is a panic. *)
Theorem retry_bounded swss zmq op s :
  exists k o s', retryLoop zmq attempts 0 RETRY_DELAY_MILLISECOND (call swss op) s = Some (o, s') /\
    retryEnd swss zmq op s 0 k o s' /\ (foldr N.add 0 (delaysFrom 0 k) <= 6300)%N.
Proof.
  destruct (retryLoop_ends swss zmq op 6 0 s eq_refl) as (k & o & s' & H & He). exists k, o, s'.
  split; [exact H|]. split; [exact He|]. destruct He as [Hk _].
  do 7 (destruct k as [|k]; [vm_compute; discriminate|]). lia.
Qed.

(** * Effects *)

(** A write to a key of a table: new fields or removal. *)
Abbreviation effect := (string * string * option fvs)%type.

Definition effectsOf (op : SwssOp) : list effect :=
  match op with
  | SetOp _ t k v => [(t, k, Some v)]
  | DelOp _ t k => [(t, k, None)]
  | BatchSet t es => (fun '(k, v) => (t, k, Some v)) <$> es
  | BatchDel t ks => (fun k => (t, k, None)) <$> ks
  end.

(** The writes of the calls that succeeded. *)
Definition effects (s : Swss) : list effect :=
  '(op, e) ← calls s; match e with None => effectsOf op | Some _ => [] end.

Section Effects.
Context {mr : MapRange}.
Variables (swss : nat -> option string) (zmq : bool).

(** A computation writes [w]: all of it on success, an initial part on an error, and
    it succeeds when no call fails. *)
Definition writes {E} (f : Swss -> option E * Swss) (w : list effect) : Prop :=
  forall s, exists w', w' `prefix_of` w /\ effects (f s).2 = effects s ++ w' /\
    ((f s).1 = None -> w' = w) /\ ((forall n, swss n = None) -> (f s).1 = None).

Definition ofO (o : outcome * Swss) : option (option string) * Swss :=
  (match o.1 with Done None => None | Done e => Some e | Panicked => Some None end, o.2).

Lemma effects_app l l' t sl : effects (mkSwss t (l ++ l') sl) = effects (mkSwss t l sl) ++ effects (mkSwss t l' sl).
Proof. unfold effects. cbn [calls]. by rewrite bind_app. Qed.

Lemma effects_calls s s' : calls s' = calls s -> effects s' = effects s.
Proof. unfold effects. by intros ->. Qed.

Lemma effects_attempts op n k :
  (forall i, i < k -> retryAt swss (n + i) = true) ->
  ('(op, e) ← attemptsFrom swss op n k; match e with None => effectsOf op | Some _ => [] end) =
    match swss (n + k) with None => effectsOf op | Some _ => [] end.
Proof.
  revert n. induction k as [|k IH]; intros n H.
  - unfold attemptsFrom. cbn. rewrite Nat.add_0_r. destruct (swss n); by rewrite ?app_nil_r.
  - rewrite attemptsFrom_S, bind_cons. cbn beta iota. rewrite IH by (intros i Hi; rewrite Nat.add_succ_comm; apply H; lia).
    rewrite Nat.add_succ_comm. specialize (H 0 ltac:(lia)). rewrite Nat.add_0_r in H. unfold retryAt in H.
    by destruct (swss n).
Qed.

Lemma retry_writes op : writes (fun s => ofO (RetryHelper zmq (call swss op) s)) (effectsOf op).
Proof.
  intros s. destruct (RetryHelper_ends swss zmq op s) as (k & o & s' & -> & He).
  destruct He as (Hk & _ & Hc & _ & Hr & Ho). cbn [ofO fst snd].
  exists (match swss (length (calls s) + k) with None => effectsOf op | Some _ => [] end).
  assert (effects s' = effects s ++ match swss (length (calls s) + k) with None => effectsOf op | Some _ => [] end) as Heff.
  { unfold effects. by rewrite Hc, bind_app, effects_attempts. }
  split_and!; [destruct (swss _); [apply prefix_nil|done]|done| |].
  - destruct Ho as [[-> _]|[-> _]]; [|done]. by destruct (swss _).
  - intros Hall. destruct Ho as [[-> _]|(-> & _ & Hx)]; [by rewrite Hall|]. unfold retryAt in Hx. by rewrite Hall in Hx.
Qed.

Lemma call_writes op : writes (fun s => ofO (let '(e, s) := call swss op s in (Done e, s))) (effectsOf op).
Proof.
  intros s. unfold call, ofO. cbn [fst snd].
  exists (match swss (length (calls s)) with None => effectsOf op | Some _ => [] end).
  split_and!.
  - destruct (swss _); [apply prefix_nil|done].
  - unfold effects. cbn [calls]. rewrite bind_app, bind_cons. cbn. destruct (swss _); by rewrite ?app_nil_r.
  - by destruct (swss _).
  - intros Hall. by rewrite Hall.
Qed.

(** The table registry does not matter for the effects. *)
Lemma GetTable_effects table s : effects (GetTable zmq table s).2 = effects s.
Proof. unfold GetTable. by destruct (tables s !! table). Qed.

Lemma writes_after_GetTable {E} table (f : tableKind -> Swss -> option E * Swss) w :
  (forall k, writes (f k) w) -> writes (fun s => let '(k, s) := GetTable zmq table s in f k s) w.
Proof.
  intros H s. pose proof (GetTable_effects table s) as Hg. destruct (GetTable zmq table s) as [k s1].
  cbn [snd] in Hg. rewrite <- Hg. apply H.
Qed.

Lemma writes_nil {E} : writes (fun s => (@None E, s)) [].
Proof. intros s. exists []. by rewrite app_nil_r. Qed.

Lemma writes_seq {E} (f g : Swss -> option E * Swss) w1 w2 :
  writes f w1 -> writes g w2 ->
  writes (fun s => let '(e, s) := f s in match e with Some e => (Some e, s) | None => g s end) (w1 ++ w2).
Proof.
  intros Hf Hg s. destruct (Hf s) as (u & Hu & Eu & Nu & Au). destruct (f s) as [[e|] s1]; cbn [fst snd] in *.
  - exists u. split_and!; [by apply prefix_app_r|done|done|]. intros Hall. by specialize (Au Hall).
  - destruct (Hg s1) as (v & Hv & Ev & Nv & Av). exists (u ++ v). rewrite (Nu eq_refl) in *.
    split_and!; [destruct Hv as [x ->]; exists x; by rewrite app_assoc|by rewrite Ev, Eu, app_assoc|intros H; by rewrite (Nv H)|done].
Qed.

Lemma writes_ext {E} (f g : Swss -> option E * Swss) w : (forall s, f s = g s) -> writes f w -> writes g w.
Proof. intros H Hf s. rewrite <- H. apply Hf. Qed.

Lemma writes_ofO (f : Swss -> outcome * Swss) w :
  writes (fun s => ofO (f s)) w -> writes (fun s => ofOutcome (f s)) w.
Proof.
  intros H s. destruct (H s) as (u & Hu & Eu & Nu & Au). exists u. unfold ofO, ofOutcome in *. cbn [fst snd] in *.
  split_and!; [done|done| |].
  - intros Hx. apply Nu. by destruct (f s).1 as [[]|].
  - intros Hall. specialize (Au Hall). by destruct (f s).1 as [[]|].
Qed.

Lemma DbSetTable_writes table k v : writes (fun s => ofO (DbSetTable swss zmq table k v s)) [(table, k, Some v)].
Proof.
  unfold DbSetTable. refine (writes_ext _ _ _ _ (writes_after_GetTable table
    (fun kind s => ofO (match kind with
      | PlainTable => let '(e, s) := call swss (SetOp PlainTable table k v) s in (Done e, s)
      | _ => RetryHelper zmq (call swss (SetOp kind table k v)) s end)) _ _)).
  - intros s. by destruct (GetTable zmq table s).
  - intros kind. destruct kind; [apply (retry_writes (SetOp _ table k v))..|apply (call_writes (SetOp _ table k v))].
Qed.

Lemma DbDelTable_writes table k : writes (fun s => ofO (DbDelTable swss zmq table k s)) [(table, k, None)].
Proof.
  unfold DbDelTable. refine (writes_ext _ _ _ _ (writes_after_GetTable table
    (fun kind s => ofO (match kind with
      | PlainTable => let '(e, s) := call swss (DelOp PlainTable table k) s in (Done e, s)
      | _ => RetryHelper zmq (call swss (DelOp kind table k)) s end)) _ _)).
  - intros s. by destruct (GetTable zmq table s).
  - intros kind. destruct kind; [apply (retry_writes (DelOp _ table k))..|apply (call_writes (DelOp _ table k))].
Qed.

Lemma each_writes {A} (f : A -> Swss -> outcome * Swss) (w : A -> list effect) l :
  (forall a, writes (fun s => ofO (f a s)) (w a)) -> writes (fun s => ofO (each f l s)) (a ← l; w a).
Proof.
  intros H. induction l as [|a l IH]; [apply writes_nil|]. rewrite bind_cons.
  refine (writes_ext _ _ _ _ (writes_seq _ _ _ _ (H a) IH)). intros s. cbn [each]. unfold ofO.
  by destruct (f a s) as [[[]|] s1].
Qed.

Lemma DbBatchSetTable_writes table es :
  writes (fun s => ofO (DbBatchSetTable swss zmq table es s)) ((fun '(k, v) => (table, k, Some v)) <$> es).
Proof.
  assert (forall es, writes (fun s => ofO (each (fun '(k, v) => DbSetTable swss zmq table k v) es s))
            ((fun '(k, v) => (table, k, Some v)) <$> es)) as Heach.
  { intros l. replace ((fun '(k, v) => (table, k, Some v)) <$> l) with ('(k, v) ← l; [(table, k, Some (v : fvs))])
      by (induction l as [|[] l IH]; [done|]; by rewrite bind_cons, IH).
    apply each_writes. intros [k v]. apply DbSetTable_writes. }
  destruct es as [|[k v] [|e2 es]]; [apply writes_nil|apply DbSetTable_writes|].
  unfold DbBatchSetTable. refine (writes_ext _ _ _ _ (writes_after_GetTable table
    (fun kind s => ofO (match kind with
      | ZmqTable => RetryHelper zmq (call swss (BatchSet table ((k, v) :: e2 :: es))) s
      | _ => each (fun '(k, v) => DbSetTable swss zmq table k v) ((k, v) :: e2 :: es) s end)) _ _)).
  - intros s. by destruct (GetTable zmq table s).
  - intros kind. destruct kind; [apply Heach|apply (retry_writes (BatchSet table ((k, v) :: e2 :: es)))|apply Heach].
Qed.

Lemma DbBatchDelTable_writes table ks :
  writes (fun s => ofO (DbBatchDelTable swss zmq table ks s)) ((fun k => (table, k, None)) <$> ks).
Proof.
  assert (forall ks, writes (fun s => ofO (each (DbDelTable swss zmq table) ks s)) ((fun k => (table, k, None)) <$> ks)) as Heach.
  { intros l. replace ((fun k => (table, k, None)) <$> l) with (k ← l; [(table, k, @None fvs)])
      by (induction l as [|k l IH]; [done|]; by rewrite bind_cons, IH).
    apply each_writes. apply DbDelTable_writes. }
  destruct ks as [|k [|k2 ks]]; [apply writes_nil|apply DbDelTable_writes|].
  unfold DbBatchDelTable. refine (writes_ext _ _ _ _ (writes_after_GetTable table
    (fun kind s => ofO (match kind with
      | ZmqTable => RetryHelper zmq (call swss (BatchDel table (k :: k2 :: ks))) s
      | _ => each (DbDelTable swss zmq table) (k :: k2 :: ks) s end)) _ _)).
  - intros s. by destruct (GetTable zmq table s).
  - intros kind. destruct kind; [apply Heach|apply (retry_writes (BatchDel table (k :: k2 :: ks)))|apply Heach].
Qed.

(** * The SetDB request *)

Variables (inst : Instances) (db : gmap string Redis) (parseJson : string -> option json) (c : MixedDbClient).

(** The writes a table path stands for. *)
Definition tableWrites (t : tablePath) : mres (list effect) :=
  match redisOf db c (dbName t) with
  | Err e => Err e
  | Ok _ =>
      if DbClient.isField t then Err CantUpdateField
      else if (operation t =? opRemove)%Z then
        match keysToRemove db c t with Ok ks => Ok ((fun k => (tableName t, k, None)) <$> ks) | Err e => Err e end
      else if (operation t =? opAdd)%Z then
        match entriesToAdd parseJson t with Ok es => Ok ((fun '(k, v) => (tableName t, k, Some v)) <$> es) | Err e => Err e end
      else Err UnsupportedOperation
  end.

Definition pathWrites (ts : list tablePath) : mres (list effect) :=
  match mapM_res tableWrites ts with Ok l => Ok (concat l) | Err e => Err e end.

Definition updateWrites (u : Update) : mres (list effect) :=
  match getDbtablePath inst db c (upd_path u) (upd_val u) with Ok ts => pathWrites ts | Err e => Err e end.

(** The writes of a request: the deletes, then the replacements and updates, in order. *)
Definition requestWrites (deletes : list (option Path)) (replace update : list Update) : mres (list effect) :=
  match mapM_res (fun p => getDbtablePath inst db c p None) deletes with
  | Err e => Err e
  | Ok l =>
      match mapM_res pathWrites l, mapM_res updateWrites (replace ++ update) with
      | Ok ds, Ok us => Ok (concat ds ++ concat us)
      | Err e, _ => Err e
      | _, Err e => Err e
      end
  end.

Lemma handleOne_writes t w : tableWrites t = Ok w -> writes (handleOne swss zmq db parseJson c t) w.
Proof.
  unfold tableWrites, handleOne. destruct (redisOf db c (dbName t)); [|done]. destruct (DbClient.isField t); [done|].
  destruct (operation t =? opRemove)%Z.
  - destruct (keysToRemove db c t) as [ks|]; [|done]. intros [= <-]. apply writes_ofO, DbBatchDelTable_writes.
  - destruct (operation t =? opAdd)%Z; [|done].
    destruct (entriesToAdd parseJson t) as [es|]; [|done]. intros [= <-]. apply writes_ofO, DbBatchSetTable_writes.
Qed.

Lemma mapM_res_cons_Ok {E A B} (f : A -> res E B) a l bs :
  mapM_res f (a :: l) = Ok bs -> exists b bs', bs = b :: bs' /\ f a = Ok b /\ mapM_res f l = Ok bs'.
Proof. cbn. destruct (f a) as [b|]; [|done]. destruct (mapM_res f l) as [bs'|]; [|done]. intros [= <-]. by exists b, bs'. Qed.

Lemma handleTableData_writes ts : forall w, pathWrites ts = Ok w -> writes (handleTableData swss zmq db parseJson c ts) w.
Proof.
  unfold pathWrites. induction ts as [|t ts IH]; intros w Hw; [injection Hw as <-; apply writes_nil|].
  destruct (mapM_res tableWrites (t :: ts)) as [l|] eqn:E; [|done]. injection Hw as <-.
  apply mapM_res_cons_Ok in E as (b & bs & -> & Hb & Hbs). cbn [concat].
  refine (writes_ext _ _ _ _ (writes_seq _ _ _ _ (handleOne_writes _ _ Hb) (IH (concat bs) _))); [done|by rewrite Hbs].
Qed.

Lemma handleAll_writes l : forall ws, mapM_res pathWrites l = Ok ws -> writes (handleAll swss zmq db parseJson c l) (concat ws).
Proof.
  induction l as [|ts l IH]; intros ws Hw; [injection Hw as <-; apply writes_nil|].
  apply mapM_res_cons_Ok in Hw as (b & bs & -> & Hb & Hbs).
  by refine (writes_ext _ _ _ _ (writes_seq _ _ _ _ (handleTableData_writes _ _ Hb) (IH _ Hbs))).
Qed.

Lemma setUpdates_writes us : forall ws, mapM_res updateWrites us = Ok ws -> writes (setUpdates swss zmq inst db parseJson c us) (concat ws).
Proof.
  induction us as [|u us IH]; intros ws Hw; [injection Hw as <-; apply writes_nil|].
  apply mapM_res_cons_Ok in Hw as (b & bs & -> & Hb & Hbs). unfold updateWrites in Hb. cbn [setUpdates].
  destruct (getDbtablePath inst db c (upd_path u) (upd_val u)) as [ts|]; [|done].
  by refine (writes_ext _ _ _ _ (writes_seq _ _ _ _ (handleTableData_writes _ _ Hb) (IH _ Hbs))).
Qed.

(** C2. A well-formed SetDB request writes exactly what its paths and values stand for,
    deletes first, then replacements, then updates, whatever kind of table each goes
    to and whether it is batched or not; when a call fails for good an initial part
    of these writes has been done; when no call fails the request succeeds. *)
Theorem setDB_refines deletes replace update w :
  requestWrites deletes replace update = Ok w -> writes (SetDB swss zmq inst db parseJson c deletes replace update) w.
Proof.
  unfold requestWrites, SetDB. destruct (mapM_res _ deletes) as [l|]; [|done].
  destruct (mapM_res pathWrites l) as [ds|] eqn:Ed; [|done].
  destruct (mapM_res updateWrites _) as [us|] eqn:Eu; [|done]. intros [= <-].
  by refine (writes_ext _ _ _ _ (writes_seq _ _ _ _ (handleAll_writes _ _ Ed) (setUpdates_writes _ _ Eu))).
Qed.
End Effects.

(** * Entries and fields *)

(** A map built by inserting what [g] makes of each item. *)
Definition insertAll {A V} (g : A -> option (string * V)) (l : list A) (m : gmap string V) : gmap string V :=
  fold_left (fun m x => match g x with Some (k, v) => <[k := v]> m | None => m end) l m.

(** The value of a key that all items agree on, and of a key that no item has. *)
Lemma insertAll_lookup {A V} (g : A -> option (string * V)) (l : list A) k v m :
  (forall x v', x ∈ l -> g x = Some (k, v') -> v' = v) -> (exists x, x ∈ l /\ g x = Some (k, v)) ->
  insertAll g l m !! k = Some v.
Proof.
  unfold insertAll. induction l as [|a l IH] using rev_ind; [intros _ (x & Hx & _); set_solver|].
  intros Hall (x & Hx & Hg). rewrite fold_left_app. cbn [fold_left].
  destruct (g a) as [[k' v']|] eqn:Ea.
  - destruct (decide (k' = k)) as [->|Hne].
    + rewrite lookup_insert_eq. f_equal. apply (Hall a); [set_solver|done].
    + rewrite lookup_insert_ne by done. apply IH; [intros y ? ?; apply Hall; set_solver|].
      exists x. split; [|done]. apply elem_of_app in Hx as [?|Hx]; [done|].
      apply list_elem_of_singleton in Hx as ->. congruence.
  - apply IH; [intros y ? ?; apply Hall; set_solver|]. exists x. split; [|done].
    apply elem_of_app in Hx as [?|Hx]; [done|]. apply list_elem_of_singleton in Hx as ->. congruence.
Qed.

Lemma insertAll_none {A V} (g : A -> option (string * V)) (l : list A) k m :
  (forall x v', x ∈ l -> g x <> Some (k, v')) -> insertAll g l m !! k = m !! k.
Proof.
  unfold insertAll. induction l as [|a l IH] using rev_ind; [done|]. intros Hno. rewrite fold_left_app. cbn [fold_left].
  assert (forall x v', x ∈ l -> g x <> Some (k, v')) as Hl by (intros x v' Hx; apply Hno; set_solver).
  destruct (g a) as [[k' v']|] eqn:Ea; [|by apply IH].
  rewrite lookup_insert_ne; [by apply IH|]. intros ->. apply (Hno a v'); [set_solver|done].
Qed.

Section RoundTrip.
Context {mr : MapRange}.

Definition comma : Ascii.ascii := Ascii.ascii_of_nat 44.

(** Values that Redis fields can hold: a string, or a non-empty list of strings without
    commas. *)
Inductive storable : json -> Prop :=
| storable_str s : storable (JStr s)
| storable_list l : l <> [] -> Forall (str_free comma) l -> storable (JArr (JStr <$> l)).

(** Entries whose names do not clash with the encoding. *)
Definition wfEntry (e : jobj) : Prop :=
  forall k v, e !! k = Some v -> k <> "NULL" /\ has_suffix k "@" = false /\ storable v.

(** What [ConvertDbEntry] makes of a field. *)
Definition toField (kv : string * json) : option (string * string) :=
  match kv.2 with
  | JStr s => Some (kv.1, s)
  | JArr l => Some (kv.1 +:+ "@", str_join (strItems l) ",")
  | _ => None
  end.

Lemma ConvertDbEntry_insertAll e : ConvertDbEntry e = insertAll toField (range_of e) ∅.
Proof.
  unfold ConvertDbEntry, insertAll. generalize (∅ : fvs) as m. induction (range_of e) as [|[k v] l IH]; intros m; [done|].
  cbn [fold_left]. rewrite <- IH. by destruct v.
Qed.

Lemma entryJson_insertAll m : entryJson m = insertAll (fun kv => fieldJson kv.1 kv.2) (range_of m) ∅.
Proof.
  unfold entryJson, insertAll. generalize (∅ : jobj) as j. induction (range_of m) as [|[k v] l IH]; intros j; [done|].
  cbn [fold_left fst snd]. by rewrite <- IH.
Qed.

Lemma strItems_fmap l : strItems (JStr <$> l) = l.
Proof. induction l as [|s l IH]; [done|]. unfold strItems in *. csimpl. by rewrite IH. Qed.

Lemma has_suffix_nil p : p <> "" -> has_suffix "" p = false.
Proof. by destruct p. Qed.

(** The field of a storable value, and the way back. *)
Lemma toField_Some k v : storable v -> exists f x, toField (k, v) = Some (f, x).
Proof. destruct 1; by eexists _, _. Qed.

Lemma fieldJson_toField k v f x :
  k <> "NULL" -> has_suffix k "@" = false -> storable v -> toField (k, v) = Some (f, x) -> fieldJson f x = Some (k, v).
Proof.
  intros Hn Ha Hs Hf. destruct Hs as [s|l Hl Hfree]; unfold toField in Hf; cbn [fst snd] in Hf; injection Hf as <- <-; unfold fieldJson.
  - rewrite (proj2 (String.eqb_neq k "NULL") Hn), Ha. done.
  - assert (String.eqb (k +:+ "@") "NULL" = false) as ->.
    { apply String.eqb_neq. intros H. assert (has_suffix "NULL" "@" = true) by (rewrite <- H; apply has_suffix_app). done. }
    rewrite has_suffix_app, trim_suffix_app, strItems_fmap. 
    assert (str_split (str_join l ",") "," = l) as -> by (by apply (split_join comma)). done.
Qed.

(** Different fields of an entry go to different Redis fields. *)
Lemma toField_inj k1 v1 k2 v2 f x1 x2 :
  has_suffix k1 "@" = false -> has_suffix k2 "@" = false ->
  toField (k1, v1) = Some (f, x1) -> toField (k2, v2) = Some (f, x2) -> k1 = k2.
Proof.
  intros H1 H2. unfold toField. cbn [fst snd].
  destruct v1, v2; intros [= <- <-] [= Hf _]; try done; subst;
    rewrite ?has_suffix_app in *; try done. by apply str_app_inj_r in Hf.
Qed.

(** An entry written to Redis and read back is the same JSON: strings as fields and
    leaf-lists as comma-joined fields whose names end in an at sign, for every visiting
    order of the maps. *)
Theorem entry_roundtrip e : wfEntry e -> entryJson (ConvertDbEntry e) = e.
Proof.
  intros Hwf. apply map_eq. intros k. rewrite entryJson_insertAll.
  assert (forall f x, ConvertDbEntry e !! f = Some x -> exists k v, e !! k = Some v /\ toField (k, v) = Some (f, x)) as Hback.
  { intros f x Hf. rewrite ConvertDbEntry_insertAll in Hf. destruct (decide (List.Exists (fun kv => fst <$> toField kv = Some f) (range_of e))) as [Hex|Hno].
    - apply Exists_exists in Hex as ([k1 v1] & Hin & Hk1). apply fmap_Some in Hk1 as ([f1 x1] & Ht & ->).
      apply elem_of_range in Hin. rewrite (insertAll_lookup _ _ f1 x1) in Hf.
      + injection Hf as ->. by exists k1, v1.
      + intros [k2 v2] x2 Hin2 Ht2. apply elem_of_range in Hin2. cbn [fst] in *.
        assert (k1 = k2) as -> by (eapply toField_inj; [by apply (Hwf k1 v1)|by apply (Hwf k2 v2)|done|done]). congruence.
      + exists (k1, v1). split; [by apply elem_of_range|done].
    - rewrite insertAll_none in Hf; [done|]. intros y v' Hy Hg. apply Hno, Exists_exists. exists y. by rewrite Hg. }
  assert (forall k v f x, e !! k = Some v -> toField (k, v) = Some (f, x) -> ConvertDbEntry e !! f = Some x) as Hfor.
  { intros k1 v1 f x Hk1 Ht. rewrite ConvertDbEntry_insertAll. apply insertAll_lookup.
    - intros [k2 v2] x2 Hin2 Ht2. apply elem_of_range in Hin2.
      assert (k1 = k2) as -> by (eapply toField_inj; [by apply (Hwf k1 v1)|by apply (Hwf k2 v2)|done|done]). congruence.
    - exists (k1, v1). split; [by apply elem_of_range|done]. }
  destruct (e !! k) as [v|] eqn:Ek.
  - destruct (Hwf k v Ek) as (Hn & Ha & Hs). destruct (toField_Some k v Hs) as (f & x & Ht). apply insertAll_lookup.
    + intros [f' x'] v' Hin Hj. apply elem_of_range, Hback in Hin as (k' & v'' & Hk' & Ht'). cbn [fst snd] in Hj.
      destruct (Hwf k' v'' Hk') as (Hn' & Ha' & Hs'). rewrite (fieldJson_toField k' v'' f' x') in Hj by done. congruence.
    + exists (f, x). split; [by apply elem_of_range, (Hfor k v)|]. by apply fieldJson_toField.
  - rewrite insertAll_none; [done|]. intros [f' x'] v' Hin Hj. apply elem_of_range, Hback in Hin as (k' & v'' & Hk' & Ht').
    destruct (Hwf k' v'' Hk') as (Hn' & Ha' & Hs'). cbn [fst snd] in Hj. rewrite (fieldJson_toField k' v'' f' x') in Hj by done. congruence.
Qed.

(** An empty leaf-list does not survive: it is read back as a list with an empty item. *)
Theorem empty_list_not_kept : entryJson (ConvertDbEntry {["l" := JArr []]}) = {["l" := JArr [JStr ""]]}.
Proof.
  rewrite entryJson_insertAll, ConvertDbEntry_insertAll.
  assert (range_of {["l" := JArr []]} = [("l", JArr [])]) as ->.
  { apply Permutation_singleton_r. rewrite range_of_perm. by rewrite map_to_list_singleton. }
  change (insertAll toField [("l", JArr [])] ∅) with ({["l@" := ""]} : fvs).
  assert (range_of ({["l@" := ""]} : fvs) = [("l@", "")]) as ->.
  { apply Permutation_singleton_r. rewrite range_of_perm. by rewrite map_to_list_singleton. }
  done.
Qed.
End RoundTrip.

(** * Deletions in a table subscription *)

(** The message that a subscriber receives for a payload. *)
Definition delivered (marshal : jobj -> option string) (c : MixedDbClient) (path : Path) (now : Z) (msi : gmap string mval)
    : option DbClient.SubscribeResponse :=
  match sendMsiData marshal c path now msi with
  | Ok v => match DbClient.ValToResp v with Ok r => Some r | Err _ => None end
  | Err _ => None
  end.

(** A payload with a deletion mark is delivered as the deletion of the whole subscribed
    path; which key was deleted, and every update merged into the same payload, is
    lost. *)
Theorem deletion_hides_payload marshal c path now msi r :
  is_Some (msi !! "delete") -> delivered marshal c path now msi = Some r ->
  r = DbClient.UpdateResponse (DbClient.mkNotification now (prefix c) [] [path]).
Proof.
  intros Hd. unfold delivered, sendMsiData. destruct (msi2TypedValue _ _ _) as [v|]; [|done].
  rewrite bool_decide_true by done. by intros [= <-].
Qed.

(** * Witnesses *)

Definition demo_inst : Instances := mkInstances (fun _ => Some ["APPL_DB"]) (Some [("", "")]) (fun _ _ => Some ":").
Definition demo_client : MixedDbClient :=
  mkMixed (Some (mkPath "sonic-db" "" [ename "APPL_DB"; ename "localhost"])) [] Server.JSON_IETF "APPL_DB" "sonic-db" ("", "") true.
Definition demo_redis : gmap string Redis := {["::APPL_DB" := serve {["DASH_VNET:v1" := {["vni" := "1"]}]}]}.
Definition demo_parse (s : string) : option json := if String.eqb s "x" then Some (JObj {["vni" := JStr "2"]}) else None.

Lemma setDB_refines_witness :
  exists w, requestWrites demo_inst demo_redis demo_parse demo_client [Some (mkPath "" "" [ename "DASH_VNET"; ename "v1"])] []
      [mkUpdate (Some (mkPath "" "" [ename "DASH_VNET"; ename "v2"])) (Some (JsonIetfVal "x"))] = Ok w /\
    effects (SetDB (fun _ => None) true demo_inst demo_redis demo_parse demo_client
      [Some (mkPath "" "" [ename "DASH_VNET"; ename "v1"])] []
      [mkUpdate (Some (mkPath "" "" [ename "DASH_VNET"; ename "v2"])) (Some (JsonIetfVal "x"))] (mkSwss ∅ [] [])).2 = w.
Proof.
  assert (exists w, requestWrites demo_inst demo_redis demo_parse demo_client [Some (mkPath "" "" [ename "DASH_VNET"; ename "v1"])] []
      [mkUpdate (Some (mkPath "" "" [ename "DASH_VNET"; ename "v2"])) (Some (JsonIetfVal "x"))] = Ok w) as [w Hw]
    by (eexists; vm_compute; reflexivity).
  exists w. split; [exact Hw|].
  destruct (setDB_refines (fun _ => None) true demo_inst demo_redis demo_parse demo_client _ _ _ _ Hw (mkSwss ∅ [] [])) as (w' & _ & He & Hn & Ha).
  rewrite He, (Hn (Ha (fun n => eq_refl))). reflexivity.
Defined.

Lemma entry_roundtrip_witness :
  entryJson (ConvertDbEntry {["name" := JStr "Ethernet0"; "vlans" := JArr [JStr "1"; JStr "2"]]}) =
    {["name" := JStr "Ethernet0"; "vlans" := JArr [JStr "1"; JStr "2"]]}.
Proof.
  apply entry_roundtrip. intros k v H. apply lookup_insert_Some in H as [[<- <-]|[_ H]].
  - split; [discriminate|]. split; [reflexivity|apply storable_str].
  - apply lookup_singleton_Some in H as [<- <-]. split; [discriminate|]. split; [reflexivity|].
    apply (storable_list ["1"; "2"]); [discriminate|]. apply (bool_decide_unpack _). vm_compute. exact I.
Defined.

Lemma deletion_hides_payload_witness :
  delivered (fun _ => Some "{}") demo_client (mkPath "" "" [ename "T"]) 7
    (<["delete" := MJson (JStr "null_value")]> {["k" := MJson (JObj ∅)]}) =
  Some (DbClient.UpdateResponse (DbClient.mkNotification 7 (prefix demo_client) [] [mkPath "" "" [ename "T"]])).
Proof.
  assert (exists r, delivered (fun _ => Some "{}") demo_client (mkPath "" "" [ename "T"]) 7
    (<["delete" := MJson (JStr "null_value")]> {["k" := MJson (JObj ∅)]}) = Some r) as [r Hr] by (eexists; reflexivity).
  rewrite Hr. f_equal. apply (deletion_hides_payload _ _ _ _ _ _ (mk_is_Some _ _ (lookup_insert_eq _ _ _)) Hr).
Defined.
