(* ===== verification/ConfigSet.v ===== *)
(** The native data client (src/sonic_data_client/mixed_db_client.go), third part: Set
    requests for CONFIG_DB, which edit a checkpoint of the configuration in memory,
    turn the request into a JSON patch and hand it to the host over D-Bus; and the
    reading of a checkpoint.

    The host is reached by calls that succeed or fail as the oracle [ok] says; they
    are recorded in order. *)

From S2P Require Import Prelude GnmiTypes DbTypes JsonClient Server DbClient MixedDb MixedSet.
Import JsonClient MixedDb.
Open Scope go_scope.

Module ConfigSet.

(** * JSON patches *)

Record patchOp := mkPatch { op : string; patch_path : string; patch_value : option json }.

Definition UPDATE_OPERATION : string := "add".
Definition DELETE_OPERATION : string := "remove".
Definition REPLACE_OPERATION : string := "replace".

(** The calls to the host (package sonic_service_client), files and the YANG check. *)
Inductive HostCall :=
| NewDbusClient | CreateCheckPoint | DeleteCheckPoint | ApplyPatchDb (text : string) | ConfigSave
| ConfigReplace (content : string) | WriteFile (name content : string) | RemoveFile (name : string)
| YangValidate (file : string).

Abbreviation Trace := (list (HostCall * bool)).

Section ConfigSet.
Context `{!MapRange}.
Variable parseJson : string -> option json.
Variable marshalPatch : list patchOp -> option string.
Variable c : MixedDbClient.
Variable workPath : string.
(** The result of the n-th host call. *)
Variable ok : nat -> bool.
(** [sdcfg.CheckDbMultiNamespace]. *)
Variable multiNamespace : option bool.
(** The text of the checkpoint file. *)
Variable checkpoint : option string.

Definition host (call : HostCall) (tr : Trace) : bool * Trace :=
  let b := ok (length tr) in (b, tr ++ [(call, b)]).

(** The patch path of elements, each followed by its keys. *)
Definition elemPath (e : PathElem) : string :=
  elem_name e +:+ fold_left (fun s '(k, v) => s +:+ "[" +:+ k +:+ "=" +:+ v +:+ "]") (range_of (elem_key e)) "" +:+ "/".

Definition jsonPath (es : list PathElem) : string :=
  trim_suffix (fold_left (fun s e => s +:+ elemPath e) es "/") "/".

Definition ConvertToJsonPatch (path : option Path) (t : option TypedValue) (operation : string) : mres patchOp :=
  if bool_decide (is_Some t) && String.eqb (GetJsonIetfVal t) "" then Err UnsupportedValue
  else
    try es := fullElems (prefix c) path in
    match t with
    | None => Ok (mkPatch operation (jsonPath (default [] es)) None)
    | Some _ =>
        match parseJson (GetJsonIetfVal t) with
        | None => Err ParseFailed
        | Some v => Ok (mkPatch operation (jsonPath (default [] es)) (Some v))
        end
    end.

(** The namespace in the document and in patch paths. *)
Definition gcuNamespace (multiNs : bool) : string :=
  if multiNs then if String.eqb (key c).1 "" then HOSTNAME else (key c).1 else "".

Definition inNamespace (multiNs : bool) (p : patchOp) : patchOp :=
  if multiNs then mkPatch (op p) ("/" +:+ gcuNamespace multiNs +:+ patch_path p) (patch_value p) else p.

(** The document being edited and the patch so far. *)
Abbreviation edit := (jobj * list patchOp)%type.

Definition emitPatch (multiNs : bool) (doc : jobj) (ps : list patchOp) (path : option Path) (t : option TypedValue)
    (operation : string) : mres edit :=
  try p := ConvertToJsonPatch path t operation in
  Ok (doc, ps ++ [inNamespace multiNs p]).

Definition names (es : list PathElem) : list string := elem_name <$> es.

Definition deleteOne (multiNs : bool) (st : edit) (path : option Path) : mres edit :=
  let '(doc, ps) := st in
  try es := fullElems (prefix c) path in
  match es with
  | None => emitPatch multiNs doc ps path None DELETE_OPERATION
  | Some es =>
      match Remove doc (names es) with
      | (Some _, doc) => Ok (doc, ps)
      | (None, doc) => emitPatch multiNs doc ps path None DELETE_OPERATION
      end
  end.

Definition replaceOne (multiNs : bool) (st : edit) (u : Update) : mres edit :=
  let '(doc, ps) := st in
  try es := fullElems (prefix c) (upd_path u) in
  match es, upd_val u with
  | None, t => emitPatch multiNs doc ps (upd_path u) t REPLACE_OPERATION
  | Some es, None =>
      match Remove doc (names es) with
      | (Some _, doc) => Ok (doc, ps)
      | (None, doc) => emitPatch multiNs doc ps (upd_path u) None REPLACE_OPERATION
      end
  | Some es, Some t =>
      match Replace parseJson doc (names es) (GetJsonIetfVal (Some t)) with
      | (Some _, _) => Err WrongType
      | (None, doc) => emitPatch multiNs doc ps (upd_path u) (Some t) REPLACE_OPERATION
      end
  end.

Definition updateOne (multiNs : bool) (st : edit) (u : Update) : mres edit :=
  let '(doc, ps) := st in
  try es := fullElems (prefix c) (upd_path u) in
  match es, upd_val u with
  | None, t => emitPatch multiNs doc ps (upd_path u) t UPDATE_OPERATION
  | Some _, None => Err NoValidValue
  | Some es, Some t =>
      match Add parseJson doc (names es) (GetJsonIetfVal (Some t)) with
      | (Some _, _) => Err WrongType
      | (None, doc) => emitPatch multiNs doc ps (upd_path u) (Some t) UPDATE_OPERATION
      end
  end.

(** The edits of a request on a document. *)
Definition editAll (multiNs : bool) (doc : jobj) (deletes : list (option Path)) (replace update : list Update) : mres edit :=
  try st := foldM (deleteOne multiNs) (doc, []) deletes in
  try st := foldM (replaceOne multiNs) st replace in
  foldM (updateOne multiNs) st update.

(** The part of [SetIncrementalConfig] between the creation of the checkpoint and its
    deferred deletion. *)
Definition applyEdits (multiNs : bool) (deletes : list (option Path)) (replace update : list Update) (tr : Trace)
    : option mx_error * Trace :=
  match NewJsonClient parseJson checkpoint (gcuNamespace multiNs) with
  | Err _ => (Some ParseFailed, tr)
  | Ok doc =>
      match editAll multiNs doc deletes replace update with
      | Err e => (Some e, tr)
      | Ok (_, []) => (None, tr)
      | Ok (_, ps) =>
          match marshalPatch ps with
          | None => (Some EmitFailed, tr)
          | Some text =>
              let '(b, tr) := host (WriteFile (workPath +:+ "/gcu.patch") text) tr in
              if negb b then (Some RedisFailed, tr)
              else
                let '(b, tr) := if String.eqb (origin c) "sonic-db" then host (ApplyPatchDb text) tr else (true, tr) in
                if negb b then (Some RedisFailed, tr)
                else
                  let '(b, tr) := host ConfigSave tr in
                  (if b then None else Some RedisFailed, tr)
          end
      end
  end.

Definition SetIncrementalConfig (deletes : list (option Path)) (replace update : list Update) (tr : Trace)
    : option mx_error * Trace :=
  let '(b, tr) := host NewDbusClient tr in
  if negb b then (Some RedisFailed, tr)
  else match multiNamespace with
  | None => (Some RedisFailed, tr)
  | Some multiNs =>
      let '(b, tr) := host CreateCheckPoint tr in
      if negb b then (Some RedisFailed, tr)
      else
        let '(e, tr) := applyEdits multiNs deletes replace update tr in
        (e, (host DeleteCheckPoint tr).2)
  end.

Definition SetFullConfig (update : Update) (tr : Trace) : option mx_error * Trace :=
  let content := GetJsonIetfVal (upd_val update) in
  if String.eqb content "" then (Some UnsupportedValue, tr)
  else
    let fileName := workPath +:+ "/config_db.json.tmp" in
    let '(b, tr) := host (WriteFile fileName content) tr in
    if negb b then (Some RedisFailed, tr)
    else let '(b, tr) := host (YangValidate fileName) tr in (if b then None else Some ParseFailed, tr).

Definition ReplaceFullConfig (replace : Update) (tr : Trace) : option mx_error * Trace :=
  let content := GetJsonIetfVal (upd_val replace) in
  if String.eqb content "" then (Some UnsupportedValue, tr)
  else
    let '(b, tr) := host NewDbusClient tr in
    if negb b then (Some RedisFailed, tr)
    else
      let '(b, tr) := host (ConfigReplace content) tr in
      if negb b then (Some RedisFailed, tr)
      else let '(b, tr) := host ConfigSave tr in (if b then None else Some RedisFailed, tr).

(** A path to the whole configuration. *)
Definition isRootPath (es : option (list PathElem)) : bool := match es with None | Some [] => true | _ => false end.

Definition SetConfigDB (deletes : list (option Path)) (replace update : list Update) (tr : Trace) : option mx_error * Trace :=
  let '(_, tr) := host (RemoveFile (workPath +:+ "/config_db.json.tmp")) tr in
  match deletes, replace, update with
  | [d], [], [u] =>
      match fullElems (prefix c) d with
      | Err e => (Some e, tr)
      | Ok de =>
          match fullElems (prefix c) (upd_path u) with
          | Err e => (Some e, tr)
          | Ok ue =>
              if isRootPath de && isRootPath ue then SetFullConfig u tr
              else SetIncrementalConfig deletes replace update tr
          end
      end
  | [], [r], [] =>
      match fullElems (prefix c) (upd_path r) with
      | Err e => (Some e, tr)
      | Ok re => if isRootPath re then ReplaceFullConfig r tr else SetIncrementalConfig deletes replace update tr
      end
  | _, _, _ => SetIncrementalConfig deletes replace update tr
  end.

(** [Set] of the client: CONFIG_DB through the host, the application databases through
    swsscommon tables, nothing else. *)
Definition Set_ (swss : nat -> option string) (inst : Instances) (redis : gmap string Redis)
    (deletes : list (option Path)) (replace update : list Update) (tr : Trace) (s : MixedSet.Swss)
    : option mx_error * Trace * MixedSet.Swss :=
  if String.eqb (target c) "CONFIG_DB" then
    let '(e, tr) := SetConfigDB deletes replace update tr in (e, tr, s)
  else if String.eqb (target c) "DPU_APPL_DB" || String.eqb (target c) "APPL_DB" then
    let '(e, s) := MixedSet.SetDB swss (hasZmq c) inst redis parseJson c deletes replace update s in (e, tr, s)
  else (Some UnsupportedTarget, tr, s).

(** * Reading a checkpoint *)

Variable emitJSON : json -> option string.

Definition checkpointOne (doc : jobj) (now : Z) (path : option Path) : mres (list DbClient.Value) :=
  try es := fullElems (prefix c) path in
  match es with
  | None => Ok []
  | Some es =>
      match Get emitJSON doc (names es) with
      | Err _ => Err NoValidEntry
      | Ok jv => Ok [DbClient.mkValue (prefix c) path now false "" (Some (JsonIetfVal jv)) [] None]
      end
  end.

(** [GetCheckPoint]; the namespace computed in the branch is a new variable, the one
    that is used stays empty. *)
Definition GetCheckPoint (now : Z) : mres (list DbClient.Value) :=
  match multiNamespace with
  | None => Err RedisFailed
  | Some _ =>
      match NewJsonClient parseJson checkpoint "" with
      | Err _ => Err ParseFailed
      | Ok doc => try l := mapM_res (checkpointOne doc now) (paths c) in Ok (concat l)
      end
  end.

(** [Get]: a checkpoint of CONFIG_DB if it can be read, else Redis. *)
Definition Get_ (inst : Instances) (redis : gmap string Redis) (marshal : jobj -> option string)
    (marshalList : list string -> option string) (now : Z) : mres (list DbClient.Value) :=
  let fromRedis := getRedis inst redis marshal marshalList c now in
  if String.eqb (target c) "CONFIG_DB" then
    match GetCheckPoint now with Ok vs => Ok vs | Err Panic => Err Panic | Err _ => fromRedis end
  else fromRedis.
End ConfigSet.
End ConfigSet.

(** Properties of configuration requests: nothing is applied unless the whole request
    is valid on the checkpoint, the checkpoint is always deleted, what the patch
    consists of, and the namespace that a checkpoint read ignores. *)

Import JsonClient MixedDb ConfigSet.

Section Requests.
Context {mr : MapRange}.
Variables (parseJson : string -> option json) (marshalPatch : list patchOp -> option string) (c : MixedDbClient).
Variables (workPath : string) (ok : nat -> bool) (multiNamespace : option bool) (checkpoint : option string).

(** * The patch *)

(** The kind of operation of each group, in order. *)
Definition patchShape (nd nr nu : nat) (ps : list patchOp) : Prop :=
  exists d r, d <= nd /\ r <= nr /\
    op <$> ps = replicate d DELETE_OPERATION ++ replicate r REPLACE_OPERATION ++ replicate nu UPDATE_OPERATION.

Lemma emitPatch_op multiNs doc ps path t o st :
  emitPatch parseJson c multiNs doc ps path t o = Ok st -> op <$> st.2 = (op <$> ps) ++ [o].
Proof.
  unfold emitPatch, ConvertToJsonPatch, inNamespace. repeat (case_match; simplify_eq/=); try done;
    intros; simplify_eq/=; by rewrite fmap_app.
Qed.

(** One request adds at most one operation of its kind. *)
Definition addsOne (o : string) (must : bool) (ps ps' : list patchOp) : Prop :=
  op <$> ps' = (op <$> ps) ++ [o] \/ (must = false /\ ps' = ps).

Lemma deleteOne_adds multiNs st path st' :
  deleteOne parseJson c multiNs st path = Ok st' -> addsOne DELETE_OPERATION false st.2 st'.2.
Proof.
  destruct st as [doc ps]. unfold deleteOne. destruct (fullElems _ path) as [[es|]|]; [| |done].
  - destruct (Remove doc (names es)) as [[e|] doc1]; [intros [= <-]; by right|]. intros H%emitPatch_op. by left.
  - intros H%emitPatch_op. by left.
Qed.

Lemma replaceOne_adds multiNs st u st' :
  replaceOne parseJson c multiNs st u = Ok st' -> addsOne REPLACE_OPERATION false st.2 st'.2.
Proof.
  destruct st as [doc ps]. unfold replaceOne. destruct (fullElems _ _) as [[es|]|]; [| |done].
  - destruct (upd_val u) as [t|].
    + destruct (Replace _ doc (names es) _) as [[e|] doc1]; [done|]. intros H%emitPatch_op. by left.
    + destruct (Remove doc (names es)) as [[e|] doc1]; [intros [= <-]; by right|]. intros H%emitPatch_op. by left.
  - intros H%emitPatch_op. by left.
Qed.

Lemma updateOne_adds multiNs st u st' :
  updateOne parseJson c multiNs st u = Ok st' -> addsOne UPDATE_OPERATION true st.2 st'.2.
Proof.
  destruct st as [doc ps]. unfold updateOne. destruct (fullElems _ _) as [[es|]|]; [| |done].
  - destruct (upd_val u) as [t|]; [|done].
    destruct (Add _ doc (names es) _) as [[e|] doc1]; [done|]. intros H%emitPatch_op. by left.
  - intros H%emitPatch_op. by left.
Qed.

Lemma foldM_adds {A} (f : jobj * list patchOp -> A -> mres (jobj * list patchOp)) o must l :
  (forall st a st', f st a = Ok st' -> addsOne o must st.2 st'.2) ->
  forall st st', foldM f st l = Ok st' ->
  exists n, n <= length l /\ (must = true -> n = length l) /\ op <$> st'.2 = (op <$> st.2) ++ replicate n o.
Proof.
  intros Hf. induction l as [|a l IH]; intros st st' H; cbn [foldM] in H.
  { injection H as <-. exists 0. by rewrite app_nil_r. }
  destruct (f st a) as [st1|] eqn:E; [|done]. apply Hf in E. apply IH in H as (n & Hn & Hm & ->).
  destruct E as [->|[Hmust ->]].
  - exists (S n). cbn [length replicate]. split_and!; [lia|intros; f_equal; auto|]. by rewrite <- app_assoc.
  - exists n. cbn [length]. split_and!; [lia|by intros; subst must|done].
Qed.

(** The patch of a configuration request holds the removals, then the replacements,
    then the additions, each in request order: every update has its operation, and a
    delete or replacement is left out only when the item does not exist. *)
Theorem edit_patch_shape multiNs doc deletes replace update doc' ps :
  editAll parseJson c multiNs doc deletes replace update = Ok (doc', ps) ->
  patchShape (length deletes) (length replace) (length update) ps.
Proof.
  unfold editAll. destruct (foldM (deleteOne _ _ _) _ deletes) as [st1|] eqn:E1; [|done].
  destruct (foldM (replaceOne _ _ _) st1 replace) as [st2|] eqn:E2; [|done]. intros E3.
  apply (foldM_adds _ DELETE_OPERATION false) in E1 as (d & Hd & _ & H1); [|apply deleteOne_adds].
  apply (foldM_adds _ REPLACE_OPERATION false) in E2 as (r & Hr & _ & H2); [|apply replaceOne_adds].
  apply (foldM_adds _ UPDATE_OPERATION true) in E3 as (u & _ & Hu & H3); [|apply updateOne_adds].
  exists d, r. split_and!; [done|done|]. cbn [snd] in H1, H3. rewrite H3, H2, H1, Hu by done. cbn. by rewrite <- app_assoc.
Qed.

(** * What the host is asked to do *)

(** A request may apply only the patch of a request that is valid as a whole. *)
Definition planned (deletes : list (option Path)) (replace update : list Update) (ps : list patchOp) : Prop :=
  exists multiNs doc doc', multiNamespace = Some multiNs /\
    NewJsonClient parseJson checkpoint (gcuNamespace c multiNs) = Ok doc /\
    editAll parseJson c multiNs doc deletes replace update = Ok (doc', ps).

Record safeCalls (deletes : list (option Path)) (replace update : list Update) (e : option mx_error) (calls : Trace) : Prop := {
  safe_apply text b : (ApplyPatchDb text, b) ∈ calls ->
    exists ps, planned deletes replace update ps /\ ps <> [] /\ marshalPatch ps = Some text;
  safe_save b : (ConfigSave, b) ∈ calls -> origin c = "sonic-db" -> exists text, (ApplyPatchDb text, true) ∈ calls;
  safe_checkpoint : (CreateCheckPoint, true) ∈ calls -> exists b, last calls = Some (DeleteCheckPoint, b);
  safe_done : e = None -> exists ps, planned deletes replace update ps /\ (ps = [] \/ (ConfigSave, true) ∈ calls)
}.

(** The calls made between the creation and the deletion of the checkpoint. *)
Lemma applyEdits_calls multiNs deletes replace update tr e tr' :
  multiNamespace = Some multiNs ->
  applyEdits parseJson marshalPatch c workPath ok checkpoint multiNs deletes replace update tr = (e, tr') ->
  exists calls, tr' = tr ++ calls /\
    (forall text b, (ApplyPatchDb text, b) ∈ calls -> exists ps, planned deletes replace update ps /\ ps <> [] /\ marshalPatch ps = Some text) /\
    (forall b, (ConfigSave, b) ∈ calls -> origin c = "sonic-db" -> exists text, (ApplyPatchDb text, true) ∈ calls) /\
    (forall b, (CreateCheckPoint, b) ∉ calls) /\
    (e = None -> exists ps, planned deletes replace update ps /\ (ps = [] \/ (ConfigSave, true) ∈ calls)).
Proof.
  intros Hm. unfold applyEdits.
  destruct (NewJsonClient _ _ _) as [doc|] eqn:Ed; [|intros [= <- <-]; exists []; split; [by rewrite app_nil_r|set_solver]].
  destruct (editAll _ _ _ doc _ _ _) as [[doc' ps]|] eqn:Ee; [|intros [= <- <-]; exists []; split; [by rewrite app_nil_r|set_solver]].
  assert (planned deletes replace update ps) as Hpl by (by exists multiNs, doc, doc').
  destruct ps as [|p ps]; [intros [= <- <-]; exists []; split; [by rewrite app_nil_r|set_solver]|].
  destruct (marshalPatch (p :: ps)) as [text|] eqn:Et; [|intros [= <- <-]; exists []; split; [by rewrite app_nil_r|set_solver]].
  assert (forall text' (b : bool) (cs : Trace), (ApplyPatchDb text', b) ∈ cs -> (forall x, x ∈ cs -> forall t b', x = (ApplyPatchDb t, b') -> t = text) ->
    exists qs, planned deletes replace update qs /\ qs <> [] /\ marshalPatch qs = Some text') as Happ.
  { intros text' b cs Hin Hcs. exists (p :: ps). split_and!; [done|done|]. rewrite (Hcs _ Hin _ _ eq_refl). done. }
  unfold host. set (n := length tr).
  destruct (ok n) eqn:E1; cbn [negb]; [|].
  - destruct (String.eqb_spec (origin c) "sonic-db") as [Ho|Ho]; cbn [fst snd]; rewrite ?length_app; cbn [length]; fold n.
    + destruct (ok (n + 1)) eqn:E2; cbn [negb].
      * intros [= <- <-]. eexists. split; [by rewrite <- !app_assoc|].
        split_and!; [intros t b Hin; apply (Happ t b _ Hin); set_solver|intros b Hb _; exists text; set_solver|set_solver|].
        intros He. exists (p :: ps). split; [done|]. right.
        match goal with H : (if ok ?k then _ else _) = None |- _ => destruct (ok k); [set_solver|done] end.
      * intros [= <- <-]. eexists. split; [by rewrite <- !app_assoc|].
        split_and!; [intros t b Hin; apply (Happ t b _ Hin); set_solver|set_solver|set_solver|done].
    + intros [= <- <-]. eexists. split; [by rewrite <- !app_assoc|].
      split_and!; [intros t b Hin; apply (Happ t b _ Hin); set_solver|set_solver|set_solver|].
      intros He. exists (p :: ps). split; [done|]. right. destruct (ok (n + 1)); [set_solver|done].
  - intros [= <- <-]. eexists. split; [done|].
    split_and!; [intros t b Hin; apply (Happ t b _ Hin); set_solver|set_solver|set_solver|done].
Qed.

(** C14. Whatever host calls fail: a configuration request asks the host to apply a
    patch only if every operation of the request is valid on the checkpoint, and then
    the patch of the whole request; the configuration is saved only after the patch
    was applied; a checkpoint that was created is deleted as the last call; and a
    request that succeeds was planned as a whole and saved, unless there was nothing
    to change. *)
Theorem incremental_safe deletes replace update tr e tr' :
  SetIncrementalConfig parseJson marshalPatch c workPath ok multiNamespace checkpoint deletes replace update tr = (e, tr') ->
  exists calls, tr' = tr ++ calls /\ safeCalls deletes replace update e calls.
Proof.
  unfold SetIncrementalConfig, host. destruct (ok (length tr)) eqn:E0; cbn [negb].
  2: { intros [= <- <-]. eexists. split; [done|]. constructor; set_solver. }
  destruct multiNamespace as [multiNs|] eqn:Em.
  2: { intros [= <- <-]. eexists. split; [done|]. constructor; set_solver. }
  destruct (ok (length (tr ++ [(NewDbusClient, true)]))) eqn:E1; cbn [negb].
  2: { intros [= <- <-]. eexists. split; [by rewrite <- app_assoc|]. constructor; set_solver. }
  destruct (applyEdits _ _ _ _ _ _ _ _ _ _ _) as [e1 tr1] eqn:Ea. cbn [snd]. intros [= <- <-].
  apply applyEdits_calls in Ea as (calls & -> & Hap & Hsv & Hno & Hok); [|done].
  eexists. split; [by rewrite <- !app_assoc|]. constructor.
  - intros text b Hin. apply (Hap text b). set_solver.
  - intros b Hin Ho. destruct (Hsv b) as [text Ht]; [set_solver|done|]. exists text. set_solver.
  - intros _. eexists. by rewrite last_app, last_app, last_app.
  - intros He. destruct (Hok He) as (ps & Hpl & [->|Hin]); [exists []; auto|]. exists ps. split; [done|]. right. set_solver.
Qed.
End Requests.

(** * Patch paths and checkpoints *)

Section Paths.
Context {mr : MapRange}.

Definition slash : Ascii.ascii := Ascii.ascii_of_nat 47.

Lemma elemPath_plain e : elem_key e = ∅ -> elemPath e = elem_name e +:+ "/".
Proof.
  intros He. unfold elemPath. rewrite He. assert (range_of (∅ : gmap string string) = []) as ->; [|done].
  apply Permutation_nil_r. rewrite range_of_perm. by rewrite map_to_list_empty.
Qed.

Lemma jsonPath_fold es s : Forall (fun e => elem_key e = ∅) es -> es <> [] ->
  fold_left (fun s e => s +:+ elemPath e) es s = s +:+ str_join (names es) "/" +:+ "/".
Proof.
  intros Hes Hne. revert s. induction Hes as [|e es He Hes IH]; intros s; [done|].
  cbn [fold_left names fmap list_fmap]. rewrite elemPath_plain by done. destruct es as [|e' es]; [done|].
  rewrite IH by done. fold (names (e' :: es)). rewrite str_join_cons by done. by rewrite !str_app_assoc.
Qed.

(** For elements whose names hold no slash and that have no keys the path of a patch operation splits into exactly the
    element names, the same path that the request was checked with on the checkpoint. *)
Theorem patch_path_roundtrip es :
  es <> [] -> Forall (fun e => elem_key e = ∅ /\ str_free slash (elem_name e)) es ->
  str_split (jsonPath es) "/" = "" :: names es.
Proof.
  intros Hne Hes. apply Forall_and in Hes as [Hk Hn]. unfold jsonPath. rewrite jsonPath_fold, <- str_app_assoc, trim_suffix_app by done.
  change ("/" +:+ str_join (names es) "/") with ("" +:+ "/" +:+ str_join (names es) "/").
  assert (names es <> []) by by destruct es. rewrite <- str_join_cons by done.
  apply split_join; [done|]. constructor; [done|]. by apply Forall_fmap.
Qed.

(** Reading a checkpoint takes no account of the client's namespace: clients of
    different namespaces get the same answer from the same file, also on a system with
    several namespaces. *)
Theorem checkpoint_ignores_namespace parseJson multiNamespace checkpoint emitJSON now c c' :
  prefix c = prefix c' -> paths c = paths c' ->
  GetCheckPoint parseJson c multiNamespace checkpoint emitJSON now =
  GetCheckPoint parseJson c' multiNamespace checkpoint emitJSON now.
Proof. intros Hp Hq. unfold GetCheckPoint, checkpointOne. by rewrite Hp, Hq. Qed.
End Paths.

(** * Witnesses *)

Definition demo_prefix : Path := mkPath "sonic-db" "" [ename "CONFIG_DB"; ename "localhost"].
Definition demo_client (ns : string) : MixedDbClient :=
  mkMixed (Some demo_prefix) [] Server.JSON_IETF "CONFIG_DB" "sonic-db" (ns, "") false.
Definition demo_config : jobj := {["VLAN" := JObj {["Vlan1" := JObj {["vlanid" := JStr "1"]}]}]}.
Definition demo_parse (s : string) : option json :=
  if String.eqb s "file" then Some (JObj demo_config) else if String.eqb s "vlan" then Some (JObj {["vlanid" := JStr "2"]}) else None.
Definition demo_marshal (ps : list patchOp) : option string := Some (str_join (patch_path <$> ps) ",").
Definition demo_deletes : list (option Path) :=
  [Some (mkPath "" "" [ename "VLAN"; ename "Vlan1"]); Some (mkPath "" "" [ename "VLAN"; ename "Vlan7"])].
Definition demo_updates : list Update := [mkUpdate (Some (mkPath "" "" [ename "VLAN"; ename "Vlan2"])) (Some (JsonIetfVal "vlan"))].

Lemma edit_patch_shape_witness :
  exists doc ps, editAll demo_parse (demo_client "") false demo_config demo_deletes [] demo_updates = Ok (doc, ps) /\
    length ps = 2 /\ patchShape 2 0 1 ps.
Proof.
  assert (exists doc ps, editAll demo_parse (demo_client "") false demo_config demo_deletes [] demo_updates = Ok (doc, ps) /\ length ps = 2)
    as (doc & ps & H & Hl) by (eexists _, _; split; [vm_compute; reflexivity|vm_compute; reflexivity]).
  exists doc, ps. split_and!; [exact H|exact Hl|]. exact (edit_patch_shape _ _ _ _ _ _ _ _ _ H).
Defined.

Lemma incremental_safe_witness :
  exists calls, (SetIncrementalConfig demo_parse demo_marshal (demo_client "") "/tmp" (fun _ => true) (Some false) (Some "file")
      demo_deletes [] demo_updates []).2 = calls /\ (ApplyPatchDb "/VLAN/Vlan1,/VLAN/Vlan2", true) ∈ calls /\
    safeCalls demo_parse demo_marshal (demo_client "") (Some false) (Some "file") demo_deletes [] demo_updates None calls.
Proof.
  assert (exists tr, SetIncrementalConfig demo_parse demo_marshal (demo_client "") "/tmp" (fun _ => true) (Some false) (Some "file")
      demo_deletes [] demo_updates [] = (None, tr) /\ tr !! 3 = Some (ApplyPatchDb "/VLAN/Vlan1,/VLAN/Vlan2", true)) as (tr & H & Hl)
    by (eexists; split; vm_compute; reflexivity).
  exists tr. rewrite H. split; [reflexivity|]. split; [exact (list_elem_of_lookup_2 _ _ _ Hl)|].
  destruct (incremental_safe _ _ _ _ _ _ _ _ _ _ _ _ _ H) as (calls & -> & Hs). exact Hs.
Defined.

Lemma patch_path_roundtrip_witness :
  str_split (jsonPath [ename "VLAN"; ename "Vlan1"; ename "vlanid"]) "/" = [""; "VLAN"; "Vlan1"; "vlanid"].
Proof.
  apply (patch_path_roundtrip [ename "VLAN"; ename "Vlan1"; ename "vlanid"]); [discriminate|].
  repeat constructor; try discriminate.
Defined.

Lemma checkpoint_ignores_namespace_witness :
  GetCheckPoint demo_parse (demo_client "asic0") (Some true) (Some "file") (fun _ => Some "") 0 =
  GetCheckPoint demo_parse (demo_client "asic1") (Some true) (Some "file") (fun _ => Some "") 0.
Proof. apply checkpoint_ignores_namespace; reflexivity. Defined.
