(* ===== verification/HostService.v ===== *)
(** The client of the SONiC host service (src/sonic_service_client/dbus_client.go): one
    method per host operation, each a D-Bus call whose reply [DbusApi] checks, and the
    counters that each call increments (src/common_utils/context.go).

    The bus is a parameter: the reply to a call, or that there is none in time. *)

From S2P Require Import Prelude GnmiTypes.
Open Scope go_scope.

Module HostService.

(** * Counters *)

Inductive CounterType :=
| GNOI_FACTORY_RESET | GNOI_OS_INSTALL | GNOI_HEALTHZ_ACK | GNOI_HEALTHZ_CHECK | GNOI_HEALTHZ_COLLECT
| GNSI_CREDZ_SET | GNSI_CREDZ_CHECKPOINT | DBUS | DBUS_FAIL
| DBUS_APPLY_PATCH_DB | DBUS_APPLY_PATCH_YANG | DBUS_CREATE_CHECKPOINT | DBUS_DELETE_CHECKPOINT
| DBUS_CONFIG_SAVE | DBUS_CONFIG_RELOAD | DBUS_STOP_SERVICE | DBUS_RESTART_SERVICE
| DBUS_FILE_STAT | DBUS_FILE_DOWNLOAD | DBUS_FILE_REMOVE | DBUS_IMAGE_DOWNLOAD | DBUS_IMAGE_INSTALL
| DBUS_IMAGE_LIST | DBUS_IMAGE_ACTIVATE | DBUS_DOCKER_LOAD | DBUS_CONFIG_REPLACE.

#[global] Instance CounterType_eq_dec : EqDecision CounterType.
Proof. solve_decision. Defined.

(** The counters are 64-bit and wrap around. *)
Abbreviation Counters := (CounterType -> N).

Definition IncCounter (cnt : CounterType) (g : Counters) : Counters :=
  fun c => if decide (c = cnt) then ((g c + 1) mod 2 ^ 64)%N else g c.

(** * Calls *)

Record DbusCall := mkCall {
  busName : string;
  busPath : string;
  intName : string;
  timeout : Z;
  args : list string
}.

(** A value of a reply body. *)
Inductive busVal := BInt32 (z : Z) | BStr (s : string) | BMap (m : gmap string string) | BOther.

(** What comes of a call: no connection, an error, a body, or nothing in time. *)
Inductive busReply := NoBus (e : string) | CallErr (e : string) | Body (l : list busVal) | NoReply.

Inductive svc_error :=
| Remote (msg : string) | EmptyResult | InvalidResult (text : string) | InvalidResultType (text : string)
| Timeout | DeadlineExceeded | SvcUnimplemented.

#[global] Instance svc_error_eq_dec : EqDecision svc_error.
Proof. solve_decision. Defined.

Section Client.
Variable bus : DbusCall -> busReply.
(** How [fmt] prints the values that an error quotes. *)
Variable show : list busVal -> string.

(** A reply as [DbusApi] takes it: a zero status and one value. *)
Definition checkReply (r : busReply) : res svc_error busVal :=
  match r with
  | NoBus e => Err (Remote e)
  | CallErr e => Err (Remote e)
  | NoReply => Err Timeout
  | Body [] => Err EmptyResult
  | Body (BInt32 ret :: rest) =>
      match rest with
      | [v] =>
          if (ret =? 0)%Z then Ok v
          else match v with
               | BStr msg => Err (Remote msg)
               | BMap m => Err (Remote (default "" (m !! "error")))
               | _ => Err (InvalidResultType (show [v]))
               end
      | _ => Err (InvalidResult (show (BInt32 ret :: rest)))
      end
  | Body (v :: _) => Err (InvalidResultType (show [v]))
  end.

Definition DbusApi (c : DbusCall) (g : Counters) : res svc_error busVal * Counters :=
  let g := IncCounter DBUS g in
  match checkReply (bus c) with
  | Ok v => (Ok v, g)
  | Err e => (Err e, IncCounter DBUS_FAIL g)
  end.

(** The call of a method of a module. *)
Definition methodCall (modName method : string) (timeout : Z) (args : list string) : DbusCall :=
  mkCall ("org.SONiC.HostService." +:+ modName) ("/org/SONiC/HostService/" +:+ modName)
    ("org.SONiC.HostService." +:+ modName +:+ method) timeout args.

(** A method that only reports an error. *)
Definition errOnly (cnt : CounterType) (c : DbusCall) (g : Counters) : option svc_error * Counters :=
  let '(r, g) := DbusApi c (IncCounter cnt g) in
  (match r with Ok _ => None | Err e => Some e end, g).

(** A method that returns the string of the reply. *)
Definition strResult (cnt : CounterType) (c : DbusCall) (g : Counters) : res svc_error string * Counters :=
  let '(r, g) := DbusApi c (IncCounter cnt g) in
  (match r with Ok (BStr s) => Ok s | Ok v => Err (InvalidResultType (show [v])) | Err e => Err e end, g).

Definition ConfigReload (config : string) := errOnly DBUS_CONFIG_RELOAD (methodCall "config" ".reload" 60 [config]).
Definition ConfigReplace (config : string) := errOnly DBUS_CONFIG_REPLACE (methodCall "gcu" ".replace_db" 600 [config]).
Definition ConfigSave (fileName : string) := errOnly DBUS_CONFIG_SAVE (methodCall "config" ".save" 60 [fileName]).
Definition ApplyPatchYang (patch : string) := errOnly DBUS_APPLY_PATCH_YANG (methodCall "gcu" ".apply_patch_yang" 600 [patch]).
Definition ApplyPatchDb (patch : string) := errOnly DBUS_APPLY_PATCH_DB (methodCall "gcu" ".apply_patch_db" 600 [patch]).
Definition CreateCheckPoint (fileName : string) := errOnly DBUS_CREATE_CHECKPOINT (methodCall "gcu" ".create_checkpoint" 60 [fileName]).
Definition DeleteCheckPoint (fileName : string) := errOnly DBUS_DELETE_CHECKPOINT (methodCall "gcu" ".delete_checkpoint" 60 [fileName]).
Definition StopService (service : string) := errOnly DBUS_STOP_SERVICE (methodCall "systemd" ".stop_service" 240 [service]).
Definition RestartService (service : string) := errOnly DBUS_RESTART_SERVICE (methodCall "systemd" ".restart_service" 240 [service]).

(** A reply of another type gives a nil map and no error. *)
Definition GetFileStat (path : string) (g : Counters) : res svc_error (gmap string string) * Counters :=
  let '(r, g) := DbusApi (methodCall "file" ".get_file_stat" 60 [path]) (IncCounter DBUS_FILE_STAT g) in
  (match r with Ok (BMap m) => Ok m | Ok _ => Ok ∅ | Err e => Err e end, g).

Definition DownloadFile (hostname username password remotePath localPath protocol : string) :=
  errOnly DBUS_FILE_DOWNLOAD (methodCall "file" ".download" 900 [hostname; username; password; remotePath; localPath; protocol]).
Definition RemoveFile (path : string) := errOnly DBUS_FILE_REMOVE (methodCall "file" ".remove" 60 [path]).
Definition DownloadImage (url save_as : string) := errOnly DBUS_IMAGE_DOWNLOAD (methodCall "image_service" ".download" 900 [url; save_as]).
Definition InstallImage (where_ : string) := errOnly DBUS_IMAGE_INSTALL (methodCall "image_service" ".install" 900 [where_]).
Definition ListImages := strResult DBUS_IMAGE_LIST (methodCall "image_service" ".list_images" 60 []).
Definition ActivateImage (image : string) := errOnly DBUS_IMAGE_ACTIVATE (methodCall "image_service" ".set_next_boot" 60 [image]).
Definition LoadDockerImage (image : string) := errOnly DBUS_DOCKER_LOAD (methodCall "docker_service" ".load" 180 [image]).
Definition FactoryReset (cmd : string) := strResult GNOI_FACTORY_RESET (methodCall "gnoi_reset" ".issue_reset" 10 [cmd]).

(** The part of an error text that comes from outside; the rest of the texts are fixed
    words. *)
Definition errText (e : svc_error) : string :=
  match e with Remote text | InvalidResult text | InvalidResultType text => text | _ => "" end.

Definition InstallOS (req : string) (g : Counters) : res svc_error string * Counters :=
  let '(r, g) := DbusApi (methodCall "image_service" ".gnoi_install_os" 60 [req]) (IncCounter GNOI_OS_INSTALL g) in
  (match r with
   | Err e => if str_contains (errText e) "ERROR_UNIMPLEMENTED" then Err SvcUnimplemented else Err e
   | Ok (BStr s) => if str_contains s "ERROR_UNIMPLEMENTED" then Err SvcUnimplemented else Ok s
   | Ok v => Err (InvalidResultType (show [v]))
   end, g).

Definition HealthzCheck (req : string) := strResult GNOI_HEALTHZ_CHECK (methodCall "debug_info" ".check" 10 [req]).
Definition HealthzCollect (req : string) := strResult GNOI_HEALTHZ_COLLECT (methodCall "debug_info" ".collect" 10 [req]).
Definition HealthzAck (req : string) := strResult GNOI_HEALTHZ_ACK (methodCall "debug_info" ".ack" 10 [req]).

Inductive CredzCheckpointAction := CredzCPCreate | CredzCPDelete | CredzCPRestore.

Definition actionName (a : CredzCheckpointAction) : string :=
  match a with
  | CredzCPCreate => ".create_checkpoint"
  | CredzCPDelete => ".delete_checkpoint"
  | CredzCPRestore => ".restore_checkpoint"
  end.

Definition ConsoleSet (cmd : string) := errOnly GNSI_CREDZ_SET (methodCall "gnsi_console" ".set" 10 [cmd]).
Definition SSHMgmtSet (cmd : string) := errOnly GNSI_CREDZ_SET (methodCall "ssh_mgmt" ".set" 10 [cmd]).
Definition ConsoleCheckpoint (action : CredzCheckpointAction) :=
  errOnly GNSI_CREDZ_CHECKPOINT (methodCall "gnsi_console" (actionName action) 10 [""]).
Definition SSHCheckpoint (action : CredzCheckpointAction) :=
  errOnly GNSI_CREDZ_CHECKPOINT (methodCall "ssh_mgmt" (actionName action) 10 [""]).

(** The timeout under a context: [deadline] is the time that remains in nanoseconds;
    no call is made when none does.  Whole seconds, at most ten. *)
Definition contextTimeout (deadline : option Z) (default_ : Z) : option Z :=
  match deadline with
  | None => Some default_
  | Some remaining => if (remaining <=? 0)%Z then None else Some (Z.min 10 (remaining / 10 ^ 9))
  end.

Definition glomeCall (cnt : CounterType) (deadline : option Z) (default_ : Z) (method : string) (args : list string)
    (g : Counters) : option svc_error * Counters :=
  match contextTimeout deadline default_ with
  | None => (Some DeadlineExceeded, IncCounter cnt g)
  | Some t => errOnly cnt (methodCall "glome" method t args) g
  end.

Definition GLOMEConfigSet (deadline : option Z) (cmd : string) := glomeCall GNSI_CREDZ_SET deadline 10 ".push_config" [cmd].
Definition GLOMERestoreCheckpoint (deadline : option Z) := glomeCall GNSI_CREDZ_CHECKPOINT deadline 300 (actionName CredzCPRestore) [].

(** The operations with their arguments, and the outcome of each: its call, if one is
    made. *)
Inductive HostOp :=
| OpConfigReload (s : string) | OpConfigReplace (s : string) | OpConfigSave (s : string)
| OpApplyPatchYang (s : string) | OpApplyPatchDb (s : string) | OpCreateCheckPoint (s : string) | OpDeleteCheckPoint (s : string)
| OpStopService (s : string) | OpRestartService (s : string) | OpGetFileStat (s : string)
| OpDownloadFile (hostname username password remotePath localPath protocol : string) | OpRemoveFile (s : string)
| OpDownloadImage (url save_as : string) | OpInstallImage (s : string) | OpListImages | OpActivateImage (s : string)
| OpLoadDockerImage (s : string) | OpFactoryReset (s : string) | OpInstallOS (s : string)
| OpHealthzCheck (s : string) | OpHealthzCollect (s : string) | OpHealthzAck (s : string)
| OpConsoleSet (s : string) | OpSSHMgmtSet (s : string)
| OpConsoleCheckpoint (a : CredzCheckpointAction) | OpSSHCheckpoint (a : CredzCheckpointAction)
| OpGLOMEConfigSet (deadline : option Z) (s : string) | OpGLOMERestoreCheckpoint (deadline : option Z).

(** The error of an operation and the counters after it. *)
Definition perform (o : HostOp) (g : Counters) : option svc_error * Counters :=
  let drop {A} (r : res svc_error A * Counters) := (match r.1 with Ok _ => None | Err e => Some e end, r.2) in
  match o with
  | OpConfigReload s => ConfigReload s g | OpConfigReplace s => ConfigReplace s g | OpConfigSave s => ConfigSave s g
  | OpApplyPatchYang s => ApplyPatchYang s g | OpApplyPatchDb s => ApplyPatchDb s g
  | OpCreateCheckPoint s => CreateCheckPoint s g | OpDeleteCheckPoint s => DeleteCheckPoint s g
  | OpStopService s => StopService s g | OpRestartService s => RestartService s g | OpGetFileStat s => drop (GetFileStat s g)
  | OpDownloadFile a b c d e f => DownloadFile a b c d e f g | OpRemoveFile s => RemoveFile s g
  | OpDownloadImage u s => DownloadImage u s g | OpInstallImage s => InstallImage s g | OpListImages => drop (ListImages g)
  | OpActivateImage s => ActivateImage s g | OpLoadDockerImage s => LoadDockerImage s g
  | OpFactoryReset s => drop (FactoryReset s g) | OpInstallOS s => drop (InstallOS s g)
  | OpHealthzCheck s => drop (HealthzCheck s g) | OpHealthzCollect s => drop (HealthzCollect s g) | OpHealthzAck s => drop (HealthzAck s g)
  | OpConsoleSet s => ConsoleSet s g | OpSSHMgmtSet s => SSHMgmtSet s g
  | OpConsoleCheckpoint a => ConsoleCheckpoint a g | OpSSHCheckpoint a => SSHCheckpoint a g
  | OpGLOMEConfigSet d s => GLOMEConfigSet d s g | OpGLOMERestoreCheckpoint d => GLOMERestoreCheckpoint d g
  end.
End Client.
End HostService.

(** Properties of the host service client: no two operations share a call, the failure
    counter, and the timeouts under a deadline. *)

Import HostService.
Open Scope go_scope.

(** * Which call an operation makes *)

(** The operation without the deadline of its context. *)
Definition forget (o : HostOp) : HostOp :=
  match o with
  | OpGLOMEConfigSet _ s => OpGLOMEConfigSet None s
  | OpGLOMERestoreCheckpoint _ => OpGLOMERestoreCheckpoint None
  | o => o
  end.

#[global] Instance DbusCall_eq_dec : EqDecision DbusCall.
Proof. solve_decision. Defined.

(** A bus that answers one call, with success, and no other. *)
Definition only (c : DbusCall) : DbusCall -> busReply :=
  fun c' => if decide (c' = c) then Body [BInt32 0; BStr ""] else NoReply.

Definition zero : Counters := fun _ => 0%N.

(** The operation succeeds on the bus that answers only [c]. *)
Definition servedBy (show : list busVal -> string) (o : HostOp) (c : DbusCall) : Prop :=
  (perform (only c) show o zero).1 = None.

(** What a call asks for, read from its interface name and arguments. *)
Definition readCall (c : DbusCall) : option HostOp :=
  let named n := String.eqb (intName c) ("org.SONiC.HostService." +:+ n) in
  match args c with
  | [s] =>
      if named "config.reload" then Some (OpConfigReload s) else if named "gcu.replace_db" then Some (OpConfigReplace s)
      else if named "config.save" then Some (OpConfigSave s) else if named "gcu.apply_patch_yang" then Some (OpApplyPatchYang s)
      else if named "gcu.apply_patch_db" then Some (OpApplyPatchDb s) else if named "gcu.create_checkpoint" then Some (OpCreateCheckPoint s)
      else if named "gcu.delete_checkpoint" then Some (OpDeleteCheckPoint s) else if named "systemd.stop_service" then Some (OpStopService s)
      else if named "systemd.restart_service" then Some (OpRestartService s) else if named "file.get_file_stat" then Some (OpGetFileStat s)
      else if named "file.remove" then Some (OpRemoveFile s) else if named "image_service.install" then Some (OpInstallImage s)
      else if named "image_service.set_next_boot" then Some (OpActivateImage s) else if named "docker_service.load" then Some (OpLoadDockerImage s)
      else if named "gnoi_reset.issue_reset" then Some (OpFactoryReset s) else if named "image_service.gnoi_install_os" then Some (OpInstallOS s)
      else if named "debug_info.check" then Some (OpHealthzCheck s) else if named "debug_info.collect" then Some (OpHealthzCollect s)
      else if named "debug_info.ack" then Some (OpHealthzAck s) else if named "gnsi_console.set" then Some (OpConsoleSet s)
      else if named "ssh_mgmt.set" then Some (OpSSHMgmtSet s)
      else if named "gnsi_console.create_checkpoint" then Some (OpConsoleCheckpoint CredzCPCreate)
      else if named "gnsi_console.delete_checkpoint" then Some (OpConsoleCheckpoint CredzCPDelete)
      else if named "gnsi_console.restore_checkpoint" then Some (OpConsoleCheckpoint CredzCPRestore)
      else if named "ssh_mgmt.create_checkpoint" then Some (OpSSHCheckpoint CredzCPCreate)
      else if named "ssh_mgmt.delete_checkpoint" then Some (OpSSHCheckpoint CredzCPDelete)
      else if named "ssh_mgmt.restore_checkpoint" then Some (OpSSHCheckpoint CredzCPRestore)
      else if named "glome.push_config" then Some (OpGLOMEConfigSet None s) else None
  | [a; b] => if named "image_service.download" then Some (OpDownloadImage a b) else None
  | [a; b; c'; d; e; f] => if named "file.download" then Some (OpDownloadFile a b c' d e f) else None
  | [] => if named "image_service.list_images" then Some OpListImages
          else if named "glome.restore_checkpoint" then Some (OpGLOMERestoreCheckpoint None) else None
  | _ => None
  end.

Lemma only_call show c c' cnt g : (errOnly (only c) show cnt c' g).1 = None -> c' = c.
Proof. unfold errOnly, DbusApi, only. by case_decide. Qed.

(** An operation that is served made a call that reads back as the operation. *)
Lemma served_reads show o c : servedBy show o c -> readCall c = Some (forget o).
Proof.
  unfold servedBy, perform. destruct o; cbn [forget]; intros H;
    try (apply only_call in H; subst c; try (destruct a); vm_compute; reflexivity);
    unfold GLOMEConfigSet, GLOMERestoreCheckpoint, glomeCall, GetFileStat, InstallOS, ListImages, FactoryReset, HealthzCheck, HealthzCollect, HealthzAck,
      strResult, DbusApi, only in H;
    try (destruct (contextTimeout _ _) as [t|]; [|done]; apply only_call in H; subst c; vm_compute; reflexivity);
    (case_decide as Hc; [subst c; vm_compute; reflexivity|done]).
Qed.

(** No call serves two operations: when the bus answers a single call, all the
    operations that succeed are the same one with the same arguments, apart from the
    deadline of its context. *)
Theorem host_ops_distinguished show o1 o2 c :
  servedBy show o1 c -> servedBy show o2 c -> forget o1 = forget o2.
Proof. intros H1%served_reads H2%served_reads. congruence. Qed.

(** * Counters *)

Definition succ64 (n : N) : N := ((n + 1) mod 2 ^ 64)%N.

Lemma DbusApi_counts bus show c g :
  (DbusApi bus show c g).2 DBUS = succ64 (g DBUS) /\
  (DbusApi bus show c g).2 DBUS_FAIL = match checkReply show (bus c) with Ok _ => g DBUS_FAIL | Err _ => succ64 (g DBUS_FAIL) end /\
  (DbusApi bus show c g).1 = checkReply show (bus c).
Proof. unfold DbusApi. by destruct (checkReply show (bus c)). Qed.

(** What an operation that makes the call [c] leaves in the counters. *)
Definition counted (bus : DbusCall -> busReply) (show : list busVal -> string) (c : DbusCall) (g : Counters)
    (e : option svc_error) (g' : Counters) : Prop :=
  g' DBUS = succ64 (g DBUS) /\
  match checkReply show (bus c) with
  | Ok _ => g' DBUS_FAIL = g DBUS_FAIL
  | Err _ => g' DBUS_FAIL = succ64 (g DBUS_FAIL) /\ e <> None
  end.

Lemma counted_api bus show c cnt g r g' e :
  cnt <> DBUS -> cnt <> DBUS_FAIL -> DbusApi bus show c (IncCounter cnt g) = (r, g') ->
  (forall x, r = Err x -> e <> None) -> counted bus show c g e g'.
Proof.
  intros H1 H2 H He. destruct (DbusApi_counts bus show c (IncCounter cnt g)) as (Hd & Hf & Hr).
  rewrite H in Hd, Hf, Hr. cbn [fst snd] in *. unfold IncCounter in Hd, Hf.
  rewrite decide_False in Hd by congruence. unfold counted. split; [done|].
  rewrite decide_False in Hf by congruence. destruct (checkReply _ _); [done|]. split; [done|]. by eapply He.
Qed.

(** Every operation counts its call once, and counts a failure exactly when the bus
    does not answer the call with success; then it reports an error. *)
Theorem failures_counted bus show o c g e g' :
  servedBy show o c -> perform bus show o g = (e, g') -> counted bus show c g e g'.
Proof.
  unfold servedBy, perform. destruct o; intros H Hp;
    unfold GLOMEConfigSet, GLOMERestoreCheckpoint, glomeCall, GetFileStat, InstallOS, ListImages, FactoryReset, HealthzCheck, HealthzCollect, HealthzAck,
      strResult in H, Hp;
    try (destruct (contextTimeout _ _) as [t|]; [|done]);
    try (apply only_call in H; subst c);
    try (unfold DbusApi, only in H; case_decide as Hc; [subst c; clear H|done]);
    unfold ConfigReload, ConfigReplace, ConfigSave, ApplyPatchYang, ApplyPatchDb, CreateCheckPoint, DeleteCheckPoint, StopService, RestartService,
      DownloadFile, RemoveFile, DownloadImage, InstallImage, ActivateImage, LoadDockerImage, ConsoleSet, SSHMgmtSet, ConsoleCheckpoint, SSHCheckpoint, errOnly in Hp;
    match type of Hp with context [DbusApi ?b ?sh ?c ?g] => destruct (DbusApi b sh c g) as [r g1] eqn:E end;
    cbn [fst snd] in Hp; injection Hp as <- <-;
    (eapply counted_api; [| |exact E|]; [done|done|]; intros x ->; repeat case_match; done).
Qed.

(** * Timeouts *)

(** The time that the context of an operation leaves, if it sets a deadline. *)
Definition deadlineOf (o : HostOp) : option Z :=
  match o with OpGLOMEConfigSet d _ | OpGLOMERestoreCheckpoint d => d | _ => None end.

Lemma contextTimeout_bound remaining default_ :
  match contextTimeout (Some remaining) default_ with
  | Some t => (0 <= t <= 10)%Z /\ (t * 10 ^ 9 <= remaining)%Z
  | None => (remaining <= 0)%Z
  end.
Proof.
  unfold contextTimeout. destruct (Z.leb_spec remaining 0); [done|].
  pose proof (Z.mul_div_le remaining (10 ^ 9)). pose proof (Z.div_pos remaining (10 ^ 9)). lia.
Qed.

(** Under a deadline an operation never waits for the host longer than the time that
    remains, nor longer than ten seconds; when no time remains it fails with the deadline
    error, and no call is made or counted, whatever the bus would answer. *)
Theorem deadline_respected bus show o remaining g :
  deadlineOf o = Some remaining ->
  (forall c, servedBy show o c -> (0 <= timeout c <= 10)%Z /\ (timeout c * 10 ^ 9 <= remaining)%Z) /\
  ((remaining <= 0)%Z ->
     (perform bus show o g).1 = Some DeadlineExceeded /\ (perform bus show o g).2 DBUS = g DBUS /\
     (perform bus show o g).2 DBUS_FAIL = g DBUS_FAIL).
Proof.
  unfold servedBy, perform. intros Hd. destruct o; try discriminate Hd; cbn [deadlineOf] in Hd; subst deadline;
    unfold GLOMEConfigSet, GLOMERestoreCheckpoint, glomeCall;
    (split; [intros c
            |intros Hr; unfold contextTimeout; by rewrite (proj2 (Z.leb_le _ _) Hr)]);
    match goal with |- context [contextTimeout _ ?d] => pose proof (contextTimeout_bound remaining d) as Hb end;
    (destruct (contextTimeout _ _); [intros <-%only_call; exact Hb|done]).
Qed.

(** * Witnesses *)

Definition demo_call : DbusCall := methodCall "gcu" ".apply_patch_db" 600 ["p"].

Lemma host_ops_distinguished_witness : forget (OpApplyPatchDb "p") = forget (OpApplyPatchDb "p").
Proof. apply (host_ops_distinguished (fun _ => "") (OpApplyPatchDb "p") (OpApplyPatchDb "p") demo_call); reflexivity. Defined.

Lemma failures_counted_witness :
  exists e g', perform (fun _ => NoReply) (fun _ => "") (OpApplyPatchDb "p") zero = (e, g') /\
    counted (fun _ => NoReply) (fun _ => "") demo_call zero e g'.
Proof.
  eexists _, _. split; [reflexivity|]. apply (failures_counted _ _ (OpApplyPatchDb "p")); reflexivity.
Defined.

Lemma deadline_respected_witness :
  (0 <= 2 <= 10)%Z /\ (perform (fun _ => NoReply) (fun _ => "") (OpGLOMEConfigSet (Some 0%Z) "{}") zero).1 = Some DeadlineExceeded.
Proof.
  split.
  - destruct (deadline_respected (fun _ => NoReply) (fun _ => "") (OpGLOMEConfigSet (Some 2500000000%Z) "{}") 2500000000 zero eq_refl) as [H _].
    exact (proj1 (H (methodCall "glome" ".push_config" 2 ["{}"]) eq_refl)).
  - destruct (deadline_respected (fun _ => NoReply) (fun _ => "") (OpGLOMEConfigSet (Some 0%Z) "{}") 0 zero eq_refl) as [_ H].
    apply H. lia.
Defined.
