(* ===== verification/Credentialz.v ===== *)
(** The gNSI credentialz service (src/gnmi_server/gnsi_credentialz.go): rotation of SSH
    keys, principals, console passwords, SSH CA keys and the GLOME configuration, each
    checked, sent to the host over D-Bus, and recorded in freshness metadata (the
    server's maps, STATE_DB and a file).

    The account maps live in a heap, because the checkpoint of the metadata copies the
    struct and so shares its map.  Panics (a write to a nil map, a missing STATE_DB
    client) end a computation of [PanicMonad.SM]; deferred calls still run. *)

From S2P Require Import Prelude PanicMonad GnmiTypes HostIO HostService.
Import HostService.
Open Scope go_scope.

Module Credentialz.

(** * Requests *)

Inductive KeyType := KEY_UNSPECIFIED | ECDSA_P_256 | ECDSA_P_521 | ED25519 | RSA_2048 | RSA_4096 | KEY_OTHER.

Definition sshKeyTypePrefix (t : KeyType) : string :=
  match t with
  | KEY_UNSPECIFIED => "unspecified"
  | ECDSA_P_256 => "ecdsa-sha2-nistp256"
  | ECDSA_P_521 => "ecdsa-sha2-nistp521"
  | ED25519 => "ssh-ed25519"
  | RSA_2048 | RSA_4096 => "ssh-rsa"
  | KEY_OTHER => ""
  end.

Record SshOption := mkOption { opt_name : string; opt_value : string }.
Record AuthorizedKey := mkKey { key_type : KeyType; authorized_key : string; key_options : list SshOption; key_description : string }.
Record AccountCredentials := mkCred { ac_account : string; ac_version : string; ac_created_on : N; ac_keys : list AuthorizedKey }.
Record UserPolicy := mkPolicy { up_account : string; up_version : string; up_created_on : N; up_principals : list (string * list SshOption) }.
(** A password is absent, or plaintext; other forms read as the empty plaintext. *)
Record PasswordAccount := mkPassword { pw_account : string; pw_version : string; pw_created_on : N; pw_password : option string }.
Record CaRequest := mkCa { ca_version : string; ca_created_on : N; ca_keys : list AuthorizedKey }.
Record GlomeRequest := mkGlomeReq { g_enabled : bool; g_key : string; g_key_version : Z; g_url_prefix : string }.

(** The wrapper of a finalize message may hold nothing. *)
Inductive AccountRequest :=
| AFinalize (present : bool)
| APassword (l : list PasswordAccount)
| ACredential (l : list AccountCredentials)
| AUser (l : list UserPolicy)
| AUnknown.

Inductive HostRequest :=
| HSshCaPublicKey (r : option CaRequest) | HGlome (r : option GlomeRequest)
| HServerKeys | HGenerateKeys | HAuthenticationAllowed | HAuthorizedPrincipalCheck | HFinalize | HUnknown.

(** A message of the stream and whether the response to it can be sent. *)
Inductive RecvEvent (R : Type) := RecvErr | RecvReq (req : R) (send_ok : bool).
Arguments RecvErr {R}.
Arguments RecvReq {R} _ _.

Inductive cz_error := InvalidRequest | HostFailed | DbFailed | BadMetadata | NilMetadata.

#[global] Instance cz_error_eq_dec : EqDecision cz_error.
Proof. solve_decision. Defined.

(** * State *)

Record SshAccountVersion := mkSshAccount { KeysVersion : string; KeysCreatedOn : string; UsersVersion : string; UsersCreatedOn : string }.
Record SshHostVersion := mkSshHost { CaKeysVersion : string; CaKeysCreatedOn : string }.
Record ConsoleAccountVersion := mkConsole { PasswordVersion : string; PasswordCreatedOn : string }.
Record GlomeConfigMetadata := mkGlome { Enabled : bool; KeyVersion : Z; LastUpdated : Z }.

(** A map reference; [None] is nil. *)
Abbreviation mapref := (option nat).

Record SshCredMetadata := mkSsh { Accounts : mapref; Host : SshHostVersion }.

Inductive cpType := consoleCP | sshCP.

#[global] Instance cpType_eq_dec : EqDecision cpType.
Proof. solve_decision. Defined.

Record Credz := mkCredz {
  sshCredMetadata : SshCredMetadata;
  sshCredMetadataCopy : SshCredMetadata;
  consoleCredMetadata : mapref;
  consoleCredMetadataCopy : mapref;
  sshMaps : gmap nat (gmap string SshAccountVersion);
  consoleMaps : gmap nat (gmap string ConsoleAccountVersion);
  glomeConfigMetadata : option GlomeConfigMetadata;
  stateDbClient : bool;
  world : World;
  calls : list (HostOp * bool);
  deferred : list cpType
}.

Definition with_ssh (s : Credz) (m c : SshCredMetadata) : Credz :=
  mkCredz m c (consoleCredMetadata s) (consoleCredMetadataCopy s) (sshMaps s) (consoleMaps s)
    (glomeConfigMetadata s) (stateDbClient s) (world s) (calls s) (deferred s).
Definition with_console (s : Credz) (m c : mapref) : Credz :=
  mkCredz (sshCredMetadata s) (sshCredMetadataCopy s) m c (sshMaps s) (consoleMaps s)
    (glomeConfigMetadata s) (stateDbClient s) (world s) (calls s) (deferred s).
Definition with_sshMaps (s : Credz) (h : gmap nat (gmap string SshAccountVersion)) : Credz :=
  mkCredz (sshCredMetadata s) (sshCredMetadataCopy s) (consoleCredMetadata s) (consoleCredMetadataCopy s) h (consoleMaps s)
    (glomeConfigMetadata s) (stateDbClient s) (world s) (calls s) (deferred s).
Definition with_consoleMaps (s : Credz) (h : gmap nat (gmap string ConsoleAccountVersion)) : Credz :=
  mkCredz (sshCredMetadata s) (sshCredMetadataCopy s) (consoleCredMetadata s) (consoleCredMetadataCopy s) (sshMaps s) h
    (glomeConfigMetadata s) (stateDbClient s) (world s) (calls s) (deferred s).
Definition with_glome (s : Credz) (g : option GlomeConfigMetadata) : Credz :=
  mkCredz (sshCredMetadata s) (sshCredMetadataCopy s) (consoleCredMetadata s) (consoleCredMetadataCopy s) (sshMaps s) (consoleMaps s)
    g (stateDbClient s) (world s) (calls s) (deferred s).
Definition with_world (s : Credz) (w : World) : Credz :=
  mkCredz (sshCredMetadata s) (sshCredMetadataCopy s) (consoleCredMetadata s) (consoleCredMetadataCopy s) (sshMaps s) (consoleMaps s)
    (glomeConfigMetadata s) (stateDbClient s) w (calls s) (deferred s).
Definition with_calls (s : Credz) (l : list (HostOp * bool)) : Credz :=
  mkCredz (sshCredMetadata s) (sshCredMetadataCopy s) (consoleCredMetadata s) (consoleCredMetadataCopy s) (sshMaps s) (consoleMaps s)
    (glomeConfigMetadata s) (stateDbClient s) (world s) l (deferred s).
Definition with_deferred (s : Credz) (l : list cpType) : Credz :=
  mkCredz (sshCredMetadata s) (sshCredMetadataCopy s) (consoleCredMetadata s) (consoleCredMetadataCopy s) (sshMaps s) (consoleMaps s)
    (glomeConfigMetadata s) (stateDbClient s) (world s) (calls s) l.

Abbreviation M := (SM Credz).

Definition io {A} (f : World -> A * World) : M A := fun s => let '(a, w) := f (world s) in (Some a, with_world s w).

(** * Messages to the host *)

(** [base64.StdEncoding]. *)
Definition b64alphabet : string := "ABCDEFGHIJKLMNOPQRSTUVWXYZabcdefghijklmnopqrstuvwxyz0123456789+/".
Definition b64char (n : nat) : Ascii.ascii := default Ascii.zero (String.get n b64alphabet).

Fixpoint b64 (s : string) : string :=
  let v := Ascii.nat_of_ascii in
  match s with
  | String a (String b (String c rest)) =>
      String (b64char (v a / 4)) (String (b64char ((v a mod 4) * 16 + v b / 16))
        (String (b64char ((v b mod 16) * 4 + v c / 64)) (String (b64char (v c mod 64)) (b64 rest))))
  | String a (String b EmptyString) =>
      String (b64char (v a / 4)) (String (b64char ((v a mod 4) * 16 + v b / 16)) (String (b64char ((v b mod 16) * 4)) "="))
  | String a EmptyString => String (b64char (v a / 4)) (String (b64char ((v a mod 4) * 16)) "==")
  | EmptyString => ""
  end.

(** The texts are put together without any escaping. *)
Definition optionText (o : SshOption) : string :=
  " { " +:+ quoted "name" +:+ " : " +:+ quoted (opt_name o) +:+ ", " +:+ quoted "value" +:+ ": " +:+ quoted (opt_value o) +:+ " }".

Definition keyLine (k : AuthorizedKey) : string :=
  sshKeyTypePrefix (key_type k) +:+ " " +:+ b64 (authorized_key k) +:+ " " +:+ key_description k.

Definition keyText (k : AuthorizedKey) : string :=
  " { " +:+ quoted "key" +:+ " : " +:+ quoted (keyLine k) +:+ ", " +:+ quoted "options" +:+ " : [" +:+
  str_join (optionText <$> key_options k) "," +:+ " ] }".

Definition accountKeysText (set : AccountCredentials) : string :=
  "{ " +:+ quoted "account" +:+ ": " +:+ quoted (ac_account set) +:+ ", " +:+ quoted "keys" +:+ ": [" +:+
  str_join (keyText <$> ac_keys set) "," +:+ " ] }".

Definition sshKeysMessage (l : list AccountCredentials) : string :=
  "{ " +:+ quoted "SshAccountKeys" +:+ ": [ " +:+ str_join (accountKeysText <$> l) "," +:+ " ] }".

Definition principalText (u : string * list SshOption) : string :=
  " { " +:+ quoted "name" +:+ " : " +:+ quoted u.1 +:+ ", " +:+ quoted "options" +:+ " : [" +:+
  str_join (optionText <$> u.2) "," +:+ " ] }".

Definition accountUsersText (set : UserPolicy) : string :=
  " { " +:+ quoted "account" +:+ ": " +:+ quoted (up_account set) +:+ ", " +:+ quoted "users" +:+ ": [" +:+
  str_join (principalText <$> up_principals set) "," +:+ " ] }".

Definition sshUsersMessage (l : list UserPolicy) : string :=
  "{ " +:+ quoted "SshAccountUsers" +:+ ": [" +:+ str_join (accountUsersText <$> l) "," +:+ " ] }".

Definition passwordText (a : PasswordAccount) : string :=
  "{ " +:+ quoted "name" +:+ ": " +:+ quoted (pw_account a) +:+ ", " +:+ quoted "password" +:+ " : " +:+
  quoted (default "" (pw_password a)) +:+ " }".

Definition consoleMessage (l : list PasswordAccount) : string :=
  "{ " +:+ quoted "ConsolePasswords" +:+ ": [ " +:+ str_join (passwordText <$> l) "," +:+ " ] }".

Definition sshCaMessage (r : CaRequest) : string :=
  "{ " +:+ quoted "SshCaPublicKey" +:+ ": [" +:+ str_join ((fun k => " " +:+ quoted (keyLine k)) <$> ca_keys r) "," +:+ " ] }".

(** * Checks *)

Definition nonEmpty (s : string) : bool := negb (String.eqb s "").

Definition validCredentials (l : list AccountCredentials) : bool :=
  negb (bool_decide (l = [])) &&
  forallb (fun set => nonEmpty (ac_version set) && negb (ac_created_on set =? 0)%N && nonEmpty (ac_account set)
                      && (0 <? length (ac_keys set))) l.

Definition validPolicies (l : list UserPolicy) : bool :=
  negb (bool_decide (l = [])) &&
  forallb (fun set => nonEmpty (up_version set) && negb (up_created_on set =? 0)%N && nonEmpty (up_account set)
                      && (0 <? length (up_principals set))) l.

Definition validPasswords (l : list PasswordAccount) : bool :=
  negb (bool_decide (l = [])) &&
  forallb (fun a => nonEmpty (pw_version a) && negb (pw_created_on a =? 0)%N && nonEmpty (pw_account a)
                    && nonEmpty (default "" (pw_password a))) l.

Definition validCa (r : CaRequest) : bool :=
  (0 <? length (ca_keys r)) && nonEmpty (ca_version r) && negb (ca_created_on r =? 0)%N &&
  forallb (fun k => nonEmpty (authorized_key k)) (ca_keys r).

(** [strconv.ParseBool] and [strconv.ParseInt] in base ten with a width. *)
Definition parseBool (s : string) : option bool :=
  if bool_decide (s ∈ ["1"; "t"; "T"; "TRUE"; "true"; "True"]) then Some true
  else if bool_decide (s ∈ ["0"; "f"; "F"; "FALSE"; "false"; "False"]) then Some false
  else None.

Definition parseInt (s : string) (bits : Z) : option Z :=
  match atoi s with
  | Some z => if ((- 2 ^ (bits - 1) <=? z) && (z <? 2 ^ (bits - 1)))%Z then Some z else None
  | None => None
  end.

(** How Redis arguments are written. *)
Definition redisBool (b : bool) : string := if b then "1" else "0".

(** * The service *)

Record Config := mkConfig { SshCredMetaFile : string; ConsoleCredMetaFile : string }.

Inductive SshFld := sshKeysVersionFld | sshKeysCreatedOnFld | sshPrincipalsVersionFld | sshPrincipalsCreatedOnFld.
Inductive HostFld := sshCaKeysVersionFld | sshCaKeysCreatedOnFld.
Inductive ConsoleFld := consolePasswordVersionFld | consolePasswordCreatedOnFld.

Definition sshFldName (f : SshFld) : string :=
  match f with
  | sshKeysVersionFld => "keys_version" | sshKeysCreatedOnFld => "keys_created_on"
  | sshPrincipalsVersionFld => "principals_version" | sshPrincipalsCreatedOnFld => "principals_created_on"
  end.
Definition hostFldName (f : HostFld) : string :=
  match f with sshCaKeysVersionFld => "ca_keys_version" | sshCaKeysCreatedOnFld => "ca_keys_created_on" end.
Definition consoleFldName (f : ConsoleFld) : string :=
  match f with consolePasswordVersionFld => "password_version" | consolePasswordCreatedOnFld => "password_created_on" end.

Definition sshAccountTbl : string := "SSH_ACCOUNT".
Definition sshHostTbl : string := "SSH_HOST".
Definition consoleAccountTbl : string := "CONSOLE_ACCOUNT".
Definition glomeKey : string := "CREDENTIALS|GLOME_CONFIG".

Definition set_ssh (m : SshAccountVersion) (f : SshFld) (val : string) : SshAccountVersion :=
  match f with
  | sshKeysVersionFld => mkSshAccount val (KeysCreatedOn m) (UsersVersion m) (UsersCreatedOn m)
  | sshKeysCreatedOnFld => mkSshAccount (KeysVersion m) val (UsersVersion m) (UsersCreatedOn m)
  | sshPrincipalsVersionFld => mkSshAccount (KeysVersion m) (KeysCreatedOn m) val (UsersCreatedOn m)
  | sshPrincipalsCreatedOnFld => mkSshAccount (KeysVersion m) (KeysCreatedOn m) (UsersVersion m) val
  end.
Definition set_host (m : SshHostVersion) (f : HostFld) (val : string) : SshHostVersion :=
  match f with sshCaKeysVersionFld => mkSshHost val (CaKeysCreatedOn m) | sshCaKeysCreatedOnFld => mkSshHost (CaKeysVersion m) val end.
Definition set_console (m : ConsoleAccountVersion) (f : ConsoleFld) (val : string) : ConsoleAccountVersion :=
  match f with
  | consolePasswordVersionFld => mkConsole val (PasswordCreatedOn m)
  | consolePasswordCreatedOnFld => mkConsole (PasswordVersion m) val
  end.

Definition newSshAccount : SshAccountVersion := mkSshAccount "unknown" "0" "unknown" "0".
Definition newConsoleAccount : ConsoleAccountVersion := mkConsole "unknown" "0".

Section Service.
Context `{!MapRange}.
(** File and Redis calls, the bus at each host call, the time left of the context then. *)
Variable fails : nat -> bool.
Variable torn : nat -> option string.
Variable bus : nat -> DbusCall -> busReply.
Variable show : list busVal -> string.
Variable deadline : nat -> option Z.
Variable cfg : Config.
(** The JSON encoder of the metadata, what [json.Unmarshal] leaves in it ([None]: a nil
    map), [protojson.Marshal] of a GLOME request, and whether [url.Parse] succeeds. *)
Variable encodeSsh : option (gmap string SshAccountVersion) * SshHostVersion -> string.
Variable decodeSsh : string -> option (gmap string SshAccountVersion) * SshHostVersion -> option (gmap string SshAccountVersion) * SshHostVersion.
Variable encodeConsole : option (gmap string ConsoleAccountVersion) -> string.
Variable decodeConsole : string -> option (gmap string ConsoleAccountVersion) -> option (gmap string ConsoleAccountVersion).
Variable marshalGlome : GlomeRequest -> option string.
Variable urlParses : string -> bool.

(** A host operation; it is recorded with whether it succeeded. *)
Definition host (o : HostOp) : M bool := fun s =>
  let b := bool_decide ((perform (bus (length (calls s))) show o (fun _ => 0%N)).1 = None) in
  (Some b, with_calls s (calls s ++ [(o, b)])).

Definition writeMeta (tbl key fld val : string) : M bool :=
  e ← io (fun w => writeCredentialsMetadataToDB fails w tbl key fld val);
  mret (bool_decide (e = None)).

Definition writeSshAccountCredentialsMetadataToDB (account : string) (fld : SshFld) (val : string) : M (option cz_error) :=
  ok ← writeMeta sshAccountTbl account (sshFldName fld) val;
  if negb ok then mret (Some DbFailed)
  else fun s =>
    match Accounts (sshCredMetadata s) with
    | None => (None, s)
    | Some l =>
        let m := default ∅ (sshMaps s !! l) in
        let meta := default newSshAccount (m !! account) in
        (Some None, with_sshMaps s (<[l := <[account := set_ssh meta fld val]> m]> (sshMaps s)))
    end.

Definition writeSshHostCredentialsMetadataToDB (fld : HostFld) (val : string) : M (option cz_error) :=
  ok ← writeMeta sshHostTbl "" (hostFldName fld) val;
  if negb ok then mret (Some DbFailed)
  else
    _ ← modify (fun s => with_ssh s (mkSsh (Accounts (sshCredMetadata s)) (set_host (Host (sshCredMetadata s)) fld val)) (sshCredMetadataCopy s));
    mret None.

Definition writeConsoleAccountCredentialsMetadataToDB (account : string) (fld : ConsoleFld) (val : string) : M (option cz_error) :=
  ok ← writeMeta consoleAccountTbl account (consoleFldName fld) val;
  if negb ok then mret (Some DbFailed)
  else fun s =>
    match consoleCredMetadata s with
    | None => (None, s)
    | Some l =>
        let m := default ∅ (consoleMaps s !! l) in
        let meta := default newConsoleAccount (m !! account) in
        (Some None, with_consoleMaps s (<[l := <[account := set_console meta fld val]> m]> (consoleMaps s)))
    end.

(** The writes that publish the metadata of accounts. *)
Definition sshAccountWrites (m : gmap string SshAccountVersion) : list (M (option cz_error)) :=
  '(a, u) ← range_of m;
  [writeSshAccountCredentialsMetadataToDB a sshKeysVersionFld (KeysVersion u);
   writeSshAccountCredentialsMetadataToDB a sshKeysCreatedOnFld (KeysCreatedOn u);
   writeSshAccountCredentialsMetadataToDB a sshPrincipalsVersionFld (UsersVersion u);
   writeSshAccountCredentialsMetadataToDB a sshPrincipalsCreatedOnFld (UsersCreatedOn u)].

Definition sshHostWrites (h : SshHostVersion) : list (M (option cz_error)) :=
  [writeSshHostCredentialsMetadataToDB sshCaKeysVersionFld (CaKeysVersion h);
   writeSshHostCredentialsMetadataToDB sshCaKeysCreatedOnFld (CaKeysCreatedOn h)].

Definition consoleWrites (m : gmap string ConsoleAccountVersion) : list (M (option cz_error)) :=
  '(a, u) ← range_of m;
  [writeConsoleAccountCredentialsMetadataToDB a consolePasswordVersionFld (PasswordVersion u);
   writeConsoleAccountCredentialsMetadataToDB a consolePasswordCreatedOnFld (PasswordCreatedOn u)].

Definition sshMapOf (s : Credz) (r : mapref) : option (gmap string SshAccountVersion) :=
  match r with None => None | Some l => Some (default ∅ (sshMaps s !! l)) end.
Definition consoleMapOf (s : Credz) (r : mapref) : option (gmap string ConsoleAccountVersion) :=
  match r with None => None | Some l => Some (default ∅ (consoleMaps s !! l)) end.

(** The copies of the metadata: the structs are copied, the maps are shared. *)
Definition checkpointSshCredentialFreshness : M unit := modify (fun s => with_ssh s (sshCredMetadata s) (sshCredMetadata s)).
Definition checkpointConsoleFreshness : M unit := modify (fun s => with_console s (consoleCredMetadata s) (consoleCredMetadata s)).

Definition revertSshCredentialFreshness : M unit :=
  h ← gets (fun s => Host (sshCredMetadataCopy s));
  _ ← ignoringErrors (sshHostWrites h);
  m ← gets (fun s => default ∅ (sshMapOf s (Accounts (sshCredMetadataCopy s))));
  ignoringErrors (sshAccountWrites m).

Definition revertConsoleCredentialFreshness : M unit :=
  m ← gets (fun s => default ∅ (consoleMapOf s (consoleCredMetadataCopy s)));
  ignoringErrors (consoleWrites m).

Definition saveCredentialsFreshness : M unit := fun s =>
  let text := encodeSsh (sshMapOf s (Accounts (sshCredMetadata s)), Host (sshCredMetadata s)) in
  (Some tt, with_world s (osWriteFile fails torn (world s) (SshCredMetaFile cfg) text).2).

Definition saveConsoleCredentialsFreshness : M unit := fun s =>
  let text := encodeConsole (consoleMapOf s (consoleCredMetadata s)) in
  (Some tt, with_world s (osWriteFile fails torn (world s) (ConsoleCredMetaFile cfg) text).2).

Definition checkpointOp (source : cpType) (a : CredzCheckpointAction) : HostOp :=
  match source with sshCP => OpSSHCheckpoint a | consoleCP => OpConsoleCheckpoint a end.

(** The error, if any, is Internal. *)
Definition checkpointCreate (source : cpType) : M bool :=
  ok ← host (checkpointOp source CredzCPCreate);
  if negb ok then mret false
  else
    _ ← match source with sshCP => checkpointSshCredentialFreshness | consoleCP => checkpointConsoleFreshness end;
    mret true.

Definition checkpointRestore (source : cpType) : M unit :=
  _ ← host (checkpointOp source CredzCPRestore);
  match source with sshCP => revertSshCredentialFreshness | consoleCP => revertConsoleCredentialFreshness end.

Definition checkpointDelete (source : cpType) : M unit :=
  _ ← host (checkpointOp source CredzCPDelete); mret tt.

(** * Processing a request *)

Definition processSshCred (l : list AccountCredentials) : M (option cz_error) :=
  if negb (validCredentials l) then mret (Some InvalidRequest)
  else
    ok ← host (OpSSHMgmtSet (sshKeysMessage l));
    if negb ok then mret (Some HostFailed)
    else untilError (set ← l;
      [writeSshAccountCredentialsMetadataToDB (ac_account set) sshKeysVersionFld (ac_version set);
       writeSshAccountCredentialsMetadataToDB (ac_account set) sshKeysCreatedOnFld (pretty (ac_created_on set))]).

Definition processSshUser (l : list UserPolicy) : M (option cz_error) :=
  if negb (validPolicies l) then mret (Some InvalidRequest)
  else
    ok ← host (OpSSHMgmtSet (sshUsersMessage l));
    if negb ok then mret (Some HostFailed)
    else untilError (set ← l;
      [writeSshAccountCredentialsMetadataToDB (up_account set) sshPrincipalsVersionFld (up_version set);
       writeSshAccountCredentialsMetadataToDB (up_account set) sshPrincipalsCreatedOnFld (pretty (up_created_on set))]).

Definition processConsolePassword (l : list PasswordAccount) : M (option cz_error) :=
  if negb (validPasswords l) then mret (Some InvalidRequest)
  else
    ok ← host (OpConsoleSet (consoleMessage l));
    if negb ok then mret (Some HostFailed)
    else untilError (set ← l;
      [writeConsoleAccountCredentialsMetadataToDB (pw_account set) consolePasswordVersionFld (pw_version set);
       writeConsoleAccountCredentialsMetadataToDB (pw_account set) consolePasswordCreatedOnFld (pretty (pw_created_on set))]).

Definition processSshCaPublicKey (r : option CaRequest) : M (option cz_error) :=
  match r with
  | None => mret (Some InvalidRequest)
  | Some r =>
      if negb (validCa r) then mret (Some InvalidRequest)
      else
        ok ← host (OpSSHMgmtSet (sshCaMessage r));
        if negb ok then mret (Some HostFailed)
        else untilError [writeSshHostCredentialsMetadataToDB sshCaKeysVersionFld (ca_version r);
                         writeSshHostCredentialsMetadataToDB sshCaKeysCreatedOnFld (pretty (ca_created_on r))]
  end.

(** * GLOME *)

Definition isValidURLPrefix (prefix : string) : bool := nonEmpty prefix && urlParses prefix.

Definition validateGlomeRequest (r : GlomeRequest) : bool :=
  if g_enabled r then nonEmpty (g_key r) && (0 <? g_key_version r)%Z && isValidURLPrefix (g_url_prefix r)
  else negb (nonEmpty (g_key r) || negb (g_key_version r =? 0)%Z || nonEmpty (g_url_prefix r)).

Definition defaultGlomeConfigMetadata : GlomeConfigMetadata := mkGlome false 0 0.

(** [Ok None] is the shared default object, which stands for an entry that does not exist. *)
Definition readGlomeConfigMetadataFromStateDB : M (res cz_error (option GlomeConfigMetadata)) := fun s =>
  if negb (stateDbClient s) then (None, s)
  else
    let '(e, w) := osCall fails (world s) in
    let s := with_world s w in
    match e with
    | Some _ => (Some (Err DbFailed), s)
    | None =>
        let result := default ∅ (db w !! glomeKey) in
        let get f := default "" (result !! f) in
        (Some (if bool_decide (result = ∅) then Ok None
               else match parseBool (get "enabled"), parseInt (get "key_version") 32, parseInt (get "last_updated") 64 with
                    | Some b, Some k, Some t => Ok (Some (mkGlome b k t))
                    | _, _, _ => Err BadMetadata
                    end), s)
    end.

Definition glomeFields (g : GlomeConfigMetadata) : gmap string string :=
  {["enabled" := redisBool (Enabled g); "key_version" := pretty (KeyVersion g); "last_updated" := pretty (LastUpdated g)]}.

Definition writeGlomeConfigMetadataToStateDB (g : option GlomeConfigMetadata) : M (option cz_error) := fun s =>
  match g with
  | None => (Some (Some NilMetadata), s)
  | Some g =>
      if negb (stateDbClient s) then (None, s)
      else
        let '(e, w) := osCall fails (world s) in
        match e with
        | Some _ => (Some (Some DbFailed), with_world s w)
        | None => (Some None, with_world s (set_db w (<[glomeKey := glomeFields g ∪ default ∅ (db w !! glomeKey)]> (db w))))
        end
  end.

Definition updateGlomeState (g : GlomeConfigMetadata) : M (option cz_error) :=
  r ← readGlomeConfigMetadataFromStateDB;
  match r with
  | Err e => mret (Some e)
  | Ok cur =>
      _ ← modify (fun s => with_glome s (Some (default defaultGlomeConfigMetadata cur)));
      writeGlomeConfigMetadataToStateDB (Some g)
  end.

Definition InitGlomeConfigMetadata : M unit :=
  r ← readGlomeConfigMetadataFromStateDB;
  match r with
  | Err _ => modify (fun s => with_glome s None)
  | Ok None =>
      _ ← writeGlomeConfigMetadataToStateDB (Some defaultGlomeConfigMetadata);
      modify (fun s => with_glome s (Some defaultGlomeConfigMetadata))
  | Ok (Some g) => modify (fun s => with_glome s (Some g))
  end.

Definition processGlomeConfig (r : option GlomeRequest) (lastUpdated : Z) : M (option cz_error) :=
  match r with
  | None => mret (Some InvalidRequest)
  | Some r =>
      if negb (validateGlomeRequest r) then mret (Some InvalidRequest)
      else
        match marshalGlome r with
        | None => mret (Some InvalidRequest)
        | Some text =>
            d ← gets (fun s => deadline (length (calls s)));
            ok ← host (OpGLOMEConfigSet d text);
            if negb ok then mret (Some HostFailed)
            else updateGlomeState (mkGlome (g_enabled r) (g_key_version r) lastUpdated)
        end
  end.

Definition glomeCheckpointRestore : M unit :=
  d ← gets (fun s => deadline (length (calls s)));
  _ ← host (OpGLOMERestoreCheckpoint d);
  g ← gets glomeConfigMetadata;
  _ ← writeGlomeConfigMetadataToStateDB g;
  mret tt.

(** * The RPCs *)

(** The restores of an account rotation that fails. *)
Definition restoreBackups (sshBackup consoleBackup : bool) : M unit :=
  _ ← (if sshBackup then checkpointRestore sshCP else mret tt);
  if consoleBackup then checkpointRestore consoleCP else mret tt.

(** The checkpoint before the first request of a kind; the save of its metadata is
    deferred to the end of the RPC. *)
Definition ensureCheckpoint (source : cpType) (backup : bool) : M bool :=
  if backup then mret true
  else
    ok ← checkpointCreate source;
    if negb ok then mret false
    else _ ← modify (fun s => with_deferred s (source :: deferred s)); mret true.

Definition sourceOf (r : AccountRequest) : option cpType :=
  match r with APassword _ => Some consoleCP | ACredential _ | AUser _ => Some sshCP | _ => None end.

Definition processAccount (r : AccountRequest) : M (option cz_error) :=
  match r with
  | APassword l => processConsolePassword l
  | ACredential l => processSshCred l
  | AUser l => processSshUser l
  | _ => mret (Some InvalidRequest)
  end.

Fixpoint accountLoop (sshBackup consoleBackup : bool) (evs : list (RecvEvent AccountRequest)) : M Code :=
  match evs with
  | [] | RecvErr :: _ => _ ← restoreBackups sshBackup consoleBackup; mret Aborted
  | RecvReq (AFinalize present) _ :: _ =>
      if present then
        _ ← (if sshBackup then checkpointDelete sshCP else mret tt);
        _ ← (if consoleBackup then checkpointDelete consoleCP else mret tt);
        mret OK
      else mret Aborted
  | RecvReq r send_ok :: evs =>
      match sourceOf r with
      | None => mret Aborted
      | Some source =>
          let backup := match source with sshCP => sshBackup | consoleCP => consoleBackup end in
          ok ← ensureCheckpoint source backup;
          if negb ok then mret Internal
          else
            let sshBackup := match source with sshCP => true | consoleCP => sshBackup end in
            let consoleBackup := match source with sshCP => consoleBackup | consoleCP => true end in
            e ← processAccount r;
            match e with
            | Some _ => _ ← restoreBackups sshBackup consoleBackup; mret Aborted
            | None =>
                if send_ok then accountLoop sshBackup consoleBackup evs
                else _ ← restoreBackups sshBackup consoleBackup; mret Aborted
            end
      end
  end.

(** The deferred saves, last one first. *)
Definition runDeferred : M unit :=
  l ← gets deferred;
  _ ← each_ (fun source => match source with sshCP => saveCredentialsFreshness | consoleCP => saveConsoleCredentialsFreshness end) l;
  modify (fun s => with_deferred s []).

(** [auth]: the error of authentication; [locked]: another rotation is under way. *)
Definition RotateAccountCredentials (auth : option Code) (locked : bool) (evs : list (RecvEvent AccountRequest)) : M Code :=
  match auth with
  | Some c => mret c
  | None => if locked then mret Aborted else finally (accountLoop false false evs) runDeferred
  end.

(** What follows the processing of a host parameter: the response, and a finalize
    message; anything else restores. *)
Definition expectFinalize (send_ok : bool) (evs : list (RecvEvent HostRequest)) (restore done : M unit) : M Code :=
  if negb send_ok then _ ← restore; mret Aborted
  else match evs with
       | RecvReq HFinalize _ :: _ => _ ← done; mret OK
       | _ => _ ← restore; mret Aborted
       end.

Definition handleSshCaPublicKey (r : option CaRequest) (send_ok : bool) (evs : list (RecvEvent HostRequest)) : M Code :=
  ok ← checkpointCreate sshCP;
  if negb ok then mret Internal
  else finally
    (e ← processSshCaPublicKey r;
     match e with
     | Some _ => _ ← checkpointRestore sshCP; mret Aborted
     | None => expectFinalize send_ok evs (checkpointRestore sshCP) (checkpointDelete sshCP)
     end) saveCredentialsFreshness.

Definition handleGlome (now : Z) (r : option GlomeRequest) (send_ok : bool) (evs : list (RecvEvent HostRequest)) : M Code :=
  e ← processGlomeConfig r now;
  match e with
  | Some _ => _ ← glomeCheckpointRestore; mret Aborted
  | None => expectFinalize send_ok evs glomeCheckpointRestore (mret tt)
  end.

Definition RotateHostParameters (auth : option Code) (locked : bool) (now : Z) (evs : list (RecvEvent HostRequest)) : M Code :=
  match auth with
  | Some c => mret c
  | None =>
      if locked then mret Aborted
      else match evs with
           | [] | RecvErr :: _ => mret Aborted
           | RecvReq r send_ok :: evs =>
               match r with
               | HSshCaPublicKey r => handleSshCaPublicKey r send_ok evs
               | HGlome r => handleGlome now r send_ok evs
               | HServerKeys | HGenerateKeys | HAuthenticationAllowed | HAuthorizedPrincipalCheck => mret Unimplemented
               | HFinalize | HUnknown => mret Aborted
               end
           end
  end.

(** * Start *)

Definition NewSshCredMetadata : M unit :=
  modify (fun s => with_ssh (with_sshMaps s (<[0 := ∅]> (sshMaps s))) (mkSsh (Some 0) (mkSshHost "unknown" "0")) (sshCredMetadataCopy s)).
Definition NewConsoleCredMetadata : M unit :=
  modify (fun s => with_console (with_consoleMaps s (<[0 := ∅]> (consoleMaps s))) (Some 0) (consoleCredMetadataCopy s)).

Definition loadCredentialFreshness : M unit :=
  r ← io (fun w => osReadFile fails w (SshCredMetaFile cfg));
  match r with
  | Err _ => mret tt
  | Ok text => modify (fun s =>
      let '(m, h) := decodeSsh text (sshMapOf s (Accounts (sshCredMetadata s)), Host (sshCredMetadata s)) in
      let ref := match m, Accounts (sshCredMetadata s) with None, _ => None | Some _, Some l => Some l | Some _, None => Some 0 end in
      let heap := match m, ref with Some m, Some l => <[l := m]> (sshMaps s) | _, _ => sshMaps s end in
      with_ssh (with_sshMaps s heap) (mkSsh ref h) (sshCredMetadataCopy s))
  end.

Definition loadConsoleCredentialFreshness : M unit :=
  r ← io (fun w => osReadFile fails w (ConsoleCredMetaFile cfg));
  match r with
  | Err _ => mret tt
  | Ok text => modify (fun s =>
      let m := decodeConsole text (consoleMapOf s (consoleCredMetadata s)) in
      let ref := match m, consoleCredMetadata s with None, _ => None | Some _, Some l => Some l | Some _, None => Some 0 end in
      let heap := match m, ref with Some m, Some l => <[l := m]> (consoleMaps s) | _, _ => consoleMaps s end in
      with_console (with_consoleMaps s heap) ref (consoleCredMetadataCopy s))
  end.

(** The zero server, before the constructor. *)
Definition zeroServer (hasStateDb : bool) (w : World) : Credz :=
  mkCredz (mkSsh None (mkSshHost "" "")) (mkSsh None (mkSshHost "" "")) None None ∅ ∅ None hasStateDb w [] [].

Definition NewGNSICredentialzServer : M unit :=
  _ ← NewSshCredMetadata;
  _ ← NewConsoleCredMetadata;
  _ ← loadCredentialFreshness;
  _ ← loadConsoleCredentialFreshness;
  _ ← checkpointSshCredentialFreshness;
  h ← gets (fun s => Host (sshCredMetadata s));
  _ ← ignoringErrors (sshHostWrites h);
  m ← gets (fun s => default ∅ (sshMapOf s (Accounts (sshCredMetadata s))));
  _ ← ignoringErrors (sshAccountWrites m);
  _ ← checkpointConsoleFreshness;
  c ← gets (fun s => default ∅ (consoleMapOf s (consoleCredMetadata s)));
  _ ← ignoringErrors (consoleWrites c);
  InitGlomeConfigMetadata.
End Service.
End Credentialz.
