(* ===== verification/CredentialzProofs.v ===== *)
(** Properties of the credentialz service: the checkpoint protocol with the host, what a
    finalized rotation has done, freedom from panics, the GLOME metadata; and the
    roll-backs that do not happen. *)

From S2P Require Import Prelude PanicMonad GnmiTypes HostIO HostService Credentialz.
Import HostService Credentialz.
Open Scope go_scope.

(** * A logic of computations *)

Abbreviation dbt := (gmap string (gmap string string)).
Abbreviation trace := (list (HostOp * bool)).

(** The maps are not nil and the server has a client of STATE_DB. *)
Definition wfServer (s : Credz) : Prop :=
  is_Some (Accounts (sshCredMetadata s)) /\ is_Some (consoleCredMetadata s) /\ stateDbClient s = true.

(** On every well-formed server [m] ends without a panic in a well-formed server, and its
    result, its host calls and the database before and after are related by [Q]. *)
Definition acts {A} (m : M A) (Q : dbt -> A -> trace -> dbt -> Prop) : Prop :=
  forall s, wfServer s -> exists a s' tr,
    m s = (Some a, s') /\ wfServer s' /\ calls s' = calls s ++ tr /\ Q (db (world s)) a tr (db (world s')).

Lemma acts_ret {A} (a : A) (Q : dbt -> A -> trace -> dbt -> Prop) : (forall d, Q d a [] d) -> acts (mret a) Q.
Proof. intros H s Hs. exists a, s, []. by rewrite app_nil_r. Qed.

Lemma acts_bind {A B} (m : M A) (f : A -> M B) Q1 Q :
  acts m Q1 ->
  (forall d0 a tr1 d1, Q1 d0 a tr1 d1 -> acts (f a) (fun d b tr2 d2 => d = d1 -> Q d0 b (tr1 ++ tr2) d2)) ->
  acts (m ≫= f) Q.
Proof.
  intros Hm Hf s Hs. destruct (Hm s Hs) as (a & s1 & tr1 & E1 & W1 & C1 & H1).
  destruct (Hf _ _ _ _ H1 s1 W1) as (b & s2 & tr2 & E2 & W2 & C2 & H2).
  exists b, s2, (tr1 ++ tr2). unfold mbind, SM_bind. rewrite E1. split_and!; [done|done| |by apply H2].
  by rewrite C2, C1, app_assoc.
Qed.

Lemma acts_weaken {A} (m : M A) (Q Q' : dbt -> A -> trace -> dbt -> Prop) :
  acts m Q -> (forall d a tr d', Q d a tr d' -> Q' d a tr d') -> acts m Q'.
Proof. intros H HQ s Hs. destruct (H s Hs) as (a & s' & tr & ? & ? & ? & ?). exists a, s', tr. auto. Qed.

Lemma acts_gets {A} (f : Credz -> A) Q : (forall d a, Q d a [] d) -> acts (gets f) Q.
Proof. intros H s Hs. exists (f s), s, []. by rewrite app_nil_r. Qed.

Lemma acts_modify f Q :
  (forall s, wfServer s -> wfServer (f s) /\ calls (f s) = calls s /\ world (f s) = world s) ->
  (forall d, Q d tt [] d) -> acts (modify f) Q.
Proof.
  intros Hf HQ s Hs. destruct (Hf s Hs) as (? & Hc & Hw). exists tt, (f s), []. rewrite app_nil_r, Hw. auto.
Qed.

Lemma acts_finally {A} (m : M A) d Q :
  acts m Q -> acts d (fun d _ tr d' => tr = [] /\ d' = d) -> acts (finally m d) Q.
Proof.
  intros Hm Hd s Hs. destruct (Hm s Hs) as (a & s1 & tr & E1 & W1 & C1 & H1).
  destruct (Hd s1 W1) as (u & s2 & tr2 & E2 & W2 & C2 & -> & Hw). exists a, s2, tr.
  unfold finally. rewrite E1, E2. split_and!; [done|done|by rewrite C2, app_nil_r|by rewrite Hw].
Qed.

(** * Writes *)

(** A field of a hash. *)
Record metaWrite := mkWrite { mw_path : string; mw_field : string; mw_value : string }.

Definition metaPath (tbl key : string) : string :=
  let path := str_join ["CREDENTIALS"; tbl] "|" in
  if 0 <? String.length key then str_join [path; key] "|" else path.

Definition applyWrite (d : dbt) (w : metaWrite) : dbt :=
  <[mw_path w := <[mw_field w := mw_value w]> (default ∅ (d !! mw_path w))]> d.

Definition applyWrites (d : dbt) (l : list metaWrite) : dbt := foldl applyWrite d l.

(** No host call; on success exactly the writes [l], on failure the first ones of them. *)
Definition writes (l : list metaWrite) : dbt -> option cz_error -> trace -> dbt -> Prop :=
  fun d e tr d' => tr = [] /\ exists n, d' = applyWrites d (take n l) /\ (e = None -> n = length l).

(** * What a request stands for *)

Definition validRequest (r : AccountRequest) : bool :=
  match r with
  | APassword l => validPasswords l | ACredential l => validCredentials l | AUser l => validPolicies l
  | _ => false
  end.

(** The host operation that carries a request, and the metadata it writes. *)
Definition carrier (r : AccountRequest) : HostOp :=
  match r with
  | APassword l => OpConsoleSet (consoleMessage l)
  | ACredential l => OpSSHMgmtSet (sshKeysMessage l)
  | AUser l => OpSSHMgmtSet (sshUsersMessage l)
  | _ => OpListImages
  end.

Definition requestWrites (r : AccountRequest) : list metaWrite :=
  match r with
  | APassword l => a ← l; [mkWrite (metaPath consoleAccountTbl (pw_account a)) "password_version" (pw_version a);
                           mkWrite (metaPath consoleAccountTbl (pw_account a)) "password_created_on" (pretty (pw_created_on a))]
  | ACredential l => a ← l; [mkWrite (metaPath sshAccountTbl (ac_account a)) "keys_version" (ac_version a);
                             mkWrite (metaPath sshAccountTbl (ac_account a)) "keys_created_on" (pretty (ac_created_on a))]
  | AUser l => a ← l; [mkWrite (metaPath sshAccountTbl (up_account a)) "principals_version" (up_version a);
                       mkWrite (metaPath sshAccountTbl (up_account a)) "principals_created_on" (pretty (up_created_on a))]
  | _ => []
  end.

(** The calls that change credentials, and those that restore. *)
Definition isSet (c : HostOp * bool) : bool :=
  match c.1 with OpSSHMgmtSet _ | OpConsoleSet _ => true | _ => false end.
Definition isRestore (c : HostOp * bool) : bool :=
  match c.1 with OpSSHCheckpoint CredzCPRestore | OpConsoleCheckpoint CredzCPRestore => true | _ => false end.

(** * The checkpoint protocol *)

(** The checkpoint of one kind as the host sees it: credentials are set only while one
    exists; it is created when there is none, and restored or deleted when there is one. *)
Inductive cpState := CpNone | CpOpen | CpBad.

Definition cpAction (st : cpState) (a : CredzCheckpointAction) (ok : bool) : cpState :=
  match a, st with
  | CredzCPCreate, CpNone => if ok then CpOpen else CpNone
  | CredzCPDelete, CpOpen | CredzCPRestore, CpOpen => CpNone
  | _, _ => CpBad
  end.

Definition cpStep (k : cpType) (st : cpState) (c : HostOp * bool) : cpState :=
  let inOpen := match st with CpOpen => CpOpen | _ => CpBad end in
  match k, c.1 with
  | sshCP, OpSSHCheckpoint a => cpAction st a c.2
  | consoleCP, OpConsoleCheckpoint a => cpAction st a c.2
  | sshCP, OpSSHMgmtSet _ => inOpen
  | consoleCP, OpConsoleSet _ => inOpen
  | _, _ => st
  end.

Definition protocol (k : cpType) (st : cpState) (tr : trace) : cpState := foldl (cpStep k) st tr.

Section Service.
Context {mr : MapRange}.
Variables (fails : nat -> bool) (torn : nat -> option string) (bus : nat -> DbusCall -> busReply) (show : list busVal -> string).
Variables (deadline : nat -> option Z) (cfg : Config).
Variables (encodeSsh : option (gmap string SshAccountVersion) * SshHostVersion -> string).
Variables (encodeConsole : option (gmap string ConsoleAccountVersion) -> string).
Variables (marshalGlome : GlomeRequest -> option string) (urlParses : string -> bool).

Lemma writeMeta_acts tbl key fld val :
  acts (writeMeta fails tbl key fld val)
    (fun d ok tr d' => tr = [] /\ d' = if (ok : bool) then applyWrite d (mkWrite (metaPath tbl key) fld val) else d).
Proof.
  intros s Hs. unfold writeMeta, io, mbind, SM_bind, writeCredentialsMetadataToDB, osCall, next.
  destruct (fails (tick (world s))) eqn:E1; cbn.
  - eexists _, _, []. rewrite app_nil_r. split_and!; [reflexivity|exact Hs|reflexivity|reflexivity|reflexivity].
  - destruct (fails (S (tick (world s)))) eqn:E2; cbn;
      (eexists _, _, []; rewrite app_nil_r; split_and!; [reflexivity|exact Hs|reflexivity|reflexivity|reflexivity]).
Qed.

Lemma write_acts tbl key fld val (k : M (option cz_error)) :
  (forall s, wfServer s -> exists s', k s = (Some None, s') /\ wfServer s' /\ calls s' = calls s /\ world s' = world s) ->
  acts (ok ← writeMeta fails tbl key fld val; if negb ok then mret (Some DbFailed) else k)
    (writes [mkWrite (metaPath tbl key) fld val]).
Proof.
  intros Hk. eapply acts_bind; [apply writeMeta_acts|]. intros d ok tr1 d1 [-> ->]. destruct ok; cbn [negb].
  - intros s Hs. destruct (Hk s Hs) as (s' & Ek & W & C & Hw). exists None, s', []. rewrite app_nil_r, Hw.
    split_and!; [done|done|done|]. intros Hd. split; [done|]. exists 1. by rewrite Hd.
  - apply acts_ret. intros d' ->. split; [done|]. by exists 0.
Qed.

Lemma writeSshAccount_acts account fld val :
  acts (writeSshAccountCredentialsMetadataToDB fails account fld val)
    (writes [mkWrite (metaPath sshAccountTbl account) (sshFldName fld) val]).
Proof. apply write_acts. intros s Hs. destruct (Hs) as ([l Hl] & Hrest). rewrite Hl. by eexists. Qed.

Lemma writeSshHost_acts fld val :
  acts (writeSshHostCredentialsMetadataToDB fails fld val) (writes [mkWrite (metaPath sshHostTbl "") (hostFldName fld) val]).
Proof. apply write_acts. intros s Hs. by eexists. Qed.

Lemma writeConsole_acts account fld val :
  acts (writeConsoleAccountCredentialsMetadataToDB fails account fld val)
    (writes [mkWrite (metaPath consoleAccountTbl account) (consoleFldName fld) val]).
Proof. apply write_acts. intros s Hs. destruct (Hs) as (Ha & [l Hl] & Hd). rewrite Hl. by eexists. Qed.

Lemma applyWrites_app d l1 l2 : applyWrites d (l1 ++ l2) = applyWrites (applyWrites d l1) l2.
Proof. apply foldl_app. Qed.

Lemma untilError_acts ms ls :
  Forall2 (fun m w => acts m (writes [w])) ms ls -> acts (untilError ms) (writes ls).
Proof.
  induction 1 as [|m w ms ls Hm _ IH]; cbn [untilError].
  { apply acts_ret. intros d. split; [done|]. by exists 0. }
  eapply acts_bind; [exact Hm|]. intros d e tr d1 (-> & n & -> & Hn). destruct e as [e|].
  - apply acts_ret. intros d' ->. split; [done|]. exists (min n 1). split; [|done].
    by destruct n as [|[|n]].
  - rewrite (Hn eq_refl). eapply acts_weaken; [exact IH|]. intros d' e tr d2 (-> & k & -> & Hk) ->.
    split; [done|]. exists (S k). split; [done|]. cbn. intros He. by rewrite Hk.
Qed.

Lemma ignoringErrors_acts ms (Q : dbt -> unit -> trace -> dbt -> Prop) :
  Forall (fun m => exists l, acts m (writes l)) ms -> (forall d d', Q d tt [] d') -> acts (ignoringErrors ms) Q.
Proof.
  intros H HQ. assert (acts (ignoringErrors ms) (fun _ _ tr _ => tr = [])) as Hi.
  { clear Q HQ. induction H as [|m ms [l Hm] _ IH]; cbn [ignoringErrors]; [by apply acts_ret|].
    eapply acts_bind; [exact Hm|]. intros d e tr d1 [-> _]. eapply acts_weaken; [exact IH|]. by intros d' [] tr d2 -> ->. }
  eapply acts_weaken; [exact Hi|]. intros d [] tr d' ->. apply HQ.
Qed.

(** * The parts of the service *)

Lemma host_acts o : acts (host bus show o) (fun d b tr d' => tr = [(o, b)] /\ d' = d).
Proof. intros s Hs. by eexists _, _, [_]. Qed.

Lemma process_writes op (ms : list (M (option cz_error))) ls :
  Forall2 (fun m w => acts m (writes [w])) ms ls ->
  acts (ok ← host bus show op; if negb ok then mret (Some HostFailed) else untilError ms)
    (fun d e tr d' => exists b, tr = [(op, b)] /\ (e = None -> b = true /\ d' = applyWrites d ls)).
Proof.
  intros H. eapply acts_bind; [apply host_acts|]. intros d b tr d1 [-> ->]. destruct b; cbn [negb].
  - eapply acts_weaken; [by apply untilError_acts|]. intros d' e tr d2 (-> & n & -> & Hn) ->.
    exists true. split; [done|]. intros He. split; [done|]. by rewrite (Hn He), firstn_all.
  - apply acts_ret. intros d' ->. by exists false.
Qed.

Lemma pairs_acts {A} (l : list A) (f g : A -> M (option cz_error)) (wf wg : A -> metaWrite) :
  (forall a, acts (f a) (writes [wf a])) -> (forall a, acts (g a) (writes [wg a])) ->
  Forall2 (fun m w => acts m (writes [w])) (a ← l; [f a; g a]) (a ← l; [wf a; wg a]).
Proof. intros Hf Hg. induction l as [|a l IH]; [constructor|]. by repeat constructor. Qed.

(** Processing a request: refused without any effect, or sent to the host once and, when
    it succeeds, recorded. *)
Definition processed (r : AccountRequest) : dbt -> option cz_error -> trace -> dbt -> Prop :=
  fun d e tr d' =>
    (validRequest r = false /\ e <> None /\ tr = [] /\ d' = d) \/
    (validRequest r = true /\ exists b, tr = [(carrier r, b)] /\ (e = None -> b = true /\ d' = applyWrites d (requestWrites r))).

Lemma processAccount_acts r : acts (processAccount fails bus show r) (processed r).
Proof.
  destruct r as [|l|l|l|]; cbn [processAccount];
    [|unfold processConsolePassword; destruct (validPasswords l) eqn:E|unfold processSshCred; destruct (validCredentials l) eqn:E
     |unfold processSshUser; destruct (validPolicies l) eqn:E|]; cbn [negb];
    try (apply acts_ret; intros d; by left);
    (eapply acts_weaken; [apply process_writes, pairs_acts; intros a; first [apply writeConsole_acts|apply writeSshAccount_acts]|]);
    intros d e tr d' H; right; by split.
Qed.

Lemma revert_acts source (Q : dbt -> unit -> trace -> dbt -> Prop) :
  (forall d d', Q d tt [] d') ->
  acts (match source with sshCP => revertSshCredentialFreshness fails | consoleCP => revertConsoleCredentialFreshness fails end) Q.
Proof.
  intros HQ. destruct source.
  - eapply acts_bind; [apply acts_gets with (Q := fun d _ tr d' => tr = [] /\ d' = d); auto|]. intros d m tr d1 [-> ->].
    apply ignoringErrors_acts; [|auto]. unfold consoleWrites.
    induction (range_of m) as [|[a u] l IH]; [constructor|]. do 2 (constructor; [eexists; apply writeConsole_acts|]). exact IH.
  - eapply acts_bind; [apply acts_gets with (Q := fun d _ tr d' => tr = [] /\ d' = d); auto|]. intros d h tr d1 [-> ->].
    eapply acts_bind; [apply ignoringErrors_acts with (Q := fun _ _ tr _ => tr = []); [|auto]|].
    { do 2 (constructor; [eexists; apply writeSshHost_acts|]). constructor. }
    intros d2 [] tr d3 ->. eapply acts_bind; [apply acts_gets with (Q := fun d _ tr d' => tr = [] /\ d' = d); auto|]. intros d4 m tr d5 [-> ->].
    apply ignoringErrors_acts; [|auto]. unfold sshAccountWrites.
    induction (range_of m) as [|[a u] l IH]; [constructor|]. do 4 (constructor; [eexists; apply writeSshAccount_acts|]). exact IH.
Qed.

Lemma checkpointRestore_acts source :
  acts (checkpointRestore fails bus show source) (fun _ _ tr _ => exists b, tr = [(checkpointOp source CredzCPRestore, b)]).
Proof.
  eapply acts_bind; [apply host_acts|]. intros d b tr d1 [-> ->]. apply revert_acts. intros d2 d3 ->. by exists b.
Qed.

Lemma checkpointDelete_acts source :
  acts (checkpointDelete bus show source) (fun d _ tr d' => (exists b, tr = [(checkpointOp source CredzCPDelete, b)]) /\ d' = d).
Proof.
  eapply acts_bind; [apply host_acts|]. intros d b tr d1 [-> ->]. apply acts_ret. intros d2 ->. eauto.
Qed.

Lemma checkpointCreate_acts source :
  acts (checkpointCreate bus show source) (fun d ok tr d' => tr = [(checkpointOp source CredzCPCreate, ok)] /\ d' = d).
Proof.
  eapply acts_bind; [apply host_acts|]. intros d b tr d1 [-> ->]. destruct b; cbn [negb]; [|by apply acts_ret; intros d2 ->].
  eapply acts_bind with (Q1 := fun d _ tr d' => tr = [] /\ d' = d).
  { destruct source; apply acts_modify; [by intros s (?&?&?)|done|by intros s (?&?&?)|done]. }
  intros d2 [] tr d3 [-> ->]. apply acts_ret. by intros d4 -> ->.
Qed.

Lemma ensureCheckpoint_acts source backup :
  acts (ensureCheckpoint bus show source backup)
    (fun d ok tr d' => d' = d /\ if backup then ok = true /\ tr = [] else tr = [(checkpointOp source CredzCPCreate, ok)]).
Proof.
  unfold ensureCheckpoint. destruct backup; [by apply acts_ret|].
  eapply acts_bind; [apply checkpointCreate_acts|]. intros d ok tr d1 [-> ->]. destruct ok; cbn [negb]; [|by apply acts_ret; intros d2 ->].
  eapply acts_bind with (Q1 := fun d _ tr d' => tr = [] /\ d' = d); [apply acts_modify; [by intros s (?&?&?)|done]|].
  intros d2 [] tr d3 [-> ->]. apply acts_ret. by intros d4 -> ->.
Qed.

(** The restores of the kinds with a checkpoint. *)
Definition restoresOf (sshB consoleB : bool) (tr : trace) : Prop :=
  exists b1 b2, tr = (if sshB then [(checkpointOp sshCP CredzCPRestore, b1)] else []) ++
                     (if consoleB then [(checkpointOp consoleCP CredzCPRestore, b2)] else []).

Lemma restoreBackups_acts sshB consoleB : acts (restoreBackups fails bus show sshB consoleB) (fun _ _ tr _ => restoresOf sshB consoleB tr).
Proof.
  eapply acts_bind with (Q1 := fun _ _ tr _ => exists b, tr = if sshB then [(checkpointOp sshCP CredzCPRestore, b)] else []).
  { destruct sshB; [apply checkpointRestore_acts|apply acts_ret; by exists false]. }
  intros d [] tr d1 [b1 ->]. destruct consoleB.
  - eapply acts_weaken; [apply checkpointRestore_acts|]. intros d2 [] tr d3 [b2 ->] _. by exists b1, b2.
  - apply acts_ret. intros d2 _. by exists b1, false.
Qed.

(** * Account rotations *)

Definition stOf (b : bool) : cpState := if b then CpOpen else CpNone.
Definition backupOf (k : cpType) (sshB consoleB : bool) : bool := match k with sshCP => sshB | consoleCP => consoleB end.

(** The loop is left without settling the checkpoints: a message it does not know, an
    empty finalize message, or a checkpoint that cannot be created. *)
Definition abandoned (evs : list (RecvEvent AccountRequest)) (tr : trace) : Prop :=
  (exists r ok, RecvReq r ok ∈ evs /\ (r = AUnknown \/ r = AFinalize false)) \/
  (exists k, (checkpointOp k CredzCPCreate, false) ∈ tr).

Definition isDelete (c : HostOp * bool) : bool :=
  match c.1 with OpSSHCheckpoint CredzCPDelete | OpConsoleCheckpoint CredzCPDelete => true | _ => false end.

(** What a finalized rotation has done. *)
Definition finalized (evs : list (RecvEvent AccountRequest)) (d : dbt) (tr : trace) (d' : dbt) : Prop :=
  exists reqs ok rest, evs = ((fun r => RecvReq r true) <$> reqs) ++ RecvReq (AFinalize true) ok :: rest /\
    Forall (fun r => validRequest r = true) reqs /\
    List.filter isSet tr = (fun r => (carrier r, true)) <$> reqs /\ List.filter isRestore tr = [] /\
    d' = applyWrites d (reqs ≫= requestWrites).

Definition loopSpec (sshB consoleB : bool) (evs : list (RecvEvent AccountRequest)) : dbt -> Code -> trace -> dbt -> Prop :=
  fun d code tr d' =>
    (forall k, let st := protocol k (stOf (backupOf k sshB consoleB)) tr in st <> CpBad /\ (st = CpNone \/ abandoned evs tr)) /\
    (code = OK -> finalized evs d tr d') /\ (code <> OK -> List.filter isDelete tr = []).

Lemma loopSpec_restores sshB consoleB evs d tr d' :
  restoresOf sshB consoleB tr -> loopSpec sshB consoleB evs d Aborted tr d'.
Proof.
  intros (b1 & b2 & ->). split_and!; [|done|by destruct sshB, consoleB]. intros k. by destruct k, sshB, consoleB; (split; [|left]).
Qed.

(** A trace that keeps the checkpoints in step with the flags can be put in front. *)
Lemma loopSpec_step sshB consoleB sshB' consoleB' ev evs d tr1 d1 code tr2 d2 :
  (forall k, protocol k (stOf (backupOf k sshB consoleB)) tr1 = stOf (backupOf k sshB' consoleB')) ->
  List.filter isDelete tr1 = [] ->
  (code = OK -> finalized evs d1 tr2 d2 -> finalized (ev :: evs) d (tr1 ++ tr2) d2) ->
  loopSpec sshB' consoleB' evs d1 code tr2 d2 -> loopSpec sshB consoleB (ev :: evs) d code (tr1 ++ tr2) d2.
Proof.
  intros Hp Hd Hf (H1 & H2 & H3). split_and!; [|by auto|].
  - intros k. unfold protocol in *. rewrite foldl_app, Hp. destruct (H1 k) as [Hb [Hn|Ha]]; split; try done; [by left|].
    right. destruct Ha as [(r & ok & Hin & Hr)|[k' Hin]]; [left; exists r, ok; set_solver|right; exists k'; set_solver].
  - intros Hc. rewrite List.filter_app, Hd. by apply H3.
Qed.

Lemma finalized_cons r evs d d1 tr1 tr2 d2 :
  validRequest r = true -> List.filter isSet tr1 = [(carrier r, true)] -> List.filter isRestore tr1 = [] ->
  d1 = applyWrites d (requestWrites r) ->
  finalized evs d1 tr2 d2 -> finalized (RecvReq r true :: evs) d (tr1 ++ tr2) d2.
Proof.
  intros Hv Hs Hr -> (reqs & ok & rest & -> & Hall & Hs2 & Hr2 & ->). exists (r :: reqs), ok, rest.
  rewrite !List.filter_app, Hs, Hr, Hs2, Hr2. split_and!; [done|by constructor|done|done|]. cbn. by rewrite applyWrites_app.
Qed.

(** The checkpoint and the call of one valid request. *)
Definition prepTrace (source : cpType) (backup : bool) : trace :=
  if backup then [] else [(checkpointOp source CredzCPCreate, true)].

Lemma prep_protocol r source sshB consoleB b :
  sourceOf r = Some source ->
  let tr := prepTrace source (backupOf source sshB consoleB) in
  let sshB' := match source with sshCP => true | consoleCP => sshB end in
  let consoleB' := match source with sshCP => consoleB | consoleCP => true end in
  (forall k, protocol k (stOf (backupOf k sshB consoleB)) tr = stOf (backupOf k sshB' consoleB')) /\
  (forall k, protocol k (stOf (backupOf k sshB consoleB)) (tr ++ [(carrier r, b)]) = stOf (backupOf k sshB' consoleB')) /\
  List.filter isDelete (tr ++ [(carrier r, b)]) = [] /\ List.filter isDelete tr = [] /\
  List.filter isSet (tr ++ [(carrier r, b)]) = [(carrier r, b)] /\ List.filter isRestore (tr ++ [(carrier r, b)]) = [].
Proof.
  intros Hs. destruct r; simplify_eq/=; destruct sshB, consoleB; cbn; split_and!; try done; intros k; by destruct k.
Qed.

(** One request of a rotation. *)
Definition afterSource (source : cpType) (sshB consoleB : bool) : bool * bool :=
  match source with sshCP => (true, consoleB) | consoleCP => (sshB, true) end.

Lemma accountLoop_request r source send_ok sshB consoleB evs :
  sourceOf r = Some source ->
  accountLoop fails bus show sshB consoleB (RecvReq r send_ok :: evs) =
  (ok ← ensureCheckpoint bus show source (backupOf source sshB consoleB);
   if negb ok then mret Internal
   else
     let '(sshBackup, consoleBackup) := afterSource source sshB consoleB in
     e ← processAccount fails bus show r;
     match e with
     | Some _ => _ ← restoreBackups fails bus show sshBackup consoleBackup; mret Aborted
     | None =>
         if send_ok then accountLoop fails bus show sshBackup consoleBackup evs
         else _ ← restoreBackups fails bus show sshBackup consoleBackup; mret Aborted
     end).
Proof. by destruct r; intros [= <-]. Qed.

Lemma restore_aborts sshB consoleB :
  acts (_ ← restoreBackups fails bus show sshB consoleB; mret Aborted) (fun _ code tr _ => code = Aborted /\ restoresOf sshB consoleB tr).
Proof. eapply acts_bind; [apply restoreBackups_acts|]. intros d [] tr d1 Hr. apply acts_ret. intros d2 ->. by rewrite app_nil_r. Qed.

Lemma request_acts r source send_ok sshB consoleB evs :
  sourceOf r = Some source ->
  (forall sB cB, acts (accountLoop fails bus show sB cB evs) (loopSpec sB cB evs)) ->
  acts (accountLoop fails bus show sshB consoleB (RecvReq r send_ok :: evs)) (loopSpec sshB consoleB (RecvReq r send_ok :: evs)).
Proof.
  intros Es IH. rewrite (accountLoop_request _ _ _ _ _ _ Es).
  pose proof (prep_protocol r source sshB consoleB) as HP.
  eapply acts_bind; [apply ensureCheckpoint_acts|]. intros d ok tr d1 [-> Ht]. destruct ok; cbn [negb].
  - assert (tr = prepTrace source (backupOf source sshB consoleB)) as ->
      by (unfold prepTrace; destruct (backupOf _ _ _); [by destruct Ht|done]).
    set (tr1 := prepTrace _ _) in *. destruct (afterSource source sshB consoleB) as [sB cB] eqn:Ea.
    assert (match source with sshCP => true | consoleCP => sshB end = sB /\ match source with sshCP => consoleB | consoleCP => true end = cB)
      as [HsB HcB] by (by destruct source; injection Ea as <- <-). cbv zeta in HP. rewrite HsB, HcB in HP.
    eapply acts_bind; [apply processAccount_acts|]. intros d' e tr2 d2 He.
    (* the trace so far keeps the flags, and an exit with restores is fine *)
    assert ((forall k, protocol k (stOf (backupOf k sshB consoleB)) (tr1 ++ tr2) = stOf (backupOf k sB cB)) /\
            List.filter isDelete (tr1 ++ tr2) = []) as [Hp Hd].
    { destruct He as [(_ & _ & -> & _)|(_ & b & -> & _)]; [rewrite app_nil_r; by destruct (HP true Es) as (? & _ & _ & ? & _)|].
      by destruct (HP b Es) as (_ & ? & ? & _). }
    assert (acts (_ ← restoreBackups fails bus show sB cB; mret Aborted)
      (fun d4 b tr4 d5 => d4 = d2 -> d' = d -> loopSpec sshB consoleB (RecvReq r send_ok :: evs) d b (tr1 ++ tr2 ++ tr4) d5)) as Hrest.
    { eapply acts_weaken; [apply restore_aborts|]. intros d4 b tr4 d5 [-> Hr] _ _. rewrite app_assoc.
      by apply (loopSpec_step sshB consoleB sB cB _ evs _ _ d2), loopSpec_restores. }
    destruct e as [e|]; [exact Hrest|]. destruct send_ok; [|exact Hrest].
    destruct He as [(_ & ? & _)|(Hv & b & -> & He)]; [done|]. destruct (He eq_refl) as [-> ->].
    eapply acts_weaken; [apply IH|]. intros d4 code tr4 d5 HL -> ->. rewrite app_assoc.
    apply (loopSpec_step sshB consoleB sB cB _ evs _ _ (applyWrites d (requestWrites r))); [done|done| |done].
    intros _. apply finalized_cons; [done| | |done]; by destruct (HP true Es) as (_ & _ & _ & _ & ? & ?).
  - apply acts_ret. intros d' ->. rewrite app_nil_r. destruct (backupOf source sshB consoleB) eqn:Eb; [by destruct Ht|]. subst tr.
    split_and!; [|done|by destruct source]. intros k. split; [by destruct k, source, sshB, consoleB|]. right. right. exists source. set_solver.
Qed.

Lemma finalize_acts sshB consoleB ok evs :
  acts (accountLoop fails bus show sshB consoleB (RecvReq (AFinalize true) ok :: evs)) (loopSpec sshB consoleB (RecvReq (AFinalize true) ok :: evs)).
Proof.
  cbn [accountLoop].
  assert (forall (b : bool) k, acts (if b then checkpointDelete bus show k else mret tt)
    (fun d _ tr d' => d' = d /\ exists x, tr = if b then [(checkpointOp k CredzCPDelete, x)] else [])) as Hdel.
  { intros [] k; [|apply acts_ret; by intros; split; [|exists true]].
    eapply acts_weaken; [apply checkpointDelete_acts|]. intros d [] tr d' [[x ->] ->]. eauto. }
  eapply acts_bind; [apply Hdel|]. intros d [] tr d1 [-> [x ->]].
  eapply acts_bind; [apply Hdel|]. intros d2 [] tr d3 [-> [y ->]]. apply acts_ret. intros d4 -> ->. rewrite app_nil_r. split_and!; [|intros _|done].
  - intros k. by destruct k, sshB, consoleB; split; try (by left).
  - exists [], ok, evs. by destruct sshB, consoleB.
Qed.

Lemma accountLoop_acts evs : forall sshB consoleB,
  acts (accountLoop fails bus show sshB consoleB evs) (loopSpec sshB consoleB evs).
Proof.
  induction evs as [|[|r send_ok] evs IH]; intros sshB consoleB;
    try (eapply acts_weaken; [apply restore_aborts|]; intros d c tr d' [-> Hr]; by apply loopSpec_restores).
  destruct (sourceOf r) as [source|] eqn:Es; [by eapply request_acts|].
  destruct r as [[]| | | |]; try done; [apply finalize_acts| |];
    (apply acts_ret; intros d; split_and!; [|done|done]; intros k; cbn; split; [by destruct k, sshB, consoleB|];
     right; left; eexists _, send_ok; split; [by left|auto]).
Qed.

Lemma save_acts source :
  acts (match source with sshCP => saveCredentialsFreshness fails torn cfg encodeSsh | consoleCP => saveConsoleCredentialsFreshness fails torn cfg encodeConsole end)
    (fun d _ tr d' => tr = [] /\ d' = d).
Proof.
  intros s Hs. assert (forall f t, db (osWriteFile fails torn (world s) f t).2 = db (world s)) as Hw.
  { intros f t. unfold osWriteFile, next. destruct (fails _); [by destruct (torn _)|done]. }
  destruct source; (eexists tt, _, []; rewrite app_nil_r; split_and!; [reflexivity|exact Hs|reflexivity|reflexivity|apply Hw]).
Qed.

Lemma runDeferred_acts : acts (runDeferred fails torn cfg encodeSsh encodeConsole) (fun d _ tr d' => tr = [] /\ d' = d).
Proof.
  eapply acts_bind; [apply acts_gets with (Q := fun d _ tr d' => tr = [] /\ d' = d); auto|]. intros d l tr d1 [-> ->].
  eapply acts_bind with (Q1 := fun d _ tr d' => tr = [] /\ d' = d).
  { induction l as [|source l IH]; [by apply acts_ret|]. eapply acts_bind; [apply save_acts|]. intros d2 [] tr d3 [-> ->].
    eapply acts_weaken; [exact IH|]. by intros d4 [] tr d5 [-> ->] ->. }
  intros d2 [] tr d3 [-> ->]. apply acts_modify; [by intros s (?&?&?)|]. by intros d4 -> ->.
Qed.

Abbreviation rotateAccount := (RotateAccountCredentials fails torn bus show cfg encodeSsh encodeConsole).

Lemma rotateAccount_acts evs : acts (rotateAccount None false evs) (loopSpec false false evs).
Proof. apply acts_finally; [apply accountLoop_acts|apply runDeferred_acts]. Qed.

(** C17. An account rotation never panics, whatever host calls, database calls and file
    writes fail.  Seen from the host it follows the checkpoint protocol: credentials are
    set only under a checkpoint, no checkpoint is created twice, and each one that was
    created is restored or deleted exactly once, unless the stream ends in a message the
    server does not know, an empty finalize message, or a failed checkpoint. *)
Theorem account_checkpoints_settled auth locked evs s :
  wfServer s -> exists code s' tr,
    RotateAccountCredentials fails torn bus show cfg encodeSsh encodeConsole auth locked evs s = (Some code, s') /\
    wfServer s' /\ calls s' = calls s ++ tr /\
    forall k, protocol k CpNone tr <> CpBad /\ (protocol k CpNone tr = CpNone \/ abandoned evs tr).
Proof.
  intros Hs. destruct auth as [c|]; [|destruct locked].
  1, 2: eexists _, s, []; rewrite app_nil_r; split_and!; [reflexivity|done|done|]; intros k; split; [done|by left].
  destruct (rotateAccount_acts evs s Hs) as (code & s' & tr & E & W & C & Hl & _). exists code, s', tr. split_and!; [done|done|done|].
  intros k. destruct (Hl k) as [? ?]. by destruct k.
Qed.

(** An account rotation that succeeds has received valid requests and a finalize
    message; the host has accepted the message of every request, in order, and nothing
    was restored; and STATE_DB holds exactly the versions and times of the requests in
    addition to what it held.  A rotation that does not succeed deletes no checkpoint. *)
Theorem account_rotation_finalized auth locked evs s code s' :
  wfServer s -> RotateAccountCredentials fails torn bus show cfg encodeSsh encodeConsole auth locked evs s = (Some code, s') ->
  auth = None -> locked = false -> exists tr, calls s' = calls s ++ tr /\
  (code = OK -> finalized evs (db (world s)) tr (db (world s'))) /\ (code <> OK -> List.filter isDelete tr = []).
Proof.
  intros Hs H -> ->. destruct (rotateAccount_acts evs s Hs) as (code' & s'' & tr & E & _ & C & _ & Hok & Hno).
  rewrite E in H. injection H as -> ->. eauto.
Qed.

(** * A roll-back of account metadata *)

Lemma set_ssh_same u f : set_ssh u f (match f with
  | sshKeysVersionFld => KeysVersion u | sshKeysCreatedOnFld => KeysCreatedOn u
  | sshPrincipalsVersionFld => UsersVersion u | sshPrincipalsCreatedOnFld => UsersCreatedOn u end) = u.
Proof. by destruct u, f. Qed.

(** The map at [l] stays [m], and so does the reference. *)
Definition mapIs (l : nat) (m : gmap string SshAccountVersion) (s : Credz) : Prop :=
  Accounts (sshCredMetadata s) = Some l /\ Accounts (sshCredMetadataCopy s) = Some l /\ sshMaps s !! l = Some m.

Lemma mapIs_writeMeta l m tbl key fld val s : mapIs l m s -> mapIs l m (writeMeta fails tbl key fld val s).2.
Proof. unfold writeMeta, io, mbind, SM_bind. by destruct (writeCredentialsMetadataToDB _ _ _ _ _ _). Qed.

Lemma mapIs_write l m a u f s : m !! a = Some u -> mapIs l m s ->
  mapIs l m (writeSshAccountCredentialsMetadataToDB fails a f (match f with
  | sshKeysVersionFld => KeysVersion u | sshKeysCreatedOnFld => KeysCreatedOn u
  | sshPrincipalsVersionFld => UsersVersion u | sshPrincipalsCreatedOnFld => UsersCreatedOn u end) s).2.
Proof.
  intros Ha Hm. unfold writeSshAccountCredentialsMetadataToDB, mbind, SM_bind.
  pose proof (mapIs_writeMeta l m sshAccountTbl a (sshFldName f)
    (match f with sshKeysVersionFld => KeysVersion u | sshKeysCreatedOnFld => KeysCreatedOn u
     | sshPrincipalsVersionFld => UsersVersion u | sshPrincipalsCreatedOnFld => UsersCreatedOn u end) s Hm) as H.
  destruct (writeMeta _ _ _ _ _ s) as [[ok|] s1]; [|done]. cbn [snd] in H. destruct ok; cbn [negb]; [|done].
  destruct H as (H1 & H2 & H3). rewrite H1, H3. cbn [from_option id]. rewrite Ha. cbn [from_option id]. rewrite set_ssh_same, (insert_id m a u Ha).
  split_and!; [done|done|]. cbn. by rewrite lookup_insert_eq.
Qed.

Lemma mapIs_ignoring l m ms s :
  Forall (fun a : M (option cz_error) => forall s, mapIs l m s -> mapIs l m (a s).2) ms -> mapIs l m s -> mapIs l m (ignoringErrors ms s).2.
Proof.
  intros H. revert s. induction H as [|a ms Ha _ IH]; intros s Hs; [done|]. cbn [ignoringErrors]. unfold mbind, SM_bind.
  specialize (Ha s Hs). destruct (a s) as [[e|] s1]; [by apply IH|done].
Qed.

Lemma mapIs_hostWrites l m h : Forall (fun a : M (option cz_error) => forall s, mapIs l m s -> mapIs l m (a s).2) (sshHostWrites fails h).
Proof.
  unfold sshHostWrites. constructor; [|constructor; [|constructor]]; intros s Hs; unfold writeSshHostCredentialsMetadataToDB, mbind, SM_bind;
    (match goal with |- context [writeMeta _ _ _ ?f ?v s] => pose proof (mapIs_writeMeta l m sshHostTbl "" f v s Hs) as Hw end;
     destruct (writeMeta _ _ _ _ _ s) as [[[]|] s4]; done).
Qed.

Lemma mapIs_accountWrites l m : Forall (fun a : M (option cz_error) => forall s, mapIs l m s -> mapIs l m (a s).2) (sshAccountWrites fails m).
Proof.
  unfold sshAccountWrites. assert (forall a u, (a, u) ∈ range_of m -> m !! a = Some u) as Hr by (intros a u; apply elem_of_range).
  induction (range_of m) as [|[a u] r IH]; [constructor|]. assert (m !! a = Some u) as Hau by (apply Hr; by left).
  constructor; [intros s; by apply (mapIs_write l m a u sshKeysVersionFld)|].
  constructor; [intros s; by apply (mapIs_write l m a u sshKeysCreatedOnFld)|].
  constructor; [intros s; by apply (mapIs_write l m a u sshPrincipalsVersionFld)|].
  constructor; [intros s; by apply (mapIs_write l m a u sshPrincipalsCreatedOnFld)|].
  apply IH. intros a' u' Hin. apply Hr. by right.
Qed.

(** Restoring an SSH checkpoint does not restore the account metadata: the copy shares
    the map with the original, so every write puts back what is there, and the versions
    of the rejected upload stay. *)
Theorem restore_keeps_account_metadata l m s :
  mapIs l m s -> mapIs l m (checkpointRestore fails bus show sshCP s).2.
Proof.
  intros Hs. unfold checkpointRestore, host, revertSshCredentialFreshness. unfold mbind, SM_bind, gets. cbn [fst snd].
  set (s1 := with_calls _ _). assert (mapIs l m s1) as H1 by done.
  pose proof (mapIs_ignoring l m _ s1 (mapIs_hostWrites l m (Host (sshCredMetadataCopy s1))) H1) as H2.
  destruct (ignoringErrors (sshHostWrites fails _) s1) as [[[]|] s2]; cbn [snd] in *; [|done].
  destruct H2 as (Ha & Hc & Hm). unfold sshMapOf. rewrite Hc, Hm. cbn [from_option id]. apply mapIs_ignoring; [apply mapIs_accountWrites|done].
Qed.
End Service.

(** * GLOME metadata *)

Section Glome.
Variables (bus : nat -> DbusCall -> busReply) (show : list busVal -> string) (deadline : nat -> option Z).
Variables (marshalGlome : GlomeRequest -> option string) (urlParses : string -> bool).

(** The values of the fields' Go types. *)
Definition inRange (g : GlomeConfigMetadata) : Prop :=
  (- 2 ^ 31 <= KeyVersion g < 2 ^ 31)%Z /\ (- 2 ^ 63 <= LastUpdated g < 2 ^ 63)%Z.

Lemma parseBool_redis b : parseBool (redisBool b) = Some b.
Proof. by destruct b. Qed.

Lemma parseInt_pretty z bits : (0 < bits <= 64)%Z -> (- 2 ^ (bits - 1) <= z < 2 ^ (bits - 1))%Z -> parseInt (pretty z) bits = Some z.
Proof.
  intros Hb Hz. assert (2 ^ (bits - 1) <= 2 ^ 63)%Z by (apply Z.pow_le_mono_r; lia).
  unfold parseInt. rewrite atoi_pretty by (unfold int64_min, int64_max; lia).
  by rewrite (proj2 (Z.leb_le _ _)), (proj2 (Z.ltb_lt _ _)) by lia.
Qed.

Lemma parseInt_range s bits z : parseInt s bits = Some z -> (- 2 ^ (bits - 1) <= z < 2 ^ (bits - 1))%Z.
Proof.
  unfold parseInt. destruct (atoi s) as [y|]; [|done]. destruct (_ && _) eqn:E; [|done]. intros [= <-].
  apply andb_true_iff in E as [?%Z.leb_le ?%Z.ltb_lt]. done.
Qed.

(** What a read gives that does not fail. *)
Definition stored (s : Credz) : res cz_error (option GlomeConfigMetadata) :=
  default (Err DbFailed) (readGlomeConfigMetadataFromStateDB noFaults s).1.

(** A write of a value is what the next read gives. *)
Lemma stored_write s g m :
  stateDbClient s = true -> inRange g -> db (world s) !! glomeKey = Some (glomeFields g ∪ m) -> stored s = Ok (Some g).
Proof.
  intros Hs [Hk Hl] Hd. unfold stored, readGlomeConfigMetadataFromStateDB, osCall, noFaults, next. rewrite Hs. cbn. rewrite Hd. cbn.
  assert (forall f x, glomeFields g !! f = Some x -> (glomeFields g ∪ m) !! f = Some x) as Hu by (intros f x Hf; by apply lookup_union_Some_l).
  rewrite bool_decide_false by (intros He; pose proof (Hu "enabled" _ eq_refl) as Hx; by rewrite He in Hx).
  rewrite (Hu "enabled" (redisBool (Enabled g)) eq_refl), (Hu "key_version" (pretty (KeyVersion g)) eq_refl),
    (Hu "last_updated" (pretty (LastUpdated g)) eq_refl). cbn [from_option id].
  rewrite parseBool_redis, !parseInt_pretty by lia. by destruct g.
Qed.

(** Writing the metadata changes only the database, under its own key. *)
Lemma writeGlome_db s g :
  stateDbClient s = true ->
  exists s', writeGlomeConfigMetadataToStateDB noFaults (Some g) s = (Some None, s') /\ stateDbClient s' = true /\
    glomeConfigMetadata s' = glomeConfigMetadata s /\
    db (world s') = <[glomeKey := glomeFields g ∪ default ∅ (db (world s) !! glomeKey)]> (db (world s)).
Proof. intros Hs. unfold writeGlomeConfigMetadataToStateDB, osCall, noFaults, next. rewrite Hs. by eexists. Qed.

(** GLOME metadata that is written to STATE_DB is read back unchanged, for every
    32-bit key version and 64-bit time, negative ones included. *)
Theorem glome_metadata_roundtrip s g s' :
  stateDbClient s = true -> inRange g ->
  writeGlomeConfigMetadataToStateDB noFaults (Some g) s = (Some None, s') -> stored s' = Ok (Some g).
Proof.
  intros Hs Hg H. destruct (writeGlome_db s g Hs) as (s1 & E & Hs1 & _ & Hd). rewrite E in H. injection H as ->.
  eapply stored_write; [done|done|]. by rewrite Hd, lookup_insert_eq.
Qed.

Lemma stored_db s s' : stateDbClient s' = stateDbClient s -> db (world s') = db (world s) -> stored s' = stored s.
Proof.
  intros Hs Hd. unfold stored, readGlomeConfigMetadataFromStateDB, osCall, noFaults, next. rewrite Hs.
  destruct (stateDbClient s); [|done]. cbn. by rewrite Hd.
Qed.

Lemma stored_read s : stateDbClient s = true ->
  exists s', readGlomeConfigMetadataFromStateDB noFaults s = (Some (stored s), s') /\ stateDbClient s' = true /\
    glomeConfigMetadata s' = glomeConfigMetadata s.
Proof. intros Hs. unfold stored, readGlomeConfigMetadataFromStateDB, osCall, noFaults, next. rewrite Hs. cbn. by eexists. Qed.

Lemma stored_range s g : stateDbClient s = true -> stored s = Ok g -> inRange (default defaultGlomeConfigMetadata g).
Proof.
  intros Hs. unfold stored, readGlomeConfigMetadataFromStateDB, osCall, noFaults, next. rewrite Hs. cbn.
  case_bool_decide; [intros [= <-]; by split|]. destruct (parseBool _); [|done]. destruct (parseInt _ 32) eqn:E1; [|done].
  destruct (parseInt _ 64) eqn:E2; [|done]. intros [= <-]. apply parseInt_range in E1, E2. done.
Qed.

(** The restore writes what the server keeps. *)
Lemma restore_stored s g :
  stateDbClient s = true -> glomeConfigMetadata s = Some g -> inRange g ->
  exists s', glomeCheckpointRestore noFaults bus show deadline s = (Some tt, s') /\ stored s' = Ok (Some g).
Proof.
  intros Hs Hg Hr. unfold glomeCheckpointRestore, host, gets, mbind, SM_bind. cbn. rewrite Hg.
  match goal with |- context [writeGlomeConfigMetadataToStateDB _ _ ?s1] => destruct (writeGlome_db s1 g) as (s2 & E & H2 & _ & Hd); [done|] end.
  rewrite E. eexists. split; [reflexivity|]. eapply stored_write; [done|done|]. by rewrite Hd, lookup_insert_eq.
Qed.

(** A request that the host accepted leaves the former metadata with the server. *)
Lemma process_keeps r now s s1 cur :
  stateDbClient s = true -> stored s = Ok cur ->
  processGlomeConfig noFaults bus show deadline marshalGlome urlParses r now s = (Some None, s1) ->
  stateDbClient s1 = true /\ glomeConfigMetadata s1 = Some (default defaultGlomeConfigMetadata cur) /\
  exists r', r = Some r' /\ (inRange (mkGlome (g_enabled r') (g_key_version r') now) ->
    stored s1 = Ok (Some (mkGlome (g_enabled r') (g_key_version r') now))).
Proof.
  intros Hs Hc. unfold processGlomeConfig. destruct r as [r|]; [|done]. destruct (validateGlomeRequest _ r); cbn [negb]; [|done].
  destruct (marshalGlome r) as [text|]; [|done]. unfold host, gets. unfold mbind, SM_bind. cbn [fst snd].
  destruct (bool_decide _); cbn [negb]; [|done]. unfold updateGlomeState, mbind, SM_bind.
  match goal with |- context [readGlomeConfigMetadataFromStateDB _ ?s2] =>
    assert (stateDbClient s2 = true /\ stored s2 = Ok cur) as [H2 H3] by (split; [done|by rewrite (stored_db s)]); destruct (stored_read s2 H2) as (s3 & -> & H4 & _); rewrite H3 end.
  unfold modify. cbn [fst snd].
  match goal with |- context [writeGlomeConfigMetadataToStateDB _ (Some ?g) ?s4] =>
    destruct (writeGlome_db s4 g) as (s5 & -> & H5 & H6 & Hd); [done|] end.
  intros [= <-]. split_and!; [done|done|]. exists r. split; [done|]. intros Hr. eapply stored_write; [done|done|]. by rewrite Hd, lookup_insert_eq.
Qed.

(** A GLOME rotation whose request was accepted but that is not finalized leaves
    STATE_DB reading as it did before; an entry that did not exist reads as the default
    values. *)
Theorem glome_rollback now r send_ok evs s s1 s' cur :
  stateDbClient s = true -> stored s = Ok cur ->
  processGlomeConfig noFaults bus show deadline marshalGlome urlParses r now s = (Some None, s1) ->
  handleGlome noFaults bus show deadline marshalGlome urlParses now r send_ok evs s = (Some Aborted, s') ->
  stored s' = Ok (Some (default defaultGlomeConfigMetadata cur)).
Proof.
  intros Hs Hc Hp. destruct (process_keeps _ _ _ _ _ Hs Hc Hp) as (H1 & H2 & _).
  destruct (restore_stored s1 _ H1 H2 (stored_range s cur Hs Hc)) as (s2 & E & H3).
  unfold handleGlome, expectFinalize. unfold mbind, SM_bind. rewrite Hp.
  destruct send_ok; cbn [negb]; [destruct evs as [|[|[] ok] evs]|]; rewrite ?E; intros [= <-]; done.
Qed.

(** A refused request undoes the last finalized rotation: nothing was changed, yet
    STATE_DB is set back to what it held before that rotation. *)
Theorem glome_refused_undoes_commit now1 now2 r1 r2 rest1 send2 evs2 s s1 s2 cur :
  stateDbClient s = true -> stored s = Ok cur -> validateGlomeRequest urlParses r2 = false ->
  handleGlome noFaults bus show deadline marshalGlome urlParses now1 (Some r1) true (RecvReq HFinalize true :: rest1) s = (Some OK, s1) ->
  handleGlome noFaults bus show deadline marshalGlome urlParses now2 (Some r2) send2 evs2 s1 = (Some Aborted, s2) ->
  stored s2 = Ok (Some (default defaultGlomeConfigMetadata cur)).
Proof.
  intros Hs Hc Hv. unfold handleGlome at 1, expectFinalize. unfold mbind at 1, SM_bind at 1. cbn [negb].
  destruct (processGlomeConfig _ _ _ _ _ _ _ now1 s) as [[[e|]|] s0] eqn:Hp; [|intros [= <-]|done].
  { unfold glomeCheckpointRestore, host, gets, mbind, SM_bind. cbn. destruct (writeGlomeConfigMetadataToStateDB _ _ _) as [[]?]; done. }
  destruct (process_keeps _ _ _ _ _ Hs Hc Hp) as (H1 & H2 & _).
  destruct (restore_stored s0 _ H1 H2 (stored_range s cur Hs Hc)) as (s3 & E & H3).
  unfold handleGlome, processGlomeConfig. unfold mbind, SM_bind. rewrite Hv. cbn [negb mret SM_ret]. rewrite E. by intros [= <-].
Qed.
End Glome.

(** * Concrete runs *)

Definition demo_bus : nat -> DbusCall -> busReply := fun _ _ => Body [BInt32 0; BStr ""].
Definition demo_cfg : Config := mkConfig "/ssh.json" "/console.json".
Definition demo_server : Credz :=
  mkCredz (mkSsh (Some 0) (mkSshHost "unknown" "0")) (mkSsh (Some 0) (mkSshHost "unknown" "0")) (Some 0) (Some 0)
    {[0 := ∅]} {[0 := ∅]} None true (mkWorld ∅ ∅ 0) [] [].
Definition demo_request : AccountRequest := ACredential [mkCred "admin" "v1" 7 [mkKey ED25519 "key" [] "note"]].
Abbreviation demo_rotate evs :=
  (RotateAccountCredentials noFaults (fun _ => None) demo_bus (fun _ => "") demo_cfg (fun _ => "ssh") (fun _ => "console") None false evs demo_server).

Lemma demo_server_wf : wfServer demo_server.
Proof. split_and!; by eexists. Qed.

(** Keys that were set stay set, under a checkpoint that nobody settles, when the next
    message is of an unknown kind. *)
Theorem unknown_message_leaves_change :
  (demo_rotate [RecvReq demo_request true; RecvReq AUnknown true]).1 = Some Aborted /\
  protocol sshCP CpNone (calls (demo_rotate [RecvReq demo_request true; RecvReq AUnknown true]).2) = CpOpen.
Proof. vm_compute. split; reflexivity. Qed.

(** A password request for one account whose name holds quotes is the same message to
    the host as a request for two accounts. *)
Definition injected : string :=
  "a" +:+ dquote +:+ ", " +:+ quoted "password" +:+ " : " +:+ quoted "p" +:+ " },{ " +:+ quoted "name" +:+ ": " +:+ dquote +:+ "root".

Theorem console_message_not_injective :
  consoleMessage [mkPassword injected "v1" 7 (Some "q")] =
  consoleMessage [mkPassword "a" "v1" 7 (Some "p"); mkPassword "root" "v1" 7 (Some "q")].
Proof. vm_compute. reflexivity. Qed.

Lemma account_checkpoints_settled_witness :
  exists code s' tr, demo_rotate [RecvReq demo_request true; RecvErr] = (Some code, s') /\ wfServer s' /\ calls s' = [] ++ tr /\
    length tr = 3 /\ protocol sshCP CpNone tr = CpNone.
Proof.
  destruct (account_checkpoints_settled noFaults (fun _ => None) demo_bus (fun _ => "") demo_cfg (fun _ => "ssh") (fun _ => "console")
    None false [RecvReq demo_request true; RecvErr] demo_server demo_server_wf) as (code & s' & tr & E & W & C & _).
  exists code, s', tr. split_and!; [exact E|exact W|exact C| |].
  - assert (length (calls (demo_rotate [RecvReq demo_request true; RecvErr]).2) = 3) as H by (vm_compute; reflexivity).
    rewrite E in H. cbn [snd] in H. rewrite C in H. exact H.
  - assert (protocol sshCP CpNone (calls (demo_rotate [RecvReq demo_request true; RecvErr]).2) = CpNone) as H by (vm_compute; reflexivity).
    rewrite E in H. cbn [snd] in H. rewrite C in H. exact H.
Defined.

Lemma account_rotation_finalized_witness :
  exists s' tr, demo_rotate [RecvReq demo_request true; RecvReq (AFinalize true) true] = (Some OK, s') /\ calls s' = [] ++ tr /\
    finalized [RecvReq demo_request true; RecvReq (AFinalize true) true] ∅ tr (db (world s')).
Proof.
  assert (exists s', demo_rotate [RecvReq demo_request true; RecvReq (AFinalize true) true] = (Some OK, s')) as [s' E] by (eexists; vm_compute; reflexivity).
  destruct (account_rotation_finalized _ _ _ _ _ _ _ None false _ demo_server OK s' demo_server_wf E eq_refl eq_refl) as (tr & C & H & _).
  exists s', tr. split_and!; [exact E|exact C|]. exact (H eq_refl).
Defined.

Definition demo_glome : GlomeConfigMetadata := mkGlome true (-7) 1700000000000000000.

Lemma glome_metadata_roundtrip_witness :
  exists s', writeGlomeConfigMetadataToStateDB noFaults (Some demo_glome) demo_server = (Some None, s') /\ stored s' = Ok (Some demo_glome).
Proof.
  eexists. split; [reflexivity|]. apply (glome_metadata_roundtrip demo_server); [reflexivity| |reflexivity].
  split; vm_compute; split; congruence.
Defined.

Definition demo_glome_req : GlomeRequest := mkGlomeReq true "key" 3 "https://x".

Lemma glome_rollback_witness :
  exists s1 s', processGlomeConfig noFaults demo_bus (fun _ => "") (fun _ => None) (fun _ => Some "{}") (fun _ => true) (Some demo_glome_req) 9 demo_server = (Some None, s1) /\
    handleGlome noFaults demo_bus (fun _ => "") (fun _ => None) (fun _ => Some "{}") (fun _ => true) 9 (Some demo_glome_req) true [RecvErr] demo_server = (Some Aborted, s') /\
    stored s' = Ok (Some defaultGlomeConfigMetadata).
Proof.
  assert (exists s1, processGlomeConfig noFaults demo_bus (fun _ => "") (fun _ => None) (fun _ => Some "{}") (fun _ => true) (Some demo_glome_req) 9 demo_server = (Some None, s1))
    as [s1 E1] by (eexists; vm_compute; reflexivity).
  assert (exists s', handleGlome noFaults demo_bus (fun _ => "") (fun _ => None) (fun _ => Some "{}") (fun _ => true) 9 (Some demo_glome_req) true [RecvErr] demo_server = (Some Aborted, s'))
    as [s' E2] by (eexists; vm_compute; reflexivity).
  exists s1, s'. split_and!; [exact E1|exact E2|].
  apply (glome_rollback demo_bus (fun _ => "") (fun _ => None) (fun _ => Some "{}") (fun _ => true) 9 (Some demo_glome_req) true [RecvErr] demo_server s1 s' None);
    [reflexivity|vm_compute; reflexivity|exact E1|exact E2].
Defined.
