(* ===== verification/Certz.v ===== *)
(** The gNSI certz service (src/gnmi_server/gnsi_certz.go): rotation of the server
    certificate and key, the trust bundle, the revocation lists and the authentication
    policy of a profile, behind symbolic links, with roll-back and finalization.

    The file system has files ([HostIO.World]) and symbolic links, whose targets are
    files.  Entities are values: the code changes one only by setting [Final] on the
    active entity, which it then also stores as the last one.  Metadata files hold
    profiles with all four entities, as the service writes them. *)

From S2P Require Import Prelude PanicMonad GnmiTypes HostIO Filepath.
Import Filepath.
Open Scope go_scope.

Module Certz.

(** * Requests *)

Inductive CertzType := certType | tbType | crlType | apType.

#[global] Instance CertzType_eq_dec : EqDecision CertzType.
Proof. solve_decision. Defined.

(** A certificate message; [None] is nil bytes. *)
Record Certificate := mkCertMsg { is_x509 : bool; is_pem : bool; cert_bytes : option string; private_key : option string }.
Record Crl := mkCrl { crl_id : string; crl_x509 : bool; crl_pem : bool; crl_bytes : string }.

(** A chain is its certificate and those of its parents; any of them may be nil. *)
Inductive Payload :=
| CertificateChain (leaf : option Certificate) (parents : list (option Certificate))
| TrustBundle (cert : option Certificate)
| CertificateRevocationListBundle (crls : list Crl)
| AuthenticationPolicy (value : string)
| NoPayload.

Record Entity := mkEntityMsg { e_created_on : N; e_version : string; e_payload : Payload }.

Inductive CSRSuite :=
| RSA_2048_SHA_256 | RSA_2048_SHA_384 | RSA_2048_SHA_512 | RSA_3072_SHA_256 | RSA_3072_SHA_384 | RSA_3072_SHA_512
| RSA_4096_SHA_256 | RSA_4096_SHA_384 | RSA_4096_SHA_512 | ECDSA_P256_SHA_256 | ECDSA_P256_SHA_384 | ECDSA_P256_SHA_512
| ECDSA_P384_SHA_256 | ECDSA_P384_SHA_384 | ECDSA_P384_SHA_512 | ECDSA_P521_SHA_256 | ECDSA_P521_SHA_384 | ECDSA_P521_SHA_512
| EDDSA_ED25519 | CIPHER_UNSPECIFIED.

Inductive SigAlgo :=
| SHA256WithRSA | SHA384WithRSA | SHA512WithRSA | ECDSAWithSHA256 | ECDSAWithSHA384 | ECDSAWithSHA512
| PureEd25519 | UnknownSignatureAlgorithm.

Definition parseCSRSuite (suite : CSRSuite) : nat * SigAlgo :=
  match suite with
  | RSA_2048_SHA_256 => (2048, SHA256WithRSA)
  | RSA_2048_SHA_384 => (2048, SHA384WithRSA)
  | RSA_2048_SHA_512 => (2048, SHA512WithRSA)
  | RSA_3072_SHA_256 => (3072, SHA512WithRSA)
  | RSA_3072_SHA_384 => (3072, SHA384WithRSA)
  | RSA_3072_SHA_512 => (3072, SHA512WithRSA)
  | RSA_4096_SHA_256 => (4096, SHA512WithRSA)
  | RSA_4096_SHA_384 => (4096, SHA384WithRSA)
  | RSA_4096_SHA_512 => (4096, SHA512WithRSA)
  | ECDSA_P256_SHA_256 => (256, ECDSAWithSHA256)
  | ECDSA_P256_SHA_384 => (256, ECDSAWithSHA384)
  | ECDSA_P256_SHA_512 => (256, ECDSAWithSHA512)
  | ECDSA_P384_SHA_256 => (384, ECDSAWithSHA256)
  | ECDSA_P384_SHA_384 => (384, ECDSAWithSHA384)
  | ECDSA_P384_SHA_512 => (384, ECDSAWithSHA512)
  | ECDSA_P521_SHA_256 => (521, ECDSAWithSHA256)
  | ECDSA_P521_SHA_384 => (521, ECDSAWithSHA384)
  | ECDSA_P521_SHA_512 => (521, ECDSAWithSHA512)
  | EDDSA_ED25519 => (256, PureEd25519)
  | CIPHER_UNSPECIFIED => (0, UnknownSignatureAlgorithm)
  end.

(** The subject of a signing request. *)
Record CSRParams := mkParams { common_name : string; subject : list string; csr_suite : CSRSuite }.

(** Which keys a suite asks for. *)
Inductive KeyRequest := RsaKey (bits : nat) | EcdsaKey (curve : nat).

Definition keyRequest (keySize : nat) (algo : SigAlgo) : option KeyRequest :=
  match algo with
  | SHA256WithRSA | SHA384WithRSA | SHA512WithRSA => Some (RsaKey keySize)
  | ECDSAWithSHA256 | ECDSAWithSHA384 | ECDSAWithSHA512 =>
      if (keySize =? 256) || (keySize =? 384) || (keySize =? 521) then Some (EcdsaKey keySize) else None
  | PureEd25519 | UnknownSignatureAlgorithm => None
  end.

Inductive RotateBody :=
| GenerateCsr (params : option CSRParams)
| Certificates (entities : list Entity)
| OtherBody.

Inductive RotateRequest :=
| FinalizeRotation
| Request (ssl_profile_id : string) (force_overwrite : bool) (body : RotateBody).

Inductive RecvEvent := RecvEOF | RecvErr | RecvReq (req : RotateRequest) (send_ok : bool).

(** * State *)

Record genericEntity := mkEntity {
  EType : CertzType; CreatedOn : N; Version : string; CertPath : string; KeyPath : string; Final : bool
}.

Record entityGroup := mkGroup { Cert : genericEntity; Bundle : genericEntity; CrlBundle : genericEntity; AuthPolicy : genericEntity }.

Record profile := mkProfile {
  ID : string;
  ActiveEntities : entityGroup;
  LastEntities : entityGroup;
  generatedKey : option string
}.

Definition entityOf (g : entityGroup) (t : CertzType) : genericEntity :=
  match t with certType => Cert g | tbType => Bundle g | crlType => CrlBundle g | apType => AuthPolicy g end.

Definition set_entity (g : entityGroup) (t : CertzType) (e : genericEntity) : entityGroup :=
  match t with
  | certType => mkGroup e (Bundle g) (CrlBundle g) (AuthPolicy g)
  | tbType => mkGroup (Cert g) e (CrlBundle g) (AuthPolicy g)
  | crlType => mkGroup (Cert g) (Bundle g) e (AuthPolicy g)
  | apType => mkGroup (Cert g) (Bundle g) (CrlBundle g) e
  end.

Definition set_final (e : genericEntity) : genericEntity :=
  mkEntity (EType e) (CreatedOn e) (Version e) (CertPath e) (KeyPath e) true.

Record Config := mkConfig {
  SrvCertLnk : string; SrvCertFile : string; SrvKeyLnk : string; SrvKeyFile : string;
  CaCertLnk : string; CaCertFile : string; CertCRLConfig : string; FedPolicyFile : string; CertzMetaFile : string
}.

Record Server := mkServer { profiles : gmap string profile; links : gmap string string; world : World }.

Definition with_profiles (s : Server) (p : gmap string profile) : Server := mkServer p (links s) (world s).
Definition with_links (s : Server) (l : gmap string string) : Server := mkServer (profiles s) l (world s).
Definition with_world (s : Server) (w : World) : Server := mkServer (profiles s) (links s) w.

Definition defaultProfile : string := "gnxi".
Definition crlDefault : string := "crl".
Definition crlFlush : string := "_flush".
Definition backupExt : string := ".bak".
Definition newline : string := String (Ascii.ascii_of_nat 10) "".

Abbreviation M := (SM Server).

Section Service.
Variable fails : nat -> bool.
Variable torn : nat -> option string.
Variable cfg : Config.
(** The working directory, and the clock at each system call. *)
Variable cwd : string.
Variable clock : nat -> Z.
(** [pem.Decode] and [x509.ParseRevocationList] succeed; key generation and the signing
    request; the JSON of the profiles. *)
Variable pemDecodes : string -> bool.
Variable parsesCrl : string -> bool.
Variable generateKey : KeyRequest -> option string.
Variable createCsr : CSRParams -> SigAlgo -> string -> option string.
Variable encodeProfiles : gmap string profile -> string.
Variable decodeProfiles : string -> option (gmap string profile).

(** * Files and links *)

Inductive statRes := Exist | NotExist | StatErr.

#[global] Instance statRes_eq_dec : EqDecision statRes.
Proof using Type. solve_decision. Defined.

Definition io {A} (f : World -> A * World) : M A := fun s => let '(a, w) := f (world s) in (Some a, with_world s w).

Definition failed (e : option ioerr) : bool := bool_decide (e <> None).

(** The file that a path leads to. *)
Definition resolve (s : Server) (p : string) : string := default p (links s !! p).

Definition osLstat (p : string) : M statRes :=
  e ← io (osCall fails);
  gets (fun s => if failed e then StatErr
                 else if bool_decide (is_Some (links s !! p) \/ is_Some (fs (world s) !! p)) then Exist else NotExist).

Definition osStat (p : string) : M statRes :=
  e ← io (osCall fails);
  gets (fun s => if failed e then StatErr
                 else if bool_decide (is_Some (fs (world s) !! resolve s p)) then Exist else NotExist).

Definition osReadlink (p : string) : M (option string) :=
  e ← io (osCall fails);
  gets (fun s => if failed e then None else links s !! p).

(** The result is whether the call failed. *)
Definition removePath (p : string) : M bool := fun s =>
  match links s !! p with
  | Some _ =>
      let '(e, w) := osCall fails (world s) in
      if failed e then (Some true, with_world s w) else (Some false, with_links (with_world s w) (delete p (links s)))
  | None => let '(e, w) := osRemove fails (world s) p in (Some (failed e), with_world s w)
  end.

Definition osSymlink (target link : string) : M bool := fun s =>
  let '(e, w) := osCall fails (world s) in
  if failed e || bool_decide (is_Some (links s !! link)) || bool_decide (is_Some (fs (world s) !! link))
  then (Some true, with_world s w)
  else (Some false, with_links (with_world s w) (<[link := target]> (links s))).

(** A rename of a file; a link in its place is replaced. *)
Definition renameFile (src dst : string) : M bool := fun s =>
  let '(e, w) := HostIO.osRename fails (world s) src dst in
  match e with
  | Some _ => (Some true, with_world s w)
  | None => (Some false, with_links (with_world s w) (delete dst (links s)))
  end.

Definition attemptWrite (name data : string) : M bool :=
  p ← gets (fun s => resolve s name);
  e ← io (fun w => osWriteFile fails torn w p data);
  if failed e then _ ← removePath name; mret true else mret false.

Definition readFile (name : string) : M (option string) :=
  p ← gets (fun s => resolve s name);
  r ← io (fun w => osReadFile fails w p);
  mret (match r with Ok c => Some c | Err _ => None end).

(** The names of the files in a directory, in order; none when it cannot be read. *)
Definition dirNames (s : Server) (path : string) : list string :=
  let pre := path +:+ "/" in
  base.filter (fun n => n <> "" /\ str_contains n "/" = false)
    ((fun p => trim_prefix p pre) <$> base.filter (fun p => has_prefix p pre = true) (sorted_keys (fs (world s)))).

Definition readDir (path : string) : M (list string) :=
  e ← io (osCall fails);
  gets (fun s => if failed e then [] else dirNames s path).

(** * Symbolic links *)

(** The former target of the link, the empty string when there was none. *)
Definition rmSymlink (path : string) : M (res unit string) :=
  st ← osLstat path;
  if decide (st = NotExist) then mret (Ok "")
  else
    old ← osReadlink path;
    match old with
    | None => mret (Err tt)
    | Some old => f ← removePath path; mret (if (f : bool) then Err tt else Ok old)
    end.

Definition restoreSymlink (oldTarget link : string) : M bool :=
  if String.eqb oldTarget "" then mret false
  else
    st ← osStat oldTarget;
    match st with
    | Exist =>
        r ← rmSymlink link;
        match r with Err _ => mret true | Ok _ => osSymlink oldTarget link end
    | _ => mret true
    end.

Definition atomicSetSrvCertKeyPair (sCert sKey : string) : M bool :=
  let cert := Abs cwd sCert in
  let key := Abs cwd sKey in
  r ← rmSymlink (SrvCertLnk cfg);
  match r with
  | Err _ => mret true
  | Ok oldCert =>
      r ← rmSymlink (SrvKeyLnk cfg);
      match r with
      | Err _ => _ ← restoreSymlink oldCert (SrvCertLnk cfg); mret true
      | Ok oldKey =>
          let undo := (_ ← restoreSymlink oldCert (SrvCertLnk cfg); _ ← restoreSymlink oldKey (SrvKeyLnk cfg); mret true) in
          f ← osSymlink cert (SrvCertLnk cfg);
          if (f : bool) then undo
          else
            f ← osSymlink key (SrvKeyLnk cfg);
            if (f : bool) then undo else mret false
      end
  end.

Definition atomicSetCACert (caCert : string) : M bool :=
  let cert := Abs cwd caCert in
  r ← rmSymlink (CaCertLnk cfg);
  match r with
  | Err _ => mret true
  | Ok oldCert =>
      f ← osSymlink cert (CaCertLnk cfg);
      if (f : bool) then _ ← restoreSymlink oldCert (CaCertLnk cfg); mret true else mret false
  end.

Definition restoreFromFile (link file : string) : M string :=
  st ← osLstat link;
  path ← (if decide (st = NotExist) then mret None
          else
            t ← osReadlink link;
            match t with
            | None => mret None
            | Some path => st ← osLstat path; mret (if decide (st = NotExist) then None else Some path)
            end);
  match path with
  | Some path => mret path
  | None => st ← osStat file; mret (if decide (st = NotExist) then "unknown" else file)
  end.

(** * Freshness and metadata *)

Definition fldPrefix (t : CertzType) : string :=
  match t with
  | certType => "certificate" | tbType => "ca_trust_bundle"
  | crlType => "certificate_revocation_list_bundle" | apType => "authentication_policy"
  end.

(** The time is received in seconds and stored in nanoseconds. *)
Definition writeEntityFreshness (profileID : string) (e : genericEntity) : M unit :=
  _ ← io (fun w => writeCredentialsMetadataToDB fails w "CERT" profileID (fldPrefix (EType e) +:+ "_created_on") (pretty (CreatedOn e) +:+ "000000000"));
  _ ← io (fun w => writeCredentialsMetadataToDB fails w "CERT" profileID (fldPrefix (EType e) +:+ "_version") (Version e));
  mret tt.

Definition saveCertzMetadata : M bool :=
  text ← gets (fun s => encodeProfiles (profiles s));
  attemptWrite (CertzMetaFile cfg) text.

Definition removeEntityFiles (e : genericEntity) : M unit :=
  match EType e with
  | certType => _ ← removePath (CertPath e); _ ← removePath (KeyPath e); mret tt
  | tbType => _ ← removePath (CertPath e); mret tt
  | _ => mret tt
  end.

(** * Revocation lists *)

Definition removeDirFiles (path : string) : M unit :=
  names ← readDir path;
  each_ (fun n => _ ← removePath (Join [path; n]); mret tt) names.

Definition copyCRLBundle (srcPath dstPath : string) : M unit :=
  _ ← removeDirFiles dstPath;
  names ← readDir srcPath;
  each_ (fun n =>
    input ← readFile (Join [srcPath; n]);
    match input with
    | None => mret tt
    | Some c => _ ← attemptWrite (Join [dstPath; n]) c; mret tt
    end) names.

(** The checks of one list and its first write; a list that is not PEM leaves a nil
    block, whose bytes are then read. *)
Definition checkCrl (path : string) (c : Crl) : M (option Code) :=
  if negb (crl_x509 c) then mret (Some InvalidArgument)
  else if negb (crl_pem c) then mret (Some InvalidArgument)
  else if String.eqb (crl_bytes c) "" then mret (Some InvalidArgument)
  else if negb (pemDecodes (crl_bytes c)) then panic
  else if negb (parsesCrl (crl_bytes c)) then mret (Some InvalidArgument)
  else f ← attemptWrite (Join [path; crl_id c]) (crl_bytes c); mret (if (f : bool) then Some FailedPrecondition else None).

Definition rotateCRLBundle (certs : list Crl) (path : string) : M (option Code) :=
  match certs with
  | [] => mret (Some InvalidArgument)
  | _ =>
      e ← untilError (checkCrl path <$> certs);
      match e with
      | Some e => mret (Some e)
      | None =>
          _ ← removeDirFiles path;
          untilError ((fun c => f ← attemptWrite (Join [path; crl_id c]) (crl_bytes c);
                                mret (if (f : bool) then Some FailedPrecondition else None)) <$> certs)
      end
  end.

(** * Entities *)

Definition crlPath (profileID : string) : string :=
  Join [CertCRLConfig cfg; if String.eqb profileID defaultProfile then crlDefault else profileID].

Definition newGenericEntity (t : CertzType) (profileID : string) (e : Entity) : M genericEntity :=
  now ← gets (fun s => pretty (clock (tick (world s))));
  let ver := replace_all (e_version e) " " "-" in
  let stem := profileID +:+ "_" +:+ ver +:+ "_" +:+ now in
  let '(certPath, keyPath) :=
    match t with
    | certType => (Dir (SrvCertLnk cfg) +:+ "/" +:+ stem +:+ "_cert.pem", Dir (SrvKeyLnk cfg) +:+ "/" +:+ stem +:+ "_key.pem")
    | tbType => (Dir (CaCertLnk cfg) +:+ "/ca_" +:+ stem +:+ "_bundle.pem", "")
    | crlType => (crlPath profileID, "")
    | apType => (FedPolicyFile cfg, "")
    end in
  mret (mkEntity t (e_created_on e) (e_version e) certPath keyPath false).

Definition entityAlreadyActive (profileID : string) (e : genericEntity) (s : Server) : bool :=
  match profiles s !! profileID with
  | None => false
  | Some p => String.eqb (Version e) (Version (entityOf (ActiveEntities p) (EType e)))
  end.

(** The parents of a chain; a parent without a certificate is read all the same. *)
Fixpoint readParents (l : list (option Certificate)) (cert : string) : M (res Code string) :=
  match l with
  | [] => mret (Ok cert)
  | None :: _ => panic
  | Some c :: l =>
      if negb (is_x509 c) then mret (Err InvalidArgument)
      else if negb (is_pem c) then mret (Err InvalidArgument)
      else readParents l (cert +:+ default "" (cert_bytes c) +:+ newline)
  end.

Definition readCertChain (profileID : string) (leaf : option Certificate) (parents : list (option Certificate))
    : M (res Code (string * string)) :=
  match leaf with
  | None => mret (Err InvalidArgument)
  | Some c =>
      if negb (is_x509 c) then mret (Err InvalidArgument)
      else if negb (is_pem c) then mret (Err InvalidArgument)
      else
        match cert_bytes c with
        | None => mret (Err InvalidArgument)
        | Some bytes =>
            p ← gets (fun s => profiles s !! profileID);
            match p with
            | None => panic
            | Some p =>
                match (match private_key c with Some k => Some k | None => generatedKey p end) with
                | None => mret (Err InvalidArgument)
                | Some key =>
                    r ← readParents parents (bytes +:+ newline);
                    mret (match r with Ok cert => Ok (cert, key) | Err e => Err e end)
                end
            end
        end
  end.

(** The code of an error of [saveEntities]; file errors have none of their own. *)
Definition saveEntities (profileID : string) (m : Entity) (e : genericEntity) : M (option Code) :=
  let written (f : bool) : option Code := if f then Some Unknown else None in
  match EType e, e_payload m with
  | certType, CertificateChain leaf parents =>
      r ← readCertChain profileID leaf parents;
      match r with
      | Err c => mret (Some c)
      | Ok (cert, key) =>
          f ← attemptWrite (KeyPath e) key;
          if (f : bool) then mret (Some Unknown) else f ← attemptWrite (CertPath e) cert; mret (written f)
      end
  | tbType, TrustBundle None => panic
  | tbType, TrustBundle (Some tb) =>
      if negb (is_x509 tb) then mret (Some InvalidArgument)
      else if negb (is_pem tb) then mret (Some InvalidArgument)
      else if String.eqb (default "" (cert_bytes tb)) "" then mret (Some InvalidArgument)
      else f ← attemptWrite (CertPath e) (default "" (cert_bytes tb)); mret (written f)
  | crlType, CertificateRevocationListBundle crls =>
      c ← rotateCRLBundle crls (CertPath e);
      mret (match c with Some _ => Some Aborted | None => None end)
  | apType, AuthenticationPolicy value =>
      st ← osLstat (CertPath e +:+ backupExt);
      f ← (if decide (st = NotExist) then renameFile (CertPath e) (CertPath e +:+ backupExt) else mret false);
      if (f : bool) then mret (Some Unknown)
      else
        f ← attemptWrite (CertPath e) value;
        if (f : bool) then _ ← renameFile (CertPath e +:+ backupExt) (CertPath e); mret (Some Unknown) else mret None
  | _, _ => mret (Some Internal)
  end.

Definition put_profile (profileID : string) (p : profile) : M unit :=
  modify (fun s => with_profiles s (<[profileID := p]> (profiles s))).

Definition activateEntity (profileID : string) (e : genericEntity) : M (option Code) :=
  p ← gets (fun s => profiles s !! profileID);
  match p with
  | None => mret (Some InvalidArgument)
  | Some p =>
      f ← match EType e with
          | certType => atomicSetSrvCertKeyPair (CertPath e) (KeyPath e)
          | tbType => atomicSetCACert (CertPath e)
          | _ => mret false
          end;
      if (f : bool) then mret (Some Unknown)
      else
        let cur := entityOf (ActiveEntities p) (EType e) in
        let last := if Final cur then set_entity (LastEntities p) (EType e) cur else LastEntities p in
        _ ← put_profile profileID (mkProfile (ID p) (set_entity (ActiveEntities p) (EType e) e) last (generatedKey p));
        _ ← writeEntityFreshness profileID e;
        mret None
  end.

Definition typeOf (p : Payload) : option CertzType :=
  match p with
  | CertificateChain _ _ => Some certType | TrustBundle _ => Some tbType
  | CertificateRevocationListBundle _ => Some crlType | AuthenticationPolicy _ => Some apType
  | NoPayload => None
  end.

(** One entity of an upload. *)
Definition uploadEntity (overwrite : bool) (profileID : string) (m : Entity) : M (option Code) :=
  if (e_created_on m =? 0)%N then mret (Some InvalidArgument)
  else if String.eqb (e_version m) "" then mret (Some InvalidArgument)
  else
    match typeOf (e_payload m) with
    | None => mret (Some Internal)
    | Some t =>
        if bool_decide (t = crlType) && String.eqb (CertCRLConfig cfg) "" then mret (Some Aborted)
        else
          e ← newGenericEntity t profileID m;
          active ← gets (entityAlreadyActive profileID e);
          if negb overwrite && active then mret (Some AlreadyExists)
          else
            c ← saveEntities profileID m e;
            match c with
            | Some _ => mret (Some Aborted)
            | None =>
                c ← activateEntity profileID e;
                mret (match c with Some _ => Some Aborted | None => None end)
            end
    end.

Definition doUpload (entities : list Entity) (overwrite : bool) (profileID : string) : M (option Code) :=
  match entities with
  | [] => mret (Some InvalidArgument)
  | _ => untilError (uploadEntity overwrite profileID <$> entities)
  end.

(** * Signing requests *)

Definition CanGenerateCSR (params : option CSRParams) : bool :=
  match params with Some p => negb (String.eqb (common_name p) "") | None => false end.

(** The suite is read from absent parameters as unspecified; the subject is not. *)
Definition doGenerateCsr (profileID : string) (params : option CSRParams) : M (res Code string) :=
  match params with
  | None => panic
  | Some params =>
      let '(keySize, algo) := parseCSRSuite (csr_suite params) in
      match keyRequest keySize algo with
      | None => mret (Err InvalidArgument)
      | Some k =>
          match generateKey k with
          | None => mret (Err Internal)
          | Some key =>
              match createCsr params algo key with
              | None => mret (Err Internal)
              | Some csr =>
                  p ← gets (fun s => profiles s !! profileID);
                  match p with
                  | None => panic
                  | Some p => _ ← put_profile profileID (mkProfile (ID p) (ActiveEntities p) (LastEntities p) (Some key)); mret (Ok csr)
                  end
              end
          end
      end
  end.

(** * Roll-back and finalization *)

(** The steps of [revertProfile] for one kind; the profile is read anew. *)
Definition revertEntity (profileID : string) (t : CertzType) : M unit :=
  p ← gets (fun s => profiles s !! profileID);
  match p with
  | None => mret tt
  | Some p =>
      let active := entityOf (ActiveEntities p) t in
      let last := entityOf (LastEntities p) t in
      if Final active then mret tt
      else
        _ ← match t with
            | certType => _ ← atomicSetSrvCertKeyPair (CertPath last) (KeyPath last); mret tt
            | tbType => _ ← atomicSetCACert (CertPath last); mret tt
            | crlType => copyCRLBundle (crlPath profileID +:+ crlFlush) (crlPath profileID)
            | apType => _ ← renameFile (CertPath active +:+ backupExt) (CertPath active); mret tt
            end;
        _ ← writeEntityFreshness profileID last;
        _ ← match t with certType | tbType => removeEntityFiles active | _ => mret tt end;
        put_profile profileID (mkProfile (ID p) (set_entity (ActiveEntities p) t last) (LastEntities p) (generatedKey p))
  end.

Definition revertProfile (profileID : string) : M unit :=
  let profileID := if String.eqb profileID "" then defaultProfile else profileID in
  each_ (revertEntity profileID) [certType; tbType; crlType; apType].

Definition finalizeEntity (profileID : string) (t : CertzType) : M unit :=
  p ← gets (fun s => profiles s !! profileID);
  match p with
  | None => mret tt
  | Some p =>
      let active := entityOf (ActiveEntities p) t in
      let final := set_final active in
      let done := put_profile profileID (mkProfile (ID p) (set_entity (ActiveEntities p) t final)
                                          (set_entity (LastEntities p) t final) (generatedKey p)) in
      if Final active then match t with crlType => mret tt | _ => done end
      else
        _ ← match t with
            | certType | tbType => removeEntityFiles (entityOf (LastEntities p) t)
            | crlType => copyCRLBundle (crlPath profileID) (crlPath profileID +:+ crlFlush)
            | apType => _ ← removePath (CertPath active +:+ backupExt); mret tt
            end;
        done
  end.

(** The result is whether the finalization failed. *)
Definition finalizeProfile (profileID : string) : M bool :=
  p ← gets (fun s => profiles s !! profileID);
  match p with
  | None => mret true
  | Some _ =>
      _ ← each_ (finalizeEntity profileID) [certType; tbType; crlType; apType];
      saveCertzMetadata
  end.

(** * The RPC *)

Definition processRotateRequest (profileID : string) (overwrite : bool) (body : RotateBody) : M (option Code) :=
  known ← gets (fun s => bool_decide (is_Some (profiles s !! profileID)));
  if negb known then mret (Some InvalidArgument)
  else
    match body with
    | GenerateCsr params => r ← doGenerateCsr profileID params; mret (match r with Ok _ => None | Err c => Some c end)
    | Certificates entities => doUpload entities overwrite profileID
    | OtherBody => mret (Some Aborted)
    end.

(** [profileId] is empty until the first request. *)
Fixpoint rotateLoop (profileId : string) (evs : list RecvEvent) : M Code :=
  match evs with
  | [] | RecvEOF :: _ | RecvErr :: _ => _ ← revertProfile profileId; mret Aborted
  | RecvReq FinalizeRotation _ :: _ => f ← finalizeProfile profileId; mret (if (f : bool) then Unknown else OK)
  | RecvReq (Request reqID overwrite body) send_ok :: evs =>
      let profileId := if String.eqb profileId "" then if String.eqb reqID "" then defaultProfile else reqID else profileId in
      e ← processRotateRequest profileId overwrite body;
      match e with
      | Some _ => _ ← revertProfile profileId; mret Aborted
      | None => if send_ok then rotateLoop profileId evs else _ ← revertProfile profileId; mret Aborted
      end
  end.

Definition Rotate (auth : option Code) (locked : bool) (evs : list RecvEvent) : M Code :=
  match auth with
  | Some c => mret c
  | None => if locked then mret Aborted else rotateLoop "" evs
  end.

(** * Start *)

Definition zeroEntity : genericEntity := mkEntity certType 0 "" "" "" false.

Definition bootstrapDefaultProfile : M profile :=
  now ← gets (fun s => Z.to_N (clock (tick (world s))));
  cert ← restoreFromFile (SrvCertLnk cfg) (SrvCertFile cfg);
  key ← restoreFromFile (SrvKeyLnk cfg) (SrvKeyFile cfg);
  ca ← restoreFromFile (CaCertLnk cfg) (CaCertFile cfg);
  mret (mkProfile defaultProfile
    (mkGroup (mkEntity certType now "V1" cert key true) (mkEntity tbType now "V1" ca "" true)
             (mkEntity crlType now "V1" (CertCRLConfig cfg) "" true) (mkEntity apType now "V1" (FedPolicyFile cfg) "" true))
    (mkGroup zeroEntity zeroEntity zeroEntity zeroEntity) None).

(** The paths that must exist. *)
Definition validateProfileExists (p : profile) : M bool :=
  if String.eqb (ID p) "" then mret false
  else
    a ← osLstat (CertPath (Cert (ActiveEntities p)));
    if decide (a = NotExist) then mret false
    else
      b ← osLstat (KeyPath (Cert (ActiveEntities p)));
      if decide (b = NotExist) then mret false
      else c ← osLstat (CertPath (Bundle (ActiveEntities p))); mret (negb (bool_decide (c = NotExist))).

Context `{!MapRange}.

Definition loadCertzMetadata : M unit :=
  text ← readFile (CertzMetaFile cfg);
  match text ≫= decodeProfiles with
  | None => mret tt
  | Some loaded =>
      _ ← modify (fun s => with_profiles s (loaded ∪ profiles s));
      l ← gets (fun s => range_of (profiles s));
      each_ (fun '(k, p) =>
        ok ← validateProfileExists p;
        if (ok : bool) then mret tt else modify (fun s => with_profiles s (delete k (profiles s)))) l
  end.

Definition NewGNSICertzServer : M unit :=
  _ ← loadCertzMetadata;
  known ← gets (fun s => bool_decide (is_Some (profiles s !! defaultProfile)));
  _ ← (if (known : bool) then mret tt
       else p ← bootstrapDefaultProfile; put_profile defaultProfile p);
  l ← gets (fun s => range_of (profiles s));
  _ ← each_ (fun '(_, p) => each_ (fun t => writeEntityFreshness (ID p) (entityOf (ActiveEntities p) t)) [certType; tbType; crlType; apType]) l;
  _ ← saveCertzMetadata;
  mret tt.
End Service.
End Certz.
