(* ===== verification/CertzProofs.v ===== *)
(** Properties of the certz service: what a rotation leaves of the active entities, the
    links that go with them, the atomic replacement of links, and the inputs that make
    the service panic or write elsewhere. *)

From S2P Require Import Prelude PanicMonad GnmiTypes HostIO Filepath Certz.
Import Filepath Certz.
Open Scope go_scope.

Section Service.
Context {mr : MapRange}.
Variables (fails : nat -> bool) (torn : nat -> option string) (cfg : Config) (cwd : string) (clock : nat -> Z).
Variables (pemDecodes parsesCrl : string -> bool) (generateKey : KeyRequest -> option string).
Variables (createCsr : CSRParams -> SigAlgo -> string -> option string) (encodeProfiles : gmap string profile -> string).

(** * Entities *)

Lemma entityOf_set g t t' e : entityOf (set_entity g t e) t' = if decide (t' = t) then e else entityOf g t'.
Proof. by destruct t, t'. Qed.

(** No rotation is under way: every active entity is final. *)
Definition settledProfile (p : profile) : Prop := forall t, Final (entityOf (ActiveEntities p) t) = true.
Definition settled (m : gmap string profile) : Prop := map_Forall (fun _ p => settledProfile p) m.

(** A profile in a rotation that began as [p0]: each entity is the former one, or a new
    one with the former one kept as the last. *)
Definition inRotation (p0 p : profile) : Prop := forall t,
  entityOf (ActiveEntities p) t = entityOf (ActiveEntities p0) t \/
  (Final (entityOf (ActiveEntities p) t) = false /\ entityOf (LastEntities p) t = entityOf (ActiveEntities p0) t).

Definition rotating (pid : string) (m0 m : gmap string profile) : Prop :=
  (forall q, q <> pid -> m !! q = m0 !! q) /\
  match m0 !! pid, m !! pid with
  | Some p0, Some p => inRotation p0 p
  | None, None => True
  | _, _ => False
  end.

(** * Steps that keep the profiles, or a relation on them *)

Definition keeps {A} (R : gmap string profile -> Prop) (m : M A) : Prop := forall s, R (profiles s) -> R (profiles (m s).2).

Lemma keeps_ret {A} R (a : A) : keeps R (mret a).
Proof. by intros s H. Qed.

Lemma keeps_panic {A} R : keeps (A := A) R panic.
Proof. by intros s H. Qed.

Lemma keeps_gets {A} R (f : Server -> A) : keeps R (gets f).
Proof. by intros s H. Qed.

Lemma keeps_bind {A B} R (m : M A) (f : A -> M B) : keeps R m -> (forall a, keeps R (f a)) -> keeps R (m ≫= f).
Proof.
  intros Hm Hf s Hs. unfold mbind, SM_bind. specialize (Hm s Hs). destruct (m s) as [[a|] s1]; [by apply Hf|done].
Qed.

Lemma keeps_each {A} R (f : A -> M unit) l : (forall a, keeps R (f a)) -> keeps R (each_ f l).
Proof. intros H. induction l as [|a l IH]; [apply keeps_ret|]. apply keeps_bind; auto. Qed.

Lemma keeps_untilError {E} R (l : list (M (option E))) : Forall (keeps R) l -> keeps R (untilError l).
Proof. induction 1 as [|m l Hm _ IH]; [apply keeps_ret|]. apply keeps_bind; [done|]. intros [e|]; [apply keeps_ret|done]. Qed.

Lemma keeps_io {A} R (f : World -> A * World) : keeps R (io f).
Proof. intros s H. unfold io. by destruct (f (world s)). Qed.

Lemma keeps_removePath R p : keeps R (removePath fails p).
Proof. intros s H. unfold removePath. destruct (links s !! p); [unfold osCall; by destruct (failed _)|by destruct (osRemove _ _ _)]. Qed.

Lemma keeps_osSymlink R a b : keeps R (osSymlink fails a b).
Proof. intros s H. unfold osSymlink, osCall. by destruct (_ || _). Qed.

Lemma keeps_renameFile R a b : keeps R (renameFile fails a b).
Proof. intros s H. unfold renameFile. by destruct (HostIO.osRename _ _ _ _) as [[]?]. Qed.

Create HintDb keeps.
#[local] Hint Resolve keeps_ret keeps_panic keeps_gets keeps_io keeps_removePath keeps_osSymlink keeps_renameFile : keeps.

(** Structural steps of a proof that a computation keeps a relation. *)
Ltac keep_step :=
  match goal with
  | |- keeps _ (mbind _ _) => apply keeps_bind; [|intro]
  | |- keeps _ (each_ _ _) => apply keeps_each; intro
  | |- keeps _ (match ?x with _ => _ end) => destruct x
  | |- keeps _ (let _ := _ in _) => cbv zeta
  | |- keeps _ _ => solve [eauto with keeps]
  end.
Ltac keep := repeat keep_step.

Lemma keeps_osLstat R p : keeps R (osLstat fails p).
Proof. unfold osLstat. keep. Qed.
Lemma keeps_osStat R p : keeps R (osStat fails p).
Proof. unfold osStat. keep. Qed.
Lemma keeps_osReadlink R p : keeps R (osReadlink fails p).
Proof. unfold osReadlink. keep. Qed.
Lemma keeps_attemptWrite R n d : keeps R (attemptWrite fails torn n d).
Proof. unfold attemptWrite. keep. Qed.
Lemma keeps_readFile R n : keeps R (readFile fails n).
Proof. unfold readFile. keep. Qed.
Lemma keeps_readDir R n : keeps R (readDir fails n).
Proof. unfold readDir. keep. Qed.
#[local] Hint Resolve keeps_osLstat keeps_osStat keeps_osReadlink keeps_attemptWrite keeps_readFile keeps_readDir : keeps.

Lemma keeps_rmSymlink R p : keeps R (rmSymlink fails p).
Proof. unfold rmSymlink. keep. Qed.
#[local] Hint Resolve keeps_rmSymlink : keeps.
Lemma keeps_restoreSymlink R a b : keeps R (restoreSymlink fails a b).
Proof. unfold restoreSymlink. keep. Qed.
#[local] Hint Resolve keeps_restoreSymlink : keeps.
Lemma keeps_setPair R a b : keeps R (atomicSetSrvCertKeyPair fails cfg cwd a b).
Proof. unfold atomicSetSrvCertKeyPair. keep. Qed.
Lemma keeps_setCA R a : keeps R (atomicSetCACert fails cfg cwd a).
Proof. unfold atomicSetCACert. keep. Qed.
Lemma keeps_freshness R q e : keeps R (writeEntityFreshness fails q e).
Proof. unfold writeEntityFreshness. keep. Qed.
Lemma keeps_saveMeta R : keeps R (saveCertzMetadata fails torn cfg encodeProfiles).
Proof. unfold saveCertzMetadata. keep. Qed.
Lemma keeps_removeFiles R e : keeps R (removeEntityFiles fails e).
Proof. unfold removeEntityFiles. keep. Qed.
Lemma keeps_removeDir R p : keeps R (removeDirFiles fails p).
Proof. unfold removeDirFiles. keep. Qed.
#[local] Hint Resolve keeps_setPair keeps_setCA keeps_freshness keeps_saveMeta keeps_removeFiles keeps_removeDir : keeps.
Lemma keeps_copyCRL R a b : keeps R (copyCRLBundle fails torn a b).
Proof. unfold copyCRLBundle. keep. Qed.
Lemma keeps_rotateCRL R l p : keeps R (rotateCRLBundle fails torn pemDecodes parsesCrl l p).
Proof.
  unfold rotateCRLBundle. destruct l as [|c l]; [keep|]. apply keeps_bind.
  - apply keeps_untilError, Forall_fmap, Forall_true. intros x. unfold compose, checkCrl. keep.
  - intros [e|]; [keep|]. apply keeps_bind; [keep|]. intros _. apply keeps_untilError, Forall_fmap, Forall_true. intros x. unfold compose. keep.
Qed.
#[local] Hint Resolve keeps_copyCRL keeps_rotateCRL : keeps.
Lemma keeps_readParents R l c : keeps R (readParents l c).
Proof. revert c. induction l as [|[x|] l IH]; intros c; cbn [readParents]; keep. Qed.
#[local] Hint Resolve keeps_readParents : keeps.
Lemma keeps_readChain R q a l : keeps R (readCertChain q a l).
Proof. unfold readCertChain. keep. Qed.
#[local] Hint Resolve keeps_readChain : keeps.
Lemma keeps_saveEntities R q m e : keeps R (saveEntities fails torn pemDecodes parsesCrl q m e).
Proof. unfold saveEntities. keep. Qed.
Lemma keeps_newEntity R t q m : keeps R (newGenericEntity cfg clock t q m).
Proof. unfold newGenericEntity. keep. Qed.
#[local] Hint Resolve keeps_saveEntities keeps_newEntity : keeps.

Lemma keeps_same {A} (m : M A) s : (forall R, keeps R m) -> profiles (m s).2 = profiles s.
Proof. intros H. by apply (H (fun x => x = profiles s)). Qed.

(** * A rotation *)

Lemma rotating_refl pid m : rotating pid m m.
Proof. split; [done|]. destruct (m !! pid); [|done]. intros t. by left. Qed.

Lemma rotating_put pid m0 m p p' :
  rotating pid m0 m -> m !! pid = Some p -> (forall p0, m0 !! pid = Some p0 -> inRotation p0 p -> inRotation p0 p') ->
  rotating pid m0 (<[pid := p']> m).
Proof.
  intros [Ho Hp] Hm Hr. split; [intros q Hq; by rewrite lookup_insert_ne, Ho|]. rewrite lookup_insert_eq. rewrite Hm in Hp.
  destruct (m0 !! pid) as [p0|] eqn:E; [by apply Hr|done].
Qed.

(** A new entity that is not final joins the rotation. *)
Lemma inRotation_activate p0 p e :
  settledProfile p0 -> Final e = false -> inRotation p0 p ->
  inRotation p0 (mkProfile (ID p) (set_entity (ActiveEntities p) (EType e) e)
    (if Final (entityOf (ActiveEntities p) (EType e)) then set_entity (LastEntities p) (EType e) (entityOf (ActiveEntities p) (EType e))
     else LastEntities p) (generatedKey p)).
Proof.
  intros Hs He Hr t. cbn [ActiveEntities LastEntities]. rewrite entityOf_set. case_decide as Ht; [subst t|].
  - right. split; [done|]. specialize (Hr (EType e)) as [Ha|[Hf Hl]].
    + rewrite Ha at 1. rewrite (Hs (EType e)). by rewrite entityOf_set, decide_True.
    + by rewrite Hf.
  - specialize (Hr t) as [Ha|[Hf Hl]]; [by left|]. right. split; [done|]. destruct (Final (entityOf (ActiveEntities p) (EType e))); [|exact Hl]. by rewrite entityOf_set, decide_False.
Qed.

Lemma activate_rotating pid m0 e :
  settled m0 -> Final e = false -> keeps (rotating pid m0) (activateEntity fails cfg cwd pid e).
Proof.
  intros Hs He s Hr. unfold activateEntity, gets. unfold mbind at 1, SM_bind at 1. cbn [fst snd].
  destruct (profiles s !! pid) as [p|] eqn:Ep; [|done]. unfold mbind at 1, SM_bind at 1.
  set (lk := match EType e with certType => _ | tbType => _ | _ => _ end).
  assert (profiles (lk s).2 = profiles s) as Hlk by (apply keeps_same; intros R; subst lk; keep).
  destruct (lk s) as [[f|] s1]; cbn [snd] in Hlk; [|by rewrite <- Hlk in Hr]. destruct f; [by rewrite <- Hlk in Hr|].
  unfold mbind, SM_bind, put_profile, modify.
  match goal with |- rotating _ _ (profiles (match ?m ?s2 with _ => _ end).2) =>
    assert (rotating pid m0 (profiles s2)) as H2; [|pose proof (keeps_freshness (rotating pid m0) pid e s2 H2) as H3; by destruct (m s2) as [[]?]] end.
  cbn [profiles with_profiles]. rewrite Hlk. apply (rotating_put pid m0 (profiles s) p); [done|done|].
  intros p0 Hp0 Hin. apply inRotation_activate; [|done|done]. by apply (Hs pid).
Qed.

Lemma upload_rotating pid m0 ow m :
  settled m0 -> keeps (rotating pid m0) (uploadEntity fails torn cfg cwd clock pemDecodes parsesCrl ow pid m).
Proof.
  intros Hs. unfold uploadEntity. do 2 (keep_step; [keep|]). destruct (typeOf (e_payload m)) as [t|]; [|keep]. keep_step; [keep|].
  intros s Hr. unfold newGenericEntity. unfold mbind at 1, SM_bind at 1. unfold mbind at 1, SM_bind at 1, gets at 1. cbn [fst snd].
  set (paths := match t with certType => _ | tbType => _ | crlType => _ | apType => _ end). destruct paths as [cp kp].
  cbn [mret SM_ret]. set (e := mkEntity t _ _ cp kp false).
  match goal with |- rotating _ _ (profiles (?m s).2) => assert (keeps (rotating pid m0) m) as Hk; [|by apply Hk] end.
  keep_step; [keep|]. keep_step; [keep|]. keep_step; [keep|]. keep_step; [keep|]. keep_step; [by apply activate_rotating|keep].
Qed.

Lemma process_rotating pid m0 ow body :
  settled m0 -> keeps (rotating pid m0) (processRotateRequest fails torn cfg cwd clock pemDecodes parsesCrl generateKey createCsr pid ow body).
Proof.
  intros Hs. unfold processRotateRequest. keep_step; [keep|]. keep_step; [keep|]. destruct body as [params|l|]; [| |keep].
  - keep_step; [|keep]. unfold doGenerateCsr. destruct params as [params|]; [|keep]. destruct (parseCSRSuite _) as [ks algo].
    do 3 (keep_step; [|keep]). intros s' Hr. unfold gets, mbind, SM_bind. cbn [fst snd]. destruct (profiles s' !! pid) as [p|] eqn:Ep; [|done].
    cbn. by apply (rotating_put pid m0 (profiles s') p).
  - unfold doUpload. destruct l as [|x l]; [keep|]. apply keeps_untilError, Forall_fmap, Forall_true. intros y. by apply upload_rotating.
Qed.

(** * Settling *)

Definition setActive (p : profile) (t : CertzType) (e : genericEntity) : profile :=
  mkProfile (ID p) (set_entity (ActiveEntities p) t e) (LastEntities p) (generatedKey p).

(** What the roll-back of one kind does to the profiles, when it does not panic. *)
Lemma revertEntity_profiles pid t s s' :
  revertEntity fails torn cfg cwd pid t s = (Some tt, s') ->
  profiles s' = match profiles s !! pid with
                | None => profiles s
                | Some p => if Final (entityOf (ActiveEntities p) t) then profiles s
                            else <[pid := setActive p t (entityOf (LastEntities p) t)]> (profiles s)
                end.
Proof.
  unfold revertEntity, gets. unfold mbind at 1, SM_bind at 1. cbn [fst snd]. destruct (profiles s !! pid) as [p|]; [|by intros [= <-]].
  destruct (Final _); [by intros [= <-]|]. intros H.
  match type of H with (?m ≫= ?f) s = _ => assert (forall R, keeps R m) as K1 by (intros R; keep); pose proof (keeps_same m s K1) as P1;
    unfold mbind at 1, SM_bind at 1 in H; destruct (m s) as [[a|] s1]; [|done] end. cbn [snd] in P1.
  match type of H with (?m ≫= ?f) s1 = _ => assert (forall R, keeps R m) as K2 by (intros R; keep); pose proof (keeps_same m s1 K2) as P2;
    unfold mbind at 1, SM_bind at 1 in H; destruct (m s1) as [[b|] s2]; [|done] end. cbn [snd] in P2.
  match type of H with (?m ≫= ?f) s2 = _ => assert (forall R, keeps R m) as K3 by (intros R; keep); pose proof (keeps_same m s2 K3) as P3;
    unfold mbind at 1, SM_bind at 1 in H; destruct (m s2) as [[c|] s3]; [|done] end. cbn [snd] in P3.
  injection H as <-. cbn [profiles with_profiles]. by rewrite P3, P2, P1.
Qed.

(** A step on the profile [pid], if there is one. *)
Definition stepAt (pid : string) (f : profile -> profile) (m : gmap string profile) : gmap string profile :=
  match m !! pid with None => m | Some p => <[pid := f p]> m end.

Lemma stepAt_comp pid f g m : stepAt pid g (stepAt pid f m) = stepAt pid (fun p => g (f p)) m.
Proof. unfold stepAt. destruct (m !! pid) as [p|] eqn:E; [|by rewrite E]. by rewrite lookup_insert_eq, insert_insert_eq. Qed.

Definition allTypes : list CertzType := [certType; tbType; crlType; apType].

Lemma each_stepAt pid (f : CertzType -> M unit) (g : CertzType -> profile -> profile) l s s' :
  (forall t s s', f t s = (Some tt, s') -> profiles s' = stepAt pid (g t) (profiles s)) ->
  each_ f l s = (Some tt, s') -> profiles s' = stepAt pid (fun p => fold_left (fun p t => g t p) l p) (profiles s).
Proof.
  intros Hf. revert s. induction l as [|t l IH]; intros s; cbn [each_ fold_left].
  - intros [= <-]. unfold stepAt. destruct (profiles s !! pid) eqn:E; [by rewrite insert_id|done].
  - unfold mbind, SM_bind. destruct (f t s) as [[[]|] s1] eqn:E; [|done]. intros H%IH. by rewrite H, (Hf _ _ _ E), stepAt_comp.
Qed.

Definition revertStep (t : CertzType) (p : profile) : profile :=
  if Final (entityOf (ActiveEntities p) t) then p else setActive p t (entityOf (LastEntities p) t).

Definition finalStep (t : CertzType) (p : profile) : profile :=
  let final := set_final (entityOf (ActiveEntities p) t) in
  if Final (entityOf (ActiveEntities p) t) && bool_decide (t = crlType) then p
  else mkProfile (ID p) (set_entity (ActiveEntities p) t final) (set_entity (LastEntities p) t final) (generatedKey p).

Lemma revertEntity_step pid t s s' :
  revertEntity fails torn cfg cwd pid t s = (Some tt, s') -> profiles s' = stepAt pid (revertStep t) (profiles s).
Proof.
  intros ->%revertEntity_profiles. unfold stepAt, revertStep. destruct (profiles s !! pid) as [p|] eqn:E; [|done].
  destruct (Final _); [by rewrite insert_id|done].
Qed.

Lemma finalizeEntity_step pid t s s' :
  finalizeEntity fails torn cfg pid t s = (Some tt, s') -> profiles s' = stepAt pid (finalStep t) (profiles s).
Proof.
  unfold finalizeEntity, gets. unfold mbind at 1, SM_bind at 1. cbn [fst snd]. unfold stepAt, finalStep.
  destruct (profiles s !! pid) as [p|] eqn:Ep; [|by intros [= <-]]. destruct (Final _) eqn:Ef; cbn [andb].
  - destruct t; cbn; intros [= <-]; cbn; try done. by rewrite insert_id.
  - intros H.
    match type of H with (?m ≫= ?f) s = _ => assert (forall R, keeps R m) as K1 by (intros R; keep); pose proof (keeps_same m s K1) as P1;
      unfold mbind at 1, SM_bind at 1 in H; destruct (m s) as [[a|] s1]; [|done] end. cbn [snd] in P1.
    injection H as <-. cbn [profiles with_profiles]. by rewrite P1.
Qed.

Lemma inRotation_revert p0 p t :
  settledProfile p0 -> inRotation p0 p ->
  inRotation p0 (revertStep t p) /\ entityOf (ActiveEntities (revertStep t p)) t = entityOf (ActiveEntities p0) t /\
  (forall t', entityOf (ActiveEntities p) t' = entityOf (ActiveEntities p0) t' -> entityOf (ActiveEntities (revertStep t p)) t' = entityOf (ActiveEntities p0) t').
Proof.
  intros Hs Hr. pose proof (Hr t) as Ht. unfold revertStep. destruct (Final _) eqn:Ef.
  - split_and!; [done| |done]. destruct Ht as [?|[? _]]; [done|congruence].
  - assert (entityOf (LastEntities p) t = entityOf (ActiveEntities p0) t) as Hl.
    { destruct Ht as [Ha|[_ Hl]]; [|done]. rewrite Ha, (Hs t) in Ef. done. }
    assert (forall t', entityOf (ActiveEntities (setActive p t (entityOf (LastEntities p) t))) t' =
      if decide (t' = t) then entityOf (LastEntities p) t else entityOf (ActiveEntities p) t') as Hset by (intros t'; apply entityOf_set).
    split_and!.
    + intros t'. rewrite Hset. case_decide as Hd; [left; by rewrite Hl, Hd|apply Hr].
    + by rewrite Hset, decide_True.
    + intros t' Ha. rewrite Hset. case_decide as Hd; [by rewrite Hl, Hd|done].
Qed.

Lemma group_ext g g' : (forall t, entityOf g t = entityOf g' t) -> g = g'.
Proof.
  intros H. pose proof (H certType). pose proof (H tbType). pose proof (H crlType). pose proof (H apType).
  destruct g, g'. cbn in *. by subst.
Qed.

(** The roll-back gives every active entity back. *)
Lemma revert_all p0 p :
  settledProfile p0 -> inRotation p0 p ->
  ActiveEntities (fold_left (fun p t => revertStep t p) allTypes p) = ActiveEntities p0.
Proof.
  intros Hs H0. apply group_ext. cbn [fold_left allTypes].
  destruct (inRotation_revert p0 p certType Hs H0) as (H1 & A1 & _).
  destruct (inRotation_revert p0 _ tbType Hs H1) as (H2 & A2 & K2).
  destruct (inRotation_revert p0 _ crlType Hs H2) as (H3 & A3 & K3).
  destruct (inRotation_revert p0 _ apType Hs H3) as (H4 & A4 & K4).
  intros []; auto.
Qed.

Lemma final_all p : settledProfile (fold_left (fun p t => finalStep t p) allTypes p).
Proof.
  assert (forall t p, Final (entityOf (ActiveEntities (finalStep t p)) t) = true /\
    (forall t', Final (entityOf (ActiveEntities p) t') = true -> Final (entityOf (ActiveEntities (finalStep t p)) t') = true)) as H.
  { intros t q. unfold finalStep. destruct (Final _ && _) eqn:E; [by apply andb_true_iff in E as [? _]|]. cbn [ActiveEntities].
    split; [by rewrite entityOf_set, decide_True|]. intros t' Ht'. rewrite entityOf_set. by destruct (decide (t' = t)). }
  cbn [fold_left allTypes]. destruct (H certType p) as [A1 _]. destruct (H tbType (finalStep certType p)) as [A2 K2].
  destruct (H crlType (finalStep tbType (finalStep certType p))) as [A3 K3].
  destruct (H apType (finalStep crlType (finalStep tbType (finalStep certType p)))) as [A4 K4]. intros []; auto.
Qed.

Definition actives (m : gmap string profile) : gmap string entityGroup := ActiveEntities <$> m.

Lemma revertProfile_actives pid m0 s s' :
  settled m0 -> rotating (if String.eqb pid "" then defaultProfile else pid) m0 (profiles s) ->
  revertProfile fails torn cfg cwd pid s = (Some tt, s') -> actives (profiles s') = actives m0.
Proof.
  intros Hs. unfold revertProfile. set (q := if String.eqb pid "" then _ else _). intros [Ho Hp] H.
  apply (each_stepAt q _ revertStep) in H; [|intros; by apply revertEntity_step]. rewrite H. unfold actives. apply map_eq. intros k. rewrite !lookup_fmap.
  unfold stepAt. destruct (profiles s !! q) as [p|] eqn:Eq; destruct (m0 !! q) as [p0|] eqn:E0; try done.
  - destruct (decide (k = q)) as [->|Hk].
    + rewrite lookup_insert_eq, E0. cbn. f_equal. apply revert_all; [by apply (Hs q)|done].
    + by rewrite lookup_insert_ne, Ho.
  - destruct (decide (k = q)) as [->|Hk]; [by rewrite Eq, E0|by rewrite Ho].
Qed.

Lemma actives_settled m m0 : settled m0 -> actives m = actives m0 -> settled m.
Proof.
  intros Hs Ha q p Hp t. apply (f_equal (lookup q)) in Ha. unfold actives in Ha. rewrite !lookup_fmap, Hp in Ha.
  destruct (m0 !! q) as [p0|] eqn:E; [|done]. cbn in Ha. injection Ha as ->. by apply (Hs q p0).
Qed.

(** What a rotation ends in. *)
Definition rotationEnd (m0 : gmap string profile) (code : Code) (m : gmap string profile) : Prop :=
  settled m /\ (code = Aborted -> actives m = actives m0).

Lemma revert_ends pid m0 s r s' :
  settled m0 -> rotating (if String.eqb pid "" then defaultProfile else pid) m0 (profiles s) ->
  (_ ← revertProfile fails torn cfg cwd pid; mret Aborted) s = (Some r, s') -> rotationEnd m0 r (profiles s').
Proof.
  intros Hs Hr. unfold mbind, SM_bind. destruct (revertProfile _ _ _ _ _ s) as [[[]|] s1] eqn:E; [|done]. intros [= <- <-].
  pose proof (revertProfile_actives pid m0 s s1 Hs Hr E) as Ha. split; [by eapply actives_settled|done].
Qed.

Lemma finalize_ends pid m0 s f s' :
  settled m0 -> rotating pid m0 (profiles s) -> finalizeProfile fails torn cfg encodeProfiles pid s = (Some f, s') -> settled (profiles s').
Proof.
  intros Hs [Ho Hp]. unfold finalizeProfile, gets. unfold mbind at 1, SM_bind at 1. cbn [fst snd].
  assert (forall q p, q <> pid -> profiles s !! q = Some p -> settledProfile p) as Hoth by (intros q p Hq Hp'; rewrite Ho in Hp' by done; by apply (Hs q)).
  destruct (profiles s !! pid) as [p|] eqn:Ep.
  - unfold mbind, SM_bind. destruct (each_ _ _ s) as [[[]|] s1] eqn:E; [|done]. intros H.
    pose proof (keeps_same (saveCertzMetadata fails torn cfg encodeProfiles) s1 (fun R => keeps_saveMeta R)) as Hsv. rewrite H in Hsv. cbn [snd] in Hsv.
    apply (each_stepAt pid _ finalStep) in E; [|intros; by apply finalizeEntity_step]. rewrite Hsv, E. unfold stepAt. rewrite Ep.
    intros q p' [[<- <-]|[Hq Hp']]%lookup_insert_Some; [apply final_all|by apply (Hoth q)].
  - intros [= <- <-]. intros q p Hq. apply (Hoth q); [congruence|done].
Qed.

Abbreviation loop := (rotateLoop fails torn cfg cwd clock pemDecodes parsesCrl generateKey createCsr encodeProfiles).

Lemma rotateLoop_ends m0 evs : settled m0 -> forall pid s code s',
  (if String.eqb pid "" then profiles s = m0 else rotating pid m0 (profiles s)) ->
  loop pid evs s = (Some code, s') -> rotationEnd m0 code (profiles s').
Proof.
  intros Hs. induction evs as [|ev evs IH]; intros pid s code s' Hr; cbn [rotateLoop].
  { apply revert_ends; [done|]. destruct (String.eqb pid ""); [rewrite Hr; apply rotating_refl|done]. }
  assert ((_ ← revertProfile fails torn cfg cwd pid; mret Aborted) s = (Some code, s') -> rotationEnd m0 code (profiles s')) as Hrev.
  { apply revert_ends; [done|]. destruct (String.eqb pid ""); [rewrite Hr; apply rotating_refl|done]. }
  destruct ev as [| |[|reqID ow body] ok]; [exact Hrev|exact Hrev| |].
  - unfold mbind, SM_bind. destruct (finalizeProfile _ _ _ _ _ s) as [[f|] s1] eqn:E; [|done]. intros [= <- <-].
    split; [|by destruct f]. eapply (finalize_ends pid m0); [done| |exact E].
    destruct (String.eqb pid ""); [rewrite Hr; apply rotating_refl|done].
  - set (q := if String.eqb pid "" then _ else pid). assert (String.eqb q "" = false) as Hq.
    { subst q. destruct (String.eqb pid "") eqn:E; [|done]. by destruct (String.eqb reqID "") eqn:E2. }
    assert (rotating q m0 (profiles s)) as Hrq.
    { subst q. destruct (String.eqb pid ""); [rewrite Hr; apply rotating_refl|done]. }
    unfold mbind at 1, SM_bind at 1. pose proof (process_rotating q m0 ow body Hs s Hrq) as H1.
    destruct (processRotateRequest _ _ _ _ _ _ _ _ _ q ow body s) as [[e|] s1]; [|done]. cbn [snd] in H1.
    assert ((_ ← revertProfile fails torn cfg cwd q; mret Aborted) s1 = (Some code, s') -> rotationEnd m0 code (profiles s')) as Hrev1
      by (apply revert_ends; [done|]; by rewrite Hq).
    destruct e as [e|]; [exact Hrev1|]. destruct ok; [|exact Hrev1]. apply IH. by rewrite Hq.
Qed.

(** C18. Whatever system calls fail, a rotation that returns ends with every active entity
    of every profile final, and a rotation that is aborted gives every profile the
    active entities it began with. *)
Theorem certz_rotation_settled locked evs s code s' :
  settled (profiles s) ->
  Rotate fails torn cfg cwd clock pemDecodes parsesCrl generateKey createCsr encodeProfiles None locked evs s = (Some code, s') ->
  settled (profiles s') /\ (code = Aborted -> actives (profiles s') = actives (profiles s)).
Proof.
  intros Hs. unfold Rotate. destruct locked; [by intros [= <- <-]|]. by apply rotateLoop_ends.
Qed.

(** * Replacing links *)

(** At most one system call fails. *)
Definition oneFault : Prop := forall m n, fails m = true -> fails n = true -> m = n.

(** From this point on none does. *)
Definition quiet (s : Server) : Prop := forall n, tick (world s) <= n -> fails n = false.

(** Only the links have changed, to [l]. *)
Definition linksTo (s : Server) (l : gmap string string) (s' : Server) : Prop :=
  links s' = l /\ profiles s' = profiles s /\ fs (world s') = fs (world s) /\ db (world s') = db (world s) /\ tick (world s) <= tick (world s').

Lemma quiet_linksTo s l s' : quiet s -> linksTo s l s' -> quiet s'.
Proof. intros H (_ & _ & _ & _ & Ht) n Hn. apply H. lia. Qed.

Lemma linksTo_trans s l s1 l' s2 : linksTo s l s1 -> linksTo s1 l' s2 -> linksTo s l' s2.
Proof. unfold linksTo. intros (? & ? & ? & ? & ?) (? & ? & ? & ? & ?). split_and!; congruence || lia. Qed.

(** Removing a link when no call fails. *)
Lemma rmSymlink_quiet path s :
  quiet s -> fs (world s) !! path = None ->
  exists s', rmSymlink fails path s = (Some (Ok (default "" (links s !! path))), s') /\ linksTo s (delete path (links s)) s'.
Proof.
  intros Hq Hf. unfold rmSymlink, osLstat, osReadlink, removePath, io, osCall, gets, next. unfold mbind, SM_bind. cbn.
  rewrite (Hq (tick (world s))) by lia. cbn. rewrite Hf. destruct (links s !! path) as [old|] eqn:El.
  - rewrite bool_decide_true by (left; by eexists). rewrite decide_False by done. cbn. rewrite (Hq (S _)) by lia. cbn. rewrite El.
    cbn. rewrite El. cbn. rewrite (Hq (S (S _))) by lia. cbn. eexists. split; [reflexivity|]. split_and!; try done. cbn. lia.
  - rewrite bool_decide_false by (intros [[? ?]|[? ?]]; congruence). rewrite decide_True by done. eexists. split; [reflexivity|].
    split_and!; try done; cbn; [by rewrite delete_id|lia].
Qed.

Lemma osSymlink_quiet target link s :
  quiet s -> fs (world s) !! link = None -> links s !! link = None ->
  exists s', osSymlink fails target link s = (Some false, s') /\ linksTo s (<[link := target]> (links s)) s'.
Proof.
  intros Hq Hf Hl. unfold osSymlink, osCall, next. rewrite Hl, Hf, (Hq (tick (world s))) by lia. cbn. eexists. split; [reflexivity|].
  split_and!; try done. cbn. lia.
Qed.

Lemma osStat_quiet p s :
  quiet s -> exists s', osStat fails p s = (Some (if bool_decide (is_Some (fs (world s) !! resolve s p)) then Exist else NotExist), s') /\
    linksTo s (links s) s'.
Proof.
  intros Hq. unfold osStat, io, osCall, gets, next. unfold mbind, SM_bind. cbn. rewrite (Hq (tick (world s))) by lia. cbn.
  eexists. split; [reflexivity|]. split_and!; try done. cbn. lia.
Qed.

(** Restoring a link to a file that exists. *)
Lemma restoreSymlink_quiet old link s :
  quiet s -> fs (world s) !! link = None -> is_Some (fs (world s) !! resolve s old) -> old <> "" ->
  exists s', restoreSymlink fails old link s = (Some false, s') /\ linksTo s (<[link := old]> (links s)) s'.
Proof.
  intros Hq Hf Ho Hne. unfold restoreSymlink. destruct (String.eqb_spec old ""); [done|].
  destruct (osStat_quiet old s Hq) as (s1 & E1 & L1). rewrite bool_decide_true in E1 by done.
  destruct (rmSymlink_quiet link s1) as (s2 & E2 & L2); [by eapply quiet_linksTo|by destruct L1 as (_ & _ & -> & _)|].
  unfold mbind, SM_bind. rewrite E1, E2. pose proof (linksTo_trans _ _ _ _ _ L1 L2) as L3.
  destruct (osSymlink_quiet old link s2) as (s3 & E3 & L4).
  - by eapply quiet_linksTo.
  - by destruct L3 as (_ & _ & -> & _).
  - destruct L3 as (-> & _). by rewrite lookup_delete_eq.
  - exists s3. split; [done|]. pose proof (linksTo_trans _ _ _ _ _ L3 L4) as L5. destruct L3 as (HL & _). rewrite HL in L5.
    destruct L1 as (HL1 & _). by rewrite HL1, insert_delete_eq in L5.
Qed.

Lemma after_fault s l s' n : oneFault -> fails n = true -> n < tick (world s') -> linksTo s l s' -> quiet s'.
Proof. intros H1 Hn Hlt _ k Hk. destruct (fails k) eqn:E; [|done]. pose proof (H1 _ _ E Hn). lia. Qed.

Lemma rmSymlink_one path old s :
  oneFault -> fs (world s) !! path = None -> links s !! path = Some old ->
  exists s', (rmSymlink fails path s = (Some (Ok old), s') /\ linksTo s (delete path (links s)) s') \/
             (rmSymlink fails path s = (Some (Err tt), s') /\ linksTo s (links s) s' /\ quiet s').
Proof.
  intros H1 Hf Hl. unfold rmSymlink, osLstat, osReadlink, removePath, io, osCall, gets, next. unfold mbind, SM_bind. cbn.
  assert (bool_decide (is_Some (links s !! path) \/ is_Some (fs (world s) !! path)) = true) as Hex by (apply bool_decide_true; left; by eexists).
  destruct (fails (tick (world s))) eqn:F0; cbn; rewrite ?Hex, decide_False by done; cbn.
  - assert (forall n, tick (world s) < n -> fails n = false) as Hq.
    { intros n Hn. destruct (fails n) eqn:E; [|done]. pose proof (H1 _ _ F0 E). lia. }
    rewrite (Hq (S _)) by lia. cbn. rewrite Hl. cbn. rewrite Hl, (Hq (S (S _))) by lia. cbn.
    eexists. left. split; [reflexivity|]. split_and!; try done. cbn. lia.
  - destruct (fails (S (tick (world s)))) eqn:F1; cbn.
    { eexists. right. split; [reflexivity|]. assert (linksTo s (links s) (with_world (with_world s (next (world s))) (next (next (world s))))) as HL
        by (split_and!; try done; cbn; lia). split; [exact HL|]. eapply after_fault; [done|exact F1|cbn; lia|exact HL]. }
    rewrite Hl. cbn. rewrite Hl. destruct (fails (S (S (tick (world s))))) eqn:F2; cbn.
    + eexists. right. split; [reflexivity|]. match goal with |- linksTo _ _ ?x /\ _ => assert (linksTo s (links s) x) as HL by (split_and!; try done; cbn; lia) end.
      split; [exact HL|]. eapply after_fault; [done|exact F2|cbn; lia|exact HL].
    + eexists. left. split; [reflexivity|]. split_and!; try done. cbn. lia.
Qed.

Lemma osSymlink_one target link s :
  oneFault -> fs (world s) !! link = None -> links s !! link = None ->
  exists s', (osSymlink fails target link s = (Some false, s') /\ linksTo s (<[link := target]> (links s)) s') \/
             (osSymlink fails target link s = (Some true, s') /\ linksTo s (links s) s' /\ quiet s').
Proof.
  intros H1 Hf Hl. unfold osSymlink, osCall, next. rewrite Hl, Hf. destruct (fails (tick (world s))) eqn:F; cbn.
  - eexists. right. split; [reflexivity|]. match goal with |- linksTo _ _ ?x /\ _ => assert (linksTo s (links s) x) as HL by (split_and!; try done; cbn; lia) end.
    split; [exact HL|]. eapply after_fault; [done|exact F|cbn; lia|exact HL].
  - eexists. left. split; [reflexivity|]. split_and!; try done. cbn. lia.
Qed.

(** The links of certificate and key as a rotation finds them: two links to files. *)
Record pairLinked (s : Server) (oldCert oldKey : string) : Prop := {
  pair_diff : SrvCertLnk cfg <> SrvKeyLnk cfg;
  pair_cert : links s !! SrvCertLnk cfg = Some oldCert;
  pair_key : links s !! SrvKeyLnk cfg = Some oldKey;
  pair_nofile : fs (world s) !! SrvCertLnk cfg = None /\ fs (world s) !! SrvKeyLnk cfg = None;
  pair_targets : forall x, x = oldCert \/ x = oldKey -> x <> "" /\ is_Some (fs (world s) !! x) /\ links s !! x = None
}.

(** A target stays a file behind no link while only the two links change. *)
Lemma target_resolves s oc ok x l s1 :
  pairLinked s oc ok -> (x = oc \/ x = ok) -> linksTo s l s1 ->
  (forall k, k <> SrvCertLnk cfg -> k <> SrvKeyLnk cfg -> l !! k = links s !! k) -> is_Some (fs (world s1) !! resolve s1 x).
Proof.
  intros Hp Hx (Hl & _ & Hf & _) Hk. destruct (pair_targets _ _ _ Hp x Hx) as (_ & Hs & Hn). destruct (pair_nofile _ _ _ Hp) as [N1 N2].
  unfold resolve. rewrite Hl, Hk, Hn, Hf; [done| |]; intros ->; rewrite ?N1, ?N2 in Hs; by destruct Hs.
Qed.

(** Both links are put back, from any state in which only they have changed. *)
Lemma undo_restores s oc ok l s1 :
  pairLinked s oc ok -> quiet s1 -> linksTo s l s1 ->
  (forall k, k <> SrvCertLnk cfg -> k <> SrvKeyLnk cfg -> l !! k = links s !! k) ->
  exists s2, (_ ← restoreSymlink fails oc (SrvCertLnk cfg); _ ← restoreSymlink fails ok (SrvKeyLnk cfg); mret true) s1 = (Some true, s2) /\ linksTo s (links s) s2.
Proof.
  intros Hp Hq L1 Hk. destruct (pair_nofile _ _ _ Hp) as [N1 N2]. destruct (pair_targets _ _ _ Hp oc (or_introl eq_refl)) as (Hc & _).
  destruct (pair_targets _ _ _ Hp ok (or_intror eq_refl)) as (Hky & _). destruct (L1) as (HL & _ & HF & _).
  destruct (restoreSymlink_quiet oc (SrvCertLnk cfg) s1) as (s2 & E2 & L2); [done|by rewrite HF|by eapply target_resolves; [|left| |]|done|].
  pose proof (linksTo_trans _ _ _ _ _ L1 L2) as L3. rewrite HL in L3. assert (links s2 = <[SrvCertLnk cfg := oc]> l) as HL2 by (by destruct L3).
  destruct (restoreSymlink_quiet ok (SrvKeyLnk cfg) s2) as (s3 & E3 & L4).
  - by eapply quiet_linksTo.
  - by destruct L3 as (_ & _ & -> & _).
  - eapply target_resolves; [done|by right|done|]. intros k K1 K2. rewrite lookup_insert_ne by done. by apply Hk.
  - done.
  - exists s3. unfold mbind, SM_bind. rewrite E2, E3. split; [done|]. pose proof (linksTo_trans _ _ _ _ _ L3 L4) as L5. rewrite HL2 in L5.
    enough (<[SrvKeyLnk cfg := ok]> (<[SrvCertLnk cfg := oc]> l) = links s) as <- by done. apply map_eq. intros k.
    destruct (decide (k = SrvKeyLnk cfg)) as [->|K2]; [by rewrite lookup_insert_eq, (pair_key _ _ _ Hp)|]. rewrite lookup_insert_ne by done.
    destruct (decide (k = SrvCertLnk cfg)) as [->|K1]; [by rewrite lookup_insert_eq, (pair_cert _ _ _ Hp)|]. rewrite lookup_insert_ne by done. by apply Hk.
Qed.

(** Replacing the links of certificate and key is atomic when at most one system call
    fails, whichever it is: either both links lead to the new files, or the call reports
    an error and every link is as before; files and metadata are not touched. *)
Theorem set_pair_atomic s oldCert oldKey sCert sKey :
  oneFault -> pairLinked s oldCert oldKey ->
  exists f s', atomicSetSrvCertKeyPair fails cfg cwd sCert sKey s = (Some f, s') /\
    linksTo s (if f then links s else <[SrvKeyLnk cfg := Abs cwd sKey]> (<[SrvCertLnk cfg := Abs cwd sCert]> (links s))) s'.
Proof.
  intros H1 Hp. destruct (pair_nofile _ _ _ Hp) as [N1 N2]. pose proof (pair_diff _ _ _ Hp) as Hd.
  unfold atomicSetSrvCertKeyPair. unfold mbind at 1, SM_bind at 1.
  destruct (rmSymlink_one (SrvCertLnk cfg) oldCert s H1 N1 (pair_cert _ _ _ Hp)) as (s1 & [[-> L1]|(-> & L1 & _)]); [|by exists true, s1].
  assert (links s1 !! SrvKeyLnk cfg = Some oldKey) as Hk1 by (destruct L1 as (-> & _); rewrite lookup_delete_ne by done; apply (pair_key _ _ _ Hp)).
  assert (fs (world s1) = fs (world s)) as F1 by (by destruct L1 as (_ & _ & ? & _)).
  unfold mbind at 1, SM_bind at 1. destruct (rmSymlink_one (SrvKeyLnk cfg) oldKey s1) as (s2 & [[-> L2]|(-> & L2 & Q2)]); [done|by rewrite F1|done| |].
  2: { (* the key link could not be removed *)
    pose proof (linksTo_trans _ _ _ _ _ L1 L2) as L3. assert (links s2 = delete (SrvCertLnk cfg) (links s)) as HL2 by (destruct L2 as (-> & _); by destruct L1).
    destruct (restoreSymlink_quiet oldCert (SrvCertLnk cfg) s2) as (s3 & E3 & L4).
    - done.
    - by destruct L3 as (_ & _ & -> & _).
    - eapply target_resolves; [done|by left|exact L3|]. intros k K1 K2. destruct L1 as (-> & _). by rewrite lookup_delete_ne.
    - by destruct (pair_targets _ _ _ Hp oldCert (or_introl eq_refl)).
    - exists true, s3. unfold mbind, SM_bind. rewrite E3. split; [done|]. pose proof (linksTo_trans _ _ _ _ _ L3 L4) as L5.
      by rewrite HL2, insert_delete_eq, insert_id in L5 by apply (pair_cert _ _ _ Hp). }
  pose proof (linksTo_trans _ _ _ _ _ L1 L2) as L3. assert (links s1 = delete (SrvCertLnk cfg) (links s)) as HL1 by (by destruct L1). rewrite HL1 in L3.
  assert (links s2 = delete (SrvKeyLnk cfg) (delete (SrvCertLnk cfg) (links s))) as HL2 by (by destruct L3).
  assert (fs (world s2) = fs (world s)) as F2 by (by destruct L3 as (_ & _ & ? & _)).
  assert (forall k, k <> SrvCertLnk cfg -> k <> SrvKeyLnk cfg -> links s2 !! k = links s !! k) as K2
    by (intros k ? ?; rewrite HL2; by rewrite !lookup_delete_ne by done).
  unfold mbind at 1, SM_bind at 1. destruct (osSymlink_one (Abs cwd sCert) (SrvCertLnk cfg) s2) as (s3 & [[-> L4]|(-> & L4 & Q4)]).
  - done.
  - by rewrite F2.
  - rewrite HL2, lookup_delete_ne, lookup_delete_eq by done. done.
  - pose proof (linksTo_trans _ _ _ _ _ L3 L4) as L5. assert (links s3 = <[SrvCertLnk cfg := Abs cwd sCert]> (links s2)) as HL3 by (by destruct L4).
    unfold mbind at 1, SM_bind at 1. destruct (osSymlink_one (Abs cwd sKey) (SrvKeyLnk cfg) s3) as (s4 & [[-> L6]|(-> & L6 & Q6)]).
    + done.
    + by destruct L5 as (_ & _ & -> & _).
    + rewrite HL3, lookup_insert_ne, HL2, lookup_delete_eq by done. done.
    + exists false, s4. split; [done|]. pose proof (linksTo_trans _ _ _ _ _ L5 L6) as L7. rewrite HL3, HL2 in L7.
      enough (<[SrvKeyLnk cfg := Abs cwd sKey]> (<[SrvCertLnk cfg := Abs cwd sCert]> (delete (SrvKeyLnk cfg) (delete (SrvCertLnk cfg) (links s)))) =
        <[SrvKeyLnk cfg := Abs cwd sKey]> (<[SrvCertLnk cfg := Abs cwd sCert]> (links s))) as <- by done.
      rewrite <- delete_insert_ne, insert_delete_eq by done. by rewrite insert_delete_eq.
    + destruct (undo_restores s oldCert oldKey (links s3) s4) as (s5 & E5 & L8); [done|done|by eapply linksTo_trans| |by exists true, s5].
      intros k ? ?. rewrite HL3, lookup_insert_ne by done. by apply K2.
  - destruct (undo_restores s oldCert oldKey (links s2) s3) as (s5 & E5 & L8); [done|done|by eapply linksTo_trans|done|by exists true, s5].
Qed.
End Service.

(** * Inputs that are not handled *)

(** A revocation list that is not PEM makes the service panic. *)
Theorem crl_not_pem_panics fails torn pemDecodes parsesCrl c rest path s :
  crl_x509 c = true -> crl_pem c = true -> crl_bytes c <> "" -> pemDecodes (crl_bytes c) = false ->
  (rotateCRLBundle fails torn pemDecodes parsesCrl (c :: rest) path s).1 = None.
Proof.
  intros H1 H2 H3 H4. unfold rotateCRLBundle. cbn [fmap list_fmap untilError]. unfold mbind, SM_bind, checkCrl.
  rewrite H1, H2. destruct (String.eqb_spec (crl_bytes c) ""); [done|]. by rewrite H4.
Qed.

(** Two RSA suites that ask for SHA-256 are answered with SHA-512. *)
Theorem csr_suite_hash_replaced :
  parseCSRSuite RSA_3072_SHA_256 = parseCSRSuite RSA_3072_SHA_512 /\ parseCSRSuite RSA_4096_SHA_256 = parseCSRSuite RSA_4096_SHA_512.
Proof. done. Qed.

(** * Concrete runs *)

Definition demo_cfg : Config :=
  mkConfig "/keys/cert.lnk" "/keys/cert.pem" "/keys/key.lnk" "/keys/key.pem" "/keys/ca.lnk" "/keys/ca.pem" "/keys/crls" "/keys/policy" "/keys/meta.json".
Definition demo_group : entityGroup :=
  mkGroup (mkEntity certType 1 "V1" "/keys/cert.pem" "/keys/key.pem" true) (mkEntity tbType 1 "V1" "/keys/ca.pem" "" true)
          (mkEntity crlType 1 "V1" "/keys/crls" "" true) (mkEntity apType 1 "V1" "/keys/policy" "" true).
Definition demo_server : Server :=
  mkServer {["gnxi" := mkProfile "gnxi" demo_group demo_group None]}
    {["/keys/cert.lnk" := "/keys/cert.pem"; "/keys/key.lnk" := "/keys/key.pem"; "/keys/ca.lnk" := "/keys/ca.pem"]}
    (mkWorld {["/keys/cert.pem" := "C"; "/keys/key.pem" := "K"; "/keys/ca.pem" := "A"; "/keys/policy" := "P"]} ∅ 0).
Definition demo_upload : RotateRequest :=
  Request "" false (Certificates [mkEntityMsg 5 "V2" (CertificateChain (Some (mkCertMsg true true (Some "C2") (Some "K2"))) [])]).
Abbreviation demo_rotate fails evs :=
  (Rotate fails (fun _ => None) demo_cfg "/" (fun n => Z.of_nat n) (fun _ => true) (fun _ => true) (fun _ => Some "KEY") (fun _ _ _ => Some "CSR")
     (fun _ => "profiles") None false evs demo_server).

Lemma demo_settled : settled (profiles demo_server).
Proof. intros q p H. cbn [profiles demo_server] in H. apply lookup_singleton_Some in H as [<- <-]. by intros []. Qed.

Lemma certz_rotation_settled_witness :
  exists s', demo_rotate (fun n => n =? 7) [RecvReq demo_upload true; RecvEOF] = (Some Aborted, s') /\
    actives (profiles s') = actives (profiles demo_server).
Proof.
  assert (exists s', demo_rotate (fun n => n =? 7) [RecvReq demo_upload true; RecvEOF] = (Some Aborted, s')) as [s' E] by (eexists; vm_compute; reflexivity).
  exists s'. split; [exact E|].
  exact (proj2 (certz_rotation_settled _ _ _ _ _ _ _ _ _ _ false _ demo_server Aborted s' demo_settled E) eq_refl).
Defined.

(** A finalized upload: the links lead to the new files. *)
Lemma demo_finalized :
  exists s', demo_rotate noFaults [RecvReq demo_upload true; RecvReq FinalizeRotation true] = (Some OK, s') /\
    links s' !! "/keys/cert.lnk" = Some "/keys/gnxi_V2_0_cert.pem" /\ fs (world s') !! "/keys/cert.pem" = None.
Proof. eexists. split; [vm_compute; reflexivity|]. by vm_compute. Qed.

Lemma set_pair_atomic_witness :
  exists f s', atomicSetSrvCertKeyPair (fun n => n =? 4) demo_cfg "/" "/keys/new.pem" "/keys/newkey.pem" demo_server = (Some f, s') /\
    links s' = if f then links demo_server else <["/keys/key.lnk" := "/keys/newkey.pem"]> (<["/keys/cert.lnk" := "/keys/new.pem"]> (links demo_server)).
Proof.
  destruct (set_pair_atomic (fun n => n =? 4) demo_cfg "/" demo_server "/keys/cert.pem" "/keys/key.pem" "/keys/new.pem" "/keys/newkey.pem") as (f & s' & E & HL & _).
  - intros m n Hm Hn. apply Nat.eqb_eq in Hm, Hn. congruence.
  - constructor; [discriminate|reflexivity|reflexivity|split; reflexivity|].
    intros x [->| ->]; split; [discriminate| |discriminate|]; (split; [eexists; reflexivity|reflexivity]).
  - exists f, s'. split; [exact E|]. rewrite HL. reflexivity.
Defined.

(** An identifier with dots writes outside the directory of the lists. *)
Theorem crl_id_escapes :
  fs (world (rotateCRLBundle noFaults (fun _ => None) (fun _ => true) (fun _ => true) [mkCrl "../key.pem" true true "X"] "/keys/crls" demo_server).2)
    !! "/keys/key.pem" = Some "X".
Proof. vm_compute. reflexivity. Qed.
