(* ===== verification/ShellPolicy.v ===== *)
(** The command policy of the gNOI Debug service (src/pkg/gnoi/debug/validate.go and
    whitelist.go): which shell text a client may run, and the lists of command names.

    The shell parser is the package [mvdan.cc/sh/v3/syntax]; its tree is modelled as
    far as the policy looks at it, and its functions [Parse], [Walk] and [Word.Lit] are
    the class [ShellSyntax], with the documented behaviour of the last two as laws. *)

From S2P Require Import Prelude.

Module ShellPolicy.

(** * The syntax tree *)

Inductive BinCmdOperator := AndStmt | OrStmt | Pipe | PipeAll.

#[global] Instance BinCmdOperator_eq_dec : EqDecision BinCmdOperator.
Proof. solve_decision. Defined.

(** Word parts, commands and statements.  A node of a kind that the policy refuses on
    sight carries no children; a command of any other kind than those the policy names
    carries the words and statements below it.  [Dollar] marks the quotes that follow a
    dollar sign, in which the shell decodes escapes or translates the text. *)
Inductive WordPart :=
| Lit (Value : string)
| SglQuoted (Dollar : bool) (Value : string)
| DblQuoted (Dollar : bool) (Parts : list WordPart)
| ParamExp | CmdSubst | ArithmExp | ExtGlob
| ProcSubst (Stmts : list Stmt)
with Command :=
| CallExpr (Assigns : list (list WordPart)) (Args : list (list WordPart))
| BinaryCmd (Op : BinCmdOperator) (X Y : Stmt)
| Subshell
| OtherCmd (words : list (list WordPart)) (stmts : list Stmt)
with Stmt :=
| mkStmt (Negated Background Coprocess Semicolon : bool) (Redirs : nat) (Cmd : option Command).

Abbreviation Word := (list WordPart).

Inductive Node :=
| NFile (Stmts : list Stmt)
| NStmt (s : Stmt)
| NRedirect
| NCmd (c : Command)
| NAssign (w : Word)
| NWord (w : Word)
| NPart (p : WordPart).

Definition children (n : Node) : list Node :=
  match n with
  | NFile l => NStmt <$> l
  | NStmt (mkStmt _ _ _ _ redirs cmd) => (NCmd <$> option_list cmd) ++ replicate redirs NRedirect
  | NCmd (CallExpr assigns args) => (NAssign <$> assigns) ++ (NWord <$> args)
  | NCmd (BinaryCmd _ x y) => [NStmt x; NStmt y]
  | NCmd (OtherCmd words stmts) => (NWord <$> words) ++ (NStmt <$> stmts)
  | NAssign w | NWord w | NPart (DblQuoted _ w) => NPart <$> w
  | NPart (ProcSubst stmts) => NStmt <$> stmts
  | NCmd Subshell | NRedirect | NPart _ => []
  end.

(** The nodes that a traversal from [root] visits when it goes below a node exactly if
    the visitor returns true there. *)
Inductive visits (f : Node -> bool) : Node -> Node -> Prop :=
| visits_root n : visits f n n
| visits_child n c m : f n = true -> c ∈ children n -> visits f c m -> visits f n m.

(** The text of a word of literals only. *)
Fixpoint litText (w : Word) : option string :=
  match w with
  | [] => Some ""
  | Lit v :: w => s ← litText w; Some (v +:+ s)
  | _ :: _ => None
  end.

Class ShellSyntax := {
  Parse : string -> res string (list Stmt);
  Walk : (Node -> bool) -> Node -> list Node;
  WordLit : Word -> string;
  Walk_visits f root n : n ∈ Walk f root <-> visits f root n;
  WordLit_text w : WordLit w = default "" (litText w)
}.

(** * The policy *)

(** The set of characters [~$`&;<>(){}[]*?]. *)
Definition dangerousCharSet : list nat := [126; 36; 96; 38; 59; 60; 62; 40; 41; 123; 125; 91; 93; 42; 63].

(** [strings.ContainsAny(s, dangerousCharSet)]. *)
Definition containsDangerous (s : string) : bool :=
  existsb (fun c => existsb (Nat.eqb (Ascii.nat_of_ascii c)) dangerousCharSet) (String.list_ascii_of_string s).

Inductive Rejection :=
| ParseError (e : string) | UnsafeStatements | NoStatements
| NegationNotAllowed | BackgroundNotAllowed | CoprocessNotAllowed | TerminatedNotAllowed | RedirectsNotAllowed
| AssignmentsNotAllowed | EmptyCall | InvalidPart | NotWhitelisted (cmdName : string) | OnlySimple.

Definition sliceContains (slice : list string) (str : string) : bool := existsb (fun s => String.eqb s str) slice.

(** The visitor's test of one node. *)
Definition dangerous (n : Node) : bool :=
  match n with
  | NCmd Subshell | NPart CmdSubst | NPart ArithmExp => true
  | NCmd (BinaryCmd op _ _) => negb (bool_decide (op = Pipe))
  | NRedirect => true
  | NPart ParamExp => true
  | NPart ExtGlob => true
  | NPart (Lit v) => containsDangerous v
  | _ => false
  end.

Section Policy.
Context `{!ShellSyntax}.

(** The visitor sets [unsafe] and stops below a dangerous node, and goes on elsewhere. *)
Definition walkForDangerousNodeTypes (node : Node) : bool :=
  existsb dangerous (Walk (fun n => negb (dangerous n)) node).

(** [for _, x := range l] with the first error of the body returned. *)
Definition eachOk {A} (f : A -> res Rejection unit) : list A -> res Rejection unit :=
  fix go l :=
    match l with
    | [] => Ok tt
    | x :: l => match f x with Err e => Err e | Ok _ => go l end
    end.

(** The body of the loop of [validateWordParts]; double quotes recurse into their parts. *)
Fixpoint validateWordPart (part : WordPart) : res Rejection unit :=
  match part with
  | Lit _ => Ok tt
  | SglQuoted _ _ => Ok tt
  | DblQuoted _ subParts => eachOk validateWordPart subParts
  | _ => Err InvalidPart
  end.

Definition validateWordParts (wordParts : list WordPart) : res Rejection unit := eachOk validateWordPart wordParts.

Fixpoint validateStatement (statement : Stmt) (whitelist : list string) : res Rejection unit :=
  let '(mkStmt negated background coprocess semicolon redirs cmd) := statement in
  if negated then Err NegationNotAllowed
  else if background then Err BackgroundNotAllowed
  else if coprocess then Err CoprocessNotAllowed
  else if semicolon then Err TerminatedNotAllowed
  else if 0 <? redirs then Err RedirectsNotAllowed
  else
    match cmd with
    | Some (CallExpr assigns args) =>
        if 0 <? length assigns then Err AssignmentsNotAllowed
        else
          match args with
          | [] => Err EmptyCall
          | name :: _ =>
              match eachOk validateWordParts args with
              | Err e => Err e
              | Ok _ =>
                  let cmdName := WordLit name in
                  if negb (sliceContains whitelist cmdName) then Err (NotWhitelisted cmdName) else Ok tt
              end
          end
    | Some (BinaryCmd op x y) =>
        if negb (bool_decide (op = Pipe)) then Err OnlySimple
        else
          match validateStatement x whitelist with
          | Err errX => Err errX
          | Ok _ => validateStatement y whitelist
          end
    | _ => Err OnlySimple
    end.

(** A panic of the parser is recovered and rejects like a parse error. *)
Definition ValidateCommand (input : string) (whitelist : list string) : res Rejection unit :=
  match Parse input with
  | Err e => Err (ParseError e)
  | Ok stmts =>
      if walkForDangerousNodeTypes (NFile stmts) then Err UnsafeStatements
      else if length stmts =? 0 then Err NoStatements
      else eachOk (fun statement => validateStatement statement whitelist) stmts
  end.
End Policy.

(** * The lists of command names *)

Definition readCommands : list string :=
  ["ls"; "cat"; "echo"; "ping"; "grep"; "dmesg"; "zgrep"; "tail"; "teamshow"; "ps"; "uptime"; "awk"; "show"; "TSC"].

Definition writeCommands : list string :=
  ["docker"; "reboot"; "mv"; "systemctl"; "ip"; "ifconfig"; "TSA"; "TSB"; "sonic-installer"; "sonic_installer";
   "config"; "tcpdump"; "acl-loader"; "counterpoll"; "bcmcmd"; "redis-cli"; "sonic-db-cli"; "sonic-clear"; "wc";
   "portstat"; "pfcwd"; "lspci"; "pcieutil"; "include"; "vtysh"].

Definition defaultWhitelists : list string * list string := (readCommands, writeCommands ++ readCommands).

(** What the decoder leaves in a list: [None] is a nil slice. *)
Record WhitelistFile := mkWhitelistFile {
  ReadWhitelist : option (list string);
  WriteWhitelist : option (list string)
}.

(** [file] is the content of the file, if it can be read, and [unmarshal] the YAML
    decoder. *)
Definition ConstructWhitelists (file : option string) (unmarshal : string -> option WhitelistFile) : list string * list string :=
  match file with
  | None => defaultWhitelists
  | Some whitelistBytes =>
      match unmarshal whitelistBytes with
      | None => defaultWhitelists
      | Some whitelists =>
          match ReadWhitelist whitelists, WriteWhitelist whitelists with
          | Some r, Some w => (r, w ++ r)
          | _, _ => defaultWhitelists
          end
      end
  end.
End ShellPolicy.

(** The command policy accepts exactly the plain pipelines of listed commands: a
    reference grammar of such commands, the equivalence, and the order of the lists.
    A concrete [ShellSyntax] shows that its laws can hold. *)

Import ShellPolicy.

(** * The reference grammar *)

(** The characters that must not stand outside quotes, nor in double quotes. *)
Definition specials : list Ascii.ascii := String.list_ascii_of_string "~$`&;<>(){}[]*?".

(** A part without expansions: literals without special characters, single quotes with any
    text, double quotes around such parts.  Quotes may follow a dollar sign. *)
Inductive literalPart : WordPart -> Prop :=
| literal_lit v : (forall c, c ∈ String.list_ascii_of_string v -> c ∉ specials) -> literalPart (Lit v)
| literal_sgl dollar v : literalPart (SglQuoted dollar v)
| literal_dbl dollar parts : Forall literalPart parts -> literalPart (DblQuoted dollar parts).

(** A name that may run: it is spelled out and listed; a name with quotes counts as the
    empty one. *)
Inductive named (whitelist : list string) (name : Word) : Prop :=
| named_listed cmd : litText name = Some cmd -> cmd ∈ whitelist -> named whitelist name
| named_quoted : litText name = None -> "" ∈ whitelist -> named whitelist name.

(** A pipeline of simple commands: no flag of the statement, no redirection, no
    assignment; each command is listed, and all its words are literal. *)
Inductive plain (whitelist : list string) : Stmt -> Prop :=
| plain_call name args :
    named whitelist name -> Forall (Forall literalPart) (name :: args) ->
    plain whitelist (mkStmt false false false false 0 (Some (CallExpr [] (name :: args))))
| plain_pipe x y :
    plain whitelist x -> plain whitelist y ->
    plain whitelist (mkStmt false false false false 0 (Some (BinaryCmd Pipe x y))).

(** A part below which the shell may run something on its own: a substitution, or an
    expansion that may contain one. *)
Inductive expands : WordPart -> Prop :=
| expands_param : expands ParamExp
| expands_cmd : expands CmdSubst
| expands_arithm : expands ArithmExp
| expands_glob : expands ExtGlob
| expands_proc l : expands (ProcSubst l)
| expands_dbl dollar l p : p ∈ l -> expands p -> expands (DblQuoted dollar l).

(** What a statement may run: [Some cmd] is the command of that name, [None] one that the
    text does not name: a command whose name has quotes or expansions, what is in a
    subshell or another compound command, in a substitution, or in a redirection. *)
Inductive runs : Stmt -> option string -> Prop :=
| runs_call n b c s r assigns name args : runs (mkStmt n b c s r (Some (CallExpr assigns (name :: args)))) (litText name)
| runs_word n b c s r assigns args w p :
    w ∈ assigns ++ args -> p ∈ w -> expands p -> runs (mkStmt n b c s r (Some (CallExpr assigns args))) None
| runs_left n b c s r op x y o : runs x o -> runs (mkStmt n b c s r (Some (BinaryCmd op x y))) o
| runs_right n b c s r op x y o : runs y o -> runs (mkStmt n b c s r (Some (BinaryCmd op x y))) o
| runs_subshell n b c s r : runs (mkStmt n b c s r (Some Subshell)) None
| runs_other n b c s r words stmts : runs (mkStmt n b c s r (Some (OtherCmd words stmts))) None
| runs_redirect n b c s r cmd : 0 < r -> runs (mkStmt n b c s r cmd) None.

(** Whether [l] allows it; what is not named counts as the empty name. *)
Definition allowed (l : list string) (o : option string) : Prop := default "" o ∈ l.

Lemma dangerous_free v : containsDangerous v = false <-> forall c, c ∈ String.list_ascii_of_string v -> c ∉ specials.
Proof.
  assert (forall c, c ∈ specials <-> existsb (Nat.eqb (Ascii.nat_of_ascii c)) dangerousCharSet = true) as Hc.
  { intros c. unfold specials. rewrite list_elem_of_In, existsb_exists.
    replace (String.list_ascii_of_string "~$`&;<>(){}[]*?") with (Ascii.ascii_of_nat <$> dangerousCharSet) by reflexivity.
    rewrite <- list_elem_of_In, list_elem_of_fmap. split.
    - intros (x & -> & Hx). exists x. split; [by apply list_elem_of_In|]. apply Nat.eqb_eq. apply Ascii.nat_ascii_embedding.
      repeat (apply elem_of_cons in Hx as [->|Hx]; [lia|]). by apply not_elem_of_nil in Hx.
    - intros (x & Hx & <-%Nat.eqb_eq). exists (Ascii.nat_of_ascii c). by rewrite Ascii.ascii_nat_embedding, list_elem_of_In. }
  unfold containsDangerous. rewrite <- not_true_iff_false, existsb_exists. split.
  - intros H c Hin Hs. apply H. exists c. split; [by apply list_elem_of_In|by apply Hc].
  - intros H (c & Hin%list_elem_of_In & Hs%Hc). by eapply H.
Qed.

Lemma eachOk_Ok {A} (f : A -> res Rejection unit) l : eachOk f l = Ok tt <-> Forall (fun x => f x = Ok tt) l.
Proof.
  induction l as [|x l IH]; cbn [eachOk].
  - split; [constructor|done].
  - rewrite Forall_cons, <- IH. destruct (f x) as [[]|e]; [tauto|]. split; [done|intros [? _]; done].
Qed.

Lemma sliceContains_elem l s : sliceContains l s = true <-> s ∈ l.
Proof.
  unfold sliceContains. rewrite existsb_exists. split.
  - intros (x & Hx & ->%String.eqb_eq). by apply list_elem_of_In.
  - intros H. exists s. split; [by apply list_elem_of_In|apply String.eqb_refl].
Qed.

(** * Nodes below a node *)

Definition below : Node -> Node -> Prop := visits (fun _ => true).

Lemma below_child n c m : c ∈ children n -> below c m -> below n m.
Proof. by apply visits_child. Qed.

Definition safe (root : Node) : Prop := forall n, below root n -> dangerous n = false.

Lemma safe_root n : safe n -> dangerous n = false.
Proof. intros H. apply H. constructor. Qed.

Lemma safe_child n c : safe n -> c ∈ children n -> safe c.
Proof. intros H Hc m Hm. apply H. by eapply below_child. Qed.

Lemma safe_intro n : dangerous n = false -> (forall c, c ∈ children n -> safe c) -> safe n.
Proof. intros Hn Hc m Hm. inversion Hm; subst; [done|]. by eapply Hc. Qed.

(** A traversal that stops below dangerous nodes finds one exactly when there is one. *)
Lemma safe_visits root : safe root <-> (forall n, visits (fun n => negb (dangerous n)) root n -> dangerous n = false).
Proof.
  split.
  - intros Hs n Hv. revert Hs. induction Hv as [|n c m Hf Hc Hv IH]; intros Hs; [by apply safe_root|].
    apply IH. by eapply safe_child.
  - intros H n Hb. induction Hb as [n|n c m _ Hc Hb IH]; [apply H; constructor|].
    apply IH. intros k Hk. apply H. eapply visits_child; [|done|done].
    apply negb_true_iff. apply H. constructor.
Qed.

Lemma walk_safe `{!ShellSyntax} root : walkForDangerousNodeTypes root = false <-> safe root.
Proof.
  rewrite safe_visits. unfold walkForDangerousNodeTypes. rewrite <- not_true_iff_false, existsb_exists. split.
  - intros Hw n Hv. destruct (dangerous n) eqn:E; [|done]. contradict Hw. exists n. split; [|done].
    apply list_elem_of_In. by apply Walk_visits.
  - intros Hw (n & Hn%list_elem_of_In & E). apply Walk_visits in Hn. rewrite Hw in E by done. done.
Qed.

(** * Words *)

Fixpoint partSize (p : WordPart) : nat :=
  match p with DblQuoted _ l => S (sum_list (partSize <$> l)) | _ => 1 end.

Lemma partSize_in (p : WordPart) l : p ∈ l -> partSize p <= sum_list (partSize <$> l).
Proof. induction 1; cbn; lia. Qed.

Lemma part_literal p : validateWordPart p = Ok tt /\ safe (NPart p) <-> literalPart p.
Proof.
  remember (partSize p) as k eqn:Hk. revert p Hk. induction (lt_wf k) as [k _ IH]. intros p ->.
  split.
  - intros [Hv Hs]. destruct p as [v|d v|d l| | | | |l]; try done.
    + constructor. apply dangerous_free. exact (safe_root _ Hs).
    + constructor.
    + constructor. cbn [validateWordPart] in Hv. apply eachOk_Ok in Hv.
      apply Forall_forall. intros q Hq. rewrite Forall_forall in Hv. apply (IH (partSize q)); [|done|].
      * cbn [partSize]. apply Nat.lt_succ_r. by apply partSize_in.
      * split; [by apply Hv|]. eapply safe_child; [done|]. by apply list_elem_of_fmap_2.
  - intros H. inversion H as [v Hv|d v|d l Hl]; subst.
    + split; [done|]. apply safe_intro; [by apply dangerous_free|]. intros c Hc. by apply not_elem_of_nil in Hc.
    + split; [done|]. apply safe_intro; [done|]. intros c Hc. by apply not_elem_of_nil in Hc.
    + rewrite Forall_forall in Hl.
      assert (forall q, q ∈ l -> validateWordPart q = Ok tt /\ safe (NPart q)) as Hq.
      { intros q Hq. apply (IH (partSize q)); [|done|by apply Hl]. apply Nat.lt_succ_r. by apply partSize_in. }
      split.
      * apply eachOk_Ok. apply Forall_forall. intros q Hi. by apply Hq.
      * apply safe_intro; [done|]. intros c (q & -> & Hi)%list_elem_of_fmap. by apply Hq.
Qed.

Lemma word_literal w : validateWordParts w = Ok tt /\ safe (NWord w) <-> Forall literalPart w.
Proof.
  unfold validateWordParts. rewrite eachOk_Ok. rewrite !Forall_forall. split.
  - intros [Hv Hs] p Hp. apply part_literal. split; [by apply Hv|]. eapply safe_child; [done|]. by apply list_elem_of_fmap_2.
  - intros H. split; [intros p Hp; by apply part_literal, H|].
    apply safe_intro; [done|]. intros c (p & -> & Hp)%list_elem_of_fmap. by apply part_literal, H.
Qed.

Lemma words_literal l :
  eachOk validateWordParts l = Ok tt /\ (forall w, w ∈ l -> safe (NWord w)) <-> Forall (Forall literalPart) l.
Proof.
  rewrite eachOk_Ok, !Forall_forall. split.
  - intros [Hv Hs] w Hw. apply word_literal. auto.
  - intros H. split; intros w Hw; by apply word_literal, H.
Qed.

(** * Statements *)

Section Policy.
Context `{!ShellSyntax}.
Variable whitelist : list string.

Lemma WordLit_named w : WordLit w ∈ whitelist <-> named whitelist w.
Proof.
  rewrite WordLit_text. split.
  - destruct (litText w) as [cmd|] eqn:E; [by apply (named_listed _ _ cmd)|by apply named_quoted].
  - by intros [cmd -> ?| -> ?].
Qed.

Lemma statement_plain_1 s : plain whitelist s -> validateStatement s whitelist = Ok tt /\ safe (NStmt s).
Proof.
  induction 1 as [name args Hn Hl|x y _ [Hx Sx] _ [Hy Sy]].
  - apply words_literal in Hl as [Hv Hs]. split.
    + cbn [validateStatement length Nat.ltb Nat.leb]. rewrite Hv.
      by rewrite (proj2 (sliceContains_elem _ _) (proj2 (WordLit_named _) Hn)).
    + apply safe_intro; [done|]. intros c Hc. apply list_elem_of_singleton in Hc as ->.
      apply safe_intro; [done|]. intros c (w & -> & Hc)%list_elem_of_fmap. by apply Hs.
  - split; [cbn; by rewrite Hx, Hy|].
    apply safe_intro; [done|]. intros c Hc. apply list_elem_of_singleton in Hc as ->.
    apply safe_intro; [done|]. intros c Hc. cbn [children] in Hc. set_solver.
Qed.

Fixpoint pipes (s : Stmt) : nat :=
  match s with
  | mkStmt _ _ _ _ _ (Some (BinaryCmd _ x y)) => S (pipes x + pipes y)
  | _ => 0
  end.

Lemma statement_plain_2 s : validateStatement s whitelist = Ok tt -> safe (NStmt s) -> plain whitelist s.
Proof.
  remember (pipes s) as k eqn:Hk. revert s Hk. induction (lt_wf k) as [k _ IH].
  intros [n b c se r [[assigns args|op x y| |words stmts]|]] -> Hv Hs; cbn [validateStatement] in Hv;
    destruct n, b, c, se, r; try done.
  - destruct assigns; [|done]. destruct args as [|name args]; [done|]. cbn [length Nat.ltb Nat.leb] in Hv.
    destruct (eachOk validateWordParts (name :: args)) as [[]|] eqn:Ew; [|done].
    destruct (sliceContains whitelist (WordLit name)) eqn:El; [|done]. apply sliceContains_elem in El.
    apply plain_call; [by apply WordLit_named|]. apply words_literal. split; [done|].
    intros w Hw. eapply safe_child; [eapply safe_child; [done|by left]|]. by apply list_elem_of_fmap_2.
  - cbn [Nat.ltb Nat.leb] in Hv. destruct (bool_decide_reflect (op = Pipe)) as [->|]; [|done]. cbn [negb] in Hv.
    destruct (validateStatement x whitelist) as [[]|] eqn:Ex; [|done].
    assert (safe (NCmd (BinaryCmd Pipe x y))) as Hb by (eapply safe_child; [done|by left]).
    constructor; (eapply IH; [|reflexivity|done|eapply safe_child; [done|set_solver]]); cbn [pipes]; lia.
Qed.

Lemma statement_plain s : validateStatement s whitelist = Ok tt /\ safe (NStmt s) <-> plain whitelist s.
Proof. split; [intros []; by apply statement_plain_2|apply statement_plain_1]. Qed.

Lemma accepts_plain input :
  ValidateCommand input whitelist = Ok tt <->
  exists stmts, Parse input = Ok stmts /\ stmts <> [] /\ Forall (plain whitelist) stmts.
Proof.
  unfold ValidateCommand. destruct (Parse input) as [stmts|e]; [|split; [done|by intros (? & ? & _)]].
  destruct (walkForDangerousNodeTypes (NFile stmts)) eqn:Ew.
  - split; [done|]. intros (l & [= <-] & _ & Hl). apply not_false_iff_true in Ew. contradict Ew. apply walk_safe.
    rewrite Forall_forall in Hl. apply safe_intro; [done|].
    intros c (s & -> & Hs)%list_elem_of_fmap. by apply statement_plain, Hl.
  - apply walk_safe in Ew. destruct stmts as [|s0 l0]; [split; [done|by intros (? & [= <-] & ? & _)]|].
    cbn [length Nat.eqb]. rewrite eachOk_Ok, Forall_forall. split.
    + intros Hv. exists (s0 :: l0). split_and!; [done..|]. apply Forall_forall. intros s Hs. apply statement_plain.
      split; [by apply Hv|]. eapply safe_child; [done|]. by apply list_elem_of_fmap_2.
    + intros (l & [= <-] & _ & Hl) s Hs. rewrite Forall_forall in Hl. by apply statement_plain, Hl.
Qed.


Lemma literal_no_expansion p : literalPart p -> ~ expands p.
Proof.
  intros Hl He. induction He as [| | | | |d l p Hin He IH]; try (by inversion Hl).
  inversion Hl as [| |? ? Hf]; subst. rewrite Forall_forall in Hf. by apply IH, Hf.
Qed.

Lemma plain_runs s o : plain whitelist s -> runs s o -> allowed whitelist o.
Proof.
  intros Hp Hr. induction Hr as [n b c s r assigns name args|n b c s r assigns args w p Hw Hin He| | | | |n b c s r cmd Hr];
    inversion Hp as [name' args' Hn Hl|]; subst; auto.
  - destruct Hn as [cmd E ?|E ?]; unfold allowed; by rewrite E.
  - rewrite Forall_forall in Hl. apply Hl in Hw. rewrite Forall_forall in Hw. by destruct (literal_no_expansion p (Hw p Hin)).
  - lia.
  - lia.
Qed.

Lemma accepted_runs input stmts s o :
  ValidateCommand input whitelist = Ok tt -> Parse input = Ok stmts -> s ∈ stmts -> runs s o -> allowed whitelist o.
Proof.
  intros (l & Hp & _ & Hl)%accepts_plain Hs Hi Hr. rewrite Hp in Hs. simplify_eq.
  rewrite Forall_forall in Hl. eapply plain_runs; [by apply Hl|done].
Qed.
End Policy.

(** * The lists *)

(** Whoever may write may also run what whoever may read may run. *)
Theorem read_list_within_write_list file unmarshal r w :
  ConstructWhitelists file unmarshal = (r, w) -> r ⊆ w.
Proof.
  unfold ConstructWhitelists, defaultWhitelists. intros H. repeat case_match; simplify_eq; set_solver.
Qed.

(** * A syntax that satisfies the laws *)

Fixpoint partDepth (p : WordPart) : nat :=
  match p with
  | DblQuoted _ l => S (max_list (partDepth <$> l))
  | ProcSubst l => S (max_list (stmtDepth <$> l))
  | _ => 0
  end
with cmdDepth (c : Command) : nat :=
  let words (l : list Word) := max_list ((fun w => S (max_list (partDepth <$> w))) <$> l) in
  match c with
  | CallExpr assigns args => S (words assigns `max` words args)
  | BinaryCmd _ x y => S (stmtDepth x `max` stmtDepth y)
  | Subshell => 0
  | OtherCmd ws stmts => S (words ws `max` max_list (stmtDepth <$> stmts))
  end
with stmtDepth (s : Stmt) : nat :=
  match s with
  | mkStmt _ _ _ _ _ (Some c) => S (cmdDepth c)
  | mkStmt _ _ _ _ _ None => 1
  end.

Definition nodeDepth (n : Node) : nat :=
  match n with
  | NFile l => S (max_list (stmtDepth <$> l))
  | NStmt s => stmtDepth s
  | NRedirect => 0
  | NCmd c => cmdDepth c
  | NAssign w | NWord w => S (max_list (partDepth <$> w))
  | NPart p => partDepth p
  end.

Lemma max_list_in {A} (f : A -> nat) x l : x ∈ l -> f x <= max_list (f <$> l).
Proof. induction 1; cbn; lia. Qed.

Lemma children_depth n c : c ∈ children n -> nodeDepth c < nodeDepth n.
Proof.
  destruct n as [l|[neg b co se r [cmd|]]| |[assigns args|op x y| |words stmts]|w|w|p]; cbn [children];
    rewrite ?elem_of_app; try (by intros ?%not_elem_of_nil).
  - intros (s & -> & Hs)%list_elem_of_fmap. cbn. pose proof (max_list_in stmtDepth _ _ Hs). lia.
  - intros [->%list_elem_of_singleton| [-> _]%elem_of_replicate]; cbn; lia.
  - intros [H| [-> _]%elem_of_replicate]; [by apply not_elem_of_nil in H|cbn; lia].
  - intros [(w & -> & Hw)%list_elem_of_fmap|(w & -> & Hw)%list_elem_of_fmap];
      pose proof (max_list_in (fun w => S (max_list (partDepth <$> w))) _ _ Hw); cbn in *; lia.
  - intros Hc. cbn. apply elem_of_cons in Hc as [->| ->%list_elem_of_singleton]; cbn; lia.
  - intros [(w & -> & Hw)%list_elem_of_fmap|(s & -> & Hs)%list_elem_of_fmap].
    + pose proof (max_list_in (fun w => S (max_list (partDepth <$> w))) _ _ Hw); cbn in *; lia.
    + pose proof (max_list_in stmtDepth _ _ Hs). cbn. lia.
  - intros (p & -> & Hp)%list_elem_of_fmap. cbn. pose proof (max_list_in partDepth _ _ Hp). lia.
  - intros (p & -> & Hp)%list_elem_of_fmap. cbn. pose proof (max_list_in partDepth _ _ Hp). lia.
  - destruct p; try (by intros ?%not_elem_of_nil); intros (q & -> & Hq)%list_elem_of_fmap; cbn.
    + pose proof (max_list_in partDepth _ _ Hq). lia.
    + pose proof (max_list_in stmtDepth _ _ Hq). lia.
Qed.

Fixpoint walkTo (fuel : nat) (f : Node -> bool) (n : Node) : list Node :=
  n :: match fuel with
       | O => []
       | S k => if f n then children n ≫= walkTo k f else []
       end.

Lemma walkTo_visits f k root n : nodeDepth root <= k -> n ∈ walkTo k f root <-> visits f root n.
Proof.
  intros Hk. split.
  - clear Hk. revert root. induction k as [|k IH]; intros root; cbn [walkTo]; rewrite elem_of_cons.
    + intros [->|H]; [constructor|by apply not_elem_of_nil in H].
    + intros [->|H]; [constructor|]. destruct (f root) eqn:Ef; [|by apply not_elem_of_nil in H].
      apply list_elem_of_bind in H as (c & Hn & Hc). eapply visits_child; [done|done|auto].
  - intros H. revert k Hk. induction H as [n|n c m Hf Hc _ IH]; intros k Hk; [destruct k; left|].
    pose proof (children_depth _ _ Hc). destruct k as [|k]; [lia|]. right. rewrite Hf.
    apply list_elem_of_bind. exists c. split; [apply IH; lia|done].
Qed.

(** A parser of a few texts. *)
Definition call (l : list Word) : Stmt := mkStmt false false false false 0 (Some (CallExpr [] l)).
Definition lit (s : string) : Word := [Lit s].

Definition pipeText : string := "cat /proc/meminfo | grep Mem".
Definition linesText : string := "ls" +:+ String (Ascii.ascii_of_nat 10) "uptime".
Definition awkProgram : string := "BEGIN {system(" +:+ quoted "reboot" +:+ ")}".
Definition awkText : string := "awk '" +:+ awkProgram +:+ "'".
Definition substText : string := "echo $(reboot)".

Definition demoParse (input : string) : res string (list Stmt) :=
  if String.eqb input pipeText
  then Ok [mkStmt false false false false 0
             (Some (BinaryCmd Pipe (call [lit "cat"; lit "/proc/meminfo"]) (call [lit "grep"; lit "Mem"])))]
  else if String.eqb input linesText then Ok [call [lit "ls"]; call [lit "uptime"]]
  else if String.eqb input awkText then Ok [call [lit "awk"; [SglQuoted false awkProgram]]]
  else if String.eqb input substText then Ok [call [lit "echo"; [CmdSubst]]]
  else Err "not a demo text".

Definition demoSyntax : ShellSyntax.
Proof.
  refine {| Parse := demoParse; Walk := fun f root => walkTo (nodeDepth root) f root; WordLit := fun w => default "" (litText w) |}.
  - intros f root n. by apply walkTo_visits.
  - done.
Defined.


(** Several commands on lines of their own are accepted, though the policy means to
    refuse multiple commands. *)
Example lines_accepted : @ValidateCommand demoSyntax linesText readCommands = Ok tt.
Proof. vm_compute. reflexivity. Qed.

(** An [awk] program in single quotes is accepted from a client that may only read,
    whatever the program does: the text of single quotes is not inspected. *)
Example awk_program_accepted : @ValidateCommand demoSyntax awkText readCommands = Ok tt.
Proof. vm_compute. reflexivity. Qed.

Example substitution_refused : @ValidateCommand demoSyntax substText readCommands = Err UnsafeStatements.
Proof. vm_compute. reflexivity. Qed.
