(* ===== verification/DebugRpc.v ===== *)
(** The gNOI Debug RPC: the access check (src/gnmi_server/gnoi_debug.go), the handler
    (src/pkg/gnoi/debug/debug.go) and the execution of the command on the host
    (src/internal/exec/command.go).

    The command's output flows through two pipes that two goroutines of [RunCommand]
    copy into channels, from which two goroutines of the handler send it to the client.
    These goroutines, the host and the client interleave; their state is [State] and
    each of their actions an event that [step] carries out where it is possible. *)

From S2P Require Import Prelude GnmiTypes Auth ShellPolicy.
Import ShellPolicy.
Open Scope go_scope.

Module DebugRpc.

(** * Messages *)

Inductive Mode := MODE_UNSPECIFIED | MODE_SHELL | MODE_CLI | MODE_OTHER.

(** [gnoi.debug.DebugRequest]; a command that is not on the wire is nil. *)
Record DebugRequest := mkDebugRequest {
  mode : Mode;
  command : option string;
  byte_limit : Z;
  timeout : Z;
  role_account : string
}.

Inductive DebugResponse :=
| RespRequest (r : DebugRequest)
| RespData (data : string)
| RespStatus (code : Z).

(** * The command line on the host *)

Definition NSENTER_ARGS : list string := ["--target"; "1"; "--mount"; "--uts"; "--ipc"; "--net"; "--pid"].
Definition SYSTEMD_RUN_ARGS : list string := ["systemd-run"; "-p"; "ProtectSystem=strict"; "-p"; "PrivateDevices=true"; "-Pq"].
Definition SHELL_ARGS : list string := ["sh"; "-c"].
Definition DEFAULT_ACC : string := "admin".

(** The arguments of [nsenter] that [RunCommand] builds. *)
Definition fullArgs (roleAccount cmd : string) : list string :=
  let account := if String.eqb roleAccount "" then DEFAULT_ACC else roleAccount in
  NSENTER_ARGS ++ SYSTEMD_RUN_ARGS ++ ["--uid=" +:+ account] ++ SHELL_ARGS ++ [cmd].

(** * The goroutines *)

(** One of the two outputs: the pieces that the pipe still holds, in the sizes in which
    they are read, the channel, and whether the sender still runs. *)
Record Lane := mkLane { pipe : list string; ch : list string; sender : bool }.

(** What [command.Wait] returns. *)
Inductive WaitResult := WaitNil | WaitExit (code : Z) | WaitError (e : string).

(** How far the handler is: before [Start], in the copy of the outputs, in [wg.Wait]
    with the exit code, or back with its result. *)
Inductive Phase := Starting | Copying | Waiting (exitCode : Z) | Returned (r : option Code).

Record State := mkState {
  out : Lane;
  err : Lane;
  ctxDone : bool;
  sent : list DebugResponse;
  phase : Phase
}.

Definition chanCap : nat := 100.

Inductive Which := Stdout | Stderr.

Definition lane (w : Which) (s : State) : Lane := match w with Stdout => out s | Stderr => err s end.

Definition setLane (w : Which) (l : Lane) (s : State) : State :=
  match w with
  | Stdout => mkState l (err s) (ctxDone s) (sent s) (phase s)
  | Stderr => mkState (out s) l (ctxDone s) (sent s) (phase s)
  end.

Definition setPhase (p : Phase) (s : State) : State := mkState (out s) (err s) (ctxDone s) (sent s) p.
Definition addSent (m : DebugResponse) (s : State) : State := mkState (out s) (err s) (ctxDone s) (sent s ++ [m]) (phase s).

(** [RunCommand] has returned, and so closed the channels. *)
Definition chansClosed (s : State) : bool :=
  match phase s with Waiting _ | Returned _ => true | _ => false end.

(** [int32(exitCode)]. *)
Definition int32 (z : Z) : Z := ((z + 2 ^ 31) mod 2 ^ 32 - 2 ^ 31)%Z.

Definition FAILED_TO_RUN : Z := (-1)%Z.

Inductive Event :=
| Start                          (** the pipes are made and the command starts *)
| StartFails                     (** one of these steps fails *)
| Copy (w : Which)               (** a piece is read from the pipe and put into the channel *)
| Exit (r : WaitResult)          (** both pipes are at their end and [Wait] returns *)
| Deliver (w : Which)            (** a sender takes a piece and sends it *)
| SendFails (w : Which)          (** a sender takes a piece, the stream is broken *)
| Drained (w : Which)            (** a sender finds its channel closed and empty *)
| Cancelled (w : Which)          (** a sender sees that the context is done *)
| Cancel (n m : nat)             (** the context ends: the command is killed, the pipes keep what they hold *)
| Finish (ok : bool).            (** the senders are back, the status is sent or fails *)

(** The events of the system itself on a stream that works. *)
Definition smooth (e : Event) : bool :=
  match e with Cancel _ _ | Cancelled _ | SendFails _ | StartFails | Exit (WaitError _) | Finish false => false | _ => true end.

Definition step (e : Event) (s : State) : option State :=
  match e with
  | Start => match phase s with Starting => Some (setPhase Copying s) | _ => None end
  | StartFails => match phase s with Starting => Some (setPhase (Returned (Some FailedPrecondition)) s) | _ => None end
  | Copy w =>
      match phase s, lane w s with
      | Copying, mkLane (p :: ps) c r =>
          if length c <? chanCap then Some (setLane w (mkLane ps (c ++ [p]) r) s) else None
      | _, _ => None
      end
  | Exit r =>
      match phase s, pipe (out s), pipe (err s) with
      | Copying, [], [] =>
          Some (setPhase
            match r with
            | WaitNil => Waiting 0
            | WaitExit code => Waiting code
            | WaitError _ => Returned (Some FailedPrecondition)
            end s)
      | _, _, _ => None
      end
  | Deliver w =>
      match lane w s with
      | mkLane ps (p :: c) true => Some (addSent (RespData p) (setLane w (mkLane ps c true) s))
      | _ => None
      end
  | SendFails w =>
      match lane w s with
      | mkLane ps (p :: c) true => Some (setLane w (mkLane ps c false) s)
      | _ => None
      end
  | Drained w =>
      match lane w s with
      | mkLane ps [] true => if chansClosed s then Some (setLane w (mkLane ps [] false) s) else None
      | _ => None
      end
  | Cancelled w =>
      match lane w s with
      | mkLane ps c true => if ctxDone s then Some (setLane w (mkLane ps c false) s) else None
      | _ => None
      end
  | Cancel n m =>
      if ctxDone s then None
      else Some (mkState (mkLane (take n (pipe (out s))) (ch (out s)) (sender (out s)))
                         (mkLane (take m (pipe (err s))) (ch (err s)) (sender (err s))) true (sent s) (phase s))
  | Finish ok =>
      match phase s with
      | Waiting exitCode =>
          if sender (out s) || sender (err s) then None
          else Some (setPhase (Returned None) (if ok then addSent (RespStatus (int32 exitCode)) s else s))
      | _ => None
      end
  end.

Definition steps (s s' : State) : Prop := exists e, step e s = Some s'.
Definition smoothStep (s s' : State) : Prop := exists e, smooth e = true /\ step e s = Some s'.

(** * The handler *)

(** What the handler does before it starts the goroutines: an answer, or the arguments of
    [nsenter] with the goroutines' first state. *)
Inductive Outcome :=
| Answer (c : option Code)
| Launch (args : list string) (s : State).

Section Handler.
Context `{!ShellSyntax}.

(** [sendOk] says whether the stream takes the first message; [outP] and [errP] are the
    output that the command will write, in the pieces in which it is read. *)
Definition HandleCommandRequest (req : option DebugRequest) (whitelist : list string) (sendOk : bool)
    (outP errP : list string) : Outcome :=
  match req with
  | None => Answer (Some InvalidArgument)
  | Some req =>
      match command req with
      | None => Answer (Some InvalidArgument)
      | Some command =>
          match ValidateCommand command whitelist with
          | Err _ => Answer (Some PermissionDenied)
          | Ok _ =>
              match mode req with
              | MODE_CLI =>
                  if negb sendOk then Answer (Some FailedPrecondition)
                  else Launch (fullArgs (role_account req) command)
                         (mkState (mkLane outP [] true) (mkLane errP [] true) false [RespRequest req] Starting)
              | MODE_SHELL => Answer (Some Unimplemented)
              | MODE_UNSPECIFIED => Answer (Some InvalidArgument)
              | MODE_OTHER => Answer None
              end
          end
      end
  end.

(** [DebugServer]: [auth] is [authenticate] for the request at hand, which starts from an
    empty record each time; the cache of revocation lists is kept between the calls. *)
Record DebugServer := mkDebugServer { readWhitelist : list string; writeWhitelist : list string }.

Definition NewDebugServer (file : option string) (unmarshal : string -> option WhitelistFile) : DebugServer :=
  let '(r, w) := ConstructWhitelists file unmarshal in mkDebugServer r w.

Definition Debug (srv : DebugServer) (auth : bool -> Auth.CrlCache -> option Code * Auth.CrlCache) (c : Auth.CrlCache)
    (req : option DebugRequest) (sendOk : bool) (outP errP : list string) : Outcome * Auth.CrlCache :=
  let '(readAccessErr, c) := auth false c in
  match readAccessErr with
  | Some e => (Answer (Some e), c)
  | None =>
      let '(writeAccessErr, c) := auth true c in
      match writeAccessErr with
      | Some _ => (HandleCommandRequest req (readWhitelist srv) sendOk outP errP, c)
      | None => (HandleCommandRequest req (writeWhitelist srv) sendOk outP errP, c)
      end
  end.
End Handler.
End DebugRpc.
