(* ===== verification/DebugRpcProofs.v ===== *)
(** Properties of the Debug RPC: which commands are started for whom, the order and the
    completeness of the messages, that the RPC returns, and when it does not. *)

From S2P Require Import Prelude GnmiTypes Auth ShellPolicy DebugRpc.
Import ShellPolicy DebugRpc.
Open Scope go_scope.

(** * What is started *)


(** The goroutines' first state for a request and a command's output. *)
Definition initial (req : DebugRequest) (O E : list string) : State :=
  mkState (mkLane O [] true) (mkLane E [] true) false [RespRequest req] Starting.

Section Access.
Context `{!ShellSyntax}.


End Access.

(** The account is the client's choice: whoever may read may have a listed command run
    by any user of the host, root included. *)
Theorem role_account_unrestricted `{!ShellSyntax} srv auth c text account o e :
  (auth false c).1 = None -> ValidateCommand text (readWhitelist srv) = Ok tt ->
  (auth true (auth false c).2).1 <> None -> account <> "" ->
  exists s c', Debug srv auth c (Some (mkDebugRequest MODE_CLI (Some text) 0 0 account)) true o e =
    (Launch (NSENTER_ARGS ++ SYSTEMD_RUN_ARGS ++ ["--uid=" +:+ account] ++ SHELL_ARGS ++ [text]) s, c').
Proof.
  unfold Debug. destruct (auth false c) as [[er|] c1]; [done|]. cbn [fst snd]. intros _ Hv.
  destruct (auth true c1) as [[ew|] c2]; [|done]. intros _ Ha. unfold HandleCommandRequest, fullArgs.
  cbn [command mode role_account]. rewrite Hv. cbn [negb]. rewrite (proj2 (String.eqb_neq _ _) Ha). eauto.
Qed.

(** * The messages of the stream *)

(** [l] is an interleaving of [l1] and [l2]. *)
Inductive merge {A} : list A -> list A -> list A -> Prop :=
| merge_nil : merge [] [] []
| merge_l l1 l2 l x : merge l1 l2 l -> merge (l1 ++ [x]) l2 (l ++ [x])
| merge_r l1 l2 l x : merge l1 l2 l -> merge l1 (l2 ++ [x]) (l ++ [x]).

(** What an output still holds. *)
Definition rest (l : Lane) : list string := ch l ++ pipe l.

(** The pieces [d] that were sent of an output [O], while its sender is at [l]. *)
Definition sentOf (O d : list string) (l : Lane) : Prop :=
  d `prefix_of` O /\ (sender l = true -> (d ++ rest l) `prefix_of` O).

Definition ordered (req : DebugRequest) (O E : list string) (s : State) : Prop :=
  exists d1 d2 d tail, sent s = RespRequest req :: (RespData <$> d) ++ tail /\ merge d1 d2 d /\
    sentOf O d1 (out s) /\ sentOf E d2 (err s) /\
    (tail = [] \/ (exists code, tail = [RespStatus code]) /\ phase s = Returned None /\ sender (out s) = false /\ sender (err s) = false).

(** A lane step that keeps what was sent. *)
Lemma sentOf_weaken O d l l' :
  (sender l' = true -> sender l = true /\ rest l' `prefix_of` rest l) -> sentOf O d l -> sentOf O d l'.
Proof.
  intros Hl [Hd Hp]. split; [done|]. intros Hs. destruct (Hl Hs) as [H1 H2].
  etrans; [|by apply Hp]. by apply list.prefix_app.
Qed.

Lemma sentOf_deliver O d ps p c :
  sentOf O d (mkLane ps (p :: c) true) -> sentOf O (d ++ [p]) (mkLane ps c true).
Proof.
  intros [_ Hp]. specialize (Hp eq_refl). unfold rest in Hp. cbn in Hp.
  assert ((d ++ [p]) ++ c ++ ps `prefix_of` O) as H by (by rewrite <- app_assoc).
  split; [|done]. etrans; [|exact H]. by apply list.prefix_app_r.
Qed.

Lemma rest_copy p ps c r : rest (mkLane ps (c ++ [p]) r) = rest (mkLane (p :: ps) c r).
Proof. unfold rest. cbn. by rewrite <- app_assoc. Qed.

(** A step changes one lane and sends nothing, sends a piece of one lane, or ends the
    RPC. *)
Lemma ordered_lanes req O E s s' :
  sent s' = sent s -> (forall w, sender (lane w s') = true -> sender (lane w s) = true /\ rest (lane w s') `prefix_of` rest (lane w s)) ->
  (phase s = Returned None -> phase s' = Returned None) -> ordered req O E s -> ordered req O E s'.
Proof.
  intros Hsent Hl Hph (d1 & d2 & d & tail & Hs & Hm & H1 & H2 & Ht). exists d1, d2, d, tail. rewrite Hsent.
  split_and!; [done|done|by eapply sentOf_weaken, H1; apply (Hl Stdout)|by eapply sentOf_weaken, H2; apply (Hl Stderr)|].
  destruct Ht as [->|(Hc & Hp & Ho & He)]; [by left|]. right. split_and!; [done|auto| |].
  - apply not_true_iff_false. intros [Hx _]%(Hl Stdout). cbn in Hx. congruence.
  - apply not_true_iff_false. intros [Hx _]%(Hl Stderr). cbn in Hx. congruence.
Qed.

Lemma ordered_deliver req O E w ps p c s :
  lane w s = mkLane ps (p :: c) true -> ordered req O E s -> ordered req O E (addSent (RespData p) (setLane w (mkLane ps c true) s)).
Proof.
  intros Hl (d1 & d2 & d & tail & Hs & Hm & H1 & H2 & Ht).
  assert (tail = []) as -> by (destruct Ht as [->|(_ & _ & Ho & He)]; [done|]; destruct w; cbn in Hl; by rewrite Hl in *).
  rewrite app_nil_r in Hs.
  destruct w; cbn in Hl.
  - exists (d1 ++ [p]), d2, (d ++ [p]), []. cbn. rewrite Hs, fmap_app, app_nil_r. rewrite Hl in H1.
    split_and!; [done|by constructor|by apply sentOf_deliver|done|by left].
  - exists d1, (d2 ++ [p]), (d ++ [p]), []. cbn. rewrite Hs, fmap_app, app_nil_r. rewrite Hl in H2.
    split_and!; [done|by constructor|done|by apply sentOf_deliver|by left].
Qed.

Lemma ordered_finish req O E s code ok :
  phase s = Waiting code -> sender (out s) || sender (err s) = false -> ordered req O E s ->
  ordered req O E (setPhase (Returned None) (if ok : bool then addSent (RespStatus (int32 code)) s else s)).
Proof.
  intros Hp [Ho He]%orb_false_iff (d1 & d2 & d & tail & Hs & Hm & H1 & H2 & Ht).
  destruct Ht as [->|(_ & Hr & _)]; [|congruence]. destruct ok.
  - exists d1, d2, d, [RespStatus (int32 code)]. cbn. rewrite Hs, app_nil_r.
    split_and!; [done..|]. right. split_and!; eauto.
  - exists d1, d2, d, []. cbn. split_and!; auto.
Qed.

Lemma step_ordered req O E e s s' : step e s = Some s' -> ordered req O E s -> ordered req O E s'.
Proof.
  destruct e; cbn [step]; intros H Ho.
  - case_match; simplify_eq. eapply ordered_lanes, Ho; [done|by intros []|by congruence].
  - case_match; simplify_eq. eapply ordered_lanes, Ho; [done|by intros []|by congruence].
  - destruct (phase s) eqn:Ep; try done. destruct (lane w s) as [[|p ps] c r] eqn:El; [done|].
    case_match; simplify_eq. eapply ordered_lanes, Ho; [by destruct w| |by destruct w; cbn; congruence].
    intros w'. destruct w, w'; cbn [lane setLane out err] in *; rewrite ?El; intros Hr; (split; [done|]); by rewrite ?rest_copy.
  - repeat case_match; simplify_eq; (eapply ordered_lanes, Ho; [done|by intros []|by congruence]).
  - destruct (lane w s) as [ps [|p c] []] eqn:El; simplify_eq. by apply ordered_deliver.
  - destruct (lane w s) as [ps [|p c] []] eqn:El; simplify_eq. eapply ordered_lanes, Ho; [by destruct w| |by destruct w].
    intros w'. destruct w, w'; cbn in *; by rewrite ?El.
  - destruct (lane w s) as [ps [|p c] []] eqn:El; simplify_eq. case_match; simplify_eq.
    eapply ordered_lanes, Ho; [by destruct w| |by destruct w]. intros w'. destruct w, w'; cbn in *; by rewrite ?El.
  - destruct (lane w s) as [ps c []] eqn:El; simplify_eq. case_match; simplify_eq.
    eapply ordered_lanes, Ho; [by destruct w| |by destruct w]. intros w'. destruct w, w'; cbn in *; by rewrite ?El.
  - case_match; simplify_eq. eapply ordered_lanes, Ho; [done| |done].
    intros []; cbn; intros Hr; (split; [done|]); (apply list.prefix_app; eexists; symmetry; apply take_drop).
  - destruct (phase s) eqn:Ep; try done. destruct (sender (out s) || sender (err s)) eqn:Es; simplify_eq. by apply ordered_finish.
Qed.

Lemma initial_ordered req O E : ordered req O E (initial req O E).
Proof.
  exists [], [], [], []. split_and!; [done|constructor|..]; [| |by left];
    (split; [apply prefix_nil|intros _; done]).
Qed.

(** However the goroutines, the host and the client interleave, and whatever fails,
    the client gets the request first, then pieces of the output, each of the two
    outputs in its order and without gaps from its beginning, and a status only as the
    last message of an RPC that returned without an error. *)
Theorem debug_stream_order req O E s :
  rtc steps (initial req O E) s -> ordered req O E s.
Proof.
  intros H. pose proof (initial_ordered req O E) as Hi. revert Hi.
  induction H as [|x y z [e He] _ IH]; [done|]. intros Hx. by eapply IH, step_ordered.
Qed.

(** * Completion *)

(** What the smooth steps keep: nothing is lost, a channel is closed only after its pipe
    is at its end, a sender stops only at the end of its channel. *)
Definition laneWhole (O d : list string) (closed : bool) (l : Lane) : Prop :=
  d ++ rest l = O /\ (closed = true -> pipe l = []) /\ (sender l = false -> closed = true /\ ch l = []).

Definition whole (req : DebugRequest) (O E : list string) (s : State) : Prop :=
  exists d1 d2 d tail, sent s = RespRequest req :: (RespData <$> d) ++ tail /\ merge d1 d2 d /\
    laneWhole O d1 (chansClosed s) (out s) /\ laneWhole E d2 (chansClosed s) (err s) /\
    match phase s with
    | Returned r => r = None /\ (exists code, tail = [RespStatus code]) /\ sender (out s) = false /\ sender (err s) = false
    | _ => tail = []
    end.

Lemma whole_intro req O E s d1 d2 d tail :
  sent s = RespRequest req :: (RespData <$> d) ++ tail -> merge d1 d2 d ->
  laneWhole O d1 (chansClosed s) (out s) -> laneWhole E d2 (chansClosed s) (err s) ->
  match phase s with
  | Returned r => r = None /\ (exists code, tail = [RespStatus code]) /\ sender (out s) = false /\ sender (err s) = false
  | _ => tail = []
  end -> whole req O E s.
Proof. intros. by exists d1, d2, d, tail. Qed.

Lemma laneWhole_deliver O d ps p c b : laneWhole O d b (mkLane ps (p :: c) true) -> laneWhole O (d ++ [p]) b (mkLane ps c true).
Proof. intros (H1 & H2 & _). split_and!; [|done|done]. rewrite <- H1. unfold rest. cbn. by rewrite <- app_assoc. Qed.

Lemma laneWhole_copy O d ps p c b : laneWhole O d b (mkLane (p :: ps) c true) -> laneWhole O d b (mkLane ps (c ++ [p]) true).
Proof. intros (H1 & H2 & _). split_and!; [by rewrite rest_copy|by intros ?%H2|done]. Qed.

Lemma laneWhole_open O d l : laneWhole O d false l -> sender l = true.
Proof. intros (_ & _ & H). destruct (sender l); [done|]. by destruct H. Qed.

Lemma laneWhole_close O d l : laneWhole O d false l -> pipe l = [] -> laneWhole O d true l.
Proof. intros H Hp. pose proof (laneWhole_open _ _ _ H) as Hs. destruct H as (H & _ & _). split_and!; [done..|congruence]. Qed.

Lemma laneWhole_drained O d ps b : laneWhole O d b (mkLane ps [] true) -> b = true -> laneWhole O d b (mkLane ps [] false).
Proof. intros (H & H2 & _) ->. split_and!; done. Qed.

Lemma step_whole req O E e s s' : smooth e = true -> step e s = Some s' -> whole req O E s -> whole req O E s'.
Proof.
  intros Hsm H (d1 & d2 & d & tail & Hs & Hm & H1 & H2 & Ht).
  destruct s as [lo le cd snt ph]. unfold chansClosed in H1, H2. cbn [sent out err phase] in *.
  destruct e; try discriminate Hsm; cbn [step phase lane sent out err] in H.
  - destruct ph; simplify_eq. by apply (whole_intro _ _ _ _ d1 d2 d []).
  - destruct ph; try done.
    destruct w; [destruct lo as [[|p ps] c r]|destruct le as [[|p ps] c r]]; try done; cbn [lane out err] in H;
      (destruct (length c <? chanCap); [|done]); simplify_eq;
      [pose proof (laneWhole_open _ _ _ H1) as Hr|pose proof (laneWhole_open _ _ _ H2) as Hr]; cbn in Hr; subst r;
      apply (whole_intro _ _ _ _ d1 d2 d []); try done; by apply laneWhole_copy.
  - destruct ph; try done. destruct (pipe lo) eqn:Eo; [|done]. destruct (pipe le) eqn:Ee; [|done].
    destruct r; try discriminate Hsm; simplify_eq; apply (whole_intro _ _ _ _ d1 d2 d []); try done; by apply laneWhole_close.
  - assert (forall l, l = lo \/ l = le -> sender l = true -> tail = []) as Htail
      by (intros l Hl Hr; destruct ph; try done; destruct Ht as (_ & _ & ? & ?); destruct Hl; congruence).
    destruct w; [destruct lo as [ps [|p c] []]|destruct le as [ps [|p c] []]]; cbn [lane out err] in H; simplify_eq;
      (assert (tail = []) as -> by first [exact (Htail _ (or_introl eq_refl) eq_refl)|exact (Htail _ (or_intror eq_refl) eq_refl)]);
      [apply (whole_intro _ _ _ _ (d1 ++ [p]) d2 (d ++ [p]) [])|apply (whole_intro _ _ _ _ d1 (d2 ++ [p]) (d ++ [p]) [])];
      [by cbn [addSent setLane sent]; rewrite fmap_app, !app_nil_r|by apply merge_l| | |
       |by cbn [addSent setLane sent]; rewrite fmap_app, !app_nil_r|by apply merge_r| | |];
      try done; try (by apply laneWhole_deliver); destruct ph; try done; by destruct Ht as (_ & _ & ? & ?).
  - destruct w; [destruct lo as [ps [|p c] []]|destruct le as [ps [|p c] []]]; cbn [lane out err] in H; simplify_eq;
      destruct (chansClosed _) eqn:Ec; simplify_eq; unfold chansClosed in Ec; cbn in Ec;
      apply (whole_intro _ _ _ _ d1 d2 d tail); try done; try (by apply laneWhole_drained);
      destruct ph; try done; by destruct Ht as (_ & _ & ? & ?).
  - destruct ok; [|done]. destruct ph; try done. destruct (sender lo || sender le) eqn:Es; simplify_eq.
    apply orb_false_iff in Es as [? ?]. apply (whole_intro _ _ _ _ d1 d2 d [RespStatus (int32 exitCode)]); try done.
    + cbn. by rewrite app_nil_r.
    + cbn. split_and!; eauto.
Qed.

Lemma initial_whole req O E : whole req O E (initial req O E).
Proof. apply (whole_intro _ _ _ _ [] [] [] []); try done; constructor. Qed.

Definition laneWork (l : Lane) : nat := 2 * length (pipe l) + length (ch l) + (if sender l then 1 else 0).

Definition phaseWork (p : Phase) : nat :=
  match p with Starting => 3 | Copying => 2 | Waiting _ => 1 | Returned _ => 0 end.

Definition work (s : State) : nat := laneWork (out s) + laneWork (err s) + phaseWork (phase s).

(** Every event but the end of the context takes work away. *)
Lemma step_work e s s' : (forall n m, e <> Cancel n m) -> step e s = Some s' -> work s' < work s.
Proof.
  intros Hc H. destruct s as [lo le cd snt ph].
  destruct e as [| |w|r|w|w|w|w|n m|ok]; [..|by destruct (Hc n m)|]; cbn [step phase lane sent out err] in H.
  - destruct ph; simplify_eq. unfold work, phaseWork. cbn. lia.
  - destruct ph; simplify_eq. unfold work, phaseWork. cbn. lia.
  - destruct ph; try done.
    destruct w; [destruct lo as [[|p ps] c r]|destruct le as [[|p ps] c r]]; try done; cbn [lane out err] in H;
      (destruct (length c <? chanCap); [|done]); simplify_eq; unfold work, laneWork; cbn; rewrite length_app; cbn; lia.
  - destruct ph; try done. destruct (pipe lo); [|done]. destruct (pipe le); [|done].
    destruct r; simplify_eq; unfold work, phaseWork; cbn; lia.
  - destruct w; [destruct lo as [ps [|p c] []]|destruct le as [ps [|p c] []]]; cbn [lane out err] in H; simplify_eq;
      unfold work, laneWork; cbn; lia.
  - destruct w; [destruct lo as [ps [|p c] []]|destruct le as [ps [|p c] []]]; cbn [lane out err] in H; simplify_eq;
      unfold work, laneWork; cbn; lia.
  - destruct w; [destruct lo as [ps [|p c] []]|destruct le as [ps [|p c] []]]; cbn [lane out err] in H; simplify_eq;
      destruct (chansClosed _); simplify_eq; unfold work, laneWork; cbn; lia.
  - destruct w; [destruct lo as [ps c []]|destruct le as [ps c []]]; cbn [lane out err ctxDone] in H; simplify_eq;
      destruct cd; simplify_eq; unfold work, laneWork; cbn; lia.
  - destruct ph; try done. destruct (sender lo || sender le); simplify_eq. destruct ok; unfold work, phaseWork; cbn; lia.
Qed.

(** While the RPC has not returned, some smooth event is possible. *)
Lemma whole_progress req O E s :
  whole req O E s -> (forall r, phase s <> Returned r) -> exists s', smoothStep s s'.
Proof.
  intros (d1 & d2 & d & tail & _ & _ & H1 & H2 & _) Hph. destruct s as [[po co so] [pe ce se] cd snt ph].
  unfold chansClosed in H1, H2. cbn [out err phase] in *.
  destruct ph as [| |code|r]; [| | |by destruct (Hph r)].
  - eexists. exists Start. done.
  - apply laneWhole_open in H1, H2. cbn in H1, H2. subst so se.
    destruct co as [|x co]; [|eexists; by exists (Deliver Stdout)].
    destruct ce as [|x ce]; [|eexists; by exists (Deliver Stderr)].
    destruct po as [|x po]; [|eexists; by exists (Copy Stdout)].
    destruct pe as [|x pe]; [|eexists; by exists (Copy Stderr)].
    eexists. by exists (Exit WaitNil).
  - destruct so.
    + destruct co; eexists; [by exists (Drained Stdout)|by exists (Deliver Stdout)].
    + destruct se; [destruct ce; eexists; [by exists (Drained Stderr)|by exists (Deliver Stderr)]|].
      eexists. by exists (Finish true).
Qed.

Lemma smooth_whole req O E s s' : rtc smoothStep s s' -> whole req O E s -> whole req O E s'.
Proof. induction 1 as [|x y z (e & Hs & He) _ IH]; [done|]. intros Hx. by eapply IH, step_whole. Qed.

(** Unless the context ends or the stream breaks, the RPC returns: its steps cannot
    go on forever, and when none is left the client has got the request, the whole of
    both outputs, interleaved, and the exit status. *)
Theorem debug_completes req O E :
  sn smoothStep (initial req O E) /\
  forall s, rtc smoothStep (initial req O E) s -> nf smoothStep s ->
    phase s = Returned None /\
    exists d code, merge O E d /\ sent s = RespRequest req :: (RespData <$> d) ++ [RespStatus code].
Proof.
  split.
  - remember (work (initial req O E)) as n eqn:En. revert En. generalize (initial req O E) as s. induction n as [n IH] using lt_wf_ind.
    intros s ->. constructor. intros s' (e & Hsm & He). eapply IH; [|done]. eapply step_work, He. intros a b ->. done.
  - intros s Hs Hnf. pose proof (smooth_whole _ _ _ _ _ Hs (initial_whole req O E)) as Hw.
    destruct (phase s) as [| |code|r] eqn:Ep; try (exfalso; apply Hnf; eapply whole_progress; [done|congruence]).
    destruct Hw as (d1 & d2 & d & tail & Hsent & Hm & (H1 & Hp1 & Hc1) & (H2 & Hp2 & Hc2) & Ht).
    rewrite Ep in Ht. destruct Ht as (-> & (code & ->) & So & Se). split; [done|].
    destruct (Hc1 So) as [Hcl Ho], (Hc2 Se) as [_ He]. exists d, code. split; [|done].
    unfold rest in H1, H2. rewrite Ho, (Hp1 Hcl), app_nil_r in H1. rewrite He, (Hp2 Hcl), app_nil_r in H2. by subst.
Qed.

(** * An RPC that does not return *)

(** A sender is gone and its output does not fit into the channel. *)
Definition stuck (w : Which) (s : State) : Prop :=
  phase s = Copying /\ ctxDone s = true /\ sender (lane w s) = false /\
  length (ch (lane w s)) <= chanCap /\ chanCap < length (ch (lane w s)) + length (pipe (lane w s)).

Lemma step_stuck w e s s' : step e s = Some s' -> stuck w s -> stuck w s'.
Proof.
  intros H (Hp & Hc & Hr & Hl & Hm). destruct s as [lo le cd snt ph]. cbn in Hp, Hc. subst ph cd.
  assert (pipe (lane w (mkState lo le true snt Copying)) <> []) as Hne by (intros Hn; rewrite Hn in Hm; cbn in *; lia).
  destruct e as [| |w'|r|w'|w'|w'|w'|n m|ok]; try done; cbn [step phase sent out err ctxDone chansClosed] in H.
  - destruct (lane w' _) as [[|p ps] c r] eqn:El; [done|]. destruct (Nat.ltb_spec (length c) chanCap); [|done]. simplify_eq.
    destruct w, w'; cbn [lane setLane out err ch pipe sender] in *; subst; unfold stuck; cbn [lane setLane phase ctxDone out err ch pipe sender] in *; rewrite ?length_app; cbn [length] in *; split_and!; try done; lia.
  - destruct (pipe lo) eqn:Eo; [|done]. destruct (pipe le) eqn:Ee; [|done]. destruct w; cbn in Hne; congruence.
  - destruct (lane w' _) as [ps [|p c] []] eqn:El; simplify_eq. destruct w, w'; cbn [lane out err] in *; subst; cbn in *; try done; by split_and!.
  - destruct (lane w' _) as [ps [|p c] []] eqn:El; simplify_eq. destruct w, w'; cbn [lane out err] in *; subst; cbn in *; try done; by split_and!.
  - destruct (lane w' _) as [ps [|p c] []] eqn:El; simplify_eq.
  - destruct (lane w' _) as [ps c []] eqn:El; simplify_eq. destruct w, w'; cbn [lane out err] in *; subst; cbn in *; try done; by split_and!.
Qed.

Lemma stuck_forever w s s' : stuck w s -> rtc steps s s' -> forall r, phase s' <> Returned r.
Proof.
  intros Hs H. assert (stuck w s') as (Hp & _).
  { revert Hs. induction H as [|x y z [e He] _ IH]; [done|]. intros Hx. by eapply IH, step_stuck. }
  congruence.
Qed.

(** Pieces go into the channel while it has room and the client takes none. *)
Lemma copy_run l1 l2 c le cd snt :
  length c + length l1 <= chanCap ->
  rtc steps (mkState (mkLane (l1 ++ l2) c true) le cd snt Copying) (mkState (mkLane l2 (c ++ l1) true) le cd snt Copying).
Proof.
  revert c. induction l1 as [|p l1 IH]; intros c Hl; [by rewrite app_nil_r|].
  cbn [length] in Hl. eapply rtc_l.
  - exists (Copy Stdout). cbn [step phase lane out app]. by rewrite (proj2 (Nat.ltb_lt (length c) chanCap)) by lia.
  - cbn [setLane err ctxDone sent phase]. replace (c ++ p :: l1) with ((c ++ [p]) ++ l1) by (by rewrite <- app_assoc).
    apply IH. rewrite length_app. cbn. lia.
Qed.

(** An RPC can hang for good: when a client does not take the output and then
    cancels, and the command has written more pieces than a channel holds, the senders
    stop, the copy of the output blocks on the full channel, and from there no sequence
    of events lets the RPC return. *)
Theorem cancelled_rpc_hangs req O E :
  chanCap < length O ->
  exists s, rtc steps (initial req O E) s /\ forall s', rtc steps s s' -> forall r, phase s' <> Returned r.
Proof.
  intros HO. assert (exists l1 p l2, O = l1 ++ p :: l2 /\ length l1 = chanCap) as (l1 & p & l2 & -> & Hl1).
  { exists (take chanCap O). destruct (drop chanCap O) as [|p l2] eqn:E1.
    - apply (f_equal length) in E1. rewrite length_drop in E1. cbn in *. lia.
    - exists p, l2. rewrite <- E1, take_drop, length_take. split; [done|lia]. }
  exists (mkState (mkLane [p] l1 false) (mkLane [] [] true) true [RespRequest req] Copying). split.
  - eapply rtc_l; [by exists Start|]. etrans; [apply (copy_run l1 (p :: l2) []); cbn; lia|].
    eapply rtc_l; [by exists (Cancel 1 0)|]. eapply rtc_l; [by exists (Cancelled Stdout)|]. apply rtc_refl.
  - intros s'. apply (stuck_forever Stdout). split_and!; try done; cbn [lane out ch pipe length]; lia.
Qed.

(** * Witnesses *)

Definition demo_req : DebugRequest := mkDebugRequest MODE_CLI (Some pipeText) 0 0 "".


Lemma debug_stream_order_witness : ordered demo_req ["a"] [] (setPhase Copying (initial demo_req ["a"] [])).
Proof. apply debug_stream_order. apply rtc_once. exists Start. reflexivity. Defined.

Lemma cancelled_rpc_hangs_witness :
  exists s, rtc steps (initial demo_req (replicate 101 "x") []) s /\ forall s', rtc steps s s' -> forall r, phase s' <> Returned r.
Proof. apply cancelled_rpc_hangs. vm_compute. lia. Defined.
