(* ===== verification/FileService.v ===== *)
(** The gNOI File service (src/pkg/gnoi/file/file.go, src/gnmi_server/gnoi_file.go) with
    the download helpers (src/internal/download/download.go, src/internal/hash/hash.go).

    [FW] is the file system by path, as far as the service changes it; every system call
    consumes a tick and fails when [fails] says so, so statements that quantify over
    [fails] cover every pattern of failures.  The MD5 function, HTTP, the streams and the
    calls that only read ([os.Stat], [os.ReadDir]) are parameters. *)

From S2P Require Import Prelude GnmiTypes Filepath.
Import Filepath.
Open Scope go_scope.

Module FileService.

(** * Paths *)

Inductive PathError := NotAbsolute | Traversal | NotAllowed.

Definition allowedPrefixes : list string := ["/tmp/"; "/var/tmp/"; "/host/"].

Definition validatePath (path : string) : res PathError unit :=
  let cleanPath := Clean path in
  if negb (IsAbs cleanPath) then Err NotAbsolute
  else if str_contains cleanPath ".." then Err Traversal
  else if existsb (fun prefix => has_prefix cleanPath prefix) allowedPrefixes then Ok tt
  else Err NotAllowed.

Definition hostRoot : string := "/mnt/host".

(** [inContainer]: the directory [hostRoot] exists. *)
Definition translatePathForContainer (inContainer : bool) (path : string) : string :=
  let cleanPath := Clean path in
  if inContainer then hostRoot +:+ cleanPath else cleanPath.

(** * The file system *)

Inductive FNode := Reg (data : string) (perm : N) | Directory.

#[global] Instance FNode_eq_dec : EqDecision FNode.
Proof. solve_decision. Defined.

Record FW := mkFW { files : gmap string FNode; tick : nat }.

Definition IO (A : Type) : Type := FW -> A * FW.

#[global] Instance IO_ret : MRet IO := fun A a w => (a, w).
#[global] Instance IO_bind : MBind IO := fun A B f m w => let '(a, w1) := m w in f a w1.

Section Service.
(** [fails n]: the [n]-th system call fails; [torn n]: how much a failed write leaves. *)
Variable fails : nat -> bool.
Variable torn : nat -> nat.
Variable inContainer : bool.
Variable md5 : string -> string.
Variable maxFileSize : Z.

(** A system call: it fails, with the effect [bad], or has the effect that [act] gives, if
    it gives one. *)
Definition syscall (bad : nat -> gmap string FNode -> gmap string FNode)
    (act : gmap string FNode -> option (gmap string FNode)) : IO bool := fun w =>
  if fails (tick w) then (false, mkFW (bad (tick w) (files w)) (S (tick w)))
  else match act (files w) with
       | Some fs' => (true, mkFW fs' (S (tick w)))
       | None => (false, mkFW (files w) (S (tick w)))
       end.

Definition same : nat -> gmap string FNode -> gmap string FNode := fun _ fs => fs.

Definition mkdir (p : string) : IO bool :=
  syscall same (fun fs =>
    match fs !! p with
    | None => Some (<[p := Directory]> fs)
    | Some Directory => Some fs
    | Some (Reg _ _) => None
    end).

Fixpoint mkdirs (l : list string) : IO bool :=
  match l with
  | [] => mret true
  | p :: l => ok ← mkdir p; if ok : bool then mkdirs l else mret false
  end.

(** A clean path and the directories above it. *)
Definition ancestors (p : string) : list string :=
  (fun k => "/" +:+ str_join (take (S k) (cleanComps p)) "/") <$> seq 0 (length (cleanComps p)).

(** [os.MkdirAll]. *)
Definition MkdirAll (p : string) : IO bool := mkdirs (ancestors p).

(** [os.OpenFile] to create and truncate. *)
Definition createFile (p : string) : IO bool :=
  syscall same (fun fs =>
    match fs !! p with
    | Some Directory => None
    | Some (Reg _ perm) => Some (<[p := Reg "" perm]> fs)
    | None => Some (<[p := Reg "" 420]> fs)
    end).

Definition appendTo (p data : string) (fs : gmap string FNode) : gmap string FNode :=
  match fs !! p with
  | Some (Reg old perm) => <[p := Reg (old +:+ data) perm]> fs
  | _ => fs
  end.

(** [f.Write] on the file opened at [p]; a failed write may leave a part. *)
Definition writeFile (p data : string) : IO bool :=
  syscall (fun n fs => appendTo p (strtake (torn n) data) fs) (fun fs => Some (appendTo p data fs)).

Definition closeFile : IO bool := syscall same (fun fs => Some fs).

(** The Unix mode that [os.Chmod] asks for, from the bits of an [os.FileMode]: the nine
    permission bits, and set-user-ID, set-group-ID and sticky from bits 23, 22 and 20. *)
Definition syscallMode (m : N) : N :=
  (N.land m 511 + (if N.testbit m 23 then 2048 else 0) + (if N.testbit m 22 then 1024 else 0) +
   (if N.testbit m 20 then 512 else 0))%N.

Definition Chmod (p : string) (mode : N) : IO bool :=
  syscall same (fun fs =>
    match fs !! p with
    | Some (Reg data _) => Some (<[p := Reg data (syscallMode mode)]> fs)
    | Some Directory => Some fs
    | None => None
    end).

Definition Rename (src dst : string) : IO bool :=
  syscall same (fun fs =>
    match fs !! src, fs !! dst with
    | Some n, (None | Some (Reg _ _)) => Some (<[dst := n]> (delete src fs))
    | _, _ => None
    end).

(** [os.Remove] of a file, or of a directory that is empty. *)
Definition isEmptyDir (p : string) (fs : gmap string FNode) : bool :=
  negb (existsb (fun '(q, _) => has_prefix q (p +:+ "/")) (map_to_list fs)).

Definition Remove (p : string) : IO bool :=
  syscall same (fun fs =>
    match fs !! p with
    | Some (Reg _ _) => Some (delete p fs)
    | Some Directory => if isEmptyDir p fs then Some (delete p fs) else None
    | None => None
    end).

(** Whether [os.Stat] finds something. *)
Definition exists_ (p : string) : IO bool := syscall same (fun fs => match fs !! p with Some _ => Some fs | None => None end).

(** * Put *)

Inductive PutRequest :=
| PutOpen (remote_file : string) (permissions : N)
| PutContents (data : string)
| PutHash (hash : string)
| PutNothing.

(** What [Recv] returns: a message, or an error. *)
Inductive PutEvent := PutMsg (m : PutRequest) | PutEOF | PutCanceled | PutBroken.

(** The loop that receives the chunks: [None] once the hash is verified.  [acc] is what
    the hasher was given.  After the events the stream is at its end. *)
Fixpoint putLoop (tempPath acc : string) (stream : list PutEvent) : IO (option Code) :=
  match stream with
  | [] | PutEOF :: _ => mret (Some InvalidArgument)
  | PutCanceled :: _ => mret (Some Canceled)
  | PutBroken :: _ => mret (Some Internal)
  | PutMsg (PutContents contents) :: stream =>
      ok ← writeFile tempPath contents;
      if negb ok then mret (Some Internal) else putLoop tempPath (acc +:+ contents) stream
  | PutMsg (PutHash receivedHash) :: _ =>
      mret (if negb (String.eqb (md5 acc) receivedHash) then Some DataLoss else None)
  | PutMsg (PutOpen _ _) :: _ | PutMsg PutNothing :: _ => mret (Some InvalidArgument)
  end.

(** The deferred clean-up. *)
Definition putCleanup (tempPath : string) : IO unit :=
  _ ← closeFile;
  found ← exists_ tempPath;
  if found : bool then _ ← Remove tempPath; mret tt else mret tt.

(** From the open temporary file on. *)
Definition putBody (tempPath translatedPath : string) (permissions : N) (stream : list PutEvent) (sendOk : bool) : IO (option Code) :=
  err ← putLoop tempPath "" stream;
  match err with
  | Some e => mret (Some e)
  | None =>
      ok ← closeFile;
      if negb ok then mret (Some Internal)
      else
        ok ← Chmod tempPath permissions;
        if negb ok then mret (Some Internal)
        else
          ok ← Rename tempPath translatedPath;
          if negb ok then mret (Some Internal)
          else mret (if sendOk : bool then None else Some Unknown)
  end.

Definition HandlePut (stream : list PutEvent) (sendOk : bool) : IO (option Code) :=
  match stream with
  | [] | (PutEOF | PutCanceled | PutBroken) :: _ => mret (Some Internal)
  | PutMsg (PutOpen remotePath permissions) :: stream =>
      if String.eqb remotePath "" then mret (Some InvalidArgument)
      else
        let permissions := if (permissions =? 0)%N then 420%N else permissions in
        match validatePath remotePath with
        | Err _ => mret (Some InvalidArgument)
        | Ok _ =>
            let translatedPath := translatePathForContainer inContainer remotePath in
            let tempPath := translatedPath +:+ ".tmp" in
            ok ← MkdirAll (Dir tempPath);
            if negb ok then mret (Some Internal)
            else
              ok ← createFile tempPath;
              if negb ok then mret (Some Internal)
              else
                r ← putBody tempPath translatedPath permissions stream sendOk;
                _ ← putCleanup tempPath;
                mret r
        end
  | PutMsg _ :: _ => mret (Some InvalidArgument)
  end.

(** * Remove *)

(** How [os.Remove] fails, as the handler tells its errors apart. *)
Definition removeCode (w : FW) (p : string) (eperm : bool) : Code :=
  if negb (fails (tick w)) && bool_decide (files w !! p = None) then NotFound
  else if eperm then PermissionDenied else Internal.

(** [eperm]: a failure other than that there is no such file is one of permission. *)
Definition HandleFileRemove (req : option string) (eperm : bool) : IO (option Code) := fun w =>
  match req with
  | None => (Some InvalidArgument, w)
  | Some remoteFile =>
      if String.eqb remoteFile "" then (Some InvalidArgument, w)
      else
        match validatePath remoteFile with
        | Err _ => (Some PermissionDenied, w)
        | Ok _ =>
            let translatedPath := translatePathForContainer inContainer remoteFile in
            let '(ok, w') := Remove translatedPath w in
            (if ok then None else Some (removeCode w translatedPath eperm), w')
        end
  end.

(** * Download *)

(** What comes of an HTTP request: no answer, or a status, a declared length ([-1] when
    there is none), and the body, which may break off. *)
Inductive HttpResult :=
| HttpFailed
| HttpResponse (StatusCode ContentLength : Z) (body : string) (breaks : bool).

Definition slen (s : string) : Z := Z.of_nat (String.length s).

(** What a reader limited to [maxSize + 1] bytes gives. *)
Definition limited (maxSize : Z) (body : string) : string :=
  if (0 <? maxSize)%Z then strtake (Z.to_nat (maxSize + 1)) body else body.

Definition DownloadHTTP (http : HttpResult) (localPath : string) (maxSize : Z) : IO bool :=
  ok ← MkdirAll (Dir localPath);
  if negb ok then mret false
  else
    match http with
    | HttpFailed => mret false
    | HttpResponse status contentLength body breaks =>
        if (status <? 200)%Z || (300 <=? status)%Z then mret false
        else if (0 <? maxSize)%Z && (maxSize <? contentLength)%Z then mret false
        else
          ok ← createFile localPath;
          if negb ok then mret false
          else
            let data := limited maxSize body in
            ok ← writeFile localPath data;
            if negb ok || (breaks && ((maxSize <=? 0)%Z || (slen body <=? maxSize)%Z)) then _ ← Remove localPath; mret false
            else if (0 <? maxSize)%Z && (maxSize <? slen data)%Z then _ ← Remove localPath; mret false
            else mret true
    end.

(** [CalculateMD5]. *)
Definition CalculateMD5 (filePath : string) : IO (option string) := fun w =>
  let '(ok, w') := syscall same (fun fs => Some fs) w in
  (if ok then match files w !! filePath with Some (Reg data _) => Some (md5 data) | _ => None end else None, w').

(** * TransferToRemote *)

Inductive Protocol := PROTO_HTTP | PROTO_OTHER.

Record TransferRequest := mkTransfer {
  local_path : string;
  remote_download : option (Protocol * string)
}.

(** The answer: a hash, or a code. *)
Definition handleTransferToRemoteLocal (req : option TransferRequest) (http : string -> HttpResult) : IO (res Code string) :=
  match req with
  | None => mret (Err InvalidArgument)
  | Some req =>
      match remote_download req with
      | None => mret (Err InvalidArgument)
      | Some (protocol, url) =>
          if String.eqb (local_path req) "" then mret (Err InvalidArgument)
          else
            match validatePath (local_path req) with
            | Err _ => mret (Err InvalidArgument)
            | Ok _ =>
                match protocol with
                | PROTO_OTHER => mret (Err Unimplemented)
                | PROTO_HTTP =>
                    if String.eqb url "" then mret (Err InvalidArgument)
                    else
                      let translatedPath := translatePathForContainer inContainer (local_path req) in
                      ok ← DownloadHTTP (http url) translatedPath maxFileSize;
                      if negb ok then mret (Err Internal)
                      else
                        h ← CalculateMD5 translatedPath;
                        match h with
                        | Some hashBytes => mret (Ok hashBytes)
                        | None => _ ← Remove translatedPath; mret (Err Internal)
                        end
                end
            end
      end
  end.

(** ** To a DPU *)

(** What a [Read] returns besides its bytes. *)
Inductive ReadEnd := NoEnd | AtEOF | ReadFailed.

(** [limitedReadCloser.Read] over a limited reader, after [count] bytes. *)
Definition limitedRead (count : Z) (r : string * ReadEnd) : string * ReadEnd * Z :=
  let '(data, e) := r in
  if (0 <? maxFileSize)%Z then
    let data := strtake (Z.to_nat (maxFileSize + 1 - count)) data in
    let count := (count + slen data)%Z in
    (data, if (maxFileSize <? count)%Z then ReadFailed else e, count)
  else (data, e, (count + slen data)%Z).

(** The loop that reads a chunk, hashes it and sends it; [sendOk k]: the [k]-th message is
    taken.  When no read is left the context is done.  The result is the hash and the
    number of messages, or a code, with the messages sent. *)
Fixpoint dpuLoop (sendOk : nat -> bool) (k : nat) (count : Z) (acc : string) (reads : list (string * ReadEnd))
    : res Code (string * nat) * list PutRequest :=
  match reads with
  | [] => (Err CtxDeadlineExceeded, [])
  | r :: reads =>
      let '(data, e, count) := limitedRead count r in
      let acc := acc +:+ data in
      let '(out, sent) :=
        match e with
        | AtEOF => (Ok (md5 acc, if (0 <? slen data)%Z then S k else k), [])
        | ReadFailed => (Err Internal, [])
        | NoEnd => dpuLoop sendOk (if (0 <? slen data)%Z then S k else k) count acc reads
        end in
      if (0 <? slen data)%Z then
        if negb (sendOk k) then (Err Internal, []) else (out, PutContents data :: sent)
      else (out, sent)
  end.

(** What comes of the request for a stream: no answer, or a status, a declared length and
    what the reads of the body return. *)
Inductive HttpStream :=
| StreamFailed
| StreamOpen (StatusCode ContentLength : Z) (reads : list (string * ReadEnd)).

(** [DownloadHTTPStreaming]; the reads go through [limitedRead]. *)
Definition DownloadHTTPStreaming (http : HttpStream) : option (list (string * ReadEnd)) :=
  match http with
  | StreamFailed => None
  | StreamOpen status contentLength reads =>
      if (status <? 200)%Z || (300 <=? status)%Z then None
      else if (0 <? maxFileSize)%Z && (maxFileSize <? contentLength)%Z then None
      else Some reads
  end.

(** [connOk], [putOk]: the connection and the [Put] stream are made; [finish]: what
    [CloseAndRecv] answers to the messages sent. *)
Definition HandleTransferToRemoteForDPUStreaming (req : option TransferRequest) (dpuIndex : string)
    (http : string -> HttpStream) (connOk putOk : bool) (sendOk : nat -> bool)
    (finish : list PutRequest -> option Code) : res Code string * list PutRequest :=
  match req with
  | None => (Err InvalidArgument, [])
  | Some req =>
      if String.eqb dpuIndex "" then (Err InvalidArgument, [])
      else
        match remote_download req with
        | None => (Err InvalidArgument, [])
        | Some (protocol, url) =>
            if String.eqb (local_path req) "" then (Err InvalidArgument, [])
            else
              match protocol with
              | PROTO_OTHER => (Err Unimplemented, [])
              | PROTO_HTTP =>
                  if String.eqb url "" then (Err InvalidArgument, [])
                  else
                    match DownloadHTTPStreaming (http url) with
                    | None => (Err Internal, [])
                    | Some reads =>
                        if negb connOk || negb putOk || negb (sendOk 0) then (Err Internal, [])
                        else
                          let open := PutOpen (local_path req) 420 in
                          let '(out, sent) := dpuLoop sendOk 1 0 "" reads in
                          match out with
                          | Err e => (Err e, open :: sent)
                          | Ok (h, k) =>
                              if negb (sendOk k) then (Err Internal, open :: sent)
                              else
                                let msgs := open :: sent ++ [PutHash h] in
                                (match finish msgs with Some _ => Err Internal | None => Ok h end, msgs)
                          end
                    end
              end
        end
  end.

(** The first value of a metadata key. *)
Definition mdFirst (md : gmap string (list string)) (k : string) : string :=
  match md !! k with Some (v :: _) => v | _ => "" end.

(** Whether a transfer is for a DPU, and for which. *)
Definition dpuTarget (md : option (gmap string (list string))) : option string :=
  match md with
  | None => None
  | Some md =>
      let targetType := mdFirst md "x-sonic-ss-target-type" in
      let targetIndex := mdFirst md "x-sonic-ss-target-index" in
      if String.eqb targetType "dpu" && negb (String.eqb targetIndex "") then Some targetIndex else None
  end.

(** [HandleTransferToRemote]: with the headers of a DPU the stream to it, else the download
    to the local file. *)
Definition HandleTransferToRemote (md : option (gmap string (list string))) (req : option TransferRequest)
    (http : string -> HttpResult) (stream : string -> HttpStream) (connOk putOk : bool)
    (sendOk : nat -> bool) (finish : list PutRequest -> option Code) : IO (res Code string) :=
  match dpuTarget md with
  | Some dpuIndex => mret (HandleTransferToRemoteForDPUStreaming req dpuIndex stream connOk putOk sendOk finish).1
  | None => handleTransferToRemoteLocal req http
  end.

(** * Stat and Get *)

Inductive StatErr := ENOENT | EPERM | EOTHER.

Record FileInfo := mkFileInfo { isDir : bool; isRegular : bool; perm : N; size : Z; modTime : Z }.

Record StatInfo := mkStatInfo { si_path : string; si_last_modified : Z; si_permissions : N; si_size : Z; si_umask : N }.

(** [strconv.FormatUint(n, 8)] for a number of at most [k] octal digits, read as decimal. *)
Fixpoint octalAsDecimal (k : nat) (n : N) : N :=
  match k with
  | O => 0
  | S k => n mod 8 + 10 * octalAsDecimal k (n / 8)
  end.

(** The nine permission bits have at most three octal digits. *)
Definition statInfoFromFileInfo (reportPath : string) (info : FileInfo) : StatInfo :=
  mkStatInfo reportPath (modTime info) (octalAsDecimal 3 (N.land (perm info) 511))
    (if negb (isDir info) && (0 <? size info)%Z then size info else 0%Z) 18.

Definition statCode (e : StatErr) : Code :=
  match e with ENOENT => NotFound | EPERM => PermissionDenied | EOTHER => Internal end.

Definition containerInternal (cleanPath : string) : bool :=
  String.eqb cleanPath "/mnt/host" || has_prefix cleanPath "/mnt/host/".

Section Read.
Variable fsStat : string -> res StatErr FileInfo.
(** The entries with what [Info] returns for them; [None] when one has vanished. *)
Variable fsReadDir : string -> res StatErr (list (string * option FileInfo)).

Definition HandleStat (req : option string) : res Code (list StatInfo) :=
  match req with
  | None => Err InvalidArgument
  | Some reqPath =>
      if String.eqb reqPath "" then Err InvalidArgument
      else if negb (IsAbs reqPath) then Err InvalidArgument
      else
        let cleanReqPath := Clean reqPath in
        if containerInternal cleanReqPath then Err InvalidArgument
        else
          let translatedPath := translatePathForContainer inContainer cleanReqPath in
          match fsStat translatedPath with
          | Err e => Err (statCode e)
          | Ok info =>
              if negb (isDir info) then Ok [statInfoFromFileInfo cleanReqPath info]
              else
                match fsReadDir translatedPath with
                | Err e => Err (statCode e)
                | Ok entries =>
                    Ok (omap (fun '(name, entryInfo) =>
                          i ← entryInfo; Some (statInfoFromFileInfo (Join [cleanReqPath; name]) i)) entries)
                end
          end
  end.

Inductive GetResponse := GetContents (data : string) | GetHash (hash : string).

(** [ctxErr k]: the state of the context before the [k]-th read; a file that has been read
    to its last byte is at its end. *)
Fixpoint getLoop (ctxErr : nat -> option Code) (sendOk : nat -> bool) (i k : nat) (acc : string) (reads : list (string * ReadEnd))
    : res Code (string * nat) * list GetResponse :=
  match ctxErr i with
  | Some e => (Err e, [])
  | None =>
      match reads with
      | [] => (Ok (md5 acc, k), [])
      | (chunk, e) :: reads =>
          let acc := acc +:+ chunk in
          let k' := if (0 <? slen chunk)%Z then S k else k in
          let '(out, sent) :=
            match e with
            | AtEOF => (Ok (md5 acc, k'), [])
            | ReadFailed => (Err Internal, [])
            | NoEnd => getLoop ctxErr sendOk (S i) k' acc reads
            end in
          if (0 <? slen chunk)%Z then
            if negb (sendOk k) then (Err Internal, []) else (out, GetContents chunk :: sent)
          else (out, sent)
      end
  end.

Definition HandleGet (req : option string) (open : res StatErr (list (string * ReadEnd))) (ctxErr : nat -> option Code)
    (sendOk : nat -> bool) : option Code * list GetResponse :=
  match req with
  | None => (Some InvalidArgument, [])
  | Some remoteFile =>
      if String.eqb remoteFile "" then (Some InvalidArgument, [])
      else if negb (IsAbs remoteFile) then (Some InvalidArgument, [])
      else
        let cleanPath := Clean remoteFile in
        if containerInternal cleanPath then (Some InvalidArgument, [])
        else
          match fsStat (translatePathForContainer inContainer cleanPath) with
          | Err e => (Some (statCode e), [])
          | Ok info =>
              if isDir info then (Some FailedPrecondition, [])
              else if negb (isRegular info) then (Some FailedPrecondition, [])
              else if (maxFileSize <? size info)%Z then (Some FailedPrecondition, [])
              else
                match open with
                | Err EPERM => (Some PermissionDenied, [])
                | Err _ => (Some Internal, [])
                | Ok reads =>
                    let '(out, sent) := getLoop ctxErr sendOk 0 0 "" reads in
                    match out with
                    | Err e => (Some e, sent)
                    | Ok (h, k) => if negb (sendOk k) then (Some Internal, sent) else (None, sent ++ [GetHash h])
                    end
                end
          end
  end.
End Read.
End Service.

(** * The server *)

(** Every method asks for read access only; [auth] is [authenticate] for the request. *)
Definition authorized {A} (auth : string -> bool -> option Code) (refuse : Code -> A) (handler : A) : A :=
  match auth "gnoi" false with
  | Some e => refuse e
  | None => handler
  end.

Definition ServerPut fails torn inContainer md5 (auth : string -> bool -> option Code) (stream : list PutEvent) (sendOk : bool)
    : IO (option Code) :=
  authorized auth (fun e => mret (Some e)) (HandlePut fails torn inContainer md5 stream sendOk).

Definition ServerRemove fails inContainer (auth : string -> bool -> option Code) (req : option string) (eperm : bool) : IO (option Code) :=
  match req with
  | None => mret (Some InvalidArgument)
  | Some _ => authorized auth (fun e => mret (Some e)) (HandleFileRemove fails inContainer req eperm)
  end.

Definition ServerTransfer fails torn inContainer md5 maxFileSize (auth : string -> bool -> option Code) md req http stream connOk putOk sendOk finish
    : IO (res Code string) :=
  authorized auth (fun e => mret (Err e))
    (HandleTransferToRemote fails torn inContainer md5 maxFileSize md req http stream connOk putOk sendOk finish).

Definition ServerStat inContainer fsStat fsReadDir (auth : string -> bool -> option Code) (req : option string) : res Code (list StatInfo) :=
  authorized auth Err (HandleStat inContainer fsStat fsReadDir req).

Definition ServerGet inContainer md5 maxFileSize fsStat (auth : string -> bool -> option Code) req open ctxErr sendOk
    : option Code * list GetResponse :=
  authorized auth (fun e => (Some e, [])) (HandleGet inContainer md5 maxFileSize fsStat req open ctxErr sendOk).
End FileService.
