(* ===== verification/FileServiceProofs.v ===== *)
(** Properties of the File service: which paths it may write, that an upload is
    all-or-nothing whatever fails, transfers to a DPU end to end, and downloads. *)

From S2P Require Import Prelude GnmiTypes Filepath FileService.
Import Filepath FileService.
Open Scope go_scope.

(** * Paths *)

(** The absolute path with these components. *)
Definition build (l : list string) : string := "/" +:+ str_join l "/".

Lemma prefix_comp c l n :
  str_free sep c -> Forall (str_free sep) l -> str_free sep n ->
  has_prefix (str_join (c :: l) "/") (n +:+ "/") = true -> c = n /\ l <> [].
Proof.
  intros Hc Hl Hn [t Ht]%has_prefix_spec.
  assert (str_split (str_join (c :: l) "/") "/" = c :: l) as H1 by (apply split_join; [done|by constructor]).
  rewrite Ht, str_app_assoc in H1. change ("/" +:+ t) with (String sep t) in H1.
  unfold str_split in H1. rewrite split_go_sep in H1 by done. injection H1 as <- H1. split; [done|].
  intros ->. by destruct (split_go_nonnil (String sep "") 0 "" t).
Qed.

Lemma prefix_weaken s a b : has_prefix s (a +:+ b) = true -> has_prefix s a = true.
Proof. intros [t ->]%has_prefix_spec. apply has_prefix_spec. exists (b +:+ t). by rewrite str_app_assoc. Qed.

Definition allowedDirs : list (list string) := [["tmp"]; ["var"; "tmp"]; ["host"]].

(** A path that cleans to one strictly below an allowed directory does so by plain names. *)
Lemma allowed_path p :
  IsAbs p = true -> existsb (fun prefix => has_prefix (Clean p) prefix) allowedPrefixes = true ->
  exists dir l, dir ∈ allowedDirs /\ l <> [] /\ Forall plainName (dir ++ l) /\ Clean p = build (dir ++ l).
Proof.
  intros Ha.
  pose proof (cleanComps_plain p Ha) as Hp.
  assert (Clean p = build (cleanComps p)) as -> by (unfold Clean; by rewrite Ha).
  assert (Forall (str_free sep) (cleanComps p)) as Hf by (eapply Forall_impl; [exact Hp|]; by intros x (_ & _ & _ & ?)).
  intros H. unfold allowedPrefixes in H. cbn [existsb] in H.
  assert (forall n, has_prefix (build (cleanComps p)) ("/" +:+ n +:+ "/") = has_prefix (str_join (cleanComps p) "/") (n +:+ "/")) as Hb by done.
  destruct (has_prefix (build (cleanComps p)) "/tmp/") eqn:E1; [|destruct (has_prefix (build (cleanComps p)) "/var/tmp/") eqn:E2;
    [|destruct (has_prefix (build (cleanComps p)) "/host/") eqn:E3; [|done]]].
  - change "/tmp/" with ("/" +:+ "tmp" +:+ "/") in E1. rewrite Hb in E1. destruct (cleanComps p) as [|c l]; [done|].
    apply Forall_cons in Hf as [Hc Hl]. apply prefix_comp in E1 as [-> Hne]; [|done..|by repeat split].
    exists ["tmp"], l. split_and!; [set_solver|done..].
  - pose proof E2 as Ev. change "/var/tmp/" with (("/" +:+ "var" +:+ "/") +:+ "tmp/") in Ev. apply prefix_weaken in Ev. rewrite Hb in Ev.
    destruct (cleanComps p) as [|c l]; [done|]. apply Forall_cons in Hf as [Hc Hl].
    apply prefix_comp in Ev as [-> Hne]; [|done..|by repeat split]. destruct l as [|d l]; [done|].
    apply Forall_cons in Hl as [Hd Hl]. assert (has_prefix (str_join (d :: l) "/") ("tmp" +:+ "/") = true) as Et.
    { unfold build in E2. rewrite str_join_cons in E2 by done. exact E2. }
    apply prefix_comp in Et as [-> Hne']; [|done..|by repeat split].
    exists ["var"; "tmp"], l. split_and!; [set_solver|done..].
  - change "/host/" with ("/" +:+ "host" +:+ "/") in E3. rewrite Hb in E3. destruct (cleanComps p) as [|c l]; [done|].
    apply Forall_cons in Hf as [Hc Hl]. apply prefix_comp in E3 as [-> Hne]; [|done..|by repeat split].
    exists ["host"], l. split_and!; [set_solver|done..].
Qed.

(** What [validatePath] accepts. *)
Lemma validated_path p :
  validatePath p = Ok tt ->
  exists dir l, dir ∈ allowedDirs /\ l <> [] /\ Forall plainName (dir ++ l) /\ Clean p = build (dir ++ l).
Proof.
  unfold validatePath. rewrite clean_abs. destruct (IsAbs p) eqn:Ha; [|done]. cbn [negb].
  destruct (str_contains (Clean p) ".."); [done|]. intros H. apply allowed_path; [done|]. by destruct (existsb _ _).
Qed.

Lemma build_inj l l' : Forall plainName l -> Forall plainName l' -> build l = build l' -> l = l'.
Proof. intros H H' E. rewrite <- (cleanComps_build l H), <- (cleanComps_build l' H'). unfold build in E. by rewrite E. Qed.

Lemma join_snoc_app l n s : str_join (l ++ [n]) "/" +:+ s = str_join (l ++ [n +:+ s]) "/".
Proof. destruct l as [|a l]; [done|]. rewrite !str_join_snoc by done. by rewrite !str_app_assoc. Qed.

Lemma build_snoc_app l n s : build (l ++ [n]) +:+ s = build (l ++ [n +:+ s]).
Proof. unfold build. by rewrite str_app_assoc, join_snoc_app. Qed.

Lemma last_index_free s : str_free sep s -> last_index s sep = None.
Proof. induction s as [|c s IH]; [done|]. intros [Hc Hs]. cbn [last_index]. rewrite IH by done. by destruct (Ascii.eqb_spec c sep) as [->|]. Qed.

Lemma last_index_sep a n : str_free sep n -> last_index (a +:+ String sep n) sep = Some (String.length a).
Proof.
  intros Hn. induction a as [|c a IH].
  - change ("" +:+ String sep n) with (String sep n). cbn [last_index]. by rewrite last_index_free.
  - rewrite str_app_cons. cbn [last_index String.length]. by rewrite IH.
Qed.

Lemma clean_build l : Forall plainName l -> Clean (build l) = build l.
Proof. intros H. unfold Clean. change (IsAbs (build l)) with true. cbv iota. unfold build. by rewrite cleanComps_build. Qed.

Lemma clean_build_slash l : l <> [] -> Forall plainName l -> Clean (build l +:+ "/") = build l.
Proof.
  intros Hne Hl. unfold Clean. change (IsAbs (build l +:+ "/")) with true. cbv iota. unfold build at 2. do 2 f_equal.
  unfold cleanComps. change (IsAbs (build l +:+ "/")) with true.
  assert (build l +:+ "/" = str_join ("" :: l ++ [""]) "/") as ->.
  { rewrite str_join_cons by by destruct l. rewrite str_join_snoc by done. unfold build. by rewrite str_app_assoc. }
  change "/" with (String sep "") at 2. rewrite split_join; [|done|].
  - cbn [fold_left]. change (pushComp true [] "") with (@nil string). rewrite fold_left_app, (fold_plain l) by done.
    cbn [fold_left]. rewrite app_nil_r. change (pushComp true (rev l) "") with (rev l). by rewrite rev_involutive.
  - constructor; [done|]. apply Forall_app. split; [|by constructor]. eapply Forall_impl; [exact Hl|]. by intros x (_ & _ & _ & ?).
Qed.

Lemma dir_build l n : Forall plainName l -> plainName n -> Dir (build (l ++ [n])) = build l.
Proof.
  intros Hl (_ & _ & _ & Hn). destruct (decide (l = [])) as [->|Hne].
  { change (build ([] ++ [n])) with ("" +:+ String sep n). unfold Dir. by rewrite last_index_sep. }
  unfold Dir, build at 1 2. rewrite str_join_snoc by done.
  replace ("/" +:+ str_join l "/" +:+ "/" +:+ n) with (build l +:+ String sep n) by (unfold build; by rewrite !str_app_assoc).
  rewrite last_index_sep by done.
  replace (build l +:+ String sep n) with ((build l +:+ "/") +:+ n) by by rewrite str_app_assoc.
  replace (S (String.length (build l))) with (String.length (build l +:+ "/")) by (rewrite str_length_app; cbn; lia).
  rewrite strtake_app. by apply clean_build_slash.
Qed.

Lemma ancestors_build l : Forall plainName l -> ancestors (build l) = (fun k => build (take (S k) l)) <$> seq 0 (length l).
Proof. intros H. unfold ancestors. unfold build at 1 2. by rewrite cleanComps_build. Qed.

Lemma not_ancestor l n : Forall plainName (l ++ [n]) -> build (l ++ [n]) ∉ ancestors (build l).
Proof.
  intros H. pose proof H as [Hl _]%Forall_app. rewrite ancestors_build by done. intros (k & E & Hk)%list_elem_of_fmap.
  apply build_inj in E; [|done|by apply Forall_take]. apply (f_equal length) in E.
  rewrite length_app, length_take in E. cbn [length] in E. lia.
Qed.

(** Where the service keeps a file that it accepts: the components of its directory, and
    its name. *)
Definition hostDirs (inContainer : bool) : list string := if inContainer then ["mnt"; "host"] else [].

Lemma plain_const n : str_free sep n -> n <> "" -> n <> "." -> n <> ".." -> plainName n.
Proof. by repeat split. Qed.

Lemma hostDirs_plain b : Forall plainName (hostDirs b).
Proof. destruct b; [|constructor]. repeat constructor; done. Qed.

Lemma translated_path b p :
  validatePath p = Ok tt ->
  exists dir l n, dir ∈ allowedDirs /\ Forall plainName ((hostDirs b ++ dir ++ l) ++ [n]) /\
    translatePathForContainer b p = build ((hostDirs b ++ dir ++ l) ++ [n]).
Proof.
  intros (dir & l & Hd & Hne & Hp & Hc)%validated_path.
  destruct (exists_last Hne) as (l' & n & ->). exists dir, l', n. split; [done|].
  assert (Forall plainName (hostDirs b ++ dir ++ l' ++ [n])) as Hall by (apply Forall_app; split; [apply hostDirs_plain|done]).
  rewrite <- !app_assoc. split; [done|]. unfold translatePathForContainer. rewrite Hc. destruct b; [|done].
  unfold hostDirs, build, hostRoot. cbn [app]. rewrite !str_join_cons by (destruct dir; [|done]; by destruct l').
  done.
Qed.

(** * What the calls change *)

Abbreviation FS := (gmap string FNode).

(** Only paths of [X] differ. *)
Definition only (X : list string) (fs fs' : FS) : Prop := forall q, q ∉ X -> fs' !! q = fs !! q.

(** An action that changes only paths of [X]. *)
Definition keeps {A} (X : list string) (m : IO A) : Prop := forall w, only X (files w) (files (m w).2).

Lemma io_keeps_ret {A} X (a : A) : keeps X (mret a).
Proof. by intros w q _. Qed.

Lemma io_keeps_bind {A B} X (m : IO A) (f : A -> IO B) : keeps X m -> (forall a, keeps X (f a)) -> keeps X (m ≫= f).
Proof.
  intros Hm Hf w q Hq. unfold mbind, IO_bind. pose proof (Hm w q Hq) as H. destruct (m w) as [a w1]. cbn in H.
  rewrite <- H. by apply Hf.
Qed.

Lemma keeps_weaken {A} X Y (m : IO A) : X ⊆ Y -> keeps X m -> keeps Y m.
Proof. intros HXY Hm w q Hq. apply Hm. set_solver. Qed.

Section Calls.
Variable fails : nat -> bool.
Variable torn : nat -> nat.

Lemma keeps_syscall X bad act :
  (forall n fs, only X fs (bad n fs)) -> (forall fs fs', act fs = Some fs' -> only X fs fs') -> keeps X (syscall fails bad act).
Proof.
  intros Hb Ha w. unfold syscall. destruct (fails (tick w)); [apply Hb|]. destruct (act (files w)) eqn:E; [by apply Ha|by intros q _].
Qed.

Lemma only_insert p n fs : only [p] fs (<[p := n]> fs).
Proof. intros q Hq. by rewrite lookup_insert_ne by set_solver. Qed.

Lemma only_delete p fs : only [p] fs (delete p fs).
Proof. intros q Hq. by rewrite lookup_delete_ne by set_solver. Qed.

Lemma only_append p d fs : only [p] fs (appendTo p d fs).
Proof. unfold appendTo. destruct (fs !! p) as [[]|]; [apply only_insert|done..]. Qed.

Lemma only_same X fs : only X fs fs.
Proof. by intros q _. Qed.

Hint Resolve only_insert only_delete only_append only_same : gnmi.

Ltac keep_call := apply keeps_syscall; [intros n fs; unfold same; auto with gnmi|intros fs fs' H; repeat case_match; simplify_eq; auto with gnmi].

Lemma keeps_create p : keeps [p] (createFile fails p).
Proof. keep_call. Qed.
Lemma keeps_write p d : keeps [p] (writeFile fails torn p d).
Proof. keep_call. Qed.
Lemma keeps_close X : keeps X (closeFile fails).
Proof. keep_call. Qed.
Lemma keeps_chmod p m : keeps [p] (Chmod fails p m).
Proof. keep_call. Qed.
Lemma keeps_remove p : keeps [p] (Remove fails p).
Proof. keep_call. Qed.
Lemma keeps_exists X p : keeps X (exists_ fails p).
Proof. keep_call. Qed.

Lemma keeps_rename src dst : keeps [src; dst] (Rename fails src dst).
Proof.
  apply keeps_syscall; [intros n fs; apply only_same|]. intros fs fs' H. repeat case_match; simplify_eq; intros q Hq;
    rewrite lookup_insert_ne, lookup_delete_ne by set_solver; done.
Qed.

Variable inContainer : bool.
Variable md5 : string -> string.

Lemma keeps_loop p acc stream : keeps [p] (putLoop fails torn md5 p acc stream).
Proof.
  revert acc. induction stream as [|[[f m|d|h|]| | |] stream IH]; intros acc; try apply io_keeps_ret.
  cbn [putLoop]. apply io_keeps_bind; [apply keeps_write|]. intros []; [apply IH|apply io_keeps_ret].
Qed.

Lemma keeps_cleanup p : keeps [p] (putCleanup fails p).
Proof.
  apply io_keeps_bind; [apply keeps_close|]. intros _. apply io_keeps_bind; [apply keeps_exists|]. intros []; [|apply io_keeps_ret].
  apply io_keeps_bind; [apply keeps_remove|]. intros _. apply io_keeps_ret.
Qed.

(** Directories are only added, at the given paths. *)
Definition madeDirs (A : list string) (fs fs' : FS) : Prop :=
  forall q, fs' !! q = fs !! q \/ (q ∈ A /\ fs !! q = None /\ fs' !! q = Some Directory).

Lemma madeDirs_trans A B fs1 fs2 fs3 : madeDirs A fs1 fs2 -> madeDirs B fs2 fs3 -> madeDirs (A ++ B) fs1 fs3.
Proof using Type.
  intros H1 H2 q. destruct (H1 q) as [E1|(Hq & E0 & E1)], (H2 q) as [E2|(Hq' & E0' & E2)].
  - left. congruence.
  - right. split_and!; [apply elem_of_app; by right|congruence|done].
  - right. split_and!; [apply elem_of_app; by left|done|congruence].
  - congruence.
Qed.

Lemma mkdir_made p w : madeDirs [p] (files w) (files (mkdir fails p w).2).
Proof using Type.
  intros q. unfold mkdir, syscall. destruct (fails (tick w)); [by left|].
  destruct (files w !! p) as [[]|] eqn:E; cbn; [by left..|]. destruct (decide (q = p)) as [->|Hne].
  - right. rewrite lookup_insert. case_decide; [|done]. split_and!; [by left|done|done].
  - left. by rewrite lookup_insert_ne by done.
Qed.

Lemma mkdirs_made l w : madeDirs l (files w) (files (mkdirs fails l w).2).
Proof using Type.
  revert w. induction l as [|p l IH]; intros w; [by left|]. cbn [mkdirs]. unfold mbind, IO_bind.
  pose proof (mkdir_made p w) as H. destruct (mkdir fails p w) as [[] w1]; cbn [snd] in *.
  - by apply (madeDirs_trans [p] l _ (files w1)).
  - intros q. destruct (H q) as [?|(->%list_elem_of_singleton & ? & ?)]; [by left|right]. split_and!; [by left|done..].
Qed.

(** * Put *)

(** The contents that a stream carries up to its hash, and the hash. *)
Fixpoint payload (acc : string) (stream : list PutEvent) : option (string * string) :=
  match stream with
  | PutMsg (PutContents d) :: stream => payload (acc +:+ d) stream
  | PutMsg (PutHash h) :: _ => Some (acc, h)
  | _ => None
  end.

Lemma appendTo_lookup p d fs data perm : fs !! p = Some (Reg data perm) -> appendTo p d fs !! p = Some (Reg (data +:+ d) perm).
Proof. intros E. unfold appendTo. rewrite E. apply lookup_insert_eq. Qed.

Lemma putLoop_done p perm acc stream w w' :
  files w !! p = Some (Reg acc perm) -> putLoop fails torn md5 p acc stream w = (None, w') ->
  exists data, payload acc stream = Some (data, md5 data) /\ files w' !! p = Some (Reg data perm).
Proof.
  revert acc w. induction stream as [|[[f m|d|h|]| | |] stream IH]; intros acc w Hp H; try (cbn in H; by simplify_eq).
  - cbn [putLoop] in H. unfold mbind, IO_bind, writeFile, syscall in H. destruct (fails (tick w)); [done|].
    cbn [negb] in H. apply IH in H; [done|]. by apply appendTo_lookup.
  - cbn [putLoop] in H. destruct (String.eqb_spec (md5 acc) h) as [<-|]; cbn [negb] in H; [|done]. injection H as <-. by exists acc.
Qed.

(** The upload has replaced the file at [target]. *)
Definition installed (stream : list PutEvent) (mode : N) (target : string) (fs : FS) : Prop :=
  exists data, payload "" stream = Some (data, md5 data) /\ fs !! target = Some (Reg data (syscallMode mode)).

Lemma putBody_outcome p target mode perm stream sendOk w r w' :
  p <> target -> files w !! p = Some (Reg "" perm) ->
  putBody fails torn md5 p target mode stream sendOk w = (r, w') ->
  only [p; target] (files w) (files w') /\
  ((files w' !! target = files w !! target /\ r <> None) \/ (installed stream mode target (files w') /\ files w' !! p = None)).
Proof.
  intros Hne Hp. unfold putBody, mbind, IO_bind.
  pose proof (keeps_loop p "" stream w) as Hk. destruct (putLoop fails torn md5 p "" stream w) as [[e|] w1] eqn:El; cbn [snd] in Hk.
  { intros [= <- <-]. split; [intros q Hq; apply Hk; set_solver|]. left. split; [apply Hk; set_solver|done]. }
  destruct (putLoop_done _ _ _ _ _ _ Hp El) as (data & Hpl & Hd).
  assert (files w1 !! target = files w !! target) as Ht by (apply Hk; set_solver).
  assert (only [p; target] (files w) (files w1)) as Ho by (intros q Hq; apply Hk; set_solver).
  unfold closeFile, Chmod, Rename, syscall. destruct (fails (tick w1)); cbn [negb]; [intros [= <- <-]; split; [done|left; by split]|].
  cbn [files tick]. destruct (fails (S (tick w1))); cbn [negb]; [intros [= <- <-]; split; [done|left; by split]|].
  rewrite Hd. cbn [files tick negb]. rewrite lookup_insert_eq, lookup_insert_ne by done.
  set (fs2 := <[p := Reg data (syscallMode mode)]> (files w1)).
  assert (only [p; target] (files w) fs2 /\ fs2 !! target = files w !! target) as [Ho2 Ht2].
  { split; [intros q Hq; unfold fs2; rewrite lookup_insert_ne by set_solver; by apply Ho|unfold fs2; by rewrite lookup_insert_ne]. }
  destruct (fails (S (S (tick w1)))); cbn [negb]; [intros [= <- <-]; split; [done|left; by split]|].
  assert (forall n, only [p; target] (files w) (<[target := n]> (delete p fs2))) as Ho3.
  { intros n q Hq. rewrite lookup_insert_ne, lookup_delete_ne by set_solver. by apply Ho2. }
  assert (installed stream mode target (<[target := Reg data (syscallMode mode)]> (delete p fs2)) /\
          <[target := Reg data (syscallMode mode)]> (delete p fs2) !! p = None) as Hi.
  { split; [exists data; by rewrite lookup_insert_eq|by rewrite lookup_insert_ne, lookup_delete_eq by done]. }
  destruct (files w1 !! target) as [[]|]; cbn [negb]; intros [= <- <-]; cbn [files];
    (split; [done|]); [by right|left; by split|by right].
Qed.

Lemma createFile_ok p w w' : createFile fails p w = (true, w') -> exists perm, files w' !! p = Some (Reg "" perm).
Proof.
  unfold createFile, syscall. destruct (fails (tick w)); [done|]. destruct (files w !! p) as [[]|]; intros [= <-];
    cbn [files]; eexists; apply lookup_insert_eq.
Qed.

Definition putMode (permissions : N) : N := if (permissions =? 0)%N then 420%N else permissions.

(** What an upload to [path] may do to the file system: everything but the file itself and
    its temporary file stays, apart from new directories above it; the file is as before
    or holds exactly the verified contents. *)
Definition putOutcome (path : string) (permissions : N) (stream : list PutEvent) (r : option Code) (fs fs' : FS) : Prop :=
  let target := translatePathForContainer inContainer path in
  (forall q, q <> target -> q <> target +:+ ".tmp" -> fs' !! q = fs !! q \/ (fs !! q = None /\ fs' !! q = Some Directory)) /\
  ((fs' !! target = fs !! target /\ r <> None) \/ installed stream (putMode permissions) target fs').

(** The file and its temporary file are apart, and neither is a directory above them. *)
Lemma put_paths path :
  validatePath path = Ok tt ->
  let target := translatePathForContainer inContainer path in
  let temp := target +:+ ".tmp" in
  temp <> target /\ (target ∉ ancestors (Dir temp)) /\ (temp ∉ ancestors (Dir temp)).
Proof.
  intros Hv. destruct (translated_path inContainer path Hv) as (dir & l & n & Hdir & Hplain & Ht). cbv zeta. rewrite Ht.
  set (L := hostDirs inContainer ++ dir ++ l) in *.
  pose proof Hplain as [HLp [Hn _]%Forall_cons]%Forall_app.
  assert (plainName (n +:+ ".tmp")) as Hn'.
  { destruct Hn as (_ & _ & _ & Hf). split_and!;
      try (intros E; apply (f_equal String.length) in E; rewrite str_length_app in E; cbn in E; lia).
    apply str_free_app. split; [done|]. by repeat split. }
  split; [intros E; apply (f_equal String.length) in E; rewrite str_length_app in E; cbn in E; lia|].
  rewrite build_snoc_app, dir_build by done. split; apply not_ancestor; [done|]. apply Forall_app. split; [done|]. by constructor.
Qed.

Lemma put_opened path permissions stream sendOk w r w' :
  validatePath path = Ok tt -> path <> "" ->
  HandlePut fails torn inContainer md5 (PutMsg (PutOpen path permissions) :: stream) sendOk w = (r, w') ->
  putOutcome path permissions stream r (files w) (files w').
Proof.
  intros Hv Hp H. unfold putOutcome. destruct (put_paths path Hv) as (Hne & Hna & _). cbv zeta.
  set (target := translatePathForContainer inContainer path) in *.
  cbn [HandlePut] in H. rewrite (proj2 (String.eqb_neq _ _) Hp), Hv in H. fold target in H. fold (putMode permissions) in H.
  unfold mbind, IO_bind, MkdirAll in H.
  pose proof (mkdirs_made (ancestors (Dir (target +:+ ".tmp"))) w) as Hm.
  destruct (mkdirs fails (ancestors (Dir (target +:+ ".tmp"))) w) as [ok1 w1]. cbn [snd] in Hm.
  assert (files w1 !! target = files w !! target) as Ht1 by (destruct (Hm target) as [|[]]; done).
  assert (forall fs', only [target +:+ ".tmp"; target] (files w1) fs' -> forall q, q <> target -> q <> target +:+ ".tmp" ->
    fs' !! q = files w !! q \/ (files w !! q = None /\ fs' !! q = Some Directory)) as Hframe.
  { intros fs' Hf q Hq1 Hq2. rewrite (Hf q) by set_solver. destruct (Hm q) as [|(_ & ? & ?)]; auto. }
  destruct ok1; cbn [negb] in H; [|injection H as <- <-; split; [apply Hframe, only_same|by left]].
  pose proof (keeps_create (target +:+ ".tmp") w1) as Hc. destruct (createFile fails (target +:+ ".tmp") w1) as [ok2 w2] eqn:Ec. cbn [snd] in Hc.
  assert (files w2 !! target = files w !! target) as Ht2 by (rewrite <- Ht1; apply Hc; set_solver).
  destruct ok2; cbn [negb] in H; [|injection H as <- <-; split; [apply Hframe; intros q Hq; apply Hc; set_solver|by left]].
  apply createFile_ok in Ec as [perm Ec].
  destruct (putBody fails torn md5 (target +:+ ".tmp") target (putMode permissions) stream sendOk w2) as [r3 w3] eqn:Eb.
  apply (putBody_outcome _ _ _ perm) in Eb as [Ho Hr]; [|done..].
  pose proof (keeps_cleanup (target +:+ ".tmp") w3) as Hk. destruct (putCleanup fails (target +:+ ".tmp") w3) as [u w4]. cbn [snd] in Hk.
  injection H as <- <-. assert (files w4 !! target = files w3 !! target) as Ht4 by (apply Hk; set_solver). split.
  - apply Hframe. intros q Hq. rewrite (Hk q), (Ho q) by set_solver. apply Hc. set_solver.
  - destruct Hr as [[Hr1 Hr2]|[(data & Hd1 & Hd2) _]]; [left; split; [by rewrite Ht4, Hr1|done]|right]. exists data. split; [done|by rewrite Ht4].
Qed.

Lemma put_outcome stream sendOk w r w' :
  HandlePut fails torn inContainer md5 stream sendOk w = (r, w') ->
  (w' = w /\ r <> None) \/
  exists path permissions stream', stream = PutMsg (PutOpen path permissions) :: stream' /\ validatePath path = Ok tt /\
    putOutcome path permissions stream' r (files w) (files w').
Proof.
  intros H. destruct stream as [|[[path m|d|h|]| | |] stream]; try (injection H as <- <-; by left).
  destruct (decide (path = "")) as [->|Hne]; [injection H as <- <-; by left|].
  destruct (validatePath path) as [[]|e] eqn:Ev.
  - right. exists path, m, stream. split_and!; [done..|]. by eapply put_opened.
  - left. cbn [HandlePut] in H. rewrite (proj2 (String.eqb_neq _ _) Hne), Ev in H. injection H as <- <-. by split.
Qed.

(** C15. An upload is all or nothing, whatever system calls fail and wherever the stream
    ends: a request for a path outside the allowed directories changes nothing; otherwise
    the file either stays as it was, or holds exactly the contents that were sent, with
    the hash that was sent and the mode that was asked for; success means the latter.  No
    other file changes but the temporary one beside it. *)
Theorem put_atomic stream sendOk w r w' :
  HandlePut fails torn inContainer md5 stream sendOk w = (r, w') ->
  (w' = w /\ r <> None) \/
  exists path permissions stream', stream = PutMsg (PutOpen path permissions) :: stream' /\ validatePath path = Ok tt /\
    putOutcome path permissions stream' r (files w) (files w').
Proof. apply put_outcome. Qed.

(** ** Without failures *)

Hypothesis healthy : forall n, fails n = false.

Lemma mkdir_ok p w : (forall d m, files w !! p <> Some (Reg d m)) -> (mkdir fails p w).1 = true.
Proof using healthy.
  intros H. unfold mkdir, syscall. rewrite healthy. destruct (files w !! p) as [[d m|]|] eqn:E; [by destruct (H d m)|done..].
Qed.

Lemma mkdirs_ok l w : (forall q d m, q ∈ l -> files w !! q <> Some (Reg d m)) -> (mkdirs fails l w).1 = true.
Proof using healthy.
  revert w. induction l as [|p l IH]; intros w Hl; [done|]. cbn [mkdirs]. unfold mbind, IO_bind.
  assert ((mkdir fails p w).1 = true) as E by (apply mkdir_ok; intros d m; apply Hl; left).
  pose proof (mkdir_made p w) as Hm. destruct (mkdir fails p w) as [ok w1]. cbn in E. subst ok. apply IH.
  intros q d m Hq. cbn [snd] in Hm. destruct (Hm q) as [-> |(_ & _ & ->)]; [apply Hl; by right|done].
Qed.

Lemma putLoop_ok p acc stream data w :
  payload acc stream = Some (data, md5 data) -> (putLoop fails torn md5 p acc stream w).1 = None.
Proof.
  revert acc w. induction stream as [|[[f m|d|h|]| | |] stream IH]; intros acc w H; try discriminate H.
  - cbn [putLoop]. unfold mbind, IO_bind, writeFile, syscall. rewrite healthy. by apply IH.
  - cbn [payload] in H. injection H as -> ->. cbn [putLoop]. by rewrite String.eqb_refl.
Qed.

Lemma putBody_ok p target mode perm stream data w :
  p <> target -> files w !! p = Some (Reg "" perm) -> files w !! target <> Some Directory ->
  payload "" stream = Some (data, md5 data) -> (putBody fails torn md5 p target mode stream true w).1 = None.
Proof.
  intros Hne Hp Ht Hd. unfold putBody, mbind, IO_bind. pose proof (putLoop_ok p "" stream data w Hd) as Hl.
  pose proof (keeps_loop p "" stream w target) as Hk.
  destruct (putLoop fails torn md5 p "" stream w) as [e w1] eqn:El. cbn in Hl. subst e.
  destruct (putLoop_done _ _ _ _ _ _ Hp El) as (data' & _ & Hf). cbn [snd] in Hk.
  unfold closeFile, Chmod, Rename, syscall. rewrite !healthy. cbn [negb files tick]. rewrite healthy, Hf. cbn [negb files tick].
  rewrite healthy, lookup_insert_eq, lookup_insert_ne, Hk by (done || set_solver).
  destruct (files w !! target) as [[]|]; done.
Qed.

(** An upload succeeds when nothing fails and nothing is in the way: no file where a
    directory above it should be, no directory in its place.  Then the file holds the
    contents, and the temporary file is gone. *)
Lemma put_installs_ok path permissions stream data w :
  validatePath path = Ok tt -> path <> "" -> payload "" stream = Some (data, md5 data) ->
  let target := translatePathForContainer inContainer path in
  (forall q d m, q ∈ ancestors (Dir (target +:+ ".tmp")) -> files w !! q <> Some (Reg d m)) ->
  files w !! target <> Some Directory -> files w !! (target +:+ ".tmp") <> Some Directory ->
  exists w', HandlePut fails torn inContainer md5 (PutMsg (PutOpen path permissions) :: stream) true w = (None, w') /\
    files w' !! target = Some (Reg data (syscallMode (putMode permissions))) /\ files w' !! (target +:+ ".tmp") = None.
Proof.
  intros Hv Hp Hd target Hanc Htd Htt. destruct (put_paths path Hv) as (Hne & Hna & Hna'). fold target in Hne, Hna, Hna'.
  cbn [HandlePut]. rewrite (proj2 (String.eqb_neq _ _) Hp), Hv. fold target. fold (putMode permissions).
  unfold mbind, IO_bind, MkdirAll.
  pose proof (mkdirs_ok _ w Hanc) as Hok. pose proof (mkdirs_made (ancestors (Dir (target +:+ ".tmp"))) w) as Hm.
  destruct (mkdirs fails (ancestors (Dir (target +:+ ".tmp"))) w) as [ok1 w1]. cbn in Hok. subst ok1. cbn [snd negb] in *.
  assert (files w1 !! target <> Some Directory) as Ht1 by (destruct (Hm target) as [->|[]]; done).
  assert (files w1 !! (target +:+ ".tmp") <> Some Directory) as Ht1' by (destruct (Hm (target +:+ ".tmp")) as [->|[]]; done).
  pose proof (keeps_create (target +:+ ".tmp") w1 target) as Hc.
  destruct (createFile fails (target +:+ ".tmp") w1) as [ok2 w2] eqn:Ec. cbn [snd] in Hc.
  assert (ok2 = true) as ->.
  { unfold createFile, syscall in Ec. rewrite healthy in Ec. destruct (files w1 !! (target +:+ ".tmp")) as [[]|]; by injection Ec. }
  cbn [negb]. apply createFile_ok in Ec as [perm Ec].
  assert (files w2 !! target <> Some Directory) as Ht2 by (rewrite Hc by set_solver; done).
  pose proof (putBody_ok _ target (putMode permissions) _ _ _ _ Hne Ec Ht2 Hd) as Hb.
  destruct (putBody fails torn md5 (target +:+ ".tmp") target (putMode permissions) stream true w2) as [r w3] eqn:Eb. cbn in Hb. subst r.
  destruct (putBody_outcome _ _ _ perm _ _ _ _ _ Hne Ec Eb) as [_ [[_ ?]|[(data' & Hd' & Hi) Hg]]]; [done|].
  rewrite Hd in Hd'. injection Hd' as <-.
  assert (putCleanup fails (target +:+ ".tmp") w3 = (tt, mkFW (files w3) (S (S (tick w3))))) as ->.
  { unfold putCleanup, mbind, IO_bind, closeFile, exists_, syscall. rewrite healthy. cbn [files tick]. by rewrite healthy, Hg. }
  eexists. split; [reflexivity|]. done.
Qed.

End Calls.

(** * Transfers to a DPU *)

Lemma slen_app a b : slen (a +:+ b) = (slen a + slen b)%Z.
Proof. unfold slen. rewrite str_length_app. lia. Qed.

Lemma slen_nonneg a : (0 <= slen a)%Z.
Proof. unfold slen. lia. Qed.

Lemma slen_zero a : (0 <? slen a)%Z = false -> a = "".
Proof. intros H%Z.ltb_ge. destruct a; [done|]. unfold slen in H. cbn [String.length] in H. lia. Qed.

Lemma strtake_length n s : String.length (strtake n s) = Nat.min n (String.length s).
Proof. revert s. induction n as [|n IH]; intros [|c s]; [done..|]. cbn. by rewrite IH. Qed.

Lemma strtake_all n s : String.length s <= n -> strtake n s = s.
Proof. revert s. induction n as [|n IH]; intros [|c s] H; cbn in *; [done|lia|done|]. f_equal. apply IH. lia. Qed.

(** The bytes of the reads up to the end of the stream. *)
Fixpoint bodyOf (reads : list (string * ReadEnd)) : option string :=
  match reads with
  | [] => None
  | (d, AtEOF) :: _ => Some d
  | (d, NoEnd) :: reads => s ← bodyOf reads; Some (d +:+ s)
  | (_, ReadFailed) :: _ => None
  end.

Section Transfer.
Variable md5 : string -> string.
Variable maxFileSize : Z.
Hypothesis limit : (0 < maxFileSize)%Z.

(** A read that the limit lets pass is a read of the stream. *)
Lemma limitedRead_passes count d e d' e' count' :
  (0 <= count)%Z -> limitedRead maxFileSize count (d, e) = (d', e', count') -> e' <> ReadFailed ->
  d' = d /\ e' = e /\ count' = (count + slen d)%Z /\ (count' <= maxFileSize)%Z.
Proof.
  intros Hc. unfold limitedRead. rewrite (proj2 (Z.ltb_lt _ _) limit). intros [= <- <- <-] He.
  destruct (Z.ltb_spec maxFileSize (count + slen (strtake (Z.to_nat (maxFileSize + 1 - count)) d))) as [|Hle]; [done|].
  assert (strtake (Z.to_nat (maxFileSize + 1 - count)) d = d) as E.
  { apply strtake_all. unfold slen in Hle. rewrite strtake_length in Hle. lia. }
  rewrite E in *. done.
Qed.

Lemma dpuLoop_ok sendOk k count acc reads h k' sent :
  (0 <= count)%Z -> dpuLoop md5 maxFileSize sendOk k count acc reads = (Ok (h, k'), sent) ->
  exists data, bodyOf reads = Some data /\ h = md5 (acc +:+ data) /\ (count + slen data <= maxFileSize)%Z /\
    payload acc ((PutMsg <$> sent) ++ [PutMsg (PutHash h)]) = Some (acc +:+ data, h).
Proof.
  revert k count acc sent. induction reads as [|[d e] reads IH]; intros k count acc sent Hc H; [done|].
  cbn [dpuLoop] in H. destruct (limitedRead maxFileSize count (d, e)) as [[d' e'] count'] eqn:El.
  assert (e' <> ReadFailed) as He' by (intros ->; destruct (0 <? slen d')%Z, (sendOk k); done).
  apply limitedRead_passes in El as (-> & -> & -> & Hle); [|done..]. pose proof (slen_nonneg d).
  assert (forall s o rest, payload (acc +:+ d) rest = Some o ->
    ((if (0 <? slen d)%Z then if negb (sendOk k) then (Err Internal, []) else (Ok (h, k'), PutContents d :: s) else (Ok (h, k'), s)) : res Code (string * nat) * list PutRequest) = (Ok (h, k'), sent) ->
    rest = (PutMsg <$> s) ++ [PutMsg (PutHash h)] -> payload acc ((PutMsg <$> sent) ++ [PutMsg (PutHash h)]) = Some o) as Hpay.
  { intros s o rest Hp Hs ->. destruct (0 <? slen d)%Z eqn:Ez.
    - destruct (sendOk k); [|done]. injection Hs as <-. exact Hp.
    - apply slen_zero in Ez as ->. injection Hs as <-. by rewrite str_app_nil_r in Hp. }
  destruct e; [| |done].
  - destruct (dpuLoop md5 maxFileSize sendOk (if (0 <? slen d)%Z then S k else k) (count + slen d) (acc +:+ d) reads) as [o s] eqn:Er.
    assert (o = Ok (h, k')) as -> by (destruct (0 <? slen d)%Z, (sendOk k); by simplify_eq/=).
    apply IH in Er as (data & Hb & -> & Hl & Hp); [|lia]. exists (d +:+ data). rewrite str_app_assoc in *. cbn [bodyOf]. rewrite Hb.
    split_and!; [done..|rewrite slen_app; lia|]. by eapply Hpay.
  - exists d. assert (h = md5 (acc +:+ d)) as -> by (destruct (0 <? slen d)%Z, (sendOk k); by simplify_eq/=).
    split_and!; [done..|]. eapply (Hpay [] _ [PutMsg (PutHash _)]); [done| |done].
    destruct (0 <? slen d)%Z, (sendOk k); by simplify_eq/=.
Qed.

(** C27. A transfer to a DPU that reports a hash has put onto the DPU exactly the bytes
    that HTTP delivered, at an allowed path, with the reported hash, and no more of them
    than the limit, when the DPU runs the same service and whatever system calls fail
    there. *)
Theorem dpu_transfer_end_to_end fails torn inContainer w req dpuIndex http connOk putOk sendOk h msgs :
  let dpu msgs := HandlePut fails torn inContainer md5 (PutMsg <$> msgs) true w in
  HandleTransferToRemoteForDPUStreaming md5 maxFileSize req dpuIndex http connOk putOk sendOk (fun msgs => (dpu msgs).1) = (Ok h, msgs) ->
  exists r url status len reads data,
    req = Some r /\ http url = StreamOpen status len reads /\ (200 <= status < 300)%Z /\ bodyOf reads = Some data /\ h = md5 data /\ (slen data <= maxFileSize)%Z /\
    validatePath (local_path r) = Ok tt /\
    files (dpu msgs).2 !! translatePathForContainer inContainer (local_path r) = Some (Reg data 420).
Proof.
  intros dpu. unfold HandleTransferToRemoteForDPUStreaming. destruct req as [r|]; [|done].
  destruct (String.eqb dpuIndex ""); [done|]. destruct (remote_download r) as [[[] url]|]; [|destruct (String.eqb (local_path r) ""); done|done].
  destruct (String.eqb (local_path r) ""); [done|]. destruct (String.eqb url ""); [done|].
  destruct (DownloadHTTPStreaming maxFileSize (http url)) as [reads|] eqn:Ed'; [|done].
  assert (exists status len, http url = StreamOpen status len reads /\ (200 <= status < 300)%Z) as (status & len & Eh & Hst).
  { unfold DownloadHTTPStreaming in Ed'. destruct (http url) as [|status len rs]; [done|]. exists status, len.
    destruct (Z.ltb_spec status 200), (Z.leb_spec 300 status); try done. cbn [orb] in Ed'.
    destruct ((0 <? maxFileSize)%Z && (maxFileSize <? len)%Z); [done|]. by injection Ed' as ->. }
  destruct (negb connOk || negb putOk || negb (sendOk 0)); [done|].
  destruct (dpuLoop md5 maxFileSize sendOk 1 0 "" reads) as [[[h' k]|e] sent] eqn:El; [|done].
  destruct (negb (sendOk k)); [done|]. apply dpuLoop_ok in El as (data & Hb & -> & Hl & Hp); [|done].
  destruct (dpu _).1 eqn:Ed; [done|]. intros [= <- <-].
  set (msgs := PutOpen (local_path r) 420 :: sent ++ [PutHash (md5 ("" +:+ data))]) in *.
  destruct (dpu msgs) as [o w'] eqn:Edpu. cbn in Ed. subst o.
  destruct (put_outcome _ _ _ _ _ _ _ _ _ Edpu) as [[_ ?]|(path & m & stream & Es & Hv & _ & Hi)]; [done|].
  unfold msgs in Es. rewrite fmap_cons, fmap_app in Es. injection Es as <- <- <-.
  destruct Hi as [[_ ?]|(data' & Hd' & Hf)]; [done|]. cbn [fmap list_fmap] in Hd'. rewrite Hp in Hd'. injection Hd' as <- _.
  exists r, url, status, len, reads, data. change ("" +:+ data) with data in *. split_and!; [done|done|apply Hst|apply Hst|done|done|lia|done|exact Hf].
Qed.
End Transfer.

(** * Get *)

(** The bytes of a file that is read to its end. *)
Fixpoint fileBody (reads : list (string * ReadEnd)) : string :=
  match reads with
  | (d, NoEnd) :: reads => d +:+ fileBody reads
  | (d, _) :: _ => d
  | [] => ""
  end.

(** A message of a download as one of an upload. *)
Definition toPut (m : GetResponse) : PutEvent :=
  PutMsg match m with GetContents d => PutContents d | GetHash h => PutHash h end.

Section Get.
Variable inContainer : bool.
Variable md5 : string -> string.
Variable maxFileSize : Z.
Variable fsStat : string -> res StatErr FileInfo.

Lemma getLoop_ok ctxErr sendOk i k acc reads h k' sent :
  getLoop md5 ctxErr sendOk i k acc reads = (Ok (h, k'), sent) ->
  h = md5 (acc +:+ fileBody reads) /\ payload acc ((toPut <$> sent) ++ [PutMsg (PutHash h)]) = Some (acc +:+ fileBody reads, h).
Proof.
  revert i k acc sent. induction reads as [|[d e] reads IH]; intros i k acc sent H; cbn [getLoop] in H; destruct (ctxErr i); try done.
  - injection H as <- _ <-. cbn. by rewrite str_app_nil_r.
  - assert (forall s o, payload (acc +:+ d) ((toPut <$> s) ++ [PutMsg (PutHash h)]) = Some o ->
      ((if (0 <? slen d)%Z then if negb (sendOk k) then (Err Internal, []) else (Ok (h, k'), GetContents d :: s) else (Ok (h, k'), s)) : res Code (string * nat) * list GetResponse) = (Ok (h, k'), sent) ->
      payload acc ((toPut <$> sent) ++ [PutMsg (PutHash h)]) = Some o) as Hpay.
    { intros s o Hp Hs. destruct (0 <? slen d)%Z eqn:Ez.
      - destruct (sendOk k); [|done]. injection Hs as <-. exact Hp.
      - apply slen_zero in Ez as ->. injection Hs as <-. by rewrite str_app_nil_r in Hp. }
    destruct e.
    + destruct (getLoop md5 ctxErr sendOk (S i) (if (0 <? slen d)%Z then S k else k) (acc +:+ d) reads) as [o s] eqn:Er.
      assert (o = Ok (h, k')) as -> by (destruct (0 <? slen d)%Z, (sendOk k); by simplify_eq/=).
      apply IH in Er as [-> Hp]. cbn [fileBody]. rewrite str_app_assoc in *. split; [done|]. by eapply Hpay.
    + cbn [fileBody]. assert (h = md5 (acc +:+ d)) as -> by (destruct (0 <? slen d)%Z, (sendOk k); by simplify_eq/=).
      split; [done|]. apply (Hpay []); [done|]. destruct (0 <? slen d)%Z, (sendOk k); by simplify_eq/=.
    + destruct (0 <? slen d)%Z, (sendOk k); by simplify_eq/=.
Qed.

Lemma get_payload req open ctxErr sendOk sent :
  HandleGet inContainer md5 maxFileSize fsStat req open ctxErr sendOk = (None, sent) ->
  exists path info reads, req = Some path /\ IsAbs path = true /\
    fsStat (translatePathForContainer inContainer (Clean path)) = Ok info /\ isRegular info = true /\ (size info <= maxFileSize)%Z /\
    open = Ok reads /\ payload "" (toPut <$> sent) = Some (fileBody reads, md5 (fileBody reads)).
Proof.
  unfold HandleGet. destruct req as [path|]; [|done]. destruct (String.eqb path ""); [done|].
  destruct (IsAbs path) eqn:Ea; [|done]. cbn [negb]. destruct (containerInternal (Clean path)); [done|].
  destruct (fsStat _) as [info|] eqn:Es; [|done]. destruct (isDir info); [done|]. destruct (isRegular info) eqn:Er; [|done]. cbn [negb].
  destruct (Z.ltb_spec maxFileSize (size info)) as [|Hsz]; [done|].
  destruct open as [reads|[]]; try done.
  destruct (getLoop md5 ctxErr sendOk 0 0 "" reads) as [[[h k]|] s] eqn:El; [|done]. destruct (negb (sendOk k)); [done|].
  intros [= <-]. apply getLoop_ok in El as [-> Hp]. exists path, info, reads. rewrite fmap_app. by split_and!.
Qed.

(** Copying a file between devices gives the same file: what a download sends for a
    regular file within the limit, uploaded to a device where nothing fails and nothing
    is in the way, is accepted and installs exactly the bytes that were read. *)
Theorem file_copy_roundtrip fails torn req open ctxErr sendOk sent reads dst permissions w :
  HandleGet inContainer md5 maxFileSize fsStat req open ctxErr sendOk = (None, sent) -> open = Ok reads ->
  (forall n, fails n = false) -> validatePath dst = Ok tt -> dst <> "" ->
  let target := translatePathForContainer inContainer dst in
  (forall q d m, q ∈ ancestors (Dir (target +:+ ".tmp")) -> files w !! q <> Some (Reg d m)) ->
  files w !! target <> Some Directory -> files w !! (target +:+ ".tmp") <> Some Directory ->
  exists w', HandlePut fails torn inContainer md5 (PutMsg (PutOpen dst permissions) :: (toPut <$> sent)) true w = (None, w') /\
    files w' !! target = Some (Reg (fileBody reads) (syscallMode (putMode permissions))).
Proof.
  intros (path & info & reads' & _ & _ & _ & _ & _ & -> & Hp)%get_payload [= ->] Hf Hv Hd target Hanc Ht Htt.
  destruct (put_installs_ok fails torn inContainer md5 Hf dst permissions _ _ w Hv Hd Hp Hanc Ht Htt) as (w' & H1 & H2 & _).
  by exists w'.
Qed.
End Get.

(** * Local transfers and removal *)

Section Local.
Variable fails : nat -> bool.
Variable torn : nat -> nat.
Variable inContainer : bool.
Variable md5 : string -> string.
Variable maxFileSize : Z.
Hypothesis limit : (0 < maxFileSize)%Z.

Lemma writeFile_ok p d w w' data perm :
  files w !! p = Some (Reg data perm) -> writeFile fails torn p d w = (true, w') -> files w' !! p = Some (Reg (data +:+ d) perm).
Proof.
  intros Hp. unfold writeFile, syscall. destruct (fails (tick w)); [done|]. intros [= <-]. by apply appendTo_lookup.
Qed.

Lemma download_ok http p w w' :
  DownloadHTTP fails torn http p maxFileSize w = (true, w') ->
  exists status len body perm, http = HttpResponse status len body false /\ (200 <= status < 300)%Z /\
    (slen body <= maxFileSize)%Z /\ files w' !! p = Some (Reg body perm).
Proof.
  unfold DownloadHTTP, mbind, IO_bind. destruct (MkdirAll fails (Dir p) w) as [[] w1]; [|done]. cbn [negb].
  destruct http as [|status len body breaks]; [done|].
  destruct (Z.ltb_spec status 200), (Z.leb_spec 300 status); try done. cbn [orb].
  destruct ((0 <? maxFileSize)%Z && (maxFileSize <? len)%Z); [done|].
  destruct (createFile fails p w1) as [[] w2] eqn:Ec; [|done]. cbn [negb]. apply createFile_ok in Ec as [perm Ec].
  destruct (writeFile fails torn p (limited maxFileSize body) w2) as [[] w3] eqn:Ew; cbn [negb orb];
    [|destruct (Remove fails p w3); done].
  apply (writeFile_ok _ _ _ _ _ _ Ec) in Ew. unfold limited in *. rewrite (proj2 (Z.ltb_lt _ _) limit) in *. cbn [andb].
  destruct (Z.leb_spec maxFileSize 0); [lia|]. cbn [orb].
  destruct (Z.leb_spec (slen body) maxFileSize) as [Hle|Hgt].
  - destruct breaks; cbn [andb]; [destruct (Remove fails p w3); done|].
    rewrite strtake_all in * by (unfold slen in *; lia).
    destruct (Z.ltb_spec maxFileSize (slen body)); [lia|]. intros [= <-]. exists status, len, body, perm. by split_and!.
  - rewrite andb_false_r. destruct (Z.ltb_spec maxFileSize (slen (strtake (Z.to_nat (maxFileSize + 1)) body))) as [|Hle];
      [destruct (Remove fails p w3); done|].
    unfold slen in *. rewrite strtake_length in Hle. lia.
Qed.

(** An answer the downloader keeps: a successful status and a body within the limit. *)
Definition acceptedAnswer (status : Z) (body : string) : Prop :=
  (200 <= status < 300)%Z /\ (slen body <= maxFileSize)%Z.

(** A local transfer that reports a hash has stored the whole body of a successful HTTP
    answer, no longer than the limit, at an allowed path; the hash is that of the stored
    file. *)
Theorem transfer_stores req http w h w' :
  handleTransferToRemoteLocal fails torn inContainer md5 maxFileSize req http w = (Ok h, w') ->
  exists r url status len body perm, req = Some r /\ remote_download r = Some (PROTO_HTTP, url) /\ validatePath (local_path r) = Ok tt /\
    http url = HttpResponse status len body false /\ acceptedAnswer status body /\
    files w' !! translatePathForContainer inContainer (local_path r) = Some (Reg body perm) /\ h = md5 body.
Proof.
  unfold handleTransferToRemoteLocal. destruct req as [r|]; [|done]. destruct (remote_download r) as [[[] url]|] eqn:Er; [| |done].
  2: { by destruct (String.eqb (local_path r) ""), (validatePath (local_path r)). }
  destruct (String.eqb (local_path r) ""); [done|]. destruct (validatePath (local_path r)) as [[]|] eqn:Ev; [|done].
  destruct (String.eqb url ""); [done|]. unfold mbind, IO_bind.
  set (p := translatePathForContainer inContainer (local_path r)).
  destruct (DownloadHTTP fails torn (http url) p maxFileSize w) as [[] w1] eqn:Ed; [|done]. cbn [negb].
  apply download_ok in Ed as (status & len & body & perm & Hh & [Hs1 Hs2] & Hl & Hf).
  unfold CalculateMD5, syscall. destruct (fails (tick w1)); [destruct (Remove fails p _); done|]. rewrite Hf.
  intros [= <- <-]. exists r, url, status, len, body, perm. unfold acceptedAnswer. by split_and!.
Qed.

(** A transfer overwrites its file before it knows whether it succeeds: after one that
    broke off, the old file is gone. *)
Theorem failed_transfer_loses_file path url body w old perm :
  (forall n, fails n = false) -> validatePath path = Ok tt -> path <> "" -> url <> "" -> (slen body <= maxFileSize)%Z ->
  let target := translatePathForContainer inContainer path in
  (forall q d m, q ∈ ancestors (Dir target) -> files w !! q <> Some (Reg d m)) ->
  files w !! target = Some (Reg old perm) -> target ∉ ancestors (Dir target) ->
  exists w', handleTransferToRemoteLocal fails torn inContainer md5 maxFileSize (Some (mkTransfer path (Some (PROTO_HTTP, url))))
      (fun _ => HttpResponse 200 (-1) body true) w = (Err Internal, w') /\ files w' !! target = None.
Proof.
  intros Hf Hv Hp Hu Hl target Hanc Ht Hna. unfold handleTransferToRemoteLocal. cbn [remote_download local_path].
  rewrite (proj2 (String.eqb_neq _ _) Hp), Hv, (proj2 (String.eqb_neq _ _) Hu). fold target.
  unfold mbind at 1, IO_bind at 1, DownloadHTTP, mbind, IO_bind, MkdirAll.
  pose proof (mkdirs_ok fails Hf _ w Hanc) as Hok. pose proof (mkdirs_made fails (ancestors (Dir target)) w target) as Hm.
  destruct (mkdirs fails (ancestors (Dir target)) w) as [ok w1]. cbn [fst snd] in *. subst ok. cbn [negb].
  destruct Hm as [Hm|(? & _)]; [|done]. rewrite Ht in Hm.
  change ((200 <? 200)%Z || (300 <=? 200)%Z) with false. rewrite (proj2 (Z.ltb_lt _ _) limit).
  destruct (Z.ltb_spec maxFileSize (-1)); [lia|]. cbn [andb].
  unfold createFile, syscall at 1. rewrite Hf, Hm. cbn [negb files tick].
  unfold writeFile, syscall at 1. rewrite Hf. cbn [negb orb files tick]. destruct (Z.leb_spec maxFileSize 0); [lia|].
  rewrite (proj2 (Z.leb_le _ _) Hl). cbn [orb andb].
  unfold Remove, syscall. rewrite Hf. cbn [files tick]. rewrite (appendTo_lookup _ _ _ "" perm) by apply lookup_insert_eq.
  eexists. split; [reflexivity|]. cbn [files]. apply lookup_delete_eq.
Qed.

(** Removal touches at most the file it names, which lies below an allowed directory. *)
Theorem remove_only_allowed req eperm w r w' q :
  HandleFileRemove fails inContainer req eperm w = (r, w') -> files w' !! q <> files w !! q ->
  r = None /\ exists path, req = Some path /\ validatePath path = Ok tt /\ q = translatePathForContainer inContainer path.
Proof.
  unfold HandleFileRemove. destruct req as [path|]; [|by intros [= <- <-]]. destruct (String.eqb path ""); [by intros [= <- <-]|].
  destruct (validatePath path) as [[]|] eqn:Ev; [|by intros [= <- <-]].
  set (p := translatePathForContainer inContainer path). pose proof (keeps_remove fails p w) as Hk.
  destruct (Remove fails p w) as [ok w1] eqn:Er. cbn [snd] in Hk. intros [= <- <-] Hq.
  destruct (decide (q = p)) as [->|Hne]; [|by rewrite Hk in Hq by set_solver].
  assert (ok = true) as ->.
  { unfold Remove, syscall, same in Er. repeat case_match; simplify_eq; done. }
  split; [done|]. by exists path.
Qed.
End Local.

(** * Modes *)

(** What [Stat] reports for a mode is its octal digits as a decimal number; [Put] takes the
    number as bits.  Giving back the reported permissions of a file never restores its
    mode, unless only others have permissions. *)
Theorem stat_mode_not_for_put mode :
  (mode < 512)%N -> (syscallMode (octalAsDecimal 3 mode) = mode <-> (mode < 8)%N).
Proof.
  intros H. assert (forallb (fun n => Bool.eqb (N.eqb (syscallMode (octalAsDecimal 3 (N.of_nat n))) (N.of_nat n)) (N.ltb (N.of_nat n) 8)) (seq 0 512) = true)
    as Hall by (vm_compute; reflexivity).
  rewrite forallb_forall in Hall. specialize (Hall (N.to_nat mode)). rewrite N2Nat.id in Hall.
  rewrite <- N.eqb_eq, <- N.ltb_lt. apply Bool.eqb_prop in Hall; [by rewrite Hall|]. apply in_seq. lia.
Qed.

(** The mode of an upload is not confined to permissions: bit 23 makes the file
    set-user-ID. *)
Example put_setuid : syscallMode (putMode (2 ^ 23 + 493)) = 2541%N.
Proof. reflexivity. Qed.

(** * Witnesses *)

Definition demo_md5 (s : string) : string := "md5:" +:+ s.
Definition demo_fw : FW := mkFW ∅ 0.
Definition demo_put : list PutEvent :=
  [PutMsg (PutOpen "/tmp/x/../image" 0); PutMsg (PutContents "ab"); PutMsg (PutContents "c"); PutMsg (PutHash "md5:abc")].
Definition never : nat -> bool := fun _ => false.

Example demo_put_runs :
  (HandlePut never (fun _ => 0) true demo_md5 demo_put true demo_fw).1 = None /\
  files (HandlePut never (fun _ => 0) true demo_md5 demo_put true demo_fw).2 !! "/mnt/host/tmp/image" = Some (Reg "abc" 420).
Proof. vm_compute. split; reflexivity. Qed.

Lemma put_atomic_witness :
  exists r w', HandlePut never (fun _ => 0) true demo_md5 demo_put true demo_fw = (r, w') /\
    exists path permissions stream', demo_put = PutMsg (PutOpen path permissions) :: stream' /\ validatePath path = Ok tt /\
      putOutcome true demo_md5 path permissions stream' r ∅ (files w').
Proof.
  assert (exists w', HandlePut never (fun _ => 0) true demo_md5 demo_put true demo_fw = (None, w')) as [w' H]
    by (eexists; vm_compute; reflexivity).
  exists None, w'. split; [exact H|].
  destruct (put_atomic never (fun _ => 0) true demo_md5 demo_put true demo_fw None w' H) as [[_ Hn]|Ho]; [destruct (Hn eq_refl)|exact Ho].
Defined.

Abbreviation demo_transfer :=
  (HandleTransferToRemoteForDPUStreaming demo_md5 10 (Some (mkTransfer "/tmp/image" (Some (PROTO_HTTP, "http://h/i")))) "0"
    (fun _ => StreamOpen 200 3 [("ab", NoEnd); ("c", AtEOF)]) true true (fun _ => true)
    (fun msgs => (HandlePut never (fun _ => 0) true demo_md5 (PutMsg <$> msgs) true demo_fw).1)).

Lemma dpu_transfer_end_to_end_witness :
  exists h msgs, demo_transfer = (Ok h, msgs) /\
    exists data, bodyOf [("ab", NoEnd); ("c", AtEOF)] = Some data /\ h = demo_md5 data /\
      files (HandlePut never (fun _ => 0) true demo_md5 (PutMsg <$> msgs) true demo_fw).2 !! "/mnt/host/tmp/image" = Some (Reg data 420).
Proof.
  assert (exists h msgs, demo_transfer = (Ok h, msgs)) as (h & msgs & H) by (do 2 eexists; vm_compute; reflexivity).
  exists h, msgs. split; [exact H|].
  destruct (dpu_transfer_end_to_end demo_md5 10 ltac:(lia) never (fun _ => 0) true demo_fw _ _ _ _ _ _ _ _ H)
    as (r & url & status & len & reads & data & [= <-] & [= <- <- <-] & _ & Hb & Hh & _ & _ & Hf).
  exists data. split; [exact Hb|]. split; [exact Hh|exact Hf].
Defined.

Abbreviation demo_get :=
  (HandleGet true demo_md5 100 (fun _ => Ok (mkFileInfo false true 420 3 0)) (Some "/var/log/syslog")
    (Ok [("ab", NoEnd); ("c", AtEOF)]) (fun _ => None) (fun _ => true)).

Lemma file_copy_roundtrip_witness :
  exists sent w', demo_get = (None, sent) /\
    HandlePut never (fun _ => 0) true demo_md5 (PutMsg (PutOpen "/tmp/copy" 384) :: (toPut <$> sent)) true demo_fw = (None, w') /\
    files w' !! "/mnt/host/tmp/copy" = Some (Reg "abc" 384).
Proof.
  assert (exists sent, demo_get = (None, sent)) as [sent H] by (eexists; vm_compute; reflexivity).
  destruct (file_copy_roundtrip true demo_md5 100 (fun _ => Ok (mkFileInfo false true 420 3 0)) never (fun _ => 0) (Some "/var/log/syslog") _
    (fun _ => None) (fun _ => true) sent [("ab", NoEnd); ("c", AtEOF)] "/tmp/copy" 384 demo_fw H eq_refl (fun _ => eq_refl))
    as (w' & Hp & Hf); [reflexivity|discriminate|intros; discriminate|discriminate|discriminate|].
  exists sent, w'. split; [exact H|]. split; [exact Hp|exact Hf].
Defined.

Abbreviation demo_local :=
  (handleTransferToRemoteLocal never (fun _ => 0) false demo_md5 10 (Some (mkTransfer "/tmp/image" (Some (PROTO_HTTP, "http://h/i"))))
    (fun _ => HttpResponse 200 3 "abc" false) demo_fw).

Lemma transfer_stores_witness :
  exists w' body perm, demo_local = (Ok (demo_md5 body), w') /\ files w' !! "/tmp/image" = Some (Reg body perm).
Proof.
  assert (exists h w', demo_local = (Ok h, w')) as (h & w' & H) by (do 2 eexists; vm_compute; reflexivity).
  destruct (transfer_stores never (fun _ => 0) false demo_md5 10 ltac:(lia) _ _ _ _ _ H)
    as (r & url & status & len & body & perm & [= <-] & _ & _ & _ & _ & Hf & ->).
  exists w', body, perm. split; [exact H|exact Hf].
Defined.
