(* ===== verification/OsService.v ===== *)
(** The gNOI OS service (src/gnmi_server/gnoi_os.go, src/pkg/gnoi/os/os.go): the transfer
    of an image and its installation by the host, activation, verification.

    The file system is that of [FileService].  The host service behind [OSBackend] and the
    JSON encoding of the messages to it are one parameter, from a request to what comes
    back. *)

From S2P Require Import Prelude GnmiTypes Filepath FileService FileServiceProofs.
Import Filepath FileService.
Open Scope go_scope.

Module OsService.

(** * Messages *)

Inductive InstallErrorType := ErrUnspecified | PARSE_FAIL | INSTALL_IN_PROGRESS | ErrOtherType.

Inductive InstallRequest :=
| TransferRequest (version : string)
| TransferContent (data : string)
| TransferEnd
| NoRequest.

Inductive InstallResponse :=
| InstallError (type : InstallErrorType)
| TransferReady
| TransferProgress (bytes_received : N)
| Validated (version : string)
| OtherResponse.

Inductive RecvEvent := RecvMsg (m : InstallRequest) | RecvEOF | RecvErr.

(** What comes of a request to the host: it is not implemented there; it fails, or its
    answer cannot be read; an answer. *)
Inductive BackendReply := BackendUnimplemented | BackendFailed | BackendAnswer (r : InstallResponse).

(** * State *)

Record OSW := mkOSW {
  fw : FW;
  totalBytesReceived : gmap string N;
  sem : bool;
  sentMsgs : list InstallResponse
}.

Definition OS_ (A : Type) : Type := OSW -> A * OSW.

#[global] Instance OS_ret : MRet OS_ := fun A a s => (a, s).
#[global] Instance OS_bind : MBind OS_ := fun A B f m s => let '(a, s1) := m s in f a s1.

Definition liftIO {A} (m : IO A) : OS_ A := fun s =>
  let '(a, w) := m (fw s) in (a, mkOSW w (totalBytesReceived s) (sem s) (sentMsgs s)).

Definition addBytes (p : string) (n : N) : OS_ N := fun s =>
  let total := ((default 0 (totalBytesReceived s !! p) + n) mod 2 ^ 64)%N in
  (total, mkOSW (fw s) (<[p := total]> (totalBytesReceived s)) (sem s) (sentMsgs s)).

Definition setSem (b : bool) : OS_ unit := fun s => (tt, mkOSW (fw s) (totalBytesReceived s) b (sentMsgs s)).

Section Server.
Variable fails : nat -> bool.
Variable torn : nat -> nat.
Variable ImgDir : string.
Variable backend : InstallRequest -> BackendReply.
(** The [k]-th message is taken by the stream. *)
Variable sendOk : nat -> bool.

Definition send (m : InstallResponse) : OS_ bool := fun s =>
  (sendOk (length (sentMsgs s)), mkOSW (fw s) (totalBytesReceived s) (sem s) (sentMsgs s ++ [m])).

Definition isError (r : InstallResponse) : bool := match r with InstallError _ => true | _ => false end.

(** [None] where the caller is to answer that the service is not implemented. *)
Definition processTransferReq (version : string) : option InstallResponse :=
  if String.eqb version "" then Some (InstallError PARSE_FAIL)
  else match backend (TransferRequest version) with
       | BackendUnimplemented => None
       | BackendFailed => Some (InstallError ErrUnspecified)
       | BackendAnswer r => Some r
       end.

Definition processTransferEnd : InstallResponse :=
  match backend TransferEnd with
  | BackendUnimplemented | BackendFailed => InstallError ErrUnspecified
  | BackendAnswer r => r
  end.

(** [os.OpenFile] to create or append. *)
Definition openAppend (p : string) : IO bool :=
  syscall fails same (fun fs =>
    match fs !! p with
    | Some Directory => None
    | Some (Reg _ _) => Some fs
    | None => Some (<[p := Reg "" 420]> fs)
    end).

Definition safePathOf (imgPath : string) : string :=
  let cleanPath := Clean imgPath in
  if IsAbs cleanPath then cleanPath else Join [ImgDir; cleanPath].

Definition processTransferContent (transferContent imgPath : string) : OS_ InstallResponse :=
  let safePath := safePathOf imgPath in
  if negb (has_prefix safePath ImgDir) then mret (InstallError ErrUnspecified)
  else
    ok ← liftIO (MkdirAll fails (Dir safePath));
    if negb ok then mret (InstallError ErrUnspecified)
    else
      ok ← liftIO (openAppend safePath);
      if negb ok then mret (InstallError ErrUnspecified)
      else
        ok ← liftIO (writeFile fails torn safePath transferContent);
        if negb ok then _ ← liftIO (closeFile fails); mret (InstallError ErrUnspecified)
        else
          ok ← liftIO (closeFile fails);
          if negb ok then mret (InstallError ErrUnspecified)
          else
            n ← addBytes safePath (N.of_nat (String.length transferContent));
            mret (TransferProgress n).

Definition getVersionPath (version : string) : string := ImgDir +:+ "/" +:+ version.

(** The system resolves a path that is not clean; without symbolic links it resolves to its
    cleaned form. *)
Definition imageExists (path : string) : OS_ bool := liftIO (exists_ fails (Clean path)).

Definition removeIncompleteTransfer (imgPath : string) : OS_ unit :=
  found ← imageExists imgPath;
  if negb found then mret tt else _ ← liftIO (Remove fails (Clean imgPath)); mret tt.

(** The loop that receives the contents: [None] once the transfer has ended, with whether
    a transfer was begun. *)
Fixpoint contentLoop (imgPath : string) (imgTransferInitiated : bool) (stream : list RecvEvent) : OS_ (option Code * bool) :=
  match stream with
  | [] | RecvEOF :: _ => mret (Some Aborted, imgTransferInitiated)
  | RecvErr :: _ => mret (Some Aborted, imgTransferInitiated)
  | RecvMsg (TransferRequest _) :: _ => mret (Some InvalidArgument, imgTransferInitiated)
  | RecvMsg TransferEnd :: _ => mret (None, imgTransferInitiated)
  | RecvMsg m :: stream =>
      found ← (if imgTransferInitiated then mret false else imageExists imgPath);
      if found : bool then mret (Some Aborted, imgTransferInitiated)
      else
        resp ← processTransferContent (match m with TransferContent d => d | _ => "" end) imgPath;
        ok ← send resp;
        if negb ok then _ ← removeIncompleteTransfer imgPath; mret (Some Aborted, true)
        else if isError resp then _ ← removeIncompleteTransfer imgPath; mret (Some Aborted, true)
        else contentLoop imgPath true stream
  end.

(** From the end of the transfer on. *)
Definition finishInstall (imgPath : string) : OS_ (option Code) :=
  let resp := processTransferEnd in
  ok ← send resp;
  if negb ok then _ ← removeIncompleteTransfer imgPath; mret (Some Aborted)
  else if isError resp then _ ← removeIncompleteTransfer imgPath; mret (Some Aborted)
  else mret None.

(** The transfer of an announced version, with the deferred clean-up. *)
Definition transferImage (imgPath : string) (stream : list RecvEvent) : OS_ (option Code) :=
  '(err, initiated) ← contentLoop imgPath false stream;
  r ← (match err with Some e => mret (Some e) | None => finishInstall imgPath end);
  _ ← (if initiated : bool then removeIncompleteTransfer imgPath else mret tt);
  mret r.

(** Once the semaphore is taken. *)
Definition installBody (stream : list RecvEvent) : OS_ (option Code) :=
  match stream with
  | [] | RecvEOF :: _ => mret None
  | RecvErr :: _ => mret (Some Aborted)
  | RecvMsg (TransferRequest version) :: stream =>
      match processTransferReq version with
      | None => mret (Some Unimplemented)
      | Some resp =>
          ok ← send resp;
          if negb ok then mret (Some Aborted)
          else if isError resp then mret (Some Aborted)
          else transferImage (getVersionPath version) stream
      end
  | RecvMsg _ :: _ => mret (Some InvalidArgument)
  end.

(** [auth] is [authenticate] for the request; read access is asked for. *)
Definition Install (auth : string -> bool -> option Code) (stream : list RecvEvent) : OS_ (option Code) := fun s =>
  match auth "gnoi" false with
  | Some e => (Some e, s)
  | None =>
      if sem s then (_ ← send (InstallError INSTALL_IN_PROGRESS); mret (Some Aborted)) s
      else (_ ← setSem true; r ← installBody stream; _ ← setSem false; mret r) s
  end.
End Server.

(** * Activate and Verify *)

Inductive ActivateResponse := ActivateOk | ActivateError (nonExistent : bool) (detail : string).

(** [err.Error()] of an error of the host service, as a parameter of the texts that are
    fixed words. *)
Definition Activate (auth : string -> bool -> option Code) (activate : string -> option string) (isNotExist : bool) (image : string)
    : res Code ActivateResponse :=
  match auth "gnoi" true with
  | Some e => Err e
  | None =>
      match activate image with
      | None => Ok ActivateOk
      | Some text =>
          let lower := to_lower text in
          Ok (ActivateError (isNotExist || (str_contains lower "not" && str_contains lower "exist")) text)
      end
  end.

(** The value under a key of the decoded list of images. *)
Inductive ImageVal := ImgStr (s : string) | ImgOther.

Definition Verify (auth : string -> bool -> option Code) (listImages : res Code string)
    (unmarshal : string -> option (gmap string ImageVal)) : res Code string :=
  match auth "gnoi" false with
  | Some e => Err e
  | None =>
      match listImages with
      | Err e => Err e
      | Ok image_json =>
          match unmarshal image_json with
          | None => Err Unknown
          | Some images =>
              match images !! "current" with
              | None => Err Internal
              | Some (ImgStr current_image) => Ok current_image
              | Some ImgOther => Err Internal
              end
          end
      end
  end.

Definition newline : string := String (Ascii.ascii_of_nat 10) "".

(** [parseCurrentVersion]: the first line that names a version. *)
Fixpoint currentOfLines (lines : list string) : option string :=
  match lines with
  | [] => None
  | line :: lines =>
      let line := trim_space line in
      if has_prefix line "Current:" then
        match str_splitn2 line ":" with
        | [_; v] => let version := trim_space v in
                    if String.eqb version "" then currentOfLines lines else Some version
        | _ => currentOfLines lines
        end
      else currentOfLines lines
  end.

Definition parseCurrentVersion (output : string) : option string := currentOfLines (str_split output newline).

(** A command on the host: it cannot be run, it fails, or it prints. *)
Inductive CommandOutcome := CmdNotRun | CmdFailed (exitCode : Z) (stderr : string) | CmdOk (stdout : string).

Definition HandleVerify (run : string -> list string -> CommandOutcome) : res Code string :=
  match run "sonic-installer" ["list"] with
  | CmdNotRun => Err Internal
  | CmdFailed _ _ => Err Internal
  | CmdOk out => match parseCurrentVersion out with Some v => Ok v | None => Err Internal end
  end.
End OsService.

(** Properties of the image transfer: what becomes of the image file, where it may lie,
    the semaphore, the messages, and the progress that is reported. *)

Import Filepath FileService OsService.
Open Scope go_scope.

Abbreviation filesOf s := (files (fw s)).

(** [p] is not a directory. *)
Definition notDir (p : string) (s : OSW) : Prop := filesOf s !! p <> Some Directory.

(** An action that makes no directory of [p]. *)
Definition safeAt {A} (p : string) (m : OS_ A) : Prop := forall s, notDir p s -> notDir p (m s).2.

Lemma safeAt_ret {A} p (a : A) : safeAt p (mret a).
Proof. by intros s. Qed.

Lemma safeAt_bind {A B} p (m : OS_ A) (f : A -> OS_ B) : safeAt p m -> (forall a, safeAt p (f a)) -> safeAt p (m ≫= f).
Proof. intros Hm Hf s Hs. unfold mbind, OS_bind. specialize (Hm s Hs). destruct (m s) as [a s1]. by apply Hf. Qed.

Lemma lift_files {A} (m : IO A) s : filesOf (liftIO m s).2 = files (m (fw s)).2.
Proof. unfold liftIO. by destruct (m (fw s)). Qed.

Lemma lift_fst {A} (m : IO A) s : (liftIO m s).1 = (m (fw s)).1.
Proof. unfold liftIO. by destruct (m (fw s)). Qed.

Lemma root_prefix D : IsAbs D = true -> D <> "/" -> has_prefix "/" D = false.
Proof.
  intros Ha Hr. apply not_true_iff_false. intros [t Ht]%has_prefix_spec. destruct D as [|c D]; [done|].
  rewrite str_app_cons in Ht. injection Ht as <- Ht. destruct D; [done|by rewrite str_app_cons in Ht].
Qed.

Section Install.
Variable fails : nat -> bool.
Variable torn : nat -> nat.
Variable ImgDir : string.
Variable backend : InstallRequest -> BackendReply.
Variable sendOk : nat -> bool.

(** One installation at a time: a call while another is on changes nothing and is turned
    away, and a call that got the semaphore has given it back when it returns. *)
Theorem install_exclusive auth stream s r s' :
  Install fails torn ImgDir backend sendOk auth stream s = (r, s') ->
  sem s' = sem s /\ (sem s = true -> fw s' = fw s /\ totalBytesReceived s' = totalBytesReceived s /\ r <> None).
Proof.
  unfold Install. destruct (auth "gnoi" false); [intros [= <- <-]; done|].
  destruct (sem s) eqn:Es; [intros [= <- <-]; done|].
  unfold mbind, OS_bind, setSem. cbn. destruct (installBody fails torn ImgDir backend sendOk stream _) as [r1 s1].
  intros [= <- <-]. done.
Qed.

(** * The image file *)

Lemma safeAt_syscall p bad act :
  (forall n fs, fs !! p <> Some Directory -> bad n fs !! p <> Some Directory) ->
  (forall fs fs', act fs = Some fs' -> fs !! p <> Some Directory -> fs' !! p <> Some Directory) -> safeAt p (liftIO (syscall fails bad act)).
Proof.
  intros Hb Ha s Hs. unfold notDir. rewrite lift_files. unfold syscall. destruct (fails _); [by apply Hb|].
  destruct (act _) eqn:E; [by eapply Ha|done].
Qed.

Lemma append_notDir p q d fs : fs !! p <> Some Directory -> appendTo q d fs !! p <> Some Directory.
Proof.
  intros H. unfold appendTo. destruct (fs !! q) as [[]|] eqn:E; try done. destruct (decide (p = q)) as [->|];
    [by rewrite lookup_insert_eq|by rewrite lookup_insert_ne].
Qed.

Lemma delete_notDir p q (fs : FS) : fs !! p <> Some Directory -> delete q fs !! p <> Some Directory.
Proof. intros H. destruct (decide (p = q)) as [->|]; [by rewrite lookup_delete_eq|by rewrite lookup_delete_ne]. Qed.

Lemma insert_notDir p q d m (fs : FS) : fs !! p <> Some Directory -> <[q := Reg d m]> fs !! p <> Some Directory.
Proof. intros H. destruct (decide (p = q)) as [->|]; [by rewrite lookup_insert_eq|by rewrite lookup_insert_ne]. Qed.

Lemma safeAt_write p q d : safeAt p (liftIO (writeFile fails torn q d)).
Proof. apply safeAt_syscall; [|intros fs fs' [= <-]]; intros; by apply append_notDir. Qed.

Lemma safeAt_close p : safeAt p (liftIO (closeFile fails)).
Proof. by apply safeAt_syscall; [|intros fs fs' [= <-]]. Qed.

Lemma safeAt_exists p q : safeAt p (liftIO (exists_ fails q)).
Proof. apply safeAt_syscall; [done|]. intros fs fs' H. by case_match; simplify_eq. Qed.

Lemma safeAt_Remove p q : safeAt p (liftIO (Remove fails q)).
Proof. apply safeAt_syscall; [done|]. intros fs fs' H. repeat case_match; simplify_eq; apply delete_notDir. Qed.

Lemma safeAt_open p q : safeAt p (liftIO (openAppend fails q)).
Proof. apply safeAt_syscall; [done|]. intros fs fs' H. repeat case_match; simplify_eq; [done|apply insert_notDir]. Qed.

Lemma safeAt_mkdirs p l : p ∉ l -> safeAt p (liftIO (mkdirs fails l)).
Proof.
  intros Hp s Hs. unfold notDir. rewrite lift_files. destruct (mkdirs_made fails l (fw s) p) as [->|(? & _)]; done.
Qed.

(** The path of the image, as the system resolves it. *)
Hypothesis ImgDir_abs : IsAbs ImgDir = true.
Hypothesis ImgDir_not_root : ImgDir <> "/".

Lemma imgPath_abs v : IsAbs (getVersionPath ImgDir v) = true.
Proof.
  unfold getVersionPath. unfold IsAbs in *. apply has_prefix_spec in ImgDir_abs as [t ->].
  apply has_prefix_spec. exists (t +:+ "/" +:+ v). by rewrite !str_app_assoc.
Qed.

Lemma safePath_clean v : safePathOf ImgDir (getVersionPath ImgDir v) = Clean (getVersionPath ImgDir v).
Proof. unfold safePathOf. by rewrite clean_abs, imgPath_abs. Qed.

Lemma image_not_above v :
  has_prefix (Clean (getVersionPath ImgDir v)) ImgDir = true -> Clean (getVersionPath ImgDir v) ∉ ancestors (Dir (Clean (getVersionPath ImgDir v))).
Proof.
  intros Hp. pose proof (imgPath_abs v) as Ha. pose proof (cleanComps_plain _ Ha) as Hc.
  assert (Clean (getVersionPath ImgDir v) = build (cleanComps (getVersionPath ImgDir v))) as E by (unfold Clean; by rewrite Ha).
  rewrite E in *. clear E. generalize dependent (cleanComps (getVersionPath ImgDir v)). intros l Hp Hc.
  destruct (decide (l = [])) as [->|Hne].
  - change (build []) with "/" in Hp. by rewrite root_prefix in Hp.
  - destruct (exists_last Hne) as (l' & n & ->). pose proof Hc as [Hl [Hn _]%Forall_cons]%Forall_app.
    rewrite dir_build by done. by apply not_ancestor.
Qed.

Variable version : string.
Abbreviation imgPath := (getVersionPath ImgDir version).
Abbreviation image := (Clean (getVersionPath ImgDir version)).

Lemma safeAt_content d : safeAt image (processTransferContent fails torn ImgDir d imgPath).
Proof.
  unfold processTransferContent. rewrite safePath_clean. destruct (has_prefix image ImgDir) eqn:Ep; cbn [negb]; [|apply safeAt_ret].
  apply safeAt_bind; [by apply safeAt_mkdirs, image_not_above|]. intros []; cbn [negb]; [|apply safeAt_ret].
  apply safeAt_bind; [apply safeAt_open|]. intros []; cbn [negb]; [|apply safeAt_ret].
  apply safeAt_bind; [apply safeAt_write|]. intros []; cbn [negb];
    (apply safeAt_bind; [apply safeAt_close|]; intros ok); [|apply safeAt_ret].
  destruct ok; [|apply safeAt_ret]. by intros s.
Qed.

(** ** Without failures of the system *)

Hypothesis healthy : forall n, fails n = false.

Definition gone (s : OSW) : Prop := filesOf s !! image = None.

Lemma remove_gone s : notDir image s -> gone (removeIncompleteTransfer fails imgPath s).2.
Proof.
  intros Hs. unfold removeIncompleteTransfer, mbind, OS_bind, imageExists.
  assert (forall s, files (exists_ fails image (fw s)).2 = filesOf s) as He.
  { intros s0. unfold exists_, syscall. rewrite healthy. by destruct (filesOf s0 !! image). }
  pose proof (lift_fst (exists_ fails image) s) as H1. pose proof (lift_files (exists_ fails image) s) as H2. rewrite He in H2.
  destruct (liftIO (exists_ fails image) s) as [found s1]. cbn [fst snd] in *. subst found.
  unfold exists_, syscall. rewrite healthy. unfold notDir in Hs. unfold gone.
  destruct (filesOf s !! image) as [[d m|]|] eqn:E; cbn [fst negb]; [|done|change (filesOf s1 !! image = None); by rewrite H2].
  unfold liftIO, Remove, syscall. rewrite healthy, H2, E. cbn. apply lookup_delete_eq.
Qed.

Lemma exists_found s :
  filesOf (imageExists fails imgPath s).2 = filesOf s /\ (imageExists fails imgPath s).1 = bool_decide (filesOf s !! image <> None).
Proof.
  unfold imageExists. rewrite lift_files, lift_fst. unfold exists_, syscall. rewrite healthy. by destruct (filesOf s !! image).
Qed.

(** What the loop leaves: nothing was begun and the image is as it was, or a transfer was
    begun where there was no image, and there is no directory now. *)
Lemma loop_outcome b stream s err b' s' :
  contentLoop fails torn ImgDir sendOk imgPath b stream s = ((err, b'), s') -> notDir image s ->
  (b' = false /\ b = false /\ filesOf s' !! image = filesOf s !! image /\ (err = None -> exists rest, stream = RecvMsg TransferEnd :: rest)) \/
  (b' = true /\ notDir image s' /\ (b = false -> filesOf s !! image = None)).
Proof.
  revert b s. induction stream as [|[m| |] stream IH]; intros b s H Hs; try (injection H as <- <- <-; destruct b; [right|left]; by split_and!).
  assert (forall d, (found ← (if b then mret false else imageExists fails imgPath);
      if found : bool then mret (Some Aborted, b)
      else
        resp ← processTransferContent fails torn ImgDir d imgPath;
        ok ← send sendOk resp;
        if negb ok then _ ← removeIncompleteTransfer fails imgPath; mret (Some Aborted, true)
        else if isError resp then _ ← removeIncompleteTransfer fails imgPath; mret (Some Aborted, true)
        else contentLoop fails torn ImgDir sendOk imgPath true stream) s = ((err, b'), s') ->
     (b' = false /\ b = false /\ filesOf s' !! image = filesOf s !! image /\ err <> None) \/
     (b' = true /\ notDir image s' /\ (b = false -> filesOf s !! image = None))) as Hd.
  { clear H. intros d H. unfold mbind at 1, OS_bind at 1 in H.
    assert (exists found s1, (if b then mret false else imageExists fails imgPath) s = (found, s1) /\ filesOf s1 = filesOf s /\
      (found = true -> b = false) /\ (found = false -> b = false -> filesOf s !! image = None)) as (found & s1 & E & Hf & Hb & Hn).
    { destruct b; [by exists false, s|]. destruct (exists_found s) as [H1 H2]. destruct (imageExists fails imgPath s) as [f s1].
      cbn [fst snd] in *. exists f, s1. subst f. split_and!; [done..|]. intros Hx%bool_decide_eq_false _. by destruct (filesOf s !! image) as [n|]; [destruct Hx|]. }
    rewrite E in H. destruct found; [injection H as <- <- <-; left; rewrite Hf; by split_and!; auto|].
    unfold mbind at 1, OS_bind at 1 in H.
    assert (notDir image s1) as Hs1 by (unfold notDir; by rewrite Hf).
    pose proof (safeAt_content d s1 Hs1) as Hc. destruct (processTransferContent fails torn ImgDir d imgPath s1) as [resp s2]. cbn [snd] in Hc.
    unfold mbind at 1, OS_bind at 1 in H. destruct (send sendOk resp s2) as [ok s3] eqn:Es.
    assert (notDir image s3) as Hs3 by (injection Es as _ <-; exact Hc).
    assert (forall r : OSW, r = (removeIncompleteTransfer fails imgPath s3).2 -> notDir image r) as Hrm.
    { intros r ->. pose proof (remove_gone s3 Hs3) as Hg. unfold gone in Hg. unfold notDir. by rewrite Hg. }
    right. destruct ok; cbn [negb] in H; [destruct (isError resp)|].
    - unfold mbind, OS_bind in H. destruct (removeIncompleteTransfer fails imgPath s3) as [u s4]. injection H as <- <- <-. split_and!; auto.
    - apply IH in H as [(_ & ? & _ & _)|(-> & ? & _)]; [done| |done]. split_and!; auto.
    - unfold mbind, OS_bind in H. destruct (removeIncompleteTransfer fails imgPath s3) as [u s4]. injection H as <- <- <-. split_and!; auto. }
  destruct m as [v|d| |].
  - injection H as <- <- <-. destruct b; [right|left]; by split_and!.
  - destruct (Hd d H) as [(? & ? & ? & ?)|]; [left|by right]. by split_and!.
  - injection H as <- <- <-. destruct b; [right; by split_and!|left; split_and!; eauto].
  - destruct (Hd "" H) as [(? & ? & ? & ?)|]; [left|by right]. by split_and!.
Qed.

Lemma finish_outcome s : notDir image s -> notDir image (finishInstall fails backend sendOk imgPath s).2.
Proof.
  intros Hs. unfold finishInstall, mbind, OS_bind.
  destruct (send sendOk (processTransferEnd backend) s) as [ok s2] eqn:Es.
  assert (notDir image s2) as Hs2 by (injection Es as _ <-; exact Hs). clear Es.
  pose proof (remove_gone s2 Hs2) as Hg. unfold gone in Hg.
  destruct ok; cbn [negb]; [destruct (isError _); [|done]|];
    (destruct (removeIncompleteTransfer fails imgPath s2) as [u s3]; change (notDir image s3); unfold notDir; cbn [snd] in Hg; by rewrite Hg).
Qed.

Lemma transfer_keeps_image stream s :
  notDir image s -> (forall rest, stream <> RecvMsg TransferEnd :: rest) ->
  filesOf (transferImage fails torn ImgDir backend sendOk imgPath stream s).2 !! image = filesOf s !! image.
Proof.
  intros Hs Hne. unfold transferImage, mbind, OS_bind.
  destruct (contentLoop fails torn ImgDir sendOk imgPath false stream s) as [[err b] s1] eqn:El.
  apply loop_outcome in El as [(-> & _ & Hf & He)|(-> & Hd & Hn)]; [| |done].
  - destruct err; [exact Hf|]. destruct He as [rest ->]; [done|]. by destruct (Hne rest).
  - destruct err as [e|]; cbn.
    + pose proof (remove_gone s1 Hd) as Hg. destruct (removeIncompleteTransfer fails imgPath s1) as [u s2]. cbn in *. by rewrite Hg, Hn.
    + pose proof (finish_outcome s1 Hd) as Hd2. destruct (finishInstall fails backend sendOk imgPath s1) as [r s2]. cbn [snd] in Hd2.
      pose proof (remove_gone s2 Hd2) as Hg. destruct (removeIncompleteTransfer fails imgPath s2) as [u s3]. cbn in *. by rewrite Hg, Hn.
Qed.

(** When nothing fails in the system, an installation leaves the image file of its
    version as it found it, however the transfer goes and wherever it stops: no part of an
    image stays behind, an image that was there is not touched, and a transferred image is
    removed again at the end, also after success.  The one exception is a transfer that
    ends without contents. *)
Theorem install_keeps_image auth rest s :
  notDir image s -> (forall rest', rest <> RecvMsg TransferEnd :: rest') ->
  filesOf (Install fails torn ImgDir backend sendOk auth (RecvMsg (TransferRequest version) :: rest) s).2 !! image = filesOf s !! image.
Proof.
  intros Hs Hne. unfold Install. destruct (auth "gnoi" false); [done|]. destruct (sem s); [done|].
  unfold mbind, OS_bind, setSem. cbn [installBody]. destruct (processTransferReq backend version) as [resp|]; [|done].
  unfold mbind, OS_bind, send. cbn [sentMsgs]. destruct (sendOk _); [|done]. cbn [negb]. destruct (isError resp); [done|].
  match goal with |- context [transferImage _ _ _ _ _ _ _ ?s0] => pose proof (transfer_keeps_image rest s0 Hs Hne) as Hk end.
  destruct (transferImage _ _ _ _ _ _ _ _) as [r s1]. exact Hk.
Qed.
End Install.

(** * Witnesses, and what else an installation does *)

Definition demo_backend (m : InstallRequest) : BackendReply :=
  match m with
  | TransferRequest _ => BackendAnswer TransferReady
  | _ => BackendAnswer (Validated "v1")
  end.

Definition idle (fs : FS) : OSW := mkOSW (mkFW fs 0) ∅ false [].

Definition demo_install (backend : InstallRequest -> BackendReply) (version : string) (stream : list RecvEvent) (s : OSW) :=
  Install (fun _ => false) (fun _ => 0) "/tmp/host_tmp" backend (fun _ => true) (fun _ _ => None)
    (RecvMsg (TransferRequest version) :: stream) s.

Lemma install_keeps_image_witness :
  let stream := [RecvMsg (TransferContent "ab"); RecvMsg TransferEnd] in
  let image := Clean (getVersionPath "/tmp/host_tmp" "v1") in
  (forall rest, stream <> RecvMsg TransferEnd :: rest) /\
  filesOf (demo_install demo_backend "v1" stream (idle ∅)).2 !! image = filesOf (idle ∅) !! image.
Proof.
  intros stream image. assert (forall rest, stream <> RecvMsg TransferEnd :: rest) as Hs by (intros rest [=]). split; [exact Hs|].
  apply (install_keeps_image (fun _ => false) (fun _ => 0) "/tmp/host_tmp" demo_backend (fun _ => true) eq_refl ltac:(discriminate) "v1"
    (fun _ => eq_refl) (fun _ _ => None) stream (idle ∅)); [discriminate|exact Hs].
Defined.

(** The messages of a successful installation, after which the image is gone. *)
Example install_runs :
  let '(r, s) := demo_install demo_backend "v1" [RecvMsg (TransferContent "ab"); RecvMsg (TransferContent "c"); RecvMsg TransferEnd] (idle ∅) in
  r = None /\ sentMsgs s = [TransferReady; TransferProgress 2; TransferProgress 3; Validated "v1"] /\ filesOf s !! "/tmp/host_tmp/v1" = None.
Proof. vm_compute. split_and!; reflexivity. Qed.

(** A transfer without contents whose end the host refuses deletes the image that was
    there before. *)
Example empty_transfer_deletes_image :
  let refusing m := match m with TransferRequest _ => BackendAnswer TransferReady | _ => BackendFailed end in
  let '(r, s) := demo_install refusing "v1" [RecvMsg TransferEnd] (idle {["/tmp/host_tmp/v1" := Reg "image" 420]}) in
  r = Some Aborted /\ filesOf s !! "/tmp/host_tmp/v1" = None.
Proof. vm_compute. split; reflexivity. Qed.

(** The count of received bytes is never reset: a second transfer of the same version
    reports the bytes of the first one too. *)
Example progress_counts_old_bytes :
  let content := [RecvMsg (TransferContent "abc")] in
  let s1 := (demo_install demo_backend "v1" content (idle ∅)).2 in
  let s2 := (demo_install demo_backend "v1" content (mkOSW (fw s1) (totalBytesReceived s1) (sem s1) [])).2 in
  sentMsgs s2 = [TransferReady; TransferProgress 6].
Proof. vm_compute. reflexivity. Qed.

(** The check for the image directory compares strings: a directory whose name continues
    that of the image directory passes. *)
Example image_outside_directory :
  has_prefix (safePathOf "/tmp/host_tmp" (getVersionPath "/tmp/host_tmp" "../host_tmp_other/x")) "/tmp/host_tmp" = true /\
  safePathOf "/tmp/host_tmp" (getVersionPath "/tmp/host_tmp" "../host_tmp_other/x") = "/tmp/host_tmp_other/x".
Proof. split; reflexivity. Qed.

Example verify_parses :
  parseCurrentVersion ("Current: SONiC-OS-1" +:+ newline +:+ "Next: SONiC-OS-2") = Some "SONiC-OS-1".
Proof. vm_compute. reflexivity. Qed.
