(* ===== verification/YgotDiff.v ===== *)
(** Differences of two configuration trees (transl_utils/ygot_diff.go).

    A translib answer is a tree of generated Go structs; [Diff] compares two of them by
    reflection and records the leaves to update and the paths to delete.  A struct is its
    type's name and the values of its fields; the names, tags and kinds of the fields come
    from the type ([schema]), as [reflect] reports them.  A list is a Go map from the keys
    of its entries to structs, here in the order in which one loop visits it; its theorems
    hold for every order.  Unions are pointers: [deref] is what they point to.  The ygot
    library's functions are parameters. *)

From S2P Require Import Prelude GnmiTypes PanicMonad.

#[global] Instance PathElem_countable : Countable PathElem.
Proof.
  refine (inj_countable (fun e => (elem_name e, elem_key e)) (fun p => Some (mkElem p.1 p.2)) _).
  by intros [].
Defined.

(** Values of leaves: numbers with their Go type, strings, booleans and byte slices. *)
Inductive Scalar :=
| SString (s : string)
| SNum (type : string) (n : Z)
| SBool (b : bool)
| SBinary (b : string).

#[global] Instance Scalar_eq_dec : EqDecision Scalar.
Proof. solve_decision. Defined.

(** An element of a leaf-list: a value, or a pointer when its type is a union. *)
Inductive Item :=
| Direct (v : Scalar)
| Boxed (p : N).

#[global] Instance Item_eq_dec : EqDecision Item.
Proof. solve_decision. Defined.

(** What is encoded for a leaf: a scalar, the elements of a leaf-list, a union. *)
Inductive LeafVal :=
| VScalar (v : Scalar)
| VItems (vs : list Scalar)
| VUnion (v : Scalar).

(** Generated structs. *)
Inductive GoStruct :=
| mkStruct (type : string) (fields : list Node)
with Node :=
| NContainer (c : option GoStruct)
| NLeaf (v : option Scalar)
| NList (m : list (gmap string string * GoStruct))
| NLeafList (vs : list Item)
| NEnum (n : Z)
| NUnion (p : option N)
| NEmpty (b : bool)
| NOther.

(** The kinds of [reflect] the code distinguishes. *)
Inductive Kind := PtrStruct | Ptr | Map | Slice | Int64 | Interface | Bool | OtherKind.

(** [reflect.StructField]: the 'path' tag, the kind of the field's type and its name. *)
Record StructField := mkField {
  ft_path : option string;
  ft_kind : Kind;
  ft_type : string
}.

Definition typeOf (s : GoStruct) : string := let 'mkStruct t _ := s in t.
Definition fieldsOf (s : GoStruct) : list Node := let 'mkStruct _ fs := s in fs.

(** An update of a leaf; the other fields of the message are not set here. *)
Record LeafUpdate := mkLeaf { leaf_path : list PathElem; leaf_val : TypedValue }.

Record DiffResults := mkResults {
  dr_Update : list LeafUpdate;
  dr_Delete : list (list PathElem)
}.

Inductive DiffError := ErrUnexpectedType | ErrNotGoEnum | ErrToNotifications | ErrEncode | ErrTypeMismatch.

(** [ygotDiff]; the options are arguments. *)
Record ygotDiff := mkDiff {
  yd_results : DiffResults;
  yd_prefix : list PathElem;
  yd_errors : list (list PathElem * DiffError)
}.

Definition M := SM ygotDiff.

(** [a != b] of two interface values: it panics when both hold the same type and that type
    is a slice. *)
Definition ifaceNeq (a b : Scalar) : option bool :=
  match a, b with
  | SBinary _, SBinary _ => None
  | _, _ => Some (bool_decide (a <> b))
  end.

Definition itemNeq (a b : Item) : option bool :=
  match a, b with
  | Direct a, Direct b => ifaceNeq a b
  | Boxed p, Boxed q => Some (bool_decide (p <> q))
  | _, _ => Some true
  end.

Definition ifNeq (c : option bool) (m : M unit) : M unit :=
  match c with
  | None => panic
  | Some true => m
  | Some false => mret tt
  end.

Section diff.
Context (schema : string -> list StructField).
Context (deref : N -> Scalar).
Context (EncodeTypedValue : LeafVal -> option TypedValue).
Context (TogNMINotifications : GoStruct -> option (list LeafUpdate)).
Context (PathKeyFromStruct : GoStruct -> option (gmap string string)).
Context (enumName : string -> Z -> option string).
Context (RecordAll : bool).

Definition itemVal (i : Item) : Scalar :=
  match i with Direct v => v | Boxed p => deref p end.

Definition getElemName (f : StructField) : M string :=
  match ft_path f with Some n => mret n | None => panic end.

Definition newPathElem (name : string) (keyObj : option GoStruct) : M PathElem :=
  match keyObj with
  | None => mret (mkElem name ∅)
  | Some s => match PathKeyFromStruct s with Some k => mret (mkElem name k) | None => panic end
  end.

Definition pushPrefix (name : string) (keyObj : option GoStruct) : M unit :=
  e ← newPathElem name keyObj;
  modify (fun yd => mkDiff (yd_results yd) (yd_prefix yd ++ [e]) (yd_errors yd)).

Definition popPrefix : M unit :=
  modify (fun yd => mkDiff (yd_results yd) (take (length (yd_prefix yd) - 1) (yd_prefix yd)) (yd_errors yd)).

Definition newPath (yd : ygotDiff) (suffix : option PathElem) : list PathElem :=
  yd_prefix yd ++ option_list suffix.

Definition recordError (e : DiffError) : M unit :=
  modify (fun yd => mkDiff (yd_results yd) (yd_prefix yd) (yd_errors yd ++ [(yd_prefix yd, e)])).

Definition addUpdates (us : list LeafUpdate) : M unit :=
  modify (fun yd => mkDiff (mkResults (dr_Update (yd_results yd) ++ us) (dr_Delete (yd_results yd))) (yd_prefix yd) (yd_errors yd)).

Definition recordDeletePath (suffix : option PathElem) : M unit :=
  modify (fun yd => mkDiff (mkResults (dr_Update (yd_results yd)) (dr_Delete (yd_results yd) ++ [newPath yd suffix]))
    (yd_prefix yd) (yd_errors yd)).

Definition recordDelete (f : StructField) : M unit :=
  name ← getElemName f;
  suffix ← newPathElem name None;
  recordDeletePath (Some suffix).

Definition recordUpdate (f : StructField) (v : LeafVal) : M unit :=
  match EncodeTypedValue v with
  | None => recordError ErrEncode
  | Some tv =>
      name ← getElemName f;
      suffix ← newPathElem name None;
      path ← gets (fun yd => newPath yd (Some suffix));
      addUpdates [mkLeaf path tv]
  end.

Definition recordUpdates (s : GoStruct) : M unit :=
  match TogNMINotifications s with
  | None => recordError ErrToNotifications
  | Some us =>
      pre ← gets yd_prefix;
      addUpdates (map (fun u => mkLeaf (pre ++ leaf_path u) (leaf_val u)) us)
  end.

Definition forLeaf (f : StructField) (v1 v2 : option Scalar) : M unit :=
  match v2 with
  | None => match v1 with Some _ => recordDelete f | None => mret tt end
  | Some s2 =>
      if RecordAll then recordUpdate f (VScalar s2)
      else match v1 with
           | None => recordUpdate f (VScalar s2)
           | Some s1 => ifNeq (ifaceNeq s1 s2) (recordUpdate f (VScalar s2))
           end
  end.

Definition forUnion (f : StructField) (v1 v2 : option N) : M unit :=
  match v2 with
  | None => match v1 with Some _ => recordDelete f | None => mret tt end
  | Some p2 =>
      match RecordAll, v1 with
      | false, Some p1 => ifNeq (ifaceNeq (deref p1) (deref p2)) (recordUpdate f (VUnion (deref p2)))
      | _, _ => recordUpdate f (VUnion (deref p2))
      end
  end.

Definition forEnum (f : StructField) (v1 v2 : Z) : M unit :=
  if decide (v2 = 0%Z) then (if decide (v1 = 0%Z) then mret tt else recordDelete f)
  else if negb RecordAll && bool_decide (v1 = v2) then mret tt
  else match enumName (ft_type f) v2 with
       | None => recordError ErrNotGoEnum
       | Some name => recordUpdate f (VScalar (SString name))
       end.

(** The loop over the elements of two leaf-lists of one length. *)
Fixpoint sameItems (l1 l2 : list Item) (changed : M unit) : M unit :=
  match l1, l2 with
  | a :: l1, b :: l2 =>
      match itemNeq a b with
      | None => panic
      | Some true => changed
      | Some false => sameItems l1 l2 changed
      end
  | _, _ => mret tt
  end.

Definition forLeafList (f : StructField) (v1 v2 : list Item) : M unit :=
  let update := recordUpdate f (VItems (map itemVal v2)) in
  if decide (length v2 = 0) then (if decide (length v1 = 0) then mret tt else recordDelete f)
  else if RecordAll || bool_decide (length v1 <> length v2) then update
  else sameItems v1 v2 update.

(** [m.MapIndex(key)]. *)
Fixpoint mapIndex (k : gmap string string) (m : list (gmap string string * GoStruct)) : option GoStruct :=
  match m with
  | [] => None
  | (k', s) :: m => if decide (k = k') then Some s else mapIndex k m
  end.

(** The second loop of [forList]: instances of [m2] that are not in [m1]. *)
Definition newInstances (listName : string) (m1 m2 : list (gmap string string * GoStruct)) : M unit :=
  each_ (fun kv =>
    match mapIndex kv.1 m1 with
    | Some _ => mret tt
    | None =>
        _ ← pushPrefix listName (Some kv.2);
        _ ← recordUpdates kv.2;
        popPrefix
    end) m2.

(** The first loop of [forList], over the instances of [m1].  [rec] compares two structs,
    as does [forStruct] on a first struct that is not nil. *)
Definition oldInstances (rec : GoStruct -> option GoStruct -> M unit) (listName : string)
    (m1 m2 : list (gmap string string * GoStruct)) : M unit :=
  each_ (fun kv =>
    match mapIndex kv.1 m2 with
    | Some v2 =>
        _ ← pushPrefix listName (Some v2);
        _ ← rec kv.2 (Some v2);
        popPrefix
    | None =>
        suffix ← newPathElem listName (Some kv.2);
        recordDeletePath (Some suffix)
    end) m1.

Definition forList (rec : GoStruct -> option GoStruct -> M unit) (ft : StructField)
    (m1 m2 : list (gmap string string * GoStruct)) : M unit :=
  listName ← getElemName ft;
  _ ← oldInstances rec listName m1 m2;
  newInstances listName m1 m2.

(** The first lines of [forStruct]: a first struct that is nil. *)
Definition forNilable (rec : GoStruct -> option GoStruct -> M unit) (v1 v2 : option GoStruct) : M unit :=
  match v1 with
  | None => match v2 with Some s2 => recordUpdates s2 | None => mret tt end
  | Some s1 => rec s1 v2
  end.

(** The loop over the fields, from the last to the first. *)
Definition forFields (rec : StructField -> Node -> Node -> M unit) :=
  fix go (st : list StructField) (fs1 fs2 : list Node) {struct fs1} : M unit :=
    match st, fs1, fs2 with
    | ft :: st, f1 :: fs1, f2 :: fs2 => _ ← go st fs1 fs2; rec ft f1 f2
    | _, _, _ => mret tt
    end.

(** [forStruct] with a first struct that is not nil, and its switch over the fields. *)
Fixpoint forStruct_ (s1 : GoStruct) (v2 : option GoStruct) {struct s1} : M unit :=
  match v2 with
  | None => recordDeletePath None
  | Some s2 =>
      match s1 with
      | mkStruct t fs1 => forFields forField (schema t) fs1 (fieldsOf s2)
      end
  end
with forField (ft : StructField) (f1 f2 : Node) {struct f1} : M unit :=
  match ft_kind ft, f1, f2 with
  | PtrStruct, NContainer v1, NContainer v2 =>
      name ← getElemName ft;
      _ ← pushPrefix name None;
      _ ← forNilable forStruct_ v1 v2;
      popPrefix
  | Ptr, NLeaf v1, NLeaf v2 => forLeaf ft v1 v2
  | Map, NList m1, NList m2 => forList forStruct_ ft m1 m2
  | Slice, NLeafList v1, NLeafList v2 => forLeafList ft v1 v2
  | Int64, NEnum v1, NEnum v2 => forEnum ft v1 v2
  | Interface, NUnion v1, NUnion v2 => forUnion ft v1 v2
  | Bool, NEmpty v1, NEmpty v2 => forLeaf ft (Some (SBool v1)) (Some (SBool v2))
  | OtherKind, _, _ => recordError ErrUnexpectedType
  | _, _, _ => panic
  end.

Definition forStruct : option GoStruct -> option GoStruct -> M unit := forNilable forStruct_.

(** [None] when a call panics; else the results and the errors. *)
Definition Diff (original modified : option GoStruct) : option (DiffResults * list (list PathElem * DiffError)) :=
  let yd := mkDiff (mkResults [] []) [] [] in
  if match original with
     | Some s1 => negb (bool_decide (Some (typeOf s1) = (typeOf <$> modified)))
     | None => false
     end
  then Some (mkResults [] [], [([], ErrTypeMismatch)])
  else match forStruct original modified yd with
       | (Some _, yd) => Some (yd_results yd, yd_errors yd)
       | (None, _) => None
       end.
End diff.
