(* ===== verification/YgotDiffProofs.v ===== *)
(** Correctness of the tree difference: applied to the leaves of the original, the recorded
    deletes and updates give the leaves of the modified tree. *)

From S2P Require Import Prelude GnmiTypes PanicMonad YgotDiff.

(** ** Leaves of a tree and what a client makes of a notification *)

Abbreviation Path_ := (list PathElem).
Abbreviation View := (gmap (list PathElem) TypedValue).

Definition under (e : PathElem) (l : list (Path_ * TypedValue)) : list (Path_ * TypedValue) :=
  map (fun x => (e :: x.1, x.2)) l.

(** A client first removes what is at or below a deleted path, then sets the updates. *)
Definition applyDelete (V : View) (d : Path_) : View := filter (fun x => ~ d `prefix_of` x.1) V.
Definition applyUpdate (V : View) (u : LeafUpdate) : View := <[leaf_path u := leaf_val u]> V.
Definition applyResults (r : DiffResults) (V : View) : View :=
  foldl applyUpdate (foldl applyDelete V (dr_Delete r)) (dr_Update r).

Section leaves.
Context (schema : string -> list StructField).
Context (deref : N -> Scalar).
Context (EncodeTypedValue : LeafVal -> option TypedValue).
Context (PathKeyFromStruct : GoStruct -> option (gmap string string)).
Context (enumName : string -> Z -> option string).

Definition named (ft : StructField) (k : string -> list (Path_ * TypedValue)) : list (Path_ * TypedValue) :=
  match ft_path ft with Some n => k n | None => [] end.

Definition leaf (ft : StructField) (v : LeafVal) : list (Path_ * TypedValue) :=
  named ft (fun n => match EncodeTypedValue v with Some tv => [([mkElem n ∅], tv)] | None => [] end).

Definition enumLeaf (ft : StructField) (n : Z) : list (Path_ * TypedValue) :=
  if decide (n = 0%Z) then []
  else match enumName (ft_type ft) n with Some s => leaf ft (VScalar (SString s)) | None => [] end.

Definition fieldsLeaves (rec : StructField -> Node -> list (Path_ * TypedValue)) :=
  fix go (st : list StructField) (fs : list Node) {struct fs} : list (Path_ * TypedValue) :=
    match st, fs with
    | ft :: st, f :: fs => rec ft f ++ go st fs
    | _, _ => []
    end.

Definition entriesLeaves (rec : GoStruct -> list (Path_ * TypedValue)) (n : string)
    (m : list (gmap string string * GoStruct)) : list (Path_ * TypedValue) :=
  concat (map (fun kv => under (mkElem n kv.1) (rec kv.2)) m).

(** The leaves that are set, with their paths and encoded values. *)
Fixpoint leaves (s : GoStruct) : list (Path_ * TypedValue) :=
  match s with mkStruct t fs => fieldsLeaves fieldLeaves (schema t) fs end
with fieldLeaves (ft : StructField) (f : Node) {struct f} : list (Path_ * TypedValue) :=
  match f with
  | NContainer None => []
  | NContainer (Some s) => named ft (fun n => under (mkElem n ∅) (leaves s))
  | NLeaf v => match v with Some v => leaf ft (VScalar v) | None => [] end
  | NList m => named ft (fun n => entriesLeaves leaves n m)
  | NLeafList vs => match vs with [] => [] | _ => leaf ft (VItems (map (itemVal deref) vs)) end
  | NEnum n => enumLeaf ft n
  | NUnion p => match p with Some p => leaf ft (VUnion (deref p)) | None => [] end
  | NEmpty _ | NOther => []
  end.

Definition view (s : option GoStruct) : View :=
  list_to_map (match s with Some s => leaves s | None => [] end).

(** ** Well-formed trees

    The fields have the kinds of their types, the entries of a list are filed under their
    own keys, values that are compared are comparable.  Fields of type 'empty' are left
    out: [Diff] does not treat them as presence (see [empty_leaf_cleared]). *)
Definition comparable (v : Scalar) : bool := match v with SBinary _ => false | _ => true end.

Definition comparableItem (i : Item) : bool :=
  match i with Direct v => comparable v | Boxed _ => true end.

Definition wfFields (rec : StructField -> Node -> bool) :=
  fix go (st : list StructField) (fs : list Node) {struct fs} : bool :=
    match st, fs with
    | ft :: st, f :: fs => rec ft f && go st fs
    | [], [] => true
    | _, _ => false
    end.

Definition wfEntry (rec : GoStruct -> bool) (ft : StructField) (kv : gmap string string * GoStruct) : bool :=
  rec kv.2 && bool_decide (typeOf kv.2 = ft_type ft) && bool_decide (PathKeyFromStruct kv.2 = Some kv.1).

Fixpoint wf (s : GoStruct) : bool :=
  match s with mkStruct t fs => wfFields wfField (schema t) fs end
with wfField (ft : StructField) (f : Node) {struct f} : bool :=
  bool_decide (is_Some (ft_path ft)) &&
  match ft_kind ft, f with
  | PtrStruct, NContainer None => true
  | PtrStruct, NContainer (Some s) => wf s && bool_decide (typeOf s = ft_type ft)
  | Ptr, NLeaf v => match v with Some v => comparable v | None => true end
  | Map, NList m => bool_decide (NoDup m.*1) && forallb (wfEntry wf ft) m
  | Slice, NLeafList vs => forallb comparableItem vs
  | Int64, NEnum _ => true
  | Interface, NUnion p => match p with Some p => comparable (deref p) | None => true end
  | _, _ => false
  end.
End leaves.

(** ** Induction over trees *)

Section tree_induction.
Variable P : GoStruct -> Prop.
Variable Q : Node -> Prop.
Hypothesis Hstruct : forall t fs, Forall Q fs -> P (mkStruct t fs).
Hypothesis Hcontainer : forall c, match c with Some s => P s | None => True end -> Q (NContainer c).
Hypothesis Hlist : forall m, Forall (fun kv => P kv.2) m -> Q (NList m).
Hypothesis Hother : forall f, match f with NContainer _ | NList _ => False | _ => True end -> Q f.

Fixpoint struct_ind (s : GoStruct) : P s :=
  match s with
  | mkStruct t fs =>
      Hstruct t fs ((fix go (l : list Node) : Forall Q l :=
        match l with
        | [] => Forall_nil_2 Q
        | f :: l => Forall_cons_2 Q f l (node_ind f) (go l)
        end) fs)
  end
with node_ind (f : Node) : Q f :=
  match f with
  | NContainer c =>
      Hcontainer c (match c as c return match c with Some s => P s | None => True end with
                    | Some s => struct_ind s
                    | None => I
                    end)
  | NList m =>
      Hlist m ((fix go (l : list (gmap string string * GoStruct)) : Forall (fun kv => P kv.2) l :=
        match l with
        | [] => Forall_nil_2 _
        | kv :: l => Forall_cons_2 (fun kv => P kv.2) kv l (struct_ind kv.2) (go l)
        end) m)
  | f => Hother f I
  end.
End tree_induction.

(** ** What one comparison contributes *)

Definition headIn (R : PathElem -> Prop) (q : Path_) : Prop :=
  match q with e :: _ => R e | [] => False end.

(** Updates [us] and deletes [ds] that lead from the leaves [old] to [new]. *)
Record Patches (us : list LeafUpdate) (ds : list Path_) (old new : list (Path_ * TypedValue)) : Prop := {
  patch_sets : forall u, u ∈ us -> (leaf_path u, leaf_val u) ∈ new;
  patch_keeps : forall d q v, d ∈ ds -> (q, v) ∈ new -> ~ d `prefix_of` q;
  patch_covers : forall q v, (q, v) ∈ new -> mkLeaf q v ∈ us \/ (q, v) ∈ old;
  patch_drops : forall q v, (q, v) ∈ old -> (exists v', (q, v') ∈ new) \/ (exists d, d ∈ ds /\ d `prefix_of` q)
}.

#[global] Instance LeafUpdate_eq_dec : EqDecision LeafUpdate.
Proof. solve_decision. Defined.

Definition below (pre : Path_) (u : LeafUpdate) : LeafUpdate := mkLeaf (pre ++ leaf_path u) (leaf_val u).

Definition extended (yd : ygotDiff) (us : list LeafUpdate) (ds : list Path_) (es : list (Path_ * DiffError)) : ygotDiff :=
  mkDiff (mkResults (dr_Update (yd_results yd) ++ map (below (yd_prefix yd)) us)
                    (dr_Delete (yd_results yd) ++ map (app (yd_prefix yd)) ds))
         (yd_prefix yd) (yd_errors yd ++ es).

(** A computation returns, restores the prefix, and without errors leads from [old] to
    [new], within the region [R] of path elements; it records an error only if [F]. *)
Definition runs (F : Prop) (R : PathElem -> Prop) (m : M unit) (old new : list (Path_ * TypedValue)) : Prop :=
  forall yd, exists us ds es, m yd = (Some tt, extended yd us ds es) /\
    (es = [] \/ F) /\ (es = [] -> Patches us ds old new /\ Forall (headIn R) ds).

(** The same for whole structs, whose deletes may be of the struct itself. *)
Definition runsStruct (F : Prop) (m : M unit) (old new : list (Path_ * TypedValue)) : Prop :=
  forall yd, exists us ds es, m yd = (Some tt, extended yd us ds es) /\ (es = [] \/ F) /\ (es = [] -> Patches us ds old new).

Definition headsIn (R : PathElem -> Prop) (l : list (Path_ * TypedValue)) : Prop :=
  forall q v, (q, v) ∈ l -> headIn R q.

Lemma below_push pre e us : map (below (pre ++ [e])) us = map (below pre) (map (below [e]) us).
Proof. rewrite map_map. apply map_ext. intros u. unfold below. cbn. by rewrite <- app_assoc. Qed.

Lemma app_push (pre : Path_) e (ds : list Path_) : map (app (pre ++ [e])) ds = map (app pre) (map (cons e) ds).
Proof. rewrite map_map. apply map_ext. intros d. by rewrite <- app_assoc. Qed.

Lemma extended_nil yd : extended yd [] [] [] = yd.
Proof. destruct yd as [[us ds] pre es]. unfold extended. cbn. by rewrite !app_nil_r. Qed.

Lemma extended_twice yd us1 ds1 es1 us2 ds2 es2 :
  extended (extended yd us1 ds1 es1) us2 ds2 es2 = extended yd (us1 ++ us2) (ds1 ++ ds2) (es1 ++ es2).
Proof. unfold extended. cbn. by rewrite !map_app, !app_assoc. Qed.

Lemma runs_ext F R m old new old' new' :
  (forall x, x ∈ old <-> x ∈ old') -> (forall x, x ∈ new <-> x ∈ new') -> runs F R m old new -> runs F R m old' new'.
Proof.
  intros Ho Hn H yd. destruct (H yd) as (us & ds & es & E & HF & HP). exists us, ds, es. do 2 (split; [done|]).
  intros He. destruct (HP He) as [[A B C D] Fd]. split; [|done].
  split; intros *; rewrite <- ?Hn, <- ?Ho; [by apply A|by apply B| |].
  - by apply C.
  - intros Hq. destruct (D _ _ Hq) as [[v' Hv]|?]; [left; exists v'; by apply Hn|by right].
Qed.

Lemma Patches_refl l : Patches [] [] l l.
Proof.
  split.
  - by intros u ?%not_elem_of_nil.
  - by intros d q v ?%not_elem_of_nil.
  - by right.
  - intros q v ?. left. by exists v.
Qed.

Lemma runs_ret F R l : runs F R (mret tt) l l.
Proof.
  intros yd. exists [], [], []. rewrite extended_nil. split; [done|]. split; [by left|]. intros _. split; [apply Patches_refl|by constructor].
Qed.

Lemma runs_error (F : Prop) R old new e : F -> runs F R (recordError e) old new.
Proof.
  intros HF yd. exists [], [], [(yd_prefix yd, e)]. split; [|split; [by right|done]].
  unfold recordError, modify, extended. cbn. rewrite !app_nil_r. by destruct yd as [[]].
Qed.

(** Comparisons in disjoint regions compose. *)
Lemma runs_seq F (R1 R2 R : PathElem -> Prop) m1 m2 old1 new1 old2 new2 :
  (forall e, R1 e -> R2 e -> False) -> (forall e, R1 e -> R e) -> (forall e, R2 e -> R e) ->
  headsIn R1 new1 -> headsIn R2 new2 ->
  runs F R1 m1 old1 new1 -> runs F R2 m2 old2 new2 ->
  runs F R (m1 ≫= fun _ => m2) (old1 ++ old2) (new1 ++ new2).
Proof.
  intros Hdis Hs1 Hs2 Hn1 Hn2 H1 H2 yd.
  destruct (H1 yd) as (us1 & ds1 & es1 & E1 & G1 & P1).
  destruct (H2 (extended yd us1 ds1 es1)) as (us2 & ds2 & es2 & E2 & G2 & P2).
  exists (us1 ++ us2), (ds1 ++ ds2), (es1 ++ es2). split.
  { unfold mbind, SM_bind. by rewrite E1, E2, extended_twice. }
  split; [destruct G1 as [->|]; [|by right]; destruct G2 as [->|]; [by left|by right]|].
  intros [-> ->]%app_eq_nil. destruct (P1 eq_refl) as [[A1 B1 C1 D1] F1], (P2 eq_refl) as [[A2 B2 C2 D2] F2].
  rewrite Forall_forall in F1, F2.
  split; [split|].
  - intros u [Hu|Hu]%elem_of_app; apply elem_of_app; auto.
  - intros d q v [Hd|Hd]%elem_of_app [Hq|Hq]%elem_of_app; eauto; intros [k ->].
    + pose proof (F1 _ Hd) as Hh. pose proof (Hn2 _ _ Hq) as Hh'. destruct d as [|e d]; [done|]. by apply (Hdis e).
    + pose proof (F2 _ Hd) as Hh. pose proof (Hn1 _ _ Hq) as Hh'. destruct d as [|e d]; [done|]. by apply (Hdis e).
  - intros q v [Hq|Hq]%elem_of_app.
    + destruct (C1 _ _ Hq); [left|right]; apply elem_of_app; auto.
    + destruct (C2 _ _ Hq); [left|right]; apply elem_of_app; auto.
  - intros q v [Hq|Hq]%elem_of_app.
    + destruct (D1 _ _ Hq) as [[v' ?]|[d [??]]]; [left; exists v'|right; exists d]; set_solver.
    + destruct (D2 _ _ Hq) as [[v' ?]|[d [??]]]; [left; exists v'|right; exists d]; set_solver.
  - apply Forall_app. split; apply Forall_forall; intros d Hd.
    + specialize (F1 _ Hd). destruct d; cbn in *; auto.
    + specialize (F2 _ Hd). destruct d; cbn in *; auto.
Qed.

Lemma elem_of_under e l q v : (q, v) ∈ under e l <-> exists q', q = e :: q' /\ (q', v) ∈ l.
Proof.
  unfold under. rewrite list_elem_of_fmap. split.
  - intros ([q' v'] & [= -> ->] & H). by exists q'.
  - intros (q' & -> & H). by exists (q', v).
Qed.

Lemma headsIn_under (R : PathElem -> Prop) e l : R e -> headsIn R (under e l).
Proof. intros He q v (q' & -> & _)%elem_of_under. done. Qed.

(** A comparison of structs below the path element [e]. *)
Lemma Patches_under e us ds old new :
  Patches us ds old new ->
  Patches (map (below [e]) us) (map (cons e) ds) (under e old) (under e new).
Proof.
  intros [A B C D]. split.
  - intros u (u' & -> & Hu)%list_elem_of_fmap. apply elem_of_under. exists (leaf_path u'). split; [done|]. exact (A _ Hu).
  - intros d q v (d' & -> & Hd)%list_elem_of_fmap (q' & -> & Hq)%elem_of_under [k [= ->]].
    apply (B _ _ _ Hd Hq). by exists k.
  - intros q v (q' & -> & Hq)%elem_of_under. destruct (C _ _ Hq) as [?|?].
    + left. apply list_elem_of_fmap. by exists (mkLeaf q' v).
    + right. apply elem_of_under. by exists q'.
  - intros q v (q' & -> & Hq)%elem_of_under. destruct (D _ _ Hq) as [[v' ?]|(d & ? & [k ->])].
    + left. exists v'. apply elem_of_under. by exists q'.
    + right. exists (e :: d). split; [by apply list_elem_of_fmap; exists d|]. by exists k.
Qed.

Lemma mapIndex_in k m s : mapIndex k m = Some s -> (k, s) ∈ m.
Proof.
  induction m as [|[k' s'] m IH]; cbn; [done|]. destruct (decide (k = k')) as [->|]; [intros [= ->]; by left|].
  intros. right. auto.
Qed.

Lemma mapIndex_none k m : mapIndex k m = None <-> k ∉ m.*1.
Proof.
  induction m as [|[k' s'] m IH]; cbn; [split; [intros _; apply not_elem_of_nil|done]|].
  rewrite not_elem_of_cons. destruct (decide (k = k')); [split; [done|by intros []]|]. rewrite IH. naive_solver.
Qed.

Lemma mapIndex_nodup k m s : NoDup m.*1 -> (k, s) ∈ m -> mapIndex k m = Some s.
Proof.
  induction m as [|[k' s'] m IH]; [by intros _ ?%not_elem_of_nil|]. cbn. intros [Hk Hd]%NoDup_cons [[= -> ->]|Hin]%elem_of_cons.
  - by rewrite decide_True.
  - rewrite decide_False; [auto|]. intros ->. apply Hk. apply list_elem_of_fmap. by exists (k', s).
Qed.

(** ** Applying a patch *)

Definition functional (l : list (Path_ * TypedValue)) : Prop :=
  forall q v v', (q, v) ∈ l -> (q, v') ∈ l -> v = v'.

Lemma functional_app (R1 R2 : PathElem -> Prop) l1 l2 : (forall e, R1 e -> R2 e -> False) ->
  headsIn R1 l1 -> headsIn R2 l2 -> functional l1 -> functional l2 -> functional (l1 ++ l2).
Proof.
  intros Hd H1 H2 F1 F2 q v v' [Hq|Hq]%elem_of_app [Hq'|Hq']%elem_of_app; [by eapply F1| | |by eapply F2].
  - apply H1 in Hq. apply H2 in Hq'. destruct q as [|e q]; [done|]. by destruct (Hd e).
  - apply H2 in Hq. apply H1 in Hq'. destruct q as [|e q]; [done|]. by destruct (Hd e).
Qed.

Lemma lookup_leaves l q v : functional l -> (list_to_map l : View) !! q = Some v <-> (q, v) ∈ l.
Proof. intros H. split; [apply elem_of_list_to_map_2|]. intros Hq. apply elem_of_list_to_map_1'; [|done]. intros y. by apply H. Qed.

Lemma lookup_deletes V ds q v :
  foldl applyDelete V ds !! q = Some v <-> V !! q = Some v /\ forall d, d ∈ ds -> ~ d `prefix_of` q.
Proof.
  revert V. induction ds as [|d ds IH]; intros V; cbn.
  { split; [|by intros []]. intros H. split; [done|]. by intros d ?%not_elem_of_nil. }
  rewrite IH. unfold applyDelete. rewrite map_lookup_filter_Some. cbn. setoid_rewrite elem_of_cons. naive_solver.
Qed.

Lemma lookup_updates V us q : (forall u u', u ∈ us -> u' ∈ us -> leaf_path u = leaf_path u' -> leaf_val u = leaf_val u') ->
  forall v, foldl applyUpdate V us !! q = Some v <->
    mkLeaf q v ∈ us \/ ((forall v', mkLeaf q v' ∉ us) /\ V !! q = Some v).
Proof.
  induction us as [|[p w] us IH] using rev_ind; intros Hf v; cbn.
  { split; [intros H; right; split; [intros v'; apply not_elem_of_nil|done]|by intros [?%not_elem_of_nil|[]]]. }
  rewrite foldl_app. cbn. unfold applyUpdate at 1. cbn. setoid_rewrite elem_of_app. setoid_rewrite list_elem_of_singleton.
  destruct (decide (p = q)) as [->|Hne].
  - rewrite lookup_insert_eq. split; [intros [= ->]; by left; right|]. intros [[Hin|[= ->]]|[Hno _]]; [|done|].
    + f_equal. refine (Hf (mkLeaf q w) (mkLeaf q v) _ _ eq_refl); set_solver.
    + exfalso. apply (Hno w). by right.
  - rewrite lookup_insert_ne by done. rewrite IH; [naive_solver|]. intros u u' ??. apply Hf; set_solver.
Qed.

Lemma patch_applied us ds old new : Patches us ds old new -> functional old -> functional new ->
  applyResults (mkResults us ds) (list_to_map old) = list_to_map new.
Proof.
  intros [A B C D] Fo Fn. apply map_eq. intros q. apply option_eq. intros v. unfold applyResults. cbn.
  rewrite lookup_updates; [rewrite lookup_deletes, !lookup_leaves by done|].
  2: { intros u u' Hu Hu' E. apply A in Hu, Hu'. rewrite E in Hu. by eapply Fn. }
  split.
  - intros [Hu|(Hno & Hold & Hkeep)]; [exact (A _ Hu)|]. destruct (D _ _ Hold) as [[v' Hnew]|(d & Hd & Hpre)].
    + destruct (C _ _ Hnew) as [Hu|Ho]; [by destruct (Hno v')|]. by rewrite (Fo _ _ _ Hold Ho).
    + by destruct (Hkeep d).
  - intros Hnew. destruct (C _ _ Hnew) as [?|Ho]; [by left|].
    destruct (decide (mkLeaf q v ∈ us)) as [|Hno]; [by left|]. right. split; [|split; [done|]].
    + intros v' Hu. pose proof (A _ Hu) as Hn'. cbn in Hn'. rewrite (Fn _ _ _ Hnew Hn') in Hno. done.
    + intros d Hd. by apply (B _ _ _ Hd Hnew).
Qed.

Lemma map_id_below us : map (below []) us = us.
Proof. induction us as [|[] us IH]; [done|]. cbn. by rewrite IH. Qed.

(** ** The comparison of two trees *)

Section diff_proofs.
Context (schema : string -> list StructField).
Context (deref : N -> Scalar).
Context (EncodeTypedValue : LeafVal -> option TypedValue).
Context (TogNMINotifications : GoStruct -> option (list LeafUpdate)).
Context (PathKeyFromStruct : GoStruct -> option (gmap string string)).
Context (enumName : string -> Z -> option string).
Context (RecordAll : bool).

#[local] Abbreviation leaves := (leaves schema deref EncodeTypedValue enumName).
#[local] Abbreviation fieldLeaves := (fieldLeaves schema deref EncodeTypedValue enumName).
#[local] Abbreviation leaf := (leaf EncodeTypedValue).
#[local] Abbreviation wf := (wf schema deref PathKeyFromStruct).
#[local] Abbreviation wfField := (wfField schema deref PathKeyFromStruct).
#[local] Abbreviation forStruct := (forStruct schema deref EncodeTypedValue TogNMINotifications PathKeyFromStruct enumName RecordAll).
#[local] Abbreviation forStruct_ := (forStruct_ schema deref EncodeTypedValue TogNMINotifications PathKeyFromStruct enumName RecordAll).
#[local] Abbreviation forField := (forField schema deref EncodeTypedValue TogNMINotifications PathKeyFromStruct enumName RecordAll).
#[local] Abbreviation recordUpdates := (recordUpdates TogNMINotifications).
#[local] Abbreviation recordUpdate := (recordUpdate EncodeTypedValue PathKeyFromStruct).
#[local] Abbreviation recordDelete := (recordDelete PathKeyFromStruct).
#[local] Abbreviation pushPrefix := (pushPrefix PathKeyFromStruct).
#[local] Abbreviation Diff := (Diff schema deref EncodeTypedValue TogNMINotifications PathKeyFromStruct enumName RecordAll).

(** What the library has to do for a tree: encode the values of its leaves, name its
    enumerators, and render its structs. *)
Definition encodes (v : LeafVal) : bool := bool_decide (is_Some (EncodeTypedValue v)).

Fixpoint renders (s : GoStruct) : bool :=
  match s with
  | mkStruct t fs => bool_decide (is_Some (TogNMINotifications (mkStruct t fs))) && wfFields rendersField (schema t) fs
  end
with rendersField (ft : StructField) (f : Node) {struct f} : bool :=
  match f with
  | NContainer None | NLeaf None | NUnion None | NEmpty _ | NOther => true
  | NContainer (Some s) => renders s
  | NLeaf (Some v) => encodes (VScalar v)
  | NList m => forallb (fun kv => renders kv.2) m
  | NLeafList [] => true
  | NLeafList vs => encodes (VItems (map (itemVal deref) vs))
  | NEnum n =>
      if decide (n = 0%Z) then true
      else match enumName (ft_type ft) n with Some name => encodes (VScalar (SString name)) | None => false end
  | NUnion (Some p) => encodes (VUnion (deref p))
  end.

Lemma renders_struct s : renders s -> is_Some (TogNMINotifications s).
Proof. destruct s. by intros [?%bool_decide_unpack _]%andb_prop_elim. Qed.

(** The library renders exactly the set leaves of a struct. *)
Hypothesis to_notifications : forall s us, TogNMINotifications s = Some us ->
  forall q v, mkLeaf q v ∈ us <-> (q, v) ∈ leaves s.

(** No two fields of a generated type have one path tag. *)
Hypothesis schema_distinct : forall t, NoDup (map ft_path (schema t)).

Definition fieldRegion (ft : StructField) (e : PathElem) : Prop := ft_path ft = Some (elem_name e).

Lemma leaf_heads ft v : headsIn (fieldRegion ft) (leaf ft v).
Proof.
  intros q tv. unfold YgotDiffProofs.leaf, named. destruct (ft_path ft) eqn:E; [|by intros ?%not_elem_of_nil].
  destruct (EncodeTypedValue v); [|by intros ?%not_elem_of_nil].
  by intros [= -> ->]%list_elem_of_singleton.
Qed.

Lemma elem_of_entries rec n m q v :
  (q, v) ∈ entriesLeaves rec n m <-> exists k s, (k, s) ∈ m /\ (q, v) ∈ under (mkElem n k) (rec s).
Proof.
  unfold entriesLeaves. rewrite list_elem_of_In, in_concat. split.
  - intros (l & Hl & Hq). apply in_map_iff in Hl as ([k s'] & <- & Hin). exists k, s'. rewrite !list_elem_of_In. done.
  - intros (k & s' & Hin & Hq). exists (under (mkElem n k) (rec s')). rewrite <- !list_elem_of_In. split; [|done].
    apply list_elem_of_In, in_map_iff. exists (k, s'). split; [done|]. by apply list_elem_of_In.
Qed.

Lemma field_heads ft f : headsIn (fieldRegion ft) (fieldLeaves ft f).
Proof.
  intros q v. destruct f as [[s'|]|[sc|]|m|[|i vs]|n|[p|]|b|]; cbn [YgotDiffProofs.fieldLeaves];
    try (by intros ?%not_elem_of_nil); try apply leaf_heads.
  - unfold named. destruct (ft_path ft) eqn:E; [|by intros ?%not_elem_of_nil]. by apply headsIn_under.
  - unfold named. destruct (ft_path ft) as [nm|] eqn:E; [|by intros ?%not_elem_of_nil].
    intros (k & s' & _ & Hq)%elem_of_entries. revert Hq. by apply headsIn_under.
  - unfold enumLeaf. destruct (decide _); [by intros ?%not_elem_of_nil|].
    destruct (enumName _ _); [apply leaf_heads|by intros ?%not_elem_of_nil].
Qed.

(** ** Single fields *)

(** The leaves of a field that is a leaf are all at the field's own path. *)
Definition leafLike (ft : StructField) (l : list (Path_ * TypedValue)) : Prop :=
  forall q v, (q, v) ∈ l -> exists n, ft_path ft = Some n /\ q = [mkElem n ∅].

Lemma leafLike_nil ft : leafLike ft [].
Proof using Type. by intros q v ?%not_elem_of_nil. Qed.

Lemma leafLike_leaf ft v : leafLike ft (leaf ft v).
Proof using Type.
  intros q tv. unfold YgotDiffProofs.leaf, named. destruct (ft_path ft) as [n|] eqn:E; [|by intros ?%not_elem_of_nil].
  destruct (EncodeTypedValue v); [|by intros ?%not_elem_of_nil].
  intros [= -> ->]%list_elem_of_singleton. by exists n.
Qed.

#[local] Hint Resolve leafLike_nil leafLike_leaf : core.

Lemma runs_delete F ft old : is_Some (ft_path ft) -> leafLike ft old -> runs F (fieldRegion ft) (recordDelete ft) old [].
Proof using Type.
  intros [n Hn] Hold yd. exists [], [[mkElem n ∅]], []. split; [|split; [by left|]].
  - unfold YgotDiff.recordDelete, getElemName, newPathElem, recordDeletePath, newPath, mbind, SM_bind, modify. rewrite Hn.
    unfold mret, SM_ret, extended. cbn. by rewrite !app_nil_r.
  - intros _. split; [|repeat constructor; unfold fieldRegion; by rewrite Hn].
    split; [by intros u ?%not_elem_of_nil|by intros d q v _ ?%not_elem_of_nil|by intros q v ?%not_elem_of_nil|].
    intros q v Hq. right. exists [mkElem n ∅]. split; [by apply list_elem_of_singleton|].
    destruct (Hold _ _ Hq) as (n' & Hn' & ->). by simplify_eq.
Qed.

Lemma runs_update (F : Prop) ft v old : is_Some (ft_path ft) -> leafLike ft old -> (encodes v = false -> F) ->
  runs F (fieldRegion ft) (recordUpdate ft v) old (leaf ft v).
Proof using Type.
  intros [n Hn] Hold HF. unfold YgotDiff.recordUpdate.
  destruct (EncodeTypedValue v) as [tv|] eqn:Ev; [|apply runs_error, HF; unfold encodes; by rewrite Ev].
  intros yd. exists [mkLeaf [mkElem n ∅] tv], [], []. split; [|split; [by left|]].
  - unfold getElemName, newPathElem, addUpdates, newPath, gets, mbind, SM_bind, modify. rewrite Hn.
    unfold mret, SM_ret, extended. cbn. by rewrite !app_nil_r.
  - intros _. split; [|by constructor].
    assert (leaf ft v = [([mkElem n ∅], tv)]) as -> by (unfold YgotDiffProofs.leaf, named; by rewrite Hn, Ev).
    split.
    + intros u ->%list_elem_of_singleton. by apply list_elem_of_singleton.
    + by intros d q v' ?%not_elem_of_nil.
    + intros q v' [= -> ->]%list_elem_of_singleton. left. by apply list_elem_of_singleton.
    + intros q v' Hq. left. exists tv. destruct (Hold _ _ Hq) as (n' & Hn' & ->). simplify_eq. by apply list_elem_of_singleton.
Qed.

Lemma ifaceNeq_comparable a b : comparable a -> comparable b -> ifaceNeq a b = Some (bool_decide (a <> b)).
Proof using Type. by destruct a, b. Qed.

(** A field that is written only when its old and new values differ. *)
Lemma runs_ifNeq (F : Prop) ft (a b : Scalar) v : is_Some (ft_path ft) -> comparable a -> comparable b -> (encodes (v b) = false -> F) ->
  runs F (fieldRegion ft) (ifNeq (ifaceNeq a b) (recordUpdate ft (v b))) (leaf ft (v a)) (leaf ft (v b)).
Proof using Type.
  intros Hp Ha Hb HF. rewrite (ifaceNeq_comparable _ _ Ha Hb). unfold ifNeq.
  case_bool_decide as E; [apply runs_update; auto|].
  subst b. apply runs_ret.
Qed.

Lemma runs_leaf (F : Prop) ft v1 v2 : is_Some (ft_path ft) ->
  match v1 with Some v => comparable v | None => true end -> match v2 with Some v => comparable v | None => true end ->
  (rendersField ft (NLeaf v2) = false -> F) ->
  runs F (fieldRegion ft) (forLeaf EncodeTypedValue PathKeyFromStruct RecordAll ft v1 v2)
    (fieldLeaves ft (NLeaf v1)) (fieldLeaves ft (NLeaf v2)).
Proof using Type.
  intros Hp H1 H2 HF. cbn [YgotDiffProofs.fieldLeaves]. unfold forLeaf.
  destruct v2 as [s2|], v1 as [s1|]; [| |by apply runs_delete|apply runs_ret];
    destruct RecordAll; try (apply runs_update; auto). by apply (runs_ifNeq F ft s1 s2 VScalar).
Qed.

Lemma runs_union (F : Prop) ft v1 v2 : is_Some (ft_path ft) ->
  match v1 with Some p => comparable (deref p) | None => true end ->
  match v2 with Some p => comparable (deref p) | None => true end ->
  (rendersField ft (NUnion v2) = false -> F) ->
  runs F (fieldRegion ft) (forUnion deref EncodeTypedValue PathKeyFromStruct RecordAll ft v1 v2)
    (fieldLeaves ft (NUnion v1)) (fieldLeaves ft (NUnion v2)).
Proof using Type.
  intros Hp H1 H2 HF. cbn [YgotDiffProofs.fieldLeaves]. unfold forUnion.
  destruct v2 as [p2|], v1 as [p1|]; [| |by apply runs_delete|apply runs_ret];
    destruct RecordAll; try (apply runs_update; auto). by apply (runs_ifNeq F ft (deref p1) (deref p2) VUnion).
Qed.

Lemma leafLike_enum ft n : leafLike ft (enumLeaf EncodeTypedValue enumName ft n).
Proof using Type. unfold enumLeaf. destruct (decide _); [auto|]. destruct (enumName _ _); auto. Qed.

Lemma runs_enum (F : Prop) ft n1 n2 : is_Some (ft_path ft) -> (rendersField ft (NEnum n2) = false -> F) ->
  runs F (fieldRegion ft) (forEnum EncodeTypedValue PathKeyFromStruct enumName RecordAll ft n1 n2)
    (fieldLeaves ft (NEnum n1)) (fieldLeaves ft (NEnum n2)).
Proof using Type.
  intros Hp HF. cbn [YgotDiffProofs.fieldLeaves]. unfold forEnum. destruct (decide (n2 = 0%Z)) as [->|Hn2].
  - change (enumLeaf EncodeTypedValue enumName ft 0) with (@nil (Path_ * TypedValue)).
    destruct (decide (n1 = 0%Z)) as [->|]; [apply runs_ret|]. apply runs_delete; [done|apply leafLike_enum].
  - destruct (negb RecordAll && bool_decide (n1 = n2)) eqn:E.
    + apply andb_prop in E as [_ ->%bool_decide_eq_true]. apply runs_ret.
    + unfold enumLeaf at 2. rewrite decide_False by done.
      cbn [rendersField] in HF. rewrite decide_False in HF by done.
      destruct (enumName (ft_type ft) n2) eqn:En; [|by apply runs_error, HF]. apply runs_update; [done|apply leafLike_enum|done].
Qed.

Lemma same_items F ft l1 l2 changed old new : length l1 = length l2 -> forallb comparableItem l1 -> forallb comparableItem l2 ->
  (l1 = l2 -> old = new) -> runs F (fieldRegion ft) changed old new -> runs F (fieldRegion ft) (sameItems l1 l2 changed) old new.
Proof using Type.
  intros Hl H1 H2 Heq Hc. revert l2 Hl H1 H2 Heq. induction l1 as [|a l1 IH]; intros [|b l2] Hl H1 H2 Heq; try discriminate Hl; try (injection Hl as Hl).
  - cbn. rewrite Heq by done. apply runs_ret.
  - cbn in H1, H2. apply andb_prop_elim in H1 as [Ha H1], H2 as [Hb H2]. cbn [sameItems].
    assert (itemNeq a b = Some (bool_decide (a <> b))) as ->.
    { destruct a as [a|p], b as [b|q]; cbn in *.
      - rewrite ifaceNeq_comparable by done. f_equal. apply bool_decide_ext. split; [congruence|]. intros H [= ->]. by apply H.
      - by rewrite bool_decide_true.
      - by rewrite bool_decide_true.
      - f_equal. apply bool_decide_ext. split; [congruence|]. intros H [= ->]. by apply H. }
    case_bool_decide as E; [done|]. subst b. apply IH; auto. intros ->. by apply Heq.
Qed.

Lemma runs_leaflist (F : Prop) ft l1 l2 : is_Some (ft_path ft) -> forallb comparableItem l1 -> forallb comparableItem l2 ->
  (rendersField ft (NLeafList l2) = false -> F) ->
  runs F (fieldRegion ft) (forLeafList deref EncodeTypedValue PathKeyFromStruct RecordAll ft l1 l2)
    (fieldLeaves ft (NLeafList l1)) (fieldLeaves ft (NLeafList l2)).
Proof using Type.
  intros Hp H1 H2 HF. cbn [YgotDiffProofs.fieldLeaves]. unfold forLeafList.
  set (old := match l1 with [] => [] | _ => leaf ft (VItems (map (itemVal deref) l1)) end).
  assert (leafLike ft old) as Hold by (unfold old; destruct l1; auto).
  destruct (decide (length l2 = 0)) as [->%nil_length_inv|Hn2].
  - destruct (decide (length l1 = 0)) as [E%nil_length_inv|]; [|by apply runs_delete].
    unfold old. rewrite E. apply runs_ret.
  - assert (match l2 with [] => [] | _ => leaf ft (VItems (map (itemVal deref) l2)) end = leaf ft (VItems (map (itemVal deref) l2)))
      as -> by by destruct l2.
    assert (encodes (VItems (map (itemVal deref) l2)) = false -> F) as HF' by by destruct l2.
    destruct (RecordAll || bool_decide (length l1 <> length l2)) eqn:E; [by apply runs_update|].
    apply orb_false_elim in E as [_ E%bool_decide_eq_false%dec_stable].
    apply same_items; [done..| |by apply runs_update]. intros ->. unfold old. by destruct l2.
Qed.

(** ** Structs, containers and lists *)

Lemma runs_struct F R m old new : runs F R m old new -> runsStruct F m old new.
Proof using Type.
  intros H yd. destruct (H yd) as (us & ds & es & E & G & P). exists us, ds, es. do 2 (split; [done|]). intros He. by destruct (P He).
Qed.

Lemma runs_updates (F : Prop) s : (renders s = false -> F) -> runsStruct F (recordUpdates s) [] (leaves s).
Proof using to_notifications.
  intros HF yd. unfold YgotDiff.recordUpdates. destruct (TogNMINotifications s) as [us|] eqn:E.
  - exists us, [], []. split; [|split; [by left|]].
    + unfold mbind, SM_bind, gets, addUpdates, modify, extended. cbn. by rewrite !app_nil_r.
    + intros _. split.
      * intros [q v] Hu. cbn. by apply (to_notifications _ _ E).
      * by intros d q v ?%not_elem_of_nil.
      * intros q v Hq. left. by apply (to_notifications _ _ E).
      * by intros q v ?%not_elem_of_nil.
  - exists [], [], [(yd_prefix yd, ErrToNotifications)]. split; [|split; [right; apply HF, not_true_iff_false; intros Hr; apply Is_true_true, renders_struct in Hr; rewrite E in Hr; by destruct Hr|done]].
    unfold recordError, modify, extended. destruct yd as [[]]. cbn. by rewrite !app_nil_r.
Qed.

Lemma runs_deleted F old : runsStruct F (recordDeletePath None) old [].
Proof using Type.
  intros yd. exists [], [[]], []. split; [|split; [by left|]].
  - unfold recordDeletePath, modify, newPath, extended. cbn. by rewrite !app_nil_r.
  - intros _. split; [by intros u ?%not_elem_of_nil|by intros d q v _ ?%not_elem_of_nil|by intros q v ?%not_elem_of_nil|].
    intros q v _. right. exists []. split; [by apply list_elem_of_singleton|by apply prefix_nil].
Qed.

(** A comparison of structs below a pushed path element. *)
Lemma runs_push F n key e m old new (R : PathElem -> Prop) :
  (forall yd, newPathElem PathKeyFromStruct n key yd = (Some e, yd)) -> R e -> runsStruct F m old new ->
  runs F R (_ ← pushPrefix n key; _ ← m; popPrefix) (under e old) (under e new).
Proof using Type.
  intros He HR H yd. unfold YgotDiff.pushPrefix, mbind, SM_bind. rewrite He.
  set (yd1 := mkDiff (yd_results yd) (yd_prefix yd ++ [e]) (yd_errors yd)).
  destruct (H yd1) as (us & ds & es & E & G & P). unfold modify. fold yd1. rewrite E.
  exists (map (below [e]) us), (map (cons e) ds), es. split; [|split; [done|]].
  - unfold popPrefix, modify, extended, yd1. cbn. rewrite length_app, Nat.add_sub, take_app_length.
    by rewrite below_push, app_push.
  - intros Hes. split; [by apply Patches_under, P|]. apply Forall_forall. by intros d (d' & -> & _)%list_elem_of_fmap.
Qed.

(** A loop over the instances of a list, each in its own region. *)
Lemma runs_each F n (R : gmap string string * GoStruct -> PathElem -> Prop) f old new l :
  NoDup l.*1 -> (forall kv e, R kv e -> e = mkElem n kv.1) ->
  (forall kv, kv ∈ l -> runs F (R kv) (f kv) (old kv) (new kv) /\ headsIn (R kv) (new kv)) ->
  runs F (fun e => exists kv, kv ∈ l /\ R kv e) (each_ f l) (concat (map old l)) (concat (map new l)) /\
  headsIn (fun e => exists kv, kv ∈ l /\ R kv e) (concat (map new l)).
Proof using Type.
  intros Hd HR. induction l as [|kv l IH]; intros Hf; cbn.
  { split; [apply runs_ret|by intros q v ?%not_elem_of_nil]. }
  cbn in Hd. apply NoDup_cons in Hd as [Hk Hd]. destruct (Hf kv) as [Hrun Hheads]; [by left|].
  destruct IH as [IHr IHh]; [done|intros; apply Hf; by right|]. split.
  - eapply (runs_seq _ (R kv)); [| | |done|exact IHh|done|exact IHr].
    + intros e H1 (kv' & Hin & H2). apply HR in H1 as ->, H2 as [= E]. apply Hk. rewrite E.
      apply list_elem_of_fmap. by exists kv'.
    + intros e ?. exists kv. split; [by left|done].
    + intros e (kv' & ? & ?). exists kv'. split; [by right|done].
  - intros q v [Hq|Hq]%elem_of_app.
    + apply Hheads in Hq. destruct q; [done|]. exists kv. split; [by left|done].
    + apply IHh in Hq. destruct q; [done|]. destruct Hq as (kv' & ? & ?). exists kv'. split; [by right|done].
Qed.

Lemma wf_entry ft kv : wfEntry PathKeyFromStruct wf ft kv ->
  wf kv.2 /\ typeOf kv.2 = ft_type ft /\ PathKeyFromStruct kv.2 = Some kv.1.
Proof using Type.
  intros [[H1 H2]%andb_prop_elim H3]%andb_prop_elim. split; [done|]. by apply bool_decide_unpack in H2, H3.
Qed.

Lemma forallb_in {A} (f : A -> bool) l x : forallb f l -> x ∈ l -> f x.
Proof using Type. intros H Hx. apply Is_true_true, (proj1 (forallb_forall f l)); [by apply Is_true_true|by apply list_elem_of_In]. Qed.

Lemma newPathElem_key n s k yd : PathKeyFromStruct s = Some k -> newPathElem PathKeyFromStruct n (Some s) yd = (Some (mkElem n k), yd).
Proof using Type. intros H. unfold newPathElem. by rewrite H. Qed.

Lemma runs_named F R ft n (k : string -> M unit) old new : ft_path ft = Some n ->
  runs F R (k n) old new -> runs F R (name ← getElemName ft; k name) old new.
Proof using Type. intros Hn H yd. unfold mbind, SM_bind, getElemName. rewrite Hn. apply H. Qed.

(** The comparison of two lists, given that of their instances. *)
Section lists.
Context (F : Prop) (ft : StructField) (n : string) (m1 m2 : list (gmap string string * GoStruct)).
Hypothesis Hn : ft_path ft = Some n.
Hypothesis Hd1 : NoDup m1.*1.
Hypothesis Hd2 : NoDup m2.*1.
Hypothesis Hw1 : forall kv, kv ∈ m1 -> wfEntry PathKeyFromStruct wf ft kv.
Hypothesis Hw2 : forall kv, kv ∈ m2 -> wfEntry PathKeyFromStruct wf ft kv.
Hypothesis HF : rendersField ft (NList m2) = false -> F.
Hypothesis IH : forall kv s2, kv ∈ m1 -> wf s2 -> typeOf kv.2 = typeOf s2 -> wf kv.2 -> (renders s2 = false -> F) ->
  runsStruct F (forStruct_ kv.2 (Some s2)) (leaves kv.2) (leaves s2).

Definition entry (kv : gmap string string * GoStruct) := under (mkElem n kv.1) (leaves kv.2).
Definition kept (kv : gmap string string * GoStruct) :=
  match mapIndex kv.1 m2 with Some s2 => under (mkElem n kv.1) (leaves s2) | None => [] end.
Definition fresh (kv : gmap string string * GoStruct) :=
  match mapIndex kv.1 m1 with Some _ => [] | None => entry kv end.
Definition keptRegion (kv : gmap string string * GoStruct) (e : PathElem) := e = mkElem n kv.1.
Definition freshRegion (kv : gmap string string * GoStruct) (e : PathElem) := mapIndex kv.1 m1 = None /\ e = mkElem n kv.1.

Lemma entry_renders kv : kv ∈ m2 -> renders kv.2 = false -> F.
Proof using HF.
  intros Hin Hr. apply HF, not_true_iff_false. cbn [rendersField]. intros Hall. rewrite forallb_forall in Hall.
  specialize (Hall kv (proj1 (list_elem_of_In _ _) Hin)). congruence.
Qed.

Lemma runs_old :
  runs F (fun e => exists kv, kv ∈ m1 /\ keptRegion kv e) (oldInstances PathKeyFromStruct forStruct_ n m1 m2)
    (concat (map entry m1)) (concat (map kept m1)) /\
  headsIn (fun e => exists kv, kv ∈ m1 /\ keptRegion kv e) (concat (map kept m1)).
Proof using Hd1 Hw1 Hw2 HF IH.
  apply (runs_each F n); [done|by intros kv e ->|]. intros kv Hin. unfold kept.
  destruct (wf_entry _ _ (Hw1 _ Hin)) as (Hw & Ht & Hk). destruct (mapIndex kv.1 m2) as [s2|] eqn:E.
  - apply mapIndex_in in E. destruct (wf_entry _ _ (Hw2 _ E)) as (Hw' & Ht' & Hk'). cbn in Hw', Ht', Hk'. split; [|by apply headsIn_under].
    apply (runs_push F n (Some s2) (mkElem n kv.1)); [intros; by apply newPathElem_key|done|].
    apply IH; [done..|congruence|done|exact (entry_renders _ E)].
  - split; [|by intros q v ?%not_elem_of_nil]. intros yd. exists [], [[mkElem n kv.1]], []. split; [|split; [by left|]].
    + unfold mbind, SM_bind. rewrite (newPathElem_key _ _ _ _ Hk).
      unfold recordDeletePath, modify, newPath, extended. cbn. by rewrite !app_nil_r.
    + intros _. split; [|by repeat constructor].
      split; [by intros u ?%not_elem_of_nil|by intros d q v _ ?%not_elem_of_nil|by intros q v ?%not_elem_of_nil|].
      intros q v (q' & -> & _)%elem_of_under. right. exists [mkElem n kv.1]. split; [by apply list_elem_of_singleton|by exists q'].
Qed.

Lemma runs_new :
  runs F (fun e => exists kv, kv ∈ m2 /\ freshRegion kv e) (newInstances TogNMINotifications PathKeyFromStruct n m1 m2)
    [] (concat (map fresh m2)) /\
  headsIn (fun e => exists kv, kv ∈ m2 /\ freshRegion kv e) (concat (map fresh m2)).
Proof using Hd2 Hw2 HF to_notifications.
  assert (concat (map (fun _ => []) m2) = @nil (Path_ * TypedValue)) as Enil by (clear; by induction m2).
  rewrite <- Enil at 1.
  apply (runs_each F n); [done|by intros kv e [_ ->]|]. intros kv Hin. unfold fresh.
  destruct (wf_entry _ _ (Hw2 _ Hin)) as (Hw & Ht & Hk). unfold freshRegion. destruct (mapIndex kv.1 m1) as [s1|] eqn:E.
  - split; [apply runs_ret|by intros q v ?%not_elem_of_nil].
  - split; [|by apply headsIn_under].
    apply (runs_push F n (Some kv.2) (mkElem n kv.1) _ []); [intros; by apply newPathElem_key|done|by apply runs_updates, entry_renders].
Qed.

Lemma instances_split q v :
  (q, v) ∈ concat (map kept m1) ++ concat (map fresh m2) <-> (q, v) ∈ entriesLeaves leaves n m2.
Proof using Hd2.
  rewrite elem_of_app. setoid_rewrite elem_of_entries. rewrite !list_elem_of_In, !in_concat. split.
  - intros [(l & Hl & Hq)|(l & Hl & Hq)]; apply in_map_iff in Hl as ([k s'] & <- & Hin%list_elem_of_In); unfold kept, fresh in Hq; cbn in Hq.
    + destruct (mapIndex k m2) eqn:E; [|done]. exists k, g. split; [by apply mapIndex_in|by apply list_elem_of_In].
    + destruct (mapIndex k m1) eqn:E; [done|]. exists k, s'. split; [done|by apply list_elem_of_In].
  - intros (k & s' & Hin & Hq%list_elem_of_In). pose proof (mapIndex_nodup _ _ _ Hd2 Hin) as E2.
    destruct (mapIndex k m1) as [s1|] eqn:E1.
    + left. exists (kept (k, s1)). unfold kept. cbn. rewrite E2. split; [|done].
      apply in_map_iff. exists (k, s1). cbn. rewrite E2. split; [done|]. by apply list_elem_of_In, mapIndex_in.
    + right. exists (fresh (k, s')). unfold fresh. cbn. rewrite E1. split; [|done].
      apply in_map_iff. exists (k, s'). cbn. rewrite E1. split; [done|]. by apply list_elem_of_In.
Qed.

Lemma runs_list :
  runs F (fieldRegion ft) (forList TogNMINotifications PathKeyFromStruct forStruct_ ft m1 m2)
    (entriesLeaves leaves n m1) (entriesLeaves leaves n m2).
Proof using Hn Hd1 Hd2 Hw1 Hw2 HF IH to_notifications.
  unfold forList. apply (runs_named F _ ft n); [done|]. destruct runs_old as [Ro Ho], runs_new as [Rn Hh].
  apply (runs_ext F _ _ (concat (map entry m1) ++ []) (concat (map kept m1) ++ concat (map fresh m2))).
  - intros x. by rewrite app_nil_r.
  - intros [q v]. apply instances_split.
  - eapply runs_seq; [| | |exact Ho|exact Hh|exact Ro|exact Rn].
    + intros e ([k1 s1] & Hin1 & ->) ([k2 s2] & Hin2 & Hnone & [= ->]). cbn in *. apply mapIndex_none in Hnone. apply Hnone.
      apply list_elem_of_fmap. by exists (k2, s1).
    + by intros e (kv & _ & ->).
    + by intros e (kv & _ & _ & ->).
Qed.
End lists.

(** ** Whole trees *)

Definition fieldsRegion (st : list StructField) (e : PathElem) : Prop := exists ft, ft ∈ st /\ fieldRegion ft e.

Lemma fields_heads st fs : headsIn (fieldsRegion st) (fieldsLeaves fieldLeaves st fs).
Proof using Type.
  revert fs. induction st as [|ft st IH]; intros [|f fs] q v; cbn; try (by intros ?%not_elem_of_nil).
  intros [Hq|Hq]%elem_of_app.
  - apply field_heads in Hq. destruct q; [done|]. exists ft. split; [by left|done].
  - apply IH in Hq. destruct q; [done|]. destruct Hq as (ft' & ? & ?). exists ft'. split; [by right|done].
Qed.

Lemma fields_disjoint ft st e : NoDup (map ft_path (ft :: st)) -> fieldsRegion st e -> fieldRegion ft e -> False.
Proof using Type.
  cbn. intros [Hn _]%NoDup_cons (ft' & Hin & H') H. apply Hn. unfold fieldRegion in *. rewrite H, <- H'.
  by apply list_elem_of_fmap_2.
Qed.

Definition fieldCorrect (f1 : Node) : Prop := forall (F : Prop) ft f2, wfField ft f1 -> wfField ft f2 -> (rendersField ft f2 = false -> F) ->
  runs F (fieldRegion ft) (forField ft f1 f2) (fieldLeaves ft f1) (fieldLeaves ft f2).

Definition structCorrect (s1 : GoStruct) : Prop := forall (F : Prop) s2, wf s1 -> wf s2 -> typeOf s1 = typeOf s2 -> (renders s2 = false -> F) ->
  runsStruct F (forStruct_ s1 (Some s2)) (leaves s1) (leaves s2).

Lemma runs_fields (F : Prop) st fs1 fs2 : NoDup (map ft_path st) -> Forall fieldCorrect fs1 ->
  wfFields wfField st fs1 -> wfFields wfField st fs2 -> (wfFields rendersField st fs2 = false -> F) ->
  runs F (fieldsRegion st) (forFields forField st fs1 fs2) (fieldsLeaves fieldLeaves st fs1) (fieldsLeaves fieldLeaves st fs2).
Proof using Type.
  revert fs1 fs2. induction st as [|ft st IH]; intros [|f1 fs1] [|f2 fs2] Hd Hc H1 H2 HF; try done; try apply runs_ret.
  cbn in H1, H2. apply andb_prop_elim in H1 as [Hf1 H1], H2 as [Hf2 H2]. apply Forall_cons in Hc as [Hc Hcs].
  cbn [fieldsLeaves forFields]. pose proof Hd as Hd'. cbn in Hd'. apply NoDup_cons in Hd' as [_ Hd'].
  apply (runs_ext _ _ _ (fieldsLeaves fieldLeaves st fs1 ++ fieldLeaves ft f1) (fieldsLeaves fieldLeaves st fs2 ++ fieldLeaves ft f2)).
  1,2: intros x; rewrite !elem_of_app; tauto.
  eapply (runs_seq _ (fieldsRegion st) (fieldRegion ft)); [| | |apply fields_heads|apply field_heads|apply IH; try done|apply Hc; try done].
  - intros e. by apply fields_disjoint.
  - intros e (ft' & ? & ?). exists ft'. split; [by right|done].
  - intros e ?. exists ft. split; [by left|done].
  - intros Hr. apply HF. cbn. by rewrite Hr, andb_false_r.
  - intros Hr. apply HF. cbn. by rewrite Hr.
Qed.

Lemma wf_field ft f : wfField ft f -> exists n, ft_path ft = Some n /\
  match ft_kind ft, f with
  | PtrStruct, NContainer c => match c with Some s => wf s /\ typeOf s = ft_type ft | None => True end
  | Ptr, NLeaf v => match v with Some v => comparable v | None => true end
  | Map, NList m => NoDup m.*1 /\ forall kv, kv ∈ m -> wfEntry PathKeyFromStruct wf ft kv
  | Slice, NLeafList vs => forallb comparableItem vs
  | Int64, NEnum _ => True
  | Interface, NUnion p => match p with Some p => comparable (deref p) | None => true end
  | _, _ => False
  end.
Proof using Type.
  destruct f as [c|v|m|vs|z|p|b|]; cbn [YgotDiffProofs.wfField]; intros [[n Hn]%bool_decide_unpack H]%andb_prop_elim;
    exists n; (split; [done|]); destruct (ft_kind ft); try done.
  - destruct c as [s'|]; [|done]. apply andb_prop_elim in H as [? ?%bool_decide_unpack]. done.
  - by destruct v.
  - apply andb_prop_elim in H as [Hd%bool_decide_unpack Hall]. split; [done|]. intros kv. by apply forallb_in.
  - by destruct p.
Qed.

Lemma runs_container (F : Prop) ft c1 c2 n : ft_path ft = Some n -> match c1 with Some s => structCorrect s | None => True end ->
  match c1 with Some s => wf s /\ typeOf s = ft_type ft | None => True end ->
  match c2 with Some s => wf s /\ typeOf s = ft_type ft | None => True end ->
  (rendersField ft (NContainer c2) = false -> F) ->
  runsStruct F (forNilable TogNMINotifications forStruct_ c1 c2)
    (match c1 with Some s => leaves s | None => [] end) (match c2 with Some s => leaves s | None => [] end).
Proof using to_notifications.
  intros Hn Hc H1 H2 HF. destruct c1 as [s1|], c2 as [s2|]; cbn [forNilable].
  - destruct H1, H2. apply Hc; [done..|congruence|done].
  - destruct s1. apply runs_deleted.
  - by apply runs_updates.
  - apply (runs_struct F (fun _ => True)), runs_ret.
Qed.

Lemma tree_correct s1 : structCorrect s1.
Proof using to_notifications schema_distinct.
  apply (struct_ind structCorrect fieldCorrect).
  - intros t fs Hfs F [t2 fs2] H1 H2 Ht HF. cbn in Ht. subst t2.
    apply (runs_struct F (fieldsRegion (schema t))). apply runs_fields; [done..|]. cbn [fieldsOf]. intros Hr.
    apply HF. cbn [renders]. by rewrite Hr, andb_false_r.
  - intros c Hc F ft f2 (n & Hn & H1)%wf_field (_ & _ & H2)%wf_field HF. destruct (ft_kind ft) eqn:Ek; try done.
    destruct f2 as [c2| | | | | | |]; try done. cbn [YgotDiff.forField YgotDiffProofs.fieldLeaves]. rewrite Ek.
    apply (runs_named F _ ft n); [done|]. unfold named. rewrite Hn.
    pose proof (runs_container F ft c c2 n Hn Hc H1 H2 HF) as H.
    apply (runs_push F n None (mkElem n ∅) _ _ _ (fieldRegion ft) (fun _ => eq_refl) Hn) in H. by destruct c, c2.
  - intros m Hm F ft f2 (n & Hn & H1)%wf_field (_ & _ & H2)%wf_field HF. destruct (ft_kind ft) eqn:Ek; try done.
    destruct f2 as [| |m2| | | | |]; try done. cbn [YgotDiff.forField YgotDiffProofs.fieldLeaves]. rewrite Ek.
    unfold named. rewrite Hn. destruct H1, H2. apply runs_list; auto.
    intros kv s2 Hin Hw Ht Hw1 Hr. rewrite Forall_forall in Hm. by apply Hm.
  - intros f Hf F ft f2 (n & Hn & H1)%wf_field (_ & _ & H2)%wf_field HF.
    destruct f, f2; try done; destruct (ft_kind ft) eqn:Ek; try done; cbn [YgotDiff.forField]; rewrite Ek.
    + apply runs_leaf; [by rewrite Hn|by destruct v|by destruct v0|done].
    + apply runs_leaflist; [by rewrite Hn|exact H1|exact H2|done].
    + apply runs_enum; [|done]. rewrite Hn. by eexists.
    + apply runs_union; [by rewrite Hn|by destruct p|by destruct p0|done].
Qed.

(** ** One value per path *)

Lemma under_functional e l : functional l -> functional (under e l).
Proof using Type.
  intros H q v v' (q1 & -> & H1)%elem_of_under (q2 & [= <-] & H2)%elem_of_under. by apply (H q1).
Qed.

Lemma leaf_functional ft v : functional (leaf ft v).
Proof using Type.
  intros q x y. unfold YgotDiffProofs.leaf, named. destruct (ft_path ft); [|by intros ?%not_elem_of_nil].
  destruct (EncodeTypedValue v); [|by intros ?%not_elem_of_nil].
  by intros [= -> ->]%list_elem_of_singleton [= ->]%list_elem_of_singleton.
Qed.

Lemma entries_functional n m : NoDup m.*1 -> Forall (fun kv => functional (leaves kv.2)) m ->
  functional (entriesLeaves leaves n m).
Proof using Type.
  intros Hd Hf q v v' (k1 & s1 & H1 & Hq1)%elem_of_entries (k2 & s2 & H2 & Hq2)%elem_of_entries.
  pose proof Hq1 as (q1 & -> & _)%elem_of_under. pose proof Hq2 as (q2 & [= <- <-] & _)%elem_of_under.
  apply (mapIndex_nodup _ _ _ Hd) in H1 as E1, H2 as E2. simplify_eq.
  rewrite Forall_forall in Hf. exact (under_functional _ _ (Hf _ H1) _ _ _ Hq1 Hq2).
Qed.

Lemma fields_functional st fs : NoDup (map ft_path st) -> wfFields wfField st fs ->
  Forall (fun f => forall ft, wfField ft f -> functional (fieldLeaves ft f)) fs -> functional (fieldsLeaves fieldLeaves st fs).
Proof using Type.
  revert fs. induction st as [|ft st IH]; intros [|f fs] Hd Hw Hf; try done; try (by intros q v v' ?%not_elem_of_nil).
  cbn in Hw. apply andb_prop_elim in Hw as [Hw Hws]. apply Forall_cons in Hf as [Hf Hfs].
  cbn [fieldsLeaves]. pose proof Hd as Hd'. cbn in Hd'. apply NoDup_cons in Hd' as [_ Hd'].
  apply (functional_app (fieldRegion ft) (fieldsRegion st)); [|apply field_heads|apply fields_heads|by apply Hf|by apply IH].
  intros e H1 H2. by eapply fields_disjoint.
Qed.

Lemma leaves_functional s : wf s -> functional (leaves s).
Proof using schema_distinct.
  apply (struct_ind (fun s => wf s -> functional (leaves s)) (fun f => forall ft, wfField ft f -> functional (fieldLeaves ft f))).
  - intros t fs Hfs Hw. by apply fields_functional.
  - intros c Hc ft (n & Hn & Hw)%wf_field. destruct (ft_kind ft); try done. destruct c as [s'|]; [|by intros q v v' ?%not_elem_of_nil].
    cbn [YgotDiffProofs.fieldLeaves]. unfold named. rewrite Hn. destruct Hw as [Hw _]. apply under_functional. by apply Hc.
  - intros m Hm ft (n & Hn & Hw)%wf_field. destruct (ft_kind ft); try done. destruct Hw as [Hd He].
    cbn [YgotDiffProofs.fieldLeaves]. unfold named. rewrite Hn. apply entries_functional; [done|].
    apply Forall_forall. intros kv Hin. rewrite Forall_forall in Hm. apply Hm; [done|]. by destruct (wf_entry _ _ (He _ Hin)).
  - intros f Hf ft _. destruct f as [c|[v|]|m|[|i vs]|z|[p|]|b|]; try done; cbn [YgotDiffProofs.fieldLeaves];
      try apply leaf_functional; try (by intros q v v' ?%not_elem_of_nil).
    unfold enumLeaf. destruct (decide _); [by intros q v v' ?%not_elem_of_nil|].
    destruct (enumName _ _); [apply leaf_functional|by intros q v v' ?%not_elem_of_nil].
Qed.

(** ** [Diff] *)

Definition wfOpt (s : option GoStruct) : bool := match s with Some s => wf s | None => true end.
Definition optLeaves (s : option GoStruct) : list (Path_ * TypedValue) := match s with Some s => leaves s | None => [] end.

Lemma opt_functional s : wfOpt s -> functional (optLeaves s).
Proof using schema_distinct. destruct s; [apply leaves_functional|]. intros _ q v v' H. by apply not_elem_of_nil in H. Qed.

Definition rendersOpt (s : option GoStruct) : bool := match s with Some s => renders s | None => true end.

Lemma forStruct_runs o m : wfOpt o -> wfOpt m -> match o with Some s => Some (typeOf s) = typeOf <$> m | None => True end ->
  runsStruct (rendersOpt m = false) (forStruct o m) (optLeaves o) (optLeaves m).
Proof using to_notifications schema_distinct.
  intros Ho Hm Ht. destruct o as [s1|], m as [s2|]; cbn.
  - cbn in Ht. simplify_eq. by apply tree_correct.
  - done.
  - by apply runs_updates.
  - apply (runs_struct _ (fun _ => True)), runs_ret.
Qed.

Lemma diff_spec o m : wfOpt o -> wfOpt m -> exists r es, Diff o m = Some (r, es) /\
  (es = [] \/ rendersOpt m = false \/ match o with Some s => Some (typeOf s) <> typeOf <$> m | None => False end) /\
  (es = [] -> Patches (dr_Update r) (dr_Delete r) (optLeaves o) (optLeaves m)).
Proof using to_notifications schema_distinct.
  intros Ho Hm. unfold YgotDiff.Diff.
  destruct (match o with Some s1 => negb (bool_decide (Some (typeOf s1) = typeOf <$> m)) | None => false end) eqn:E.
  - do 2 eexists. split; [done|]. split; [|done]. right. right. destruct o as [s|]; [|done].
    by apply negb_true_iff, bool_decide_eq_false in E.
  - destruct (forStruct_runs o m Ho Hm) with (yd := mkDiff (mkResults [] []) [] []) as (us & ds & es & Er & HF & HP).
    { destruct o; [|done]. by apply negb_false_iff, bool_decide_eq_true in E. }
    rewrite Er. do 2 eexists. split; [done|]. cbn. split; [naive_solver|]. intros ->. rewrite map_id_below, map_id. by apply HP.
Qed.

#[local] Abbreviation view := (view schema deref EncodeTypedValue enumName).

(** C5. On well-formed trees [Diff] returns without a panic; it reports an error only for
    trees of different types or when the library cannot render a value of the modified tree; and without an
    error its deletes and updates turn the leaves of the original into exactly the leaves
    of the modified tree, whether or not all attributes are recorded and in whatever order
    the lists are visited. *)
Theorem diff_patches o m : wfOpt o -> wfOpt m -> exists r es, Diff o m = Some (r, es) /\
  (rendersOpt m -> match o with Some s => Some (typeOf s) = typeOf <$> m | None => True end -> es = []) /\
  (es = [] -> applyResults r (view o) = view m).
Proof using to_notifications schema_distinct.
  intros Ho Hm. destruct (diff_spec o m Ho Hm) as ([us ds] & es & E & HF & HP).
  exists (mkResults us ds), es. split; [done|]. split.
  - intros Hr Ht. destruct HF as [?|[Hf|Hne]]; [done|by rewrite Hf in Hr|]. by destruct o.
  - intros He. apply patch_applied; [by apply HP|by apply opt_functional..].
Qed.

(** ** Unchanged trees *)

(** A tree and a copy of it: equal but for the order of lists and the addresses of single
    unions.  Unions in leaf-lists are compared by address. *)
Definition copyFields (rec : Node -> Node -> bool) :=
  fix go (fs1 fs2 : list Node) {struct fs1} : bool :=
    match fs1, fs2 with
    | f1 :: fs1, f2 :: fs2 => rec f1 f2 && go fs1 fs2
    | [], [] => true
    | _, _ => false
    end.

Fixpoint copyOf (s1 s2 : GoStruct) {struct s1} : bool :=
  match s1, s2 with
  | mkStruct t1 fs1, mkStruct t2 fs2 => bool_decide (t1 = t2) && copyFields copyField fs1 fs2
  end
with copyField (f1 f2 : Node) {struct f1} : bool :=
  match f1, f2 with
  | NContainer None, NContainer None => true
  | NContainer (Some a), NContainer (Some b) => copyOf a b
  | NLeaf v, NLeaf w => bool_decide (v = w)
  | NList m1, NList m2 =>
      forallb (fun kv => match mapIndex kv.1 m2 with Some s2 => copyOf kv.2 s2 | None => false end) m1 &&
      forallb (fun kv => match mapIndex kv.1 m1 with Some _ => true | None => false end) m2
  | NLeafList l, NLeafList l' => bool_decide (l = l')
  | NEnum n, NEnum n' => bool_decide (n = n')
  | NUnion p, NUnion q => bool_decide (deref <$> p = deref <$> q)
  | _, _ => false
  end.

(** A computation that records nothing. *)
Definition quiet (m : M unit) : Prop := forall yd, m yd = (Some tt, yd).

Lemma quiet_bind m k : quiet m -> quiet k -> quiet (_ ← m; k).
Proof using Type. intros Hm Hk yd. unfold mbind, SM_bind. by rewrite Hm. Qed.

Lemma quiet_named ft n (k : string -> M unit) : ft_path ft = Some n -> quiet (k n) -> quiet (name ← getElemName ft; k name).
Proof using Type. intros Hn H yd. unfold mbind, SM_bind, getElemName. rewrite Hn. apply H. Qed.

Lemma quiet_push n key e m : (forall yd, newPathElem PathKeyFromStruct n key yd = (Some e, yd)) -> quiet m ->
  quiet (_ ← pushPrefix n key; _ ← m; popPrefix).
Proof using Type.
  intros He Hm yd. unfold YgotDiff.pushPrefix, mbind, SM_bind. rewrite He. unfold modify. rewrite Hm.
  unfold popPrefix, modify. cbn. rewrite length_app, Nat.add_sub, take_app_length. by destruct yd.
Qed.

Lemma quiet_each {A} (f : A -> M unit) l : (forall x, x ∈ l -> quiet (f x)) -> quiet (each_ f l).
Proof using Type.
  induction l as [|x l IH]; intros H; [done|]. apply quiet_bind; [apply H; by left|]. apply IH. intros y ?. apply H. by right.
Qed.

Lemma quiet_neq a m : comparable a -> quiet (ifNeq (ifaceNeq a a) m).
Proof using Type. intros Ha. rewrite ifaceNeq_comparable by done. by rewrite bool_decide_false by auto. Qed.

Hypothesis only_changes : RecordAll = false.

Lemma quiet_list ft m1 m2 n : ft_path ft = Some n -> (forall kv, kv ∈ m2 -> wfEntry PathKeyFromStruct wf ft kv) ->
  (forall kv, kv ∈ m1 -> exists s2, mapIndex kv.1 m2 = Some s2 /\ quiet (forStruct_ kv.2 (Some s2))) ->
  (forall kv, kv ∈ m2 -> mapIndex kv.1 m1 <> None) ->
  quiet (forList TogNMINotifications PathKeyFromStruct forStruct_ ft m1 m2).
Proof using Type.
  intros Hn Hw H1 H2. unfold forList. apply (quiet_named ft n); [done|]. apply quiet_bind; apply quiet_each; intros kv Hin.
  - destruct (H1 _ Hin) as (s2 & E & Hq). rewrite E. apply mapIndex_in in E.
    destruct (wf_entry _ _ (Hw _ E)) as (_ & _ & Hk). apply (quiet_push n _ (mkElem n kv.1)); [|done].
    intros. by apply newPathElem_key.
  - specialize (H2 _ Hin). by destruct (mapIndex kv.1 m1).
Qed.

Definition fieldQuiet (f1 : Node) : Prop := forall ft f2, wfField ft f1 -> wfField ft f2 -> copyField f1 f2 -> quiet (forField ft f1 f2).
Definition structQuiet (s1 : GoStruct) : Prop := forall s2, wf s1 -> wf s2 -> copyOf s1 s2 -> quiet (forStruct_ s1 (Some s2)).

Lemma quiet_fields st fs1 fs2 : Forall fieldQuiet fs1 -> wfFields wfField st fs1 -> wfFields wfField st fs2 ->
  copyFields copyField fs1 fs2 -> quiet (forFields forField st fs1 fs2).
Proof using Type.
  revert fs1 fs2. induction st as [|ft st IH]; intros [|f1 fs1] [|f2 fs2] Hq H1 H2 Hc; try done.
  cbn in H1, H2, Hc. apply andb_prop_elim in H1 as [Hf1 H1], H2 as [Hf2 H2], Hc as [Hc1 Hc]. apply Forall_cons in Hq as [Hq Hqs].
  cbn [forFields]. apply quiet_bind; [by apply IH|by apply Hq].
Qed.

Lemma quiet_items l m : forallb comparableItem l -> quiet (sameItems l l m).
Proof using Type.
  induction l as [|a l IH]; [done|]. cbn. intros [Ha Hl]%andb_prop_elim.
  assert (itemNeq a a = Some false) as ->; [|by apply IH].
  destruct a; cbn in *; [rewrite ifaceNeq_comparable by done|]; by rewrite bool_decide_false by auto.
Qed.

Lemma tree_quiet s1 : structQuiet s1.
Proof using only_changes.
  apply (struct_ind structQuiet fieldQuiet).
  - intros t fs Hfs [t2 fs2] H1 H2 [->%bool_decide_unpack Hc]%andb_prop_elim. by apply quiet_fields.
  - intros c Hc ft f2 (n & Hn & H1)%wf_field (_ & _ & H2)%wf_field Hcp. destruct (ft_kind ft) eqn:Ek; try done.
    destruct f2 as [c2| | | | | | |]; try done. cbn [YgotDiff.forField]. rewrite Ek. apply (quiet_named ft n); [done|].
    apply (quiet_push n None (mkElem n ∅)); [done|]. destruct c as [s|], c2 as [s'|]; try done.
    destruct H1, H2. by apply Hc.
  - intros m Hm ft f2 (n & Hn & H1)%wf_field (_ & _ & H2)%wf_field Hcp. destruct (ft_kind ft) eqn:Ek; try done.
    destruct f2 as [| |m2| | | | |]; try done. cbn [YgotDiff.forField]. rewrite Ek. destruct H1 as [Hd1 Hw1], H2 as [Hd2 Hw2].
    cbn in Hcp. apply andb_prop_elim in Hcp as [Hc1 Hc2]. apply (quiet_list ft m m2 n); [done..| |].
    + intros kv Hin. pose proof (forallb_in _ _ _ Hc1 Hin) as Hc. cbn in Hc. destruct (mapIndex kv.1 m2) as [s2|] eqn:E; [|done].
      exists s2. split; [done|]. rewrite Forall_forall in Hm. apply Hm; [done| | |done].
      * by destruct (wf_entry _ _ (Hw1 _ Hin)).
      * by destruct (wf_entry _ _ (Hw2 _ (mapIndex_in _ _ _ E))).
    + intros kv Hin. pose proof (forallb_in _ _ _ Hc2 Hin) as Hc. cbn in Hc. by destruct (mapIndex kv.1 m).
  - intros f Hf ft f2 (n & Hn & H1)%wf_field (_ & _ & H2)%wf_field Hcp.
    destruct f as [c|v1|m|l1|z1|p1|b|], f2 as [c2|v2|m2|l2|z2|p2|b2|]; try done; destruct (ft_kind ft) eqn:Ek; try done;
      cbn [YgotDiff.forField]; rewrite Ek; cbn in Hcp; apply bool_decide_unpack in Hcp.
    + subst v2. unfold forLeaf. rewrite only_changes. destruct v1 as [v|]; [|done]. by apply quiet_neq.
    + subst l2. unfold forLeafList. rewrite only_changes. destruct (decide (length l1 = 0)); [done|].
      rewrite bool_decide_false by auto. by apply quiet_items.
    + subst z2. unfold forEnum. rewrite only_changes. rewrite bool_decide_true by done. by destruct (decide (z1 = 0%Z)).
    + unfold forUnion. rewrite only_changes. destruct p1 as [p1|], p2 as [p2|]; try done. cbn in Hcp. injection Hcp as Hcp.
      rewrite Hcp. by apply quiet_neq.
Qed.

(** With suppression of redundant updates, comparing a tree with a copy of it records
    nothing, however the lists are ordered and wherever its unions are allocated. *)
Theorem diff_unchanged s1 s2 : wf s1 -> wf s2 -> copyOf s1 s2 ->
  Diff (Some s1) (Some s2) = Some (mkResults [] [], []).
Proof using only_changes.
  intros H1 H2 Hc. assert (typeOf s1 = typeOf s2) as Ht.
  { destruct s1, s2. cbn in Hc. by apply andb_prop_elim in Hc as [->%bool_decide_unpack _]. }
  unfold YgotDiff.Diff. cbn. rewrite Ht, bool_decide_true by done. cbn. by rewrite (tree_quiet s1 s2 H1 H2 Hc).
Qed.
End diff_proofs.

(** ** Where the comparison is not exact *)

Section inexact.
Context (schema : string -> list StructField) (deref : N -> Scalar) (EncodeTypedValue : LeafVal -> option TypedValue).
Context (TogNMINotifications : GoStruct -> option (list LeafUpdate)) (PathKeyFromStruct : GoStruct -> option (gmap string string)).
Context (enumName : string -> Z -> option string) (ft : StructField) (t n : string).
Hypothesis one_field : schema t = [ft].
Hypothesis tagged : ft_path ft = Some n.

#[local] Abbreviation DiffField all f1 f2 := (Diff schema deref EncodeTypedValue TogNMINotifications PathKeyFromStruct enumName all
  (Some (mkStruct t [f1])) (Some (mkStruct t [f2]))).

(** A leaf of type 'empty' that is removed is reported as an update to false, not as a
    delete: [forLeaf] is given a boolean, which is never nil. *)
Theorem empty_leaf_cleared all tv : ft_kind ft = Bool -> EncodeTypedValue (VScalar (SBool false)) = Some tv ->
  DiffField all (NEmpty true) (NEmpty false) = Some (mkResults [mkLeaf [mkElem n ∅] tv] [], []).
Proof using one_field tagged.
  intros Hk He. unfold Diff, typeOf, forStruct, forNilable. cbn [fmap option_fmap option_map]. rewrite bool_decide_true by done. cbn [negb].
  cbn [forStruct_ fieldsOf]. rewrite one_field. cbn [forFields forField]. rewrite Hk.
  unfold forLeaf, recordUpdate, getElemName. rewrite He, tagged. by destruct all.
Qed.

(** Two leaf-lists of unions with the same contents are reported as changed unless they
    share their pointers. *)
Theorem union_leaflist_redundant p q tv : ft_kind ft = Slice -> p <> q -> deref p = deref q ->
  EncodeTypedValue (VItems [deref q]) = Some tv ->
  DiffField false (NLeafList [Boxed p]) (NLeafList [Boxed q]) = Some (mkResults [mkLeaf [mkElem n ∅] tv] [], []).
Proof using one_field tagged.
  intros Hk Hne Hd He. unfold Diff, typeOf, forStruct, forNilable. cbn [fmap option_fmap option_map]. rewrite bool_decide_true by done. cbn [negb].
  cbn [forStruct_ fieldsOf]. rewrite one_field. cbn [forFields forField]. rewrite Hk.
  unfold forLeafList. cbn. rewrite (bool_decide_true (p <> q)) by done. unfold recordUpdate, getElemName. rewrite He, tagged. done.
Qed.

(** Comparing two leaf-lists of binary values panics: byte slices cannot be compared. *)
Theorem binary_leaflist_panics b1 b2 : ft_kind ft = Slice ->
  DiffField false (NLeafList [Direct (SBinary b1)]) (NLeafList [Direct (SBinary b2)]) = None.
Proof using one_field.
  intros Hk. unfold Diff, typeOf, forStruct, forNilable. cbn [fmap option_fmap option_map]. rewrite bool_decide_true by done. cbn [negb].
  cbn [forStruct_ fieldsOf]. rewrite one_field. cbn [forFields forField]. by rewrite Hk.
Qed.
End inexact.

(** ** A concrete schema *)

Definition demo_schema (t : string) : list StructField :=
  if String.eqb t "Interfaces" then [mkField (Some "interface") Map "Interface"]
  else if String.eqb t "Interface" then
    [mkField (Some "name") Ptr ""; mkField (Some "oper-status") Int64 "E_Oper"; mkField (Some "state") PtrStruct "State"]
  else if String.eqb t "State" then [mkField (Some "mtu") Ptr ""; mkField (Some "vlans") Slice ""; mkField (Some "speed") Interface ""]
  else [].

Definition demo_deref (p : N) : Scalar := SNum "uint16" (Z.of_N (p mod 10)).

Definition demo_encode (v : LeafVal) : option TypedValue :=
  Some match v with
       | VScalar (SString s) => StringVal s
       | VScalar (SNum _ n) | VUnion (SNum _ n) => IntVal n
       | VItems vs => IntVal (Z.of_nat (length vs))
       | _ => OtherVal
       end.

Definition demo_enum (t : string) (n : Z) : option string :=
  if decide (n = 1%Z) then Some "UP" else if decide (n = 2%Z) then Some "DOWN" else None.

Definition demo_key (s : GoStruct) : option (gmap string string) :=
  match fieldsOf s with
  | NLeaf (Some (SString n)) :: _ => Some {["name" := n]}
  | _ => None
  end.

Definition demo_togNMI (s : GoStruct) : option (list LeafUpdate) :=
  Some (map (fun x => mkLeaf x.1 x.2) (leaves demo_schema demo_deref demo_encode demo_enum s)).

Definition demo_if (n : string) (oper : Z) (state : option GoStruct) : gmap string string * GoStruct :=
  ({["name" := n]}, mkStruct "Interface" [NLeaf (Some (SString n)); NEnum oper; NContainer state]).

Definition demo_state (mtu : option Z) (vlans : list Z) (speed : option N) : GoStruct :=
  mkStruct "State" [NLeaf (SNum "uint16" <$> mtu); NLeafList (map (fun v => Direct (SNum "uint16" v)) vlans); NUnion speed].

Definition demo_old : GoStruct := mkStruct "Interfaces" [NList [
  demo_if "Ethernet0" 1 (Some (demo_state (Some 1500%Z) [1%Z; 2%Z] (Some 3%N)));
  demo_if "Ethernet4" 2 None; demo_if "Ethernet8" 1 (Some (demo_state None [] None))]].

Definition demo_new : GoStruct := mkStruct "Interfaces" [NList [
  demo_if "Ethernet12" 1 (Some (demo_state (Some 9100%Z) [7%Z] None));
  demo_if "Ethernet0" 2 (Some (demo_state None [1%Z] (Some 13%N)));
  demo_if "Ethernet4" 2 (Some (demo_state (Some 1500%Z) [] None))]].

Lemma demo_distinct t : NoDup (map ft_path (demo_schema t)).
Proof. unfold demo_schema. repeat case_match; apply (bool_decide_unpack _); vm_compute; exact I. Qed.

Lemma demo_renders s us : demo_togNMI s = Some us ->
  forall q v, mkLeaf q v ∈ us <-> (q, v) ∈ leaves demo_schema demo_deref demo_encode demo_enum s.
Proof.
  intros [= <-] q v. rewrite list_elem_of_fmap. split.
  - by intros ([q' v'] & [= -> ->] & H).
  - intros H. by exists (q, v).
Qed.

Abbreviation demo_diff all o m := (Diff demo_schema demo_deref demo_encode demo_togNMI demo_key demo_enum all o m).

Lemma diff_patches_witness :
  wf demo_schema demo_deref demo_key demo_old /\ wf demo_schema demo_deref demo_key demo_new /\
  exists r, demo_diff false (Some demo_old) (Some demo_new) = Some (r, []) /\ length (dr_Update r) = 7 /\ length (dr_Delete r) = 2 /\
    applyResults r (view demo_schema demo_deref demo_encode demo_enum (Some demo_old)) =
    view demo_schema demo_deref demo_encode demo_enum (Some demo_new).
Proof.
  assert (wf demo_schema demo_deref demo_key demo_old) as H1 by (vm_compute; exact I).
  assert (wf demo_schema demo_deref demo_key demo_new) as H2 by (vm_compute; exact I).
  split; [exact H1|]. split; [exact H2|].
  destruct (diff_patches demo_schema demo_deref demo_encode demo_togNMI demo_key demo_enum false demo_renders demo_distinct
    (Some demo_old) (Some demo_new) H1 H2) as (r & es & E & _ & Ha).
  assert (exists r', demo_diff false (Some demo_old) (Some demo_new) = Some (r', []) /\ length (dr_Update r') = 7 /\ length (dr_Delete r') = 2)
    as (r' & E' & Hu & Hd) by (eexists; split; [vm_compute; reflexivity|split; reflexivity]).
  rewrite E in E'. injection E' as -> ->. exists r'. split; [exact E|]. split; [exact Hu|]. split; [exact Hd|].
  exact (Ha eq_refl).
Defined.

Definition demo_copy : GoStruct := mkStruct "Interfaces" [NList [
  demo_if "Ethernet8" 1 (Some (demo_state None [] None));
  demo_if "Ethernet0" 1 (Some (demo_state (Some 1500%Z) [1%Z; 2%Z] (Some 13%N)));
  demo_if "Ethernet4" 2 None]].

Lemma diff_unchanged_witness : demo_diff false (Some demo_old) (Some demo_copy) = Some (mkResults [] [], []).
Proof.
  apply (diff_unchanged demo_schema demo_deref demo_encode demo_togNMI demo_key demo_enum false eq_refl demo_old demo_copy);
    vm_compute; exact I.
Defined.
