(* ===== verification/TranslSubscriber.v ===== *)
(** Subscriptions of the translib client (sonic_data_client/transl_subscriber.go): the
    answers of translib are turned into notifications, for SAMPLE subscriptions against a
    cache of the last answers.

    The subscriber's state includes the parts of its client that it touches: the RPC's queue
    and stop channel, the wait groups, and what it passes on to the super subscription.
    The items that translib puts on a subscriber's queue are an argument, in the order in
    which they are taken off.  Waiting for sample subscriptions ([sampleWg]) and logging are
    left out. *)

From S2P Require Import Prelude GnmiTypes PanicMonad YgotDiff.

(** [translib.SubscribeResponse]. *)
Record SubscribeResponse := mkResp {
  sr_Path : string;
  sr_Timestamp : Z;
  sr_Update : option GoStruct;
  sr_Delete : list string;
  sr_SyncComplete : bool;
  sr_IsTerminated : bool
}.

(** [gnmipb.Notification]: its paths are below the prefix. *)
Record Notification := mkNotif {
  nt_Timestamp : Z;
  nt_Prefix : Path;
  nt_Update : list LeafUpdate;
  nt_Delete : list (list PathElem)
}.

Inductive Fatal := FatalPanic | FatalQueue | FatalTerminated | FatalInternal | FatalSubscribe | FatalEmpty | FatalVersion.

(** The messages of the RPC's queue. *)
Inductive Msg :=
| MValue (n : Notification)
| MFatal (why : Fatal)
| MSync.

(** [ygotCache]: the last answers by path, and the subscribed path. *)
Record ygotCache := mkCache {
  cache_values : gmap string (option GoStruct);
  cache_pattern : list PathElem
}.

Inductive Builder := DefaultBuilder | CacheBuilder.

(** The subscriber and what it uses of its client; [ts_syncDone] is a local variable of
    [processResponses] that its deferred call reads. *)
Record translSubscriber := mkTS {
  ts_sampleCache : option ygotCache;
  ts_filterMsgs : bool;
  ts_filterDups : bool;
  ts_stopOnSync : bool;
  ts_synced : Z;
  ts_rcvdPaths : option (gset string);
  ts_msgBuilder : Builder;
  ts_syncDone : bool;
  c_q : list Msg;
  c_closed : bool;
  c_w : Z;
  c_superSub : bool;
  ss_sent : list Notification;
  ss_sharedUpdates : N;
  ss_exclusiveUpdates : N
}.

(** An item of the queue that translib fills. *)
Inductive QItem :=
| QResponse (v : SubscribeResponse)
| QDisposed
| QError
| QUnknown.

Section fields.
Context (ts : translSubscriber).
Definition set_cache (c : option ygotCache) : translSubscriber :=
  mkTS c (ts_filterMsgs ts) (ts_filterDups ts) (ts_stopOnSync ts) (ts_synced ts) (ts_rcvdPaths ts) (ts_msgBuilder ts) (ts_syncDone ts)
    (c_q ts) (c_closed ts) (c_w ts) (c_superSub ts) (ss_sent ts) (ss_sharedUpdates ts) (ss_exclusiveUpdates ts).
Definition set_filterMsgs (b : bool) : translSubscriber :=
  mkTS (ts_sampleCache ts) b (ts_filterDups ts) (ts_stopOnSync ts) (ts_synced ts) (ts_rcvdPaths ts) (ts_msgBuilder ts) (ts_syncDone ts)
    (c_q ts) (c_closed ts) (c_w ts) (c_superSub ts) (ss_sent ts) (ss_sharedUpdates ts) (ss_exclusiveUpdates ts).
Definition set_synced (n : Z) : translSubscriber :=
  mkTS (ts_sampleCache ts) (ts_filterMsgs ts) (ts_filterDups ts) (ts_stopOnSync ts) n (ts_rcvdPaths ts) (ts_msgBuilder ts) (ts_syncDone ts)
    (c_q ts) (c_closed ts) (c_w ts) (c_superSub ts) (ss_sent ts) (ss_sharedUpdates ts) (ss_exclusiveUpdates ts).
Definition set_syncDone : translSubscriber :=
  mkTS (ts_sampleCache ts) (ts_filterMsgs ts) (ts_filterDups ts) (ts_stopOnSync ts) (ts_synced ts) (ts_rcvdPaths ts) (ts_msgBuilder ts) true
    (c_q ts) (c_closed ts) (c_w ts) (c_superSub ts) (ss_sent ts) (ss_sharedUpdates ts) (ss_exclusiveUpdates ts).
Definition set_rcvd (r : option (gset string)) : translSubscriber :=
  mkTS (ts_sampleCache ts) (ts_filterMsgs ts) (ts_filterDups ts) (ts_stopOnSync ts) (ts_synced ts) r (ts_msgBuilder ts) (ts_syncDone ts)
    (c_q ts) (c_closed ts) (c_w ts) (c_superSub ts) (ss_sent ts) (ss_sharedUpdates ts) (ss_exclusiveUpdates ts).
Definition set_closed : translSubscriber :=
  mkTS (ts_sampleCache ts) (ts_filterMsgs ts) (ts_filterDups ts) (ts_stopOnSync ts) (ts_synced ts) (ts_rcvdPaths ts) (ts_msgBuilder ts) (ts_syncDone ts)
    (c_q ts) true (c_w ts) (c_superSub ts) (ss_sent ts) (ss_sharedUpdates ts) (ss_exclusiveUpdates ts).
Definition set_w (n : Z) : translSubscriber :=
  mkTS (ts_sampleCache ts) (ts_filterMsgs ts) (ts_filterDups ts) (ts_stopOnSync ts) (ts_synced ts) (ts_rcvdPaths ts) (ts_msgBuilder ts) (ts_syncDone ts)
    (c_q ts) (c_closed ts) n (c_superSub ts) (ss_sent ts) (ss_sharedUpdates ts) (ss_exclusiveUpdates ts).
(** [doSample] and [doOnChange] prepare the subscriber for a run. *)
Definition prepared (b : Builder) (r : option (gset string)) (stop : bool) : translSubscriber :=
  mkTS (ts_sampleCache ts) (ts_filterMsgs ts) (ts_filterDups ts) stop (ts_synced ts + 1) r b false
    (c_q ts) (c_closed ts) (c_w ts + 1) (c_superSub ts) (ss_sent ts) (ss_sharedUpdates ts) (ss_exclusiveUpdates ts).
Definition put (m : Msg) : translSubscriber :=
  mkTS (ts_sampleCache ts) (ts_filterMsgs ts) (ts_filterDups ts) (ts_stopOnSync ts) (ts_synced ts) (ts_rcvdPaths ts) (ts_msgBuilder ts) (ts_syncDone ts)
    (c_q ts ++ [m]) (c_closed ts) (c_w ts) (c_superSub ts) (ss_sent ts) (ss_sharedUpdates ts) (ss_exclusiveUpdates ts).
(** [superSub.sendNotifications] and the count of it. *)
Definition share (n : Notification) : translSubscriber :=
  mkTS (ts_sampleCache ts) (ts_filterMsgs ts) (ts_filterDups ts) (ts_stopOnSync ts) (ts_synced ts) (ts_rcvdPaths ts) (ts_msgBuilder ts) (ts_syncDone ts)
    (c_q ts) (c_closed ts) (c_w ts) (c_superSub ts) (ss_sent ts ++ [n]) (ss_sharedUpdates ts + 1) (ss_exclusiveUpdates ts).
Definition exclusive (n : Notification) : translSubscriber :=
  mkTS (ts_sampleCache ts) (ts_filterMsgs ts) (ts_filterDups ts) (ts_stopOnSync ts) (ts_synced ts) (ts_rcvdPaths ts) (ts_msgBuilder ts) (ts_syncDone ts)
    (c_q ts ++ [MValue n]) (c_closed ts) (c_w ts) (c_superSub ts) (ss_sent ts) (ss_sharedUpdates ts) (if c_superSub ts then ss_exclusiveUpdates ts + 1 else ss_exclusiveUpdates ts).
End fields.

Definition T := SM translSubscriber.

Definition enqueFatalMsgTranslib (why : Fatal) : T unit := modify (fun ts => put ts (MFatal why)).
Definition enqueueSyncMessage : T unit := modify (fun ts => put ts MSync).

(** [synced.Done()]: a negative counter panics. *)
Definition syncedDone : T unit := fun ts =>
  let ts := set_synced ts (ts_synced ts - 1) in
  (if (ts_synced ts <? 0)%Z then None else Some tt, ts).

(** [close(c.channel)]: closing it again panics. *)
Definition closeChannel : T unit := fun ts => if c_closed ts then (None, ts) else (Some tt, set_closed ts).

(** [removeLastPathElem]: the path without its last element, and that element. *)
Definition removeLastPathElem (p : list PathElem) : list PathElem * option PathElem :=
  match last p with
  | None => (p, None)
  | Some e => (take (length p - 1) p, Some e)
  end.

Definition insertFirstPathElem (p : list PathElem) (newElem : option PathElem) : list PathElem :=
  match newElem with Some e => e :: p | None => p end.

Fixpoint strSliceContains (ss : list string) (v : string) : bool :=
  match ss with
  | [] => false
  | s :: ss => if String.eqb s v then true else strSliceContains ss v
  end.

Section subscriber.
Context `{MapRange}.
Context (StringToStructuredPath : string -> option (list PathElem)).
Context (schema : string -> list StructField) (deref : N -> Scalar).
Context (EncodeTypedValue : LeafVal -> option TypedValue).
Context (TogNMINotifications : GoStruct -> option (list LeafUpdate)).
Context (PathKeyFromStruct : GoStruct -> option (gmap string string)).
Context (enumName : string -> Z -> option string).
(** The same in the client's encoding; one list of updates per notification. *)
Context (TogNMIEncoded : GoStruct -> option (list (list LeafUpdate))).
(** The client's prefix, and the clock. *)
Context (prefix : option Path) (now : Z).

(** [toPrefix] ignores the error and then writes through the nil path. *)
Definition toPrefix (path : string) : T Path :=
  match StringToStructuredPath path with
  | None => panic
  | Some p => mret (mkPath (GetOrigin prefix) (GetTarget prefix) p)
  end.

Definition ygotToScalarValues (prefixElem : option PathElem) (obj : GoStruct) : T (res unit (list LeafUpdate)) :=
  match TogNMIEncoded obj with
  | None => mret (Err tt)
  | Some [] => panic
  | Some (updates :: _) =>
      mret (Ok (map (fun u => mkLeaf (insertFirstPathElem (leaf_path u) prefixElem) (leaf_val u)) updates))
  end.

(** The loop over [v.Delete]. *)
Fixpoint deletePaths (dels : list string) (extraPrefix : option PathElem) : res unit (list (list PathElem)) :=
  match dels with
  | [] => Ok []
  | del :: dels =>
      match StringToStructuredPath del with
      | None => Err tt
      | Some p =>
          match deletePaths dels extraPrefix with
          | Err e => Err e
          | Ok ps => Ok (insertFirstPathElem p extraPrefix :: ps)
          end
      end
  end.

Definition defaultMsgBuilder (v : option SubscribeResponse) : T (res unit (option Notification)) :=
  match v with
  | None => mret (Ok None)
  | Some v =>
      filterMsgs ← gets ts_filterMsgs;
      if (filterMsgs : bool) then mret (Ok None) else
      p ← toPrefix (sr_Path v);
      let '(elems, extraPrefix) :=
        if strSliceContains (sr_Delete v) "" then removeLastPathElem (path_elem p) else (path_elem p, None) in
      us ← match sr_Update v with
           | None => mret (Ok [])
           | Some obj => ygotToScalarValues extraPrefix obj
           end;
      match us with
      | Err e => mret (Err e)
      | Ok us =>
          match deletePaths (sr_Delete v) extraPrefix with
          | Err e => mret (Err e)
          | Ok ds => mret (Ok (Some (mkNotif (sr_Timestamp v) (mkPath (path_origin p) (path_target p) elems) us ds)))
          end
      end
  end.

Definition toDeletePath (pattern : list PathElem) (path : string) : T (list PathElem) :=
  match StringToStructuredPath path with
  | None => panic
  | Some p => mret (if length p <? length pattern then p ++ drop (length p) pattern else p)
  end.

(** [delete(c.values, path)]. *)
Definition deleteValue (path : string) (ts : translSubscriber) : translSubscriber :=
  match ts_sampleCache ts with
  | Some c => set_cache ts (Some (mkCache (delete path (cache_values c)) (cache_pattern c)))
  | None => ts
  end.

(** The loop of [deleteMsgBuilder] over the cache. *)
Fixpoint deleteStale (pattern : list PathElem) (rcvd : gset string) (l : list (string * option GoStruct)) : T (list (list PathElem)) :=
  match l with
  | [] => mret []
  | (path, _) :: l =>
      if decide (path ∈ rcvd) then deleteStale pattern rcvd l
      else
        d ← toDeletePath pattern path;
        _ ← modify (deleteValue path);
        ds ← deleteStale pattern rcvd l;
        mret (d :: ds)
  end.

Definition deleteMsgBuilder (c : ygotCache) : T (res unit (option Notification)) :=
  filterMsgs ← gets ts_filterMsgs;
  if (filterMsgs : bool) then mret (Ok None) else
  rcvd ← gets ts_rcvdPaths;
  ds ← deleteStale (cache_pattern c) (default ∅ rcvd) (range_of (cache_values c));
  match ds with
  | [] => mret (Ok None)
  | _ :: _ => p ← toPrefix "/"; mret (Ok (Some (mkNotif now p [] ds)))
  end.

(** [ygotCache.msgBuilder]. *)
Definition msgBuilder (v : option SubscribeResponse) : T (res unit (option Notification)) :=
  cache ← gets ts_sampleCache;
  match cache with
  | None => panic
  | Some c =>
      match v with
      | None => deleteMsgBuilder c
      | Some v =>
          let old := mjoin (cache_values c !! sr_Path v) in
          _ ← modify (fun ts => set_cache ts (Some (mkCache (<[sr_Path v := sr_Update v]> (cache_values c)) (cache_pattern c))));
          rcvd ← gets ts_rcvdPaths;
          match rcvd with
          | None => panic
          | Some rcvd =>
              _ ← modify (fun ts => set_rcvd ts (Some ({[sr_Path v]} ∪ rcvd)));
              filterMsgs ← gets ts_filterMsgs;
              if (filterMsgs : bool) then mret (Ok None) else
              filterDups ← gets ts_filterDups;
              match Diff schema deref EncodeTypedValue TogNMINotifications PathKeyFromStruct enumName (negb filterDups) old (sr_Update v) with
              | None => panic
              | Some (r, []) =>
                  p ← toPrefix (sr_Path v);
                  mret (Ok (Some (mkNotif (sr_Timestamp v) p (dr_Update r) (dr_Delete r))))
              | Some (_, _ :: _) => mret (Err tt)
              end
          end
      end
  end.

Definition build (v : option SubscribeResponse) : T (res unit (option Notification)) :=
  b ← gets ts_msgBuilder;
  match b with DefaultBuilder => defaultMsgBuilder v | CacheBuilder => msgBuilder v end.

(** [notify]; [false] when it returns an error. *)
Definition notify (v : option SubscribeResponse) : T bool :=
  msg ← build v;
  match msg with
  | Err _ => mret false
  | Ok None => mret true
  | Ok (Some n) =>
      match nt_Update n, nt_Delete n with
      | [], [] => mret true
      | _, _ =>
          superSub ← gets c_superSub;
          _ ← match (superSub : bool), v with
              | true, None => modify (fun ts => share ts n)
              | _, _ => modify (fun ts => exclusive ts n)
              end;
          mret true
      end
  end.

(** The loop of [processResponses]: whether it returned; the end of the list is the wait
    for the next item. *)
Fixpoint responses (items : list QItem) : T bool :=
  match items with
  | [] => mret false
  | QDisposed :: _ => mret true
  | QError :: _ => _ ← enqueFatalMsgTranslib FatalQueue; mret true
  | QUnknown :: items => responses items
  | QResponse v :: items =>
      if sr_IsTerminated v then
        _ ← enqueFatalMsgTranslib FatalTerminated;
        _ ← closeChannel;
        mret true
      else if sr_SyncComplete v then
        stopOnSync ← gets ts_stopOnSync;
        if (stopOnSync : bool) then _ ← notify None; mret true
        else
          _ ← enqueueSyncMessage;
          _ ← modify set_syncDone;
          _ ← syncedDone;
          _ ← modify (fun ts => set_filterMsgs ts false);
          responses items
      else
        ok ← notify (Some v);
        if (ok : bool) then responses items
        else _ ← enqueFatalMsgTranslib FatalInternal; mret true
  end.

(** [defer recoverSubscribe(c)] around a body. *)
Definition recoverSubscribe (m : T bool) : T bool := fun ts =>
  match m ts with
  | (None, ts) => (Some true, put ts (MFatal FatalPanic))
  | r => r
  end.

(** [processResponses]: the loop and its deferred calls, which run when it has returned
    or panicked. *)
Definition processResponses (items : list QItem) : T bool :=
  returned ← recoverSubscribe (responses items);
  if (returned : bool) then
    syncDone ← gets ts_syncDone;
    _ ← if (syncDone : bool) then mret tt else syncedDone;
    _ ← modify (fun ts => set_w ts (c_w ts - 1));
    mret true
  else mret false.

(** [doSample]: translib puts [items] on the queue; an error of [translib.Stream]
    disposes of the queue behind what was taken off it.  The result says whether the wait
    for [synced] ends. *)
Definition doSample (items : list QItem) (streamErr : bool) : T bool :=
  _ ← modify (fun ts =>
    match ts_sampleCache ts with
    | Some _ => prepared ts CacheBuilder (Some ∅) true
    | None => prepared ts DefaultBuilder (ts_rcvdPaths ts) true
    end);
  _ ← processResponses (items ++ if streamErr then [QDisposed] else []);
  _ ← if streamErr then enqueFatalMsgTranslib FatalSubscribe else mret tt;
  gets (fun ts => bool_decide (ts_synced ts = 0%Z)).

(** [doOnChange], up to the items that have arrived. *)
Definition doOnChange (items : list QItem) (subscribeErr : bool) : T bool :=
  _ ← modify (fun ts => prepared ts DefaultBuilder (ts_rcvdPaths ts) (ts_stopOnSync ts));
  _ ← processResponses (items ++ if subscribeErr then [QDisposed] else []);
  _ ← if subscribeErr then enqueFatalMsgTranslib FatalSubscribe else mret tt;
  gets (fun ts => bool_decide (ts_synced ts = 0%Z)).
End subscriber.
