(* ===== verification/TranslSubscriberProofs.v ===== *)
(** The translib subscriber: every sample ends, and a client that applies the notifications
    of a sample has exactly the leaves that translib reported. *)

From S2P Require Import Prelude GnmiTypes PanicMonad YgotDiff YgotDiffProofs TranslSubscriber.

(** ** What a run leaves alone *)

(** The settings of a run, the counters of its wait groups and the membership in a super
    subscription. *)
Definition settings (ts : translSubscriber) :=
  (ts_filterMsgs ts, ts_filterDups ts, ts_stopOnSync ts, ts_synced ts, ts_msgBuilder ts, ts_syncDone ts, c_w ts, c_superSub ts).

(** A computation that does not change what [obs] sees. *)
Definition framed {X A} (obs : translSubscriber -> X) (m : T A) : Prop := forall ts, obs (m ts).2 = obs ts.

Section framed.
Context {X : Type} (obs : translSubscriber -> X).

Lemma framed_ret {A} (a : A) : framed obs (mret a).
Proof. by intros ts. Qed.

Lemma framed_panic {A} : framed obs (panic : T A).
Proof. by intros ts. Qed.

Lemma framed_gets {A} (f : translSubscriber -> A) : framed obs (gets f).
Proof. by intros ts. Qed.

Lemma framed_bind {A B} (m : T A) (k : A -> T B) : framed obs m -> (forall a, framed obs (k a)) -> framed obs (m ≫= k).
Proof.
  intros Hm Hk ts. unfold mbind, SM_bind. specialize (Hm ts). destruct (m ts) as [[a|] ts1]; [|done].
  cbn in Hm. by rewrite Hk.
Qed.

Lemma framed_modify f : (forall ts, obs (f ts) = obs ts) -> framed obs (modify f).
Proof. intros H ts. apply H. Qed.
End framed.

Create HintDb framed.
#[export] Hint Resolve framed_ret framed_panic framed_gets framed_modify : framed.

Ltac framed_step :=
  match goal with
  | |- framed _ (mbind _ _) => apply framed_bind; [|intros ?]
  | |- framed _ (match ?x with _ => _ end) => destruct x
  | |- framed _ (let _ := _ in _) => cbv zeta
  | |- framed _ (modify _) => apply framed_modify; intros ?; try done
  | |- framed _ _ => solve [auto with framed]
  end.
Ltac framed := repeat framed_step.

(** ** Caches and the answers of a sample *)

(** The entries of a cache whose paths were received. *)
Definition received (rcvd : gset string) (values : gmap string (option GoStruct)) : gmap string (option GoStruct) :=
  filter (fun x => x.1 ∈ rcvd) values.

(** The answers of a sample, by path; later ones replace earlier ones. *)
Definition record (values : gmap string (option GoStruct)) (v : SubscribeResponse) := <[sr_Path v := sr_Update v]> values.
Definition latest (rs : list SubscribeResponse) : gmap string (option GoStruct) := foldl record ∅ rs.
Definition pathsOf (rs : list SubscribeResponse) : gset string := list_to_set (map sr_Path rs).

Lemma foldl_record_lookup rs values p :
  foldl record values rs !! p = if decide (p ∈ pathsOf rs) then latest rs !! p else values !! p.
Proof.
  unfold latest, pathsOf. revert values. induction rs as [|v rs IH] using rev_ind; intros values; cbn.
  { by rewrite decide_False by set_solver. }
  rewrite !foldl_app, map_app, list_to_set_app_L. cbn. unfold record at 1 3.
  destruct (decide (p = sr_Path v)) as [->|Hne].
  - rewrite !lookup_insert_eq, decide_True by set_solver. done.
  - rewrite !lookup_insert_ne by done. rewrite IH. apply decide_ext. set_solver.
Qed.

Lemma received_latest rs values : received (pathsOf rs) (foldl record values rs) = latest rs.
Proof.
  apply map_eq. intros p. unfold received. apply option_eq. intros o. rewrite map_lookup_filter_Some, foldl_record_lookup. cbn.
  case_decide as Hd; [tauto|]. split; [by intros []|]. intros Ho. exfalso. unfold latest in Ho.
  rewrite foldl_record_lookup, decide_False in Ho by done. by rewrite lookup_empty in Ho.
Qed.

Section runs.
Context `{MapRange}.
Context (StringToStructuredPath : string -> option (list PathElem)).
Context (schema : string -> list StructField) (deref : N -> Scalar).
Context (EncodeTypedValue : LeafVal -> option TypedValue).
Context (TogNMINotifications : GoStruct -> option (list LeafUpdate)).
Context (PathKeyFromStruct : GoStruct -> option (gmap string string)).
Context (enumName : string -> Z -> option string).
Context (TogNMIEncoded : GoStruct -> option (list (list LeafUpdate))).
Context (prefix : option Path) (now : Z).

#[local] Abbreviation notify := (notify StringToStructuredPath schema deref EncodeTypedValue TogNMINotifications
  PathKeyFromStruct enumName TogNMIEncoded prefix now).
#[local] Abbreviation build := (build StringToStructuredPath schema deref EncodeTypedValue TogNMINotifications
  PathKeyFromStruct enumName TogNMIEncoded prefix now).
#[local] Abbreviation responses := (responses StringToStructuredPath schema deref EncodeTypedValue TogNMINotifications
  PathKeyFromStruct enumName TogNMIEncoded prefix now).
#[local] Abbreviation processResponses := (processResponses StringToStructuredPath schema deref EncodeTypedValue TogNMINotifications
  PathKeyFromStruct enumName TogNMIEncoded prefix now).
#[local] Abbreviation doSample := (doSample StringToStructuredPath schema deref EncodeTypedValue TogNMINotifications
  PathKeyFromStruct enumName TogNMIEncoded prefix now).

Lemma framed_deleteStale {X} (obs : translSubscriber -> X) pattern rcvd l : (forall ts c, obs (set_cache ts c) = obs ts) ->
  framed obs (deleteStale StringToStructuredPath pattern rcvd l).
Proof.
  intros Hc. induction l as [|[path o] l IH]; cbn [deleteStale]; [apply framed_ret|]. unfold toDeletePath, deleteValue.
  framed; try done. case_match; by rewrite ?Hc.
Qed.

(** Building a message changes the cache and the received paths only. *)
Lemma framed_build {X} (obs : translSubscriber -> X) v :
  (forall ts c, obs (set_cache ts c) = obs ts) -> (forall ts r, obs (set_rcvd ts r) = obs ts) -> framed obs (build v).
Proof.
  intros Hc Hr. pose proof (fun a b c => framed_deleteStale obs a b c Hc) as Hd.
  unfold TranslSubscriber.build, defaultMsgBuilder, msgBuilder, deleteMsgBuilder, toPrefix, ygotToScalarValues. framed; auto.
Qed.

Lemma framed_notify v : framed settings (notify v).
Proof.
  unfold TranslSubscriber.notify. apply framed_bind; [by apply framed_build|]. intros a. framed.
Qed.

(** ** Every sample ends *)

(** The items after which a sample is over. *)
Definition endsSample (i : QItem) : bool :=
  match i with
  | QDisposed | QError => true
  | QResponse v => sr_IsTerminated v || sr_SyncComplete v
  | QUnknown => false
  end.

Lemma responses_ends items ts : ts_stopOnSync ts = true -> existsb endsSample items ->
  settings (responses items ts).2 = settings ts /\ ((responses items ts).1 = None \/ (responses items ts).1 = Some true).
Proof.
  revert ts. induction items as [|i items IH]; intros ts Hstop He; [done|]. cbn in He.
  destruct i as [v| | |]; cbn [TranslSubscriber.responses].
  - destruct (sr_IsTerminated v) eqn:Et.
    { unfold mbind, SM_bind. cbn. unfold closeChannel. by destruct (c_closed _); cbn; [split; [done|left]|split; [done|right]]. }
    destruct (sr_SyncComplete v) eqn:Es.
    + unfold mbind, SM_bind, gets. rewrite Hstop. pose proof (framed_notify None ts) as Hf.
      destruct (notify None ts) as [[b|] ts1]; cbn in *; auto.
    + pose proof (framed_notify (Some v) ts) as Hf. unfold mbind, SM_bind.
      destruct (notify (Some v) ts) as [[[]|] ts1]; cbn in Hf; [|by cbn; auto..].
      rewrite <- Hf. apply IH; [unfold settings in Hf; congruence|]. cbn in He. by rewrite Et, Es in He.
  - cbn. auto.
  - cbn. auto.
  - apply IH; [done|]. cbn in He. done.
Qed.

Lemma process_ends items ts : ts_stopOnSync ts = true -> ts_syncDone ts = false -> (1 <= ts_synced ts)%Z -> existsb endsSample items ->
  exists ts', processResponses items ts = (Some true, ts') /\ ts_synced ts' = (ts_synced ts - 1)%Z /\ c_w ts' = (c_w ts - 1)%Z.
Proof.
  intros Hstop Hdone Hn He. destruct (responses_ends items ts Hstop He) as [Hs Hr].
  unfold TranslSubscriber.processResponses, recoverSubscribe, mbind, SM_bind.
  assert (forall ts1, settings ts1 = settings ts -> exists ts',
    (let (o, s1) := gets ts_syncDone ts1 in match o with Some syncDone => (_ ← (if syncDone then mret tt else syncedDone);
       _ ← modify (fun ts => set_w ts (c_w ts - 1)); mret true) s1 | None => (None, s1) end) = (Some true, ts') /\
    ts_synced ts' = (ts_synced ts - 1)%Z /\ c_w ts' = (c_w ts - 1)%Z) as Hfin.
  { intros ts1 H1. unfold settings in H1. cbn. assert (ts_syncDone ts1 = false) as -> by congruence.
    assert (ts_synced ts1 = ts_synced ts) as Hs1 by congruence. assert (c_w ts1 = c_w ts) as Hw by congruence.
    unfold mbind, SM_bind, syncedDone. cbn. destruct (Z.ltb_spec (ts_synced ts1 - 1) 0); [lia|]. cbn.
    eexists. split; [done|]. cbn. by rewrite Hs1, Hw. }
  destruct (responses items ts) as [o ts1]. cbn in Hs, Hr. destruct Hr as [-> | ->]; apply Hfin; done.
Qed.

(** C36. A sample always ends: once translib has signalled the end, reported an error or
    terminated, [doSample] stops waiting, whatever the answers made of the cache, the
    difference or the channel, panics included; the counters of the wait groups are back
    where they were. *)
Theorem sample_ends items streamErr ts : ts_synced ts = 0%Z -> (streamErr = true \/ existsb endsSample items) ->
  exists ts', doSample items streamErr ts = (Some true, ts') /\ ts_synced ts' = 0%Z /\ c_w ts' = c_w ts.
Proof.
  intros H0 He. unfold TranslSubscriber.doSample, mbind, SM_bind. cbn [modify].
  set (ts1 := match ts_sampleCache ts with Some _ => _ | None => _ end).
  assert (ts_stopOnSync ts1 = true /\ ts_syncDone ts1 = false /\ ts_synced ts1 = 1%Z /\ c_w ts1 = (c_w ts + 1)%Z) as (Hstop & Hd & Hs & Hw).
  { unfold ts1. destruct (ts_sampleCache ts); cbn; by rewrite H0. }
  destruct (process_ends (items ++ if streamErr then [QDisposed] else []) ts1) as (ts2 & E & Hs2 & Hw2); [done|done|lia| |].
  { rewrite existsb_app. destruct He as [-> | He]; [by rewrite orb_comm|]. by destruct (existsb endsSample items). }
  rewrite E. destruct streamErr; unfold enqueFatalMsgTranslib, modify, mret, SM_ret, gets;
    (rewrite bool_decide_true by (cbn [ts_synced put]; lia)); eexists; (split; [done|]); cbn [ts_synced put c_w]; lia.
Qed.

(** ** What other clients of a super subscription are given *)

Definition deletesOnly (n : Notification) : Prop := nt_Update n = [].

Lemma build_end ts n ts' : build None ts = (Some (Ok (Some n)), ts') -> deletesOnly n.
Proof.
  unfold TranslSubscriber.build, mbind, SM_bind, gets. destruct (ts_msgBuilder ts); [done|].
  unfold msgBuilder, mbind, SM_bind, gets. destruct (ts_sampleCache ts) as [c|]; [|done].
  unfold deleteMsgBuilder, mbind, SM_bind, gets. destruct (ts_filterMsgs ts); [done|].
  destruct (deleteStale _ _ _ _ _) as [[[|d ds]|] ts1]; [done| |done].
  unfold toPrefix. destruct (StringToStructuredPath "/"); [|done]. by intros [= <- _].
Qed.

Lemma notify_shares v ts : Forall deletesOnly (ss_sent ts) -> Forall deletesOnly (ss_sent (notify v ts).2).
Proof.
  intros Hs. unfold TranslSubscriber.notify, mbind, SM_bind.
  assert (framed ss_sent (build v)) as Hf by by apply framed_build. specialize (Hf ts).
  destruct (build v ts) as [[[[n|]|]|] ts1] eqn:E; cbn in *; try by rewrite Hf.
  destruct v as [v|]; [|apply build_end in E];
    destruct (nt_Update n), (nt_Delete n), (c_superSub ts1); cbn; rewrite ?Hf; try done;
    apply Forall_app; repeat constructor; done.
Qed.

(** Only the notification that ends a sample is given to the super subscription, and it
    has deletes only: sampled values reach the primary client's queue and no other. *)
Theorem shared_only_deletes items streamErr ts : Forall deletesOnly (ss_sent ts) ->
  Forall deletesOnly (ss_sent (doSample items streamErr ts).2).
Proof.
  intros Hs. assert (forall ts, Forall deletesOnly (ss_sent ts) -> Forall deletesOnly (ss_sent (responses (items ++ if streamErr then [QDisposed] else []) ts).2)) as Hresp.
  { induction (items ++ _) as [|[v| | |] l IH]; intros ts1 H1; cbn [TranslSubscriber.responses]; try done; [|by apply IH].
    destruct (sr_IsTerminated v). { unfold mbind, SM_bind. cbn. unfold closeChannel. by destruct (c_closed _). }
    destruct (sr_SyncComplete v).
    - unfold mbind, SM_bind, gets. destruct (ts_stopOnSync ts1).
      + pose proof (notify_shares None _ H1). by destruct (notify None ts1) as [[]].
      + cbn. destruct (_ <? 0)%Z; [done|]. by apply IH.
    - pose proof (notify_shares (Some v) _ H1). unfold mbind, SM_bind. destruct (notify (Some v) ts1) as [[[]|] ts2]; cbn in *; auto. }
  unfold TranslSubscriber.doSample, TranslSubscriber.processResponses, recoverSubscribe, mbind, SM_bind. cbn [modify].
  set (ts1 := match ts_sampleCache ts with Some _ => _ | None => _ end).
  assert (Forall deletesOnly (ss_sent ts1)) as H1 by (unfold ts1; by destruct (ts_sampleCache ts)). apply Hresp in H1.
  destruct (responses (items ++ _) ts1) as [[[]|] ts2]; cbn in H1 |- *.
  - destruct (ts_syncDone ts2); cbn; [by destruct streamErr|]. destruct (_ <? 0)%Z; cbn; [done|by destruct streamErr].
  - by destruct streamErr.
  - destruct (ts_syncDone ts2); cbn; [by destruct streamErr|]. destruct (_ <? 0)%Z; cbn; [done|by destruct streamErr].
Qed.

(** ** What a client makes of the notifications *)

Definition applyNotification (V : View) (n : Notification) : View :=
  let pre := path_elem (nt_Prefix n) in
  applyResults (mkResults (map (below pre) (nt_Update n)) (map (app pre) (nt_Delete n))) V.

#[local] Abbreviation optLeaves := (optLeaves schema deref EncodeTypedValue enumName).
#[local] Abbreviation leaves := (leaves schema deref EncodeTypedValue enumName).
#[local] Abbreviation wf := (wf schema deref PathKeyFromStruct).

(** The elements of an object's path. *)
Definition elems (p : string) : Path_ := default [] (StringToStructuredPath p).

Definition entryLeaves (x : string * option GoStruct) : list (Path_ * TypedValue) :=
  map (fun y => (elems x.1 ++ y.1, y.2)) (optLeaves x.2).

(** All leaves of the objects of a cache. *)
Definition cacheLeaves (values : gmap string (option GoStruct)) : list (Path_ * TypedValue) :=
  concat (map entryLeaves (map_to_list values)).

Definition cacheView (values : gmap string (option GoStruct)) : View := list_to_map (cacheLeaves values).

Lemma elem_of_cache values q v :
  (q, v) ∈ cacheLeaves values <-> exists p o q', values !! p = Some o /\ q = elems p ++ q' /\ (q', v) ∈ optLeaves o.
Proof.
  unfold cacheLeaves. rewrite list_elem_of_In, in_concat. split.
  - intros (l & Hl & Hq). apply in_map_iff in Hl as ([p o] & <- & Hin%list_elem_of_In%elem_of_map_to_list).
    apply list_elem_of_In, list_elem_of_fmap in Hq as ([q' v'] & [= -> ->] & Hq). by exists p, o, q'.
  - intros (p & o & q' & Hp & -> & Hq). exists (entryLeaves (p, o)). split.
    + apply in_map_iff. exists (p, o). split; [done|]. by apply list_elem_of_In, elem_of_map_to_list.
    + apply list_elem_of_In, list_elem_of_fmap. by exists (q', v).
Qed.

(** ** Samples *)

Section sampling.
(** The objects below a subscription: their paths parse and none lies below another;
    an object's answers are well-formed trees of one type, and when the subscribed path
    is longer than the object's (a leaf) they have leaves there only. *)
Context (objects : gset string) (ty : string -> string) (pattern : list PathElem).
Hypothesis parsed : forall p, p ∈ objects -> is_Some (StringToStructuredPath p).
Hypothesis separated : forall p q, p ∈ objects -> q ∈ objects -> elems p `prefix_of` elems q -> p = q.
Hypothesis root_path : StringToStructuredPath "/" = Some [].
Hypothesis schema_distinct : forall t, NoDup (map ft_path (schema t)).
Hypothesis to_notifications : forall s us, TogNMINotifications s = Some us ->
  forall q v, mkLeaf q v ∈ us <-> (q, v) ∈ leaves s.

Definition answer (p : string) (o : option GoStruct) : Prop :=
  p ∈ objects /\ exists s, o = Some s /\ (wf s /\ renders schema deref EncodeTypedValue TogNMINotifications enumName s) /\ typeOf s = ty p /\
    forall q v, (q, v) ∈ leaves s -> drop (length (elems p)) pattern `prefix_of` q.

Definition goodCache (values : gmap string (option GoStruct)) : Prop := map_Forall answer values.

Lemma elems_compare p q (d l : Path_) : p ∈ objects -> q ∈ objects -> (elems p ++ d) `prefix_of` (elems q ++ l) -> p = q.
Proof using separated.
  intros Hp Hq [k E]. rewrite <- app_assoc in E.
  destruct (list.prefix_weak_total (elems p) (elems q) (elems q ++ l)) as [Hle|Hle].
  - exists (d ++ k). done.
  - by apply list.prefix_app_r.
  - by apply separated.
  - symmetry. by apply separated.
Qed.

Lemma cache_functional values : goodCache values -> functional (cacheLeaves values).
Proof using separated schema_distinct.
  intros Hg q v v' (p1 & o1 & q1 & H1 & -> & Hq1)%elem_of_cache (p2 & o2 & q2 & H2 & E & Hq2)%elem_of_cache.
  destruct (Hg _ _ H1) as (Hp1 & s1 & -> & [Hw _] & _). destruct (Hg _ _ H2) as (Hp2 & s2 & -> & _).
  assert (p1 = p2) as <-. { apply (elems_compare p1 p2 q1 q2); [done..|]. rewrite <- E. done. }
  apply app_inv_head in E as <-. rewrite H1 in H2. injection H2 as <-.
  exact (leaves_functional schema deref EncodeTypedValue PathKeyFromStruct enumName schema_distinct s1 Hw q1 v v' Hq1 Hq2).
Qed.

(** A patch of one object is a patch of the whole cache. *)
Lemma object_patch values p o us ds : goodCache values -> answer p o ->
  Patches us ds (optLeaves (mjoin (values !! p))) (optLeaves o) ->
  Patches (map (below (elems p)) us) (map (app (elems p)) ds) (cacheLeaves values) (cacheLeaves (<[p := o]> values)).
Proof using separated.
  intros Hg Ho [A B C D]. pose proof Ho as (Hp & s1 & -> & _). split.
  - intros u (u' & -> & Hu)%list_elem_of_fmap. apply elem_of_cache. exists p, (Some s1), (leaf_path u').
    rewrite lookup_insert_eq. split; [done|]. split; [done|]. exact (A _ Hu).
  - intros d q v (d' & -> & Hd)%list_elem_of_fmap (p2 & o2 & q2 & H2 & -> & Hq2)%elem_of_cache Hpre.
    assert (p2 ∈ objects) as Hp2.
    { destruct (decide (p = p2)) as [<-|]; [done|]. rewrite lookup_insert_ne in H2 by done. by destruct (Hg _ _ H2). }
    pose proof (elems_compare _ _ _ _ Hp Hp2 Hpre) as <-. rewrite lookup_insert_eq in H2. simplify_eq.
    destruct Hpre as [k E]. rewrite <- app_assoc in E. apply app_inv_head in E as ->. apply (B _ _ _ Hd Hq2). by exists k.
  - intros q v (p2 & o2 & q2 & H2 & -> & Hq2)%elem_of_cache. destruct (decide (p = p2)) as [<-|Hne].
    + rewrite lookup_insert_eq in H2. simplify_eq. destruct (C _ _ Hq2) as [Hu|Hold].
      * left. apply list_elem_of_fmap. by exists (mkLeaf q2 v).
      * right. destruct (values !! p) as [o'|] eqn:E; [|by apply not_elem_of_nil in Hold]. apply elem_of_cache. by exists p, o', q2.
    + rewrite lookup_insert_ne in H2 by done. right. apply elem_of_cache. by exists p2, o2, q2.
  - intros q v (p2 & o2 & q2 & H2 & -> & Hq2)%elem_of_cache. destruct (decide (p = p2)) as [<-|Hne].
    + rewrite H2 in D. destruct (D _ _ Hq2) as [[v' Hv]|(d & Hd & Hpre)].
      * left. exists v'. apply elem_of_cache. exists p, (Some s1), q2. by rewrite lookup_insert_eq.
      * right. exists (elems p ++ d). split; [by apply list_elem_of_fmap; exists d|by apply list.prefix_app].
    + left. exists v. apply elem_of_cache. exists p2, o2, q2. by rewrite lookup_insert_ne.
Qed.

(** The part of the state that a sample reads and writes. *)
Definition sampling (values : gmap string (option GoStruct)) (rcvd : gset string) (ts : translSubscriber) : Prop :=
  ts_sampleCache ts = Some (mkCache values pattern) /\ ts_rcvdPaths ts = Some rcvd /\
  ts_msgBuilder ts = CacheBuilder /\ ts_filterMsgs ts = false.

(** Messages [ns] on the client's queue and [ds] to the super subscription. *)
Definition emitted (ns ds : list Notification) (ts ts' : translSubscriber) : Prop :=
  c_q ts' = c_q ts ++ map MValue ns /\ ss_sent ts' = ss_sent ts ++ ds /\ settings ts' = settings ts.

Lemma toPrefix_ok p ts : is_Some (StringToStructuredPath p) ->
  toPrefix StringToStructuredPath prefix p ts = (Some (mkPath (GetOrigin prefix) (GetTarget prefix) (elems p)), ts).
Proof using Type. intros [es E]. unfold toPrefix, elems. by rewrite E. Qed.

(** Sending a message: what is empty is left out. *)
Lemma notification_empty V n : nt_Update n = [] -> nt_Delete n = [] -> applyNotification V n = V.
Proof using Type. unfold applyNotification. by intros -> ->. Qed.

Lemma build_response values rcvd v ts : sampling values rcvd ts -> goodCache values -> answer (sr_Path v) (sr_Update v) ->
  exists us ds, let n := mkNotif (sr_Timestamp v) (mkPath (GetOrigin prefix) (GetTarget prefix) (elems (sr_Path v))) us ds in
    build (Some v) ts = (Some (Ok (Some n)), set_rcvd (set_cache ts (Some (mkCache (<[sr_Path v := sr_Update v]> values) pattern)))
      (Some ({[sr_Path v]} ∪ rcvd))) /\
    applyNotification (cacheView values) n = cacheView (<[sr_Path v := sr_Update v]> values).
Proof using parsed separated schema_distinct to_notifications.
  intros (Hc & Hr & Hb & Hf) Hg Ha. pose proof Ha as (Hp & s1 & Hs1 & [Hw1 Hr1] & Ht1 & _).
  unfold TranslSubscriber.build, mbind, SM_bind, gets. rewrite Hb.
  unfold msgBuilder, mbind, SM_bind, gets, modify. rewrite Hc. cbn [cache_values cache_pattern ts_rcvdPaths set_cache]. rewrite Hr.
  cbn [ts_filterMsgs ts_filterDups set_rcvd set_cache]. rewrite Hf.
  assert (match mjoin (values !! sr_Path v) with Some s => Some (typeOf s) = typeOf <$> sr_Update v | None => True end) as Hty.
  { destruct (values !! sr_Path v) as [o|] eqn:E; [|done]. destruct (Hg _ _ E) as (_ & s0 & -> & _ & Ht0 & _). cbn.
    rewrite Hs1. cbn. congruence. }
  assert (wfOpt schema deref PathKeyFromStruct (mjoin (values !! sr_Path v))) as Hw0.
  { destruct (values !! sr_Path v) as [o|] eqn:E; [|done]. by destruct (Hg _ _ E) as (_ & s0 & -> & [Hw0 _] & _). }
  destruct (diff_spec schema deref EncodeTypedValue TogNMINotifications PathKeyFromStruct enumName (negb (ts_filterDups ts))
    to_notifications schema_distinct _ (sr_Update v) Hw0) as (r & es & E & HF & HP); [by rewrite Hs1|].
  assert (es = []) as ->. { destruct HF as [?|[HF|HF]]; [done|by rewrite Hs1 in HF; cbn in HF; rewrite HF in Hr1|]. by destruct (mjoin _). }
  match goal with |- context [negb (ts_filterDups ?x)] => change (ts_filterDups x) with (ts_filterDups ts) end.
  rewrite E. rewrite toPrefix_ok by auto. exists (dr_Update r), (dr_Delete r). split; [done|].
  unfold applyNotification, cacheView. cbn. apply patch_applied.
  - apply object_patch; auto.
  - by apply cache_functional.
  - apply cache_functional. by apply map_Forall_insert_2.
Qed.

Lemma notify_response values rcvd v ts : sampling values rcvd ts -> goodCache values -> answer (sr_Path v) (sr_Update v) ->
  exists ts' ns, notify (Some v) ts = (Some true, ts') /\ emitted ns [] ts ts' /\
    sampling (<[sr_Path v := sr_Update v]> values) ({[sr_Path v]} ∪ rcvd) ts' /\
    foldl applyNotification (cacheView values) ns = cacheView (<[sr_Path v := sr_Update v]> values).
Proof using parsed separated schema_distinct to_notifications.
  intros Hs Hg Ha. destruct (build_response values rcvd v ts Hs Hg Ha) as (us & ds & E & Hv). destruct Hs as (Hc & Hr & Hb & Hf).
  unfold TranslSubscriber.notify, mbind, SM_bind. rewrite E. cbn [nt_Update nt_Delete].
  set (n := mkNotif _ _ us ds) in *. set (ts1 := set_rcvd _ _).
  assert (sampling (<[sr_Path v := sr_Update v]> values) ({[sr_Path v]} ∪ rcvd) ts1) as Hs1 by (unfold sampling, ts1; cbn; auto).
  assert (us = [] /\ ds = [] \/ match us, ds with [], [] => False | _, _ => True end) as [[-> ->]|Hne] by (destruct us, ds; auto).
  - exists ts1, []. rewrite <- Hv, notification_empty by done. split; [done|]. split; [|by split].
    unfold emitted. cbn. by rewrite !app_nil_r.
  - exists (exclusive ts1 n), [n]. split; [|split; [|split; [exact Hs1|exact Hv]]].
    + unfold gets, modify. by destruct us, ds, (c_superSub ts1).
    + unfold emitted. cbn. by rewrite app_nil_r.
Qed.

(** The paths that were not received. *)
Definition delElems (p : string) : Path_ := elems p ++ drop (length (elems p)) pattern.

Lemma toDeletePath_ok p ts : is_Some (StringToStructuredPath p) ->
  toDeletePath StringToStructuredPath pattern p ts = (Some (delElems p), ts).
Proof using Type.
  intros [es E]. unfold toDeletePath, delElems, elems. rewrite E. cbn [default from_option id].
  destruct (Nat.ltb (length es) (length pattern)) eqn:El; [done|]. apply Nat.ltb_ge in El. by rewrite drop_ge, app_nil_r.
Qed.

Lemma stale_deleted rcvd l values ts : (forall p o, (p, o) ∈ l -> is_Some (StringToStructuredPath p)) ->
  ts_sampleCache ts = Some (mkCache values pattern) ->
  exists ts' values', deleteStale StringToStructuredPath pattern rcvd l ts =
    (Some (map (fun x => delElems x.1) (filter (fun x => x.1 ∉ rcvd) l)), ts') /\
    ts' = set_cache ts (Some (mkCache values' pattern)) /\
    forall p, values' !! p = if decide (p ∈ l.*1 /\ p ∉ rcvd) then None else values !! p.
Proof using ty.
  revert values ts. induction l as [|[p o] l IH]; intros values ts Hl Hc.
  - exists ts, values. split; [done|]. split; [destruct ts; cbn in *; by subst|]. intros q.
    rewrite decide_False; [done|]. intros [?%not_elem_of_nil _]. done.
  - cbn [deleteStale]. destruct (decide (p ∈ rcvd)) as [Hin|Hin].
    + destruct (IH values ts) as (ts' & values' & E & -> & Hv); [intros; eapply Hl; by right|done|].
      exists (set_cache ts (Some (mkCache values' pattern))), values'. rewrite filter_cons_False by (cbn; auto). split; [exact E|]. split; [done|].
      intros q. rewrite Hv. apply decide_ext. cbn. rewrite elem_of_cons. split; [tauto|]. intros [[-> | ?] ?]; tauto.
    + unfold mbind, SM_bind. rewrite toDeletePath_ok by (eapply Hl; by left). unfold modify, deleteValue. rewrite Hc. cbn [cache_values cache_pattern].
      destruct (IH (delete p values) (set_cache ts (Some (mkCache (delete p values) pattern)))) as (ts' & values' & E & -> & Hv);
        [intros; eapply Hl; by right|done|]. rewrite E.
      eexists _, values'. rewrite filter_cons_True by done. split; [done|]. split; [done|]. intros q. rewrite Hv.
      destruct (decide (p = q)) as [<-|Hne].
      * rewrite lookup_delete_eq. rewrite (decide_True (P := p ∈ ((p, o) :: l).*1 /\ p ∉ rcvd)); [by case_decide|]. split; [by left|done].
      * rewrite lookup_delete_ne by done. apply decide_ext. cbn. rewrite elem_of_cons. split; [tauto|]. intros [[-> | ?] ?]; [done|tauto].
Qed.

Lemma stale_patch values rcvd ps : goodCache values -> (forall p, p ∈ ps <-> is_Some (values !! p) /\ p ∉ rcvd) ->
  Patches [] (map delElems ps) (cacheLeaves values) (cacheLeaves (received rcvd values)).
Proof using separated.
  intros Hg Hps. split.
  - by intros u ?%not_elem_of_nil.
  - intros d q v (p & -> & [[o Ho] Hn]%Hps)%list_elem_of_fmap (p2 & o2 & q2 & [H2 Hr]%map_lookup_filter_Some & -> & Hq2)%elem_of_cache Hpre.
    destruct (Hg _ _ Ho) as [Hp _], (Hg _ _ H2) as [Hp2 _]. by pose proof (elems_compare _ _ _ _ Hp Hp2 Hpre) as <-.
  - intros q v (p2 & o2 & q2 & [H2 Hr]%map_lookup_filter_Some & -> & Hq2)%elem_of_cache. right. apply elem_of_cache. by exists p2, o2, q2.
  - intros q v (p & o & q' & Ho & -> & Hq)%elem_of_cache. destruct (decide (p ∈ rcvd)) as [Hin|Hin].
    + left. exists v. apply elem_of_cache. exists p, o, q'. unfold received. by rewrite map_lookup_filter_Some.
    + right. exists (delElems p). split; [apply list_elem_of_fmap; exists p; split; [done|]; apply Hps; eauto|].
      destruct (Hg _ _ Ho) as (_ & s1 & -> & _ & _ & Hl). destruct (Hl _ _ Hq) as [k ->].
      exists k. unfold delElems. by rewrite app_assoc.
Qed.

Lemma received_good rcvd values : goodCache values -> goodCache (received rcvd values).
Proof using Type. intros Hg p o [Ho _]%map_lookup_filter_Some. by apply Hg. Qed.

Lemma notify_end values rcvd ts : sampling values rcvd ts -> goodCache values ->
  exists ts' ns ds, notify None ts = (Some true, ts') /\ emitted ns ds ts ts' /\
    ts_sampleCache ts' = Some (mkCache (received rcvd values) pattern) /\
    foldl applyNotification (cacheView values) (ns ++ ds) = cacheView (received rcvd values).
Proof using parsed separated root_path schema_distinct.
  intros (Hc & Hr & Hb & Hf) Hg.
  destruct (stale_deleted rcvd (range_of values) values ts) as (ts1 & values' & E & -> & Hv); [|done|].
  { intros p o Hin. rewrite range_of_perm in Hin. apply elem_of_map_to_list in Hin. apply parsed. by destruct (Hg _ _ Hin). }
  set (stale := map fst (filter (fun x : string * option GoStruct => x.1 ∉ rcvd) (range_of values))).
  assert (forall p, p ∈ stale <-> is_Some (values !! p) /\ p ∉ rcvd) as Hstale.
  { intros p. unfold stale. rewrite list_elem_of_fmap. split.
    - intros ([p' o] & -> & [Hn Hin]%list_elem_of_filter). rewrite range_of_perm in Hin. apply elem_of_map_to_list in Hin. eauto.
    - intros [[o Ho] Hn]. exists (p, o). split; [done|]. apply list_elem_of_filter. split; [done|]. rewrite range_of_perm. by apply elem_of_map_to_list. }
  assert (values' = received rcvd values) as ->.
  { apply map_eq. intros p. rewrite Hv. unfold received. apply option_eq. intros o. rewrite map_lookup_filter_Some. cbn.
    case_decide as Hd; split; [done| | |].
    - intros [Ho Hin]. by destruct Hd.
    - intros Ho. split; [done|]. apply dec_stable. intros Hn. apply Hd. split; [|done]. apply list_elem_of_fmap. exists (p, o).
      split; [done|]. rewrite range_of_perm. by apply elem_of_map_to_list.
    - by intros []. }
  assert (map (fun x => delElems x.1) (filter (fun x : string * option GoStruct => x.1 ∉ rcvd) (range_of values)) = map delElems stale) as Em
    by (unfold stale; by rewrite map_map). rewrite Em in E.
  pose proof (patch_applied _ _ _ _ (stale_patch values rcvd stale Hg Hstale) (cache_functional _ Hg) (cache_functional _ (received_good rcvd _ Hg))) as Hp.
  unfold TranslSubscriber.notify, TranslSubscriber.build, msgBuilder, deleteMsgBuilder, mbind, SM_bind, gets.
  rewrite Hb, Hc. cbn [cache_values cache_pattern]. rewrite Hf, Hr. cbn [default from_option id]. rewrite E.
  set (ts1 := set_cache ts _). destruct (map delElems stale) as [|d ds] eqn:Es.
  - exists ts1, [], []. split; [done|]. split; [unfold emitted; cbn; by rewrite !app_nil_r|]. split; [done|]. exact Hp.
  - unfold toPrefix. rewrite root_path. cbn [mret SM_ret nt_Update nt_Delete]. set (n := mkNotif now _ [] (d :: ds)).
    assert (applyNotification (cacheView values) n = cacheView (received rcvd values)) as Hn.
    { unfold applyNotification, n. cbn [nt_Prefix path_elem nt_Update nt_Delete]. rewrite map_id. exact Hp. }
    change (c_superSub ts1) with (c_superSub ts). unfold mret, SM_ret, modify. destruct (c_superSub ts).
    + exists (share ts1 n), [], [n]. split; [done|]. split; [unfold emitted; cbn; by rewrite app_nil_r|]. by split.
    + exists (exclusive ts1 n), [n], []. split; [done|]. split; [unfold emitted; cbn; by rewrite app_nil_r|]. by split.
Qed.

Lemma responses_view rs sync values rcvd ts : sampling values rcvd ts -> ts_stopOnSync ts = true -> goodCache values ->
  Forall (fun v => answer (sr_Path v) (sr_Update v) /\ sr_SyncComplete v = false /\ sr_IsTerminated v = false) rs ->
  sr_SyncComplete sync = true -> sr_IsTerminated sync = false ->
  exists ts' ns ds, responses (map QResponse rs ++ [QResponse sync]) ts = (Some true, ts') /\ emitted ns ds ts ts' /\
    ts_sampleCache ts' = Some (mkCache (received (pathsOf rs ∪ rcvd) (foldl record values rs)) pattern) /\
    foldl applyNotification (cacheView values) (ns ++ ds) = cacheView (received (pathsOf rs ∪ rcvd) (foldl record values rs)).
Proof using parsed separated root_path schema_distinct to_notifications.
  intros Hs Hstop Hg Hrs Hsync Hterm. revert values rcvd ts Hs Hstop Hg. induction Hrs as [|v rs (Ha & Hns & Hnt) Hrs IH]; intros values rcvd ts Hs Hstop Hg.
  - cbn [map app TranslSubscriber.responses]. rewrite Hterm, Hsync. unfold mbind, SM_bind, gets. rewrite Hstop.
    destruct (notify_end values rcvd ts Hs Hg) as (ts' & ns & ds & E & He & Hc & Hv). exists ts', ns, ds. rewrite E.
    assert (pathsOf [] ∪ rcvd = rcvd) as -> by (unfold pathsOf; cbn; set_solver). done.
  - cbn [map app TranslSubscriber.responses]. rewrite Hnt, Hns. unfold mbind, SM_bind.
    destruct (notify_response values rcvd v ts Hs Hg Ha) as (ts1 & ns1 & E1 & (Q1 & S1 & F1) & Hs1 & Hv1). rewrite E1.
    destruct (IH (record values v) ({[sr_Path v]} ∪ rcvd) ts1) as (ts2 & ns2 & ds2 & E2 & (Q2 & S2 & F2) & Hc2 & Hv2); [done| | |].
    { unfold settings in F1. congruence. } { by apply map_Forall_insert_2. }
    exists ts2, (ns1 ++ ns2), ds2. split; [done|]. split.
    { unfold emitted. rewrite Q2, Q1, S2, S1, F2, F1, map_app, !app_assoc, app_nil_r. done. }
    assert (pathsOf (v :: rs) ∪ rcvd = pathsOf rs ∪ ({[sr_Path v]} ∪ rcvd)) as -> by (unfold pathsOf; cbn; set_solver).
    split; [done|]. rewrite <- app_assoc, foldl_app, Hv1. exact Hv2.
Qed.

(** C4. For objects whose paths parse and none of which lies below another, over trees that
    are well-formed, of the type of their object, below the subscribed path, and whose values
    the library can render: after a sample that starts with the cache of the previous one,
    outside the phase that updates_only filters out, and whose answers end with
    the sync mark, a client that applies the notifications in order (those on its own queue,
    then the one shared through the super subscription) to the leaves of the previous sample
    has exactly the leaves of the objects reported this time, whether or not redundant
    updates are suppressed; objects that were not reported again are gone from the client
    and from the cache. *)
Theorem sample_view_current values rs sync ts :
  ts_sampleCache ts = Some (mkCache values pattern) -> ts_filterMsgs ts = false -> ts_synced ts = 0%Z -> goodCache values ->
  Forall (fun v => answer (sr_Path v) (sr_Update v) /\ sr_SyncComplete v = false /\ sr_IsTerminated v = false) rs ->
  sr_SyncComplete sync = true -> sr_IsTerminated sync = false ->
  exists ts' ns ds, doSample (map QResponse rs ++ [QResponse sync]) false ts = (Some true, ts') /\
    c_q ts' = c_q ts ++ map MValue ns /\ ss_sent ts' = ss_sent ts ++ ds /\
    ts_sampleCache ts' = Some (mkCache (latest rs) pattern) /\
    foldl applyNotification (cacheView values) (ns ++ ds) = cacheView (latest rs).
Proof using parsed separated root_path schema_distinct to_notifications.
  intros Hc Hf H0 Hg Hrs Hsync Hterm. set (ts1 := prepared ts CacheBuilder (Some ∅) true).
  destruct (responses_view rs sync values ∅ ts1) as (ts2 & ns & ds & E & (Q & S & F) & Hc2 & Hv); [done..|].
  rewrite union_empty_r_L, received_latest in Hc2, Hv.
  unfold TranslSubscriber.doSample, TranslSubscriber.processResponses, recoverSubscribe, mbind, SM_bind. cbn [modify]. rewrite Hc.
  fold ts1. rewrite app_nil_r, E. unfold settings in F. injection F as _ _ _ Fs _ Fd Fw _. cbn [ts_syncDone ts1 prepared] in Fd.
  unfold gets, mret, SM_ret, syncedDone, modify. rewrite Fd. cbn [ts_synced set_synced]. rewrite Fs. cbn [ts_synced ts1 prepared]. rewrite H0.
  cbn [Z.add Z.sub Z.ltb Z.compare Z.opp Z.pos_sub Pos.compare Pos.compare_cont]. eexists _, ns, ds. split; [reflexivity|].
  cbn [c_q ss_sent ts_sampleCache set_w set_synced]. rewrite Q, S. done.
Qed.
End sampling.

(** ** Notifications without a cache *)

Lemma removeLast_app p p' e : removeLastPathElem p = (p', e) -> p = p' ++ option_list e.
Proof.
  unfold removeLastPathElem. destruct (last p) as [x|] eqn:E; intros [= <- <-]; [|by rewrite app_nil_r].
  apply last_Some in E as [l ->]. rewrite length_app, Nat.add_sub, take_app_length. done.
Qed.

Lemma insertFirst_app q e : insertFirstPathElem q e = option_list e ++ q.
Proof. by destruct e. Qed.

Lemma deletePaths_ok dels e ds : deletePaths StringToStructuredPath dels e = Ok ds ->
  exists ps, Forall2 (fun del p => StringToStructuredPath del = Some p) dels ps /\ ds = map (fun p => option_list e ++ p) ps.
Proof.
  revert ds. induction dels as [|del dels IH]; intros ds; cbn; [intros [= <-]; by exists []|].
  destruct (StringToStructuredPath del) as [p|] eqn:E; [|done].
  destruct (deletePaths StringToStructuredPath dels e) as [ps|]; [|done]. intros [= <-].
  destruct (IH _ eq_refl) as (ps' & HF & ->). exists (p :: ps'). split; [by constructor|]. cbn. by rewrite insertFirst_app.
Qed.

(** The notification of a change names exactly the paths translib reported: moving the
    last element of the object's path from the prefix to the updates and deletes (done
    when the object itself was deleted) does not change the absolute paths. *)
Theorem change_paths_kept v ts n ts' :
  defaultMsgBuilder StringToStructuredPath TogNMIEncoded prefix (Some v) ts = (Some (Ok (Some n)), ts') ->
  exists es us ps, StringToStructuredPath (sr_Path v) = Some es /\
    match sr_Update v with None => us = [] | Some obj => exists rest, TogNMIEncoded obj = Some (us :: rest) end /\
    Forall2 (fun del p => StringToStructuredPath del = Some p) (sr_Delete v) ps /\
    map (below (path_elem (nt_Prefix n))) (nt_Update n) = map (below es) us /\
    map (app (path_elem (nt_Prefix n))) (nt_Delete n) = map (app es) ps.
Proof.
  unfold defaultMsgBuilder, mbind, SM_bind, gets. destruct (ts_filterMsgs ts); [done|].
  unfold toPrefix. destruct (StringToStructuredPath (sr_Path v)) as [es|] eqn:Ep; [|done]. cbn [mret SM_ret path_elem path_origin path_target].
  destruct (if strSliceContains (sr_Delete v) "" then removeLastPathElem es else (es, None)) as [el e] eqn:Er.
  assert (es = el ++ option_list e) as Hes.
  { destruct (strSliceContains (sr_Delete v) ""); [by apply removeLast_app|]. injection Er as <- <-. by rewrite app_nil_r. }
  assert (forall us, map (below el) (map (fun u => mkLeaf (insertFirstPathElem (leaf_path u) e) (leaf_val u)) us) = map (below es) us) as Hus.
  { intros us. rewrite map_map. apply map_ext. intros u. unfold below. cbn. by rewrite insertFirst_app, Hes, app_assoc. }
  assert (forall ds, deletePaths StringToStructuredPath (sr_Delete v) e = Ok ds -> exists ps,
    Forall2 (fun del p => StringToStructuredPath del = Some p) (sr_Delete v) ps /\ map (app el) ds = map (app es) ps) as Hds.
  { intros ds (ps & HF & ->)%deletePaths_ok. exists ps. split; [done|]. rewrite map_map. apply map_ext. intros p. by rewrite Hes, app_assoc. }
  destruct (sr_Update v) as [obj|]; [unfold ygotToScalarValues; destruct (TogNMIEncoded obj) as [[|us rest]|] eqn:Eo; try done|];
    cbn [mret SM_ret]; (destruct (deletePaths StringToStructuredPath (sr_Delete v) e) as [ds|]; [|done]); intros [= <- <-];
    destruct (Hds _ eq_refl) as (ps & HF & Hd); cbn [nt_Prefix nt_Update nt_Delete path_elem].
  - exists es, us, ps. split; [done|]. split; [by exists rest|]. split; [done|]. split; [apply Hus|done].
  - exists es, [], ps. done.
Qed.
End runs.

(** ** A concrete subscription *)

Definition demo_parse (p : string) : option (list PathElem) := Some (if String.eqb p "/" then [] else [ename p]).

Definition demo_resp (n : string) (oper : Z) (state : option GoStruct) : SubscribeResponse :=
  mkResp n 1 (Some (demo_if n oper state).2) [] false false.
Definition demo_sync : SubscribeResponse := mkResp "" 2 None [] true false.

Definition demo_values : gmap string (option GoStruct) :=
  <["Ethernet0" := sr_Update (demo_resp "Ethernet0" 1 None)]> {["Ethernet4" := sr_Update (demo_resp "Ethernet4" 1 None)]}.

Definition demo_ts : translSubscriber :=
  mkTS (Some (mkCache demo_values [])) false true false 0 None DefaultBuilder false [] false 1 true [] 0 0.

Definition demo_answers : list SubscribeResponse :=
  [demo_resp "Ethernet0" 2 None; demo_resp "Ethernet8" 1 (Some (demo_state (Some 9100%Z) [] None))].

Abbreviation demo_sample := (doSample demo_parse demo_schema demo_deref demo_encode demo_togNMI demo_key demo_enum (fun _ => None) None 3
  (map QResponse demo_answers ++ [QResponse demo_sync]) false demo_ts).

Definition demo_objects : gset string := {["Ethernet0"; "Ethernet4"; "Ethernet8"]}.

Lemma demo_answer n oper state : n ∈ demo_objects -> wf demo_schema demo_deref demo_key (demo_if n oper state).2 ->
  renders demo_schema demo_deref demo_encode demo_togNMI demo_enum (demo_if n oper state).2 ->
  answer demo_parse demo_schema demo_deref demo_encode demo_togNMI demo_key demo_enum demo_objects (fun _ => "Interface") [] n
    (sr_Update (demo_resp n oper state)).
Proof.
  intros Hn Hw Hr. split; [exact Hn|]. eexists. split; [reflexivity|]. split; [split; [exact Hw|exact Hr]|]. split; [reflexivity|].
  intros q v _. rewrite drop_nil. apply prefix_nil.
Qed.

Lemma sample_ends_witness : exists ts', demo_sample = (Some true, ts') /\ ts_synced ts' = 0%Z /\ c_w ts' = 1%Z.
Proof.
  exact (sample_ends demo_parse demo_schema demo_deref demo_encode demo_togNMI demo_key demo_enum (fun _ => None) None 3
    (map QResponse demo_answers ++ [QResponse demo_sync]) false demo_ts eq_refl (or_intror I)).
Defined.

Lemma sample_view_current_witness : exists ts' ns ds, demo_sample = (Some true, ts') /\ length ns = 2 /\ length ds = 1 /\
  foldl applyNotification (cacheView demo_parse demo_schema demo_deref demo_encode demo_enum demo_values) (ns ++ ds) =
  cacheView demo_parse demo_schema demo_deref demo_encode demo_enum (latest demo_answers).
Proof.
  destruct (sample_view_current demo_parse demo_schema demo_deref demo_encode demo_togNMI demo_key demo_enum (fun _ => None) None 3
    demo_objects (fun _ => "Interface") []) with (values := demo_values) (rs := demo_answers) (sync := demo_sync) (ts := demo_ts)
    as (ts' & ns & ds & E & Q & S & _ & Hv); try reflexivity.
  - intros p _. eexists. reflexivity.
  - intros p q Hp Hq. unfold elems, demo_parse. cbn [default from_option id].
    assert (String.eqb p "/" = false) as -> by (apply String.eqb_neq; intros ->; revert Hp; apply (bool_decide_unpack _); vm_compute; exact I).
    assert (String.eqb q "/" = false) as -> by (apply String.eqb_neq; intros ->; revert Hq; apply (bool_decide_unpack _); vm_compute; exact I).
    intros H%prefix_cons_inv_1. injection H as ->. reflexivity.
  - exact demo_distinct.
  - exact demo_renders.
  - apply map_Forall_insert_2; [|apply map_Forall_singleton]; apply demo_answer; try (vm_compute; exact I); set_solver.
  - apply Forall_cons. split; [split; [exact (demo_answer "Ethernet0" 2 None ltac:(set_solver) ltac:(vm_compute; exact I) ltac:(vm_compute; exact I))|split; reflexivity]|].
    apply Forall_cons. split; [split; [exact (demo_answer "Ethernet8" 1 (Some (demo_state (Some 9100%Z) [] None)) ltac:(set_solver) ltac:(vm_compute; exact I) ltac:(vm_compute; exact I))|split; reflexivity]|].
    apply Forall_nil. exact I.
  - exists ts', ns, ds. split; [exact E|].
    assert (exists ts0, demo_sample = (Some true, ts0) /\ length (c_q ts0) = 2 /\ length (ss_sent ts0) = 1) as (ts0 & E0 & L1 & L2)
      by (eexists; split; [vm_compute; reflexivity|split; reflexivity]).
    rewrite E0 in E. injection E as ->. rewrite Q, length_app, length_map in L1. rewrite S, length_app in L2.
    split; [exact L1|]. split; [exact L2|exact Hv].
Defined.
