(* ===== verification/SuperSub.v ===== *)
(** Super subscriptions (sonic_data_client/super_subscription.go): streaming clients with
    equal requests share tickers, and only the primary client of each group samples.

    Clients and super subscriptions are pointers, here numbers.  Every operation runs under
    the mutexes it takes, so it is one step; a send on a full [wakeChan] blocks, which is
    the result [None].  The loops over maps take the order in which they visit their
    entries as an argument.  The second part is the life of a client, the end of
    [StreamRun] in transl_data_client.go, as a step relation of any number of clients. *)

From S2P Require Import Prelude.

Abbreviation Client := nat.
Abbreviation SuperId := nat.

(** A ticker is created once per super subscription and interval. *)
Definition Ticker : Type := SuperId * Z.

(** [ticker_info]: the ticker, the path, whether the subscription suppresses redundant
    updates, and whether the timer is a heartbeat. *)
Record ticker_info := mkTicker {
  tk_t : option Ticker;
  tk_pathStr : string;
  tk_suppress : bool;
  tk_heartbeat : bool
}.

Definition withTicker (t : option Ticker) (i : ticker_info) : ticker_info :=
  mkTicker t (tk_pathStr i) (tk_suppress i) (tk_heartbeat i).

Section super.
Context {Req Val : Type} (protoEqual : Req -> Req -> bool).

Record superSubscription := mkSuper {
  ss_clients : gset Client;
  ss_request : Req;
  ss_primaryClient : option Client;
  ss_tickers : gmap Z Ticker
}.

(** The heap of super subscriptions, the set [superSubs.subs], the fields [superSub],
    [wakeChan] (full or empty) and [q] of the clients, the tickers that were stopped. *)
Record Store := mkStore {
  st_heap : gmap SuperId superSubscription;
  st_subs : gset SuperId;
  st_superSub : gmap Client SuperId;
  st_wakeChan : gset Client;
  st_queue : gmap Client (list Val);
  st_stopped : gset Ticker
}.

Definition set_heap (st : Store) (h : gmap SuperId superSubscription) : Store :=
  mkStore h (st_subs st) (st_superSub st) (st_wakeChan st) (st_queue st) (st_stopped st).

(** [createSuperSubscription]; the new pointer is one that was never used. *)
Definition createSuperSubscription (subscription : option Req) (st : Store) : option SuperId * Store :=
  match subscription with
  | None => (None, st)
  | Some r =>
      let newSuperSub := fresh (dom (st_heap st)) in
      (Some newSuperSub,
       mkStore (<[newSuperSub := mkSuper ∅ r None ∅]> (st_heap st)) ({[newSuperSub]} ∪ st_subs st)
         (st_superSub st) (st_wakeChan st) (st_queue st) (st_stopped st))
  end.

Fixpoint findIn (r : Req) (order : list SuperId) (st : Store) : option SuperId :=
  match order with
  | [] => None
  | sub :: order =>
      match st_heap st !! sub with
      | Some ss => if protoEqual (ss_request ss) r then Some sub else findIn r order st
      | None => findIn r order st
      end
  end.

Definition findSuperSubscription (subscription : option Req) (order : list SuperId) (st : Store) : option SuperId :=
  match subscription with
  | None => None
  | Some r => findIn r order st
  end.

(** [tickerCleanup] and [deleteSuperSubscription]. *)
Definition tickerCleanup (tickers : gmap Z Ticker) (st : Store) : Store :=
  mkStore (st_heap st) (st_subs st) (st_superSub st) (st_wakeChan st) (st_queue st)
    (list_to_set (map snd (map_to_list tickers)) ∪ st_stopped st).

Definition deleteSuperSubscription (superSub : option SuperId) (st : Store) : Store :=
  match superSub with
  | None => st
  | Some sid =>
      let st := match st_heap st !! sid with Some ss => tickerCleanup (ss_tickers ss) st | None => st end in
      mkStore (st_heap st) (st_subs st ∖ {[sid]}) (st_superSub st) (st_wakeChan st) (st_queue st) (st_stopped st)
  end.

(** [sendNotifications]: every client's queue gets a copy. *)
Definition sendNotifications (ss : superSubscription) (v : option Val) (st : Store) : Store :=
  match v with
  | None => st
  | Some v =>
      mkStore (st_heap st) (st_subs st) (st_superSub st) (st_wakeChan st)
        (set_fold (fun c q => <[c := default [] (q !! c) ++ [v]]> q) (st_queue st) (ss_clients ss)) (st_stopped st)
  end.

(** The errors of [populateTickers]; [NewTickerPanic] is the panic of [time.NewTicker] on an
    interval that is not positive. *)
Inductive TickerErr := TickersNilMap | TickersLength | TickersMissing | NewTickerPanic.

(** The loop that creates the tickers; it ends at the first interval that panics, and the
    tickers made before stay in the map. *)
Fixpoint newTickers (sid : SuperId) (order : list Z) (tickers : gmap Z Ticker) : gmap Z Ticker * bool :=
  match order with
  | [] => (tickers, true)
  | interval :: order =>
      if decide (interval <= 0)%Z then (tickers, false)
      else newTickers sid order (<[interval := (sid, interval)]> tickers)
  end.

Definition setTickers (sid : SuperId) (infos : gmap Z (list ticker_info)) : gmap Z (list ticker_info) :=
  map_imap (fun interval tInfos => Some (map (withTicker (Some (sid, interval))) tInfos)) infos.

(** [populateTickers] of the super subscription [sid]; [order] is how the map is visited. *)
Definition populateTickers (sid : SuperId) (order : list Z) (intervalToTickerInfoMap : option (gmap Z (list ticker_info))) (st : Store)
    : res TickerErr (gmap Z (list ticker_info)) * Store :=
  match intervalToTickerInfoMap, st_heap st !! sid with
  | None, _ => (Err TickersNilMap, st)
  | Some infos, None => (Err TickersMissing, st)
  | Some infos, Some ss =>
      if decide (size (ss_tickers ss) = 0) then
        let '(tickers, finished) := newTickers sid order (ss_tickers ss) in
        (if finished then Ok (setTickers sid infos) else Err NewTickerPanic,
         set_heap st (<[sid := mkSuper (ss_clients ss) (ss_request ss) (ss_primaryClient ss) tickers]> (st_heap st)))
      else if decide (size (ss_tickers ss) <> size infos) then (Err TickersLength, st)
      else if decide (dom infos ⊆ dom (ss_tickers ss)) then
        (Ok (map_imap (fun interval tInfos => Some (map (withTicker (ss_tickers ss !! interval)) tInfos)) infos), st)
      else (Err TickersMissing, st)
  end.

Definition isPrimary (c : Client) (st : Store) : bool :=
  match st_superSub st !! c with
  | None => false
  | Some sid =>
      match st_heap st !! sid with
      | Some ss => bool_decide (ss_primaryClient ss = Some c)
      | None => false
      end
  end.

(** [leaveSuperSubscription]; [order] is how the remaining clients are visited.  [None]
    when the send on the new primary's channel blocks. *)
Definition leaveSuperSubscription (c : Client) (order : list Client) (st : Store) : option Store :=
  match st_superSub st !! c with
  | None => Some st
  | Some sid =>
      match st_heap st !! sid with
      | None => Some st
      | Some ss =>
          let clients := ss_clients ss ∖ {[c]} in
          let st1 := set_heap st (<[sid := mkSuper clients (ss_request ss) (ss_primaryClient ss) (ss_tickers ss)]> (st_heap st)) in
          if decide (clients = ∅) then Some (deleteSuperSubscription (Some sid) st1)
          else if decide (ss_primaryClient ss = Some c) then
            match order with
            | [] => Some st1
            | client :: _ =>
                let st2 := set_heap st1 (<[sid := mkSuper clients (ss_request ss) (Some client) (ss_tickers ss)]> (st_heap st1)) in
                if decide (client ∈ st_wakeChan st2) then None
                else Some (mkStore (st_heap st2) (st_subs st2) (st_superSub st2) ({[client]} ∪ st_wakeChan st2) (st_queue st2) (st_stopped st2))
            end
          else Some st1
      end
  end.

(** [addClientToSuperSubscription]. *)
Definition addClientToSuperSubscription (c : Client) (subscription : option Req) (order : list SuperId) (st : Store) : Store :=
  match subscription with
  | None => st
  | Some _ =>
      let '(superSub, st) :=
        match findSuperSubscription subscription order st with
        | Some sid => (Some sid, st)
        | None => createSuperSubscription subscription st
        end in
      match superSub with
      | None => st
      | Some sid =>
          match st_heap st !! sid with
          | None => st
          | Some ss =>
              let primary := match ss_primaryClient ss with None => Some c | p => p end in
              mkStore (<[sid := mkSuper ({[c]} ∪ ss_clients ss) (ss_request ss) primary (ss_tickers ss)]> (st_heap st))
                (st_subs st) (<[c := sid]> (st_superSub st)) (st_wakeChan st) (st_queue st) (st_stopped st)
          end
      end
  end.

(** ** The life of a streaming client *)

(** Where a client is in [StreamRun]: before the subscription is added; with tickers to
    fetch; before the test of the loop; waiting for [wakeChan] or the stop channel; in the
    sampling loop; before the deferred call; done. *)
Inductive Pc := Starting | Joined | Testing | Waiting | Ticking | Leaving | Finished.

#[global] Instance Pc_eq_dec : EqDecision Pc.
Proof. solve_decision. Defined.

Record System := mkSystem {
  sys_store : Store;
  sys_pc : gmap Client Pc
}.

(** The request and the intervals of a client; each client serves one request. *)
Context (request : Client -> Req) (infos : Client -> gmap Z (list ticker_info)).

Inductive step (c : Client) : System -> System -> Prop :=
| step_add st pc order :
    pc !! c = Some Starting -> order ≡ₚ elements (st_subs st) ->
    step c (mkSystem st pc) (mkSystem (addClientToSuperSubscription c (Some (request c)) order st) (<[c := Joined]> pc))
| step_tickers st pc sid order infos' st' :
    pc !! c = Some Joined -> st_superSub st !! c = Some sid -> order ≡ₚ elements (dom (infos c)) ->
    populateTickers sid order (Some (infos c)) st = (Ok infos', st') ->
    step c (mkSystem st pc) (mkSystem st' (<[c := Testing]> pc))
| step_tickers_err st pc sid order e st' :
    pc !! c = Some Joined -> st_superSub st !! c = Some sid -> order ≡ₚ elements (dom (infos c)) ->
    populateTickers sid order (Some (infos c)) st = (Err e, st') ->
    step c (mkSystem st pc) (mkSystem st' (<[c := Leaving]> pc))
| step_primary st pc :
    pc !! c = Some Testing -> isPrimary c st = true -> step c (mkSystem st pc) (mkSystem st (<[c := Ticking]> pc))
| step_secondary st pc :
    pc !! c = Some Testing -> isPrimary c st = false -> step c (mkSystem st pc) (mkSystem st (<[c := Waiting]> pc))
| step_wake st pc :
    pc !! c = Some Waiting -> c ∈ st_wakeChan st ->
    step c (mkSystem st pc)
      (mkSystem (mkStore (st_heap st) (st_subs st) (st_superSub st) (st_wakeChan st ∖ {[c]}) (st_queue st) (st_stopped st)) (<[c := Testing]> pc))
| step_stop st pc p :
    pc !! c = Some p -> p = Waiting \/ p = Ticking -> step c (mkSystem st pc) (mkSystem st (<[c := Leaving]> pc))
| step_sample st pc sid ss v :
    pc !! c = Some Ticking -> st_superSub st !! c = Some sid -> st_heap st !! sid = Some ss ->
    step c (mkSystem st pc) (mkSystem (sendNotifications ss v st) pc)
| step_leave st pc sid ss order st' :
    pc !! c = Some Leaving -> st_superSub st !! c = Some sid -> st_heap st !! sid = Some ss ->
    order ≡ₚ elements (ss_clients ss ∖ {[c]}) -> leaveSuperSubscription c order st = Some st' ->
    step c (mkSystem st pc) (mkSystem st' (<[c := Finished]> pc)).

Definition anyStep (s s' : System) : Prop := exists c, step c s s'.

(** All clients before they start. *)
Definition initial (clients : gset Client) : System :=
  mkSystem (mkStore ∅ ∅ ∅ ∅ ∅ ∅) (gset_to_gmap Starting clients).

Definition reachable (s : System) : Prop := exists clients, rtc anyStep (initial clients) s.
End super.
