(* ===== verification/SuperSubProofs.v ===== *)
(** Super subscriptions: their shape under every interleaving of clients, one sampling client
    per request, and no lost wake-up. *)

From S2P Require Import Prelude SuperSub.

Section super_proofs.
Context {Req Val : Type} (protoEqual : Req -> Req -> bool).
Hypothesis equal_refl : forall a, protoEqual a a = true.
Hypothesis equal_sym : forall a b, protoEqual a b = true -> protoEqual b a = true.
Hypothesis equal_trans : forall a b c, protoEqual a b = true -> protoEqual b c = true -> protoEqual a c = true.
Context (request : Client -> Req) (infos : Client -> gmap Z (list ticker_info)).

#[local] Abbreviation Store := (Store (Req := Req) (Val := Val)).
#[local] Abbreviation System := (System (Req := Req) (Val := Val)).
#[local] Abbreviation step := (step protoEqual request infos).
#[local] Abbreviation anyStep := (anyStep protoEqual request infos).
#[local] Abbreviation reachable := (reachable (Val := Val) protoEqual request infos).

(** A client between the two deferred ends of its membership. *)
Definition active (p : Pc) : Prop := p <> Starting /\ p <> Finished.

(** [c] belongs to the super subscription [sid], [ss]. *)
Definition member (st : Store) (c : Client) (sid : SuperId) (ss : superSubscription) : Prop :=
  sid ∈ st_subs st /\ st_heap st !! sid = Some ss /\ c ∈ ss_clients ss.

(** The shape of the store: every live super subscription has a primary client among its
    members, members are the active clients, requests are distinct, live tickers run. *)
Record storeOk (st : Store) (pc : gmap Client Pc) : Prop := {
  ok_sub : forall sid, sid ∈ st_subs st -> exists ss p, st_heap st !! sid = Some ss /\ ss_primaryClient ss = Some p /\ p ∈ ss_clients ss;
  ok_member : forall c sid ss, member st c sid ss ->
    (exists p, pc !! c = Some p /\ active p) /\ st_superSub st !! c = Some sid /\ protoEqual (ss_request ss) (request c) = true;
  ok_active : forall c p, pc !! c = Some p -> active p -> exists sid ss, st_superSub st !! c = Some sid /\ member st c sid ss;
  ok_distinct : forall sid1 sid2 ss1 ss2, sid1 ∈ st_subs st -> sid2 ∈ st_subs st -> st_heap st !! sid1 = Some ss1 ->
    st_heap st !! sid2 = Some ss2 -> protoEqual (ss_request ss1) (ss_request ss2) = true -> sid1 = sid2;
  ok_tickers : forall sid ss i t, sid ∈ st_subs st -> st_heap st !! sid = Some ss -> ss_tickers ss !! i = Some t -> t = (sid, i);
  ok_stopped : forall t, t ∈ st_stopped st -> t.1 ∈ dom (st_heap st) /\ t.1 ∉ st_subs st
}.

(** The agreement of the clients' positions with the store: who samples is primary, a
    primary that waits has its wake-up, a wake-up is for the primary. *)
Record clientsOk (st : Store) (pc : gmap Client Pc) : Prop := {
  ok_wake : forall c, c ∈ st_wakeChan st -> pc !! c = Some Finished \/
    (exists p, pc !! c = Some p /\ active p) /\ isPrimary c st = true;
  ok_waiting : forall c, pc !! c = Some Waiting -> isPrimary c st = true -> c ∈ st_wakeChan st;
  ok_ticking : forall c, pc !! c = Some Ticking -> isPrimary c st = true
}.

Definition systemOk (s : System) : Prop := storeOk (sys_store s) (sys_pc s) /\ clientsOk (sys_store s) (sys_pc s).

(** ** Primaries *)

Lemma primary_spec c (st : Store) : isPrimary c st = true <->
  exists sid ss, st_superSub st !! c = Some sid /\ st_heap st !! sid = Some ss /\ ss_primaryClient ss = Some c.
Proof using Type.
  unfold isPrimary. split.
  - destruct (st_superSub st !! c) as [sid|]; [|done]. destruct (st_heap st !! sid) as [ss|] eqn:E; [|done].
    intros H%bool_decide_eq_true. by exists sid, ss.
  - intros (sid & ss & -> & -> & H). by apply bool_decide_eq_true.
Qed.

(** The operations that leave primaries and memberships as they are. *)
Definition sameOwner (x y : superSubscription (Req := Req)) : Prop := ss_primaryClient x = ss_primaryClient y.

Lemma primary_insert c (st st' : Store) sid ss ss' : st_superSub st' = st_superSub st -> st_heap st !! sid = Some ss ->
  st_heap st' = <[sid := ss']> (st_heap st) -> sameOwner ss ss' -> isPrimary c st' = isPrimary c st.
Proof using Type.
  intros Hs Hss Hh Ho. unfold isPrimary. rewrite Hs, Hh. destruct (st_superSub st !! c) as [x|]; [|done].
  destruct (decide (x = sid)) as [->|]; [|by rewrite lookup_insert_ne by done]. rewrite lookup_insert_eq, Hss. by rewrite Ho.
Qed.

Lemma sub_lookup st pc sid : storeOk st pc -> sid ∈ st_subs st -> exists ss, st_heap st !! sid = Some ss.
Proof using Type. intros Hok Hin. destruct (ok_sub _ _ Hok _ Hin) as (ss & p & ? & _). by exists ss. Qed.

(** A client that is not active is in no super subscription. *)
Lemma inactive_not_member st pc c sid ss p : storeOk st pc -> pc !! c = Some p -> ~ active p -> ~ member st c sid ss.
Proof using Type. intros Hok Hp Hna Hm. destruct (ok_member _ _ Hok _ _ _ Hm) as ((p' & E & Ha) & _). congruence. Qed.

Lemma findIn_some r order (st : Store) sid : findIn protoEqual r order st = Some sid ->
  sid ∈ order /\ exists ss, st_heap st !! sid = Some ss /\ protoEqual (ss_request ss) r = true.
Proof using Type.
  induction order as [|x order IH]; cbn; [done|]. destruct (st_heap st !! x) as [ss|] eqn:E.
  - destruct (protoEqual (ss_request ss) r) eqn:Er; [intros [= <-]; split; [by left|eauto]|].
    intros [? ?]%IH. split; [by right|done].
  - intros [? ?]%IH. split; [by right|done].
Qed.

Lemma findIn_none r order (st : Store) sid ss : findIn protoEqual r order st = None -> sid ∈ order -> st_heap st !! sid = Some ss ->
  protoEqual (ss_request ss) r = false.
Proof using Type.
  induction order as [|x order IH]; [by intros _ ?%not_elem_of_nil|]. cbn. intros H [->|Hin]%elem_of_cons Hs.
  - rewrite Hs in H. by destruct (protoEqual (ss_request ss) r).
  - destruct (st_heap st !! x) as [ss'|]; [destruct (protoEqual (ss_request ss') r); [done|]|]; auto.
Qed.

(** ** Changes of one super subscription *)

Definition isActive (pc : gmap Client Pc) (c : Client) : Prop := exists p, pc !! c = Some p /\ active p.

(** [st'] is [st] with the live super subscription [sid] changed from [ss] to [ss'], which
    concerns the membership of [c] only. *)
Record changed (c : Client) (sid : SuperId) (ss ss' : superSubscription) (st st' : Store) (pc pc' : gmap Client Pc) : Prop := {
  ch_sub : sid ∈ st_subs st;
  ch_old : st_heap st !! sid = Some ss;
  ch_subs : st_subs st' = st_subs st;
  ch_heap : st_heap st' = <[sid := ss']> (st_heap st);
  ch_stopped : st_stopped st' = st_stopped st;
  ch_request : ss_request ss' = ss_request ss;
  ch_primary : exists p, ss_primaryClient ss' = Some p /\ p ∈ ss_clients ss';
  ch_tickers : forall i t, ss_tickers ss' !! i = Some t -> t = (sid, i);
  ch_others : forall c', c' <> c -> st_superSub st' !! c' = st_superSub st !! c' /\ pc' !! c' = pc !! c' /\
    (c' ∈ ss_clients ss' <-> c' ∈ ss_clients ss);
  ch_only : forall x y, member st c x y -> x = sid;
  ch_self : (c ∈ ss_clients ss' /\ st_superSub st' !! c = Some sid /\ isActive pc' c /\ protoEqual (ss_request ss) (request c) = true) \/
    ((c ∉ ss_clients ss') /\ ~ isActive pc' c)
}.

(** What is at [x] in the new heap. *)
Lemma changed_lookup c sid ss ss' st st' pc pc' x y : changed c sid ss ss' st st' pc pc' -> st_heap st' !! x = Some y ->
  (x = sid /\ y = ss') \/ (x <> sid /\ st_heap st !! x = Some y).
Proof using Type.
  intros Hch. rewrite (ch_heap _ _ _ _ _ _ _ _ Hch). destruct (decide (x = sid)) as [->|Hne].
  - rewrite lookup_insert_eq. intros [= <-]. by left.
  - rewrite lookup_insert_ne by done. by right.
Qed.

Lemma changed_member c sid ss ss' st st' pc pc' c' x y : changed c sid ss ss' st st' pc pc' -> member st' c' x y ->
  (x = sid /\ y = ss' /\ c' = c) \/ (c' <> c /\ x = sid /\ y = ss' /\ member st c' sid ss) \/ (c' <> c /\ x <> sid /\ member st c' x y).
Proof using Type.
  intros Hch (Hx & Hy & Hc). destruct (changed_lookup _ _ _ _ _ _ _ _ _ _ Hch Hy) as [[-> ->]|[Hne Hy']].
  - destruct (decide (c' = c)) as [->|Hnc]; [by left|]. right. left. split; [done|]. split; [done|]. split; [done|].
    destruct (ch_others _ _ _ _ _ _ _ _ Hch _ Hnc) as (_ & _ & Hiff). split; [apply Hch|]. split; [apply Hch|]. by apply Hiff.
  - assert (member st c' x y) as Hm by (split; [by rewrite <- (ch_subs _ _ _ _ _ _ _ _ Hch)|done]).
    right. right. split; [|done]. intros ->. by apply Hne, (ch_only _ _ _ _ _ _ _ _ Hch _ _ Hm).
Qed.

Lemma changed_ok c sid ss ss' st st' pc pc' : storeOk st pc -> changed c sid ss ss' st st' pc pc' -> storeOk st' pc'.
Proof using Type.
  intros [H1 H2 H3 H4 H5 H6] Hch. pose proof Hch as [Hin Hss Hsubs Hheap Hstop Hreq Hprim Htick Hoth Honly Hself].
  split.
  - intros x Hx. rewrite Hsubs in Hx. rewrite Hheap. destruct (decide (x = sid)) as [->|Hne].
    + rewrite lookup_insert_eq. destruct Hprim as (p & ? & ?). by exists ss', p.
    + rewrite lookup_insert_ne by done. by apply H1.
  - intros c' x y Hm. destruct (changed_member _ _ _ _ _ _ _ _ _ _ _ Hch Hm) as [(-> & -> & ->)|[(Hnc & -> & -> & Hm')|(Hnc & Hne & Hm')]].
    + destruct Hself as [(_ & Hsup & Hact & Heq)|[Hn _]]; [by rewrite Hreq|]. by destruct Hm as (_ & _ & ?).
    + destruct (Hoth _ Hnc) as (-> & -> & _). rewrite Hreq. by apply H2.
    + destruct (Hoth _ Hnc) as (-> & -> & _). by apply H2.
  - intros c' p Hp Ha. destruct (decide (c' = c)) as [->|Hnc].
    + destruct Hself as [(Hcin & Hsup & _)|[_ Hn]]; [|destruct Hn; by exists p].
      exists sid, ss'. split; [done|]. split; [by rewrite Hsubs|]. by rewrite Hheap, lookup_insert_eq.
    + destruct (Hoth _ Hnc) as (-> & Hpc & Hiff). rewrite Hpc in Hp. destruct (H3 _ _ Hp Ha) as (x & y & Hx & Hxin & Hy & Hyin).
      destruct (decide (x = sid)) as [->|Hne].
      * exists sid, ss'. split; [done|]. split; [by rewrite Hsubs|]. rewrite Hheap, lookup_insert_eq. split; [done|]. apply Hiff. by simplify_eq.
      * exists x, y. split; [done|]. split; [by rewrite Hsubs|]. by rewrite Hheap, lookup_insert_ne.
  - intros x y s1 s2 Hx Hy Hs1 Hs2 Heq. rewrite Hsubs in Hx, Hy.
    destruct (changed_lookup _ _ _ _ _ _ _ _ _ _ Hch Hs1) as [[-> ->]|[Hnx Hs1']], (changed_lookup _ _ _ _ _ _ _ _ _ _ Hch Hs2) as [[-> ->]|[Hny Hs2']];
      rewrite ?Hreq in Heq; [done|by eapply (H4 sid y)|by eapply (H4 x sid)|by eapply (H4 x y)].
  - intros x y i t Hx Hy Ht. rewrite Hsubs in Hx. destruct (changed_lookup _ _ _ _ _ _ _ _ _ _ Hch Hy) as [[-> ->]|[Hne Hy']]; [by apply Htick|by eapply H5].
  - intros t Ht. rewrite Hstop in Ht. rewrite Hsubs, Hheap, dom_insert. destruct (H6 _ Ht). split; [|done]. by apply elem_of_union_r.
Qed.

(** ** Joining *)

Definition joined (c : Client) (sid : SuperId) (ss : superSubscription) (subs : gset SuperId) (st : Store) : Store :=
  mkStore (<[sid := ss]> (st_heap st)) subs (<[c := sid]> (st_superSub st)) (st_wakeChan st) (st_queue st) (st_stopped st).

Lemma add_spec c order (st : Store) pc : storeOk st pc -> order ≡ₚ elements (st_subs st) ->
  let st' := addClientToSuperSubscription protoEqual c (Some (request c)) order st in
  (exists sid ss, sid ∈ st_subs st /\ st_heap st !! sid = Some ss /\ protoEqual (ss_request ss) (request c) = true /\
    st' = joined c sid (mkSuper ({[c]} ∪ ss_clients ss) (ss_request ss) (ss_primaryClient ss) (ss_tickers ss)) (st_subs st) st) \/
  (exists sid, (sid ∉ dom (st_heap st)) /\
    (forall x ss, x ∈ st_subs st -> st_heap st !! x = Some ss -> protoEqual (ss_request ss) (request c) = false) /\
    st' = joined c sid (mkSuper {[c]} (request c) (Some c) ∅) ({[sid]} ∪ st_subs st) st).
Proof using Type.
  intros Hok Hord. unfold addClientToSuperSubscription, findSuperSubscription, joined. cbv zeta.
  destruct (findIn protoEqual (request c) order st) as [sid|] eqn:E.
  - left. apply findIn_some in E as (Hin & ss & Hss & Heq). rewrite Hord, elem_of_elements in Hin. rewrite Hss.
    exists sid, ss. split; [done|]. split; [done|]. split; [done|].
    destruct (ok_sub _ _ Hok _ Hin) as (ss' & p & Hss' & Hp & _). simplify_eq. by rewrite Hp.
  - right. cbn [createSuperSubscription]. set (sid := fresh (dom (st_heap st))). exists sid. split; [apply is_fresh|]. split.
    + intros x ss Hx Hss. eapply findIn_none; [exact E| |done]. by rewrite Hord, elem_of_elements.
    + cbn [st_heap st_subs st_superSub st_wakeChan st_queue st_stopped]. rewrite lookup_insert_eq. cbn [ss_primaryClient ss_clients ss_request ss_tickers].
      by rewrite insert_insert_eq, union_empty_r_L.
Qed.

Lemma starting_not_member st pc c sid ss : storeOk st pc -> pc !! c = Some Starting -> ~ member st c sid ss.
Proof using Type. intros Hok Hpc. eapply inactive_not_member; [done|done|]. by intros []. Qed.

Lemma join_found c sid ss (st : Store) pc : storeOk st pc -> pc !! c = Some Starting -> sid ∈ st_subs st -> st_heap st !! sid = Some ss ->
  protoEqual (ss_request ss) (request c) = true ->
  storeOk (joined c sid (mkSuper ({[c]} ∪ ss_clients ss) (ss_request ss) (ss_primaryClient ss) (ss_tickers ss)) (st_subs st) st) (<[c := Joined]> pc).
Proof using Type.
  intros Hok Hpc Hin Hss Heq.
  apply (changed_ok c sid ss (mkSuper ({[c]} ∪ ss_clients ss) (ss_request ss) (ss_primaryClient ss) (ss_tickers ss)) st _ pc); [done|]. destruct (ok_sub _ _ Hok _ Hin) as (ss' & p & Hss' & Hp & Hpin). simplify_eq.
  split; cbn; try done.
  - exists p. split; [done|]. apply elem_of_union. by right.
  - intros i t. by apply (ok_tickers _ _ Hok).
  - intros c' Hne. rewrite !lookup_insert_ne by done. split; [done|]. split; [done|].
    rewrite elem_of_union, elem_of_singleton. split; [by intros [->|]|by right].
  - intros x y Hm. by destruct (starting_not_member _ _ _ _ _ Hok Hpc Hm).
  - left. rewrite lookup_insert_eq. split; [by apply elem_of_union_l, elem_of_singleton|]. split; [done|]. split; [|done].
    exists Joined. by rewrite lookup_insert_eq.
Qed.

Lemma join_new c sid (st : Store) pc : storeOk st pc -> pc !! c = Some Starting -> sid ∉ dom (st_heap st) ->
  (forall x ss, x ∈ st_subs st -> st_heap st !! x = Some ss -> protoEqual (ss_request ss) (request c) = false) ->
  storeOk (joined c sid (mkSuper {[c]} (request c) (Some c) ∅) ({[sid]} ∪ st_subs st) st) (<[c := Joined]> pc).
Proof using equal_refl equal_sym.
  intros Hok Hpc Hfr Hno. pose proof (fun x y => starting_not_member st pc c x y Hok Hpc) as Hnot.
  assert (forall x, x ∈ st_subs st -> x <> sid) as Hns.
  { intros x Hin ->. destruct (sub_lookup _ _ _ Hok Hin) as [ss Hss]. apply Hfr, elem_of_dom. eauto. }
  pose proof Hok as [H1 H2 H3 H4 H5 H6]. split; cbn.
  - intros x [->%elem_of_singleton|Hx]%elem_of_union.
    + rewrite lookup_insert_eq. eexists _, c. split; [done|]. split; [done|]. by apply elem_of_singleton.
    + rewrite lookup_insert_ne by (symmetry; by apply Hns). by apply H1.
  - intros c' x ss' (Hx & Hss' & Hc'). cbn in Hx, Hss', Hc'. apply elem_of_union in Hx as [->%elem_of_singleton|Hx].
    + rewrite lookup_insert_eq in Hss'. simplify_eq. cbn in *. apply elem_of_singleton in Hc' as ->. rewrite !lookup_insert_eq. by split; [exists Joined|].
    + rewrite lookup_insert_ne in Hss' by (symmetry; by apply Hns). destruct (decide (c' = c)) as [->|Hnc]; [by destruct (Hnot x ss')|].
      rewrite !lookup_insert_ne by done. by apply H2.
  - intros c' p Hp Ha. destruct (decide (c' = c)) as [->|Hnc].
    + exists sid. eexists. rewrite lookup_insert_eq. split; [done|]. split; [by apply elem_of_union_l, elem_of_singleton|].
      cbn. rewrite lookup_insert_eq. split; [done|]. by apply elem_of_singleton.
    + rewrite lookup_insert_ne in Hp by done. rewrite lookup_insert_ne by done. destruct (H3 _ _ Hp Ha) as (x & ss' & Hx & Hsub & Hss' & Hc').
      exists x, ss'. split; [done|]. split; [by apply elem_of_union_r|]. cbn. rewrite lookup_insert_ne by (symmetry; by apply Hns). done.
  - intros x y s1 s2 [->%elem_of_singleton|Hx]%elem_of_union [->%elem_of_singleton|Hy]%elem_of_union Hs1 Hs2 He; [done| | |].
    + rewrite lookup_insert_eq in Hs1. rewrite lookup_insert_ne in Hs2 by (symmetry; by apply Hns). simplify_eq. cbn in He.
      apply equal_sym in He. by rewrite (Hno _ _ Hy Hs2) in He.
    + rewrite lookup_insert_eq in Hs2. rewrite lookup_insert_ne in Hs1 by (symmetry; by apply Hns). simplify_eq. cbn in He. by rewrite (Hno _ _ Hx Hs1) in He.
    + rewrite lookup_insert_ne in Hs1, Hs2 by (symmetry; by apply Hns). by eapply H4.
  - intros x ss' i t [->%elem_of_singleton|Hx]%elem_of_union Hss' Ht.
    + rewrite lookup_insert_eq in Hss'. by simplify_eq.
    + rewrite lookup_insert_ne in Hss' by (symmetry; by apply Hns). by eapply H5.
  - intros t Ht. destruct (H6 _ Ht) as [Hd Hn]. rewrite dom_insert. split; [by apply elem_of_union_r|].
    intros [E%elem_of_singleton|?]%elem_of_union; [|done]. apply Hfr. by rewrite <- E.
Qed.

Lemma add_store c order (st : Store) pc : storeOk st pc -> pc !! c = Some Starting -> order ≡ₚ elements (st_subs st) ->
  storeOk (addClientToSuperSubscription protoEqual c (Some (request c)) order st) (<[c := Joined]> pc).
Proof using equal_refl equal_sym.
  intros Hok Hpc Hord. destruct (add_spec c order st pc Hok Hord) as [(sid & ss & Hin & Hss & Heq & ->)|(sid & Hfr & Hno & ->)];
    [by apply join_found|by apply join_new].
Qed.

(** ** Moves that do not change memberships *)

Lemma pc_move st pc c p q : storeOk st pc -> pc !! c = Some p -> active p -> active q -> storeOk st (<[c := q]> pc).
Proof using Type.
  intros [H1 H2 H3 H4 H5 H6] Hp Hap Haq. split; try done.
  - intros c' sid ss Hm. destruct (H2 _ _ _ Hm) as (Ha & Hs & He). split; [|done].
    destruct (decide (c' = c)) as [->|]; [exists q; by rewrite lookup_insert_eq|by rewrite lookup_insert_ne].
  - intros c' r Hr Har. destruct (decide (c' = c)) as [->|]; [by eapply H3|]. rewrite lookup_insert_ne in Hr by done. by eapply H3.
Qed.

(** The loop adds tickers of [sid]; it stops at an interval that is not positive, or has
    made them all. *)
Lemma newTickers_spec sid order ts ts' b : newTickers sid order ts = (ts', b) ->
  (forall i t, ts' !! i = Some t -> t = (sid, i) \/ ts !! i = Some t) /\
  if b then (dom ts' = list_to_set order ∪ dom ts) /\ (forall i, i ∈ order -> (0 < i)%Z) else exists i, i ∈ order /\ (i <= 0)%Z.
Proof using Type.
  revert ts. induction order as [|i order IH]; intros ts; cbn.
  { intros [= -> <-]. split; [by right|]. split; [by rewrite union_empty_l_L|]. by intros i ?%not_elem_of_nil. }
  destruct (decide (i <= 0)%Z) as [Hi|Hi].
  { intros [= -> <-]. split; [by right|]. exists i. by split; [left|]. }
  intros [H1 H2]%IH. split.
  - intros j t Hj. destruct (H1 _ _ Hj) as [?|Hl]; [by left|]. apply lookup_insert_Some in Hl as [[<- <-]|[_ ?]]; [by left|by right].
  - destruct b; [|destruct H2 as (j & ? & ?); exists j; split; [by right|done]].
    destruct H2 as [-> H2]. split; [by rewrite dom_insert_L, !(assoc_L (∪)), (comm_L (∪) (list_to_set order))|]. intros j [->|Hj]%elem_of_cons; [by apply Z.nle_gt|by apply H2].
Qed.

Lemma tickers_spec sid order (ts : option (gmap Z (list ticker_info))) (st : Store) r st' : populateTickers sid order ts st = (r, st') ->
  st' = st \/ exists ss tickers, st_heap st !! sid = Some ss /\ (forall i t, tickers !! i = Some t -> t = (sid, i)) /\
    st' = set_heap st (<[sid := mkSuper (ss_clients ss) (ss_request ss) (ss_primaryClient ss) tickers]> (st_heap st)).
Proof using Type.
  unfold populateTickers. destruct ts as [infos'|]; [|intros [= <- <-]; by left].
  destruct (st_heap st !! sid) as [ss|]; [|intros [= <- <-]; by left].
  destruct (decide _) as [Hz|].
  { destruct (newTickers sid order (ss_tickers ss)) as [tickers b] eqn:E. intros [= <- <-]. right. exists ss, tickers. split; [done|].
    split; [|done]. intros i t Ht. destruct (newTickers_spec _ _ _ _ _ E) as [H _]. destruct (H _ _ Ht) as [?|Hl]; [done|].
    by rewrite (map_size_empty_inv _ Hz) in Hl. }
  destruct (decide _); [intros [= <- <-]; by left|]. destruct (decide _); intros [= <- <-]; by left.
Qed.

Lemma tickers_store c sid order r (st st' : Store) pc q : storeOk st pc -> pc !! c = Some Joined -> st_superSub st !! c = Some sid ->
  populateTickers sid order (Some (infos c)) st = (r, st') -> active q -> storeOk st' (<[c := q]> pc).
Proof using Type.
  intros Hok Hpc Hsid Hpop Hq. destruct (tickers_spec _ _ _ _ _ _ Hpop) as [->|(ss & tickers & Hss & Htk & ->)]; [by eapply pc_move|].
  destruct (ok_active _ _ Hok _ _ Hpc) as (sid' & ss' & E & Hm); [done|]. simplify_eq. pose proof Hm as (Hin & Hss' & Hc). simplify_eq.
  eapply (changed_ok c sid _ (mkSuper _ _ _ tickers) st _ pc); [done|].
  destruct (ok_sub _ _ Hok _ Hin) as (ss'' & p & Hss'' & Hp & Hpin). simplify_eq. split; cbn; try done.
  - by exists p.
  - intros c' Hne. by rewrite lookup_insert_ne.
  - intros x y Hm'. destruct (ok_member _ _ Hok _ _ _ Hm') as (_ & E' & _). by simplify_eq.
  - left. split; [done|]. split; [done|]. split; [exists q; by rewrite lookup_insert_eq|]. by destruct (ok_member _ _ Hok _ _ _ Hm) as (_ & _ & ?).
Qed.

(** ** Leaving *)

Definition left_behind (c : Client) (primary : option Client) (ss : superSubscription) : superSubscription (Req := Req) :=
  mkSuper (ss_clients ss ∖ {[c]}) (ss_request ss) primary (ss_tickers ss).

(** The three ends of a membership. *)
Lemma leave_spec c sid ss order (st : Store) pc : storeOk st pc -> member st c sid ss -> st_superSub st !! c = Some sid ->
  order ≡ₚ elements (ss_clients ss ∖ {[c]}) ->
  let st' := set_heap st (<[sid := left_behind c (ss_primaryClient ss) ss]> (st_heap st)) in
  (ss_clients ss ∖ {[c]} = ∅ /\ leaveSuperSubscription c order st = Some (deleteSuperSubscription (Some sid) st')) \/
  (ss_primaryClient ss <> Some c /\ leaveSuperSubscription c order st = Some st') \/
  (ss_primaryClient ss = Some c /\ exists d, d ∈ ss_clients ss ∖ {[c]} /\ leaveSuperSubscription c order st =
    if decide (d ∈ st_wakeChan st) then None
    else Some (mkStore (<[sid := left_behind c (Some d) ss]> (st_heap st)) (st_subs st) (st_superSub st) ({[d]} ∪ st_wakeChan st) (st_queue st) (st_stopped st))).
Proof using Type.
  intros Hok (Hin & Hss & Hc) Hsid Hord. unfold leaveSuperSubscription, left_behind. rewrite Hsid, Hss. cbv zeta.
  destruct (decide (ss_clients ss ∖ {[c]} = ∅)) as [He|He]; [by left|]. right.
  destruct (decide (ss_primaryClient ss = Some c)) as [Hp|Hp]; [|by left]. right. split; [done|].
  destruct order as [|d order]. { exfalso. apply He. apply Permutation_nil in Hord. by apply elements_empty_inv, leibniz_equiv in Hord. }
  exists d. split; [apply elem_of_elements; rewrite <- Hord; by left|]. cbn. by rewrite insert_insert_eq.
Qed.

(** A member that leaves others behind. *)
Lemma leave_changed c sid ss p w q (st : Store) pc : storeOk st pc -> member st c sid ss -> p ∈ ss_clients ss ∖ {[c]} ->
  storeOk (mkStore (<[sid := left_behind c (Some p) ss]> (st_heap st)) (st_subs st) (st_superSub st) w q (st_stopped st)) (<[c := Finished]> pc).
Proof using infos.
  intros Hok Hm Hp. pose proof Hm as (Hin & Hss & Hc).
  apply (changed_ok c sid ss (left_behind c (Some p) ss) st _ pc); [done|]. split; cbn; try done.
  - by exists p.
  - intros i t. by apply (ok_tickers _ _ Hok).
  - intros c' Hne. rewrite lookup_insert_ne by done. split; [done|]. split; [done|]. rewrite elem_of_difference, elem_of_singleton. tauto.
  - intros x y Hm'. destruct (ok_member _ _ Hok _ _ _ Hm) as (_ & E1 & _), (ok_member _ _ Hok _ _ _ Hm') as (_ & E2 & _). by simplify_eq.
  - right. split; [rewrite elem_of_difference, elem_of_singleton; tauto|]. intros (r & Hr & [_ Hf]). rewrite lookup_insert_eq in Hr. by simplify_eq.
Qed.

Definition lastLeft (c : Client) (sid : SuperId) (ss : superSubscription) (st : Store) : Store :=
  deleteSuperSubscription (Some sid) (set_heap st (<[sid := left_behind c (ss_primaryClient ss) ss]> (st_heap st))).

(** The last member: the super subscription is deleted and its tickers are stopped. *)
Lemma leave_last c sid ss (st : Store) pc : storeOk st pc -> member st c sid ss -> ss_clients ss ∖ {[c]} = ∅ ->
  storeOk (lastLeft c sid ss st) (<[c := Finished]> pc).
Proof using infos.
  intros Hok Hm He. pose proof Hm as (Hin & Hss & Hc). pose proof Hok as [H1 H2 H3 H4 H5 H6].
  assert (forall c' x y, x ∈ st_subs st ∖ {[sid]} -> <[sid := left_behind c (ss_primaryClient ss) ss]> (st_heap st) !! x = Some y ->
    st_heap st !! x = Some y /\ x ∈ st_subs st /\ (c' ∈ ss_clients y -> c' <> c)) as Hold.
  { intros c' x y [Hx Hne]%elem_of_difference Hy. rewrite elem_of_singleton in Hne. rewrite lookup_insert_ne in Hy by done.
    split; [done|]. split; [done|]. intros Hc' ->. destruct (H2 _ _ _ Hm) as (_ & E1 & _), (H2 c x y) as (_ & E2 & _); [done|]. by simplify_eq. }
  unfold lastLeft, deleteSuperSubscription. cbn. rewrite lookup_insert_eq. split; cbn.
  - intros x [Hx Hne]%elem_of_difference. rewrite elem_of_singleton in Hne. rewrite lookup_insert_ne by done. by apply H1.
  - intros c' x y (Hx & Hy & Hc'). cbn in Hx, Hy. destruct (Hold c' x y Hx Hy) as (Hy' & Hx' & Hne).
    rewrite lookup_insert_ne by (intros ->; by apply Hne). by apply H2.
  - intros c' p Hp Ha. destruct (decide (c' = c)) as [->|Hne]; [rewrite lookup_insert_eq in Hp; simplify_eq; by destruct Ha|].
    rewrite lookup_insert_ne in Hp by done. destruct (H3 _ _ Hp Ha) as (x & y & Hx & Hxin & Hy & Hyin). exists x, y.
    assert (x <> sid) as Hxs. { intros ->. simplify_eq. assert (c' ∈ ss_clients ss ∖ {[c]}) as Hbad by (rewrite elem_of_difference, elem_of_singleton; done).
      rewrite He in Hbad. by apply not_elem_of_empty in Hbad. }
    split; [done|]. split; [cbn; rewrite elem_of_difference, elem_of_singleton; done|]. cbn. by rewrite lookup_insert_ne.
  - intros x y s1 s2 Hx Hy Hs1 Hs2. destruct (Hold c x s1 Hx Hs1) as (? & ? & _), (Hold c y s2 Hy Hs2) as (? & ? & _). by apply H4.
  - intros x y i t Hx Hy. destruct (Hold c x y Hx Hy) as (? & ? & _). by eapply H5.
  - intros t. rewrite elem_of_union, elem_of_list_to_set, dom_insert, elem_of_difference, elem_of_singleton.
    intros [([i t'] & -> & Ht)%list_elem_of_fmap|Ht].
    + apply elem_of_map_to_list, (H5 _ _ _ _ Hin Hss) in Ht as ->. cbn. split; [by apply elem_of_union_l, elem_of_singleton|]. tauto.
    + destruct (H6 _ Ht). split; [by apply elem_of_union_r|]. tauto.
Qed.

(** ** Positions of the clients *)

(** A step of [c] that changes the primaries and wake-ups of [c] only. *)
Lemma clients_step c p q (st st' : Store) pc : clientsOk st pc -> pc !! c = Some p ->
  (forall c', c' <> c -> isActive pc c' -> isPrimary c' st' = isPrimary c' st) ->
  (forall c', c' <> c -> c' ∈ st_wakeChan st' <-> c' ∈ st_wakeChan st) ->
  (c ∈ st_wakeChan st' -> q = Finished \/ active q /\ isPrimary c st' = true) ->
  (q = Waiting -> isPrimary c st' = true -> c ∈ st_wakeChan st') -> (q = Ticking -> isPrimary c st' = true) ->
  clientsOk st' (<[c := q]> pc).
Proof using Type.
  intros [H1 H2 H3] Hp Hprim Hwake Hw1 Hw2 Hw3. split; intros c'; destruct (decide (c' = c)) as [->|Hne];
    rewrite ?lookup_insert_eq, ?lookup_insert_ne by done.
  - intros [->|[Ha Hpr]]%Hw1; [by left|]. right. split; [by exists q|done].
  - intros Hin%Hwake; [|done]. destruct (H1 _ Hin) as [?|[Ha Hpr]]; [by left|]. right. split; [done|]. by rewrite Hprim.
  - intros [= ->]. by apply Hw2.
  - intros Hpc Hpr. apply Hwake; [done|]. apply H2; [done|]. rewrite <- Hprim; [done|done|by exists Waiting].
  - intros [= ->]. by apply Hw3.
  - intros Hpc. rewrite Hprim; [by apply H3|done|by exists Ticking].
Qed.

(** An active client is not in the super subscription [sid] unless it is a member of it. *)
Lemma active_superSub st pc c : storeOk st pc -> isActive pc c -> exists sid ss, st_superSub st !! c = Some sid /\ member st c sid ss.
Proof using Type. intros Hok (p & Hp & Ha). by eapply ok_active. Qed.

Lemma primary_heap c (st st' : Store) : st_superSub st' !! c = st_superSub st !! c ->
  (forall sid, st_superSub st !! c = Some sid -> st_heap st' !! sid = st_heap st !! sid) -> isPrimary c st' = isPrimary c st.
Proof using Type. intros E H. unfold isPrimary. rewrite E. destruct (st_superSub st !! c) as [sid|]; [|done]. by rewrite H. Qed.

Lemma add_clients c order (st : Store) pc : storeOk st pc -> clientsOk st pc -> pc !! c = Some Starting -> order ≡ₚ elements (st_subs st) ->
  clientsOk (addClientToSuperSubscription protoEqual c (Some (request c)) order st) (<[c := Joined]> pc).
Proof using Type.
  intros Hok Hcl Hpc Hord. eapply clients_step; [done|done| | | |done|done].
  - intros c' Hne Ha. destruct (active_superSub _ _ _ Hok Ha) as (x & y & Hx & Hm). pose proof Hm as (Hin & Hy & _).
    destruct (add_spec c order st pc Hok Hord) as [(sid & ss & Hin' & Hss & _ & ->)|(sid & Hfr & _ & ->)];
      unfold isPrimary, joined; cbn; rewrite lookup_insert_ne, Hx by done.
    + destruct (decide (x = sid)) as [->|]; [by rewrite lookup_insert_eq, Hss|by rewrite lookup_insert_ne].
    + rewrite lookup_insert_ne; [done|]. intros ->. apply Hfr, elem_of_dom. eauto.
  - intros c' _. by destruct (add_spec c order st pc Hok Hord) as [(sid & ss & _ & _ & _ & ->)|(sid & _ & _ & ->)].
  - intros Hw. assert (c ∈ st_wakeChan st) as Hw' by (destruct (add_spec c order st pc Hok Hord) as [(sid & ss & _ & _ & _ & E)|(sid & _ & _ & E)]; by rewrite E in Hw).
    destruct (ok_wake _ _ Hcl _ Hw') as [?|[(p & Hp & [Hs _]) _]]; congruence.
Qed.

Lemma tickers_clients c sid order r (st st' : Store) pc q : storeOk st pc -> clientsOk st pc -> pc !! c = Some Joined ->
  populateTickers sid order (Some (infos c)) st = (r, st') -> q = Testing \/ q = Leaving -> clientsOk st' (<[c := q]> pc).
Proof using Type.
  intros Hok Hcl Hpc Hpop Hq.
  assert ((forall c', isPrimary c' st' = isPrimary c' st) /\ st_wakeChan st' = st_wakeChan st) as [Hprim Hwake].
  { destruct (tickers_spec _ _ _ _ _ _ Hpop) as [->|(ss & tickers & Hss & _ & ->)]; [done|]. split; [|done]. intros c'. by eapply primary_insert. }
  eapply clients_step; [done|done|by intros; apply Hprim|by intros; rewrite Hwake| |by destruct Hq as [-> | ->]|by destruct Hq as [-> | ->]].
  rewrite Hwake, Hprim. intros Hw. right. split; [by destruct Hq as [-> | ->]|]. destruct (ok_wake _ _ Hcl _ Hw) as [?|[_ ?]]; [congruence|done].
Qed.

Lemma left_primary c sid ss ss' (st st' : Store) pc c' : storeOk st pc -> member st c sid ss -> isActive pc c' ->
  st_superSub st' = st_superSub st -> st_heap st' = <[sid := ss']> (st_heap st) ->
  (c' ∈ ss_clients ss -> bool_decide (ss_primaryClient ss' = Some c') = bool_decide (ss_primaryClient ss = Some c')) ->
  isPrimary c' st' = isPrimary c' st.
Proof using Type.
  intros Hok (Hin & Hss & Hc) Ha Hs Hh Hb. destruct (active_superSub _ _ _ Hok Ha) as (x & y & Hx & Hxin & Hy & Hyin).
  unfold isPrimary. rewrite Hs, Hh, Hx. destruct (decide (x = sid)) as [->|]; [|by rewrite lookup_insert_ne].
  rewrite lookup_insert_eq, Hss. simplify_eq. by apply Hb.
Qed.

(** Nobody who is only to be woken is left without a wake-up when the primary leaves. *)
Lemma leave_clients c sid ss order (st st' : Store) pc : storeOk st pc -> clientsOk st pc -> pc !! c = Some Leaving -> member st c sid ss ->
  st_superSub st !! c = Some sid -> order ≡ₚ elements (ss_clients ss ∖ {[c]}) -> leaveSuperSubscription c order st = Some st' ->
  clientsOk st' (<[c := Finished]> pc).
Proof using Type.
  intros Hok Hcl Hpc Hm Hsid Hord Hl. pose proof Hm as (_ & Hss & _).
  destruct (leave_spec c sid ss order st pc Hok Hm Hsid Hord) as [[He E]|[[Hp E]|(Hp & d & Hd & E)]]; rewrite E in Hl.
  - injection Hl as <-. eapply clients_step; [done|done| | |by left|done|done].
    + intros c' Hne Ha. eapply left_primary; [done|done|done| | |]; [unfold deleteSuperSubscription; cbn; by rewrite lookup_insert_eq..|].
      intros Hc'. exfalso. apply (not_elem_of_empty (C := gset Client) c'). rewrite <- He, elem_of_difference, elem_of_singleton. done.
    + intros c' _. unfold deleteSuperSubscription. cbn. by rewrite lookup_insert_eq.
  - injection Hl as <-. eapply clients_step; [done|done| |done|by left|done|done]. intros c' Hne Ha. by eapply left_primary.
  - destruct (decide (d ∈ st_wakeChan st)) as [|Hnw]; [done|]. injection Hl as <-.
    apply elem_of_difference in Hd as [Hdin Hdc]. rewrite elem_of_singleton in Hdc.
    destruct (ok_member _ _ Hok d sid ss) as ((p & Hpd & Had) & Hsd & _); [by destruct Hm as (? & ? & ?)|].
    set (st' := mkStore _ _ _ _ _ _). assert (isPrimary d st' = true) as Hdp.
    { apply primary_spec. exists sid. eexists. cbn. rewrite lookup_insert_eq. by split; [|split]. }
    assert (forall c', c' <> c -> c' <> d -> isActive pc c' -> isPrimary c' st' = isPrimary c' st) as Hsame.
    { intros c' Hne Hnd Ha. eapply left_primary; [done|done|done|done|done|]. intros _. cbn. rewrite Hp.
      rewrite !bool_decide_false by congruence. done. }
    destruct Hcl as [H1 H2 H3]. split; intros c'; destruct (decide (c' = c)) as [->|Hne]; rewrite ?lookup_insert_eq, ?lookup_insert_ne by done; try done.
    + by left.
    + cbn. rewrite elem_of_union, elem_of_singleton. intros [->|Hw]; [right; split; [by exists p|done]|].
      destruct (H1 _ Hw) as [?|[Ha Hpr]]; [by left|]. right. split; [done|]. destruct (decide (c' = d)) as [->|]; [done|]. by rewrite Hsame.
    + intros Hpc' Hpr. cbn. rewrite elem_of_union, elem_of_singleton. destruct (decide (c' = d)) as [->|Hnd]; [by left|right].
      apply H2; [done|]. rewrite <- Hsame; [done|done|done|by exists Waiting].
    + intros Hpc'. destruct (decide (c' = d)) as [->|Hnd]; [done|]. rewrite Hsame; [by apply H3|done|done|by exists Ticking].
Qed.

(** ** Every step keeps the shape *)

(** A step that changes only the position of [c], between active ones. *)
Lemma move_ok c p q (st : Store) pc : systemOk (mkSystem st pc) -> pc !! c = Some p -> active p -> active q ->
  (q = Waiting -> isPrimary c st = true -> c ∈ st_wakeChan st) -> (q = Ticking -> isPrimary c st = true) ->
  systemOk (mkSystem st (<[c := q]> pc)).
Proof using Type.
  intros [Hok Hcl] Hpc Hp Hq Hw Ht. split; [by eapply pc_move|]. eapply clients_step; [done|done|done|done| |done|done].
  intros Hin. right. split; [done|]. destruct (ok_wake _ _ Hcl _ Hin) as [E|[_ ?]]; [|done]. cbn in *. rewrite Hpc in E. injection E as ->. by destruct Hp.
Qed.

(** Changes of the queues and of [c]'s own wake-up. *)
Lemma store_irrelevant (st st' : Store) pc : st_heap st' = st_heap st -> st_subs st' = st_subs st -> st_superSub st' = st_superSub st ->
  st_stopped st' = st_stopped st -> storeOk st pc -> storeOk st' pc.
Proof using Type. intros E1 E2 E3 E4 [H1 H2 H3 H4 H5 H6]. unfold member in *. split; unfold member; rewrite ?E1, ?E2, ?E3, ?E4; done. Qed.

Lemma step_ok c s s' : systemOk s -> step c s s' -> systemOk s'.
Proof using equal_refl equal_sym.
  intros Hs Hstep. pose proof Hs as [Hok Hcl]. destruct Hstep; cbn in Hok, Hcl.
  - split; [by apply add_store|by apply add_clients].
  - split; [by eapply tickers_store|]. eapply tickers_clients; eauto.
  - split; [by eapply tickers_store|]. eapply tickers_clients; eauto.
  - by eapply move_ok.
  - eapply move_ok; try done. congruence.
  - split; cbn.
    + apply (store_irrelevant st); try done. by eapply pc_move.
    + eapply clients_step; [done|done|done| | |done|done]; cbn.
      * intros c' Hne. rewrite elem_of_difference, elem_of_singleton. tauto.
      * rewrite elem_of_difference, elem_of_singleton. tauto.
  - eapply move_ok; try done. by destruct H0 as [-> | ->].
  - assert (forall st', st' = sendNotifications ss v st -> st_heap st' = st_heap st /\ st_subs st' = st_subs st /\ st_superSub st' = st_superSub st /\
      st_stopped st' = st_stopped st /\ st_wakeChan st' = st_wakeChan st) as Hsame by (intros st' ->; by destruct v).
    destruct (Hsame _ eq_refl) as (E1 & E2 & E3 & E4 & E5). split; cbn; [by apply (store_irrelevant st)|].
    destruct Hcl as [H3 H4 H5]. assert (forall c', isPrimary c' (sendNotifications ss v st) = isPrimary c' st) as Hp
      by (intros; apply primary_heap; by rewrite ?E3, ?E1). split; intros c'; rewrite ?Hp, ?E5; auto.
  - assert (member st c sid ss) as Hm.
    { destruct (ok_active _ _ Hok _ _ H) as (x & y & Hx & Hm); [done|]. pose proof Hm as (_ & Hy & _). cbn in *. by simplify_eq. }
    split; cbn; [|by eapply leave_clients].
    destruct (leave_spec c sid ss order st pc Hok Hm H0 H2) as [[He E]|[[Hp E]|(Hp & d & Hd & E)]]; rewrite E in H3.
    + injection H3 as <-. by apply leave_last.
    + injection H3 as <-. destruct (ok_sub _ _ Hok sid) as (ss' & p & Hss' & Hp' & Hpin); [apply Hm|]. cbn in *. simplify_eq.
      rewrite Hp'. apply (leave_changed c sid ss p (st_wakeChan st) (st_queue st)); [done|done|]. rewrite elem_of_difference, elem_of_singleton. split; congruence.
    + destruct (decide (d ∈ st_wakeChan st)); [done|]. injection H3 as <-. by apply leave_changed.
Qed.

Lemma initial_ok clients : systemOk (initial clients).
Proof using Type.
  split; cbn.
  - split; unfold member; cbn; try (by intros ? ?%not_elem_of_empty); try (by intros ? ? ? [?%not_elem_of_empty _]);
      try (by intros ? ? ? ? ?%not_elem_of_empty).
    intros c p [_ <-]%lookup_gset_to_gmap_Some [Ha _]. done.
  - split; cbn; [by intros c ?%not_elem_of_empty| |]; by intros c [_ [=]]%lookup_gset_to_gmap_Some.
Qed.

Lemma reachable_ok s : reachable s -> systemOk s.
Proof using equal_refl equal_sym.
  intros [clients H]. remember (initial clients) as s0 eqn:E. assert (systemOk s0) as H0 by (subst; apply initial_ok). clear E.
  induction H as [|s1 s2 s3 [c Hc] _ IH]; [done|]. apply IH. by eapply step_ok.
Qed.

(** C6. Under every interleaving of joining, sampling, waking, stopping and leaving
    clients, each live super subscription has a primary client among its members; its
    members are exactly the clients between joining and leaving whose requests equal its
    own, and they point to it; no two have equal requests; and its tickers have not been
    stopped. *)
Theorem super_subscriptions_shape s sid : reachable s -> sid ∈ st_subs (sys_store s) ->
  exists ss p, st_heap (sys_store s) !! sid = Some ss /\ ss_primaryClient ss = Some p /\ p ∈ ss_clients ss /\
    (forall c, c ∈ ss_clients ss <-> isActive (sys_pc s) c /\ protoEqual (ss_request ss) (request c) = true) /\
    (forall c, c ∈ ss_clients ss -> st_superSub (sys_store s) !! c = Some sid) /\
    (forall sid' ss', sid' ∈ st_subs (sys_store s) -> st_heap (sys_store s) !! sid' = Some ss' ->
      protoEqual (ss_request ss) (ss_request ss') = true -> sid' = sid) /\
    (forall i t, ss_tickers ss !! i = Some t -> t ∉ st_stopped (sys_store s)).
Proof using equal_refl equal_sym equal_trans.
  intros Hr Hin. destruct (reachable_ok _ Hr) as [Hok _]. destruct (ok_sub _ _ Hok _ Hin) as (ss & p & Hss & Hp & Hpin).
  exists ss, p. split; [done|]. split; [done|]. split; [done|]. split; [|split; [|split]].
  - intros c. split; [intros Hc; destruct (ok_member _ _ Hok c sid ss) as (? & _ & ?); done|].
    intros [(q & Hq & Ha) He]. destruct (ok_active _ _ Hok _ _ Hq Ha) as (x & y & _ & Hm).
    destruct (ok_member _ _ Hok _ _ _ Hm) as (_ & _ & He'). destruct Hm as (Hx & Hy & Hc).
    assert (sid = x) as <- by (eapply (ok_distinct _ _ Hok); eauto). by simplify_eq.
  - intros c Hc. by destruct (ok_member _ _ Hok c sid ss) as (_ & ? & _).
  - intros sid' ss' Hin' Hss' He. symmetry. by eapply (ok_distinct _ _ Hok).
  - intros i t Ht. rewrite (ok_tickers _ _ Hok _ _ _ _ Hin Hss Ht). by intros [_ ?]%(ok_stopped _ _ Hok).
Qed.

(** The client is in its sampling loop. *)
Definition sampling (s : System) (c : Client) : Prop := sys_pc s !! c = Some Ticking.

(** C25. At most one client samples for equal requests. *)
Theorem one_sampler s c d : reachable s -> sampling s c -> sampling s d ->
  protoEqual (request c) (request d) = true -> c = d.
Proof using equal_refl equal_sym equal_trans.
  intros [Hok Hcl]%reachable_ok Hc Hd He.
  destruct (ok_active _ _ Hok _ _ Hc) as (x & y & Hx & Hm); [done|]. destruct (ok_active _ _ Hok _ _ Hd) as (x' & y' & Hx' & Hm'); [done|].
  destruct (ok_member _ _ Hok _ _ _ Hm) as (_ & _ & E), (ok_member _ _ Hok _ _ _ Hm') as (_ & _ & E').
  destruct Hm as (Hin & Hy & _), Hm' as (Hin' & Hy' & _).
  assert (x = x') as <-. { eapply (ok_distinct _ _ Hok); [exact Hin|exact Hin'|done|done|]. eauto. }
  apply (ok_ticking _ _ Hcl), primary_spec in Hc as (a & b & Ha & Hb & P), Hd as (a' & b' & Ha' & Hb' & P'). cbn in *. by simplify_eq.
Qed.

(** A leaving client never blocks on the wake-up of the next primary, although it
    holds the locks of all super subscriptions while it sends it. *)
Theorem leave_never_blocks s c : reachable s -> sys_pc s !! c = Some Leaving ->
  exists sid ss, st_superSub (sys_store s) !! c = Some sid /\ st_heap (sys_store s) !! sid = Some ss /\
    forall order, order ≡ₚ elements (ss_clients ss ∖ {[c]}) -> is_Some (leaveSuperSubscription c order (sys_store s)).
Proof using equal_refl equal_sym.
  intros [Hok Hcl]%reachable_ok Hc. destruct (ok_active _ _ Hok _ _ Hc) as (sid & ss & Hsid & Hm); [done|]. pose proof Hm as (Hin & Hss & Hcin).
  exists sid, ss. split; [done|]. split; [done|]. intros order Hord.
  destruct (leave_spec c sid ss order _ _ Hok Hm Hsid Hord) as [[_ ->]|[[_ ->]|(Hp & d & Hd & ->)]]; [eauto..|].
  apply elem_of_difference in Hd as [Hd Hne]. rewrite elem_of_singleton in Hne. rewrite decide_False; [eauto|]. intros Hw.
  destruct (ok_member _ _ Hok d sid ss) as ((p & Hpd & Ha) & Hsd & _); [done|].
  destruct (ok_wake _ _ Hcl _ Hw) as [E|[_ Hpr]]; [cbn in *; rewrite Hpd in E; injection E as ->; by destruct Ha|].
  apply primary_spec in Hpr as (x & y & Hx & Hy & Hpy). cbn in *. congruence.
Qed.

(** ** Shared tickers and progress *)

(** Some interval of the client makes [time.NewTicker] panic. *)
Definition panics (c : Client) : Prop := exists i, i ∈ dom (infos c) /\ (i <= 0)%Z.

(** The tickers of a live super subscription are none or those of a client with its
    request, all of them unless making them panicked. *)
Definition tickersOk (st : Store) : Prop := forall sid ss, sid ∈ st_subs st -> st_heap st !! sid = Some ss ->
  ss_tickers ss = ∅ \/ exists d, protoEqual (ss_request ss) (request d) = true /\ (dom (ss_tickers ss) = dom (infos d) \/ panics d).

(** Live super subscriptions of [st'] are those of [st] with their requests and tickers,
    or new ones without tickers. *)
Definition tickersKept (st st' : Store) : Prop := forall sid ss', sid ∈ st_subs st' -> st_heap st' !! sid = Some ss' ->
  ss_tickers ss' = ∅ \/ exists ss, sid ∈ st_subs st /\ st_heap st !! sid = Some ss /\ ss_request ss' = ss_request ss /\ ss_tickers ss' = ss_tickers ss.

Lemma tickers_kept st st' : tickersOk st -> tickersKept st st' -> tickersOk st'.
Proof using Type.
  intros Hok Hk sid ss' Hin Hss. destruct (Hk _ _ Hin Hss) as [?|(ss & Hin0 & Hss0 & Er & Et)]; [by left|]. rewrite Er, Et. by apply (Hok sid).
Qed.

Lemma kept_heap (st st' : Store) sid ss ss' : st_subs st' ⊆ st_subs st -> sid ∈ st_subs st -> st_heap st !! sid = Some ss ->
  st_heap st' = <[sid := ss']> (st_heap st) -> ss_request ss' = ss_request ss -> ss_tickers ss' = ss_tickers ss -> tickersKept st st'.
Proof using Type.
  intros Hsub Hin Hss Hh Hr Ht x y Hx Hy. rewrite Hh in Hy. right. destruct (decide (x = sid)) as [->|].
  - rewrite lookup_insert_eq in Hy. simplify_eq. by exists ss.
  - rewrite lookup_insert_ne in Hy by done. exists y. by split; [apply Hsub|].
Qed.

Lemma kept_refl st st' : st_heap st' = st_heap st -> st_subs st' = st_subs st -> tickersKept st st'.
Proof using Type. intros Hh Hs x y Hx Hy. rewrite Hs in Hx. rewrite Hh in Hy. right. by exists y. Qed.

Lemma fetch_tickersOk c sid order r (st st' : Store) pc : storeOk st pc -> tickersOk st -> pc !! c = Some Joined ->
  st_superSub st !! c = Some sid -> order ≡ₚ elements (dom (infos c)) -> populateTickers sid order (Some (infos c)) st = (r, st') -> tickersOk st'.
Proof using Type.
  intros Hok Ht Hpc Hsid Hord. destruct (ok_active _ _ Hok _ _ Hpc) as (x & ss & Hx & Hm); [done|]. simplify_eq.
  pose proof Hm as (Hin & Hss & _). destruct (ok_member _ _ Hok _ _ _ Hm) as (_ & _ & He). unfold populateTickers. rewrite Hss.
  destruct (decide _) as [Hz|]; [|by destruct (decide _); [|destruct (decide _)]; intros [= _ <-]].
  destruct (newTickers sid order (ss_tickers ss)) as [tickers b] eqn:E. intros [= _ <-] x z Hxin Hz'. cbn in Hxin, Hz'.
  destruct (decide (x = sid)) as [->|]; [|rewrite lookup_insert_ne in Hz' by done; by apply (Ht x)].
  rewrite lookup_insert_eq in Hz'. simplify_eq. cbn. right. exists c. split; [done|].
  destruct (newTickers_spec _ _ _ _ _ E) as [_ Hb]. apply map_size_empty_inv in Hz. rewrite Hz, dom_empty_L, union_empty_r_L in Hb.
  destruct b; [left|right].
  - destruct Hb as [-> _]. apply set_eq. intros i. by rewrite elem_of_list_to_set, Hord, elem_of_elements.
  - destruct Hb as (i & Hi & ?). exists i. by rewrite Hord, elem_of_elements in Hi.
Qed.

Lemma step_tickersOk c s s' : systemOk s -> tickersOk (sys_store s) -> step c s s' -> tickersOk (sys_store s').
Proof using Type.
  intros [Hok Hcl] Ht Hstep. destruct Hstep; cbn [sys_store sys_pc] in *; try done; try (by eapply tickers_kept; [done|apply kept_refl]).
  - eapply tickers_kept; [done|]. destruct (add_spec c order st pc Hok) as [(sid & ss & Hin & Hss & _ & ->)|(sid & _ & _ & ->)]; [done| |].
    + eapply kept_heap; [done|exact Hin|exact Hss|done|done|done].
    + intros x y Hx Hy. cbn in Hx, Hy. destruct (decide (x = sid)) as [->|]; [rewrite lookup_insert_eq in Hy; simplify_eq; by left|].
      rewrite lookup_insert_ne in Hy by done. right. exists y. apply elem_of_union in Hx as [Hx|Hx]; [|done]. by apply elem_of_singleton in Hx.
  - by eapply fetch_tickersOk.
  - by eapply fetch_tickersOk.
  - destruct v; eapply tickers_kept; try done; by apply kept_refl.
  - destruct (ok_active _ _ Hok _ _ H) as (x & y & Hx & Hm); [done|]. pose proof Hm as (Hin & Hy & _). simplify_eq.
    eapply tickers_kept; [done|]. destruct (leave_spec c sid ss order st pc Hok Hm H0 H2) as [[He E]|[[Hp E]|(Hp & d & Hd & E)]]; rewrite E in H3.
    + injection H3 as <-. unfold deleteSuperSubscription. cbn. rewrite lookup_insert_eq. eapply kept_heap; [|exact Hin|exact H1|done|done|done]. cbn.
      intros z. rewrite elem_of_difference. tauto.
    + injection H3 as <-. eapply kept_heap; [done|exact Hin|exact H1|done|done|done].
    + destruct (decide (d ∈ st_wakeChan st)); [done|]. injection H3 as <-. eapply kept_heap; [done|exact Hin|exact H1|done|done|done].
Qed.

Lemma reachable_tickers s : reachable s -> tickersOk (sys_store s).
Proof using equal_refl equal_sym.
  intros [clients H]. remember (initial clients) as s0 eqn:E.
  assert (systemOk s0 /\ tickersOk (sys_store s0)) as [H0 H1].
  { subst. split; [apply initial_ok|]. cbn. by intros sid ss ?%not_elem_of_empty. } clear E.
  induction H as [|s1 s2 s3 [c Hc] _ IH]; [done|]. apply IH; [by eapply step_ok|by eapply step_tickersOk].
Qed.

(** What can keep a client from its tickers: one of its intervals is not positive, or a
    client with an equal request asked for other intervals. *)
Definition intervalsDiffer (c : Client) : Prop := exists d, protoEqual (request c) (request d) = true /\ dom (infos d) <> dom (infos c).

(** A client that has joined gets the tickers of its super subscription, in whatever order
    it makes them, unless its intervals are at fault. *)
Lemma tickers_fetched s c sid order : reachable s -> sys_pc s !! c = Some Joined -> st_superSub (sys_store s) !! c = Some sid ->
  order ≡ₚ elements (dom (infos c)) ->
  (exists infos' st', populateTickers sid order (Some (infos c)) (sys_store s) = (Ok infos', st')) \/ panics c \/ intervalsDiffer c.
Proof using equal_refl equal_sym equal_trans.
  intros Hr Hpc Hsid Hord. pose proof (reachable_tickers _ Hr) as Ht. destruct (reachable_ok _ Hr) as [Hok _].
  destruct (ok_active _ _ Hok _ _ Hpc) as (x & ss & Hx & Hm); [done|]. simplify_eq. pose proof Hm as (Hin & Hss & _).
  destruct (ok_member _ _ Hok _ _ _ Hm) as (_ & _ & He). unfold populateTickers. rewrite Hss. destruct (decide _) as [|Hne].
  { destruct (newTickers sid order (ss_tickers ss)) as [tickers []] eqn:E; [by eauto|]. right; left.
    destruct (newTickers_spec _ _ _ _ _ E) as [_ (i & Hi & ?)]. exists i. by rewrite Hord, elem_of_elements in Hi. }
  destruct (Ht _ _ Hin Hss) as [E|(d & Hd & E)]; [rewrite E in Hne; done|].
  destruct (decide (dom (infos d) = dom (infos c))) as [Ed|]; [|right; right; exists d; eauto].
  destruct E as [E|(i & Hi & ?)]; [left|right; left; exists i; by rewrite <- Ed]. rewrite <- Ed in *.
  rewrite decide_False by (intros Hn; apply Hn; by rewrite <- !size_dom, E, Ed). rewrite decide_True by by rewrite E. by eauto.
Qed.

(** The steps of a primary client up to its sampling loop. *)
Lemma testing_ticks c (st : Store) pc : pc !! c = Some Testing -> isPrimary c st = true ->
  exists s', rtc (step c) (mkSystem st pc) s' /\ sampling s' c.
Proof using Type.
  intros Hpc Hp. exists (mkSystem st (<[c := Ticking]> pc)). split; [by apply rtc_once, step_primary|]. unfold sampling. cbn. by rewrite lookup_insert_eq.
Qed.

(** C24. No wake-up is lost: in every reachable state the primary client of a live super
    subscription is leaving, or reaches its sampling loop by its own steps alone, or has
    only just joined and may fail to get its tickers, because one of its intervals is not
    positive ([time.NewTicker] panics) or a client with an equal request asked for other
    intervals. *)
Theorem primary_samples s sid ss c : reachable s -> sid ∈ st_subs (sys_store s) -> st_heap (sys_store s) !! sid = Some ss ->
  ss_primaryClient ss = Some c ->
  sys_pc s !! c = Some Leaving \/ (exists s', rtc (step c) s s' /\ sampling s' c) \/
  (sys_pc s !! c = Some Joined /\ (panics c \/ intervalsDiffer c)).
Proof using equal_refl equal_sym equal_trans.
  intros Hr Hin Hss Hp. destruct (reachable_ok _ Hr) as [Hok Hcl].
  destruct (ok_sub _ _ Hok _ Hin) as (ss' & p & Hss' & Hp' & Hpin). simplify_eq.
  destruct (ok_member _ _ Hok c sid ss) as ((q & Hq & Ha) & Hsid & _); [done|].
  assert (isPrimary c (sys_store s) = true) as Hpr by (apply primary_spec; by exists sid, ss).
  destruct s as [st pc]. cbn [sys_store sys_pc] in *. destruct q; try (by destruct Ha); [right..|by left]; [|left..].
  - destruct (tickers_fetched _ c sid _ Hr Hq Hsid (Permutation_refl _)) as [(infos' & st' & E)|?]; [left|by right]. cbn [sys_store] in E.
    destruct (testing_ticks c st' (<[c := Testing]> pc)) as (s' & Hs' & Ht); [by rewrite lookup_insert_eq| |].
    { destruct (tickers_spec _ _ _ _ _ _ E) as [->|(y & tickers & Hy & _ & ->)]; [done|]. rewrite <- Hpr. by eapply primary_insert. }
    exists s'. split; [|done]. eapply rtc_l; [by eapply step_tickers|done].
  - by apply testing_ticks.
  - set (st' := mkStore (st_heap st) (st_subs st) (st_superSub st) (st_wakeChan st ∖ {[c]}) (st_queue st) (st_stopped st)).
    destruct (testing_ticks c st' (<[c := Testing]> pc)) as (s' & Hs' & Ht); [by rewrite lookup_insert_eq|by rewrite <- Hpr; apply primary_heap|].
    exists s'. split; [|done]. eapply rtc_l; [|exact Hs']. apply step_wake; [done|]. by apply (ok_waiting _ _ Hcl).
  - exists (mkSystem st pc). by split.
Qed.
End super_proofs.

(** ** Two clients with one request *)

Definition demo_infos (c : Client) : gmap Z (list ticker_info) := {[10%Z := [mkTicker None "/interfaces" false false]]}.
Abbreviation demo_super := (reachable (Val := nat) Nat.eqb (fun _ => 7) demo_infos).
Abbreviation demo_step := (anyStep (Val := nat) Nat.eqb (fun _ => 7) demo_infos).

Definition demo_ss (cs : gset Client) (p : Client) : superSubscription := mkSuper cs 7 (Some p) {[10%Z := (0, 10%Z)]}.
Definition demo_store (cs : gset Client) (p : Client) (sup : gmap Client SuperId) : Store (Val := nat) :=
  mkStore {[0 := demo_ss cs p]} {[0]} sup ∅ ∅ ∅.

(** Client 1 samples; client 2 has joined and waits; client 1 leaves; it has left, and
    client 2 is to be woken. *)
Definition demo_two : System := mkSystem (demo_store {[1; 2]} 1 {[1 := 0; 2 := 0]}) {[1 := Ticking; 2 := Waiting]}.
Definition demo_leaving : System := mkSystem (demo_store {[1; 2]} 1 {[1 := 0; 2 := 0]}) {[1 := Leaving; 2 := Waiting]}.
Definition demo_left : System (Req := nat) (Val := nat) :=
  mkSystem (mkStore {[0 := demo_ss {[2]} 2]} {[0]} {[1 := 0; 2 := 0]} {[2]} ∅ ∅) {[1 := Finished; 2 := Waiting]}.

Lemma demo_reachable : demo_super demo_two /\ demo_super demo_leaving /\ demo_super demo_left.
Proof.
  assert (rtc demo_step (initial {[1; 2]}) demo_two) as H.
  { eapply rtc_l. { exists 1. apply (step_add _ _ _ 1 _ _ []); [reflexivity|done]. }
    eapply rtc_l. { exists 1. eapply (step_tickers _ _ _ 1 _ _ 0 [10%Z]); [reflexivity..|]. vm_compute. reflexivity. }
    eapply rtc_l. { exists 1. apply step_primary; reflexivity. }
    eapply rtc_l. { exists 2. apply (step_add _ _ _ 2 _ _ [0]); [reflexivity|]. vm_compute. reflexivity. }
    eapply rtc_l. { exists 2. eapply (step_tickers _ _ _ 2 _ _ 0 [10%Z]); [reflexivity..|]. vm_compute. reflexivity. }
    eapply rtc_l. { exists 2. apply step_secondary; reflexivity. }
    match goal with |- rtc _ ?s _ => replace s with demo_two by (vm_compute; reflexivity) end. apply rtc_refl. }
  assert (rtc demo_step (initial {[1; 2]}) demo_leaving) as H'.
  { replace demo_leaving with (mkSystem (sys_store demo_two) (<[1 := Leaving]> (sys_pc demo_two))) by (vm_compute; reflexivity).
    eapply rtc_r; [exact H|]. exists 1. apply (step_stop _ _ _ 1 _ _ Ticking); [reflexivity|by right]. }
  split; [by exists {[1; 2]}|]. split; [by exists {[1; 2]}|]. exists {[1; 2]}. eapply rtc_r; [exact H'|]. exists 1.
  replace demo_left with (mkSystem (sys_store demo_left) (<[1 := Finished]> (sys_pc demo_leaving))) by (vm_compute; reflexivity).
  eapply (step_leave _ _ _ 1 _ _ 0 (demo_ss {[1; 2]} 1) [2]); [reflexivity..| |]; vm_compute; reflexivity.
Qed.

Lemma demo_equal_sym a b : Nat.eqb a b = true -> Nat.eqb b a = true.
Proof. by intros ->%Nat.eqb_eq; apply Nat.eqb_refl. Qed.

Lemma demo_equal_trans a b c : Nat.eqb a b = true -> Nat.eqb b c = true -> Nat.eqb a c = true.
Proof. by intros ->%Nat.eqb_eq. Qed.

Lemma super_subscriptions_shape_witness : exists ss, st_heap (sys_store demo_two) !! 0 = Some ss /\
  forall c, c ∈ ss_clients ss <-> (exists p, sys_pc demo_two !! c = Some p /\ p <> Starting /\ p <> Finished) /\ Nat.eqb (ss_request ss) 7 = true.
Proof.
  destruct (super_subscriptions_shape Nat.eqb Nat.eqb_refl demo_equal_sym demo_equal_trans (fun _ => 7) demo_infos demo_two 0 (proj1 demo_reachable))
    as (ss & p & H1 & H2 & H3 & H4 & _); [by apply elem_of_singleton|]. exists ss. split; [exact H1|exact H4].
Defined.

Lemma one_sampler_witness : sys_pc demo_two !! 1 = Some Ticking /\ 1 = 1.
Proof.
  split; [reflexivity|].
  exact (one_sampler Nat.eqb Nat.eqb_refl demo_equal_sym demo_equal_trans (fun _ => 7) demo_infos demo_two 1 1 (proj1 demo_reachable) eq_refl eq_refl eq_refl).
Defined.

Lemma leave_never_blocks_witness : exists sid ss, st_superSub (sys_store demo_leaving) !! 1 = Some sid /\ st_heap (sys_store demo_leaving) !! sid = Some ss /\
  forall order, order ≡ₚ elements (ss_clients ss ∖ {[1]}) -> is_Some (leaveSuperSubscription 1 order (sys_store demo_leaving)).
Proof.
  exact (leave_never_blocks Nat.eqb Nat.eqb_refl demo_equal_sym (fun _ => 7) demo_infos demo_leaving 1 (proj1 (proj2 demo_reachable)) eq_refl).
Defined.

(** Client 2, woken after client 1 has left, gets to sample. *)
Lemma primary_samples_witness : sys_pc demo_left !! 2 = Some Waiting /\
  exists s', rtc (step Nat.eqb (fun _ => 7) demo_infos 2) demo_left s' /\ sys_pc s' !! 2 = Some Ticking.
Proof.
  split; [reflexivity|].
  destruct (primary_samples Nat.eqb Nat.eqb_refl demo_equal_sym demo_equal_trans (fun _ => 7) demo_infos demo_left 0 (demo_ss {[2]} 2) 2
    (proj2 (proj2 demo_reachable)) (proj2 (elem_of_singleton 0 0) eq_refl) eq_refl eq_refl) as [H|[H|[H _]]]; [discriminate H|exact H|discriminate H].
Defined.
