(* ===== verification/TranslUtils.v ===== *)
(** The calls to translib (transl_utils/transl_utils.go): paths become URIs, Set requests
    become one call or one bulk call, errors become status codes.

    Translib, its version parser, the path validator and the printing of paths are
    parameters.  The state is the list of calls made so far; audit messages are left out. *)

From S2P Require Import Prelude GnmiTypes PanicMonad.

(** [tlerr] and the other errors a call returns. *)
Inductive TlErr :=
| TranslibSyntaxValidationError | TranslibUnsupportedClientVersion | InvalidArgsError | NotSupportedError
| InternalError | NotFoundError | AlreadyExistsError | TranslibCVLFailure | TranslibTransactionFail
| TranslibRedisClientEntryNotExist | AuthorizationError
| GrpcStatus (c : Code) | ContextCanceled | ContextDeadline | SuccessError | OtherError (msg : string).

#[global] Instance TlErr_eq_dec : EqDecision TlErr.
Proof. solve_decision. Defined.

(** [ToStatus]: the code; [status.FromContextError] gives the codes of context errors. *)
Definition ToStatus (err : option TlErr) : option Code :=
  match err with
  | None => None
  | Some err =>
      Some match err with
           | TranslibSyntaxValidationError => InvalidArgument
           | TranslibUnsupportedClientVersion | InvalidArgsError | NotSupportedError => InvalidArgument
           | InternalError => Internal
           | NotFoundError => NotFound
           | AlreadyExistsError => AlreadyExists
           | TranslibCVLFailure => InvalidArgument
           | TranslibTransactionFail => Aborted
           | TranslibRedisClientEntryNotExist => NotFound
           | AuthorizationError => PermissionDenied
           | GrpcStatus c => c
           | ContextCanceled => Canceled
           | ContextDeadline => CtxDeadlineExceeded
           | SuccessError | OtherError _ => Unknown
           end
  end.

(** [GnmiTranslFullPath], with the elements of the current path format. *)
Definition GnmiTranslFullPath (prefix : option Path) (path : Path) : Path :=
  mkPath (path_origin path) "" (match path_elem path with [] => [] | _ => GetElem prefix ++ path_elem path end).

(** What a request carries besides its path: the caller and the client's version. *)
Record Caller := mkCaller {
  user : string;
  roles : list string;
  authEnabled : bool;
  bundleVersion : option string
}.

Inductive Operation := DELETE | REPLACE | UPDATE.

#[global] Instance Operation_eq_dec : EqDecision Operation.
Proof. solve_decision. Defined.

Section calls.
Context {Version : Type}.

(** [translib.SetRequest] with its operation, and an entry of a bulk request. *)
Record SetRequest := mkSet {
  rq_op : Operation;
  rq_path : string;
  rq_payload : option string;
  rq_user : string;
  rq_roles : list string;
  rq_auth : bool;
  rq_version : option Version
}.

Record BulkEntry := mkEntry {
  be_op : Operation;
  be_path : string;
  be_payload : option string
}.

Inductive Call :=
| CallSet (r : SetRequest)
| CallBulk (entries : list BulkEntry) (u : string) (rs : list string) (auth : bool) (v : option Version)
| CallGet (path : string) (ygot : bool) (u : string) (rs : list string) (auth : bool) (v : option Version)
| CallAction (path payload : string) (u : string) (rs : list string) (auth : bool) (v : option Version).

Inductive SetErr := ETranslib (e : TlErr) | EVersion | EPath | EValueType | EBulk (es : list TlErr).

Context (NewVersion : string -> option Version).
(** The validator with or without wildcard keys, and [ygot.PathToString]. *)
Context (Validate : bool -> option Path -> option Path) (PathToString : Path -> option string).
(** The answers of translib: of one request; of a bulk request, one error per entry and
    the error of the whole; of Get and Action. *)
Context (translibSet : SetRequest -> option TlErr).
Context (translibBulk : list BulkEntry -> list (option TlErr) * option TlErr).
Context (translibGet : string -> bool -> string * bool * option TlErr).
Context (translibAction : string -> string -> res TlErr string).
Context (Compact : string -> string).

Definition L := SM (list Call).
Definition record (c : Call) : L unit := modify (fun l => l ++ [c]).

(** [x, err := m; if err != nil { return err }]. *)
Definition orReturn {A B} (m : L (res SetErr A)) (k : A -> L (res SetErr B)) : L (res SetErr B) :=
  r ← m; match r with Ok a => k a | Err e => mret (Err e) end.

#[local] Notation "x '<~' m ';' k" := (orReturn m (fun x => k)) (at level 20, m at level 100, k at level 200, only parsing).

(** [ConvertToURI]; a nil path below a prefix is a nil dereference. *)
Definition ConvertToURI (prefix : option Path) (path : option Path) (wildcards : bool) : L (res SetErr string) :=
  let convert fullPath :=
    mret (match Validate wildcards fullPath with
          | None => Err EPath
          | Some fullPath => match PathToString fullPath with Some s => Ok s | None => Err EPath end
          end) in
  match prefix, path with
  | None, _ => convert path
  | Some _, Some p => convert (Some (GnmiTranslFullPath prefix p))
  | Some _, None => panic
  end.

(** [PopulateClientPaths]: the URI of each path, up to the first error. *)
Fixpoint PopulateClientPaths (prefix : option Path) (paths : list Path) (addWildcardKeys : bool) : L (res SetErr (list (Path * string))) :=
  match paths with
  | [] => mret (Ok [])
  | path :: paths =>
      req <~ ConvertToURI prefix (Some path) addWildcardKeys;
      m <~ PopulateClientPaths prefix paths addWildcardKeys;
      mret (Ok ((path, req) :: m))
  end.

(** The client version of a request: none, a parsed one, or an error. *)
Definition clientVersion (rc : Caller) : L (res SetErr (option Version)) :=
  mret (match bundleVersion rc with
        | None => Ok None
        | Some bv => match NewVersion bv with Some v => Ok (Some v) | None => Err EVersion end
        end).

Definition isTranslibSuccess (err : option TlErr) : bool :=
  match err with None | Some SuccessError => true | Some _ => false end.

(** [TranslProcessGet]: a compacted JSON value, or for PROTO whether a value tree came. *)
Definition TranslProcessGet (uriPath : string) (rc : Caller) (proto : bool) : L (res SetErr (option TypedValue * option bool)) :=
  v <~ clientVersion rc;
  _ ← record (CallGet uriPath proto (user rc) (roles rc) (authEnabled rc) v);
  let '(payload, tree, err) := translibGet uriPath proto in
  mret (if isTranslibSuccess err
        then Ok (if proto then (None, Some tree) else (Some (JsonIetfVal (Compact payload)), None))
        else Err (ETranslib (default SuccessError err))).

Definition setRequest (op : Operation) (uri : string) (payload : option string) (rc : Caller) (v : option Version) : SetRequest :=
  mkSet op uri payload (user rc) (roles rc) (authEnabled rc) v.

Definition call (r : SetRequest) : L (option TlErr) := _ ← record (CallSet r); mret (translibSet r).

Definition asResult (err : option TlErr) : res SetErr unit := match err with Some e => Err (ETranslib e) | None => Ok tt end.

Definition TranslProcessDelete (prefix : option Path) (delPath : Path) (rc : Caller) : L (res SetErr unit) :=
  uri <~ ConvertToURI prefix (Some delPath) false;
  v <~ clientVersion rc;
  err ← call (setRequest DELETE uri None rc v);
  mret (asResult err).

(** [entry.GetVal().GetJsonIetfVal()]: nothing when the value has another type. *)
Definition jsonPayload (u : Update) : option string :=
  match upd_val u with Some (JsonIetfVal b) => Some b | _ => None end.

Definition TranslProcessReplace (prefix : option Path) (entry : Update) (rc : Caller) : L (res SetErr unit) :=
  uri <~ ConvertToURI prefix (upd_path entry) false;
  v <~ clientVersion rc;
  err ← call (setRequest REPLACE uri (jsonPayload entry) rc v);
  mret (asResult err).

(** [TranslProcessUpdate]: an object that does not exist is created with a replace. *)
Definition TranslProcessUpdate (prefix : option Path) (entry : Update) (rc : Caller) : L (res SetErr unit) :=
  uri <~ ConvertToURI prefix (upd_path entry) false;
  v <~ clientVersion rc;
  err ← call (setRequest UPDATE uri (jsonPayload entry) rc v);
  match err with
  | Some NotFoundError =>
      err ← call (setRequest REPLACE uri (jsonPayload entry) rc v);
      mret (asResult err)
  | err => mret (asResult err)
  end.

Fixpoint bulkDeletes (prefix : option Path) (ds : list Path) : L (res SetErr (list BulkEntry)) :=
  match ds with
  | [] => mret (Ok [])
  | d :: ds =>
      uri <~ ConvertToURI None (Some (GnmiTranslFullPath prefix d)) false;
      es <~ bulkDeletes prefix ds;
      mret (Ok (mkEntry DELETE uri None :: es))
  end.

(** The loops over replaces and updates. *)
Fixpoint bulkWrites (op : Operation) (prefix : option Path) (us : list Update) : L (res SetErr (list BulkEntry)) :=
  match us with
  | [] => mret (Ok [])
  | u :: us =>
      uri <~ ConvertToURI prefix (upd_path u) false;
      match upd_val u with
      | Some (JsonIetfVal b) =>
          es <~ bulkWrites op prefix us;
          mret (Ok (mkEntry op uri (Some b) :: es))
      | _ => mret (Err EValueType)
      end
  end.

Definition bulkErrors (resp : list (option TlErr)) (err : option TlErr) : list TlErr :=
  match err, omap id resp with
  | Some e, [] => [e]
  | _, errors => errors
  end.

Definition TranslProcessBulk (delete : list Path) (replace update : list Update) (prefix : option Path) (rc : Caller) : L (res SetErr unit) :=
  v <~ clientVersion rc;
  ds <~ bulkDeletes prefix delete;
  rs <~ bulkWrites REPLACE prefix replace;
  us <~ bulkWrites UPDATE prefix update;
  let entries := ds ++ rs ++ us in
  _ ← record (CallBulk entries (user rc) (roles rc) (authEnabled rc) v);
  let '(resp, err) := translibBulk entries in
  mret (match bulkErrors resp err with [] => Ok tt | errors => Err (EBulk errors) end).

Definition TranslProcessAction (uri payload : string) (rc : Caller) : L (res SetErr string) :=
  v <~ clientVersion rc;
  _ ← record (CallAction uri payload (user rc) (roles rc) (authEnabled rc) v);
  mret (match translibAction uri payload with Ok p => Ok p | Err e => Err (ETranslib e) end).

(** [TranslClient.Set] of transl_data_client.go. *)
Definition TranslSet (prefix : option Path) (delete : list Path) (replace update : list Update) (rc : Caller) : L (res SetErr unit) :=
  if 1 <? length delete + length replace + length update then TranslProcessBulk delete replace update prefix rc
  else match delete, replace, update with
       | [d], _, _ => TranslProcessDelete prefix d rc
       | _, [r], _ => TranslProcessReplace prefix r rc
       | _, _, [u] => TranslProcessUpdate prefix u rc
       | _, _, _ => mret (Ok tt)
       end.
End calls.
