(* ===== verification/TranslClient.v ===== *)
(** The translib client (sonic_data_client/transl_data_client.go): Get with its worker
    goroutines, the values it builds, the decisions of [StreamRun] on modes, intervals and
    timers, the cases of its select, polling, and the client version. *)

From S2P Require Import Prelude GnmiTypes PanicMonad YgotDiff TranslSubscriber SuperSub TranslUtils.

(** Go conversions between 64-bit integers. *)
Definition u64 (z : Z) : Z := z mod 2 ^ 64.
Definition i64 (z : Z) : Z := (z + 2 ^ 63) mod 2 ^ 64 - 2 ^ 63.
Definition second : Z := 1000000000.

Definition findMin (a b : nat) : nat := if a <? b then a else b.
Definition maxWorkers : nat := 2.
Definition numWorkers (parallel : bool) (n : nat) : nat := if parallel then findMin n maxWorkers else 1.

(** ** Get: workers, channels and readers *)

Section get.
Context {Item Val Error : Type} (process : Item -> res Error Val).

(** The paths in the closed channel, the paths being processed, the workers that are at
    the head of their loop, and what the readers have collected. *)
Record GetState := mkGet {
  g_chan : list Item;
  g_busy : list Item;
  g_idle : nat;
  g_values : list Val;
  g_errs : list Error
}.

(** The goroutines of [processGetWorker]: a worker takes a path, finishes it, stops after
    an error, and stops when the channel is empty. *)
Inductive getStep : GetState -> GetState -> Prop :=
| get_take x chan busy idle vs es :
    getStep (mkGet (x :: chan) busy (S idle) vs es) (mkGet chan (x :: busy) idle vs es)
| get_value chan busy1 x busy2 idle vs es v : process x = Ok v ->
    getStep (mkGet chan (busy1 ++ x :: busy2) idle vs es) (mkGet chan (busy1 ++ busy2) (S idle) (vs ++ [v]) es)
| get_error chan busy1 x busy2 idle vs es e : process x = Err e ->
    getStep (mkGet chan (busy1 ++ x :: busy2) idle vs es) (mkGet chan (busy1 ++ busy2) idle vs (es ++ [e]))
| get_exit busy idle vs es :
    getStep (mkGet [] busy (S idle) vs es) (mkGet [] busy idle vs es).

(** [workerWg.Wait()] returns. *)
Definition getDone (s : GetState) : Prop := g_busy s = [] /\ g_idle s = 0.

Definition getStart (parallel : bool) (paths : list Item) : GetState :=
  mkGet paths [] (numWorkers parallel (length paths)) [] [].

(** The end of [Get]: the joined errors, or the values. *)
Definition getResult (s : GetState) : res (list Error) (list Val) :=
  match g_errs s with [] => Ok (g_values s) | es => Err es end.
End get.

(** ** Values *)

Inductive Encoding := JSON | BYTES | PROTO | ASCII | JSON_IETF.

(** [spb.Value]. *)
Record SpbValue := mkSpb {
  sp_prefix : option Path;
  sp_path : option Path;
  sp_val : option TypedValue;
  sp_notification : option Notification
}.

Inductive BuildErr := BuildConvert | BuildCount | BuildEncoding.

Definition setTarget (target : string) (n : Notification) : Notification :=
  mkNotif (nt_Timestamp n) (mkPath (path_origin (nt_Prefix n)) target (path_elem (nt_Prefix n))) (nt_Update n) (nt_Delete n).

Section values.
(** [ygot.TogNMINotifications] below a path. *)
Context (TogNMIBelow : GoStruct -> list PathElem -> option (list Notification)) (now : Z).

(** [setPrefixTarget]. *)
Definition setPrefixTarget (notifs : list Notification) (target : string) : list Notification := map (setTarget target) notifs.

(** [buildValue]; [None] is a panic, of a nil prefix whose target is read. *)
Definition buildValue (prefix : option Path) (path : Path) (enc : Encoding) (typedVal : option TypedValue) (valueTree : option GoStruct)
    : option (res BuildErr (option SpbValue)) :=
  match enc with
  | JSON | JSON_IETF =>
      Some (Ok (match typedVal with None => None | Some v => Some (mkSpb prefix (Some path) (Some v) None) end))
  | PROTO =>
      match valueTree with
      | None => Some (Ok None)
      | Some tree =>
          let '(elems, _) := removeLastPathElem (path_elem (GnmiTranslFullPath prefix path)) in
          match TogNMIBelow tree elems with
          | None => Some (Err BuildConvert)
          | Some [n] =>
              match prefix with
              | None => None
              | Some p =>
                  let n := if String.eqb (path_target p) "" then n else setTarget (path_target p) n in
                  Some (Ok (Some (mkSpb None None None (Some n))))
              end
          | Some _ => Some (Err BuildCount)
          end
      end
  | _ => Some (Err BuildEncoding)
  end.

Definition buildValueForGet (prefix : option Path) (path : Path) (enc : Encoding) (typedVal : option TypedValue) (valueTree : option GoStruct)
    : option (res BuildErr (option SpbValue)) :=
  match buildValue prefix path enc typedVal valueTree with
  | Some (Ok None) =>
      match enc with
      | JSON | JSON_IETF => Some (Ok (Some (mkSpb prefix (Some path) (Some (JsonIetfVal "{}")) None)))
      | PROTO => Some (Ok (Some (mkSpb None None None (Some (mkNotif now (GnmiTranslFullPath prefix path) [] [])))))
      | _ => Some (Err BuildEncoding)
      end
  | r => r
  end.
End values.

(** One path of a Get, as [processGetWorker] processes it: the answer of
    [TranslProcessGet], made into a value; [None] is a panic. *)
Inductive GetErr := GetTranslib (e : SetErr) | GetBuild (e : BuildErr).

Definition processGetPath (below : GoStruct -> list PathElem -> option (list Notification)) (now : Z)
    (translProcessGet : string -> res SetErr (option TypedValue * option GoStruct)) (prefix : option Path) (enc : Encoding)
    (p : Path * string) : option (res GetErr (option SpbValue)) :=
  match translProcessGet p.2 with
  | Err e => Some (Err (GetTranslib e))
  | Ok (val, tree) =>
      match buildValueForGet below now prefix p.1 enc val tree with
      | None => None
      | Some (Err e) => Some (Err (GetBuild e))
      | Some (Ok v) => Some (Ok v)
      end
  end.

(** ** The client version *)

(** The registered extensions of a request: their ids and decoded versions. *)
Definition BUNDLE_VERSION_EXT : Z := 700.

Fixpoint getBundleVersion (extensions : list (option (Z * string))) : option string :=
  match extensions with
  | [] => None
  | Some (id, version) :: extensions => if decide (id = BUNDLE_VERSION_EXT) then Some version else getBundleVersion extensions
  | None :: extensions => getBundleVersion extensions
  end.

(** [parseVersion]: the parser returns a version and an error; the result is the client's
    version, or an error. *)
Definition parseVersion {Version} (NewVersion : string -> Version * bool) (extensions : list (option (Z * string))) : res unit (option Version) :=
  match getBundleVersion extensions with
  | None => Ok None
  | Some bv => let '(v, failed) := NewVersion bv in if (failed : bool) then Ok (Some v) else Err tt
  end.

(** ** Streaming: modes, intervals and timers *)

Inductive SubscriptionMode := TARGET_DEFINED | ON_CHANGE | SAMPLE | OtherMode (n : Z).

Inductive NotificationType := OnChange | Sample | TargetDefined.

Definition getTranslNotificationType (mode : SubscriptionMode) : NotificationType :=
  match mode with ON_CHANGE => OnChange | SAMPLE => Sample | _ => TargetDefined end.

(** [gnmipb.Subscription]: the intervals are unsigned 64-bit nanoseconds. *)
Record Subscription := mkSub {
  sub_Mode : SubscriptionMode;
  sub_SampleInterval : Z;
  sub_HeartbeatInterval : Z;
  sub_SuppressRedundant : bool
}.

(** [translib.IsSubscribeResponse]; the minimum interval is in seconds. *)
Record PathInfo := mkInfo {
  pi_ID : nat;
  pi_Path : string;
  pi_IsSubPath : bool;
  pi_IsOnChangeSupported : bool;
  pi_PreferredOnChange : bool;
  pi_MinInterval : Z
}.

(** What the loop over the paths sets up: samples with their [filterMsgs], on-change paths
    and timers. *)
Record Streams := mkStreams {
  str_samples : list (string * bool);
  str_onChange : list string;
  str_timers : gmap Z (list ticker_info)
}.

Inductive StreamErr := ErrOnChangeMode | ErrMode | ErrHeartbeat | ErrSampleInterval | ErrPathId.

Definition addTimer (timers : gmap Z (list ticker_info)) (interval : Z) (sub : Subscription) (pathStr : string) (heartbeat : bool)
    : gmap Z (list ticker_info) :=
  let t := mkTicker None pathStr (sub_SuppressRedundant sub) heartbeat in
  match timers !! interval with
  | Some tickers => <[interval := tickers ++ [t]]> timers
  | None => <[interval := [t]]> timers
  end.

Section stream.
Context (MinSubscribeInterval : Z).

(** The mode a path is served in. *)
Definition streamMode (sub : Subscription) (p : PathInfo) : res StreamErr SubscriptionMode :=
  match sub_Mode sub with
  | TARGET_DEFINED => Ok (if pi_IsOnChangeSupported p && pi_PreferredOnChange p then ON_CHANGE else SAMPLE)
  | ON_CHANGE => if pi_IsOnChangeSupported p then Ok ON_CHANGE else Err ErrOnChangeMode
  | SAMPLE => Ok SAMPLE
  | OtherMode _ => Err ErrMode
  end.

Definition minInterval (p : PathInfo) : Z := if (pi_MinInterval p <=? 0)%Z then MinSubscribeInterval else pi_MinInterval p.

(** One turn of the loop over the paths. *)
Definition streamPath (subs : list Subscription) (updatesOnly : bool) (s : Streams) (p : PathInfo) : res StreamErr Streams :=
  match subs !! pi_ID p with
  | None => Err ErrPathId
  | Some sub =>
      match streamMode sub p with
      | Err e => Err e
      | Ok mode =>
          let hb := sub_HeartbeatInterval sub in
          let min := minInterval p in
          if (0 <? hb)%Z && (hb <? u64 (u64 min * second))%Z then Err ErrHeartbeat
          else match mode with
               | SAMPLE =>
                   let interval := i64 (sub_SampleInterval sub) in
                   let least := i64 (min * second) in
                   if negb (interval =? 0)%Z && (interval <? least)%Z then Err ErrSampleInterval
                   else
                     let interval := if (interval =? 0)%Z then least else interval in
                     let timers := addTimer (str_timers s) interval sub (pi_Path p) false in
                     let timers := if sub_SuppressRedundant sub && (0 <? hb)%Z then addTimer timers (i64 hb) sub (pi_Path p) true else timers in
                     Ok (mkStreams (str_samples s ++ [(pi_Path p, updatesOnly || pi_IsSubPath p)]) (str_onChange s) timers)
               | ON_CHANGE =>
                   let timers := if (0 <? hb)%Z then addTimer (str_timers s) (i64 hb) sub (pi_Path p) true else str_timers s in
                   Ok (mkStreams (str_samples s) (str_onChange s ++ [pi_Path p]) timers)
               | _ => Ok s
               end
      end
  end.

Definition streamPaths (subs : list Subscription) (updatesOnly : bool) (infos : list PathInfo) : res StreamErr Streams :=
  foldM (streamPath subs updatesOnly) (mkStreams [] [] ∅) infos.
End stream.

(** The cases of the select: a ticker's channel or the stop channel. *)
Inductive SelectCase := RecvTicker (t : Ticker) | RecvStop.

(** [buildSelectCases] over the timers in the order of the loop; [None] is the panic of a
    timer without a ticker. *)
Fixpoint selectTickers (order : list (Z * list ticker_info)) (cases : list SelectCase) (index : gmap nat Z) : option (list SelectCase * gmap nat Z) :=
  match order with
  | [] => Some (cases, index)
  | (interval, tickers) :: order =>
      match tickers with
      | [] => selectTickers order cases index
      | t :: _ =>
          match tk_t t with
          | None => None
          | Some t => selectTickers order (cases ++ [RecvTicker t]) (<[length cases := interval]> index)
          end
      end
  end.

Definition buildSelectCases (order : list (Z * list ticker_info)) : option (list SelectCase * gmap nat Z) :=
  match selectTickers order [] ∅ with
  | Some (cases, index) => Some (cases ++ [RecvStop], index)
  | None => None
  end.

(** One turn of the sampling loop: it ends ([None]) when the chosen case was closed, is the
    stop channel, or the queue is gone; else the paths to sample with their [filterDups]. *)
Definition streamTurn (timers : gmap Z (list ticker_info)) (index : gmap nat Z) (chosen : nat) (ok disposed : bool) : option (list (string * bool)) :=
  if negb ok || (size index <=? chosen) || disposed then None
  else Some (map (fun t => (tk_pathStr t, negb (tk_heartbeat t) && tk_suppress t))
                 (default [] (timers !! default 0%Z (index !! chosen)))).

(** ** Polling *)

Section poll.
(** The messages of a sample of a path, in the round of the given number. *)
Context (sample : nat -> string -> list Msg).

(** [PollRun]: a round per signal of the poll channel, and the end when it is closed. *)
Fixpoint pollRounds (round rounds : nat) (synced updatesOnly : bool) (paths : list string) : list Msg :=
  match rounds with
  | O => [MFatal FatalEmpty]
  | S rounds =>
      (if synced || negb updatesOnly then concat (map (sample round) paths) else []) ++ [MSync] ++
      pollRounds (S round) rounds true updatesOnly paths
  end.

Definition PollRun (version : res unit unit) (rounds : nat) (updatesOnly : bool) (paths : list string) : list Msg :=
  match version with Err _ => [MFatal FatalVersion] | Ok _ => pollRounds 0 rounds false updatesOnly paths end.

Definition OnceRun (version : res unit unit) (signalled : bool) (paths : list string) : list Msg :=
  match version with
  | Err _ => [MFatal FatalVersion]
  | Ok _ => if signalled then concat (map (sample 0) paths) ++ [MSync] else [MFatal FatalEmpty]
  end.
End poll.
