(* ===== verification/TranslClientProofs.v ===== *)
(** The translib client: Get collects every answer or reports an error under every schedule
    of its workers and always ends; a bulk Set is one call in the order of the request or
    none; timers respect the minimum intervals; the select cases match the timers. *)

From S2P Require Import Prelude GnmiTypes PanicMonad YgotDiff TranslSubscriber SuperSub TranslUtils TranslClient.

(** ** Get *)

Section get_proofs.
Context {Item Val Error : Type} (process : Item -> res Error Val).

#[local] Abbreviation GetState := (GetState (Item := Item) (Val := Val) (Error := Error)).

(** Every path is waiting, being processed, answered or failed; while nothing has failed
    no worker stops before the channel is empty. *)
Record getOk (workers : nat) (paths : list Item) (s : GetState) : Prop := {
  got : exists answered failed, paths ≡ₚ answered ++ failed ++ g_busy s ++ g_chan s /\
    Forall2 (fun x v => process x = Ok v) answered (g_values s) /\ Forall2 (fun x e => process x = Err e) failed (g_errs s);
  got_workers : g_errs s = [] -> g_chan s = [] \/ g_idle s + length (g_busy s) = workers
}.

Lemma getStep_ok workers paths s s' : getOk workers paths s -> getStep process s s' -> getOk workers paths s'.
Proof.
  intros [(ans & bad & HP & HA & HB) Hw] Hstep. destruct Hstep; cbn in *.
  - split; cbn; [|intros He; destruct (Hw He) as [?|]; [done|right; lia]].
    exists ans, bad. split; [|done]. rewrite HP. do 2 apply Permutation_app_head. by rewrite Permutation_middle.
  - split; cbn; [|intros He; destruct (Hw He) as [?|Hn]; [by left|right; rewrite length_app in *; cbn in Hn; lia]].
    exists (ans ++ [x]), bad. split; [|split; [by apply Forall2_app; [|constructor]|done]].
    rewrite HP. solve_Permutation.
  - split; cbn; [|by destruct es].
    exists ans, (bad ++ [x]). split; [|split; [done|by apply Forall2_app; [|constructor]]].
    rewrite HP. solve_Permutation.
  - split; cbn; [|by left]. by exists ans, bad.
Qed.

Lemma getStart_ok parallel paths : getOk (numWorkers parallel (length paths)) paths (getStart parallel paths).
Proof. split; cbn; [|intros _; right; lia]. exists [], []. by split. Qed.

Lemma get_reach_ok parallel paths s : rtc (getStep process) (getStart parallel paths) s -> getOk (numWorkers parallel (length paths)) paths s.
Proof.
  intros H. pose proof (getStart_ok parallel paths) as H0. revert H0. generalize (numWorkers parallel (length paths)) as n. intros n H0.
  induction H as [|s1 s2 s3 Hs _ IH]; [done|]. apply IH. by eapply getStep_ok.
Qed.

(** The values are the answers of these paths, in this order. *)
Definition answers (order : list Item) (vs : list Val) : Prop := Forall2 (fun x v => process x = Ok v) order vs.

(** A bound on the steps that remain. *)
Definition getMeasure (s : GetState) : nat := 3 * length (g_chan s) + 2 * length (g_busy s) + g_idle s.

Lemma getStep_decreases s s' : getStep process s s' -> getMeasure s' < getMeasure s.
Proof. intros H. destruct H; unfold getMeasure; cbn; rewrite ?length_app; cbn; lia. Qed.

Lemma getStep_progress s : getDone s \/ exists s', getStep process s s'.
Proof.
  destruct s as [chan busy idle vs es]. destruct busy as [|x busy].
  - destruct idle as [|idle]; [by left|]. right. destruct chan; eexists; constructor.
  - right. destruct (process x) as [v|e] eqn:E; eexists; [by apply (get_value _ _ [] x)|by apply (get_error _ _ [] x)].
Qed.

(** Under every schedule of one or two workers, a Get that has finished returns the
    answers of all its paths when all of them succeed, and otherwise an error that
    consists of errors of its own paths. *)
Theorem get_answers_all parallel paths s : rtc (getStep process) (getStart parallel paths) s -> getDone s ->
  match getResult s with
  | Ok vs => exists order, order ≡ₚ paths /\ answers order vs
  | Err es => es <> [] /\ Forall (fun e => exists x, x ∈ paths /\ process x = Err e) es
  end.
Proof.
  intros Hr [Hb Hi]. destruct (get_reach_ok _ _ _ Hr) as [(ans & bad & HP & HA & HB) Hw]. unfold getResult.
  rewrite Hb in *. cbn in HP. destruct (g_errs s) as [|e es] eqn:Ee.
  - apply Forall2_nil_inv_r in HB as ->. cbn in HP. exists ans. split; [|done].
    destruct (Hw eq_refl) as [Hc|Hn]; [by rewrite HP, Hc, app_nil_r|]. rewrite Hi in Hn. cbn in Hn.
    destruct paths as [|x paths]; [|unfold numWorkers, findMin, maxWorkers in Hn; cbn in Hn; destruct parallel; [case_match|]; lia].
    apply Permutation_nil_l in HP. symmetry in HP. by apply app_eq_nil in HP as [-> _].
  - split; [done|]. apply Forall_forall. intros e' Hin. apply list_elem_of_lookup in Hin as [i Hi'].
    destruct (Forall2_lookup_r _ _ _ _ _ HB Hi') as (x & Hx & Hp). exists x. split; [|done].
    rewrite HP, !elem_of_app. right. left. by eapply list_elem_of_lookup_2.
Qed.

(** A Get always ends, whatever its workers do: every schedule is finite, and where it
    stops all workers have returned. *)
Theorem get_terminates (s : GetState) :
  Acc (fun a b => getStep process b a) s /\ (forall s', rtc (getStep process) s s' -> (forall s'', ~ getStep process s' s'') -> getDone s').
Proof.
  split.
  - induction s as [s IH] using (induction_ltof1 _ getMeasure). constructor. intros s' Hs. apply IH. by apply getStep_decreases.
  - intros s' _ Hn. destruct (getStep_progress s') as [?|[s'' Hs]]; [done|]. by destruct (Hn s'').
Qed.
End get_proofs.

(** ** Set *)

Section set_proofs.
Context {Version : Type} (NewVersion : string -> option Version).
Context (Validate : bool -> option Path -> option Path) (PathToString : Path -> option string).
Context (translibSet : SetRequest (Version := Version) -> option TlErr).
Context (translibBulk : list BulkEntry -> list (option TlErr) * option TlErr).

#[local] Abbreviation TranslSet := (TranslSet NewVersion Validate PathToString translibSet translibBulk).
#[local] Abbreviation ConvertToURI := (ConvertToURI (Version := Version) Validate PathToString).
#[local] Abbreviation L := (L (Version := Version)).

(** A computation that makes no call. *)
Definition silent {A} (m : L A) : Prop := forall l, (m l).2 = l.

Lemma silent_ret {A} (a : A) : silent (mret a).
Proof. by intros l. Qed.

Lemma silent_orReturn {A B} (m : L (res SetErr A)) (k : A -> L (res SetErr B)) : silent m -> (forall a, silent (k a)) -> silent (orReturn m k).
Proof.
  intros Hm Hk l. unfold orReturn, mbind, SM_bind. specialize (Hm l). destruct (m l) as [[[a|e]|] l1]; cbn in *; subst; [apply Hk|done|done].
Qed.

Lemma silent_convert prefix path w : silent (ConvertToURI prefix path w).
Proof. intros l. unfold TranslUtils.ConvertToURI. by destruct prefix, path. Qed.

Lemma silent_deletes prefix ds : silent (bulkDeletes (Version := Version) Validate PathToString prefix ds).
Proof. induction ds; [apply silent_ret|]. apply silent_orReturn; [apply silent_convert|]. intros uri. apply silent_orReturn; [done|]. intros. apply silent_ret. Qed.

Lemma silent_writes op prefix us : silent (bulkWrites (Version := Version) Validate PathToString op prefix us).
Proof.
  induction us as [|u us IH]; [apply silent_ret|]. cbn [bulkWrites]. apply silent_orReturn; [apply silent_convert|]. intros uri.
  destruct (upd_val u) as [[]|]; try apply silent_ret. apply silent_orReturn; [done|]. intros. apply silent_ret.
Qed.

(** The URI of a path. *)
Definition converts (prefix path : option Path) (uri : string) : Prop := forall l, ConvertToURI prefix path false l = (Some (Ok uri), l).

Lemma convert_ok prefix path l uri l' : ConvertToURI prefix path false l = (Some (Ok uri), l') -> converts prefix path uri.
Proof.
  intros H l1. unfold TranslUtils.ConvertToURI in *. destruct prefix, path; try done; injection H as H _; by rewrite H.
Qed.

Lemma orReturn_ok {A B} (m : L (res SetErr A)) (k : A -> L (res SetErr B)) l b l' :
  orReturn m k l = (Some (Ok b), l') -> exists a l1, m l = (Some (Ok a), l1) /\ k a l1 = (Some (Ok b), l').
Proof. unfold orReturn, mbind, SM_bind. destruct (m l) as [[[a|e]|] l1]; [|done..]. intros H. by exists a, l1. Qed.

Lemma deletes_ok prefix ds l es l' : bulkDeletes (Version := Version) Validate PathToString prefix ds l = (Some (Ok es), l') ->
  Forall2 (fun d e => exists uri, converts None (Some (GnmiTranslFullPath prefix d)) uri /\ e = mkEntry DELETE uri None) ds es.
Proof.
  revert l es l'. induction ds as [|d ds IH]; intros l es l'; [by intros [= <- _]|].
  intros (uri & l1 & H1%convert_ok & H)%orReturn_ok. apply orReturn_ok in H as (es' & l2 & H2%IH & [= <- _]). constructor; [by exists uri|done].
Qed.

Lemma writes_ok op prefix us l es l' : bulkWrites (Version := Version) Validate PathToString op prefix us l = (Some (Ok es), l') ->
  Forall2 (fun u e => exists uri b, converts prefix (upd_path u) uri /\ upd_val u = Some (JsonIetfVal b) /\ e = mkEntry op uri (Some b)) us es.
Proof.
  revert l es l'. induction us as [|u us IH]; intros l es l'; [by intros [= <- _]|]. cbn [bulkWrites].
  intros (uri & l1 & H1%convert_ok & H)%orReturn_ok. destruct (upd_val u) as [[b| | | | | |]|] eqn:Eu; try done.
  apply orReturn_ok in H as (es' & l2 & H2%IH & [= <- _]). constructor; [by exists uri, b|done].
Qed.

(** A computation behind a silent one makes a call only if the silent one succeeds. *)
Lemma silent_then {A B} (m : L (res SetErr A)) (k : A -> L (res SetErr B)) l r l' : silent m -> orReturn m k l = (r, l') ->
  (l' = l /\ (forall b, r <> Some (Ok b))) \/ exists a, m l = (Some (Ok a), l) /\ k a l = (r, l').
Proof.
  intros Hm. unfold orReturn, mbind, SM_bind. specialize (Hm l). destruct (m l) as [[[a|e]|] l1]; cbn in Hm; subst.
  - intros H. right. by exists a.
  - intros [= <- <-]. by left.
  - intros [= <- <-]. by left.
Qed.

(** C26. A Set of several operations reaches translib as one bulk call or not at all: either
    some path, value or version is invalid, nothing is sent and the request fails; or the
    one call holds the deletes, then the replaces, then the updates, each list in the order
    of the request, with the caller's name, roles and version, and the Set succeeds exactly
    when neither the call nor any of its entries failed. *)
Theorem set_bulk_once prefix delete replace update rc l r l' : 1 < length delete + length replace + length update ->
  TranslSet prefix delete replace update rc l = (r, l') ->
  (l' = l /\ r <> Some (Ok tt)) \/
  exists ds rs us v, l' = l ++ [CallBulk (ds ++ rs ++ us) (user rc) (roles rc) (authEnabled rc) v] /\
    Forall2 (fun d e => exists uri, converts None (Some (GnmiTranslFullPath prefix d)) uri /\ e = mkEntry DELETE uri None) delete ds /\
    Forall2 (fun u e => exists uri b, converts prefix (upd_path u) uri /\ upd_val u = Some (JsonIetfVal b) /\ e = mkEntry REPLACE uri (Some b)) replace rs /\
    Forall2 (fun u e => exists uri b, converts prefix (upd_path u) uri /\ upd_val u = Some (JsonIetfVal b) /\ e = mkEntry UPDATE uri (Some b)) update us /\
    (r = Some (Ok tt) <-> translibBulk (ds ++ rs ++ us) = (fst (translibBulk (ds ++ rs ++ us)), None) /\
      Forall (fun e => e = None) (fst (translibBulk (ds ++ rs ++ us)))).
Proof.
  intros Hn. unfold TranslUtils.TranslSet. rewrite (proj2 (Nat.ltb_lt _ _) Hn). unfold TranslProcessBulk. intros H.
  apply silent_then in H as [[-> Hr]|(v & _ & H)]; [by left| |apply silent_ret].
  apply silent_then in H as [[-> Hr]|(ds & Hds & H)]; [by left| |apply silent_deletes].
  apply silent_then in H as [[-> Hr]|(rs & Hrs & H)]; [by left| |apply silent_writes].
  apply silent_then in H as [[-> Hr]|(us & Hus & H)]; [by left| |apply silent_writes].
  right. exists ds, rs, us, v. unfold mbind, SM_bind, TranslUtils.record, modify in H.
  destruct (translibBulk (ds ++ rs ++ us)) as [resp err] eqn:E. injection H as <- <-.
  split; [done|]. split; [by eapply deletes_ok|]. split; [by eapply writes_ok|]. split; [by eapply writes_ok|]. cbn [fst].
  assert (omap id resp = [] <-> Forall (fun e => e = None) resp) as Ho.
  { clear E. induction resp as [|[e|] resp IH]; cbn.
    - by split.
    - split; [done|]. by intros [? _]%Forall_cons.
    - rewrite Forall_cons. split; [intros Hx; split; [done|by apply IH]|]. intros [_ Hx]. by apply IH. }
  unfold bulkErrors. destruct err as [e|]; destruct (omap id resp) as [|x xs]; split; try done.
  - by intros [[=] _].
  - by intros [[=] _].
  - intros _. split; [done|]. by apply Ho.
  - intros [_ Hf%Ho]. done.
Qed.

(** A Set of one replace does not look at the type of its value: one that is not JSON_IETF
    is sent to translib without a payload, while a bulk request refuses it. *)
Theorem single_replace_untyped prefix u rc l uri : converts prefix (upd_path u) uri -> bundleVersion rc = None ->
  match upd_val u with Some (JsonIetfVal _) => False | _ => True end ->
  (TranslSet prefix [] [u] [] rc l).2 = l ++ [CallSet (mkSet REPLACE uri None (user rc) (roles rc) (authEnabled rc) None)] /\
  forall d, ~ exists l', TranslSet prefix [] [u; d] [] rc l = (Some (Ok tt), l').
Proof.
  intros Hc Hv Hu. split.
  - cbn [TranslUtils.TranslSet length Nat.add Nat.ltb Nat.leb]. unfold TranslProcessReplace, orReturn, mbind, SM_bind. rewrite Hc.
    unfold clientVersion. rewrite Hv. cbn. unfold jsonPayload. by destruct (upd_val u) as [[]|].
  - intros d [l' H]. cbn in H. apply orReturn_ok in H as (v & l1 & _ & H). apply orReturn_ok in H as (ds & l2 & _ & H).
    apply orReturn_ok in H as (rs & l3 & H & _). apply writes_ok in H. inversion H as [|? ? ? ? (? & ? & _ & E & _)]; subst. by rewrite E in Hu.
Qed.
End set_proofs.

(** ** Streaming *)

Lemma i64_small z : (- 2 ^ 63 <= z < 2 ^ 63)%Z -> i64 z = z.
Proof. intros H. unfold i64. rewrite Z.mod_small; lia. Qed.

Lemma i64_range z : (- 2 ^ 63 <= i64 z < 2 ^ 63)%Z.
Proof. unfold i64. pose proof (Z.mod_pos_bound (z + 2 ^ 63) (2 ^ 64)). lia. Qed.

Lemma u64_small z : (0 <= z < 2 ^ 64)%Z -> u64 z = z.
Proof. intros H. unfold u64. by apply Z.mod_small. Qed.

(** A timer of an interval. *)
Definition hasTimer (timers : gmap Z (list ticker_info)) (i : Z) (t : ticker_info) : Prop := exists ts, timers !! i = Some ts /\ t ∈ ts.

Lemma hasTimer_add timers i sub p hb j t : hasTimer (addTimer timers i sub p hb) j t <->
  (j = i /\ t = mkTicker None p (sub_SuppressRedundant sub) hb) \/ hasTimer timers j t.
Proof.
  unfold hasTimer, addTimer. destruct (decide (j = i)) as [->|Hne].
  - destruct (timers !! i) as [ts|] eqn:E; rewrite lookup_insert_eq; split.
    + intros (ts' & [= <-] & [?| ->%list_elem_of_singleton]%elem_of_app); [right; by exists ts|by left].
    + intros [[_ ->]|(ts' & [= ->] & Ht)]; eexists; (split; [done|]); rewrite elem_of_app, list_elem_of_singleton; auto.
    + intros (ts' & [= <-] & ->%list_elem_of_singleton). by left.
    + intros [[_ ->]|(ts' & [=] & _)]. eexists. split; [done|]. by apply list_elem_of_singleton.
  - assert (forall x, (match timers !! i with Some ts => <[i := ts ++ [x]]> timers | None => <[i := [x]]> timers end) !! j = timers !! j) as E
      by (intros x; destruct (timers !! i); by rewrite lookup_insert_ne).
    rewrite E. naive_solver.
Qed.

Section stream_proofs.
Context (MinSubscribeInterval : Z) (subs : list Subscription) (updatesOnly : bool).

#[local] Abbreviation least p := (minInterval MinSubscribeInterval p * second)%Z.

(** Requests in range: the minimum fits, the heartbeats fit a signed 64-bit number. *)
Definition inRange (p : PathInfo) : Prop := (0 < least p < 2 ^ 63)%Z /\
  forall sub, subs !! pi_ID p = Some sub -> (0 <= sub_HeartbeatInterval sub < 2 ^ 63)%Z.

(** The set-up of the paths [done]. *)
Record streamsOk (done : list PathInfo) (s : Streams) : Prop := {
  st_paths : map fst (str_samples s) ++ str_onChange s ≡ₚ map pi_Path done;
  st_sampled : forall path f, (path, f) ∈ str_samples s -> exists i t, hasTimer (str_timers s) i t /\ tk_pathStr t = path /\ tk_heartbeat t = false;
  st_least : forall i t, hasTimer (str_timers s) i t -> exists p, p ∈ done /\ tk_pathStr t = pi_Path p /\ (least p <= i)%Z
}.

Lemma heartbeat_least p sub : inRange p -> subs !! pi_ID p = Some sub -> (0 < sub_HeartbeatInterval sub)%Z ->
  (sub_HeartbeatInterval sub <? u64 (u64 (minInterval MinSubscribeInterval p) * second))%Z = false ->
  (least p <= i64 (sub_HeartbeatInterval sub))%Z.
Proof using Type.
  intros [Hl Hh] Hsub Hpos Hlt. specialize (Hh _ Hsub). apply Z.ltb_ge in Hlt. unfold second in *.
  rewrite (u64_small (minInterval _ p)), u64_small in Hlt by lia. rewrite i64_small; lia.
Qed.

Lemma least_weaken done p timers : (forall i t, hasTimer timers i t -> exists q, q ∈ done /\ tk_pathStr t = pi_Path q /\ (least q <= i)%Z) ->
  forall i t, hasTimer timers i t -> exists q, q ∈ done ++ [p] /\ tk_pathStr t = pi_Path q /\ (least q <= i)%Z.
Proof using Type. intros H i t Ht. destruct (H _ _ Ht) as (q & ? & ?). exists q. split; [apply elem_of_app; by left|done]. Qed.

Lemma least_add done p sub hb i0 timers : (least p <= i0)%Z ->
  (forall i t, hasTimer timers i t -> exists q, q ∈ done ++ [p] /\ tk_pathStr t = pi_Path q /\ (least q <= i)%Z) ->
  forall i t, hasTimer (addTimer timers i0 sub (pi_Path p) hb) i t -> exists q, q ∈ done ++ [p] /\ tk_pathStr t = pi_Path q /\ (least q <= i)%Z.
Proof using Type.
  intros Hi H i t [[-> ->]|Ht]%hasTimer_add; [|by apply H]. exists p. split; [|done]. rewrite elem_of_app, list_elem_of_singleton. by right.
Qed.

Lemma streamPath_ok done s p s' : streamsOk done s -> inRange p -> streamPath MinSubscribeInterval subs updatesOnly s p = Ok s' -> streamsOk (done ++ [p]) s'.
Proof using Type.
  intros [H1 H2 H3] Hr. unfold streamPath. destruct (subs !! pi_ID p) as [sub|] eqn:Es; [|done]. destruct (streamMode sub p) as [mode|] eqn:Em; [|done].
  destruct ((0 <? sub_HeartbeatInterval sub)%Z && _) eqn:Eh; [done|].
  assert ((0 <? sub_HeartbeatInterval sub)%Z = true -> (least p <= i64 (sub_HeartbeatInterval sub))%Z) as Hhb.
  { intros Hp. rewrite Hp in Eh. cbn in Eh. apply Z.ltb_lt in Hp. by apply (heartbeat_least p sub). }
  pose proof (least_weaken done p _ H3) as H3'. destruct mode as [| | |n]; [by unfold streamMode in Em; repeat case_match|..].
  - intros [= <-]. split; cbn.
    + rewrite map_app, app_assoc, H1. done.
    + intros path f Hin. destruct (H2 _ _ Hin) as (i & t & Ht & Hp). exists i, t. split; [|done]. destruct (0 <? _)%Z; [apply hasTimer_add; by right|done].
    + destruct (0 <? _)%Z; [apply least_add; auto|done].
  - destruct (negb _ && _) eqn:Ei; [done|]. intros [= <-].
    set (interval := if (i64 (sub_SampleInterval sub) =? 0)%Z then _ else _).
    assert (least p <= interval)%Z as Hint.
    { destruct Hr as [Hl _]. unfold interval. rewrite (i64_small (least p)) in * by lia.
      destruct (Z.eqb_spec (i64 (sub_SampleInterval sub)) 0); [lia|]. cbn in Ei. apply Z.ltb_ge in Ei. lia. }
    set (timers := addTimer (str_timers s) interval sub (pi_Path p) false).
    assert (forall T i t, hasTimer T i t -> hasTimer (if sub_SuppressRedundant sub && (0 <? sub_HeartbeatInterval sub)%Z
      then addTimer T (i64 (sub_HeartbeatInterval sub)) sub (pi_Path p) true else T) i t) as Hkeep.
    { intros T i t Ht. destruct (sub_SuppressRedundant sub && (0 <? sub_HeartbeatInterval sub)%Z); [apply hasTimer_add; by right|done]. }
    split; cbn.
    + rewrite !map_app, <- H1. cbn. solve_Permutation.
    + intros path f [Hin|[= -> ->]%list_elem_of_singleton]%elem_of_app.
      * destruct (H2 _ _ Hin) as (i & t & Ht & Hp). exists i, t. split; [|done]. apply Hkeep, hasTimer_add. by right.
      * exists interval. eexists. split; [apply Hkeep, hasTimer_add; by left|done].
    + destruct (sub_SuppressRedundant sub && (0 <? sub_HeartbeatInterval sub)%Z) eqn:Eb.
      * apply andb_prop in Eb as [_ Eb]. apply least_add; [by apply Hhb|]. by apply least_add.
      * by apply least_add.
  - by unfold streamMode in Em; repeat case_match.
Qed.

(** Once a stream is set up, every subscribed path is served exactly once, on change or
    by samples; a sampled path has a timer; and no timer, heartbeats included, runs faster
    than the minimum interval of its path. *)
Theorem stream_timers_bounded infos s : Forall inRange infos -> streamPaths MinSubscribeInterval subs updatesOnly infos = Ok s -> streamsOk infos s.
Proof using Type.
  unfold streamPaths. revert s. induction infos as [|p infos IH] using rev_ind; intros s Hr H.
  - injection H as <-. split; cbn; [done|by intros path f ?%not_elem_of_nil|]. intros i t (ts & E & _). by rewrite lookup_empty in E.
  - rewrite foldM_app in H. apply Forall_app in Hr as [Hr [Hp _]%Forall_cons].
    destruct (foldM _ _ infos) as [s1|] eqn:E; [|done]. cbn in H. destruct (streamPath _ _ _ s1 p) as [s2|] eqn:Ep; [|done]. injection H as <-.
    eapply streamPath_ok; [by apply IH|done|done].
Qed.

(** A heartbeat interval of 2^63 nanoseconds or more passes the check and becomes a
    negative interval, for which a ticker cannot be made. *)
Theorem heartbeat_overflow p sub s : subs !! pi_ID p = Some sub -> (0 < least p < 2 ^ 63)%Z -> (2 ^ 63 <= sub_HeartbeatInterval sub < 2 ^ 64)%Z ->
  sub_Mode sub = ON_CHANGE -> pi_IsOnChangeSupported p = true ->
  exists s', streamPath MinSubscribeInterval subs updatesOnly s p = Ok s' /\ exists i t, hasTimer (str_timers s') i t /\ (i < 0)%Z.
Proof using Type.
  intros Hs Hl Hh Hm Hc. unfold streamPath. rewrite Hs. unfold streamMode. rewrite Hm, Hc.
  assert ((sub_HeartbeatInterval sub <? u64 (u64 (minInterval MinSubscribeInterval p) * second))%Z = false) as ->.
  { unfold second in *. rewrite (u64_small (minInterval _ p)), u64_small by lia. apply Z.ltb_ge. lia. }
  rewrite (proj2 (Z.ltb_lt 0 _)) by lia. cbn. eexists. split; [done|]. cbn. exists (i64 (sub_HeartbeatInterval sub)). eexists.
  split; [apply hasTimer_add; by left|]. unfold i64. replace ((sub_HeartbeatInterval sub + 2 ^ 63) mod 2 ^ 64)%Z with (sub_HeartbeatInterval sub + 2 ^ 63 - 2 ^ 64)%Z; [lia|].
  apply Z.mod_unique with (q := 1%Z); lia.
Qed.
End stream_proofs.

(** ** The select *)

(** Timers as [populateTickers] leaves them: every interval has timers, and they have
    tickers. *)
Definition populated (order : list (Z * list ticker_info)) : Prop := Forall (fun x => exists t ts tk, x.2 = t :: ts /\ tk_t t = Some tk) order.

Lemma selectTickers_ok order : populated order -> forall cases index, dom index = set_seq 0 (length cases) ->
  exists cases' index', selectTickers order cases index = Some (cases ++ cases', index') /\ length cases' = length order /\
    dom index' = set_seq (C := gset nat) 0 (length (cases ++ cases')) /\
    (forall i, i < length cases -> index' !! i = index !! i) /\
    (forall i x, order !! i = Some x -> index' !! (length cases + i) = Some x.1 /\ exists t ts tk, x.2 = t :: ts /\ tk_t t = Some tk /\ cases' !! i = Some (RecvTicker tk)).
Proof.
  induction 1 as [|[interval tickers] order (t & ts & tk & Ht & Htk) Hall IH]; intros cases index Hdom.
  { exists [], index. rewrite app_nil_r. cbn. by split. }
  cbn in Ht. subst tickers. cbn [selectTickers]. rewrite Htk.
  destruct (IH (cases ++ [RecvTicker tk]) (<[length cases := interval]> index)) as (cases' & index' & E & Hl & Hd & Hold & Hnew).
  { rewrite dom_insert_L, Hdom, length_app. cbn. rewrite Nat.add_1_r, set_seq_S_end_union_L. set_solver. }
  exists (RecvTicker tk :: cases'), index'. rewrite <- app_assoc in E, Hd. cbn in E, Hd. split; [done|]. split; [cbn; by rewrite Hl|]. split; [done|].
  rewrite length_app in Hold, Hnew. cbn in Hold, Hnew. split.
  - intros i Hi. rewrite Hold by lia. by rewrite lookup_insert_ne by lia.
  - intros [|i] x Hx; cbn in Hx.
    + injection Hx as <-. rewrite Nat.add_0_r, Hold by lia. rewrite lookup_insert_eq. split; [done|]. by exists t, ts, tk.
    + destruct (Hnew _ _ Hx) as [H1 H2]. split; [|done]. rewrite <- H1. f_equal. lia.
Qed.

(** The cases of the sampling loop's select and its index agree with the timers: the case
    at the position of an interval receives from that interval's ticker and is looked up as
    that interval; the last case, and no other, is the stop channel and ends the loop. *)
Theorem select_cases_match order : populated order -> exists cases index, buildSelectCases order = Some (cases, index) /\
  length cases = S (length order) /\ cases !! length order = Some RecvStop /\
  (forall timers ok disposed, streamTurn timers index (length order) ok disposed = None) /\
  (forall i x, order !! i = Some x -> index !! i = Some x.1 /\ (exists t ts tk, x.2 = t :: ts /\ tk_t t = Some tk /\ cases !! i = Some (RecvTicker tk)) /\
    forall timers, streamTurn timers index i true false = Some (map (fun t => (tk_pathStr t, negb (tk_heartbeat t) && tk_suppress t)) (default [] (timers !! x.1)))).
Proof.
  intros Hp. destruct (selectTickers_ok order Hp [] ∅) as (cases & index & E & Hl & Hd & _ & Hnew); [by rewrite dom_empty_L|].
  unfold buildSelectCases. rewrite E. cbn [app] in *. exists (cases ++ [RecvStop]), index.
  assert (size index = length order) as Hsize by (rewrite <- size_dom, Hd, size_set_seq; done).
  split; [done|]. split; [rewrite length_app; cbn; lia|]. split; [by rewrite <- Hl, list_lookup_middle|]. split.
  - intros timers ok disposed. unfold streamTurn. rewrite Hsize, Nat.leb_refl. by destruct ok.
  - intros i x Hx. destruct (Hnew i x Hx) as [Hi (t & ts & tk & Ht & Htk & Hc)]. cbn in Hi. split; [done|]. split.
    + exists t, ts, tk. split; [done|]. split; [done|]. by rewrite lookup_app_l by (by eapply lookup_lt_Some).
    + intros timers. unfold streamTurn. rewrite Hsize, Hi. apply lookup_lt_Some in Hx. rewrite (proj2 (Nat.leb_gt _ _) Hx). done.
Qed.

(** ** Values and versions *)

(** For the encodings it supports, [buildValueForGet] gives a value whenever it gives no
    error. *)
Theorem value_for_get below now prefix path enc tv tree r : buildValueForGet below now prefix path enc tv tree = Some (Ok r) -> is_Some r.
Proof.
  unfold buildValueForGet. destruct (buildValue below prefix path enc tv tree) as [[[v|]|e]|]; [intros [= <-]; eauto| |done..].
  destruct enc; try done; intros [= <-]; eauto.
Qed.

(** The test of [parseVersion] is the wrong way round: a request with a bundle version that
    parses is refused, one whose version does not parse is served. *)
Theorem parse_version_inverted {Version} (NewVersion : string -> Version * bool) exts bv v failed : getBundleVersion exts = Some bv ->
  NewVersion bv = (v, failed) -> parseVersion NewVersion exts = if failed then Ok (Some v) else Err tt.
Proof. intros E1 E2. unfold parseVersion. by rewrite E1, E2. Qed.

(** Each poll is answered by the samples of all paths and one sync message; the first one of
    a subscription to updates only by the sync message alone. *)
Theorem poll_rounds sample round rounds synced updatesOnly paths :
  pollRounds sample round rounds synced updatesOnly paths =
  concat (map (fun k => (if (synced || (round <? k)) || negb updatesOnly then concat (map (sample k) paths) else []) ++ [MSync]) (seq round rounds)) ++ [MFatal FatalEmpty].
Proof.
  revert round synced. induction rounds as [|rounds IH]; intros round synced; [done|]. cbn [pollRounds seq map concat].
  rewrite IH, Nat.ltb_irrefl, orb_false_r, <- !app_assoc. do 3 f_equal. f_equal. apply map_ext_in. intros k [Hk _]%in_seq.
  rewrite (proj2 (Nat.ltb_lt round k)) by lia. by rewrite orb_true_r.
Qed.

(** ** Witnesses *)

Definition demo_process (n : nat) : res string nat := if n =? 3 then Err "three" else Ok (10 * n).

Lemma get_answers_all_witness : exists s, rtc (getStep demo_process) (getStart true [1; 2]) s /\ getDone s /\
  match getResult s with Ok vs => exists order, order ≡ₚ [1; 2] /\ Forall2 (fun x v => demo_process x = Ok v) order vs | Err es => es <> [] end.
Proof.
  assert (rtc (getStep demo_process) (getStart true [1; 2]) (mkGet [] [] 0 [20; 10] [])) as Hr.
  { eapply rtc_l; [apply get_take|]. eapply rtc_l; [apply get_take|].
    eapply rtc_l; [apply (get_value _ _ [] 2 [1] 0 [] [] 20 eq_refl)|]. eapply rtc_l; [apply (get_value _ _ [] 1 [] 1 [20] [] 10 eq_refl)|].
    eapply rtc_l; [apply get_exit|]. eapply rtc_l; [apply get_exit|]. apply rtc_refl. }
  exists (mkGet [] [] 0 [20; 10] []). split; [exact Hr|]. split; [split; reflexivity|].
  exact (get_answers_all demo_process true [1; 2] _ Hr (conj eq_refl eq_refl)).
Defined.

Definition demo_rc : Caller := mkCaller "admin" ["admin"] true None.
Definition demo_path (n : string) : Path := mkPath "" "" [ename n].
Abbreviation demo_set := (TranslSet (Version := nat) (fun _ => None) (fun _ p => p) (fun p => Some (str_join (map elem_name (path_elem p)) "/"))
  (fun _ => None) (fun es => (map (fun _ => None) es, None)) None [demo_path "a"]
  [mkUpdate (Some (demo_path "b")) (Some (JsonIetfVal "1"))] [mkUpdate (Some (demo_path "c")) (Some (JsonIetfVal "2"))] demo_rc []).

Lemma set_bulk_once_witness : demo_set = (Some (Ok tt), [CallBulk [mkEntry DELETE "a" None; mkEntry REPLACE "b" (Some "1"); mkEntry UPDATE "c" (Some "2")] "admin" ["admin"] true None]) /\
  exists ds rs us v, (demo_set).2 = [CallBulk (ds ++ rs ++ us) "admin" ["admin"] true v] /\ length ds = 1 /\ length rs = 1 /\ length us = 1.
Proof.
  assert (demo_set = (Some (Ok tt), [CallBulk [mkEntry DELETE "a" None; mkEntry REPLACE "b" (Some "1"); mkEntry UPDATE "c" (Some "2")] "admin" ["admin"] true None])) as E
    by (vm_compute; reflexivity).
  split; [exact E|].
  pose proof (fun Hn => set_bulk_once (fun _ => None) (fun _ p => p) _ (fun _ => None) _ None [demo_path "a"] _ _ demo_rc [] _ _ Hn E) as H.
  destruct (H ltac:(cbn; lia)) as [[_ Hr]|(ds & rs & us & v & El & Hd & Hr & Hu & _)]; [contradiction Hr; reflexivity|].
  exists ds, rs, us, v. rewrite E. split; [exact El|]. apply Forall2_length in Hd, Hr, Hu. split; [symmetry; exact Hd|]. split; [symmetry; exact Hr|symmetry; exact Hu].
Defined.

Definition demo_subs : list Subscription := [mkSub SAMPLE 0 60000000000 true; mkSub TARGET_DEFINED 0 30000000000 false].
Definition demo_pathInfos : list PathInfo := [mkInfo 0 "/a" false false false 20; mkInfo 1 "/b" false true true 0].

Lemma stream_timers_bounded_witness : exists s, streamPaths 20 demo_subs false demo_pathInfos = Ok s /\ streamsOk 20 demo_pathInfos s /\
  dom (str_timers s) = {[20000000000%Z; 30000000000%Z; 60000000000%Z]}.
Proof.
  assert (exists s, streamPaths 20 demo_subs false demo_pathInfos = Ok s /\ dom (str_timers s) = {[20000000000%Z; 30000000000%Z; 60000000000%Z]}) as (s & E & Ed)
    by (eexists; split; [vm_compute; reflexivity|vm_compute; reflexivity]).
  exists s. split; [exact E|]. split; [|exact Ed]. apply (stream_timers_bounded 20 demo_subs false); [|exact E].
  apply Forall_cons. split; [split; [unfold minInterval, second; cbn; lia|intros sub [= <-]; cbn; lia]|].
  apply Forall_cons. split; [split; [unfold minInterval, second; cbn; lia|intros sub [= <-]; cbn; lia]|]. apply Forall_nil. exact I.
Defined.

Definition demo_order : list (Z * list ticker_info) :=
  [(20%Z, [mkTicker (Some (0, 20%Z)) "/a" false false]); (60%Z, [mkTicker (Some (0, 60%Z)) "/a" true true])].

Lemma select_cases_match_witness : exists cases index, buildSelectCases demo_order = Some (cases, index) /\ cases !! 2 = Some RecvStop /\ index !! 1 = Some 60%Z.
Proof.
  destruct (select_cases_match demo_order) as (cases & index & E & _ & Hs & _ & Hi).
  - apply Forall_cons. split; [do 3 eexists; split; reflexivity|]. apply Forall_cons. split; [do 3 eexists; split; reflexivity|]. apply Forall_nil. exact I.
  - exists cases, index. split; [exact E|]. split; [exact Hs|]. exact (proj1 (Hi 1 (60%Z, [mkTicker (Some (0, 60%Z)) "/a" true true]) eq_refl)).
Defined.
