(* ===== verification/DpuProxy.v ===== *)
(** Routing of requests to the data processing units of a switch: the interceptor chain
    (src/pkg/interceptors: interceptor.go, setup.go) and the DPU proxy
    (src/pkg/interceptors/dpuproxy: metadata.go, resolver.go, redis.go, proxy.go).

    The metadata of a request, the lookup of a DPU in Redis, the registry of methods, the
    cache of connections, the forwarding of unary and streaming calls, and the two
    interceptors.  Connections are addresses in a heap, so that a cached connection, a
    closed one and a leaked one can be told apart.  The cache is also a step relation
    ([Pool]) in which any number of calls interleave at the lock operations and at every
    access to the maps.

    Parameters: the replies of Redis, what happens when a connection is created and tested,
    what a DPU answers, and the local handler of a method. *)

From S2P Require Import Prelude GnmiTypes FileService.
Import FileService.FileService.

Module DpuProxy.

(** * Metadata *)

Definition MetadataKeyTargetType : string := "x-sonic-ss-target-type".
Definition MetadataKeyTargetIndex : string := "x-sonic-ss-target-index".
Definition TargetTypeDPU : string := "dpu".

(** The incoming metadata of a context; [None]: the context has none. *)
Definition MD : Type := option (gmap string (list string)).

Record TargetMetadata := mkTarget {
  TargetType : string;
  TargetIndex : string;
  HasMetadata : bool
}.

Definition ExtractTargetMetadata (ctx : MD) : TargetMetadata :=
  match ctx with
  | None => mkTarget "" "" false
  | Some md =>
      let targetType := match md !! MetadataKeyTargetType with Some (v :: _) => v | _ => "" end in
      let targetIndex := match md !! MetadataKeyTargetIndex with Some (v :: _) => v | _ => "" end in
      mkTarget targetType targetIndex (negb (String.eqb targetType "") || negb (String.eqb targetIndex ""))
  end.

Definition IsDPUTarget (tm : TargetMetadata) : bool :=
  HasMetadata tm && String.eqb (TargetType tm) TargetTypeDPU.

(** * Resolver *)

Definition DefaultGNMIPort : string := "50052".
Definition ChassisMidplaneTablePrefix : string := "CHASSIS_MIDPLANE_TABLE|DPU".
Definition DPUConfigTablePrefix : string := "DPU|dpu".

Record DPUInfo := mkDPUInfo {
  Index : string;
  IPAddress : string;
  Reachable : bool;
  GNMIPort : string;
  GNMIPortsToTry : list string
}.

(** [RedisClient]: [HGetAll] of a key, [None] when the query fails. *)
Definition RedisClient : Type := string -> option (gmap string string).

Record DPUResolver := mkResolver {
  stateClient : RedisClient;
  configClient : RedisClient
}.

Inductive ResolveErr := ErrQueryState | ErrNotInState | ErrNoIPAddress | ErrQueryConfig.

Definition commonGNMIPorts : list string := ["8080"; "50052"].

Definition portsFor (gnmiPort : string) : list string :=
  gnmiPort :: filter (fun commonPort => commonPort <> gnmiPort) commonGNMIPorts.

Definition GetDPUInfo (r : DPUResolver) (dpuIndex : string) : res ResolveErr DPUInfo :=
  match stateClient r (ChassisMidplaneTablePrefix +:+ dpuIndex) with
  | None => Err ErrQueryState
  | Some stateFields =>
      if decide (stateFields = ∅) then Err ErrNotInState
      else
        let ipAddr := default "" (stateFields !! "ip_address") in
        if String.eqb ipAddr "" then Err ErrNoIPAddress
        else
          let reachable := bool_decide (stateFields !! "access" = Some "True") in
          match configClient r (DPUConfigTablePrefix +:+ dpuIndex) with
          | None => Err ErrQueryConfig
          | Some configFields =>
              let port := default "" (configFields !! "gnmi_port") in
              let gnmiPort := if String.eqb port "" then DefaultGNMIPort else port in
              Ok (mkDPUInfo dpuIndex ipAddr reachable gnmiPort (portsFor gnmiPort))
          end
  end.

(** * Registry of methods *)

Inductive ForwardingMode := ForwardToDPU | HandleLocally.

#[global] Instance ForwardingMode_eq_dec : EqDecision ForwardingMode.
Proof. solve_decision. Defined.

Record ForwardableMethod := mkMethod { FullMethod : string; Mode : ForwardingMode }.

Definition mTime : string := "/gnoi.system.System/Time".
Definition mPut : string := "/gnoi.file.File/Put".
Definition mTransferToRemote : string := "/gnoi.file.File/TransferToRemote".
Definition mReboot : string := "/gnoi.system.System/Reboot".
Definition mSetPackage : string := "/gnoi.system.System/SetPackage".
Definition mVerify : string := "/gnoi.os.OS/Verify".
Definition mActivate : string := "/gnoi.os.OS/Activate".

Definition defaultForwardableMethods : list ForwardableMethod :=
  [mkMethod mTime ForwardToDPU; mkMethod mPut ForwardToDPU; mkMethod mTransferToRemote HandleLocally;
   mkMethod mReboot HandleLocally; mkMethod mSetPackage ForwardToDPU; mkMethod mVerify ForwardToDPU;
   mkMethod mActivate ForwardToDPU;
   mkMethod "/grpc.reflection.v1.ServerReflection/ServerReflectionInfo" HandleLocally;
   mkMethod "/grpc.reflection.v1alpha.ServerReflection/ServerReflectionInfo" HandleLocally].

Fixpoint findMode (l : list ForwardableMethod) (method : string) : option ForwardingMode :=
  match l with
  | [] => None
  | m :: l => if String.eqb (FullMethod m) method then Some (Mode m) else findMode l method
  end.

Definition getForwardingMode (method : string) : option ForwardingMode :=
  findMode defaultForwardableMethods method.

(** * The cache of connections *)

(** A [grpc.ClientConn]. *)
Record Conn := mkConn { target : string; open : bool }.

(** The fields of [DPUProxy] that change, with the connections that were made. *)
Record Proxy := mkProxy {
  conns : gmap string nat;
  connPorts : gmap string string;
  heap : list Conn
}.

Definition NewDPUProxy : Proxy := mkProxy ∅ ∅ [].

(** What happens at a target: [grpc.NewClient] refuses it, or the test RPC ends with a
    status ([None]: no error). *)
Inductive Dial := NewClientErr | Tested (status : option Code).

Definition hostPort (ip port : string) : string := ip +:+ ":" +:+ port.

(** [grpc.NewClient] makes the next connection. *)
Definition newClient (tgt : string) (p : Proxy) : nat * Proxy :=
  (length (heap p), mkProxy (conns p) (connPorts p) (heap p ++ [mkConn tgt true])).

(** [conn.Close] *)
Definition closeConn (c : nat) (p : Proxy) : Proxy :=
  mkProxy (conns p) (connPorts p) (alter (fun x => mkConn (target x) false) c (heap p)).

(** The test passes unless it ends with [Unavailable]. *)
Definition testPasses (s : option Code) : bool := negb (bool_decide (s = Some Unavailable)).

Definition storeConn (dpuIndex : string) (c : nat) (p : Proxy) : Proxy :=
  mkProxy (<[dpuIndex := c]> (conns p)) (connPorts p) (heap p).
Definition storePort (dpuIndex port : string) (p : Proxy) : Proxy :=
  mkProxy (conns p) (<[dpuIndex := port]> (connPorts p)) (heap p).

(** The loop over the ports. *)
Fixpoint tryPorts (dial : string -> Dial) (dpuIndex ipAddress : string) (portsToTry : list string) (p : Proxy)
    : option nat * Proxy :=
  match portsToTry with
  | [] => (None, p)
  | port :: ports =>
      let tgt := hostPort ipAddress port in
      match dial tgt with
      | NewClientErr => tryPorts dial dpuIndex ipAddress ports p
      | Tested st =>
          let '(c, p) := newClient tgt p in
          if testPasses st then (Some c, storePort dpuIndex port (storeConn dpuIndex c p))
          else tryPorts dial dpuIndex ipAddress ports (closeConn c p)
      end
  end.

(** A call that no other call interleaves with. *)
Definition getConnection (dial : string -> Dial) (dpuIndex ipAddress : string) (portsToTry : list string) (p : Proxy)
    : option nat * Proxy :=
  match conns p !! dpuIndex with
  | Some c => (Some c, p)
  | None => tryPorts dial dpuIndex ipAddress portsToTry p
  end.

(** [DPUProxy.GetDPUConnection]; a status code where the error is one. *)
Inductive ConnErr := ErrNoResolver | ErrResolve (e : ResolveErr) | ErrNotReachable | ErrNoPort.

Definition GetDPUConnection (resolver : option DPUResolver) (dial : string -> Dial) (dpuIndex : string) (p : Proxy)
    : res ConnErr nat * Proxy :=
  match resolver with
  | None => (Err ErrNoResolver, p)
  | Some r =>
      match GetDPUInfo r dpuIndex with
      | Err e => (Err (ErrResolve e), p)
      | Ok info =>
          if negb (Reachable info) then (Err ErrNotReachable, p)
          else
            match getConnection dial (Index info) (IPAddress info) (GNMIPortsToTry info) p with
            | (Some c, p) => (Ok c, p)
            | (None, p) => (Err ErrNoPort, p)
            end
      end
  end.

(** * Concurrent calls of [getConnection] *)

Module Pool.

(** Where a call is.  Between [RUnlock] and [Lock] it holds nothing; from [Locked] to
    [Unlocking] it holds the write lock. *)
Inductive PC :=
| Start
| Missed
| Locked
| Trying (ports : list string)
| Testing (port : string) (c : nat) (ports : list string)
| Storing (port : string) (c : nat)
| Closing (c : nat) (ports : list string)
| Unlocking (r : option nat)
| Returned (r : option nat)
| PortRead (r : option nat).

(** A call: the DPU, its address and ports, and where it is. *)
Record Call := mkCall { dpu : string; ip : string; allPorts : list string; pc : PC }.

(** The proxy, the holder of the write lock, and the calls. *)
Record St := mkSt { proxy : Proxy; writer : option nat; calls : list Call }.

Definition at_ (t : nat) (k : Call) (s : St) : Prop := calls s !! t = Some k.

Definition goto (k : Call) (l : PC) : Call := mkCall (dpu k) (ip k) (allPorts k) l.

Definition upd (t : nat) (k : Call) (l : PC) (p : Proxy) (w : option nat) (s : St) : St :=
  mkSt p w (<[t := goto k l]> (calls s)).

Inductive step (s : St) : St -> Prop :=
(* RLock, lookup, RUnlock *)
| SHit t k c :
    at_ t k s -> pc k = Start -> writer s = None -> conns (proxy s) !! dpu k = Some c ->
    step s (upd t k (Returned (Some c)) (proxy s) None s)
| SMiss t k :
    at_ t k s -> pc k = Start -> writer s = None -> conns (proxy s) !! dpu k = None ->
    step s (upd t k Missed (proxy s) None s)
(* Lock *)
| SLock t k :
    at_ t k s -> pc k = Missed -> writer s = None ->
    step s (upd t k Locked (proxy s) (Some t) s)
(* the second lookup *)
| SFound t k c :
    at_ t k s -> pc k = Locked -> conns (proxy s) !! dpu k = Some c ->
    step s (upd t k (Unlocking (Some c)) (proxy s) (writer s) s)
| SNotFound t k :
    at_ t k s -> pc k = Locked -> conns (proxy s) !! dpu k = None ->
    step s (upd t k (Trying (allPorts k)) (proxy s) (writer s) s)
(* the loop over the ports *)
| SRefused t k port ports :
    at_ t k s -> pc k = Trying (port :: ports) ->
    step s (upd t k (Trying ports) (proxy s) (writer s) s)
| SNewClient t k port ports :
    at_ t k s -> pc k = Trying (port :: ports) ->
    step s (upd t k (Testing port (newClient (hostPort (ip k) port) (proxy s)).1 ports)
              (newClient (hostPort (ip k) port) (proxy s)).2 (writer s) s)
| SPassed t k port c ports st :
    at_ t k s -> pc k = Testing port c ports -> testPasses st = true ->
    step s (upd t k (Storing port c) (storeConn (dpu k) c (proxy s)) (writer s) s)
| SStorePort t k port c :
    at_ t k s -> pc k = Storing port c ->
    step s (upd t k (Unlocking (Some c)) (storePort (dpu k) port (proxy s)) (writer s) s)
| SFailed t k port c ports st :
    at_ t k s -> pc k = Testing port c ports -> testPasses st = false ->
    step s (upd t k (Closing c ports) (proxy s) (writer s) s)
| SClose t k c ports :
    at_ t k s -> pc k = Closing c ports ->
    step s (upd t k (Trying ports) (closeConn c (proxy s)) (writer s) s)
| SExhausted t k :
    at_ t k s -> pc k = Trying [] ->
    step s (upd t k (Unlocking None) (proxy s) (writer s) s)
(* the deferred Unlock *)
| SUnlock t k r :
    at_ t k s -> pc k = Unlocking r ->
    step s (upd t k (Returned r) (proxy s) None s)
(* the interceptors read connPorts, without the lock, when there is a connection *)
| SPortRead t k c :
    at_ t k s -> pc k = Returned (Some c) ->
    step s (upd t k (PortRead (Some c)) (proxy s) (writer s) s).

(** Any number of calls, with no connection made yet. *)
Definition initial (ks : list Call) : St := mkSt NewDPUProxy None ks.

Definition fresh (k : Call) : Prop := pc k = Start.

(** A call has left [getConnection], with a result. *)
Definition returned (k : Call) (r : option nat) : Prop := pc k = Returned r \/ pc k = PortRead r.

(** A call is done: it has returned without a connection, or has read the port. *)
Definition done (k : Call) : bool :=
  match pc k with Returned None | PortRead _ => true | _ => false end.

(** The next access of a call to [connPorts], with the lock or without. *)
Definition writesPorts (k : Call) : Prop := exists port c, pc k = Storing port c.
Definition readsPorts (k : Call) : Prop := exists c, pc k = Returned (Some c).

End Pool.

(** * Forwarding *)

(** The dynamic type of a request, as the type assertions see it, and its contents. *)
Inductive ReqType := TimeRequest | VerifyRequest | ActivateRequest | OtherRequest (name : string).

#[global] Instance ReqType_eq_dec : EqDecision ReqType.
Proof. solve_decision. Defined.

Record AnyReq := mkReq { reqType : ReqType; reqBody : string }.

(** A call that reached a DPU: where the connection leads, the method, the request. *)
Record Sent := mkSent { sentTo : string; sentMethod : string; sentReq : AnyReq }.

Section Unary.
Context {W Resp : Type}.

(** What is at the other end of a target, for each method. *)
Variable remote : string -> string -> AnyReq -> res Code Resp.

(** The proxy, the state of the server behind the interceptor, and what DPUs received. *)
Record World := mkWorld { wProxy : Proxy; server : W; sent : list Sent }.

Definition connTarget (p : Proxy) (c : nat) : string := default "" (target <$> heap p !! c).

(** The three forwarders of unary requests: [forwardTimeRequest],
    [forwardOSVerifyRequest], [forwardOSActivateRequest]. *)
Definition forwardRequest (want : ReqType) (method : string) (c : nat) (req : AnyReq) (w : World) : res Code Resp * World :=
  if bool_decide (reqType req = want) then
    let tgt := connTarget (wProxy w) c in
    (remote tgt method req, mkWorld (wProxy w) (server w) (sent w ++ [mkSent tgt method req]))
  else (Err Internal, w).

Definition forwardTimeRequest := forwardRequest TimeRequest mTime.
Definition forwardOSVerifyRequest := forwardRequest VerifyRequest mVerify.
Definition forwardOSActivateRequest := forwardRequest ActivateRequest mActivate.

(** A [grpc.UnaryHandler] and a [grpc.UnaryServerInterceptor]; [info] is the method. *)
Definition UnaryHandler : Type := MD -> AnyReq -> World -> res Code Resp * World.
Definition UnaryServerInterceptor : Type := MD -> AnyReq -> string -> UnaryHandler -> World -> res Code Resp * World.

Definition withProxy (p : Proxy) (w : World) : World := mkWorld p (server w) (sent w).

Definition UnaryInterceptor (resolver : option DPUResolver) (dial : string -> Dial) : UnaryServerInterceptor :=
  fun ctx req info handler w =>
    let targetMeta := ExtractTargetMetadata ctx in
    if IsDPUTarget targetMeta then
      match getForwardingMode info with
      | None => (Err Unimplemented, w)
      | Some HandleLocally => handler ctx req w
      | Some ForwardToDPU =>
          match resolver with
          | None => handler ctx req w
          | Some r =>
              match GetDPUInfo r (TargetIndex targetMeta) with
              | Err _ => (Err NotFound, w)
              | Ok dpuInfo =>
                  if negb (Reachable dpuInfo) then (Err Unavailable, w)
                  else
                    match getConnection dial (Index dpuInfo) (IPAddress dpuInfo) (GNMIPortsToTry dpuInfo) (wProxy w) with
                    | (None, p) => (Err Internal, withProxy p w)
                    | (Some c, p) =>
                        let w := withProxy p w in
                        if String.eqb info mTime then forwardTimeRequest c req w
                        else if String.eqb info mVerify then forwardOSVerifyRequest c req w
                        else if String.eqb info mActivate then forwardOSActivateRequest c req w
                        else (Err Unimplemented, w)
                    end
              end
          end
      end
    else handler ctx req w.

End Unary.
Arguments World : clear implicits.
Arguments UnaryHandler : clear implicits.
Arguments UnaryServerInterceptor : clear implicits.

(** ** Streams *)

(** How the messages of the client end. *)
Inductive RecvEnd := EndOfStream | RecvError (c : Code).

Section Stream.
Context {M R : Type}.

(** The stream to the DPU: whether it opens; whether a [Send] finds, after these messages,
    that the DPU has ended the call; and what the DPU answers to the messages it was sent,
    with the way they ended. *)
Record DPUStream := mkStream {
  opens : bool;
  ended : list M -> bool;
  answer : list M -> res Code R
}.

(** The goroutine that forwards requests: its result on [forwardDone], and what was sent.  A
    [Send] on a call that has ended returns [io.EOF], which the server reports as
    [Unknown].  Whatever the result, the send side is closed after it. *)
Fixpoint forwardRequests (s : DPUStream) (msgs : list M) (fin : RecvEnd) (acc : list M) : option Code * list M :=
  match msgs with
  | [] => (match fin with EndOfStream => None | RecvError c => Some c end, acc)
  | m :: msgs => if ended s acc then (Some Unknown, acc) else forwardRequests s msgs fin (acc ++ [m])
  end.

(** The common body of [forwardFilePutStream] and [forwardSetPackageStream]: the status,
    the response that the client got, and the messages that the DPU was sent before its
    stream was half-closed. *)
Definition forwardClientStream (s : DPUStream) (msgs : list M) (fin : RecvEnd) (sendOk : bool)
    : option Code * option R * list M :=
  if negb (opens s) then (Some Internal, None, [])
  else
    match forwardRequests s msgs fin [] with
    | (Some e, sent) => (Some e, None, sent)
    | (None, sent) =>
        match answer s sent with
        | Err _ => (Some Internal, None, sent)
        | Ok response => if sendOk then (None, Some response, sent) else (Some Internal, None, sent)
        end
    end.

End Stream.
Arguments DPUStream : clear implicits.

(** The request types of the two methods whose streams are forwarded, and of any other. *)
Inductive StreamMsg := PutMessage (m : PutRequest) | SetPackageMessage (body : string).

Section StreamInterceptor.
Context {W : Type}.

(** A stream of the client: its metadata, its messages, how they end, and whether a
    response can be sent on it. *)
Record ServerStream := mkSS { ssContext : MD; ssMsgs : list StreamMsg; ssEnd : RecvEnd; ssSendOk : bool }.

(** The stream to a DPU for a target and a method. *)
Variable dpuStream : string -> string -> DPUStream StreamMsg string.

(** The proxy, the state of the server behind the interceptor, the messages that DPUs
    received. *)
Record StreamWorld := mkSW { swProxy : Proxy; swServer : W; swSent : list (string * string * list StreamMsg) }.

Definition StreamHandler : Type := ServerStream -> StreamWorld -> option Code * StreamWorld.
Definition StreamServerInterceptor : Type := ServerStream -> string -> StreamHandler -> StreamWorld -> option Code * StreamWorld.

Definition forwardOn (c : nat) (ss : ServerStream) (info : string) (w : StreamWorld) : option Code * StreamWorld :=
  let tgt := connTarget (swProxy w) c in
  let '(st, _, msgs) := forwardClientStream (dpuStream tgt info) (ssMsgs ss) (ssEnd ss) (ssSendOk ss) in
  (st, mkSW (swProxy w) (swServer w) (swSent w ++ [(tgt, info, msgs)])).

Definition forwardFilePutStream c ss w := forwardOn c ss mPut w.
Definition forwardSetPackageStream c ss w := forwardOn c ss mSetPackage w.

Definition forwardStream (c : nat) (ss : ServerStream) (info : string) (w : StreamWorld) : option Code * StreamWorld :=
  if String.eqb info mPut then forwardFilePutStream c ss w
  else if String.eqb info mSetPackage then forwardSetPackageStream c ss w
  else (Some Unimplemented, w).

Definition StreamInterceptor (resolver : option DPUResolver) (dial : string -> Dial) : StreamServerInterceptor :=
  fun ss info handler w =>
    let targetMeta := ExtractTargetMetadata (ssContext ss) in
    if IsDPUTarget targetMeta then
      match getForwardingMode info with
      | None => (Some Unimplemented, w)
      | Some HandleLocally => handler ss w
      | Some ForwardToDPU =>
          match resolver with
          | None => handler ss w
          | Some r =>
              match GetDPUInfo r (TargetIndex targetMeta) with
              | Err _ => (Some NotFound, w)
              | Ok dpuInfo =>
                  if negb (Reachable dpuInfo) then (Some Unavailable, w)
                  else
                    match getConnection dial (Index dpuInfo) (IPAddress dpuInfo) (GNMIPortsToTry dpuInfo) (swProxy w) with
                    | (None, p) => (Some Internal, mkSW p (swServer w) (swSent w))
                    | (Some c, p) => forwardStream c ss info (mkSW p (swServer w) (swSent w))
                    end
              end
          end
      end
    else handler ss w.

End StreamInterceptor.
Arguments StreamWorld : clear implicits.

(** * The interceptor chain *)

(** The interface [Interceptor], for the unary half; [A] is the type of what a call
    returns with its effects, so that the chain is the same for both halves. *)
Class Interceptor (I Args A : Type) := intercept : I -> Args -> string -> (Args -> A) -> A.

Section Chain.
Context {I Args A : Type} `{!Interceptor I Args A}.

(** [NewChain] and [Chain.interceptors]. *)
Record Chain := NewChain { interceptors : list I }.

(** One turn of the loop: the handler that runs interceptor [i] before the current one. *)
Definition wrap (c : Chain) (info : string) (i : nat) (currentHandler : Args -> A) : Args -> A :=
  match interceptors c !! i with
  | Some interceptor => fun args => intercept interceptor args info currentHandler
  | None => currentHandler
  end.

(** [for i := len - 1; i >= 0; i--] *)
Fixpoint wrapFrom (c : Chain) (info : string) (n : nat) (chainedHandler : Args -> A) : Args -> A :=
  match n with
  | O => chainedHandler
  | S i => wrapFrom c info i (wrap c info i chainedHandler)
  end.

Definition chainInterceptor (c : Chain) (args : Args) (info : string) (handler : Args -> A) : A :=
  wrapFrom c info (length (interceptors c)) handler args.

End Chain.
Arguments Chain : clear implicits.

(** The proxy as an interceptor, with its resolver and the network. *)
Record DPUProxy := mkDPUProxy { resolver : option DPUResolver; network : string -> Dial }.

#[global] Instance dpuUnary {W Resp} (remote : string -> string -> AnyReq -> res Code Resp) :
  Interceptor DPUProxy (MD * AnyReq) (World W -> res Code Resp * World W) :=
  fun d args info handler =>
    UnaryInterceptor remote (resolver d) (network d) args.1 args.2 info (fun ctx req => handler (ctx, req)).

#[global] Instance dpuStreaming {W} (dpuStream : string -> string -> DPUStream StreamMsg string) :
  Interceptor DPUProxy ServerStream (StreamWorld W -> option Code * StreamWorld W) :=
  fun d ss info handler => StreamInterceptor dpuStream (resolver d) (network d) ss info handler.

(** * The server's chain (setup.go) *)

(** The two Redis clients: whether each is closed. *)
Record RedisClients := mkClients { stateClosed : bool; configClosed : bool }.

Record ServerChain := mkServerChain { chain : Chain DPUProxy; clients : RedisClients }.

Definition NewServerChain (state config : RedisClient) (net : string -> Dial) : ServerChain :=
  mkServerChain (NewChain [mkDPUProxy (Some (mkResolver state config)) net]) (mkClients false false).

(** [Close], with the errors of closing each client. *)
Definition Close (stateErr configErr : option string) (sc : ServerChain) : option string * ServerChain :=
  (match stateErr with Some e => Some e | None => configErr end, mkServerChain (chain sc) (mkClients true true)).

End DpuProxy.
