(* ===== verification/DpuProxyProofs.v ===== *)
(** Proofs about the DPU proxy (DpuProxy): one connection per DPU under every
    interleaving, termination of concurrent calls, routing of unary and streaming
    requests, uploads through the proxy, and the interceptor chain. *)

From S2P Require Import Prelude GnmiTypes Filepath FileService FileServiceProofs DpuProxy.
Import FileService.FileService DpuProxy.DpuProxy.

(** * Concurrent calls *)

Import Pool.

(** What a call holds at each point: the write lock, a connection that is not stored, a
    connection that is. *)
Definition holds (l : PC) : bool :=
  match l with
  | Locked | Trying _ | Testing _ _ _ | Storing _ _ | Closing _ _ | Unlocking _ => true
  | _ => false
  end.

Definition pending (l : PC) : option nat :=
  match l with Testing _ c _ | Closing c _ => Some c | _ => None end.

Definition result (l : PC) : option nat :=
  match l with
  | Storing _ c | Unlocking (Some c) | Returned (Some c) | PortRead (Some c) => Some c
  | _ => None
  end.

(** The port under test, or the one to be stored, with its connection. *)
Definition tried (l : PC) : option (string * nat) :=
  match l with Testing port c _ | Storing port c => Some (port, c) | _ => None end.

Definition searching (l : PC) : bool :=
  match l with Trying _ | Testing _ _ _ | Closing _ _ => true | _ => false end.

(** The ports that a call can still use. *)
Definition portsLeft (k : Call) : list string :=
  match pc k with
  | Trying ps | Closing _ ps => ps
  | Testing p _ ps => p :: ps
  | Storing p _ => [p]
  | _ => []
  end.

(** A connection is open and leads to the address of some call for the DPU, at one of its
    ports. *)
Definition leadsTo (s : St) (i : string) (c : nat) (port : string) : Prop :=
  exists t k, at_ t k s /\ dpu k = i /\ port ∈ allPorts k /\
    heap (Pool.proxy s) !! c = Some (mkConn (hostPort (ip k) port) true).

Record Inv (s : St) : Prop := mkInv {
  inv_lock : forall t k, at_ t k s -> (holds (pc k) = true <-> writer s = Some t);
  inv_cached : forall i c, conns (Pool.proxy s) !! i = Some c -> exists port, leadsTo s i c port /\
    (connPorts (Pool.proxy s) !! i = Some port \/ exists t k, at_ t k s /\ dpu k = i /\ pc k = Storing port c);
  inv_inj : forall i j c, conns (Pool.proxy s) !! i = Some c -> conns (Pool.proxy s) !! j = Some c -> i = j;
  inv_open : forall c x, heap (Pool.proxy s) !! c = Some x -> open x = true ->
    (exists i, conns (Pool.proxy s) !! i = Some c) \/ exists t k, at_ t k s /\ pending (pc k) = Some c;
  inv_pending : forall t k c, at_ t k s -> pending (pc k) = Some c ->
    c < length (heap (Pool.proxy s)) /\ forall i, conns (Pool.proxy s) !! i <> Some c;
  inv_tried : forall t k port c, at_ t k s -> tried (pc k) = Some (port, c) ->
    heap (Pool.proxy s) !! c = Some (mkConn (hostPort (ip k) port) true);
  inv_result : forall t k c, at_ t k s -> result (pc k) = Some c -> conns (Pool.proxy s) !! dpu k = Some c;
  inv_search : forall t k, at_ t k s -> searching (pc k) = true -> conns (Pool.proxy s) !! dpu k = None;
  inv_ports : forall t k, at_ t k s -> portsLeft k ⊆ allPorts k
}.

Lemma inv_initial ks : Forall fresh ks -> Inv (initial ks).
Proof.
  intros Hf. assert (forall t k, at_ t k (initial ks) -> pc k = Start) as Hs.
  { intros t k Hk. by apply (Forall_lookup_1 _ _ _ _ Hf) in Hk. }
  split; cbn [initial Pool.proxy writer conns connPorts heap NewDPUProxy]; try (intros; by simplify_map_eq).
  - intros t k Hk. rewrite (Hs t k Hk). done.
  - intros t k c Hk. by rewrite (Hs t k Hk).
  - intros t k port c Hk. by rewrite (Hs t k Hk).
  - intros t k c Hk. by rewrite (Hs t k Hk).
  - intros t k Hk. unfold portsLeft. rewrite (Hs t k Hk). apply list_subseteq_nil.
Qed.

Lemma at_upd t k l p w s t' k' :
  at_ t k s -> at_ t' k' (upd t k l p w s) -> (t' = t /\ k' = goto k l) \/ (t' <> t /\ at_ t' k' s).
Proof.
  unfold at_, upd. cbn [calls]. intros Hk H. destruct (decide (t' = t)) as [->|Hne].
  - rewrite list_lookup_insert_eq in H by (by eapply lookup_lt_Some). left. by simplify_eq.
  - rewrite list_lookup_insert_ne in H by done. by right.
Qed.

Lemma at_upd_eq t k l p w s : at_ t k s -> at_ t (goto k l) (upd t k l p w s).
Proof. intros Hk. unfold at_, upd. cbn [calls]. apply list_lookup_insert_eq. by eapply lookup_lt_Some. Qed.

Lemma at_upd_ne t k l p w s t' k' : t' <> t -> at_ t' k' s -> at_ t' k' (upd t k l p w s).
Proof. intros Hne Hk. unfold at_, upd. cbn [calls]. by rewrite list_lookup_insert_ne. Qed.

Lemma leadsTo_upd t k l p w s i c port :
  at_ t k s -> (forall x, heap (Pool.proxy s) !! c = Some x -> heap p !! c = Some x) ->
  leadsTo s i c port -> leadsTo (upd t k l p w s) i c port.
Proof.
  intros Hk Hh (t' & k' & Hk' & Hd & Hp & Hc). destruct (decide (t' = t)) as [->|Hne].
  - assert (k' = k) as -> by (unfold at_ in *; congruence). exists t, (goto k l). cbn [dpu goto allPorts ip].
    split; [by apply at_upd_eq|]. split; [done|]. split; [done|]. by apply Hh.
  - exists t', k'. split; [by apply at_upd_ne|]. split; [done|]. split; [done|]. by apply Hh.
Qed.

(** How the lock changes with the place of a call. *)
Definition lockOk (t : nat) (l l' : PC) (w w' : option nat) : Prop :=
  if holds l' then w' = Some t /\ (holds l = true \/ w = None) else w' = if holds l then None else w.

Lemma lock_upd t k l p w s :
  at_ t k s -> lockOk t (pc k) l (writer s) w -> (forall t k, at_ t k s -> (holds (pc k) = true <-> writer s = Some t)) ->
  forall t' k', at_ t' k' (upd t k l p w s) -> (holds (pc k') = true <-> w = Some t').
Proof.
  intros Hk Hl Hi t' k' [[-> ->]|[Hne Hk']]%(at_upd _ _ _ _ _ _ _ _ Hk); unfold lockOk in Hl; pose proof (Hi t k Hk) as H0.
  - cbn [goto pc]. destruct (holds l); [naive_solver|]. destruct (holds (pc k)); naive_solver.
  - pose proof (Hi t' k' Hk') as H1. destruct (holds l), (holds (pc k)), (holds (pc k')); naive_solver congruence.
Qed.

(** A step that leaves the maps and the connections alone. *)
Lemma inv_move s t k l w :
  Inv s -> at_ t k s -> lockOk t (pc k) l (writer s) w -> pending l = pending (pc k) ->
  (forall port c, pc k <> Storing port c) -> tried l = None ->
  (forall c, result l = Some c -> conns (Pool.proxy s) !! dpu k = Some c) ->
  (searching l = true -> conns (Pool.proxy s) !! dpu k = None) -> portsLeft (goto k l) ⊆ allPorts k ->
  Inv (upd t k l (Pool.proxy s) w s).
Proof.
  intros I Hk Hl Hp Hst Hte Hr Hs Hps. split; cbn [Pool.proxy writer upd].
  - eapply (lock_upd t k l _ w s); [done..|apply (inv_lock s I)].
  - intros i c Hc. destruct (inv_cached s I i c Hc) as (port & Hle & Hport). exists port. split; [by apply leadsTo_upd|].
    destruct Hport as [|(t' & k' & Hk' & Hd & Hpc)]; [by left|right]. exists t', k'. split; [|done].
    apply at_upd_ne; [|done]. intros ->. assert (k' = k) as -> by (unfold at_ in *; congruence). by apply Hst in Hpc.
  - apply (inv_inj s I).
  - intros c x Hc Ho. destruct (inv_open s I c x Hc Ho) as [|(t' & k' & Hk' & Hpe)]; [by left|right].
    destruct (decide (t' = t)) as [->|Hne].
    + assert (k' = k) as -> by (unfold at_ in *; congruence). exists t, (goto k l). split; [by apply at_upd_eq|]. cbn [goto pc]. congruence.
    + exists t', k'. split; [by apply at_upd_ne|done].
  - intros t' k' c [[-> ->]|[Hne Hk']]%(at_upd _ _ _ _ _ _ _ _ Hk) Hc.
    + cbn [goto pc] in Hc. rewrite Hp in Hc. by apply (inv_pending s I t k).
    + by apply (inv_pending s I t' k').
  - intros t' k' port c [[-> ->]|[Hne Hk']]%(at_upd _ _ _ _ _ _ _ _ Hk) Hc; [by cbn [goto pc] in Hc; rewrite Hte in Hc|].
    by apply (inv_tried s I t' k').
  - intros t' k' c [[-> ->]|[Hne Hk']]%(at_upd _ _ _ _ _ _ _ _ Hk) Hc; [by apply Hr|by apply (inv_result s I t' k')].
  - intros t' k' [[-> ->]|[Hne Hk']]%(at_upd _ _ _ _ _ _ _ _ Hk) Hc; [by apply Hs|by apply (inv_search s I t' k')].
  - intros t' k' [[-> ->]|[Hne Hk']]%(at_upd _ _ _ _ _ _ _ _ Hk); [done|by apply (inv_ports s I t' k')].
Qed.

(** While a call holds the lock no other call has a connection in its hands. *)
Lemma alone s t k t' k' : Inv s -> at_ t k s -> holds (pc k) = true -> t' <> t -> at_ t' k' s -> holds (pc k') = false.
Proof.
  intros I Hk Hh Hne Hk'. destruct (holds (pc k')) eqn:E; [|done]. apply (inv_lock s I t k Hk) in Hh.
  apply (inv_lock s I t' k' Hk') in E. congruence.
Qed.

Lemma holds_pending l c : pending l = Some c -> holds l = true.
Proof. by destruct l. Qed.
Lemma holds_searching l : searching l = true -> holds l = true.
Proof. by destruct l. Qed.

Lemma lock_kept t k l s : Inv s -> at_ t k s -> holds (pc k) = true -> holds l = true -> lockOk t (pc k) l (writer s) (writer s).
Proof. intros I Hk Hh Hl. unfold lockOk. rewrite Hl. split; [by apply (inv_lock s I t k)|by left]. Qed.

#[local] Ltac at_cases Hk := intros [[-> ->]|[? ?]]%(at_upd _ _ _ _ _ _ _ _ Hk).
#[local] Ltac others I Hk Hpc :=
  match goal with
  | Hne : ?t' <> ?t, H : at_ ?t' ?k' _ |- _ =>
      let Ha := fresh "Ha" in
      assert (holds (pc k') = false) as Ha by (eapply (alone _ t); [exact I|exact Hk|by rewrite Hpc|exact Hne|exact H])
  end.

Lemma inv_newClient s t k port ports :
  Inv s -> at_ t k s -> pc k = Trying (port :: ports) ->
  Inv (upd t k (Testing port (newClient (hostPort (ip k) port) (Pool.proxy s)).1 ports)
              (newClient (hostPort (ip k) port) (Pool.proxy s)).2 (writer s) s).
Proof.
  intros I Hk Hpc. cbn [newClient fst snd].
  pose proof (inv_ports s I t k Hk) as Hps. unfold portsLeft in Hps. rewrite Hpc in Hps.
  assert (forall c x, heap (Pool.proxy s) !! c = Some x -> (heap (Pool.proxy s) ++ [mkConn (hostPort (ip k) port) true]) !! c = Some x) as Hh
    by (intros c x Hc; by apply lookup_app_l_Some).
  split; cbn [Pool.proxy writer upd conns connPorts heap].
  - eapply (lock_upd t k _ _ _ s); [done|by apply lock_kept; rewrite ?Hpc|apply (inv_lock s I)].
  - intros i c Hc. destruct (inv_cached s I i c Hc) as (port' & Hle & Hport). exists port'. split; [by apply leadsTo_upd; auto|].
    destruct Hport as [|(t' & k' & Hk' & Hd & Hpc')]; [by left|right]. exists t', k'. split; [|done].
    apply at_upd_ne; [|done]. intros ->. unfold at_ in *. congruence.
  - apply (inv_inj s I).
  - intros c x Hc Ho. apply lookup_app_Some in Hc as [Hc|[Hge Hc]].
    + destruct (inv_open s I c x Hc Ho) as [|(t' & k' & Hk' & Hpe)]; [by left|].
      destruct (decide (t' = t)) as [->|Hne]; [unfold at_ in *; simplify_eq; by rewrite Hpc in Hpe|].
      others I Hk Hpc. apply holds_pending in Hpe. congruence.
    + right. exists t, (goto k (Testing port (length (heap (Pool.proxy s))) ports)). split; [by apply at_upd_eq|]. cbn [goto pc pending].
      f_equal. assert (c - length (heap (Pool.proxy s)) = 0) by (destruct (c - length (heap (Pool.proxy s))); [done|by destruct n]). lia.
  - intros t' k' c. at_cases Hk; intros Hc.
    + cbn [goto pc pending] in Hc. injection Hc as <-. rewrite length_app. cbn [length]. split; [lia|]. intros i Hi.
      destruct (inv_cached s I i _ Hi) as (? & (? & ? & _ & _ & _ & Hx) & _). apply lookup_lt_Some in Hx. lia.
    + others I Hk Hpc. apply holds_pending in Hc. congruence.
  - intros t' k' port' c. at_cases Hk; intros Hc.
    + cbn in Hc. injection Hc as <- <-. cbn [goto ip]. apply list_lookup_middle. done.
    + apply Hh. by apply (inv_tried s I t' k').
  - intros t' k' c. at_cases Hk; intros Hc; [done|by apply (inv_result s I t' k')].
  - intros t' k'. at_cases Hk; intros Hc; [apply (inv_search s I t k Hk); by rewrite Hpc|by apply (inv_search s I t' k')].
  - intros t' k'. at_cases Hk; [exact Hps|by apply (inv_ports s I t' k')].
Qed.

Lemma inv_passed s t k port c ports :
  Inv s -> at_ t k s -> pc k = Testing port c ports ->
  Inv (upd t k (Storing port c) (storeConn (dpu k) c (Pool.proxy s)) (writer s) s).
Proof.
  intros I Hk Hpc. pose proof (inv_ports s I t k Hk) as Hps. unfold portsLeft in Hps. rewrite Hpc in Hps.
  pose proof (inv_tried s I t k port c Hk ltac:(by rewrite Hpc)) as Hte.
  destruct (inv_pending s I t k c Hk ltac:(by rewrite Hpc)) as [Hlt Hnc].
  assert (conns (Pool.proxy s) !! dpu k = None) as Hnone by (apply (inv_search s I t k Hk); by rewrite Hpc).
  split; cbn [Pool.proxy writer upd conns connPorts heap storeConn].
  - eapply (lock_upd t k _ _ _ s); [done|by apply lock_kept; rewrite ?Hpc|apply (inv_lock s I)].
  - intros i c' [[<- <-]|[Hne Hc]]%lookup_insert_Some.
    + exists port. split.
      * exists t, (goto k (Storing port c)). split; [by apply at_upd_eq|]. cbn [goto dpu allPorts ip]. split; [done|].
        split; [apply Hps; by left|done].
      * right. exists t, (goto k (Storing port c)). split; [by apply at_upd_eq|done].
    + destruct (inv_cached s I i c' Hc) as (port' & Hle & Hport). exists port'. split; [by apply leadsTo_upd|].
      destruct Hport as [|(t' & k' & Hk' & Hd & Hpc')]; [by left|]. destruct (decide (t' = t)) as [->|Hne']; [unfold at_ in *; congruence|].
      others I Hk Hpc. rewrite Hpc' in Ha. done.
  - intros i j c' [[<- <-]|[Hi Hc]]%lookup_insert_Some [[<- E]|[Hj Hc']]%lookup_insert_Some; [done| | |].
    + by apply Hnc in Hc'.
    + subst c'. by apply Hnc in Hc.
    + by apply (inv_inj s I i j c').
  - intros c' x Hc Ho. left. destruct (inv_open s I c' x Hc Ho) as [[i Hi]|(t' & k' & Hk' & Hpe)].
    + exists i. rewrite lookup_insert_ne; [done|]. intros <-. congruence.
    + destruct (decide (t' = t)) as [->|Hne].
      * unfold at_ in *. simplify_eq. rewrite Hpc in Hpe. injection Hpe as <-. exists (dpu k). apply lookup_insert_eq.
      * others I Hk Hpc. apply holds_pending in Hpe. congruence.
  - intros t' k' c'. at_cases Hk; intros Hc; [done|]. others I Hk Hpc. apply holds_pending in Hc. congruence.
  - intros t' k' port' c'. at_cases Hk; intros Hc; [cbn in Hc; by injection Hc as <- <-|]. by apply (inv_tried s I t' k').
  - intros t' k' c'. at_cases Hk; intros Hc; [cbn in Hc; injection Hc as <-; apply lookup_insert_eq|].
    pose proof (inv_result s I t' k' c' ltac:(done) Hc) as Hr. rewrite lookup_insert_ne; [done|]. intros E. rewrite E in Hnone. congruence.
  - intros t' k'. at_cases Hk; intros Hc; [done|]. others I Hk Hpc. apply holds_searching in Hc. congruence.
  - intros t' k'. at_cases Hk; [|by apply (inv_ports s I t' k')]. cbn. intros x ->%list_elem_of_singleton. apply Hps. by left.
Qed.

Lemma inv_storePort s t k port c :
  Inv s -> at_ t k s -> pc k = Storing port c ->
  Inv (upd t k (Unlocking (Some c)) (storePort (dpu k) port (Pool.proxy s)) (writer s) s).
Proof.
  intros I Hk Hpc. pose proof (inv_result s I t k c Hk ltac:(by rewrite Hpc)) as Hr.
  pose proof (inv_tried s I t k port c Hk ltac:(by rewrite Hpc)) as Hte.
  pose proof (inv_ports s I t k Hk) as Hps. unfold portsLeft in Hps. rewrite Hpc in Hps.
  split; cbn [Pool.proxy writer upd conns connPorts heap storePort].
  - eapply (lock_upd t k _ _ _ s); [done|by apply lock_kept; rewrite ?Hpc|apply (inv_lock s I)].
  - intros i c' Hc. destruct (decide (i = dpu k)) as [->|Hne].
    + assert (c' = c) as -> by congruence. exists port. split; [|left; apply lookup_insert_eq].
      apply leadsTo_upd; [done..|]. exists t, k. split; [done|]. split; [done|]. split; [apply Hps; by left|done].
    + destruct (inv_cached s I i c' Hc) as (port' & Hle & Hport). exists port'. split; [by apply leadsTo_upd|].
      rewrite lookup_insert_ne by done. destruct Hport as [|(t' & k' & Hk' & Hd & Hpc')]; [by left|].
      destruct (decide (t' = t)) as [->|Hne']; [unfold at_ in *; congruence|]. others I Hk Hpc. by rewrite Hpc' in Ha.
  - apply (inv_inj s I).
  - intros c' x Hc Ho. destruct (inv_open s I c' x Hc Ho) as [|(t' & k' & Hk' & Hpe)]; [by left|].
    destruct (decide (t' = t)) as [->|Hne]; [unfold at_ in *; simplify_eq; by rewrite Hpc in Hpe|].
    others I Hk Hpc. apply holds_pending in Hpe. congruence.
  - intros t' k' c'. at_cases Hk; intros Hc; [done|]. by apply (inv_pending s I t' k').
  - intros t' k' port' c'. at_cases Hk; intros Hc; [done|]. by apply (inv_tried s I t' k').
  - intros t' k' c'. at_cases Hk; intros Hc; [cbn in Hc; by injection Hc as <-|]. by apply (inv_result s I t' k').
  - intros t' k'. at_cases Hk; intros Hc; [done|]. by apply (inv_search s I t' k').
  - intros t' k'. at_cases Hk; [apply list_subseteq_nil|by apply (inv_ports s I t' k')].
Qed.

Lemma inv_close s t k c ports :
  Inv s -> at_ t k s -> pc k = Closing c ports ->
  Inv (upd t k (Trying ports) (closeConn c (Pool.proxy s)) (writer s) s).
Proof.
  intros I Hk Hpc. destruct (inv_pending s I t k c Hk ltac:(by rewrite Hpc)) as [Hlt Hnc].
  pose proof (inv_ports s I t k Hk) as Hps. unfold portsLeft in Hps. rewrite Hpc in Hps.
  split; cbn [Pool.proxy writer upd conns connPorts heap closeConn].
  - eapply (lock_upd t k _ _ _ s); [done|by apply lock_kept; rewrite ?Hpc|apply (inv_lock s I)].
  - intros i c' Hc. destruct (inv_cached s I i c' Hc) as (port' & Hle & Hport). exists port'. split.
    + apply leadsTo_upd; [done| |done]. intros x Hx. cbn [closeConn heap]. rewrite list_lookup_alter_ne; [done|]. intros <-. by apply Hnc in Hc.
    + destruct Hport as [|(t' & k' & Hk' & Hd & Hpc')]; [by left|right]. exists t', k'. split; [|done].
      apply at_upd_ne; [|done]. intros ->. unfold at_ in *. congruence.
  - apply (inv_inj s I).
  - intros c' x Hc Ho. destruct (decide (c' = c)) as [->|Hne].
    + rewrite list_lookup_alter_eq in Hc. apply fmap_Some in Hc as (y & _ & ->). done.
    + rewrite list_lookup_alter_ne in Hc by done. destruct (inv_open s I c' x Hc Ho) as [|(t' & k' & Hk' & Hpe)]; [by left|].
      destruct (decide (t' = t)) as [->|Hne']; [unfold at_ in *; simplify_eq; rewrite Hpc in Hpe; by injection Hpe as ->|].
      others I Hk Hpc. apply holds_pending in Hpe. congruence.
  - intros t' k' c'. at_cases Hk; intros Hc; [done|]. rewrite length_alter. by apply (inv_pending s I t' k').
  - intros t' k' port' c'. at_cases Hk; intros Hc; [done|]. others I Hk Hpc. destruct (pc k'); done.
  - intros t' k' c'. at_cases Hk; intros Hc; [done|]. by apply (inv_result s I t' k').
  - intros t' k'. at_cases Hk; intros Hc; [apply (inv_search s I t k Hk); by rewrite Hpc|]. by apply (inv_search s I t' k').
  - intros t' k'. at_cases Hk; [exact Hps|by apply (inv_ports s I t' k')].
Qed.

Lemma list_subseteq_tail (x : string) l l' : x :: l ⊆ l' -> l ⊆ l'.
Proof. intros H y Hy. apply H. by right. Qed.

Lemma inv_step s s' : Inv s -> step s s' -> Inv s'.
Proof.
  intros I Hs. destruct Hs as [t k c Hk Hpc Hw Hc|t k Hk Hpc Hw Hc|t k Hk Hpc Hw|t k c Hk Hpc Hc|t k Hk Hpc Hc|t k port ports Hk Hpc|t k port ports Hk Hpc
    |t k port c ports st Hk Hpc Ht|t k port c Hk Hpc|t k port c ports st Hk Hpc Ht|t k c ports Hk Hpc|t k Hk Hpc|t k r Hk Hpc|t k c Hk Hpc].
  all: try (by eapply inv_newClient); try (by eapply inv_passed); try (by apply inv_storePort); try (by apply inv_close).
  all: pose proof (inv_ports s I t k Hk) as Hps; unfold portsLeft in Hps; rewrite Hpc in Hps.
  all: apply inv_move; [done|done|unfold lockOk; rewrite Hpc; cbn [holds]|by rewrite ?Hpc|intros; by rewrite Hpc|done
         |try (by intros ? [= <-])|try done|try apply list_subseteq_nil; try done].
  all: try (split; [by apply (inv_lock s I t k Hk); rewrite Hpc|by left]).
  all: try (by split; [|right]); try done.
  all: try (intros _; apply (inv_search s I t k Hk); by rewrite Hpc); try (by eapply list_subseteq_tail).
  all: intros c' Hc'; apply (inv_result s I t k c' Hk); by rewrite Hpc.
Qed.

Definition reaches (ks : list Call) (s : St) : Prop := Forall fresh ks /\ rtc step (initial ks) s.

Lemma inv_reaches ks s : reaches ks s -> Inv s.
Proof.
  intros [Hf Hr]. pose proof (inv_initial ks Hf) as I. revert I. induction Hr as [|s1 s2 s3 H12 _ IH]; [done|].
  intros I. apply IH. by eapply inv_step.
Qed.

(** The holder of the lock is one of the calls. *)
Lemma writer_reaches ks s : reaches ks s -> forall t, writer s = Some t -> exists k, at_ t k s.
Proof.
  intros [_ Hr]. assert (forall t, writer (initial ks) = Some t -> exists k, at_ t k (initial ks)) as H0 by done. revert Hr H0.
  generalize (initial ks). intros s0 Hr. induction Hr as [|s1 s2 s3 Hs _ IH]; [done|]. intros H1. apply IH. clear IH. intros t.
  destruct Hs; cbn [upd writer]; intros Hw; try done; try (injection Hw as <-; eexists; by apply at_upd_eq).
  all: destruct (H1 _ Hw) as [k' Hk']; match goal with H : at_ ?t1 ?k1 _, _ : pc ?k1 = _ |- _ =>
    destruct (decide (t = t1)) as [->|]; [eexists; by apply at_upd_eq|eexists; by apply at_upd_ne] end.
Qed.

(** C7. Under every interleaving of any number of concurrent calls, every call that returned
    a connection for a DPU returned the same one; it is the cached one, is open, and leads
    to one of the ports of the address that some call resolved for this DPU; no connection
    serves two DPUs; and every open connection is cached, or is the one that the holder of
    the lock is testing, so none leaks. *)
Theorem one_connection_per_dpu ks s :
  reaches ks s ->
  (forall t k c, at_ t k s -> returned k (Some c) ->
     conns (Pool.proxy s) !! dpu k = Some c /\ exists port, leadsTo s (dpu k) c port) /\
  (forall i j c, conns (Pool.proxy s) !! i = Some c -> conns (Pool.proxy s) !! j = Some c -> i = j) /\
  (forall c x, heap (Pool.proxy s) !! c = Some x -> open x = true ->
     (exists i, conns (Pool.proxy s) !! i = Some c) \/
     exists t k, at_ t k s /\ writer s = Some t /\ pending (pc k) = Some c).
Proof.
  intros I%inv_reaches. split_and!; [|apply (inv_inj s I)|].
  - intros t k c Hk Hr. assert (conns (Pool.proxy s) !! dpu k = Some c) as Hc
      by (apply (inv_result s I t k c Hk); destruct Hr as [-> | ->]; done).
    split; [done|]. destruct (inv_cached s I _ _ Hc) as (port & Hle & _). by exists port.
  - intros c x Hc Ho. destruct (inv_open s I c x Hc Ho) as [|(t & k & Hk & Hp)]; [by left|right].
    exists t, k. split; [done|]. split; [|done]. apply (inv_lock s I t k Hk). by eapply holds_pending.
Qed.

(** ** Every call returns *)

(** The steps that a call can still take. *)
Definition budget (k : Call) : nat :=
  match pc k with
  | Start => 3 * length (allPorts k) + 6
  | Missed => 3 * length (allPorts k) + 5
  | Locked => 3 * length (allPorts k) + 4
  | Trying ps => 3 * length ps + 3
  | Testing _ _ ps => 3 * length ps + 5
  | Closing _ ps => 3 * length ps + 4
  | Storing _ _ => 3
  | Unlocking _ => 2
  | Returned (Some _) => 1
  | Returned None | PortRead _ => 0
  end.

Definition totalBudget (s : St) : nat := sum_list_with budget (calls s).

Lemma sum_list_with_insert {A} (f : A -> nat) l i x y :
  l !! i = Some x -> sum_list_with f (<[i := y]> l) + f x = sum_list_with f l + f y.
Proof.
  revert i. induction l as [|z l IH]; intros [|i] H; simplify_eq/=; [lia|]. specialize (IH i H). lia.
Qed.

Lemma step_budget s s' : step s s' -> totalBudget s' < totalBudget s.
Proof.
  intros Hs. assert (exists t k l, at_ t k s /\ calls s' = <[t := goto k l]> (calls s) /\ budget (goto k l) < budget k) as (t & k & l & Hk & Hcs & Hb).
  { destruct Hs as [t k c Hk Hpc|t k Hk Hpc|t k Hk Hpc|t k c Hk Hpc|t k Hk Hpc|t k port ports Hk Hpc|t k port ports Hk Hpc
      |t k port c ports st Hk Hpc Ht|t k port c Hk Hpc|t k port c ports st Hk Hpc Ht|t k c ports Hk Hpc|t k Hk Hpc|t k r Hk Hpc|t k c Hk Hpc].
    all: exists t, k; eexists; split; [exact Hk|]; split; [reflexivity|]; unfold budget; rewrite Hpc; cbn [goto pc allPorts length]; try lia.
    destruct r; lia. }
  unfold totalBudget. rewrite Hcs. pose proof (sum_list_with_insert budget _ _ _ (goto k l) Hk). lia.
Qed.

Lemma nsteps_budget n s s' : nsteps step n s s' -> n + totalBudget s' <= totalBudget s.
Proof. induction 1 as [|n s1 s2 s3 H12 _ IH]; [lia|]. apply step_budget in H12. lia. Qed.

(** A call that is not done can take a step, unless it waits for the lock. *)
Lemma call_steps s t k : at_ t k s -> done k = false -> writer s = None \/ holds (pc k) = true \/ (exists c, pc k = Returned (Some c)) ->
  exists s', step s s'.
Proof.
  intros Hk Hd Hw. destruct (pc k) as [| | |[|port ps]|port c ps|port c|c ps|r|[c|]|r] eqn:Hpc; unfold done in Hd; rewrite ?Hpc in Hd; try done.
  - destruct Hw as [Hw|[|[? ?]]]; [|done..]. destruct (conns (Pool.proxy s) !! dpu k) eqn:E; eexists; [by eapply SHit|by eapply SMiss].
  - destruct Hw as [Hw|[|[? ?]]]; [|done..]. eexists. by eapply SLock.
  - destruct (conns (Pool.proxy s) !! dpu k) eqn:E; eexists; [by eapply SFound|by eapply SNotFound].
  - eexists. by eapply SExhausted.
  - eexists. by eapply SRefused.
  - eexists. by apply (SPassed s t k port c ps None).
  - eexists. by eapply SStorePort.
  - eexists. by eapply SClose.
  - eexists. by eapply SUnlock.
  - eexists. by eapply SPortRead.
Qed.

(** Concurrent calls always end: a run takes at most three steps for each port of each
    call and six more for each call, and as long as some call has not returned, a step is
    possible — a call that waits for the lock waits for a call that can take a step. *)
Theorem concurrent_calls_return ks :
  Forall fresh ks ->
  (forall n s, nsteps step n (initial ks) s -> n <= sum_list_with (fun k => 3 * length (allPorts k) + 6) ks) /\
  (forall s, reaches ks s -> (exists t k, at_ t k s /\ done k = false) -> exists s', step s s').
Proof.
  intros Hf. split.
  - intros n s Hn%nsteps_budget. assert (totalBudget (initial ks) = sum_list_with (fun k => 3 * length (allPorts k) + 6) ks) as <-; [|lia].
    unfold totalBudget, initial. cbn [calls]. clear Hn. induction Hf as [|k ks Hk _ IH]; [done|]. cbn [sum_list_with]. rewrite IH.
    unfold budget. by rewrite Hk.
  - intros s [_ Hr] (t & k & Hk & Hd). assert (Inv s) as I by (by eapply inv_reaches).
    destruct (writer s) as [t'|] eqn:Hw; [|eapply call_steps; [done..|by left]].
    destruct (writer_reaches ks s (conj Hf Hr) t' Hw) as [k' Hk'].
    assert (holds (pc k') = true) as Hh by (by apply (inv_lock s I t' k' Hk')).
    apply (call_steps s t' k'); [done| |by right; left]. unfold done. by destruct (pc k').
Qed.

(** ** A call that runs alone *)

Lemma upd_upd t k l l' p p' w w' s : at_ t k s -> upd t (goto k l) l' p' w' (upd t k l p w s) = upd t k l' p' w' s.
Proof. intros Hk. unfold upd. cbn [calls]. by rewrite list_insert_insert_eq. Qed.

(** One step after others, from where the call is. *)
Lemma then_step s t k l p w l' p' w' :
  at_ t k s -> step (upd t k l p w s) (upd t (goto k l) l' p' w' (upd t k l p w s)) ->
  forall s', rtc step (upd t k l' p' w' s) s' -> rtc step (upd t k l p w s) s'.
Proof. intros Hk Hs s' Hr. rewrite (upd_upd t k l l' p p' w w' s Hk) in Hs. by eapply rtc_l. Qed.

#[local] Ltac walk Hk rule := eapply then_step; [exact Hk|eapply rule; [by apply at_upd_eq|done..]|].

Lemma tryPorts_runs dial s t k : at_ t k s ->
  forall ports p, rtc step (upd t k (Trying ports) p (Some t) s)
    (upd t k (Returned (tryPorts dial (dpu k) (ip k) ports p).1) (tryPorts dial (dpu k) (ip k) ports p).2 None s).
Proof.
  intros Hk ports. induction ports as [|port ports IH]; intros p; cbn [tryPorts].
  - walk Hk SExhausted. walk Hk SUnlock. apply rtc_refl.
  - destruct (dial (hostPort (ip k) port)) as [|st]; [walk Hk SRefused; apply IH|].
    walk Hk SNewClient. cbn [newClient fst snd Pool.proxy upd writer goto ip dpu]. destruct (testPasses st) eqn:Et.
    + walk Hk SPassed. walk Hk SStorePort. walk Hk SUnlock. apply rtc_refl.
    + walk Hk SFailed. walk Hk SClose. apply IH.
Qed.

(** The sequential function agrees with the interleaved calls: a call that starts while
    the lock is free can run to its end with exactly the result of [getConnection] and
    exactly its effect on the maps and the connections. *)
Theorem getConnection_runs dial s t k :
  at_ t k s -> pc k = Start -> writer s = None ->
  rtc step s (upd t k (Returned (getConnection dial (dpu k) (ip k) (allPorts k) (Pool.proxy s)).1)
                (getConnection dial (dpu k) (ip k) (allPorts k) (Pool.proxy s)).2 None s).
Proof.
  intros Hk Hpc Hw. unfold getConnection. destruct (conns (Pool.proxy s) !! dpu k) as [c|] eqn:Ec; cbn [fst snd].
  - apply rtc_once. by apply SHit.
  - eapply rtc_l; [by eapply SMiss|]. walk Hk SLock. walk Hk SNotFound. apply (tryPorts_runs dial s t k Hk).
Qed.

(** ** Findings about the cache *)

(** The interceptors read [connPorts] without the lock: a call can be about to read the map
    while another, which holds the lock, is about to write it. *)
Theorem ports_race :
  exists ks s t t' k k', reaches ks s /\ t <> t' /\ at_ t k s /\ at_ t' k' s /\
    writer s = Some t /\ writesPorts k /\ readsPorts k'.
Proof.
  set (k0 := mkCall "0" "10.0.0.1" ["8080"] Start). set (k1 := mkCall "1" "10.0.0.2" ["8080"] Start).
  exists [k0; k1]. pose (s0 := initial [k0; k1]).
  pose proof (getConnection_runs (fun _ => Tested None) s0 1 k1 eq_refl eq_refl eq_refl) as H1.
  vm_compute in H1. match type of H1 with rtc _ _ ?x => set (s1 := x) in H1 end.
  assert (at_ 0 k0 s1) as Hk by done.
  eexists (upd 0 k0 (Storing "8080" 1) _ (Some 0) s1), 0, 1, _, _. split_and!; [split| |by apply at_upd_eq| | | |].
  - by repeat constructor.
  - etrans; [exact H1|]. eapply rtc_l; [by eapply (SMiss _ 0 k0)|].
    walk Hk SLock. walk Hk SNotFound. walk Hk SNewClient.
    eapply then_step; [exact Hk|apply (SPassed _ 0 (goto k0 (Testing "8080" 1 [])) "8080" 1 [] None); [by apply at_upd_eq|reflexivity..]|]. apply rtc_refl.
  - done.
  - by apply at_upd_ne.
  - done.
  - by exists "8080", 1.
  - by exists 0.
Qed.

(** A port at which the test does not answer in time passes the test: it is cached, and no
    other port is tried, then or later. *)
Theorem silent_port_cached dial i ip port ports p :
  conns p !! i = None -> dial (hostPort ip port) = Tested (Some CtxDeadlineExceeded) ->
  exists c p', getConnection dial i ip (port :: ports) p = (Some c, p') /\
    heap p' !! c = Some (mkConn (hostPort ip port) true) /\
    forall dial' ip' ports', getConnection dial' i ip' ports' p' = (Some c, p').
Proof.
  intros Hn Hd. unfold getConnection. rewrite Hn. cbn [tryPorts]. rewrite Hd. cbn [newClient].
  eexists _, _. split; [reflexivity|]. split; [by apply list_lookup_middle|]. intros. cbn [storePort storeConn conns].
  by rewrite lookup_insert_eq.
Qed.

(** A connection that is cached is used whatever address the DPU has now. *)
Theorem cached_address_kept dial i ip ports p c : conns p !! i = Some c -> getConnection dial i ip ports p = (Some c, p).
Proof. intros H. unfold getConnection. by rewrite H. Qed.

(** * Routing *)

(** The ports that are tried: the configured one first, then the usual ones, each once. *)
Lemma portsFor_NoDup port : NoDup (portsFor port).
Proof.
  unfold portsFor. constructor; [by intros [? _]%list_elem_of_filter|]. apply NoDup_filter.
  repeat (constructor; [set_solver|]). constructor.
Qed.

Lemma resolved_info r i info :
  GetDPUInfo r i = Ok info ->
  Index info = i /\ IPAddress info <> "" /\ GNMIPortsToTry info = portsFor (GNMIPort info) /\ GNMIPort info <> "" /\
  exists fields, stateClient r (ChassisMidplaneTablePrefix +:+ i) = Some fields /\ fields !! "ip_address" = Some (IPAddress info) /\
    (Reachable info = true <-> fields !! "access" = Some "True").
Proof.
  unfold GetDPUInfo. destruct (stateClient r _) as [fields|]; [|done]. destruct (decide (fields = ∅)); [done|].
  destruct (String.eqb_spec (default "" (fields !! "ip_address")) "") as [|Hip]; [done|].
  destruct (configClient r _) as [cf|]; [|done]. intros [= <-]. cbn [Index IPAddress GNMIPortsToTry GNMIPort Reachable].
  split_and!; [done|done|done|destruct (String.eqb_spec (default "" (cf !! "gnmi_port")) ""); done|].
  exists fields. split; [done|]. split; [by destruct (fields !! "ip_address")|]. by rewrite bool_decide_eq_true.
Qed.

(** What is to be done with a request: run the local handler, refuse it, or send it to a
    DPU. *)
Inductive Decision := RunHere | Refuse (c : Code) | SendTo (info : DPUInfo).

Definition route (resolver : option DPUResolver) (ctx : MD) (method : string) : Decision :=
  let tm := ExtractTargetMetadata ctx in
  if negb (IsDPUTarget tm) then RunHere
  else
    match getForwardingMode method, resolver with
    | None, _ => Refuse Unimplemented
    | Some HandleLocally, _ | Some ForwardToDPU, None => RunHere
    | Some ForwardToDPU, Some r =>
        match GetDPUInfo r (TargetIndex tm) with
        | Err _ => Refuse NotFound
        | Ok info => if Reachable info then SendTo info else Refuse Unavailable
        end
    end.

(** The type of request that each unary method of the registry takes. *)
Definition unaryMethods : list (string * ReqType) := [(mTime, TimeRequest); (mVerify, VerifyRequest); (mActivate, ActivateRequest)].
Definition streamMethods : list string := [mPut; mSetPackage].

(** Every method that the registry forwards has a forwarder. *)
Lemma registry_complete m : getForwardingMode m = Some ForwardToDPU -> m ∈ unaryMethods.*1 \/ m ∈ streamMethods.
Proof.
  unfold getForwardingMode, defaultForwardableMethods. cbn [findMode FullMethod Mode].
  repeat match goal with |- context [String.eqb ?a m] => destruct (String.eqb_spec a m) as [<-|_] end; intros [= ].
  all: solve [left; by apply (bool_decide_unpack _) | right; by apply (bool_decide_unpack _)].
Qed.

(** The connection that a call gets leads to the resolved address, if it is new. *)
Lemma tryPorts_target dial i ip ports p c p' :
  tryPorts dial i ip ports p = (Some c, p') -> exists port, port ∈ ports /\ connTarget p' c = hostPort ip port /\ conns p' !! i = Some c.
Proof.
  revert p. induction ports as [|port ports IH]; intros p H; [done|]. cbn [tryPorts] in H. destruct (dial _) as [|st].
  - destruct (IH p H) as (port' & Hp & ?). exists port'. split; [by right|done].
  - cbn [newClient] in H. destruct (testPasses st).
    + injection H as <- <-. exists port. split; [by left|]. split; [|apply lookup_insert_eq]. unfold connTarget.
      cbn [storePort storeConn heap]. by rewrite (list_lookup_middle (heap p) [] _ _ eq_refl).
    + destruct (IH _ H) as (port' & Hp & ?). exists port'. split; [by right|done].
Qed.

Section Routing.
Context {W Resp : Type}.
Variables (remote : string -> string -> AnyReq -> res Code Resp) (resolver : option DPUResolver) (dial : string -> Dial).

Abbreviation unary := (UnaryInterceptor (W := W) remote resolver dial).

(** The connection that a request for a DPU gets. *)
Definition connected (info : DPUInfo) (p : Proxy) : option nat * Proxy :=
  getConnection dial (Index info) (IPAddress info) (GNMIPortsToTry info) p.

Lemma forwarded_unary c req m (w : World W) :
  getForwardingMode m = Some ForwardToDPU ->
  (if String.eqb m mTime then forwardTimeRequest remote c req w
   else if String.eqb m mVerify then forwardOSVerifyRequest remote c req w
   else if String.eqb m mActivate then forwardOSActivateRequest remote c req w
   else (Err Unimplemented, w)) =
  (if decide ((m, reqType req) ∈ unaryMethods) then
     (remote (connTarget (wProxy w) c) m req, mkWorld (W := W) (wProxy w) (server w) (sent w ++ [mkSent (connTarget (wProxy w) c) m req]))
   else (Err (if decide (m ∈ streamMethods) then Unimplemented else Internal), w)).
Proof.
  intros [Hm|Hm]%registry_complete.
  - unfold unaryMethods in Hm. cbn in Hm.
    repeat (apply elem_of_cons in Hm as [->|Hm]); [..|by apply elem_of_nil in Hm].
    all: cbn [String.eqb]; unfold forwardTimeRequest, forwardOSVerifyRequest, forwardOSActivateRequest, forwardRequest.
    all: destruct req as [[| | |n] b]; reflexivity.
  - unfold streamMethods in Hm. repeat (apply elem_of_cons in Hm as [->|Hm]); [..|by apply elem_of_nil in Hm];
      destruct req as [[| | |n] b]; reflexivity.
Qed.

(** The interceptor by the decision of [route]. *)
Lemma unary_by_route ctx req m handler (w : World W) :
  match route resolver ctx m with
  | RunHere => unary ctx req m handler w = handler ctx req w
  | Refuse c => unary ctx req m handler w = (Err c, w)
  | SendTo info =>
      let '(conn, p) := connected info (wProxy w) in
      match conn with
      | None => unary ctx req m handler w = (Err Internal, withProxy p w)
      | Some c =>
          if decide ((m, reqType req) ∈ unaryMethods) then
            unary ctx req m handler w =
              (remote (connTarget p c) m req, mkWorld p (server w) (sent w ++ [mkSent (connTarget p c) m req]))
          else exists e, unary ctx req m handler w = (Err e, withProxy p w)
      end
  end.
Proof.
  unfold route, UnaryInterceptor, connected. destruct (IsDPUTarget (ExtractTargetMetadata ctx)); [|done]. cbn [negb].
  destruct (getForwardingMode m) as [[]|] eqn:Em; [|done|done]. destruct resolver as [r|]; [|done].
  destruct (GetDPUInfo r _) as [info|e]; [|done]. destruct (Reachable info); [|done]. cbn [negb].
  destruct (getConnection _ _ _ _ _) as [[c|] p]; [|done]. cbv zeta. rewrite forwarded_unary by done.
  destruct (decide _); [done|by eexists].
Qed.

(** ** What the documentation of the proxy says, from the headers and the databases *)

(** A request for DPU [i]: the headers of its metadata. *)
Definition addressedTo (ctx : MD) (i : string) : Prop :=
  exists md others, ctx = Some md /\ md !! "x-sonic-ss-target-type" = Some ("dpu" :: others) /\
    match md !! "x-sonic-ss-target-index" with Some (v :: _) => i = v | _ => i = "" end.

Definition forwardedMethods : list string :=
  ["/gnoi.system.System/Time"; "/gnoi.file.File/Put"; "/gnoi.system.System/SetPackage"; "/gnoi.os.OS/Verify"; "/gnoi.os.OS/Activate"].
Definition localMethods : list string :=
  ["/gnoi.file.File/TransferToRemote"; "/gnoi.system.System/Reboot";
   "/grpc.reflection.v1.ServerReflection/ServerReflectionInfo"; "/grpc.reflection.v1alpha.ServerReflection/ServerReflectionInfo"].

(** The unary methods that are forwarded, with the type of their requests. *)
Definition forwardedUnary : list (string * ReqType) :=
  [("/gnoi.system.System/Time", TimeRequest); ("/gnoi.os.OS/Verify", VerifyRequest); ("/gnoi.os.OS/Activate", ActivateRequest)].

(** The rows of DPU [i] in the databases give an address, whether it is reachable, and the
    ports: the configured one, else 50052, then 8080 and 50052 where they are others. *)
Definition inDatabase (r : DPUResolver) (i ip : string) (reachable : bool) (ports : list string) : Prop :=
  exists st cfg, stateClient r ("CHASSIS_MIDPLANE_TABLE|DPU" +:+ i) = Some st /\ configClient r ("DPU|dpu" +:+ i) = Some cfg /\
    st !! "ip_address" = Some ip /\ ip <> "" /\ (reachable = true <-> st !! "access" = Some "True") /\
    exists port, ports = port :: base.filter (fun p => p <> port) ["8080"; "50052"] /\
      match cfg !! "gnmi_port" with Some "" | None => port = "50052" | Some p => port = p end.

(** A port answers when the connection can be made and the test call does not end as
    unavailable. *)
Definition answers (ip port : string) : Prop := exists st, dial (ip +:+ ":" +:+ port) = Tested st /\ st <> Some Unavailable.

#[local] Instance answers_dec ip port : base.Decision (answers ip port).
Proof.
  unfold answers. destruct (dial (ip +:+ ":" +:+ port)) as [|st]; [right; by intros (? & ? & _)|].
  destruct (decide (st = Some Unavailable)) as [->|Hne]; [right; intros (? & [= <-] & ?); done|left; eauto].
Defined.

(** Where a call for DPU [i] goes: to the connection that is cached, else to the first port
    that answers. *)
Definition goesTo (p : Proxy) (i ip : string) (ports : list string) : option string :=
  match conns p !! i with
  | Some c => Some (connTarget p c)
  | None => (fun port => ip +:+ ":" +:+ port) <$> head (base.filter (answers ip) ports)
  end.

Lemma tryPorts_first i ip ports p :
  match tryPorts dial i ip ports p, head (base.filter (answers ip) ports) with
  | (Some c, p'), Some port => connTarget p' c = ip +:+ ":" +:+ port /\ conns p' !! i = Some c
  | (None, _), None => True
  | _, _ => False
  end.
Proof.
  revert p. induction ports as [|port ports IH]; intros p; [done|]. cbn [tryPorts]. rewrite filter_cons. unfold hostPort at 1.
  destruct (decide (answers ip port)) as [(st & Hd & Hst)|Hn].
  - rewrite Hd. cbn [newClient]. unfold testPasses. rewrite bool_decide_false by done. cbn [negb head].
    split; [|apply lookup_insert_eq]. unfold connTarget. cbn [storePort storeConn heap].
    by rewrite (list_lookup_middle (heap p) [] _ _ eq_refl).
  - destruct (dial (ip +:+ ":" +:+ port)) as [|st] eqn:Hd; [apply IH|]. cbn [newClient]. unfold testPasses.
    rewrite bool_decide_true; [apply IH|]. destruct (decide (st = Some Unavailable)); [done|]. destruct Hn. by exists st.
Qed.

Lemma connection_goes i ip ports p :
  match getConnection dial i ip ports p, goesTo p i ip ports with
  | (Some c, p'), Some tgt => connTarget p' c = tgt /\ conns p' !! i = Some c
  | (None, _), None => True
  | _, _ => False
  end.
Proof.
  unfold getConnection, goesTo. destruct (conns p !! i) as [c|] eqn:E; [done|]. pose proof (tryPorts_first i ip ports p) as H.
  destruct (tryPorts dial i ip ports p) as [[c|] p']; by destruct (head _).
Qed.

Lemma addressed_target ctx : match ctx with
  | Some md => IsDPUTarget (ExtractTargetMetadata ctx) = true -> addressedTo ctx (TargetIndex (ExtractTargetMetadata ctx))
  | None => IsDPUTarget (ExtractTargetMetadata ctx) = false
  end.
Proof.
  destruct ctx as [md|]; [|done]. unfold IsDPUTarget, ExtractTargetMetadata. cbn [HasMetadata TargetType TargetIndex].
  intros [_ Ht%String.eqb_eq]%andb_true_iff. destruct (md !! MetadataKeyTargetType) as [[|v l]|] eqn:Em; try done. subst v.
  exists md, l. split_and!; [done|exact Em|]. unfold MetadataKeyTargetIndex. by destruct (md !! "x-sonic-ss-target-index") as [[]|].
Qed.

Lemma addressed_only ctx i : addressedTo ctx i -> IsDPUTarget (ExtractTargetMetadata ctx) = true /\ TargetIndex (ExtractTargetMetadata ctx) = i.
Proof.
  intros (md & l & -> & Ht & Hi). unfold ExtractTargetMetadata, IsDPUTarget, MetadataKeyTargetType, MetadataKeyTargetIndex.
  cbn [HasMetadata TargetType TargetIndex]. rewrite Ht. split; [done|]. by destruct (md !! "x-sonic-ss-target-index") as [[]|].
Qed.

Lemma mode_spec m :
  match getForwardingMode m with
  | Some ForwardToDPU => m ∈ forwardedMethods /\ m ∉ localMethods
  | Some HandleLocally => m ∈ localMethods /\ m ∉ forwardedMethods
  | None => m ∉ forwardedMethods /\ m ∉ localMethods
  end.
Proof.
  unfold getForwardingMode, defaultForwardableMethods. cbn [findMode FullMethod Mode].
  repeat match goal with |- context [String.eqb ?a m] =>
    destruct (String.eqb_spec a m) as [<-|]; [split; by apply (bool_decide_unpack _)|] end.
  split; intros H; repeat (apply elem_of_cons in H as [->|H]; [done|]); by apply elem_of_nil in H.
Qed.

Lemma info_spec r i :
  match GetDPUInfo r i with
  | Ok info => Index info = i /\ inDatabase r i (IPAddress info) (Reachable info) (GNMIPortsToTry info)
  | Err _ => forall ip a ports, ~ inDatabase r i ip a ports
  end.
Proof.
  unfold GetDPUInfo, inDatabase, ChassisMidplaneTablePrefix, DPUConfigTablePrefix.
  destruct (stateClient r _) as [st|]; [|by intros ip a ports (? & ? & ? & _)].
  destruct (decide (st = ∅)) as [->|Hne]; [by intros ip a ports (? & ? & [= <-] & _ & ? & _)|].
  destruct (st !! "ip_address") as [ip|] eqn:Ei; cbn [default from_option id];
    [|by intros ip a ports (? & ? & [= <-] & _ & ? & _); congruence].
  destruct (String.eqb_spec ip "") as [->|Hip]; [intros ip a ports (? & ? & [= <-] & _ & ? & ? & _); congruence|].
  destruct (configClient r _) as [cfg|]; [|by intros ip' a ports (? & ? & _ & ? & _)]. split; [done|]. cbn [IPAddress Reachable GNMIPortsToTry].
  exists st, cfg. split_and!; [done..|by rewrite bool_decide_eq_true|]. eexists. split; [reflexivity|].
  destruct (cfg !! "gnmi_port") as [[|c s]|]; reflexivity.
Qed.

Lemma inDatabase_unique r i ip a ports ip' a' ports' :
  inDatabase r i ip a ports -> inDatabase r i ip' a' ports' -> ip = ip' /\ a = a' /\ ports = ports'.
Proof.
  intros (st & cfg & H1 & H2 & H3 & _ & H5 & port & -> & H6) (st' & cfg' & H1' & H2' & H3' & _ & H5' & port' & -> & H6').
  simplify_eq. split; [done|]. split; [destruct a, a'; naive_solver|]. destruct (cfg !! "gnmi_port") as [[]|]; by subst.
Qed.

(** C9. The unary interceptor routes as the headers and the databases say.  The local handler
    runs unchanged for a request that is not addressed to a DPU, for a method that is
    handled locally, and where there is no resolver.  A request for a DPU is refused
    without any effect when its method is not registered, when the databases have no
    address of the DPU, and when they say that it is not reachable.  Every other request for
    DPU [i] leaves the local server alone: it goes to the connection cached for [i], else to
    the first port that answers, which is cached then; exactly one call is made, with the
    method and the request of the client, whose answer is that of the DPU; without such a
    port, and for a request that is no unary request of its method, no call is made. *)
Theorem unary_routes ctx req m handler (w : World W) :
  ((forall i, ~ addressedTo ctx i) \/ m ∈ localMethods \/ (m ∈ forwardedMethods /\ resolver = None) -> unary ctx req m handler w = handler ctx req w) /\
  forall i, addressedTo ctx i ->
    (m ∉ localMethods -> m ∉ forwardedMethods -> unary ctx req m handler w = (Err Unimplemented, w)) /\
    forall r, m ∈ forwardedMethods -> resolver = Some r ->
      ((forall ip a ports, ~ inDatabase r i ip a ports) -> unary ctx req m handler w = (Err NotFound, w)) /\
      (forall ip ports, inDatabase r i ip false ports -> unary ctx req m handler w = (Err Unavailable, w)) /\
      (forall ip ports, inDatabase r i ip true ports ->
         exists out p, unary ctx req m handler w = (out, mkWorld p (server w) (sent w ++
             match goesTo (wProxy w) i ip ports with
             | Some tgt => if decide ((m, reqType req) ∈ forwardedUnary) then [mkSent tgt m req] else []
             | None => []
             end)) /\
           match goesTo (wProxy w) i ip ports with
           | Some tgt =>
               (exists c, conns p !! i = Some c /\ connTarget p c = tgt) /\
               (if decide ((m, reqType req) ∈ forwardedUnary) then out = remote tgt m req else exists e, out = Err e)
           | None => out = Err Internal
           end).
Proof.
  pose proof (unary_by_route ctx req m handler w) as Hr. pose proof (mode_spec m) as Hm. unfold route in Hr. split.
  - intros Hloc. destruct (IsDPUTarget (ExtractTargetMetadata ctx)) eqn:Ea; cbn [negb] in Hr; [|exact Hr].
    destruct Hloc as [Hno|Hloc].
    { pose proof (addressed_target ctx) as Ha. destruct ctx; [|congruence]. destruct (Hno _ (Ha Ea)). }
    destruct (getForwardingMode m) as [[]|]; [|exact Hr|set_solver].
    destruct resolver as [r|]; [|exact Hr]. destruct Hloc as [?|[? ?]]; [set_solver|done].
  - intros i Hi. apply addressed_only in Hi as [Ha Hi]. rewrite Ha, Hi in Hr. cbn [negb] in Hr. split.
    { intros Hl Hf. destruct (getForwardingMode m) as [[]|]; [set_solver|set_solver|exact Hr]. }
    intros r Hf Hres. destruct (getForwardingMode m) as [[]|] eqn:Em; [|set_solver|set_solver]. rewrite Hres in Hr |- *.
    pose proof (info_spec r i) as Hinfo. destruct (GetDPUInfo r i) as [info|e].
    2: { split; [intros _; exact Hr|split]; intros ip ports Hd; by destruct (Hinfo _ _ _ Hd). }
    destruct Hinfo as [Hix Hdb]. split; [intros Hno; by destruct (Hno _ _ _ Hdb)|]. split; intros ip ports Hd;
      destruct (inDatabase_unique _ _ _ _ _ _ _ _ Hdb Hd) as (<- & Ea' & <-); rewrite Ea' in Hr; [exact Hr|].
    unfold connected in Hr. rewrite Hix in Hr. pose proof (connection_goes i (IPAddress info) (GNMIPortsToTry info) (wProxy w)) as Hc.
    change unaryMethods with forwardedUnary in Hr.
    destruct (getConnection dial i _ _ _) as [[c|] p]; destruct (goesTo _ _ _ _) as [tgt|]; try done.
    + destruct Hc as [<- Hc]. destruct (decide _).
      * eexists _, _. split; [exact Hr|]. split; [by exists c|done].
      * destruct Hr as [e Hr]. eexists _, p. rewrite app_nil_r. split; [exact Hr|]. split; [by exists c|by exists e].
    + eexists _, p. rewrite app_nil_r. by split; [exact Hr|].
Qed.

(** A request that is sent to a DPU is not seen by the local handler, nor by what the handler
    does first, which is the authentication of the caller. *)
Theorem forwarded_unauthenticated ctx req m info handler (w : World W) refuse :
  route resolver ctx m = SendTo info -> unary ctx req m handler w = unary ctx req m (fun _ _ w => (Err refuse, w)) w.
Proof.
  intros Hr.
  unfold UnaryInterceptor, route in *. destruct (IsDPUTarget _); [|done]. cbn [negb] in *.
  destruct (getForwardingMode m) as [[]|]; [|done|done]. by destruct resolver.
Qed.

End Routing.

(** ** Streams *)

Section Streams.
Context {M R : Type}.

Lemma forwardRequests_sent (s : DPUStream M R) msgs fin acc e sent :
  forwardRequests s msgs fin acc = (e, sent) ->
  exists done rest, sent = acc ++ done /\ msgs = done ++ rest /\ (e = None -> rest = [] /\ fin = EndOfStream).
Proof.
  revert acc. induction msgs as [|m msgs IH]; intros acc H; cbn [forwardRequests] in H.
  - injection H as <- <-. exists [], []. rewrite app_nil_r. split; [done|]. split; [done|]. by destruct fin.
  - destruct (ended s acc); [injection H as <- <-; exists [], (m :: msgs); by rewrite app_nil_r|].
    destruct (IH _ H) as (d & rest & -> & -> & He). exists (m :: d), rest. by rewrite <- app_assoc.
Qed.

(** A forwarded stream is faithful: whatever fails on either side, the DPU is sent a prefix
    of the client's messages, in order; and the client's call succeeds only if the client
    ended its stream, the DPU was sent every message, and the response that the client got
    is the answer of the DPU to exactly these messages. *)
Theorem stream_faithful (s : DPUStream M R) msgs fin sendOk st resp sent :
  forwardClientStream s msgs fin sendOk = (st, resp, sent) ->
  sent `prefix_of` msgs /\
  (st = None -> fin = EndOfStream /\ sent = msgs /\ exists r, answer s msgs = Ok r /\ resp = Some r) /\
  (st <> None -> resp = None).
Proof.
  unfold forwardClientStream. destruct (opens s); cbn [negb]; [|intros [= <- <- <-]; split; [apply prefix_nil|done]].
  destruct (forwardRequests s msgs fin []) as [e sent'] eqn:Ef. apply forwardRequests_sent in Ef as (d & rest & -> & -> & He).
  rewrite app_nil_l. assert (d `prefix_of` d ++ rest) as Hp by (by exists rest).
  destruct e as [c|]; [by intros [= <- <- <-]|]. destruct (He eq_refl) as [-> ->]. rewrite app_nil_r in *.
  destruct (answer s d) as [r|c] eqn:Ea; [destruct sendOk|]; intros [= <- <- <-]; (split; [done|]); (split; [|done]); [|done..].
  intros _. split; [done|]. split; [done|]. by exists r.
Qed.

End Streams.

Section StreamRouting.
Context {W : Type}.
Variables (dpuStream : string -> string -> DPUStream StreamMsg string) (resolver : option DPUResolver) (dial : string -> Dial).

Abbreviation streaming := (StreamInterceptor (W := W) dpuStream resolver dial).

(** The stream interceptor routes as the unary one does: a stream for a DPU never reaches
    the local handler and leaves the server's state alone; it is forwarded on the
    connection to this DPU, and its status is that of the forwarding. *)
Theorem stream_routes ss m handler (w : StreamWorld W) :
  match route resolver (ssContext ss) m with
  | RunHere => streaming ss m handler w = handler ss w
  | Refuse c => streaming ss m handler w = (Some c, w)
  | SendTo info =>
      let '(conn, p) := connected dial info (swProxy w) in
      match conn with
      | None => streaming ss m handler w = (Some Internal, mkSW p (swServer w) (swSent w))
      | Some c =>
          if decide (m ∈ streamMethods) then
            exists st resp msgs,
              forwardClientStream (dpuStream (connTarget p c) m) (ssMsgs ss) (ssEnd ss) (ssSendOk ss) = (st, resp, msgs) /\
              streaming ss m handler w = (st, mkSW p (swServer w) (swSent w ++ [(connTarget p c, m, msgs)]))
          else streaming ss m handler w = (Some Unimplemented, mkSW p (swServer w) (swSent w))
      end
  end.
Proof.
  unfold route, StreamInterceptor, connected. destruct (IsDPUTarget (ExtractTargetMetadata (ssContext ss))); [|done]. cbn [negb].
  destruct (getForwardingMode m) as [[]|] eqn:Em; [|done|done]. destruct resolver as [r|]; [|done].
  destruct (GetDPUInfo r _) as [info|e]; [|done]. destruct (Reachable info); [|done]. cbn [negb].
  destruct (getConnection _ _ _ _ _) as [[c|] p]; [|done]. unfold forwardStream, forwardFilePutStream, forwardSetPackageStream, forwardOn.
  cbn [swProxy swServer swSent].
  destruct (String.eqb_spec m mPut) as [->|H1]; [|destruct (String.eqb_spec m mSetPackage) as [->|H2]].
  1-2: rewrite decide_True by (by apply (bool_decide_unpack _)); destruct (forwardClientStream _ _ _ _) as [[st resp] msgs]; by eexists _, _, _.
  rewrite decide_False; [done|]. unfold streamMethods. intros [?|[?|[]%elem_of_nil]%elem_of_cons]%elem_of_cons; done.
Qed.

End StreamRouting.

(** ** Uploads through the proxy *)

Section Upload.
Variable fails : nat -> bool.
Variable torn : nat -> nat.
Variable inContainer : bool.
Variable md5 : string -> string.

(** The run of the file service on the DPU, with the way its stream ended. *)
Definition dpuPut (w : FW) (msgs : list PutRequest) (last : PutEvent) : option Code * FW :=
  HandlePut fails torn inContainer md5 ((PutMsg <$> msgs) ++ [last]) true w.

(** A DPU in state [w] as the other end of a forwarded upload. *)
Definition dpuFileService (up : bool) (ends : list PutRequest -> bool) (w : FW) : DPUStream PutRequest unit :=
  mkStream up ends (fun msgs => match (dpuPut w msgs PutEOF).1 with None => Ok tt | Some e => Err e end).

Lemma payload_prefix acc sent rest last x :
  (forall m, last <> PutMsg m) -> payload acc ((PutMsg <$> sent) ++ [last]) = Some x -> payload acc (PutMsg <$> (sent ++ rest)) = Some x.
Proof.
  intros Hl. revert acc. induction sent as [|[p m|d|h|] sent IH]; intros acc H; cbn in H |- *; try done; [|by apply IH].
  destruct last; try done. by destruct (Hl m).
Qed.

(** C8. An upload through the proxy is all or nothing on the DPU: whatever fails on the way,
    on the client's side or on the DPU, and however the DPU sees its stream end, the file
    there stays as it was or holds exactly the contents that the client sent with the hash
    that the client sent; and when the client's call succeeds, it is the latter. *)
Theorem upload_through_proxy up ends w reqs fin sendOk st resp sent last r w' :
  forwardClientStream (dpuFileService up ends w) reqs fin sendOk = (st, resp, sent) ->
  (forall m, last <> PutMsg m) -> (st = None -> last = PutEOF) ->
  dpuPut w sent last = (r, w') ->
  (w' = w /\ st <> None) \/
  exists path permissions rest, reqs = PutOpen path permissions :: rest /\ validatePath path = Ok tt /\
    let target := translatePathForContainer inContainer path in
    (files w' !! target = files w !! target /\ st <> None) \/
    exists data, payload "" (PutMsg <$> rest) = Some (data, md5 data) /\
      files w' !! target = Some (Reg data (syscallMode (putMode permissions))).
Proof.
  intros Hf Hl Hlast Hput. unfold forwardClientStream in Hf. unfold dpuPut in Hput.
  assert (sent `prefix_of` reqs /\ (st = None -> r = None)) as [[more Hmore] Hst].
  { cbn [opens dpuFileService] in Hf. destruct (negb up); [injection Hf as <- <- <-; split; [apply prefix_nil|done]|].
    destruct (forwardRequests _ reqs fin []) as [e sent'] eqn:Ef. apply forwardRequests_sent in Ef as (d & rest & -> & -> & He).
    rewrite app_nil_l in Hf. destruct e as [c|]; [injection Hf as <- <- <-; split; [by exists rest|done]|].
    destruct (answer _ d) as [u|c] eqn:Ea; [|injection Hf as <- <- <-; split; [by exists rest|done]].
    cbn [answer dpuFileService] in Ea. destruct sendOk; injection Hf as <- <- <-; (split; [by exists rest|]); [|done].
    intros _. rewrite (Hlast eq_refl) in Hput. unfold dpuPut in Ea. rewrite Hput in Ea. cbn [fst] in Ea. by destruct r. }
  assert (r <> None -> st <> None) as Hst' by (intros Hr E; by apply Hr, Hst).
  destruct (put_outcome fails torn inContainer md5 _ _ _ _ _ Hput) as [[-> Hr]|(path & m & stream & Hs & Hv & _ & Ho)]; [by left; auto|].
  right. destruct sent as [|m0 sent]; [cbn in Hs; injection Hs as Hs _; by destruct (Hl _ Hs)|]. cbn in Hs. injection Hs as -> <-.
  exists path, m, (sent ++ more). split; [done|]. split; [done|]. destruct Ho as [[Ho Hr]|(data & Hp & Hd)]; [by left; auto|right].
  exists data. split; [|done]. by eapply payload_prefix.
Qed.

End Upload.

(** A DPU that answers before the client has sent everything: the client gets [Unknown],
    not the answer. *)
Theorem early_answer_lost {M R} (s : DPUStream M R) m msgs fin sendOk :
  opens s = true -> ended s [] = true -> forwardClientStream s (m :: msgs) fin sendOk = (Some Unknown, None, []).
Proof. intros Ho He. unfold forwardClientStream. rewrite Ho. cbn [negb forwardRequests]. by rewrite He. Qed.

(** The status of a DPU that refuses a stream is replaced by [Internal]. *)
Theorem dpu_status_lost {M R} (s : DPUStream M R) msgs sendOk c :
  opens s = true -> (forall acc, ended s acc = false) -> answer s msgs = Err c ->
  forwardClientStream s msgs EndOfStream sendOk = (Some Internal, None, msgs).
Proof.
  intros Ho He Ha. unfold forwardClientStream. rewrite Ho. cbn [negb].
  assert (forall l acc, forwardRequests s l EndOfStream acc = (None, acc ++ l)) as Hf.
  { induction l as [|m l IH]; intros acc; cbn [forwardRequests]; [by rewrite app_nil_r|]. rewrite He, IH. by rewrite <- app_assoc. }
  rewrite Hf, app_nil_l. by rewrite Ha.
Qed.

(** ** The headers of a transfer *)

(** The file service takes a transfer to be for a DPU when the interceptor does and there is
    an index. *)
Lemma dpuTarget_spec md i :
  dpuTarget md = Some i <->
  IsDPUTarget (ExtractTargetMetadata md) = true /\ TargetIndex (ExtractTargetMetadata md) = i /\ i <> "".
Proof.
  destruct md as [md|]; [|split; [done|by intros [? _]]]. unfold dpuTarget, IsDPUTarget, ExtractTargetMetadata, mdFirst.
  cbn [TargetType TargetIndex HasMetadata]. fold MetadataKeyTargetType MetadataKeyTargetIndex TargetTypeDPU.
  set (ty := match md !! MetadataKeyTargetType with Some (v :: _) => v | _ => "" end).
  set (ix := match md !! MetadataKeyTargetIndex with Some (v :: _) => v | _ => "" end).
  rewrite andb_true_iff.
  destruct (String.eqb_spec ty TargetTypeDPU) as [->|Hty]; [|split; [done|by intros [[_ ?] _]]].
  destruct (String.eqb_spec ix "") as [->|Hix]; [split; [done|by intros (_ & <- & ?)]|].
  split; [by intros [= <-]|by intros (_ & -> & _)].
Qed.

(** Without an index a transfer to a DPU passes the interceptor and is made to the switch
    itself. *)
Theorem transfer_without_index resolver md :
  md !! MetadataKeyTargetType = Some [TargetTypeDPU] -> md !! MetadataKeyTargetIndex = None ->
  route resolver (Some md) mTransferToRemote = RunHere /\ dpuTarget (Some md) = None.
Proof.
  intros H1 H2. unfold route, dpuTarget, ExtractTargetMetadata, mdFirst. fold MetadataKeyTargetType MetadataKeyTargetIndex.
  by rewrite H1, H2.
Qed.

(** * The chain *)

Section Chains.
Context {I Args A : Type} `{!Interceptor I Args A}.

(** The handler that runs the interceptors of a list in order. *)
Definition inOrder (info : string) (l : list I) (handler : Args -> A) : Args -> A :=
  foldr (fun i h args => intercept i args info h) handler l.

Lemma wrapFrom_inOrder (l : list I) info n handler :
  n <= length l -> wrapFrom (NewChain l) info n handler = inOrder info (take n l) handler.
Proof.
  revert handler. induction n as [|n IH]; intros handler Hn; [done|]. cbn [wrapFrom].
  destruct (lookup_lt_is_Some_2 l n ltac:(lia)) as [i Hi]. rewrite IH by lia. rewrite (take_S_r l n i Hi).
  unfold inOrder. rewrite foldr_app. cbn [foldr]. unfold wrap. cbn [interceptors]. by rewrite Hi.
Qed.

(** A chain, which is built from its end by a loop over the indices, runs its interceptors
    in the order of the list, the last around the handler; the empty chain is the handler;
    and a chain of two lists is the first around the second. *)
Theorem chain_in_order (l l' : list I) args info handler :
  chainInterceptor (NewChain l) args info handler = inOrder info l handler args /\
  chainInterceptor (NewChain []) args info handler = handler args /\
  chainInterceptor (NewChain (l ++ l')) args info handler =
    chainInterceptor (NewChain l) args info (fun a => chainInterceptor (NewChain l') a info handler).
Proof.
  assert (forall l h, chainInterceptor (NewChain l) args info h = inOrder info l h args) as Hall.
  { intros k h. unfold chainInterceptor. cbn [interceptors]. by rewrite wrapFrom_inOrder, firstn_all. }
  split_and!; [apply Hall|done|]. rewrite !Hall. unfold inOrder at 1. rewrite foldr_app. unfold inOrder. f_equal.
  change (fun a => chainInterceptor (NewChain l') a info handler) with (wrapFrom (NewChain l') info (length l') handler).
  by rewrite wrapFrom_inOrder, firstn_all.
Qed.

End Chains.

(** The server's chain is the proxy alone. *)
Lemma server_chain_unary {W Resp} (remote : string -> string -> AnyReq -> res Code Resp) state config net ctx req info
    (handler : UnaryHandler W Resp) w :
  @chainInterceptor DPUProxy _ _ (dpuUnary remote) (chain (NewServerChain state config net)) (ctx, req) info (fun a => handler a.1 a.2) w =
  UnaryInterceptor remote (Some (mkResolver state config)) net ctx req info handler w.
Proof. reflexivity. Qed.

(** * Witnesses *)

Definition demo_k (i : string) : Call := mkCall i ("10.0.0." +:+ i) ["50052"; "8080"] Start.
Definition demo_ks : list Call := [demo_k "0"; demo_k "0"].
Definition demo_dial : string -> Dial := fun _ => Tested None.

(** The first of two calls for the same DPU has returned. *)
Definition demo_s : St :=
  upd 0 (demo_k "0") (Returned (Some 0)) (getConnection demo_dial "0" "10.0.0.0" ["50052"; "8080"] NewDPUProxy).2 None (initial demo_ks).

Lemma demo_reaches : reaches demo_ks demo_s.
Proof.
  split; [by repeat constructor|]. exact (getConnection_runs demo_dial (initial demo_ks) 0 (demo_k "0") eq_refl eq_refl eq_refl).
Qed.

Lemma one_connection_per_dpu_witness :
  exists t k c, at_ t k demo_s /\ returned k (Some c) /\ conns (Pool.proxy demo_s) !! dpu k = Some c.
Proof.
  exists 0, (goto (demo_k "0") (Returned (Some 0))), 0.
  assert (at_ 0 (goto (demo_k "0") (Returned (Some 0))) demo_s) as H by reflexivity.
  split; [exact H|]. split; [by left|].
  destruct (one_connection_per_dpu demo_ks demo_s demo_reaches) as (H1 & _). apply (H1 0 _ 0 H). by left.
Defined.

Lemma concurrent_calls_return_witness :
  Forall fresh demo_ks /\ (exists s', step demo_s s') /\ forall n s, nsteps step n (initial demo_ks) s -> n <= 24.
Proof.
  assert (Forall fresh demo_ks) as Hf by (by repeat constructor).
  destruct (concurrent_calls_return demo_ks Hf) as [H1 H2]. split; [exact Hf|]. split.
  - apply H2; [split; [exact Hf|apply demo_reaches]|]. exists 1, (demo_k "0"). by split.
  - exact H1.
Defined.

Abbreviation demo_forward :=
  (forwardClientStream (dpuFileService never (fun _ => 0) true demo_md5 true (fun _ => false) demo_fw)
     [PutOpen "/tmp/image" 0; PutContents "ab"; PutHash "md5:ab"] EndOfStream true).

Lemma upload_through_proxy_witness :
  exists w', demo_forward = (None, Some tt, [PutOpen "/tmp/image" 0; PutContents "ab"; PutHash "md5:ab"]) /\
    exists data, payload "" [PutMsg (PutContents "ab"); PutMsg (PutHash "md5:ab")] = Some (data, demo_md5 data) /\
      files w' !! "/mnt/host/tmp/image" = Some (Reg data (syscallMode 420)).
Proof.
  assert (demo_forward = (None, Some tt, [PutOpen "/tmp/image" 0; PutContents "ab"; PutHash "md5:ab"])) as H by (vm_compute; reflexivity).
  destruct (dpuPut never (fun _ => 0) true demo_md5 demo_fw [PutOpen "/tmp/image" 0; PutContents "ab"; PutHash "md5:ab"] PutEOF)
    as [r w'] eqn:Hp.
  exists w'. split; [exact H|].
  destruct (upload_through_proxy never (fun _ => 0) true demo_md5 true (fun _ => false) demo_fw _ _ _ _ _ _ PutEOF r w' H
      ltac:(done) ltac:(done) Hp) as [[_ Hn]|(path & m & rest & [= <- <- <-] & _ & [[_ Hn]|Hd])]; [by destruct Hn|by destruct Hn|].
  exact Hd.
Defined.
