(* ===== verification/HostCommand.v ===== *)
(** Commands on the host (src/pkg/exec/command.go): the arguments of nsenter, the options
    and the result of a run, and the parser of command lines.

    The operating system is a parameter: what a started command writes and how it ends.
    Strings are sequences of bytes; a byte outside ASCII counts as no white space. *)

From Stdlib Require Import Ascii.
From S2P Require Import Prelude.

Module HostCommand.

(** * Running a command *)

Definition hostPID : string := "1".
(** In nanoseconds. *)
Definition second : Z := 1000000000.
Definition defaultTimeout : Z := (30 * second)%Z.

Record RunHostCommandOptions := mkOptions {
  Timeout : Z;
  Namespaces : list string;
  WorkingDir : string;
  Environment : list string
}.

(** How [cmd.Run] fails: with an exit code, or otherwise. *)
Inductive RunError := ExitError (code : Z) | NotRun (text : string).

Record CommandResult := mkResult {
  Stdout : string;
  Stderr : string;
  ExitCode : Z;
  Error : option RunError
}.

(** The process that is started: its arguments, directory, environment and deadline. *)
Record Process := mkProcess { argv : list string; dir : string; env : list string; deadline : Z }.

Definition defaultNamespaces : list string := ["pid"; "mount"; "uts"; "ipc"; "net"].

Definition buildNsenterArgs (opts : option RunHostCommandOptions) (command : string) (args : list string) : list string :=
  let namespaces :=
    match opts with
    | Some o => match Namespaces o with [] => defaultNamespaces | l => l end
    | None => defaultNamespaces
    end in
  ["--target"; hostPID] ++ ((fun ns => "--" +:+ ns) <$> namespaces) ++ ["--"; command] ++ args.

Definition processFor (command : string) (args : list string) (opts : option RunHostCommandOptions) : Process :=
  let o := default (mkOptions 0 [] "" []) opts in
  mkProcess (buildNsenterArgs (Some o) command args) (WorkingDir o) (Environment o)
    (if (Timeout o =? 0)%Z then defaultTimeout else Timeout o).

Section Run.
(** The output of a process and its error. *)
Variable os : Process -> string * string * option RunError.

(** [None]: the error of an empty command. *)
Definition RunHostCommand (command : string) (args : list string) (opts : option RunHostCommandOptions) : option CommandResult :=
  if String.eqb command "" then None
  else
    let '(stdout, stderr, err) := os (processFor command args opts) in
    Some (mkResult stdout stderr (match err with Some (ExitError c) => c | _ => 0 end) err).

Definition RunHostCommandSimple (command : string) (args : list string) : option string :=
  match RunHostCommand command args None with
  | None => None
  | Some result => match Error result with Some _ => None | None => Some (Stdout result) end
  end.
End Run.

(** * Command lines *)

Inductive ParseErr := ErrEmptyCommand | ErrUnclosedQuote | ErrNoCommand.

Abbreviation chars := (list Ascii.ascii).

Definition squote : Ascii.ascii := Ascii.ascii_of_nat 39.
Definition dquote : Ascii.ascii := Ascii.ascii_of_nat 34.
Definition backslash : Ascii.ascii := Ascii.ascii_of_nat 92.
Definition isQuote (c : Ascii.ascii) : bool := Ascii.eqb c squote || Ascii.eqb c dquote.

(** The variables of the loop: the finished parts, the part being read, the open quote. *)
Record Parse := mkParse { parts : list chars; current : chars; quote : option Ascii.ascii }.

Definition flush (p : Parse) : Parse :=
  match current p with [] => p | c => mkParse (parts p ++ [c]) [] (quote p) end.

Definition write (r : Ascii.ascii) (p : Parse) : Parse := mkParse (parts p) (current p ++ [r]) (quote p).

(** One character, after the previous one. *)
Definition parseChar (prev : option Ascii.ascii) (r : Ascii.ascii) (p : Parse) : Parse :=
  match quote p with
  | None =>
      if isQuote r then mkParse (parts p) (current p) (Some r)
      else if is_space r then flush p
      else write r p
  | Some q =>
      if Ascii.eqb r q then
        if bool_decide (prev = Some backslash) then write r p else mkParse (parts p) (current p) None
      else write r p
  end.

Fixpoint parseLoop (prev : option Ascii.ascii) (s : chars) (p : Parse) : Parse :=
  match s with
  | [] => p
  | r :: s => parseLoop (Some r) s (parseChar prev r p)
  end.

Definition ParseCommand (cmdStr : string) : res ParseErr (string * list string) :=
  let cmdStr := trim_space cmdStr in
  if String.eqb cmdStr "" then Err ErrEmptyCommand
  else
    let p := flush (parseLoop None (String.list_ascii_of_string cmdStr) (mkParse [] [] None)) in
    match quote p with
    | Some _ => Err ErrUnclosedQuote
    | None =>
        match String.string_of_list_ascii <$> parts p with
        | [] => Err ErrNoCommand
        | command :: args => Ok (command, args)
        end
    end.

(** * Theorems *)

(** The process runs what was asked for, in the host's namespaces, and always has a time
    limit. *)
Lemma process_argv command args opts :
  exists pre, argv (processFor command args opts) = "--target" :: "1" :: pre ++ "--" :: command :: args /\
    Forall (fun a => has_prefix a "--" = true) pre.
Proof.
  unfold processFor, buildNsenterArgs. cbn [argv].
  eexists. split; [reflexivity|]. apply Forall_fmap, Forall_forall. intros ns _. cbn. by destruct ns.
Qed.

(** A word of a command line: bare, or between quotes. *)
Inductive Style := Bare | Quoted (q : Ascii.ascii).

(** What can be written so: a bare word has no quote and no white space; a quoted one has
    not its quote, and does not end in a backslash.  No word is empty. *)
Definition validWord (w : Style * chars) : Prop :=
  w.2 <> [] /\
  match w.1 with
  | Bare => Forall (fun c => isQuote c = false /\ is_space c = false) w.2
  | Quoted q => isQuote q = true /\ Forall (fun c => c <> q) w.2 /\ last w.2 <> Some backslash
  end.

Definition render (w : Style * chars) : chars :=
  match w.1 with Bare => w.2 | Quoted q => q :: w.2 ++ [q] end.

Fixpoint renderLine (ws : list (Style * chars)) : chars :=
  match ws with
  | [] => []
  | [w] => render w
  | w :: ws => render w ++ " "%char :: renderLine ws
  end.

Lemma parseLoop_app prev s1 s2 p :
  parseLoop prev (s1 ++ s2) p = parseLoop (match last s1 with Some c => Some c | None => prev end) s2 (parseLoop prev s1 p).
Proof.
  revert prev p. induction s1 as [|c s1 IH]; intros prev p; [done|]. cbn [app parseLoop]. rewrite IH. rewrite last_cons. by destruct (last s1).
Qed.

Lemma parse_bare prev w p :
  quote p = None -> Forall (fun c => isQuote c = false /\ is_space c = false) w ->
  parseLoop prev w p = mkParse (parts p) (current p ++ w) None.
Proof.
  intros Hq Hw. revert prev p Hq. induction Hw as [|c w [Hc1 Hc2] _ IH]; intros prev [ps cur q] Hq; cbn in Hq; subst q; cbn [parseLoop].
  - by rewrite app_nil_r.
  - unfold parseChar. cbn [quote]. rewrite Hc1, Hc2. rewrite IH by done. cbn. by rewrite <- app_assoc.
Qed.

Lemma parse_quoted prev q w p :
  quote p = Some q -> Forall (fun c => c <> q) w -> parseLoop prev w p = mkParse (parts p) (current p ++ w) (Some q).
Proof.
  intros Hq Hw. revert prev p Hq. induction Hw as [|c w Hc _ IH]; intros prev [ps cur q'] Hq; cbn in Hq; subst q'; cbn [parseLoop].
  - by rewrite app_nil_r.
  - unfold parseChar. cbn [quote]. rewrite (proj2 (Ascii.eqb_neq c q) Hc). rewrite IH by done. cbn. by rewrite <- app_assoc.
Qed.

Lemma parse_word prev w ps : validWord w -> parseLoop prev (render w) (mkParse ps [] None) = mkParse ps w.2 None.
Proof.
  destruct w as [[|q] w]; intros [Hne Hw]; unfold render; cbn [fst snd] in *.
  - by rewrite parse_bare.
  - destruct Hw as (Hq & Hw & Hl). cbn [parseLoop]. unfold parseChar at 1. cbn [quote parts current]. rewrite Hq.
    rewrite parseLoop_app, (parse_quoted (Some q) q w) by done. cbn [parts current parseLoop app]. unfold parseChar. cbn [quote parts current].
    rewrite Ascii.eqb_refl. destruct (last w) as [c|] eqn:El; [|by apply last_None in El].
    by rewrite bool_decide_eq_false_2 by done.
Qed.

Lemma parse_line ws prev ps :
  Forall validWord ws -> ws <> [] -> flush (parseLoop prev (renderLine ws) (mkParse ps [] None)) = mkParse (ps ++ ws.*2) [] None.
Proof.
  intros Hw. revert prev ps. induction Hw as [|w ws Hw Hws IH]; intros prev ps Hne; [done|].
  pose proof (proj1 Hw) as Hn. destruct ws as [|w2 ws].
  - cbn [renderLine]. rewrite parse_word by done. unfold flush. cbn. by destruct (w.2).
  - cbn [renderLine]. rewrite parseLoop_app, parse_word by done. cbn [parseLoop].
    assert (forall pr, parseChar pr " "%char (mkParse ps w.2 None) = mkParse (ps ++ [w.2]) [] None) as ->.
    { intros pr. unfold parseChar, flush. cbn. by destruct (w.2). }
    cbn [renderLine] in IH. rewrite IH by done. by rewrite <- app_assoc.
Qed.

Lemma drop_while_ends f (s : chars) c : s !! 0 = Some c -> f c = false -> drop_while f s = s.
Proof. destruct s as [|d s]; [done|]. intros [= ->] Hf. cbn. by rewrite Hf. Qed.

Lemma isQuote_space q : isQuote q = true -> is_space q = false.
Proof. intros [->%Ascii.eqb_eq| ->%Ascii.eqb_eq]%orb_true_iff; reflexivity. Qed.

Lemma render_ends w : validWord w ->
  (exists c, render w !! 0 = Some c /\ is_space c = false) /\ (exists c, last (render w) = Some c /\ is_space c = false).
Proof.
  destruct w as [[|q] w]; intros [Hne Hw]; unfold render; cbn [fst snd] in *.
  - split.
    + destruct w as [|c w]; [done|]. exists c. split; [done|]. by apply Forall_cons in Hw as [[_ ?] _].
    + destruct (last w) as [c|] eqn:El; [|by apply last_None in El]. exists c. split; [done|].
      apply last_Some in El as [w' ->]. by apply Forall_app in Hw as [_ [[_ ?] _]%Forall_cons].
  - destruct Hw as (Hq & _). apply isQuote_space in Hq. split; exists q; (split; [|done]); [done|].
    change (q :: w ++ [q]) with ((q :: w) ++ [q]). by rewrite last_snoc.
Qed.

Lemma renderLine_ends ws : Forall validWord ws -> ws <> [] ->
  (exists c, renderLine ws !! 0 = Some c /\ is_space c = false) /\ (exists c, last (renderLine ws) = Some c /\ is_space c = false).
Proof.
  intros Hw. induction Hw as [|w ws Hw Hws IH]; intros Hne; [done|]. pose proof (render_ends w Hw) as [(c & Hc & Hcs) Hl].
  destruct ws as [|w2 ws]; [cbn [renderLine]; split; [by exists c|done]|].
  change (renderLine (w :: w2 :: ws)) with (render w ++ " "%char :: renderLine (w2 :: ws)). split.
  - exists c. split; [|done]. by apply lookup_app_l_Some.
  - destruct (IH ltac:(done)) as [_ (d & Hd & Hds)]. exists d. split; [|done].
    rewrite last_app, last_cons, Hd. done.
Qed.

Lemma trim_space_ends (s : chars) c d :
  s !! 0 = Some c -> is_space c = false -> last s = Some d -> is_space d = false ->
  trim_space (String.string_of_list_ascii s) = String.string_of_list_ascii s.
Proof.
  intros Hc Hcs Hd Hds. unfold trim_space, str_trim_func. rewrite String.list_ascii_of_string_of_list_ascii.
  rewrite (drop_while_ends _ s c) by done. apply last_Some in Hd as [s' ->]. rewrite rev_app_distr. cbn [rev app].
  rewrite (drop_while_ends _ _ d) by done. cbn [rev]. by rewrite rev_involutive.
Qed.

(** Command lines are parsed as they were written: a line of words, each bare or between
    single or double quotes, with a blank between them, gives back exactly these words. *)
Theorem parse_command_roundtrip w ws :
  Forall validWord (w :: ws) ->
  ParseCommand (String.string_of_list_ascii (renderLine (w :: ws))) =
    Ok (String.string_of_list_ascii w.2, String.string_of_list_ascii <$> ws.*2).
Proof.
  intros Hw. destruct (renderLine_ends (w :: ws) Hw ltac:(done)) as [(c & Hc & Hcs) (d & Hd & Hds)].
  unfold ParseCommand. rewrite (trim_space_ends _ c d) by done.
  destruct (String.eqb_spec (String.string_of_list_ascii (renderLine (w :: ws))) "") as [E|_].
  - apply (f_equal String.list_ascii_of_string) in E. rewrite String.list_ascii_of_string_of_list_ascii in E. by rewrite E in Hc.
  - rewrite String.list_ascii_of_string_of_list_ascii, parse_line by done. reflexivity.
Qed.

(** An empty argument is lost, whatever its quotes. *)
Theorem empty_argument_lost :
  ParseCommand (String.string_of_list_ascii (renderLine [(Bare, ["a"%char]); (Quoted squote, []); (Bare, ["b"%char])])) =
  Ok ("a", ["b"]).
Proof. reflexivity. Qed.

(** A quoted argument that ends in a backslash leaves its quote open. *)
Theorem trailing_backslash_refused :
  ParseCommand (String.string_of_list_ascii (renderLine [(Bare, ["a"%char]); (Quoted squote, ["b"%char; backslash])])) =
  Err ErrUnclosedQuote.
Proof. reflexivity. Qed.

Lemma parse_command_roundtrip_witness :
  ParseCommand (String.string_of_list_ascii (renderLine [(Bare, ["l"%char; "s"%char]); (Quoted squote, ["a"%char; " "%char; "b"%char])])) =
  Ok ("ls", ["a b"]).
Proof.
  apply (parse_command_roundtrip (Bare, ["l"%char; "s"%char]) [(Quoted squote, ["a"%char; " "%char; "b"%char])]).
  repeat constructor; done.
Defined.

End HostCommand.
