(* ===== verification/GnoiSystem.v ===== *)
(** The gNOI System and FactoryReset services (src/gnmi_server: gnoi_system.go,
    gnoi_reset.go, swss_util.go; src/pkg/gnoi/system/system.go) and the notifications by
    which they talk to the reboot backend (src/common_utils/notification_producer.go).

    What a handler does outside the process is recorded in a world: the requests to the host
    service, the processes started, the messages published, and the Redis clients and
    subscriptions that are open.  Every outcome (a reply of the host, the end of a process,
    an error of Redis, the messages that arrive before the time-out) is a parameter. *)

From S2P Require Import Prelude GnmiTypes Filepath HostService HostCommand DpuProxy.
Import Filepath HostService.HostService HostCommand.HostCommand DpuProxy.DpuProxy.

Module GnoiSystem.

(** * Status codes of SWSS (swss_util.go) *)

Definition SwssToErrorCode (statusStr : string) : Code :=
  if String.eqb statusStr "SWSS_RC_SUCCESS" then OK
  else if String.eqb statusStr "SWSS_RC_UNKNOWN" then Unknown
  else if String.eqb statusStr "SWSS_RC_IN_USE" || String.eqb statusStr "SWSS_RC_INVALID_PARAM" then InvalidArgument
  else if String.eqb statusStr "SWSS_RC_DEADLINE_EXCEEDED" then CtxDeadlineExceeded
  else if String.eqb statusStr "SWSS_RC_NOT_FOUND" then NotFound
  else if String.eqb statusStr "SWSS_RC_EXISTS" then AlreadyExists
  else if String.eqb statusStr "SWSS_RC_PERMISSION_DENIED" then PermissionDenied
  else if String.eqb statusStr "SWSS_RC_FULL" || String.eqb statusStr "SWSS_RC_NO_MEMORY" then ResourceExhausted
  else if String.eqb statusStr "SWSS_RC_UNIMPLEMENTED" then Unimplemented
  else if String.eqb statusStr "SWSS_RC_INTERNAL" then Internal
  else if String.eqb statusStr "SWSS_RC_NOT_EXECUTED" || String.eqb statusStr "SWSS_RC_FAILED_PRECONDITION" then FailedPrecondition
  else if String.eqb statusStr "SWSS_RC_UNAVAIL" then Unavailable
  else Internal.

Definition ErrorCodeToSwss (errCode : Code) : string :=
  match errCode with
  | OK => "SWSS_RC_SUCCESS"
  | Unknown => "SWSS_RC_UNKNOWN"
  | InvalidArgument => "SWSS_RC_INVALID_PARAM"
  | CtxDeadlineExceeded => "SWSS_RC_DEADLINE_EXCEEDED"
  | NotFound => "SWSS_RC_NOT_FOUND"
  | AlreadyExists => "SWSS_RC_EXISTS"
  | PermissionDenied => "SWSS_RC_PERMISSION_DENIED"
  | ResourceExhausted => "SWSS_RC_FULL"
  | Unimplemented => "SWSS_RC_UNIMPLEMENTED"
  | Internal => "SWSS_RC_INTERNAL"
  | FailedPrecondition => "SWSS_RC_FAILED_PRECONDITION"
  | Unavailable => "SWSS_RC_UNAVAIL"
  | _ => ""
  end.

(** * The world of a handler *)

(** What must be closed. *)
Inductive Resource := ReqClient | NotifClient | Subscription.

#[global] Instance Resource_eq_dec : EqDecision Resource.
Proof. solve_decision. Defined.

(** What becomes of a new Redis client: the configuration has no address or number for the
    database, the first ping fails, or it is connected. *)
Inductive Connect := NoAddress | PingFails | Connected.

#[global] Instance Connect_eq_dec : EqDecision Connect.
Proof. solve_decision. Defined.

Record SW := mkSW {
  hostLog : list HostOp;
  started : list Process;
  published : list (string * string);
  live : list Resource;
  counters : Counters
}.

Definition Act (A : Type) : Type := SW -> A * SW.

#[global] Instance Act_ret : MRet Act := fun _ a w => (a, w).
#[global] Instance Act_bind : MBind Act := fun _ _ f m w => let '(a, w) := m w in f a w.

Definition acquire (r : Resource) : Act unit := fun w =>
  (tt, mkSW (hostLog w) (started w) (published w) (r :: live w) (counters w)).

Fixpoint removeFirst (r : Resource) (l : list Resource) : list Resource :=
  match l with
  | [] => []
  | x :: l => if decide (x = r) then l else x :: removeFirst r l
  end.

Definition release (r : Resource) : Act unit := fun w =>
  (tt, mkSW (hostLog w) (started w) (published w) (removeFirst r (live w)) (counters w)).

(** [defer r.Close()] *)
Definition closing {A} (r : Resource) (m : Act A) : Act A := a ← m; _ ← release r; mret a.

Section Handlers.

Context `{!MapRange}.

(** The bus at the n-th request of this handler, and how [fmt] prints its values. *)
Variable bus : nat -> DbusCall -> busReply.
Variable show : list busVal -> string.
(** The n-th process. *)
Variable os : nat -> Process -> string * string * option RunError.
(** Whether Redis lets this client connect, subscribe, publish. *)
Variable connects : Resource -> Connect.
Variable subscribes publishes : bool.
(** [encoding/json] on lists of strings, and on the requests that are sent. *)
Variable marshalList : list string -> string.
Variable unmarshalList : string -> option (list string).
(** [authenticate] for the request, with the kind of access. *)
Variable auth : string -> bool -> option Code.

Definition hostErr (o : HostOp) : Act (option svc_error) := fun w =>
  let '(e, g) := perform (bus (length (hostLog w))) show o (counters w) in
  (e, mkSW (hostLog w ++ [o]) (started w) (published w) (live w) g).

Definition hostStr (o : HostOp) (call : (DbusCall -> busReply) -> Counters -> res svc_error string * Counters)
    : Act (res svc_error string) := fun w =>
  let '(r, g) := call (bus (length (hostLog w))) (counters w) in
  (r, mkSW (hostLog w ++ [o]) (started w) (published w) (live w) g).

Definition runHost (command : string) (args : list string) (opts : option RunHostCommandOptions) : Act (option CommandResult) := fun w =>
  (RunHostCommand (os (length (started w))) command args opts,
   if String.eqb command "" then w
   else mkSW (hostLog w) (started w ++ [processFor command args opts]) (published w) (live w) (counters w)).

(** * Notifications *)

(** [GetRedisDBClient], for the resource it becomes; a client whose ping fails is not
    closed. *)
Definition GetRedisDBClient (r : Resource) : Act bool :=
  match connects r with
  | NoAddress => mret false
  | PingFails => _ ← acquire r; mret false
  | Connected => _ ← acquire r; mret true
  end.

(** The list that [NotificationProducer.Send] encodes. *)
Definition notification (op data : string) (kvs : gmap string string) : list string :=
  [op; data] ++ flat_map (fun kv => [kv.1; kv.2]) (range_of kvs).

(** [NotificationProducer.Send] *)
Definition Send (ch op data : string) (kvs : gmap string string) : Act bool := fun w =>
  (publishes, if publishes then mkSW (hostLog w) (started w) (published w ++ [(ch, marshalList (notification op data kvs))]) (live w) (counters w) else w).

Inductive PayloadErr := ErrUnmarshal | ErrMalformed.

(** The loop over the field-value pairs. *)
Fixpoint fieldValues (l : list string) (fvs : gmap string string) : gmap string string :=
  match l with
  | k :: v :: l => fieldValues l (<[k := v]> fvs)
  | _ => fvs
  end.

Definition processMsgPayload (pload : string) : res PayloadErr (string * string * gmap string string) :=
  match unmarshalList pload with
  | None => Err ErrUnmarshal
  | Some payload =>
      if (length payload <? 2) || negb (Nat.even (length payload)) then Err ErrMalformed
      else
        match payload with
        | op :: data :: l => Ok (op, data, fieldValues l ∅)
        | _ => Err ErrMalformed
        end
  end.

(** [GetKey] *)
Definition GetKey (k : list string) : string := str_join k "|".

(** * Reboot *)

Definition rebootKey : string := "Reboot".
Definition rebootStatusKey : string := "RebootStatus".
Definition rebootCancelKey : string := "CancelReboot".
Definition rebootReqCh : string := "Reboot_Request_Channel".
Definition dataMsgFld : string := "MESSAGE".

Record RebootRequest := mkReboot { method : Z; delay : N; subcomponents : nat }.

Definition RebootMethod_UNKNOWN : Z := 0.
Definition RebootMethod_POWERUP : Z := 7.

Definition ValidateRebootRequest (req : RebootRequest) : bool :=
  negb ((method req =? RebootMethod_UNKNOWN)%Z || (method req =? RebootMethod_POWERUP)%Z) && negb (0 <? delay req)%N.

(** The loop that waits for the answer: the messages that arrive before the time-out,
    which [tErr] remembers a mismatch for.  The answer has its message data. *)
Fixpoint waitAnswer (key : string) (arrivals : list string) : res Code string :=
  match arrivals with
  | [] => Err Internal
  | msg :: arrivals =>
      match processMsgPayload msg with
      | Err _ => Err Internal
      | Ok (op, data, fvs) =>
          if negb (String.eqb op key) then waitAnswer key arrivals
          else
            match SwssToErrorCode data with
            | OK => Ok (default "" (fvs !! dataMsgFld))
            | c => Err c
            end
      end
  end.

(** [sendRebootReqOnNotifCh]; [reqStr] is the encoded request, [None] if it cannot be
    encoded. *)
Definition sendRebootReqOnNotifCh (reqStr : option string) (key : string) (arrivals : list string) : Act (res Code string) :=
  ok ← GetRedisDBClient NotifClient;
  if negb ok then mret (Err Internal)
  else
    closing NotifClient (
      _ ← acquire Subscription;
      if negb subscribes then mret (Err Internal)
      else
        closing Subscription (
          match reqStr with
          | None => mret (Err Internal)
          | Some reqStr =>
              sent ← Send rebootReqCh key "" {[dataMsgFld := reqStr]};
              if negb sent then mret (Err Internal) else mret (waitAnswer key arrivals)
          end)).

Definition HandleDPUReboot (dpuIndex : string) : Act (res Code unit) :=
  result ← runHost "reboot" ["-d"; "DPU" +:+ dpuIndex] None;
  match result with
  | None => mret (Err Unknown)
  | Some _ => mret (Ok tt)
  end.

Definition HandleReboot (ctx : MD) : Act (res Code unit) :=
  let targetMetadata := ExtractTargetMetadata ctx in
  if IsDPUTarget targetMetadata then HandleDPUReboot (TargetIndex targetMetadata) else mret (Err Unimplemented).

Definition Reboot (ctx : MD) (req : RebootRequest) (reqStr : option string) (arrivals : list string) : Act (res Code unit) :=
  match auth "gnoi" true with
  | Some e => mret (Err e)
  | None =>
      if negb (ValidateRebootRequest req) then mret (Err InvalidArgument)
      else
        r ← HandleReboot ctx;
        match r with
        | Ok u => mret (Ok u)
        | Err e =>
            if negb (bool_decide (e = Unimplemented)) then mret (Err e)
            else
              ok ← GetRedisDBClient ReqClient;
              if negb ok then mret (Err Internal)
              else
                closing ReqClient (
                  if 0 <? subcomponents req then mret (Ok tt)
                  else
                    r ← sendRebootReqOnNotifCh reqStr rebootKey arrivals;
                    mret (match r with Ok _ => Ok tt | Err e => Err e end))
        end
  end.

(** [parse] is the decoding of the response. *)
Definition RebootStatus {R} (reqStr : option string) (arrivals : list string) (parse : string -> option R) : Act (res Code R) :=
  match auth "gnoi" true with
  | Some e => mret (Err e)
  | None =>
      ok ← GetRedisDBClient ReqClient;
      if negb ok then mret (Err Internal)
      else
        closing ReqClient (
          r ← sendRebootReqOnNotifCh reqStr rebootStatusKey arrivals;
          mret (match r with
                | Err _ => Err Internal
                | Ok msgData =>
                    if String.eqb msgData "" then Err Internal
                    else match parse msgData with Some resp => Ok resp | None => Err Internal end
                end))
  end.

Definition CancelReboot (reqStr : option string) (arrivals : list string) : Act (res Code unit) :=
  match auth "gnoi" true with
  | Some e => mret (Err e)
  | None =>
      ok ← GetRedisDBClient ReqClient;
      if negb ok then mret (Err Internal)
      else
        closing ReqClient (
          r ← sendRebootReqOnNotifCh reqStr rebootCancelKey arrivals;
          mret (match r with Err _ => Err Internal | Ok _ => Ok tt end))
  end.

(** * Processes *)

Definition KillOrRestartProcess (restart : bool) (serviceName : string) : Act (option svc_error) :=
  if restart then hostErr (OpRestartService serviceName) else hostErr (OpStopService serviceName).

Record KillProcessRequest := mkKill { pid : N; name : string; signal : Z; restart : bool }.

Definition SIGNAL_TERM : Z := 1.

(** An error of the host is returned as it is; it has no status, which is [Unknown]. *)
Definition KillProcess (req : KillProcessRequest) : Act (option Code) :=
  match auth "gnoi" true with
  | Some e => mret (Some e)
  | None =>
      if negb (pid req =? 0)%N then mret (Some Unimplemented)
      else if negb (signal req =? SIGNAL_TERM)%Z then mret (Some Unimplemented)
      else
        err ← KillOrRestartProcess (restart req) (name req);
        mret (match err with Some _ => Some Unknown | None => None end)
  end.

(** * Packages *)

Record Package := mkPackage { filename : string; version : string; activate : bool; remoteDownload : bool }.

(** A message of the stream: a package, or another of the alternatives. *)
Inductive SetPackageRequest := PackageRequest (p : Package) | OtherPackageRequest.

Definition installer : string := "/usr/local/bin/sonic-installer".
Definition minutes (n : Z) : option RunHostCommandOptions := Some (mkOptions (n * 60 * second) [] "" []).

(** The outcome of a command of which only success matters. *)
Definition succeeded (r : option CommandResult) : bool :=
  match r with Some result => match Error result with None => true | Some _ => false end | None => false end.

Definition installPackage (filename : string) : Act bool :=
  result ← runHost installer ["install"; "-y"; filename] (minutes 10);
  mret (succeeded result).

Definition getBinaryVersion (filename : string) : Act (option string) :=
  result ← runHost installer ["binary-version"; filename] (minutes 1);
  mret (match result with
        | Some r =>
            match Error r with
            | Some _ => None
            | None => let v := trim_space (Stdout r) in if String.eqb v "" then None else Some v
            end
        | None => None
        end).

Definition activatePackage (version : string) : Act bool :=
  result ← runHost installer ["set-default"; version] (minutes 2);
  mret (succeeded result).

(** The version to activate: the one given, else the one of the image. *)
Definition resolveVersion (p : Package) : Act (option string) :=
  if String.eqb (version p) "" then getBinaryVersion (filename p) else mret (Some (version p)).

Definition HandleSetPackage (req : SetPackageRequest) : Act (option Code) :=
  match req with
  | OtherPackageRequest => mret (Some InvalidArgument)
  | PackageRequest p =>
      if String.eqb (filename p) "" then mret (Some InvalidArgument)
      else if remoteDownload p then mret (Some InvalidArgument)
      else if negb (IsAbs (filename p)) then mret (Some InvalidArgument)
      else
        v ← resolveVersion p;
        match v with
        | None => mret (Some Internal)
        | Some v =>
            ok ← installPackage (filename p);
            if negb ok then mret (Some Internal)
            else if activate p then ok ← activatePackage v; mret (if ok : bool then None else Some Internal)
            else mret None
        end
  end.

(** The first message of the stream, or the error of receiving it; [sendErr]: the response
    cannot be sent. *)
Definition HandleSetPackageStream (recv : res Code SetPackageRequest) (sendErr : option Code) : Act (option Code) :=
  match recv with
  | Err e => mret (Some e)
  | Ok req =>
      r ← HandleSetPackage req;
      mret (match r with Some e => Some e | None => sendErr end)
  end.

Definition SetPackage (recv : res Code SetPackageRequest) (sendErr : option Code) : Act (option Code) :=
  match auth "gnoi" true with
  | Some _ => mret (Some PermissionDenied)
  | None => HandleSetPackageStream recv sendErr
  end.

(** * The remaining methods *)

Definition Ping : Act (option Code) := mret (Some (default Unimplemented (auth "gnoi" true))).
Definition Traceroute : Act (option Code) := mret (Some (default Unimplemented (auth "gnoi" true))).
Definition SwitchControlProcessor : Act (option Code) := mret (auth "gnoi" true).

(** [now] is in nanoseconds since 1970; the response is unsigned. *)
Definition Time (now : Z) : Act (res Code Z) :=
  mret (match auth "gnoi" false with Some e => Err e | None => Ok (now mod 2 ^ 64)%Z end).

(** * Factory reset *)

(** [reqStr]: the encoded request; [parse]: the decoding of the response. *)
Definition FactoryResetStart {R} (reqStr : option string) (parse : string -> option R) : Act (res Code R) :=
  match auth "gnoi" false with
  | Some e => mret (Err e)
  | None =>
      match reqStr with
      | None => mret (Err Internal)
      | Some reqStr =>
          r ← hostStr (OpFactoryReset reqStr) (fun b => FactoryReset b show reqStr);
          mret (match r with
                | Err _ => Err Internal
                | Ok respStr => match parse respStr with Some resp => Ok resp | None => Err Internal end
                end)
      end
  end.

End Handlers.
End GnoiSystem.
