(* ===== verification/GnoiSystemProofs.v ===== *)
(** Proofs about the gNOI System and FactoryReset services (GnoiSystem): notifications, the
    reboot protocol, packages, access, and findings. *)

From Stdlib Require Import Ascii.
From S2P Require Import Prelude GnmiTypes Filepath HostService HostCommand DpuProxy GnoiSystem.
Import Filepath HostService.HostService HostCommand.HostCommand DpuProxy.DpuProxy GnoiSystem.GnoiSystem.

(** * Status codes *)

(** The code of a status string survives the way back and forth; a gRPC code does if it has a
    string of its own, and becomes [Internal] otherwise. *)
Theorem swss_codes_roundtrip c s :
  SwssToErrorCode (ErrorCodeToSwss c) = (if String.eqb (ErrorCodeToSwss c) "" then Internal else c) /\
  SwssToErrorCode (ErrorCodeToSwss (SwssToErrorCode s)) = SwssToErrorCode s.
Proof.
  assert (forall c, SwssToErrorCode (ErrorCodeToSwss c) = if String.eqb (ErrorCodeToSwss c) "" then Internal else c) as H by (by intros []).
  split; [apply H|]. rewrite H. unfold SwssToErrorCode.
  repeat match goal with |- context [String.eqb s ?a] => destruct (String.eqb s a) end; reflexivity.
Qed.

(** * Notifications *)

Definition pairs (l : list (string * string)) : list string := flat_map (fun kv => [kv.1; kv.2]) l.

Lemma fieldValues_pairs l acc : NoDup l.*1 -> fieldValues (pairs l) acc = list_to_map l ∪ acc.
Proof.
  revert acc. induction l as [|[k v] l IH]; intros acc Hn; [rewrite list_to_map_nil, (left_id_L ∅ (∪)); done|].
  cbn [pairs flat_map app fieldValues fst snd]. rewrite list_to_map_cons. apply NoDup_cons in Hn as [Hk Hn]. fold (pairs l). rewrite IH by done. cbn in Hk.
  assert ((list_to_map l : gmap string string) !! k = None) as Hl by (by apply not_elem_of_list_to_map_1).
  apply map_eq. intros i. rewrite !lookup_union. destruct (decide (i = k)) as [->|Hne].
  - rewrite !lookup_insert_eq, Hl. by destruct (acc !! k).
  - by rewrite !lookup_insert_ne.
Qed.

Lemma length_pairs l : length (pairs l) = 2 * length l.
Proof. induction l as [|kv l IH]; [done|]. cbn. fold (pairs l). lia. Qed.

Lemma read_pairs unmarshalList msg op data l :
  unmarshalList msg = Some (op :: data :: pairs l) -> NoDup l.*1 -> processMsgPayload unmarshalList msg = Ok (op, data, list_to_map l).
Proof.
  intros Hj Hn. unfold processMsgPayload. rewrite Hj. cbn [length]. rewrite length_pairs.
  assert (Nat.even (S (S (2 * length l))) = true) as -> by (cbn [Nat.even]; by rewrite Nat.even_mul).
  cbn [Nat.ltb Nat.leb negb orb]. by rewrite fieldValues_pairs, (right_id_L ∅ (∪)).
Qed.

(** A notification is read as it was sent: for every map of field-value pairs and every
    order in which the sender goes through it, the receiver gets back the operation, the
    data and the map; the message of any other sender, with pairs of distinct fields, is
    read as the map of its pairs. *)
Theorem notification_roundtrip `{!MapRange} marshalList unmarshalList op data kvs :
  (forall l, unmarshalList (marshalList l) = Some l) ->
  processMsgPayload unmarshalList (marshalList (notification op data kvs)) = Ok (op, data, kvs) /\
  forall l, NoDup l.*1 -> processMsgPayload unmarshalList (marshalList (op :: data :: pairs l)) = Ok (op, data, list_to_map l).
Proof.
  intros Hj. split; [|intros l; by apply read_pairs]. assert (NoDup (range_of kvs).*1) as Hn by (rewrite (range_of_perm kvs); apply NoDup_fst_map_to_list).
  rewrite (read_pairs unmarshalList _ op data (range_of kvs)); [|apply Hj|done].
  rewrite (list_to_map_proper (range_of kvs) (map_to_list kvs)); [by rewrite list_to_map_to_list|done|apply range_of_perm].
Qed.

(** A message that is not for us: well formed, with another operation. *)
Definition ignored (unmarshalList : string -> option (list string)) (key msg : string) : Prop :=
  exists op data fvs, processMsgPayload unmarshalList msg = Ok (op, data, fvs) /\ op <> key.

(** The answer that is taken is the first one with the operation that was asked for, after
    well-formed messages for others; it must report success. *)
Theorem answer_is_first unmarshalList key arrivals d :
  waitAnswer unmarshalList key arrivals = Ok d <->
  exists before msg after data fvs, arrivals = before ++ msg :: after /\ Forall (ignored unmarshalList key) before /\
    processMsgPayload unmarshalList msg = Ok (key, data, fvs) /\ SwssToErrorCode data = OK /\ d = default "" (fvs !! dataMsgFld).
Proof.
  split.
  - induction arrivals as [|msg arrivals IH]; [done|]. cbn [waitAnswer].
    destruct (processMsgPayload unmarshalList msg) as [[[op data] fvs]|e] eqn:Em; [|done].
    destruct (String.eqb_spec op key) as [->|Hne]; cbn [negb].
    + destruct (SwssToErrorCode data) eqn:Ec; try done. intros [= <-]. by exists [], msg, arrivals, data, fvs.
    + intros (before & msg' & after & data' & fvs' & -> & Hb & Hm)%IH. exists (msg :: before), msg', after, data', fvs'.
      split; [done|]. split; [|done]. constructor; [|done]. by exists op, data, fvs.
  - intros (before & msg & after & data & fvs & -> & Hb & Hm & Hc & ->).
    induction Hb as [|m before (op & da & fv & Hm' & Hne) _ IH]; cbn [app waitAnswer].
    + rewrite Hm, String.eqb_refl. cbn [negb]. by rewrite Hc.
    + rewrite Hm'. by rewrite (proj2 (String.eqb_neq op key) Hne).
Qed.

(** * Reboot *)

Section Reboots.
Context `{!MapRange}.
Variable bus : nat -> DbusCall -> busReply.
Variable show : list busVal -> string.
Variable os : nat -> Process -> string * string * option RunError.
Variable connects : Resource -> Connect.
Variable subscribes publishes : bool.
Variable marshalList : list string -> string.
Variable unmarshalList : string -> option (list string).
Variable auth : string -> bool -> option Code.

Abbreviation sendReq := (sendRebootReqOnNotifCh connects subscribes publishes marshalList unmarshalList).
Abbreviation reboot := (Reboot os connects subscribes publishes marshalList unmarshalList auth).

(** The message by which a request is sent to the backend. *)
Definition request (key reqStr : string) : string * string :=
  (rebootReqCh, marshalList (notification key "" {[dataMsgFld := reqStr]})).

(** The world with other messages published and other resources open. *)
Definition sentWorld (p : list (string * string)) (l : list Resource) (w : SW) : SW :=
  mkSW (hostLog w) (started w) p l (counters w).

(** What a new client leaves open: itself, when its ping fails. *)
Definition unpinged (r : Resource) : list Resource := match connects r with PingFails => [r] | _ => [] end.

(** What stays open after a request on the channel: the client of the producer when its
    ping fails, the subscription when it cannot be confirmed. *)
Definition leaked : list Resource :=
  match connects NotifClient with Connected => if subscribes then [] else [Subscription] | _ => unpinged NotifClient end.

(** What a reboot leaves open. *)
Definition leftOpen : list Resource := match connects ReqClient with Connected => leaked | _ => unpinged ReqClient end.

Lemma sendReq_spec reqStr key arrivals w r w' :
  sendReq reqStr key arrivals w = (r, w') ->
  (w' = sentWorld (published w) (leaked ++ live w) w /\ r = Err Internal) \/
  (leaked = [] /\ exists q, reqStr = Some q /\ w' = sentWorld (published w ++ [request key q]) (live w) w /\ r = waitAnswer unmarshalList key arrivals).
Proof.
  unfold sendRebootReqOnNotifCh, GetRedisDBClient, closing, mbind, Act_bind, mret, Act_ret, acquire, release, Send, leaked, unpinged, sentWorld, request.
  destruct (connects NotifClient); cbn; [intros [= <- <-]; left; by destruct w|intros [= <- <-]; by left|].
  destruct subscribes; cbn; [|intros [= <- <-]; by left].
  destruct reqStr as [q|]; cbn; [|intros [= <- <-]; by left].
  destruct publishes; cbn; intros [= <- <-]; [|by left].
  right. split; [done|]. by exists q.
Qed.

(** C11. A reboot has exactly these effects: without write access, or with a method or a
    delay that is not supported, nothing happens and the call fails; with the headers of a
    DPU exactly one command is started, which reboots this DPU, and the call succeeds
    whatever becomes of the command; a request for components does nothing and succeeds
    once Redis was reached; otherwise at most one message is published, on the channel of
    the backend, with the request, and the call succeeds only if it was published and the
    first answer to it reports success.  A Redis client stays open only if its ping
    failed, a subscription only if its confirmation failed. *)
Theorem reboot_effects ctx req reqStr arrivals w r w' :
  reboot ctx req reqStr arrivals w = (r, w') ->
  if auth "gnoi" true is Some e then w' = w /\ r = Err e
  else if negb (ValidateRebootRequest req) then w' = w /\ r = Err InvalidArgument
  else if IsDPUTarget (ExtractTargetMetadata ctx) then
    r = Ok tt /\
    w' = mkSW (hostLog w) (started w ++ [processFor "reboot" ["-d"; "DPU" +:+ TargetIndex (ExtractTargetMetadata ctx)] None])
           (published w) (live w) (counters w)
  else if 0 <? subcomponents req then
    w' = sentWorld (published w) (unpinged ReqClient ++ live w) w /\ (r = Ok tt <-> connects ReqClient = Connected)
  else
    (r <> Ok tt /\ w' = sentWorld (published w) (leftOpen ++ live w) w) \/
    exists q, reqStr = Some q /\ w' = sentWorld (published w ++ [request rebootKey q]) (live w) w /\
      (r = Ok tt <-> exists d, waitAnswer unmarshalList rebootKey arrivals = Ok d).
Proof.
  unfold Reboot, HandleReboot, HandleDPUReboot. destruct (auth "gnoi" true) as [e|]; [by intros [= <- <-]|].
  destruct (ValidateRebootRequest req); cbn [negb]; [|by intros [= <- <-]].
  destruct (IsDPUTarget (ExtractTargetMetadata ctx)).
  { unfold mbind, Act_bind, mret, Act_ret, runHost, RunHostCommand. cbn [String.eqb Ascii.eqb Bool.eqb].
    destruct (os (length (started w)) _) as [[so se] err]. cbn. by intros [= <- <-]. }
  unfold mbind, Act_bind, mret, Act_ret at 1. rewrite bool_decide_eq_true_2 by done. cbn [negb].
  unfold GetRedisDBClient, closing, mbind, Act_bind, mret, Act_ret, acquire, release.
  unfold leftOpen, unpinged.
  destruct (connects ReqClient); cbn [negb]; [intros [= <- <-]; destruct (0 <? subcomponents req), w; (done || by left)..|].
  destruct (0 <? subcomponents req); [intros [= <- <-]; by destruct w|].
  destruct (sendReq reqStr rebootKey arrivals _) as [r1 w1] eqn:Es. apply sendReq_spec in Es as [[-> ->]|(Hl & q & -> & -> & ->)].
  - intros [= <- <-]. left. split; [done|]. unfold sentWorld, leaked, unpinged. cbn. f_equal.
    by destruct (connects NotifClient), subscribes.
  - intros [= <- <-]. right. exists q. split; [done|]. split; [by unfold sentWorld; cbn|].
    destruct (waitAnswer _ _ _) as [d|e]; split; try done; [by exists d|by intros [d' ?]].
Qed.

(** The subscription stays open when its confirmation fails: [sub.Close] is deferred only
    after [Receive]. *)
Theorem subscription_leaks reqStr key arrivals w :
  connects NotifClient = Connected -> subscribes = false ->
  live (sendReq reqStr key arrivals w).2 = Subscription :: live w.
Proof.
  intros Hc Hs. destruct (sendReq reqStr key arrivals w) as [r w'] eqn:E.
  apply sendReq_spec in E as [[-> _]|(Hl & _)]; [cbn; unfold leaked; by rewrite Hc, Hs|]. unfold leaked in Hl. by rewrite Hc, Hs in Hl.
Qed.

(** A client whose ping fails stays open. *)
Theorem unpinged_client_leaks r w : connects r = PingFails -> GetRedisDBClient connects r w = (false, sentWorld (published w) (r :: live w) w).
Proof. intros Hp. unfold GetRedisDBClient, mbind, Act_bind. by rewrite Hp. Qed.

(** A request to reboot components is answered with success, and nothing is done. *)
Theorem component_reboot_ignored ctx req reqStr arrivals w :
  auth "gnoi" true = None -> ValidateRebootRequest req = true -> IsDPUTarget (ExtractTargetMetadata ctx) = false ->
  0 < subcomponents req -> connects ReqClient = Connected -> reboot ctx req reqStr arrivals w = (Ok tt, w).
Proof.
  intros Ha Hv Ht Hs Hc. unfold Reboot, HandleReboot. rewrite Ha, Hv, Ht. cbn [negb].
  unfold mbind, Act_bind, mret, Act_ret, GetRedisDBClient, closing, mbind, Act_bind, mret, Act_ret, acquire, release.
  rewrite bool_decide_eq_true_2, Hc by done. cbn [negb]. rewrite (proj2 (Nat.ltb_lt _ _) Hs). by destruct w.
Qed.

(** A DPU reboot reports success whatever becomes of the command. *)
Theorem dpu_reboot_always_ok i w : (HandleDPUReboot os i w).1 = Ok tt.
Proof. unfold HandleDPUReboot, mbind, Act_bind, runHost, RunHostCommand. cbn. by destruct (os _ _) as [[? ?] ?]. Qed.

(** Methods that are neither refused nor listed are accepted. *)
Theorem unlisted_method_accepted m : m <> 0%Z -> m <> 7%Z -> ValidateRebootRequest (mkReboot m 0 0) = true.
Proof. intros H0 H7. unfold ValidateRebootRequest, RebootMethod_UNKNOWN, RebootMethod_POWERUP. cbn [method delay]. by rewrite (proj2 (Z.eqb_neq _ _) H0), (proj2 (Z.eqb_neq _ _) H7). Qed.

End Reboots.

(** * Packages *)

Section Packages.
Variable os : nat -> Process -> string * string * option RunError.
Variable auth : string -> bool -> option Code.

Abbreviation setPackage := (HandleSetPackage os).

(** The processes of the installer. *)
Definition versionProcess (f : string) : Process := processFor installer ["binary-version"; f] (minutes 1).
Definition installProcess (f : string) : Process := processFor installer ["install"; "-y"; f] (minutes 10).
Definition activateProcess (v : string) : Process := processFor installer ["set-default"; v] (minutes 2).

(** The world after these processes were started. *)
Definition startedWorld (l : list Process) (w : SW) : SW :=
  mkSW (hostLog w) (started w ++ l) (published w) (live w) (counters w).

(** The n-th process ends without an error. *)
Definition endsWell (n : nat) (p : Process) : bool := match (os n p).2 with None => true | Some _ => false end.

Lemma runHost_installer args opts w :
  runHost os installer args opts w =
  (let '(so, se, err) := os (length (started w)) (processFor installer args opts) in
   Some (mkResult so se (match err with Some (ExitError c) => c | _ => 0 end) err), startedWorld [processFor installer args opts] w).
Proof. reflexivity. Qed.

Lemma installPackage_spec f w :
  installPackage os f w = (endsWell (length (started w)) (installProcess f), startedWorld [installProcess f] w).
Proof.
  unfold installPackage, mbind, Act_bind. rewrite runHost_installer. unfold installProcess, endsWell.
  destruct (os _ _) as [[so se] err]. cbn. by destruct err.
Qed.

Lemma activatePackage_spec v w :
  activatePackage os v w = (endsWell (length (started w)) (activateProcess v), startedWorld [activateProcess v] w).
Proof.
  unfold activatePackage, mbind, Act_bind. rewrite runHost_installer. unfold activateProcess, endsWell.
  destruct (os _ _) as [[so se] err]. cbn. by destruct err.
Qed.

(** The version that the installer prints for an image. *)
Definition printedVersion (n : nat) (f : string) : option string :=
  let '(so, _, err) := os n (versionProcess f) in
  match err with
  | Some _ => None
  | None => if String.eqb (trim_space so) "" then None else Some (trim_space so)
  end.

Lemma resolveVersion_spec p w :
  resolveVersion os p w =
  if String.eqb (version p) "" then (printedVersion (length (started w)) (filename p), startedWorld [versionProcess (filename p)] w)
  else (Some (version p), w).
Proof.
  unfold resolveVersion. destruct (String.eqb (version p) ""); [|done].
  unfold getBinaryVersion, mbind, Act_bind. rewrite runHost_installer. unfold printedVersion, versionProcess.
  destruct (os _ _) as [[so se] err]. cbn. by destruct err.
Qed.

(** The processes that a package needs, once its version is known. *)
Definition versionStep (p : Package) : list Process := if String.eqb (version p) "" then [versionProcess (filename p)] else [].
Definition packagePlan (p : Package) (v : string) : list Process :=
  versionStep p ++ [installProcess (filename p)] ++ (if activate p then [activateProcess v] else []).

Lemma startedWorld_app l l' w : startedWorld l' (startedWorld l w) = startedWorld (l ++ l') w.
Proof. unfold startedWorld. cbn. by rewrite app_assoc. Qed.
Lemma startedWorld_nil w : startedWorld [] w = w.
Proof. unfold startedWorld. rewrite app_nil_r. by destruct w. Qed.

(** Processes started one after the other, until one fails: those started, and whether all
    ended well. *)
Fixpoint untilFailure (n : nat) (l : list Process) : list Process * bool :=
  match l with
  | [] => ([], true)
  | p :: l => if endsWell n p then (p :: (untilFailure (S n) l).1, (untilFailure (S n) l).2) else ([p], false)
  end.

(** From the installation on. *)
Lemma install_spec p v w :
  (ok ← installPackage os (filename p);
   if negb ok then mret (Some Internal)
   else if activate p then ok ← activatePackage os v; mret (if ok : bool then None else Some Internal) else mret None) w =
  (let '(l, ok) := untilFailure (length (started w)) ([installProcess (filename p)] ++ (if activate p then [activateProcess v] else [])) in
   (if ok then None else Some Internal, startedWorld l w)).
Proof.
  unfold mbind at 1, Act_bind at 1. rewrite installPackage_spec. cbn [app untilFailure].
  destruct (endsWell (length (started w)) (installProcess (filename p))); cbn [negb]; [|done].
  destruct (activate p); [|done]. unfold mbind, Act_bind. rewrite activatePackage_spec.
  cbn [startedWorld started untilFailure]. rewrite length_app, Nat.add_1_r.
  destruct (endsWell (S (length (started w))) (activateProcess v)); by rewrite startedWorld_app.
Qed.

(** A package is installed by a plan that is followed until its first failure: the
    version of the image is asked for if none was given; then the image is installed; then,
    if asked for, this version is activated.  The call succeeds exactly when every process
    of the plan ended well; a request whose file is not a local, absolute path starts
    nothing. *)
Theorem package_plan_followed p w :
  if String.eqb (filename p) "" || remoteDownload p || negb (IsAbs (filename p)) then
    setPackage (PackageRequest p) w = (Some InvalidArgument, w)
  else
    match if String.eqb (version p) "" then printedVersion (length (started w)) (filename p) else Some (version p) with
    | None => setPackage (PackageRequest p) w = (Some Internal, startedWorld [versionProcess (filename p)] w)
    | Some v =>
        let '(l, ok) := untilFailure (length (started w)) (packagePlan p v) in
        setPackage (PackageRequest p) w = (if ok then None else Some Internal, startedWorld l w)
    end.
Proof.
  unfold HandleSetPackage. destruct (String.eqb (filename p) ""); [done|]. destruct (remoteDownload p); [done|].
  destruct (IsAbs (filename p)); [|done]. cbn [negb orb]. unfold packagePlan, versionStep.
  destruct (String.eqb (version p) "") eqn:Ev.
  - destruct (printedVersion (length (started w)) (filename p)) as [v|] eqn:Ep.
    + assert (endsWell (length (started w)) (versionProcess (filename p)) = true) as Hv.
      { unfold printedVersion in Ep. unfold endsWell. destruct (os (length (started w)) (versionProcess (filename p))) as [[so se] [e|]]; done. }
      cbn [app]. set (rest := installProcess _ :: _). cbn [untilFailure]. rewrite Hv.
      unfold mbind at 1, Act_bind at 1. rewrite resolveVersion_spec, Ev, Ep, install_spec. cbn [startedWorld started].
      rewrite length_app, Nat.add_1_r. cbn [app]. fold rest.
      destruct (untilFailure (S (length (started w))) rest) as [l ok]. cbn [fst snd]. by rewrite startedWorld_app.
    + unfold mbind at 1, Act_bind at 1. by rewrite resolveVersion_spec, Ev, Ep.
  - unfold mbind at 1, Act_bind at 1. rewrite resolveVersion_spec, Ev. rewrite install_spec. cbn [app].
    by destruct (untilFailure _ _) as [l ok].
Qed.

(** A version that looks like an option is passed to the installer as it is. *)
Theorem version_not_checked f w :
  IsAbs f = true -> (forall n p, endsWell n p = true) ->
  setPackage (PackageRequest (mkPackage f "--help" true false)) w = (None, startedWorld [installProcess f; activateProcess "--help"] w).
Proof.
  intros Ha Hw. pose proof (install_spec (mkPackage f "--help" true false) "--help" w) as H. cbn [filename activate] in H.
  unfold HandleSetPackage. cbn [filename remoteDownload]. rewrite Ha.
  destruct (String.eqb_spec f "") as [->|_]; [done|]. cbn [negb]. unfold mbind at 1, Act_bind at 1. rewrite resolveVersion_spec.
  cbn [version String.eqb activate]. rewrite H. cbn [app untilFailure]. by rewrite !Hw.
Qed.

End Packages.

(** * Access *)

Section Access.
Context `{!MapRange}.
Variable bus : nat -> DbusCall -> busReply.
Variable show : list busVal -> string.
Variable os : nat -> Process -> string * string * option RunError.
Variable connects : Resource -> Connect.
Variable subscribes publishes : bool.
Variable marshalList : list string -> string.
Variable unmarshalList : string -> option (list string).
Variable auth : string -> bool -> option Code.

(** Without write access no method of the System service does anything: no process is
    started or stopped, nothing is installed, no message is sent; every call fails. *)
Theorem system_needs_write_access e w ctx reboot reqStr arrivals kill recv sendErr R (parse : string -> option R) :
  auth "gnoi" true = Some e ->
  Reboot os connects subscribes publishes marshalList unmarshalList auth ctx reboot reqStr arrivals w = (Err e, w) /\
  RebootStatus connects subscribes publishes marshalList unmarshalList auth reqStr arrivals parse w = (Err e, w) /\
  CancelReboot connects subscribes publishes marshalList unmarshalList auth reqStr arrivals w = (Err e, w) /\
  KillProcess bus show auth kill w = (Some e, w) /\
  SetPackage os auth recv sendErr w = (Some PermissionDenied, w) /\
  Ping auth w = (Some e, w) /\ Traceroute auth w = (Some e, w) /\ SwitchControlProcessor auth w = (Some e, w).
Proof.
  intros Ha. unfold Reboot, RebootStatus, CancelReboot, KillProcess, SetPackage, Ping, Traceroute, SwitchControlProcessor. by rewrite Ha.
Qed.

(** A process is stopped or restarted only by one request to the host, for the service that
    was named, and only with the one signal that is supported. *)
Theorem kill_one_service req w r w' :
  KillProcess bus show auth req w = (r, w') ->
  (w' = w /\ r <> None) \/
  (auth "gnoi" true = None /\ pid req = 0%N /\ signal req = SIGNAL_TERM /\ started w' = started w /\ published w' = published w /\
   hostLog w' = hostLog w ++ [if restart req then OpRestartService (name req) else OpStopService (name req)]).
Proof.
  unfold KillProcess. destruct (auth "gnoi" true); [intros [= <- <-]; by left|].
  destruct (N.eqb_spec (pid req) 0); cbn [negb]; [|intros [= <- <-]; by left].
  destruct (Z.eqb_spec (signal req) SIGNAL_TERM); cbn [negb]; [|intros [= <- <-]; by left].
  unfold KillOrRestartProcess, hostErr, mbind, Act_bind. intros Hr. right.
  destruct (restart req); destruct (perform _ _ _ _) as [e' g]; injection Hr as <- <-; done.
Qed.

(** A factory reset is started with read access alone. *)
Theorem factory_reset_by_reader R (parse : string -> option R) q w :
  auth "gnoi" false = None -> hostLog (FactoryResetStart bus show auth (Some q) parse w).2 = hostLog w ++ [OpFactoryReset q].
Proof.
  intros Ha. unfold FactoryResetStart. rewrite Ha. unfold mbind, Act_bind, hostStr.
  by destruct (FactoryReset _ _ _ _) as [r g].
Qed.

End Access.

(** * Witnesses *)

Definition demo_w : SW := mkSW [] [] [] [] (fun _ => 0%N).

(** A codec for the lists of the example. *)
Definition demo_marshal (l : list string) : string := str_join l ",".
Definition demo_unmarshal (s : string) : option (list string) := Some (str_split s ",").

Abbreviation demo_reboot :=
  (Reboot (fun _ _ => ("", "", None)) (fun _ => Connected) true true demo_marshal demo_unmarshal (fun _ _ => None)
     None (mkReboot 1 0 0) (Some "{}") ["RebootStatus,SWSS_RC_SUCCESS"; "Reboot,SWSS_RC_SUCCESS"] demo_w).

Lemma reboot_effects_witness :
  exists w', demo_reboot = (Ok tt, w') /\ published w' = [("Reboot_Request_Channel", "Reboot,,MESSAGE,{}")] /\ live w' = [].
Proof.
  assert (exists w', demo_reboot = (Ok tt, w')) as [w' H] by (eexists; vm_compute; reflexivity).
  exists w'. split; [exact H|].
  destruct (reboot_effects (fun _ _ => ("", "", None)) (fun _ => Connected) true true demo_marshal demo_unmarshal (fun _ _ => None)
    None (mkReboot 1 0 0) (Some "{}") _ demo_w (Ok tt) w' H) as [[Hn _]|(q & [= <-] & -> & _)]; [by destruct Hn|].
  split; vm_compute; reflexivity.
Defined.

(** A codec with the law that is asked for: each character marked, each string ended. *)
Fixpoint escaped (s tail : string) : string :=
  match s with
  | EmptyString => String "e" tail
  | String c s => String "c" (String c (escaped s tail))
  end.
Definition marked_marshal (l : list string) : string := foldr escaped "" l.
Fixpoint marked_unmarshal (cur s : string) : option (list string) :=
  match s with
  | EmptyString => Some []
  | String m s =>
      if Ascii.eqb m "e" then cons cur <$> marked_unmarshal "" s
      else match s with String c s => marked_unmarshal (cur +:+ String c "") s | EmptyString => None end
  end.

Lemma marked_escaped s cur tail : marked_unmarshal cur (escaped s tail) = cons (cur +:+ s) <$> marked_unmarshal "" tail.
Proof.
  revert cur. induction s as [|c s IH]; intros cur; cbn [escaped marked_unmarshal Ascii.eqb Bool.eqb]; [by rewrite str_app_nil_r|].
  rewrite IH, str_app_assoc. reflexivity.
Qed.

Lemma marked_roundtrip l : marked_unmarshal "" (marked_marshal l) = Some l.
Proof. induction l as [|s l IH]; [done|]. cbn [marked_marshal foldr]. fold (marked_marshal l). by rewrite marked_escaped, IH. Qed.

Lemma notification_roundtrip_witness :
  processMsgPayload (marked_unmarshal "") (marked_marshal (notification "Reboot" "" {["MESSAGE" := "{}"]})) =
  Ok ("Reboot", "", {["MESSAGE" := "{}"]}).
Proof. exact (proj1 (notification_roundtrip marked_marshal (marked_unmarshal "") "Reboot" "" {["MESSAGE" := "{}"]} marked_roundtrip)). Defined.

Lemma system_needs_write_access_witness :
  KillProcess (fun _ _ => NoReply) (fun _ => "") (fun _ write => if write then Some PermissionDenied else None)
    (mkKill 0 "swss" 1 true) demo_w = (Some PermissionDenied, demo_w).
Proof.
  apply (system_needs_write_access (fun _ _ => NoReply) (fun _ => "") (fun _ _ => ("", "", None)) (fun _ => Connected) true true demo_marshal demo_unmarshal
    (fun _ write => if write then Some PermissionDenied else None) PermissionDenied demo_w None (mkReboot 1 0 0) None []
    (mkKill 0 "swss" 1 true) (Err OK) None string (fun s => Some s) eq_refl).
Defined.
