(* ===== verification/GnoiServices.v ===== *)
(** Three gNOI services: Healthz (src/gnmi_server/gnoi_healthz.go), Containerz
    (src/gnmi_server/gnoi_containerz.go) and Oras (src/gnmi_server/gnoi_oras.go,
    src/pkg/gnoi/oras/oras.go, src/pkg/gnoi/oras/json.go, src/pkg/hostfs/hostfs.go).

    Requests to the host are recorded in the world of GnoiSystem; the pull of an artifact
    works on the file system of FileService.  The registry, the content store, the host's
    replies, the clock and the hash function are parameters. *)

From S2P Require Import Prelude GnmiTypes Filepath FileService HostService HostCommand GnoiSystem.
Import Filepath HostService.HostService GnoiSystem.GnoiSystem.

(** * Healthz *)

Module Healthz.

Definition ddLogLvlSuf : string := "-info".
Definition ddFileSegSize : nat := 4096.

Definition isDebugData (p : option (list PathElem)) : bool :=
  match p with
  | Some [e0; e1; e2; e3] =>
      String.eqb (elem_name e0) "components" && bool_decide (elem_key e0 = ∅) &&
      String.eqb (elem_name e1) "component" && (size (elem_key e1) =? 1) && bool_decide (is_Some (elem_key e1 !! "name")) &&
      String.eqb (elem_name e2) "healthz" && bool_decide (elem_key e2 = ∅) &&
      (String.eqb (elem_name e3) "alert-info" || String.eqb (elem_name e3) "critical-info" || String.eqb (elem_name e3) "all-info") &&
      bool_decide (elem_key e3 = ∅)
  | _ => false
  end.

(** In seconds. *)
Definition artifactColTimeout : Z := 300.
Definition artifactSleepTime : Z := 5.

Inductive Status := STATUS_HEALTHY | STATUS_UNHEALTHY | STATUS_UNSPECIFIED.

Record ArtifactHeader := mkHeader { hId : string; hName : string; hSize : Z; hHash : string }.

Record ComponentStatus := mkComponent { cPath : list PathElem; cId : string; cStatus : Status; cArtifact : ArtifactHeader }.

(** The directory of the artifacts, as [HasPrefix] takes it. *)
Definition allowedDir : string := "/tmp/dump".

(** The path in the container of an artifact, if it is allowed. *)
Definition artifactPath (file : string) : option string :=
  let cleanPath := Clean file in
  if has_prefix cleanPath allowedDir then Some (Join ["/mnt/host"; cleanPath]) else None.

Inductive OpenErr := NotExist | OtherOpenErr.

Section Server.
Variable bus : nat -> DbusCall -> busReply.
Variable show : list busVal -> string.
Variable auth : string -> bool -> option Code.
(** [json.Marshal] of a map. *)
Variable marshalMap : gmap string string -> string.
(** How long the k-th check takes; which case is taken when both are ready. *)
Variable checkTime : nat -> Z.
Variable doneFirst : nat -> bool.
(** What a file holds when it is opened, and the error of reading it. *)
Variable readFile : string -> res OpenErr (res unit string).
Variable sha256 : string -> string.

(** The loop of [waitForArtifact]: the k-th turn at [elapsed] seconds.  [None] is out of
    fuel; [Some None] the time-out. *)
Fixpoint waitForArtifact (fuel : nat) (k : nat) (elapsed : Z) (file : string) : Act (option (option string)) :=
  match fuel with
  | O => mret None
  | S fuel =>
      r ← hostStr bus (OpHealthzCheck file) (fun b => HealthzCheck b show file);
      match r with
      | Ok result => mret (Some (Some result))
      | Err _ =>
          let elapsed := (elapsed + checkTime k)%Z in
          if (artifactColTimeout <=? elapsed)%Z then mret (Some None)
          else if (artifactColTimeout <? elapsed + artifactSleepTime)%Z then mret (Some None)
          else if (artifactColTimeout =? elapsed + artifactSleepTime)%Z && doneFirst k then mret (Some None)
          else waitForArtifact fuel (S k) (elapsed + artifactSleepTime) file
      end
  end.

Definition waitFuel : nat := 61.

Definition healthStatus (result : string) : Status :=
  if String.eqb result "Artifact ready" then STATUS_HEALTHY
  else if String.eqb result "Artifact not ready" then STATUS_UNHEALTHY
  else STATUS_UNSPECIFIED.

Definition getDebugData (elems : list PathElem) : Act (res Code ComponentStatus) :=
  let '(c, ll) :=
    match elems with
    | [_; e1; _; e3] => (default "" (elem_key e1 !! "name"), trim_suffix (elem_name e3) ddLogLvlSuf)
    | _ => ("all", "alert")
    end in
  s ← (let b := marshalMap {["component" := c; "level" := ll]} in
       hostStr bus (OpHealthzCollect b) (fun bs => HealthzCollect bs show b));
  match s with
  | Err _ => mret (Err Internal)
  | Ok s =>
      result ← waitForArtifact waitFuel 0 0 s;
      match result with
      | None | Some None => mret (Err Unknown)
      | Some (Some result) =>
          mret (match artifactPath s with
                | None => Err InvalidArgument
                | Some file_path =>
                    match readFile file_path with
                    | Err _ => Err Internal
                    | Ok (Err _) => Err Internal
                    | Ok (Ok data) =>
                        Ok (mkComponent elems s (healthStatus result) (mkHeader s s (Z.of_nat (String.length data)) (sha256 data)))
                    end
                end)
      end
  end.

(** [HealthzServer.Get] *)
Definition Get (path : option (list PathElem)) : Act (res Code ComponentStatus) :=
  match auth "gnoi" false with
  | Some e => mret (Err e)
  | None =>
      match path with
      | None => mret (Err InvalidArgument)
      | Some elems => if isDebugData (Some elems) then getDebugData elems else mret (Err Unimplemented)
      end
  end.

Inductive ArtifactResponse := RHeader (h : ArtifactHeader) | RBytes (data : string) | RTrailer.

(** Sends: the k-th fails with a status, or does not. *)
Variable sendErr : nat -> option Code.

(** The loop that reads the opened file: what each [Read] returns, and whether it fails at
    the end. *)
Fixpoint sendChunks (k : nat) (reads : list string) (readFails : bool) : option Code * nat * list ArtifactResponse :=
  match reads with
  | [] => (if readFails then Some Internal else None, k, [])
  | chunk :: reads =>
      match sendErr k with
      | Some e => (Some e, k, [])
      | None => let '(e, k', out) := sendChunks (S k) reads readFails in (e, k', RBytes chunk :: out)
      end
  end.

(** [HealthzServer.Artifact]: its status and the messages sent.  [seekOk]: the file pointer
    can be reset; [reads]: what the reads after it return. *)
Definition Artifact (file : string) (seekOk : bool) (reads : list string) (readFails : bool) : option Code * list ArtifactResponse :=
  match artifactPath file with
  | None => (Some InvalidArgument, [])
  | Some file_path =>
      match readFile file_path with
      | Err NotExist => (Some NotFound, [])
      | Err OtherOpenErr => (Some Internal, [])
      | Ok (Err _) => (Some Internal, [])
      | Ok (Ok data) =>
          if negb seekOk then (Some Internal, [])
          else
            match sendErr 0 with
            | Some e => (Some e, [])
            | None =>
                let h := RHeader (mkHeader file file (Z.of_nat (String.length data)) (sha256 data)) in
                let '(e, k, out) := sendChunks 1 reads readFails in
                match e with
                | Some e => (Some e, h :: out)
                | None =>
                    match sendErr k with
                    | Some e => (Some e, h :: out)
                    | None => (None, h :: out ++ [RTrailer])
                    end
                end
            end
      end
  end.

(** [HealthzServer.Acknowledge] *)
Definition Acknowledge (id : string) : Act (option Code) :=
  match auth "gnoi" false with
  | Some e => mret (Some e)
  | None =>
      r ← hostStr bus (OpHealthzAck id) (fun b => HealthzAck b show id);
      mret (match r with Ok _ => None | Err _ => Some Internal end)
  end.

End Server.

Definition List : option Code := Some Unimplemented.
Definition Check : option Code := Some Unimplemented.

End Healthz.

(** * Containerz *)

Module Containerz.

(** Where an image is downloaded from: the path, the protocol, user name and password. *)
Record RemoteDownload := mkRemote { rdPath : string; rdProtocol : string; rdUsername : string; rdPassword : string }.

Record ImageTransfer := mkImage { iName : string; iTag : string; iRemote : option RemoteDownload }.

(** The first message: an image transfer, or something else. *)
Inductive DeployRequest := ImageTransferRequest (t : ImageTransfer) | OtherDeployRequest.

Section Server.
Variable bus : nat -> DbusCall -> busReply.
Variable show : list busVal -> string.
Variable auth : string -> bool -> option Code.

Definition localPath (name suffix : string) : string := "/tmp/" +:+ name +:+ "-" +:+ suffix +:+ ".tar".

(** The steps on the host, until one fails. *)
Fixpoint hostSteps (l : list HostOp) : Act (option svc_error) :=
  match l with
  | [] => mret None
  | o :: l =>
      e ← hostErr bus show o;
      match e with Some e => mret (Some e) | None => hostSteps l end
  end.

(** [suffix]: the random suffix, [None] when there is no randomness. *)
Definition Deploy (recv : res Code DeployRequest) (suffix : option string) (sendErr : bool) : Act (option Code) :=
  match auth "gnoi" true with
  | Some e => mret (Some e)
  | None =>
      match recv with
      | Err _ => mret (Some InvalidArgument)
      | Ok OtherDeployRequest => mret (Some InvalidArgument)
      | Ok (ImageTransferRequest t) =>
          let remote :=
            match iRemote t with
            | None => Some ("", "", "", "", "")
            | Some rd =>
                match str_splitn2 (rdPath rd) ":" with
                | [hostname; remotePath] => Some (hostname, rdUsername rd, rdPassword rd, remotePath, rdProtocol rd)
                | _ => None
                end
            end in
          match remote with
          | None => mret (Some InvalidArgument)
          | Some (hostname, username, password, remotePath, protocol) =>
              match suffix with
              | None => mret (Some Internal)
              | Some suffix =>
                  let path := localPath (iName t) suffix in
                  e ← hostSteps [OpDownloadFile hostname username password remotePath path protocol; OpLoadDockerImage path; OpRemoveFile path];
                  mret (match e with
                        | Some _ => Some Internal
                        | None => if sendErr then Some Internal else None
                        end)
              end
          end
      end
  end.

End Server.

Definition Remove : option Code := Some Unimplemented.
Definition List : option Code := Some Unimplemented.
Definition Start : option Code := Some Unimplemented.
Definition Stop : option Code := Some Unimplemented.
Definition Log : option Code := Some Unimplemented.

End Containerz.

(** * Paths on the host (hostfs.go) *)

Module Hostfs.

Definition hostMount : string := "/mnt/host".
Definition AllowedPrefixes : list string := ["/tmp/"; "/var/tmp/"; "/host/"].

Definition Validate (path : string) : bool :=
  let cleaned := Clean path in
  IsAbs cleaned && negb (existsb (fun seg => String.eqb seg "..") (str_split cleaned "/")) &&
  existsb (fun prefix => has_prefix cleaned prefix) AllowedPrefixes.

(** [mounted]: the directory [hostMount] exists. *)
Definition Translate (mounted : bool) (path : string) : string :=
  let cleaned := Clean path in
  if mounted then if has_prefix cleaned hostMount then cleaned else hostMount +:+ cleaned else cleaned.

End Hostfs.

(** * Oras *)

Module Oras.
Import FileService.FileService Hostfs.

Record PullRequest := mkPull { registry : string; repository : string; tag : string; digest : string; local_path : string }.

(** A layer of a manifest; the size is a signed 64-bit number. *)
Record Descriptor := mkDescriptor { lDigest : string; lSize : Z }.

(** An error of the registry or the network, as [errors.As] and [errors.Is] see it. *)
Record RegErr := mkRegErr {
  httpStatus : option Z;
  isNotFound : bool;
  isTimeout : bool;
  isNetwork : bool;
  isNoSpace : bool
}.

Definition mapRegistryError (e : RegErr) : Code :=
  if bool_decide (httpStatus e = Some 401%Z) then Unauthenticated
  else if bool_decide (httpStatus e = Some 403%Z) then PermissionDenied
  else if bool_decide (httpStatus e = Some 404%Z) then NotFound
  else if isNotFound e then NotFound
  else if isTimeout e then Unavailable
  else if isNetwork e then Unavailable
  else if isNoSpace e then ResourceExhausted
  else Internal.

Definition validatePullRequest (req : option PullRequest) : option Code :=
  match req with
  | None => Some InvalidArgument
  | Some req =>
      if String.eqb (registry req) "" then Some InvalidArgument
      else if String.eqb (repository req) "" then Some InvalidArgument
      else if String.eqb (tag req) "" && String.eqb (digest req) "" then Some InvalidArgument
      else if String.eqb (local_path req) "" then Some InvalidArgument
      else if negb (Validate (local_path req)) then Some FailedPrecondition
      else None
  end.

Definition pullReference (req : PullRequest) : string :=
  if String.eqb (digest req) "" then tag req else digest req.

(** The messages of the stream. *)
Inductive PullResponse :=
| Started (manifestDigest : string) (totalBytes : Z)
| Progress (bytesTransferred totalBytes : Z)
| Result (manifestDigest layerDigest : string) (bytesWritten : Z) (path : string).

(** The conversion of an int64 to a uint64. *)
Definition uint64 (z : Z) : Z := (z mod 2 ^ 64)%Z.

(** The end of a call: a status, or a panic. *)
Inductive Outcome := Done (st : option Code) | Panicked.

Section Pull.
Variable fails : nat -> bool.
Variable torn : nat -> nat.
(** [/mnt/host] exists. *)
Variable mounted : bool.

(** The registry: the digest of a reference, the bytes of a manifest ([None]: they cannot be
    read) and their layers ([None]: they cannot be parsed). *)
Variable resolve : string -> res RegErr string.
Variable fetchManifest : string -> res RegErr (option string).
Variable parseManifest : string -> option (list Descriptor).
(** [Digest.Encoded], which panics on what is not a digest. *)
Variable encoded : string -> option string.
(** The random part of the name of the staging directory. *)
Variable random : string.
Variable storeOk : bool.
(** What fetching a layer and pushing it into the store gives: its verified contents, or an
    error and what was written before it. *)
Variable fetchLayer : Descriptor -> res (RegErr * option string) string.
(** A failed rename is one across file systems. *)
Variable crossDevice : bool.
(** The counts that the progress loop reads at its ticks, and the status of the k-th
    send. *)
Variable ticks : list Z.
Variable sendErr : nat -> option Code.

Definition pickSingleLayer (manifest : string) : res Code Descriptor :=
  match parseManifest manifest with
  | None => Err Internal
  | Some [l] => Ok l
  | Some _ => Err InvalidArgument
  end.

(** [os.MkdirTemp]: a new directory. *)
Definition MkdirTemp (dir : string) : IO (option string) :=
  let p := dir +:+ "/.oras-pull-" +:+ random in
  ok ← syscall fails same (fun fs => match fs !! p with None => Some (<[p := Directory]> fs) | Some _ => None end);
  mret (if ok : bool then Some p else None).

(** [os.RemoveAll] of a directory; the result is not used. *)
Definition RemoveAll (p : string) : IO bool :=
  syscall fails same (fun fs => Some (filter (fun '(q, _) => q <> p /\ has_prefix q (p +:+ "/") = false) fs)).

(** The store writes a file. *)
Definition storeWrite (p data : string) : IO unit := fun w => (tt, mkFW (<[p := Reg data 420]> (files w)) (tick w)).

(** The progress loop: a message for each tick, until one cannot be sent. *)
Fixpoint progressLoop (k : nat) (total : Z) (ticks : list Z) : nat * list PullResponse :=
  match ticks with
  | [] => (k, [])
  | cur :: ticks =>
      match sendErr k with
      | Some _ => (S k, [])
      | None => let '(k', out) := progressLoop (S k) total ticks in (k', Progress cur total :: out)
      end
  end.

(** [copyAndRemove]; [true]: no error. *)
Definition copyAndRemove (src dst : string) : IO bool :=
  data ← (fun w => (match files w !! src with Some (Reg d _) => if fails (tick w) then None else Some d | _ => None end, mkFW (files w) (S (tick w))));
  match data with
  | None => mret false
  | Some data =>
      ok ← createFile fails dst;
      if negb ok then mret false
      else
        ok ← writeFile fails torn dst data;
        if negb ok then _ ← closeFile fails; _ ← Remove fails dst; mret false
        else
          ok ← closeFile fails;
          if negb ok then _ ← Remove fails dst; mret false
          else Remove fails src
  end.

(** From the staged file on: it is moved into place. *)
Definition install (srcPath hostPath : string) : IO bool :=
  ok ← Rename fails srcPath hostPath;
  if ok : bool then mret true
  else if crossDevice then copyAndRemove srcPath hostPath
  else mret false.

(** With the staging directory: the layer is fetched, with its progress, and moved into
    place. *)
Definition staged (req : PullRequest) (manifestDigest : string) (layer : Descriptor) (stagingDir : string) : IO (Outcome * list PullResponse) :=
  if negb storeOk then mret (Done (Some Internal), [])
  else
    match encoded (lDigest layer) with
    | None => mret (Panicked, [])
    | Some stagingName =>
        let srcPath := Join [stagingDir; stagingName] in
        let '(k, progress) := progressLoop 1 (uint64 (lSize layer)) ticks in
        match fetchLayer layer with
        | Err (e, partial) =>
            _ ← (match partial with Some d => storeWrite srcPath d | None => mret tt end);
            mret (Done (Some (mapRegistryError e)), progress)
        | Ok data =>
            _ ← storeWrite srcPath data;
            ok ← install srcPath (Translate mounted (local_path req));
            if negb ok then mret (Done (Some Internal), progress)
            else
              match sendErr k with
              | Some e => mret (Done (Some e), progress)
              | None => mret (Done None, progress ++ [Result manifestDigest (lDigest layer) (uint64 (lSize layer)) (local_path req)])
              end
        end
    end.

Definition handlePullWithRepo (req : PullRequest) : IO (Outcome * list PullResponse) :=
  match resolve (pullReference req) with
  | Err e => mret (Done (Some (mapRegistryError e)), [])
  | Ok manifestDigest =>
      match fetchManifest manifestDigest with
      | Err e => mret (Done (Some (mapRegistryError e)), [])
      | Ok None => mret (Done (Some Internal), [])
      | Ok (Some mfBytes) =>
          match pickSingleLayer mfBytes with
          | Err c => mret (Done (Some c), [])
          | Ok layer =>
              match sendErr 0 with
              | Some e => mret (Done (Some e), [])
              | None =>
                  let started := Started manifestDigest (uint64 (lSize layer)) in
                  stagingDir ← MkdirTemp (Dir (Translate mounted (local_path req)));
                  match stagingDir with
                  | None => mret (Done (Some Internal), [started])
                  | Some stagingDir =>
                      r ← staged req manifestDigest layer stagingDir;
                      _ ← RemoveAll stagingDir;
                      mret (r.1, started :: r.2)
                  end
              end
          end
      end
  end.

(** [repoOk]: the reference of the repository is well formed. *)
Definition HandlePull (req : option PullRequest) (repoOk : bool) : IO (Outcome * list PullResponse) :=
  match validatePullRequest req, req with
  | Some c, _ => mret (Done (Some c), [])
  | None, None => mret (Done (Some InvalidArgument), [])
  | None, Some req => if negb repoOk then mret (Done (Some InvalidArgument), []) else handlePullWithRepo req
  end.

(** [OrasServer.Pull] *)
Definition Pull (auth : string -> bool -> option Code) (req : option PullRequest) (repoOk : bool) : IO (Outcome * list PullResponse) :=
  match auth "gnoi" true with
  | Some e => mret (Done (Some e), [])
  | None => HandlePull req repoOk
  end.

End Pull.
End Oras.
