(* ===== verification/GnoiServicesProofs.v ===== *)
(** Proofs about the gNOI Healthz, Containerz and Oras services (GnoiServices). *)

From S2P Require Import Prelude GnmiTypes Filepath FileService FileServiceProofs HostService HostCommand GnoiSystem GnoiServices.
Import Filepath HostService.HostService GnoiSystem.GnoiSystem.

(** * Healthz *)

Module HealthzProofs.
Import Healthz.

Section Health.
Variable bus : nat -> DbusCall -> busReply.
Variable show : list busVal -> string.
Variable checkTime : nat -> Z.
Variable doneFirst : nat -> bool.

Abbreviation wait := (waitForArtifact bus show checkTime doneFirst).

(** The world after some more requests to the host. *)
Definition asked (l : list HostOp) (w w' : SW) : Prop :=
  hostLog w' = hostLog w ++ l /\ started w' = started w /\ published w' = published w.

Lemma hostStr_asked o call w : asked [o] w (hostStr bus o call w).2.
Proof. unfold hostStr. by destruct (call _ _) as [r g]. Qed.

Lemma asked_app l l' w w1 w2 : asked l w w1 -> asked l' w1 w2 -> asked (l ++ l') w w2.
Proof. intros (H1 & H2 & H3) (H4 & H5 & H6). split_and!; [by rewrite H4, H1, app_assoc|congruence..]. Qed.

Lemma wait_bounded fuel : forall k elapsed file w,
  (forall k, 0 <= checkTime k)%Z -> (elapsed <= artifactColTimeout)%Z ->
  (artifactColTimeout - elapsed < artifactSleepTime * Z.of_nat fuel)%Z ->
  (exists r, (wait fuel k elapsed file w).1 = Some r) /\
  exists n, n <= fuel /\ asked (replicate n (OpHealthzCheck file)) w (wait fuel k elapsed file w).2.
Proof.
  induction fuel as [|fuel IH]; intros k elapsed file w Ht He Hf; [unfold artifactColTimeout, artifactSleepTime in *; lia|].
  cbn [waitForArtifact]. unfold mbind, Act_bind.
  pose proof (hostStr_asked (OpHealthzCheck file) (fun b => HealthzCheck b show file) w) as Ha.
  destruct (hostStr bus _ _ w) as [r w1]. cbn [snd] in Ha.
  assert (forall v, exists n, n <= S fuel /\ asked (replicate n (OpHealthzCheck file)) w (mret (M := Act) (A := option (option string)) v w1).2) as Hone
    by (intros v; exists 1; split; [lia|exact Ha]).
  destruct r as [s|e]; [split; [by eexists|by apply Hone]|]. pose proof (Ht k) as Hk.
  destruct (Z.leb_spec artifactColTimeout (elapsed + checkTime k)); [split; [by eexists|by apply Hone]|].
  destruct (Z.ltb_spec artifactColTimeout (elapsed + checkTime k + artifactSleepTime)); [split; [by eexists|by apply Hone]|].
  destruct (_ && _); [split; [by eexists|by apply Hone]|].
  destruct (IH (S k) (elapsed + checkTime k + artifactSleepTime)%Z file w1 Ht ltac:(lia)) as [Hr (n & Hn & Hw)];
    [unfold artifactColTimeout, artifactSleepTime in *; lia|].
  split; [done|]. exists (S n). split; [lia|]. by eapply (asked_app [_]).
Qed.

(** Waiting for an artifact always ends: whatever the host answers and however long each
    check takes, the wait has a result after at most 61 checks, which are all that it asks
    of the host. *)
Theorem artifact_wait_ends file w :
  (forall k, 0 <= checkTime k)%Z ->
  (exists r, (wait waitFuel 0 0 file w).1 = Some r) /\
  exists n, n <= 61 /\ asked (replicate n (OpHealthzCheck file)) w (wait waitFuel 0 0 file w).2.
Proof. intros Ht. apply wait_bounded; [done|unfold artifactColTimeout; lia|unfold artifactColTimeout, artifactSleepTime, waitFuel; lia]. Qed.

End Health.

(** ** Artifacts *)

Section Artifacts.
Variable readFile : string -> res OpenErr (res unit string).
Variable sha256 : string -> string.
Variable sendErr : nat -> option Code.

Lemma sendChunks_ok k reads fails e k' out :
  sendChunks sendErr k reads fails = (e, k', out) ->
  out `prefix_of` (RBytes <$> reads) /\ (e = None -> fails = false /\ out = RBytes <$> reads).
Proof.
  revert k k' out. induction reads as [|c reads IH]; intros k k' out; cbn [sendChunks].
  - intros [= <- <- <-]. split; [done|]. by destruct fails.
  - destruct (sendErr k); [intros [= <- <- <-]; split; [apply prefix_nil|done]|].
    destruct (sendChunks sendErr (S k) reads fails) as [[e1 k1] out1] eqn:E. intros [= <- <- <-].
    destruct (IH _ _ _ E) as [Hp Hn]. split; [by apply prefix_cons|]. intros ->. destruct (Hn eq_refl) as [-> ->]. done.
Qed.

(** An artifact that was sent completely can be verified: the stream is a header, the
    pieces that were read, and a trailer; the header has the length and the hash of the file
    as it was hashed, so if the file has not changed in between, the pieces have together
    this length and this hash. *)
Theorem artifact_verifiable file seekOk reads readFails out :
  Artifact readFile sha256 sendErr file seekOk reads readFails = (None, out) ->
  exists path data h, artifactPath file = Some path /\ readFile path = Ok (Ok data) /\
    out = RHeader h :: (RBytes <$> reads) ++ [RTrailer] /\ readFails = false /\
    (foldr String.append "" reads = data ->
     hSize h = Z.of_nat (String.length (foldr String.append "" reads)) /\ hHash h = sha256 (foldr String.append "" reads)).
Proof.
  unfold Artifact. destruct (artifactPath file) as [path|]; [|done]. destruct (readFile path) as [[data|]|[]] eqn:Er; try done.
  destruct seekOk; [|done]. cbn [negb]. destruct (sendErr 0); [done|].
  destruct (sendChunks sendErr 1 reads readFails) as [[e k] chunks] eqn:Es. apply sendChunks_ok in Es as [_ Hn].
  destruct e; [done|]. destruct (Hn eq_refl) as [-> ->]. destruct (sendErr k); [done|]. intros [= <-].
  eexists path, data, _. split; [done|]. split; [done|]. split; [reflexivity|]. split; [done|]. by intros <-.
Qed.

End Artifacts.

(** Only files below a directory /tmp/dump… of the host are opened: an accepted path leads,
    by plain names, to an entry of /mnt/host/tmp whose name starts with dump. *)
Theorem artifact_confined file path :
  artifactPath file = Some path ->
  exists n l, Forall plainName (n :: l) /\ has_prefix n "dump" = true /\ path = build (["mnt"; "host"; "tmp"; n] ++ l).
Proof.
  unfold artifactPath. destruct (has_prefix (Clean file) allowedDir) eqn:Hp; [|done]. intros [= <-].
  assert (IsAbs file = true) as Ha.
  { rewrite <- clean_abs. unfold IsAbs. change allowedDir with ("/" +:+ "tmp/dump") in Hp. by apply prefix_weaken in Hp. }
  pose proof (cleanComps_plain file Ha) as Hc. assert (Clean file = build (cleanComps file)) as E by (unfold Clean; by rewrite Ha).
  rewrite E in *. assert (Forall (str_free sep) (cleanComps file)) as Hf by (eapply Forall_impl; [exact Hc|]; by intros x (_ & _ & _ & ?)).
  assert (has_prefix (str_join (cleanComps file) "/") ("tmp" +:+ "/") = true) as Ht.
  { change allowedDir with (("/" +:+ "tmp" +:+ "/") +:+ "dump") in Hp. by apply prefix_weaken in Hp. }
  destruct (cleanComps file) as [|c l]; [done|]. apply Forall_cons in Hf as [Hc0 Hl]. apply Forall_cons in Hc as [Hcp Hlp].
  apply prefix_comp in Ht as [-> Hne]; [|done..|by repeat split]. destruct l as [|n l]; [done|].
  exists n, l. split; [done|]. split.
  - unfold build in Hp. rewrite str_join_cons in Hp by done. change (has_prefix (str_join (n :: l) "/") "dump" = true) in Hp.
    apply has_prefix_spec in Hp as [t Ht]. destruct l as [|m l]; [cbn in Ht; rewrite Ht; by apply has_prefix_spec; exists t|].
    rewrite str_join_cons in Ht by done. apply has_prefix_spec. apply Forall_cons in Hl as [Hn _].
    assert (forall a b, str_free sep b -> forall s u, s +:+ String sep u = b +:+ a -> exists v, s = b +:+ v) as Hcut.
    { intros a b Hb. induction b as [|x b IH]; intros s u H; [by exists s|]. destruct Hb as [Hx Hb]. destruct s as [|y s].
      - injection H as <- _. done.
      - rewrite !str_app_cons in H. injection H as -> H. destruct (IH Hb s u H) as [v ->]. by exists v. }
    eapply (Hcut t "dump"); [by repeat split|]. exact Ht.
  - set (q := "/mnt/host/" +:+ build ("tmp" :: n :: l)).
    change (Clean q = build (["mnt"; "host"; "tmp"; n] ++ l)).
    assert (IsAbs q = true) as Hq by reflexivity. assert (Clean q = build (cleanComps q)) as -> by (unfold Clean; by rewrite Hq).
    f_equal. unfold cleanComps. rewrite Hq.
    assert (q = str_join (["" ; "mnt"; "host"; ""] ++ "tmp" :: n :: l) "/") as ->.
    { unfold q, build. cbn [app]. rewrite !str_join_cons by done. done. }
    change "/" with (String sep ""). rewrite split_join; [|done|].
    + rewrite fold_left_app. change (fold_left (pushComp true) [""; "mnt"; "host"; ""] []) with ["host"; "mnt"].
      rewrite fold_plain by (by constructor). rewrite rev_app_distr, rev_involutive. done.
    + apply Forall_app. split; [by repeat constructor|]. by constructor.
Qed.

(** A directory beside the one that is meant passes the check. *)
Theorem sibling_directory_allowed : artifactPath "/tmp/dump-private/key" = Some "/mnt/host/tmp/dump-private/key".
Proof. reflexivity. Qed.

End HealthzProofs.

(** * Containerz *)

Module ContainerzProofs.
Import Containerz.

Section Deploys.
Variable bus : nat -> DbusCall -> busReply.
Variable show : list busVal -> string.
Variable auth : string -> bool -> option Code.

Lemma hostSteps_log l w e w' :
  hostSteps bus show l w = (e, w') ->
  exists n, n <= length l /\ hostLog w' = hostLog w ++ take n l /\ (e = None <-> n = length l /\ e = None) /\ (l <> [] -> 0 < n).
Proof.
  revert w. induction l as [|o l IH]; intros w; cbn [hostSteps].
  - intros [= <- <-]. exists 0. rewrite app_nil_r. naive_solver.
  - unfold mbind, Act_bind, hostErr. destruct (perform _ _ _ _) as [[e1|] g]; [intros [= <- <-]; exists 1; cbn; naive_solver lia|].
    intros (n & Hn & Hl & He & _)%IH. exists (S n). cbn [length take hostLog] in *. rewrite Hl, <- app_assoc. split_and!; [lia|done| |lia].
    split; [intros E; split; [|done]; apply He in E as [-> _]; done|by intros [_ ?]].
Qed.

(** What a deployment asks of the host, in order. *)
Definition deploySteps (hostname username password remotePath protocol path : string) : list HostOp :=
  [OpDownloadFile hostname username password remotePath path protocol; OpLoadDockerImage path; OpRemoveFile path].

(** A deployment asks the host for a download, the loading of the image and the removal of
    the file, in this order and for the same file, until one of them fails; it succeeds only
    if all three were done; without write access, or when the request is not valid, it asks
    for nothing. *)
Theorem deploy_in_order recv suffix sendErr w r w' :
  Deploy bus show auth recv suffix sendErr w = (r, w') ->
  (w' = w /\ r <> None) \/
  exists t s hostname username password remotePath protocol n,
    auth "gnoi" true = None /\ recv = Ok (ImageTransferRequest t) /\ suffix = Some s /\ 0 < n <= 3 /\
    hostLog w' = hostLog w ++ take n (deploySteps hostname username password remotePath protocol (localPath (iName t) s)) /\
    (r = None -> n = 3).
Proof.
  unfold Deploy. destruct (auth "gnoi" true); [intros [= <- <-]; by left|]. destruct recv as [[t|]|]; try (intros [= <- <-]; by left).
  match goal with |- context [match ?x with Some _ => _ | None => _ end] => destruct x as [[[[[h u] p] rp] pr]|] end;
    [|intros [= <- <-]; by left].
  destruct suffix as [s|]; [|intros [= <- <-]; by left]. unfold mbind, Act_bind.
  destruct (hostSteps bus show _ w) as [e w1] eqn:Es. apply hostSteps_log in Es as (n & Hn & Hl & He & Hp).
  intros [= <- <-]. right. exists t, s, h, u, p, rp, pr, n. split_and!; [done..|by apply Hp|done|done|].
  destruct e; [done|]. intros _. by apply He.
Qed.

(** When the image cannot be loaded the downloaded file stays. *)
Theorem failed_load_leaves_file t s w g e :
  auth "gnoi" true = None -> iRemote t = None ->
  perform (bus (length (hostLog w))) show (OpDownloadFile "" "" "" "" (localPath (iName t) s) "") (counters w) = (None, g) ->
  (perform (bus (S (length (hostLog w)))) show (OpLoadDockerImage (localPath (iName t) s)) g).1 = Some e ->
  hostLog (Deploy bus show auth (Ok (ImageTransferRequest t)) (Some s) false w).2 =
    hostLog w ++ [OpDownloadFile "" "" "" "" (localPath (iName t) s) ""; OpLoadDockerImage (localPath (iName t) s)].
Proof.
  intros Ha Hr H1 H2. unfold Deploy. rewrite Ha, Hr. cbn [hostSteps]. unfold mbind, Act_bind, hostErr. rewrite H1.
  cbn [hostLog counters]. rewrite length_app, Nat.add_1_r. destruct (perform _ _ (OpLoadDockerImage _) _) as [x g2]. cbn in H2. subst x.
  cbn. by rewrite <- app_assoc.
Qed.

(** The name of an image is part of the path as it is: it can lead out of /tmp. *)
Theorem image_name_escapes : Clean (localPath "../etc/cron.d/x" "00") = "/etc/cron.d/x-00.tar".
Proof. reflexivity. Qed.

End Deploys.
End ContainerzProofs.

(** * Paths on the host *)

Module HostfsProofs.
Import FileService.FileService Hostfs.

Lemma split_build l : Forall plainName l -> l <> [] -> str_split (build l) "/" = "" :: l.
Proof.
  intros Hl Hne. assert (build l = str_join ("" :: l) "/") as -> by (unfold build; by rewrite str_join_cons).
  change "/" with (String sep ""). apply split_join; [done|]. constructor; [done|]. eapply Forall_impl; [exact Hl|]. by intros x (_ & _ & _ & ?).
Qed.

(** Where a file that is accepted is kept. *)
Lemma translated_host b p :
  Validate p = true ->
  exists dir l n, dir ∈ allowedDirs /\ Forall plainName ((hostDirs b ++ dir ++ l) ++ [n]) /\
    Translate b p = build ((hostDirs b ++ dir ++ l) ++ [n]).
Proof.
  unfold Validate. intros [[Ha _]%andb_true_iff Hp]%andb_true_iff. rewrite clean_abs in Ha.
  destruct (allowed_path p Ha Hp) as (dir & l & Hd & Hne & Hpl & Hc).
  destruct (exists_last Hne) as (l' & n & ->). exists dir, l', n. split; [done|].
  assert (Forall plainName (hostDirs b ++ dir ++ l' ++ [n])) as Hall by (apply Forall_app; split; [apply hostDirs_plain|done]).
  rewrite <- !app_assoc. split; [done|]. unfold Translate. rewrite Hc. destruct b; [|done].
  assert (has_prefix (build (dir ++ l' ++ [n])) hostMount = false) as ->.
  { unfold allowedDirs in Hd. repeat (apply elem_of_cons in Hd as [->|Hd]); [..|by apply elem_of_nil in Hd];
      unfold build; cbn [app]; rewrite !str_join_cons by (by destruct l'); reflexivity. }
  unfold hostDirs, build, hostMount. cbn [app]. rewrite !str_join_cons by (destruct dir; [|done]; by destruct l'). done.
Qed.

(** What the file service accepts is accepted here too, and leads to the same file. *)
Theorem file_service_agrees b p :
  validatePath p = Ok tt -> Validate p = true /\ Translate b p = translatePathForContainer b p.
Proof.
  intros Hv. assert (Validate p = true) as H.
  { pose proof Hv as (dir & l & Hd & Hne & Hpl & Hc)%validated_path. unfold validatePath in Hv. unfold Validate.
    destruct (IsAbs (Clean p)); [|done]. cbn [negb andb] in *. destruct (str_contains (Clean p) ".."); [done|].
    change allowedPrefixes with AllowedPrefixes in Hv. destruct (existsb _ AllowedPrefixes); [|done]. rewrite andb_true_r, negb_true_iff.
    rewrite Hc, split_build; [|done|by destruct dir]. apply not_true_iff_false. intros (seg & [<-|Hs]%in_inv & E%String.eqb_eq)%existsb_exists; [done|].
    subst seg. apply list_elem_of_In in Hs. apply (proj1 (Forall_forall _ _) Hpl) in Hs as (_ & _ & ? & _). done. }
  split; [done|]. destruct (translated_host b p H) as (dir & l & n & Hd & Hpl & Hc).
  unfold Translate, translatePathForContainer in *. change hostRoot with hostMount. destruct b; [|done].
  destruct (has_prefix (Clean p) hostMount) eqn:E; [|done]. exfalso.
  pose proof Hv as (dir' & l' & Hd' & Hne' & Hpl' & Hc')%validated_path. rewrite Hc' in E.
  unfold allowedDirs in Hd'. repeat (apply elem_of_cons in Hd' as [->|Hd']); [..|by apply elem_of_nil in Hd'];
      unfold build in E; cbn [app] in E; rewrite !str_join_cons in E by (by destruct l'); discriminate E.
Qed.

(** A name with two dots in it is refused by the file service and accepted here. *)
Theorem dots_in_name_differ : validatePath "/tmp/a..b" = Err Traversal /\ Validate "/tmp/a..b" = true.
Proof. split; reflexivity. Qed.

End HostfsProofs.

(** * Oras *)

Module OrasProofs.
Import FileService.FileService Hostfs HostfsProofs Oras.


Section Pulls.
Variable fails : nat -> bool.
Variable torn : nat -> nat.
Variable mounted : bool.
Variable resolve : string -> res RegErr string.
Variable fetchManifest : string -> res RegErr (option string).
Variable parseManifest : string -> option (list Descriptor).
Variable encoded : string -> option string.
Variable random : string.
Variable storeOk : bool.
Variable fetchLayer : Descriptor -> res (RegErr * option string) string.
Variable ticks : list Z.
Variable sendErr : nat -> option Code.

Abbreviation pull crossDevice :=
  (HandlePull fails torn mounted resolve fetchManifest parseManifest encoded random storeOk fetchLayer crossDevice ticks sendErr).

(** The random part of a name has no slash. *)
Hypothesis random_plain : str_free sep random.
(** The store writes a layer only under a name that stands for an entry of its directory. *)
Hypothesis store_confined : forall layer name, encoded (lDigest layer) = Some name ->
  match fetchLayer layer with Err (_, None) => True | _ => plainName name end.










End Pulls.

(** Across file systems the old file is lost when the copy fails. *)
Theorem cross_device_loses_file :
  let torn := fun _ => 0 in
  let fails := fun n => bool_decide (n = 2) in
  let w := mkFW (<["/d/x" := Reg "new" 420]> {["/d/target" := Reg "old" 420]}) 0 in
  (copyAndRemove fails torn "/d/x" "/d/target" w).1 = false /\ files (copyAndRemove fails torn "/d/x" "/d/target" w).2 !! "/d/target" = None.
Proof. vm_compute. split; reflexivity. Qed.

(** A layer whose digest is not one stops the server: [Encoded] is called before anything
    checks it. *)
Theorem bad_digest_panics fails torn mounted encoded fetchLayer cross ticks sendErr req md layer staging w :
  encoded (lDigest layer) = None ->
  (staged fails torn mounted encoded true fetchLayer cross ticks sendErr req md layer staging w).1.1 = Panicked.
Proof. intros H. unfold staged. cbn [negb]. by rewrite H. Qed.

End OrasProofs.

(** * Witnesses *)

Module Demo.
Import FileService.FileService Healthz HealthzProofs Containerz ContainerzProofs Hostfs HostfsProofs Oras OrasProofs.

Lemma artifact_wait_ends_witness :
  exists r, (waitForArtifact (fun _ _ => NoReply) (fun _ => "") (fun _ => 10%Z) (fun _ => true) waitFuel 0 0 "/tmp/dump/x"
    (mkSW [] [] [] [] (fun _ => 0%N))).1 = Some r.
Proof.
  apply (artifact_wait_ends (fun _ _ => NoReply) (fun _ => "") (fun _ => 10%Z) (fun _ => true) "/tmp/dump/x" (mkSW [] [] [] [] (fun _ => 0%N))).
  intros k. lia.
Defined.

Lemma artifact_confined_witness :
  exists n l, Forall plainName (n :: l) /\ has_prefix n "dump" = true /\ "/mnt/host/tmp/dump/x" = build (["mnt"; "host"; "tmp"; n] ++ l).
Proof. apply (artifact_confined "/tmp/y/../dump/x"). reflexivity. Defined.

Abbreviation demo_artifact :=
  (Artifact (fun _ => Ok (Ok "abc")) (fun s => "sha:" +:+ s) (fun _ => None) "/tmp/dump/x" true ["ab"; "c"] false).

Lemma artifact_verifiable_witness :
  exists h, demo_artifact = (None, [RHeader h; RBytes "ab"; RBytes "c"; RTrailer]) /\ hHash h = "sha:abc".
Proof.
  assert (exists out, demo_artifact = (None, out)) as [out H] by (eexists; vm_compute; reflexivity).
  destruct (artifact_verifiable _ _ _ _ _ _ _ _ H) as (path & data & h & [= <-] & [= <-] & -> & _ & Hh).
  exists h. split; [exact H|]. apply Hh. reflexivity.
Defined.

Abbreviation demo_deploy :=
  (Deploy (fun _ _ => Body [BInt32 0; BStr "done"]) (fun _ => "") (fun _ _ => None)
     (Ok (ImageTransferRequest (mkImage "app" "v1" (Some (mkRemote "10.0.0.1:/img.tar" "SFTP" "u" "p"))))) (Some "0102") false
     (mkSW [] [] [] [] (fun _ => 0%N))).

Lemma deploy_in_order_witness : exists w', demo_deploy = (None, w') /\ length (hostLog w') = 3.
Proof.
  assert (exists w', demo_deploy = (None, w')) as [w' H] by (eexists; vm_compute; reflexivity).
  exists w'. split; [exact H|].
  destruct (deploy_in_order _ _ _ _ _ _ _ _ _ H) as [[_ Hn]|(t & s & h & u & p & rp & pr & n & _ & _ & _ & _ & Hl & Hn)]; [by destruct Hn|].
  rewrite Hl, (Hn eq_refl). reflexivity.
Defined.

Definition demo_layer : Descriptor := mkDescriptor "sha256:abc" 3.

Abbreviation demo_pull :=
  (HandlePull never (fun _ => 0) true (fun _ => Ok "sha256:m") (fun _ => Ok (Some "{}")) (fun _ => Some [demo_layer])
     (fun _ => Some "abc") "7" true (fun _ => Ok "img") false [1%Z] (fun _ => None)
     (Some (mkPull "r" "app" "latest" "" "/tmp/img")) true (mkFW {["/mnt/host/tmp/img" := Reg "old" 420]} 0)).


End Demo.
