(* ===== verification/DialOut.v ===== *)
(** Dial-out telemetry (src/dialout/dialout_client/dialout_client.go): the subscriptions and
    destination groups of the configuration, what each change of the configuration does to
    the running publishers, and the publishers themselves.

    Subscriptions are pointers into a heap, because a change of a destination group copies
    them; contexts and stop channels are numbered, so that which publisher a cancellation
    reaches can be told.  A publisher is a step relation, in which every wait has every
    outcome.  The configuration database, the data clients and the network are
    parameters. *)

From S2P Require Import Prelude PanicMonad.

Module DialOut.

(** * Data *)

Inductive reportType := Unknown | Once | Periodic | Stream.

#[global] Instance reportType_eq_dec : EqDecision reportType.
Proof. solve_decision. Defined.

Definition NewReportType (s : string) : reportType :=
  if String.eqb s "once" then Once
  else if String.eqb s "periodic" then Periodic
  else if String.eqb s "stream" then Stream
  else Unknown.

Definition reportTypeString (r : reportType) : string :=
  match r with Unknown => "unknown" | Once => "once" | Periodic => "periodic" | Stream => "stream" end.

(** A 64-bit number as a [time.Duration], and products of durations. *)
Definition int64 (z : Z) : Z := ((z + 2 ^ 63) mod 2 ^ 64 - 2 ^ 63)%Z.
Definition millisecond : Z := 1000000.
Definition second : Z := 1000000000.

Record ClientConfig := mkConfig { SrcIp : string; RetryInterval : Z; JsonIetf : bool; Unidirectional : bool }.

(** A [clientSubscription]: its configuration, the context that [cancel] cancels, and its
    running data: the stop channel, whether an instance is open, the connection. *)
Record clientSubscription := mkCS {
  name : string;
  destGroupName : string;
  target : string;
  paths : list string;
  reportType_ : reportType;
  interval : Z;
  cancel : nat;
  stop : option nat;
  opened : bool;
  client : option nat
}.

(** A publisher that was started: its subscription, its context, its destinations. *)
Record Publisher := mkPublisher { pCs : nat; pCtx : nat; pDests : list string }.

(** The package's variables, the contexts and channels, and the publishers started. *)
Record DO := mkDO {
  clientCfg : ClientConfig;
  destGrpNameMap : gmap string (list string);
  ClientSubscriptionNameMap : gmap string nat;
  DestGrp2ClientSubMap : gmap string (list string);
  heap : list clientSubscription;
  contexts : nat;
  channels : nat;
  cancelled : list nat;
  closed : list nat;
  disconnected : list nat;
  publishers : list Publisher
}.

Definition withHeap (h : list clientSubscription) (s : DO) : DO :=
  mkDO (clientCfg s) (destGrpNameMap s) (ClientSubscriptionNameMap s) (DestGrp2ClientSubMap s) h (contexts s) (channels s) (cancelled s) (closed s) (disconnected s) (publishers s).
Definition withMaps (g : gmap string (list string)) (c : gmap string nat) (u : gmap string (list string)) (s : DO) : DO :=
  mkDO (clientCfg s) g c u (heap s) (contexts s) (channels s) (cancelled s) (closed s) (disconnected s) (publishers s).
Definition withCfg (c : ClientConfig) (s : DO) : DO :=
  mkDO c (destGrpNameMap s) (ClientSubscriptionNameMap s) (DestGrp2ClientSubMap s) (heap s) (contexts s) (channels s) (cancelled s) (closed s) (disconnected s) (publishers s).
Definition addCancelled (ctx : nat) (s : DO) : DO :=
  mkDO (clientCfg s) (destGrpNameMap s) (ClientSubscriptionNameMap s) (DestGrp2ClientSubMap s) (heap s) (contexts s) (channels s) (ctx :: cancelled s) (closed s) (disconnected s) (publishers s).
Definition addPublisher (p : Publisher) (s : DO) : DO :=
  mkDO (clientCfg s) (destGrpNameMap s) (ClientSubscriptionNameMap s) (DestGrp2ClientSubMap s) (heap s) (contexts s) (channels s) (cancelled s) (closed s) (disconnected s) (publishers s ++ [p]).
(** [context.WithCancel] makes a new context. *)
Definition newContext (s : DO) : nat * DO :=
  (contexts s, mkDO (clientCfg s) (destGrpNameMap s) (ClientSubscriptionNameMap s) (DestGrp2ClientSubMap s) (heap s) (S (contexts s)) (channels s) (cancelled s) (closed s) (disconnected s) (publishers s)).
(** What a closed subscription lets go of: its stop channel and its connection. *)
Definition letGo (ch c : option nat) (s : DO) : DO :=
  mkDO (clientCfg s) (destGrpNameMap s) (ClientSubscriptionNameMap s) (DestGrp2ClientSubMap s) (heap s) (contexts s) (channels s) (cancelled s)
    (match ch with Some ch => ch :: closed s | None => closed s end) (match c with Some c => c :: disconnected s | None => disconnected s end) (publishers s).

Definition setOpened (b : bool) (cs : clientSubscription) : clientSubscription :=
  mkCS (name cs) (destGroupName cs) (target cs) (paths cs) (reportType_ cs) (interval cs) (cancel cs) (stop cs) b (client cs).

(** * Operations on a subscription *)

(** The pointer of a name; without one the dereference panics. *)
Definition deref (p : option nat) : SM DO (nat * clientSubscription) := fun s =>
  match p with
  | Some p => match heap s !! p with Some cs => (Some (p, cs), s) | None => (None, s) end
  | None => (None, s)
  end.

(** [clientSubscription.Close]; closing a closed channel panics. *)
Definition Close (ptr : option nat) : SM DO unit :=
  r ← deref ptr;
  let '(p, cs) := r in
  if negb (opened cs) then mret tt
  else fun s =>
    if (match stop cs with Some ch => bool_decide (ch ∈ closed s) | None => false end) then (None, s)
    else (Some tt, withHeap (alter (setOpened false) p (heap s)) (letGo (stop cs) (client cs) s)).

(** [cs.cancel()] *)
Definition callCancel (ptr : option nat) : SM DO unit :=
  r ← deref ptr;
  modify (addCancelled (cancel r.2)).

(** [clientSubscription.NewInstance]; [dcOk] tells whether the data client can be made.  The
    callers do not use the error. *)
Definition NewInstance (dcOk : clientSubscription -> bool) (ctx : nat) (p : nat) : SM DO unit :=
  r ← deref (Some p);
  let cs := r.2 in
  if String.eqb (destGroupName cs) "" then mret tt
  else fun s =>
    match destGrpNameMap s !! destGroupName cs with
    | None => (Some tt, s)
    | Some dests =>
        if String.eqb (target cs) "" then (Some tt, s)
        else if negb (dcOk cs) then (Some tt, s)
        else (Some tt, addPublisher (mkPublisher p ctx dests) s)
    end.

(** * Changes of the configuration *)

Definition closeDestGroupClient (destGroupName : string) : SM DO unit := fun s =>
  match DestGrp2ClientSubMap s !! destGroupName with
  | None => (Some tt, s)
  | Some names =>
      each_ (fun n => cs ← gets (fun s => ClientSubscriptionNameMap s !! n); _ ← Close cs; callCancel cs) names s
  end.

(** A copy of the subscription gets a new instance. *)
Definition setupOne (dcOk : clientSubscription -> bool) (ctx : nat) (n : string) : SM DO unit :=
  ptr ← gets (fun s => ClientSubscriptionNameMap s !! n);
  r ← deref ptr;
  p ← gets (fun s => length (heap s));
  _ ← modify (fun s => withHeap (heap s ++ [r.2]) s);
  _ ← NewInstance dcOk ctx p;
  modify (fun s => withMaps (destGrpNameMap s) (<[n := p]> (ClientSubscriptionNameMap s)) (DestGrp2ClientSubMap s) s).

Definition setupDestGroupClients (dcOk : clientSubscription -> bool) (ctx : nat) (destGroupName : string) : SM DO unit := fun s =>
  match DestGrp2ClientSubMap s !! destGroupName with
  | None => (Some tt, s)
  | Some names => each_ (setupOne dcOk ctx) names s
  end.

(** The fields of [Global]. *)
Definition globalField (c : ClientConfig) (fv : string * string) : ClientConfig :=
  let '(field, value) := fv in
  if String.eqb field "src_ip" then mkConfig value (RetryInterval c) (JsonIetf c) (Unidirectional c)
  else if String.eqb field "retry_interval" then
    match parse_uint value with
    | None => c
    | Some itvl => mkConfig (SrcIp c) (int64 (second * int64 itvl)) (JsonIetf c) (Unidirectional c)
    end
  else if String.eqb field "encoding" then mkConfig (SrcIp c) (RetryInterval c) true (Unidirectional c)
  else if String.eqb field "unidirectional" then mkConfig (SrcIp c) (RetryInterval c) (JsonIetf c) true
  else c.

Inductive ConfigErr := ErrInvalidDelete | ErrEmptyName | ErrGroupUsed | ErrInvalidAddr | ErrInvalidValue | ErrInvalidPaths | ErrInvalidField.

(** The addresses of a group; an empty one is not valid. *)
Fixpoint groupFields (fv : list (string * string)) (dests : list string) : res ConfigErr (list string) :=
  match fv with
  | [] => Ok dests
  | (field, value) :: fv =>
      if String.eqb field "dst_addr" then
        let addrs := str_split value "," in
        if existsb (fun a => String.eqb a "") addrs then Err ErrInvalidAddr else groupFields fv (dests ++ addrs)
      else Err ErrInvalidValue
  end.

(** The fields of a subscription; [pathOk]: [ygot.StringToPath] accepts a path. *)
Definition subscriptionField (pathOk : string -> bool) (cs : clientSubscription) (fv : string * string) : res ConfigErr clientSubscription :=
  let '(field, value) := fv in
  if String.eqb field "dst_group" then
    Ok (mkCS (name cs) value (target cs) (paths cs) (reportType_ cs) (interval cs) (cancel cs) (stop cs) (opened cs) (client cs))
  else if String.eqb field "report_type" then
    Ok (mkCS (name cs) (destGroupName cs) (target cs) (paths cs) (NewReportType value) (interval cs) (cancel cs) (stop cs) (opened cs) (client cs))
  else if String.eqb field "report_interval" then
    Ok (match parse_uint value with
        | None => cs
        | Some intvl => mkCS (name cs) (destGroupName cs) (target cs) (paths cs) (reportType_ cs) (int64 (int64 intvl * millisecond)) (cancel cs) (stop cs) (opened cs) (client cs)
        end)
  else if String.eqb field "path_target" then
    Ok (mkCS (name cs) (destGroupName cs) value (paths cs) (reportType_ cs) (interval cs) (cancel cs) (stop cs) (opened cs) (client cs))
  else if String.eqb field "paths" then
    let ps := str_split value "," in
    if forallb pathOk ps then Ok (mkCS (name cs) (destGroupName cs) (target cs) ps (reportType_ cs) (interval cs) (cancel cs) (stop cs) (opened cs) (client cs))
    else Err ErrInvalidPaths
  else Err ErrInvalidField.

(** A new subscription; its interval is 5000, in nanoseconds. *)
Definition newSubscription (n : string) (cancelCtx : nat) : clientSubscription :=
  mkCS n "" "" [] Unknown 5000 cancelCtx None false None.

(** The list without the first occurrence of a name. *)
Fixpoint removeName (n : string) (l : list string) : list string :=
  match l with
  | [] => []
  | x :: l => if String.eqb n x then l else x :: removeName n l
  end.

Section Config.
Context `{!MapRange}.
Variable dcOk : clientSubscription -> bool.
Variable pathOk : string -> bool.

Definition processGlobal (ctx : nat) (hdel : bool) (fv : gmap string string) : SM DO (option ConfigErr) :=
  if hdel then mret (Some ErrInvalidDelete)
  else
    _ ← modify (fun s => withCfg (fold_left globalField (range_of fv) (clientCfg s)) s);
    groups ← gets (fun s => (range_of (destGrpNameMap s)).*1);
    _ ← each_ (fun g => _ ← closeDestGroupClient g; setupDestGroupClients dcOk ctx g) groups;
    mret None.

Definition processGroup (ctx : nat) (g : string) (hdel : bool) (fv : gmap string string) : SM DO (option ConfigErr) :=
  if String.eqb g "" then mret (Some ErrEmptyName)
  else
    _ ← closeDestGroupClient g;
    if hdel then
      ((fun s =>
         match DestGrp2ClientSubMap s !! g with
         | Some _ => (Some (Some ErrGroupUsed), s)
         | None => (Some None, withMaps (delete g (destGrpNameMap s)) (ClientSubscriptionNameMap s) (DestGrp2ClientSubMap s) s)
         end) : SM DO (option ConfigErr))
    else
      match groupFields (range_of fv) [] with
      | Err e => mret (Some e)
      | Ok dests =>
          _ ← modify (fun s => withMaps (<[g := dests]> (destGrpNameMap s)) (ClientSubscriptionNameMap s) (DestGrp2ClientSubMap s) s);
          _ ← setupDestGroupClients dcOk ctx g;
          mret None
      end.

(** The subscription is entered and started. *)
Definition addSubscription (ctx : nat) (cs : clientSubscription) : SM DO (option ConfigErr) :=
  _ ← modify (fun s =>
    let users := default [] (DestGrp2ClientSubMap s !! destGroupName cs) in
    let u := if bool_decide (name cs ∈ users) then DestGrp2ClientSubMap s
             else <[destGroupName cs := users ++ [name cs]]> (DestGrp2ClientSubMap s) in
    withHeap (heap s ++ [cs]) (withMaps (destGrpNameMap s) (<[name cs := length (heap s)]> (ClientSubscriptionNameMap s)) u s));
  p ← gets (fun s => pred (length (heap s)));
  _ ← NewInstance dcOk ctx p;
  mret None.

Definition processSubscription (ctx : nat) (n : string) (hdel : bool) (fv : gmap string string) : SM DO (option ConfigErr) :=
  if String.eqb n "" then mret (Some ErrEmptyName)
  else
    csub ← gets (fun s => ClientSubscriptionNameMap s !! n);
    _ ← (match csub with Some _ => _ ← Close csub; callCancel csub | None => mret tt end);
    if hdel then
      r ← deref csub;
      let g := destGroupName r.2 in
      _ ← modify (fun s =>
        withMaps (destGrpNameMap s) (delete n (ClientSubscriptionNameMap s))
          (<[g := removeName n (default [] (DestGrp2ClientSubMap s !! g))]> (DestGrp2ClientSubMap s)) s);
      mret None
    else
      match foldM (subscriptionField pathOk) (newSubscription n ctx) (range_of fv) with
      | Err e => mret (Some e)
      | Ok cs => if String.eqb (destGroupName cs) "" then mret None else addSubscription ctx cs
      end.

(** [processTelemetryClientConfig]: [fv] is the entry of the key, [None] when it cannot be
    read. *)
Definition processTelemetryClientConfig (key : string) (hdel : bool) (fv : option (gmap string string)) : SM DO (option unit) :=
  match fv with
  | None => mret (Some tt)
  | Some fv =>
      ctx ← (fun s => let '(ctx, s) := newContext s in (Some ctx, s));
      e ← (if String.eqb key "Global" then processGlobal ctx hdel fv
           else if has_prefix key "DestinationGroup_" then processGroup ctx (trim_prefix key "DestinationGroup_") hdel fv
           else if has_prefix key "Subscription_" then processSubscription ctx (trim_prefix key "Subscription_") hdel fv
           else mret None);
      mret (match e with Some _ => Some tt | None => None end)
  end.

(** ** The main loop *)

(** A notification of the database: the key, the payload, the entry as it is read then, and
    whether the context of the program is cancelled after it. *)
Record Notification := mkNotification { nKey : string; nPayload : string; nEntry : option (gmap string string); nDone : bool }.

(** [DialOutRun] after the subscription to the database was made: the keys that exist, then
    the notifications, until the context is cancelled.  Errors are not used. *)
Definition dialOutInit (keys : list (string * option (gmap string string))) : SM DO unit :=
  each_ (fun ke => _ ← processTelemetryClientConfig ke.1 false ke.2; mret tt) keys.

Fixpoint dialOutLoop (ns : list Notification) : SM DO unit :=
  match ns with
  | [] => mret tt
  | n :: ns =>
      if String.eqb (nPayload n) "del" || String.eqb (nPayload n) "hdel" then
        _ ← processTelemetryClientConfig (nKey n) true (nEntry n);
        if nDone n then mret tt else dialOutLoop ns
      else if String.eqb (nPayload n) "hset" then
        _ ← processTelemetryClientConfig (nKey n) false (nEntry n);
        if nDone n then mret tt else dialOutLoop ns
      else dialOutLoop ns
  end.

End Config.

Definition initial (c : ClientConfig) : DO := mkDO c ∅ ∅ ∅ [] 0 0 [] [] [] [].

(** * Publishers beside the configuration *)

(** What [publishRun] does to its subscription: a new stop channel at the start of each
    attempt; the connection; the closing of its own subscription. *)
Definition reopened (ch : nat) (cs : clientSubscription) : clientSubscription :=
  mkCS (name cs) (destGroupName cs) (target cs) (paths cs) (reportType_ cs) (interval cs) (cancel cs) (Some ch) true None.
Definition connectedTo (c : nat) (cs : clientSubscription) : clientSubscription :=
  mkCS (name cs) (destGroupName cs) (target cs) (paths cs) (reportType_ cs) (interval cs) (cancel cs) (stop cs) (opened cs) (Some c).

Definition reopen (p : nat) (s : DO) : DO :=
  mkDO (clientCfg s) (destGrpNameMap s) (ClientSubscriptionNameMap s) (DestGrp2ClientSubMap s) (alter (reopened (channels s)) p (heap s))
    (contexts s) (S (channels s)) (cancelled s) (closed s) (disconnected s) (publishers s).
Definition connect (p c : nat) (s : DO) : DO := withHeap (alter (connectedTo c) p (heap s)) s.

(** A change of the configuration, with an entry that the database may have then, or a step
    of a publisher.  A change, which holds the lock of the configuration, is one step. *)
Inductive change `{!MapRange} (dcOk : clientSubscription -> bool) (pathOk : string -> bool) (s : DO) : DO -> Prop :=
| CConfig key hdel fv r s' : processTelemetryClientConfig dcOk pathOk key hdel fv s = (Some r, s') -> change dcOk pathOk s s'
| CReopen pub : pub ∈ publishers s -> change dcOk pathOk s (reopen (pCs pub) s)
| CConnect pub c : pub ∈ publishers s -> change dcOk pathOk s (connect (pCs pub) c s)
| COwnClose pub s' : pub ∈ publishers s -> Close (Some (pCs pub)) s = (Some tt, s') -> change dcOk pathOk s s'.

(** * A publisher *)

Module Publish.

(** Where [publishRun] is: about to start again with the next destination; connecting to it;
    connected, with a publish stream; in the loop of periodic reports; sending a stream;
    finished; out of range. *)
Inductive PC :=
| Restart | Dialling (dest : string) | Connected (dest : string) | Reporting (dest : string) | Streaming (dest : string) | Exited | OutOfRange.

(** The running data of the subscription as the publisher sees it: whether its current stop
    channel is closed, whether it is open; whether the context is cancelled; the next
    index; the destinations tried so far. *)
Record St := mkSt { pc : PC; stopClosed : bool; isOpen : bool; ctxDone : bool; destIdx : nat; tried : list string }.

Definition at_ (l : PC) (s : St) : St := mkSt l (stopClosed s) (isOpen s) (ctxDone s) (destIdx s) (tried s).
Definition closed_ (s : St) : St := if isOpen s then mkSt (pc s) true false (ctxDone s) (destIdx s) (tried s) else s.

Section Run.
Variable dests : list string.
Variable kind : reportType.

(** One step of the publisher itself. *)
Inductive own (s : St) : St -> Prop :=
| ORestart dest :
    pc s = Restart -> dests !! destIdx s = Some dest ->
    own s (mkSt (Dialling dest) false true (ctxDone s) (S (destIdx s) mod length dests) (tried s ++ [dest]))
| OOutOfRange :
    pc s = Restart -> dests !! destIdx s = None -> own s (at_ OutOfRange (mkSt (pc s) false true (ctxDone s) (destIdx s) (tried s)))
(* the dial has ended *)
| OCancelled dest : pc s = Dialling dest -> ctxDone s = true -> own s (at_ Exited (closed_ s))
| ODialFailed dest : pc s = Dialling dest -> ctxDone s = false -> own s (at_ Restart s)
| ONoPublish dest : pc s = Dialling dest -> ctxDone s = false -> own s (at_ Restart (closed_ s))
| OConnected dest : pc s = Dialling dest -> ctxDone s = false -> own s (at_ (Connected dest) s)
(* by the type of report *)
| OPeriodic dest : pc s = Connected dest -> kind = Periodic -> own s (at_ (Reporting dest) s)
| OStreamStopped dest : pc s = Connected dest -> kind = Stream -> stopClosed s = true -> own s (at_ Exited s)
| OStream dest : pc s = Connected dest -> kind = Stream -> stopClosed s = false -> own s (at_ (Streaming dest) s)
| OUnsupported dest : pc s = Connected dest -> kind <> Periodic -> kind <> Stream -> own s (at_ Exited s)
(* periodic reports *)
| OStopped dest : pc s = Reporting dest -> stopClosed s = true -> own s (at_ Exited s)
(* a report was sent, which a stream whose context is cancelled does not do; or the data
   could not be read, and it is tried again *)
| OReported dest : pc s = Reporting dest -> stopClosed s = false -> ctxDone s = false -> own s s
| OReadFailed dest : pc s = Reporting dest -> stopClosed s = false -> own s s
| OSendFailed dest : pc s = Reporting dest -> stopClosed s = false -> own s (at_ Restart (closed_ s))
(* the stream has ended *)
| OStreamEnded dest : pc s = Streaming dest -> own s (at_ Restart (closed_ s)).

(** What the configuration does to a publisher: [Close] of its subscription, and the
    cancellation of its context. *)
Inductive env (s : St) : St -> Prop :=
| EClose : env s (closed_ s)
| ECancel : env s (mkSt (pc s) (stopClosed s) (isOpen s) true (destIdx s) (tried s)).

End Run.

Definition start (cancelledAlready : bool) : St := mkSt Restart false false cancelledAlready 0 [].

End Publish.

End DialOut.
