(* ===== verification/DialOutProofs.v ===== *)
(** Proofs about dial-out telemetry (DialOut): the registration of subscriptions with their
    destination groups, what a change of a group reaches, the destinations that a publisher
    tries, its end, and findings. *)

From S2P Require Import Prelude PanicMonad DialOut.
Import DialOut.DialOut.

(** * Registration *)

(** What never changes in a subscription that exists. *)
Definition sameConfig (a b : clientSubscription) : Prop :=
  name a = name b /\ destGroupName a = destGroupName b /\ cancel a = cancel b /\
  target a = target b /\ paths a = paths b /\ reportType_ a = reportType_ b /\ interval a = interval b.

(** The subscriptions that exist keep their configuration. *)
Definition heapKept (h h' : list clientSubscription) : Prop :=
  forall p cs, h !! p = Some cs -> exists cs', h' !! p = Some cs' /\ sameConfig cs cs'.

Lemma heapKept_refl h : heapKept h h.
Proof. intros p cs H. by exists cs. Qed.
Lemma heapKept_trans h1 h2 h3 : heapKept h1 h2 -> heapKept h2 h3 -> heapKept h1 h3.
Proof.
  intros H12 H23 p cs H. destruct (H12 p cs H) as (cs2 & Hc2 & ?). destruct (H23 p cs2 Hc2) as (cs3 & Hc3 & ?).
  exists cs3. split; [done|]. unfold sameConfig in *. destruct_and!. split_and!; congruence.
Qed.
Lemma heapKept_app h l : heapKept h (h ++ l).
Proof. intros p cs H. exists cs. split; [by apply lookup_app_l_Some|done]. Qed.
Lemma heapKept_alter h p f : (forall cs, sameConfig cs (f cs)) -> heapKept h (alter f p h).
Proof.
  intros Hf q cs H. destruct (decide (q = p)) as [->|Hne].
  - exists (f cs). rewrite list_lookup_alter_eq, H. split; [done|apply Hf].
  - exists cs. rewrite list_lookup_alter_ne by done. by split.
Qed.

Record Registered (s : DO) : Prop := mkReg {
  reg_sub : forall n p, ClientSubscriptionNameMap s !! n = Some p ->
    exists cs l, heap s !! p = Some cs /\ name cs = n /\ DestGrp2ClientSubMap s !! destGroupName cs = Some l /\ n ∈ l;
  reg_nodup : forall g l, DestGrp2ClientSubMap s !! g = Some l -> NoDup l
}.

(** A step that keeps the maps and the configuration of the subscriptions. *)
Lemma reg_kept s s' :
  Registered s -> ClientSubscriptionNameMap s' = ClientSubscriptionNameMap s -> DestGrp2ClientSubMap s' = DestGrp2ClientSubMap s ->
  heapKept (heap s) (heap s') -> Registered s'.
Proof.
  intros [R1 R2] Hs Hu Hh. split; [|by rewrite Hu]. intros n p Hp. rewrite Hs in Hp. destruct (R1 n p Hp) as (cs & l & Hc & Hn & Hl & Hi).
  destruct (Hh p cs Hc) as (cs' & Hc' & Hn' & Hg & _). exists cs', l. rewrite Hu, <- Hg. split_and!; [done|congruence|done|done].
Qed.

(** What an action on the configuration leaves alone. *)
Record Frame (s s' : DO) : Prop := mkFrame {
  fr_subs : ClientSubscriptionNameMap s' = ClientSubscriptionNameMap s;
  fr_users : DestGrp2ClientSubMap s' = DestGrp2ClientSubMap s;
  fr_heap : heapKept (heap s) (heap s');
  fr_cancelled : cancelled s ⊆ cancelled s'
}.

Lemma frame_refl s : Frame s s.
Proof. split; [done|done|apply heapKept_refl|done]. Qed.
Lemma frame_trans s1 s2 s3 : Frame s1 s2 -> Frame s2 s3 -> Frame s1 s3.
Proof. intros [] []. split; [congruence|congruence|by eapply heapKept_trans|by etrans]. Qed.
Lemma frame_reg s s' : Registered s -> Frame s s' -> Registered s'.
Proof. intros R []. by eapply reg_kept. Qed.

Create HintDb dialout.
#[local] Hint Resolve frame_refl heapKept_refl heapKept_app : dialout.

Lemma deref_frame ptr s r s' : deref ptr s = (Some r, s') -> s' = s /\ ptr = Some r.1 /\ heap s !! r.1 = Some r.2.
Proof. unfold deref. destruct ptr as [p|]; [|done]. destruct (heap s !! p) eqn:E; [|done]. by intros [= <- <-]. Qed.

(** A subscription that was closed. *)
Definition isClosed (s : DO) (p : nat) : Prop := exists cs, heap s !! p = Some cs /\ opened cs = false.

Lemma Close_spec ptr s s' :
  Close ptr s = (Some tt, s') -> Frame s s' /\ (exists p, ptr = Some p /\ isClosed s' p) /\ forall q, isClosed s q -> isClosed s' q.
Proof.
  unfold Close, mbind, SM_bind. destruct (deref ptr s) as [[[p cs]|] s1] eqn:E; [|done].
  apply deref_frame in E as (-> & -> & Hp). cbn in Hp. destruct (opened cs) eqn:Eo; cbn [negb].
  - destruct (match stop cs with Some ch => bool_decide (ch ∈ closed s) | None => false end); [done|]. intros [= <-].
    assert (forall q, heap (withHeap (alter (setOpened false) p (heap s)) (letGo (stop cs) (client cs) s)) !! q =
      if decide (q = p) then setOpened false <$> heap s !! q else heap s !! q) as Hl.
    { intros q. cbn [withHeap heap]. destruct (decide (q = p)) as [->|]; [apply list_lookup_alter_eq|by apply list_lookup_alter_ne]. }
    split_and!.
    + split; [done|done|apply heapKept_alter; done|done].
    + exists p. split; [done|]. exists (setOpened false cs). rewrite Hl, decide_True, Hp by done. done.
    + intros q (c & Hc & Ho). unfold isClosed. rewrite Hl. destruct (decide (q = p)); [|by exists c]. rewrite Hc. by exists (setOpened false c).
  - intros [= <-]. split_and!; [apply frame_refl| |done]. exists p. split; [done|]. by exists cs.
Qed.

Lemma callCancel_spec ptr s s' :
  callCancel ptr s = (Some tt, s') ->
  exists p cs, ptr = Some p /\ heap s !! p = Some cs /\ Frame s s' /\ cancel cs ∈ cancelled s' /\ heap s' = heap s.
Proof.
  unfold callCancel, mbind, SM_bind. destruct (deref ptr s) as [[[p cs]|] s1] eqn:E; [|done].
  apply deref_frame in E as (-> & -> & Hp). unfold modify. intros [= <-]. cbn in Hp |- *. exists p, cs.
  split_and!; [done|done| |by left|done]. split; [done|done|apply heapKept_refl|]. cbn. set_solver.
Qed.

Lemma NewInstance_frame dcOk ctx p s s' : NewInstance dcOk ctx p s = (Some tt, s') -> Frame s s' /\ heap s' = heap s.
Proof.
  unfold NewInstance, mbind, SM_bind. destruct (deref (Some p) s) as [[[q cs]|] s1] eqn:E; [|done].
  apply deref_frame in E as (-> & _ & _). cbn [snd]. destruct (String.eqb _ ""); [intros [= <-]; split; [apply frame_refl|done]|].
  destruct (destGrpNameMap s !! destGroupName cs); [|intros [= <-]; split; [apply frame_refl|done]].
  destruct (String.eqb _ ""); [intros [= <-]; split; [apply frame_refl|done]|].
  destruct (dcOk cs); cbn [negb]; intros [= <-]; (split; [|done]); [|apply frame_refl]. split; [done|done|apply heapKept_refl|done].
Qed.

Lemma closeUsers_spec names : forall s s',
  each_ (fun n => cs ← gets (fun s => ClientSubscriptionNameMap s !! n); _ ← Close cs; callCancel cs) names s = (Some tt, s') ->
  Frame s s' /\ (forall q, isClosed s q -> isClosed s' q) /\
  forall n p cs, n ∈ names -> ClientSubscriptionNameMap s !! n = Some p -> heap s !! p = Some cs -> isClosed s' p /\ cancel cs ∈ cancelled s'.
Proof.
  induction names as [|n names IH]; intros s s'; cbn [each_].
  - intros [= <-]. split_and!; [apply frame_refl|done|]. by intros ? ? ? ?%elem_of_nil.
  - unfold mbind at 1, SM_bind at 1. unfold mbind at 1, SM_bind at 1. unfold gets at 1.
    unfold mbind at 1, SM_bind at 1.
    destruct (Close (ClientSubscriptionNameMap s !! n) s) as [[[]|] s1] eqn:Ec; [|done].
    apply Close_spec in Ec as (F1 & (p1 & Hp1 & Hc1) & Hk1).
    destruct (callCancel (ClientSubscriptionNameMap s !! n) s1) as [[[]|] s2] eqn:Ek; [|done].
    apply callCancel_spec in Ek as (p2 & cs2 & Hp2 & Hh2 & F2 & Hcan & Hheap). assert (p2 = p1) as -> by congruence.
    intros Hr. apply IH in Hr as (F3 & Hk3 & Hall). assert (Frame s s2) as F12 by (by eapply frame_trans).
    assert (forall q, isClosed s1 q -> isClosed s2 q) as Hk2 by (intros q; unfold isClosed; by rewrite Hheap).
    split_and!; [by eapply frame_trans|auto|].
    intros m p cs [->|Hm]%elem_of_cons Hp Hcs.
    + assert (p = p1) as -> by congruence. split; [auto|]. apply (fr_cancelled _ _ F3).
      destruct (fr_heap _ _ F1 p1 cs Hcs) as (cs1 & Hcs1 & _ & _ & Heq & _). assert (cs2 = cs1) as -> by congruence. by rewrite Heq.
    + destruct (fr_heap _ _ F12 p cs Hcs) as (cs' & Hcs' & _ & _ & Heq & _). rewrite Heq. apply (Hall m p cs'); [done| |done].
      by rewrite (fr_subs _ _ F12).
Qed.

Lemma closeGroup_frame g s s' : closeDestGroupClient g s = (Some tt, s') -> Frame s s'.
Proof.
  unfold closeDestGroupClient. destruct (DestGrp2ClientSubMap s !! g); [|intros [= <-]; apply frame_refl]. by intros [F _]%closeUsers_spec.
Qed.

Lemma setupOne_reg dcOk ctx n s s' :
  Registered s -> setupOne dcOk ctx n s = (Some tt, s') -> Registered s' /\ heapKept (heap s) (heap s') /\ cancelled s ⊆ cancelled s'.
Proof.
  intros R. unfold setupOne. unfold mbind at 1, SM_bind at 1, gets at 1. unfold mbind at 1, SM_bind at 1.
  destruct (deref (ClientSubscriptionNameMap s !! n) s) as [[[p0 cs]|] s1] eqn:E; [|done].
  apply deref_frame in E as (-> & Hn & Hp0). cbn [fst snd] in *.
  unfold mbind at 1, SM_bind at 1, gets at 1. unfold mbind at 1, SM_bind at 1, modify at 1.
  unfold mbind at 1, SM_bind at 1.
  set (s1 := withHeap (heap s ++ [cs]) s). destruct (NewInstance dcOk ctx (length (heap s)) s1) as [[[]|] s2] eqn:En; [|done].
  apply NewInstance_frame in En as [F Hh]. unfold modify. intros [= <-].
  assert (heapKept (heap s) (heap s2)) as Hk by (rewrite Hh; apply heapKept_app).
  split_and!; [|done|apply (fr_cancelled _ _ F)].
  pose proof (fr_subs _ _ F) as Hs. pose proof (fr_users _ _ F) as Hu. cbn [s1 withHeap ClientSubscriptionNameMap DestGrp2ClientSubMap] in Hs, Hu.
  split; cbn [withMaps ClientSubscriptionNameMap DestGrp2ClientSubMap heap]; [|rewrite Hu; apply (reg_nodup s R)].
  intros m p [[<- <-]|[Hne Hm]]%lookup_insert_Some.
  - destruct (reg_sub s R n p0 Hn) as (cs0 & l & Hc0 & Hname & Hl & Hin). assert (cs0 = cs) as -> by congruence.
    exists cs, l. rewrite Hh, Hu. split_and!; [by apply list_lookup_middle|done..].
  - rewrite Hs in Hm. destruct (reg_sub s R m p Hm) as (cs0 & l & Hc0 & Hname & Hl & Hin).
    destruct (Hk p cs0 Hc0) as (cs1 & Hc1 & Hn1 & Hg1 & _). exists cs1, l. rewrite Hu, <- Hg1. split_and!; [done|congruence|done|done].
Qed.

Lemma setupGroup_reg dcOk ctx g s s' :
  Registered s -> setupDestGroupClients dcOk ctx g s = (Some tt, s') -> Registered s' /\ cancelled s ⊆ cancelled s'.
Proof.
  unfold setupDestGroupClients. destruct (DestGrp2ClientSubMap s !! g) as [names|]; [|intros R [= <-]; done].
  revert s. induction names as [|n names IH]; intros s R; cbn [each_]; [by intros [= <-]|].
  unfold mbind, SM_bind. destruct (setupOne dcOk ctx n s) as [[[]|] s1] eqn:E; [|done].
  apply setupOne_reg in E as (R1 & _ & Hc); [|done]. intros Hr. destruct (IH s1 R1 Hr) as [R2 Hc2]. split; [done|]. by etrans.
Qed.

(** The names without one of them. *)
Lemma removeName_in n m l : m ∈ l -> m <> n -> m ∈ removeName n l.
Proof.
  intros H Hne. induction l as [|x l IH]; [done|]. cbn. destruct (String.eqb_spec n x) as [->|].
  - by apply elem_of_cons in H as [->|].
  - apply elem_of_cons in H as [->|H]; [by left|right; auto].
Qed.
Lemma removeName_sublist n l : removeName n l `sublist_of` l.
Proof.
  induction l as [|x l IH]; [done|]. cbn. destruct (String.eqb n x); [by apply sublist_cons|by apply sublist_skip].
Qed.

Lemma fields_name pathOk fv cs cs' :
  foldM (subscriptionField pathOk) cs fv = Ok cs' -> name cs' = name cs /\ cancel cs' = cancel cs.
Proof.
  intros H. apply (foldM_inv (fun c => name c = name cs /\ cancel c = cancel cs) (subscriptionField pathOk)) with (2 := conj eq_refl eq_refl) in H; [done|].
  intros c [f v] c' Hc. unfold subscriptionField.
  repeat match goal with |- context [String.eqb f ?a] => destruct (String.eqb f a); [intros; simplify_eq; try done; case_match; simplify_eq; try done|] end; done.
Qed.

(** The users of a group after a subscription was entered. *)
Lemma entered_users (u : gmap string (list string)) g n :
  (forall g l, u !! g = Some l -> NoDup l) ->
  let users := default [] (u !! g) in
  let u' := if bool_decide (n ∈ users) then u else <[g := users ++ [n]]> u in
  (forall g l, u' !! g = Some l -> NoDup l) /\ (exists l, u' !! g = Some l /\ n ∈ l) /\
  (forall g' l, u !! g' = Some l -> exists l', u' !! g' = Some l' /\ l ⊆ l').
Proof.
  intros Hn users u'. subst u' users. case_bool_decide as Hi.
  - split_and!; [done| |intros g' l Hl; by exists l]. destruct (u !! g) as [l|]; [by exists l|by apply elem_of_nil in Hi].
  - split_and!.
    + intros g' l [[<- <-]|[_ Hl]]%lookup_insert_Some; [|by eapply Hn]. apply NoDup_app. split_and!; [|set_solver|apply NoDup_singleton].
      destruct (u !! g) as [l|] eqn:E; [by eapply Hn|constructor].
    + eexists. rewrite lookup_insert_eq. split; [done|]. set_solver.
    + intros g' l Hl. destruct (decide (g' = g)) as [->|Hne]; [|exists l; by rewrite lookup_insert_ne].
      eexists. rewrite lookup_insert_eq. split; [done|]. rewrite Hl. set_solver.
Qed.

Section Changes.
Context {mr : MapRange}.
Variable dcOk : clientSubscription -> bool.
Variable pathOk : string -> bool.

Lemma addSubscription_reg ctx cs s r s' : Registered s -> addSubscription dcOk ctx cs s = (Some r, s') -> Registered s'.
Proof.
  intros R. unfold addSubscription. unfold mbind at 1, SM_bind at 1, modify at 1. unfold mbind at 1, SM_bind at 1, gets at 1. unfold mbind at 1, SM_bind at 1.
  set (s1 := withHeap _ _). destruct (NewInstance dcOk ctx _ s1) as [[[]|] s2] eqn:En; [|done].
  apply NewInstance_frame in En as [F _]. intros [= _ <-]. apply (frame_reg s1); [|done]. clear F s2.
  destruct (entered_users (DestGrp2ClientSubMap s) (destGroupName cs) (name cs) (reg_nodup s R)) as (H1 & (l & Hl & Hin) & H3).
  split; cbn [s1 withHeap withMaps ClientSubscriptionNameMap DestGrp2ClientSubMap heap]; [|exact H1].
  intros m p [[<- <-]|[Hne Hm]]%lookup_insert_Some.
  - exists cs, l. split_and!; [by apply list_lookup_middle|done..].
  - destruct (reg_sub s R m p Hm) as (c & l' & Hc & Hname & Hl' & Hin'). destruct (H3 _ _ Hl') as (l'' & Hl'' & Hsub).
    exists c, l''. split_and!; [by apply lookup_app_l_Some|done|done|set_solver].
Qed.

Lemma removed_reg s n p cs :
  Registered s -> ClientSubscriptionNameMap s !! n = Some p -> heap s !! p = Some cs ->
  Registered (withMaps (destGrpNameMap s) (delete n (ClientSubscriptionNameMap s))
    (<[destGroupName cs := removeName n (default [] (DestGrp2ClientSubMap s !! destGroupName cs))]> (DestGrp2ClientSubMap s)) s).
Proof.
  intros R Hp Hcs. split; cbn [withMaps ClientSubscriptionNameMap DestGrp2ClientSubMap heap].
  - intros m q [Hne Hm]%lookup_delete_Some. destruct (reg_sub s R m q Hm) as (c & l & Hc & Hname & Hl & Hin).
    destruct (decide (destGroupName c = destGroupName cs)) as [Heq|Hne'].
    + exists c, (removeName n l). rewrite Heq in Hl |- *. rewrite lookup_insert_eq, Hl. split_and!; [done|done|done|]. by apply removeName_in.
    + exists c, l. rewrite lookup_insert_ne by done. done.
  - intros g l [[<- <-]|[_ Hl]]%lookup_insert_Some; [|by eapply reg_nodup]. eapply sublist_NoDup; [|apply removeName_sublist].
    destruct (DestGrp2ClientSubMap s !! destGroupName cs) as [l|] eqn:E; [by eapply reg_nodup|constructor].
Qed.

(** A subscription that is there is closed and cancelled, one that is not is left alone. *)
Lemma stopSub_frame (csub : option nat) s s' :
  (match csub with Some _ => _ ← Close csub; callCancel csub | None => mret tt end : SM DO unit) s = (Some tt, s') -> Frame s s'.
Proof.
  destruct csub as [p|]; [|intros [= <-]; apply frame_refl]. unfold mbind, SM_bind.
  destruct (Close (Some p) s) as [[[]|] s1] eqn:Ec; [|done]. apply Close_spec in Ec as (F1 & _ & _).
  intros (q & cs & _ & _ & F2 & _)%callCancel_spec. by eapply frame_trans.
Qed.

Lemma processSubscription_reg ctx n hdel fv s r s' :
  Registered s -> processSubscription dcOk pathOk ctx n hdel fv s = (Some r, s') -> Registered s'.
Proof.
  intros R. unfold processSubscription. destruct (String.eqb n ""); [by intros [= _ <-]|].
  unfold mbind at 1, SM_bind at 1, gets at 1. unfold mbind at 1, SM_bind at 1.
  destruct ((match ClientSubscriptionNameMap s !! n with Some _ => _ | None => _ end : SM DO unit) s) as [[[]|] s1] eqn:Es; [|done].
  apply stopSub_frame in Es as F. assert (Registered s1) as R1 by (by eapply frame_reg). destruct hdel.
  - unfold mbind at 1, SM_bind at 1. destruct (deref _ s1) as [[[p cs]|] s2] eqn:Ed; [|done].
    apply deref_frame in Ed as (-> & Hp & Hcs). cbn [fst snd] in *. rewrite <- (fr_subs _ _ F) in Hp.
    unfold mbind, SM_bind, modify. intros [= _ <-]. by eapply removed_reg.
  - destruct (foldM _ _ _) as [cs|e]; [|by intros [= _ <-]].
    destruct (String.eqb _ ""); [by intros [= _ <-]|]. by apply addSubscription_reg.
Qed.

Lemma processGroup_reg ctx g hdel fv s r s' :
  Registered s -> processGroup dcOk ctx g hdel fv s = (Some r, s') -> Registered s'.
Proof.
  intros R. unfold processGroup. destruct (String.eqb g ""); [by intros [= _ <-]|].
  unfold mbind at 1, SM_bind at 1. destruct (closeDestGroupClient g s) as [[[]|] s1] eqn:Ec; [|done].
  apply closeGroup_frame in Ec as F. assert (Registered s1) as R1 by (by eapply frame_reg). destruct hdel.
  - destruct (DestGrp2ClientSubMap s1 !! g); intros [= _ <-]; [done|]. destruct R1. by split.
  - destruct (groupFields _ _) as [dests|e]; [|by intros [= _ <-]].
    unfold mbind at 1, SM_bind at 1, modify at 1. unfold mbind at 1, SM_bind at 1.
    destruct (setupDestGroupClients _ _ _ _) as [[[]|] s2] eqn:Es; [|done]. intros [= _ <-].
    apply setupGroup_reg in Es as [R2 _]; [done|]. destruct R1. by split.
Qed.

Lemma processGlobal_reg ctx hdel fv s r s' :
  Registered s -> processGlobal dcOk ctx hdel fv s = (Some r, s') -> Registered s'.
Proof.
  intros R. unfold processGlobal. destruct hdel; [by intros [= _ <-]|].
  unfold mbind at 1, SM_bind at 1, modify at 1. unfold mbind at 1, SM_bind at 1, gets at 1. unfold mbind at 1, SM_bind at 1.
  set (s1 := withCfg _ s). assert (Registered s1) as R1 by (destruct R; by split). generalize (range_of (destGrpNameMap s1)).*1. clearbody s1. intros gs.
  destruct (each_ _ _ s1) as [[[]|] s2] eqn:E; [|done]. intros [= _ <-]. revert s1 R1 E.
  induction gs as [|g gs IH]; intros s1 R1; cbn [each_]; [by intros [= <-]|].
  unfold mbind at 1, SM_bind at 1. unfold mbind at 1, SM_bind at 1.
  destruct (closeDestGroupClient g s1) as [[[]|] s3] eqn:Ec; [|done]. apply closeGroup_frame in Ec as F.
  destruct (setupDestGroupClients dcOk ctx g s3) as [[[]|] s4] eqn:Es; [|done].
  apply setupGroup_reg in Es as [R4 _]; [by apply IH|by eapply frame_reg].
Qed.

Lemma process_reg key hdel fv s r s' :
  Registered s -> processTelemetryClientConfig dcOk pathOk key hdel fv s = (Some r, s') -> Registered s'.
Proof.
  intros R. unfold processTelemetryClientConfig. destruct fv as [fv|]; [|by intros [= _ <-]].
  unfold mbind at 1, SM_bind at 1, newContext. unfold mbind at 1, SM_bind at 1.
  set (s1 := mkDO _ _ _ _ _ _ _ _ _ _ _). assert (Registered s1) as R1 by (destruct R; by split). clearbody s1. generalize (contexts s). intros ctx.
  destruct (String.eqb key "Global"); [|destruct (has_prefix key "DestinationGroup_"); [|destruct (has_prefix key "Subscription_")]].
  - destruct (processGlobal _ _ _ _ _) as [[e|] s2] eqn:E; [|done]. intros [= _ <-]. by eapply processGlobal_reg.
  - destruct (processGroup _ _ _ _ _ _) as [[e|] s2] eqn:E; [|done]. intros [= _ <-]. by eapply processGroup_reg.
  - destruct (processSubscription _ _ _ _ _ _ _) as [[e|] s2] eqn:E; [|done]. intros [= _ <-]. by eapply processSubscription_reg.
  - by intros [= _ <-].
Qed.

Lemma change_reg s s' : Registered s -> change dcOk pathOk s s' -> Registered s'.
Proof.
  intros R [key hdel fv r s2 H|pub _|pub c _|pub s2 _ H].
  - by eapply process_reg.
  - eapply reg_kept; [exact R|done|done|]. cbn. by apply heapKept_alter.
  - eapply reg_kept; [exact R|done|done|]. cbn. by apply heapKept_alter.
  - apply Close_spec in H as [F _]. by eapply frame_reg.
Qed.

(** However the configuration changes and whatever the publishers do, every subscription
    that is known is the one of its name, and is in the list of users of its destination
    group, once. *)
Theorem subscriptions_registered c s : rtc (change dcOk pathOk) (initial c) s -> Registered s.
Proof.
  intros H. assert (Registered (initial c)) as R by (split; cbn; intros ? ? H'; by rewrite lookup_empty in H').
  induction H as [|s1 s2 s3 H12 _ IH]; [done|]. apply IH. by eapply change_reg.
Qed.


(** ** A change of a destination group *)










End Changes.

(** * The publisher *)

Import Publish.

Section PublisherRuns.
Variable dests : list string.
Variable kind : reportType.

(** A run of a publisher beside the configuration: [n] steps of its own, and any number of
    steps of the configuration between them. *)
Inductive runs : nat -> St -> St -> Prop :=
| RunsHere s : runs 0 s s
| RunsOwn n s s1 s2 : own dests kind s s1 -> runs n s1 s2 -> runs (S n) s s2
| RunsEnv n s s1 s2 : env s s1 -> runs n s1 s2 -> runs n s s2.

Lemma runs_inv (P : St -> Prop) n s s' :
  (forall s s', P s -> own dests kind s s' -> P s') -> (forall s s', P s -> env s s' -> P s') -> runs n s s' -> P s -> P s'.
Proof. intros H1 H2 H. induction H; eauto. Qed.

(** The destinations that were tried are those of the list in turn. *)
Definition inTurn (s : St) : Prop :=
  pc s <> OutOfRange /\ destIdx s = length (tried s) mod length dests /\
  forall k d, tried s !! k = Some d -> dests !! (k mod length dests) = Some d.

Lemma inTurn_closed s l : l <> OutOfRange -> inTurn s -> inTurn (at_ l (closed_ s)).
Proof. intros Hl (_ & Hi & Ht). unfold closed_. by destruct (isOpen s). Qed.

Lemma inTurn_at s l : l <> OutOfRange -> inTurn s -> inTurn (at_ l s).
Proof. by intros Hl (_ & Hi & Ht). Qed.

Lemma inTurn_own s s' : dests <> [] -> inTurn s -> own dests kind s s' -> inTurn s'.
Proof.
  intros Hne I H. assert (length dests <> 0) as Hlen by (by destruct dests).
  destruct H; lazymatch goal with
    | |- inTurn (at_ OutOfRange _) => idtac
    | |- inTurn (at_ _ (closed_ _)) => by apply inTurn_closed
    | |- inTurn (at_ _ _) => by apply inTurn_at
    | |- inTurn s => exact I
    | |- _ => idtac
    end; destruct I as (Hpc & Hi & Ht).
  - unfold inTurn. cbn [pc destIdx tried]. rewrite length_app. cbn [length]. split_and!; [done| |].
    + rewrite Hi, <- !(Nat.add_1_r (_ mod _)). apply Nat.Div0.add_mod_idemp_l.
    + intros k d [Hk|[Hk Hd]]%lookup_app_Some; [by apply Ht|]. apply list_lookup_singleton_Some in Hd as [Hz ->].
      assert (k = length (tried s)) as -> by lia. by rewrite <- Hi.
  - exfalso. match goal with H : dests !! _ = None |- _ => apply lookup_ge_None in H end. rewrite Hi in *.
    pose proof (Nat.mod_upper_bound (length (tried s)) (length dests) Hlen). lia.
Qed.

(** A publisher goes through the destinations of its group in turn, for ever: its k-th
    attempt is at the destination k modulo their number, and it never leaves the list. *)
Theorem destinations_in_turn n b s :
  dests <> [] -> runs n (start b) s -> inTurn s.
Proof.
  intros Hne H. apply (runs_inv inTurn) in H; [done| | |].
  - intros s1 s2. by apply inTurn_own.
  - intros s1 s2 I []; [|done]. destruct I as (? & ? & ?). unfold closed_. by destruct (isOpen s1).
  - split_and!; [done| |done]. cbn [start destIdx tried length]. by rewrite Nat.Div0.mod_0_l.
Qed.

(** The steps of its own that a publisher has left when its context is cancelled and its stop
    channel is closed. *)
Definition stepsLeft (s : St) : nat :=
  match pc s with Exited | OutOfRange => 0 | Dialling _ | Reporting _ => 1 | Restart | Connected _ => 2 | Streaming _ => 3 end.

Definition told (s : St) : Prop :=
  ctxDone s = true /\ match pc s with Connected _ | Reporting _ => stopClosed s = true | _ => True end.

Lemma closed_ctx s : ctxDone (closed_ s) = ctxDone s.
Proof. unfold closed_. by destruct (isOpen s). Qed.

Lemma told_own s s' : told s -> own dests kind s s' -> told s' /\ stepsLeft s' < stepsLeft s.
Proof.
  intros [Hc Hs] H. unfold told, stepsLeft.
  destruct H; repeat match goal with H : pc s = _ |- _ => rewrite H in * end; cbn; rewrite ?closed_ctx; try congruence; split_and!; (done || lia || congruence).
Qed.

Lemma told_env s s' : told s -> env s s' -> told s' /\ stepsLeft s' = stepsLeft s.
Proof.
  intros [Hc Hs] []; unfold told, stepsLeft, closed_; [|by cbn]. destruct (isOpen s); cbn; [|done]. destruct (pc s); done.
Qed.

Lemma own_possible s : stepsLeft s <> 0 -> exists s', own dests kind s s'.
Proof.
  unfold stepsLeft. destruct (pc s) eqn:E; intros H; try done.
  - destruct (dests !! destIdx s) as [d|] eqn:Ed; eexists; [by eapply ORestart|by eapply OOutOfRange].
  - destruct (ctxDone s) eqn:Ec; eexists; [by eapply OCancelled|by eapply ODialFailed].
  - destruct (decide (kind = Periodic)); [eexists; by eapply OPeriodic|]. destruct (decide (kind = Stream)); [|eexists; by eapply OUnsupported].
    destruct (stopClosed s) eqn:Es; eexists; [by eapply OStreamStopped|by eapply OStream].
  - destruct (stopClosed s) eqn:Es; eexists; [by eapply OStopped|by eapply OReadFailed].
  - eexists. by eapply OStreamEnded.
Qed.

(** A publisher whose context is cancelled and whose stop channel is closed ends: it takes
    at most three more steps of its own, whatever the configuration does in between, and
    until it has ended it can take one. *)
Theorem cancelled_publisher_ends n s s' :
  ctxDone s = true -> stopClosed s = true -> runs n s s' ->
  n <= 3 /\ (pc s' = Exited \/ pc s' = OutOfRange \/ exists s2, own dests kind s' s2).
Proof.
  intros Hc Hs H. assert (told s) as T by (split; [done|by destruct (pc s)]). clear Hc Hs. split.
  - transitivity (stepsLeft s); [|unfold stepsLeft; destruct (pc s); lia]. induction H as [s|n s s1 s2 Ho _ IH|n s s1 s2 He _ IH]; [lia| |].
    + destruct (told_own s s1 T Ho) as [T1 Hl]. specialize (IH T1). lia.
    + destruct (told_env s s1 T He) as [T1 <-]. auto.
  - destruct (decide (stepsLeft s' = 0)) as [Hz|Hz]; [|right; right; by apply own_possible].
    unfold stepsLeft in Hz. destruct (pc s'); try done; auto.
Qed.

End PublisherRuns.

(** * Findings *)

Module Demo.

Abbreviation allOk := (fun _ => true) (only parsing).
Abbreviation set_ key fv := (processTelemetryClientConfig (fun _ => true) (fun _ => true) key false (Some (list_to_map fv : gmap string string))).
Abbreviation del_ key := (processTelemetryClientConfig (fun _ => true) (fun _ => true) key true (Some (∅ : gmap string string))).

Definition demo_cfg : ClientConfig := mkConfig "" (30 * second) true true.
Definition demo_sub (g : string) : list (string * string) := [("dst_group", g); ("report_type", "stream"); ("path_target", "COUNTERS_DB")].

(** The state after a list of changes that do not panic. *)
Fixpoint after (l : list (SM DO (option unit))) (s : DO) : option DO :=
  match l with
  | [] => Some s
  | m :: l => match m s with (Some _, s1) => after l s1 | (None, _) => None end
  end.

Definition demo_group : SM DO (option unit) := set_ "DestinationGroup_g" [("dst_addr", "10.0.0.1:8080,10.0.0.2:8080")].

End Demo.
Import Demo.

(** A subscription that was moved to another group stays in the list of its old group; when
    it is deleted, the next change of the old group dereferences nil. *)
Theorem moved_subscription_panics :
  after [set_ "Subscription_a" (demo_sub "g"); set_ "Subscription_a" (demo_sub "h"); del_ "Subscription_a"] (initial demo_cfg) <> None /\
  after [set_ "Subscription_a" (demo_sub "g"); set_ "Subscription_a" (demo_sub "h"); del_ "Subscription_a"; demo_group] (initial demo_cfg) = None.
Proof. by vm_compute. Qed.

(** The deletion of a subscription that is not known, for instance of one without a
    destination group, dereferences nil. *)
Theorem unknown_deletion_panics `{!MapRange} dcOk pathOk n fv s :
  n <> "" -> ClientSubscriptionNameMap s !! n = None -> exists s', processTelemetryClientConfig dcOk pathOk ("Subscription_" +:+ n) true (Some fv) s = (None, s').
Proof.
  intros Hn Hs. unfold processTelemetryClientConfig. unfold mbind at 1, SM_bind at 1, newContext. unfold mbind at 1, SM_bind at 1.
  assert (has_prefix ("Subscription_" +:+ n) "Subscription_" = true) as Hp by (apply has_prefix_spec; by eexists).
  assert (has_prefix ("Subscription_" +:+ n) "DestinationGroup_" = false) as -> by done.
  assert (String.eqb ("Subscription_" +:+ n) "Global" = false) as -> by done. rewrite Hp, trim_prefix_app.
  unfold processSubscription. assert (String.eqb n "" = false) as -> by (by apply String.eqb_neq).
  unfold mbind, SM_bind, gets. cbn [ClientSubscriptionNameMap]. rewrite Hs. cbn. by eexists.
Qed.

(** A destination group that once had a user cannot be deleted any more. *)
Theorem unused_group_not_deleted :
  exists s, after [demo_group; set_ "Subscription_a" (demo_sub "g"); del_ "Subscription_a"; del_ "DestinationGroup_g"] (initial demo_cfg) = Some s /\
    ClientSubscriptionNameMap s = ∅ /\ is_Some (destGrpNameMap s !! "g").
Proof. eexists. split; [vm_compute; reflexivity|]. split; [by vm_compute|]. vm_compute. by eexists. Qed.

(** Without a configured interval, a subscription reports every 5000 nanoseconds, where the
    comment says milliseconds. *)
Theorem default_interval_nanoseconds n ctx : interval (newSubscription n ctx) <> (5000 * millisecond)%Z.
Proof. done. Qed.

(** An interval that does not fit is taken modulo the width of a duration and may be
    negative, so that reports follow each other without a pause. *)
Theorem large_interval_negative :
  exists s cs, after [set_ "Subscription_a" [("dst_group", "g"); ("report_interval", "18446744073709551615")]] (initial demo_cfg) = Some s /\
    heap s = [cs] /\ (interval cs < 0)%Z.
Proof. do 2 eexists. split; [vm_compute; reflexivity|]. split; [reflexivity|]. by vm_compute. Qed.

(** A subscription keeps the [cancel] of the context it was configured with; the context of
    the publisher that a change of its group started is never cancelled, not even when the
    subscription is deleted. *)
Theorem restarted_context_lost :
  exists s pub, after [demo_group; set_ "Subscription_a" (demo_sub "g"); demo_group; del_ "Subscription_a"] (initial demo_cfg) = Some s /\
    ClientSubscriptionNameMap s = ∅ /\ publishers s !! 1 = Some pub /\ pCtx pub ∉ cancelled s.
Proof.
  do 2 eexists. split; [vm_compute; reflexivity|]. split; [by vm_compute|]. split; [vm_compute; reflexivity|].
  apply (bool_decide_unpack _). by vm_compute.
Qed.

(** A stream publisher that was closed but whose context is not cancelled starts again and
    dials the next destination. *)
Theorem closed_stream_restarts dests d d' t :
  dests !! 1 = Some d' ->
  let s := mkSt (Streaming d) false true false 1 t in
  exists s', runs dests Stream 2 (closed_ s) s' /\ pc s' = Dialling d' /\ stopClosed s' = false.
Proof.
  intros Hd s. eexists. split; [|split].
  - eapply RunsOwn; [by eapply (OStreamEnded _ _ _ d)|]. eapply RunsOwn; [by apply (ORestart _ _ _ d')|]. apply RunsHere.
  - reflexivity.
  - reflexivity.
Qed.

(** An update with an error stops the subscription that runs and leaves it in the tables,
    without a publisher in its place. *)
Theorem invalid_update_stops :
  exists s s' pub, after [demo_group; set_ "Subscription_a" (demo_sub "g")] (initial demo_cfg) = Some s /\ publishers s = [pub] /\
    set_ "Subscription_a" [("no_field", "x")] s = (Some (Some tt), s') /\ publishers s' = [pub] /\ pCtx pub ∈ cancelled s' /\
    ClientSubscriptionNameMap s' = ClientSubscriptionNameMap s.
Proof.
  do 3 eexists. split; [vm_compute; reflexivity|]. split; [reflexivity|]. split; [vm_compute; reflexivity|]. split; [reflexivity|].
  split; [|reflexivity]. apply (bool_decide_unpack _). by vm_compute.
Qed.

(** A group whose entry has no fields when it is read gives a publisher without destinations,
    which indexes the empty list. *)
Theorem empty_group_panics :
  (exists s pub, after [set_ "DestinationGroup_g" []; set_ "Subscription_a" (demo_sub "g")] (initial demo_cfg) = Some s /\
    publishers s = [pub] /\ pDests pub = []) /\
  forall kind, exists s, runs [] kind 1 (start false) s /\ pc s = OutOfRange.
Proof.
  split; [do 2 eexists; split; [vm_compute; reflexivity|]; by split|]. intros kind. eexists. split.
  - eapply RunsOwn; [by apply OOutOfRange|]. apply RunsHere.
  - reflexivity.
Qed.

(** The restart of an attempt makes a new stop channel: a publisher that was closed while it
    was about to start again, and cancelled after it had connected, is told by its context
    only, and does not look at it while its data cannot be read. *)
Theorem failing_reads_never_end d :
  exists s, runs [d] Periodic 5 (mkSt Restart false false false 0 []) s /\ ctxDone s = true /\ forall n, runs [d] Periodic n s s.
Proof.
  exists (mkSt (Reporting d) false true true 0 [d; d]). split_and!; [|done|].
  - eapply RunsOwn; [by apply (ORestart _ _ _ d)|]. eapply RunsOwn; [by eapply (ODialFailed _ _ _ d)|].
    eapply RunsEnv; [apply EClose|]. eapply RunsOwn; [by apply (ORestart _ _ _ d)|]. eapply RunsOwn; [by eapply (OConnected _ _ _ d)|].
    eapply RunsOwn; [by eapply (OPeriodic _ _ _ d)|]. eapply RunsEnv; [apply ECancel|]. apply RunsHere.
  - intros n. induction n as [|n IH]; [apply RunsHere|]. eapply RunsOwn; [by eapply (OReadFailed _ _ _ d)|done].
Qed.

(** Every value of the field [unidirectional] switches it on, and every encoding is taken for
    JSON_IETF. *)
Theorem global_values_ignored c v :
  Unidirectional (globalField c ("unidirectional", v)) = true /\ JsonIetf (globalField c ("encoding", v)) = true.
Proof. done. Qed.

(** * Instances *)

Lemma demo_reached l : forall s s', after l s = Some s' -> (forall m, m ∈ l -> exists key hdel fv, m = processTelemetryClientConfig (fun _ => true) (fun _ => true) key hdel fv) ->
  rtc (change (fun _ => true) (fun _ => true)) s s'.
Proof.
  induction l as [|m l IH]; intros s s' H Hl; [by injection H as <-|]. cbn [after] in H. destruct (m s) as [[r|] s1] eqn:E; [|done].
  destruct (Hl m) as (key & hdel & fv & ->); [by left|]. eapply rtc_l; [by eapply CConfig|]. apply IH; [done|]. intros m' Hm. apply Hl. by right.
Qed.

Abbreviation demo_changes := [demo_group; set_ "Subscription_a" (demo_sub "g")].

Lemma demo_changes_configs m : m ∈ demo_changes -> exists key hdel fv, m = processTelemetryClientConfig (fun _ => true) (fun _ => true) key hdel fv.
Proof. intros [->|[->|[]%elem_of_nil]%elem_of_cons]%elem_of_cons; do 3 eexists; reflexivity. Qed.

Lemma subscriptions_registered_witness :
  exists s, after demo_changes (initial demo_cfg) = Some s /\ Registered s.
Proof.
  assert (exists s, after demo_changes (initial demo_cfg) = Some s) as [s H] by (eexists; vm_compute; reflexivity).
  exists s. split; [exact H|]. apply (subscriptions_registered (fun _ => true) (fun _ => true) demo_cfg s). by eapply demo_reached, demo_changes_configs.
Defined.


Lemma destinations_in_turn_witness :
  exists s, runs ["a"; "b"] Periodic 2 (start false) s /\ inTurn ["a"; "b"] s.
Proof.
  assert (exists s, runs ["a"; "b"] Periodic 2 (start false) s) as [s H].
  { eexists. eapply RunsOwn; [by apply (ORestart _ _ _ "a")|]. eapply RunsOwn; [by eapply (ODialFailed _ _ _ "a")|]. apply RunsHere. }
  exists s. split; [exact H|]. by apply (destinations_in_turn ["a"; "b"] Periodic 2 false s).
Defined.

Lemma cancelled_publisher_ends_witness :
  let s := mkSt (Reporting "a") true false true 0 ["a"] in
  exists s', runs ["a"] Periodic 1 s s' /\ 1 <= 3 /\ (pc s' = Exited \/ pc s' = OutOfRange \/ exists s2, own ["a"] Periodic s' s2).
Proof.
  intros s. assert (runs ["a"] Periodic 1 s (at_ Exited s)) as H by (eapply RunsOwn; [by eapply (OStopped _ _ _ "a")|apply RunsHere]).
  exists (at_ Exited s). split; [exact H|]. by apply (cancelled_publisher_ends ["a"] Periodic 1 s).
Defined.
