(* ===== verification/Journal.v ===== *)
(** The journal of a database (src/gnmi_server/db_journal.go): the cache of its entries, the
    difference that an event makes, the log file and its rotation.

    The directory of the logs is a map of names to contents.  Every system call consumes one
    tick and fails when [fails] says so; [torn] is what a failed write leaves.  Messages
    carry what the code reads while it handles them: the entry in the database and the
    clock. *)

From S2P Require Import Prelude.

Module Journal.

Definition maxFileSize : nat := Z.to_nat 2000000.
Definition maxBackups : nat := 1.

(** How the journal file is open: to append, for reading, or freshly created. *)
Inductive Mode := Append | ReadOnly | Created.

Abbreviation Entry := (gmap string string) (only parsing).

(** The journal, with the directory of the logs and the number of system calls so far. *)
Record DbJournal := mkJournal {
  database : string;
  rc : bool;
  cache : gmap string Entry;
  event : list string;
  file : option Mode;
  dir : gmap string string;
  tick : nat
}.

Definition withCache (c : gmap string Entry) (j : DbJournal) : DbJournal := mkJournal (database j) (rc j) c (event j) (file j) (dir j) (tick j).
Definition withEvent (e : list string) (j : DbJournal) : DbJournal := mkJournal (database j) (rc j) (cache j) e (file j) (dir j) (tick j).
Definition withFile (f : option Mode) (j : DbJournal) : DbJournal := mkJournal (database j) (rc j) (cache j) (event j) f (dir j) (tick j).
Definition withDir (d : gmap string string) (j : DbJournal) : DbJournal := mkJournal (database j) (rc j) (cache j) (event j) (file j) d (tick j).
Definition ticked (j : DbJournal) : DbJournal := mkJournal (database j) (rc j) (cache j) (event j) (file j) (dir j) (S (tick j)).

Definition fileName (j : DbJournal) : string := to_lower (database j) +:+ ".txt".
Definition zipName (j : DbJournal) (now : string) : string := to_lower (database j) +:+ "_" +:+ now +:+ ".gz".
Definition isBackup (db name : string) : bool := has_prefix name (to_lower db) && has_suffix name ".gz".

Definition newline : string := String (Ascii.ascii_of_nat 10) "".

(** * The difference of two entries *)

Section Diff.
Context `{!MapRange}.

Definition oldField (newEntry : Entry) (kv : string * string) : string :=
  match newEntry !! kv.1 with
  | None => "-" +:+ kv.1 +:+ " "
  | Some newVal => if String.eqb newVal kv.2 then "" else kv.1 +:+ "=" +:+ newVal +:+ " "
  end.
Definition newField (oldEntry : Entry) (kv : string * string) : string :=
  match oldEntry !! kv.1 with
  | None => "+" +:+ kv.1 +:+ ":" +:+ kv.2 +:+ " "
  | Some _ => ""
  end.

Definition concatStr (l : list string) : string := foldr String.append "" l.

Definition diffEntries (oldEntry newEntry : Entry) : string :=
  concatStr (map (oldField newEntry) (range_of oldEntry)) +:+ concatStr (map (newField oldEntry) (range_of newEntry)).

(** [updateCache]: [read] is what the database answers, [None] for an error. *)
Definition updateCache (op table : string) (read : option Entry) (j : DbJournal) : res unit (string * DbJournal) :=
  if negb (rc j) then Err tt
  else
    let oldEntry := default ∅ (cache j !! table) in
    let newEntry := default ∅ read in
    let j := withCache (<[table := newEntry]> (cache j)) j in
    if String.eqb op "del" then Ok ("", j) else Ok (diffEntries oldEntry newEntry, j).

End Diff.

(** * The file *)

Section File.
Variable fails : nat -> bool.
Variable torn : nat -> string -> string.
Variable gzip : string -> string.

(** A system call: whether it succeeds. *)
Definition call (j : DbJournal) : bool * DbJournal := (negb (fails (tick j)), ticked j).

(** [os.OpenFile] to append, which creates the file. *)
Definition openAppend (j : DbJournal) : bool * DbJournal :=
  let '(ok, j) := call j in
  if ok then (true, withFile (Some Append) (withDir (<[fileName j := default "" (dir j !! fileName j)]> (dir j)) j))
  else (false, withFile None j).

(** The older of two names, where the empty one is none. *)
Definition older (name oldest : string) : string :=
  match String.compare name oldest with
  | Lt => name
  | _ => if String.eqb oldest "" then name else oldest
  end.

(** The number of backups and the oldest of them. *)
Definition countBackup (db : string) (acc : nat * string) (name : string) : nat * string :=
  if isBackup db name then (S acc.1, older name acc.2) else acc.
Definition backups (db : string) (d : gmap string string) : nat * string := fold_left (countBackup db) (sorted_keys d) (0, "").

(** The compression of the journal file, and its new start; the zip file is closed last, by a
    deferred call whose error is not seen. *)
Definition compress (now content : string) (j : DbJournal) : bool * DbJournal :=
  let zip := zipName j now in
  let put c j := withDir (<[zip := c]> (dir j)) j in
  let '(ok, j) := call j in
  if negb ok then (false, j)
  else
    let j := put "" j in
    let '(ok, j') := call j in
    if negb ok then (false, put (gzip (torn (tick j) content)) j')
    else
      let '(ok, j'') := call j' in
      if negb ok then (false, put (gzip (torn (tick j') content)) j'')
      else
        let j := put (gzip content) j'' in
        let '(ok, j) := call j in
        if negb ok then (false, withFile None j)
        else
          let j := withFile (Some Created) (withDir (<[fileName j := ""]> (dir j)) j) in
          let '(ok, j') := call j in
          (true, if ok then j' else put (torn (tick j) (gzip content)) j').

Definition rotateFile (now : string) (j : DbJournal) : bool * DbJournal :=
  let '(ok, j) := call j in
  match (if ok then dir j !! fileName j else None), file j with
  | Some content, Some _ =>
      if String.length content <? maxFileSize then (true, j)
      else
        let '(ok, j) := call j in
        if negb ok then (false, withFile None j)
        else
          let j := withFile (Some ReadOnly) j in
          let '(ok, j) := call j in
          if negb ok then (false, j)
          else
            let '(count, oldest) := backups (database j) (dir j) in
            if maxBackups <=? count then
              let '(ok, j) := call j in
              if negb ok then (false, j) else compress now content (withDir (delete oldest (dir j)) j)
            else compress now content j
  | _, _ => openAppend j
  end.

(** [dbj.file.Write]; the error is not used. *)
Definition writeEntry (line : string) (j : DbJournal) : DbJournal :=
  let '(ok, j') := call j in
  let old := default "" (dir j !! fileName j) in
  withDir (<[fileName j := old +:+ (if ok then line else torn (tick j) line)]> (dir j)) j'.

(** * The journal *)

Context `{!MapRange}.

Definition cleanup (j : DbJournal) : DbJournal := mkJournal (database j) false ∅ (event j) None (dir j) (tick j).

Inductive Input := Message (payload : string) (read : option Entry) (now zipNow : string) | Done.

Definition entryLine (now op table diff : string) : string :=
  now +:+ ": " +:+ op +:+ " " +:+ table +:+ (if String.eqb diff "" then "" else " " +:+ diff) +:+ newline.

(** The events that are not logged. *)
Definition skipped (db op table diff : string) : bool :=
  (String.eqb diff "" && (String.eqb op "hset" || String.eqb op "hdel")) || (String.eqb op "set" && str_contains table db).

(** One turn of [journal], and whether it goes on. *)
Definition journalTurn (i : Input) (j : DbJournal) : bool * DbJournal :=
  match i with
  | Done => (false, j)
  | Message payload read now zipNow =>
      match event j ++ [payload] with
      | [op; table] =>
          match updateCache op table read j with
          | Err _ => (false, j)
          | Ok (diff, j) =>
              let j := withEvent [] j in
              if skipped (database j) op table diff then (true, j)
              else
                let '(ok, j) := rotateFile zipNow j in
                if negb ok then (false, j) else (true, writeEntry (entryLine now op table diff) j)
          end
      | ev => (true, withEvent ev j)
      end
  end.

Fixpoint journal (ins : list Input) (j : DbJournal) : DbJournal :=
  match ins with
  | [] => j
  | i :: ins => let '(go, j) := journalTurn i j in if go then journal ins j else cleanup j
  end.

(** [init]: the entries of all keys; a key that cannot be read has an empty one. *)
Definition init (keys : option (list string)) (read : string -> option Entry) (j : DbJournal) : option DbJournal :=
  match keys with
  | None => None
  | Some keys => Some (withCache (fold_left (fun c k => <[k := default ∅ (read k)]> c) keys ∅) j)
  end.

(** [NewDbJournal]; [received]: the answer to the subscription. *)
Definition NewDbJournal (db : string) (keys : option (list string)) (read : string -> option Entry) (received : bool)
    (d : gmap string string) (n : nat) : option DbJournal :=
  if String.eqb db "CONFIG_DB" || String.eqb db "STATE_DB" then
    match init keys read (mkJournal db true ∅ [] None d n) with
    | None => None
    | Some j => if negb received then None else let '(ok, j) := openAppend j in if ok then Some j else None
    end
  else None.

End File.

End Journal.

(** Proofs about the journal of a database (Journal): the difference it writes stands for the
    change, the log keeps its end through rotations, its size and its backups are bounded,
    and findings. *)

Import Journal.

(** * The difference *)

(** What a part of a difference stands for. *)
Inductive Item := Deleted (k : string) | Changed (k v : string) | Added (k v : string).

Definition itemKey (i : Item) : string := match i with Deleted k | Changed k _ | Added k _ => k end.
Definition itemValue (i : Item) : option string := match i with Deleted _ => None | Changed _ v | Added _ v => Some v end.
Definition render (i : Item) : string :=
  match i with
  | Deleted k => "-" +:+ k +:+ " "
  | Changed k v => k +:+ "=" +:+ v +:+ " "
  | Added k v => "+" +:+ k +:+ ":" +:+ v +:+ " "
  end.
Definition applyItem (e : gmap string string) (i : Item) : gmap string string :=
  match itemValue i with None => delete (itemKey i) e | Some v => <[itemKey i := v]> e end.

Definition oldItem (new : gmap string string) (kv : string * string) : list Item :=
  match new !! kv.1 with
  | None => [Deleted kv.1]
  | Some v => if String.eqb v kv.2 then [] else [Changed kv.1 v]
  end.
Definition newItem (old : gmap string string) (kv : string * string) : list Item :=
  match old !! kv.1 with None => [Added kv.1 kv.2] | Some _ => [] end.

Lemma applyItem_lookup e i k : applyItem e i !! k = if decide (k = itemKey i) then itemValue i else e !! k.
Proof.
  unfold applyItem. destruct (decide (k = itemKey i)) as [->|Hne]; destruct (itemValue i).
  - apply lookup_insert_eq.
  - apply lookup_delete_eq.
  - by apply lookup_insert_ne.
  - by apply lookup_delete_ne.
Qed.

(** Parts that agree with an entry lead to it where they speak. *)
Lemma applyItems_lookup (new : gmap string string) l : forall (e : gmap string string) k,
  Forall (fun i => new !! itemKey i = itemValue i) l ->
  fold_left applyItem l e !! k = if decide (k ∈ map itemKey l) then new !! k else e !! k.
Proof.
  induction l as [|i l IH]; intros e k Hl; [done|]. apply Forall_cons in Hl as [Hi Hl]. cbn [fold_left map]. rewrite IH, applyItem_lookup by done.
  destruct (decide (k ∈ map itemKey l)), (decide (k ∈ itemKey i :: map itemKey l)), (decide (k = itemKey i)) as [->|]; try done; set_solver.
Qed.

Lemma concatStr_app l1 l2 : concatStr (l1 ++ l2) = concatStr l1 +:+ concatStr l2.
Proof. induction l1 as [|s l1 IH]; [done|]. cbn. fold (concatStr (l1 ++ l2)). fold (concatStr l1). by rewrite IH, str_app_assoc. Qed.

Lemma concatStr_render {A} (f : A -> string) (g : A -> list Item) l :
  (forall a, f a = concatStr (map render (g a))) -> concatStr (map f l) = concatStr (map render (flat_map g l)).
Proof.
  intros H. induction l as [|a l IH]; [done|]. cbn. fold (concatStr (map f l)). rewrite map_app, concatStr_app, H, IH. done.
Qed.

Lemma concatStr_empty l : concatStr (map render l) = "" -> l = [].
Proof. destruct l as [|i l]; [done|]. cbn. destruct i as [k|k v|k v]; cbn; try done. by destruct k. Qed.

Section Difference.
Context {mr : MapRange}.

Definition items (old new : gmap string string) : list Item :=
  flat_map (oldItem new) (range_of old) ++ flat_map (newItem old) (range_of new).

Lemma diff_items old new : diffEntries old new = concatStr (map render (items old new)).
Proof.
  unfold diffEntries, items. rewrite map_app, concatStr_app. f_equal; apply concatStr_render; intros [k v].
  - unfold oldField, oldItem. cbn [fst snd]. destruct (new !! k) as [w|]; [destruct (String.eqb w v)|]; cbn; by rewrite ?str_app_nil_r.
  - unfold newField, newItem. cbn [fst snd]. destruct (old !! k); cbn; by rewrite ?str_app_nil_r.
Qed.

Lemma elem_of_items old new i :
  i ∈ items old new <->
  match i with
  | Deleted k => is_Some (old !! k) /\ new !! k = None
  | Changed k v => exists w, old !! k = Some w /\ new !! k = Some v /\ v <> w
  | Added k v => old !! k = None /\ new !! k = Some v
  end.
Proof.
  unfold items. rewrite elem_of_app. rewrite !list_elem_of_In, !in_flat_map. setoid_rewrite <- list_elem_of_In. split.
  - intros [([k w] & Hk & Hi)|([k w] & Hk & Hi)]; apply elem_of_range in Hk.
    + unfold oldItem in Hi. cbn [fst snd] in Hi. destruct (new !! k) as [v|] eqn:En.
      * destruct (String.eqb_spec v w); [by apply elem_of_nil in Hi|]. apply list_elem_of_singleton in Hi as ->. by exists w.
      * apply list_elem_of_singleton in Hi as ->. split; [by eexists|done].
    + unfold newItem in Hi. cbn [fst snd] in Hi. destruct (old !! k) as [v|] eqn:Eo; [by apply elem_of_nil in Hi|].
      by apply list_elem_of_singleton in Hi as ->.
  - destruct i as [k|k v|k v].
    + intros [[w Hw] Hn]. left. exists (k, w). split; [by apply elem_of_range|]. unfold oldItem. cbn. rewrite Hn. by left.
    + intros (w & Hw & Hn & Hne). left. exists (k, w). split; [by apply elem_of_range|]. unfold oldItem. cbn. rewrite Hn.
      destruct (String.eqb_spec v w); [done|by left].
    + intros [Ho Hn]. right. exists (k, v). split; [by apply elem_of_range|]. unfold newItem. cbn. rewrite Ho. by left.
Qed.

Lemma items_agree old new : Forall (fun i => new !! itemKey i = itemValue i) (items old new).
Proof. apply Forall_forall. intros i Hi%elem_of_items. destruct i; cbn; naive_solver. Qed.

Lemma items_apply old new : fold_left applyItem (items old new) old = new.
Proof.
  apply map_eq. intros k. rewrite (applyItems_lookup new) by apply items_agree. destruct (decide (k ∈ map itemKey (items old new))) as [|Hk]; [done|].
  assert (forall i, itemKey i = k -> i ∉ items old new) as Hno by (intros i <- Hi; apply Hk; apply list_elem_of_In, in_map; by apply list_elem_of_In).
  destruct (old !! k) as [w|] eqn:Eo, (new !! k) as [v|] eqn:En; [|exfalso..|done].
  - destruct (decide (v = w)) as [->|Hne]; [done|]. exfalso. apply (Hno (Changed k v)); [done|]. apply elem_of_items. by exists w.
  - apply (Hno (Deleted k)); [done|]. apply elem_of_items. by rewrite Eo.
  - apply (Hno (Added k v)); [done|]. by apply elem_of_items.
Qed.

Lemma diff_empty old new : diffEntries old new = "" <-> old = new.
Proof.
  rewrite diff_items. split.
  - intros He%concatStr_empty. rewrite <- (items_apply old new) at 1. by rewrite He.
  - intros ->. destruct (items new new) as [|i l] eqn:E; [done|]. assert (i ∈ items new new) as Hi by (rewrite E; by left).
    exfalso. apply elem_of_items in Hi. destruct i as [k|k v|k v]; [destruct Hi as [[? ?] ?]|destruct Hi as (? & ? & ? & ?)|destruct Hi]; congruence.
Qed.

(** What the journal writes for an event stands for the change: the difference is a list
    of deletions, changes and additions which lead from the entry as it was last read to the
    entry as it is read now, in whatever order the maps are gone through; it is empty exactly
    when nothing changed; and the cache holds what was read. *)
Theorem journal_diff_exact op table read j diff j' :
  op <> "del" -> updateCache op table read j = Ok (diff, j') ->
  let old := default ∅ (cache j !! table) in
  let new := default ∅ read in
  (exists l, diff = concatStr (map render l) /\ fold_left applyItem l old = new) /\ (diff = "" <-> old = new) /\
  cache j' = <[table := new]> (cache j).
Proof.
  intros Hop H old new. unfold updateCache in H. destruct (rc j); [|done]. cbn [negb] in H.
  destruct (String.eqb_spec op "del"); [done|]. injection H as <- <-. fold old new. split_and!; [|apply diff_empty|done].
  exists (items old new). split; [apply diff_items|apply items_apply].
Qed.

End Difference.

(** * The log *)

Lemma str_last_eq s a t b : s +:+ String a "" = t +:+ String b "" -> a = b.
Proof.
  revert t. induction s as [|c s IH]; intros [|d t]; cbn; intros H; simplify_eq; [done|by destruct t|by destruct s|by eapply IH].
Qed.

(** The journal file is not one of its backups. *)
Lemma fileName_no_backup j : isBackup (database j) (fileName j) = false.
Proof.
  unfold isBackup, fileName. destruct (has_suffix (to_lower (database j) +:+ ".txt") ".gz") eqn:E; [|by rewrite andb_false_r].
  apply has_suffix_spec in E as [t E]. change ".txt" with (".tx" +:+ "t") in E. change ".gz" with (".g" +:+ "z") in E.
  rewrite <- !str_app_assoc in E. by apply str_last_eq in E.
Qed.

Lemma zipName_backup j now : isBackup (database j) (zipName j now) = true.
Proof.
  unfold isBackup, zipName. apply andb_true_intro. split; [apply has_prefix_spec; by eexists|].
  rewrite <- !str_app_assoc. apply has_suffix_app.
Qed.

Lemma backup_not_file j n : isBackup (database j) n = true -> n <> fileName j.
Proof. intros H ->. by rewrite fileName_no_backup in H. Qed.

Section Log.
Context {mr : MapRange}.
Variable torn : nat -> string -> string.
Variable gzip : string -> string.

(** The lines that the events stand for. *)
Fixpoint logged (db : string) (c : gmap string (gmap string string)) (ev : list string) (ins : list Input) : list string :=
  match ins with
  | [] | Done :: _ => []
  | Message payload read now _ :: ins =>
      match ev ++ [payload] with
      | [op; table] =>
          let diff := if String.eqb op "del" then "" else diffEntries (default ∅ (c !! table)) (default ∅ read) in
          let rest := logged db (<[table := default ∅ read]> c) [] ins in
          if skipped db op table diff then rest else entryLine now op table diff :: rest
      | ev => logged db c ev ins
      end
  end.

Abbreviation noFaults := (fun _ : nat => false) (only parsing).

(** What a step of the file leaves alone. *)
Definition sameJournal (j j' : DbJournal) : Prop :=
  database j' = database j /\ rc j' = rc j /\ cache j' = cache j /\ event j' = event j.

Lemma rotate_noFaults now j content :
  dir j !! fileName j = Some content -> is_Some (file j) ->
  exists j', rotateFile noFaults torn gzip now j = (true, j') /\ sameJournal j j' /\ is_Some (file j') /\
    (String.length content < maxFileSize /\ dir j' = dir j \/
     maxFileSize <= String.length content /\ dir j' !! fileName j = Some "" /\ dir j' !! zipName j now = Some (gzip content)).
Proof.
  intros Hd [m Hm]. unfold rotateFile, call. cbn [negb ticked dir file]. change (fileName (ticked j)) with (fileName j). rewrite Hd, Hm.
  destruct (Nat.ltb_spec (String.length content) maxFileSize) as [Hl|Hl].
  - eexists. split_and!; [done|done|by exists m|by left].
  - destruct (backups _ _) as [count oldest]. assert (zipName j now <> fileName j) as Hne by (apply backup_not_file, zipName_backup).
    destruct (maxBackups <=? count); (eexists; split_and!; [reflexivity|done|by eexists|right; split_and!; [done|apply lookup_insert_eq|]]);
      cbn; (rewrite lookup_insert_ne; [apply lookup_insert_eq|by symmetry]).
Qed.

(** The log so far is what was dropped, the last backup and the file; the file is bounded. *)
Definition logKept (L : nat) (full : string) (j : DbJournal) : Prop :=
  exists dropped zipped content, full = dropped +:+ zipped +:+ content /\ dir j !! fileName j = Some content /\
    String.length content < maxFileSize + L /\
    (dropped = "" /\ zipped = "" \/ exists zip, isBackup (database j) zip = true /\ dir j !! zip = Some (gzip zipped)).

Lemma logKept_write L full line now j :
  logKept L full j -> is_Some (file j) -> String.length line <= L ->
  exists j', rotateFile noFaults torn gzip now j = (true, j') /\ sameJournal j j' /\ is_Some (file j') /\
    logKept L (full +:+ line) (writeEntry noFaults torn line j').
Proof.
  intros (d & z & c & -> & Hc & Hlen & Hz) Hf Hl. destruct (rotate_noFaults now j c Hc Hf) as (j' & Hr & Hs & Hf' & Hcase).
  exists j'. split_and!; [done|done|done|]. destruct Hs as (Hdb & _). assert (fileName j' = fileName j) as Hn by (unfold fileName; by rewrite Hdb).
  unfold logKept, writeEntry, call. cbn [negb withDir ticked dir]. change (fileName (withDir _ _)) with (fileName j'). rewrite lookup_insert_eq, Hn.
  destruct Hcase as [[Hlt Hd]|(Hge & Hd & Hzip)].
  - exists d, z, (c +:+ line). rewrite Hd, Hc. cbn [default]. rewrite !str_app_assoc, str_length_app. split_and!; [done|done|lia|].
    destruct Hz as [Hz|(zip & Hb & Hz)]; [by left|right]. exists zip. cbn [withDir ticked database]. rewrite Hdb.
    rewrite lookup_insert_ne by (symmetry; by apply backup_not_file). done.
  - exists (d +:+ z), c, line. rewrite Hd. cbn [default]. split_and!; [by rewrite !str_app_assoc|done|unfold maxFileSize in *; lia|].
    right. exists (zipName j now). cbn [withDir ticked database]. rewrite Hdb. split; [apply zipName_backup|].
    rewrite lookup_insert_ne by (symmetry; apply backup_not_file, zipName_backup). done.
Qed.

Lemma logKept_eq L full j j' : database j' = database j -> dir j' = dir j -> logKept L full j -> logKept L full j'.
Proof. intros Hdb Hd. unfold logKept, fileName. by rewrite Hdb, Hd. Qed.

Lemma journal_log L ins : forall full j,
  rc j = true -> is_Some (file j) -> logKept L full j ->
  Forall (fun l => String.length l <= L) (logged (database j) (cache j) (event j) ins) ->
  logKept L (full +:+ concatStr (logged (database j) (cache j) (event j) ins)) (journal noFaults torn gzip ins j).
Proof.
  induction ins as [|[payload read now zipNow|] ins IH]; intros full j Hrc Hf Hk; cbn [journal journalTurn logged].
  - intros _. by rewrite str_app_nil_r.
  - destruct (event j ++ [payload]) as [|op [|table [|x l]]]; try match goal with |- context [journal _ _ _ _ (withEvent ?ev j)] => exact (IH full (withEvent ev j) Hrc Hf Hk) end.
    unfold updateCache. rewrite Hrc. cbn [negb]. set (diff := if String.eqb op "del" then "" else _).
    set (j1 := withCache _ j). assert (Ok (diff, j1) = (if String.eqb op "del" then Ok ("", j1) else Ok (diffEntries (default ∅ (cache j !! table)) (default ∅ read), j1)) :> res unit _) as <- by (subst diff; by destruct (String.eqb op "del")).
    cbn [withEvent withCache database j1]. destruct (skipped (database j) op table diff); [intros H; by apply (IH full (withEvent [] j1))|].
    intros [Hl Hrest]%Forall_cons. destruct (logKept_write L full (entryLine now op table diff) zipNow (withEvent [] j1)) as (j' & Hr & (Hdb & Hrc' & Hca & Hev) & Hf' & Hk'); [done|done|done|].
    rewrite Hr. cbn [negb concatStr foldr]. fold (concatStr (logged (database j) (<[table:=default ∅ read]> (cache j)) [] ins)). rewrite <- str_app_assoc.
    specialize (IH (full +:+ entryLine now op table diff) (writeEntry noFaults torn (entryLine now op table diff) j')).
    cbn [writeEntry call withDir ticked database rc cache event file] in IH. rewrite Hdb, Hca, Hev in IH. apply IH; [by rewrite Hrc'|done|done|done].
  - intros _. rewrite str_app_nil_r. by eapply logKept_eq; [| |exact Hk].
Qed.

(** Without failures of the file system, the log is never shortened but at its start: the
    lines of all events, in order, after what was in the file, are what was dropped, the
    contents of a backup and the contents of the file; as long as nothing was rotated nothing
    is dropped; and the file stays within its maximum and one line. *)
Theorem journal_keeps_end L ins j content :
  rc j = true -> is_Some (file j) -> dir j !! fileName j = Some content -> String.length content < maxFileSize + L ->
  Forall (fun l => String.length l <= L) (logged (database j) (cache j) (event j) ins) ->
  logKept L (content +:+ concatStr (logged (database j) (cache j) (event j) ins)) (journal noFaults torn gzip ins j).
Proof. intros Hrc Hf Hc Hl Hall. apply journal_log; [done|done| |done]. exists "", "", content. split_and!; [done|done|done|by left]. Qed.

End Log.

(** * The backups *)

Lemma older_cases x o : older x o = x \/ older x o = o.
Proof. unfold older. destruct (String.compare x o), (String.eqb o ""); auto. Qed.
Lemma older_first x : older x "" = x.
Proof. unfold older. by destruct (String.compare x ""). Qed.

Lemma countBackup_backup db n o x : isBackup db x = true -> countBackup db (n, o) x = (S n, older x o).
Proof. intros E. unfold countBackup. by rewrite E. Qed.
Lemma countBackup_other db n o x : isBackup db x = false -> countBackup db (n, o) x = (n, o).
Proof. intros E. unfold countBackup. by rewrite E. Qed.

Lemma countBackup_spec db l : forall n o,
  let r := fold_left (countBackup db) l (n, o) in
  n <= r.1 /\ (r.2 = o \/ r.2 ∈ l /\ isBackup db r.2 = true).
Proof.
  induction l as [|x l IH]; intros n o; cbn [fold_left]; [split; [done|by left]|].
  destruct (isBackup db x) eqn:E.
  - rewrite (countBackup_backup db n _ x E). destruct (IH (S n) (older x o)) as [Hle Hc]. revert Hle Hc. cbn zeta. generalize (fold_left (countBackup db) l (S n, older x o)). intros r Hle Hc.
    split; [lia|]. destruct Hc as [->|[? ?]]; [|right; split; [by right|done]].
    destruct (older_cases x o) as [->| ->]; [right; split; [by left|done]|by left].
  - rewrite (countBackup_other db n _ x E). destruct (IH n o) as [Hle Hc]. cbn zeta. split; [done|]. destruct Hc as [?|[? ?]]; [by left|right]. split; [by right|done].
Qed.

(** The first of the names counted replaces the empty one. *)
Lemma oldest_spec db l : forall n, 
  let r := fold_left (countBackup db) l (n, "") in
  Forall (fun x => isBackup db x = false) l /\ r = (n, "") \/ n < r.1 /\ r.2 ∈ l /\ isBackup db r.2 = true.
Proof.
  induction l as [|x l IH]; intros n; cbn [fold_left]; [left; by split; [constructor|]|].
  destruct (isBackup db x) eqn:E.
  - rewrite (countBackup_backup db n _ x E). rewrite older_first. right. destruct (countBackup_spec db l (S n) x) as [Hle Hc]. revert Hle Hc. cbn zeta.
    generalize (fold_left (countBackup db) l (S n, x)). intros r Hle [->|[Hin Hb]]; (split_and!; [lia| |done]); [by left|by right].
  - rewrite (countBackup_other db n _ x E). cbn zeta. destruct (IH n) as [[Hf Hr]|(Hlt & Hin & Hb)]; [left; by split; [constructor|]|right]. split_and!; [done|by right|done].
Qed.

(** The backups of a directory. *)
Definition numBackups (db : string) (d : gmap string string) : nat := size (filter (fun kv => isBackup db kv.1 = true) d).

Lemma numBackups_insert db n c d : numBackups db (<[n := c]> d) <= S (numBackups db d).
Proof.
  unfold numBackups. destruct (isBackup db n) eqn:E.
  - rewrite map_filter_insert_True by done. rewrite map_size_insert. case_match; unfold id; lia.
  - rewrite map_filter_insert_False by (cbn; congruence). rewrite map_filter_delete, map_size_delete. case_match; unfold id; lia.
Qed.
Lemma numBackups_update db n c d : is_Some (d !! n) \/ isBackup db n = false -> numBackups db (<[n := c]> d) = numBackups db d.
Proof.
  unfold numBackups. destruct (isBackup db n) eqn:E.
  - intros [[x Hx]|?]; [|done]. rewrite map_filter_insert_True by done. apply map_size_insert_Some. exists x. by apply map_lookup_filter_Some.
  - intros _. rewrite map_filter_insert_not; [done|]. cbn. congruence.
Qed.
Lemma numBackups_delete db n d : is_Some (d !! n) -> isBackup db n = true -> S (numBackups db (delete n d)) = numBackups db d.
Proof.
  intros [x Hx] Hb. unfold numBackups. assert (filter (fun kv => isBackup db kv.1 = true) d !! n = Some x) as Hf by (by apply map_lookup_filter_Some).
  rewrite map_filter_delete, map_size_delete, Hf. cbn. assert (size (filter (fun kv => isBackup db kv.1 = true) d) <> 0); [|lia].
  rewrite map_size_non_empty_iff. intros He. by rewrite He in Hf.
Qed.
Lemma numBackups_zero db d : Forall (fun x => isBackup db x = false) (sorted_keys d) -> numBackups db d = 0.
Proof.
  intros H. unfold numBackups. rewrite map_size_empty_iff. apply map_empty. intros n. destruct (_ !! n) as [x|] eqn:E; [|done].
  apply map_lookup_filter_Some in E as [Hn Hb]. cbn in Hb. rewrite Forall_forall in H. rewrite (H n) in Hb; [done|]. apply elem_of_sorted_keys. by eexists.
Qed.

Section Backups.
Context {mr : MapRange}.
Variable fails : nat -> bool.
Variable torn : nat -> string -> string.
Variable gzip : string -> string.

Lemma compress_backups now content j j' ok :
  compress fails torn gzip now content j = (ok, j') -> database j' = database j /\ numBackups (database j) (dir j') <= S (numBackups (database j) (dir j)).
Proof.
  unfold compress, call. set (zip := zipName j now). set (db := database j).
  assert (forall c d, is_Some (d !! zip) -> numBackups db (<[zip := c]> d) = numBackups db d) as Hu by (intros; apply numBackups_update; by left).
  assert (forall c d, numBackups db (<[fileName j := c]> d) = numBackups db d) as Hfile by (intros; apply numBackups_update; right; apply fileName_no_backup).
  assert (numBackups db (<[zip := ""]> (dir j)) <= S (numBackups db (dir j))) as H0 by apply numBackups_insert.
  assert (zip <> fileName j) as Hne by (apply backup_not_file, zipName_backup).
  repeat (destruct (fails _); cbn [negb]); intros [= <- <-]; (split; [done|]); cbn -[numBackups];
    repeat first [rewrite Hu by (rewrite ?lookup_insert_ne by done; rewrite ?lookup_insert_eq; by eexists) | rewrite (Hfile "")]; first [lia|exact H0].
Qed.

Lemma rotate_backups now j ok j' :
  rotateFile fails torn gzip now j = (ok, j') ->
  database j' = database j /\ numBackups (database j) (dir j') <= Nat.max (numBackups (database j) (dir j)) maxBackups.
Proof.
  unfold rotateFile, call. set (db := database j).
  assert (forall r, openAppend fails (ticked j) = r -> database r.2 = db /\ numBackups db (dir r.2) = numBackups db (dir j)) as Ho.
  { intros r <-. unfold openAppend, call. destruct (fails _); cbn [negb snd]; (split; [done|]); [done|]. cbn -[numBackups]. apply numBackups_update. right. apply (fileName_no_backup j). }
  destruct (if negb (fails (tick j)) then dir (ticked j) !! fileName (ticked j) else None) as [content|].
  2:{ intros H. destruct (Ho _ H) as [? ?]. cbn [snd] in *. split; [done|lia]. }
  destruct (file (ticked j)). 2:{ intros H. destruct (Ho _ H) as [? ?]. cbn [snd] in *. split; [done|lia]. }
  destruct (String.length content <? maxFileSize); [intros [= <- <-]; split; [done|cbn -[numBackups]; fold db; lia]|].
  destruct (fails _); cbn [negb]; [intros [= <- <-]; split; [done|cbn -[numBackups]; fold db; lia]|].
  destruct (fails _); cbn [negb]; [intros [= <- <-]; split; [done|cbn -[numBackups]; fold db; lia]|].
  cbn [database dir ticked withFile]. fold db. destruct (backups db (dir j)) as [count oldest] eqn:Eb.
  destruct (oldest_spec db (sorted_keys (dir j)) 0) as [[Hf Hr]|(Hlt & Hin & Hb)]; unfold backups in Eb; rewrite Eb in *; cbn [fst snd] in *.
  - injection Hr as -> ->. cbn [Nat.leb maxBackups]. intros H%compress_backups. cbn [database dir ticked withFile] in H. fold db in H.
    rewrite (numBackups_zero db (dir j) Hf) in *. destruct H. split; [done|]. unfold maxBackups. lia.
  - assert ((maxBackups <=? count) = true) as -> by (apply Nat.leb_le; unfold maxBackups; lia).
    destruct (fails _); cbn [negb]; [intros [= <- <-]; split; [done|cbn -[numBackups]; fold db; lia]|].
    intros H%compress_backups. cbn [database dir ticked withFile withDir] in H. fold db in H.
    pose proof (numBackups_delete db oldest (dir j) (proj1 (elem_of_sorted_keys _ _) Hin) Hb). destruct H. split; [done|lia].
Qed.

Lemma write_backups line j :
  database (writeEntry fails torn line j) = database j /\
  numBackups (database j) (dir (writeEntry fails torn line j)) = numBackups (database j) (dir j).
Proof. unfold writeEntry, call. split; [done|]. cbn -[numBackups]. apply numBackups_update. right. apply fileName_no_backup. Qed.

Lemma turn_backups i j b j' :
  journalTurn fails torn gzip i j = (b, j') ->
  database j' = database j /\ numBackups (database j) (dir j') <= Nat.max (numBackups (database j) (dir j)) maxBackups.
Proof.
  unfold journalTurn. destruct i as [payload read now zipNow|]; [|intros [= <- <-]; split; [done|lia]].
  destruct (event j ++ [payload]) as [|op [|table [|x l]]]; try (intros [= <- <-]; split; [done|cbn -[numBackups]; lia]).
  destruct (updateCache op table read j) as [[diff j1]|[]] eqn:Eu; [|intros [= <- <-]; split; [done|lia]].
  assert (database j1 = database j /\ dir j1 = dir j) as [<- <-].
  { revert Eu. unfold updateCache. destruct (rc j); [|done]. cbn [negb]. by destruct (String.eqb op "del"); intros [= <- <-]. }
  cbn [withEvent database]. destruct (skipped _ _ _ _); [intros [= <- <-]; split; [done|cbn -[numBackups]; lia]|].
  destruct (rotateFile _ _ _ _ _) as [ok j2] eqn:Er. apply rotate_backups in Er as [Hd2 Hn2]. cbn [database dir withEvent] in *.
  destruct ok; cbn [negb]; intros [= <- <-]; [|by split].
  destruct (write_backups (entryLine now op table diff) j2) as [Hd3 Hn3]. rewrite Hd2 in *. split; [done|lia].
Qed.

(** C40. Whatever fails, the journal keeps at most [maxBackups] backups of its database, or as
    many as there were when it began. *)
Theorem journal_backups_bounded ins : forall j,
  numBackups (database j) (dir (journal fails torn gzip ins j)) <= Nat.max (numBackups (database j) (dir j)) maxBackups.
Proof.
  induction ins as [|i ins IH]; intros j; cbn [journal]; [lia|].
  destruct (journalTurn fails torn gzip i j) as [[] j'] eqn:E; apply turn_backups in E as [Hd Hn]; [|done].
  specialize (IH j'). rewrite Hd in IH. lia.
Qed.

End Backups.

(** * Findings *)

(** The next system call succeeds, since it is not the one that fails. *)
Ltac call_passes :=
  match goal with
  | |- context [?a =? ?b + ?c] => let H := fresh in assert ((a =? b + c) = false) as H by (apply Nat.eqb_neq; lia); rewrite H; clear H; cbn [negb]
  end.

Definition demo_journal : DbJournal := mkJournal "CONFIG_DB" true ∅ [] (Some Append) {["config_db.txt" := ""]} 0.
Definition demo_entry : gmap string string := {["mtu" := "9100"]}.
Definition demo_inputs : list Input :=
  [Message "hset" None "1" "z"; Message "PORT|Ethernet0" (Some demo_entry) "1" "z"; Done].

(** The two messages of an event are told apart by their order only: after one of them was
    lost, the key of every event is taken for the operation of the next one. *)
Theorem lost_message_shifts :
  logged "CONFIG_DB" ∅ [] [Message "PORT|Ethernet0" None "1" "z"; Message "hset" None "1" "z"; Message "PORT|Ethernet4" (Some demo_entry) "2" "z"] =
  [entryLine "1" "PORT|Ethernet0" "hset" ""] /\
  logged "CONFIG_DB" ∅ [] [Message "hset" None "0" "z"; Message "PORT|Ethernet0" (Some demo_entry) "1" "z"; Message "hset" None "1" "z";
    Message "PORT|Ethernet4" (Some demo_entry) "2" "z"] =
  [entryLine "1" "hset" "PORT|Ethernet0" "+mtu:9100 "; entryLine "2" "hset" "PORT|Ethernet4" "+mtu:9100 "].
Proof. by vm_compute. Qed.

(** An entry that cannot be read is logged as if all of its fields had been deleted, and is
    forgotten. *)
Theorem read_error_logged_as_deletion `{!MapRange} op table j :
  rc j = true -> op <> "del" ->
  exists j', updateCache op table None j = Ok (diffEntries (default ∅ (cache j !! table)) ∅, j') /\ cache j' !! table = Some ∅.
Proof.
  intros Hrc Hop. unfold updateCache. rewrite Hrc. cbn [negb]. destruct (String.eqb_spec op "del"); [done|]. eexists. split; [done|]. apply lookup_insert_eq.
Qed.

(** The error of closing the backup is not seen: it can be incomplete while the journal was
    emptied and goes on. *)
Theorem unseen_close_loses_log torn gzip now j content :
  dir j !! fileName j = Some content -> is_Some (file j) -> maxFileSize <= String.length content -> (backups (database j) (dir j)).1 = 0 ->
  exists j', rotateFile (fun n => n =? tick j + 7) torn gzip now j = (true, j') /\ dir j' !! fileName j = Some "" /\
    dir j' !! zipName j now = Some (torn (tick j + 7) (gzip content)).
Proof.
  intros Hd [m Hm] Hl Hb. unfold rotateFile, compress, call. cbn [ticked tick dir file withFile withDir database].
  call_passes. change (fileName (ticked j)) with (fileName j). rewrite Hd, Hm.
  assert ((String.length content <? maxFileSize) = false) as -> by (by apply Nat.ltb_ge).
  call_passes.
  call_passes.
  destruct (backups (database j) (dir j)) as [c o]. cbn [fst] in Hb. subst c. cbn [Nat.leb maxBackups tick ticked withFile].
  do 4 call_passes.
  assert (S (S (S (S (S (S (S (tick j))))))) = tick j + 7) as -> by lia. rewrite Nat.eqb_refl. cbn [negb]. eexists. split; [done|].
  assert (zipName j now <> fileName j) as Hne by (apply backup_not_file, zipName_backup). cbn. split; [|by rewrite lookup_insert_eq].
  rewrite lookup_insert_ne by done. apply lookup_insert_eq.
Qed.

(** The old backup is removed before the new one is made; if that fails there is none, and the
    journal stops. *)
Theorem backup_removed_first torn gzip now j content oldest :
  dir j !! fileName j = Some content -> is_Some (file j) -> maxFileSize <= String.length content -> backups (database j) (dir j) = (1, oldest) ->
  exists j', rotateFile (fun n => n =? tick j + 4) torn gzip now j = (false, j') /\ dir j' = delete oldest (dir j).
Proof.
  intros Hd [m Hm] Hl Hb. unfold rotateFile, compress, call. cbn [ticked tick dir file withFile withDir database].
  call_passes. change (fileName (ticked j)) with (fileName j). rewrite Hd, Hm.
  assert ((String.length content <? maxFileSize) = false) as -> by (by apply Nat.ltb_ge).
  call_passes.
  call_passes. rewrite Hb. cbn [Nat.leb maxBackups].
  call_passes.
  assert (S (S (S (S (tick j)))) = tick j + 4) as -> by lia. rewrite Nat.eqb_refl. cbn [negb]. by eexists.
Qed.

(** * Instances *)

Lemma journal_diff_exact_witness :
  exists diff j', updateCache "hset" "PORT|Ethernet0" (Some demo_entry) demo_journal = Ok (diff, j') /\
    exists l, diff = concatStr (map render l) /\ fold_left applyItem l ∅ = demo_entry.
Proof.
  assert (exists diff j', updateCache "hset" "PORT|Ethernet0" (Some demo_entry) demo_journal = Ok (diff, j')) as (diff & j' & H) by (do 2 eexists; vm_compute; reflexivity).
  exists diff, j'. split; [exact H|]. destruct (journal_diff_exact "hset" "PORT|Ethernet0" (Some demo_entry) demo_journal diff j') as [Hl _]; [discriminate|exact H|exact Hl].
Defined.

Lemma journal_keeps_end_witness :
  logKept (fun s => s) 100 ("" +:+ concatStr (logged "CONFIG_DB" ∅ [] demo_inputs)) (journal (fun _ => false) (fun _ s => s) (fun s => s) demo_inputs demo_journal).
Proof.
  apply (journal_keeps_end (fun _ s => s) (fun s => s) 100 demo_inputs demo_journal ""); [reflexivity|by eexists|by vm_compute|unfold maxFileSize; cbn [String.length]; lia|].
  vm_compute. repeat constructor.
Defined.
