(* ===== verification/EventClient.v ===== *)
(** The event client (src/sonic_data_client/events_client.go): its parameters, the goroutine
    that receives events, the one that keeps the statistics, and the latencies that the
    sender of the RPC reports.

    The goroutines are one step relation over the shared client; a region under a lock is one
    step, and what is read in one region and written in the next is kept by the program
    counter.  The event library and the JSON codec are parameters; the queue is the one of
    the RPC, from which its sender takes. *)

From S2P Require Import Prelude GnmiTypes.

Module EventClient.

Definition u64 (z : Z) : Z := (z mod 2 ^ 64)%Z.

Definition LATENCY_LIST_SIZE : nat := 10.
Definition PQ_DEF_SIZE : Z := 10240.
Definition PQ_MIN_SIZE : Z := 1024.
Definition PQ_MAX_SIZE : Z := 102400.
Definition HEARTBEAT_MAX : Z := 600.

Definition MISSED : string := "COUNTERS_EVENTS:missed_internal".
Definition DROPPED : string := "COUNTERS_EVENTS:missed_by_slow_receiver".
Definition LATENCY : string := "COUNTERS_EVENTS:latency_in_ms".
Definition STATS_FIELD_NAME : string := "value".
Definition STATS_CUMULATIVE_KEYS : list string := [MISSED; DROPPED].
Definition STATS_ABSOLUTE_KEYS : list string := [LATENCY].

Definition PARAM_HEARTBEAT : string := "heartbeat".
Definition PARAM_QSIZE : string := "qsize".
Definition PARAM_USE_CACHE : string := "usecache".

(** * Parameters *)

(** What the parameters of the path set: the size of the queue, the cache, the heartbeats set
    in the event library. *)
Record Params := mkParams { pq_max : Z; use_cache : bool; heartbeats : list Z }.

Definition param (p : Params) (kv : string * string) : Params :=
  let '(k, v) := kv in
  if String.eqb k PARAM_HEARTBEAT then
    match atoi v with
    | Some val => mkParams (pq_max p) (use_cache p) (heartbeats p ++ [if (HEARTBEAT_MAX <? val)%Z then HEARTBEAT_MAX else val])
    | None => p
    end
  else if String.eqb k PARAM_QSIZE then
    match atoi v with
    | Some val => mkParams (if (val <? PQ_MIN_SIZE)%Z then PQ_MIN_SIZE else if (PQ_MAX_SIZE <? val)%Z then PQ_MAX_SIZE else val) (use_cache p) (heartbeats p)
    | None => p
    end
  else if String.eqb k PARAM_USE_CACHE then
    mkParams (pq_max p) (if String.eqb (to_lower v) "false" then false else use_cache p) (heartbeats p)
  else p.

(** The path of the client is the last one of the request. *)
Definition NewEventClient `{!MapRange} (paths : list (list (gmap string string))) : Params :=
  fold_left (fun p keys => fold_left param (range_of keys) p) (default [] (last paths)) (mkParams PQ_DEF_SIZE true []).

(** * The client *)

Record Evt_rcvd := mkEvt { Event_str : string; Missed_cnt : Z; Publish_epoch_ms : Z }.

(** A value in the queue: the event as JSON and its timestamp. *)
Record Value := mkValue { val : string; timestamp : Z }.

(** Where [get_events] is: about to receive; with an event, before the missed counter is read
    and before it is written; before the queue is looked at; before the dropped counter is
    read and written; at the test whether to stop; finished. *)
Inductive GetPC :=
| GReceive | GReadMissed (e : Evt_rcvd) | GWriteMissed (e : Evt_rcvd) (current : Z) | GQueue (e : Evt_rcvd)
| GReadDropped (e : Evt_rcvd) | GWriteDropped (e : Evt_rcvd) (current : Z) | GCheck | GEnd.

(** Where [update_stats] is: in the loop that waits for a counter, before and after the
    latency is computed; before the values of the database are read; in the main loop,
    before the latency is computed and before the counters are written; finished. *)
Inductive StatsPC := SWait | SWaitRead | SLoad | SMain | SWrite | SEnd.

Record EventClient := mkClient {
  maxq : Z;
  q : list Value;
  disposed : bool;
  counters : gmap string Z;
  last_latencies : list Z;
  last_latency_index : nat;
  last_latency_full : bool;
  last_errors : Z;
  stopped : bool;
  get : GetPC;
  stats : StatsPC;
  db_counters : gmap string Z;
  wr_counters : option (gmap string Z);
  db : gmap string Z
}.

Definition counter (k : string) (m : gmap string Z) : Z := default 0%Z (m !! k).

Definition at_get (g : GetPC) (c : EventClient) : EventClient :=
  mkClient (maxq c) (q c) (disposed c) (counters c) (last_latencies c) (last_latency_index c) (last_latency_full c) (last_errors c) (stopped c) g (stats c) (db_counters c) (wr_counters c) (db c).
Definition at_stats (s : StatsPC) (c : EventClient) : EventClient :=
  mkClient (maxq c) (q c) (disposed c) (counters c) (last_latencies c) (last_latency_index c) (last_latency_full c) (last_errors c) (stopped c) (get c) s (db_counters c) (wr_counters c) (db c).
Definition set_counter (k : string) (v : Z) (c : EventClient) : EventClient :=
  mkClient (maxq c) (q c) (disposed c) (<[k := v]> (counters c)) (last_latencies c) (last_latency_index c) (last_latency_full c) (last_errors c) (stopped c) (get c) (stats c) (db_counters c) (wr_counters c) (db c).
Definition set_queue (l : list Value) (c : EventClient) : EventClient :=
  mkClient (maxq c) l (disposed c) (counters c) (last_latencies c) (last_latency_index c) (last_latency_full c) (last_errors c) (stopped c) (get c) (stats c) (db_counters c) (wr_counters c) (db c).
Definition set_stopped (c : EventClient) : EventClient :=
  mkClient (maxq c) (q c) (disposed c) (counters c) (last_latencies c) (last_latency_index c) (last_latency_full c) (last_errors c) true (get c) (stats c) (db_counters c) (wr_counters c) (db c).
Definition dispose (c : EventClient) : EventClient :=
  mkClient (maxq c) [] true (counters c) (last_latencies c) (last_latency_index c) (last_latency_full c) (last_errors c) (stopped c) (get c) (stats c) (db_counters c) (wr_counters c) (db c).
Definition set_latencies (l : list Z) (i : nat) (full : bool) (c : EventClient) : EventClient :=
  mkClient (maxq c) (q c) (disposed c) (counters c) l i full (last_errors c) (stopped c) (get c) (stats c) (db_counters c) (wr_counters c) (db c).
Definition loaded (m : gmap string Z) (c : EventClient) : EventClient :=
  mkClient (maxq c) (q c) (disposed c) (counters c) (last_latencies c) (last_latency_index c) (last_latency_full c) (last_errors c) (stopped c) (get c) (stats c) m (wr_counters c) (db c).
Definition written (m : gmap string Z) (d : gmap string Z) (c : EventClient) : EventClient :=
  mkClient (maxq c) (q c) (disposed c) (counters c) (last_latencies c) (last_latency_index c) (last_latency_full c) (last_errors c) (stopped c) (get c) (stats c) (db_counters c) (Some m) d.

(** [StreamRun] with the queue of the RPC; counters and latencies are zero. *)
Definition start (p : Params) (d : gmap string Z) : EventClient :=
  mkClient (pq_max p) [] false (list_to_map (map (fun k => (k, 0%Z)) (STATS_CUMULATIVE_KEYS ++ STATS_ABSOLUTE_KEYS)))
    (replicate LATENCY_LIST_SIZE 0%Z) 0 false 0 false GReceive SWait ∅ None d.

(** [compute_latency] *)
Definition total (l : list Z) : Z := fold_left (fun t v => if (0 <? v)%Z then u64 (t + v) else t) l 0%Z.
Definition compute_latency (c : EventClient) : EventClient :=
  if last_latency_full c then set_counter LATENCY (total (last_latencies c) / Z.of_nat LATENCY_LIST_SIZE / 1000 / 1000)%Z c else c.

(** [SentOne] at a time, and [FailedSend]. *)
Definition SentOne (now : Z) (v : Value) (c : EventClient) : EventClient :=
  let udiff := u64 (now - timestamp v) in
  let l := <[last_latency_index c := udiff]> (last_latencies c) in
  if length l <=? S (last_latency_index c) then set_latencies l 0 true c
  else set_latencies l (S (last_latency_index c)) (last_latency_full c) c.
Definition FailedSend (c : EventClient) : EventClient :=
  mkClient (maxq c) (q c) (disposed c) (counters c) (last_latencies c) (last_latency_index c) (last_latency_full c) (u64 (last_errors c + 1)) (stopped c) (get c) (stats c) (db_counters c) (wr_counters c) (db c).

(** * The statistics *)

(** The values of the cumulative counters are taken from the database when reading them
    {e fails}: [read k] is whether the command has an error, and the fields it returns. *)
Definition loadCounters (read : string -> bool * gmap string string) : gmap string Z :=
  let cumulative := fold_left (fun m k =>
    let '(err, fv) := read k in
    if err then match parse_uint (default "" (fv !! STATS_FIELD_NAME)) with Some number => <[k := number]> m | None => m end
    else m) STATS_CUMULATIVE_KEYS ∅ in
  fold_left (fun m k => <[k := 0%Z]> m) STATS_ABSOLUTE_KEYS cumulative.

(** The counters of one turn of the main loop. *)
Definition turnCounters (c : EventClient) : gmap string Z :=
  let tmp := map_imap (fun k v => Some (u64 (v + counter k (db_counters c)))) (counters c) in
  <[DROPPED := u64 (counter DROPPED tmp + last_errors c)]> tmp.

Definition writeStats (fails : string -> bool) (c : EventClient) : EventClient :=
  let tmp := turnCounters c in
  if bool_decide (wr_counters c = Some tmp) then c
  else written tmp (filter (fun kv => fails kv.1 = false) tmp ∪ db c) c.

(** * Steps *)

Section Steps.
(** The event as JSON again: what is left of an event that cannot be parsed is printed as
    well. *)
Variable reprint : string -> string.

Definition TEST_EVENT : string := "{" +:+ dquote +:+ "sonic-host:device-test-event".

(** A step of [get_events]. *)
Inductive getStep (c : EventClient) : EventClient -> Prop :=
| GotEvent e : get c = GReceive -> getStep c (at_get (GReadMissed e) c)
| GotNone : get c = GReceive -> getStep c (at_get GCheck c)
| ReadMissed e : get c = GReadMissed e -> getStep c (at_get (GWriteMissed e (counter MISSED (counters c))) c)
| WriteMissed e v : get c = GWriteMissed e v ->
    getStep c (at_get (if has_prefix (Event_str e) TEST_EVENT then GCheck else GQueue e) (set_counter MISSED (u64 (v + Missed_cnt e)) c))
| Queued e : get c = GQueue e -> (Z.of_nat (length (q c)) <? maxq c)%Z = true -> disposed c = false ->
    getStep c (at_get GCheck (set_queue (q c ++ [mkValue (reprint (Event_str e)) (Publish_epoch_ms e)]) c))
| NotQueued e : get c = GQueue e -> (Z.of_nat (length (q c)) <? maxq c)%Z = true -> disposed c = true ->
    getStep c (set_stopped (at_get GEnd c))
| QueueFull e : get c = GQueue e -> (Z.of_nat (length (q c)) <? maxq c)%Z = false -> getStep c (at_get (GReadDropped e) c)
| ReadDropped e : get c = GReadDropped e -> getStep c (at_get (GWriteDropped e (counter DROPPED (counters c))) c)
| WriteDropped e v : get c = GWriteDropped e v -> getStep c (at_get GCheck (set_counter DROPPED (u64 (v + 1)) c))
| GoOn : get c = GCheck -> stopped c = false -> getStep c (at_get GReceive c)
| Ends : get c = GCheck -> stopped c = true -> getStep c (set_stopped (at_get GEnd c)).

(** A step of [update_stats]. *)
Inductive statsStep (c : EventClient) : EventClient -> Prop :=
| WaitStopped : stats c = SWait -> stopped c = true -> statsStep c (at_stats SLoad c)
| WaitLatency : stats c = SWait -> stopped c = false -> statsStep c (at_stats SWaitRead (compute_latency c))
| WaitOn : stats c = SWaitRead -> map_Forall (fun _ v => v = 0%Z) (counters c) -> statsStep c (at_stats SWait c)
| WaitOver : stats c = SWaitRead -> ~ map_Forall (fun _ v => v = 0%Z) (counters c) -> statsStep c (at_stats SLoad c)
| LoadStopped : stats c = SLoad -> stopped c = true -> statsStep c (at_stats SMain c)
| LoadFails : stats c = SLoad -> stopped c = false -> statsStep c (at_stats SEnd c)
| Load read : stats c = SLoad -> stopped c = false -> statsStep c (at_stats SMain (loaded (loadCounters read) c))
| MainStopped : stats c = SMain -> stopped c = true -> statsStep c (at_stats SEnd c)
| MainLatency : stats c = SMain -> stopped c = false -> statsStep c (at_stats SWrite (compute_latency c))
| WriteDb fails : stats c = SWrite -> statsStep c (at_stats SMain (writeStats fails c)).

(** A value that the queue may give: one of the oldest, and the rest. *)
Definition taken (c : EventClient) (v : Value) (l : list Value) : Prop :=
  q c ≡ₚ v :: l /\ Forall (fun w => timestamp v <= timestamp w)%Z l.

(** The RPC: its sender takes a value and sends it, or fails to; the channel is closed; the
    queue is disposed of. *)
Inductive rpcStep (c : EventClient) : EventClient -> Prop :=
| Sent now v l : taken c v l -> rpcStep c (SentOne now v (set_queue l c))
| Failed v l : taken c v l -> rpcStep c (FailedSend (set_queue l c))
| Stops : rpcStep c (set_stopped c)
| Disposes : rpcStep c (dispose c).

End Steps.

End EventClient.

(** Proofs about the event client (EventClient): every event is accounted for under every
    interleaving, the queue is bounded, the latency is the average of the last ten values,
    the goroutines end, and findings. *)

Import EventClient.

Lemma u64_add_l a b : u64 (u64 a + b) = u64 (a + b).
Proof. unfold u64. apply Z.add_mod_idemp_l. lia. Qed.

Lemma counter_insert k v m : counter k (<[k := v]> m) = v.
Proof. unfold counter. by rewrite lookup_insert_eq. Qed.
Lemma counter_insert_ne k k' v m : k <> k' -> counter k (<[k' := v]> m) = counter k m.
Proof. intros H. unfold counter. by rewrite lookup_insert_ne. Qed.

(** * Parameters *)

(** The size of the queue stays within its limits, whatever the parameters of the path. *)
Theorem queue_size_limited `{!MapRange} paths :
  (PQ_MIN_SIZE <= pq_max (NewEventClient paths) <= PQ_MAX_SIZE)%Z.
Proof.
  unfold NewEventClient. generalize (default [] (last paths)). intros elems.
  assert (forall l p, (PQ_MIN_SIZE <= pq_max p <= PQ_MAX_SIZE)%Z -> (PQ_MIN_SIZE <= pq_max (fold_left param l p) <= PQ_MAX_SIZE)%Z) as Hkeys.
  { induction l as [|[k v] l IH]; intros p Hp; [done|]. cbn [fold_left]. apply IH. unfold param.
    repeat case_match; cbn [pq_max]; try done; unfold PQ_MIN_SIZE, PQ_MAX_SIZE in *; lia. }
  assert (forall p, (PQ_MIN_SIZE <= pq_max p <= PQ_MAX_SIZE)%Z ->
    (PQ_MIN_SIZE <= pq_max (fold_left (fun p keys => fold_left param (range_of keys) p) elems p) <= PQ_MAX_SIZE)%Z) as Hall; [|by apply Hall].
  induction elems as [|e elems IH]; intros p Hp; [done|]. cbn [fold_left]. apply IH. by apply Hkeys.
Qed.

(** * Every event is accounted for *)

(** What an observer sees of a step: an event that was received, a value that the sender of
    the RPC took, values that were discarded with the queue. *)
Inductive Label := Received (e : Evt_rcvd) | Taken (v : Value) | Discarded (l : list Value).

Section Accounting.
Variable reprint : string -> string.

Inductive lstep : list Label -> EventClient -> EventClient -> Prop :=
| LGet c c' : getStep reprint c c' -> lstep (match get c' with GReadMissed e => [Received e] | _ => [] end) c c'
| LStats c c' : statsStep c c' -> lstep [] c c'
| LSent c now v l : taken c v l -> lstep [Taken v] c (SentOne now v (set_queue l c))
| LFailed c v l : taken c v l -> lstep [Taken v] c (FailedSend (set_queue l c))
| LStops c : lstep [] c (set_stopped c)
| LDisposes c : lstep [Discarded (q c)] c (dispose c).

Inductive runs : list Label -> EventClient -> EventClient -> Prop :=
| RunsHere c : runs [] c c
| RunsStep t l c c1 c2 : runs t c c1 -> lstep l c1 c2 -> runs (t ++ l) c c2.

Definition received (t : list Label) : list Evt_rcvd := flat_map (fun l => match l with Received e => [e] | _ => [] end) t.
Definition gone (t : list Label) : list Value := flat_map (fun l => match l with Taken v => [v] | Discarded l => l | _ => [] end) t.

(** What became of an event: a test event, put into the queue, dropped since the queue was
    full, refused by a queue that was disposed of. *)
Inductive Fate := Test | Put | Dropped | Refused.

Definition valueOf (e : Evt_rcvd) : Value := mkValue (reprint (Event_str e)) (Publish_epoch_ms e).
Definition putValues (fs : list (Evt_rcvd * Fate)) : list Value := flat_map (fun ef => match ef.2 with Put => [valueOf ef.1] | _ => [] end) fs.
Definition numDropped (fs : list (Evt_rcvd * Fate)) : Z := foldr (fun ef n => match ef.2 with Dropped => n + 1 | _ => n end)%Z 0%Z fs.
Definition missed (es : list Evt_rcvd) : Z := foldr (fun e n => n + Missed_cnt e)%Z 0%Z es.

(** The event in hand, and whether its missed events were counted. *)
Definition inHand (g : GetPC) : list Evt_rcvd :=
  match g with GReadMissed e | GWriteMissed e _ | GQueue e | GReadDropped e | GWriteDropped e _ => [e] | _ => [] end.
Definition counted (g : GetPC) : list Evt_rcvd :=
  match g with GQueue e | GReadDropped e | GWriteDropped e _ => [e] | _ => [] end.
Definition fateOk (ef : Evt_rcvd * Fate) : Prop := match ef.2 with Test => has_prefix (Event_str ef.1) TEST_EVENT = true | _ => has_prefix (Event_str ef.1) TEST_EVENT = false end.

Record Accounted (m : Z) (t : list Label) (c : EventClient) : Prop := mkAccounted {
  ac_max : maxq c = m;
  ac_bound : (Z.of_nat (length (q c)) <= Z.max 0 m)%Z;
  ac_fates : exists fs, received t = map fst fs ++ inHand (get c) /\ Forall fateOk fs /\ putValues fs ≡ₚ gone t ++ q c /\
    counter DROPPED (counters c) = u64 (numDropped fs) /\ counter MISSED (counters c) = u64 (missed (map fst fs ++ counted (get c)));
  ac_pc : match get c with
    | GWriteMissed _ v => v = counter MISSED (counters c)
    | GWriteDropped e v => v = counter DROPPED (counters c) /\ has_prefix (Event_str e) TEST_EVENT = false
    | GQueue e | GReadDropped e => has_prefix (Event_str e) TEST_EVENT = false
    | _ => True
    end
}.

Lemma received_app t1 t2 : received (t1 ++ t2) = received t1 ++ received t2.
Proof. apply flat_map_app. Qed.
Lemma gone_app t1 t2 : gone (t1 ++ t2) = gone t1 ++ gone t2.
Proof. apply flat_map_app. Qed.
Lemma putValues_app f1 f2 : putValues (f1 ++ f2) = putValues f1 ++ putValues f2.
Proof. apply flat_map_app. Qed.
Lemma numDropped_snoc fs e f : numDropped (fs ++ [(e, f)]) = (numDropped fs + match f with Dropped => 1 | _ => 0 end)%Z.
Proof. induction fs as [|[e' f'] fs IH]; [by destruct f|]. cbn. fold (numDropped (fs ++ [(e, f)])). rewrite IH. fold (numDropped fs). destruct f', f; lia. Qed.
Lemma missed_snoc es e : missed (es ++ [e]) = (missed es + Missed_cnt e)%Z.
Proof. induction es as [|e' es IH]; [cbn; lia|]. cbn. fold (missed (es ++ [e])). rewrite IH. fold (missed es). lia. Qed.

(** Steps that keep what is accounted for. *)
Lemma accounted_same m t t' c c' :
  Accounted m t c -> received t' = received t -> gone t' = gone t -> maxq c' = maxq c -> q c' = q c -> get c' = get c ->
  counter DROPPED (counters c') = counter DROPPED (counters c) -> counter MISSED (counters c') = counter MISSED (counters c) -> Accounted m t' c'.
Proof.
  intros [A1 A2 (fs & A3 & A4 & A5 & A6 & A7) A8] Hr Hg Hm Hq Hget Hd Hmi. split; [congruence|by rewrite Hq| |by rewrite Hget, Hd, Hmi].
  exists fs. rewrite Hr, Hg, Hq, Hget, Hd, Hmi. done.
Qed.

Lemma latency_counters c : forall k, k <> LATENCY -> counter k (counters (compute_latency c)) = counter k (counters c).
Proof. intros k Hk. unfold compute_latency. destruct (last_latency_full c); [|done]. cbn. by apply counter_insert_ne. Qed.

Lemma accounted_stats m t c c' : Accounted m t c -> statsStep c c' -> Accounted m (t ++ []) c'.
Proof.
  intros A H. rewrite app_nil_r.
  assert (maxq c' = maxq c /\ q c' = q c /\ get c' = get c /\ forall k, k <> LATENCY -> counter k (counters c') = counter k (counters c)) as (H1 & H2 & H3 & H4).
  { destruct H; cbn; try done.
    - unfold compute_latency. destruct (last_latency_full c); cbn; split_and!; try done. intros. by apply counter_insert_ne.
    - unfold compute_latency. destruct (last_latency_full c); cbn; split_and!; try done. intros. by apply counter_insert_ne.
    - unfold writeStats. case_bool_decide; done. }
  eapply accounted_same; [exact A|done|done|done|done|done|by apply H4|by apply H4].
Qed.

Lemma accounted_rpc m t c v l c' :
  Accounted m t c -> taken c v l -> maxq c' = maxq c -> q c' = l -> get c' = get c -> counters c' = counters c -> Accounted m (t ++ [Taken v]) c'.
Proof.
  intros [A1 A2 (fs & A3 & A4 & A5 & A6 & A7) A8] [Ht _] Hm Hq Hg Hc. split; [congruence| | |by rewrite Hg, Hc].
  - rewrite Hq. pose proof (Permutation_length Ht) as Hl. cbn in Hl. lia.
  - exists fs. rewrite received_app, gone_app, Hq, Hg, Hc. cbn [received gone flat_map app]. rewrite app_nil_r. split_and!; [done|done| |done|done].
    rewrite A5, Ht, <- app_assoc. done.
Qed.

Lemma accounted_get m t c c' :
  Accounted m t c -> getStep reprint c c' -> Accounted m (t ++ match get c' with GReadMissed e => [Received e] | _ => [] end) c'.
Proof.
  intros [A1 A2 (fs & A3 & A4 & A5 & A6 & A7) A8] H.
  destruct H as [e Hg|Hg|e Hg|e v Hg|e Hg Hl Hd|e Hg Hl Hd|e Hg Hl|e Hg|e v Hg|Hg Hs|Hg Hs]; rewrite Hg in *; cbn [inHand counted] in *; rewrite ?app_nil_r in *.
  - (* received *)
    split; [done|done| |done]. exists fs. cbn [at_get get inHand counted q counters]. rewrite received_app, gone_app. cbn [received gone flat_map app].
    rewrite !app_nil_r, A3. done.
  - split; [done|done| |done]. exists fs. cbn [at_get get inHand counted q counters]. by rewrite ?app_nil_r.
  - split; [done|done| |done]. exists fs. cbn [at_get get inHand counted q counters]. rewrite ?app_nil_r. done.
  - (* the missed counter is written *)
    destruct (has_prefix (Event_str e) TEST_EVENT) eqn:Ep; cbn [at_get get]; rewrite ?app_nil_r.
    + split; [done|done| |done]. exists (fs ++ [(e, Test)]). cbn [at_get set_counter get inHand counted q counters].
      rewrite map_app, putValues_app, numDropped_snoc, counter_insert, counter_insert_ne by done. cbn [map fst putValues flat_map snd app].
      rewrite !app_nil_r, missed_snoc, A8, A7, u64_add_l, Z.add_0_r. split_and!; [done|apply Forall_app; by split; [|repeat constructor]|done|done|done].
    + split; [done|done| |done]. exists fs. cbn [at_get set_counter get inHand counted q counters].
      rewrite counter_insert, counter_insert_ne, missed_snoc, A8, A7, u64_add_l by done. done.
  - (* queued *)
    split; [done| | |done].
    + cbn [at_get set_queue q]. rewrite length_app. cbn [length]. apply Z.ltb_lt in Hl. lia.
    + exists (fs ++ [(e, Put)]). cbn [at_get set_queue get inHand counted q counters].
      rewrite map_app, putValues_app, numDropped_snoc. cbn [map fst putValues flat_map snd app]. rewrite !app_nil_r, Z.add_0_r.
      split_and!; [done|apply Forall_app; by split; [|repeat constructor]| |done|by rewrite A7].
      rewrite A5, app_assoc. done.
  - (* refused *)
    split; [done|done| |done]. exists (fs ++ [(e, Refused)]). cbn [at_get set_stopped get inHand counted q counters].
    rewrite map_app, putValues_app, numDropped_snoc. cbn [map fst putValues flat_map snd app]. rewrite !app_nil_r, Z.add_0_r.
    split_and!; [done|apply Forall_app; by split; [|repeat constructor]|done|done|by rewrite A7].
  - split; [done|done| |done]. exists fs. cbn [at_get get inHand counted q counters]. rewrite ?app_nil_r. done.
  - split; [done|done| |done]. exists fs. cbn [at_get get inHand counted q counters]. rewrite ?app_nil_r. done.
  - (* dropped *)
    destruct A8 as [-> Hp]. split; [done|done| |done]. exists (fs ++ [(e, Dropped)]). cbn [at_get set_counter get inHand counted q counters].
    rewrite map_app, putValues_app, numDropped_snoc, counter_insert, counter_insert_ne by done. cbn [map fst putValues flat_map snd app].
    rewrite !app_nil_r, A6, u64_add_l. split_and!; [done|apply Forall_app; by split; [|repeat constructor]|done|done|by rewrite A7].
  - split; [done|done| |done]. exists fs. cbn [at_get get inHand counted q counters]. rewrite ?app_nil_r. done.
  - split; [done|done| |done]. exists fs. cbn [at_get set_stopped get inHand counted q counters]. rewrite ?app_nil_r. done.
Qed.

Lemma accounted_step m t l c c' : Accounted m t c -> lstep l c c' -> Accounted m (t ++ l) c'.
Proof.
  intros A H. destruct H as [c c' H|c c' H|c now v l H|c v l H|c|c].
  - by apply (accounted_get m t c c').
  - by eapply accounted_stats.
  - unfold SentOne. destruct (_ <=? _); (eapply accounted_rpc; [exact A|exact H|done|done|done|done]).
  - eapply accounted_rpc; [exact A|exact H|done|done|done|done].
  - rewrite app_nil_r. eapply accounted_same; [exact A|done..].
  - destruct A as [A1 A2 (fs & A3 & A4 & A5 & A6 & A7) A8]. split; [done|cbn; lia| |done].
    exists fs. rewrite received_app, gone_app. cbn [received gone flat_map app dispose q get counters]. rewrite ?app_nil_r. done.
Qed.

(** C37. Under every interleaving of the receiver, the statistics and the RPC, every event that
    was received is accounted for, once: it is a test event, or it is still in hand, or its
    value is in the queue, was sent or discarded with the queue, or it was counted as dropped,
    or the queue was closed; the counters are the numbers of events missed and dropped, and
    the queue never holds more than its maximum. *)
Theorem events_accounted p d t c : runs t (start p d) c -> Accounted (pq_max p) t c.
Proof.
  intros H. remember (start p d) as c0 eqn:E. induction H as [c|t l c c1 c2 _ IH Hl]; subst.
  - split; [done|cbn; lia| |done]. exists []. by vm_compute.
  - eapply accounted_step; [by apply IH|done].
Qed.

End Accounting.

(** * The latency *)

(** The values of a sequence of sent values, newest last. *)
Definition latenciesOf (sent : list (Z * Value)) : list Z := map (fun s => u64 (s.1 - timestamp s.2)) sent.
Definition sendAll (sent : list (Z * Value)) (c : EventClient) : EventClient := fold_left (fun c s => SentOne s.1 s.2 c) sent c.

(** The ring holds the last values in order, beginning at its index. *)
Definition ringHolds (c : EventClient) (hist : list Z) : Prop :=
  let i := last_latency_index c in
  i = length hist mod LATENCY_LIST_SIZE /\ last_latency_full c = (LATENCY_LIST_SIZE <=? length hist) /\ length (last_latencies c) = LATENCY_LIST_SIZE /\
  drop i (last_latencies c) ++ take i (last_latencies c) = drop (length hist) (replicate LATENCY_LIST_SIZE 0%Z ++ hist).

Lemma ring_push (l : list Z) i v : i < length l -> exists x, drop i l ++ take i l = x :: drop (S i) (<[i := v]> l) ++ take i l.
Proof.
  intros Hi. destruct (lookup_lt_is_Some_2 l i Hi) as [x Hx]. exists x. rewrite (drop_S l x i Hx). by rewrite drop_insert_lt by lia.
Qed.

Lemma mod_next n :
  n mod 10 < 10 /\ (n mod 10 = 9 -> S n mod 10 = 0 /\ (10 <=? S n) = true) /\ (n mod 10 < 9 -> S n mod 10 = S (n mod 10) /\ (10 <=? S n) = (10 <=? n)).
Proof.
  pose proof (Nat.mod_upper_bound n 10). pose proof (Nat.div_mod_eq n 10) as Hn. split_and!; [lia| |].
  - intros Hm. split; [symmetry; apply (Nat.mod_unique _ _ (S (n / 10))); lia|]. apply Nat.leb_le. lia.
  - intros Hm. split; [symmetry; apply (Nat.mod_unique _ _ (n / 10)); lia|]. apply eq_true_iff_eq. rewrite !Nat.leb_le. lia.
Qed.

Lemma sent_ring now v c hist : ringHolds c hist -> ringHolds (SentOne now v c) (hist ++ [u64 (now - timestamp v)]).
Proof.
  unfold ringHolds, SentOne. set (i := last_latency_index c). set (l := last_latencies c). set (x := u64 _). intros (Hmod & Hfull & Hl & Hr).
  destruct (mod_next (length hist)) as (Hi & Hlast & Hmore). fold LATENCY_LIST_SIZE in *. rewrite <- Hmod in Hi, Hlast, Hmore.
  assert (drop (S i) (<[i := x]> l) ++ take i l ++ [x] = drop (length (hist ++ [x])) (replicate LATENCY_LIST_SIZE 0%Z ++ hist ++ [x])) as Hnew.
  { destruct (ring_push l i x) as [y Hy]; [lia|]. rewrite Hy in Hr. rewrite length_app, (app_assoc (replicate LATENCY_LIST_SIZE 0%Z) hist [x]). cbn [length]. rewrite drop_app_le.
    - assert (drop (length hist + 1) (replicate LATENCY_LIST_SIZE 0%Z ++ hist) = drop (S i) (<[i:=x]> l) ++ take i l) as ->; [|by rewrite app_assoc].
      rewrite <- drop_drop. by rewrite <- Hr.
    - rewrite length_app, length_replicate. unfold LATENCY_LIST_SIZE. lia. }
  rewrite length_insert, Hl. destruct (Nat.leb_spec LATENCY_LIST_SIZE (S i)) as [Hw|Hw]; cbn [set_latencies last_latency_index last_latencies].
  - destruct Hlast as [Hz Hge]; [unfold LATENCY_LIST_SIZE in *; lia|]. rewrite length_app, Nat.add_1_r in *.
    split_and!; [done|done|by rewrite length_insert|]. rewrite <- Hnew. rewrite drop_0, take_0, app_nil_r.
    rewrite (drop_ge (<[i:=x]> l)) by (rewrite length_insert, Hl; unfold LATENCY_LIST_SIZE in *; lia). cbn [app].
    rewrite insert_take_drop by lia. rewrite (drop_ge l) by (rewrite Hl; unfold LATENCY_LIST_SIZE in *; lia). done.
  - destruct Hmore as [Hz Hge]; [unfold LATENCY_LIST_SIZE in *; lia|]. rewrite length_app, Nat.add_1_r in *.
    split_and!; [by rewrite Hz|by rewrite Hge|by rewrite length_insert|]. rewrite <- Hnew. f_equal.
    rewrite (take_S_r _ _ x) by (apply list_lookup_insert_eq; lia). by rewrite take_insert_ge by lia.
Qed.

Lemma start_ring p d : ringHolds (start p d) [].
Proof. by split_and!. Qed.

Lemma sendAll_ring sent : forall c hist, ringHolds c hist -> ringHolds (sendAll sent c) (hist ++ latenciesOf sent).
Proof.
  induction sent as [|[now v] sent IH]; intros c hist H; cbn [sendAll latenciesOf fold_left map]; [by rewrite app_nil_r|].
  apply (sent_ring now v) in H. specialize (IH _ _ H). by rewrite <- app_assoc in IH.
Qed.

Definition sumZ (l : list Z) : Z := foldr Z.add 0%Z l.

Lemma sumZ_app l1 l2 : sumZ (l1 ++ l2) = (sumZ l1 + sumZ l2)%Z.
Proof. induction l1 as [|x l1 IH]; [done|]. cbn. fold (sumZ (l1 ++ l2)) (sumZ l1). lia. Qed.

Lemma total_sum l : Forall (fun v => 0 <= v)%Z l -> (sumZ l < 2 ^ 64)%Z -> total l = sumZ l.
Proof.
  intros Hl Hs. unfold total. assert (forall t, 0 <= t -> t + sumZ l < 2 ^ 64 ->
    fold_left (fun t v => if 0 <? v then u64 (t + v) else t) l t = t + sumZ l)%Z as H; [|rewrite H; [done|lia|lia]]. clear Hs.
  induction Hl as [|v l Hv Hl IH]; intros t Ht Hs; cbn [fold_left sumZ foldr] in *; [lia|]. fold (sumZ l) in *.
  assert (0 <= sumZ l)%Z by (clear -Hl; induction Hl; cbn; [lia|fold (sumZ l); lia]).
  destruct (Z.ltb_spec 0 v); [|rewrite IH by lia; lia]. unfold u64. rewrite Z.mod_small by lia. rewrite IH by lia. lia.
Qed.

(** Once ten values were sent, the latency is the average of the last ten, in
    milliseconds, for latencies whose sum fits into 64 bits. *)
Theorem latency_is_average p d sent :
  LATENCY_LIST_SIZE <= length sent ->
  let recent := drop (length sent - LATENCY_LIST_SIZE) (latenciesOf sent) in
  (sumZ recent < 2 ^ 64)%Z ->
  counter LATENCY (counters (compute_latency (sendAll sent (start p d)))) = (sumZ recent / 10 / 1000 / 1000)%Z.
Proof.
  intros Hlen recent Hs. destruct (sendAll_ring sent _ _ (start_ring p d)) as (_ & Hfull & Hl & Hr). cbn [app] in *.
  assert (length (latenciesOf sent) = length sent) as Hll by apply length_map. rewrite Hll in *.
  unfold compute_latency. rewrite Hfull. apply Nat.leb_le in Hlen as Hle. rewrite Hle. cbn [set_counter counters]. rewrite counter_insert.
  set (c := sendAll sent (start p d)) in *. assert (drop (length sent) (replicate LATENCY_LIST_SIZE 0%Z ++ latenciesOf sent) = recent) as Hrec.
  { rewrite drop_app, drop_ge by (rewrite length_replicate; lia). cbn [app]. by rewrite length_replicate. }
  assert (Forall (fun v => 0 <= v)%Z recent) as Hpos.
  { apply Forall_drop, Forall_forall. intros v Hv. apply list_elem_of_In, in_map_iff in Hv as (s & <- & _). apply Z.mod_pos_bound. lia. }
  assert (drop (last_latency_index c) (last_latencies c) ++ take (last_latency_index c) (last_latencies c) ≡ₚ last_latencies c) as Hperm
    by (rewrite Permutation_app_comm; by rewrite take_drop).
  rewrite Hr, Hrec in Hperm. assert (sumZ recent = sumZ (last_latencies c)) as Hsum.
  { clear -Hperm. unfold sumZ. induction Hperm as [|x l1 l2 _ IH|x y l|l1 l2 l3 _ IH1 _ IH2]; cbn; lia. }
  rewrite total_sum; [by rewrite Hsum|by rewrite <- Hperm|by rewrite <- Hsum].
Qed.

(** * The goroutines end *)

Section Ends.
Variable reprint : string -> string.

(** A run with [n] steps of the two goroutines, and any steps of the RPC in between. *)
Inductive turns : nat -> EventClient -> EventClient -> Prop :=
| TurnsHere c : turns 0 c c
| TurnsGet n c c1 c2 : getStep reprint c c1 -> turns n c1 c2 -> turns (S n) c c2
| TurnsStats n c c1 c2 : statsStep c c1 -> turns n c1 c2 -> turns (S n) c c2
| TurnsRpc n c c1 c2 : rpcStep c c1 -> turns n c1 c2 -> turns n c c2.

(** The steps that are left when the client was stopped. *)
Definition getLeft (g : GetPC) : nat :=
  match g with
  | GReceive => 7 | GReadMissed _ => 6 | GWriteMissed _ _ => 5 | GQueue _ => 4 | GReadDropped _ => 3 | GWriteDropped _ _ => 2 | GCheck => 1 | GEnd => 0
  end.
Definition statsLeft (s : StatsPC) : nat := match s with SWaitRead => 4 | SWait => 3 | SLoad | SWrite => 2 | SMain => 1 | SEnd => 0 end.
Definition left_ (c : EventClient) : nat := getLeft (get c) + statsLeft (stats c).

Lemma get_left c c' : stopped c = true -> getStep reprint c c' -> stopped c' = true /\ left_ c' < left_ c.
Proof.
  intros Hs H. unfold left_. destruct H as [e Hg|Hg|e Hg|e v Hg|e Hg _ _|e Hg _ _|e Hg _|e Hg|e v Hg|Hg Hs'|Hg _]; rewrite ?Hg; cbn; try (split; [done|lia]); [|congruence].
  destruct (has_prefix _ _); cbn; (split; [done|lia]).
Qed.

Lemma stats_left c c' : stopped c = true -> statsStep c c' -> stopped c' = true /\ left_ c' < left_ c.
Proof.
  intros Hs H. unfold left_. destruct H as [Hg _|Hg Hs'|Hg _|Hg _|Hg _|Hg Hs'|r Hg Hs'|Hg _|Hg Hs'|f Hg]; rewrite ?Hg; cbn; try congruence; try (split; [done|lia]).
  unfold writeStats. case_bool_decide; cbn; (split; [done|lia]).
Qed.

Lemma rpc_left c c' : stopped c = true -> rpcStep c c' -> stopped c' = true /\ left_ c' = left_ c.
Proof. intros Hs [now v l _|v l _| |]; [|done..]. unfold SentOne. by destruct (_ <=? _). Qed.

Lemma goroutine_steps c : left_ c <> 0 -> exists c', getStep reprint c c' \/ statsStep c c'.
Proof.
  unfold left_. intros H. destruct (decide (getLeft (get c) = 0)) as [Hg|Hg].
  - destruct (stats c) eqn:E; cbn in H; try lia.
    + destruct (stopped c) eqn:Es; eexists; right; [by apply WaitStopped|by apply WaitLatency].
    + destruct (decide (map_Forall (fun _ v => v = 0%Z) (counters c))); eexists; right; [by apply WaitOn|by apply WaitOver].
    + destruct (stopped c) eqn:Es; eexists; right; [by apply LoadStopped|by apply LoadFails].
    + destruct (stopped c) eqn:Es; eexists; right; [by apply MainStopped|by apply MainLatency].
    + eexists. right. by apply (WriteDb _ (fun _ => false)).
  - destruct (get c) as [|e|e v|e|e|e v| |] eqn:E; cbn in Hg; try lia.
    + eexists. left. by apply GotNone.
    + eexists. left. by eapply ReadMissed.
    + eexists. left. by eapply WriteMissed.
    + destruct (Z.of_nat (length (q c)) <? maxq c)%Z eqn:El; [|eexists; left; by eapply QueueFull].
      destruct (disposed c) eqn:Ed; eexists; left; [by eapply NotQueued|by eapply Queued].
    + eexists. left. by eapply ReadDropped.
    + eexists. left. by eapply WriteDropped.
    + destruct (stopped c) eqn:Es; eexists; left; [by apply Ends|by apply GoOn].
Qed.

(** After the client was stopped, both goroutines end: they take at most eleven more steps
    together, whatever the RPC does in between, and until both have ended one of them can take
    a step. *)
Theorem event_client_ends n c c' :
  stopped c = true -> turns n c c' ->
  n <= 11 /\ (get c' = GEnd /\ stats c' = SEnd \/ exists c2, getStep reprint c' c2 \/ statsStep c' c2).
Proof.
  intros Hs H. split.
  - transitivity (left_ c); [|unfold left_; destruct (get c), (stats c); cbn; lia].
    induction H as [c|n c c1 c2 H1 _ IH|n c c1 c2 H1 _ IH|n c c1 c2 H1 _ IH]; [lia|..].
    + destruct (get_left c c1 Hs H1) as [Hs1 Hl]. specialize (IH Hs1). lia.
    + destruct (stats_left c c1 Hs H1) as [Hs1 Hl]. specialize (IH Hs1). lia.
    + destruct (rpc_left c c1 Hs H1) as [Hs1 <-]. by apply IH.
  - destruct (decide (left_ c' = 0)) as [Hz|Hz]; [left|right; by apply goroutine_steps].
    unfold left_ in Hz. destruct (get c'), (stats c'); cbn in Hz; (done || lia).
Qed.

End Ends.

(** * Findings *)

(** The cumulative counters are read only from an answer with an error, which has no fields:
    the values of the database are never taken over, and a restart counts from zero. *)
Theorem cumulative_never_loaded read :
  (forall k, (read k).1 = true -> (read k).2 = ∅) -> loadCounters read = {[LATENCY := 0%Z]}.
Proof.
  intros H. unfold loadCounters, STATS_CUMULATIVE_KEYS. cbn [fold_left].
  destruct (read MISSED) as [[] fv1] eqn:E1, (read DROPPED) as [[] fv2] eqn:E2;
    try (assert (fv1 = ∅) as -> by (specialize (H MISSED); rewrite E1 in H; by apply H));
    try (assert (fv2 = ∅) as -> by (specialize (H DROPPED); rewrite E2 in H; by apply H)); reflexivity.
Qed.

(** A client that is waiting for an event, with nothing in the queue. *)
Definition idle (c : EventClient) : Prop :=
  get c = GReceive /\ stats c = SWait /\ stopped c = false /\ disposed c = false /\ q c = [] /\ (0 < maxq c)%Z /\ length (last_latencies c) = LATENCY_LIST_SIZE.

Lemma sent_idle now v c :
  idle (set_queue [] c) ->
  let c' := SentOne now v (set_queue [] c) in
  idle c' /\ last_latency_index c' = (if LATENCY_LIST_SIZE <=? S (last_latency_index c) then 0 else S (last_latency_index c)) /\
  last_latency_full c' = ((LATENCY_LIST_SIZE <=? S (last_latency_index c)) || last_latency_full c).
Proof.
  intros (Hg & Hst & Hs & Hd & Hq & Hm & Hl). unfold SentOne. cbn [set_queue last_latency_index last_latencies last_latency_full] in *.
  rewrite length_insert, Hl. destruct (LATENCY_LIST_SIZE <=? S (last_latency_index c)); (split; [|done]); unfold idle; cbn; rewrite length_insert; by split_and!.
Qed.

(** An event goes through the client. *)
Lemma event_round reprint c0 t c :
  runs reprint t c0 c -> idle c ->
  exists t' c', runs reprint t' c0 c' /\ idle c' /\ last_latency_index c' = (if LATENCY_LIST_SIZE <=? S (last_latency_index c) then 0 else S (last_latency_index c)) /\
    last_latency_full c' = ((LATENCY_LIST_SIZE <=? S (last_latency_index c)) || last_latency_full c).
Proof.
  intros H (Hg & Hst & Hs & Hd & Hq & Hm & Hl). set (e := mkEvt "{}" 0 0).
  eapply RunsStep in H; [|eapply LGet, (GotEvent _ _ e Hg)]. eapply RunsStep in H; [|by eapply LGet, ReadMissed].
  eapply RunsStep in H; [|by eapply LGet, WriteMissed]. cbn [has_prefix Event_str e TEST_EVENT] in H.
  eapply RunsStep in H; [|eapply LGet, (Queued _ _ e); [reflexivity|cbn; rewrite Hq; by apply Z.ltb_lt|exact Hd]].
  eapply RunsStep in H; [|eapply LGet, GoOn; [reflexivity|exact Hs]].
  eapply RunsStep in H; [|eapply (LSent _ _ 0 (valueOf reprint e) []); unfold taken; cbn; rewrite Hq; by split].
  eexists _, _. split; [exact H|].
  match goal with |- idle (SentOne ?n ?v (set_queue [] ?X)) /\ _ => assert (idle (set_queue [] X)) as Hi by (by split_and!); exact (sent_idle n v X Hi) end.
Qed.

Lemma events_rounds reprint c0 n : forall t c,
  runs reprint t c0 c -> idle c -> last_latency_index c + S n = LATENCY_LIST_SIZE ->
  exists t' c', runs reprint t' c0 c' /\ idle c' /\ last_latency_full c' = true.
Proof.
  induction n as [|n IH]; intros t c H Hi Hn; destruct (event_round reprint c0 t c H Hi) as (t1 & c1 & H1 & Hi1 & Hx & Hf).
  - assert ((LATENCY_LIST_SIZE <=? S (last_latency_index c)) = true) as Hw by (apply Nat.leb_le; lia). rewrite Hw in Hf. by exists t1, c1.
  - assert ((LATENCY_LIST_SIZE <=? S (last_latency_index c)) = false) as Hw by (apply Nat.leb_gt; lia). rewrite Hw in Hx. apply (IH t1 c1 H1 Hi1). lia.
Qed.

(** The counters are written under the read lock: the receiver and the statistics can both be
    about to write the same map. *)
Theorem counters_written_under_read_lock reprint p d :
  (0 < pq_max p)%Z ->
  exists t c e v, runs reprint t (start p d) c /\ get c = GWriteMissed e v /\ stats c = SWait /\ stopped c = false /\ last_latency_full c = true.
Proof.
  intros Hp. destruct (events_rounds reprint (start p d) 9 [] (start p d)) as (t & c & H & (Hg & Hst & Hs & _) & Hf); [apply RunsHere|by split_and!|done|].
  set (e := mkEvt "{}" 0 0). eapply RunsStep in H; [|eapply LGet, (GotEvent _ _ e Hg)]. eapply RunsStep in H; [|by eapply LGet, ReadMissed].
  eexists _, _, e, _. split; [exact H|]. cbn. by split_and!.
Qed.

(** An event whose timestamp is after the clock of the sender counts with a latency of
    hundreds of years. *)
Theorem early_clock_huge_latency now v c :
  (0 <= now < timestamp v)%Z -> (timestamp v < 2 ^ 63)%Z -> last_latency_index c < length (last_latencies c) ->
  exists x, last_latencies (SentOne now v c) !! last_latency_index c = Some x /\ (2 ^ 63 < x)%Z.
Proof.
  intros Hn Ht Hi. exists (u64 (now - timestamp v)). split.
  - unfold SentOne. destruct (_ <=? _); cbn; by apply list_lookup_insert_eq.
  - unfold u64. rewrite <- (Z.mod_unique (now - timestamp v) (2 ^ 64) (-1) (now - timestamp v + 2 ^ 64)); lia.
Qed.

(** A negative heartbeat is handed to the event library as it is. *)
Theorem negative_heartbeat_set : heartbeats (NewEventClient [[{["heartbeat" := "-5"]}]]) = [(-5)%Z].
Proof. by vm_compute. Qed.

(** * Instances *)

Definition demo_params : Params := NewEventClient [[{["qsize" := "2000"]}]].

Lemma events_accounted_witness :
  exists t c, runs (fun s => s) t (start demo_params ∅) c /\ received t = [mkEvt "{}" 3 7] /\ Accounted (fun s => s) (pq_max demo_params) t c.
Proof.
  assert (exists t c, runs (fun s => s) t (start demo_params ∅) c /\ received t = [mkEvt "{}" 3 7]) as (t & c & H & Hr).
  { eexists _, _. split; [eapply RunsStep; [apply RunsHere|]; eapply LGet, (GotEvent _ _ (mkEvt "{}" 3 7)); reflexivity|reflexivity]. }
  exists t, c. split; [exact H|]. split; [exact Hr|]. exact (events_accounted (fun s => s) demo_params ∅ t c H).
Defined.

Lemma latency_is_average_witness :
  counter LATENCY (counters (compute_latency (sendAll (replicate 10 (12000000, mkValue "{}" 2000000)%Z) (start demo_params ∅)))) = 10%Z.
Proof.
  rewrite (latency_is_average demo_params ∅ (replicate 10 (12000000, mkValue "{}" 2000000)%Z)); [by vm_compute|by vm_compute|by vm_compute].
Defined.

Lemma event_client_ends_witness :
  let c := set_stopped (at_get GCheck (start demo_params ∅)) in
  exists c', turns (fun s => s) 1 c c' /\ 1 <= 11 /\ (get c' = GEnd /\ stats c' = SEnd \/ exists c2, getStep (fun s => s) c' c2 \/ statsStep c' c2).
Proof.
  intros c. assert (turns (fun s => s) 1 c (set_stopped (at_get GEnd c))) as H by (eapply TurnsGet; [by apply Ends|apply TurnsHere]).
  exists (set_stopped (at_get GEnd c)). split; [exact H|]. by apply (event_client_ends (fun s => s) 1 c).
Defined.
