(* ===== verification/Operational.v ===== *)
(** Operational data (src/pkg/server/operational-handler, src/internal/firmware,
    src/internal/diskspace, and handleOperationalGet of src/gnmi_server/server.go): the space
    of file systems and the files of directories as gNMI paths.

    The host is a parameter: the file system statistics, the walk over a directory, the
    hashes.  [filepath.Match] is modelled on bytes. *)

From S2P Require Import Prelude GnmiTypes Filepath.
Import Filepath.
Open Scope go_scope.

Module Operational.

(** * Globs *)

Module Glob.

(** A range of a class, from and to. *)
Abbreviation Range := (Ascii.ascii * Ascii.ascii)%type (only parsing).

Inductive Token := Star | AnyChar | OneOf (negated : bool) (ranges : list Range) | Literal (c : Ascii.ascii).

Definition isChar (n : nat) (c : Ascii.ascii) : bool := Ascii.nat_of_ascii c =? n.

(** [getEsc]: a character of a class, which may be escaped; a class must go on after it. *)
Definition getEsc (s : string) : option (Ascii.ascii * string) :=
  match s with
  | String c s' =>
      if isChar 45 c || isChar 93 c then None
      else
        let r := if isChar 92 c then match s' with String c' s'' => Some (c', s'') | EmptyString => None end else Some (c, s') in
        match r with Some (_, EmptyString) => None | r => r end
  | EmptyString => None
  end.

(** The ranges of a class up to its bracket; [n] bounds the characters left. *)
Fixpoint classRanges (n : nat) (acc : list Range) (s : string) : option (list Range * string) :=
  match n with
  | 0 => None
  | S n =>
      match s with
      | String c s' =>
          if isChar 93 c && (0 <? length acc) then Some (acc, s')
          else
            match getEsc s with
            | None => None
            | Some (lo, s1) =>
                match s1 with
                | String d s2 =>
                    if isChar 45 d then match getEsc s2 with None => None | Some (hi, s3) => classRanges n (acc ++ [(lo, hi)]) s3 end
                    else classRanges n (acc ++ [(lo, lo)]) s1
                | EmptyString => None
                end
            end
      | EmptyString => None
      end
  end.

(** The tokens of a pattern; [None]: ErrBadPattern. *)
Fixpoint tokens (n : nat) (s : string) : option (list Token) :=
  match n with
  | 0 => None
  | S n =>
      match s with
      | EmptyString => Some []
      | String c s' =>
          if isChar 42 c then cons Star <$> tokens n s'
          else if isChar 63 c then cons AnyChar <$> tokens n s'
          else if isChar 92 c then match s' with String c' s'' => cons (Literal c') <$> tokens n s'' | EmptyString => None end
          else if isChar 91 c then
            let '(neg, body) := match s' with String d s'' => if isChar 94 d then (true, s'') else (false, s') | EmptyString => (false, s') end in
            match classRanges (S (String.length body)) [] body with
            | None => None
            | Some (rs, rest) => cons (OneOf neg rs) <$> tokens n rest
            end
          else cons (Literal c) <$> tokens n s'
      end
  end.

Definition inRange (c : Ascii.ascii) (r : Range) : bool :=
  (Ascii.nat_of_ascii r.1 <=? Ascii.nat_of_ascii c) && (Ascii.nat_of_ascii c <=? Ascii.nat_of_ascii r.2).

Definition accepts (t : Token) (c : Ascii.ascii) : bool :=
  match t with
  | Star => false
  | AnyChar => negb (Ascii.eqb c sep)
  | OneOf neg rs => xorb neg (existsb (inRange c) rs)
  | Literal d => Ascii.eqb c d
  end.

(** Whether the tokens match the whole name. *)
Fixpoint matchTokens (ts : list Token) : string -> bool :=
  match ts with
  | [] => fun s => String.eqb s ""
  | Star :: ts =>
      fix go (s : string) : bool :=
        matchTokens ts s || match s with EmptyString => false | String c s' => negb (Ascii.eqb c sep) && go s' end
  | t :: ts => fun s => match s with EmptyString => false | String c s' => accepts t c && matchTokens ts s' end
  end.

(** [filepath.Match] *)
Definition Match (pattern name : string) : option bool :=
  ts ← tokens (S (String.length pattern)) pattern; Some (matchTokens ts name).

End Glob.

(** [filepath.Base] and [filepath.Ext] *)
Fixpoint trimSlashes (n : nat) (s : string) : string :=
  match n with 0 => s | S n => if has_suffix s "/" then trimSlashes n (trim_suffix s "/") else s end.
Definition Base (p : string) : string :=
  if String.eqb p "" then "."
  else
    let p := trimSlashes (String.length p) p in
    let p := match last_index p sep with Some i => strdrop (S i) p | None => p end in
    if String.eqb p "" then "/" else p.
Definition Ext (p : string) : string :=
  let name := match last_index p sep with Some i => strdrop (S i) p | None => p end in
  match last_index name (Ascii.ascii_of_nat 46) with Some i => strdrop i name | None => "" end.

(** * Firmware files *)

Module Firmware.

(** [FileInfo]; times and permissions as they are printed. *)
Record FileInfo := mkFile {
  Name : string; Size : Z; ModTime : string; IsDirectory : bool; Permissions : string; Type_ : string; MD5Sum : string
}.

Definition has (s sub : string) : bool := str_contains s sub.

Definition determineFirmwareType (filename : string) (isDir : bool) : string :=
  if isDir then "directory"
  else
    let lowername := to_lower filename in
    let ext := to_lower (Ext filename) in
    if negb (String.eqb ext ".bin") && negb (String.eqb ext ".img") then "other"
    else if String.eqb ext ".img" && has lowername "sonic" then "other"
    else if has lowername "bootloader" || has lowername "boot" then "bootloader"
    else if has lowername "bios" || has lowername "uefi" then "bios"
    else if has lowername "microcode" || has lowername "ucode" then "microcode"
    else if has lowername "asic" || has lowername "fpga" then "asic"
    else if has lowername "phy" || has lowername "serdes" then "phy"
    else if has lowername "driver" then "driver"
    else "firmware".

Definition IsFirmwareFile (filename : string) : bool :=
  let ext := to_lower (Ext filename) in
  let lowername := to_lower filename in
  if existsb (String.eqb ext) [".bin"; ".img"] then negb (String.eqb ext ".img" && has lowername "sonic") else false.

Definition resolveFilesystemPath (fsPath rootFS : string) : string :=
  if String.eqb rootFS "" || String.eqb rootFS "/" then fsPath
  else if has_prefix fsPath rootFS then fsPath
  else if has_prefix fsPath "/" then Join [rootFS; fsPath]
  else fsPath.

(** What the walk over a directory finds: the name relative to it, and the information about
    the file, [None] when it cannot be had. *)
Record Found := mkFound { relPath : string; info : option (Z * string * bool * string) }.

(** The host: [None] when the directory does not exist or cannot be accessed; the entries
    below it in the order of the walk; hashes of files. *)
Record Host := mkHost { walk : string -> option (list Found); md5 : string -> option string }.

Definition fileOf (h : Host) (root : string) (f : Found) : option FileInfo :=
  match info f with
  | None => None
  | Some (size, mtime, isDir, perm) =>
      Some (mkFile (relPath f) size mtime isDir perm (determineFirmwareType (relPath f) isDir)
        (if isDir then "" else default "" (md5 h (Join [root; relPath f]))))
  end.

Definition ListFiles (h : Host) (directory rootFS : string) : option (list FileInfo) :=
  let resolved := resolveFilesystemPath directory rootFS in
  match walk h resolved with Some l => Some (omap (fileOf h resolved) l) | None => None end.

Definition GetFileCount (h : Host) (directory rootFS : string) : option nat := l ← ListFiles h directory rootFS; Some (length l).
Definition GetFileInfo (h : Host) (directory filename rootFS : string) : res bool FileInfo :=
  match ListFiles h directory rootFS with
  | None => Err false
  | Some l => match List.find (fun f => String.eqb (Name f) filename) l with Some f => Ok f | None => Err true end
  end.
Definition GetFilesByType (h : Host) (directory rootFS fileType : string) : option (list FileInfo) :=
  l ← ListFiles h directory rootFS; Some (List.filter (fun f => String.eqb (Type_ f) fileType || String.eqb fileType "all") l).

End Firmware.

(** * Disk space *)

Module DiskSpace.

(** [syscall.Statfs_t] and [Info] *)
Record Statfs := mkStatfs { Bsize : Z; Blocks : Z; Bavail : Z }.
Record Info := mkInfo { Path_ : string; TotalMB : Z; AvailableMB : Z }.

Definition u64 (z : Z) : Z := (z mod 2 ^ 64)%Z.

Definition hostPath (hasMount : bool) (path : string) : string :=
  let cleanPath := Clean path in
  if negb (has_prefix cleanPath "/mnt/host") && hasMount then "/mnt/host" +:+ cleanPath else cleanPath.

(** [statfs]: the answer of the host; [hasMount]: /mnt/host exists. *)
Definition Get (statfs : string -> option Statfs) (hasMount : bool) (path : string) : option Info :=
  if String.eqb path "" then None
  else
    st ← statfs (hostPath hasMount path);
    let mb blocks := (u64 (blocks * Bsize st) / (1024 * 1024))%Z in
    Some (mkInfo path (mb (Blocks st)) (mb (Bavail st))).

Definition IsValidPath (statfs : string -> option Statfs) (hasMount : bool) (path : string) : bool :=
  if String.eqb path "" then false else match statfs (hostPath hasMount path) with Some _ => true | None => false end.

(** The results, and whether there were errors. *)
Definition GetMultiple (statfs : string -> option Statfs) (hasMount : bool) (paths : list string) : list Info * bool :=
  (omap (Get statfs hasMount) paths, existsb (fun p => match Get statfs hasMount p with Some _ => false | None => true end) paths).

(** The used space that [FormatInfo] prints. *)
Definition usedMB (i : Info) : Z := u64 (TotalMB i - AvailableMB i).

End DiskSpace.

(** * The handlers *)

(** What is marshalled. *)
Inductive Answer :=
| Space (i : DiskSpace.Info)
| Count (n : nat)
| Listing (path pattern : string) (files : list Firmware.FileInfo)
| Types (path pattern : string) (groups : gmap string (list Firmware.FileInfo))
| OneFile (path : string) (file : Firmware.FileInfo).

Inductive HandlerKind := DiskSpaceHandler | FirmwareHandler.

#[global] Instance HandlerKind_eq_dec : EqDecision HandlerKind.
Proof. solve_decision. Defined.

Definition SupportedPaths (k : HandlerKind) : list string :=
  match k with DiskSpaceHandler => ["filesystem/disk-space"] | FirmwareHandler => ["filesystem/files"] end.

(** [extractFilesystemPath]: the first path key of a filesystem element. *)
Fixpoint extractFilesystemPath (elems : list PathElem) : option string :=
  match elems with
  | [] => None
  | e :: elems =>
      if String.eqb (elem_name e) "filesystem" then
        match elem_key e !! "path" with
        | Some v => if String.eqb v "" then None else Some v
        | None => extractFilesystemPath elems
        end
      else extractFilesystemPath elems
  end.

(** One element of [extractFilePathInfo], with the elements after it. *)
Definition filePathElem (e : PathElem) (after : list PathElem) (acc : string * string * string) : option (string * string * string) :=
  let '(fsPath, pattern, field) := acc in
  fsPath ← (if String.eqb (elem_name e) "filesystem" then
              match elem_key e !! "path" with Some v => if String.eqb v "" then None else Some v | None => None end
            else Some fsPath);
  if String.eqb (elem_name e) "files" then
    Some (fsPath, default pattern (elem_key e !! "pattern"), match after with n :: _ => elem_name n | [] => field end)
  else Some (fsPath, pattern, field).
Fixpoint filePathElems (elems : list PathElem) (acc : string * string * string) : option (string * string * string) :=
  match elems with
  | [] => Some acc
  | e :: elems => acc ← filePathElem e elems acc; filePathElems elems acc
  end.
Definition extractFilePathInfo (elems : list PathElem) : option (string * string * string) :=
  match elems with
  | [] => None
  | _ => r ← filePathElems elems ("", "*", "list"); if String.eqb r.1.1 "" then None else Some r
  end.

Fixpoint filterLoop (all : list Firmware.FileInfo) (pattern : string) (files filtered : list Firmware.FileInfo) : list Firmware.FileInfo :=
  match files with
  | [] => filtered
  | f :: files =>
      match Glob.Match pattern (Base (Firmware.Name f)) with
      | None => all
      | Some matched => filterLoop all pattern files (if matched then filtered ++ [f] else filtered)
      end
  end.
Definition filterFilesByPattern (files : list Firmware.FileInfo) (pattern : string) : list Firmware.FileInfo :=
  if String.eqb pattern "*" || String.eqb pattern "" then files else filterLoop files pattern files [].

Definition addType (m : gmap string (list Firmware.FileInfo)) (f : Firmware.FileInfo) : gmap string (list Firmware.FileInfo) :=
  if Firmware.IsDirectory f then m else <[Firmware.Type_ f := default [] (m !! Firmware.Type_ f) ++ [f]]> m.

(** The host, and the JSON printer, which can fail. *)
Record Env := mkEnv {
  host : Firmware.Host;
  statfs : string -> option DiskSpace.Statfs;
  hasMount : bool;
  marshal : Answer -> option string
}.

Section Handlers.
Context `{!MapRange}.
Variable env : Env.

Definition filesAnswer (elems : list PathElem) : option Answer :=
  r ← extractFilePathInfo elems;
  let '(fsPath, pattern, field) := r in
  if String.eqb field "count" then
    l ← Firmware.ListFiles (host env) fsPath ""; Some (Count (length (filterFilesByPattern l pattern)))
  else if String.eqb field "list" then
    l ← Firmware.ListFiles (host env) fsPath ""; Some (Listing fsPath pattern (filterFilesByPattern l pattern))
  else if String.eqb field "types" then
    l ← Firmware.ListFiles (host env) fsPath ""; Some (Types fsPath pattern (fold_left addType (filterFilesByPattern l pattern) ∅))
  else if String.eqb field "" then None
  else match Firmware.GetFileInfo (host env) fsPath field "" with Ok f => Some (OneFile fsPath f) | Err _ => None end.

Definition spaceAnswer (elems : list PathElem) : option Answer :=
  p ← extractFilesystemPath elems; i ← DiskSpace.Get (statfs env) (hasMount env) p; Some (Space i).

Definition HandleGet (k : HandlerKind) (elems : list PathElem) : option string :=
  a ← (match k with DiskSpaceHandler => spaceAnswer elems | FirmwareHandler => filesAnswer elems end); marshal env a.

(** ** The operational handler *)

Definition keysToString (m : gmap string string) : string :=
  match range_of m with
  | [] => ""
  | l => "[" +:+ str_join (map (fun kv => kv.1 +:+ "=" +:+ kv.2) l) "," +:+ "]"
  end.
Definition pathToString (elems : list PathElem) : string :=
  str_join (map (fun e => elem_name e +:+ keysToString (elem_key e)) elems) "/".

Definition pathMatches (requested supported : string) : bool :=
  if String.eqb supported "filesystem/disk-space" then String.eqb requested "filesystem/disk-space" || has_suffix requested "/disk-space"
  else if String.eqb supported "filesystem/files" then
    String.eqb requested "filesystem/files" || (str_contains requested "filesystem" && str_contains requested "/files")
  else if String.eqb supported "firmware/files" then
    String.eqb requested "firmware/files" || (str_contains requested "firmware" && str_contains requested "/files")
  else String.eqb requested supported.

Definition needsFileHandler (pathStr : string) : bool :=
  str_contains pathStr "/firmware/" || str_contains pathStr "/firmware[" || has_suffix pathStr "/firmware" ||
  str_contains pathStr "/files/" || str_contains pathStr "/files[" || has_suffix pathStr "/files".

Definition pathHandlers (paths : list (list PathElem)) : gmap string HandlerKind :=
  let reg k m := fold_left (fun m p => <[p := k]> m) (SupportedPaths k) m in
  let m := reg DiskSpaceHandler ∅ in
  if existsb (fun p => needsFileHandler (pathToString p)) paths then reg FirmwareHandler m else m.

(** The handler of a path: the exact one, or the first that matches. *)
Definition findHandler (m : gmap string HandlerKind) (pathStr : string) : option HandlerKind :=
  match m !! pathStr with
  | Some k => Some k
  | None => snd <$> List.find (fun pk => pathMatches pathStr pk.1) (range_of m)
  end.
Definition isPathSupported (m : gmap string HandlerKind) (pathStr : string) : bool :=
  match m !! pathStr with Some _ => true | None => existsb (fun pk => pathMatches pathStr pk.1) (range_of m) end.

Inductive OpErr := Unimplemented_ | NotFound_.

Record OperationalHandler := mkHandler { paths : list (list PathElem); handlers : gmap string HandlerKind }.

Definition NewOperationalHandler (ps : list (list PathElem)) : res OpErr OperationalHandler :=
  let m := pathHandlers ps in
  if forallb (fun p => isPathSupported m (pathToString p)) ps then Ok (mkHandler ps m) else Err Unimplemented_.

(** The handlers of all paths are found before the first one is asked. *)
Definition Get (h : OperationalHandler) : res OpErr (list (list PathElem * string)) :=
  try pairs := mapM_res (fun p => match findHandler (handlers h) (pathToString p) with None => Err Unimplemented_ | Some k => Ok (p, k) end) (paths h) in
  mapM_res (fun pk => match HandleGet pk.2 pk.1 with None => Err NotFound_ | Some d => Ok (pk.1, d) end) pairs.

(** [handleOperationalGet]; [auth] is the error of the authentication as a reader of gNOI. *)
Inductive GetErr := AuthFailed | GetNotFound | GetFailed (e : OpErr).
Definition handleOperationalGet (auth : bool) (ps : list (list PathElem)) : res GetErr (list (list PathElem * string)) :=
  if negb auth then Err AuthFailed
  else match NewOperationalHandler ps with
       | Err _ => Err GetNotFound
       | Ok h => match Get h with Err e => Err (GetFailed e) | Ok vs => Ok vs end
       end.

End Handlers.

End Operational.

(** Proofs about operational data (Operational): globs, listings, the choice of handlers, the
    space of file systems, and findings. *)

Import Filepath Operational.

(** * Globs *)

Module GlobSpec.
Import Glob.

(** What a pattern means: a star stands for any characters but the separator, another token for
    one character that it accepts. *)
Inductive matches : list Token -> string -> Prop :=
| MNil : matches [] ""
| MStar ts s1 s2 : str_free sep s1 -> matches ts s2 -> matches (Star :: ts) (s1 +:+ s2)
| MOne t ts c s : t <> Star -> accepts t c = true -> matches ts s -> matches (t :: ts) (String c s).

Lemma matches_star_inv ts s : matches (Star :: ts) s -> exists s1 s2, s = s1 +:+ s2 /\ str_free sep s1 /\ matches ts s2.
Proof. intros H. remember (Star :: ts) as l eqn:E. destruct H as [|ts' s1 s2 Hf Hm|t ts' c s Ht _ _]; simplify_eq. by exists s1, s2. Qed.
Lemma matches_one_inv t ts s : t <> Star -> matches (t :: ts) s -> exists c s', s = String c s' /\ accepts t c = true /\ matches ts s'.
Proof. intros Hne H. remember (t :: ts) as l eqn:E. destruct H as [|ts' s1 s2 Hf Hm|t' ts' c s Ht Ha Hm]; simplify_eq. by exists c, s. Qed.

Lemma star_decides ts s : (forall s, matchTokens ts s = true <-> matches ts s) -> matchTokens (Star :: ts) s = true <-> matches (Star :: ts) s.
Proof.
  intros IH. induction s as [|c s IHs].
  - cbn. rewrite orb_false_r, IH. split; [by apply (MStar ts "" "")|]. intros (s1 & s2 & Hs & _ & Hm)%matches_star_inv. by destruct s1, s2.
  - change (matchTokens (Star :: ts) (String c s)) with (matchTokens ts (String c s) || negb (Ascii.eqb c sep) && matchTokens (Star :: ts) s).
    rewrite orb_true_iff, andb_true_iff, IH, IHs. split.
    + intros [H|[Hc (s1 & s2 & -> & Hf & Hm)%matches_star_inv]]; [by apply (MStar ts "" (String c s))|].
      apply (MStar ts (String c s1) s2); [|done]. split; [|done]. destruct (Ascii.eqb_spec c sep); [done|congruence].
    + intros (s1 & s2 & Hs & Hf & Hm)%matches_star_inv. destruct s1 as [|c1 s1].
      { left. rewrite Hs. exact Hm. }
      rewrite str_app_cons in Hs. injection Hs as -> ->. right.
      destruct Hf as [Hc Hf]. split; [|by apply MStar]. destruct (Ascii.eqb_spec c1 sep); [congruence|done].
Qed.

Lemma one_decides t ts s : t <> Star -> (forall s, matchTokens ts s = true <-> matches ts s) ->
  (match s with EmptyString => false | String c s' => accepts t c && matchTokens ts s' end) = true <-> matches (t :: ts) s.
Proof.
  intros Ht IH. split.
  - destruct s as [|c s]; [done|]. intros [Ha Hm]%andb_true_iff. apply MOne; [done|done|by apply IH].
  - intros (c & s' & -> & Ha & Hm)%matches_one_inv; [|done]. apply andb_true_iff. split; [done|by apply IH].
Qed.

Lemma matchTokens_decides ts : forall s, matchTokens ts s = true <-> matches ts s.
Proof.
  induction ts as [|t ts IH]; intros s.
  - cbn. split; [intros ->%String.eqb_eq; constructor|by inversion 1].
  - destruct t; [by apply star_decides|by apply one_decides..].
Qed.

Lemma matches_star s : str_free sep s -> matches [Star] s.
Proof. intros H. rewrite <- (str_app_nil_r s). apply MStar; [done|constructor]. Qed.

End GlobSpec.
Import GlobSpec.

(** * Listings *)

(** The files that a request for a pattern means: all of them when the pattern is empty or not
    well formed. *)
Definition wanted (pattern : string) (f : Firmware.FileInfo) : bool :=
  match Glob.tokens (S (String.length pattern)) pattern with
  | None => true
  | Some ts => String.eqb pattern "" || Glob.matchTokens ts (Base (Firmware.Name f))
  end.

Lemma filterLoop_bad all pattern files filtered :
  Glob.tokens (S (String.length pattern)) pattern = None -> files <> [] -> filterLoop all pattern files filtered = all.
Proof. intros H Hf. destruct files as [|f files]; [done|]. cbn [filterLoop]. unfold Glob.Match. by rewrite H. Qed.

Lemma filterLoop_good all pattern ts files : forall filtered,
  Glob.tokens (S (String.length pattern)) pattern = Some ts ->
  filterLoop all pattern files filtered = filtered ++ List.filter (fun f => Glob.matchTokens ts (Base (Firmware.Name f))) files.
Proof.
  intros filtered H. revert filtered. induction files as [|f files IH]; intros filtered; cbn [filterLoop List.filter]; [by rewrite app_nil_r|].
  unfold Glob.Match. rewrite H. cbn [mbind option_bind]. rewrite IH. destruct (Glob.matchTokens ts _); [by rewrite <- app_assoc|done].
Qed.

Lemma list_filter_all {A} (f : A -> bool) l : (forall a, a ∈ l -> f a = true) -> List.filter f l = l.
Proof. induction l as [|a l IH]; intros H; [done|]. cbn. rewrite (H a) by (by left). f_equal. apply IH. intros b Hb. apply H. by right. Qed.

(** The names of files are not of slashes only. *)
Definition named (f : Firmware.FileInfo) : Prop := str_free sep (Base (Firmware.Name f)).

Lemma filter_wanted files pattern : Forall named files -> filterFilesByPattern files pattern = List.filter (wanted pattern) files.
Proof.
  intros Hn. unfold filterFilesByPattern. destruct (String.eqb_spec pattern "*") as [->|Hs]; cbn [orb].
  - symmetry. apply list_filter_all. intros f Hf. unfold wanted. cbn -[Base Glob.matchTokens]. apply matchTokens_decides, matches_star. rewrite Forall_forall in Hn. by apply Hn.
  - destruct (String.eqb_spec pattern "") as [->|He]; cbn [orb].
    + symmetry. apply list_filter_all. by intros f Hf.
    + unfold wanted. destruct (Glob.tokens (S (String.length pattern)) pattern) as [ts|] eqn:Et.
      * rewrite (filterLoop_good files pattern ts) by done. cbn [app]. f_equal. apply String.eqb_neq in He. by rewrite He.
      * rewrite (list_filter_all (fun _ => true)) by done. destruct files; [done|by apply filterLoop_bad].
Qed.

(** The group of a type. *)
Lemma addType_groups files : forall m t,
  default [] (fold_left addType files m !! t) =
  default [] (m !! t) ++ List.filter (fun f => negb (Firmware.IsDirectory f) && String.eqb (Firmware.Type_ f) t) files.
Proof.
  induction files as [|f files IH]; intros m t; cbn [fold_left List.filter]; [by rewrite app_nil_r|]. rewrite IH. unfold addType.
  destruct (Firmware.IsDirectory f); cbn [negb andb]; [done|]. destruct (String.eqb_spec (Firmware.Type_ f) t) as [<-|Hne].
  - rewrite lookup_insert_eq. cbn. by rewrite <- app_assoc.
  - by rewrite lookup_insert_ne.
Qed.

(** A request for files is answered with exactly the files of the directory whose base name
    matches the pattern, in the order of the walk: the count is their number, the groups by
    type are the files of each type that are not directories; a name is answered with the
    first file of that name. *)
Theorem listing_exact env fsPath pattern field l elems :
  extractFilePathInfo elems = Some (fsPath, pattern, field) -> Firmware.ListFiles (host env) fsPath "" = Some l -> Forall named l ->
  let files := List.filter (wanted pattern) l in
  (field = "count" -> filesAnswer env elems = Some (Count (length files))) /\
  (field = "list" -> filesAnswer env elems = Some (Listing fsPath pattern files)) /\
  (field = "types" -> exists groups, filesAnswer env elems = Some (Types fsPath pattern groups) /\
     forall t, default [] (groups !! t) = List.filter (fun f => negb (Firmware.IsDirectory f) && String.eqb (Firmware.Type_ f) t) files) /\
  (field <> "count" -> field <> "list" -> field <> "types" -> field <> "" ->
     filesAnswer env elems = OneFile fsPath <$> List.find (fun f => String.eqb (Firmware.Name f) field) l).
Proof.
  intros He Hl Hn files. unfold filesAnswer. rewrite He. cbn [mbind option_bind]. rewrite Hl. cbn [mbind option_bind]. rewrite (filter_wanted l pattern Hn). fold files. split_and!.
  - by intros ->.
  - by intros ->.
  - intros ->. cbn. eexists. split; [done|]. intros t. rewrite addType_groups. by rewrite lookup_empty.
  - intros H1 H2 H3 H4. apply String.eqb_neq in H1, H2, H3, H4. rewrite H1, H2, H3, H4. unfold Firmware.GetFileInfo. rewrite Hl.
    by destruct (List.find _ l).
Qed.

(** A file counts as firmware exactly when it has a type of its own. *)
Theorem firmware_types_agree filename :
  Firmware.IsFirmwareFile filename = negb (String.eqb (Firmware.determineFirmwareType filename false) "other").
Proof.
  unfold Firmware.IsFirmwareFile, Firmware.determineFirmwareType. cbn [existsb]. rewrite orb_false_r.
  destruct (String.eqb _ ".bin"), (String.eqb _ ".img"), (Firmware.has _ "sonic"); cbn [negb andb orb]; try done; repeat case_match; done.
Qed.

(** * The choice of handlers *)

Section Choice.
Context {mr : MapRange}.
Variable env : Env.

Lemma find_exists {A} (f : A -> bool) l : existsb f l = true <-> is_Some (List.find f l).
Proof.
  split.
  - intros (a & Ha & Hf)%existsb_exists. destruct (List.find f l) eqn:E; [by eexists|]. by rewrite (find_none f l E a Ha) in Hf.
  - intros [a [Ha Hf]%find_some]. apply existsb_exists. by exists a.
Qed.

Lemma supported_found m p : isPathSupported m p = true <-> is_Some (findHandler m p).
Proof.
  unfold isPathSupported, findHandler. destruct (m !! p); [split; [by eexists|done]|]. rewrite find_exists, fmap_is_Some. done.
Qed.

(** The handler of a path is registered under a path that it matches. *)
Lemma findHandler_matches m p k :
  findHandler m p = Some k -> exists s, m !! s = Some k /\ (s = p \/ pathMatches p s = true).
Proof.
  unfold findHandler. destruct (m !! p) as [k'|] eqn:E; [intros [= ->]; exists p; auto|].
  intros ([s k'] & [Hin Hm]%find_some & ->)%fmap_Some. exists s. apply list_elem_of_In, elem_of_range in Hin. auto.
Qed.

(** A request for operational data that is authenticated and whose paths are all supported
    is answered path by path in order, each by a handler that is registered for a path it
    matches, or refused because one of these handlers has no data; it is never refused for
    want of a handler after it was accepted. *)
Theorem operational_answers ps :
  (NewOperationalHandler ps = Err Unimplemented_ /\ handleOperationalGet env true ps = Err GetNotFound /\
   exists p, p ∈ ps /\ isPathSupported (pathHandlers ps) (pathToString p) = false) \/
  (forall p, p ∈ ps -> isPathSupported (pathHandlers ps) (pathToString p) = true) /\
  (handleOperationalGet env true ps = Err (GetFailed NotFound_) \/
   exists ks ds, handleOperationalGet env true ps = Ok (zip ps ds) /\ length ds = length ps /\
     Forall2 (fun p k => findHandler (pathHandlers ps) (pathToString p) = Some k) ps ks /\ Forall2 (fun pk d => HandleGet env pk.2 pk.1 = Some d) (zip ps ks) ds).
Proof.
  unfold handleOperationalGet, NewOperationalHandler. cbn [negb]. destruct (forallb _ ps) eqn:Ef; [right|left].
  - rewrite forallb_forall in Ef. split; [intros p Hp; apply Ef; by apply list_elem_of_In|].
    unfold Get. cbn [handlers paths]. set (m := pathHandlers ps) in *. clearbody m.
    assert (exists ks, Forall2 (fun p k => findHandler m (pathToString p) = Some k) ps ks) as [ks Hks].
    { clear -Ef. induction ps as [|p ps IH]; [by exists []|]. destruct IH as [ks Hks]; [intros x Hx; apply Ef; by right|].
      destruct (proj1 (supported_found m (pathToString p)) (Ef p (or_introl eq_refl))) as [k Hk]. exists (k :: ks). by constructor. }
    assert (mapM_res (fun p => match findHandler m (pathToString p) with None => Err Unimplemented_ | Some k => Ok (p, k) end) ps = Ok (zip ps ks)) as ->.
    { clear -Hks. induction Hks as [|p k ps ks Hk _ IH]; [done|]. cbn [mapM_res zip zip_with]. rewrite Hk. by rewrite IH. }
    assert (length ks = length ps) as Hlk by (symmetry; by eapply Forall2_length).
    destruct (mapM_res _ (zip ps ks)) as [vs|e] eqn:Em.
    + right. apply mapM_res_Ok in Em. exists ks, vs.*2.
      assert (Forall2 (fun pk v => v.1 = pk.1 /\ HandleGet env pk.2 pk.1 = Some v.2) (zip ps ks) vs) as Hv.
      { eapply Forall2_impl; [exact Em|]. intros [p k] [p' d] H. cbn [fst snd] in *. destruct (HandleGet env k p); simplify_eq. done. }
      assert (vs.*1 = ps) as H1.
      { transitivity (zip ps ks).*1; [|apply fst_zip; lia]. clear -Hv. induction Hv as [|? ? ? ? [? _] _ IH]; [done|]. cbn. by f_equal. }
      assert (length vs = length ps) as Hlen by (rewrite <- H1; by rewrite length_fmap).
      split_and!; [f_equal; rewrite <- H1 at 1; clear; induction vs as [|[] vs IH]; [done|]; cbn; by f_equal|by rewrite length_fmap|done|].
      clear -Hv. induction Hv as [|? ? ? ? [_ ?] _ IH]; [constructor|]. cbn. by constructor.
    + left. apply mapM_res_Err in Em as ([p k] & _ & He). cbn [fst snd] in He. destruct (HandleGet env k p); [done|]. by injection He as <-.
  - split; [done|]. split; [done|]. apply not_true_iff_false in Ef. rewrite forallb_forall in Ef.
    destruct (List.find (fun p => negb (isPathSupported (pathHandlers ps) (pathToString p))) ps) as [p|] eqn:Ed.
    + apply find_some in Ed as [Hp Hn]. exists p. split; [by apply list_elem_of_In|by apply negb_true_iff].
    + exfalso. apply Ef. intros p Hp. apply negb_false_iff. exact (find_none _ _ Ed p Hp).
Qed.

End Choice.

(** * Disk space *)

(** The sizes are those of the file system in mebibytes, rounded down, as long as the bytes
    fit into 64 bits; then the space that is available is not more than the whole. *)
Theorem disk_space_exact statfs hasMount path st :
  path <> "" -> statfs (DiskSpace.hostPath hasMount path) = Some st ->
  (0 <= DiskSpace.Bsize st)%Z -> (0 <= DiskSpace.Bavail st <= DiskSpace.Blocks st)%Z -> (DiskSpace.Blocks st * DiskSpace.Bsize st < 2 ^ 64)%Z ->
  exists i, DiskSpace.Get statfs hasMount path = Some i /\ DiskSpace.Path_ i = path /\
    (DiskSpace.TotalMB i * 2 ^ 20 <= DiskSpace.Blocks st * DiskSpace.Bsize st < (DiskSpace.TotalMB i + 1) * 2 ^ 20)%Z /\
    (DiskSpace.AvailableMB i * 2 ^ 20 <= DiskSpace.Bavail st * DiskSpace.Bsize st < (DiskSpace.AvailableMB i + 1) * 2 ^ 20)%Z /\
    (0 <= DiskSpace.usedMB i <= DiskSpace.TotalMB i)%Z.
Proof.
  intros Hp Hst Hb Ha Hf. unfold DiskSpace.Get. apply String.eqb_neq in Hp. rewrite Hp, Hst. cbn [mbind option_bind]. eexists. split; [done|]. cbn [DiskSpace.Path_ DiskSpace.TotalMB DiskSpace.AvailableMB].
  assert (0 <= DiskSpace.Bavail st * DiskSpace.Bsize st <= DiskSpace.Blocks st * DiskSpace.Bsize st)%Z as Hle by nia.
  unfold DiskSpace.u64. rewrite !Z.mod_small by nia. split; [done|]. change (1024 * 1024)%Z with (2 ^ 20)%Z.
  pose proof (Z.div_mod (DiskSpace.Blocks st * DiskSpace.Bsize st) (2 ^ 20)). pose proof (Z.mod_pos_bound (DiskSpace.Blocks st * DiskSpace.Bsize st) (2 ^ 20)).
  pose proof (Z.div_mod (DiskSpace.Bavail st * DiskSpace.Bsize st) (2 ^ 20)). pose proof (Z.mod_pos_bound (DiskSpace.Bavail st * DiskSpace.Bsize st) (2 ^ 20)).
  split; [lia|]. split; [lia|]. unfold DiskSpace.usedMB, DiskSpace.u64. cbn [DiskSpace.TotalMB DiskSpace.AvailableMB].
  assert (DiskSpace.Bavail st * DiskSpace.Bsize st / 2 ^ 20 <= DiskSpace.Blocks st * DiskSpace.Bsize st / 2 ^ 20)%Z by (apply Z.div_le_mono; lia).
  assert (DiskSpace.Blocks st * DiskSpace.Bsize st / 2 ^ 20 < 2 ^ 64)%Z by (apply Z.div_lt_upper_bound; lia).
  rewrite Z.mod_small; [|split; [lia|]]; pose proof (Z.div_pos (DiskSpace.Bavail st * DiskSpace.Bsize st) (2 ^ 20)); lia.
Qed.

(** * Findings *)

Definition demo_space_of_files : list PathElem := [mkElem "filesystem" {["path" := "/x/files"]}; ename "disk-space"].
Definition demo_files : list PathElem := [mkElem "filesystem" {["path" := "/tmp"]}; mkElem "files" {["pattern" := "*.bin"]}; ename "list"].

(** A path can match the paths of both handlers; which of them answers depends on the order in
    which the map of the handlers is gone through, so that a request for the space of a
    directory can be answered with its files. *)
Theorem handler_depends_on_order :
  let ps := [demo_space_of_files; demo_files] in
  exists mr1 mr2 : MapRange,
    @findHandler mr1 (@pathHandlers mr1 ps) (@pathToString mr1 demo_space_of_files) = Some DiskSpaceHandler /\
    @findHandler mr2 (@pathHandlers mr2 ps) (@pathToString mr2 demo_space_of_files) = Some FirmwareHandler.
Proof. first [by exists map_range_default, map_range_rev|by exists map_range_rev, map_range_default]. Qed.

(** Every path that ends in disk-space is accepted. *)
Theorem any_disk_space_accepted : is_ok (NewOperationalHandler [[ename "interfaces"; ename "disk-space"]]) = true.
Proof. by vm_compute. Qed.

(** Paths that begin with the letters of the mount point are not translated. *)
Theorem mount_prefix_without_slash : DiskSpace.hostPath true "/mnt/hostile" = "/mnt/hostile".
Proof. by vm_compute. Qed.

(** A file whose name is one of the fields cannot be asked for. *)
Theorem reserved_name_hidden env a :
  filesAnswer env [mkElem "filesystem" {["path" := "/tmp"]}; ename "files"; ename "count"] = Some a -> exists n, a = Count n.
Proof.
  unfold filesAnswer. assert (extractFilePathInfo [mkElem "filesystem" {["path" := "/tmp"]}; ename "files"; ename "count"] = Some ("/tmp", "*", "count")) as -> by (by vm_compute).
  cbn. destruct (Firmware.ListFiles _ _ _); [|done]. intros [= <-]. by eexists.
Qed.

(** * Instances *)

Definition demo_host : Firmware.Host :=
  Firmware.mkHost (fun d => if String.eqb d "/tmp" then Some [Firmware.mkFound "a.bin" (Some (10%Z, "", false, "-rw")); Firmware.mkFound "b.txt" (Some (5%Z, "", false, "-rw"))] else None)
    (fun _ => None).
Definition demo_env : Env := mkEnv demo_host (fun _ => Some (DiskSpace.mkStatfs 4096 1000 500)) true (fun _ => Some "{}").

Lemma listing_exact_witness :
  exists l, Firmware.ListFiles demo_host "/tmp" "" = Some l /\
    filesAnswer demo_env demo_files = Some (Listing "/tmp" "*.bin" (List.filter (wanted "*.bin") l)) /\ length (List.filter (wanted "*.bin") l) = 1.
Proof.
  eexists. split; [vm_compute; reflexivity|].
  match goal with |- filesAnswer _ _ = Some (Listing _ _ (List.filter _ ?l)) /\ _ =>
    split; [apply (listing_exact demo_env "/tmp" "*.bin" "list" l demo_files); [by vm_compute|by vm_compute|by vm_compute; repeat constructor|reflexivity]|by vm_compute] end.
Defined.

Lemma disk_space_exact_witness :
  exists i, DiskSpace.Get (fun _ => Some (DiskSpace.mkStatfs 4096 1000 500)) true "/host" = Some i /\ (0 <= DiskSpace.usedMB i <= DiskSpace.TotalMB i)%Z.
Proof.
  destruct (disk_space_exact (fun _ => Some (DiskSpace.mkStatfs 4096 1000 500)) true "/host" (DiskSpace.mkStatfs 4096 1000 500)) as (i & H & _ & _ & _ & Hu);
    [done|done|cbn; lia|cbn; lia|cbn; lia|]. by exists i.
Defined.
