(* ===== verification/Telemetry.v ===== *)
(** The main program (src/telemetry/telemetry.go) with the construction of the server
    (NewServer, Serve, Stop of src/gnmi_server/server.go): the command line, the listeners, and
    the life of the server beside the monitors of its certificates and the signal handler.

    The life of the server is a step relation.  The control channel is a queue whose first
    value is in the buffer and whose other values are those of senders that wait, in their
    order; a sender goes on when its value is in the buffer or was received.  Certificate files
    have a version and are valid or not; files, watchers, listeners and the interceptor chain
    succeed or fail as the environment decides. *)

From S2P Require Import Prelude GnmiTypes Filepath Auth.
Import Filepath.
Open Scope go_scope.

Module Telemetry.

(** * The command line *)

Definition glogFlags : list string :=
  ["-alsologtostderr"; "-log_backtrace_at"; "-log_dir"; "-log_link"; "-logbuflevel"; "-logtostderr"; "-stderrthreshold"; "-v"; "-vmodule"].

(** [parseOSArgs]: the arguments for glog and for the program. *)
Definition parseArg (acc : list string * list string) (arg : string) : list string * list string :=
  if has_prefix arg "-v" then (acc.1 ++ [arg], acc.2 ++ [arg])
  else if bool_decide (arg ∈ glogFlags) then (acc.1 ++ [arg], acc.2)
  else (acc.1, acc.2 ++ [arg]).
Definition parseOSArgs (program : string) (args : list string) : list string * list string :=
  fold_left parseArg args ([program], [program]).

(** The values of the flags that [setupFlags] looks at. *)
Record Flags := mkFlags {
  fUserAuth : gmap string bool; clientAuthPassed : bool;
  Port : Z; UnixSocket : string; LogLevel : Z; Threshold : Z; IdleConnDuration : Z;
  ServerCert : string; ServerKey : string; CaCert : string;
  CaCertLnk : string; ServerCertLnk : string; ServerKeyLnk : string; CertzMetaFile : string;
  Insecure : bool; NoTLS : bool; AllowNoClientCert : bool; TranslibWrite : bool; AuthPolicyEnabled : bool;
  JwtRefInt : Z; JwtValInt : Z; ZmqAddress : string; ZmqPort : string
}.

(** What [setupFlags] makes of them, with the two package variables it sets and the modes of
    authentication; values that are handed on unchanged and not looked at are left out. *)
Record Config := mkConfig {
  cPort : Z; cUnixSocket : string; cLogLevel : Z; cThreshold : Z; cIdleConnDuration : Z;
  cCaCertFile : string; cSrvCertFile : string; cSrvKeyFile : string;
  cCaCertLnk : string; cSrvCertLnk : string; cSrvKeyLnk : string; cCertzMetaFile : string;
  cZmqPort : string; cAuthzPolicy : bool; tUserAuth : gmap string bool; hasGetOptions : bool;
  JwtRefreshInt : Z; JwtValidInt : Z
}.

Inductive SetupErr := BadPort | BadThreshold | BadIdle | NoServerCert | NoServerKey.

Definition u64 (z : Z) : Z := (z mod 2 ^ 64)%Z.
Definition int64 (z : Z) : Z := ((z + 2 ^ 63) mod 2 ^ 64 - 2 ^ 63)%Z.
Definition second : Z := 1000000000.

Definition defUserAuth (write : bool) : gmap string bool :=
  if write then list_to_map [("password", true); ("cert", false); ("jwt", true)]
  else list_to_map [("password", false); ("cert", false); ("jwt", false)].

(** A link that has its default value is moved beside the file. *)
Definition linkBeside (file link def name : string) : string :=
  if negb (String.eqb file "") && String.eqb link def then Join [Dir file; name] else link.

(** The port of an address like tcp://127.0.0.1:1234; [None]: the index is out of range. *)
Definition zmqPortOf (f : Flags) : option string :=
  if String.eqb (ZmqPort f) "" then
    if String.eqb (ZmqAddress f) "" then Some "" else str_split (ZmqAddress f) ":" !! 2
  else Some (ZmqPort f).

(** [setupFlags]; [None]: a panic. *)
Definition setupFlags (f : Flags) : option (res SetupErr Config) :=
  let userAuth := if clientAuthPassed f then fUserAuth f else defUserAuth (TranslibWrite f) in
  if (Port f <=? 0)%Z && String.eqb (UnixSocket f) "" then Some (Err BadPort)
  else if (Threshold f <? 0)%Z then Some (Err BadThreshold)
  else if (IdleConnDuration f <? 0)%Z then Some (Err BadIdle)
  else
    let logLevel := if (LogLevel f <? 0)%Z then 2%Z else LogLevel f in
    let secure := negb (NoTLS f) && negb (Insecure f) in
    if secure && String.eqb (ServerCert f) "" then Some (Err NoServerCert)
    else if secure && String.eqb (ServerKey f) "" then Some (Err NoServerKey)
    else
      zmq ← zmqPortOf f;
      let userAuth := if String.eqb (CaCert f) "" && Auth.Enabled userAuth "cert" then (Auth.Unset userAuth "cert").2 else userAuth in
      Some (Ok (mkConfig (Port f) (UnixSocket f) logLevel (Threshold f) (IdleConnDuration f)
        (CaCert f) (ServerCert f) (ServerKey f)
        (linkBeside (CaCert f) (CaCertLnk f) "/keys/ca_cert.lnk" "ca_cert.lnk")
        (linkBeside (ServerCert f) (ServerCertLnk f) "/keys/server_cert.lnk" "server_cert.lnk")
        (linkBeside (ServerKey f) (ServerKeyLnk f) "/keys/server_key.lnk" "server_key.lnk")
        (if String.eqb (CertzMetaFile f) "" then "/keys/grpc-version.json" else CertzMetaFile f)
        zmq (AuthPolicyEnabled f && negb (Insecure f)) userAuth (negb (Insecure f))
        (int64 (u64 (JwtRefInt f * second))) (int64 (u64 (JwtValInt f * second))))).

(** * What a turn of [startGNMIServer] takes from the configuration *)

(** The modes of authentication of the server: they are handed over with TLS only. *)
Definition serverUserAuth (f : Flags) (c : Config) : gmap string bool :=
  if NoTLS f then ∅
  else if String.eqb (CaCert f) "" && Auth.Enabled (tUserAuth c) "cert" then (Auth.Unset (tUserAuth c) "cert").2
  else tUserAuth c.

(** Connections that are idle are closed after this time, in nanoseconds; [None]: never. *)
Definition maxConnectionIdle (f : Flags) : option Z :=
  if negb (NoTLS f) && (0 <? IdleConnDuration f)%Z then Some (int64 (IdleConnDuration f * second)) else None.

(** The two values of crypto/tls for client certificates that the program uses, and what a
    handshake does with the certificate of the client: whether the connection is accepted and
    whether there is a verified chain. *)
Inductive ClientAuthType := RequestClientCert | RequireAndVerifyClientCert.
Inductive Handshake := Refused | Accepted (verified : bool).

Definition ClientAuth (f : Flags) : ClientAuthType :=
  if AllowNoClientCert f then RequestClientCert else RequireAndVerifyClientCert.

Definition handshake {Cert : Type} (verify : Cert -> bool) (t : ClientAuthType) (cert : option Cert) : Handshake :=
  match t, cert with
  | RequireAndVerifyClientCert, None => Refused
  | RequireAndVerifyClientCert, Some c => if verify c then Accepted true else Refused
  | RequestClientCert, _ => Accepted false
  end.

(** * The listeners *)

(** What the environment does while a server is made: the policy watcher, the two listeners
    with the steps of the socket, the journal (if it is on). *)
Record Outcome := mkOutcome {
  policyOk : bool; tcpOk : bool; mkdirOk : bool; udsOk : bool; chmodOk : bool; journalOn : bool; journalOk : bool
}.

(** A server, by what it holds: a TCP listener with or without TLS, a socket, a journal. *)
Record Server := mkServer { lis : bool; uds : bool; journal : bool }.

(** What is open in the process. *)
Record Open := mkOpen { oTcp : nat; oUds : nat; oJournals : nat; oPolicy : nat }.

Inductive NewServerErr := PolicyFailed | NoListener | JournalFailed.

Definition openTcp (o : Open) : Open := mkOpen (S (oTcp o)) (oUds o) (oJournals o) (oPolicy o).
Definition openUds (o : Open) : Open := mkOpen (oTcp o) (S (oUds o)) (oJournals o) (oPolicy o).
Definition openJournal (o : Open) : Open := mkOpen (oTcp o) (oUds o) (S (oJournals o)) (oPolicy o).
Definition openPolicy (o : Open) : Open := mkOpen (oTcp o) (oUds o) (oJournals o) (S (oPolicy o)).

Definition NewServer (c : Config) (e : Outcome) (o : Open) : res NewServerErr Server * Open :=
  if cAuthzPolicy c && negb (policyOk e) then (Err PolicyFailed, o)
  else
    let o := if cAuthzPolicy c then openPolicy o else o in
    let tcp := (0 <? cPort c)%Z && tcpOk e in
    let o := if tcp then openTcp o else o in
    let sock := negb (String.eqb (cUnixSocket c) "") && mkdirOk e && udsOk e && chmodOk e in
    let o := if sock then openUds o else o in
    if negb tcp && negb sock then (Err NoListener, o)
    else if journalOn e then
      if journalOk e then (Ok (mkServer tcp sock true), openJournal o) else (Err JournalFailed, o)
    else (Ok (mkServer tcp sock false), o).

(** [ForceStop] and [Stop] close the listeners. *)
Definition stopServer (s : Server) (o : Open) : Open :=
  mkOpen (if lis s then pred (oTcp o) else oTcp o) (if uds s then pred (oUds o) else oUds o) (oJournals o) (oPolicy o).

(** The services of a listener. *)
Definition registerAllServices (translibWrite nativeWrite : bool) : list string :=
  ["gnmi"; "factory_reset"; "certz"; "authz"; "pathz"; "credentialz"; "jwt"] ++
  (if translibWrite || nativeWrite then ["system"; "file"; "os"; "containerz"; "debug"; "healthz"] else []) ++
  ["oras"] ++ (if translibWrite then ["sonic"] else []) ++ ["sonic_debug"].

(** * The life of the server *)

Module Life.

Inductive Control := ServerStop | ServerStart | ServerRestart.

Inductive Sender := ByMonitor (i : nat) | ByHandler.

(** A change of a certificate file as the watcher reports it: written (also created or moved
    in), or removed (also renamed); with the version of the files after it. *)
Inductive Kind := Written | Removed.
Record Event := mkEvent { kind : Kind; version : nat }.

(** A monitor: the variable it shares with its turn of the loop, where it is, and the events it
    has not seen.  It adds the watch; watches; waits until its last value is taken; waits
    until a restart is taken, after which it may go on; is finished. *)
Inductive MonPC := MAdding | MWatching | MSendingLast | MSendingRestart | MEnd.
Record Monitor := mkMon { mvar : nat; mpc : MonPC; pend : list Event }.

(** Where [startGNMIServer] is; in [LStopping] it is in [GracefulStop], which waits for the
    RPCs in progress. *)
Inductive LoopPC := LTop | LLoadPair | LWaitPair | LLoadCA | LWaitCA | LLoaded | LChain | LServer | LServing | LStopping | LEnd | LDone.

Inductive HandlerPC := HWaiting | HSending | HDone.

Record Sys := mkSys {
  loop : LoopPC;
  cur : option nat;
  vars : list bool;
  mons : list Monitor;
  queue : list (Sender * Control);
  handler : HandlerPC;
  stopSignal : bool;
  chain : bool;
  pairOk : bool;
  caOk : bool;
  fileVer : nat;
  loadedVer : nat;
  lastGood : bool;
  covered : bool;
  rpcs : nat
}.

Definition goto (l : LoopPC) (s : Sys) : Sys :=
  mkSys l (cur s) (vars s) (mons s) (queue s) (handler s) (stopSignal s) (chain s) (pairOk s) (caOk s) (fileVer s) (loadedVer s) (lastGood s) (covered s) (rpcs s).
Definition setQueue (q : list (Sender * Control)) (s : Sys) : Sys :=
  mkSys (loop s) (cur s) (vars s) (mons s) q (handler s) (stopSignal s) (chain s) (pairOk s) (caOk s) (fileVer s) (loadedVer s) (lastGood s) (covered s) (rpcs s).
Definition setMons (l : list Monitor) (s : Sys) : Sys :=
  mkSys (loop s) (cur s) (vars s) l (queue s) (handler s) (stopSignal s) (chain s) (pairOk s) (caOk s) (fileVer s) (loadedVer s) (lastGood s) (covered s) (rpcs s).
Definition setChain (b : bool) (s : Sys) : Sys :=
  mkSys (loop s) (cur s) (vars s) (mons s) (queue s) (handler s) (stopSignal s) b (pairOk s) (caOk s) (fileVer s) (loadedVer s) (lastGood s) (covered s) (rpcs s).
Definition setHandler (h : HandlerPC) (s : Sys) : Sys :=
  mkSys (loop s) (cur s) (vars s) (mons s) (queue s) h (stopSignal s) (chain s) (pairOk s) (caOk s) (fileVer s) (loadedVer s) (lastGood s) (covered s) (rpcs s).
(** The RPCs in progress. *)
Definition setRpcs (n : nat) (s : Sys) : Sys :=
  mkSys (loop s) (cur s) (vars s) (mons s) (queue s) (handler s) (stopSignal s) (chain s) (pairOk s) (caOk s) (fileVer s) (loadedVer s) (lastGood s) (covered s) n.
Definition signalStop (s : Sys) : Sys :=
  mkSys (loop s) (cur s) (vars s) (mons s) (queue s) (handler s) true (chain s) (pairOk s) (caOk s) (fileVer s) (loadedVer s) (lastGood s) (covered s) (rpcs s).
(** A new turn: its chain is closed, it has a new variable and perhaps a monitor. *)
Definition newTurn (c : option nat) (ms : list Monitor) (s : Sys) : Sys :=
  mkSys (loop s) c (vars s ++ [false]) ms (queue s) (handler s) (stopSignal s) false (pairOk s) (caOk s) (fileVer s) (loadedVer s) (lastGood s) (covered s) (rpcs s).
(** The key pair was loaded; whether the watch was there by then. *)
Definition pairLoaded (s : Sys) : Sys :=
  mkSys (loop s) (cur s) (vars s) (mons s) (queue s) (handler s) (stopSignal s) (chain s) (pairOk s) (caOk s) (fileVer s) (fileVer s) (lastGood s)
    (match cur s with Some i => match mons s !! i with Some m => match mpc m with MAdding => false | _ => true end | None => false end | None => false end) (rpcs s).
Definition setLoaded (s : Sys) : Sys :=
  mkSys (loop s) (cur s) (<[pred (length (vars s)) := true]> (vars s)) (mons s) (queue s) (handler s) (stopSignal s) (chain s) (pairOk s) (caOk s) (fileVer s) (loadedVer s) (lastGood s) (covered s) (rpcs s).
(** A change of the files, which every watch reports. *)
Definition notify (e : Event) (m : Monitor) : Monitor :=
  match mpc m with MAdding | MEnd => m | _ => mkMon (mvar m) (mpc m) (pend m ++ [e]) end.
Definition changed (k : Kind) (pair ca : bool) (s : Sys) : Sys :=
  mkSys (loop s) (cur s) (vars s) (map (notify (mkEvent k (S (fileVer s)))) (mons s)) (queue s) (handler s) (stopSignal s) (chain s) pair ca
    (S (fileVer s)) (loadedVer s) (match k with Written => pair | Removed => false end) (covered s) (rpcs s).

Definition send (x : Sender) (v : Control) (s : Sys) : Sys := setQueue (queue s ++ [(x, v)]) s.
Definition waits (x : Sender) (s : Sys) : Prop := exists v, (x, v) ∈ tail (queue s).

Section Steps.
Variables (noTLS insecure caSet : bool).

(** A step of [startGNMIServer]. *)
Inductive loopStep (s : Sys) : Sys -> Prop :=
| TopNoTLS : loop s = LTop -> noTLS = true -> loopStep s (goto LChain (newTurn None (mons s) s))
| TopInsecure : loop s = LTop -> noTLS = false -> insecure = true -> loopStep s (goto LLoadCA (newTurn None (mons s) s))
| TopInsecureFails : loop s = LTop -> noTLS = false -> insecure = true -> loopStep s (goto LEnd (newTurn None (mons s) s))
| TopWatch : loop s = LTop -> noTLS = false -> insecure = false ->
    loopStep s (goto LLoadPair (newTurn (Some (length (mons s))) (mons s ++ [mkMon (length (vars s)) MAdding []]) s))
| TopNoWatch : loop s = LTop -> noTLS = false -> insecure = false -> loopStep s (goto LLoadPair (newTurn None (mons s) s))
| PairOk : loop s = LLoadPair -> pairOk s = true -> loopStep s (goto LLoadCA (pairLoaded s))
| PairBad : loop s = LLoadPair -> pairOk s = false -> loopStep s (goto LWaitPair s)
| CaUnset : loop s = LLoadCA -> caSet = false -> loopStep s (goto LLoaded s)
| CaOk : loop s = LLoadCA -> caSet = true -> caOk s = true -> loopStep s (goto LLoaded s)
| CaBad : loop s = LLoadCA -> caSet = true -> caOk s = false -> loopStep s (goto LWaitCA s)
| WaitStop x q : loop s = LWaitPair \/ loop s = LWaitCA -> queue s = (x, ServerStop) :: q -> loopStep s (goto LEnd (setQueue q s))
| WaitStart x q : loop s = LWaitPair \/ loop s = LWaitCA -> queue s = (x, ServerStart) :: q -> loopStep s (goto LTop (setQueue q s))
| WaitRestart x q : loop s = LWaitPair \/ loop s = LWaitCA -> queue s = (x, ServerRestart) :: q -> loopStep s (setQueue q s)
| Loaded : loop s = LLoaded -> loopStep s (goto LChain (setLoaded s))
| ChainOk : loop s = LChain -> loopStep s (goto LServer (setChain true s))
| ChainFails : loop s = LChain -> loopStep s (goto LEnd s)
| ServerOk : loop s = LServer -> loopStep s (goto LServing s)
| ServerFails : loop s = LServer -> loopStep s (goto LEnd s)
| Stopped x q : loop s = LServing -> queue s = (x, ServerStop) :: q -> loopStep s (goto LEnd (setRpcs 0 (signalStop (setQueue q s))))
| Again x v q : loop s = LServing -> queue s = (x, v) :: q -> v <> ServerStop -> loopStep s (goto LStopping (setQueue q s))
| Drained : loop s = LStopping -> rpcs s = 0 -> loopStep s (goto LTop s)
| Returns : loop s = LEnd -> loopStep s (goto LDone (setChain false s)).

(** The other steps: of a monitor, the handler, the files, the clients; a server that is
    stopping gracefully takes no new RPCs. *)
Inductive envStep (s : Sys) : Sys -> Prop :=
| Added i v l : mons s !! i = Some (mkMon v MAdding l) -> envStep s (setMons (<[i := mkMon v MWatching l]> (mons s)) s)
| AddFails i v l : mons s !! i = Some (mkMon v MAdding l) ->
    envStep s (send (ByMonitor i) ServerStop (setMons (<[i := mkMon v MSendingLast l]> (mons s)) s))
| SeesWritten i v n l : mons s !! i = Some (mkMon v MWatching (mkEvent Written n :: l)) -> pairOk s = true ->
    envStep s (send (ByMonitor i) ServerStart (setMons (<[i := mkMon v MSendingLast l]> (mons s)) s))
| SeesInvalid i v n l : mons s !! i = Some (mkMon v MWatching (mkEvent Written n :: l)) -> pairOk s = false ->
    envStep s (setMons (<[i := mkMon v MWatching l]> (mons s)) s)
| SeesRemoved i v n l : mons s !! i = Some (mkMon v MWatching (mkEvent Removed n :: l)) ->
    envStep s (send (ByMonitor i) ServerRestart (setMons (<[i := mkMon v MSendingRestart l]> (mons s)) s))
| WatchFails i v l : mons s !! i = Some (mkMon v MWatching l) ->
    envStep s (send (ByMonitor i) ServerStop (setMons (<[i := mkMon v MSendingLast l]> (mons s)) s))
| SentLast i v l : mons s !! i = Some (mkMon v MSendingLast l) -> ~ waits (ByMonitor i) s ->
    envStep s (setMons (<[i := mkMon v MEnd l]> (mons s)) s)
| SentRestart i v l : mons s !! i = Some (mkMon v MSendingRestart l) -> ~ waits (ByMonitor i) s ->
    envStep s (setMons (<[i := mkMon v (if default false (vars s !! v) then MEnd else MWatching) l]> (mons s)) s)
| Signal : handler s = HWaiting -> envStep s (send ByHandler ServerStop (setHandler HSending s))
| SignalSent : handler s = HSending -> ~ waits ByHandler s -> envStep s (setHandler HDone s)
| HandlerStopped : handler s = HWaiting -> stopSignal s = true -> envStep s (setHandler HDone s)
| FilesChange k pair ca : envStep s (changed k pair ca s)
| RpcStarts : loop s = LServing -> envStep s (setRpcs (S (rpcs s)) s)
| RpcEnds n : rpcs s = S n -> envStep s (setRpcs n s).

Definition step (s s' : Sys) : Prop := loopStep s s' \/ envStep s s'.

End Steps.

(** The program when it starts, with the files as they are. *)
Definition start (pair ca : bool) : Sys := mkSys LTop None [] [] [] HWaiting false false pair ca 0 0 false false 0.

End Life.

End Telemetry.
