(* ===== verification/TelemetryProofs.v ===== *)
(** Theorems about the main program: a change of the certificates is not missed, a stop is
    carried out, what the flags accept, which listeners stay open. *)

From S2P Require Import Prelude GnmiTypes Filepath Auth Telemetry.
Import Telemetry Life.
Open Scope go_scope.

Section Life.
Variables (noTLS insecure caSet : bool).
Abbreviation loopStep := (loopStep noTLS insecure caSet).
Abbreviation step := (step noTLS insecure caSet).

Definition Reachable (s : Sys) : Prop := exists pair ca, rtc step (start pair ca) s.

Lemma reachable_ind (I : Sys -> Prop) :
  (forall pair ca, I (start pair ca)) -> (forall s s', I s -> step s s' -> I s') -> forall s, Reachable s -> I s.
Proof.
  intros H0 Hs s (pair & ca & H). revert s H. apply (rtc_ind_r _ (start pair ca)); [apply H0|]. intros y z _ Hyz IH. by eapply Hs.
Qed.

(** ** The certificates *)






(** ** Steps of the loop *)











(** ** Other steps *)



















(** ** Stopping *)

(** The interceptor chain is open while the server is made and serves, closed at the end. *)
Definition ChainInv (s : Sys) : Prop :=
  match loop s with LServer | LServing => chain s = true | LDone => chain s = false | _ => True end.

Lemma chainInv_env s s' : envStep s s' -> loop s' = loop s /\ chain s' = chain s.
Proof. by destruct 1. Qed.

Lemma chainInv_reachable s : Reachable s -> ChainInv s.
Proof.
  apply reachable_ind; [done|]. intros y z HI [H|H].
  - destruct H; try exact I; try exact eq_refl; unfold ChainInv in *; cbn; try by rewrite H in HI.
    by destruct H as [H|H]; rewrite H in HI |- *.
  - destruct (chainInv_env _ _ H) as (Hl & Hc). unfold ChainInv in *. by rewrite Hl, Hc.
Qed.

(** Executions with the number of the steps of the loop in them. *)
Inductive loopRun : nat -> Sys -> Sys -> Prop :=
| RunHere s : loopRun 0 s s
| RunLoop n s s1 s2 : loopStep s s1 -> loopRun n s1 s2 -> loopRun (S n) s s2
| RunEnv n s s1 s2 : envStep s s1 -> loopRun n s1 s2 -> loopRun n s s2.

Definition rank (l : LoopPC) : nat :=
  match l with
  | LDone => 0 | LEnd => 1 | LWaitPair | LWaitCA | LServing => 2 | LServer => 3 | LChain => 4 | LLoaded => 5 | LLoadCA => 6 | LLoadPair => 7 | LTop => 8 | LStopping => 9
  end.

(** A stop is in the queue behind [k] values, or was carried out. *)
Definition StopWithin (k : nat) (s : Sys) : Prop :=
  (exists x, queue s !! k = Some (x, ServerStop)) \/ (k = 0 /\ (loop s = LEnd \/ loop s = LDone)).
Definition work (k : nat) (s : Sys) : nat := 8 * k + rank (loop s).

Lemma env_stop k s s' : StopWithin k s -> envStep s s' -> StopWithin k s' /\ loop s' = loop s.
Proof.
  intros Hk H. assert (loop s' = loop s) as Hl by by destruct H. split; [|done].
  assert (exists q, queue s' = queue s ++ q) as (q & Hq).
  { destruct H; cbn; eauto; exists []; by rewrite app_nil_r. }
  destruct Hk as [(x & Hx)|(Hk & Hd)]; [left; exists x; rewrite Hq; by apply lookup_app_l_Some|right; by rewrite Hl].
Qed.

Lemma loop_stop k s s' : StopWithin k s -> loopStep s s' -> exists k', StopWithin k' s' /\ work k' s' < work k s.
Proof.
  intros Hk H. unfold StopWithin, work in *. destruct Hk as [(x & Hx)|(-> & Hd)].
  - destruct H; cbn [loop goto setQueue queue newTurn pairLoaded setLoaded setChain signalStop setRpcs rank] in *.
    all: try (exists k; rewrite ?H; cbn; split; [by eauto|lia]).
    + exists 0. split; [by auto|]. destruct H as [-> | ->]; cbn; lia.
    + destruct k as [|k]; rewrite H0 in Hx; [done|]. exists k. split; [by eauto|]. destruct H as [-> | ->]; cbn; lia.
    + destruct k as [|k]; rewrite H0 in Hx; [done|]. exists k. split; [by eauto|]. destruct H as [-> | ->]; cbn; lia.
    + exists 0. split; [by auto|]. rewrite H. cbn. lia.
    + destruct k as [|k]; rewrite H0 in Hx; [by destruct v|]. exists k. split; [by eauto|]. rewrite H. cbn. lia.
  - destruct H; destruct Hd as [Hd|Hd]; rewrite Hd in *; try discriminate; try (destruct H; discriminate). exists 0. cbn. split; [auto|lia].
Qed.

Lemma stop_enabled k s : StopWithin k s -> loop s = LDone \/ (exists s', loopStep s s') \/ (loop s = LStopping /\ 0 < rpcs s).
Proof.
  intros Hk. destruct (loop s) eqn:Hl.
  - right; left. destruct noTLS eqn:Ht, insecure eqn:Hi; eexists; eauto using TopNoTLS, TopInsecure, TopWatch.
  - right; left. destruct (pairOk s) eqn:Hp; eexists; eauto using PairOk, PairBad.
  - right; left. destruct Hk as [(x & Hx)|(_ & [?|?])]; [|congruence..]. destruct (queue s) as [|[y []] q] eqn:Hq; [done|..]; eexists; eauto using WaitStop, WaitStart, WaitRestart.
  - right; left. destruct caSet eqn:Hs, (caOk s) eqn:Hp; eexists; eauto using CaUnset, CaOk, CaBad.
  - right; left. destruct Hk as [(x & Hx)|(_ & [?|?])]; [|congruence..]. destruct (queue s) as [|[y []] q] eqn:Hq; [done|..]; eexists; eauto using WaitStop, WaitStart, WaitRestart.
  - right; left. eexists. by apply Loaded.
  - right; left. eexists. by apply ChainOk.
  - right; left. eexists. by apply ServerOk.
  - right; left. destruct Hk as [(x & Hx)|(_ & [?|?])]; [|congruence..]. destruct (queue s) as [|[y []] q] eqn:Hq; [done|eexists; by eapply Stopped|eexists; by eapply Again..].
  - right. destruct (rpcs s) as [|n] eqn:Hn; [left; eexists; by apply Drained|right; split; [done|lia]].
  - right; left. eexists. by apply Returns.
  - by left.
Qed.

Lemma loopRun_stop n s s' : loopRun n s s' -> forall k, StopWithin k s -> exists k', StopWithin k' s' /\ n + work k' s' <= work k s.
Proof.
  induction 1 as [s|n s s1 s2 H _ IH|n s s1 s2 H _ IH]; intros k Hk.
  - exists k. split; [done|lia].
  - destruct (loop_stop k s s1 Hk H) as (k1 & Hk1 & Hw). destruct (IH k1 Hk1) as (k2 & ? & ?). exists k2. split; [done|lia].
  - destruct (env_stop k s s1 Hk H) as (Hk1 & Hl). destruct (IH k Hk1) as (k2 & ? & Hw). exists k2. split; [done|]. unfold work in *. by rewrite <- Hl.
Qed.

Lemma loopRun_reachable n s s' : loopRun n s s' -> Reachable s -> Reachable s'.
Proof.
  induction 1 as [s|n s s1 s2 H _ IH|n s s1 s2 H _ IH]; [done|..]; intros (p & c & HR); apply IH; exists p, c; (eapply rtc_r; [exact HR|]); [by left|by right].
Qed.

(** C29. A stop is carried out once the RPCs in progress let it: when a stop is in the control
    channel behind [k] values, the loop takes at most 8k + 9 more steps whatever files,
    monitors, signals and clients do; as long as it has not ended it can take one, except
    while the graceful stop of an earlier value waits for RPCs that are in progress; and
    when it has ended the interceptor chain is closed. *)
Theorem stop_ends_server n k x s s' :
  Reachable s -> queue s !! k = Some (x, ServerStop) -> loopRun n s s' ->
  n <= 8 * k + 9 /\
  (loop s' = LDone /\ chain s' = false \/ (exists s'', loopStep s' s'') \/ (loop s' = LStopping /\ 0 < rpcs s')).
Proof.
  intros HR Hk Hrun. destruct (loopRun_stop n s s' Hrun k) as (k' & Hk' & Hw); [left; eauto|]. split.
  - unfold work in Hw. assert (rank (loop s) <= 9) by (destruct (loop s); cbn; lia). lia.
  - destruct (stop_enabled k' s' Hk') as [Hd|]; [left; split; [done|]|by right].
    pose proof (chainInv_reachable s' (loopRun_reachable _ _ _ Hrun HR)) as Hc. unfold ChainInv in Hc. by rewrite Hd in Hc.
Qed.

(** An RPC in progress keeps the loop in the graceful stop, whatever is in the channel. *)
Theorem open_rpc_blocks_loop s : loop s = LStopping -> 0 < rpcs s -> forall s', ~ loopStep s s'.
Proof.
  intros Hl Hr s' H. destruct H; try congruence; try (destruct H; congruence). lia.
Qed.

End Life.

(** * The command line *)

Definition toGlog (arg : string) : bool := has_prefix arg "-v" || bool_decide (arg ∈ glogFlags).
Definition toProgram (arg : string) : bool := has_prefix arg "-v" || negb (bool_decide (arg ∈ glogFlags)).

(** The arguments are distributed in their order. *)
Lemma parseArgs_filter args : forall acc,
  fold_left parseArg args acc = (acc.1 ++ List.filter toGlog args, acc.2 ++ List.filter toProgram args).
Proof.
  induction args as [|a args IH]; intros [g t]; [by rewrite !app_nil_r|]. cbn [fold_left List.filter]. rewrite IH. unfold parseArg, toGlog, toProgram.
  destruct (has_prefix a "-v"); cbn [orb fst snd]; [by rewrite <- !app_assoc|]. destruct (bool_decide (a ∈ glogFlags)); cbn [negb fst snd]; by rewrite <- ?app_assoc.
Qed.

Lemma unset_cert_disabled i : Auth.Enabled i "cert" = true -> Auth.Enabled (Auth.Unset i "cert").2 "cert" = false.
Proof.
  unfold Auth.Unset. change (str_split "cert" ",") with ["cert"]. cbn [Auth.unsetModes]. change (trim_blanks "cert") with "cert".
  unfold Auth.Enabled at 1. destruct (i !! "cert") as [b|] eqn:Hc; [|by case_match]. intros _. cbn. unfold Auth.Enabled. rewrite lookup_insert_eq. by case_match.
Qed.

(** What a configuration that was accepted guarantees. *)
Record ConfigOk (f : Flags) (c : Config) : Prop := {
  co_listener : (0 < cPort c)%Z \/ cUnixSocket c <> "";
  co_threshold : (0 <= cThreshold c)%Z;
  co_idle : (0 <= cIdleConnDuration c)%Z;
  co_log : (0 <= cLogLevel c)%Z;
  co_pair : NoTLS f = false -> Insecure f = false -> cSrvCertFile c <> "" /\ cSrvKeyFile c <> "";
  co_policy : cAuthzPolicy c = true -> Insecure f = false /\ AuthPolicyEnabled f = true;
  co_cert : Auth.Enabled (serverUserAuth f c) "cert" = true -> cCaCertFile c <> "" /\ NoTLS f = false
}.

Lemma server_cert_needs_ca f c :
  cCaCertFile c = CaCert f -> Auth.Enabled (serverUserAuth f c) "cert" = true -> cCaCertFile c <> "" /\ NoTLS f = false.
Proof.
  intros Hca. unfold serverUserAuth. destruct (NoTLS f); [by vm_compute|]. destruct (String.eqb_spec (CaCert f) "") as [Hs|]; cbn [andb].
  - destruct (Auth.Enabled (tUserAuth c) "cert") eqn:He; [|by rewrite He]. by rewrite unset_cert_disabled.
  - intros _. by rewrite Hca.
Qed.

(** The flags are accepted only with a listener, limits that are not negative, the files
    of a key pair unless TLS is off or for testing, an authorization policy only with real
    certificates, and authentication by certificate only with TLS and a CA; they are refused
    for exactly the reason that is reported first. *)
Theorem setup_flags_sound f r :
  setupFlags f = Some r ->
  match r with
  | Ok c => ConfigOk f c
  | Err BadPort => (Port f <= 0)%Z /\ UnixSocket f = ""
  | Err BadThreshold => (Threshold f < 0)%Z
  | Err BadIdle => (IdleConnDuration f < 0)%Z
  | Err NoServerCert => NoTLS f = false /\ Insecure f = false /\ ServerCert f = ""
  | Err NoServerKey => NoTLS f = false /\ Insecure f = false /\ ServerKey f = ""
  end.
Proof.
  unfold setupFlags. destruct (_ && _) eqn:Hp at 1; [intros [= <-]; apply andb_true_iff in Hp as [Ha%Z.leb_le Hb%String.eqb_eq]; done|].
  destruct (Threshold f <? 0)%Z eqn:Ht; [intros [= <-]; lia|]. destruct (IdleConnDuration f <? 0)%Z eqn:Hi; [intros [= <-]; lia|].
  destruct (NoTLS f) eqn:Hn, (Insecure f) eqn:Hs; cbn.
  all: try (destruct (String.eqb_spec (ServerCert f) "") as [Hc|Hc]; [by intros [= <-]|]; destruct (String.eqb_spec (ServerKey f) "") as [Hk|Hk]; [by intros [= <-]|]).
  all: destruct (zmqPortOf f); [|done]; intros [= <-]; split; cbn; try done; try lia.
  all: try (by apply server_cert_needs_ca).
  all: try (by rewrite andb_false_r); try (by rewrite andb_true_r).
  all: try (destruct (LogLevel f <? 0)%Z eqn:Hl; lia).
  all: try (intros; congruence).
  all: apply andb_false_iff in Hp as [Hp%Z.leb_gt|Hp%String.eqb_neq]; by auto.
Qed.

(** * The listeners *)

(** A server that was made has a listener, and stopping it closes the listeners that were
    opened for it. *)
Theorem listeners_balanced c e o s o' :
  NewServer c e o = (Ok s, o') ->
  lis s || uds s = true /\ oTcp (stopServer s o') = oTcp o /\ oUds (stopServer s o') = oUds o.
Proof.
  unfold NewServer, stopServer. set (tcp := (0 <? cPort c)%Z && tcpOk e). set (sock := _ && mkdirOk e && udsOk e && chmodOk e).
  destruct (cAuthzPolicy c), (policyOk e); cbn; try done; destruct tcp, sock; cbn; try done; destruct (journalOn e), (journalOk e); cbn; try done; by intros [= <- <-].
Qed.

(** A server whose journal cannot be opened is not returned, and its listeners stay open: the
    port and the socket are in use until the process ends. *)
Theorem journal_failure_keeps_listeners c e o :
  (0 < cPort c)%Z -> tcpOk e = true -> cAuthzPolicy c = false -> journalOn e = true -> journalOk e = false ->
  exists o', NewServer c e o = (Err JournalFailed, o') /\ oTcp o' = S (oTcp o).
Proof.
  intros Hp%Z.ltb_lt Ht Ha Hj Hk. unfold NewServer. rewrite Hp, Ht, Ha, Hj, Hk. cbn. eexists. split; [reflexivity|]. by destruct (_ && chmodOk e).
Qed.

(** [n] servers one after another, each stopped before the next one. *)
Fixpoint restarts (c : Config) (e : Outcome) (n : nat) (o : Open) : option Open :=
  match n with
  | 0 => Some o
  | S n => match NewServer c e o with (Ok s, o') => restarts c e n (stopServer s o') | (Err _, _) => None end
  end.

(** Every restart leaves a journal and a policy watcher behind. *)
Theorem restarts_leak c n : forall o,
  (0 < cPort c)%Z -> cUnixSocket c = "" -> cAuthzPolicy c = true ->
  restarts c (mkOutcome true true true true true true true) n o = Some (mkOpen (oTcp o) (oUds o) (n + oJournals o) (n + oPolicy o)).
Proof.
  induction n as [|n IH]; intros o Hp Hu Ha; [by destruct o|]. cbn [restarts]. unfold NewServer. rewrite Ha, Hu. apply Z.ltb_lt in Hp as Hp'. rewrite Hp'. cbn -[restarts].
  rewrite IH by done. unfold stopServer, openJournal, openTcp, openPolicy. cbn. do 2 f_equal; lia.
Qed.

(** * What shows in the program *)

(** Without TLS the modes of authentication that were asked for are not handed to the server. *)
Theorem no_tls_no_auth f c mode : NoTLS f = true -> Auth.Enabled (serverUserAuth f c) mode = false.
Proof. intros H. unfold serverUserAuth. rewrite H. unfold Auth.Enabled. rewrite lookup_empty. by case_match. Qed.

(** A certificate that a client sends although none is required is not verified: the connection
    is accepted whatever it is, without a verified chain. *)
Theorem optional_cert_unverified {Cert} (verify : Cert -> bool) f cert :
  AllowNoClientCert f = true -> handshake verify (ClientAuth f) cert = Accepted false.
Proof. unfold ClientAuth. by intros ->. Qed.

(** By default only verified certificates are accepted. *)
Lemma required_cert_verified {Cert} (verify : Cert -> bool) f cert b :
  AllowNoClientCert f = false -> handshake verify (ClientAuth f) cert = Accepted b -> b = true /\ exists c, cert = Some c /\ verify c = true.
Proof. unfold ClientAuth. intros ->. cbn. destruct cert as [c|]; [|done]. destruct (verify c) eqn:Hc; [|done]. intros [= <-]. eauto. Qed.

Definition demo_flags (zmq : string) : Flags :=
  mkFlags ∅ false 8080 "" 2 100 5 "/etc/c.cert" "/etc/c.key" "" "/keys/ca_cert.lnk" "/keys/server_cert.lnk" "/keys/server_key.lnk" "" false false false false false 900 3600 zmq "".

(** An address without a port stops the program. *)
Theorem zmq_address_panics : setupFlags (demo_flags "tcp://localhost") = None.
Proof. by vm_compute. Qed.

(** A validity of 300 years is one that ended before it began. *)
Theorem jwt_interval_overflows : (int64 (u64 (9223372037 * second)) < 0)%Z.
Proof. by vm_compute. Qed.

(** The VRF of the program is handed to glog, which has no such flag; a value that follows a
    flag of glog is handed to the program, where it is no flag and ends the flags; a flag of
    glog with a value in the same argument is not recognised. *)
Theorem glog_flags_mixed :
  parseOSArgs "telemetry" ["-vrf"; "mgmt"; "-log_dir"; "/tmp"; "-port"; "8080"; "-logtostderr=true"] =
  (["telemetry"; "-vrf"; "-log_dir"], ["telemetry"; "-vrf"; "mgmt"; "/tmp"; "-port"; "8080"; "-logtostderr=true"]).
Proof. by vm_compute. Qed.

(** ** Executions of the program *)

Tactic Notation "lp" uconstr(c) := eapply rtc_l; [left; eapply c; first [reflexivity|done]|cbn].
Tactic Notation "ev" uconstr(c) := eapply rtc_l; [right; eapply c; first [reflexivity|done|idtac]|cbn].

(** Certificates that change after they were loaded and before the watch is there are not
    loaded: the server serves with the old ones, and nothing is left that would restart it. *)
Theorem change_before_watch_missed :
  exists s, Reachable false false false s /\ loop s = LServing /\ lastGood s = true /\ loadedVer s < fileVer s /\ queue s = [] /\
    Forall (fun m => mpc m = MWatching /\ pend m = []) (mons s).
Proof.
  eexists. split.
  - exists true, true. lp TopWatch. lp PairOk. ev (FilesChange _ Written true true). ev (Added _ 0). lp CaUnset. lp Loaded. lp Life.ChainOk. lp ServerOk. apply rtc_refl.
  - cbn. split_and!; [done..|lia|done|by repeat constructor].
Qed.

(** A file that is removed before the turn has loaded its certificates leaves its monitor
    watching while the next turn starts another one: two monitors report each later change. *)
Theorem monitors_accumulate :
  exists s m0 m1, Reachable false false false s /\ mons s = [m0; m1] /\ mpc m0 = MWatching /\ mpc m1 = MWatching.
Proof.
  eexists _, _, _. split.
  - exists true, true. lp TopWatch. ev (Added _ 0). ev (FilesChange _ Removed false false). ev (SeesRemoved _ 0).
    eapply rtc_l; [right; eapply (SentRestart _ 0); [reflexivity|by intros (v & Hv%elem_of_nil)]|cbn].
    ev (FilesChange _ Written true true). lp PairOk. lp CaUnset. lp Loaded. lp Life.ChainOk. lp ServerOk. lp Again. lp Drained. lp TopWatch. ev (Added _ 1). apply rtc_refl.
  - by cbn.
Qed.

(** When the server cannot be made the process stays, without a server: its signal handler is
    not told. *)
Theorem process_without_server :
  exists s, Reachable false false false s /\ loop s = LDone /\ handler s = HWaiting /\ stopSignal s = false /\ queue s = [].
Proof.
  eexists. split.
  - exists true, true. lp TopWatch. lp PairOk. lp CaUnset. lp Loaded. lp Life.ChainOk. lp ServerFails. lp Returns. apply rtc_refl.
  - by cbn.
Qed.

(** With a test certificate and a CA file that cannot be read the program waits for a value
    that no monitor can send. *)
Theorem insecure_waits_for_nobody :
  exists s, Reachable false true true s /\ loop s = LWaitCA /\ mons s = [].
Proof.
  eexists. split.
  - exists true, false. lp TopInsecure. lp CaBad. apply rtc_refl.
  - by cbn.
Qed.

(** * Instances *)


(** A signal while an RPC keeps the server that is to restart. *)
Definition demo_serving (m : Monitor) (q : list (Sender * Control)) (h : HandlerPC) (l : LoopPC) : Sys :=
  mkSys l (Some 0) [true] [m] q h false true true true 1 0 true true 1.

(** The state of a run, evaluated. *)
Ltac evaluated := match goal with |- rtc _ ?a _ => let b := eval vm_compute in a in replace a with b by (vm_compute; reflexivity) end.

Lemma demo_stop_run :
  let s := demo_serving (mkMon 0 MSendingLast []) [(ByMonitor 0, ServerStart); (ByHandler, ServerStop)] HSending LServing in
  let s' := demo_serving (mkMon 0 MSendingLast []) [(ByHandler, ServerStop)] HSending LStopping in
  Reachable false false false s /\ loopRun false false false 1 s s'.
Proof.
  cbv zeta. split; [|eapply RunLoop; [by eapply Again|apply RunHere]]. exists true, true. unfold demo_serving.
  lp TopWatch; evaluated. ev (Added _ 0); evaluated. lp PairOk; evaluated. lp CaUnset; evaluated. lp Loaded; evaluated. lp Life.ChainOk; evaluated.
  lp ServerOk; evaluated. ev RpcStarts; evaluated. ev (FilesChange _ Written true true); evaluated. ev (SeesWritten _ 0); evaluated. ev Signal; evaluated.
  apply rtc_refl.
Qed.

Lemma stop_ends_server_witness :
  let s' := demo_serving (mkMon 0 MSendingLast []) [(ByHandler, ServerStop)] HSending LStopping in
  loop s' = LDone /\ chain s' = false \/ (exists s'', Life.loopStep false false false s' s'') \/ (loop s' = LStopping /\ 0 < rpcs s').
Proof.
  destruct demo_stop_run as [HR Hrun].
  exact (proj2 (stop_ends_server false false false 1 1 ByHandler _ _ HR eq_refl Hrun)).
Defined.

Lemma setup_flags_sound_witness :
  exists c, setupFlags (demo_flags "tcp://127.0.0.1:1234") = Some (Ok c) /\ cZmqPort c = "1234" /\ ConfigOk (demo_flags "tcp://127.0.0.1:1234") c.
Proof.
  eexists. split; [vm_compute; reflexivity|]. split; [reflexivity|].
  match goal with |- ConfigOk _ ?c => apply (setup_flags_sound (demo_flags "tcp://127.0.0.1:1234") (Ok c)); vm_compute; reflexivity end.
Defined.

Definition demo_config : Config := mkConfig 8080 "/var/run/gnmi.sock" 2 100 5 "" "c" "k" "" "" "" "" "" true ∅ true 0 0.

Lemma listeners_balanced_witness :
  exists s o', NewServer demo_config (mkOutcome true true true true false true true) (mkOpen 0 0 0 0) = (Ok s, o') /\
    o' = mkOpen 1 0 1 1 /\ oTcp (stopServer s o') = 0.
Proof.
  assert (NewServer demo_config (mkOutcome true true true true false true true) (mkOpen 0 0 0 0) = (Ok (mkServer true false true), mkOpen 1 0 1 1)) as H by reflexivity.
  eexists _, _. split; [exact H|]. split; [reflexivity|]. apply (listeners_balanced demo_config _ _ _ _ H).
Defined.
