(* ===== verification/NonDb.v ===== *)
(** The non-database client (src/sonic_data_client/non_db_client.go): the ring of CPU
    statistics, the functions that read data of the system, their trie, and Get, polling and
    sampling over them.

    Readings of /proc, the version file, YAML, JSON and the clock are parameters.  Paths and
    subscriptions are pointers: a map with such keys is gone through in any order. *)

From S2P Require Import Prelude GnmiTypes Trie DbClient.
Open Scope go_scope.

Module NonDb.

Definition u64 (z : Z) : Z := (z mod 2 ^ 64)%Z.

(** * The statistics of the processors *)

(** [linuxproc.CPUStat] and [linuxproc.Stat], with the counters that are used. *)
Record CPUStat := mkCpu { Id : string; User : Z; Nice : Z; System : Z; Idle : Z; IOWait : Z; IRQ : Z; SoftIRQ : Z; Steal : Z }.
Record Stat := mkStat { CPUStatAll : CPUStat; CPUStats : list CPUStat }.

Record statsRing := mkRing { writeIdx : Z; buff : list (option Stat) }.

Record cpuUtil := mkUtil { uId : string; CpuUtil_100ms : Z; CpuUtil_1s : Z; CpuUtil_5s : Z; CpuUtil_1min : Z; CpuUtil_5min : Z }.
Record cpuStat := mkCpuStat { CpuUsageAll : cpuUtil; CpuUsage : list cpuUtil }.

Definition statsRingCap : Z := 3000.

Definition newRing : statsRing := mkRing 0 (replicate (Z.to_nat statsRingCap) None).

Definition WriteStatsToBuffer (r : statsRing) (stat : Stat) : statsRing :=
  mkRing ((writeIdx r + 1) mod statsRingCap) (<[Z.to_nat (writeIdx r) := Some stat]> (buff r)).

(** The sum of the eight counters. *)
Definition ticks (c : CPUStat) : Z := User c + Nice c + System c + Idle c + IOWait c + IRQ c + SoftIRQ c + Steal c.

Definition getCpuUtilPercents (cur last : CPUStat) : Z :=
  let curTotal := u64 (ticks cur) in
  let lastTotal := u64 (ticks last) in
  let idleTicks := u64 (Idle cur - Idle last) in
  let totalTicks := u64 (curTotal - lastTotal) in
  if (totalTicks =? 0)%Z then 0%Z else (u64 (100 * u64 (totalTicks - idleTicks)) / totalTicks)%Z.

(** The slot [k] places before the one to write next. *)
Definition slot (r : statsRing) (k : Z) : nat := Z.to_nat (u64 (u64 (writeIdx r + statsRingCap) - k) mod statsRingCap).

(** The percentages of the single processors; the index into the current statistics can be
    out of range, which panics. *)
Fixpoint cpuPercents (cur last : list CPUStat) : option (list (string * Z)) :=
  match last, cur with
  | [], _ => Some []
  | l :: last, c :: cur => rest ← cpuPercents cur last; Some ((Id l, getCpuUtilPercents c l) :: rest)
  | _ :: _, [] => None
  end.

(** The entries are changed by index. *)
Fixpoint setUsage (set : Z -> cpuUtil -> cpuUtil) (ps : list (string * Z)) (us : list cpuUtil) : option (list cpuUtil) :=
  match ps, us with
  | [], us => Some us
  | p :: ps, u :: us => rest ← setUsage set ps us; Some (set p.2 u :: rest)
  | _ :: _, [] => None
  end.

Definition set_1s (p : Z) (u : cpuUtil) : cpuUtil := mkUtil (uId u) (CpuUtil_100ms u) p (CpuUtil_5s u) (CpuUtil_1min u) (CpuUtil_5min u).
Definition set_5s (p : Z) (u : cpuUtil) : cpuUtil := mkUtil (uId u) (CpuUtil_100ms u) (CpuUtil_1s u) p (CpuUtil_1min u) (CpuUtil_5min u).
Definition set_1min (p : Z) (u : cpuUtil) : cpuUtil := mkUtil (uId u) (CpuUtil_100ms u) (CpuUtil_1s u) (CpuUtil_5s u) p (CpuUtil_5min u).
Definition set_5min (p : Z) (u : cpuUtil) : cpuUtil := mkUtil (uId u) (CpuUtil_100ms u) (CpuUtil_1s u) (CpuUtil_5s u) (CpuUtil_1min u) p.

Definition noUtil : cpuUtil := mkUtil "" 0 0 0 0 0.
Definition noStat : cpuStat := mkCpuStat noUtil [].

(** One of the later windows: a slot that was not written ends the function. *)
Definition window (r : statsRing) (cur : Stat) (k : Z) (set : Z -> cpuUtil -> cpuUtil) (rest : cpuStat -> option cpuStat)
    (stat : cpuStat) : option cpuStat :=
  last ← buff r !! slot r k;
  match last with
  | None => Some stat
  | Some last =>
      ps ← cpuPercents (CPUStats cur) (CPUStats last);
      us ← setUsage set ps (CpuUsage stat);
      rest (mkCpuStat (set (getCpuUtilPercents (CPUStatAll cur) (CPUStatAll last)) (CpuUsageAll stat)) us)
  end.

(** [getCpuUtilStat]; [None]: a panic. *)
Definition getCpuUtilStat (r : statsRing) : option cpuStat :=
  last ← buff r !! slot r 2;
  match last with
  | None => Some noStat
  | Some last =>
      current ← buff r !! slot r 1;
      cur ← current;
      ps ← cpuPercents (CPUStats cur) (CPUStats last);
      let all := mkUtil (Id (CPUStatAll cur)) (getCpuUtilPercents (CPUStatAll cur) (CPUStatAll last)) 0 0 0 0 in
      let us := map (fun p => mkUtil p.1 p.2 0 0 0 0) ps in
      window r cur 10 set_1s (window r cur 50 set_5s (window r cur 600 set_1min (window r cur 30000 set_5min Some))) (mkCpuStat all us)
  end.

(** * The functions that read data *)

Inductive dataGetFunc := getCpuUtil | getSysUptime | getProcMeminfo | getProcDiskstats | getProcLoadavg | getProcVmstat | getProcStat | getBuildVersion.

Record SonicVersionInfo := mkVersion { BuildVersion : string; Error : string }.

(** The files that the functions read from /proc. *)
Definition procPath (f : dataGetFunc) : string :=
  match f with
  | getSysUptime => "/proc/uptime" | getProcMeminfo => "/proc/meminfo" | getProcDiskstats => "/proc/diskstats"
  | getProcLoadavg => "/proc/loadavg" | getProcVmstat => "/proc/vmstat" | getProcStat => "/proc/stat" | _ => ""
  end.

Section Getters.
(** The data of a file of /proc ([None]: it could not be read), what its JSON is, YAML over a
    structure that has values already. *)
Context {Data : Type}.
Variable marshalData : option Data -> res string string.
Variable marshalCpu : cpuStat -> res string string.
Variable marshalVersion : SonicVersionInfo -> res string string.
Variable unmarshalVersion : string -> SonicVersionInfo -> SonicVersionInfo * option string.

(** The state of the package and what it reads; how often the version file was read. *)
Record World := mkWorld {
  statsR : statsRing; versionFileStash : option SonicVersionInfo; proc : string -> option Data; versionFile : res string string;
  clock : Z; versionReads : nat
}.

Definition withStash (v : option SonicVersionInfo) (n : nat) (w : World) : World := mkWorld (statsR w) v (proc w) (versionFile w) (clock w) n.

Definition InvalidateVersionFileStash (w : World) : World := withStash None (versionReads w) w.

Definition loadVersion (file : res string string) : SonicVersionInfo :=
  match file with
  | Err e => mkVersion "sonic.NA" e
  | Ok content =>
      match unmarshalVersion content (mkVersion "sonic.NA" "") with
      | (v, Some e) => mkVersion (BuildVersion v) e
      | (v, None) => if String.eqb (BuildVersion v) "sonic.NA" then v else mkVersion ("SONiC." +:+ BuildVersion v) (Error v)
      end
  end.

(** [getBuildVersion]: the file is read once. *)
Definition buildVersion (w : World) : res string string * World :=
  match versionFileStash w with
  | Some v => (marshalVersion v, w)
  | None => let v := loadVersion (versionFile w) in (marshalVersion v, withStash (Some v) (S (versionReads w)) w)
  end.

(** A call of a function; [None]: a panic. *)
Definition callGetter (f : dataGetFunc) (w : World) : option (res string string * World) :=
  match f with
  | getCpuUtil => stat ← getCpuUtilStat (statsR w); Some (marshalCpu stat, w)
  | getBuildVersion => Some (buildVersion w)
  | f => Some (marshalData (proc w (procPath f)), w)
  end.

(** * The trie of paths *)

Definition path2DataFuncTbl : list (list string * dataGetFunc) :=
  [(["OTHERS"; "platform"; "cpu"], getCpuUtil); (["OTHERS"; "proc"; "uptime"], getSysUptime); (["OTHERS"; "proc"; "meminfo"], getProcMeminfo);
   (["OTHERS"; "proc"; "diskstats"], getProcDiskstats); (["OTHERS"; "proc"; "loadavg"], getProcLoadavg); (["OTHERS"; "proc"; "vmstat"], getProcVmstat);
   (["OTHERS"; "proc"; "stat"], getProcStat); (["OTHERS"; "osversion"; "build"], getBuildVersion)].

Definition clientTriePopulate (t : @Trie.Trie dataGetFunc) : @Trie.Trie dataGetFunc :=
  fold_left (fun t pt => (Trie.Add t pt.1 pt.2).1) path2DataFuncTbl t.

Definition clientTrie : @Trie.Trie dataGetFunc := clientTriePopulate Trie.NewTrie.

Definition fullNames (prefix : option Path) (path : Path) : list string :=
  GetTarget prefix :: map elem_name (path_elem (DbClient.gnmiFullPath prefix path)).

(** [lookupGetFunc]; the type assertion on the metadata panics when there is none. *)
Definition lookupGetFunc `{!MapRange} (prefix : option Path) (path : Path) : option (option dataGetFunc) :=
  match Trie.Find clientTrie (fullNames prefix path) with
  | Some n => getter ← Trie.meta n; Some (Some getter)
  | None => Some None
  end.

(** * The client *)

(** A map with pointers as keys, gone through in any order. *)
Class PtrRange := {
  range_ptr : forall {V : Type}, gmap nat V -> list (nat * V);
  range_ptr_perm : forall {V : Type} (m : gmap nat V), range_ptr m ≡ₚ map_to_list m
}.

Record NonDbClient := mkClient { prefix : option Path; path2Getter : gmap nat (Path * dataGetFunc) }.

(** [NewNonDbClient] on the paths with their addresses. *)
Fixpoint addPaths `{!MapRange} (p : option Path) (paths : list (nat * Path)) (m : gmap nat (Path * dataGetFunc)) :
    option (option (gmap nat (Path * dataGetFunc))) :=
  match paths with
  | [] => Some (Some m)
  | (a, path) :: paths =>
      g ← lookupGetFunc p path;
      match g with None => Some None | Some getter => addPaths p paths (<[a := (path, getter)]> m) end
  end.

Definition NewNonDbClient `{!MapRange} (paths : list (nat * Path)) (p : option Path) : option (option NonDbClient) :=
  match addPaths p paths ∅ with
  | Some (Some m) => Some (Some (mkClient p m))
  | Some None => Some None
  | None => None
  end.

Abbreviation Value := DbClient.Value.

Definition dataValue (c : NonDbClient) (path : Path) (ts : Z) (v : string) : Value :=
  DbClient.mkValue (prefix c) (Some path) ts false "" (Some (JsonIetfVal v)) [] None.
Definition syncValue (ts : Z) : Value := DbClient.mkValue None None ts true "" None [] None.
Definition fatalValue (ts : Z) (msg : string) : Value := DbClient.mkValue None None ts false msg None [] None.

(** What was put into the queue of the RPC; it refuses values after it was closed. *)
Record Queue := mkQueue { items : list Value; disposed : bool }.
Definition Put (q : Queue) (v : Value) : Queue := if disposed q then q else mkQueue (items q ++ [v]) false.

(** The bytes of a function that failed are sent as they are: empty. *)
Definition bytesOf (r : res string string) : string := match r with Ok b => b | Err _ => "" end.

Definition runGetterAndSend (c : NonDbClient) (path : Path) (getter : dataGetFunc) (q : Queue) (w : World) : option (Queue * World) :=
  '(v, w) ← callGetter getter w;
  Some (Put q (dataValue c path (clock w) (bytesOf v)), w).

Fixpoint sendAll (c : NonDbClient) (gs : list (Path * dataGetFunc)) (q : Queue) (w : World) : option (Queue * World) :=
  match gs with
  | [] => Some (q, w)
  | (path, getter) :: gs => '(q, w) ← runGetterAndSend c path getter q w; sendAll c gs q w
  end.

Definition getters `{!PtrRange} (c : NonDbClient) : list (Path * dataGetFunc) := map snd (range_ptr (path2Getter c)).

(** One turn of [PollRun]. *)
Definition pollTurn `{!PtrRange} (c : NonDbClient) (q : Queue) (w : World) : option (Queue * World) :=
  '(q, w) ← sendAll c (getters c) q w; Some (Put q (syncValue (clock w)), w).

(** [PollRun] for as many polls as come before the channel is closed; each with what the
    world is by then. *)
Fixpoint PollRun `{!PtrRange} (c : NonDbClient) (polls : list (World -> World)) (q : Queue) (w : World) : option (Queue * World) :=
  match polls with
  | [] => Some (q, w)
  | poll :: polls => '(q, w) ← pollTurn c q (poll w); PollRun c polls q w
  end.

(** [Get]: the first function that fails ends it. *)
Fixpoint getLoop (c : NonDbClient) (ts : Z) (gs : list (Path * dataGetFunc)) (values : list Value) (w : World) : option (res string (list Value) * World) :=
  match gs with
  | [] => Some (Ok values, w)
  | (path, getter) :: gs =>
      '(v, w) ← callGetter getter w;
      match v with
      | Err e => Some (Err e, w)
      | Ok v => getLoop c ts gs (values ++ [dataValue c path ts v]) w
      end
  end.

Definition Get `{!PtrRange} (c : NonDbClient) (w : World) : option (res string (list Value) * World) :=
  getLoop c (clock w) (getters c) [] w.

(** * Sampling *)

Inductive SubscriptionMode := TARGET_DEFINED | ON_CHANGE | SAMPLE.

(** A subscription: its mode, its interval, the address of its path. *)
Record Subscription := mkSub { mode : SubscriptionMode; sampleInterval : Z; subPath : nat }.

Inductive Invalid := UnsupportedMode (m : SubscriptionMode) | BadInterval.

(** The validation of [StreamRun]: the subscriptions by their address, with the intervals. *)
Fixpoint validateSubs (c : NonDbClient) (subs : list (nat * Subscription)) (m : gmap nat (Subscription * Z)) : res Invalid (gmap nat (Subscription * Z)) :=
  match subs with
  | [] => Ok m
  | (a, sub) :: subs =>
      match mode sub with
      | SAMPLE =>
          match DbClient.validateSampleInterval (sampleInterval sub) with
          | None => Err BadInterval
          | Some interval =>
              match path2Getter c !! subPath sub with
              | None => validateSubs c subs m
              | Some _ => validateSubs c subs (<[a := (sub, interval)]> m)
              end
          end
      | md => Err (UnsupportedMode md)
      end
  end.

(** How [StreamRun] begins: it returns, with a fatal message or silently, or it samples. *)
Inductive Began := Returned (q : Queue) (w : World) | Sampling (q : Queue) (w : World) (samplers : list (Subscription * Z)).

Definition gettersOf (c : NonDbClient) (subs : list (Subscription * Z)) : list (Path * dataGetFunc) :=
  omap (fun s => path2Getter c !! subPath s.1) subs.

Variable invalidMsg : Invalid -> string.

Definition StreamRun `{!PtrRange} (c : NonDbClient) (subs : list (nat * Subscription)) (q : Queue) (w : World) : option Began :=
  match validateSubs c subs ∅ with
  | Err e => Some (Returned (Put q (fatalValue (clock w) (invalidMsg e))) w)
  | Ok valid =>
      let vs := map snd (range_ptr valid) in
      match vs with
      | [] => Some (Returned q w)
      | _ => '(q, w) ← sendAll c (gettersOf c vs) q w; Some (Sampling (Put q (syncValue (clock w))) w vs)
      end
  end.

(** [OnceRun] does nothing, not even tell the wait group: values and the calls of Done. *)
Definition OnceRun (c : NonDbClient) (q : Queue) : Queue * nat := (q, 0).

(** The goroutines of [streamSample] beside [StreamRun], which waits for the stop. *)
Record Sampler := mkSampler { sqLive : list (Subscription * Z); stopped : bool; waiting : bool; sQueue : Queue; sWorld : World }.

Inductive sampleStep (c : NonDbClient) (s : Sampler) : Sampler -> Prop :=
| Tick sub i q w gs : (sub, i) ∈ sqLive s -> path2Getter c !! subPath sub = Some gs ->
    runGetterAndSend c gs.1 gs.2 (sQueue s) (sWorld s) = Some (q, w) ->
    sampleStep c s (mkSampler (sqLive s) (stopped s) (waiting s) q w)
| SamplerEnds l1 x l2 : stopped s = true -> sqLive s = l1 ++ x :: l2 ->
    sampleStep c s (mkSampler (l1 ++ l2) true (waiting s) (sQueue s) (sWorld s))
| StreamRunEnds : stopped s = true -> waiting s = true -> sampleStep c s (mkSampler (sqLive s) true false (sQueue s) (sWorld s))
| Stop : sampleStep c s (mkSampler (sqLive s) true (waiting s) (sQueue s) (sWorld s))
| Changes w : sampleStep c s (mkSampler (sqLive s) (stopped s) (waiting s) (sQueue s) w).

End Getters.

End NonDb.
