(* ===== verification/NonDbProofs.v ===== *)
(** Theorems about the non-database client: the utilisation of the processors is the one of
    the samples taken, every path is answered, and what the code does not intend. *)

From S2P Require Import Prelude GnmiTypes Trie DbClient NonDb.
Import NonDb.
Open Scope go_scope.

(** * The ring *)

Abbreviation zlen l := (Z.of_nat (length l)).

(** The ring after the samples [hs], oldest first, and the sample [k] places back. *)
Definition after (hs : list Stat) : statsRing := fold_left WriteStatsToBuffer hs newRing.
Definition back (hs : list Stat) (k : Z) : option Stat := if (k <=? zlen hs)%Z then hs !! Z.to_nat (zlen hs - k) else None.

Lemma after_snoc hs s : after (hs ++ [s]) = WriteStatsToBuffer (after hs) s.
Proof. unfold after. by rewrite fold_left_app. Qed.

Lemma writeIdx_after hs : writeIdx (after hs) = (zlen hs mod 3000)%Z.
Proof.
  induction hs as [|s hs IH] using rev_ind; [done|]. rewrite after_snoc, length_app. cbn. rewrite IH. unfold statsRingCap.
  replace (Z.of_nat (length hs + 1)) with (Z.of_nat (length hs) + 1)%Z by lia. apply Zplus_mod_idemp_l.
Qed.

Lemma length_after hs : length (buff (after hs)) = Z.to_nat 3000.
Proof. induction hs as [|s hs IH] using rev_ind; [apply length_replicate|]. rewrite after_snoc. cbn [WriteStatsToBuffer buff]. by rewrite length_insert. Qed.

Lemma back_snoc hs s k : (1 < k)%Z -> back (hs ++ [s]) k = back hs (k - 1).
Proof.
  intros Hk. unfold back. rewrite length_app. cbn [length]. replace (Z.of_nat (length hs + 1)) with (Z.of_nat (length hs) + 1)%Z by lia.
  destruct (k <=? zlen hs + 1)%Z eqn:H1, (k - 1 <=? zlen hs)%Z eqn:H2; try lia; [|done]. rewrite lookup_app_l by lia. f_equal. lia.
Qed.

(** The ring holds the last 3000 samples. *)
Lemma ring_back hs : forall k, (1 <= k <= 3000)%Z -> buff (after hs) !! Z.to_nat ((zlen hs + 3000 - k) mod 3000) = Some (back hs k).
Proof.
  induction hs as [|s hs IH] using rev_ind; intros k Hk.
  - unfold back. cbn [length]. rewrite (proj2 (Z.leb_gt k _)) by lia. unfold after, newRing. cbn [fold_left buff].
    apply lookup_replicate_2. unfold statsRingCap. pose proof (Z.mod_pos_bound (Z.of_nat 0 + 3000 - k) 3000 ltac:(lia)). lia.
  - rewrite after_snoc, length_app. cbn [WriteStatsToBuffer buff length]. rewrite writeIdx_after.
    pose proof (Z.mod_pos_bound (zlen hs) 3000 ltac:(lia)). destruct (decide (k = 1%Z)) as [->|Hne].
    + replace (Z.of_nat (length hs + 1) + 3000 - 1)%Z with (zlen hs + 1 * 3000)%Z by lia. rewrite Z.mod_add, list_lookup_insert_eq; [|rewrite length_after; lia|lia].
      unfold back. rewrite length_app. cbn [length]. rewrite (proj2 (Z.leb_le 1 _)) by lia.
      rewrite lookup_app_r by lia. by replace (Z.to_nat (Z.of_nat (length hs + 1) - 1) - length hs) with 0 by lia.
    + rewrite list_lookup_insert_ne; [|intros Heq; Z.to_euclidean_division_equations; lia].
      rewrite back_snoc by lia. rewrite <- (IH (k - 1)%Z) by lia. do 3 f_equal. lia.
Qed.

Lemma slot_after hs k : (1 <= k <= 3000)%Z -> buff (after hs) !! slot (after hs) k = Some (back hs k).
Proof.
  intros Hk. rewrite <- ring_back by done. f_equal. unfold slot, u64, statsRingCap. rewrite writeIdx_after. f_equal. Z.to_euclidean_division_equations; lia.
Qed.

(** The index of the last window leaves the 64 bits. *)
Lemma slot_wraps hs : slot (after hs) 30000 = slot (after hs) 2384.
Proof. unfold slot, u64, statsRingCap. rewrite writeIdx_after. f_equal. Z.to_euclidean_division_equations; lia. Qed.

(** * The windows *)

(** The utilisation over the last samples, by the samples alone: the percentage between the
    last sample and the one [k] places back, 0 when there is none; windows further back than
    [cut] are left 0. *)
Section Reference.
Variable hs : list Stat.

Definition percentBack (sel : Stat -> option CPUStat) (k : Z) : Z :=
  match back hs 1 ≫= sel, back hs k ≫= sel with Some c, Some l => getCpuUtilPercents c l | _, _ => 0%Z end.

Definition upTo (cut : Z) (sel : Stat -> option CPUStat) (k : Z) : Z := if (k <=? cut)%Z then percentBack sel k else 0%Z.

Definition refUtil (cut : Z) (sel : Stat -> option CPUStat) (id : string) : cpuUtil :=
  mkUtil id (upTo cut sel 2) (upTo cut sel 10) (upTo cut sel 50) (upTo cut sel 600) (upTo cut sel 2384).

Definition refStat (cut : Z) : cpuStat :=
  match back hs 1, back hs 2 with
  | Some cur, Some prev =>
      mkCpuStat (refUtil cut (fun s => Some (CPUStatAll s)) (Id (CPUStatAll cur)))
        (imap (fun i c => refUtil cut (fun s => CPUStats s !! i) (Id c)) (CPUStats prev))
  | _, _ => noStat
  end.

End Reference.

Lemma back_none hs k k' : (1 <= k <= k')%Z -> back hs k = None -> back hs k' = None.
Proof.
  unfold back. intros Hk. destruct (k <=? zlen hs)%Z eqn:H1; [|by intros _; rewrite (proj2 (Z.leb_gt k' _)) by lia].
  intros Hn%lookup_ge_None. lia.
Qed.

(** Nothing was sampled before the first missing sample. *)
Lemma refStat_missing hs cut k : (forall j, j ∈ [2; 10; 50; 600; 2384]%Z -> (j <= cut \/ k <= j)%Z) -> (1 <= k)%Z -> (cut <= 2384)%Z -> back hs k = None -> refStat hs cut = refStat hs 2384.
Proof.
  intros Hj Hk Hc Hn. assert (forall sel id, refUtil hs cut sel id = refUtil hs 2384 sel id) as Hu.
  { intros sel id. unfold refUtil. f_equal; unfold upTo.
    all: match goal with |- (if (?j <=? _)%Z then _ else _) = _ => destruct (Hj j ltac:(set_solver)) as [Hle|Hle] end.
    all: try (rewrite (proj2 (Z.leb_le _ cut)), (proj2 (Z.leb_le _ 2384)) by lia; done).
    all: unfold percentBack; rewrite (back_none hs k _ (conj Hk Hle) Hn); cbn [mbind option_bind]; by destruct (back hs 1 ≫= sel), (_ <=? cut)%Z. }
  unfold refStat. destruct (back hs 1), (back hs 2); [|done..]. rewrite Hu. f_equal. apply imap_ext. intros. apply Hu.
Qed.

Lemma cpuPercents_zip cur : forall last, length last = length cur -> cpuPercents cur last = Some (zip_with (fun c l => (Id l, getCpuUtilPercents c l)) cur last).
Proof. induction cur as [|c cur IH]; intros [|l last] H; try done. cbn. rewrite IH by (cbn in H; lia). done. Qed.

Lemma setUsage_zip set ps : forall us, length ps = length us -> setUsage set ps us = Some (zip_with (fun p u => set p.2 u) ps us).
Proof. induction ps as [|p ps IH]; intros [|u us] H; try done. cbn. rewrite IH by (cbn in H; lia). done. Qed.

Section Windows.
Variables (hs : list Stat) (n : nat).
Hypothesis same : Forall (fun s => length (CPUStats s) = n) hs.

Lemma back_cpus k s : back hs k = Some s -> length (CPUStats s) = n.
Proof using same. unfold back. case_match; [|done]. intros H0%list_elem_of_lookup_2. by eapply Forall_forall in same. Qed.

(** A window whose sample is there. *)
Lemma window_step cut k kk set rest cur :
  (1 <= k <= 3000)%Z -> slot (after hs) kk = slot (after hs) k -> back hs 1 = Some cur ->
  (forall sel id, set (percentBack hs sel k) (refUtil hs cut sel id) = refUtil hs k sel id) ->
  (forall j, j ∈ [2; 10; 50; 600; 2384]%Z -> (j <= cut \/ k <= j)%Z) -> (cut <= 2384)%Z ->
  back hs 2 <> None ->
  window (after hs) cur kk set rest (refStat hs cut) = match back hs k with Some _ => rest (refStat hs k) | None => Some (refStat hs 2384) end.
Proof using same.
  intros Hk Hkk Hcur Hset Hj Hcut Hp. unfold window. rewrite Hkk, slot_after by done. cbn [mbind option_bind].
  destruct (back hs k) as [last|] eqn:Hb; [|by rewrite (refStat_missing hs cut k) by (try done; lia)].
  destruct (back hs 2) as [prev|] eqn:H2; [|done]. pose proof (back_cpus _ _ Hcur) as L1. pose proof (back_cpus _ _ Hb) as Lk. pose proof (back_cpus _ _ H2) as L2.
  rewrite cpuPercents_zip by congruence. cbn [mbind option_bind]. unfold refStat. rewrite Hcur, H2. cbn [CpuUsage CpuUsageAll].
  rewrite setUsage_zip by (rewrite length_zip_with, length_imap; lia). cbn [mbind option_bind]. do 2 f_equal.
  - rewrite <- Hset. unfold percentBack. by rewrite Hcur, Hb.
  - apply list_eq_same_length with n; [by rewrite length_imap|rewrite !length_zip_with, length_imap; lia|]. intros i x y Hi.
    rewrite list_lookup_imap, !lookup_zip_with, list_lookup_imap.
    destruct (lookup_lt_is_Some_2 (CPUStats cur) i ltac:(lia)) as (c & Hc), (lookup_lt_is_Some_2 (CPUStats last) i ltac:(lia)) as (l & Hl), (lookup_lt_is_Some_2 (CPUStats prev) i ltac:(lia)) as (p & Hpp).
    rewrite Hc, Hl, Hpp. cbn. intros [= <-] [= <-]. rewrite <- Hset. unfold percentBack. rewrite Hcur, Hb. cbn. by rewrite Hc, Hl.
Qed.

End Windows.

Lemma cpu_windows hs n :
  Forall (fun s => length (CPUStats s) = n) hs -> getCpuUtilStat (after hs) = Some (refStat hs 2384).
Proof.
  intros Hn. unfold getCpuUtilStat. rewrite !slot_after by lia. cbn [mbind option_bind].
  destruct (back hs 2) as [prev|] eqn:H2; [|unfold refStat; rewrite H2; by destruct (back hs 1)].
  destruct (back hs 1) as [cur|] eqn:H1; [|by rewrite (back_none hs 1 2) in H2]. cbn [mbind option_bind].
  rewrite cpuPercents_zip by (by rewrite (back_cpus _ _ Hn _ _ H1), (back_cpus _ _ Hn _ _ H2)). cbn [mbind option_bind].
  set (st := mkCpuStat _ _). assert (st = refStat hs 2) as ->.
  { unfold st, refStat. rewrite H1, H2. unfold refUtil at 1. cbn [upTo Z.leb Z.compare]. unfold upTo, percentBack. f_equal.
    - by rewrite H1, H2.
    - apply list_eq_same_length with n; [by rewrite length_imap, (back_cpus _ _ Hn _ _ H2)|rewrite length_map, length_zip_with, (back_cpus _ _ Hn _ _ H1), (back_cpus _ _ Hn _ _ H2); lia|].
      intros i x y Hi. rewrite list_lookup_imap, list_lookup_fmap, lookup_zip_with.
      destruct (CPUStats cur !! i) as [c|] eqn:Hc, (CPUStats prev !! i) as [p|] eqn:Hp; cbn; try done. intros [= <-] [= <-].
      unfold refUtil, upTo, percentBack. rewrite H1, H2. cbn. by rewrite Hc, Hp. }
  assert (back hs 2 <> None) by by rewrite H2.
  rewrite (window_step hs n Hn 2 10 10) by (try done; try lia; set_solver by lia). destruct (back hs 10); [|done].
  rewrite (window_step hs n Hn 10 50 50) by (try done; try lia; set_solver by lia). destruct (back hs 50); [|done].
  rewrite (window_step hs n Hn 50 600 600) by (try done; try lia; set_solver by lia). destruct (back hs 600); [|done].
  rewrite (window_step hs n Hn 600 2384 30000) by (try apply slot_wraps; try done; try lia; set_solver by lia). by destruct (back hs 2384).
Qed.

(** The published utilisation of the processors is that of the samples taken: after any
    history of samples of the same processors it is, for all processors and for each of them,
    the percentage between the last sample and the one 2, 10, 50, 600 and 2384 places back, and
    0 for a window that has no sample yet; the function does not panic. *)
Theorem cpu_windows_exact hs n :
  Forall (fun s => length (CPUStats s) = n) hs -> getCpuUtilStat (after hs) = Some (refStat hs 2384).
Proof. exact (cpu_windows hs n). Qed.

(** Counters that grow and stay within their range. *)
Record Grows (last cur : CPUStat) : Prop := {
  gr_user : (0 <= User last <= User cur)%Z; gr_nice : (0 <= Nice last <= Nice cur)%Z; gr_system : (0 <= System last <= System cur)%Z;
  gr_idle : (0 <= Idle last <= Idle cur)%Z; gr_iowait : (0 <= IOWait last <= IOWait cur)%Z; gr_irq : (0 <= IRQ last <= IRQ cur)%Z;
  gr_soft : (0 <= SoftIRQ last <= SoftIRQ cur)%Z; gr_steal : (0 <= Steal last <= Steal cur)%Z; gr_range : (100 * ticks cur < 2 ^ 64)%Z
}.

(** The percentage of counters that grow is the share of the ticks that were not idle. *)
Theorem percent_exact last cur :
  Grows last cur ->
  getCpuUtilPercents cur last = (100 * ((ticks cur - ticks last) - (Idle cur - Idle last)) / (ticks cur - ticks last))%Z /\
  (0 <= getCpuUtilPercents cur last <= 100)%Z.
Proof.
  intros [H1 H2 H3 H4 H5 H6 H7 H8 H9].
  assert (0 <= ticks last <= ticks cur)%Z by (unfold ticks in *; lia). assert (0 <= Idle cur - Idle last <= ticks cur - ticks last)%Z by (unfold ticks in *; lia).
  unfold getCpuUtilPercents, u64. rewrite (Z.mod_small (ticks cur)), (Z.mod_small (ticks last)), (Z.mod_small (ticks cur - ticks last)), (Z.mod_small (Idle cur - Idle last)) by lia.
  destruct (Z.eqb_spec (ticks cur - ticks last) 0) as [He|He].
  - rewrite He, Z.div_0_r. lia.
  - rewrite !Z.mod_small by (rewrite ?Z.mod_small; lia). split; [done|]. split; [apply Z.div_pos; lia|]. apply Z.div_le_upper_bound; lia.
Qed.

(** * The paths *)

(** No path of the table is a pattern, and every entry has its function. *)
Definition plainCell (nd : @Trie.Node dataGetFunc) : bool :=
  bool_decide (Trie.wildcards nd = ∅) && (negb (Trie.term nd) || match Trie.meta nd with Some _ => true | None => false end).

Lemma forallb_cells (m : gmap nat (@Trie.Node dataGetFunc)) n nd : forallb (fun c => plainCell c.2) (map_to_list m) = true -> m !! n = Some nd -> plainCell nd = true.
Proof. intros H Hn. rewrite forallb_forall in H. apply (H (n, nd)), list_elem_of_In. by apply elem_of_map_to_list. Qed.

Lemma clientTrie_plain n nd : Trie.deref (Trie.heap clientTrie) n = Some nd -> plainCell nd = true.
Proof. apply forallb_cells. vm_compute. reflexivity. Qed.

Section Plain.
Context {mr : MapRange}.
Variable t : @Trie.Trie dataGetFunc.
Hypothesis plain : forall n nd, Trie.deref (Trie.heap t) n = Some nd -> plainCell nd = true.

Lemma findNode_walk ks : forall n, Trie.findNode (Trie.heap t) n ks = Trie.walk (Trie.heap t) n ks.
Proof using plain.
  induction ks as [|k ks IH]; intros n; [done|]. cbn [Trie.findNode Trie.walk]. destruct (Trie.deref _ n) as [nd|] eqn:Hn; [|done]. cbn [mbind option_bind].
  unfold Trie.findChild. destruct (Trie.children nd !! k) as [c|]; [apply IH|].
  apply plain, andb_true_iff in Hn as [Hw%bool_decide_eq_true _]. rewrite Hw.
  assert (range_of (∅ : gmap string nat) = []) as -> by (apply Permutation_nil; by rewrite range_of_perm, map_to_list_empty). done.
Qed.

Lemma terminal_meta m nd : Trie.terminal (Trie.heap t) m = Some nd -> Trie.meta nd <> None.
Proof using plain.
  unfold Trie.terminal. destruct (Trie.deref _ m) as [md|]; [|done]. cbn [mbind option_bind]. destruct (Trie.children md !! "") as [c|]; [|done]. cbn [mbind option_bind].
  destruct (Trie.deref _ c) as [cd|] eqn:Hc; [|done]. cbn [mbind option_bind]. destruct (Trie.term cd) eqn:Htm; [|done]. intros [= ->] Hm.
  apply plain, andb_true_iff in Hc as [_ Hc]. by rewrite Htm, Hm in Hc.
Qed.

Lemma find_entry ks : match Trie.Find t ks with Some n => getter ← Trie.meta n; Some (Some getter) | None => Some None end = Some (Trie.entry t ks).
Proof using plain.
  unfold Trie.Find, Trie.entry. rewrite findNode_walk. destruct (Trie.walk _ _ ks) as [m|]; [|done]. cbn [mbind option_bind].
  destruct (Trie.terminal _ m) as [nd|] eqn:Ht; [|done]. cbn [mbind option_bind]. apply terminal_meta in Ht. by destruct (Trie.meta nd).
Qed.

End Plain.

Lemma populate_entry tbl : forall (t : @Trie.Trie dataGetFunc) ks, Trie.wf t -> "" ∉ ks -> Forall (fun pt => "" ∉ pt.1) tbl -> NoDup tbl.*1 ->
  Trie.entry (fold_left (fun t pt => (Trie.Add t pt.1 pt.2).1) tbl t) ks = match list_find (fun pt => pt.1 = ks) tbl with Some (_, pt) => Some pt.2 | None => Trie.entry t ks end.
Proof.
  induction tbl as [|[p g] tbl IH]; intros t ks Hwf Hks Hall Hnd; [done|]. inversion_clear Hall. apply NoDup_cons in Hnd as [Hni Hnd]. cbn [fold_left fst snd].
  destruct (Trie.Add_entry t p g Hwf) as (Hwf' & He); [done|]. rewrite IH by done. cbn [list_find fst]. rewrite He by done. destruct (decide (p = ks)) as [->|Hne].
  - rewrite decide_True by done. destruct (list_find _ tbl) as [[i pt]|] eqn:Hf; [|done]. apply list_find_Some in Hf as (Hi & <- & _). destruct Hni. cbn.
    apply list_elem_of_fmap. exists pt. split; [done|]. by eapply list_elem_of_lookup_2.
  - rewrite decide_False by done. by destruct (list_find _ tbl) as [[i pt]|].
Qed.

(** A path is answered by the function that the table has for it, and refused when it has
    none; the lookup does not panic. *)
Theorem lookup_exact {mr : MapRange} prefix path :
  "" ∉ fullNames prefix path ->
  lookupGetFunc prefix path = Some ((fun x => x.2.2) <$> list_find (fun pt => pt.1 = fullNames prefix path) path2DataFuncTbl).
Proof.
  intros Hn. unfold lookupGetFunc. rewrite (find_entry clientTrie clientTrie_plain). f_equal.
  unfold clientTrie, clientTriePopulate. rewrite populate_entry; [by destruct (list_find _ _) as [[i pt]|]|apply Trie.NewTrie_wf|done|..].
  - repeat constructor; cbn; set_solver.
  - apply (bool_decide_unpack _). vm_compute. exact I.
Qed.

(** * Answers *)

Section Answers.
Context {Data : Type} {pr : PtrRange}.
Variables (marshalData : option Data -> res string string) (marshalCpu : cpuStat -> res string string)
  (marshalVersion : SonicVersionInfo -> res string string) (unmarshalVersion : string -> SonicVersionInfo -> SonicVersionInfo * option string).
Abbreviation callGetter := (callGetter marshalData marshalCpu marshalVersion unmarshalVersion).
Abbreviation sendAll := (sendAll marshalData marshalCpu marshalVersion unmarshalVersion).
Abbreviation pollTurn := (pollTurn marshalData marshalCpu marshalVersion unmarshalVersion).
Abbreviation Get := (Get marshalData marshalCpu marshalVersion unmarshalVersion).
Abbreviation getLoop := (getLoop marshalData marshalCpu marshalVersion unmarshalVersion).

(** The samples of a ring that the program fills on a machine with [n] processors. *)
Definition Filled (n : nat) (w : World (Data := Data)) : Prop := exists hs, statsR w = after hs /\ Forall (fun s => length (CPUStats s) = n) hs.

(** What a call of a function leaves. *)
Record Called (w w' : World (Data := Data)) : Prop := {
  cl_ring : statsR w' = statsR w;
  cl_clock : clock w' = clock w;
  cl_reads : versionReads w' = versionReads w + (match versionFileStash w, versionFileStash w' with None, Some _ => 1 | _, _ => 0 end);
  cl_stash : forall v, versionFileStash w = Some v -> versionFileStash w' = Some v
}.

Lemma called_refl w : Called w w.
Proof. split; try done. destruct (versionFileStash w); lia. Qed.

Lemma called_trans w1 w2 w3 : Called w1 w2 -> Called w2 w3 -> Called w1 w3.
Proof.
  intros [R1 C1 N1 S1] [R2 C2 N2 S2]. split; [congruence..| |by eauto]. rewrite N2, N1.
  destruct (versionFileStash w1) as [v|] eqn:E1; [rewrite (S1 v eq_refl); lia|]. destruct (versionFileStash w2) as [v|] eqn:E2; [rewrite (S2 v eq_refl); lia|]. lia.
Qed.

Lemma callGetter_called f w r w' : callGetter f w = Some (r, w') -> Called w w'.
Proof.
  destruct f; cbn; try (by intros [= _ <-]; apply called_refl).
  - destruct (getCpuUtilStat _); [|done]. cbn. intros [= _ <-]. apply called_refl.
  - unfold buildVersion. destruct (versionFileStash w) as [v|] eqn:Hs; intros [= _ <-]; [apply called_refl|]. split; cbn; try done; rewrite ?Hs; [lia|done].
Qed.

Lemma callGetter_total n f w : Filled n w -> exists r w', callGetter f w = Some (r, w').
Proof.
  intros (hs & Hr & Hn). destruct f; cbn; eauto.
  - rewrite Hr, (cpu_windows hs n Hn). cbn. eauto.
  - destruct (buildVersion _ _ w). eauto.
Qed.

Lemma filled_called n w w' : Called w w' -> Filled n w -> Filled n w'.
Proof. intros [R _ _ _] (hs & ? & ?). exists hs. by rewrite R. Qed.

Lemma sendAll_spec n c gs : forall q w, Filled n w -> disposed q = false ->
  exists q' w' bs, sendAll c gs q w = Some (q', w') /\ Called w w' /\ length bs = length gs /\ disposed q' = false /\
    items q' = items q ++ zip_with (fun pg b => dataValue c pg.1 (clock w) b) gs bs.
Proof.
  induction gs as [|[p g] gs IH]; intros q w Hf Hq.
  - exists q, w, []. split_and!; [done|apply called_refl|done|done|by rewrite app_nil_r].
  - destruct (callGetter_total n g w Hf) as (r & w1 & Hc). pose proof (callGetter_called _ _ _ _ Hc) as H1.
    destruct (IH (Put q (dataValue c p (clock w1) (bytesOf r))) w1) as (q' & w' & bs & Hs & H2 & Hl & Hd & Hi); [by eapply filled_called|by unfold Put; rewrite Hq|].
    exists q', w', (bytesOf r :: bs). split_and!; [cbn [NonDb.sendAll runGetterAndSend]; unfold runGetterAndSend; rewrite Hc; exact Hs|by eapply called_trans|cbn; lia|done|].
    rewrite Hi, (cl_clock _ _ H1). unfold Put. rewrite Hq. cbn. by rewrite <- app_assoc.
Qed.

(** A poll is answered with one value for every path of the client, in the order of its map,
    and then the sign that all were sent; the version file is read at most once. *)
Theorem poll_complete n c q w :
  Filled n w -> disposed q = false ->
  exists q' w' bs, pollTurn c q w = Some (q', w') /\ length bs = length (getters c) /\
    items q' = items q ++ zip_with (fun pg b => dataValue c pg.1 (clock w) b) (getters c) bs ++ [syncValue (clock w)] /\
    getters c ≡ₚ (map_to_list (path2Getter c)).*2 /\
    versionReads w' <= S (versionReads w) /\ (versionFileStash w <> None -> versionReads w' = versionReads w).
Proof.
  intros Hf Hq. destruct (sendAll_spec n c (getters c) q w Hf Hq) as (q' & w' & bs & Hs & [R C N S] & Hl & Hd & Hi).
  exists (Put q' (syncValue (clock w'))), w', bs. unfold NonDb.pollTurn. rewrite Hs. split_and!; [done|done| |by unfold getters; rewrite range_ptr_perm|..].
  - unfold Put. rewrite Hd, Hi, C. cbn. by rewrite app_assoc.
  - rewrite N. destruct (versionFileStash w), (versionFileStash w'); lia.
  - intros Hv. rewrite N. destruct (versionFileStash w); [lia|done].
Qed.

Lemma getLoop_spec n c ts gs : forall vs w, Filled n w ->
  exists r w', getLoop c ts gs vs w = Some (r, w') /\ Called w w' /\
    match r with
    | Ok vs' => exists bs, length bs = length gs /\ vs' = vs ++ zip_with (fun pg b => dataValue c pg.1 ts b) gs bs
    | Err e => exists p g w1 w2, (p, g) ∈ gs /\ Called w w1 /\ callGetter g w1 = Some (Err e, w2)
    end.
Proof.
  induction gs as [|[p g] gs IH]; intros vs w Hf.
  - exists (Ok vs), w. split_and!; [done|apply called_refl|]. exists []. by rewrite app_nil_r.
  - destruct (callGetter_total n g w Hf) as (r & w1 & Hc). pose proof (callGetter_called _ _ _ _ Hc) as H1. cbn [NonDb.getLoop]. rewrite Hc. cbn [mbind option_bind].
    destruct r as [b|e].
    + destruct (IH (vs ++ [dataValue c p ts b]) w1) as (r & w' & Hg & H2 & Hr); [by eapply filled_called|]. exists r, w'. split_and!; [done|by eapply called_trans|].
      destruct r as [vs'|e]; [destruct Hr as (bs & Hl & ->); exists (b :: bs); cbn; split; [lia|by rewrite <- app_assoc]|].
      destruct Hr as (p' & g' & wa & wb & Hin & Ha & Hb). exists p', g', wa, wb. split_and!; [by apply elem_of_cons; right|by eapply called_trans|done].
    + exists (Err e), w1. split_and!; [done..|]. exists p, g, w, w1. split_and!; [by apply elem_of_cons; left|apply called_refl|done].
Qed.

(** Get answers all paths of the client with one timestamp, or fails with the error of the
    function of one of them. *)
Theorem get_all_or_error n c w :
  Filled n w ->
  exists r w', Get c w = Some (r, w') /\
    match r with
    | Ok vs => exists bs, length bs = length (getters c) /\ vs = zip_with (fun pg b => dataValue c pg.1 (clock w) b) (getters c) bs
    | Err e => exists p g w1 w2, (p, g) ∈ getters c /\ callGetter g w1 = Some (Err e, w2)
    end.
Proof.
  intros Hf. destruct (getLoop_spec n c (clock w) (getters c) [] w Hf) as (r & w' & Hg & _ & Hr). exists r, w'. split; [done|].
  destruct r; [done|]. destruct Hr as (p & g & w1 & w2 & ? & _ & ?). eauto 10.
Qed.

(** * What shows in the program *)

(** A file of /proc that cannot be read is answered without an error. *)
Theorem unreadable_proc_answered (w : World (Data := Data)) : proc w "/proc/meminfo" = None -> callGetter getProcMeminfo w = Some (marshalData None, w).
Proof. cbn. by intros ->. Qed.

(** A function that fails is answered with an empty value when it is polled or sampled. *)
Theorem failed_getter_sent_empty c p g q w e w' :
  callGetter g w = Some (Err e, w') -> runGetterAndSend marshalData marshalCpu marshalVersion unmarshalVersion c p g q w = Some (Put q (dataValue c p (clock w') ""), w').
Proof. unfold runGetterAndSend. by intros ->. Qed.

(** Subscriptions without a path of the client end without a value, an error or a sync. *)
Theorem no_valid_sub_silent msg c q w a s :
  mode s = SAMPLE -> sampleInterval s = 0%Z -> path2Getter c !! subPath s = None ->
  StreamRun marshalData marshalCpu marshalVersion unmarshalVersion msg c [(a, s)] q w = Some (Returned q w).
Proof.
  intros Hm Hi Hp. unfold StreamRun. cbn [validateSubs]. rewrite Hm, Hi, Hp. change (DbClient.validateSampleInterval 0) with (Some DbClient.MinSampleInterval). cbv iota beta.
  assert (range_ptr (∅ : gmap nat (Subscription * Z)) = []) as -> by (apply Permutation_nil; by rewrite range_ptr_perm, map_to_list_empty). done.
Qed.

(** A subscription of mode ONCE gets nothing, and the wait group of the RPC is not told. *)
Theorem once_never_done c q : OnceRun c q = (q, 0).
Proof. done. Qed.

(** A sampler goes on after [StreamRun] has returned: it can still put a value. *)
Theorem sampler_outlives_stream n c s (w : World (Data := Data)) p g :
  Filled n w -> path2Getter c !! subPath s = Some (p, g) ->
  exists t, rtc (sampleStep marshalData marshalCpu marshalVersion unmarshalVersion c) (mkSampler [(s, 1000000000%Z)] false true (mkQueue [] false) w) t /\
    waiting t = false /\ length (items (sQueue t)) = 1.
Proof.
  intros Hf Hp. destruct (callGetter_total n g w Hf) as (r & w' & Hc). eexists. split.
  - eapply rtc_l; [apply Stop|]. eapply rtc_l; [by apply StreamRunEnds|]. eapply rtc_l; [|apply rtc_refl].
    eapply (Tick _ _ _ _ c _ s); [by apply list_elem_of_singleton|exact Hp|]. cbn [fst snd sQueue sWorld]. unfold runGetterAndSend. rewrite Hc. reflexivity.
  - done.
Qed.

End Answers.

(** The window of five minutes is one of 238 seconds: its index wraps around. *)
Theorem five_minutes_short hs : (2384 <= zlen hs)%Z -> buff (after hs) !! slot (after hs) 30000 = Some (hs !! (length hs - Z.to_nat 2384)).
Proof. intros H. rewrite slot_wraps, slot_after by lia. unfold back. rewrite (proj2 (Z.leb_le _ _)) by done. do 2 f_equal. lia. Qed.

Definition demo_cpu (id : string) (user idle : Z) : CPUStat := mkCpu id user 0 0 idle 0 0 0 0.

(** A processor that goes offline between two samples stops the program. *)
Theorem offline_cpu_panics :
  getCpuUtilStat (after [mkStat (demo_cpu "cpu" 0 0) [demo_cpu "cpu0" 0 0; demo_cpu "cpu1" 0 0]; mkStat (demo_cpu "cpu" 5 5) [demo_cpu "cpu0" 5 5]]) = None.
Proof. by vm_compute. Qed.

(** An idle counter that goes back, as those of the kernel can, gives more than 100 percent. *)
Theorem idle_decrease_over_hundred : getCpuUtilPercents (demo_cpu "cpu" 16 9) (demo_cpu "cpu" 10 10) = 120%Z.
Proof. by vm_compute. Qed.

(** * Instances *)

Lemma cpu_windows_exact_witness :
  let hs := [mkStat (demo_cpu "cpu" 0 0) [demo_cpu "cpu0" 0 0]; mkStat (demo_cpu "cpu" 1 3) [demo_cpu "cpu0" 1 3]] in
  getCpuUtilStat (after hs) = Some (mkCpuStat (mkUtil "cpu" 25 0 0 0 0) [mkUtil "cpu0" 25 0 0 0 0]).
Proof. intros hs. rewrite (cpu_windows_exact hs 1); [vm_compute; reflexivity|]. repeat constructor. Defined.

Lemma lookup_exact_witness :
  lookupGetFunc (Some (mkPath "" "OTHERS" [])) (mkPath "" "" [ename "proc"; ename "uptime"]) = Some (Some getSysUptime).
Proof. rewrite (lookup_exact (Some (mkPath "" "OTHERS" []))); [vm_compute; reflexivity|]. apply (bool_decide_unpack _). vm_compute. exact I. Defined.

Lemma percent_exact_witness : getCpuUtilPercents (demo_cpu "cpu" 1 3) (demo_cpu "cpu" 0 0) = 25%Z.
Proof. rewrite (proj1 (percent_exact (demo_cpu "cpu" 0 0) (demo_cpu "cpu" 1 3) ltac:(split; unfold ticks; cbn -[Z.pow Z.mul]; lia))). vm_compute. reflexivity. Defined.
