(* ===== verification/ShowClient.v ===== *)
(** The show client (src/sonic_data_client/show_client.go, show_client_helpers.go,
    show_client_types.go): commands registered in a trie, the options of a request, Get.

    The functions behind the commands are a parameter here; [ShowCommands] models them. *)

From S2P Require Import Prelude GnmiTypes Trie DbClient NonDb.
Import NonDb(PtrRange, range_ptr, range_ptr_perm).
Open Scope go_scope.

Module ShowClient.

(** * Options *)

Inductive ValueType := StringValue | StringSliceValue | BoolValue | IntValue | OtherValue (n : Z).
Inductive OptionType := Required | Optional | Unimplemented.

#[global] Instance OptionType_eq_dec : EqDecision OptionType.
Proof. solve_decision. Defined.

Record ShowCmdOption := mkOption { optName : string; optType : OptionType; description : string; valueType : ValueType }.

Inductive OptionValue := OStr (s : string) | OStrs (l : list string) | OBool (b : bool) | OInt (z : Z).

Definition OptionMap : Type := gmap string OptionValue.

(** The typed readings of an option; an option that is not there has no value of any type. *)
Definition String_ (o : option OptionValue) : option string := match o with Some (OStr s) => Some s | _ => None end.
Definition Strings (o : option OptionValue) : option (list string) := match o with Some (OStrs l) => Some l | _ => None end.
Definition Bool_ (o : option OptionValue) : option bool := match o with Some (OBool b) => Some b | _ => None end.
Definition Int_ (o : option OptionValue) : option Z := match o with Some (OInt z) => Some z | _ => None end.

Definition NewShowCmdOption (name desc : string) (valType : ValueType) : ShowCmdOption := mkOption name Optional desc valType.
Definition RequiredOption (o : ShowCmdOption) : ShowCmdOption := mkOption (optName o) Required (description o) (valueType o).
Definition UnimplementedOption (o : ShowCmdOption) : ShowCmdOption := mkOption (optName o) Unimplemented (description o) (valueType o).

Definition showCmdOptionHelp : ShowCmdOption := NewShowCmdOption "help" "[help=true]Show this message" BoolValue.

Definition constructOptions (options : list ShowCmdOption) : gmap string ShowCmdOption :=
  fold_left (fun m o => <[optName o := o]> m) options {[optName showCmdOptionHelp := showCmdOptionHelp]}.

Definition Description : Type := gmap string (option (gmap string string)).

Definition constructDescription `{!MapRange} (subcommandDesc : option (gmap string string)) (options : gmap string ShowCmdOption) : Description :=
  <["subcommands" := subcommandDesc]>
    {["options" := Some (fold_left (fun m no => <[optName no.2 := description no.2]> m) (range_of options) ∅)]}.

Inductive OptionErr := UnknownOption (name : string) | OptionRequired (name : string) | OptionUnimplemented (name : string)
  | NotBool (name : string) | NotInt (name : string) | UnsupportedType (name : string).

Definition optionCode (e : OptionErr) : Code := match e with OptionUnimplemented _ => GnmiTypes.Unimplemented | _ => InvalidArgument end.

(** [strconv.ParseBool]. *)
Definition ParseBool (s : string) : option bool :=
  if bool_decide (s ∈ ["1"; "t"; "T"; "TRUE"; "true"; "True"]) then Some true
  else if bool_decide (s ∈ ["0"; "f"; "F"; "FALSE"; "false"; "False"]) then Some false
  else None.

(** The keys of one element, then of all elements of the path. *)
Fixpoint checkKeys (options : gmap string ShowCmdOption) (kvs : list (string * string)) (passed : gmap string string) : res OptionErr (gmap string string) :=
  match kvs with
  | [] => Ok passed
  | (key, val) :: kvs => match options !! key with None => Err (UnknownOption key) | Some _ => checkKeys options kvs (<[key := val]> passed) end
  end.

Fixpoint checkElems `{!MapRange} (options : gmap string ShowCmdOption) (es : list PathElem) (passed : gmap string string) : res OptionErr (gmap string string) :=
  match es with
  | [] => Ok passed
  | e :: es => try passed := checkKeys options (range_of (elem_key e)) passed in checkElems options es passed
  end.

Definition checkOptionsInPath `{!MapRange} (path : Path) (options : gmap string ShowCmdOption) : res OptionErr (gmap string string) :=
  checkElems options (path_elem path) ∅.

(** The value of one option that was passed. *)
Definition parseOption (name : string) (t : ValueType) (v : string) : res OptionErr OptionValue :=
  match t with
  | StringValue => Ok (OStr v)
  | StringSliceValue => Ok (OStrs (map trim_space (str_split v ",")))
  | BoolValue => match ParseBool v with Some b => Ok (OBool b) | None => Err (NotBool name) end
  | IntValue => match atoi v with Some z => Ok (OInt z) | None => Err (NotInt name) end
  | OtherValue _ => Err (UnsupportedType name)
  end.

Fixpoint validateLoop (passed : gmap string string) (options : list (string * ShowCmdOption)) (m : OptionMap) : res OptionErr OptionMap :=
  match options with
  | [] => Ok m
  | (name, cfg) :: options =>
      match passed !! name with
      | None => match optType cfg with Required => Err (OptionRequired name) | _ => validateLoop passed options m end
      | Some v =>
          match optType cfg with
          | Unimplemented => Err (OptionUnimplemented name)
          | _ => try x := parseOption name (valueType cfg) v in validateLoop passed options (<[name := x]> m)
          end
      end
  end.

Definition validateOptions `{!MapRange} (passed : gmap string string) (options : gmap string ShowCmdOption) : res OptionErr OptionMap :=
  validateLoop passed (range_of options) ∅.

Definition ParseOptions `{!MapRange} (options : gmap string ShowCmdOption) (path : Path) : res OptionErr OptionMap :=
  try passed := checkOptionsInPath path options in validateOptions passed options.

(** * Commands *)

Section Commands.
(** A command of the table; calling it changes the state [W] of the process. *)
Context {Cmd W : Type}.
Variable call : Cmd -> OptionMap -> W -> res string string * W.
Variable marshalDescription : Description -> res string string.

Record ShowPathConfig := mkShowConfig { dataGetter : Cmd; options : gmap string ShowCmdOption; pathDescription : Description }.

Definition RegisterCliPath `{!MapRange} (path : list string) (getter : Cmd) (subcommandDesc : option (gmap string string)) (opts : list ShowCmdOption)
    (showTrie : @Trie.Trie ShowPathConfig) : @Trie.Trie ShowPathConfig :=
  let pathOptions := constructOptions opts in
  (Trie.Add showTrie path (mkShowConfig getter pathOptions (constructDescription subcommandDesc pathOptions))).1.

(** [lookupPathConfig]; a panic without metadata, an error without the path. *)
Definition lookupPathConfig `{!MapRange} (showTrie : @Trie.Trie ShowPathConfig) (prefix : option Path) (path : Path) : option (option ShowPathConfig) :=
  match Trie.Find showTrie (NonDb.fullNames prefix path) with
  | Some n => config ← Trie.meta n; Some (Some config)
  | None => Some None
  end.

Record ShowClient := mkShowClient { prefix : option Path; path2Config : gmap nat (Path * ShowPathConfig) }.

Fixpoint addConfigs `{!MapRange} (showTrie : @Trie.Trie ShowPathConfig) (p : option Path) (paths : list (nat * Path)) (m : gmap nat (Path * ShowPathConfig)) :
    option (option (gmap nat (Path * ShowPathConfig))) :=
  match paths with
  | [] => Some (Some m)
  | (a, path) :: paths =>
      c ← lookupPathConfig showTrie p path;
      match c with None => Some None | Some config => addConfigs showTrie p paths (<[a := (path, config)]> m) end
  end.

Definition NewShowClient `{!MapRange} (showTrie : @Trie.Trie ShowPathConfig) (paths : list (nat * Path)) (p : option Path) : option (option ShowClient) :=
  match addConfigs showTrie p paths ∅ with
  | Some (Some m) => Some (Some (mkShowClient p m))
  | Some None => Some None
  | None => None
  end.

Inductive GetErr := BadOption (e : OptionErr) | CommandFailed (e : string).

Definition showValue (c : ShowClient) (path : Path) (ts : Z) (v : string) : DbClient.Value :=
  DbClient.mkValue (prefix c) (Some path) ts false "" (Some (JsonIetfVal v)) [] None.

(** [showHelp]: the description alone. *)
Definition showHelp (c : ShowClient) (path : Path) (ts : Z) (d : Description) : res GetErr (list DbClient.Value) :=
  match marshalDescription d with
  | Ok helpData => Ok [showValue c path ts helpData]
  | Err e => Err (CommandFailed e)
  end.

(** The loop of [Get]; help for one path ends it with the help alone. *)
Fixpoint getLoop `{!MapRange} (c : ShowClient) (ts : Z) (pcs : list (Path * ShowPathConfig)) (values : list DbClient.Value) (w : W) :
    res GetErr (list DbClient.Value) * W :=
  match pcs with
  | [] => (Ok values, w)
  | (path, config) :: pcs =>
      match ParseOptions (options config) path with
      | Err e => (Err (BadOption e), w)
      | Ok opts =>
          match Bool_ (opts !! "help") with
          | Some true => (showHelp c path ts (pathDescription config), w)
          | _ =>
              match call (dataGetter config) opts w with
              | (Err e, w) => (Err (CommandFailed e), w)
              | (Ok v, w) => getLoop c ts pcs (values ++ [showValue c path ts v]) w
              end
          end
      end
  end.

Definition Get `{!MapRange} `{!PtrRange} (c : ShowClient) (ts : Z) (w : W) : res GetErr (list DbClient.Value) * W :=
  getLoop c ts (map snd (range_ptr (path2Config c))) [] w.

End Commands.

End ShowClient.
