(* ===== verification/ShowCommands.v ===== *)
(** The commands of the show client (src/show_client): queries of the databases, counters and
    states of interfaces, modules and DPUs of a chassis, BGP neighbours, time zones, reboot
    causes, the telemetry interval.

    A command reads the databases through the functions of [DbClient]; what it returns is
    modelled before it is written as JSON.  Floating point numbers, the natural order of
    names, the splitting of command lines, files and host commands are parameters. *)

From S2P Require Import Prelude GnmiTypes DbTypes VirtualDb JsonClient DbClient ShowClient.
Import JsonClient ShowClient.
Open Scope go_scope.

Module ShowCommands.

Inductive ShowErr := DbErr (e : DbClient.db_error) | BadQuery | PeriodTooLong | NoInterfaceName | NotFrontPanel (intf : string)
  | ModuleNotFound (name : string) | EmptyModuleName | EmitErr | HostErr (e : string) | BadOutput.

(** Computations on the maps of the virtual paths that may fail. *)
Definition M (A : Type) : Type := VirtualDb.State -> VirtualDb.State * res ShowErr A.
Definition ret {A} (a : A) : M A := fun vs => (vs, Ok a).
Definition fail {A} (e : ShowErr) : M A := fun vs => (vs, Err e).
Definition bind {A B} (m : M A) (k : A -> M B) : M B :=
  fun vs => match m vs with (vs, Ok a) => k a vs | (vs, Err e) => (vs, Err e) end.
Definition lift {A} (r : DbClient.dres A) : M A := fun vs => (vs, match r with Ok a => Ok a | Err e => Err (DbErr e) end).

Declare Scope show_scope.
Delimit Scope show_scope with show.
Notation "'let!' x := m 'in' k" := (bind m (fun x => k)) (at level 10, x pattern, m at level 100, k at level 200) : show_scope.
Open Scope show_scope.

Fixpoint foldMM {A B} (f : A -> B -> M A) (a : A) (l : list B) : M A :=
  match l with [] => ret a | b :: l => let! a := f a b in foldMM f a l end.

(** * Queries *)

Definition minQueryLength : nat := 2.
Definition maxQueryLength : nat := 5.

Section Commands.
Context `{!MapRange}.
Variables (cfg : DbClient.DbConfig) (unitTest : bool).
(** What [fmt.Sprint] makes of a value that is no string. *)
Variable sprintOther : json -> string.

Abbreviation Dbs := (gmap string (gmap string Redis)).

Definition PopulateTablePaths (db : Dbs) (prefix : Path) (path : Path) : M (list tablePath) :=
  fun vs => match DbClient.populateAllDbtablePath cfg db unitTest (Some prefix) [path] vs with
            | (vs, Ok [(_, ts)]) => (vs, Ok ts)
            | (vs, Ok _) => (vs, Ok [])
            | (vs, Err e) => (vs, Err (DbErr e))
            end.

Fixpoint CreateTablePathsFromQueries (db : Dbs) (queries : list (list string)) (allPaths : list tablePath) : M (list tablePath) :=
  match queries with
  | [] => ret allPaths
  | q :: queries =>
      if (length q <? minQueryLength) || (maxQueryLength <? length q) then fail BadQuery
      else match q with
      | dbTarget :: names =>
          let! tablePaths := PopulateTablePaths db (mkPath "" dbTarget []) (mkPath "" "" (map ename names)) in
          CreateTablePathsFromQueries db queries (allPaths ++ tablePaths)
      | [] => fail BadQuery
      end
  end.

Definition GetMapFromQueries (db : Dbs) (queries : list (list string)) : M jobj :=
  let! tblPaths := CreateTablePathsFromQueries db queries [] in
  lift (foldM (fun msi t => DbClient.TableData2Msi db t false None msi) ∅ tblPaths).

(** [Msi2Bytes] of the map of the queries. *)
Variable emitJSON : jobj -> option string.
Variable unmarshal : string -> option jobj.

Definition GetDataFromQueries (db : Dbs) (queries : list (list string)) : M string :=
  let! msi := GetMapFromQueries db queries in
  match emitJSON msi with Some jv => ret jv | None => fail EmitErr end.

(** Commands on the host, in the namespaces of its first process; files. *)
Variable shlexSplit : string -> res string (list string).
Variable combinedOutput : list string -> res string string.
Variable readFile : string -> res string string.

Definition GetDataFromHostCommand (command : string) : M string :=
  match shlexSplit command with
  | Err e => fail (HostErr e)
  | Ok commandParts =>
      match combinedOutput (["nsenter"; "--target"; "1"; "--pid"; "--mount"; "--uts"; "--ipc"; "--net"; "--"] ++ commandParts) with
      | Err e => fail (HostErr e)
      | Ok output => ret output
      end
  end.

Definition GetDataFromFile (fileName : string) : M string :=
  match readFile fileName with Ok content => ret content | Err e => fail (HostErr e) end.

(** * Maps of ports *)

Definition RemapAliasToPortName (portData : jobj) : M jobj :=
  fun vs =>
    let aliasMap := VirtualDb.alias2nameMap (VirtualDb.maps vs) in
    (vs, Ok (if existsb (fun kv => bool_decide (is_Some (aliasMap !! kv.1))) (range_of portData) then
               fold_left (fun m kv => match aliasMap !! kv.1 with Some portName => <[portName := kv.2]> m | None => m end) (range_of portData) ∅
             else portData)).

Definition sprint (v : json) : string := match v with JStr s => s | v => sprintOther v end.

Definition GetFieldValueString (data : jobj) (key defaultValue field : string) : string :=
  match data !! key with
  | Some (JObj entry) => match entry !! field with Some value => sprint value | None => defaultValue end
  | _ => defaultValue
  end.

Definition int64 (z : Z) : Z := ((z + 2 ^ 63) mod 2 ^ 64 - 2 ^ 63)%Z.

Fixpoint sumFields (data : jobj) (key defaultValue : string) (fields : list string) (total : Z) : option Z :=
  match fields with
  | [] => Some total
  | f :: fields =>
      match atoi (GetFieldValueString data key defaultValue f) with
      | None => None
      | Some z => sumFields data key defaultValue fields (int64 (total + z))
      end
  end.

Definition GetSumFields (data : jobj) (key defaultValue : string) (fields : list string) : string :=
  match sumFields data key defaultValue fields 0 with Some total => pretty total | None => defaultValue end.

Definition calculateDiffCounters (oldCounter newCounter defaultValue : string) : string :=
  if String.eqb oldCounter defaultValue || String.eqb newCounter defaultValue then defaultValue
  else match atoi oldCounter, atoi newCounter with
  | Some o, Some n => pretty (int64 (n - o))
  | _, _ => defaultValue
  end.

(** * Interface counters *)

Definition defaultMissingCounterValue : string := "N/A".
Definition maxShowCommandPeriod : Z := 300.

Record InterfaceCountersResponse := mkCounters {
  State : string; RxOk : string; RxBps : string; RxUtil : string; RxErr : string; RxDrp : string; RxOvr : string;
  TxOk : string; TxBps : string; TxUtil : string; TxErr : string; TxDrp : string; TxOvr : string
}.

(** Numbers of type float64. *)
Context {Float : Type}.
Variables (parseFloat : string -> option Float) (gtb : Float -> Float -> bool) (div mul : Float -> Float -> Float) (lit : Z -> Float)
  (fmt2 : Float -> string).

Definition calculateByteRate (rate : string) : string :=
  if String.eqb rate defaultMissingCounterValue then defaultMissingCounterValue
  else match parseFloat rate with
  | None => defaultMissingCounterValue
  | Some x =>
      (if gtb x (lit 10000000) then fmt2 (div x (lit 1000000)) +:+ " MB"
       else if gtb x (lit 10000) then fmt2 (div x (lit 1000)) +:+ " KB"
       else fmt2 x +:+ " B") +:+ "/s"
  end.

Definition calculateUtil (rate portSpeed : string) : string :=
  if String.eqb rate defaultMissingCounterValue || String.eqb portSpeed defaultMissingCounterValue then defaultMissingCounterValue
  else match parseFloat rate, parseFloat portSpeed with
  | Some byteRate, Some portRate => fmt2 (mul (div byteRate (div (mul portRate (lit 1000000)) (lit 8))) (lit 100)) +:+ "%"
  | _, _ => defaultMissingCounterValue
  end.

Definition sprintField (entry : jobj) (field : string) : string := match entry !! field with Some v => sprint v | None => "<nil>" end.

Definition computeState (iface : string) (portTable : jobj) : string :=
  match portTable !! iface with
  | Some (JObj entry) =>
      let adminStatus := sprintField entry "admin_status" in
      let operStatus := sprintField entry "oper_status" in
      if String.eqb adminStatus "down" then "X"
      else if String.eqb adminStatus "up" && String.eqb operStatus "up" then "U"
      else if String.eqb adminStatus "up" && String.eqb operStatus "down" then "D"
      else "X"
  | _ => "X"
  end.

(** The interfaces of a snapshot: all of them, or those asked for that exist. *)
Definition validatedIfaces (ifaces : list string) (portCounters : jobj) : list string :=
  match ifaces with
  | [] => map fst (range_of portCounters)
  | _ => List.filter (fun i => bool_decide (is_Some (portCounters !! i))) ifaces
  end.

Definition countersOf (portCounters portRates portTable : jobj) (iface : string) : InterfaceCountersResponse :=
  let d := defaultMissingCounterValue in
  let portSpeed := GetFieldValueString portTable iface d "speed" in
  let rxBps := GetFieldValueString portRates iface d "RX_BPS" in
  let txBps := GetFieldValueString portRates iface d "TX_BPS" in
  mkCounters (computeState iface portTable)
    (GetSumFields portCounters iface d ["SAI_PORT_STAT_IF_IN_UCAST_PKTS"; "SAI_PORT_STAT_IF_IN_NON_UCAST_PKTS"])
    (calculateByteRate rxBps) (calculateUtil rxBps portSpeed)
    (GetFieldValueString portCounters iface d "SAI_PORT_STAT_IF_IN_ERRORS")
    (GetFieldValueString portCounters iface d "SAI_PORT_STAT_IF_IN_DISCARDS")
    (GetFieldValueString portCounters iface d "SAI_PORT_STAT_ETHER_RX_OVERSIZE_PKTS")
    (GetSumFields portCounters iface d ["SAI_PORT_STAT_IF_OUT_UCAST_PKTS"; "SAI_PORT_STAT_IF_OUT_NON_UCAST_PKTS"])
    (calculateByteRate txBps) (calculateUtil txBps portSpeed)
    (GetFieldValueString portCounters iface d "SAI_PORT_STAT_IF_OUT_ERRORS")
    (GetFieldValueString portCounters iface d "SAI_PORT_STAT_IF_OUT_DISCARDS")
    (GetFieldValueString portCounters iface d "SAI_PORT_STAT_ETHER_TX_OVERSIZE_PKTS").

Abbreviation Snapshot := (gmap string InterfaceCountersResponse).

Definition getInterfaceCountersSnapshot (db : Dbs) (ifaces : list string) : M Snapshot :=
  let! aliasCountersOutput := GetMapFromQueries db [["COUNTERS_DB"; "COUNTERS"; "Ethernet*"]] in
  let! portCounters := RemapAliasToPortName aliasCountersOutput in
  let! aliasRatesOutput := GetMapFromQueries db [["COUNTERS_DB"; "RATES"; "Ethernet*"]] in
  let! portRates := RemapAliasToPortName aliasRatesOutput in
  let! portTable := GetMapFromQueries db [["APPL_DB"; "PORT_TABLE"]] in
  ret (fold_left (fun m i => <[i := countersOf portCounters portRates portTable i]> m) (validatedIfaces ifaces portCounters) ∅).

(** What stands for the old values of an interface that was not there. *)
Definition zeroCounters : InterfaceCountersResponse := mkCounters "" "0" "" "" "0" "0" "" "0" "" "" "0" "0" "0".

Definition diffOf (oldSnapshot : Snapshot) (iface : string) (newResp : InterfaceCountersResponse) : InterfaceCountersResponse :=
  let oldResp := default zeroCounters (oldSnapshot !! iface) in
  let diff o n := calculateDiffCounters o n defaultMissingCounterValue in
  mkCounters (State newResp) (diff (RxOk oldResp) (RxOk newResp)) (RxBps newResp) (RxUtil newResp)
    (diff (RxErr oldResp) (RxErr newResp)) (diff (RxDrp oldResp) (RxDrp newResp)) (diff (RxOvr oldResp) (RxOvr newResp))
    (diff (TxOk oldResp) (TxOk newResp)) (TxBps newResp) (TxUtil newResp)
    (diff (TxErr oldResp) (TxErr newResp)) (diff (TxDrp oldResp) (TxDrp newResp)) (diff (TxOvr oldResp) (TxOvr newResp)).

Definition calculateDiffSnapshot (oldSnapshot newSnapshot : Snapshot) : Snapshot := map_imap (fun i r => Some (diffOf oldSnapshot i r)) newSnapshot.

(** [getInterfaceCounters]: the databases before and after the period. *)
Definition getInterfaceCounters (db later : Dbs) (options : OptionMap) : M Snapshot :=
  let ifaces := default [] (Strings (options !! "interfaces")) in
  let takeDiffSnapshot := Int_ (options !! "period") in
  if (maxShowCommandPeriod <? default 0 takeDiffSnapshot)%Z then fail PeriodTooLong
  else
    let! oldSnapshot := getInterfaceCountersSnapshot db ifaces in
    match takeDiffSnapshot with
    | None => ret oldSnapshot
    | Some _ => let! newSnapshot := getInterfaceCountersSnapshot later ifaces in ret (calculateDiffSnapshot oldSnapshot newSnapshot)
    end.

(** * Interface errors and FEC *)

Definition allPortErrors : list (string * string) :=
  [("oper_error_status", "oper_error_status_time"); ("mac_local_fault_count", "mac_local_fault_time"); ("mac_remote_fault_count", "mac_remote_fault_time");
   ("fec_sync_loss_count", "fec_sync_loss_time"); ("fec_alignment_loss_count", "fec_alignment_loss_time"); ("high_ser_error_count", "high_ser_error_time");
   ("high_ber_error_count", "high_ber_error_time"); ("data_unit_crc_error_count", "data_unit_crc_error_time");
   ("data_unit_misalignment_error_count", "data_unit_misalignment_error_time"); ("signal_local_error_count", "signal_local_error_time");
   ("crc_rate_count", "crc_rate_time"); ("data_unit_size_count", "data_unit_size_time"); ("code_group_error_count", "code_group_error_time");
   ("no_rx_reachability_count", "no_rx_reachability_time")].

Record PortError := mkPortError { peName : string; peCount : string; peTime : string }.

Definition portErrorOf (tbl : jobj) (e : string * string) : PortError :=
  mkPortError (replace_all (replace_all e.1 "_" " ") " count" "") (match tbl !! e.1 with Some v => sprint v | None => "0" end)
    (match tbl !! e.2 with Some v => sprint v | None => "Never" end).

(** An error of the query (not a panic) is dropped: the table is empty then. *)
Definition getInterfaceErrors (db : Dbs) (options : OptionMap) : M (list PortError) :=
  match String_ (options !! "interface") with
  | None => fail NoInterfaceName
  | Some intf =>
      let! portErrorsTbl := (fun vs => match GetMapFromQueries db [["STATE_DB"; "PORT_OPERR_TABLE"; intf]] vs with
                                       | (vs, Ok m) => (vs, Ok m)
                                       | (vs, Err (DbErr DbClient.Panic)) => (vs, Err (DbErr DbClient.Panic))
                                       | (vs, Err _) => (vs, Ok ∅) end) in
      let! portErrorsTbl := RemapAliasToPortName portErrorsTbl in
      ret (map (portErrorOf portErrorsTbl) allPortErrors)
  end.

Definition getFrontPanelPorts (db : Dbs) (intf : string) : M (list string) :=
  let! frontPanelPorts := GetMapFromQueries db [["CONFIG_DB"; "PORT"]] in
  if negb (String.eqb intf "") then
    match frontPanelPorts !! intf with None => fail (NotFrontPanel intf) | Some _ => ret [intf] end
  else ret (map fst (range_of frontPanelPorts)).

Variable natsortInterfaces : list string -> list string.

Record FecStatus := mkFec { fecInterface : string; fecOper : string; fecAdmin : string }.

Definition fieldOrNA (data : jobj) (f : string) : string := match data !! f with Some v => sprint v | None => "N/A" end.

Definition fecOf (db : Dbs) (port : string) : M FecStatus :=
  let! appl := GetMapFromQueries db [["APPL_DB"; "PORT_TABLE"; port]] in
  let! state := GetMapFromQueries db [["STATE_DB"; "PORT_TABLE"; port]] in
  ret (mkFec port (if String.eqb (fieldOrNA appl "oper_status") "up" then fieldOrNA state "fec" else "N/A") (fieldOrNA appl "fec")).

Definition getInterfaceFecStatus (db : Dbs) (options : OptionMap) : M (list FecStatus) :=
  let! ports := getFrontPanelPorts db (default "" (String_ (options !! "interface"))) in
  foldMM (fun l port => let! s := fecOf db port in ret (l ++ [s])) [] (natsortInterfaces ports).

(** * Modules of a chassis *)

Definition moduleQuery (db table moduleName : string) : list string := if String.eqb moduleName "" then [db; table] else [db; table; moduleName].

(** [json.Unmarshal] into a map. *)
Definition parseMap (b : string) : M jobj := match unmarshal b with Some m => ret m | None => fail BadOutput end.

Definition getChassisModuleData (db : Dbs) (moduleName : string) : M (jobj * jobj) :=
  let! stateDataBytes := GetDataFromQueries db [moduleQuery "STATE_DB" "CHASSIS_MODULE_TABLE" moduleName] in
  let! configDataBytes := GetDataFromQueries db [moduleQuery "CONFIG_DB" "CHASSIS_MODULE" moduleName] in
  let! stateData := parseMap stateDataBytes in
  let! configData := parseMap configDataBytes in
  ret (stateData, configData).

Record ChassisModuleStatus := mkModule { mName : string; mDescription : string; mSlot : string; mOperStatus : string; mAdminStatus : string; mSerial : string }.

Definition setState (m : ChassisModuleStatus) (kv : string * json) : ChassisModuleStatus :=
  match kv.2 with
  | JStr v =>
      if String.eqb kv.1 "desc" then mkModule (mName m) v (mSlot m) (mOperStatus m) (mAdminStatus m) (mSerial m)
      else if String.eqb kv.1 "slot" then mkModule (mName m) (mDescription m) v (mOperStatus m) (mAdminStatus m) (mSerial m)
      else if String.eqb kv.1 "oper_status" then mkModule (mName m) (mDescription m) (mSlot m) v (mAdminStatus m) (mSerial m)
      else if String.eqb kv.1 "serial" then mkModule (mName m) (mDescription m) (mSlot m) (mOperStatus m) (mAdminStatus m) v
      else m
  | _ => m
  end.

Definition setConfig (m : ChassisModuleStatus) (kv : string * json) : ChassisModuleStatus :=
  match kv.2 with
  | JStr v => if String.eqb kv.1 "admin_status" then mkModule (mName m) (mDescription m) (mSlot m) (mOperStatus m) v (mSerial m) else m
  | _ => m
  end.

Definition createModuleStatusFromFlatData (moduleName : string) (stateData configData : jobj) : ChassisModuleStatus :=
  fold_left setConfig (range_of configData) (fold_left setState (range_of stateData) (mkModule moduleName "" "N/A" "" "up" "")).

Inductive ModulesAnswer := AllModules (m : gmap string jobj) | OneModule (name : string) (m : ChassisModuleStatus).

(** The fields of one module of the whole table. *)
Definition moduleFields (stateInfo : jobj) (configInfo : option json) : jobj :=
  let filteredState := omap (fun f => (fun v => (f, v)) <$> stateInfo !! f) ["desc"; "oper_status"; "serial"; "slot"] in
  let filtered : jobj := fold_left (fun m fv => <[fv.1 := fv.2]> m) filteredState ∅ in
  match configInfo with
  | Some (JObj c) => match c !! "admin_status" with Some a => <["admin_status" := a]> filtered | None => filtered end
  | _ => filtered
  end.

Definition getChassisModuleStatus (db : Dbs) (options : OptionMap) : M ModulesAnswer :=
  match String_ (options !! "dpu") with
  | Some moduleName =>
      if String.eqb moduleName "" then fail EmptyModuleName
      else
        let! data := getChassisModuleData db moduleName in
        match data.1 !! "desc" with
        | None => fail (ModuleNotFound moduleName)
        | Some _ => ret (OneModule moduleName (createModuleStatusFromFlatData moduleName data.1 data.2))
        end
  | None =>
      let! data := getChassisModuleData db "" in
      ret (AllModules (map_imap (fun name info => match info with JObj s => Some (moduleFields s (data.2 !! name)) | _ => None end) data.1))
  end.

Record MidplaneStatus := mkMidplane { pName : string; IPAddress : string; Reachability : string }.

Definition setMidplane (m : MidplaneStatus) (kv : string * json) : MidplaneStatus :=
  match kv.2 with
  | JStr v => if String.eqb kv.1 "ip_address" then mkMidplane (pName m) v (Reachability m)
              else if String.eqb kv.1 "access" then mkMidplane (pName m) (IPAddress m) v else m
  | _ => m
  end.

Definition getChassisModuleMidplaneData (db : Dbs) (moduleName : string) : M jobj :=
  let! stateDataBytes := GetDataFromQueries db [moduleQuery "STATE_DB" "CHASSIS_MIDPLANE_TABLE" moduleName] in parseMap stateDataBytes.

Inductive MidplaneAnswer := AllMidplanes (m : gmap string jobj) | OneMidplane (name : string) (m : MidplaneStatus).

Definition getChassisModuleMidplaneStatus (db : Dbs) (options : OptionMap) : M MidplaneAnswer :=
  match String_ (options !! "dpu") with
  | Some moduleName =>
      if String.eqb moduleName "" then fail EmptyModuleName
      else
        let! stateData := getChassisModuleMidplaneData db moduleName in
        match stateData !! "ip_address" with
        | None => fail (ModuleNotFound moduleName)
        | Some _ => ret (OneMidplane moduleName (fold_left setMidplane (range_of stateData) (mkMidplane moduleName "" "")))
        end
  | None =>
      let! stateData := getChassisModuleMidplaneData db "" in
      ret (AllMidplanes (omap (fun info => match info with JObj s => Some s | _ => None end) stateData))
  end.

(** * Health of the DPUs *)

Record DpuStateRow := mkRow { rName : string; rOperStatus : string; StateDetail : string; StateValue : string; Time : string; Reason : string }.

Definition isUp (v : string) : bool := String.eqb (to_lower v) "up".

Definition countState (acc : bool * nat) (kv : string * json) : bool * nat :=
  match kv.2 with
  | JStr v =>
      if has_suffix kv.1 "_state" then
        (acc.1 || (str_contains kv.1 "midplane" && String.eqb (to_lower v) "down"), if isUp v then S acc.2 else acc.2)
      else acc
  | _ => acc
  end.

Definition determineOperStatus (stateInfo : jobj) : string :=
  let '(midplaneDown, upCount) := fold_left countState (range_of stateInfo) (false, 0) in
  if midplaneDown then "Offline" else if upCount =? 3 then "Online" else "Partial Online".

Definition setRow (stateType : string) (row : DpuStateRow) (kv : string * json) : DpuStateRow :=
  match kv.2 with
  | JStr v =>
      if negb (str_contains kv.1 stateType) then row
      else if has_suffix kv.1 "_state" then mkRow (rName row) (rOperStatus row) kv.1 v (Time row) (if isUp v then "" else Reason row)
      else if has_suffix kv.1 "_time" then mkRow (rName row) (rOperStatus row) (StateDetail row) (StateValue row) v (Reason row)
      else if has_suffix kv.1 "_reason" then
        (if isUp (StateValue row) then row else mkRow (rName row) (rOperStatus row) (StateDetail row) (StateValue row) (Time row) v)
      else row
  | _ => row
  end.

Definition rowOf (moduleName : string) (stateInfo : jobj) (stateType : string) : DpuStateRow :=
  fold_left (setRow stateType) (range_of stateInfo) (mkRow moduleName (determineOperStatus stateInfo) "" "" "" "").

Definition createDpuStateRowsFromData (moduleName : string) (stateInfo : jobj) : list DpuStateRow :=
  List.filter (fun r => negb (String.eqb (StateDetail r) "")) (map (rowOf moduleName stateInfo) ["midplane"; "control"; "data"]).

Definition getChassisDataDirect (db : Dbs) (moduleName : string) : M jobj :=
  let single := negb (String.eqb moduleName "") && negb (String.eqb moduleName "all") in
  let! data := GetMapFromQueries db [if single then ["CHASSIS_STATE_DB"; "DPU_STATE"; moduleName] else ["CHASSIS_STATE_DB"; "DPU_STATE"]] in
  ret (if single && negb (base.size data =? 0) then {[moduleName := JObj data]} else data).

(** [sort.Slice] by the names of the modules. *)
Variable sortByName : list DpuStateRow -> list DpuStateRow.

Definition getSystemHealthDpu (db : Dbs) (options : OptionMap) : M (list DpuStateRow) :=
  let moduleName := default "all" (String_ (options !! "dpu")) in
  let! stateData := getChassisDataDirect db moduleName in
  let rows := concat (map (fun kv => match kv.2 with JObj s => createDpuStateRowsFromData kv.1 s | _ => [] end) (range_of stateData)) in
  match rows with [] => fail (ModuleNotFound moduleName) | _ => ret (sortByName rows) end.

(** * BGP neighbours *)

(** The answer of vtysh: the part that is handed on, and the peers by their address. *)
Context {Header PeerData : Type}.
Record Peer := mkPeer { peerData : PeerData; NeighborName : string }.
Record BgpSummary := mkSummary { header : Header; Peers : gmap string Peer }.
Variable parseSummary : string -> option BgpSummary.

Definition quote : string := String (Ascii.ascii_of_nat 34) "".
Definition vtyshBGPIPv6SummaryCommand : string := "vtysh -c " +:+ quote +:+ "show bgp ipv6 summary json" +:+ quote.

Definition neighborName (table : jobj) (ip : string) : string :=
  match table !! ip with
  | Some (JObj entry) => match entry !! "name" with Some (JStr n) => n | _ => "NotAvailable" end
  | _ => "NotAvailable"
  end.

Definition getIPv6BGPSummary (db : Dbs) : M BgpSummary :=
  let! output := GetDataFromHostCommand vtyshBGPIPv6SummaryCommand in
  match parseSummary output with
  | None => fail BadOutput
  | Some r =>
      let! table := GetMapFromQueries db [["CONFIG_DB"; "BGP_NEIGHBOR"]] in
      ret (mkSummary (header r) (map_imap (fun ip p => Some (mkPeer (peerData p) (neighborName table ip))) (Peers r)))
  end.

(** * Time zones *)

(** A directory as [filepath.WalkDir] goes through it, in lexical order; a directory that
    cannot be read. *)
Inductive Entry := File (name : string) | Unreadable (name : string) | Dir (name : string) (l : list Entry).

Definition skippedDirs : list string := ["posix"; "right"; "SystemV"].
Definition skippedFiles : list string :=
  ["localtime"; "zone.tab"; "zone1970.tab"; "iso3166.tab"; "leapseconds"; "leap-seconds.list"; "tzdata.zi"; "posixrules"].

(** The zones below an entry, with the path relative to the root of the walk; [None]: an error
    ends the walk. *)
Fixpoint walkZones (rel : string) (e : Entry) : option (list string) :=
  match e with
  | File name => Some (if bool_decide (name ∈ skippedFiles) then [] else [rel +:+ name])
  | Unreadable name => if bool_decide (name ∈ skippedDirs) then Some [] else None
  | Dir name l =>
      if bool_decide (name ∈ skippedDirs) then Some []
      else (fix walkAll (l : list Entry) : option (list string) :=
              match l with
              | [] => Some []
              | e :: l => zs ← walkZones (rel +:+ name +:+ "/") e; zs' ← walkAll l; Some (zs ++ zs')
              end) l
  end.

Fixpoint walkRoot (l : list Entry) : option (list string) :=
  match l with
  | [] => Some []
  | e :: l => zs ← walkZones "" e; zs' ← walkRoot l; Some (zs ++ zs')
  end.

(** [zoneInfoRunner] on the directory ([None]: it is not there); [None]: an error. *)
Definition zoneInfoRunner (root : option Entry) : option (list string) :=
  zones ← match root with
          | None => None
          | Some (Unreadable name) => if bool_decide (name ∈ skippedDirs) then Some [] else None
          | Some (File name) => Some (if bool_decide (name ∈ skippedFiles) then [] else ["."])
          | Some (Dir name l) => if bool_decide (name ∈ skippedDirs) then Some [] else walkRoot l
          end;
  Some (merge_sort String.le zones).

(** * The other commands *)

Definition getPreviousRebootCause : M string := GetDataFromFile "/host/reboot-cause/previous-reboot-cause.json".

Definition getRebootCauseHistory (db : Dbs) : M string := GetDataFromQueries db [["STATE_DB"; "REBOOT_CAUSE"]].

Definition getTransceiverErrorStatus (db : Dbs) (options : OptionMap) : M string :=
  let intf := default "" (String_ (options !! "interface")) in
  GetDataFromQueries db [if String.eqb intf "" then ["STATE_DB"; "TRANSCEIVER_STATUS_SW"] else ["STATE_DB"; "TRANSCEIVER_STATUS_SW"; intf]].

Definition getWatermarkTelemetryInterval (db : Dbs) : M string :=
  let! data := GetMapFromQueries db [["CONFIG_DB"; "WATERMARK_TABLE"; "TELEMETRY_INTERVAL"]] in
  ret ((match data !! "interval" with
        | Some JNull | None => "120"
        | Some v => if String.eqb (sprint v) "" then "120" else sprint v
        end) +:+ "s").

End Commands.

(** * The table of commands *)

Inductive Cmd := PreviousRebootCause | RebootCauseHistory | ChassisModuleStatus_ | ChassisModuleMidplaneStatus_ | SystemHealthDpu | Date | DateTimezone
  | IPv6BGPSummary | InterfaceCounters | InterfaceErrors | InterfaceFecStatus | WatermarkTelemetryInterval | TransceiverErrorStatus.

Definition showCmdOptionVerbose := NewShowCmdOption "verbose" "[verbose=true] Enable verbose output" BoolValue.
Definition showCmdOptionNamespace := NewShowCmdOption "namespace" "UNIMPLEMENTED" StringValue.
Definition showCmdOptionDisplay := NewShowCmdOption "display" "[display=all] No-op since no-multi-asic support" StringValue.
Definition showCmdOptionInterfaces := NewShowCmdOption "interfaces" "[interfaces=TEXT] Filter by interfaces name" StringSliceValue.
Definition showCmdOptionPeriod := NewShowCmdOption "period" "[period=INTEGER] Display statistics over a specified period (in seconds)" IntValue.
Definition showCmdOptionJson := NewShowCmdOption "json" "[json=true] No-op since response is in json format" BoolValue.
Definition showCmdOptionInterface := NewShowCmdOption "interface" "[interface=TEXT] Filter by single interface name" StringValue.
Definition showCmdOptionFetchFromHW := NewShowCmdOption "fetch-from-hardware" "UNIMPLEMENTED" StringValue.
Definition showCmdOptionDpu := NewShowCmdOption "dpu" "[dpu=TEXT] Filter by DPU module name" StringValue.

(** The calls of [RegisterCliPath] in [init]. *)
Definition showPaths : list (list string * Cmd * option (gmap string string) * list ShowCmdOption) :=
  [(["SHOW"; "reboot-cause"], PreviousRebootCause, Some {["history" := "show/reboot-cause/history: Show history of reboot-cause"]}, []);
   (["SHOW"; "reboot-cause"; "history"], RebootCauseHistory, None, []);
   (["SHOW"; "chassis"; "modules"; "status"], ChassisModuleStatus_, None, [showCmdOptionDpu]);
   (["SHOW"; "chassis"; "modules"; "midplane-status"], ChassisModuleMidplaneStatus_, None, [showCmdOptionDpu]);
   (["SHOW"; "system-health"; "dpu"], SystemHealthDpu, None, [showCmdOptionDpu]);
   (["SHOW"; "clock"], Date, Some {["timezones" := "show/clock/timezones: List of available timezones"]}, [showCmdOptionVerbose]);
   (["SHOW"; "clock"; "timezones"], DateTimezone, None, [showCmdOptionVerbose]);
   (["SHOW"; "ipv6"; "bgp"; "summary"], IPv6BGPSummary, None, [UnimplementedOption showCmdOptionNamespace; showCmdOptionDisplay]);
   (["SHOW"; "interface"; "counters"], InterfaceCounters, None,
     [UnimplementedOption showCmdOptionNamespace; showCmdOptionDisplay; showCmdOptionInterfaces; showCmdOptionPeriod; showCmdOptionJson; showCmdOptionVerbose]);
   (["SHOW"; "interface"; "errors"], InterfaceErrors, None, [RequiredOption showCmdOptionInterface]);
   (["SHOW"; "interface"; "fec"; "status"], InterfaceFecStatus, None, [showCmdOptionInterface]);
   (["SHOW"; "watermark"; "telemetry"; "interval"], WatermarkTelemetryInterval, None, []);
   (["SHOW"; "interface"; "transceiver"; "error-status"], TransceiverErrorStatus, None,
     [showCmdOptionVerbose; UnimplementedOption showCmdOptionNamespace; UnimplementedOption showCmdOptionFetchFromHW; showCmdOptionInterface])].

Definition showTrie `{!MapRange} : @Trie.Trie.Trie (ShowPathConfig (Cmd := Cmd)) :=
  fold_left (fun t '(path, cmd, sub, opts) => RegisterCliPath path cmd sub opts t) showPaths Trie.Trie.NewTrie.

End ShowCommands.
