(* ===== verification/ShowProofs.v ===== *)
(** Theorems about the show client: options, counters, states of modules and DPUs, time
    zones, and what the code does not intend. *)

From S2P Require Import Prelude GnmiTypes DbTypes VirtualDb JsonClient DbClient NonDb ShowClient ShowCommands.
Import JsonClient ShowClient ShowCommands.
Open Scope go_scope.

(** * Options *)

(** The options of a path: those of later elements count. *)
Definition passedIn (es : list PathElem) : gmap string string := fold_left (fun m e => elem_key e ∪ m) es ∅.

Lemma checkKeys_spec opts kvs : forall passed, NoDup kvs.*1 ->
  match checkKeys opts kvs passed with
  | Ok m => (forall k v, (k, v) ∈ kvs -> is_Some (opts !! k)) /\ m = list_to_map kvs ∪ passed
  | Err e => exists k v, (k, v) ∈ kvs /\ opts !! k = None /\ e = UnknownOption k
  end.
Proof.
  induction kvs as [|[k v] kvs IH]; intros passed Hnd; cbn.
  - split; [by intros ? ? ?%elem_of_nil|by rewrite map_empty_union].
  - apply NoDup_cons in Hnd as [Hni Hnd]. destruct (opts !! k) as [o|] eqn:Ho; [|exists k, v; set_solver].
    specialize (IH (<[k := v]> passed) Hnd). destruct (checkKeys opts kvs _) as [m|e].
    + destruct IH as (Hall & ->). split; [intros k' v' [[= -> ->]|H]%elem_of_cons; [by rewrite Ho|by eapply Hall]|].
      cbn. rewrite <- insert_union_l, <- insert_union_r; [done|]. by apply not_elem_of_list_to_map_1.
    + destruct IH as (k' & v' & ? & ? & ?). exists k', v'. set_solver.
Qed.

Section Options.
Context {mr : MapRange}.

Lemma range_NoDup {V} (m : gmap string V) : NoDup (range_of m).*1.
Proof. rewrite range_of_perm. apply NoDup_fst_map_to_list. Qed.

Lemma range_map {V} (m : gmap string V) : list_to_map (range_of m) = m.
Proof. rewrite <- (list_to_map_to_list m) at 2. apply list_to_map_proper; [apply range_NoDup|apply range_of_perm]. Qed.

Lemma checkElems_spec opts es : forall passed,
  match checkElems opts es passed with
  | Ok m => (forall e k, e ∈ es -> is_Some (elem_key e !! k) -> is_Some (opts !! k)) /\ m = fold_left (fun m e => elem_key e ∪ m) es passed
  | Err err => exists e k, e ∈ es /\ is_Some (elem_key e !! k) /\ opts !! k = None /\ err = UnknownOption k
  end.
Proof.
  induction es as [|e es IH]; intros passed; cbn [checkElems fold_left].
  - split; [by intros ? ? ?%elem_of_nil|done].
  - pose proof (checkKeys_spec opts (range_of (elem_key e)) passed (range_NoDup _)) as Hk. destruct (checkKeys _ _ _) as [m|err].
    + destruct Hk as (Hall & ->). rewrite range_map. specialize (IH (elem_key e ∪ passed)). destruct (checkElems _ _ _).
      * destruct IH as (Hes & ->). split; [|done]. intros e' k [->|He]%elem_of_cons [v Hv]; [|by eapply Hes]. apply (Hall k v). by apply elem_of_range.
      * destruct IH as (e' & k & ? & ?). exists e', k. set_solver.
    + destruct Hk as (k & v & Hin & Hn & ->). exists e, k. apply elem_of_range in Hin. split_and!; [set_solver|by rewrite Hin|done|done].
Qed.

Lemma validateLoop_spec passed opts : forall m, NoDup opts.*1 ->
  match validateLoop passed opts m with
  | Ok m' =>
      (forall n c, (n, c) ∈ opts -> optType c = Required -> is_Some (passed !! n)) /\
      (forall n c v, (n, c) ∈ opts -> passed !! n = Some v -> optType c <> Unimplemented /\ exists x, parseOption n (valueType c) v = Ok x /\ m' !! n = Some x) /\
      (forall n, (n ∉ opts.*1 \/ passed !! n = None) -> m' !! n = m !! n)
  | Err e => exists n c, (n, c) ∈ opts /\
      match passed !! n with
      | None => optType c = Required /\ e = OptionRequired n
      | Some v => (optType c = Unimplemented /\ e = OptionUnimplemented n) \/ (optType c <> Unimplemented /\ parseOption n (valueType c) v = Err e)
      end
  end.
Proof.
  induction opts as [|[n c] opts IH]; intros m Hnd; cbn [validateLoop].
  - split_and!; [by intros ? ? ?%elem_of_nil|by intros ? ? ? ?%elem_of_nil|done].
  - rewrite fmap_cons in Hnd. apply NoDup_cons in Hnd as [Hni Hnd]. cbn [fst] in Hni.
    assert (forall c', (n, c') ∉ opts) as Hno by (intros c' H; apply Hni, list_elem_of_fmap; by exists (n, c')).
    destruct (passed !! n) as [v|] eqn:Hp.
    + destruct (decide (optType c = Unimplemented)) as [Hu|Hu]; [rewrite Hu; exists n, c; rewrite Hp; set_solver|].
      assert (forall A (a b : A), match optType c with Unimplemented => a | _ => b end = b) as -> by (by destruct (optType c)).
      destruct (parseOption n (valueType c) v) as [x|e] eqn:Hx; [|exists n, c; rewrite Hp; set_solver].
      specialize (IH (<[n := x]> m) Hnd). destruct (validateLoop _ _ _) as [m'|e].
      * destruct IH as (I1 & I2 & I3). split_and!.
        -- intros n' c' [[= -> ->]|H]%elem_of_cons ?; [by rewrite Hp|by eapply I1].
        -- intros n' c' v' [[= -> ->]|H]%elem_of_cons Hv; [|by eapply I2]. split; [done|]. exists x. rewrite Hp in Hv. injection Hv as <-.
           split; [done|]. rewrite I3 by (left; done). apply lookup_insert_eq.
        -- intros n' Hn. rewrite fmap_cons in Hn. cbn [fst] in Hn. assert (n' <> n) by (destruct Hn; [set_solver|congruence]). rewrite I3 by set_solver. by apply lookup_insert_ne.
      * destruct IH as (n' & c' & ? & ?). exists n', c'. set_solver.
    + destruct (decide (optType c = Required)) as [Hr|Hr]; [rewrite Hr; exists n, c; rewrite Hp; set_solver|].
      assert (forall A (a b : A), match optType c with Required => a | _ => b end = b) as -> by (by destruct (optType c)).
      specialize (IH m Hnd). destruct (validateLoop _ _ _) as [m'|e].
      * destruct IH as (I1 & I2 & I3). split_and!.
        -- intros n' c' [[= -> ->]|H]%elem_of_cons ?; [done|by eapply I1].
        -- intros n' c' v' [[= -> ->]|H]%elem_of_cons Hv; [congruence|by eapply I2].
        -- intros n' Hn. apply I3. rewrite fmap_cons in Hn. destruct Hn; [set_solver|by right].
      * destruct IH as (n' & c' & ? & ?). exists n', c'. set_solver.
Qed.

(** What the options of a request are when it is accepted, and why it can be refused. *)
Record OptionsOk (opts : gmap string ShowCmdOption) (path : Path) (m : OptionMap) : Prop := {
  oo_known : forall e k, e ∈ path_elem path -> is_Some (elem_key e !! k) -> is_Some (opts !! k);
  oo_required : forall n c, opts !! n = Some c -> optType c = Required -> is_Some (passedIn (path_elem path) !! n);
  oo_implemented : forall n c, opts !! n = Some c -> optType c = Unimplemented -> passedIn (path_elem path) !! n = None;
  oo_values : forall n, m !! n = match opts !! n, passedIn (path_elem path) !! n with
    | Some c, Some v => match parseOption n (valueType c) v with Ok x => Some x | Err _ => None end | _, _ => None end;
  oo_typed : forall n c v, opts !! n = Some c -> passedIn (path_elem path) !! n = Some v -> is_Some (m !! n)
}.

Definition Refused (opts : gmap string ShowCmdOption) (path : Path) (e : OptionErr) : Prop :=
  (exists el k, el ∈ path_elem path /\ is_Some (elem_key el !! k) /\ opts !! k = None /\ e = UnknownOption k) \/
  (exists n c, opts !! n = Some c /\
    match passedIn (path_elem path) !! n with
    | None => optType c = Required /\ e = OptionRequired n
    | Some v => (optType c = Unimplemented /\ e = OptionUnimplemented n) \/ (optType c <> Unimplemented /\ parseOption n (valueType c) v = Err e)
    end).

(** C35. The options that a command gets are those of the request: each is registered and has
    the type it was registered with, required ones are there, unimplemented ones are not; a
    request is refused only when one of this fails, whatever the order of the maps is. *)
Theorem options_exact opts path :
  match ParseOptions opts path with
  | Ok m => OptionsOk opts path m /\ (forall e, ~ Refused opts path e)
  | Err e => Refused opts path e
  end.
Proof.
  unfold ParseOptions, checkOptionsInPath. pose proof (checkElems_spec opts (path_elem path) ∅) as Hc. destruct (checkElems _ _ _) as [p|e]; [|by left].
  destruct Hc as (Hk & ->). fold (passedIn (path_elem path)). unfold validateOptions.
  pose proof (validateLoop_spec (passedIn (path_elem path)) (range_of opts) ∅ (range_NoDup _)) as Hv. destruct (validateLoop _ _ _) as [m|e].
  - destruct Hv as (V1 & V2 & V3). setoid_rewrite elem_of_range in V1. setoid_rewrite elem_of_range in V2.
    assert (forall n, opts !! n = None -> n ∉ (range_of opts).*1) as Hdom.
    { intros n Hn ([? c] & -> & H)%list_elem_of_fmap. apply elem_of_range in H. cbn in Hn. congruence. }
    split; [split; try done|].
    + intros n c Hn Hu. destruct (passedIn _ !! n) as [v|] eqn:Hp; [|done]. by destruct (V2 n c v Hn Hp).
    + intros n. destruct (opts !! n) as [c|] eqn:Hn; [|rewrite V3 by auto; apply lookup_empty]. destruct (passedIn _ !! n) as [v|] eqn:Hp; [|rewrite V3 by auto; apply lookup_empty].
      destruct (V2 n c v Hn Hp) as (_ & x & Hx & ->). by rewrite Hx.
    + intros n c v Hn Hp. destruct (V2 n c v Hn Hp) as (_ & x & _ & ->). by eexists.
    + intros e [(el & k & Hel & Hkk & Hnone & _)|(n & c & Hn & Hm)]; [destruct (Hk el k Hel Hkk); congruence|].
      destruct (passedIn _ !! n) as [v|] eqn:Hp.
      * destruct (V2 n c v Hn Hp) as (Hu & x & Hx & _). destruct Hm as [[? _]|[_ ?]]; congruence.
      * destruct Hm as (Hr & _). destruct (V1 n c Hn Hr). congruence.
  - destruct Hv as (n & c & Hin & Hm). right. exists n, c. apply elem_of_range in Hin. done.
Qed.

End Options.

(** * Fields read in any order *)

(** A function that takes a field from its entry, whatever entries come before and after. *)
Lemma fold_field {mr : MapRange} {S} (f : S -> string * json -> S) (g : S -> string) k (m : jobj) s0 :
  (forall s kv, g (f s kv) = if decide (kv.1 = k) then match kv.2 with JStr v => v | _ => g s end else g s) ->
  g (fold_left f (range_of m) s0) = match m !! k with Some (JStr v) => v | _ => g s0 end.
Proof.
  intros Hf. rewrite <- (range_map m) at 2. pose proof (range_NoDup m) as Hnd. generalize dependent (range_of m). intros l Hnd. revert s0.
  induction l as [|[k' v] l IH]; intros s0; [done|]. rewrite fmap_cons in Hnd. apply NoDup_cons in Hnd as [Hni Hnd]. cbn [fold_left list_to_map fst]. rewrite IH, Hf by done. cbn [fst snd].
  destruct (decide (k' = k)) as [->|Hne].
  - change (list_to_map ((k, v) :: l) : jobj) with (<[k := v]> (list_to_map l : jobj)). rewrite lookup_insert_eq.
    rewrite (not_elem_of_list_to_map_1 l k) by done. by destruct v.
  - change (list_to_map ((k', v) :: l) : jobj) with (<[k' := v]> (list_to_map l : jobj)). by rewrite lookup_insert_ne.
Qed.

(** A field that a function does not touch. *)
Lemma fold_keep {S A} (f : S -> A -> S) (g : S -> string) l : (forall s x, g (f s x) = g s) -> forall s0, g (fold_left f l s0) = g s0.
Proof. intros Hf. induction l as [|x l IH]; intros s0; [done|]. cbn. by rewrite IH, Hf. Qed.

Definition strField (m : jobj) (k d : string) : string := match m !! k with Some (JStr v) => v | _ => d end.

Ltac fieldwise :=
  intros t [k []]; unfold setState, setConfig, setMidplane; cbn [fst snd];
  repeat (match goal with |- context [String.eqb ?a ?b] => destruct (String.eqb_spec a b) as [->|] end; cbn); by repeat case_decide.

(** The status of a module is read from the fields of the two tables, with the defaults for
    those that are missing, whatever the order of the maps is. *)
Theorem module_status_exact {mr : MapRange} name stateData configData :
  createModuleStatusFromFlatData name stateData configData =
  mkModule name (strField stateData "desc" "") (strField stateData "slot" "N/A") (strField stateData "oper_status" "")
    (strField configData "admin_status" "up") (strField stateData "serial" "").
Proof.
  unfold createModuleStatusFromFlatData. set (m0 := mkModule name "" "N/A" "" "up" ""). set (s := fold_left setConfig _ _).
  assert (forall x : ChassisModuleStatus, x = mkModule (mName x) (mDescription x) (mSlot x) (mOperStatus x) (mAdminStatus x) (mSerial x)) as Heta by (by intros []).
  rewrite (Heta s). unfold s. f_equal.
  - rewrite !(fold_keep _ mName) by fieldwise. done.
  - rewrite (fold_keep setConfig mDescription) by fieldwise. rewrite (fold_field setState mDescription "desc") by fieldwise. done.
  - rewrite (fold_keep setConfig mSlot) by fieldwise. rewrite (fold_field setState mSlot "slot") by fieldwise. done.
  - rewrite (fold_keep setConfig mOperStatus) by fieldwise. rewrite (fold_field setState mOperStatus "oper_status") by fieldwise. done.
  - rewrite (fold_field setConfig mAdminStatus "admin_status") by fieldwise. rewrite (fold_keep setState mAdminStatus) by fieldwise. done.
  - rewrite (fold_keep setConfig mSerial) by fieldwise. rewrite (fold_field setState mSerial "serial") by fieldwise. done.
Qed.

(** The same of the midplane. *)
Theorem midplane_status_exact {mr : MapRange} name stateData :
  fold_left setMidplane (range_of stateData) (mkMidplane name "" "") = mkMidplane name (strField stateData "ip_address" "") (strField stateData "access" "").
Proof.
  set (s := fold_left setMidplane _ _). assert (forall x : MidplaneStatus, x = mkMidplane (pName x) (IPAddress x) (Reachability x)) as Heta by (by intros []).
  rewrite (Heta s). unfold s. f_equal.
  - rewrite (fold_keep _ pName) by fieldwise. done.
  - rewrite (fold_field setMidplane IPAddress "ip_address") by fieldwise. done.
  - rewrite (fold_field setMidplane Reachability "access") by fieldwise. done.
Qed.

(** * Health of the DPUs *)

Lemma fold_left_perm {S A} (f : S -> A -> S) l1 l2 : (forall s x y, f (f s x) y = f (f s y) x) -> l1 ≡ₚ l2 -> forall s, fold_left f l1 s = fold_left f l2 s.
Proof. intros Hf. induction 1 as [| |x y l|l1 l2 l3 _ IH1 _ IH2]; intros s; cbn; auto; [by rewrite Hf|by rewrite IH1]. Qed.

Lemma countState_comm s x y : countState (countState s x) y = countState (countState s y) x.
Proof.
  destruct s as [b n], x as [k1 v1], y as [k2 v2]. unfold countState. cbn [fst snd]. destruct v1, v2; try done; destruct (has_suffix k1 "_state"), (has_suffix k2 "_state"); try done.
  cbn [fst snd]. rewrite <- !orb_assoc, (orb_comm (_ && _) (_ && _)). by destruct (isUp _), (isUp _).
Qed.

(** The state of a DPU does not depend on the order of the map. *)
Lemma oper_status_order (r1 r2 : MapRange) stateInfo : @determineOperStatus r1 stateInfo = @determineOperStatus r2 stateInfo.
Proof.
  unfold determineOperStatus. rewrite (fold_left_perm countState (@range_of r1 _ stateInfo) (@range_of r2 _ stateInfo)); [done|apply countState_comm|].
  by rewrite (@range_of_perm r1), (@range_of_perm r2).
Qed.

(** What an entry is for a row. *)
Inductive Role := RState | RTime | RReason.

#[local] Instance Role_eq_dec : EqDecision Role.
Proof. solve_decision. Defined.

Definition roleOf (stateType : string) (kv : string * json) : option (Role * string) :=
  match kv.2 with
  | JStr v =>
      if negb (str_contains kv.1 stateType) then None
      else if has_suffix kv.1 "_state" then Some (RState, v) else if has_suffix kv.1 "_time" then Some (RTime, v)
      else if has_suffix kv.1 "_reason" then Some (RReason, v) else None
  | _ => None
  end.

(** No two entries have the same part in a row. *)
Definition OneEach (stateType : string) (l : list (string * json)) : Prop :=
  forall x y r v w, x ∈ l -> y ∈ l -> roleOf stateType x = Some (r, v) -> roleOf stateType y = Some (r, w) -> x = y.

Lemma setRow_role stateType row kv : setRow stateType row kv =
  match roleOf stateType kv with
  | None => row
  | Some (RState, v) => mkRow (rName row) (rOperStatus row) kv.1 v (Time row) (if isUp v then "" else Reason row)
  | Some (RTime, v) => mkRow (rName row) (rOperStatus row) (StateDetail row) (StateValue row) v (Reason row)
  | Some (RReason, v) => if isUp (StateValue row) then row else mkRow (rName row) (rOperStatus row) (StateDetail row) (StateValue row) (Time row) v
  end.
Proof. unfold setRow, roleOf. destruct kv as [k []]; try done. cbn [fst snd]. by repeat case_match. Qed.

(** The entry with a part in a row, with its key and value. *)
Definition partOf (stateType : string) (r : Role) (kv : string * json) : option (string * string) :=
  match roleOf stateType kv with Some (r', v) => if decide (r = r') then Some (kv.1, v) else None | None => None end.
Definition entryOf (stateType : string) (r : Role) (l : list (string * json)) : option (string * string) := head (omap (partOf stateType r) l).

Lemma partOf_Some stateType r kv k v : partOf stateType r kv = Some (k, v) <-> roleOf stateType kv = Some (r, v) /\ kv.1 = k.
Proof. unfold partOf. destruct (roleOf stateType kv) as [[r' v']|]; [|naive_solver]. case_decide; naive_solver. Qed.

Lemma entryOf_Some stateType r l kv : entryOf stateType r l = Some kv -> exists x, x ∈ l /\ partOf stateType r x = Some kv.
Proof. intros H%head_Some_elem_of. by apply list_elem_of_omap in H. Qed.

Lemma entryOf_None stateType r l : entryOf stateType r l = None <-> forall x, x ∈ l -> partOf stateType r x = None.
Proof.
  unfold entryOf. rewrite head_None. split.
  - intros H x Hx. destruct (partOf stateType r x) as [kv|] eqn:Hp; [|done]. assert (kv ∈ omap (partOf stateType r) l) as Hin by (apply list_elem_of_omap; eauto). rewrite H in Hin. by apply elem_of_nil in Hin.
  - intros H. induction l as [|x l IH]; [done|]. cbn. rewrite (H x) by (by apply elem_of_cons; left). apply IH. intros y Hy. apply H. by apply elem_of_cons; right.
Qed.

Lemma entryOf_snoc stateType r l x : entryOf stateType r (l ++ [x]) = match entryOf stateType r l with Some e => Some e | None => partOf stateType r x end.
Proof. unfold entryOf. rewrite omap_app. destruct (omap _ l) as [|e es]; [|done]. cbn. by destruct (partOf _ _ x). Qed.

(** What a row says: the state, its time, and the reason unless the state is up. *)
Definition rowSpec (name oper stateType : string) (l : list (string * json)) : DpuStateRow :=
  let state := entryOf stateType RState l in
  let value := default "" (snd <$> state) in
  mkRow name oper (default "" (fst <$> state)) value (default "" (snd <$> entryOf stateType RTime l))
    (if isUp value then "" else default "" (snd <$> entryOf stateType RReason l)).

(** Before an entry no other one has its part. *)
Lemma one_each_last stateType l x r v : NoDup (l ++ [x]) -> OneEach stateType (l ++ [x]) -> roleOf stateType x = Some (r, v) -> entryOf stateType r l = None.
Proof.
  intros Hnd Ho Hx. apply entryOf_None. intros y Hy. destruct (partOf stateType r y) as [[k w]|] eqn:Hp; [|done]. apply partOf_Some in Hp as [Hr _].
  assert (x = y) as -> by (eapply Ho; [| |exact Hx|exact Hr]; set_solver). apply NoDup_app in Hnd as (_ & Hd & _). destruct (Hd y Hy). set_solver.
Qed.

Lemma row_fold name oper stateType l : NoDup l -> OneEach stateType l -> fold_left (setRow stateType) l (mkRow name oper "" "" "" "") = rowSpec name oper stateType l.
Proof.
  induction l as [|x l IH] using rev_ind; intros Hnd Ho; [done|]. rewrite fold_left_app. cbn [fold_left].
  rewrite IH; [|by apply NoDup_app in Hnd as [? _]|intros y z r v w Hy Hz; apply Ho; set_solver].
  rewrite setRow_role. unfold rowSpec. rewrite !entryOf_snoc. cbn [StateValue StateDetail Time Reason rName rOperStatus].
  assert (forall r, partOf stateType r x = match roleOf stateType x with Some (r', v) => if decide (r = r') then Some (x.1, v) else None | None => None end) as Hp by done.
  rewrite !Hp. destruct (roleOf stateType x) as [[[] v]|] eqn:Hx; try rewrite (one_each_last _ _ _ _ _ Hnd Ho Hx); rewrite ?decide_True, ?decide_False by done; cbn -[isUp].
  - destruct (entryOf _ RTime l), (entryOf _ RReason l), (isUp v); done.
  - by destruct (entryOf _ RState l), (entryOf _ RReason l).
  - destruct (entryOf _ RState l) as [[k w]|], (entryOf _ RTime l); cbn -[isUp]; by try destruct (isUp w).
  - by destruct (entryOf _ RState l), (entryOf _ RTime l), (entryOf _ RReason l).
Qed.

(** The rows of a DPU say its state, the time and, unless the state is up, the reason of each
    of its planes, whatever the order of the map is. *)
Theorem dpu_rows_exact (r1 r2 : MapRange) name stateInfo :
  (forall t, t ∈ ["midplane"; "control"; "data"] -> OneEach t (map_to_list stateInfo)) ->
  @createDpuStateRowsFromData r1 name stateInfo =
    List.filter (fun r => negb (String.eqb (StateDetail r) "")) (map (fun t => rowSpec name (@determineOperStatus r1 stateInfo) t (@range_of r1 _ stateInfo)) ["midplane"; "control"; "data"]) /\
  @createDpuStateRowsFromData r1 name stateInfo = @createDpuStateRowsFromData r2 name stateInfo.
Proof.
  intros Ho. assert (forall (r : MapRange) t, t ∈ ["midplane"; "control"; "data"] -> OneEach t (@range_of r _ stateInfo) /\ NoDup (@range_of r _ stateInfo)) as Hr.
  { intros r t Ht. split; [|rewrite (@range_of_perm r); apply NoDup_map_to_list]. intros x y rr v w. rewrite (@range_of_perm r). by apply Ho. }
  assert (forall (r : MapRange), @createDpuStateRowsFromData r name stateInfo =
    List.filter (fun r => negb (String.eqb (StateDetail r) "")) (map (fun t => rowSpec name (@determineOperStatus r stateInfo) t (@range_of r _ stateInfo)) ["midplane"; "control"; "data"])) as Hs.
  { intros r. unfold createDpuStateRowsFromData. f_equal. apply map_ext_in. intros t Ht%list_elem_of_In. destruct (Hr r t Ht). by apply row_fold. }
  split; [apply Hs|]. rewrite !Hs. f_equal. apply map_ext_in. intros t Ht%list_elem_of_In. unfold rowSpec. rewrite (oper_status_order r1 r2).
  assert (forall rr, entryOf t rr (@range_of r1 _ stateInfo) = entryOf t rr (@range_of r2 _ stateInfo)) as He; [|by rewrite !He].
  intros rr. destruct (entryOf t rr (@range_of r2 _ stateInfo)) as [[k v]|] eqn:E2.
  - apply entryOf_Some in E2 as (x & Hx & Hp). assert (x ∈ @range_of r1 _ stateInfo) as Hx1 by (by rewrite (@range_of_perm r1), <- (@range_of_perm r2)).
    destruct (entryOf t rr (@range_of r1 _ stateInfo)) as [[k' v']|] eqn:E1; [|rewrite entryOf_None in E1; by rewrite (E1 x Hx1) in Hp].
    apply entryOf_Some in E1 as (y & Hy & Hp'). pose proof Hp as [H1 _]%partOf_Some. pose proof Hp' as [H2 _]%partOf_Some.
    assert (y = x) as -> by (eapply (proj1 (Hr r1 t Ht)); [exact Hy|exact Hx1|exact H2|exact H1]). congruence.
  - rewrite entryOf_None in *. intros x Hx. apply E2. by rewrite (@range_of_perm r2), <- (@range_of_perm r1).
Qed.

(** * Interface counters *)

Lemma int64_range z : (int64_min <= int64 z <= int64_max)%Z.
Proof. unfold int64, int64_min, int64_max. pose proof (Z.mod_pos_bound (z + 2 ^ 63) (2 ^ 64) ltac:(lia)). lia. Qed.

Lemma int64_id z : (int64_min <= z <= int64_max)%Z -> int64 z = z.
Proof. unfold int64, int64_min, int64_max. intros H. rewrite Z.mod_small; lia. Qed.

Lemma pretty_present z : (int64_min <= z <= int64_max)%Z -> pretty z <> defaultMissingCounterValue.
Proof. intros Hz He. apply atoi_pretty in Hz. rewrite He in Hz. discriminate. Qed.

(** The difference that is reported for a counter leads from its old to its new value,
    also when it does not fit into 64 bits; a counter that is missing or no number at one of
    the two times is reported as missing. *)
Theorem counter_difference_exact old new :
  calculateDiffCounters old new defaultMissingCounterValue =
  match atoi old, atoi new with Some o, Some n => pretty (int64 (n - o)) | _, _ => defaultMissingCounterValue end /\
  forall o n, atoi old = Some o -> atoi new = Some n ->
    exists d, atoi (calculateDiffCounters old new defaultMissingCounterValue) = Some d /\ int64 (o + d) = n.
Proof.
  assert (calculateDiffCounters old new defaultMissingCounterValue =
    match atoi old, atoi new with Some o, Some n => pretty (int64 (n - o)) | _, _ => defaultMissingCounterValue end) as He.
  { unfold calculateDiffCounters. destruct (String.eqb_spec old defaultMissingCounterValue) as [->|]; [done|]. destruct (String.eqb_spec new defaultMissingCounterValue) as [->|]; [|done].
    cbn [orb]. by destruct (atoi old). }
  split; [done|]. intros o n Ho Hn. exists (int64 (n - o)). rewrite He, Ho, Hn, atoi_pretty by apply int64_range. split; [done|].
  assert (int64_min <= n <= int64_max)%Z as Hr.
  { revert Hn. unfold atoi. repeat case_match; intros; simplify_eq; lia. }
  unfold int64. unfold int64_min, int64_max in Hr. Z.to_euclidean_division_equations; lia.
Qed.

Lemma fold_insert_lookup {V} (f : string -> V) l : forall (m : gmap string V) i,
  fold_left (fun m i => <[i := f i]> m) l m !! i = if decide (i ∈ l) then Some (f i) else m !! i.
Proof.
  induction l as [|x l IH]; intros m i; [done|]. cbn [fold_left]. rewrite IH. destruct (decide (i ∈ l)) as [Hi|Hi].
  - rewrite decide_True; [done|]. by apply elem_of_cons; right.
  - destruct (decide (i = x)) as [->|Hne]; [rewrite lookup_insert_eq, decide_True; [done|by apply elem_of_cons; left]|].
    rewrite lookup_insert_ne, decide_False; [done| |done]. intros [|]%elem_of_cons; done.
Qed.

Lemma elem_of_validated {mr : MapRange} ifaces pc i :
  i ∈ validatedIfaces ifaces pc <-> (ifaces = [] \/ i ∈ ifaces) /\ is_Some (pc !! i).
Proof.
  unfold validatedIfaces. destruct ifaces as [|x l].
  - split.
    + intros ([k v] & -> & H)%list_elem_of_fmap. apply elem_of_range in H. cbn. split; [by left|by rewrite H].
    + intros (_ & v & Hv). apply list_elem_of_fmap. exists (i, v). split; [done|]. by apply elem_of_range.
  - rewrite list_elem_of_In, filter_In, <- list_elem_of_In, bool_decide_eq_true. split; [intros []; auto|]. intros [[|] ?]; [done|auto].
Qed.

Section Counters.
Context {mr : MapRange} (cfg : DbClient.DbConfig) (unitTest : bool) (sprintOther : json -> string) {Float : Type}
  (parseFloat : string -> option Float) (gtb : Float -> Float -> bool) (div mul : Float -> Float -> Float) (lit : Z -> Float) (fmt2 : Float -> string).
Abbreviation Snap := (getInterfaceCountersSnapshot cfg unitTest sprintOther parseFloat gtb div mul lit fmt2).
Abbreviation Counters := (getInterfaceCounters cfg unitTest sprintOther parseFloat gtb div mul lit fmt2).
Abbreviation countersOf := (countersOf sprintOther parseFloat gtb div mul lit fmt2).

Lemma bind_Ok {A B} (m : M A) (k : A -> M B) vs vs' b : bind m k vs = (vs', Ok b) -> exists vs1 a, m vs = (vs1, Ok a) /\ k a vs1 = (vs', Ok b).
Proof. unfold bind. destruct (m vs) as [vs1 [a|e]]; [eauto|done]. Qed.

Lemma snapshot_lookup db ifaces vs vs' m : Snap db ifaces vs = (vs', Ok m) ->
  exists pc pr pt, forall i, m !! i = if decide ((ifaces = [] \/ i ∈ ifaces) /\ is_Some (pc !! i)) then Some (countersOf pc pr pt i) else None.
Proof.
  unfold getInterfaceCountersSnapshot. intros (v1 & ac & _ & H)%bind_Ok. apply bind_Ok in H as (v2 & pc & _ & H). apply bind_Ok in H as (v3 & ar & _ & H).
  apply bind_Ok in H as (v4 & pr & _ & H). apply bind_Ok in H as (v5 & pt & _ & H). injection H as _ <-. exists pc, pr, pt. intros i.
  rewrite fold_insert_lookup, lookup_empty. apply decide_ext, elem_of_validated.
Qed.

(** The counters of a period are reported for exactly the interfaces that are asked for (or all
    of them) and that have counters at its end: what is not a counter as it is at the end, the
    counters by their differences. *)
Theorem period_counters_exact db later options vs vs' m p :
  Int_ (options !! "period") = Some p -> Counters db later options vs = (vs', Ok m) ->
  (p <= 300)%Z /\
  exists vs1 old new, Snap db (default [] (Strings (options !! "interfaces"))) vs = (vs1, Ok old) /\
    Snap later (default [] (Strings (options !! "interfaces"))) vs1 = (vs', Ok new) /\ forall i, m !! i = diffOf old i <$> new !! i.
Proof.
  unfold getInterfaceCounters. intros ->. cbn [default from_option id]. destruct (maxShowCommandPeriod <? p)%Z eqn:Hp; [by unfold fail|]. intros (vs1 & old & Ho & H)%bind_Ok.
  apply bind_Ok in H as (vs2 & new & Hn & H). injection H as <- <-. split; [unfold maxShowCommandPeriod in Hp; lia|]. exists vs1, old, new. split_and!; [done..|].
  intros i. unfold calculateDiffSnapshot. rewrite map_lookup_imap. by destruct (new !! i).
Qed.

End Counters.

(** * Time zones *)

(** The zones below a directory: files that are not skipped, in directories that are not. *)
Inductive ZoneIn : Entry -> string -> Prop :=
| ZoneFile name : name ∉ skippedFiles -> ZoneIn (File name) name
| ZoneDir name l e z : name ∉ skippedDirs -> e ∈ l -> ZoneIn e z -> ZoneIn (Dir name l) (name +:+ "/" +:+ z).

(** Induction over the entries of directories. *)
Lemma entry_ind' (P : Entry -> Prop) : (forall n, P (File n)) -> (forall n, P (Unreadable n)) -> (forall n l, Forall P l -> P (Dir n l)) -> forall e, P e.
Proof. intros HF HU HD. fix IH 1. intros [n|n|n l]; [apply HF|apply HU|]. apply HD. induction l as [|e l IHl]; constructor; [apply IH|apply IHl]. Qed.

Definition walkList (rel : string) : list Entry -> option (list string) :=
  fix walkAll l := match l with [] => Some [] | e :: l => zs ← walkZones rel e; zs' ← walkAll l; Some (zs ++ zs') end.

Lemma walkRoot_list l : walkRoot l = walkList "" l.
Proof. induction l as [|e l IH]; [done|]. cbn. by rewrite IH. Qed.

Lemma walkList_spec rel l : Forall (fun e => forall rel zs, walkZones rel e = Some zs -> forall z, z ∈ zs <-> exists y, ZoneIn e y /\ z = rel +:+ y) l ->
  forall zs, walkList rel l = Some zs -> forall z, z ∈ zs <-> exists e y, e ∈ l /\ ZoneIn e y /\ z = rel +:+ y.
Proof.
  induction 1 as [|e l He _ IH]; intros zs; cbn.
  - intros [= <-] z. split; [by intros ?%elem_of_nil|]. by intros (? & ? & ?%elem_of_nil & _).
  - destruct (walkZones rel e) as [ze|] eqn:Ee; [|done]. cbn. fold (walkList rel). destruct (walkList rel l) as [zl|] eqn:El; [|done]. cbn. intros [= <-] z.
    rewrite elem_of_app, (He rel ze Ee z), (IH zl eq_refl z). set_solver.
Qed.

Lemma walkZones_spec e : forall rel zs, walkZones rel e = Some zs -> forall z, z ∈ zs <-> exists y, ZoneIn e y /\ z = rel +:+ y.
Proof.
  induction e as [n|n|n l IH] using entry_ind'; intros rel zs; cbn [walkZones].
  - intros [= <-] z. case_bool_decide as Hn; split.
    + by intros ?%elem_of_nil.
    + intros (y & Hy & _). inversion Hy; subst; done.
    + intros ->%list_elem_of_singleton. exists n. split; [by constructor|done].
    + intros (y & Hy & ->). inversion Hy. by apply list_elem_of_singleton.
  - case_bool_decide as Hn; [|done]. intros [= <-] z. split; [by intros ?%elem_of_nil|]. intros (y & Hy & _). inversion Hy; subst; done.
  - case_bool_decide as Hn.
    + intros [= <-] z. split; [by intros ?%elem_of_nil|]. intros (y & Hy & _). inversion Hy; subst; done.
    + fold (walkList (rel +:+ n +:+ "/")). intros Hw z. rewrite (walkList_spec _ l IH zs Hw). split.
      * intros (e & y & He & Hy & ->). exists (n +:+ "/" +:+ y). split; [by econstructor|]. by rewrite !str_app_assoc.
      * intros (y & Hy & ->). inversion Hy as [|? ? e z Hd He Hz]; subst. exists e, z. split_and!; [done..|]. by rewrite !str_app_assoc.
Qed.

(** The time zones are exactly the files that are not skipped, in directories that are not,
    and they are sorted. *)
Theorem timezones_exact name l zs :
  name ∉ skippedDirs -> zoneInfoRunner (Some (Dir name l)) = Some zs ->
  Sorted String.le zs /\ forall z, z ∈ zs <-> exists e, e ∈ l /\ ZoneIn e z.
Proof.
  intros Hn. unfold zoneInfoRunner. rewrite bool_decide_eq_false_2 by done. destruct (walkRoot l) as [ws|] eqn:Hw; [|done]. cbn. intros [= <-].
  split; [apply Sorted_merge_sort; apply _|]. intros z. rewrite merge_sort_Permutation. rewrite walkRoot_list in Hw.
  rewrite (walkList_spec "" l) by (done || (apply Forall_forall; intros e _; apply walkZones_spec)). set_solver.
Qed.

(** * BGP neighbours *)

(** The peers are those of vtysh with their data, each with the name of the configuration. *)
Theorem bgp_names_exact {mr : MapRange} {Header PeerData} cfg unitTest shlex output (parseSummary : string -> option (BgpSummary (Header := Header) (PeerData := PeerData))) db vs vs' r :
  getIPv6BGPSummary cfg unitTest shlex output parseSummary db vs = (vs', Ok r) ->
  exists b r0 table, parseSummary b = Some r0 /\ header r = header r0 /\
    forall ip, Peers r !! ip = (fun p => mkPeer (peerData p) (neighborName table ip)) <$> Peers r0 !! ip.
Proof.
  unfold getIPv6BGPSummary. intros (v1 & b & _ & H)%bind_Ok. destruct (parseSummary b) as [r0|] eqn:Hp; [|by unfold fail in H].
  apply bind_Ok in H as (v2 & table & _ & H). injection H as _ <-. exists b, r0, table. split_and!; [done..|]. intros ip. cbn. rewrite map_lookup_imap. by destruct (Peers r0 !! ip).
Qed.

(** * What shows in the program *)

(** An interface that appears during the period has all counters but one. *)
Theorem rx_ovr_missing iface r n :
  (int64_min <= n <= int64_max)%Z -> RxOvr r = pretty n -> TxOvr r = pretty n ->
  RxOvr (diffOf ∅ iface r) = "N/A" /\ TxOvr (diffOf ∅ iface r) = pretty n.
Proof.
  intros Hn Hr Ht. unfold diffOf. rewrite lookup_empty. cbn [default from_option RxOvr TxOvr zeroCounters]. rewrite !(proj1 (counter_difference_exact _ _)), Hr, Ht, atoi_pretty by done.
  split; [done|]. change (atoi "0") with (Some 0%Z). cbv iota. by rewrite Z.sub_0_r, int64_id.
Qed.

(** A counter of 64 bits without sign that does not fit into one with a sign is missing. *)
Theorem large_counter_missing : calculateDiffCounters "0" "18446744073709551615" defaultMissingCounterValue = "N/A".
Proof. by vm_compute. Qed.

(** Help for one path replaces the values of the other paths of the request. *)
Theorem help_drops_values {mr : MapRange} {Cmd W} (call : Cmd -> OptionMap -> W -> res string string * W) marshal c ts path config pcs values w m :
  ParseOptions (options config) path = Ok m -> m !! "help" = Some (OBool true) ->
  getLoop call marshal c ts ((path, config) :: pcs) values w = (showHelp marshal c path ts (pathDescription config), w).
Proof. intros Hp Hh. cbn [getLoop]. by rewrite Hp, Hh. Qed.

(** A DPU with a fourth state is never online, although all of them are up. *)
Theorem four_states_partial :
  determineOperStatus {["a_state" := JStr "up"; "b_state" := JStr "up"; "c_state" := JStr "up"; "dpu_midplane_state" := JStr "up"]} = "Partial Online".
Proof. by vm_compute. Qed.

(** When one port has an alias, the counters of ports without one are dropped. *)
Theorem unaliased_ports_dropped {mr : MapRange} vs alias port other (data : jobj) v m :
  VirtualDb.alias2nameMap (VirtualDb.maps vs) = {[alias := port]} -> data !! alias = Some v -> other <> alias -> other <> port -> is_Some (data !! other) ->
  RemapAliasToPortName data vs = (vs, Ok m) -> m !! other = None.
Proof.
  intros Ha Hd Hne Hnp _. unfold RemapAliasToPortName. rewrite Ha.
  assert (existsb (fun kv : string * json => bool_decide (is_Some ((({[alias := port]} : gmap string string)) !! kv.1))) (range_of data) = true) as ->.
  { apply existsb_exists. exists (alias, v). split; [by apply list_elem_of_In, elem_of_range|]. apply bool_decide_eq_true. cbn. rewrite lookup_singleton_eq. by eexists. }
  intros [= <-]. generalize (∅ : jobj) (lookup_empty other : (∅ : jobj) !! other = None). induction (range_of data) as [|[k w] l IH]; intros m0 H0; [done|]. cbn [fold_left fst snd]. apply IH.
  destruct (decide (k = alias)) as [->|Hk]; [rewrite lookup_singleton_eq; by rewrite lookup_insert_ne|by rewrite lookup_singleton_ne].
Qed.

(** A module without configuration is up when it is asked for alone; in the table of all
    modules it has no administrative status. *)
Theorem module_defaults_differ {mr : MapRange} name stateData :
  mAdminStatus (createModuleStatusFromFlatData name stateData ∅) = "up" /\ (stateData !! "admin_status" = None -> moduleFields stateData None !! "admin_status" = None).
Proof.
  split; [by rewrite module_status_exact|]. intros _. unfold moduleFields.
  assert (forall f, f ∈ ["desc"; "oper_status"; "serial"; "slot"] -> f <> "admin_status") as Hf by (intros f; rewrite !elem_of_cons, elem_of_nil; naive_solver).
  revert Hf. generalize ["desc"; "oper_status"; "serial"; "slot"] (∅ : jobj) (lookup_empty "admin_status" : (∅ : jobj) !! "admin_status" = None).
  induction l as [|f l IH]; intros m0 H0 Hf; [done|]. cbn. destruct (stateData !! f) as [v|]; cbn; apply IH; try (intros g Hg; apply Hf; by apply elem_of_cons; right); [|done].
  rewrite lookup_insert_ne; [done|]. apply Hf. by apply elem_of_cons; left.
Qed.

(** When the errors of an interface cannot be read it is reported to have none. *)
Theorem query_error_hidden {mr : MapRange} cfg unitTest sprintOther db options intf vs vs' e :
  options !! "interface" = Some (OStr intf) -> VirtualDb.alias2nameMap (VirtualDb.maps vs') = ∅ ->
  GetMapFromQueries cfg unitTest db [["STATE_DB"; "PORT_OPERR_TABLE"; intf]] vs = (vs', Err e) -> e <> DbErr DbClient.Panic ->
  exists l, getInterfaceErrors cfg unitTest sprintOther db options vs = (vs', Ok l) /\ Forall (fun p => peCount p = "0" /\ peTime p = "Never") l.
Proof.
  intros Hi Ha Hq He. unfold getInterfaceErrors. rewrite Hi. cbn [String_]. unfold bind at 1. rewrite Hq.
  exists (map (portErrorOf sprintOther ∅) allPortErrors). split; [|apply Forall_map, Forall_forall; intros x _; unfold portErrorOf; by rewrite !lookup_empty].
  assert (RemapAliasToPortName ∅ vs' = (vs', Ok ∅)) as Hr.
  { unfold RemapAliasToPortName. assert (range_of (∅ : jobj) = []) as -> by (apply Permutation_nil; by rewrite range_of_perm, map_to_list_empty). done. }
  destruct e as [[]| | | | | | | | |]; try done; unfold bind; rewrite Hr; done.
Qed.

(** A directory of time zones whose own name is skipped has none. *)
Theorem skipped_root_empty l : zoneInfoRunner (Some (Dir "right" l)) = Some [].
Proof. done. Qed.

(** * Instances *)

Lemma counter_difference_exact_witness :
  exists d, atoi (calculateDiffCounters "9223372036854775807" "-9223372036854775808" defaultMissingCounterValue) = Some d /\ int64 (9223372036854775807 + d) = (-9223372036854775808)%Z.
Proof. apply (counter_difference_exact "9223372036854775807" "-9223372036854775808"); vm_compute; reflexivity. Defined.

Lemma timezones_exact_witness :
  let l := [Dir "Europe" [File "Berlin"; File "Athens"]; Dir "posix" [File "UTC"]; File "UTC"; File "zone.tab"] in
  zoneInfoRunner (Some (Dir "zoneinfo" l)) = Some ["Europe/Athens"; "Europe/Berlin"; "UTC"] /\ Sorted String.le ["Europe/Athens"; "Europe/Berlin"; "UTC"].
Proof.
  intros l. assert (zoneInfoRunner (Some (Dir "zoneinfo" l)) = Some ["Europe/Athens"; "Europe/Berlin"; "UTC"]) as H by (vm_compute; reflexivity).
  split; [exact H|]. apply (timezones_exact "zoneinfo" l _); [|exact H]. apply (bool_decide_unpack _). vm_compute. exact I.
Defined.

Example options_demo :
  ParseOptions (constructOptions [showCmdOptionInterfaces; RequiredOption showCmdOptionPeriod]) (mkPath "" "" [mkElem "counters" {["interfaces" := "Ethernet0, Ethernet4"; "period" := "5"]}]) =
  Ok {["interfaces" := OStrs ["Ethernet0"; "Ethernet4"]; "period" := OInt 5]}.
Proof. by vm_compute. Qed.
