(* ===== verification/Session.v ===== *)
(** Tokens and the SONiC services (src/gnmi_server/gnoi.go, jwtAuth.go, pamAuth.go, debug.go):
    the tokens that are issued and refreshed, the actions that are handed to translib, and the
    preferences of subscriptions.

    Tokens are signed with a key that is drawn when the server starts; signing and parsing are
    parameters. *)

From S2P Require Import Prelude GnmiTypes PanicMonad Auth TranslUtils.
Open Scope go_scope.

Module Session.

Definition second : Z := 1000000000.

(** * Users *)

Section Users.
(** [usr.GroupIds] and [user.LookupGroupId]. *)
Variables (userExists : string -> bool) (groupIds : string -> option (list string)) (groupName : string -> option string).

Fixpoint groupNames (gids : list string) : option (list string) :=
  match gids with
  | [] => Some []
  | gid :: gids => g ← groupName gid; gs ← groupNames gids; Some (g :: gs)
  end.

Definition GetUserRoles (usr : string) : option (list string) := gids ← groupIds usr; groupNames gids.

(** [user.Lookup] and [GetUserRoles]. *)
Definition lookupRoles (username : string) : option (list string) := if userExists username then GetUserRoles username else None.

End Users.

(** * Preferences of subscriptions *)

(** [translib.IsSubscribeResponse] and the preference that is sent for it. *)
Record SubscribeSupport := mkSupport { sID : Z; sPath : string; IsSubPath : bool; IsOnChangeSupported : bool; IsWildcardSupported : bool; MinInterval : Z; preferOnChange : bool }.
Record SubscribePreference := mkPreference { pPath : string; WildcardSupported : bool; OnChangeSupported : bool; targetOnChange : bool; MinSampleInterval : Z }.

(** The order by number and path. *)
Definition supportLe (a b : SubscribeSupport) : Prop := (sID a < sID b)%Z \/ sID a = sID b /\ String.leb (sPath a) (sPath b) = true.
#[global] Instance supportLe_dec a b : Decision (supportLe a b).
Proof. unfold supportLe. apply _. Defined.
Definition sortResp (l : list SubscribeSupport) : list SubscribeSupport := merge_sort supportLe l.

Definition hasOnChangeDisabledSubpath (id : Z) (allPrefs : list SubscribeSupport) : bool :=
  existsb (fun p => (sID p =? id)%Z && IsSubPath p && negb (IsOnChangeSupported p)) allPrefs.

Definition preferenceOf (trResp : list SubscribeSupport) (r : SubscribeSupport) : SubscribePreference :=
  mkPreference (sPath r) (IsWildcardSupported r)
    (if negb (IsSubPath r) && hasOnChangeDisabledSubpath (sID r) trResp then false else IsOnChangeSupported r)
    (IsOnChangeSupported r && preferOnChange r) ((MinInterval r * second) mod 2 ^ 64)%Z.

(** * Tokens *)

Record Claims := mkClaims { Username : string; cRoles : list string; ExpiresAt : Z }.

Record JwtToken := mkToken { AccessToken : string; ExpiresIn : Z }.

(** [d.Sub]: the difference of two times as a duration, saturated. *)
Definition timeSub (a b : Z) : Z := Z.max int64_min (Z.min int64_max (a - b)).

Section Tokens.
Variable sign : nat -> Claims -> string.
Variable parseToken : nat -> string -> option Claims.
Variables (JwtRefreshInt JwtValidInt : Z).

(** What the RPCs depend on: the key, the clock in nanoseconds, the users of the host. *)
Record World := mkWorld { key : nat; now : Z; roles : string -> option (list string); sshLogin : string -> string -> bool }.

(** [jwt.ParseWithClaims]: the signature, and the time unless it is 0. *)
Definition parseValid (w : World) (token : string) : option Claims :=
  c ← parseToken (key w) token;
  if (ExpiresAt c =? 0)%Z || (now w / second <=? ExpiresAt c)%Z then Some c else None.

Definition validClaims (w : World) (token : string) : option (string * list string) :=
  (fun c => (Username c, cRoles c)) <$> parseValid w token.

Definition generateJWT (w : World) (username : string) (rs : list string) (expire_dt : Z) : string :=
  sign (key w) (mkClaims username rs (expire_dt / second)).

Definition tokenResp (w : World) (username : string) (rs : list string) : JwtToken :=
  mkToken (generateJWT w username rs (now w + JwtValidInt)) (Z.quot JwtValidInt second).

Definition GenerateJwtSecretKey (k : nat) (w : World) : World := mkWorld k (now w) (roles w) (sshLogin w).

(** [Authenticate]. *)
Definition Authenticate (auth : Auth.AuthTypes) (username password : string) (w : World) : res Code JwtToken :=
  if negb (Auth.Enabled auth "jwt") then Err Unimplemented
  else if sshLogin w username password then
    match roles w username with Some rs => Ok (tokenResp w username rs) | None => Err PermissionDenied end
  else Err PermissionDenied.

(** The parameters of authentication that are not about tokens. *)
Context {mr : MapRange}.
Variable certTable : string -> string -> gmap string string.
Variable httpGet : string -> option string.
Variable revoked : list (list Auth.Certificate) -> list string -> bool.
Variable expireDuration : Z.

Definition authenticate (config : Auth.Config) (w : World) (req : Auth.Request) (c : Auth.CrlCache) (target : string) (writeAccess : bool) :
    option Code * Auth.AuthInfo * Auth.CrlCache :=
  Auth.authenticate (roles w) (sshLogin w) (validClaims w) certTable httpGet revoked expireDuration config (now w) req Auth.noAuthInfo c target writeAccess.

(** The token in the metadata of a request. *)
Definition presented (req : Auth.Request) : option string := match Auth.metadata req with Some md => md !! "access_token" | None => None end.

(** [Refresh]; claims that cannot be parsed stay empty. *)
Definition Refresh (config : Auth.Config) (w : World) (req : Auth.Request) (c : Auth.CrlCache) : res Code JwtToken :=
  match authenticate config w req c "gnoi" true with
  | (Some e, _, _) => Err e
  | (None, a, _) =>
      if negb (Auth.Enabled (Auth.UserAuth config) "jwt") then Err Unimplemented
      else match Auth.JwtAuthenAndAuthor (roles w) (validClaims w) req a with
      | (Some e, _) => Err e
      | (None, _) =>
          let claims := default (mkClaims "" [] 0) (match presented req with Some t => parseToken (key w) t | None => None end) in
          if (JwtRefreshInt <? timeSub (ExpiresAt claims * second) (now w))%Z then Err InvalidArgument
          else Ok (tokenResp w (Username claims) (cRoles claims))
      end
  end.

(** * Actions *)

Inductive ActionRpc := ClearNeighbors | CopyConfig | ShowTechsupport | ImageInstall | ImageRemove | ImageDefault.

Definition actionUri (r : ActionRpc) : string :=
  match r with
  | ClearNeighbors => "/sonic-neighbor:clear-neighbors" | CopyConfig => "/sonic-config-mgmt:copy"
  | ShowTechsupport => "/sonic-show-techsupport:sonic-show-techsupport-info" | ImageInstall => "/sonic-image-management:image-install"
  | ImageRemove => "/sonic-image-management:image-remove" | ImageDefault => "/sonic-image-management:image-default"
  end.

Definition actionWrites (r : ActionRpc) : bool := match r with ShowTechsupport => false | _ => true end.

Context {Version : Type}.
Variable NewVersion : string -> option Version.
Variable translibAction : string -> string -> res TranslUtils.TlErr string.
(** The JSON of a request, and whether the payload of an answer can be read. *)
Variable readable : ActionRpc -> string -> bool.

Definition callAction (r : ActionRpc) (reqstr : option string) (config : Auth.Config) (w : World) (req : Auth.Request) (c : Auth.CrlCache) :
    TranslUtils.L (res Code string) :=
  match authenticate config w req c "gnoi" (actionWrites r) with
  | (Some e, _, _) => mret (Err e)
  | (None, a, _) =>
      match reqstr with
      | None => mret (Err Unknown)
      | Some payload =>
          resp ← TranslUtils.TranslProcessAction NewVersion translibAction (actionUri r) payload
                   (TranslUtils.mkCaller (Auth.User a) (Auth.Roles a) (Auth.AuthEnabled a) None);
          mret (match resp with
                | Err _ => Err Unknown
                | Ok jsresp => if readable r jsresp then Ok jsresp else Err Unknown
                end)
      end
  end.

(** Whether [path.New] can parse the path of an answer. *)
Variable parsable : string -> bool.

(** The loop over the answers; [sends] is whether the stream takes each message. *)
Fixpoint sendPreferences (all l : list SubscribeSupport) (sends : list bool) : list SubscribePreference * option Code :=
  match l with
  | [] => ([], None)
  | r :: l =>
      if negb (parsable (sPath r)) then ([], Some Internal)
      else match sends with
      | false :: _ => ([], Some Unknown)
      | _ => let '(ps, e) := sendPreferences all l (tail sends) in (preferenceOf all r :: ps, e)
      end
  end.

(** [GetSubscribePreferences]: [paths] are the paths as translib takes them ([None]: an unknown
    one), [supported] is what translib says for the user. *)
Definition GetSubscribePreferences (paths : list (option string)) (supported : list (Z * string) -> string -> list string -> option (list SubscribeSupport))
    (sends : list bool) (config : Auth.Config) (w : World) (req : Auth.Request) (c : Auth.CrlCache) : list SubscribePreference * option Code :=
  match authenticate config w req c "gnmi" false with
  | (Some e, _, _) => ([], Some e)
  | (None, a, _) =>
      match mapM id paths with
      | None => ([], Some InvalidArgument)
      | Some ps =>
          match supported (imap (fun i p => ((Z.of_nat i mod 2 ^ 32)%Z, p)) ps) (Auth.User a) (Auth.Roles a) with
          | None => ([], Some InvalidArgument)
          | Some trResp => let trResp := sortResp trResp in sendPreferences trResp trResp sends
          end
      end
  end.

End Tokens.

End Session.

(** Theorems about tokens and the SONiC services: whom a token stands for and how long, which
    actions reach translib, the preferences that are sent. *)

Import Session.
Open Scope go_scope.

Section Sessions.
Context {mr : MapRange} (sign : nat -> Claims -> string) (parseToken : nat -> string -> option Claims) (JwtRefreshInt JwtValidInt : Z)
  (certTable : string -> string -> gmap string string) (httpGet : string -> option string)
  (revoked : list (list Auth.Certificate) -> list string -> bool) (expireDuration : Z) (config : Auth.Config).

(** A signed token can be read with its own key only, and holds what was signed. *)
Hypothesis signed : forall k k' c, parseToken k (sign k' c) = if decide (k = k') then Some c else None.
Hypothesis valid_positive : (0 <= JwtValidInt)%Z.

Abbreviation Authenticate := (Authenticate sign JwtValidInt (Auth.UserAuth config)).
Abbreviation Refresh := (Refresh sign parseToken JwtRefreshInt JwtValidInt certTable httpGet revoked expireDuration config).

(** * The history of a server *)

(** A login: the state of the server and of the host, the user and the password given. *)
Record LoginAt := mkLogin { lWorld : World; lUser : string; lPassword : string }.

(** A token that an RPC returned: the text, the key and the time of that call, and the login
    that it goes back to. *)
Record Grant := mkGrant { gToken : string; gKey : nat; gIssued : Z; gLogin : LoginAt }.

Record History := mkHistory { world : World; grants : list Grant }.

Definition granted (h : History) (t : JwtToken) (l : LoginAt) : History :=
  mkHistory (world h) (grants h ++ [mkGrant (AccessToken t) (key (world h)) (now (world h)) l]).

(** What happens to a server: a login that succeeds and returns a token; a refresh with a
    token that was returned before; time passes; users and passwords of the host change; the
    server starts again with another key. *)
Inductive hstep (h : History) : History -> Prop :=
| Login u p t : Authenticate u p (world h) = Ok t -> hstep h (granted h t (mkLogin (world h) u p))
| Refreshed req c g t : g ∈ grants h -> presented req = Some (gToken g) -> Refresh (world h) req c = Ok t -> hstep h (granted h t (gLogin g))
| Later n : (now (world h) <= n)%Z -> hstep h (mkHistory (mkWorld (key (world h)) n (roles (world h)) (sshLogin (world h))) (grants h))
| UsersChange r l : hstep h (mkHistory (mkWorld (key (world h)) (now (world h)) r l) (grants h))
| Restarted k : hstep h (mkHistory (GenerateJwtSecretKey k (world h)) (grants h)).

Definition Since (w : World) (h : History) : Prop := rtc hstep (mkHistory w []) h.

(** What holds of every token that was returned. *)
Record GrantOk (h : History) (g : Grant) : Prop := {
  go_password : sshLogin (lWorld (gLogin g)) (lUser (gLogin g)) (lPassword (gLogin g)) = true;
  go_claims : exists rs, roles (lWorld (gLogin g)) (lUser (gLogin g)) = Some rs /\
    gToken g = sign (gKey g) (mkClaims (lUser (gLogin g)) rs ((gIssued g + JwtValidInt) / second));
  go_time : (second <= gIssued g <= now (world h))%Z
}.

Definition Ok_ (h : History) : Prop := (second <= now (world h))%Z /\ forall g, g ∈ grants h -> GrantOk h g.

Lemma grantOk_keeps h h' g : GrantOk h g -> (now (world h) <= now (world h'))%Z -> GrantOk h' g.
Proof. intros [P C T] Hn. split; auto. lia. Qed.

Lemma authenticate_token u p w t :
  Authenticate u p w = Ok t -> sshLogin w u p = true /\ exists rs, roles w u = Some rs /\ t = tokenResp sign JwtValidInt w u rs.
Proof.
  unfold Session.Authenticate. destruct (negb _); [done|]. destruct (sshLogin w u p); [|done]. destruct (roles w u) as [rs|]; [|done].
  intros [= <-]. split; [done|by exists rs].
Qed.

(** A refresh reads the claims of the token that is presented. *)
Lemma refresh_token w req c t token :
  presented req = Some token -> Refresh w req c = Ok t ->
  exists claims, parseToken (key w) token = Some claims /\ t = tokenResp sign JwtValidInt w (Username claims) (cRoles claims).
Proof.
  intros Hp. unfold Session.Refresh. rewrite Hp. destruct (authenticate _ _ _ _ _ _ _ _ _ _ _) as [[[e|] a] cc]; [done|].
  destruct (negb _); [done|]. unfold Auth.JwtAuthenAndAuthor. unfold presented in Hp. destruct (Auth.metadata req) as [md|]; [|done].
  rewrite Hp. unfold validClaims, parseValid. destruct (parseToken (key w) token) as [claims|]; [|done].
  cbn [default from_option id]. intros H. exists claims. split; [done|].
  destruct (_ : option Code * Auth.AuthInfo) as [[e|] a']; [done|]. destruct (JwtRefreshInt <? _)%Z; [done|]. by injection H as <-.
Qed.

Lemma ok_step h h' : Ok_ h -> hstep h h' -> Ok_ h'.
Proof using signed.
  intros (Hn & Hg) H. destruct H as [u p t Ht|req c g t Hin Hp Ht|n|r l|k]; (split; [cbn in *; lia|]); cbn;
    try (intros g' Hin'; eapply grantOk_keeps; [by apply Hg|done]).
  - intros g [Hin| ->%list_elem_of_singleton]%elem_of_app; [eapply grantOk_keeps; [by apply Hg|done]|].
    apply authenticate_token in Ht as (Hpw & rs & Hr & ->). split; cbn; [done|by exists rs|lia].
  - intros g' [Hin'| ->%list_elem_of_singleton]%elem_of_app; [eapply grantOk_keeps; [by apply Hg|done]|].
    destruct (Hg g Hin) as [P (rs & Hr & Htok) T]. destruct (refresh_token _ _ _ _ _ Hp Ht) as (claims & Hc & ->).
    rewrite Htok, signed in Hc. case_decide; [|done]. injection Hc as <-. split; cbn; [done|by exists rs|lia].
Qed.

Lemma ok_since w h : (second <= now w)%Z -> Since w h -> Ok_ h.
Proof using signed.
  intros Hw. apply (rtc_ind_r (fun h => Ok_ h)); [split; [done|by intros g ?%elem_of_nil]|]. intros y z _ Hs IH. by eapply ok_step.
Qed.

(** C32. A token that Authenticate or Refresh returned stands for the login it goes back to:
    that user gave the right password; the token is accepted for this user, with the roles
    the user had at the login, exactly as long as the server has the key of the call that
    returned it and the time of validity since that call has not run out. *)
Theorem session_identity w h g u rs :
  (second <= now w)%Z -> Since w h -> g ∈ grants h ->
  sshLogin (lWorld (gLogin g)) (lUser (gLogin g)) (lPassword (gLogin g)) = true /\
  (validClaims parseToken (world h) (gToken g) = Some (u, rs) <->
   u = lUser (gLogin g) /\ roles (lWorld (gLogin g)) u = Some rs /\ gKey g = key (world h) /\
   (now (world h) / second <= (gIssued g + JwtValidInt) / second)%Z).
Proof using signed valid_positive.
  intros Hw Hs Hin. destruct (ok_since w h Hw Hs) as (Hn & Hg). destruct (Hg g Hin) as [P (rs0 & Hr & Htok) T]. split; [done|].
  unfold validClaims, parseValid. rewrite Htok, signed. case_decide as Hk; [|split; [done|intros (_ & _ & E & _); by destruct Hk]].
  cbn. assert (1 <= (gIssued g + JwtValidInt) / second)%Z as H1 by (apply Z.div_le_lower_bound; unfold second in *; lia).
  rewrite (proj2 (Z.eqb_neq _ 0)) by lia. cbn. destruct (Z.leb_spec (now (world h) / second) ((gIssued g + JwtValidInt) / second)); cbn.
  - split; [intros [= <- <-]; by split_and!|]. intros (-> & Hr' & _). by simplify_eq.
  - split; [done|]. intros (_ & _ & _ & ?). lia.
Qed.

(** A refresh is refused until shortly before the end of the token. *)
Theorem refresh_only_late w req c t claims :
  Refresh w req c = Ok t -> (match presented req with Some tok => parseToken (key w) tok | None => None end) = Some claims ->
  (timeSub (ExpiresAt claims * second) (now w) <= JwtRefreshInt)%Z /\ t = tokenResp sign JwtValidInt w (Username claims) (cRoles claims).
Proof.
  unfold Session.Refresh. intros H Hc. rewrite Hc in H. cbn [default from_option id] in H.
  destruct (authenticate _ _ _ _ _ _ _ _ _ _ _) as [[[e|] a] cc]; [done|]. destruct (negb _); [done|]. destruct (Auth.JwtAuthenAndAuthor _ _ _ _) as [[e|] a']; [done|].
  destruct (JwtRefreshInt <? _)%Z eqn:Hl; [done|]. injection H as <-. split; [by apply Z.ltb_ge|done].
Qed.

End Sessions.

(** * Actions *)

Section Actions.
Context {mr : MapRange} (parseToken : nat -> string -> option Claims) (certTable : string -> string -> gmap string string) (httpGet : string -> option string)
  (revoked : list (list Auth.Certificate) -> list string -> bool) (expireDuration : Z) {Version : Type} (NewVersion : string -> option Version)
  (translibAction : string -> string -> res TranslUtils.TlErr string) (readable : ActionRpc -> string -> bool).
Abbreviation callAction := (callAction parseToken certTable httpGet revoked expireDuration NewVersion translibAction readable).
Abbreviation authenticate := (authenticate parseToken certTable httpGet revoked expireDuration).

(** An action reaches translib only for a client that passed authentication, with write
    access unless it only collects information, once, with the identity of that client; the
    answer of translib is handed on when it can be read, and every failure is an error. *)
Theorem action_authenticated r reqstr config w req c log :
  match authenticate config w req c "gnoi" (actionWrites r), reqstr with
  | (Some e, _, _), _ => callAction r reqstr config w req c log = (Some (Err e), log)
  | (None, _, _), None => callAction r reqstr config w req c log = (Some (Err Unknown), log)
  | (None, a, _), Some payload =>
      callAction r reqstr config w req c log =
        (Some (match translibAction (actionUri r) payload with Ok jsresp => if readable r jsresp then Ok jsresp else Err Unknown | Err _ => Err Unknown end),
         log ++ [TranslUtils.CallAction (actionUri r) payload (Auth.User a) (Auth.Roles a) (Auth.AuthEnabled a) None])
  end.
Proof.
  unfold Session.callAction. destruct (authenticate config w req c "gnoi" (actionWrites r)) as [[[e|] a] cc]; [done|]. destruct reqstr as [payload|]; [|done].
  unfold TranslUtils.TranslProcessAction. cbn. by destruct (translibAction (actionUri r) payload).
Qed.

End Actions.

(** * Preferences *)

Lemma sendPreferences_all parsable all l : (forall r, r ∈ l -> parsable (sPath r) = true) ->
  sendPreferences parsable all l (replicate (length l) true) = (map (preferenceOf all) l, None).
Proof.
  induction l as [|r l IH]; intros Hok; [done|]. cbn [sendPreferences length replicate tail map]. rewrite (Hok r) by (by apply elem_of_cons; left). cbn [negb].
  rewrite IH; [done|]. intros r' Hr'. apply Hok. by apply elem_of_cons; right.
Qed.

#[local] Instance supportLe_total : Total supportLe.
Proof.
  intros a b. unfold supportLe. destruct (Z.lt_trichotomy (sID a) (sID b)) as [?|[He|?]]; [tauto| |tauto].
  destruct (String.leb_total (sPath a) (sPath b)); [left|right]; right; split; congruence.
Qed.

(** An authenticated client gets a preference for every answer of translib, in the order of
    numbers and paths, whatever the order of the answers was. *)
Theorem preferences_exact {mr : MapRange} parseToken certTable httpGet revoked expireDuration parsable paths ps supported trResp config w req c a c' :
  authenticate parseToken certTable httpGet revoked expireDuration config w req c "gnmi" false = (None, a, c') ->
  mapM id paths = Some ps -> supported (imap (fun i p => ((Z.of_nat i mod 2 ^ 32)%Z, p)) ps) (Auth.User a) (Auth.Roles a) = Some trResp ->
  (forall r, r ∈ trResp -> parsable (sPath r) = true) ->
  exists sorted, sorted ≡ₚ trResp /\ Sorted supportLe sorted /\
    GetSubscribePreferences parseToken certTable httpGet revoked expireDuration parsable paths supported (replicate (length trResp) true) config w req c =
      (map (preferenceOf sorted) sorted, None).
Proof.
  intros Ha Hp Hs Hok. exists (sortResp trResp). assert (sortResp trResp ≡ₚ trResp) as Hperm by apply merge_sort_Permutation.
  split_and!; [done|apply Sorted_merge_sort; apply _|]. unfold GetSubscribePreferences. rewrite Ha, Hp, Hs. rewrite <- (Permutation_length Hperm).
  apply sendPreferences_all. intros r Hr. apply Hok. by rewrite <- Hperm.
Qed.

Lemma preference_on_change all r : IsSubPath r = false ->
  OnChangeSupported (preferenceOf all r) = true <-> IsOnChangeSupported r = true /\ (forall p, p ∈ all -> sID p = sID r -> IsSubPath p = true -> IsOnChangeSupported p = true).
Proof.
  intros Hr. cbn. rewrite Hr. cbn. destruct (hasOnChangeDisabledSubpath (sID r) all) eqn:He.
  - split; [done|]. intros (_ & Hall). apply existsb_exists in He as (p & Hin%list_elem_of_In & Hb). apply andb_true_iff in Hb as [[Hid%Z.eqb_eq Hsub]%andb_true_iff Hn].
    rewrite (Hall p Hin Hid Hsub) in Hn. done.
  - split; [|by intros []]. intros Ho. split; [done|]. intros p Hin Hid Hsub. destruct (IsOnChangeSupported p) eqn:Hp; [done|].
    assert (hasOnChangeDisabledSubpath (sID r) all = true) as Ht; [|congruence]. apply existsb_exists. exists p. split; [by apply list_elem_of_In|]. by rewrite Hid, Z.eqb_refl, Hsub, Hp.
Qed.

(** * Instances *)

#[global] Instance Claims_eq_dec : EqDecision Claims.
Proof. solve_decision. Defined.
#[global] Instance Claims_countable : Countable Claims.
Proof. refine (inj_countable' (fun c => (Username c, cRoles c, ExpiresAt c)) (fun x => mkClaims x.1.1 x.1.2 x.2) _). by intros []. Defined.

(** Tokens as strings of bits. *)
Fixpoint bits (p : positive) : string := match p with xH => "" | xO p => String Ascii.zero (bits p) | xI p => String Ascii.one (bits p) end.
Fixpoint unbits (s : string) : positive :=
  match s with EmptyString => xH | String c s => if Ascii.eqb c Ascii.zero then xO (unbits s) else xI (unbits s) end.

Lemma unbits_bits p : unbits (bits p) = p.
Proof. induction p as [p IH|p IH|]; cbn; by rewrite ?IH. Qed.

Definition demo_sign (k : nat) (c : Claims) : string := bits (encode (k, c)).
Definition demo_parse (k : nat) (t : string) : option Claims :=
  match decode (unbits t) with Some (k', c) => if decide (k = k') then Some c else None | None => None end.

Lemma demo_signed k k' c : demo_parse k (demo_sign k' c) = if decide (k = k') then Some c else None.
Proof. unfold demo_parse, demo_sign. by rewrite unbits_bits, decode_encode. Qed.

Definition demo_world : World := mkWorld 7 10000000000 (fun u => if String.eqb u "admin" then Some ["sudo"] else None) (fun _ _ => true).
Definition demo_auth : Auth.Config := Auth.mkConfig {["jwt" := true]} "" false.

Definition demo_token : string := demo_sign 7 (mkClaims "admin" ["sudo"] 3610).
Definition demo_login : LoginAt := mkLogin demo_world "admin" "x".
Definition demo_history : History := mkHistory demo_world [mkGrant demo_token 7 10000000000 demo_login].

Lemma session_identity_witness :
  Since demo_sign demo_parse 900000000000 3600000000000 (fun _ _ => ∅) (fun _ => None) (fun _ _ => false) 0 demo_auth demo_world demo_history /\
  validClaims demo_parse demo_world demo_token = Some ("admin", ["sudo"]).
Proof.
  assert (Since demo_sign demo_parse 900000000000 3600000000000 (fun _ _ => ∅) (fun _ => None) (fun _ _ => false) 0 demo_auth demo_world demo_history) as Hs.
  { apply rtc_once. exact (Login demo_sign demo_parse 900000000000 3600000000000 (fun _ _ => ∅) (fun _ => None) (fun _ _ => false) 0 demo_auth
      (mkHistory demo_world []) "admin" "x" (mkToken demo_token 3600) eq_refl). }
  split; [exact Hs|].
  apply (session_identity demo_sign demo_parse 900000000000 3600000000000 (fun _ _ => ∅) (fun _ => None) (fun _ _ => false) 0 demo_auth demo_signed ltac:(lia)
    demo_world demo_history (mkGrant demo_token 7 10000000000 demo_login) "admin" ["sudo"]); [cbn; unfold second; lia|exact Hs|by apply list_elem_of_singleton|].
  split_and!; [reflexivity|reflexivity|reflexivity|vm_compute; discriminate].
Defined.

(** A user who was removed from the host keeps refreshing the roles of the last login. *)
Theorem removed_user_refreshes :
  let req := Auth.mkRequest false (Some {["access_token" := demo_sign 7 (mkClaims "admin" ["sudo"] 3610)]}) None in
  let w := mkWorld 7 3000000000000 (fun _ => None) (fun _ _ => false) in
  exists t, Refresh demo_sign demo_parse 900000000000 3600000000000 (fun _ _ => ∅) (fun _ => None) (fun _ _ => false) 0 demo_auth w req ∅ = Ok t /\
    AccessToken t = demo_sign 7 (mkClaims "admin" ["sudo"] 6600).
Proof. eexists. split; vm_compute; reflexivity. Qed.
