(* ===== verification/Stream.v ===== *)
(** Stream subscriptions of the database clients (src/sonic_data_client/db_client.go,
    mixed_db_client.go): [StreamRun], the goroutines it starts for the subscriptions, the
    listeners that table subscriptions start, and the two wait groups, the queue and the stop
    channel between them.

    The two clients run the same protocol over different reads: [StreamClient] is what the
    protocol takes from a client, [dbStream] and [mixedStream] are the clients.  A step is one
    operation on what is shared; timers, notifications of Redis, writes to the databases, the
    clock and the receiver are steps of the environment. *)

From S2P Require Import Prelude GnmiTypes DbTypes VirtualDb JsonClient Server DbClient MixedDb MixedSet.
Import JsonClient DbClient.
Open Scope go_scope.

Module Stream.

Inductive SubscriptionMode := TARGET_DEFINED | ON_CHANGE | SAMPLE.

(** A subscription; paths are keys by their address, [s_ptr]. *)
Record Subscription := mkSub { s_ptr : nat; s_path : Path; s_mode : SubscriptionMode; s_interval : Z }.

(** Why a goroutine gives up: a fatal message, or a panic. *)
Inductive Reason := UnsupportedMode | BadInterval | PathError | NoConnection | PSubscribeFailed (pattern : string) | ReadFailed | EmitError.
Inductive Stopped := Fatal (r : Reason) | Crash.

Abbreviation Prev := (tablePath -> option string).

(** * What a client provides *)

Record StreamClient := mkClient {
  Msi : Type;
  DB : Type;
  noMsi : Msi;
  isEmpty : Msi -> bool;
  mergeMsi : Msi -> Msi -> Msi;
  (** The table paths of a subscription, and whether an empty list is one of a table. *)
  resolve : DB -> Subscription -> res Stopped (list tablePath);
  emptyOk : bool;
  (** The readings of several fields, where the client has them; [None]: a panic. *)
  readFields : option (DB -> bool -> bool -> list tablePath -> Prev -> option (Msi * Prev));
  fieldConn : DB -> tablePath -> option Stopped;
  hget : DB -> tablePath -> res redis_error string;
  tableConn : DB -> tablePath -> option Stopped;
  readTable : DB -> tablePath -> Msi -> res Stopped Msi;
  (** A notification: what the listener remembers, and the update it passes on. *)
  hear : DB -> tablePath -> nat -> Msi -> string -> string -> res Stopped (Msi * option Msi);
  (** The value for a map, and the map after the value was made. *)
  msiValue : Subscription -> Z -> Msi -> res Stopped Value;
  sentMsi : Msi -> Msi;
  fieldValue : Subscription -> Z -> string -> Value
}.

(** * State *)

Section Protocol.
Variable C : StreamClient.
(** The text of a fatal message. *)
Variable text : Reason -> string.

Inductive Fun := FField (onChange : bool) | FMulti (onChange updateOnly : bool) | FTable (interval : Z) (updateOnly : bool).

(** The variables of the loops of [dbFieldSubscribe], [dbFieldMultiSubscribe] and
    [dbTableKeySubscribe]. *)
Inductive Local :=
| LField (t : tablePath) (onChange : bool) (val : string)
| LMulti (ts : list tablePath) (onChange updateOnly : bool) (prev : Prev)
| LTable (ts : list tablePath) (interval : Z) (updateOnly : bool) (msiAll : Msi C).

(** Where the goroutine of a subscription is. *)
Inductive RState :=
| Spawned (onChange updateOnly : bool)
| Called (f : Fun)
| Ready (l : Local)
| Setup (done todo : list tablePath) (interval : Z) (updateOnly : bool) (msiAll : Msi C)
| First (l : Local) (v : Value)
| Signal (after : option Local)
| Loop (l : Local)
| Again (l : Local) (v : Value)
| Ending
| Ended.

Record Routine := mkRoutine { r_sub : Subscription; r_st : RState }.

Inductive LState := Hearing | Passing (u : Msi C) | Broken | Gone.
Record Listener := mkListener { l_owner : nat; l_path : tablePath; l_len : nat; l_msi : Msi C; l_st : LState }.

(** Where [StreamRun] is; after the wait for [synced] it reads the clock, then puts the sync
    response with that time. *)
Inductive RunPC := Spawning (rest : list Subscription) | Waiting | Timing | PutSync (n : Z) | Blocked | Exiting | Returned.

(** [queue] is everything that was put, with the goroutine that put it; nothing is put on a
    disposed queue. *)
Record State := mkState {
  pc : RunPC; routines : list Routine; listeners : list Listener;
  w : Z; synced : Z;
  queue : list (option nat * Value); disposed : bool; closed : bool;
  db : DB C; now : Z; crashed : bool
}.

Definition goto (p : RunPC) (s : State) : State :=
  mkState p (routines s) (listeners s) (w s) (synced s) (queue s) (disposed s) (closed s) (db s) (now s) (crashed s).
Definition setR (i : nat) (r : RState) (s : State) : State :=
  mkState (pc s) (alter (fun x => mkRoutine (r_sub x) r) i (routines s)) (listeners s) (w s) (synced s) (queue s) (disposed s) (closed s) (db s) (now s) (crashed s).
Definition setL (j : nat) (l : Listener) (s : State) : State :=
  mkState (pc s) (routines s) (<[j := l]> (listeners s)) (w s) (synced s) (queue s) (disposed s) (closed s) (db s) (now s) (crashed s).
Definition addR (r : Routine) (s : State) : State :=
  mkState (pc s) (routines s ++ [r]) (listeners s) (w s) (synced s) (queue s) (disposed s) (closed s) (db s) (now s) (crashed s).
Definition addL (l : list Listener) (s : State) : State :=
  mkState (pc s) (routines s) (listeners s ++ l) (w s) (synced s) (queue s) (disposed s) (closed s) (db s) (now s) (crashed s).
Definition addW (n : Z) (s : State) : State :=
  mkState (pc s) (routines s) (listeners s) (w s + n) (synced s) (queue s) (disposed s) (closed s) (db s) (now s) (crashed s).
Definition addSynced (n : Z) (s : State) : State :=
  mkState (pc s) (routines s) (listeners s) (w s) (synced s + n) (queue s) (disposed s) (closed s) (db s) (now s) (crashed s).
(** [q.Put]. *)
Definition put (who : option nat) (v : Value) (s : State) : State :=
  mkState (pc s) (routines s) (listeners s) (w s) (synced s) (if disposed s then queue s else queue s ++ [(who, v)]) (disposed s) (closed s) (db s) (now s) (crashed s).
Definition crash (s : State) : State :=
  mkState (pc s) (routines s) (listeners s) (w s) (synced s) (queue s) (disposed s) (closed s) (db s) (now s) true.
Definition environment (d c : bool) (b : DB C) (n : Z) (s : State) : State :=
  mkState (pc s) (routines s) (listeners s) (w s) (synced s) (queue s) d c b n (crashed s).

Definition fatalValue (r : Reason) (s : State) : Value := mkValue None None (now s) false (text r) None [] None.
(** [putFatalMsg]; its time is read and the message put in one step, the time is not later
    than the put. *)
Definition putFatal (who : option nat) (r : Reason) (s : State) : State := put who (fatalValue r s) s.

(** * [StreamRun] *)

(** Without subscriptions every path is a subscription to changes. *)
Definition subscriptions (subs : list Subscription) (paths : list (nat * Path)) : list Subscription :=
  match subs with [] => map (fun p => mkSub p.1 p.2 ON_CHANGE 0) paths | _ => subs end.

Definition StreamRun (subs : list Subscription) (paths : list (nat * Path)) (b : DB C) (n : Z) : State :=
  mkState (Spawning (subscriptions subs paths)) [] [] 1 0 [] false false b n false.

Definition spawn (sub : Subscription) (onChange updatesOnly : bool) (s : State) : State :=
  addSynced 1 (addW 1 (addR (mkRoutine sub (Spawned onChange updatesOnly)) s)).

Variable updatesOnly : bool.

(** One step of [StreamRun], [None] when it waits or has returned. *)
Definition runStep (s : State) : option State :=
  match pc s with
  | Spawning (sub :: rest) =>
      match s_mode sub with
      | SAMPLE => Some (goto (Spawning rest) (spawn sub false updatesOnly s))
      | ON_CHANGE => Some (goto (Spawning rest) (spawn sub true updatesOnly s))
      | TARGET_DEFINED => Some (goto Exiting (putFatal None UnsupportedMode s))
      end
  | Spawning [] => Some (goto Waiting s)
  | Waiting => if (synced s =? 0)%Z then Some (goto Timing s) else None
  | Timing => Some (goto (PutSync (now s)) s)
  | PutSync n => Some (goto Blocked (put None (syncValue n) s))
  | Blocked => if closed s then Some (goto Exiting s) else None
  | Exiting => Some (goto Returned (addW (-1) s))
  | Returned => None
  end.

(** * The goroutine of a subscription *)

(** [streamOnChangeSubscription], [streamSampleSubscription]: the function for the table
    paths, or why there is none. *)
Definition dispatch (sub : Subscription) (onChange updateOnly : bool) (b : DB C) : res Stopped Fun :=
  match (if onChange then Some 0%Z else validateSampleInterval (s_interval sub)) with
  | None => Err (Fatal BadInterval)
  | Some interval =>
      try ts := resolve C b sub in
      match ts with
      | [] => if emptyOk C then Ok (FTable interval (onChange || updateOnly)) else Err Crash
      | t :: rest =>
          if String.eqb (field t) "" then Ok (FTable interval (onChange || updateOnly))
          else match rest, readFields C with
               | _ :: _, Some _ => Ok (FMulti onChange (negb onChange && updateOnly))
               | _, _ => Ok (FField onChange)
               end
      end
  end.

(** The beginning of the functions, up to the first read. *)
Definition enter (sub : Subscription) (f : Fun) (b : DB C) : res Stopped RState :=
  try ts := resolve C b sub in
  match f with
  | FField onChange =>
      match ts with
      | [] => Err Crash
      | t :: _ => match fieldConn C b t with Some e => Err e | None => Ok (Ready (LField t onChange "")) end
      end
  | FMulti onChange updateOnly => Ok (Ready (LMulti ts onChange updateOnly (fun _ => None)))
  | FTable interval updateOnly => Ok (Setup [] ts interval updateOnly (noMsi C))
  end.

(** Reads that lead to a value; [always] is the first one. *)
Definition reading (sub : Subscription) (always : bool) (l : Local) (b : DB C) (n : Z) : res Stopped (Local * option Value) :=
  match l with
  | LField t onChange val =>
      let newVal := readVal (hget C b t) in
      Ok (if always || negb onChange || negb (String.eqb newVal val) then (LField t onChange newVal, Some (fieldValue C sub n newVal)) else (l, None))
  | LMulti ts onChange updateOnly prev =>
      match readFields C with
      | None => Err Crash
      | Some read =>
          match read b onChange updateOnly ts prev with
          | None => Err Crash
          | Some (msi, prev') =>
              if always || negb onChange || negb (isEmpty C msi) then
                try v := msiValue C sub n msi in Ok (LMulti ts onChange updateOnly prev', Some v)
              else Ok (LMulti ts onChange updateOnly prev', None)
          end
      end
  | LTable ts interval updateOnly msiAll =>
      try v := msiValue C sub n msiAll in
      Ok (LTable ts interval updateOnly (if updateOnly then noMsi C else sentMsi C msiAll), Some v)
  end.

(** The pattern of a table path; its subscription may fail. *)
Definition subscribeTable (ok : bool) (t : tablePath) (msiAll : Msi C) (b : DB C) : res Stopped (Msi C) :=
  match tableConn C b t with
  | Some e => Err e
  | None => if ok then readTable C b t msiAll else Err (Fatal (PSubscribeFailed (keyspacePattern t).1))
  end.

Definition newListener (i : nat) (t : tablePath) : Listener := mkListener i t (keyspacePattern t).2 (noMsi C) Hearing.

(** Giving up before or after the first value was announced. *)
Definition giveUp (i : nat) (e : Stopped) (next : RState) (s : State) : State :=
  match e with Fatal r => setR i next (putFatal (Some i) r s) | Crash => crash s end.

(** One step of the goroutine of a subscription, [None] when it is in its select or has ended;
    [ok] tells whether the next subscription to a pattern succeeds. *)
Definition routineStep (ok : bool) (i : nat) (s : State) : option State :=
  match routines s !! i with
  | None => None
  | Some (mkRoutine sub r) =>
      match r with
      | Spawned onChange updateOnly =>
          Some (match dispatch sub onChange updateOnly (db s) with
                | Ok f => setR i (Called f) s
                | Err e => giveUp i e (Signal None) s
                end)
      | Called f =>
          Some (match enter sub f (db s) with
                | Ok r => setR i r s
                | Err e => giveUp i e (Signal None) s
                end)
      | Ready l =>
          Some (match reading sub true l (db s) (now s) with
                | Ok (l, Some v) => setR i (First l v) s
                | Ok (l, None) => setR i (Signal (Some l)) s
                | Err e => giveUp i e (Signal None) s
                end)
      | Setup done (t :: todo) interval updateOnly msiAll =>
          Some (match subscribeTable ok t msiAll (db s) with
                | Ok msiAll => setR i (Setup (done ++ [t]) todo interval updateOnly msiAll) s
                | Err e => giveUp i e (Signal None) s
                end)
      | Setup done [] interval updateOnly msiAll => Some (setR i (Ready (LTable done interval updateOnly msiAll)) s)
      | First l v => Some (setR i (Signal (if disposed s then None else Some l)) (put (Some i) v s))
      | Signal None => Some (setR i Ending (addSynced (-1) s))
      | Signal (Some l) =>
          Some (addL (match l with LTable ts _ _ _ => map (newListener i) ts | _ => [] end) (setR i (Loop l) (addSynced (-1) s)))
      | Loop _ => if closed s then Some (setR i Ending s) else None
      | Again l v => Some (setR i (if disposed s then Ending else Loop l) (put (Some i) v s))
      | Ending => Some (setR i Ended (addW (-1) s))
      | Ended => None
      end
  end.

(** The ticker of a loop; subscriptions to changes of tables have none. *)
Definition tick (i : nat) (s : State) : option State :=
  match routines s !! i with
  | Some (mkRoutine sub (Loop l)) =>
      if (match l with LTable _ interval _ _ => (interval =? 0)%Z | _ => false end) then None
      else Some (match reading sub false l (db s) (now s) with
                 | Ok (l, Some v) => setR i (Again l v) s
                 | Ok (l, None) => setR i (Loop l) s
                 | Err e => giveUp i e Ending s
                 end)
  | _ => None
  end.

(** * Listeners *)

Definition withL (l : Listener) (st : LState) : Listener := mkListener (l_owner l) (l_path l) (l_len l) (l_msi l) st.

(** One step of [dbSingleTableKeySubscribe] without a notification: an update is taken by the
    select of its owner, and a closed channel ends the loop. *)
Definition listenerStep (j : nat) (s : State) : option State :=
  match listeners s !! j with
  | None => None
  | Some l =>
      match l_st l with
      | Passing u =>
          match routines s !! l_owner l with
          | Some (mkRoutine sub (Loop (LTable ts interval updateOnly msiAll))) =>
              let s := setL j (withL l Hearing) s in
              Some (if (interval =? 0)%Z then
                      match msiValue C sub (now s) u with
                      | Ok v => setR (l_owner l) (Again (LTable ts interval updateOnly msiAll) v) s
                      | Err e => giveUp (l_owner l) e Ending s
                      end
                    else setR (l_owner l) (Loop (LTable ts interval updateOnly (mergeMsi C u msiAll))) s)
          | _ => None
          end
      | Hearing => if closed s then Some (setL j (withL l Gone) s) else None
      | Broken => if closed s then Some (setL j (withL l Hearing) s) else None
      | Gone => None
      end
  end.

(** A notification, or the failure of the connection. *)
Definition notified (j : nat) (channel payload : string) (s : State) : option State :=
  match listeners s !! j with
  | Some l =>
      match l_st l with
      | Hearing =>
          Some (match hear C (db s) (l_path l) (l_len l) (l_msi l) channel payload with
                | Ok (msi, u) => setL j (mkListener (l_owner l) (l_path l) (l_len l) msi (match u with Some u => Passing u | None => Hearing end)) s
                | Err (Fatal r) => setL j (withL l Gone) (putFatal (Some (l_owner l)) r s)
                | Err Crash => crash s
                end)
      | _ => None
      end
  | None => None
  end.

Definition disconnected (j : nat) (s : State) : option State :=
  match listeners s !! j with
  | Some l => match l_st l with Hearing => Some (setL j (withL l Broken) s) | _ => None end
  | None => None
  end.

(** * Steps *)

(** What the goroutines do by themselves. *)
Inductive own (s : State) : State -> Prop :=
| OwnRun s' : crashed s = false -> runStep s = Some s' -> own s s'
| OwnRoutine ok i s' : crashed s = false -> routineStep ok i s = Some s' -> own s s'
| OwnListener j s' : crashed s = false -> listenerStep j s = Some s' -> own s s'.

(** Timers, Redis, the clock, and the receiver, which closes the channel and disposes of the
    queue for good. *)
Inductive outside (s : State) : State -> Prop :=
| Tick i s' : crashed s = false -> tick i s = Some s' -> outside s s'
| Notified j channel payload s' : crashed s = false -> notified j channel payload s = Some s' -> outside s s'
| Disconnected j s' : crashed s = false -> disconnected j s = Some s' -> outside s s'
| Changes d c b n : (disposed s = true -> d = true) -> (closed s = true -> c = true) -> (now s <= n)%Z -> outside s (environment d c b n s).

Definition step (s s' : State) : Prop := own s s' \/ outside s s'.
Definition reachable (subs : list Subscription) (paths : list (nat * Path)) (b : DB C) (n : Z) (s : State) : Prop := rtc step (StreamRun subs paths b n) s.

End Protocol.

(** * The clients *)

Section Clients.
Context `{!MapRange}.
Variable marshal : jobj -> option string.

Definition ofDb {A} (r : dres A) : res Stopped A :=
  match r with Ok a => Ok a | Err Panic => Err Crash | Err EmitFailed => Err (Fatal EmitError) | Err _ => Err (Fatal ReadFailed) end.

Definition fieldReading (r : option Redis) (t : tablePath) : res redis_error string :=
  match r with Some r => HGetErr r (fieldKey t) (field t) | None => Err RedisFailure end.

(** The database client with its prefix and the table paths of its paths; a connection that is
    missing is a nil pointer. *)
Definition dbStream (prefix : option Path) (pathG2S : gmap nat (list tablePath)) : StreamClient :=
  let connected b t := match redisOf b (dbNamespace t) (dbName t) with Some _ => true | None => false end in
  let nil b t := if connected b t then None else Some Crash in
  let read b t := fieldReading (redisOf b (dbNamespace t) (dbName t)) t in
  mkClient jobj (gmap string (gmap string Redis)) ∅ (fun m => base.size m =? 0) (fun u all => u ∪ all)
    (fun _ sub => Ok (default [] (pathG2S !! s_ptr sub))) true
    (Some (fun b onChange updateOnly ts prev => if forallb (connected b) ts then Some (multiRead onChange updateOnly ts (read b) prev) else None))
    nil read nil
    (fun b t msi => ofDb (TableData2Msi b t false None msi))
    (fun b t len msi channel payload => ofDb (onMessage t len msi (mkMessage channel payload b)))
    (fun sub n msi => try v := ofDb (Msi2TypedValue marshal msi) in Ok (updateValue prefix (s_path sub) n v))
    (fun msi => msi)
    (fun sub n val => updateValue prefix (s_path sub) n (StringVal val)).

Definition ofMixed {A} (reason : Reason) (r : res MixedDb.mx_error A) : res Stopped A :=
  match r with Ok a => Ok a | Err MixedDb.Panic => Err Crash | Err _ => Err (Fatal reason) end.

(** The native data client: paths are resolved by every function, a connection that is missing
    is an error. *)
Definition mixedStream (inst : MixedDb.Instances) (c : MixedDb.MixedDbClient) : StreamClient :=
  let missing b t := match MixedDb.redisOf b c (dbName t) with Ok _ => None | Err _ => Some (Fatal NoConnection) end in
  let read b t := fieldReading (match MixedDb.redisOf b c (dbName t) with Ok r => Some r | Err _ => None end) t in
  mkClient (gmap string MixedDb.mval) (gmap string Redis) ∅ (fun m => base.size m =? 0) (fun u all => u ∪ all)
    (fun b sub => ofMixed PathError (MixedDb.getDbtablePath inst b c (Some (s_path sub)) None)) false
    None missing read missing
    (fun b t msi => ofMixed ReadFailed (MixedDb.tableData2Msi b c t false msi))
    (fun b t len msi channel payload => ofMixed ReadFailed (MixedSet.onMessage c t len msi channel payload b))
    (fun sub n msi => ofMixed EmitError (MixedSet.sendMsiData marshal c (s_path sub) n msi))
    (fun msi => delete "delete" msi)
    (fun sub n val => updateValue (MixedDb.prefix c) (s_path sub) n (StringVal val)).

(** The functions of the native data client are those of the protocol at its reads. *)
Section Mixed.
Variables (inst : MixedDb.Instances) (c : MixedDb.MixedDbClient) (text : Reason -> string) (updatesOnly : bool).

Definition mixedStreamRun : State (mixedStream inst c) -> option (State (mixedStream inst c)) := runStep (mixedStream inst c) text updatesOnly.
Definition mixedDispatch : Subscription -> bool -> bool -> gmap string Redis -> res Stopped Fun := dispatch (mixedStream inst c).
Definition mixedFieldTick : nat -> State (mixedStream inst c) -> option (State (mixedStream inst c)) := tick (mixedStream inst c) text.
Definition mixedTableKeySubscribe : bool -> nat -> State (mixedStream inst c) -> option (State (mixedStream inst c)) := routineStep (mixedStream inst c) text.
Definition mixedSingleTableKeySubscribe : nat -> string -> string -> State (mixedStream inst c) -> option (State (mixedStream inst c)) := notified (mixedStream inst c) text.

End Mixed.
End Clients.
End Stream.
