(* ===== verification/StreamProofs.v ===== *)
(** Theorems about stream subscriptions: what the wait groups count, when the sync response is
    put, and that closing the channel ends every goroutine the receiver waits for.  They are
    proved for any client that meets [StreamLaws], and both clients do. *)

From S2P Require Import Prelude GnmiTypes DbTypes VirtualDb JsonClient Server DbClient MixedDb MixedSet Stream.
Import JsonClient DbClient Stream.
Open Scope go_scope.

(** What the theorems take from a client: its values are not sync responses and carry the time
    at which they were made. *)
Class StreamLaws (C : StreamClient) : Prop := {
  fieldValue_data sub n x : v_sync (fieldValue C sub n x) = false /\ GetTimestamp (fieldValue C sub n x) = n;
  msiValue_data sub n m v : msiValue C sub n m = Ok v -> v_sync v = false /\ GetTimestamp v = n
}.

#[global] Instance dbStream_laws `{!MapRange} marshal prefix pathG2S : StreamLaws (dbStream marshal prefix pathG2S).
Proof.
  split; [done|]. cbn. intros sub n m v. destruct (Msi2TypedValue marshal m) as [tv|e]; cbn; [by intros [= <-]|by destruct e].
Qed.

#[global] Instance mixedStream_laws `{!MapRange} marshal inst c : StreamLaws (mixedStream marshal inst c).
Proof.
  split; [done|]. cbn. unfold MixedSet.sendMsiData. intros sub n m v.
  destruct (MixedDb.msi2TypedValue marshal c (delete "delete" m)) as [tv|e]; cbn; [by intros [= <-]|by destruct e].
Qed.

Section Protocol.
Context (C : StreamClient) `{!StreamLaws C} (text : Reason -> string) (updatesOnly : bool).
Abbreviation State := (State C).
Abbreviation RState := (RState C).
Abbreviation Routine := (Routine C).
Abbreviation own := (own C text updatesOnly).
Abbreviation outside := (outside C text).
Abbreviation step := (step C text updatesOnly).
Abbreviation reachable := (reachable C text updatesOnly).
Implicit Types (s : State) (r : RState).

(** The fields of a changed state. *)
Ltac fields := cbn [pc routines listeners w synced queue disposed closed db now crashed goto setR setL addR addL addW addSynced put crash environment putFatal spawn].
Tactic Notation "fields" "in" hyp(H) :=
  cbn [pc routines listeners w synced queue disposed closed db now crashed goto setR setL addR addL addW addSynced put crash environment putFatal spawn] in H.

(** * What the wait groups count *)

(** Whether a goroutine has still to call [w.Done] and [synced.Done]. *)
Definition alive r : Z := match r with Ended _ => 0 | _ => 1 end.
Definition unsynced r : Z :=
  match r with Spawned _ _ _ | Called _ _ | Ready _ _ | Setup _ _ _ _ _ _ | First _ _ _ | Signal _ _ => 1 | _ => 0 end.
Definition running (p : RunPC) : Z := match p with Returned => 0 | _ => 1 end.

Definition total (f : RState -> Z) (l : list Routine) : Z := foldr (fun x n => f (r_st C x) + n)%Z 0%Z l.

Lemma total_alter f r l i sub r0 : l !! i = Some (mkRoutine C sub r0) ->
  total f (alter (fun x => mkRoutine C (r_sub C x) r) i l) = (total f l - f r0 + f r)%Z.
Proof.
  revert i. induction l as [|x l IH]; intros [|i] H; [done|done| |]; cbn in H; simplify_eq.
  - unfold total, alter. cbn. lia.
  - change (f (r_st C x) + total f (alter (fun x => mkRoutine C (r_sub C x) r) i l) = f (r_st C x) + total f l - f r0 + f r)%Z. rewrite (IH i H). lia.
Qed.

Lemma total_snoc f l x : total f (l ++ [x]) = (total f l + f (r_st C x))%Z.
Proof. unfold total. induction l as [|y l IH]; cbn in *; lia. Qed.

Record Counted s : Prop := {
  c_w : w C s = (running (pc C s) + total alive (routines C s))%Z;
  c_synced : synced C s = total unsynced (routines C s)
}.

(** A goroutine that moves without telling the wait groups. *)
Lemma counted_setR s i sub r0 r : routines C s !! i = Some (mkRoutine C sub r0) -> alive r = alive r0 -> unsynced r = unsynced r0 ->
  Counted s -> Counted (setR C i r s).
Proof. intros Hi Ha Hu [Hw Hs]. split; fields; rewrite (total_alter _ _ _ _ _ _ Hi); lia. Qed.

Lemma counted_frame s s' : w C s' = w C s -> synced C s' = synced C s -> running (pc C s') = running (pc C s) -> routines C s' = routines C s -> Counted s -> Counted s'.
Proof. intros Hw Hs Hp Hr [Cw Cs]. split; congruence. Qed.

Lemma counted_giveUp s i sub r0 e r : routines C s !! i = Some (mkRoutine C sub r0) -> alive r = alive r0 -> unsynced r = unsynced r0 ->
  Counted s -> Counted (giveUp C text i e r s).
Proof. intros Hi Ha Hu H. destruct e as [rs|]; unfold giveUp; [|by apply (counted_frame s)]. eapply counted_setR; [done..|]. by apply (counted_frame s). Qed.

Lemma counted_run s s' : runStep C text updatesOnly s = Some s' -> Counted s -> Counted s'.
Proof.
  unfold runStep. intros H Hc. destruct (pc C s) as [[|sub rest]| | |t| | |] eqn:Hp; simplify_eq.
  - apply (counted_frame s); [done|done|by fields; rewrite Hp|done|done].
  - destruct Hc as [Hw Hs]. rewrite Hp in Hw. destruct (s_mode sub); simplify_eq; split; fields; rewrite ?total_snoc; cbn [r_st alive unsynced running] in *; lia.
  - case_match; simplify_eq. apply (counted_frame s); [done|done|by fields; rewrite Hp|done|done].
  - apply (counted_frame s); [done|done|by fields; rewrite Hp|done|done].
  - apply (counted_frame s); [done|done|by fields; rewrite Hp|done|done].
  - case_match; simplify_eq. apply (counted_frame s); [done|done|by fields; rewrite Hp|done|done].
  - destruct Hc as [Hw Hs]. rewrite Hp in Hw. split; fields; cbn [running] in *; lia.
Qed.

Lemma enter_unsynced sub f b r : enter C sub f b = Ok r -> alive r = 1%Z /\ unsynced r = 1%Z.
Proof.
  unfold enter. destruct (resolve C b sub) as [ts|]; [|done]. cbn. destruct f; [destruct ts as [|t ts]; [done|]; destruct (fieldConn C b t); [done|]|..]; by intros [= <-].
Qed.

Lemma counted_routine ok i s s' : routineStep C text ok i s = Some s' -> Counted s -> Counted s'.
Proof.
  unfold routineStep. intros H Hc. destruct (routines C s !! i) as [[sub r]|] eqn:Hi; [|done].
  destruct r as [oc uo|f|l|done_ [|t todo] iv uo msi|l v|[l|]|l|l v| |]; simplify_eq.
  - destruct (dispatch _ _ _ _ _) as [f|e]; [by eapply counted_setR|by eapply counted_giveUp].
  - destruct (enter C sub f (db C s)) as [r|e] eqn:He; [apply enter_unsynced in He as []; by eapply counted_setR|by eapply counted_giveUp].
  - destruct (reading _ _ _ _ _ _) as [[l' [v|]]|e]; [by eapply counted_setR..|by eapply counted_giveUp].
  - by eapply counted_setR.
  - destruct (subscribeTable _ _ _ _ _) as [m|e]; [by eapply counted_setR|by eapply counted_giveUp].
  - eapply counted_setR; [done..|]. by apply (counted_frame s).
  - destruct Hc as [Hw Hs]. split; fields; rewrite (total_alter _ _ _ _ _ _ Hi); cbn [alive unsynced]; lia.
  - destruct Hc as [Hw Hs]. split; fields; rewrite (total_alter _ _ _ _ _ _ Hi); cbn [alive unsynced]; lia.
  - case_match; simplify_eq. by eapply counted_setR.
  - destruct (disposed C s) eqn:Hd; (eapply counted_setR; [done..|]; by apply (counted_frame s)).
  - destruct Hc as [Hw Hs]. split; fields; rewrite (total_alter _ _ _ _ _ _ Hi); cbn [alive unsynced]; lia.
Qed.

Lemma counted_listener j s s' : listenerStep C text j s = Some s' -> Counted s -> Counted s'.
Proof.
  unfold listenerStep. intros H Hc. destruct (listeners C s !! j) as [l|]; [|done]. destruct (l_st C l) as [|u| |]; try done.
  - case_match; simplify_eq. by apply (counted_frame s).
  - destruct (routines C s !! l_owner C l) as [[sub r]|] eqn:Hi; [|done]. destruct r as [| | | | | |[| |ts iv uo all]| | |]; try done. simplify_eq.
    assert (Counted (setL C j (withL C l (Hearing C)) s)) as Hc' by (by apply (counted_frame s)).
    case_match; [|by eapply counted_setR]. destruct (msiValue _ _ _ _) as [v|e]; [by eapply counted_setR|by eapply counted_giveUp].
  - case_match; simplify_eq. by apply (counted_frame s).
Qed.

Lemma counted_outside s s' : outside s s' -> Counted s -> Counted s'.
Proof.
  destruct 1 as [i s' _ H|j ch pl s' _ H|j s' _ H|]; intros Hc; [| | |by apply (counted_frame s)].
  - unfold tick in H. destruct (routines C s !! i) as [[sub r]|] eqn:Hi; [|done]. destruct r as [| | | | | |l| | |]; try done.
    destruct (match l with LTable _ _ _ _ _ => _ | _ => _ end); [done|]. simplify_eq.
    destruct (reading _ _ _ _ _ _) as [[l' [v|]]|e]; [by eapply counted_setR..|by eapply counted_giveUp].
  - unfold notified in H. destruct (listeners C s !! j) as [l|]; [|done]. destruct (l_st C l); try done. simplify_eq.
    destruct (hear _ _ _ _ _ _ _) as [[m u]|[rs|]]; by apply (counted_frame s).
  - unfold disconnected in H. destruct (listeners C s !! j) as [l|]; [|done]. destruct (l_st C l); try done. simplify_eq. by apply (counted_frame s).
Qed.

Lemma counted_step s s' : step s s' -> Counted s -> Counted s'.
Proof.
  intros [[s'' _ H|ok i s'' _ H|j s'' _ H]|H]; [by eapply counted_run|by eapply counted_routine|by eapply counted_listener|by eapply counted_outside].
Qed.

Lemma counted_reachable subs paths b n s : reachable subs paths b n s -> Counted s.
Proof. apply (rtc_ind_r (fun s => Counted s)); [done|]. intros y z _ Hs. by apply counted_step. Qed.

(** * When the sync response is put *)

Abbreviation Queue := (list (option nat * Value)).
Definition putBy (q : Queue) (i : nat) : Prop := exists v, (Some i, v) ∈ q.
(** Whether a goroutine is past its first value or its fatal message. *)
Definition hasPut r : bool := match r with Signal _ _ | Loop _ _ | Again _ _ _ | Ending _ | Ended _ => true | _ => false end.
Definition dataValue (n : Z) (v : Value) : Prop := v_sync v = false /\ (GetTimestamp v <= n)%Z.
Definition valueOk (n : Z) r : Prop := match r with First _ _ v | Again _ _ v => dataValue n v | _ => True end.

(** A value of the subscription that is not younger than [t]. *)
Definition putBefore (t : Z) (q : Queue) (i : nat) : Prop := exists v, (Some i, v) ∈ q /\ (GetTimestamp v <= t)%Z.

(** A sync response in the queue: everybody put something before it that is not younger, and
    there is no other one. *)
Definition SyncOk (subs : list Subscription) (rs : list Routine) (q : Queue) : Prop :=
  forall q1 v q2, q = q1 ++ (None, v) :: q2 -> v_sync v = true ->
    r_sub C <$> rs = subs /\ (forall i, i < length subs -> putBefore (GetTimestamp v) q1 i) /\
    (forall x, x ∈ q1 -> v_sync x.2 = false) /\ (forall x, x ∈ q2 -> v_sync x.2 = false).

Definition noSync (q : Queue) : Prop := forall x, x ∈ q -> v_sync x.2 = false.

Record Queued (subs : list Subscription) (p : RunPC) (rs : list Routine) (q : Queue) (d : bool) (n : Z) : Prop := {
  q_put i sub r : rs !! i = Some (mkRoutine C sub r) -> hasPut r = true -> putBy q i \/ d = true;
  q_value i sub r : rs !! i = Some (mkRoutine C sub r) -> valueOk n r;
  q_items x : x ∈ q -> (GetTimestamp x.2 <= n)%Z /\ (v_sync x.2 = true -> x.1 = None);
  q_subs : match p with Spawning rest => (r_sub C <$> rs) ++ rest = subs | Waiting | Timing | PutSync _ | Blocked => r_sub C <$> rs = subs | _ => True end;
  q_noSync : match p with Spawning _ | Waiting | Timing | PutSync _ => noSync q | _ => True end;
  q_time t : p = PutSync t -> (t <= n)%Z /\ (d = true \/ forall i, i < length subs -> putBefore t q i);
  q_all : p = Timing -> forall i sub r, rs !! i = Some (mkRoutine C sub r) -> hasPut r = true;
  q_sync : SyncOk subs rs q
}.

Lemma putBy_app q x i : putBy q i -> putBy (q ++ [x]) i.
Proof. intros [v Hv]. exists v. apply elem_of_app. by left. Qed.

Lemma putBefore_app t q x i : putBefore t q i -> putBefore t (q ++ [x]) i.
Proof. intros (v & Hv & Ht). exists v. split; [|done]. apply elem_of_app. by left. Qed.

Lemma syncOk_snoc subs rs q x : v_sync x.2 = false -> SyncOk subs rs q -> SyncOk subs rs (q ++ [x]).
Proof.
  intros Hx H q1 v q2 Heq Hv. destruct q2 as [|y q2 _] using rev_ind.
  { apply app_inj_tail in Heq as [_ ->]. cbn in Hx. congruence. }
  rewrite app_comm_cons, app_assoc in Heq. apply app_inj_tail in Heq as [-> ->]. destruct (H q1 v q2 eq_refl Hv) as (Hs & Hp & H1 & H2). split_and!; [done..|].
  intros z [Hz| ->%list_elem_of_singleton]%elem_of_app; [by apply H2|done].
Qed.

Lemma queued_put subs p rs q d n who v : dataValue n v -> Queued subs p rs q d n -> Queued subs p rs (if d then q else q ++ [(who, v)]) d n.
Proof.
  intros [Hv Ht] H. destruct d; [done|]. destruct H as [Hp Hval Hi Hs Hn Htm Ha Hy]. split; [| |.. | | |]; try done.
  - intros i sub r Hl Hr. destruct (Hp i sub r Hl Hr) as [Hb|]; [|done]. left. by apply putBy_app.
  - intros x [Hx| ->%list_elem_of_singleton]%elem_of_app; [by apply Hi|]. cbn. by rewrite Hv.
  - destruct p; try done; intros x [Hx| ->%list_elem_of_singleton]%elem_of_app; try done; by apply Hn.
  - intros t Et. destruct (Htm t Et) as [Hle [|Hall]]; [done|]. split; [done|right]. intros i Hlt. by apply putBefore_app, Hall.
  - by apply syncOk_snoc.
Qed.

Lemma lookup_alterR (rs : list Routine) i r j sub r' : alter (fun x => mkRoutine C (r_sub C x) r) i rs !! j = Some (mkRoutine C sub r') ->
  (j = i /\ r' = r /\ exists r0, rs !! i = Some (mkRoutine C sub r0)) \/ rs !! j = Some (mkRoutine C sub r').
Proof.
  destruct (decide (i = j)) as [<-|Hne]; [|rewrite list_lookup_alter_ne by done; by right].
  rewrite list_lookup_alter_eq. destruct (rs !! i) as [[sub0 r0]|]; [|done]. cbn. intros [= <- <-]. left. eauto.
Qed.

Lemma subs_alter (rs : list Routine) i r : r_sub C <$> alter (fun x => mkRoutine C (r_sub C x) r) i rs = r_sub C <$> rs.
Proof.
  apply list_eq. intros j. rewrite !list_lookup_fmap. destruct (decide (i = j)) as [<-|]; [rewrite list_lookup_alter_eq; by destruct (rs !! i)|by rewrite list_lookup_alter_ne].
Qed.

Lemma queued_setR subs p rs q d n i sub r0 r : rs !! i = Some (mkRoutine C sub r0) ->
  (hasPut r = true -> hasPut r0 = true \/ putBy q i \/ d = true) -> (hasPut r0 = true -> hasPut r = true) -> valueOk n r ->
  Queued subs p rs q d n -> Queued subs p (alter (fun x => mkRoutine C (r_sub C x) r) i rs) q d n.
Proof.
  intros Hi Hput Hkeep Hok [Hp Hval Hit Hs Hn Htm Ha Hy]. split; [| |done| |done|done| |].
  - intros j sub' r' [(-> & -> & _)|Hl]%lookup_alterR Hr; [|by eapply Hp]. destruct (Hput Hr) as [H0|[]]; [by eapply Hp|by left|by right].
  - intros j sub' r' [(-> & -> & _)|Hl]%lookup_alterR; [done|by eapply Hval].
  - destruct p; rewrite ?subs_alter; done.
  - intros He j sub' r' [(-> & -> & _)|Hl]%lookup_alterR; [apply Hkeep; by eapply Ha|by eapply Ha].
  - intros q1 v q2 Heq Hv. rewrite subs_alter. by apply (Hy q1 v q2).
Qed.

Abbreviation QueuedS subs s := (Queued subs (pc C s) (routines C s) (queue C s) (disposed C s) (now C s)).

Lemma putBy_put (q : Queue) (d : bool) i v : putBy (if d then q else q ++ [(Some i, v)]) i \/ d = true.
Proof. destruct d; [by right|]. left. exists v. apply elem_of_app. right. by apply list_elem_of_singleton. Qed.

Lemma fatal_data (s : State) (rs : Reason) : dataValue (now C s) (fatalValue C text rs s).
Proof. split; [done|]. cbn. lia. Qed.

Lemma queued_giveUp subs (s : State) i sub r0 e r : routines C s !! i = Some (mkRoutine C sub r0) -> (hasPut r0 = true -> hasPut r = true) -> valueOk (now C s) r ->
  QueuedS subs s -> QueuedS subs (giveUp C text i e r s).
Proof.
  intros Hi Hk Hv H. destruct e as [rs|]; unfold giveUp; [|done]. fields. eapply queued_setR; [done| |done|done|].
  - intros _. right. apply putBy_put.
  - apply queued_put; [apply fatal_data|done].
Qed.

Lemma reading_data sub always l b n l' v : reading C sub always l b n = Ok (l', Some v) -> dataValue n v.
Proof.
  intros H. assert (forall m, msiValue C sub n m = Ok v -> dataValue n v) as Hm.
  { intros m Hm. destruct (msiValue_data sub n m v Hm) as [Hs Ht]. split; [done|lia]. }
  destruct l as [t oc val|ts oc uo prev|ts iv uo all]; cbn in H.
  - case_match; simplify_eq. destruct (fieldValue_data sub n (readVal (hget C b t))) as [Hs Ht]. split; [done|lia].
  - destruct (readFields C) as [read|]; [|done]. destruct (read b oc uo ts prev) as [[m prev']|]; [|done]. case_match; [|done].
    destruct (msiValue C sub n m) as [v'|] eqn:Hv; [|done]. cbn in H. simplify_eq. by eapply Hm.
  - destruct (msiValue C sub n all) as [v'|] eqn:Hv; [|done]. cbn in H. simplify_eq. by eapply Hm.
Qed.

Lemma total_nonneg l : (0 <= total unsynced l)%Z.
Proof. unfold total. induction l as [|[sub r] l IH]; cbn in *; [done|]. destruct r; cbn; lia. Qed.

Lemma unsynced_zero (l : list Routine) i sub r : total unsynced l = 0%Z -> l !! i = Some (mkRoutine C sub r) -> hasPut r = true.
Proof.
  revert i. induction l as [|[sub' r'] l IH]; intros i Ht Hl; [done|].
  change (unsynced r' + total unsynced l = 0)%Z in Ht. pose proof (total_nonneg l) as Hnn.
  destruct i as [|i]; cbn in Hl; [|apply (IH i); [destruct r'; cbn in Ht; lia|done]]. simplify_eq. destruct r; cbn in Ht; try done; lia.
Qed.

Lemma queued_spawn subs rs q d n sub rest oc uo : Queued subs (Spawning (sub :: rest)) rs q d n -> Queued subs (Spawning rest) (rs ++ [mkRoutine C sub (Spawned C oc uo)]) q d n.
Proof.
  intros [Hput Hval Hi Hs Hn Htm Ha Hy].
  assert (forall i sub' r, (rs ++ [mkRoutine C sub (Spawned C oc uo)]) !! i = Some (mkRoutine C sub' r) -> rs !! i = Some (mkRoutine C sub' r) \/ r = Spawned C oc uo) as Hl.
  { intros i sub' r [?|[_ Hx]]%lookup_app_Some; [by left|]. apply list_lookup_singleton_Some in Hx as [_ [= <- <-]]. by right. }
  split; try done.
  - intros i sub' r [Hx| ->]%Hl Hr; [by eapply Hput|done].
  - intros i sub' r [Hx| ->]%Hl; [by eapply Hval|done].
  - by rewrite fmap_app, <- app_assoc.
  - intros q1 v q2 -> Hv. specialize (Hn (None, v)). cbn in Hn. rewrite Hn in Hv; [done|]. apply elem_of_app. right. by left.
Qed.

Lemma queued_timed subs rs q d n : Queued subs Timing rs q d n -> Queued subs (PutSync n) rs q d n.
Proof.
  intros [Hput Hval Hi Hs Hn Htm Ha Hy]. split; try done. intros t [= <-]. split; [done|]. destruct d; [by left|right].
  intros i Hlt. rewrite <- Hs, length_fmap in Hlt. apply lookup_lt_is_Some in Hlt as [[sub r] Hl].
  destruct (Hput i sub r Hl) as [[v Hv]|]; [by eapply Ha| |done]. exists v. split; [done|]. by destruct (Hi _ Hv).
Qed.

Lemma queued_syncPut subs t rs q d n : Queued subs (PutSync t) rs q d n -> Queued subs Blocked rs (if d then q else q ++ [(None, syncValue t)]) d n.
Proof.
  intros [Hput Hval Hi Hs Hn Htm Ha Hy]. destruct d; [by split|]. destruct (Htm t eq_refl) as [Hle [|Hall]]; [done|]. split; try done.
  - intros i sub r Hl Hr. destruct (Hput i sub r Hl Hr); [|done]. left. by apply putBy_app.
  - intros x [Hx| ->%list_elem_of_singleton]%elem_of_app; [by apply Hi|done].
  - intros q1 v q2 Heq Hv. destruct q2 as [|y q2 _] using rev_ind.
    + apply app_inj_tail in Heq as [-> [= <-]]. split_and!; [done|done|done|by intros x ?%elem_of_nil].
    + rewrite app_comm_cons, app_assoc in Heq. apply app_inj_tail in Heq as [-> _]. specialize (Hn (None, v)). cbn in Hn. rewrite Hn in Hv; [done|]. apply elem_of_app. right. by left.
Qed.

Lemma queued_run subs s s' : Counted s -> runStep C text updatesOnly s = Some s' -> QueuedS subs s -> QueuedS subs s'.
Proof.
  unfold runStep. intros Hc H Hq. destruct (pc C s) as [[|sub rest]| | |t| | |] eqn:Hp; simplify_eq.
  - destruct Hq as [Hput Hval Hi Hs Hn Htm Ha Hy]. split; fields; try done. by rewrite app_nil_r in Hs.
  - destruct (s_mode sub) eqn:Hm; simplify_eq.
    + destruct Hq as [Hput Hval Hi Hs Hn Htm Ha Hy]. assert (QueuedS subs (putFatal C text None UnsupportedMode s)) as [Hput' Hval' Hi' _ _ _ _ Hy'].
      { fields. apply queued_put; [apply fatal_data|]. rewrite Hp. by split. }
      by split.
    + by apply queued_spawn.
    + by apply queued_spawn.
  - destruct (Z.eqb_spec (synced C s) 0) as [H0|]; simplify_eq. destruct Hq as [Hput Hval Hi Hs Hn Htm Ha Hy]. split; fields; try done.
    intros _ i sub r Hl. rewrite (c_synced s Hc) in H0. by eapply unsynced_zero.
  - by apply queued_timed.
  - by apply queued_syncPut.
  - destruct (closed C s); simplify_eq. destruct Hq. by split.
  - destruct Hq. by split.
Qed.

(** A move of a goroutine that puts nothing. *)
Lemma queued_quiet subs s i sub r0 r : routines C s !! i = Some (mkRoutine C sub r0) -> hasPut r = hasPut r0 -> valueOk (now C s) r -> QueuedS subs s -> QueuedS subs (setR C i r s).
Proof. intros Hi Hr Hv H. fields. eapply queued_setR; [done| | |done|done]; rewrite Hr; auto. Qed.

(** A move that puts a value of the goroutine. *)
Lemma queued_puts subs s i sub r0 r v : routines C s !! i = Some (mkRoutine C sub r0) -> dataValue (now C s) v -> hasPut r = true -> valueOk (now C s) r ->
  QueuedS subs s -> QueuedS subs (setR C i r (put C (Some i) v s)).
Proof. intros Hi Hv Hr Hok H. fields. eapply queued_setR; [done| |done|done|by apply queued_put]. intros _. right. apply putBy_put. Qed.

Lemma enter_notPut sub f b r n : enter C sub f b = Ok r -> hasPut r = false /\ valueOk n r.
Proof.
  unfold enter. destruct (resolve C b sub) as [ts|]; [|done]. cbn. destruct f; [destruct ts as [|t ts]; [done|]; destruct (fieldConn C b t); [done|]|..]; by intros [= <-].
Qed.

Lemma reading_first sub l b n l' : reading C sub true l b n = Ok (l', None) -> False.
Proof.
  destruct l as [t oc val|ts oc uo prev|ts iv uo all]; cbn; [done| |by destruct (msiValue C sub n all)].
  destruct (readFields C) as [read|]; [|done]. destruct (read b oc uo ts prev) as [[m prev']|]; [|done]. by destruct (msiValue C sub n m).
Qed.

Lemma queued_routine subs ok i s s' : routineStep C text ok i s = Some s' -> QueuedS subs s -> QueuedS subs s'.
Proof.
  unfold routineStep. intros H Hq. destruct (routines C s !! i) as [[sub r]|] eqn:Hi; [|done]. pose proof (q_value _ _ _ _ _ _ Hq i sub r Hi) as Hval.
  destruct r as [oc uo|f|l|done_ [|t todo] iv uo msi|l v|[l|]|l|l v| |]; simplify_eq.
  - destruct (dispatch _ _ _ _ _) as [f|e]; [by eapply queued_quiet|by eapply queued_giveUp].
  - destruct (enter C sub f (db C s)) as [r|e] eqn:He; [apply (enter_notPut _ _ _ _ (now C s)) in He as []; by eapply queued_quiet|by eapply queued_giveUp].
  - destruct (reading _ _ _ _ _ _) as [[l' [v|]]|e] eqn:Hr; [|by apply reading_first in Hr|by eapply queued_giveUp].
    eapply queued_quiet; [done..| |done]. by eapply reading_data.
  - by eapply queued_quiet.
  - destruct (subscribeTable _ _ _ _ _) as [m|e]; [by eapply queued_quiet|by eapply queued_giveUp].
  - by eapply queued_puts.
  - apply (queued_quiet subs s i _ _ (Loop C l) Hi eq_refl I Hq).
  - apply (queued_quiet subs s i _ _ (Ending C) Hi eq_refl I Hq).
  - case_match; simplify_eq. by eapply queued_quiet.
  - eapply queued_puts; [done|done| | |done]; by destruct (disposed C s).
  - apply (queued_quiet subs s i _ _ (Ended C) Hi eq_refl I Hq).
Qed.

Lemma queued_listener subs j s s' : listenerStep C text j s = Some s' -> QueuedS subs s -> QueuedS subs s'.
Proof.
  unfold listenerStep. intros H Hq. destruct (listeners C s !! j) as [l|]; [|done]. destruct (l_st C l) as [|u| |]; try done.
  - case_match; by simplify_eq.
  - destruct (routines C s !! l_owner C l) as [[sub r]|] eqn:Hi; [|done]. destruct r as [| | | | | |[| |ts iv uo all]| | |]; try done. simplify_eq.
    assert (QueuedS subs (setL C j (withL C l (Hearing C)) s)) as Hq' by done. revert Hq'. set (s1 := setL C j (withL C l (Hearing C)) s). intros Hq'.
    assert (routines C s1 !! l_owner C l = Some (mkRoutine C sub (Loop C (LTable C ts iv uo all)))) as Hi' by done.
    case_match; [|by eapply queued_quiet]. destruct (msiValue _ _ _ _) as [v|e] eqn:Hv; [|by eapply queued_giveUp].
    eapply queued_quiet; [done..| |done]. destruct (msiValue_data _ _ _ _ Hv) as [Hs Ht]. split; [done|]. fields in Ht. fields. lia.
  - case_match; by simplify_eq.
Qed.

Lemma queued_outside subs s s' : outside s s' -> QueuedS subs s -> QueuedS subs s'.
Proof.
  destruct 1 as [i s' _ H|j ch pl s' _ H|j s' _ H|d c b n Hd Hcl Hn]; intros Hq.
  - unfold tick in H. destruct (routines C s !! i) as [[sub r]|] eqn:Hi; [|done]. destruct r as [| | | | | |l| | |]; try done.
    destruct (match l with LTable _ _ _ _ _ => _ | _ => _ end); [done|]. simplify_eq.
    destruct (reading _ _ _ _ _ _) as [[l' [v|]]|e] eqn:Hr; [eapply queued_quiet; [done..|by eapply reading_data|done]|by eapply queued_quiet|by eapply queued_giveUp].
  - unfold notified in H. destruct (listeners C s !! j) as [l|]; [|done]. destruct (l_st C l); try done. simplify_eq.
    destruct (hear _ _ _ _ _ _ _) as [[m u]|[rs|]]; [done| |done]. fields. apply queued_put; [apply fatal_data|done].
  - unfold disconnected in H. destruct (listeners C s !! j) as [l|]; [|done]. destruct (l_st C l); try done. by simplify_eq.
  - destruct Hq as [Hput Hval Hi Hs Hns Htm Ha Hy]. split; fields; try done.
    + intros i sub r Hl Hr. destruct (Hput i sub r Hl Hr); auto.
    + intros i sub r Hl. specialize (Hval i sub r Hl). destruct r; cbn in *; try done; destruct Hval; split; [done|lia|done|lia].
    + intros x Hx. destruct (Hi x Hx) as [Ht Hw]. split; [lia|done].
    + intros t Et. destruct (Htm t Et) as [Hle Hall]. split; [lia|]. destruct Hall; auto.
Qed.

Lemma queued_step subs s s' : step s s' -> Counted s -> QueuedS subs s -> QueuedS subs s'.
Proof.
  intros [[s'' _ H|ok i s'' _ H|j s'' _ H]|H] Hc; [by apply queued_run|by eapply queued_routine|by eapply queued_listener|by apply queued_outside].
Qed.

Lemma queued_reachable subs paths b n s : reachable subs paths b n s -> QueuedS (subscriptions subs paths) s.
Proof.
  intros H. assert (Counted s /\ QueuedS (subscriptions subs paths) s) as []; [|done]. revert s H.
  apply (rtc_ind_r (fun s => Counted s /\ QueuedS (subscriptions subs paths) s)).
  - split; [done|]. split; try done; [by intros x ?%elem_of_nil..|]. intros q1 v q2 H. by destruct q1.
  - intros y z _ Hs [Hc Hq]. split; [by eapply counted_step|by eapply queued_step].
Qed.

(** C23. The sync response of a stream is put at most once, and not before every subscription
    of the request has put a first value or a fatal message that is not younger than it, as
    long as the clock does not go back.  (Other values may be put and be younger: the clock
    is read before the response is put.) *)
Theorem sync_after_values subs paths b n s q1 who v q2 :
  reachable subs paths b n s -> queue C s = q1 ++ (who, v) :: q2 -> v_sync v = true ->
  (forall i, i < length (subscriptions subs paths) -> putBefore (GetTimestamp v) q1 i) /\ noSync q1 /\ noSync q2.
Proof using StreamLaws0.
  intros H Heq Hv. destruct (queued_reachable _ _ _ _ _ H) as [_ _ Hi _ _ _ _ Hy].
  destruct (Hi (who, v)) as [_ Hw]; [rewrite Heq; apply elem_of_app; right; by left|]. cbn in Hw. rewrite (Hw Hv) in Heq.
  destruct (Hy q1 v q2 Heq Hv) as (_ & Hp & H1 & H2). by split_and!.
Qed.

(** The wait groups count what they should: [w] the goroutines that run, [synced] those that
    have not put anything; so they are never negative. *)
Theorem wait_groups_exact subs paths b n s : reachable subs paths b n s ->
  w C s = (running (pc C s) + total alive (routines C s))%Z /\ synced C s = total unsynced (routines C s) /\ (0 <= w C s)%Z /\ (0 <= synced C s)%Z.
Proof.
  intros [Hw Hs]%counted_reachable. split_and!; [done..| |rewrite Hs; apply total_nonneg].
  rewrite Hw. assert (0 <= total alive (routines C s))%Z; [|by destruct (pc C s); cbn; lia].
  unfold total. clear. induction (routines C s) as [|[sub r] l IH]; cbn in *; [done|]. destruct r; cbn; lia.
Qed.

(** * The end of a stream *)

Definition tables (b : DB C) (sub : Subscription) : nat := match resolve C b sub with Ok ts => length ts | Err _ => 0 end.
Definition localTables (l : Local C) : nat := match l with LTable _ ts _ _ _ => length ts | _ => 0 end.

(** How many steps are left for a goroutine, a listener and [StreamRun] when nothing comes from
    outside. *)
Definition routineLeft (b : DB C) (x : Routine) : nat :=
  match r_st C x with
  | Spawned _ _ _ => 9 + 2 * tables b (r_sub C x)
  | Called _ _ => 8 + 2 * tables b (r_sub C x)
  | Setup _ done_ todo _ _ _ => 7 + length done_ + 2 * length todo
  | Ready _ l => 6 + localTables l
  | First _ l _ => 5 + localTables l
  | Signal _ (Some l) => 4 + localTables l
  | Again _ _ _ => 3
  | Signal _ None | Loop _ _ => 2
  | Ending _ => 1
  | Ended _ => 0
  end.
Definition listenerLeft (l : Listener C) : nat := match l_st C l with Passing _ _ => 4 | Broken _ => 2 | Hearing _ => 1 | Gone _ => 0 end.
Definition runLeft (b : DB C) (p : RunPC) : nat :=
  match p with
  | Spawning rest => 6 + sum_list_with (fun sub => 10 + 2 * tables b sub) rest
  | Waiting => 5 | Timing => 4 | PutSync _ => 3 | Blocked => 2 | Exiting => 1 | Returned => 0
  end.
Definition stepsLeft s : nat :=
  (if crashed C s then 0 else 1) + runLeft (db C s) (pc C s) + sum_list_with (routineLeft (db C s)) (routines C s) + sum_list_with listenerLeft (listeners C s).

Lemma sum_alter b r (l : list Routine) i sub r0 : l !! i = Some (mkRoutine C sub r0) ->
  sum_list_with (routineLeft b) (alter (fun x => mkRoutine C (r_sub C x) r) i l) + routineLeft b (mkRoutine C sub r0) =
  sum_list_with (routineLeft b) l + routineLeft b (mkRoutine C sub r).
Proof.
  revert i. induction l as [|x l IH]; intros [|i] H; [done|done| |]; cbn in H; simplify_eq.
  - change (routineLeft b (mkRoutine C sub r) + sum_list_with (routineLeft b) l + routineLeft b (mkRoutine C sub r0) =
      routineLeft b (mkRoutine C sub r0) + sum_list_with (routineLeft b) l + routineLeft b (mkRoutine C sub r)). lia.
  - specialize (IH i H). change (routineLeft b x + sum_list_with (routineLeft b) (alter (fun x => mkRoutine C (r_sub C x) r) i l) + routineLeft b (mkRoutine C sub r0) =
      routineLeft b x + sum_list_with (routineLeft b) l + routineLeft b (mkRoutine C sub r)). lia.
Qed.

Lemma sum_insertL (l : list (Listener C)) j x y : l !! j = Some x ->
  sum_list_with listenerLeft (<[j := y]> l) + listenerLeft x = sum_list_with listenerLeft l + listenerLeft y.
Proof.
  revert j. induction l as [|z l IH]; intros [|j] H; [done|done| |]; cbn in H; simplify_eq.
  - cbn. lia.
  - specialize (IH j H). change (listenerLeft z + sum_list_with listenerLeft (<[j := y]> l) + listenerLeft x = listenerLeft z + sum_list_with listenerLeft l + listenerLeft y). lia.
Qed.

Lemma sum_app_with {A} (f : A -> nat) l k : sum_list_with f (l ++ k) = sum_list_with f l + sum_list_with f k.
Proof. induction l as [|x l IH]; cbn; lia. Qed.

Lemma less_setR s i sub r0 r : routines C s !! i = Some (mkRoutine C sub r0) ->
  routineLeft (db C s) (mkRoutine C sub r) < routineLeft (db C s) (mkRoutine C sub r0) -> stepsLeft (setR C i r s) < stepsLeft s.
Proof. intros Hi Hlt. pose proof (sum_alter (db C s) r _ i sub r0 Hi). unfold stepsLeft. fields. lia. Qed.

Lemma less_giveUp s i sub r0 e r : crashed C s = false -> routines C s !! i = Some (mkRoutine C sub r0) ->
  routineLeft (db C s) (mkRoutine C sub r) < routineLeft (db C s) (mkRoutine C sub r0) -> stepsLeft (giveUp C text i e r s) < stepsLeft s.
Proof.
  intros Hc Hi Hlt. destruct e as [rs|]; unfold giveUp; [by apply (less_setR (putFatal C text (Some i) rs s) i sub r0)|].
  unfold stepsLeft. fields. rewrite Hc. lia.
Qed.

Lemma less_run s s' : runStep C text updatesOnly s = Some s' -> stepsLeft s' < stepsLeft s.
Proof.
  unfold runStep. intros H. unfold stepsLeft. destruct (pc C s) as [[|sub rest]| | |t| | |] eqn:Hp; simplify_eq.
  - fields. cbn [runLeft sum_list_with]. lia.
  - destruct (s_mode sub); simplify_eq; fields; rewrite ?sum_app_with; cbn [runLeft sum_list_with routineLeft r_st r_sub]; lia.
  - case_match; simplify_eq; fields; cbn [runLeft]; lia.
  - fields. cbn [runLeft]. lia.
  - fields. cbn [runLeft]. lia.
  - case_match; simplify_eq; fields; cbn [runLeft]; lia.
  - fields. cbn [runLeft]. lia.
Qed.

Lemma enter_less sub f b r : enter C sub f b = Ok r -> routineLeft b (mkRoutine C sub r) < routineLeft b (mkRoutine C sub (Called C f)).
Proof.
  unfold enter, routineLeft. cbn [r_st r_sub]. unfold tables. destruct (resolve C b sub) as [ts|]; [|done]. cbn [mbind].
  destruct f; [destruct ts as [|t ts]; [done|]; destruct (fieldConn C b t); [done|]|..]; intros [= <-]; cbn; lia.
Qed.

Lemma reading_tables sub always l b n l' ov : reading C sub always l b n = Ok (l', ov) -> localTables l' = localTables l.
Proof.
  destruct l as [t oc val|ts oc uo prev|ts iv uo all]; cbn.
  - case_match; by intros [= <- <-].
  - destruct (readFields C) as [read|]; [|done]. destruct (read b oc uo ts prev) as [[m prev']|]; [|done].
    case_match; [destruct (msiValue C sub n m); [|done]; cbn|]; by intros [= <- <-].
  - destruct (msiValue C sub n all); [|done]. cbn. by intros [= <- <-].
Qed.

Lemma listeners_new i (ts : list tablePath) : sum_list_with listenerLeft (map (newListener C i) ts) = length ts.
Proof. induction ts as [|t ts IH]; cbn; [done|]. by rewrite IH. Qed.

Lemma less_routine ok i s s' : crashed C s = false -> routineStep C text ok i s = Some s' -> stepsLeft s' < stepsLeft s.
Proof.
  unfold routineStep. intros Hc H. destruct (routines C s !! i) as [[sub r]|] eqn:Hi; [|done].
  destruct r as [oc uo|f|l|done_ [|t todo] iv uo msi|l v|[l|]|l|l v| |]; simplify_eq.
  - destruct (dispatch _ _ _ _ _) as [f|e]; [eapply less_setR|eapply less_giveUp]; [done|cbn; lia|done|done|cbn; lia].
  - destruct (enter C sub f (db C s)) as [r|e] eqn:He; [eapply less_setR; [done|by apply enter_less]|eapply less_giveUp; [done|done|cbn; lia]].
  - destruct (reading _ _ _ _ _ _) as [[l' [v|]]|e] eqn:Hr; [| |eapply less_giveUp; [done|done|cbn; lia]];
      (eapply less_setR; [done|]; apply reading_tables in Hr; cbn; lia).
  - eapply less_setR; [done|]. cbn. lia.
  - destruct (subscribeTable _ _ _ _ _) as [m|e]; [eapply less_setR; [done|]|eapply less_giveUp; [done|done|]]; cbn; rewrite ?length_app; cbn; lia.
  - apply (less_setR (put C (Some i) v s) i sub _ _ Hi). cbn. destruct (disposed C s); cbn; lia.
  - pose proof (sum_alter (db C s) (Loop C l) _ i sub _ Hi) as Hs. unfold stepsLeft. fields. rewrite sum_app_with. cbn in Hs.
    destruct l; cbn [sum_list_with localTables] in *; rewrite ?listeners_new; lia.
  - apply (less_setR (addSynced C (-1) s) i sub _ _ Hi). cbn. lia.
  - case_match; simplify_eq. eapply less_setR; [done|]. cbn. lia.
  - apply (less_setR (put C (Some i) v s) i sub _ _ Hi). cbn. destruct (disposed C s); cbn; lia.
  - apply (less_setR (addW C (-1) s) i sub _ _ Hi). cbn. lia.
Qed.

Lemma less_setL s j l st n m : listeners C s !! j = Some l -> listenerLeft l = n -> listenerLeft (withL C l st) = m ->
  stepsLeft (setL C j (withL C l st) s) + n = stepsLeft s + m.
Proof. intros Hj <- <-. pose proof (sum_insertL _ j l (withL C l st) Hj). unfold stepsLeft. fields. lia. Qed.

Lemma less_listener j s s' : crashed C s = false -> listenerStep C text j s = Some s' -> stepsLeft s' < stepsLeft s.
Proof.
  unfold listenerStep. intros Hc H. destruct (listeners C s !! j) as [l|] eqn:Hj; [|done]. destruct (l_st C l) as [|u| |] eqn:Hl; try done.
  - case_match; simplify_eq. pose proof (less_setL s j l (Gone C) 1 0 Hj ltac:(by unfold listenerLeft; rewrite Hl) eq_refl). lia.
  - destruct (routines C s !! l_owner C l) as [[sub r]|] eqn:Hi; [|done]. destruct r as [| | | | | |[| |ts iv uo all]| | |]; try done. simplify_eq.
    pose proof (less_setL s j l (Hearing C) 4 1 Hj ltac:(by unfold listenerLeft; rewrite Hl) eq_refl) as Hless.
    revert Hless. set (s1 := setL C j (withL C l (Hearing C)) s). intros Hless.
    assert (forall r, routineLeft (db C s1) (mkRoutine C sub r) <= 3 -> stepsLeft (setR C (l_owner C l) r s1) < stepsLeft s) as Hset.
    { intros r Hr. pose proof (sum_alter (db C s1) r (routines C s1) (l_owner C l) sub _ Hi) as Hs. unfold stepsLeft in Hless |- *. fields. cbn [routineLeft r_st] in Hs. lia. }
    case_match; [|apply Hset; cbn; lia]. destruct (msiValue _ _ _ _) as [v|e]; [apply Hset; cbn; lia|].
    destruct e as [rs|]; unfold giveUp; [apply (Hset (Ending C)); cbn; lia|]. unfold stepsLeft in *. fields. fields in Hless. rewrite Hc in *. lia.
  - case_match; simplify_eq. pose proof (less_setL s j l (Hearing C) 2 1 Hj ltac:(by unfold listenerLeft; rewrite Hl) eq_refl). lia.
Qed.

Lemma own_less s s' : own s s' -> stepsLeft s' < stepsLeft s.
Proof. destruct 1; [by apply less_run|by eapply less_routine|by eapply less_listener]. Qed.

Lemma run_closed s s' : runStep C text updatesOnly s = Some s' -> closed C s' = closed C s.
Proof. unfold runStep. destruct (pc C s) as [[|sub rest]| | |t| | |]; intros; repeat case_match; by simplify_eq. Qed.

Lemma giveUp_closed i e r s : closed C (giveUp C text i e r s) = closed C s.
Proof. by destruct e. Qed.

Lemma own_closed s s' : own s s' -> closed C s' = closed C s.
Proof.
  destruct 1 as [s' _ H|ok i s' _ H|j s' _ H]; [by apply run_closed| |].
  - unfold routineStep in H. destruct (routines C s !! i) as [[sub r]|]; [|done].
    destruct r; repeat case_match; simplify_eq; by rewrite ?giveUp_closed.
  - unfold listenerStep in H. destruct (listeners C s !! j) as [l|]; [|done]. repeat case_match; simplify_eq; by rewrite ?giveUp_closed.
Qed.

Definition allEnded (l : list Routine) : Prop := forall i x, l !! i = Some x -> r_st C x = Ended C.

Lemma ended_total f l : f (Ended C) = 0%Z -> allEnded l -> total f l = 0%Z.
Proof.
  intros Hf. unfold total. induction l as [|x l IH]; intros H; [done|]. cbn. rewrite (H 0 x eq_refl), Hf, IH; [done|]. intros i y Hy. by apply (H (S i)).
Qed.

(** Without anything from outside, a stream whose channel is closed has stopped only when
    everything has ended. *)
Lemma closed_stuck s : Counted s -> closed C s = true -> crashed C s = false -> (forall s', ~ own s s') ->
  pc C s = Returned /\ allEnded (routines C s) /\ w C s = 0%Z.
Proof.
  intros [Hw Hs] Hcl Hcr Hno.
  assert (allEnded (routines C s)) as Hall.
  { intros i [sub r] Hi. destruct (routineStep C text true i s) as [s'|] eqn:Hst; [by destruct (Hno s'); eapply OwnRoutine|].
    unfold routineStep in Hst. rewrite Hi in Hst. by destruct r as [| | |d [|]| |[]| | | |]; cbn in *; rewrite ?Hcl in Hst. }
  assert (pc C s = Returned) as Hp.
  { destruct (runStep C text updatesOnly s) as [s'|] eqn:Hst; [by destruct (Hno s'); apply OwnRun|].
    unfold runStep in Hst. rewrite Hcl, Hs, (ended_total unsynced _ eq_refl Hall) in Hst. destruct (pc C s) as [[|sub rest]| | |t| | |]; try done. by destruct (s_mode sub). }
  split_and!; [done..|]. by rewrite Hw, Hp, (ended_total alive _ eq_refl Hall).
Qed.

(** C22. After the channel was closed a stream ends by itself: whatever its goroutines do, they
    take at most [stepsLeft] steps between events from outside, and they cannot stop before
    [StreamRun] and every goroutine of a subscription have called [Done], so that nobody who
    waits for them waits for ever; unless one of them panicked, which ends the process. *)
Theorem closed_stream_ends subs paths b n s k s' :
  reachable subs paths b n s -> closed C s = true -> nsteps own k s s' ->
  k + stepsLeft s' <= stepsLeft s /\
  ((forall s'', ~ own s' s'') -> crashed C s' = true \/ pc C s' = Returned /\ allEnded (routines C s') /\ w C s' = 0%Z).
Proof.
  intros Hr Hcl Hk. assert (k + stepsLeft s' <= stepsLeft s /\ closed C s' = true /\ Counted s') as (Hle & Hcl' & Hc).
  { apply counted_reachable in Hr. clear b n. induction Hk as [s|k s s1 s' H1 Hk IH]; [by split_and!|].
    destruct IH as (Hle & Hcl' & Hc'); [apply (counted_step s); [by left|done]|by rewrite (own_closed s s1)|]. pose proof (own_less s s1 H1). split_and!; [lia|done..]. }
  split; [done|]. intros Hno. destruct (crashed C s') eqn:Hcr; [by left|right]. by apply closed_stuck.
Qed.

(** * Schedules *)

Inductive Action := ARun | ARoutine (ok : bool) (i : nat) | AListener (j : nat) | ATick (i : nat) | ANotify (j : nat) (channel payload : string) | AChange (d c : bool) (b : DB C).

Definition act (a : Action) s : option State :=
  if crashed C s then None
  else match a with
  | ARun => runStep C text updatesOnly s
  | ARoutine ok i => routineStep C text ok i s
  | AListener j => listenerStep C text j s
  | ATick i => tick C text i s
  | ANotify j channel payload => notified C text j channel payload s
  | AChange d c b => Some (environment C (disposed C s || d) (closed C s || c) b (now C s) s)
  end.

Fixpoint play (l : list Action) s : option State := match l with [] => Some s | a :: l => match act a s with Some s => play l s | None => None end end.

Lemma play_steps l s s' : play l s = Some s' -> rtc step s s'.
Proof.
  revert s. induction l as [|a l IH]; intros s H; cbn in H; [by simplify_eq|]. destruct (act a s) as [s1|] eqn:Ha; [|done]. eapply rtc_l; [|by apply IH].
  unfold act in Ha. destruct (crashed C s) eqn:Hc; [done|]. destruct a.
  - left. by apply OwnRun.
  - left. by eapply OwnRoutine.
  - left. by eapply OwnListener.
  - right. by eapply Tick.
  - right. by eapply Notified.
  - simplify_eq. right. apply Changes; [by intros ->|by intros ->|done].
Qed.

Lemma ended_setR s i i' r sub sub' r' : routines C s !! i = Some (mkRoutine C sub (Ended C)) -> routines C s !! i' = Some (mkRoutine C sub' r') -> r' <> Ended C ->
  routines C (setR C i' r s) !! i = Some (mkRoutine C sub (Ended C)).
Proof. intros Hi Hi' Hne. fields. rewrite list_lookup_alter_ne; [done|]. intros ->. congruence. Qed.

Lemma ended_giveUp s i i' e r sub sub' r' : routines C s !! i = Some (mkRoutine C sub (Ended C)) -> routines C s !! i' = Some (mkRoutine C sub' r') -> r' <> Ended C ->
  routines C (giveUp C text i' e r s) !! i = Some (mkRoutine C sub (Ended C)).
Proof. intros Hi Hi' Hne. destruct e as [rs|]; [|done]. unfold giveUp. by eapply ended_setR. Qed.

Lemma giveUp_listeners i e r s : listeners C (giveUp C text i e r s) = listeners C s.
Proof. by destruct e. Qed.

Lemma stays_own i j sub l u s s' : own s s' -> listeners C s !! j = Some l -> l_owner C l = i -> l_st C l = Passing C u -> routines C s !! i = Some (mkRoutine C sub (Ended C)) ->
  listeners C s' !! j = Some l /\ routines C s' !! i = Some (mkRoutine C sub (Ended C)).
Proof.
  intros H Hj Ho Hst Hi. destruct H as [s' _ H|ok i' s' _ H|j' s' _ H].
  - unfold runStep in H. destruct (pc C s) as [[|sub' rest]| | |t| | |]; repeat case_match; simplify_eq; fields; (split; [done|]); try done; by apply lookup_app_l_Some.
  - unfold routineStep in H. destruct (routines C s !! i') as [[sub' r]|] eqn:Hi'; [|done].
    destruct r; repeat case_match; simplify_eq; rewrite ?giveUp_listeners; (split; [try done|]);
      first [by eapply ended_giveUp|apply (ended_setR s _ _ _ _ _ _ Hi Hi'); done|idtac]; fields; by apply lookup_app_l_Some.
  - unfold listenerStep in H. destruct (decide (j' = j)) as [->|Hne].
    { rewrite Hj, Hst, Ho, Hi in H. done. }
    destruct (listeners C s !! j') as [l'|] eqn:Hj'; [|done].
    assert (forall st, listeners C (setL C j' (withL C l' st) s) !! j = Some l) as Hset by (intros st; fields; by rewrite list_lookup_insert_ne).
    destruct (l_st C l') as [|u'| |]; [case_match; simplify_eq; split; [apply Hset|done]| |case_match; simplify_eq; split; [apply Hset|done]|done].
    destruct (routines C s !! l_owner C l') as [[sub' r]|] eqn:Hi'; [|done]. destruct r as [| | | | | |[]| | |]; try done. simplify_eq.
    repeat case_match; (split; [rewrite ?giveUp_listeners; apply Hset|]); [by eapply (ended_setR (setL C j' _ s))|by eapply (ended_giveUp (setL C j' _ s))|by eapply (ended_setR (setL C j' _ s))].
Qed.

Lemma stays_step i j sub l u s s' : step s s' -> listeners C s !! j = Some l -> l_owner C l = i -> l_st C l = Passing C u -> routines C s !! i = Some (mkRoutine C sub (Ended C)) ->
  listeners C s' !! j = Some l /\ routines C s' !! i = Some (mkRoutine C sub (Ended C)).
Proof.
  intros [H|H] Hj Ho Hst Hi; [by eapply stays_own|]. destruct H as [i' s' _ H|j' ch pl s' _ H|j' s' _ H|]; [| | |done].
  - unfold tick in H. destruct (routines C s !! i') as [[sub' r]|] eqn:Hi'; [|done]. destruct r; try done. repeat case_match; simplify_eq; rewrite ?giveUp_listeners; (split; [done|]);
      first [by eapply ended_giveUp|by eapply ended_setR].
  - unfold notified in H. destruct (decide (j' = j)) as [->|Hne]; [by rewrite Hj, Hst in H|].
    destruct (listeners C s !! j') as [l'|] eqn:Hj'; [|done]. destruct (l_st C l'); try done. repeat case_match; simplify_eq; fields; rewrite ?list_lookup_insert_ne by done; done.
  - unfold disconnected in H. destruct (decide (j' = j)) as [->|Hne]; [by rewrite Hj, Hst in H|].
    destruct (listeners C s !! j') as [l'|] eqn:Hj'; [|done]. destruct (l_st C l'); try done. simplify_eq; fields; by rewrite list_lookup_insert_ne.
Qed.

(** A listener that passes on an update when its reader has ended waits for ever. *)
Lemma passing_stays i j sub l u s s' : rtc step s s' -> listeners C s !! j = Some l -> l_owner C l = i -> l_st C l = Passing C u -> routines C s !! i = Some (mkRoutine C sub (Ended C)) ->
  listeners C s' !! j = Some l.
Proof.
  intros H Hj Ho Hst Hi. assert (listeners C s' !! j = Some l /\ routines C s' !! i = Some (mkRoutine C sub (Ended C))) as []; [|done].
  revert s' H. apply (rtc_ind_r (fun s' => listeners C s' !! j = Some l /\ routines C s' !! i = Some (mkRoutine C sub (Ended C)))); [done|].
  intros y z _ Hs [Hj' Hi']. by apply (stays_step i j sub l u y).
Qed.

End Protocol.

(** * Instances *)

Definition demo_redis : Redis :=
  mkRedis (Some tt) (fun _ => Some ["PORT|Ethernet0"]) (fun _ => Some true) (fun _ _ => Some true) (fun _ _ => Err RedisNil) (fun _ => Some {["mtu" := "9100"]}).
Definition demo_db : gmap string (gmap string Redis) := {["" := {["CONFIG_DB" := demo_redis]}]}.
Definition demo_table : tablePath := buildTablePath "" "CONFIG_DB" "PORT" "" "|" "" "" "" "".
Definition demo_client : StreamClient := dbStream (fun _ => Some "{}") None {[0 := [demo_table]]}.
Definition demo_subs : list Subscription := [mkSub 0 (mkPath "" "" [mkElem "PORT" ∅]) ON_CHANGE 0].
Definition demo_text (r : Reason) : string := "fatal".
Abbreviation demo_start := (StreamRun demo_client demo_subs [] demo_db 5).
Abbreviation demo_play := (play demo_client demo_text false).

Definition played {A} (o : option A) : bool := match o with Some _ => true | None => false end.
(** Closed equations of runs. *)
Ltac vm_decides := match goal with |- ?a = ?b => vm_cast_no_check (@eq_refl _ b) end.

(** The subscription puts its first value, then the sync response is put. *)
Definition demo_sync : list (Action demo_client) := [ARun _] ++ replicate 7 (ARoutine _ true 0) ++ [ARun _; ARun _; ARun _; ARun _].
(** A notification arrives, and the channel is closed before the update is taken. *)
Definition demo_stop : list (Action demo_client) :=
  demo_sync ++ [ANotify _ 0 "__keyspace@4__:PORT|Ethernet0" "hset"; AChange demo_client true true demo_db; ARoutine _ true 0; ARoutine _ true 0; ARun _; ARun _].

Lemma sync_after_values_witness : exists s q1 v, demo_play demo_sync demo_start = Some s /\ queue demo_client s = q1 ++ [(None, v)] /\ v_sync v = true /\ putBefore (GetTimestamp v) q1 0.
Proof.
  destruct (demo_play demo_sync demo_start) as [s|] eqn:Hs; [|by assert (played (demo_play demo_sync demo_start) = true) as Hp by vm_decides; rewrite Hs in Hp].
  assert (queue demo_client <$> demo_play demo_sync demo_start =
    Some ([(Some 0, updateValue None (mkPath "" "" [mkElem "PORT" ∅]) 5 (JsonIetfVal "{}"))] ++ [(None, syncValue 5)])) as Hq by vm_decides.
  rewrite Hs in Hq. cbn [fmap option_fmap option_map] in Hq. injection Hq as Hq.
  exists s, [(Some 0, updateValue None (mkPath "" "" [mkElem "PORT" ∅]) 5 (JsonIetfVal "{}"))], (syncValue 5). split; [done|]. split; [exact Hq|]. split; [done|].
  apply (sync_after_values demo_client demo_text false demo_subs [] demo_db 5 s _ None (syncValue 5) []); [|exact Hq|done|cbn; lia].
  by apply (play_steps _ _ _ demo_sync).
Defined.

Lemma closed_stream_ends_witness : exists s, demo_play demo_stop demo_start = Some s /\ (0 + stepsLeft demo_client s <= stepsLeft demo_client s /\ w demo_client s = 0%Z).
Proof.
  destruct (demo_play demo_stop demo_start) as [s|] eqn:Hs; [|by assert (played (demo_play demo_stop demo_start) = true) as Hp by vm_decides; rewrite Hs in Hp].
  assert (closed demo_client <$> demo_play demo_stop demo_start = Some true) as Hc by vm_decides. rewrite Hs in Hc. cbn in Hc. injection Hc as Hc.
  assert (w demo_client <$> demo_play demo_stop demo_start = Some 0%Z) as Hw by vm_decides. rewrite Hs in Hw. cbn in Hw. injection Hw as Hw.
  exists s. split; [done|]. split; [|exact Hw].
  apply (closed_stream_ends demo_client demo_text false demo_subs [] demo_db 5 s 0 s); [|exact Hc|constructor]. by apply (play_steps _ _ _ demo_stop).
Defined.

Definition demo_update : jobj := {["Ethernet0" := JObj {["mtu" := JStr "9100"]}]}.
Definition demo_listener : Listener demo_client := mkListener demo_client 0 demo_table 20 demo_update (Passing demo_client demo_update).

(** A listener that has read a change when the stream is closed is never taken: the stream has
    ended, the wait group is at zero, and its goroutine stays for good. *)
Theorem listener_left_behind : exists s l u,
  reachable demo_client demo_text false demo_subs [] demo_db 5 s /\ w demo_client s = 0%Z /\ closed demo_client s = true /\ l_st demo_client l = Passing demo_client u /\
  forall s', rtc (step demo_client demo_text false) s s' -> listeners demo_client s' !! 0 = Some l.
Proof.
  destruct (demo_play demo_stop demo_start) as [s|] eqn:Hs; [|by assert (played (demo_play demo_stop demo_start) = true) as Hp by vm_decides; rewrite Hs in Hp].
  assert (Hf : (fun s => (closed demo_client s, w demo_client s, listeners demo_client s !! 0, routines demo_client s !! 0)) <$> demo_play demo_stop demo_start =
    Some (true, 0%Z, Some demo_listener,
      Some (mkRoutine demo_client (mkSub 0 (mkPath "" "" [mkElem "PORT" ∅]) ON_CHANGE 0) (Ended demo_client)))) by vm_decides.
  rewrite Hs in Hf. cbn [fmap option_fmap option_map] in Hf. injection Hf as Hc Hw Hl Hr. exists s, demo_listener, demo_update. split; [by apply (play_steps _ _ _ demo_stop)|]. split; [done|]. split; [done|]. split; [reflexivity|].
  intros s' H. eapply (passing_stays demo_client demo_text false 0 0); [exact H|exact Hl|reflexivity|reflexivity|exact Hr].
Qed.

(** An interval of a sample subscription that is too short ends the subscription with a fatal
    message, and the sync response is put nevertheless. *)
Theorem fatal_then_sync :
  queue demo_client <$> demo_play ([ARun _] ++ replicate 3 (ARoutine _ true 0) ++ [ARun _; ARun _; ARun _; ARun _])
    (StreamRun demo_client [mkSub 0 (mkPath "" "" []) SAMPLE 5] [] demo_db 5) =
  Some [(Some 0, mkValue None None 5 false "fatal" None [] None); (None, syncValue 5)].
Proof. vm_decides. Qed.
