(* ===== verification/SonicDbConfig.v ===== *)
(** The database configuration (src/sonic_db_config/db_config.go): initialisation of the
    library of SONiC, and the functions that ask it for namespaces, instances and databases.
    The library is a parameter; an exception of it is [None].

    The pure functions of [DbClient.DbConfig] and [MixedDb.Instances] take what the library
    reports as a record; the refinement theorem at the end connects the two. *)

From S2P Require Import Prelude GnmiTypes DbTypes DbClient MixedDb.
Open Scope go_scope.

Module SonicDbConfig.

Abbreviation dbkey := (string * string)%type.

(** A database is asked for by namespace or by key. *)
Inductive Selector := ByNs (ns : string) | ByKey (k : dbkey).

Record SonicDBConfig := mkLib {
  LS : Type;
  IsGlobalInit : LS -> bool;
  IsInit : LS -> bool;
  (** The state after a call, and whether it returned. *)
  InitializeGlobalConfig : LS -> LS * bool;
  Initialize : LS -> LS * bool;
  ResetConfig : LS -> LS * bool;
  GetNamespaces : LS -> option (list string);
  GetDbKeys : LS -> option (list dbkey);
  (** Without a key: the default one. *)
  GetDbListLib : LS -> option dbkey -> option (list string);
  GetSeparator : LS -> string -> Selector -> option string;
  GetDbIdLib : LS -> string -> Selector -> option Z;
  GetDbSockLib : LS -> string -> Selector -> option string;
  GetDbHostname : LS -> string -> Selector -> option string;
  GetDbPortLib : LS -> string -> Selector -> option Z
}.

Section Config.
Variable L : SonicDBConfig.

(** [sonic_db_init], whether the global file exists, and the library. *)
Record Cfg := mkCfg { sonic_db_init : bool; globalFile : bool; lib : LS L }.

Definition CM A := (Cfg -> option A * Cfg)%type.

#[global] Instance CM_ret : MRet CM := fun A a s => (Some a, s).
#[global] Instance CM_bind : MBind CM := fun A B f m s => match m s with (Some a, s) => f a s | (None, s) => (None, s) end.

(** [DbInit]; an exception leaves the flag as it is. *)
Definition DbInit : CM unit := fun s =>
  if sonic_db_init s then (Some tt, s)
  else
    let '(l, ok) :=
      if globalFile s then if IsGlobalInit L (lib s) then (lib s, true) else InitializeGlobalConfig L (lib s)
      else if IsInit L (lib s) then (lib s, true) else Initialize L (lib s) in
    if ok : bool then (Some tt, mkCfg true (globalFile s) l) else (None, mkCfg false (globalFile s) l).

Definition Init : CM unit := fun s =>
  let '(l, ok) := ResetConfig L (lib s) in (if ok : bool then Some tt else None, mkCfg false (globalFile s) l).

(** The library is initialised before it is asked. *)
Definition ask {A} (f : LS L -> option A) : CM A := fun s =>
  match DbInit s with (None, s) => (None, s) | (Some _, s) => (f (lib s), s) end.

Definition CheckDbMultiNamespace : CM bool := ask (fun l => (fun ns => 1 <? length ns) <$> GetNamespaces L l).

Definition GetDbNonDefaultNamespaces : CM (list string) :=
  ask (fun l => base.filter (fun ns => ns <> DbClient.SONIC_DEFAULT_NAMESPACE) <$> GetNamespaces L l).

Definition GetDbAllNamespaces : CM (list string) := ask (GetNamespaces L).

Definition GetDbNamespaceFromTarget (target : string) : CM (string * bool) :=
  if String.eqb target DbClient.SONIC_DEFAULT_NAMESPACE then mret (target, true)
  else ns_list ← GetDbNonDefaultNamespaces; mret (if bool_decide (target ∈ ns_list) then (target, true) else ("", false)).

(** The namespace is not handed on. *)
Definition GetDbList (ns : string) : CM (list string) := ask (fun l => GetDbListLib L l None).

Definition GetDbSeparator (db_name ns : string) : CM string := ask (fun l => GetSeparator L l db_name (ByNs ns)).
Definition GetDbId (db_name ns : string) : CM Z := ask (fun l => GetDbIdLib L l db_name (ByNs ns)).
Definition GetDbSock (db_name ns : string) : CM string := ask (fun l => GetDbSockLib L l db_name (ByNs ns)).
Definition GetDbHostName (db_name ns : string) : CM string := ask (fun l => GetDbHostname L l db_name (ByNs ns)).
Definition GetDbPort (db_name ns : string) : CM Z := ask (fun l => GetDbPortLib L l db_name (ByNs ns)).

Definition GetDbTcpAddr (db_name ns : string) : CM string :=
  _ ← DbInit; hostname ← GetDbHostName db_name ns; port ← GetDbPort db_name ns; mret (hostname +:+ ":" +:+ pretty port).

Definition CheckDbMultiInstance : CM bool := ask (fun l => (fun ks => 1 <? length ks) <$> GetDbKeys L l).

Definition GetDbNonDefaultInstances : CM (list dbkey) := ask (fun l => base.filter (fun k => k <> ("", "")) <$> GetDbKeys L l).

Definition GetDbAllInstances : CM (list dbkey) := ask (GetDbKeys L).

Definition GetDbListByDBKey (k : dbkey) : CM (list string) := ask (fun l => GetDbListLib L l (Some k)).

Definition GetDbInstanceFromTarget (ns container : string) : CM bool := fun s =>
  let '(r, s) := GetDbListByDBKey (ns, container) s in (Some (match r with Some _ => true | None => false end), s).

Definition GetDbSeparatorByDBKey (db_name : string) (k : dbkey) : CM string := ask (fun l => GetSeparator L l db_name (ByKey k)).
Definition GetDbIdByDBKey (db_name : string) (k : dbkey) : CM Z := ask (fun l => GetDbIdLib L l db_name (ByKey k)).
Definition GetDbSockByDBKey (db_name : string) (k : dbkey) : CM string := ask (fun l => GetDbSockLib L l db_name (ByKey k)).
Definition GetDbHostNameByDBKey (db_name : string) (k : dbkey) : CM string := ask (fun l => GetDbHostname L l db_name (ByKey k)).
Definition GetDbPortByDBKey (db_name : string) (k : dbkey) : CM Z := ask (fun l => GetDbPortLib L l db_name (ByKey k)).

Definition GetDbTcpAddrByDBKey (db_name : string) (k : dbkey) : CM string :=
  _ ← DbInit; hostname ← GetDbHostNameByDBKey db_name k; port ← GetDbPortByDBKey db_name k; mret (hostname +:+ ":" +:+ pretty port).

End Config.

(** * Theorems *)

Section Refinement.
Variable L : SonicDBConfig.
Implicit Types s : Cfg L.

(** What the library says to the others: nothing when it cannot be initialised. *)
Definition said s : option (LS L) := match DbInit L s with (Some _, s) => Some (lib L s) | (None, _) => None end.
Definition configOf s : DbClient.DbConfig :=
  DbClient.mkDbConfig (l ← said s; GetNamespaces L l) (fun db ns => l ← said s; GetSeparator L l db (ByNs ns)).
Definition instancesOf s : MixedDb.Instances :=
  MixedDb.mkInstances (fun k => l ← said s; GetDbListLib L l (Some k)) (l ← said s; GetDbKeys L l) (fun db k => l ← said s; GetSeparator L l db (ByKey k)).

Lemma ask_said {A} (f : LS L -> option A) s : (ask L f s).1 = (l ← said s; f l) /\ (ask L f s).2 = (DbInit L s).2.
Proof. unfold ask, said. by destruct (DbInit L s) as [[[]|] s']. Qed.

Lemma DbInit_again s : DbInit L (DbInit L s).2 = DbInit L s \/ (DbInit L s).1 = None.
Proof.
  unfold DbInit. destruct (sonic_db_init L s) eqn:Hi; [left; cbn; by rewrite Hi|].
  destruct (if globalFile L s then _ else _) as [l []]; [by left|by right].
Qed.

Lemma said_again s l : said s = Some l -> said (DbInit L s).2 = Some l.
Proof.
  unfold said. destruct (DbInit_again s) as [->|Hn]; [done|]. destruct (DbInit L s) as [[[]|] s']; [done..|]. done.
Qed.

(** The functions are those that the data clients are modelled with, on what the library says
    at the time of the call. *)
Theorem config_refines s :
  (forall target, (GetDbNamespaceFromTarget L target s).1 = DbClient.GetDbNamespaceFromTarget (configOf s) target) /\
  (CheckDbMultiNamespace L s).1 = DbClient.CheckDbMultiNamespace (configOf s) /\
  (GetDbNonDefaultNamespaces L s).1 = DbClient.GetDbNonDefaultNamespaces (configOf s) /\
  (GetDbAllNamespaces L s).1 = DbClient.GetDbAllNamespaces (configOf s) /\
  (forall db ns, is_Some (DbClient.Target_value !! db) -> (GetDbSeparator L db ns s).1 = DbClient.GetTableKeySeparator (configOf s) db ns) /\
  (forall ns container, (GetDbInstanceFromTarget L ns container s).1 = Some (MixedDb.GetDbInstanceFromTarget (instancesOf s) ns container)).
Proof.
  split_and!.
  - intros target. unfold GetDbNamespaceFromTarget, DbClient.GetDbNamespaceFromTarget. case_match; [done|].
    unfold mbind, CM_bind, GetDbNonDefaultNamespaces, DbClient.GetDbNonDefaultNamespaces. destruct (ask_said (fun l => base.filter (fun ns => ns <> DbClient.SONIC_DEFAULT_NAMESPACE) <$> GetNamespaces L l) s) as [H1 _].
    destruct (ask L _ s) as [r s']. cbn in H1. rewrite H1. cbn. destruct (said s) as [l|]; cbn; [|done]. destruct (GetNamespaces L l); cbn; [|done]. by case_bool_decide.
  - unfold CheckDbMultiNamespace, DbClient.CheckDbMultiNamespace. rewrite (proj1 (ask_said _ s)). cbn. by destruct (said s).
  - unfold GetDbNonDefaultNamespaces, DbClient.GetDbNonDefaultNamespaces. rewrite (proj1 (ask_said _ s)). cbn. by destruct (said s).
  - unfold GetDbAllNamespaces. by rewrite (proj1 (ask_said _ s)).
  - intros db ns [n Hn]. unfold GetDbSeparator, DbClient.GetTableKeySeparator. by rewrite (proj1 (ask_said _ s)), Hn.
  - intros ns container. unfold GetDbInstanceFromTarget, MixedDb.GetDbInstanceFromTarget, GetDbListByDBKey.
    pose proof (proj1 (ask_said (fun l => GetDbListLib L l (Some (ns, container))) s)) as H1. destruct (ask L _ s) as [r s']. cbn in H1. subst r. done.
Qed.

(** Once a function has got an answer, the library is not initialised again: all later ones ask
    the same configuration until [Init]. *)
Theorem config_stable {A B} (f : LS L -> option A) (g : LS L -> option B) s a s' :
  ask L f s = (Some a, s') -> ask L g s' = (g (lib L s'), s') /\ f (lib L s') = Some a /\ sonic_db_init L s' = true.
Proof.
  unfold ask. destruct (DbInit L s) as [[[]|] s1] eqn:Hd; [|done]. intros [= Hf <-].
  assert (sonic_db_init L s1 = true) as Hi.
  { unfold DbInit in Hd. destruct (sonic_db_init L s) eqn:Hs; [by simplify_eq|]. destruct (if globalFile L s then _ else _) as [l []]; [|done]. by injection Hd as <-. }
  split_and!; [|done..]. unfold DbInit. by rewrite Hi.
Qed.

(** An address is the host and the port of one configuration. *)
Theorem tcp_addr_exact db ns s : (GetDbTcpAddr L db ns s).1 =
  (l ← said s; h ← GetDbHostname L l db (ByNs ns); p ← GetDbPortLib L l db (ByNs ns); Some (h +:+ ":" +:+ pretty p)).
Proof.
  unfold GetDbTcpAddr. destruct (said s) as [l|] eqn:Hs; [|unfold said in Hs; unfold mbind, CM_bind; by destruct (DbInit L s) as [[[]|] s1]].
  pose proof (said_again s l Hs) as Hs1. unfold mbind at 1, CM_bind at 1. unfold said in Hs. destruct (DbInit L s) as [[[]|] s1] eqn:Hd; [|done].
  cbn in Hs1. unfold mbind at 1, CM_bind at 1, GetDbHostName. destruct (ask_said (fun l => GetDbHostname L l db (ByNs ns)) s1) as [H1 H2].
  destruct (ask L _ s1) as [r s2]. cbn in H1, H2. rewrite Hs1 in H1. cbn in H1. subst r s2. cbn. destruct (GetDbHostname L l db (ByNs ns)) as [h|]; [|done]. cbn.
  unfold mbind at 1, CM_bind at 1, GetDbPort. destruct (ask_said (fun l => GetDbPortLib L l db (ByNs ns)) (DbInit L s1).2) as [H1 _].
  destruct (ask L _ _) as [r s3]. cbn in H1. rewrite (said_again s1 l Hs1) in H1. cbn in H1. subst r. by destruct (GetDbPortLib L l db (ByNs ns)).
Qed.

(** The databases of a namespace are those of the default one. *)
Theorem db_list_ignores_namespace ns ns' s : GetDbList L ns s = GetDbList L ns' s.
Proof. done. Qed.

End Refinement.
End SonicDbConfig.
