(* ===== verification/MixedRuntime.v ===== *)
(** What the native data clients share and how they poll and close
    (src/sonic_data_client/mixed_db_client.go): the map of Redis connections, the ZMQ clients
    of the DPUs, [PollRun] and [Close].

    A Redis client is the socket and the number it was made for; ZMQ clients are numbered as
    they are made. *)

From S2P Require Import Prelude GnmiTypes DbTypes JsonClient Server DbClient DbClientProofs MixedDb MixedSet.
Import JsonClient.
Open Scope go_scope.

Module MixedRuntime.

Abbreviation dbkey := (string * string)%type.

(** * The map of connections *)

(** [RedisDbMap] ([None]: nil) and [DbInstNum]. *)
Record Shared := mkShared { RedisDbMap : option (gmap string (string * Z)); DbInstNum : nat }.

Section Connections.
Variable inst : MixedDb.Instances.
(** [GetDbSockByDBKey] and [GetDbIdByDBKey]. *)
Variable sock : string -> dbkey -> option string.
Variable dbId : string -> dbkey -> option Z.

Definition mapKey (k : dbkey) (dbName : string) : string := k.1 +:+ ":" +:+ k.2 +:+ ":" +:+ dbName.

(** The databases of one instance, up to the first error. *)
Fixpoint connectDbs (k : dbkey) (names : list string) (m : gmap string (string * Z)) : gmap string (string * Z) * bool :=
  match names with
  | [] => (m, true)
  | dbName :: names =>
      match sock dbName k, dbId dbName k with
      | Some addr, Some dbn => connectDbs k names (<[mapKey k dbName := (addr, dbn)]> m)
      | _, _ => (m, false)
      end
  end.

Fixpoint connectAll (ks : list dbkey) (m : gmap string (string * Z)) : gmap string (string * Z) * bool :=
  match ks with
  | [] => (m, true)
  | k :: ks =>
      match MixedDb.dbList inst k with
      | None => (m, false)
      | Some names => let '(m, ok) := connectDbs k names m in if ok then connectAll ks m else (m, false)
      end
  end.

Definition initRedisDbMap (s : Shared) : Shared :=
  match MixedDb.allInstances inst with
  | None => s
  | Some dbkeys =>
      if length dbkeys =? DbInstNum s then s
      else mkShared (Some (connectAll dbkeys ∅).1) (length dbkeys)
  end.

End Connections.

(** * ZMQ clients *)

(** [zmqClientMap]; a client is its number, with the address and VRF it was made with. *)
Record Zmq := mkZmq { zmqClientMap : gmap string nat; made : list (string * string) }.

Section Zmq.
(** The fields of CONFIG_DB. *)
Variable entry : string -> string -> gmap string string.

Definition Hget (table key field : string) : option string := entry table key !! field.

Definition getDpuAddress (dpuId : string) : option string :=
  bridgePlane ← Hget "MID_PLANE_BRIDGE" "GLOBAL" "bridge";
  dpuInterface ← Hget "DPUS" dpuId "midplane_interface";
  dpuAddresses ← Hget "DHCP_SERVER_IPV4_PORT" (bridgePlane +:+ "|" +:+ dpuInterface) "ips@";
  head (str_split dpuAddresses ",").

Definition getZmqAddress (container zmqPort : string) : option string :=
  if String.eqb zmqPort "" then None
  else dpuAddress ← getDpuAddress container; Some ("tcp://" +:+ dpuAddress +:+ ":" +:+ zmqPort).

Definition getZmqClientByAddress (zmqAddress vrf : string) (z : Zmq) : nat * Zmq :=
  match zmqClientMap z !! zmqAddress with
  | Some c => (c, z)
  | None => let c := length (made z) in (c, mkZmq (<[zmqAddress := c]> (zmqClientMap z)) (made z ++ [(zmqAddress, vrf)]))
  end.

(** [removeZmqClient]; [order] is the order of the map. *)
Fixpoint findClient (c : nat) (order : list (string * nat)) : option string :=
  match order with [] => None | (address, c') :: order => if c' =? c then Some address else findClient c order end.
Definition removeZmqClient `{!MapRange} (c : nat) (z : Zmq) : bool * Zmq :=
  match findClient c (range_of (zmqClientMap z)) with
  | Some address => (true, mkZmq (delete address (zmqClientMap z)) (made z))
  | None => (false, z)
  end.

Definition LOCAL_ADDRESS : string := "127.0.0.1".

(** [getZmqClient]: an error, no client, or a client. *)
Definition getZmqClient (dpuId zmqPort vrf : string) (z : Zmq) : option (option nat) * Zmq :=
  if String.eqb zmqPort "" then (Some None, z)
  else
    match (if String.eqb dpuId "" then Some ("tcp://" +:+ LOCAL_ADDRESS +:+ ":" +:+ zmqPort) else getZmqAddress dpuId zmqPort) with
    | None => (None, z)
    | Some zmqAddress => let '(c, z) := getZmqClientByAddress zmqAddress vrf z in (Some (Some c), z)
    end.

End Zmq.

(** * Polling *)

Section Poll.
Context `{!MapRange}.
Variables (inst : MixedDb.Instances) (marshal : jobj -> option string) (marshalList : list string -> option string) (sprintPath : Path -> string)
  (c : MixedDb.MixedDbClient).

(** The data of a path: table paths are found again at every poll. *)
Definition pollRead (db : gmap string Redis) (p : Path) : res MixedDb.mx_error (option TypedValue) :=
  try ts := MixedDb.getDbtablePath inst db c (Some p) None in MixedDb.tableData2TypedValue db marshal marshalList c ts ∅ false.

(** The paths of one round: the values put on the queue, the new [prevUpdates], and whether
    the routine goes on, returns or panics. *)
Fixpoint pollPaths (db : gmap string Redis) (now : Z) (ps : list Path) (prevUpdates : gmap string bool) :
    list DbClient.Value * gmap string bool * DbClient.pollEnd :=
  match ps with
  | [] => ([], prevUpdates, DbClient.Continue)
  | p :: ps =>
      match pollRead db p with
      | Err MixedDb.Panic => ([], prevUpdates, DbClient.Crash)
      | Err _ => ([], prevUpdates, DbClient.Exit)
      | Ok None =>
          if default false (prevUpdates !! sprintPath p) then
            let '(vs, prev, e) := pollPaths db now ps (<[sprintPath p := false]> prevUpdates) in
            (DbClient.deleteValue (MixedDb.prefix c) p now :: vs, prev, e)
          else pollPaths db now ps prevUpdates
      | Ok (Some val) =>
          let '(vs, prev, e) := pollPaths db now ps (<[sprintPath p := true]> prevUpdates) in
          (DbClient.updateValue (MixedDb.prefix c) p now val :: vs, prev, e)
      end
  end.

(** [PollRun]: one round for each token of the channel, which is closed at the end. *)
Fixpoint PollRun (ps : list Path) (prevUpdates : gmap string bool) (rounds : list (gmap string Redis * Z)) : list DbClient.Value * DbClient.pollEnd :=
  match rounds with
  | [] => ([], DbClient.Continue)
  | (db, now) :: rounds =>
      let '(vs, prev, e) := pollPaths db now ps prevUpdates in
      match e with
      | DbClient.Continue => let '(vs', e) := PollRun ps prev rounds in (vs ++ [DbClient.syncValue now] ++ vs', e)
      | _ => (vs, e)
      end
  end.

(** * Close *)

(** What is released. *)
Inductive Released := DeleteTable (kind : MixedSet.tableKind) (table : string) | FlushTable (table : string) | DeleteConnector | DeleteKey.

Definition tablesOf (kind : MixedSet.tableKind) (s : MixedSet.Swss) : list string :=
  (base.filter (fun kv => kv.2 = kind) (range_of (MixedSet.tables s))).*1.

(** [Close]: tables by kind, then the connector and the key where there are ones. *)
Definition Close (s : MixedSet.Swss) (applDB key : bool) : list Released :=
  (DeleteTable MixedSet.ProducerTable <$> tablesOf MixedSet.ProducerTable s) ++ (DeleteTable MixedSet.ZmqTable <$> tablesOf MixedSet.ZmqTable s) ++
  flat_map (fun t => [FlushTable t; DeleteTable MixedSet.PlainTable t]) (tablesOf MixedSet.PlainTable s) ++
  (if applDB then [DeleteConnector] else []) ++ (if key then [DeleteKey] else []).

End Poll.
End MixedRuntime.

(** Theorems about what the native data clients share: the map of connections, the ZMQ clients,
    polling and closing. *)

Import JsonClient MixedRuntime.
Open Scope go_scope.

(** * Connections *)

Section Connections.
Context (inst : MixedDb.Instances) (sock : string -> dbkey -> option string) (dbId : string -> dbkey -> option Z).
Abbreviation connections := (gmap string (string * Z)).

(** The databases of the instances. *)
Definition databases (ks : list dbkey) : list (dbkey * string) := flat_map (fun k => pair k <$> default [] (MixedDb.dbList inst k)) ks.
Definition keyOf (x : dbkey * string) : string := mapKey x.1 x.2.

(** A map holds the connections of a list of databases. *)
Definition Holds (m : connections) (l : list (dbkey * string)) : Prop :=
  forall key v, m !! key = Some v <-> exists x addr n, x ∈ l /\ key = keyOf x /\ sock x.2 x.1 = Some addr /\ dbId x.2 x.1 = Some n /\ v = (addr, n).

Lemma holds_snoc m l k db addr n : Holds m l -> mapKey k db ∉ keyOf <$> l -> sock db k = Some addr -> dbId db k = Some n -> Holds (<[mapKey k db := (addr, n)]> m) (l ++ [(k, db)]).
Proof.
  intros H Hnew Ha Hn key v. rewrite lookup_insert_Some, (H key v). split.
  - intros [[<- <-]|[Hne (x & a & i & Hx & Hr)]]; [exists (k, db), addr, n|exists x, a, i]; (split; [apply elem_of_app|done]); [right; by apply list_elem_of_singleton|by left].
  - intros (x & a & i & [Hx| ->%list_elem_of_singleton]%elem_of_app & -> & Hs & Hi & ->); [right|left; cbn in *; split; [done|congruence]].
    split; [|by exists x, a, i]. intros He. apply Hnew. rewrite He. by apply list_elem_of_fmap_2.
Qed.

Lemma connectDbs_holds k names m l : Holds m l -> NoDup (keyOf <$> l ++ (pair k <$> names)) ->
  (forall db, db ∈ names -> is_Some (sock db k) /\ is_Some (dbId db k)) ->
  exists m', connectDbs sock dbId k names m = (m', true) /\ Holds m' (l ++ (pair k <$> names)).
Proof.
  revert m l. induction names as [|db names IH]; intros m l H Hnd Hall; [exists m; split; [done|by rewrite app_nil_r]|]. cbn.
  destruct (Hall db) as [[addr Ha] [n Hn]]; [by left|]. rewrite Ha, Hn.
  destruct (IH (<[mapKey k db := (addr, n)]> m) (l ++ [(k, db)])) as (m' & Hm & Hh).
  - apply holds_snoc; try done. rewrite fmap_app in Hnd. apply NoDup_app in Hnd as (_ & Hd & _). intros Hin. apply (Hd _ Hin). by left.
  - by rewrite <- app_assoc.
  - intros db' Hdb'. apply Hall. by right.
  - exists m'. split; [done|]. by rewrite <- app_assoc in Hh.
Qed.

Lemma connectAll_holds ks m l : Holds m l -> NoDup (keyOf <$> l ++ databases ks) -> (forall k, k ∈ ks -> is_Some (MixedDb.dbList inst k)) ->
  (forall x, x ∈ databases ks -> is_Some (sock x.2 x.1) /\ is_Some (dbId x.2 x.1)) ->
  exists m', connectAll inst sock dbId ks m = (m', true) /\ Holds m' (l ++ databases ks).
Proof.
  revert m l. induction ks as [|k ks IH]; intros m l H Hnd Hl Hall; [exists m; split; [done|by rewrite app_nil_r]|].
  cbn [connectAll]. destruct (Hl k) as [names Hk]; [by left|]. rewrite Hk.
  assert (databases (k :: ks) = (pair k <$> names) ++ databases ks) as Hd by (unfold databases; cbn; by rewrite Hk). rewrite Hd, app_assoc in *.
  destruct (connectDbs_holds k names m l H) as (m1 & Hm1 & Hh1).
  - rewrite fmap_app in Hnd. by apply NoDup_app in Hnd as (Hnd & _).
  - intros db Hdb. apply (Hall (k, db)). apply elem_of_app. left. by apply list_elem_of_fmap_2.
  - rewrite Hm1. apply IH; [done|done|intros k' Hk'; apply Hl; by right|]. intros x Hx. apply Hall. apply elem_of_app. by right.
Qed.

(** When the number of instances has changed and the library knows everything, the map holds a
    connection for every database of every instance, to its socket and number, and nothing
    else. *)
Theorem redis_map_exact s ks :
  MixedDb.allInstances inst = Some ks -> length ks <> DbInstNum s -> (forall k, k ∈ ks -> is_Some (MixedDb.dbList inst k)) ->
  (forall x, x ∈ databases ks -> is_Some (sock x.2 x.1) /\ is_Some (dbId x.2 x.1)) -> NoDup (keyOf <$> databases ks) ->
  exists m, RedisDbMap (initRedisDbMap inst sock dbId s) = Some m /\ Holds m (databases ks).
Proof.
  intros Hk Hne Hl Hall Hnd. unfold initRedisDbMap. rewrite Hk, (proj2 (Nat.eqb_neq _ _) Hne).
  destruct (connectAll_holds ks ∅ []) as (m & Hm & Hh); [|done..|exists m; by rewrite Hm].
  intros key v. rewrite lookup_empty. split; [done|]. by intros (x & a & n & ?%elem_of_nil & _).
Qed.

(** Whatever went wrong, the map is not made again for the same number of instances. *)
Theorem failed_connections_kept sock' dbId' s : initRedisDbMap inst sock' dbId' (initRedisDbMap inst sock dbId s) = initRedisDbMap inst sock dbId s.
Proof.
  unfold initRedisDbMap. destruct (MixedDb.allInstances inst) as [ks|]; [|done]. destruct (length ks =? DbInstNum s) eqn:He; [by rewrite He|]. cbn. by rewrite Nat.eqb_refl.
Qed.

End Connections.

(** * ZMQ clients *)

(** What the map says is what was made. *)
Definition ZmqOk (z : Zmq) : Prop := forall a c, zmqClientMap z !! a = Some c -> exists vrf, made z !! c = Some (a, vrf).

Lemma zmq_byAddress a vrf z : ZmqOk z -> ZmqOk (getZmqClientByAddress a vrf z).2 /\ zmqClientMap (getZmqClientByAddress a vrf z).2 !! a = Some (getZmqClientByAddress a vrf z).1.
Proof.
  intros H. unfold getZmqClientByAddress. destruct (zmqClientMap z !! a) as [c|] eqn:Ha; [done|]. cbn. split; [|by rewrite lookup_insert_eq].
  intros a' c. cbn. rewrite lookup_insert_Some. intros [[<- <-]|[_ (v & Hv)%H]]; [exists vrf; by rewrite lookup_app_r, Nat.sub_diag by done|].
  exists v. by apply lookup_app_l_Some.
Qed.

Lemma zmq_remove `{!MapRange} c z : ZmqOk z -> ZmqOk (removeZmqClient c z).2.
Proof.
  intros Hz. unfold removeZmqClient. destruct (findClient _ _) as [a|]; [|done]. intros a' c'. cbn. rewrite lookup_delete_Some. intros [_ Hl]. by apply Hz.
Qed.

(** The histories of the map. *)
Inductive zmqStep `{!MapRange} (entry : string -> string -> gmap string string) (z : Zmq) : Zmq -> Prop :=
| ZGet dpu port vrf : zmqStep entry z (getZmqClient entry dpu port vrf z).2
| ZRemove c : zmqStep entry z (removeZmqClient c z).2.

Lemma zmq_ok `{!MapRange} entry z : rtc (zmqStep entry) (mkZmq ∅ []) z -> ZmqOk z.
Proof.
  apply (rtc_ind_r (fun z => ZmqOk z)); [by intros a c|]. intros y z' _ Hs Hy. destruct Hs as [dpu port vrf|c]; [|by apply zmq_remove].
  unfold getZmqClient. case_match; [done|]. destruct (if String.eqb dpu "" then _ else _) as [a|]; [|done].
  pose proof (zmq_byAddress a vrf y Hy) as [H' _]. by destruct (getZmqClientByAddress a vrf y).
Qed.

(** Requests for the same DPU and port share a client, which was made for the address of the
    DPU; requests for different addresses never do. *)
Theorem zmq_clients_by_address `{!MapRange} entry z a vrf a' vrf' :
  rtc (zmqStep entry) (mkZmq ∅ []) z ->
  let '(c, z1) := getZmqClientByAddress a vrf z in
  let '(c', z2) := getZmqClientByAddress a' vrf' z1 in
  (exists v, made z1 !! c = Some (a, v)) /\ (c = c' <-> a = a') /\ (a = a' -> z2 = z1).
Proof.
  intros Hz%zmq_ok. pose proof (zmq_byAddress a vrf z Hz) as [H1 Ha]. destruct (getZmqClientByAddress a vrf z) as [c z1]. cbn in H1, Ha.
  pose proof (zmq_byAddress a' vrf' z1 H1) as [H2 Ha']. pose proof (H1 a c Ha) as (v & Hv). unfold getZmqClientByAddress in *.
  destruct (zmqClientMap z1 !! a') as [c'|] eqn:Hl; cbn in *.
  - destruct (H1 a' c' Hl) as (v' & Hv'). split_and!; [by exists v| |done]. split; intros ->; congruence.
  - split_and!; [by exists v| |intros ->; congruence]. split; [|intros ->; congruence]. intros ->. apply lookup_lt_Some in Hv. lia.
Qed.

(** The VRF is not part of the key: a request for another VRF gets the client of the first. *)
Theorem zmq_vrf_ignored : exists z, getZmqClient (fun _ _ => ∅) "" "8100" "mgmt" (mkZmq ∅ []) = (Some (Some 0), z) /\
  getZmqClient (fun _ _ => ∅) "" "8100" "default" z = (Some (Some 0), z) /\ made z = [("tcp://127.0.0.1:8100", "mgmt")].
Proof. eexists. split_and!; reflexivity. Qed.

(** A DPU whose list of addresses is empty gets an address without a host. *)
Theorem empty_dpu_address : getZmqAddress (fun t k => if String.eqb t "MID_PLANE_BRIDGE" then {["bridge" := "b"]}
    else if String.eqb t "DPUS" then {["midplane_interface" := "i"]} else {["ips@" := ""]}) "dpu0" "8100" = Some "tcp://:8100".
Proof. reflexivity. Qed.

(** * Polling *)

Section Poll.
Context {mr : MapRange} (inst : MixedDb.Instances) (marshal : jobj -> option string) (marshalList : list string -> option string) (sprintPath : Path -> string)
  (c : MixedDb.MixedDbClient).
Abbreviation pollRead := (pollRead inst marshal marshalList c).
Abbreviation pollPaths := (pollPaths inst marshal marshalList sprintPath c).
Abbreviation PollRun := (PollRun inst marshal marshalList sprintPath c).
Abbreviation clientView := (clientView sprintPath).

(** The data of a path at a poll. *)
Definition polled (db : gmap string Redis) (p : Path) : option TypedValue := match pollRead db p with Ok v => v | Err _ => None end.

Lemma mixed_pollPaths_view db now ps : forall prev view vs prev',
  pollPaths db now ps prev = (vs, prev', DbClient.Continue) -> NoDup (sprintPath <$> ps) -> tracks prev view ->
  tracks prev' (clientView vs view) /\ (forall p, p ∈ ps -> clientView vs view !! sprintPath p = polled db p) /\
  (forall k, k ∉ sprintPath <$> ps -> clientView vs view !! k = view !! k).
Proof.
  induction ps as [|p ps IH]; intros prev view vs prev' H Hnd Ht; cbn [MixedRuntime.pollPaths] in H.
  { injection H as <- <-. split_and!; [done|set_solver|done]. }
  apply NoDup_cons in Hnd as [Hp Hnd].
  assert (forall view1 vs1, view1 !! sprintPath p = polled db p -> (forall k, k <> sprintPath p -> view1 !! k = view !! k) ->
    tracks prev' (clientView vs1 view1) /\ (forall p', p' ∈ ps -> clientView vs1 view1 !! sprintPath p' = polled db p') /\
    (forall k, k ∉ sprintPath <$> ps -> clientView vs1 view1 !! k = view1 !! k) ->
    tracks prev' (clientView vs1 view1) /\ (forall p', p' ∈ p :: ps -> clientView vs1 view1 !! sprintPath p' = polled db p') /\
    (forall k, k ∉ sprintPath <$> p :: ps -> clientView vs1 view1 !! k = view !! k)) as Hstep.
  { intros view1 vs1 Hv Ho (H1 & H2 & H3). split_and!; [done| |].
    - intros p'. rewrite elem_of_cons. intros [->|Hin]; [|by apply H2]. by rewrite H3.
    - intros k Hk. rewrite fmap_cons, not_elem_of_cons in Hk. destruct Hk as [Hk1 Hk2]. rewrite H3 by done. by apply Ho. }
  unfold polled in Hstep at 1. destruct (pollRead db p) as [[val|]|e] eqn:Es; [| |by destruct e].
  - destruct (pollPaths db now ps _) as [[vs1 prev1] e1] eqn:Ep. injection H as <- <- ->.
    change (clientView (_ :: vs1) view) with (clientView vs1 (<[sprintPath p := val]> view)).
    apply Hstep; [by rewrite lookup_insert_eq|intros; by rewrite lookup_insert_ne|]. apply (IH _ _ _ _ Ep); [done|]. by apply tracks_set.
  - destruct (default false (prev !! sprintPath p)) eqn:Edef.
    + destruct (pollPaths db now ps _) as [[vs1 prev1] e1] eqn:Ep. injection H as <- <- ->.
      change (clientView (_ :: vs1) view) with (clientView vs1 (delete (sprintPath p) view)).
      apply Hstep; [by rewrite lookup_delete_eq|intros; by rewrite lookup_delete_ne|]. apply (IH _ _ _ _ Ep); [done|]. by apply tracks_unset.
    + rewrite Ht in Edef. apply bool_decide_eq_false in Edef. apply Hstep; [|done|by apply (IH _ _ _ _ H)].
      destruct (view !! sprintPath p); [|done]. by destruct Edef.
Qed.

(** A polling client that applies what it is sent holds after every poll what the database had
    at that poll, for every path. *)
Theorem mixed_poll_view_current ps rounds db now : forall prev view vs,
  NoDup (sprintPath <$> ps) -> tracks prev view -> PollRun ps prev (rounds ++ [(db, now)]) = (vs, DbClient.Continue) ->
  forall p, p ∈ ps -> clientView vs view !! sprintPath p = polled db p.
Proof.
  induction rounds as [|[db1 now1] rounds IH]; intros prev view vs Hnd Ht H p Hp; cbn [app MixedRuntime.PollRun] in H.
  - destruct (pollPaths db now ps prev) as [[vs1 prev1] e] eqn:Ep. destruct e; simplify_eq.
    destruct (mixed_pollPaths_view db now ps prev view vs1 prev1 Ep Hnd Ht) as (_ & Hv & _). rewrite !clientView_app. by apply Hv.
  - destruct (pollPaths db1 now1 ps prev) as [[vs1 prev1] e] eqn:Ep. destruct e; try (by simplify_eq).
    destruct (PollRun ps prev1 _) as [vs2 e2] eqn:Er. injection H as <- ->.
    destruct (mixed_pollPaths_view db1 now1 ps prev view vs1 prev1 Ep Hnd Ht) as (Ht' & _ & _). rewrite !clientView_app. by apply (IH prev1 _ vs2).
Qed.

End Poll.

(** * Close *)

Section Close.
Context {mr : MapRange} (s : MixedSet.Swss).

Lemma elem_of_tablesOf kind t : t ∈ tablesOf kind s <-> MixedSet.tables s !! t = Some kind.
Proof.
  unfold tablesOf. rewrite list_elem_of_fmap. split.
  - intros ([t' k] & -> & [Hk Hin]%list_elem_of_filter). cbn in *. subst k. rewrite range_of_perm in Hin. by apply elem_of_map_to_list.
  - intros H. exists (t, kind). split; [done|]. apply list_elem_of_filter. split; [done|]. rewrite range_of_perm. by apply elem_of_map_to_list.
Qed.

Lemma tablesOf_NoDup kind : NoDup (tablesOf kind s).
Proof.
  unfold tablesOf. assert (NoDup (range_of (MixedSet.tables s)).*1) as Hnd by (rewrite range_of_perm; apply NoDup_fst_map_to_list).
  revert Hnd. generalize (range_of (MixedSet.tables s)). intros l. induction l as [|[t k] l IH]; intros Hnd; [constructor|].
  apply NoDup_cons in Hnd as [Hn Hnd]. rewrite filter_cons. case_decide; [|by apply IH]. cbn. apply NoDup_cons. split; [|by apply IH].
  intros Hin. apply Hn. apply list_elem_of_fmap in Hin as (x & Ht & [_ Hx]%list_elem_of_filter). apply list_elem_of_fmap. by exists x.
Qed.

(** Every table that was made is deleted, as a table of its kind. *)
Theorem close_releases_all applDB key kind t : DeleteTable kind t ∈ Close s applDB key <-> MixedSet.tables s !! t = Some kind.
Proof.
  unfold Close. rewrite !elem_of_app, !list_elem_of_fmap, list_elem_of_In, in_flat_map. setoid_rewrite <- list_elem_of_In. setoid_rewrite elem_of_tablesOf.
  assert (DeleteTable kind t ∉ (if applDB then [DeleteConnector] else [])) as Ha by (destruct applDB; set_solver).
  assert (DeleteTable kind t ∉ (if key then [DeleteKey] else [])) as Hk by (destruct key; set_solver).
  split.
  - intros [(x & [= -> ->] & H)|[(x & [= -> ->] & H)|[(x & H & Hin)|[?|?]]]]; [done|done| |done|done]. by apply elem_of_cons in Hin as [|[= -> ->]%list_elem_of_singleton].
  - intros H. destruct kind; [left; by exists t|right; left; by exists t|right; right; left]. exists t. split; [done|]. right. by left.
Qed.

(** Nothing is deleted twice. *)
Theorem close_releases_once applDB key : NoDup (Close s applDB key).
Proof.
  unfold Close. assert (forall kind, NoDup (DeleteTable kind <$> tablesOf kind s)) as Hk by (intros kind; apply NoDup_fmap_2; [by intros ?? [=]|apply tablesOf_NoDup]).
  assert (NoDup (flat_map (fun t => [FlushTable t; DeleteTable MixedSet.PlainTable t]) (tablesOf MixedSet.PlainTable s))) as Hp.
  { pose proof (tablesOf_NoDup MixedSet.PlainTable) as Hnd. revert Hnd. generalize (tablesOf MixedSet.PlainTable s). intros l. induction l as [|t l IH]; intros Hnd; [constructor|].
    apply NoDup_cons in Hnd as [Hn Hnd]. cbn [flat_map app]. assert (forall x, x ∈ flat_map (fun t => [FlushTable t; DeleteTable MixedSet.PlainTable t]) l -> x <> FlushTable t /\ x <> DeleteTable MixedSet.PlainTable t) as Hx.
    { intros x Hx. apply list_elem_of_In, in_flat_map in Hx as (t' & Ht'%list_elem_of_In & Hx%list_elem_of_In). split; intros ->; set_solver. }
    apply NoDup_cons. split; [intros [?|Hin]%elem_of_cons; [done|by destruct (Hx _ Hin)]|]. apply NoDup_cons. split; [intros Hin; by destruct (Hx _ Hin)|]. by apply IH. }
  assert (forall x, x ∈ flat_map (fun t => [FlushTable t; DeleteTable MixedSet.PlainTable t]) (tablesOf MixedSet.PlainTable s) -> exists t, x = FlushTable t \/ x = DeleteTable MixedSet.PlainTable t) as Hpx.
  { intros x Hx. apply list_elem_of_In, in_flat_map in Hx as (t' & _ & Hx%list_elem_of_In). exists t'. set_solver. }
  repeat (apply NoDup_app; split_and!); try apply Hk; try done; try (destruct applDB, key; repeat constructor; set_solver).
Qed.

End Close.

(** * Instances *)

Definition demo_instances (k : dbkey) : MixedDb.Instances := MixedDb.mkInstances (fun _ => Some ["APPL_DB"]) (Some [k]) (fun _ _ => Some ":").

(** Another configuration with the same number of instances is not noticed. *)
Theorem changed_instances_unnoticed :
  let connected := initRedisDbMap (demo_instances ("", "")) (fun _ _ => Some "/redis.sock") (fun _ _ => Some 0%Z) (mkShared None 0) in
  RedisDbMap connected = Some {["::APPL_DB" := ("/redis.sock", 0%Z)]} /\
  initRedisDbMap (demo_instances ("asic0", "")) (fun _ _ => Some "/asic0.sock") (fun _ _ => Some 0%Z) connected = connected.
Proof. split; reflexivity. Qed.

Definition demo_mixed : MixedDb.MixedDbClient := MixedDb.mkMixed None [] Server.JSON_IETF "APPL_DB" "sonic-db" ("", "") false.
Definition demo_mixed_path : Path := mkPath "" "" [mkElem "APPL_DB" ∅; mkElem "localhost" ∅; mkElem "T" ∅].
Definition mixed_redis (keys : list string) : Redis :=
  mkRedis (Some tt) (fun _ => Some keys) (fun _ => Some true) (fun _ _ => Some true) (fun _ _ => Err RedisNil) (fun _ => Some {["f" := "v"]}).

(** When the last entry of a polled table is gone the routine returns: neither a delete nor the
    sync response of that poll is sent. *)
Theorem poll_ends_with_table :
  PollRun (demo_instances ("", "")) (fun _ => Some "{}") (fun _ => None) (fun _ => "T") demo_mixed [demo_mixed_path] ∅
    [({["::APPL_DB" := mixed_redis ["T:k"]]}, 1%Z); ({["::APPL_DB" := mixed_redis []]}, 2%Z)] =
  ([DbClient.updateValue None demo_mixed_path 1 (JsonIetfVal "{}"); DbClient.syncValue 1], DbClient.Exit).
Proof. vm_compute. reflexivity. Qed.
