(* ===== verification/CounterMemory.v ===== *)
(** The counters of the server in shared memory (src/common_utils/context.go, shareMem.go) and
    the program that prints them (src/gnmi_dump/gnmi_dump.go).

    The segment is a list of bytes; words are written little endian, as the processors of the
    platform do.  System calls may fail. *)

From S2P Require Import Prelude.
Open Scope go_scope.

Module CounterMemory.

(** * Counters *)

Inductive CounterType :=
| GNMI_GET | GNMI_GET_FAIL | GNMI_SET | GNMI_SET_FAIL | GNMI_SET_BYPASS
| GNOI_REBOOT | GNOI_FACTORY_RESET | GNOI_OS_INSTALL | GNOI_HEALTHZ_ACK | GNOI_HEALTHZ_CHECK | GNOI_HEALTHZ_COLLECT
| GNSI_CREDZ_SET | GNSI_CREDZ_CHECKPOINT
| DBUS | DBUS_FAIL | DBUS_APPLY_PATCH_DB | DBUS_APPLY_PATCH_YANG | DBUS_CREATE_CHECKPOINT | DBUS_DELETE_CHECKPOINT
| DBUS_CONFIG_SAVE | DBUS_CONFIG_RELOAD | DBUS_STOP_SERVICE | DBUS_RESTART_SERVICE | DBUS_FILE_STAT | DBUS_FILE_DOWNLOAD | DBUS_FILE_REMOVE
| DBUS_IMAGE_DOWNLOAD | DBUS_IMAGE_INSTALL | DBUS_IMAGE_LIST | DBUS_IMAGE_ACTIVATE | DBUS_DOCKER_LOAD | DBUS_CONFIG_REPLACE.

(** The constants in the order of [iota]. *)
Definition counterTypes : list CounterType :=
  [GNMI_GET; GNMI_GET_FAIL; GNMI_SET; GNMI_SET_FAIL; GNMI_SET_BYPASS;
   GNOI_REBOOT; GNOI_FACTORY_RESET; GNOI_OS_INSTALL; GNOI_HEALTHZ_ACK; GNOI_HEALTHZ_CHECK; GNOI_HEALTHZ_COLLECT;
   GNSI_CREDZ_SET; GNSI_CREDZ_CHECKPOINT;
   DBUS; DBUS_FAIL; DBUS_APPLY_PATCH_DB; DBUS_APPLY_PATCH_YANG; DBUS_CREATE_CHECKPOINT; DBUS_DELETE_CHECKPOINT;
   DBUS_CONFIG_SAVE; DBUS_CONFIG_RELOAD; DBUS_STOP_SERVICE; DBUS_RESTART_SERVICE; DBUS_FILE_STAT; DBUS_FILE_DOWNLOAD; DBUS_FILE_REMOVE;
   DBUS_IMAGE_DOWNLOAD; DBUS_IMAGE_INSTALL; DBUS_IMAGE_LIST; DBUS_IMAGE_ACTIVATE; DBUS_DOCKER_LOAD; DBUS_CONFIG_REPLACE].

Definition COUNTER_SIZE : nat := length counterTypes.

Definition counterName (c : CounterType) : string :=
  match c with
  | GNMI_GET => "GNMI get" | GNMI_GET_FAIL => "GNMI get fail" | GNMI_SET => "GNMI set" | GNMI_SET_FAIL => "GNMI set fail" | GNMI_SET_BYPASS => "GNMI set bypass"
  | GNOI_REBOOT => "GNOI reboot" | GNOI_FACTORY_RESET => "GNOI Factory Reset" | GNOI_OS_INSTALL => "GNOI OS Install"
  | GNOI_HEALTHZ_ACK => "GNOI Healthz Ack" | GNOI_HEALTHZ_CHECK => "GNOI Healthz Check" | GNOI_HEALTHZ_COLLECT => "GNOI Healthz Collect"
  | GNSI_CREDZ_SET => "GNSI Credz Set" | GNSI_CREDZ_CHECKPOINT => "GNSI Credz Checkpoint"
  | DBUS => "DBUS" | DBUS_FAIL => "DBUS fail" | DBUS_APPLY_PATCH_DB => "DBUS apply patch db" | DBUS_APPLY_PATCH_YANG => "DBUS apply patch yang"
  | DBUS_CREATE_CHECKPOINT => "DBUS create checkpoint" | DBUS_DELETE_CHECKPOINT => "DBUS delete checkpoint"
  | DBUS_CONFIG_SAVE => "DBUS config save" | DBUS_CONFIG_RELOAD => "DBUS config reload"
  | DBUS_STOP_SERVICE => "DBUS stop service" | DBUS_RESTART_SERVICE => "DBUS restart service"
  | DBUS_FILE_STAT => "DBUS file stat" | DBUS_FILE_DOWNLOAD => "DBUS file download" | DBUS_FILE_REMOVE => "DBUS file remove"
  | DBUS_IMAGE_DOWNLOAD => "DBUS image download" | DBUS_IMAGE_INSTALL => "DBUS image install" | DBUS_IMAGE_LIST => "DBUS image list" | DBUS_IMAGE_ACTIVATE => "DBUS image activate"
  | DBUS_DOCKER_LOAD => "DBUS docker load" | DBUS_CONFIG_REPLACE => "DBUS config replace"
  end.

#[global] Instance CounterType_eq_dec : EqDecision CounterType.
Proof. solve_decision. Defined.

(** The number of a counter. *)
Definition indexOf (c : CounterType) : nat := default 0 (fst <$> list_find (fun c' => c' = c) counterTypes).

(** * Shared memory *)

Definition memSize : nat := 1024.

(** A 64-bit word as eight bytes. *)
Fixpoint wordBytes (n : nat) (v : Z) : list Z := match n with O => [] | S n => (v mod 256)%Z :: wordBytes n (v / 256) end.
Fixpoint bytesWord (bs : list Z) : Z := match bs with [] => 0 | b :: bs => (b + 256 * bytesWord bs)%Z end.

(** A store or a load beyond the segment is a fault: [None]. *)
Definition storeWord (addr : nat) (v : Z) (mem : list Z) : option (list Z) :=
  if addr + 8 <=? length mem then Some (take addr mem ++ wordBytes 8 v ++ drop (addr + 8) mem) else None.
Definition loadWord (addr : nat) (mem : list Z) : option Z :=
  if addr + 8 <=? length mem then Some (bytesWord (take 8 (drop addr mem))) else None.

(** The loops of [SetMemCounters] and [GetMemCounters]. *)
Fixpoint storeAll (addr : nat) (counters : list Z) (mem : list Z) : option (list Z) :=
  match counters with [] => Some mem | v :: counters => mem ← storeWord addr v mem; storeAll (addr + 8) counters mem end.
Fixpoint loadAll (n addr : nat) (mem : list Z) : option (list Z) :=
  match n with O => Some [] | S n => v ← loadWord addr mem; vs ← loadAll n (addr + 8) mem; Some (v :: vs) end.

(** The segment; [attach] tells whether [shmget] and [shmat] succeed.  [Some (Err _)] is an
    error, [None] a fault. *)
Definition SetMemCounters (attach : bool) (counters : list Z) (mem : list Z) : option (res unit (list Z)) :=
  if attach then mem ← storeAll 0 counters mem; Some (Ok mem) else Some (Err tt).
Definition GetMemCounters (attach : bool) (mem : list Z) : option (res unit (list Z)) :=
  if attach then vs ← loadAll COUNTER_SIZE 0 mem; Some (Ok vs) else Some (Err tt).

(** [InitCounters] and [IncCounter]; errors of the segment are dropped. *)
Record Server := mkServer { globalCounters : list Z; segment : list Z }.

Definition publish (attach : bool) (counters : list Z) (mem : list Z) : option Server :=
  r ← SetMemCounters attach counters mem; Some (mkServer counters (match r with Ok mem => mem | Err _ => mem end)).

Definition InitCounters (attach : bool) (s : Server) : option Server := publish attach (replicate COUNTER_SIZE 0%Z) (segment s).
Definition IncCounter (attach : bool) (c : CounterType) (s : Server) : option Server :=
  publish attach (alter (fun v => (v + 1) mod 2 ^ 64)%Z (indexOf c) (globalCounters s)) (segment s).

(** [gnmi_dump]: a line for each counter. *)
Definition dumpLines (mem : list Z) : option (list string) :=
  r ← GetMemCounters true mem;
  match r with
  | Err _ => None
  | Ok vs => Some (zip_with (fun c v => counterName c +:+ "---" +:+ pretty v) counterTypes vs)
  end.

(** * Theorems *)

Lemma wordBytes_length n v : length (wordBytes n v) = n.
Proof. revert v. induction n as [|n IH]; intros v; cbn; [done|]. by rewrite IH. Qed.

Lemma word_roundtrip n v : (0 <= v < 256 ^ Z.of_nat n)%Z -> bytesWord (wordBytes n v) = v.
Proof.
  revert v. induction n as [|n IH]; intros v Hv; [cbn in *; lia|]. cbn [wordBytes bytesWord].
  rewrite IH; [pose proof (Z.div_mod v 256); lia|]. rewrite Nat2Z.inj_succ, Z.pow_succ_r in Hv by lia.
  split; [apply Z.div_pos; lia|apply Z.div_lt_upper_bound; lia].
Qed.

Lemma storeWord_length addr v mem mem' : storeWord addr v mem = Some mem' -> length mem' = length mem.
Proof.
  unfold storeWord. destruct (Nat.leb_spec (addr + 8) (length mem)) as [Hle|]; [|done]. intros <-%(inj Some). rewrite !length_app, wordBytes_length, length_take, length_drop. lia.
Qed.

Lemma storeAll_length addr vs mem mem' : storeAll addr vs mem = Some mem' -> length mem' = length mem.
Proof.
  revert addr mem. induction vs as [|v vs IH]; intros addr mem H; cbn in H; [by simplify_eq|]. destruct (storeWord addr v mem) as [m|] eqn:Hs; [|done]. cbn in H.
  by rewrite (IH _ _ H), (storeWord_length _ _ _ _ Hs).
Qed.

Lemma storeAll_fits addr vs mem : addr + 8 * length vs <= length mem -> exists mem', storeAll addr vs mem = Some mem'.
Proof.
  revert addr mem. induction vs as [|v vs IH]; intros addr mem H; [by exists mem|]. cbn in H. cbn [storeAll].
  destruct (storeWord addr v mem) as [m|] eqn:Hs; [|unfold storeWord in Hs; by rewrite (proj2 (Nat.leb_le _ _)) in Hs by lia].
  cbn. apply IH. rewrite (storeWord_length _ _ _ _ Hs). lia.
Qed.

(** A store does not touch what is before it. *)
Lemma storeAll_before addr vs mem mem' : storeAll addr vs mem = Some mem' -> take addr mem' = take addr mem.
Proof.
  revert addr mem. induction vs as [|v vs IH]; intros addr mem H; cbn in H; [by simplify_eq|]. destruct (storeWord addr v mem) as [m|] eqn:Hs; [|done]. cbn in H.
  apply IH in H. assert (take addr (take (addr + 8) mem') = take addr (take (addr + 8) m)) as Ht by (by rewrite H). rewrite !take_take, !Nat.min_l in Ht by lia. rewrite Ht.
  unfold storeWord in Hs. destruct (Nat.leb_spec (addr + 8) (length mem)); [|done]. apply (inj Some) in Hs as <-. rewrite take_app_le by (rewrite length_take; lia). by rewrite take_take, Nat.min_id.
Qed.

Lemma loadAll_storeAll addr vs mem mem' : (forall v, v ∈ vs -> (0 <= v < 2 ^ 64)%Z) -> storeAll addr vs mem = Some mem' -> loadAll (length vs) addr mem' = Some vs.
Proof.
  revert addr mem. induction vs as [|v vs IH]; intros addr mem Hv H; [done|]. cbn [storeAll] in H. destruct (storeWord addr v mem) as [m|] eqn:Hs; [|done]. cbn in H. cbn [length loadAll].
  assert (loadWord addr mem' = Some v) as Hl.
  { unfold loadWord. rewrite (storeAll_length _ _ _ _ H). pose proof (storeWord_length _ _ _ _ Hs) as Hlen.
    unfold storeWord in Hs. destruct (Nat.leb_spec (addr + 8) (length mem)); [|done]. rewrite Hlen, (proj2 (Nat.leb_le _ _)) by lia. f_equal.
    apply storeAll_before in H. rewrite take_drop_commute, H. apply (inj Some) in Hs as <-.
    rewrite <- take_drop_commute, drop_app_length' by (rewrite length_take; lia). rewrite take_app_length' by (by rewrite wordBytes_length).
    apply (word_roundtrip 8). apply Hv. by left. }
  rewrite Hl. cbn. by rewrite (IH _ _ (fun x Hx => Hv x ltac:(by right)) H).
Qed.

(** The segment is large enough for the counters, and what the server writes into it is what
    the other program reads. *)
Theorem counters_roundtrip counters mem : length counters = COUNTER_SIZE -> length mem = memSize -> (forall v, v ∈ counters -> (0 <= v < 2 ^ 64)%Z) ->
  exists mem', SetMemCounters true counters mem = Some (Ok mem') /\ length mem' = memSize /\ GetMemCounters true mem' = Some (Ok counters).
Proof.
  intros Hc Hm Hv. destruct (storeAll_fits 0 counters mem) as [mem' Hs]; [rewrite Hc, Hm; vm_compute; lia|].
  exists mem'. unfold SetMemCounters, GetMemCounters. rewrite Hs. split_and!; [done|by rewrite (storeAll_length _ _ _ _ Hs)|].
  rewrite <- Hc at 1. by rewrite (loadAll_storeAll 0 counters mem mem' Hv Hs).
Qed.

(** The names of the counters differ, and so do their numbers. *)
Theorem counter_names_distinct c c' : counterName c = counterName c' -> c = c'.
Proof. destruct c, c'; try done; cbn; intros [=]. Qed.

Theorem counter_index c : counterTypes !! indexOf c = Some c.
Proof. by destruct c. Qed.

(** The state of the server: counters at their width, and the segment. *)
Definition serverOk (s : Server) : Prop :=
  length (globalCounters s) = COUNTER_SIZE /\ length (segment s) = memSize /\ forall v, v ∈ globalCounters s -> (0 <= v < 2 ^ 64)%Z.

Lemma publish_ok attach counters mem : length counters = COUNTER_SIZE -> length mem = memSize -> (forall v, v ∈ counters -> (0 <= v < 2 ^ 64)%Z) ->
  exists s, publish attach counters mem = Some s /\ serverOk s /\ globalCounters s = counters /\ (attach = true -> GetMemCounters true (segment s) = Some (Ok counters)).
Proof.
  intros Hc Hm Hv. unfold publish. destruct attach; [|eexists; by split_and!].
  destruct (counters_roundtrip counters mem Hc Hm Hv) as (mem' & Hs & Hl & Hg). rewrite Hs. eexists. by split_and!.
Qed.

(** An increment changes its counter by one, modulo 2^64, and no other; the segment shows all
    counters afterwards when it can be attached. *)
Theorem increment_exact attach c s : serverOk s ->
  exists s', IncCounter attach c s = Some s' /\ serverOk s' /\
    (forall c' v, globalCounters s !! indexOf c' = Some v -> globalCounters s' !! indexOf c' = Some (if decide (c' = c) then (v + 1) mod 2 ^ 64 else v)%Z) /\
    (attach = true -> GetMemCounters true (segment s') = Some (Ok (globalCounters s'))).
Proof.
  intros (Hc & Hm & Hv). destruct (publish_ok attach (alter (fun v => (v + 1) mod 2 ^ 64)%Z (indexOf c) (globalCounters s)) (segment s)) as (s' & Hs & Hok & Hg & Hr).
  - by rewrite length_alter.
  - done.
  - intros v [i Hi]%list_elem_of_lookup. destruct (decide (indexOf c = i)) as [<-|Hne].
    + rewrite list_lookup_alter_eq in Hi. destruct (globalCounters s !! indexOf c); [|done]. cbn in Hi. injection Hi as <-. apply Z.mod_pos_bound. lia.
    + rewrite list_lookup_alter_ne in Hi by done. apply Hv. by eapply list_elem_of_lookup_2.
  - exists s'. split_and!; [done..| |by rewrite Hg]. intros c' v Hl. rewrite Hg. case_decide as Hd.
    + subst c'. rewrite list_lookup_alter_eq, Hl. done.
    + rewrite list_lookup_alter_ne; [done|]. intros He. apply Hd. pose proof (counter_index c') as H1. rewrite <- He, (counter_index c) in H1. by injection H1.
Qed.

(** * Two requests at once

    [IncCounter] copies word by word what other requests change: a copy that is late puts an
    old value back. *)
Inductive Copy := Idle | Loaded (v : Z).

(** One counter and its word: what two requests see. *)
Record Race := mkRace { counter : Z; word : Z; first : Copy; other : Copy }.

Definition loads (w : bool) (r : Race) : Race := if w then mkRace (counter r) (word r) (Loaded (counter r)) (other r) else mkRace (counter r) (word r) (first r) (Loaded (counter r)).
Definition stores (w : bool) (r : Race) : Race :=
  match (if w then first r else other r) with
  | Idle => r
  | Loaded v => if w then mkRace (counter r) v Idle (other r) else mkRace (counter r) v (first r) Idle
  end.
Definition adds (r : Race) : Race := mkRace ((counter r + 1) mod 2 ^ 64) (word r) (first r) (other r).

(** After both requests are done the segment shows one of two increments. *)
Theorem stale_counter_shown :
  let r := stores true (stores false (loads false (adds (loads true (adds (mkRace 0 0 Idle Idle)))))) in
  counter r = 2%Z /\ word r = 1%Z /\ first r = Idle /\ other r = Idle.
Proof. split_and!; reflexivity. Qed.

End CounterMemory.
