(* ===== verification/ServerTls.v ===== *)
(** The TLS options of the server over the links of the certz service, and serving on two
    listeners (src/gnmi_server/server.go: SrvAdvConfig, SrvTestConfig, Serve, Capabilities;
    isSymlinkValid of gnsi_certz.go).

    Files and links are those of [Certz]; a handshake takes the reader's lock, so it sees the
    links before or after a change and never in between. *)

From S2P Require Import Prelude PanicMonad GnmiTypes HostIO Filepath Certz CertzProofs.
Import Filepath Certz.
Open Scope go_scope.

Module ServerTls.

(** What [advancedtls.Options] is set to; certificates are read at every connection. *)
Record TlsOptions := mkTls { RequireClientCert : bool; CertVerification : bool; crlDirectory : option string; tlsConfig : Config }.

Section Options.
Variables (fails : nat -> bool) (torn : nat -> option string) (cwd : string).
(** Whether the directory of revocation lists can be read and watched, and whether the
    credentials can be made. *)
Variables (crlOk : string -> bool) (credsOk : bool).

(** The default links. *)
Definition withLinkDefaults (cfg : Config) : Config :=
  let orElse s d := if String.eqb s "" then d else s in
  mkConfig (orElse (SrvCertLnk cfg) "/keys/server_cert.lnk") (SrvCertFile cfg) (orElse (SrvKeyLnk cfg) "/keys/server_key.lnk") (SrvKeyFile cfg)
    (orElse (CaCertLnk cfg) "/keys/ca_cert.lnk") (CaCertFile cfg) (CertCRLConfig cfg) (FedPolicyFile cfg) (CertzMetaFile cfg).

Definition isSymlinkValid (path : string) : M bool := st ← osStat fails path; mret (bool_decide (st = Exist)).

Definition exists_ (path : string) : M bool := st ← osStat fails path; mret (bool_decide (st = Exist)).

(** The links that are not valid are set to the configured files; whether that worked is not
    looked at. *)
Definition checkCA (cfg : Config) : M bool :=
  if String.eqb (CaCertFile cfg) "" then mret true
  else
    ok ← exists_ (CaCertFile cfg);
    if negb ok then mret false
    else
      valid ← isSymlinkValid (CaCertLnk cfg);
      if valid : bool then mret true else _ ← atomicSetCACert fails cfg cwd (CaCertFile cfg); mret true.

Definition checkPair (cfg : Config) : M bool :=
  cert ← isSymlinkValid (SrvCertLnk cfg);
  valid ← (if cert : bool then isSymlinkValid (SrvKeyLnk cfg) else mret false);
  if valid : bool then mret true
  else if String.eqb (SrvCertFile cfg) "" || String.eqb (SrvKeyFile cfg) "" then mret false
  else
    ok ← exists_ (SrvCertFile cfg);
    if negb ok then mret false
    else
      ok ← exists_ (SrvKeyFile cfg);
      if negb ok then mret false else _ ← atomicSetSrvCertKeyPair fails cfg cwd (SrvCertFile cfg) (SrvKeyFile cfg); mret true.

Definition SrvAdvConfig (cfg : Config) : M (option TlsOptions) :=
  let cfg := withLinkDefaults cfg in
  ca ← checkCA cfg;
  if negb ca then mret None
  else
    pair ← checkPair cfg;
    if negb pair then mret None
    else
      let verify := negb (String.eqb (CaCertFile cfg) "") in
      let dir := Join [CertCRLConfig cfg; "crl"] in
      if verify && negb (String.eqb (CertCRLConfig cfg) "") && negb (crlOk dir) then mret None
      else mret (if credsOk then Some (mkTls verify verify (if verify && negb (String.eqb (CertCRLConfig cfg) "") then Some dir else None) cfg) else None).

(** [SrvTestConfig]: a generated pair beside the link, then the same. *)
Definition SrvTestConfig (testCert testKey : option string) (cfg : Config) : M (option TlsOptions) :=
  match testCert, testKey with
  | Some cert, Some key =>
      e ← io (fun w => osWriteFile fails torn w (Dir (SrvCertLnk cfg) +:+ "/server_test_cert.pem") cert);
      if failed e then mret None
      else
        e ← io (fun w => osWriteFile fails torn w (Dir (SrvCertLnk cfg) +:+ "/server_test_key.pem") key);
        if failed e then mret None else SrvAdvConfig cfg
  | _, _ => mret None
  end.

(** * Handshakes *)

(** What a link leads to. *)
Definition content (s : Server) (path : string) : option string := fs (world s) !! resolve s path.

(** [GetIdentityCertificatesForServer] and [GetRootCertificates] of the options; a server made
    with these options would call them for every connection. *)
Definition identityCertificates (pairOk : string -> string -> bool) (o : TlsOptions) (s : Server) : option (string * string) :=
  cert ← content s (SrvCertLnk (tlsConfig o)); key ← content s (SrvKeyLnk (tlsConfig o));
  if pairOk cert key then Some (cert, key) else None.
Definition rootCertificates (poolOk : string -> bool) (o : TlsOptions) (s : Server) : option string :=
  ca ← content s (CaCertLnk (tlsConfig o)); if poolOk ca then Some ca else None.

(** Whether a client is let in: with verification its certificate has to be there, to be signed
    by the CA of this moment and not to be revoked. *)
Definition handshake (pairOk : string -> string -> bool) (poolOk : string -> bool) (signedBy : string -> string -> bool) (revoked : string -> string -> bool)
    (o : TlsOptions) (client : option string) (s : Server) : bool :=
  match identityCertificates pairOk o s with
  | None => false
  | Some _ =>
      if CertVerification o then
        match rootCertificates poolOk o s, client with
        | Some ca, Some c => signedBy ca c && negb (match crlDirectory o with Some d => revoked d c | None => false end)
        | _, _ => false
        end
      else true
  end.

End Options.

(** * Serving *)

Record Listeners := mkListeners { tcpServer : bool; tcpListener : bool; udsServer : bool; udsListener : bool }.

(** [Serve] blocks until the servers it started have ended, with the error of each, in the
    order in which they end ([tcpFirst]). *)
Definition Serve (l : Listeners) (tcp uds : option string) (tcpFirst : bool) : option string :=
  if negb (tcpServer l) && negb (udsServer l) then Some "Serve() failed: not initialized"
  else
    let of_ (started : bool) (label : string) (e : option string) := match (if started then e else None) with Some e => [label +:+ ": " +:+ e] | None => [] end in
    let t := of_ (tcpServer l && tcpListener l) "TCP server" tcp in
    let u := of_ (udsServer l && udsListener l) "UDS server" uds in
    match (if tcpFirst then t ++ u else u ++ t) with [] => None | errs => Some (str_join errs "; ") end.

(** * Capabilities *)

Record ModelData := mkModel { mName : string; mOrganization : string; mVersion : string }.
Inductive GnmiEncoding := EncJSON | EncJSON_IETF | EncPROTO.
Definition supportedEncodings : list GnmiEncoding := [EncJSON; EncJSON_IETF; EncPROTO].

(** The models of both data clients after authentication. *)
Definition Capabilities (auth : option Code) (translModels mixedModels : list ModelData) (bundle base : string) :
    res Code (list ModelData * list GnmiEncoding * string * (string * string)) :=
  match auth with
  | Some e => Err e
  | None => Ok (translModels ++ mixedModels, supportedEncodings, "0.7.0", (bundle, base))
  end.

End ServerTls.

Import ServerTls.

(** * Theorems *)

Section Pair.
Variables (fails : nat -> bool) (torn : nat -> option string) (cwd : string) (pairOk : string -> string -> bool) (o : TlsOptions).

(** C19. [atomicSetSrvCertKeyPair] replaces certificate and key as a whole: when the two links
    are different, lead to existing files and are not files themselves, and at most one system
    call fails, the pair that [GetIdentityCertificatesForServer] reads through the links
    afterwards is the new certificate with the new key if no error is reported, and the old
    certificate with the old key otherwise, never one with the key of the other.  (The program
    sets the function that makes these options and never calls it.) *)
Theorem rotated_pair_whole s oldCert oldKey sCert sKey :
  oneFault fails -> pairLinked (tlsConfig o) s oldCert oldKey ->
  exists f s', atomicSetSrvCertKeyPair fails (tlsConfig o) cwd sCert sKey s = (Some f, s') /\
    identityCertificates pairOk o s' =
      (cert ← fs (world s) !! (if f then oldCert else Abs cwd sCert); key ← fs (world s) !! (if f then oldKey else Abs cwd sKey); if pairOk cert key then Some (cert, key) else None).
Proof.
  intros H1 Hp. destruct (set_pair_atomic fails (tlsConfig o) cwd s oldCert oldKey sCert sKey H1 Hp) as (f & s' & He & Hl & _ & Hf & _).
  exists f, s'. split; [done|]. unfold identityCertificates, content, resolve. rewrite Hf, Hl. pose proof (pair_diff _ _ _ _ Hp) as Hd. destruct f.
  - by rewrite (pair_cert _ _ _ _ Hp), (pair_key _ _ _ _ Hp).
  - rewrite (lookup_insert_ne _ _ (SrvCertLnk (tlsConfig o))), !lookup_insert_eq by done. done.
Qed.

End Pair.

(** Without a CA file nobody is asked for a certificate; with one, everybody is. *)
Theorem ca_file_decides fails cwd crlOk credsOk cfg s o s' : SrvAdvConfig fails cwd crlOk credsOk cfg s = (Some (Some o), s') ->
  RequireClientCert o = negb (String.eqb (CaCertFile cfg) "") /\ CertVerification o = RequireClientCert o /\ tlsConfig o = withLinkDefaults cfg.
Proof.
  unfold SrvAdvConfig. unfold mbind at 1, SM_bind at 1. destruct (checkCA _ _ _ s) as [[[]|] s1]; cbn [negb]; [|done..].
  unfold mbind at 1, SM_bind at 1. destruct (checkPair _ _ _ s1) as [[[]|] s2]; cbn [negb]; [|done..].
  case_match; [done|]. destruct credsOk; [|done]. by intros [= <- _].
Qed.

(** A client without a certificate that the CA of the moment has signed gets no connection from
    a server with a CA file. *)
Theorem unsigned_client_refused fails cwd crlOk credsOk cfg s o s' pairOk poolOk signedBy revoked client s1 :
  SrvAdvConfig fails cwd crlOk credsOk cfg s = (Some (Some o), s') -> CaCertFile cfg <> "" ->
  handshake pairOk poolOk signedBy revoked o client s1 = true ->
  exists ca c, client = Some c /\ rootCertificates poolOk o s1 = Some ca /\ signedBy ca c = true.
Proof.
  intros H Hne Hh. destruct (ca_file_decides _ _ _ _ _ _ _ _ H) as (Hr & Hv & _). unfold handshake in Hh.
  destruct (identityCertificates pairOk o s1); [|done]. rewrite Hv, Hr in Hh. destruct (String.eqb_spec (CaCertFile cfg) ""); [done|]. cbn in Hh.
  destruct (rootCertificates poolOk o s1) as [ca|]; [|done]. destruct client as [c|]; [|done]. apply andb_true_iff in Hh as [Hs _]. by exists ca, c.
Qed.

(** An error is returned exactly when a server that was started failed, or none is there. *)
Theorem serve_error_exact l tcp uds first :
  Serve l tcp uds first = None <->
  (tcpServer l = true \/ udsServer l = true) /\ (tcpServer l && tcpListener l = true -> tcp = None) /\ (udsServer l && udsListener l = true -> uds = None).
Proof. destruct l as [[] [] [] []], tcp, uds, first; cbn; intuition (try done). Qed.

(** * Instances *)

(** The links cannot be set and nobody notices: the options are made, and no connection can be
    served. *)
Theorem failed_links_unnoticed :
  let s := mkServer ∅ ∅ (mkWorld {["/c.pem" := "C"; "/k.pem" := "K"; "/keys/server_cert.lnk" := "C0"]} ∅ 0) in
  let cfg := mkConfig "" "/c.pem" "" "/k.pem" "" "" "" "" "" in
  exists o s', SrvAdvConfig (fun _ => false) "/" (fun _ => true) true cfg s = (Some (Some o), s') /\ identityCertificates (fun _ _ => true) o s' = None.
Proof. eexists _, _. split; vm_compute; reflexivity. Qed.

Lemma rotated_pair_whole_witness :
  exists f s', atomicSetSrvCertKeyPair (fun n => n =? 4) demo_cfg "/" "/keys/new.pem" "/keys/newkey.pem" demo_server = (Some f, s') /\
    identityCertificates (fun _ _ => true) (mkTls false false None demo_cfg) s' = Some ("C", "K").
Proof.
  destruct (rotated_pair_whole (fun n => n =? 4) "/" (fun _ _ => true) (mkTls false false None demo_cfg) demo_server "/keys/cert.pem" "/keys/key.pem" "/keys/new.pem" "/keys/newkey.pem") as (f & s' & E & HL).
  - intros m n Hm Hn. apply Nat.eqb_eq in Hm, Hn. congruence.
  - constructor; [discriminate|reflexivity|reflexivity|split; reflexivity|].
    intros x [->| ->]; split; [discriminate| |discriminate|]; (split; [eexists; reflexivity|reflexivity]).
  - exists f, s'. split; [exact E|]. rewrite HL. assert (f = true) as -> by (assert ((atomicSetSrvCertKeyPair (fun n => n =? 4) demo_cfg "/" "/keys/new.pem" "/keys/newkey.pem" demo_server).1 = Some true) as H by (vm_compute; reflexivity); cbn [tlsConfig] in E; rewrite E in H; by injection H). reflexivity.
Defined.
