(* ===== verification/Collector.v ===== *)
(** The two ends of dial-out telemetry: the loop that sends the values of a subscription
    (src/dialout/dialout_client/dialout_client.go: send) and the collector that stores what it
    receives (src/dialout/dialout_server/dialout_server.go).

    The streams of the collector run beside each other; a step is one operation under one of
    its locks. *)

From S2P Require Import Prelude GnmiTypes DbClient.
Import DbClient.
Open Scope go_scope.

Module Collector.

(** * Sending *)

(** What [q.Get] returns: nothing (the queue is disposed of), an error, a value, or an item of
    another type. *)
Inductive Got := GotNothing | GotError | GotValue (v : Value) | GotOther.

Inductive SendEnd := QueueDisposed | QueueError | FatalValue (msg : string) | StreamError | StillSending.

(** The counters of the subscription. *)
Record Counts := mkCounts { sendMsg : Z; errors_ : Z }.
Definition u64 (z : Z) : Z := z mod 2 ^ 64.
Definition sent (c : Counts) : Counts := mkCounts (u64 (sendMsg c + 1)) (errors_ c).
Definition wrong (c : Counts) : Counts := mkCounts (sendMsg c) (u64 (errors_ c + 1)).

(** [send]: the messages that left, the counters and the end; a message is [None] when the item
    was of another type.  [oks] tells which calls of [stream.Send] succeed. *)
Fixpoint send (gets : list Got) (oks : list bool) (c : Counts) : list (option SubscribeResponse) * Counts * SendEnd :=
  match gets with
  | [] => ([], c, StillSending)
  | GotNothing :: _ => ([], c, QueueDisposed)
  | GotError :: _ => ([], wrong c, QueueError)
  | g :: gets =>
      let put resp c :=
        match oks with
        | false :: _ => ([], wrong (sent c), StreamError)
        | _ => let '(out, c, e) := send gets (tail oks) (sent c) in (resp :: out, c, e)
        end in
      match g with
      | GotValue v => match ValToResp v with Err msg => ([], wrong c, FatalValue msg) | Ok resp => put (Some resp) c end
      | _ => put None (wrong c)
      end
  end.

(** * The collector *)

(** A stream: its address, what the other side has sent and the collector has not read, and the
    counters; it ends with a code. *)
Inductive ConnState := Running | Ended (c : Code) | Unregistered (c : Code).
Record Conn := mkConn { addr : string; pending : list SubscribeResponse; recvMsg : Z; errors : Z; st : ConnState }.

(** [clients] holds the number of a stream for each address; [dataStore] is nil when the
    messages are printed.  What is stored keeps the number of its stream. *)
Record Server := mkServer { clients : gmap string nat; conns : list Conn; dataStore : option (list (nat * SubscribeResponse)) }.

(** The beginning of [Publish]: another client of the same address is replaced; closing it
    closes channels that were never made. *)
Definition Publish (a : option string) (incoming : list SubscribeResponse) (s : Server) : res Code Server :=
  match a with
  | None => Err InvalidArgument
  | Some a => Ok (mkServer (<[a := length (conns s)]> (clients s)) (conns s ++ [mkConn a incoming 0 0 Running]) (dataStore s))
  end.

Definition withConn (i : nat) (c : Conn) (s : Server) : Server := mkServer (clients s) (<[i := c]> (conns s)) (dataStore s).

(** One message of [Run]. *)
Definition receive (i : nat) (s : Server) : option Server :=
  match conns s !! i with
  | Some (mkConn a (r :: rest) n e Running) =>
      Some (mkServer (clients s) (<[i := mkConn a rest (n + 1) e Running]> (conns s)) ((fun l => l ++ [(i, r)]) <$> dataStore s))
  | _ => None
  end.

(** The end of [Run]: the end of the stream, or its error. *)
Definition finish (i : nat) (err : option Code) (s : Server) : option Server :=
  match conns s !! i with
  | Some (mkConn a p n e Running) => Some (withConn i (mkConn a p (n + 1) (e + 1) (Ended (default Aborted err))) s)
  | _ => None
  end.

(** The end of [Publish]. *)
Definition unregister (i : nat) (s : Server) : option Server :=
  match conns s !! i with
  | Some (mkConn a p n e (Ended c)) => Some (mkServer (delete a (clients s)) (<[i := mkConn a p n e (Unregistered c)]> (conns s)) (dataStore s))
  | _ => None
  end.

Inductive step (s : Server) : Server -> Prop :=
| SPublish a incoming s' : Publish a incoming s = Ok s' -> step s s'
| SReceive i s' : receive i s = Some s' -> step s s'
| SFinish i err s' : finish i err s = Some s' -> step s s'
| SUnregister i s' : unregister i s = Some s' -> step s s'.

End Collector.

Import Collector.

(** * Theorems *)

(** What a run of [send] should have sent: the responses of the values up to the first that
    has none. *)
Fixpoint responses (vs : list Value) : list SubscribeResponse :=
  match vs with [] => [] | v :: vs => match ValToResp v with Ok r => r :: responses vs | Err _ => [] end end.

Lemma send_values vs : forall c, exists c' e, send ((GotValue <$> vs) ++ [GotNothing]) (replicate (length vs) true) c = (Some <$> responses vs, c', e).
Proof.
  induction vs as [|v vs IH]; intros c; cbn; [by eexists _, _|]. destruct (ValToResp v) as [r|msg]; [|by eexists _, _].
  destruct (IH (sent c)) as (c' & e & He). cbn in He. rewrite He. by eexists _, _.
Qed.

(** The messages of one stream in the store. *)
Definition storedOf (i : nat) (l : list (nat * SubscribeResponse)) : list SubscribeResponse := (base.filter (fun x => x.1 = i) l).*2.

Definition Started (s : Server) : Prop := clients s = ∅ /\ conns s = [] /\ dataStore s = Some [].

(** A history of what the streams were given. *)
Definition Kept (given : list (list SubscribeResponse)) (s : Server) : Prop :=
  length given = length (conns s) /\
  exists l, dataStore s = Some l /\ (forall i r, (i, r) ∈ l -> i < length (conns s)) /\
    forall i c g, conns s !! i = Some c -> given !! i = Some g -> g = storedOf i l ++ pending c.

Lemma storedOf_app i l l' : storedOf i (l ++ l') = storedOf i l ++ storedOf i l'.
Proof. unfold storedOf. by rewrite filter_app, fmap_app. Qed.

Lemma storedOf_one i j r : storedOf i [(j, r)] = if decide (i = j) then [r] else [].
Proof. unfold storedOf. rewrite filter_cons, filter_nil. cbn [fst]. case_decide; case_decide; try congruence; done. Qed.

Lemma storedOf_new l n : (forall i r, (i, r) ∈ l -> i < n) -> storedOf n l = [].
Proof.
  intros H. unfold storedOf. induction l as [|[j r] l IH]; [done|]. rewrite filter_cons. cbn. rewrite decide_False.
  - apply IH. intros i' r' Hin. apply (H i' r'). by right.
  - intros ->. specialize (H n r ltac:(by left)). lia.
Qed.

Lemma kept_conn given s i c c' : Kept given s -> conns s !! i = Some c -> pending c' = pending c -> Kept given (mkServer (clients s) (<[i := c']> (conns s)) (dataStore s)).
Proof.
  intros (Hlen & l & Hd & Hi & Hk) Hc Hp. split; [cbn; by rewrite length_insert|]. exists l. cbn. split_and!; [done|by rewrite length_insert|].
  intros j d g Hj Hg. destruct (decide (i = j)) as [<-|Hne]; [|rewrite list_lookup_insert_ne in Hj by done; by apply (Hk j)].
  rewrite list_lookup_insert_eq in Hj by (by eapply lookup_lt_Some). simplify_eq. rewrite Hp. by apply (Hk i).
Qed.

Lemma kept_step given s s' : Kept given s -> step s s' -> exists more, Kept (given ++ more) s'.
Proof.
  intros HK H. destruct H as [a incoming s' H|i s' H|i err s' H|i s' H].
  - destruct a as [a|]; [|done]. injection H as <-. exists [incoming]. destruct HK as (Hlen & l & Hd & Hi & Hk). split; [cbn; rewrite !length_app; cbn; lia|].
    exists l. cbn. split_and!; [done|intros i r Hin; rewrite length_app; cbn; specialize (Hi i r Hin); lia|].
    intros i c g Hc Hg. apply lookup_app_Some in Hc as [Hc|[Hle Hc]]; [rewrite lookup_app_l in Hg by (rewrite Hlen; by eapply lookup_lt_Some); by apply (Hk i)|].
    apply list_lookup_singleton_Some in Hc as [Hz <-]. assert (i = length (conns s)) as -> by lia. rewrite lookup_app_r, Hlen, Nat.sub_diag in Hg by lia.
    cbn in Hg. simplify_eq. cbn. by rewrite storedOf_new.
  - exists []. rewrite app_nil_r. unfold receive in H. destruct (conns s !! i) as [[a [|r rest] n e []]|] eqn:Hc; try done. injection H as <-.
    destruct HK as (Hlen & l & Hd & Hi & Hk). split; [cbn; by rewrite length_insert|]. exists (l ++ [(i, r)]). cbn. rewrite Hd. split_and!; [done| |].
    + intros j r' [Hin|[= -> ->]%list_elem_of_singleton]%elem_of_app; rewrite length_insert; [by eapply Hi|by eapply lookup_lt_Some].
    + intros j d g Hj Hg. rewrite storedOf_app, storedOf_one, <- app_assoc. destruct (decide (i = j)) as [<-|Hne].
      * rewrite list_lookup_insert_eq in Hj by (by eapply lookup_lt_Some). simplify_eq. rewrite decide_True by done. cbn. by apply (Hk i _ g Hc).
      * rewrite list_lookup_insert_ne in Hj by done. rewrite decide_False by done. by apply (Hk j).
  - exists []. rewrite app_nil_r. unfold finish in H. destruct (conns s !! i) as [[a p n e []]|] eqn:Hc; try done. injection H as <-. by eapply kept_conn.
  - exists []. rewrite app_nil_r. unfold unregister in H. destruct (conns s !! i) as [[a p n e []]|] eqn:Hc; try done. injection H as <-.
    pose proof (kept_conn given s i _ (mkConn a p n e (Unregistered c)) HK Hc eq_refl) as (Hlen & l & Hd & Hi & Hk). split; [done|]. by exists l.
Qed.

Lemma kept_steps given s s' : rtc step s s' -> Kept given s -> exists more, Kept (given ++ more) s'.
Proof.
  intros H. revert given. induction H as [s|s s1 s' H1 _ IH]; intros given HK; [exists []; by rewrite app_nil_r|].
  destruct (kept_step given s s1 HK H1) as (more & HK1). destruct (IH _ HK1) as (more' & HK'). exists (more ++ more'). by rewrite app_assoc.
Qed.

(** Whatever the interleaving of the streams, the store holds what was received of each of them
    completely and in order; with a sender on the other side these are the responses of its
    values, in the order of its queue. *)
Theorem collector_keeps_order s0 s1 s2 s a vs :
  Started s0 -> rtc step s0 s1 -> Publish (Some a) (responses vs) s1 = Ok s2 -> rtc step s2 s ->
  (forall c, exists c' e, send ((GotValue <$> vs) ++ [GotNothing]) (replicate (length vs) true) c = (Some <$> responses vs, c', e)) /\
  exists l d, dataStore s = Some l /\ conns s !! length (conns s1) = Some d /\ storedOf (length (conns s1)) l ++ pending d = responses vs.
Proof.
  intros (_ & Hc0 & Hd0) H1 H2 H. split; [apply send_values|]. destruct (kept_steps [] s0 s1 H1) as (g1 & HK1).
  { split; [by rewrite Hc0|]. exists []. split_and!; [done|by intros i r ?%elem_of_nil|]. by rewrite Hc0. }
  cbn [app] in HK1. destruct (kept_step g1 s1 s2 HK1 (SPublish s1 _ _ _ H2)) as (m2 & HK2). injection H2 as <-.
  destruct (kept_steps _ _ s H HK2) as (more & Hlen & l & Hd & Hi & Hk). destruct HK1 as (Hlen1 & _), HK2 as (Hlen2 & l2 & Hd2 & Hi2 & Hk2).
  cbn in Hlen2. rewrite !length_app, Hlen1 in Hlen2. cbn in Hlen2. destruct m2 as [|g [|]]; cbn in Hlen2; try lia.
  assert (g = responses vs) as ->.
  { specialize (Hk2 (length (conns s1)) (mkConn a (responses vs) 0 0 Running) g). cbn in Hk2. rewrite (Hk2 ltac:(by rewrite lookup_app_r, Nat.sub_diag by lia) ltac:(by rewrite lookup_app_r, Hlen1, Nat.sub_diag by lia)).
    cbn in Hd2. assert (storedOf (length (conns s1)) l2 = []) as ->; [|done]. destruct (kept_steps [] s0 s1 H1) as (g1' & _ & l1 & Hd1 & Hi1 & _).
    { split; [by rewrite Hc0|]. exists []. split_and!; [done|by intros i r ?%elem_of_nil|]. by rewrite Hc0. }
    rewrite Hd1 in Hd2. simplify_eq. by apply storedOf_new. }
  assert (length (conns s1) < length (conns s)) as Hlt by (rewrite <- Hlen, !length_app, Hlen1; cbn; lia). apply lookup_lt_is_Some in Hlt as [d Hdc].
  exists l, d. split_and!; [done..|]. symmetry. apply (Hk _ d _ Hdc). rewrite <- app_assoc, lookup_app_r, Hlen1, Nat.sub_diag by lia. done.
Qed.

(** The entry of an address belongs to its newest stream; an older one that ends deletes it. *)
Theorem newer_client_deleted :
  let s0 := mkServer ∅ [] None in
  exists s1 s2 s3 s4, Publish (Some "a") [] s0 = Ok s1 /\ Publish (Some "a") [] s1 = Ok s2 /\ finish 0 None s2 = Some s3 /\ unregister 0 s3 = Some s4 /\
    clients s4 !! "a" = None /\ (st <$> conns s4 !! 1) = Some Running.
Proof. eexists _, _, _, _. split_and!; reflexivity. Qed.

(** An item of another type is sent as an empty message and counted twice. *)
Theorem unknown_item_sent c : send [GotOther; GotNothing] [true] c = ([None], sent (wrong c), QueueDisposed).
Proof. done. Qed.

Lemma collector_demo : exists l d s,
  let vs := [mkValue None None 1 true "" None [] None] in
  let s0 := mkServer ∅ [] (Some []) in
  (s1 ← match Publish (Some "a") (responses vs) s0 with Ok s1 => Some s1 | Err _ => None end; receive 0 s1) = Some s /\
  dataStore s = Some l /\ conns s !! 0 = Some d /\ storedOf 0 l ++ pending d = responses vs.
Proof. eexists _, _, _. split_and!; reflexivity. Qed.
