(* ===== verification/GnoiClient.v ===== *)
(** The command line client of the gNOI services (src/gnoi_client): the choice of the
    command, the unary calls, file transfers, image installation, packages, containers and
    health paths.

    The remote side is a parameter: what a call answers, or the messages that arrive on a
    stream.  The local file of a download lives in the file system of FileService, whose
    calls may fail.  [json.Unmarshal] is a function from the text and the message to fill
    to what the message then holds and whether there was no error.  Of the printed text
    only the answers are kept. *)

From S2P Require Import Prelude GnmiTypes Filepath FileService OsService GnoiSystem GnoiServices Operational.
Import Filepath FileService.FileService.
Open Scope go_scope.

Module GnoiClient.

(** How a command ends: it returns, the program exits with status 1, or it panics. *)
Inductive Exit := Finished | ExitOne | Panicked.

#[global] Instance Exit_eq_dec : EqDecision Exit.
Proof. solve_decision. Defined.

(** The metadata of an outgoing call. *)
Definition Metadata : Type := list (string * string).

Definition SetUserCreds (JwtToken : string) (ctx : Metadata) : Metadata :=
  if String.eqb JwtToken "" then ctx else ctx ++ [("access_token", JwtToken)].

(** * The choice of the command *)

Inductive Command :=
| SystemTime | SystemReboot | SystemCancelReboot | SystemRebootStatus | SystemKillProcess | SystemSetPackage
| FileStat | FileGet | FilePut | FileRemove | FileTransferToRemote
| OSVerify | OSActivate | OSInstall
| FactoryResetStart
| HealthzGet | HealthzArtifact | HealthzAcknowledge | HealthzList | HealthzCheck
| SonicShowTechSupport | SonicCopyConfig | SonicAuthenticate | SonicImageInstall | SonicImageDefault | SonicImageRemove
| SonicRefresh | SonicClearNeighbors
| ContainerzDeploy.

#[global] Instance Command_eq_dec : EqDecision Command.
Proof. solve_decision. Defined.

(** A switch over strings: the first case that is equal. *)
Fixpoint switch {A} (cases : list (string * A)) (s : string) : option A :=
  match cases with
  | [] => None
  | (c, a) :: cases => if String.eqb s c then Some a else switch cases s
  end.

Definition modules : list (string * list (string * Command)) :=
  [("System", [("Time", SystemTime); ("Reboot", SystemReboot); ("CancelReboot", SystemCancelReboot);
               ("RebootStatus", SystemRebootStatus); ("KillProcess", SystemKillProcess); ("SetPackage", SystemSetPackage)]);
   ("File", [("Stat", FileStat); ("Get", FileGet); ("Put", FilePut); ("Remove", FileRemove); ("TransferToRemote", FileTransferToRemote)]);
   ("OS", [("Verify", OSVerify); ("Activate", OSActivate); ("Install", OSInstall)]);
   ("FactoryReset", [("Start", FactoryResetStart)]);
   ("Healthz", [("Get", HealthzGet); ("Artifact", HealthzArtifact); ("Acknowledge", HealthzAcknowledge); ("List", HealthzList); ("Check", HealthzCheck)]);
   ("Sonic", [("showtechsupport", SonicShowTechSupport); ("copyConfig", SonicCopyConfig); ("authenticate", SonicAuthenticate);
              ("imageInstall", SonicImageInstall); ("imageDefault", SonicImageDefault); ("imageRemove", SonicImageRemove);
              ("refresh", SonicRefresh); ("clearNeighbors", SonicClearNeighbors)]);
   ("Containerz", [("Deploy", ContainerzDeploy)])].

(** The two switches of [main]; [None] is a panic. *)
Definition main (Module_ Rpc : string) : option Command :=
  match switch modules Module_ with
  | Some rpcs => switch rpcs Rpc
  | None => None
  end.

(** * Unary calls *)

Section Unary.
Context {Req Resp : Type}.
Variable unmarshal : string -> Req -> Req * bool.
(** [json.Marshal] of the answer; [None] where it fails. *)
Variable marshal : Resp -> option string.
(** The remote side; [None] is an error. *)
Variable rpc : Metadata -> Req -> option Resp.
Variable JwtToken Args : string.

(** What a command did: how it ended, the calls it made, what it printed. *)
Definition Unary : Type := Exit * list (Metadata * Req) * option string.

(** The call; an error ends the program as [bad] says, and so does an answer that cannot
    be printed. *)
Definition callAndPrint (bad : Exit) (req : Req) : Unary :=
  let ctx := SetUserCreds JwtToken [] in
  match rpc ctx req with
  | None => (bad, [(ctx, req)], None)
  | Some resp =>
      match marshal resp with
      | None => (bad, [(ctx, req)], None)
      | Some respstr => (Finished, [(ctx, req)], Some respstr)
      end
  end.

(** The same for a call whose answer is not printed. *)
Definition callOnly (bad : Exit) (req : Req) : Unary :=
  let ctx := SetUserCreds JwtToken [] in
  (match rpc ctx req with None => bad | Some _ => Finished end, [(ctx, req)], None).

(** The arguments are parsed, and an error ends the program. *)
Definition parsed (bad : Exit) (empty : Req) (k : Req -> Unary) : Unary :=
  let '(req, ok) := unmarshal Args empty in
  if ok then k req else (bad, [], None).

(** The arguments are parsed, and an error is ignored. *)
Definition parsedAnyhow (empty : Req) (k : Req -> Unary) : Unary := k (unmarshal Args empty).1.

Variable empty : Req.

Definition Time : Unary := callAndPrint Panicked empty.
Definition RebootStatus : Unary := callAndPrint Panicked empty.
Definition Verify : Unary := callAndPrint Panicked empty.

Definition Reboot : Unary := parsedAnyhow empty (callOnly Panicked).
Definition CancelReboot : Unary := parsedAnyhow empty (callAndPrint Panicked).
Definition KillProcess : Unary := parsed Panicked empty (callOnly Panicked).
Definition Activate : Unary := parsed Panicked empty (callAndPrint Panicked).
Definition StartFactoryReset : Unary :=
  if String.eqb Args "" then (Panicked, [], None) else parsed Panicked empty (callAndPrint Panicked).

Definition Stat : Unary := parsed ExitOne empty (callAndPrint ExitOne).
Definition Remove : Unary := parsed ExitOne empty (callAndPrint ExitOne).
Definition TransferToRemote : Unary := parsed ExitOne empty (callAndPrint ExitOne).

(** The messages of the Sonic services start with an empty input, which [empty] holds. *)
Definition ShowTechSupport : Unary := parsedAnyhow empty (callAndPrint Panicked).
Definition CopyConfig : Unary := parsedAnyhow empty (callAndPrint Panicked).
Definition ImageInstall : Unary := parsedAnyhow empty (callAndPrint Panicked).
Definition ImageRemove : Unary := parsedAnyhow empty (callAndPrint Panicked).
Definition ImageDefault : Unary := parsedAnyhow empty (callAndPrint Panicked).
Definition ClearNeighbors : Unary := parsedAnyhow empty (callAndPrint Panicked).
Definition Authenticate : Unary := parsedAnyhow empty (callAndPrint Panicked).
Definition Refresh : Unary := parsedAnyhow empty (callAndPrint Panicked).
End Unary.

(** * Files *)

Module File.

(** What [Recv] returns: a message of one of the two kinds or another, the end, an error. *)
Inductive GetEvent := Got (r : GetResponse) | GotUnknown | GotEOF | GotErr.

Section Get.
Variable fails : nat -> bool.
Variable torn : nat -> nat.

(** After the events the stream is at its end. *)
Fixpoint getChunks (outputPath : string) (stream : list GetEvent) : IO Exit :=
  match stream with
  | [] | GotEOF :: _ => mret Finished
  | GotErr :: _ => mret ExitOne
  | Got (GetContents contents) :: stream =>
      ok ← writeFile fails torn outputPath contents;
      if negb ok then mret ExitOne else getChunks outputPath stream
  | Got (GetHash _) :: stream | GotUnknown :: stream => getChunks outputPath stream
  end.

Definition outputPathOf (OutputFile remoteFile : string) : string :=
  if String.eqb OutputFile "" then Join ["/tmp"; Operational.Base remoteFile] else OutputFile.

(** [parse]: the remote file of the arguments, if they can be parsed.  [startOk]: the stream
    is made.  [os.Exit] does not run the deferred [Close]. *)
Definition Get (parse : string -> option string) (Args OutputFile : string) (startOk : bool) (stream : list GetEvent) : IO Exit :=
  match parse Args with
  | None => mret ExitOne
  | Some remoteFile =>
      if negb startOk then mret ExitOne
      else
        let outputPath := outputPathOf OutputFile remoteFile in
        ok ← createFile fails outputPath;
        if negb ok then mret ExitOne
        else
          r ← getChunks outputPath stream;
          match r with
          | Finished => _ ← closeFile fails; mret Finished
          | _ => mret r
          end
  end.
End Get.

Section Put.
Variable sha256 : string -> string.
(** The [k]-th message is taken by the stream. *)
Variable sendOk : nat -> bool.

(** The loop over the local file, with what each [Read] returns; after them it is at its
    end.  The hasher is not used afterwards. *)
Fixpoint putChunks (k : nat) (reads : list (string * ReadEnd)) : bool * nat * list PutRequest :=
  match reads with
  | [] => (true, k, [])
  | (chunk, e) :: reads =>
      match e with
      | ReadFailed => (false, k, [])
      | NoEnd | AtEOF =>
          if String.eqb chunk "" then (true, k, [])
          else if sendOk k then
            let '(ok, k', sent) := putChunks (S k) reads in (ok, k', PutContents chunk :: sent)
          else (false, k, [])
      end
  end.

(** [parse]: the remote file and the permissions of the arguments.  [opened]: the reads of
    the local file, if it can be opened.  [closed]: the answer after the stream is closed. *)
Definition Put (parse : string -> option (string * N)) (Args InputFile : string) (opened : option (list (string * ReadEnd)))
    (startOk closed : bool) : Exit * list PutRequest :=
  match parse Args with
  | None => (ExitOne, [])
  | Some (remoteFile, permissions) =>
      if String.eqb InputFile "" then (ExitOne, [])
      else
        match opened with
        | None => (ExitOne, [])
        | Some reads =>
            if negb startOk then (ExitOne, [])
            else if negb (sendOk 0) then (ExitOne, [])
            else
              let open := PutOpen remoteFile permissions in
              let '(ok, k, sent) := putChunks 1 reads in
              if negb ok then (ExitOne, open :: sent)
              else
                let hasher := "" in
                let fileHash := sha256 hasher in
                if negb (sendOk k) then (ExitOne, open :: sent)
                else (if closed then Finished else ExitOne, open :: sent ++ [PutHash fileHash])
        end
  end.
End Put.
End File.

(** * Image installation *)

Module OS.
Import OsService.OsService.

(** What [Recv] returns. *)
Inductive RespEvent := Resp (r : InstallResponse) | RespEOF | RespErr.

(** How the wait for the first answers ends. *)
Inductive WaitEnd := AlreadyValid | WaitFailed | Ready (rest : list RespEvent).

Section Install.
(** [json.Marshal] of an answer does not fail. *)
Variable marshalOk : InstallResponse -> bool.
Variable sendOk : nat -> bool.

(** The loop of step 2; without a further event the stream is at its end, which is an error
    here. *)
Fixpoint waitLoop (stream : list RespEvent) : WaitEnd :=
  match stream with
  | [] | RespEOF :: _ | RespErr :: _ => WaitFailed
  | Resp r :: stream =>
      if negb (marshalOk r) then WaitFailed
      else
        match r with
        | Validated _ => AlreadyValid
        | TransferReady => Ready stream
        | InstallError _ => WaitFailed
        | TransferProgress _ | OtherResponse => waitLoop stream
        end
  end.

(** The loop of step 3.  The error of a read that gave bytes is overwritten by that of the
    send. *)
Fixpoint sendImage (k : nat) (reads : list (string * ReadEnd)) : bool * nat * list InstallRequest :=
  match reads with
  | [] => (true, k, [])
  | (chunk, e) :: reads =>
      if String.eqb chunk "" then
        match e with
        | AtEOF => (true, k, [])
        | ReadFailed => (false, k, [])
        | NoEnd => sendImage k reads
        end
      else if sendOk k then
        let '(ok, k', sent) := sendImage (S k) reads in (ok, k', TransferContent chunk :: sent)
      else (false, k, [])
  end.

(** The loop of step 5. *)
Fixpoint finalLoop (stream : list RespEvent) : Exit :=
  match stream with
  | [] | RespEOF :: _ => Finished
  | RespErr :: _ => ExitOne
  | Resp (Validated _) :: _ => Finished
  | Resp (InstallError _) :: _ => ExitOne
  | Resp _ :: stream => finalLoop stream
  end.

(** [parse]: the transfer request of the arguments: [None] where the text is no JSON,
    [Some None] where there is no such field. *)
Definition Install (parse : string -> option (option string)) (Args InputFile : string) (startOk : bool)
    (opened : option (list (string * ReadEnd))) (stream : list RespEvent) : Exit * list InstallRequest :=
  match parse Args with
  | None | Some None => (ExitOne, [])
  | Some (Some version) =>
      if String.eqb InputFile "" then (ExitOne, [])
      else if negb startOk then (ExitOne, [])
      else if negb (sendOk 0) then (ExitOne, [])
      else
        let first := TransferRequest version in
        match waitLoop stream with
        | AlreadyValid => (Finished, [first])
        | WaitFailed => (ExitOne, [first])
        | Ready rest =>
            match opened with
            | None => (ExitOne, [first])
            | Some reads =>
                let '(ok, k, sent) := sendImage 1 reads in
                if negb ok then (ExitOne, first :: sent)
                else if negb (sendOk k) then (ExitOne, first :: sent)
                else (finalLoop rest, first :: sent ++ [TransferEnd])
            end
        end
  end.
End Install.
End OS.

(** * Packages *)

Module SetPackage.
Import GnoiSystem.GnoiSystem.

Record Flags := mkFlags { package_filename : string; package_version : string; package_url : string; package_activate : bool }.

Inductive FlagErr := MissingFilename | MissingVersion | MissingUrl | NotActivated.

Definition validateFlags (f : Flags) : option FlagErr :=
  if String.eqb (package_filename f) "" then Some MissingFilename
  else if String.eqb (package_version f) "" then Some MissingVersion
  else if String.eqb (package_url f) "" then Some MissingUrl
  else if negb (package_activate f) then Some NotActivated
  else None.

(** The message that is sent: a package with a remote download. *)
Definition packageRequest (f : Flags) : SetPackageRequest :=
  PackageRequest (mkPackage (package_filename f) (package_version f) (package_activate f) true).

Inductive ClientErr := NoStream | SendFailed | CloseFailed | ResponseFailed.

(** [stream]: the stream is made; [send], [close]: the calls on it succeed; [recv]: what the
    server answers to the message. *)
Definition setPackageClient (f : Flags) (stream send close : bool) (recv : SetPackageRequest -> bool)
    : option ClientErr * list SetPackageRequest :=
  if negb stream then (Some NoStream, [])
  else if negb send then (Some SendFailed, [])
  else
    let req := packageRequest f in
    if negb close then (Some CloseFailed, [req])
    else if recv req then (None, [req]) else (Some ResponseFailed, [req]).

(** [SetPackage] prints an error and returns. *)
Definition SetPackage (f : Flags) (stream send close : bool) (recv : SetPackageRequest -> bool)
    : option (FlagErr + ClientErr) * list SetPackageRequest :=
  match validateFlags f with
  | Some e => (Some (inl e), [])
  | None =>
      let '(e, sent) := setPackageClient f stream send close recv in
      (inr <$> e, sent)
  end.
End SetPackage.

(** * Containers *)

Module Containerz.
Import GnoiServices.Containerz.

Record DeployArgs := mkArgs { Name : string; Tag : string; Path_ : string; Username : string; Password : string }.

Inductive ArgErr := MissingName | MissingTag | MissingPath | MissingUsername | MissingPassword.

Definition validateDeployArgs (args : DeployArgs) : option ArgErr :=
  if String.eqb (Name args) "" then Some MissingName
  else if String.eqb (Tag args) "" then Some MissingTag
  else if String.eqb (Path_ args) "" then Some MissingPath
  else if String.eqb (Username args) "" then Some MissingUsername
  else if String.eqb (Password args) "" then Some MissingPassword
  else None.

Inductive DeployResponse := ImageTransferReady | ImageTransferProgress | ImageTransferSuccess | ImageTransferError | UnknownResponse.

(** How the command ends: an error before the request was sent; then the loop over the
    answers ends with one of the last three. *)
Inductive DeployEnd := BadJson | BadArgs (e : ArgErr) | NoStream | NotSent | StreamEnded | Succeeded | Failed_.

(** The answers; after them [Recv] fails. *)
Fixpoint recvLoop (resps : list DeployResponse) : DeployEnd :=
  match resps with
  | [] => StreamEnded
  | ImageTransferSuccess :: _ => Succeeded
  | ImageTransferError :: _ => Failed_
  | _ :: resps => recvLoop resps
  end.

Definition deployRequest (args : DeployArgs) : DeployRequest :=
  ImageTransferRequest (mkImage (Name args) (Tag args) (Some (mkRemote (Path_ args) "SFTP" (Username args) (Password args)))).

Definition Deploy (parse : string -> option DeployArgs) (Args : string) (stream send : bool) (resps : list DeployResponse)
    : DeployEnd * list DeployRequest :=
  match parse Args with
  | None => (BadJson, [])
  | Some args =>
      match validateDeployArgs args with
      | Some e => (BadArgs e, [])
      | None =>
          if negb stream then (NoStream, [])
          else if negb send then (NotSent, [])
          else (recvLoop resps, [deployRequest args])
      end
  end.
End Containerz.

(** * Health *)

Module Healthz.

Definition slash : Ascii.ascii := Ascii.ascii_of_nat 47.
Definition lbracket : Ascii.ascii := Ascii.ascii_of_nat 91.
Definition rbracket : Ascii.ascii := Ascii.ascii_of_nat 93.
Definition equals : Ascii.ascii := Ascii.ascii_of_nat 61.
Definition lf : Ascii.ascii := Ascii.ascii_of_nat 10.

(** What is before and after the last occurrence of a byte. *)
Definition cutLast (c : Ascii.ascii) (s : string) : option (string * string) :=
  match last_index s c with
  | Some i => Some (strtake i s, strdrop (S i) s)
  | None => None
  end.

(** The expression [keyRe] in one line: three groups of any bytes, the first followed by an
    opening bracket, the second by an equals sign, the third by a closing bracket.  The
    groups are greedy, the first ones first, so the closing bracket is the last one, the
    equals sign the last one before it, and the opening bracket the last before that. *)
Definition matchLine (line : string) : option (string * string * string) :=
  match cutLast rbracket line with
  | None => None
  | Some (s, _) =>
      match cutLast equals s with
      | None => None
      | Some (s, value) =>
          match cutLast lbracket s with
          | None => None
          | Some (name, key) => Some (name, key, value)
          end
      end
  end.

(** [.] does not match a line feed, so a match lies in one line; the first is found. *)
Fixpoint matchLines (lines : list string) : option (string * string * string) :=
  match lines with
  | [] => None
  | line :: lines => match matchLine line with Some m => Some m | None => matchLines lines end
  end.

Definition FindStringSubmatch (p : string) : option (string * string * string) := matchLines (str_split p (String lf "")).

Definition isQuote (c : Ascii.ascii) : bool := let n := Ascii.nat_of_ascii c in (n =? 34) || (n =? 39).

Definition parsePart (p : string) : PathElem :=
  match FindStringSubmatch p with
  | Some (name, key, value) => mkElem name {[key := str_trim_func isQuote value]}
  | None => mkElem p ∅
  end.

Definition parsePath (pathStr : string) : list PathElem :=
  let parts := str_split (trim_prefix pathStr "/") "/" in
  parsePart <$> List.filter (fun p => negb (String.eqb p "")) parts.

Definition pathToString (p : option (list PathElem)) : string :=
  match p with
  | None => "<nil>"
  | Some elems => fold_left (fun s e => s +:+ "/" +:+ elem_name e) elems ""
  end.

Section Calls.
Context {Resp : Type}.
Variable JwtToken : string.

(** A call with the request that [make] builds of the parsed arguments; [implemented]: an
    error that the method is not implemented is not an error of the command. *)
Definition call {I Req} (input : option I) (make : I -> Req) (rpc : Metadata -> Req -> res Code Resp) (tolerant : bool)
    : Exit * list (Metadata * Req) * option Resp :=
  match input with
  | None => (ExitOne, [], None)
  | Some i =>
      let ctx := SetUserCreds JwtToken [] in
      let req := make i in
      match rpc ctx req with
      | Ok resp => (Finished, [(ctx, req)], Some resp)
      | Err e => (if tolerant && bool_decide (e = Unimplemented) then Finished else ExitOne, [(ctx, req)], None)
      end
  end.

Variable Args : string.

Definition Get (parse : string -> option string) (rpc : Metadata -> list PathElem -> res Code Resp) :=
  call (parse Args) parsePath rpc false.

Definition Acknowledge (parse : string -> option (string * string)) (rpc : Metadata -> list PathElem * string -> res Code Resp) :=
  call (parse Args) (fun '(path, id) => (parsePath path, id)) rpc false.

Definition List (parse : string -> option (string * bool)) (rpc : Metadata -> list PathElem * bool -> res Code Resp) :=
  call (parse Args) (fun '(path, acknowledged) => (parsePath path, acknowledged)) rpc true.

Definition Check (parse : string -> option (string * string)) (rpc : Metadata -> list PathElem * string -> res Code Resp) :=
  call (parse Args) (fun '(path, event) => (parsePath path, event)) rpc true.
End Calls.

(** What arrives on the stream of an artifact. *)
Inductive ArtifactEvent := AMsg (r : GnoiServices.Healthz.ArtifactResponse) | AOther | AErr.

(** The loop of [Artifact]: how it ends and the number of bytes; after the events the stream
    is at its end. *)
Fixpoint artifactLoop (total : nat) (stream : list ArtifactEvent) : Exit * nat :=
  match stream with
  | [] => (Finished, total)
  | AErr :: _ => (ExitOne, total)
  | AMsg (GnoiServices.Healthz.RBytes data) :: stream => artifactLoop (total + String.length data) stream
  | AMsg _ :: stream | AOther :: stream => artifactLoop total stream
  end.

Definition Artifact (startOk : bool) (stream : list ArtifactEvent) : Exit * nat :=
  if startOk then artifactLoop 0 stream else (ExitOne, 0).
End Healthz.

End GnoiClient.
