(* ===== verification/GnoiClientProofs.v ===== *)
(** The gNOI client against the services it talks to: which command is run and with what
    request, files sent and received, image installation, packages, health paths. *)

From S2P Require Import Prelude GnmiTypes Filepath FileService FileServiceProofs OsService GnoiSystem GnoiServices GnoiServicesProofs Operational DbClientProofs GnoiClient.
Import Filepath FileService.FileService GnoiClient.
Open Scope go_scope.

(** * The choice of the command *)

(** The names under which a command is run. *)
Definition namesOf (c : Command) : string * string :=
  match List.find (fun '(_, _, c') => bool_decide (c = c')) (flat_map (fun '(m, rpcs) => (fun '(r, c) => (m, r, c)) <$> rpcs) modules) with
  | Some (m, r, _) => (m, r)
  | None => ("", "")
  end.

Lemma switch_In {A} (cases : list (string * A)) s a : switch cases s = Some a -> (s, a) ∈ cases.
Proof.
  induction cases as [|[c b] cases IH]; [done|]. cbn [switch]. destruct (String.eqb_spec s c) as [->|]; [intros [= ->]|intros H%IH];
    rewrite elem_of_cons; auto.
Qed.

(** A module and an RPC select a command exactly when they are its names. *)
Theorem main_exact m r c : main m r = Some c <-> namesOf c = (m, r).
Proof.
  split.
  - unfold main. destruct (switch modules m) as [rpcs|] eqn:Em; [|done]. intros Hc%switch_In. apply switch_In in Em.
    apply list_elem_of_In in Em. apply list_elem_of_In in Hc. cbn [modules List.In] in Em.
    repeat (destruct Em as [[= <- <-]|Em]; [cbn [List.In] in Hc; repeat (destruct Hc as [[= <- <-]|Hc]; [reflexivity|]); done|]). done.
  - destruct c; vm_compute; by intros [= <- <-].
Qed.

(** * Unary calls *)

Section Unary.
Context {Req Resp : Type}.
Variable unmarshal : string -> Req -> Req * bool.
Variable marshal : Resp -> option string.
Variable rpc : Metadata -> Req -> option Resp.
Variable token Args : string.
Variable empty : Req.

(** The calls of a command. *)
Definition callsOf (u : @Unary Req) : list (Metadata * Req) := u.1.2.

(** A command that parses its arguments with care makes its one call for arguments that
    could be parsed, with the token of the user; else it makes none and fails. *)
Definition careful (u : @Unary Req) : Prop :=
  match unmarshal Args empty with
  | (req, true) => callsOf u = [(SetUserCreds token [], req)]
  | (_, false) => callsOf u = [] /\ u.1.1 <> Finished
  end.

Lemma callAndPrint_calls bad req : callsOf (callAndPrint marshal rpc token bad req) = [(SetUserCreds token [], req)].
Proof. unfold callAndPrint. destruct (rpc _ _) as [resp|]; [|done]. by destruct (marshal resp). Qed.

Lemma parsed_careful bad k :
  bad <> Finished -> (forall req, callsOf (k req) = [(SetUserCreds token [], req)]) -> careful (parsed unmarshal Args bad empty k).
Proof. intros Hb Hk. unfold careful, parsed. destruct (unmarshal Args empty) as [req []]; [apply Hk|by split]. Qed.

Theorem careful_commands :
  careful (KillProcess unmarshal rpc token Args empty) /\ careful (Activate unmarshal marshal rpc token Args empty) /\
  careful (Stat unmarshal marshal rpc token Args empty) /\ careful (Remove unmarshal marshal rpc token Args empty) /\
  careful (TransferToRemote unmarshal marshal rpc token Args empty) /\
  (Args <> "" -> careful (StartFactoryReset unmarshal marshal rpc token Args empty)).
Proof.
  split_and!; try (apply parsed_careful; [done|]; intros; apply callAndPrint_calls || done).
  intros Hne. unfold StartFactoryReset. apply String.eqb_neq in Hne as ->.
  apply parsed_careful; [done|]. intros. apply callAndPrint_calls.
Qed.

(** The other commands send their request whatever became of the arguments: a text that
    is no JSON leaves the request empty, and it is sent. *)
Theorem malformed_arguments_sent :
  unmarshal Args empty = (empty, false) ->
  Forall (fun u => callsOf u = [(SetUserCreds token [], empty)])
    [Reboot unmarshal rpc token Args empty; CancelReboot unmarshal marshal rpc token Args empty;
     ClearNeighbors unmarshal marshal rpc token Args empty; CopyConfig unmarshal marshal rpc token Args empty;
     ImageInstall unmarshal marshal rpc token Args empty; ImageRemove unmarshal marshal rpc token Args empty;
     ImageDefault unmarshal marshal rpc token Args empty; ShowTechSupport unmarshal marshal rpc token Args empty;
     Authenticate unmarshal marshal rpc token Args empty; Refresh unmarshal marshal rpc token Args empty].
Proof.
  intros E. repeat constructor;
    unfold Reboot, CancelReboot, ClearNeighbors, CopyConfig, ImageInstall, ImageRemove, ImageDefault, ShowTechSupport,
      Authenticate, Refresh, parsedAnyhow; rewrite E; [done|..]; apply callAndPrint_calls.
Qed.

End Unary.

(** * Files *)

(** A local file as the reads of [Put] see it: pieces that are not empty, then its end. *)
Definition wholeReads (chunks : list string) : list (string * ReadEnd) := ((fun d => (d, NoEnd)) <$> chunks) ++ [("", AtEOF)].

Definition nonEmpty (chunks : list string) : Prop := Forall (fun d => d <> "") chunks.

Section Put.
Variable sha256 md5 : string -> string.

Lemma putChunks_whole k chunks :
  nonEmpty chunks -> File.putChunks (fun _ => true) k (wholeReads chunks) = (true, k + length chunks, PutContents <$> chunks).
Proof.
  intros Hc. revert k. induction Hc as [|d chunks Hd Hc IH]; intros k; [cbn; by rewrite Nat.add_0_r|].
  cbn [wholeReads fmap list_fmap app File.putChunks]. apply String.eqb_neq in Hd as ->.
  change (((fun d => (d, NoEnd)) <$> chunks) ++ [("", AtEOF)]) with (wholeReads chunks). rewrite IH. cbn. by rewrite Nat.add_succ_r.
Qed.

(** The whole upload, when nothing fails on the side of the client. *)
Lemma put_sends parse Args InputFile chunks remote permissions closed :
  parse Args = Some (remote, permissions) -> InputFile <> "" -> nonEmpty chunks ->
  File.Put sha256 (fun _ => true) parse Args InputFile (Some (wholeReads chunks)) true closed =
    (if closed then Finished else ExitOne, PutOpen remote permissions :: (PutContents <$> chunks) ++ [PutHash (sha256 "")]).
Proof.
  intros Hp Hi Hc. unfold File.Put. rewrite Hp. apply String.eqb_neq in Hi as ->. cbn [negb]. by rewrite putChunks_whole.
Qed.

Lemma payload_chunks acc chunks h :
  payload acc (PutMsg <$> ((PutContents <$> chunks) ++ [PutHash h])) = Some (acc +:+ str_join chunks "", h).
Proof.
  revert acc. induction chunks as [|d chunks IH]; intros acc; [cbn; by rewrite str_app_nil_r|].
  cbn [fmap list_fmap app payload]. fold (PutMsg <$> ((PutContents <$> chunks) ++ [PutHash h])). setoid_rewrite IH.
  destruct chunks; [cbn; by rewrite !str_app_nil_r|]. rewrite (str_join_cons d) by done. by rewrite str_app_assoc.
Qed.
End Put.

(** The hash that the client sends is that of no bytes, computed with another function than
    the one the server verifies with.  As the two functions give hashes of different
    lengths, no upload of any file is ever accepted: whatever the server does, it reports
    an error, and the file on the target stays as it was. *)
Theorem client_upload_refused sha256 md5 fails torn inContainer parse Args InputFile chunks remote permissions closed sendOk w e w' :
  (forall s, String.length (md5 s) = 16) -> (forall s, String.length (sha256 s) = 32) ->
  parse Args = Some (remote, permissions) -> InputFile <> "" -> nonEmpty chunks ->
  HandlePut fails torn inContainer md5
    (PutMsg <$> (File.Put sha256 (fun _ => true) parse Args InputFile (Some (wholeReads chunks)) true closed).2) sendOk w = (e, w') ->
  e <> None /\ forall data perm, let target := translatePathForContainer inContainer remote in
    files w !! target = Some (Reg data perm) -> files w' !! target = Some (Reg data perm).
Proof.
  intros H16 H32 Hp Hi Hc. rewrite (put_sends sha256 _ _ _ _ remote permissions) by done. cbn [snd fmap list_fmap]. intros H.
  assert (~ installed md5 (PutMsg <$> ((PutContents <$> chunks) ++ [PutHash (sha256 "")])) (putMode permissions)
    (translatePathForContainer inContainer remote) (files w')) as Hni.
  { intros (data & Hpl & _). rewrite payload_chunks in Hpl. injection Hpl as _ Hh. apply (f_equal String.length) in Hh.
    rewrite H16, H32 in Hh. done. }
  destruct (put_outcome fails torn inContainer md5 _ _ _ _ _ H) as [[-> He]|(path & perms & rest & Hs & Hv & Ho)]; [by split|].
  injection Hs as <- <- <-. destruct Ho as [_ [[Ht He]|Hin]]; [|by destruct Hni]. split; [done|]. intros data perm. cbv zeta. by rewrite Ht.
Qed.

(** With the hash of the contents, as the server takes it, the upload is accepted and the
    file arrives. *)
Theorem upload_with_right_hash md5 fails torn inContainer chunks remote permissions w :
  (forall n, fails n = false) -> validatePath remote = Ok tt -> remote <> "" ->
  let target := translatePathForContainer inContainer remote in
  (forall q d m, q ∈ ancestors (Dir (target +:+ ".tmp")) -> files w !! q <> Some (Reg d m)) ->
  files w !! target <> Some Directory -> files w !! (target +:+ ".tmp") <> Some Directory ->
  let data := str_join chunks "" in
  exists w', HandlePut fails torn inContainer md5
      (PutMsg <$> (PutOpen remote permissions :: (PutContents <$> chunks) ++ [PutHash (md5 data)])) true w = (None, w') /\
    files w' !! target = Some (Reg data (syscallMode (putMode permissions))).
Proof.
  intros Hf Hv Hr target Ha Ht Htt data.
  destruct (put_installs_ok fails torn inContainer md5 Hf remote permissions
    (PutMsg <$> ((PutContents <$> chunks) ++ [PutHash (md5 data)])) data w Hv Hr) as (w' & H1 & H2 & _); try done.
  - by rewrite payload_chunks.
  - by exists w'.
Qed.

(** ** Downloads *)

Section Download.
Variable fails : nat -> bool.
Variable torn : nat -> nat.

(** The contents that the messages of a download carry. *)
Fixpoint contentsOf (sent : list GetResponse) : string :=
  match sent with
  | GetContents d :: sent => d +:+ contentsOf sent
  | GetHash _ :: sent => contentsOf sent
  | [] => ""
  end.

Lemma getChunks_appends path sent rest acc perm w :
  (forall n, fails n = false) -> files w !! path = Some (Reg acc perm) ->
  exists w', File.getChunks fails torn path ((File.Got <$> sent) ++ rest) w = File.getChunks fails torn path rest w' /\
    files w' !! path = Some (Reg (acc +:+ contentsOf sent) perm).
Proof.
  intros Hf. revert acc w. induction sent as [|[d|h] sent IH]; intros acc w Hw.
  - exists w. by rewrite str_app_nil_r.
  - cbn [fmap list_fmap app File.getChunks]. unfold mbind at 1, IO_bind at 1, writeFile, syscall. rewrite Hf. cbn [negb].
    destruct (IH (acc +:+ d) (mkFW (appendTo path d (files w)) (S (tick w)))) as (w' & Hr & Hw'); [by apply appendTo_lookup|]. exists w'. split; [exact Hr|]. cbn [contentsOf]. by rewrite <-str_app_assoc.
  - by apply IH.
Qed.

(** The client started a download into [path]: what is done after the file was created. *)
Lemma get_created parse Args OutputFile remote stream w :
  (forall n, fails n = false) -> parse Args = Some remote -> let path := File.outputPathOf OutputFile remote in
  files w !! path <> Some Directory ->
  exists w1 perm, files w1 !! path = Some (Reg "" perm) /\
    File.Get fails torn parse Args OutputFile true stream w =
      (r ← File.getChunks fails torn path stream; match r with Finished => _ ← closeFile fails; mret Finished | _ => mret r end) w1.
Proof.
  intros Hf Hp path Hd. unfold File.Get. rewrite Hp. cbn [negb]. fold path. unfold mbind at 1, IO_bind at 1.
  unfold createFile at 1, syscall at 1. rewrite Hf.
  destruct (files w !! path) as [[old perm|]|]; [|done|]; cbn [negb]; eexists _, _; (split; [|reflexivity]); apply lookup_insert_eq.
Qed.

(** A download that the server completes stores exactly the contents that were sent, and
    the command finishes; the hash is not compared. *)
Theorem client_download_stores parse Args OutputFile remote sent w :
  (forall n, fails n = false) -> parse Args = Some remote ->
  files w !! File.outputPathOf OutputFile remote <> Some Directory ->
  exists w' perm, File.Get fails torn parse Args OutputFile true ((File.Got <$> sent) ++ [File.GotEOF]) w = (Finished, w') /\
    files w' !! File.outputPathOf OutputFile remote = Some (Reg (contentsOf sent) perm).
Proof.
  intros Hf Hp Hd. destruct (get_created parse Args OutputFile remote ((File.Got <$> sent) ++ [File.GotEOF]) w Hf Hp Hd) as (w1 & perm & Hw1 & ->).
  unfold mbind at 1, IO_bind at 1.
  destruct (getChunks_appends _ sent [File.GotEOF] _ _ _ Hf Hw1) as (w2 & -> & Hw2). cbn [File.getChunks].
  unfold mret, IO_ret, mbind, IO_bind, closeFile, syscall. rewrite Hf. eexists _, perm. split; [reflexivity|]. exact Hw2.
Qed.

(** A download that the server refuses has already emptied the local file: its error comes
    with the first message, after the file was created. *)
Theorem refused_download_empties parse Args OutputFile remote data perm w :
  (forall n, fails n = false) -> parse Args = Some remote ->
  files w !! File.outputPathOf OutputFile remote = Some (Reg data perm) ->
  exists w', File.Get fails torn parse Args OutputFile true [File.GotErr] w = (ExitOne, w') /\
    files w' !! File.outputPathOf OutputFile remote = Some (Reg "" perm).
Proof.
  intros Hf Hp Hd. unfold File.Get. rewrite Hp. cbn [negb]. unfold mbind at 1, IO_bind at 1, createFile, syscall. rewrite Hf, Hd.
  eexists. split; [reflexivity|]. apply lookup_insert_eq.
Qed.
End Download.

(** Messages that carry contents. *)
Definition onlyContents (sent : list GetResponse) : Prop := Forall (fun m => exists d, m = GetContents d) sent.

Lemma getLoop_contents md5 ctxErr sendOk i k acc reads o sent :
  getLoop md5 ctxErr sendOk i k acc reads = (o, sent) -> onlyContents sent.
Proof.
  revert i k acc o sent. induction reads as [|[d e] reads IH]; intros i k acc o sent; cbn [getLoop]; destruct (ctxErr i);
    try (intros [= <- <-]; by constructor).
  destruct e; [destruct (getLoop _ _ _ _ _ _ reads) as [o' s'] eqn:E; apply IH in E|..]; go_cases; intros; simplify_eq; repeat constructor; eauto.
Qed.

Lemma payload_contents acc s h :
  onlyContents s -> payload acc (toPut <$> s ++ [GetHash h]) = Some (acc +:+ contentsOf (s ++ [GetHash h]), h).
Proof.
  intros Hs. revert acc. induction Hs as [|m s [d ->] Hs IH]; intros acc; [cbn; by rewrite str_app_nil_r|].
  cbn [app fmap list_fmap toPut payload contentsOf]. rewrite <-str_app_assoc. apply IH.
Qed.

Lemma get_messages inContainer md5 maxFileSize fsStat req open ctxErr sendOk sent :
  HandleGet inContainer md5 maxFileSize fsStat req open ctxErr sendOk = (None, sent) ->
  exists s h, sent = s ++ [GetHash h] /\ onlyContents s.
Proof.
  unfold HandleGet. destruct req as [path|]; [|done]. destruct (String.eqb path ""); [done|]. destruct (negb (IsAbs path)); [done|].
  destruct (containerInternal (Clean path)); [done|]. destruct (fsStat _) as [info|]; [|done]. destruct (isDir info); [done|].
  destruct (negb (isRegular info)); [done|]. destruct (maxFileSize <? size info)%Z; [done|]. destruct open as [reads|[]]; try done.
  destruct (getLoop md5 ctxErr sendOk 0 0 "" reads) as [[[h k]|] s] eqn:El; [|done]. destruct (negb (sendOk k)); [done|].
  intros [= <-]. apply getLoop_contents in El. by exists s, h.
Qed.

(** The client and the server together: what a successful Get of the service sends is
    stored by the client as exactly the bytes of the remote file. *)
Theorem download_end_to_end inContainer md5 maxFileSize fsStat fails torn req reads ctxErr sendOk sent parse Args OutputFile remote w :
  HandleGet inContainer md5 maxFileSize fsStat req (Ok reads) ctxErr sendOk = (None, sent) ->
  (forall n, fails n = false) -> parse Args = Some remote ->
  files w !! File.outputPathOf OutputFile remote <> Some Directory ->
  exists w' perm, File.Get fails torn parse Args OutputFile true ((File.Got <$> sent) ++ [File.GotEOF]) w = (Finished, w') /\
    files w' !! File.outputPathOf OutputFile remote = Some (Reg (fileBody reads) perm).
Proof.
  intros Hg Hf Hp Hd. pose proof Hg as (_ & _ & reads' & _ & _ & _ & _ & _ & [= <-] & Hpl)%get_payload.
  apply get_messages in Hg as (s & h & -> & Hs). rewrite payload_contents in Hpl by done. injection Hpl as <- _.
  by apply client_download_stores.
Qed.

(** * Image installation *)

Module InstallDialogue.
Import OsService.OsService.

Section Dialogue.
Variable fails : nat -> bool.
Variable torn : nat -> nat.
Variable ImgDir version : string.
Hypothesis healthy : forall n, fails n = false.
Hypothesis ImgDir_abs : IsAbs ImgDir = true.
Hypothesis ImgDir_not_root : ImgDir <> "/".

Abbreviation imgPath := (getVersionPath ImgDir version).
Abbreviation image := (Clean (getVersionPath ImgDir version)).

Hypothesis inside : has_prefix image ImgDir = true.

(** No file stands where a directory above the image should be. *)
Definition clear (s : OSW) : Prop := forall q d m, q ∈ ancestors (Dir image) -> filesOf s !! q <> Some (Reg d m).

(** The image holds [data]; before the first bytes it need not exist. *)
Definition holds (data : string) (s : OSW) : Prop :=
  (data = "" /\ filesOf s !! image = None) \/ exists perm, filesOf s !! image = Some (Reg data perm).

(** States that differ in the files and the counts only. *)
Definition sameMsgs (s s' : OSW) : Prop := sentMsgs s' = sentMsgs s /\ sem s' = sem s.

Lemma clear_step s fs : clear s -> only [image] (filesOf s) fs -> forall q d m, q ∈ ancestors (Dir image) -> fs !! q <> Some (Reg d m).
Proof.
  intros Hc Ho q d m Hq. rewrite (Ho q); [by apply Hc|]. intros ->%list_elem_of_singleton.
  by apply (image_not_above ImgDir ImgDir_abs ImgDir_not_root version).
Qed.

Lemma content_stores d old s :
  clear s -> holds old s ->
  exists n s' perm, processTransferContent fails torn ImgDir d imgPath s = (TransferProgress n, s') /\ clear s' /\
    filesOf s' !! image = Some (Reg (old +:+ d) perm) /\ sameMsgs s s'.
Proof using healthy ImgDir_abs ImgDir_not_root inside.
  intros Hc Ho. unfold processTransferContent. rewrite safePath_clean, inside by done. cbn [negb].
  pose proof (image_not_above ImgDir ImgDir_abs ImgDir_not_root version inside) as Hna.
  unfold mbind at 1, OS_bind at 1, liftIO at 1, MkdirAll.
  pose proof (mkdirs_ok fails healthy (ancestors (Dir image)) (fw s) Hc) as Hok.
  pose proof (mkdirs_made fails (ancestors (Dir image)) (fw s)) as Hm.
  destruct (mkdirs fails (ancestors (Dir image)) (fw s)) as [ok w1]. cbn in Hok, Hm. subst ok. cbn [negb].
  assert (forall q d m, q ∈ ancestors (Dir image) -> files w1 !! q <> Some (Reg d m)) as Hc1.
  { intros q d' m Hq. destruct (Hm q) as [->|(_ & _ & ->)]; [by apply Hc|done]. }
  assert (files w1 !! image = filesOf s !! image) as Hi by (destruct (Hm image) as [?|[? _]]; done).
  assert (exists w2 perm, openAppend fails image w1 = (true, w2) /\ files w2 !! image = Some (Reg old perm) /\ only [image] (files w1) (files w2))
    as (w2 & perm & Eo & Hw2 & Ho2).
  { unfold openAppend, syscall. rewrite healthy, Hi. destruct Ho as [[-> ->]|[perm Hp]].
    - eexists _, _. split; [reflexivity|]. split; [apply lookup_insert_eq|apply only_insert].
    - rewrite Hp. eexists _, perm. split; [reflexivity|]. split; [exact (eq_trans Hi Hp)|apply only_same]. }
  unfold mbind at 1, OS_bind at 1, liftIO at 1. cbn [fw]. rewrite Eo. cbn [negb].
  unfold mbind at 1, OS_bind at 1, liftIO at 1, writeFile at 1, syscall at 1. cbn [fw]. rewrite healthy. cbn [negb].
  unfold mbind at 1, OS_bind at 1, liftIO at 1, closeFile at 1, syscall at 1. cbn [fw files tick]. rewrite healthy. cbn [negb].
  unfold mbind, OS_bind, addBytes, mret, OS_ret. eexists _, _, perm. split; [reflexivity|]. cbn [fw files sentMsgs sem].
  split; [|split; [by apply appendTo_lookup|by split]].
  intros q d' m Hq. cbn [fw files]. rewrite (only_append image d (files w2) q), (Ho2 q); [by apply Hc1|..]; intros ->%list_elem_of_singleton; by apply Hna.
Qed.

Variable backend : InstallRequest -> BackendReply.

Abbreviation always := (fun _ : nat => true).

Lemma sent_send m s : send always m s = (true, mkOSW (fw s) (totalBytesReceived s) (sem s) (sentMsgs s ++ [m])).
Proof. done. Qed.

Definition isProgress (m : InstallResponse) : Prop := exists n, m = TransferProgress n.

(** The messages of the contents, after the first, to the end of the transfer. *)
Lemma contents_rest chunks old perm s rest :
  clear s -> filesOf s !! image = Some (Reg old perm) ->
  exists progress s' perm', contentLoop fails torn ImgDir always imgPath true (RecvMsg <$> (TransferContent <$> chunks) ++ TransferEnd :: rest) s =
      ((None, true), s') /\
    filesOf s' !! image = Some (Reg (old +:+ str_join chunks "") perm') /\ Forall isProgress progress /\
    sentMsgs s' = sentMsgs s ++ progress.
Proof using healthy ImgDir_abs ImgDir_not_root inside.
  revert old perm s. induction chunks as [|d chunks IH]; intros old perm s Hc Hi.
  { exists [], s, perm. rewrite str_app_nil_r, app_nil_r. by repeat split. }
  cbn [fmap list_fmap app contentLoop]. unfold mbind at 1, OS_bind at 1, mret at 1, OS_ret at 1.
  destruct (content_stores d old s Hc) as (n & s1 & perm1 & E & Hc1 & Hi1 & Hm1 & _); [right; by exists perm|].
  unfold mbind at 1, OS_bind at 1. rewrite E. unfold mbind at 1, OS_bind at 1. rewrite sent_send. cbn [negb isError].
  destruct (IH (old +:+ d) perm1 (mkOSW (fw s1) (totalBytesReceived s1) (sem s1) (sentMsgs s1 ++ [TransferProgress n])) Hc1 Hi1)
    as (progress & s' & perm' & El & Hi' & Hp & Hs). exists (TransferProgress n :: progress), s', perm'. split; [exact El|].
  split_and!.
  - rewrite Hi'. f_equal. f_equal. rewrite str_app_assoc. f_equal. by destruct chunks; [rewrite str_app_nil_r|].
  - constructor; [by exists n|done].
  - rewrite Hs. cbn [sentMsgs]. by rewrite Hm1, <-app_assoc.
Qed.

(** When the transfer ends the image holds the whole contents, and every message of them
    was answered with the progress. *)
Lemma contents_stored chunks s rest :
  chunks <> [] -> clear s -> filesOf s !! image = None ->
  exists progress s' perm, contentLoop fails torn ImgDir always imgPath false (RecvMsg <$> (TransferContent <$> chunks) ++ TransferEnd :: rest) s =
      ((None, true), s') /\
    filesOf s' !! image = Some (Reg (str_join chunks "") perm) /\ Forall isProgress progress /\ sentMsgs s' = sentMsgs s ++ progress.
Proof using healthy ImgDir_abs ImgDir_not_root inside.
  destruct chunks as [|d chunks]; [done|]. intros _ Hc Hi. cbn [fmap list_fmap app contentLoop].
  unfold mbind at 1, OS_bind at 1, imageExists, liftIO at 1, exists_, syscall. rewrite healthy, Hi.
  set (s0 := mkOSW _ _ _ _). destruct (content_stores d "" s0 Hc) as (n & s1 & perm1 & E & Hc1 & Hi1 & Hm1 & _); [by left|].
  unfold mbind at 1, OS_bind at 1. rewrite E. unfold mbind at 1, OS_bind at 1. rewrite sent_send. cbn [negb isError].
  destruct (contents_rest chunks d perm1 (mkOSW (fw s1) (totalBytesReceived s1) (sem s1) (sentMsgs s1 ++ [TransferProgress n])) rest Hc1 Hi1)
    as (progress & s' & perm' & El & Hi' & Hp & Hs). exists (TransferProgress n :: progress), s', perm'. split; [exact El|].
  split_and!.
  - rewrite Hi'. by destruct chunks; [rewrite str_app_nil_r|].
  - constructor; [by exists n|done].
  - rewrite Hs. cbn [sentMsgs]. by rewrite Hm1, <-app_assoc.
Qed.

(** The client, given such answers. *)
Lemma final_progress progress v : Forall isProgress progress -> OS.finalLoop (OS.Resp <$> progress ++ [Validated v]) = Finished.
Proof using Type. intros Hp. induction Hp as [|m l [n ->] Hp IH]; [done|]. exact IH. Qed.

Lemma sendImage_whole k chunks :
  nonEmpty chunks -> OS.sendImage always k (wholeReads chunks) = (true, k + length chunks, TransferContent <$> chunks).
Proof using Type.
  intros Hc. revert k. induction Hc as [|d chunks Hd Hc IH]; intros k; [cbn; by rewrite Nat.add_0_r|].
  cbn [wholeReads fmap list_fmap app OS.sendImage]. apply String.eqb_neq in Hd as ->.
  change (((fun d => (d, NoEnd)) <$> chunks) ++ [("", AtEOF)]) with (wholeReads chunks). rewrite IH. cbn. by rewrite Nat.add_succ_r.
Qed.

Lemma lift_msgs {A} (m : IO A) s : sentMsgs (liftIO m s).2 = sentMsgs s.
Proof using Type. unfold liftIO. by destruct (m (fw s)). Qed.

Lemma remove_msgs s : sentMsgs (removeIncompleteTransfer fails imgPath s).2 = sentMsgs s.
Proof using Type.
  unfold removeIncompleteTransfer, mbind, OS_bind, imageExists. pose proof (lift_msgs (exists_ fails image) s) as H1.
  destruct (liftIO _ s) as [[] s1]; cbn [negb snd] in *; [|done]. pose proof (lift_msgs (FileService.Remove fails image) s1) as H2.
  destruct (liftIO _ s1) as [ok s2]. cbn in *. congruence.
Qed.

(** The server, given the messages of a whole image. *)
Lemma server_installs auth chunks v s :
  auth "gnoi" false = None -> sem s = false -> version <> "" -> chunks <> [] -> clear s -> filesOf s !! image = None ->
  backend (TransferRequest version) = BackendAnswer TransferReady -> backend TransferEnd = BackendAnswer (Validated v) ->
  exists progress s', Forall isProgress progress /\
    Install fails torn ImgDir backend always auth (RecvMsg <$> TransferRequest version :: (TransferContent <$> chunks) ++ [TransferEnd]) s = (None, s') /\
    sentMsgs s' = sentMsgs s ++ TransferReady :: progress ++ [Validated v] /\ sem s' = false.
Proof using healthy ImgDir_abs ImgDir_not_root inside.
  intros Ha Hs Hv Hne Hc Hi Hb Hb'. unfold Install. rewrite Ha, Hs. unfold mbind at 1, OS_bind at 1, setSem at 1.
  unfold mbind at 1, OS_bind at 1. cbn [fmap list_fmap installBody]. unfold processTransferReq.
  rewrite (proj2 (String.eqb_neq _ _) Hv), Hb. unfold mbind at 1, OS_bind at 1. rewrite sent_send. cbn [negb isError sentMsgs fw totalBytesReceived sem].
  set (s1 := mkOSW _ _ _ _). destruct (contents_stored chunks s1 [] Hne Hc Hi) as (progress & s2 & perm & El & Hi2 & Hp & Hm).
  unfold transferImage. unfold mbind at 1, OS_bind at 1. setoid_rewrite El. unfold finishInstall, processTransferEnd. rewrite Hb'.
  unfold mbind at 1, OS_bind at 1. unfold mbind at 1, OS_bind at 1. rewrite sent_send. cbn [negb isError].
  unfold mret at 1, OS_ret at 1. set (s3 := mkOSW _ _ _ _).
  pose proof (remove_msgs s3) as Hr. unfold mbind, OS_bind. destruct (removeIncompleteTransfer fails imgPath s3) as [u s4]. cbn [snd] in Hr.
  unfold mret, OS_ret, setSem. exists progress. eexists. split_and!; [done|reflexivity| |done]. cbn [sentMsgs]. rewrite Hr.
  unfold s3. cbn [sentMsgs]. rewrite Hm. unfold s1. cbn [sentMsgs]. by rewrite <-!app_assoc.
Qed.

(** The client and the server finish an installation together: where nothing fails, there
    is no image of the version yet and the host accepts it, the messages of the client
    make the server answer exactly what the client waits for, both succeed, and the server
    is free for the next installation. *)
Theorem install_dialogue auth parse Args InputFile chunks marshalOk v s :
  auth "gnoi" false = None -> sem s = false -> sentMsgs s = [] -> version <> "" -> chunks <> [] -> nonEmpty chunks ->
  clear s -> filesOf s !! image = None ->
  backend (TransferRequest version) = BackendAnswer TransferReady -> backend TransferEnd = BackendAnswer (Validated v) ->
  parse Args = Some (Some version) -> InputFile <> "" -> (forall r, marshalOk r = true) ->
  exists replies sent s',
    OS.Install marshalOk always parse Args InputFile true (Some (wholeReads chunks)) (OS.Resp <$> replies) = (Finished, sent) /\
    Install fails torn ImgDir backend always auth (RecvMsg <$> sent) s = (None, s') /\ sentMsgs s' = replies /\ sem s' = false.
Proof using healthy ImgDir_abs ImgDir_not_root inside.
  intros Ha Hs Hm Hv Hne Hne' Hc Hi Hb Hb' Hp HI Hok.
  destruct (server_installs auth chunks v s Ha Hs Hv Hne Hc Hi Hb Hb') as (progress & s' & Hpr & Hr & Hms & Hse).
  exists (TransferReady :: progress ++ [Validated v]). eexists _, s'. split; [|split; [exact Hr|split; [by rewrite Hms, Hm|done]]].
  unfold OS.Install. rewrite Hp. apply String.eqb_neq in HI as ->. cbn [negb fmap list_fmap OS.waitLoop]. rewrite Hok. cbn [negb].
  rewrite sendImage_whole by done. cbn [negb]. f_equal. by apply final_progress.
Qed.
End Dialogue.
End InstallDialogue.

(** A stream that ends without the validation of the image is a success for the client. *)
Theorem unvalidated_installation_finishes l :
  Forall (fun r => OsService.isError r = false) l -> OS.finalLoop (OS.Resp <$> l) = Finished.
Proof.
  induction 1 as [|r l Hr Hl IH]; [done|]. cbn [fmap list_fmap OS.finalLoop]. destruct r; try done; exact IH.
Qed.

(** * Packages *)

(** Every request of the client names a remote download, which the server refuses: with
    flags the client accepts, the server reports an invalid argument and does nothing. *)
Theorem client_package_refused os f sendErr w :
  SetPackage.validateFlags f = None ->
  GnoiSystem.HandleSetPackageStream os (Ok (SetPackage.packageRequest f)) sendErr w = (Some InvalidArgument, w).
Proof.
  unfold SetPackage.validateFlags. destruct (String.eqb (SetPackage.package_filename f) "") eqn:E; [done|]. intros _.
  unfold GnoiSystem.HandleSetPackageStream, mbind, GnoiSystem.Act_bind. cbn. by rewrite E.
Qed.

(** * Containers *)

(** A deployment with a path that names a host asks the host service of the switch for
    exactly what the arguments say: the download from that host with these credentials,
    the loading and the removal of the file. *)
Theorem client_deploys bus show auth args host remotePath suffix sendErr w :
  auth "gnoi" true = None -> Containerz.Path_ args = host +:+ ":" +:+ remotePath -> str_free (Ascii.ascii_of_nat 58) host ->
  GnoiServices.Containerz.Deploy bus show auth (Ok (Containerz.deployRequest args)) (Some suffix) sendErr w =
    (let '(e, w') := GnoiServices.Containerz.hostSteps bus show
       (ContainerzProofs.deploySteps host (Containerz.Username args) (Containerz.Password args) remotePath "SFTP"
         (GnoiServices.Containerz.localPath (Containerz.Name args) suffix)) w in
     (match e with Some _ => Some Internal | None => if sendErr then Some Internal else None end, w')).
Proof.
  intros Ha Hp Hf. unfold GnoiServices.Containerz.Deploy, Containerz.deployRequest. rewrite Ha.
  cbn [GnoiServices.Containerz.iRemote GnoiServices.Containerz.rdPath]. rewrite Hp.
  change ":" with (String (Ascii.ascii_of_nat 58) ""). by rewrite splitn2_sep.
Qed.

(** * Health *)

Module Paths.
Import Healthz.

Lemma last_index_none c s : str_free c s -> last_index s c = None.
Proof.
  induction s as [|d s IH]; [done|]. cbn. intros [Hne Hs]. rewrite IH by done. destruct (Ascii.eqb_spec d c); congruence.
Qed.

Lemma cutLast_at c a b : str_free c b -> cutLast c (a +:+ String c b) = Some (a, b).
Proof.
  intros Hb. assert (last_index (a +:+ String c b) c = Some (String.length a)) as E.
  { induction a as [|d a IH]; [change ("" +:+ String c b) with (String c b); cbn [last_index]; by rewrite last_index_none, Ascii.eqb_refl|]. rewrite str_app_cons. cbn [last_index]. by rewrite IH. }
  unfold cutLast. rewrite E, strtake_app. f_equal. f_equal. clear E. induction a as [|d a IH]; [done|]. rewrite str_app_cons. exact IH.
Qed.

(** A path element with at most one key, as it is written. *)
Definition Elem : Type := string * option (string * string).

Definition render (e : Elem) : string :=
  match e with
  | (n, None) => n
  | (n, Some (k, v)) => n +:+ String lbracket (k +:+ String equals (v +:+ String rbracket ""))
  end.

Definition toElem (e : Elem) : PathElem :=
  match e with (n, None) => mkElem n ∅ | (n, Some (k, v)) => mkElem n {[k := v]} end.

(** Text without a slash and a line feed. *)
Definition inPart (s : string) : Prop := str_free slash s /\ str_free lf s.

Definition wfElem (e : Elem) : Prop :=
  match e with
  | (n, None) => n <> "" /\ inPart n /\ str_free rbracket n
  | (n, Some (k, v)) => inPart n /\ inPart k /\ str_free lbracket k /\ inPart v /\ str_free equals v /\ str_trim_func isQuote v = v
  end.

Lemma matchLine_elem n k v : str_free lbracket k -> str_free equals v -> matchLine (render (n, Some (k, v))) = Some (n, k, v).
Proof.
  intros Hk Hv. unfold matchLine, render.
  replace (n +:+ String lbracket (k +:+ String equals (v +:+ String rbracket ""))) with
    ((n +:+ String lbracket (k +:+ String equals v)) +:+ String rbracket "").
  - rewrite cutLast_at by done. replace (n +:+ String lbracket (k +:+ String equals v)) with ((n +:+ String lbracket k) +:+ String equals v).
    + rewrite cutLast_at by done. by rewrite cutLast_at.
    + by rewrite !str_app_assoc, str_app_cons.
  - by rewrite !str_app_assoc, !str_app_cons, !str_app_assoc, str_app_cons.
Qed.

Lemma one_line s : str_free lf s -> str_split s (String lf "") = [s].
Proof. intros Hs. unfold str_split. by rewrite split_go_free. Qed.

Lemma parsePart_render e : wfElem e -> parsePart (render e) = toElem e.
Proof.
  destruct e as [n [[k v]|]]; cbn [wfElem toElem]; unfold parsePart, FindStringSubmatch.
  - intros ([_ Hn] & [_ Hk] & Hk' & [_ Hv] & Hv' & Ht). rewrite one_line.
    + cbn [matchLines]. rewrite matchLine_elem by done. by rewrite Ht.
    + unfold render. rewrite str_free_app. split; [done|]. split; [done|]. rewrite str_free_app. split; [done|]. split; [done|].
      rewrite str_free_app. split; [done|]. by repeat split.
  - intros (_ & [_ Hn] & Hb). cbn [render]. rewrite one_line by done. cbn [matchLines]. unfold matchLine, cutLast. by rewrite last_index_none.
Qed.

Lemma render_part e : wfElem e -> str_free slash (render e) /\ render e <> "".
Proof.
  destruct e as [n [[k v]|]]; cbn [wfElem render].
  - intros ([Hn _] & [Hk _] & _ & [Hv _] & _). split; [|by destruct n].
    rewrite str_free_app. split; [done|]. split; [done|]. rewrite str_free_app. split; [done|]. split; [done|].
    rewrite str_free_app. split; [done|]. by repeat split.
  - by intros (? & [? _] & _).
Qed.

(** A path that is written out is parsed into its elements, for elements with at most one
    key whose text does not contain the separators. *)
Theorem path_roundtrip l : Forall wfElem l -> parsePath ("/" +:+ str_join (render <$> l) "/") = toElem <$> l.
Proof.
  intros Hl. unfold parsePath. rewrite trim_prefix_app. destruct (decide (l = [])) as [->|Hne]; [done|].
  change "/" with (String slash ""). rewrite split_join.
  - clear Hne. induction Hl as [|e l He Hl IH]; [done|]. cbn [fmap list_fmap List.filter].
    rewrite (proj2 (String.eqb_neq _ _) (proj2 (render_part e He))). cbn [negb fmap list_fmap]. rewrite parsePart_render by done. by f_equal.
  - by destruct l.
  - apply Forall_fmap. eapply Forall_impl; [exact Hl|]. intros e He. by apply render_part.
Qed.

(** A component name that can be given on the command line. *)
Definition plainValue (c : string) : Prop := inPart c /\ str_free equals c /\ str_trim_func isQuote c = c.

(** The health path of a component is understood by the server, which collects the data of
    that component at that level. *)
Theorem health_path_understood c level :
  plainValue c -> level = "alert" \/ level = "critical" \/ level = "all" ->
  let elems := parsePath ("/components/component[name=" +:+ c +:+ "]/healthz/" +:+ level +:+ "-info") in
  GnoiServices.Healthz.isDebugData (Some elems) = true /\
  exists e0 e1 e2 e3, elems = [e0; e1; e2; e3] /\ elem_key e1 !! "name" = Some c /\ trim_suffix (elem_name e3) "-info" = level.
Proof.
  intros ([Hs Hf] & He & Ht) Hl elems.
  assert (elems = [mkElem "components" ∅; mkElem "component" {["name" := c]}; mkElem "healthz" ∅; mkElem (level +:+ "-info") ∅]) as ->.
  { unfold elems. transitivity (toElem <$> [("components", None); ("component", Some ("name", c)); ("healthz", None); (level +:+ "-info", None)]); [|done].
    rewrite <-path_roundtrip.
    - apply (f_equal parsePath). transitivity ("/components/component[name=" +:+ (c +:+ "]") +:+ "/healthz/" +:+ level +:+ "-info");
        [by rewrite str_app_assoc|reflexivity].
    - rewrite !Forall_cons. split_and!; [by repeat split|by repeat split|by repeat split| |done].
      destruct Hl as [->|[->| ->]]; by repeat split. }
  split.
  - unfold GnoiServices.Healthz.isDebugData. cbn [elem_name elem_key]. rewrite map_size_singleton, lookup_singleton_eq.
    by destruct Hl as [->|[->| ->]].
  - eexists _, _, _, _. split; [reflexivity|]. cbn [elem_key elem_name]. rewrite lookup_singleton_eq. split; [done|]. apply trim_suffix_app.
Qed.

(** A slash in a key value ends the element, and of two keys only the last is one. *)
Theorem slash_in_key_splits :
  parsePath "/components/component[name=Ethernet1/1]/healthz" =
    [mkElem "components" ∅; mkElem "component[name=Ethernet1" ∅; mkElem "1]" ∅; mkElem "healthz" ∅].
Proof. by vm_compute. Qed.

Theorem second_key_swallows_first :
  parsePath "/a[x=1][y=2]" = [mkElem "a[x=1]" {["y" := "2"]}].
Proof. by vm_compute. Qed.

Lemma artifact_chunks reads n rest :
  artifactLoop n ((AMsg <$> (GnoiServices.Healthz.RBytes <$> reads)) ++ rest) = artifactLoop (n + String.length (foldr String.append "" reads)) rest.
Proof.
  revert n. induction reads as [|d reads IH]; intros n; [by rewrite Nat.add_0_r|]. cbn [fmap list_fmap app artifactLoop foldr].
  setoid_rewrite IH. by rewrite str_length_app, Nat.add_assoc.
Qed.

(** An artifact that the server sent completely is received completely: the client counts
    the bytes of all its pieces, which are those the header announces when the file has
    not changed. *)
Theorem artifact_bytes_counted readFile sha256 sendErr file seekOk reads readFails out :
  GnoiServices.Healthz.Artifact readFile sha256 sendErr file seekOk reads readFails = (None, out) ->
  Artifact true (AMsg <$> out) = (Finished, String.length (foldr String.append "" reads)).
Proof.
  intros (path & data & h & _ & _ & -> & _)%GnoiServicesProofs.HealthzProofs.artifact_verifiable.
  cbn [fmap list_fmap Artifact artifactLoop]. rewrite fmap_app. by setoid_rewrite artifact_chunks.
Qed.
End Paths.

(** * Witnesses *)

(** Hashes of a fixed length. *)
Definition hash16 (s : string) : string := "0123456789abcdef".
Definition hash32 (s : string) : string := "0123456789abcdef0123456789abcdef".

Lemma client_upload_refused_witness :
  exists e w', HandlePut never (fun _ => 0) false hash16
      (PutMsg <$> (File.Put hash32 (fun _ => true) (fun _ => Some ("/tmp/x", 0%N)) "{}" "x" (Some (wholeReads ["ab"; "c"])) true true).2) true demo_fw = (e, w') /\
    e <> None.
Proof.
  eexists _, _. split; [apply surjective_pairing|].
  eapply (client_upload_refused hash32 hash16 never (fun _ => 0) false (fun _ => Some ("/tmp/x", 0%N)) "{}" "x" ["ab"; "c"] "/tmp/x" 0 true true demo_fw);
    [done|done|done|done|by repeat constructor|apply surjective_pairing].
Defined.

Lemma install_dialogue_witness :
  exists replies sent s',
    OS.Install (fun _ => true) (fun _ => true) (fun _ => Some (Some "v1")) "{}" "image" true (Some (wholeReads ["ab"; "c"])) (OS.Resp <$> replies) = (Finished, sent) /\
    OsService.Install never (fun _ => 0) "/tmp/host_tmp" demo_backend (fun _ => true) (fun _ _ => None) (OsService.RecvMsg <$> sent) (idle ∅) = (None, s') /\
    OsService.sentMsgs s' = replies /\ OsService.sem s' = false.
Proof.
  apply (InstallDialogue.install_dialogue never (fun _ => 0) "/tmp/host_tmp" "v1" ltac:(done) ltac:(done) ltac:(done) ltac:(by vm_compute)
    demo_backend (fun _ _ => None) (fun _ => Some (Some "v1")) "{}" "image" ["ab"; "c"] (fun _ => true) "v1" (idle ∅)); try done.
  by repeat constructor.
Defined.

Lemma health_path_understood_witness :
  GnoiServices.Healthz.isDebugData (Some (Healthz.parsePath "/components/component[name=all]/healthz/alert-info")) = true.
Proof. apply (Paths.health_path_understood "all" "alert"); [by repeat split|by left]. Defined.
